(* ===== verification/_CoqProject ===== *)
-Q . S2P
Prelude.v
CInt.v
Memmap.v
MemmapSem.v
Separate.v
Sanitise.v
RangeAlloc.v
Pmm.v
PmmFacts.v
PmmProps.v
PmmInit.v
PmmUefi.v
Elsewhere.v
Relocation.v
Qoi.v
QoiProps.v
Libc.v
LibcProps.v
Guid.v
Utf.v
Blake2b.v
Volume.v
Gpt.v
Mbr.v
Print.v
Vmm.v
VmmProps.v
VmmPmm.v
Config.v
ConfigText.v
ConfigMacro.v
ConfigMenu.v
ConfigProps.v
Fat.v
FatChain.v
FatDir.v
FatOpen.v
FatProps.v
Iso.v
IsoFacts.v
IsoOpen.v
IsoProps.v
File.v
FileDrivers.v
Uri.v
UriText.v
UriOpen.v
UriLoad.v
UriProps.v
Elf.v
ElfLoad.v
ElfFacts.v
ElfPatch.v
ElfProps.v
ElfElsewhere.v
ElfCorrect.v
ElfStatic.v
Pe.v
PeProps.v
PeCorrect.v
Pagemap.v
PagemapFacts.v
PagemapCorrect.v
HostDevice.v
HostGpt.v
Host.v
HostJournal.v
HostUndo.v
HostCorrect.v
HostProps.v
HostEnroll.v
Mtrr.v
MtrrProps.v
Limlz.v
LimlzDec.v
LimlzRange.v
LimlzSymbols.v
LimlzLoop.v
LimlzBcj.v
LimlzProps.v
