(* ===== verification/Prelude.v ===== *)
(** * A verification of the Limine boot loader

    Limine is a multi-protocol boot loader in C for BIOS and UEFI machines.  It
    brings up a physical memory allocator over the firmware's memory map, finds
    the partitions of the disks and reads files from FAT and ISO 9660 volumes on
    them, parses its configuration file into a menu, loads a kernel, and hands
    the machine over with page tables and a memory map.  This library models the
    parts that are algorithms on data (memory maps, allocators, page tables, text,
    hashes, partition tables, file systems, the configuration language, URIs,
    images, executables, the compressed stage 2, the tool that installs the loader)
    and proves that they do what they are for.

    ** How C is modelled

    An unsigned [w]-bit integer is a [Z] and arithmetic that may leave its range
    is written with [wrap w] ([CInt]).  A function returns a [res]: [Ok],
    [Panic] with the message of the source's call of [panic], [Fault] for an
    access outside an object, or [NoFuel].  A buffer is the list of its bytes and
    a pointer into it an offset; structures are records, arrays lists.  Loops
    that are not structural run on fuel computed from their variant, and the
    total-correctness theorems show that [NoFuel] and [Fault] never come out.
    [res_post Q E r] says so: [r] returns a value in [Q] or panics with a message
    in [E].  Firmware services, the disk driver and entropy are parameters, with
    the behaviour relied on as hypotheses or as a class with laws.

    ** The parts, and where they are

    - [Prelude]: outcomes, tactics, hint databases, lemmas on lists.
      [CInt]: widths and the checked macros of [common/lib/misc.h].

    - Memory map, [common/mm/pmm.s2.c].  [Memmap]: entries, [align_entry],
      [pmm_sanitise_entries], [pmm_new_entry], [memmap_alloc_range_in].
      [MemmapSem]: what a map means, the set of addresses of each type.
      [Separate] and [Sanitise] prove the sanitiser: it terminates, its result is
      sorted, merged and free of overlaps with usable memory, and it means what
      the input meant.  [RangeAlloc] proves reservation of a range
      and how many entries it can add.

    - Allocator, [common/mm/pmm.s2.c] and [pmm.c].  [Pmm]: the global state with
      physical memory as bytes; [ext_mem_alloc], [conv_mem_alloc], [pmm_free],
      [pmm_realloc] and the BIOS initialisation.  [PmmFacts] states the contract
      of an allocation as a relation between states; [PmmProps] has the theorems:
      blocks are aligned, zeroed, were usable, are disjoint, and freeing them
      restores the map.  [PmmInit]: bringing the map up from E820.  [PmmUefi]:
      building the map from EFI descriptors, claiming pages from the firmware,
      sparing its stack, giving memory back.

    - Library code.  [Libc] and [LibcProps]: [libc.s2.c], [libc.c],
      [memory.s2.c], number parsing of [misc.s2.c].  [Guid]: [guid.c].  [Utf]:
      [utf.s2.c].  [Print]: [vprint] of [print.s2.c].  [Blake2b]: the hash of
      [crypt/blake2b.c] and the file handle that hashes what is read.

    - Disks, [common/lib/part.s2.c].  [Volume]: the block cache and [volume_read]
      over the disk driver.  [Gpt] reads through the class [ByteReader], which
      [Volume]'s result discharges: CRC-32, what makes a header valid, the search for
      one, partitions.  [Mbr]:
      primary partitions and the walk of extended boot records with its memo, and
      the volume index.

    - FAT, [common/fs/fat32.s2.c].  [Fat]: the driver over [ByteReader].
      [FatChain]: geometry, cluster chains and reading them;
      [FatDir]: directories and long names against a listing, and the names a
      directory laid out by the specification is found by; [FatOpen]: paths;
      [FatProps]: the theorems.

    - ISO 9660, [common/fs/iso9660.s2.c].  [Iso]: the driver with Rock Ridge
      names; [IsoFacts], [IsoOpen]: lemmas on records, names, directories
      and paths; [IsoProps]: no image, however malformed, makes it
      read outside its buffers; files in a well-formed directory are found, and
      reading returns their bytes.

    - Files.  [File]: the interface of the file layer as a class; [FileDrivers]:
      [common/fs/file.s2.c] over the drivers, which discharges it.  [Uri]: parsing
      and dispatch of [common/lib/uri.c]; [UriOpen]: loading, with the gzip layer
      of [common/compress/gzip.c].  [UriText] and [UriLoad]: lemmas; [UriProps]: what is handed out
      has the digest the URI names, and a file that is there gets loaded.

    - Configuration, [common/lib/config.c].  [Config]: the code.  [ConfigText]:
      normalisation and lines; [ConfigMacro]: macros, loaded and expanded in two
      passes; [ConfigMenu]: the menu tree as a forest;
      [ConfigProps]: a file's menu and its values, end to end, and macro expansion
      of any text.

    - Paging, [common/mm/vmm.c] for x86-64.  [Vmm] is written against the class
      [TableMemory] with [TableLaws]; [VmmProps] proves [map_page] and
      [map_pages] through what the processor translates; [VmmPmm] shows that the
      allocator of [Pmm] provides the interface and states the theorems on it.

    - [Pagemap]: [build_pagemap] of [common/protos/limine.c] over [Vmm] and [Pmm];
      [PagemapFacts]: lemmas; [PagemapCorrect]: the tables
      translate the executable, the direct map, the identity map that the base
      revision asks for, the framebuffers and nothing else.

    - Executables, [common/lib/elf.c].  [Elf]: structures, validation, the tables
      of the dynamic segment, relocation on the four architectures.  [ElfLoad]:
      sections, ranges, [elf64_load] with its random slide, and loading for a
      later move.  [ElfFacts] reads the tables within the file and shows
      that the two passes over RELR and RELA tables agree and list what the
      tables encode; [ElfPatch] gives the formulas of relocation; [ElfProps]
      proves [elf64_load] against the image the file describes, [ElfElsewhere]
      the other loaders.  The allocator is the
      class [ImageAllocator], which [ElfCorrect] discharges with [Pmm];
      [ElfCorrect] has the theorems, for every file however malformed, and
      [ElfStatic] shows that a well-formed static executable is not refused.

    - PE executables, [common/lib/pe.c].  [Pe]: the loader over the allocator
      of [ElfLoad]; [PeProps]: lemmas; [PeCorrect]: the image and its
      ranges, for every file.

    - Kernels that go to fixed addresses.  [Elsewhere]: [common/lib/elsewhere.c],
      the choice of targets with its lemmas; [Relocation]: the copying
      stub [common/protos/multiboot_reloc.asm_x86], and that it delivers every
      piece although sources and targets overlap.

    - [Qoi] and [QoiProps]: the image decoder [common/lib/qoi.c] against the
      format, and on malformed files.

    - [Mtrr] and [MtrrProps]: [common/mm/mtrr.c] and its use in
      [common/lib/fb.c]: the memory types the registers give, and that they are
      restored after any sequence of uses.

    - The host tool, [host/limine.c].  [HostDevice]: the device with its one-block
      cache and the journal, in a state and error monad; [HostGpt]: the search for
      a GPT; [Host]: [bios_install] and its clean-up; [HostEnroll]:
      [enroll_config] with its theorem.  [HostJournal]: the cache is transparent, and
      the invariant that the journal restores the device; [HostUndo]: a failed installation leaves no trace, uninstalling
      restores, and an example of a write that is cut short and not undone;
      [HostCorrect]:
      what an installation changes; [HostProps]: the stages are where the boot
      sector looks for them, the partitions are untouched, and an ordinary disk is
      not refused.

    - The compressed stage 2.  [Limlz] models [tools/limlzpack.c], which packs
      stage 2 when the loader is built, and [LimlzDec] models the decoder that
      runs in [stage1/decompressor.asm], on its registers and locals.
      [LimlzRange] relates the interval of the encoder to the code of the decoder,
      carries and delayed bytes included; [LimlzSymbols] the trees, lengths,
      distances and literals; [LimlzLoop] the choice of matches and the turns of
      the two loops; [LimlzBcj] the x86 filter, whose history makes both sides take
      the same decisions.  [LimlzProps] composes them: every stage 2 that fits
      comes out of the decoder as it went into the compressor, and on any other
      stream the decoder stays inside its memory and ends with its error or with an
      output that has the size and CRC of the header.

    ** Bounds and fuel

    The sanitiser's loops have explicit variants over the entries ([Separate],
    [Sanitise]).  [Mbr] stops an extended chain after the source's own
    [MAX_EBRS].  [map_page] recurses at most twice ([MAP_FUEL] is 3).  The loops
    of [Config] are bounded by the length of the text, those of [Utf] by their
    input, those of [Fat] by the number of clusters, which the source bounds
    itself, and by directory sizes.  None of these bounds a theorem: where a
    function takes fuel, the fuel is part of its definition and the theorem says
    that it suffices.

    Inflating a file is bounded by [2 ^ 64] less what has been written; the
    inflater, which is not part of the repository, is a parameter: a tree of
    requests for input and of output.  Reading and writing the device of the host
    tool moves at least a byte per turn; 65 doublings and 64 halvings are enough
    to find the last block; the search for the marker of [enroll_config] has a
    lexicographic variant.  A block of [Mtrr] is at least a page.
    Each turn of the two loops of [Limlz] and [LimlzDec] handles a byte at least; the
    adjustment of an operand takes two turns at most, by the history.

    The loops of [Elf] run over the program headers, over the tables of a file
    shorter than 2 GiB, and over at most 0x10000 random slides, which is the
    source's own limit; a RELR bitmap has 63 bits.

    In [Config], [Fat] and [Elf] the buffers of [ext_mem_alloc] are fresh zeroed objects:
    the allocator panics instead of returning NULL, and this panic is the one
    outcome not represented there.

    ** Not modelled

    Interaction with hardware and firmware (terminals, framebuffers, disk,
    network and input drivers, interrupt and processor set-up, ACPI and TPM
    services, entry points) is register and firmware access with little to state
    about it in a shallow embedding.  The inflater and the terminal are libraries
    that are not in the repository.  The page-table code of the other
    architectures, the paths of [uri.c] that the 32-bit build uses for memory
    above 4 GiB, the search for the configuration file, the menu and its editor,
    the requests of the Limine protocol other than the address space, the other
    boot protocols, and the reading of arguments and the messages of the host
    tool are not modelled. *)
From stdpp Require Export base list sets numbers strings.
From Stdlib Require Export ZArith Lia.
#[export] Set Default Goal Selector "!".
#[global] Open Scope Z_scope.

(** ** Outcomes of a C computation

    [Ok] is a normal return.  [Panic] is a call of [panic()], which does not
    return.  [Fault] is an access outside the object a pointer points into,
    which C leaves undefined.  [NoFuel] is a loop that ran past its declared
    variant; every total-correctness theorem excludes the last two. *)
Inductive res (A : Type) : Type :=
| Ok (a : A)
| Panic (msg : string)
| Fault
| NoFuel.
Arguments Ok {A} a.
Arguments Panic {A} msg.
Arguments Fault {A}.
Arguments NoFuel {A}.

Definition rbind {A B : Type} (r : res A) (k : A -> res B) : res B :=
  match r with
  | Ok a => k a
  | Panic msg => Panic msg
  | Fault => Fault
  | NoFuel => NoFuel
  end.

Declare Scope res_scope.
Delimit Scope res_scope with res.
Notation "'let!' x ':=' c 'in' k" := (rbind c (fun x => k))
  (at level 10, x pattern, c at level 200, k at level 200) : res_scope.
#[global] Open Scope res_scope.

(** [res_post Q E r]: [r] returns a value satisfying [Q], or panics with a
    message satisfying [E]; it neither faults nor runs out of fuel. *)
Definition res_post {A : Type} (Q : A -> Prop) (E : string -> Prop) (r : res A) : Prop :=
  match r with
  | Ok a => Q a
  | Panic msg => E msg
  | Fault => False
  | NoFuel => False
  end.

Definition no_panic (msg : string) : Prop := False.

Definition of_option {A : Type} (o : option A) : res A :=
  match o with Some a => Ok a | None => Fault end.

(** Reading and writing an array object at an index: outside it is a fault. *)
Definition rd {A : Type} (l : list A) (i : nat) : res A := of_option (l !! i).

Definition wr {A : Type} (l : list A) (i : nat) (x : A) : res (list A) :=
  if (i <? length l)%nat then Ok (<[i := x]> l) else Fault.

(** ** Loops with a declared variant

    [body s] returns [inl s'] to go round again and [inr r] to leave the loop
    with [r].  The binary fuel is computed from the variant of the initial
    state, so it can be astronomically large and still evaluate. *)
Section Loop.
Context {S R : Type}.
Variable body : S -> res (S + R).

Fixpoint iter_pos (p : positive) (s : S) : res (S + R) :=
  match p with
  | xH => body s
  | xO q =>
      match iter_pos q s with
      | Ok (inl s') => iter_pos q s'
      | r => r
      end
  | xI q =>
      match body s with
      | Ok (inl s') =>
          match iter_pos q s' with
          | Ok (inl s'') => iter_pos q s''
          | r => r
          end
      | r => r
      end
  end.

Definition loop (mu : S -> Z) (s : S) : res R :=
  match iter_pos (Z.to_pos (mu s + 1)) s with
  | Ok (inl _) => NoFuel
  | Ok (inr r) => Ok r
  | Panic msg => Panic msg
  | Fault => Fault
  | NoFuel => NoFuel
  end.

(** What one turn of the loop has to establish. *)
Definition turn_ok (I : S -> Prop) (mu : S -> Z) (Q : R -> Prop) (E : string -> Prop)
    (s : S) : Prop :=
  res_post (fun o => match o with
                     | inl s' => I s' /\ 0 <= mu s' < mu s
                     | inr r => Q r
                     end) E (body s).

Lemma iter_pos_spec (I : S -> Prop) mu Q E :
  (forall s, I s -> turn_ok I mu Q E s) ->
  forall p s, I s ->
  res_post (fun o => match o with
                     | inl s' => I s' /\ 0 <= mu s' /\ mu s' + Z.pos p <= mu s
                     | inr r => Q r
                     end) E (iter_pos p s).
Proof.
  intros Hb p. induction p as [q IH|q IH|]; intros s Hs; simpl.
  - pose proof (Hb s Hs) as H1. unfold turn_ok in H1.
    destruct (body s) as [[s'|r]|m| |]; simpl in *; try done.
    destruct H1 as [Hs' Hmu]. specialize (IH s' Hs') as H2.
    destruct (iter_pos q s') as [[s2|r]|m| |] eqn:E2; simpl in *; try done.
    destruct H2 as (Hs2 & ? & ?). specialize (IH s2 Hs2) as H3.
    destruct (iter_pos q s2) as [[s3|r]|m| |]; simpl in *; try done.
    destruct H3 as (? & ? & ?). split_and!; [done|lia|lia].
  - specialize (IH s Hs) as H2.
    destruct (iter_pos q s) as [[s2|r]|m| |] eqn:E2; simpl in *; try done.
    destruct H2 as (Hs2 & ? & ?). specialize (IH s2 Hs2) as H3.
    destruct (iter_pos q s2) as [[s3|r]|m| |]; simpl in *; try done.
    destruct H3 as (? & ? & ?). split_and!; [done|lia|lia].
  - pose proof (Hb s Hs) as H1. unfold turn_ok in H1.
    destruct (body s) as [[s'|r]|m| |]; simpl in *; try done.
    destruct H1 as [? ?]. split_and!; [done|lia|lia].
Qed.

(** Total correctness of a loop: invariant, variant, postcondition. *)
Lemma loop_spec (I : S -> Prop) mu Q E s :
  (forall s, I s -> turn_ok I mu Q E s) ->
  I s -> 0 <= mu s -> res_post Q E (loop mu s).
Proof.
  intros Hb Hs H0. unfold loop.
  pose proof (iter_pos_spec I mu Q E Hb (Z.to_pos (mu s + 1)) s Hs) as H.
  destruct (iter_pos _ s) as [[s2|r]|m| |]; simpl in *; try done.
  destruct H as (? & ? & ?). rewrite Z2Pos.id in *; lia.
Qed.
End Loop.

(** ** Reasoning about outcomes *)
Lemma res_post_bind {A B} (Q : A -> Prop) (Q' : B -> Prop) E r k :
  res_post Q E r -> (forall a, Q a -> res_post Q' E (k a)) -> res_post Q' E (rbind r k).
Proof. destruct r; simpl; auto; done. Qed.

Lemma res_post_mono {A} (Q Q' : A -> Prop) (E E' : string -> Prop) r :
  res_post Q E r -> (forall a, Q a -> Q' a) -> (forall m, E m -> E' m) -> res_post Q' E' r.
Proof. destruct r; simpl; auto. Qed.

Lemma res_post_ok {A} (Q : A -> Prop) E r a :
  res_post Q E r -> r = Ok a -> Q a.
Proof. intros H ->. exact H. Qed.

Lemma res_post_total {A} (Q : A -> Prop) r :
  res_post Q no_panic r -> exists a, r = Ok a /\ Q a.
Proof. destruct r; simpl; eauto; done. Qed.

Lemma rd_lookup {A} (l : list A) i x : l !! i = Some x -> rd l i = Ok x.
Proof. unfold rd. by intros ->. Qed.

Lemma rd_post {A} (l : list A) i Q E :
  (i < length l)%nat -> (forall x, l !! i = Some x -> Q x) -> res_post Q E (rd l i).
Proof.
  intros H HQ. destruct (lookup_lt_is_Some_2 l i H) as [x Hx].
  rewrite (rd_lookup _ _ _ Hx). simpl. auto.
Qed.

Lemma wr_lt {A} (l : list A) i x : (i < length l)%nat -> wr l i x = Ok (<[i := x]> l).
Proof. unfold wr. intros H. by rewrite (proj2 (Nat.ltb_lt _ _) H). Qed.

(** ** Automation *)
Create HintDb limine.

(** Turn the boolean tests of the code into propositions. *)
Ltac bool_hyps :=
  repeat match goal with
  | H : (_ && _) = true |- _ => apply andb_true_iff in H; destruct H
  | H : (_ && _) = false |- _ => apply andb_false_iff in H
  | H : (_ || _) = true |- _ => apply orb_true_iff in H
  | H : (_ || _) = false |- _ => apply orb_false_iff in H; destruct H
  | H : negb _ = true |- _ => apply negb_true_iff in H
  | H : negb _ = false |- _ => apply negb_false_iff in H
  | H : (_ <? _)%Z = true |- _ => apply Z.ltb_lt in H
  | H : (_ <? _)%Z = false |- _ => apply Z.ltb_ge in H
  | H : (_ <=? _)%Z = true |- _ => apply Z.leb_le in H
  | H : (_ <=? _)%Z = false |- _ => apply Z.leb_gt in H
  | H : (_ =? _)%Z = true |- _ => apply Z.eqb_eq in H
  | H : (_ =? _)%Z = false |- _ => apply Z.eqb_neq in H
  | H : (_ <? _)%nat = true |- _ => apply Nat.ltb_lt in H
  | H : (_ <? _)%nat = false |- _ => apply Nat.ltb_ge in H
  | H : (_ <=? _)%nat = true |- _ => apply Nat.leb_le in H
  | H : (_ <=? _)%nat = false |- _ => apply Nat.leb_gt in H
  | H : (_ =? _)%nat = true |- _ => apply Nat.eqb_eq in H
  | H : (_ =? _)%nat = false |- _ => apply Nat.eqb_neq in H
  end.

(** Split on the first boolean test of the goal, recording it. *)
Ltac case_if :=
  match goal with
  | |- context [if ?b then _ else _] =>
      let Hb := fresh "Hb" in destruct b eqn:Hb; bool_hyps
  end.

(** As [bool_hyps], splitting the disjunctions too. *)
Ltac bool_cases :=
  bool_hyps;
  repeat match goal with
  | H : _ = true \/ _ = true |- _ => destruct H; bool_hyps
  | H : _ = false \/ _ = false |- _ => destruct H; bool_hyps
  end.

(** Split every test of the goal and close the arithmetic cases. *)
Ltac solve_ifs := repeat case_if; bool_cases; try done; try lia; try (f_equal; lia).

(** ** Counting loops

    [for_range n i body s] is [for (k = i; k < i + n; k++) s = body k s]. *)
Fixpoint for_range {T : Type} (n i : nat) (body : nat -> T -> res T) (s : T) : res T :=
  match n with
  | O => Ok s
  | S n' => let! s' := body i s in for_range n' (S i) body s'
  end.

Lemma for_range_spec {T} (I : nat -> T -> Prop) E body n :
  forall i s,
  (forall k s, (i <= k < i + n)%nat -> I k s -> res_post (I (S k)) E (body k s)) ->
  I i s -> res_post (I (i + n)%nat) E (for_range n i body s).
Proof.
  induction n as [|n IH]; intros i s Hb Hs; simpl.
  - by rewrite Nat.add_0_r.
  - eapply res_post_bind; [apply Hb; [lia|done]|].
    intros s' Hs'. replace (i + S n)%nat with (S i + n)%nat by lia.
    apply IH; [|done]. intros k s2 Hk. apply Hb. lia.
Qed.

(** ** Lists *)
Section Lists.
Context {A : Type}.

(** [m[i] = m[count - 1]; count--]: removal from an unordered array. *)
Definition swap_remove (l : list A) (i : nat) : list A :=
  let l' := if (i <? length l - 1)%nat
            then match last l with Some x => <[i := x]> l | None => l end
            else l in
  take (length l - 1) l'.

Lemma swap_remove_perm (l : list A) i x :
  l !! i = Some x -> l ≡ₚ x :: swap_remove l i.
Proof.
  intros Hi. pose proof (lookup_lt_Some _ _ _ Hi) as Hlt.
  destruct l as [|y l0 _] using rev_ind; [done|].
  unfold swap_remove. rewrite last_snoc, length_app in *. simpl in *.
  replace (length l0 + 1 - 1)%nat with (length l0) by lia.
  destruct (i <? length l0)%nat eqn:Hb; bool_hyps.
  - rewrite lookup_app_l in Hi by lia. rewrite insert_app_l by lia.
    rewrite take_app_le by (rewrite length_insert; lia).
    rewrite take_ge by (rewrite length_insert; lia).
    rewrite Permutation_app_comm. simpl.
    rewrite <- (take_drop_middle l0 i x Hi) at 1.
    rewrite insert_take_drop by lia. rewrite <- !Permutation_middle. apply perm_swap.
  - assert (i = length l0) as -> by lia.
    rewrite lookup_app_r, Nat.sub_diag in Hi by lia. injection Hi as ->.
    rewrite take_app_length. symmetry. apply Permutation_cons_append.
Qed.

Lemma length_swap_remove (l : list A) i x :
  l !! i = Some x -> length (swap_remove l i) = (length l - 1)%nat.
Proof.
  intros Hi. pose proof (Permutation_length (swap_remove_perm l i x Hi)). simpl in *. lia.
Qed.

(** [memcpy(buf + off, bytes, length bytes)] *)
Definition buf_write (buf : list A) (off : nat) (bytes : list A) : list A :=
  take off buf ++ bytes ++ drop (off + length bytes) buf.

Lemma take_buf_write buf off bytes :
  (off <= length buf)%nat -> take (off + length bytes) (buf_write buf off bytes) = take off buf ++ bytes.
Proof.
  intros H. unfold buf_write. rewrite app_assoc. apply take_app_length'.
  rewrite length_app, length_take. lia.
Qed.

Lemma length_buf_write buf off bytes :
  (off + length bytes <= length buf)%nat -> length (buf_write buf off bytes) = length buf.
Proof. intros H. unfold buf_write. rewrite !length_app, length_take, length_drop. lia. Qed.

(** Pairwise relations on unordered arrays. *)
Lemma ForallOrdPairs_perm (R : A -> A -> Prop) (l l' : list A) :
  (forall x y, R x y -> R y x) -> l ≡ₚ l' -> List.ForallOrdPairs R l -> List.ForallOrdPairs R l'.
Proof.
  intros Hsym Hp. induction Hp as [|x l l' Hp IH|x y l|l l' l'' Hp1 IH1 Hp2 IH2]; intros H; auto.
  - inversion H; subst. constructor; [|auto]. by rewrite <- Hp.
  - inversion H as [|? ? Hy H1]; subst. inversion H1 as [|? ? Hx H2]; subst.
    inversion Hy as [|? ? Hyx Hyl]; subst.
    constructor; [constructor; auto|]. constructor; auto.
Qed.

Lemma ForallOrdPairs_lookup (R : A -> A -> Prop) (l : list A) :
  (forall i j x y, (i < j)%nat -> l !! i = Some x -> l !! j = Some y -> R x y) ->
  List.ForallOrdPairs R l.
Proof.
  induction l as [|x l IH]; intros H; constructor.
  - apply Forall_lookup. intros j y Hj. apply (H 0%nat (S j)); [lia|done|done].
  - apply IH. intros i j y z Hij Hi Hj. apply (H (S i) (S j)); [lia|done|done].
Qed.

Lemma ForallOrdPairs_lookup_inv (R : A -> A -> Prop) (l : list A) i j x y :
  List.ForallOrdPairs R l -> (i < j)%nat -> l !! i = Some x -> l !! j = Some y -> R x y.
Proof.
  intros H. revert i j. induction H as [|z l Hz Hl IH]; intros i j Hij Hi Hj; [done|].
  destruct i as [|i], j as [|j]; try lia; simpl in *.
  - injection Hi as ->. rewrite Forall_lookup in Hz. eauto.
  - eapply IH; [|done..]. lia.
Qed.
End Lists.
