(* ===== verification/CInt.v ===== *)
(** * Fixed-width integers and the arithmetic macros of [lib/misc.h]

    A [w]-bit unsigned integer is a [Z] in [0, 2^w); arithmetic that may leave
    that range is written with [wrap].  The overflow-checking macros
    ([CHECKED_ADD], [CHECKED_MUL], [DIV_ROUNDUP], [ALIGN_UP]) return [None]
    where the C macro runs its [onerror] argument. *)

From S2P Require Import Prelude.

Definition wrap (w z : Z) : Z := z mod 2 ^ w.
Abbreviation u8 := (wrap 8).
Abbreviation u16 := (wrap 16).
Abbreviation u32 := (wrap 32).
Abbreviation u64 := (wrap 64).

Definition UINT64_MAX : Z := 2 ^ 64 - 1.
Definition UINT32_MAX : Z := 2 ^ 32 - 1.

Definition fits (w z : Z) : bool := (0 <=? z) && (z <? 2 ^ w).

(** The macros, at width [w] (the width of [typeof(a + b)]). *)
Definition checked_add (w a b : Z) : option Z :=
  if a + b <? 2 ^ w then Some (a + b) else None.

Definition checked_mul (w a b : Z) : option Z :=
  if a * b <? 2 ^ w then Some (a * b) else None.

Definition div_roundup (w a b : Z) : option Z :=
  match checked_add w a (wrap w (b - 1)) with
  | Some s => Some (s / b)
  | None => None
  end.

Definition align_up (w x a : Z) : option Z :=
  match div_roundup w x a with
  | Some q => Some (wrap w (q * a))
  | None => None
  end.

Definition align_down (x a : Z) : Z := x / a * a.

Definition MIN (a b : Z) : Z := if b <? a then b else a.
Definition MAX (a b : Z) : Z := if b <? a then a else b.

Abbreviation CHECKED_ADD := (checked_add 64).
Abbreviation CHECKED_MUL := (checked_mul 64).
Abbreviation ALIGN_UP := (align_up 64).
Abbreviation ALIGN_DOWN := align_down.

(** ** Lemmas *)
Lemma wrap_range w z : 0 <= w -> 0 <= wrap w z < 2 ^ w.
Proof. intros. apply Z.mod_pos_bound. lia. Qed.

Lemma wrap_small w z : 0 <= z < 2 ^ w -> wrap w z = z.
Proof. apply Z.mod_small. Qed.

Lemma checked_add_Some w a b c : checked_add w a b = Some c <-> c = a + b /\ a + b < 2 ^ w.
Proof. unfold checked_add. case_if; split; [by intros [= <-]| by intros [-> _] | done | lia]. Qed.

Lemma checked_add_None w a b : checked_add w a b = None <-> 2 ^ w <= a + b.
Proof. unfold checked_add. case_if; split; try done; lia. Qed.

Lemma checked_mul_Some w a b c : checked_mul w a b = Some c <-> c = a * b /\ a * b < 2 ^ w.
Proof. unfold checked_mul. case_if; split; [by intros [= <-]| by intros [-> _] | done | lia]. Qed.

Lemma checked_mul_None w a b : checked_mul w a b = None <-> 2 ^ w <= a * b.
Proof. unfold checked_mul. case_if; split; try done; lia. Qed.

Lemma align_down_spec x a : 0 < a -> align_down x a <= x < align_down x a + a.
Proof. intros. unfold align_down. pose proof (Z.div_mod x a). pose proof (Z.mod_pos_bound x a). nia. Qed.

Lemma align_down_mod x a : 0 < a -> align_down x a mod a = 0.
Proof. intros. unfold align_down. apply Z.mod_mul. lia. Qed.

Lemma align_down_nonneg x a : 0 < a -> 0 <= x -> 0 <= align_down x a.
Proof. intros. unfold align_down. pose proof (Z.div_pos x a). nia. Qed.

(** [align_up] is the least multiple of [a] above [x], and fails exactly when
    rounding would carry out of the word. *)
Lemma align_up_Some w x a y :
  0 <= w -> 0 < a < 2 ^ w -> 0 <= x -> align_up w x a = Some y ->
  y = (x + a - 1) / a * a /\ x <= y < x + a /\ y mod a = 0 /\ y < 2 ^ w.
Proof.
  intros Hw Ha Hx. unfold align_up, div_roundup.
  rewrite (wrap_small w (a - 1)) by lia.
  destruct (checked_add w x (a - 1)) as [s|] eqn:E; [|done].
  apply checked_add_Some in E as [-> E]. intros [= <-].
  replace (x + (a - 1)) with (x + a - 1) in * by lia.
  pose proof (Z.div_mod (x + a - 1) a). pose proof (Z.mod_pos_bound (x + a - 1) a).
  pose proof (Z.div_pos (x + a - 1) a).
  rewrite wrap_small by nia. split_and!; [done|nia|nia| |nia].
  apply Z.mod_mul. lia.
Qed.

Lemma align_up_None w x a :
  0 <= w -> 0 < a < 2 ^ w -> align_up w x a = None <-> 2 ^ w <= x + a - 1.
Proof.
  intros Hw Ha. unfold align_up, div_roundup. rewrite (wrap_small w (a - 1)) by lia.
  destruct (checked_add w x (a - 1)) eqn:E.
  - apply checked_add_Some in E as [_ E]. split; [done|lia].
  - apply checked_add_None in E. split; [lia|done].
Qed.

Lemma MIN_min a b : MIN a b = Z.min a b.
Proof. unfold MIN. case_if; lia. Qed.

Lemma MAX_max a b : MAX a b = Z.max a b.
Proof. unfold MAX. case_if; lia. Qed.

(** ** Bit fields *)
Lemma land_ones_mod x k : 0 <= k -> Z.land x (Z.ones k) = x mod 2 ^ k.
Proof. apply Z.land_ones. Qed.

(** Or-ing a value into the clear low bits of another is addition. *)
Lemma lor_low a b k : 0 <= k -> 0 <= b < 2 ^ k -> Z.lor (a * 2 ^ k) b = a * 2 ^ k + b.
Proof.
  intros Hk Hb. symmetry. apply Z.add_nocarry_lor. apply Z.bits_inj'. intros n Hn.
  rewrite Z.land_spec, Z.bits_0. destruct (decide (n < k)).
  - rewrite Z.mul_pow2_bits_low by lia. done.
  - rewrite <- (Z.mod_small b (2 ^ k)) by lia. rewrite Z.mod_pow2_bits_high by lia. apply andb_false_r.
Qed.

Lemma shiftl_lor_low a b k : 0 <= k -> 0 <= b < 2 ^ k -> Z.lor (Z.shiftl a k) b = a * 2 ^ k + b.
Proof. intros. rewrite Z.shiftl_mul_pow2 by lia. by apply lor_low. Qed.

(** ** Little-endian integers in byte strings *)
Fixpoint le_bytes (n : nat) (z : Z) : list Z :=
  match n with
  | O => []
  | S n => z mod 256 :: le_bytes n (z / 256)
  end.

Fixpoint le_val (bs : list Z) : Z :=
  match bs with
  | [] => 0
  | b :: bs => b + 256 * le_val bs
  end.

Definition is_byte (b : Z) : Prop := 0 <= b < 256.

Lemma le_val_bytes n z : le_val (le_bytes n z) = z mod 256 ^ Z.of_nat n.
Proof.
  revert z. induction n as [|n IH]; intros z; [by rewrite Z.mod_1_r|].
  rewrite Nat2Z.inj_succ, Z.pow_succ_r by lia. cbn [le_bytes le_val]. rewrite IH.
  rewrite (Z.rem_mul_r z 256 (256 ^ Z.of_nat n)) by lia. done.
Qed.

Lemma le_bytes_val bs : Forall is_byte bs -> le_bytes (length bs) (le_val bs) = bs.
Proof.
  induction 1 as [|b bs Hb Hbs IH]; [done|]. cbn [le_bytes le_val length].
  unfold is_byte in Hb. f_equal.
  - rewrite (Z.mul_comm 256), Z.mod_add by lia. apply Z.mod_small. lia.
  - rewrite (Z.mul_comm 256), Z.div_add by lia. rewrite Z.div_small by lia. apply IH.
Qed.

Lemma length_le_bytes n z : length (le_bytes n z) = n.
Proof. revert z. induction n; intros; simpl; auto. Qed.

Lemma le_bytes_byte n z : Forall is_byte (le_bytes n z).
Proof.
  revert z. induction n; intros z; simpl; constructor; auto.
  apply Z.mod_pos_bound. lia.
Qed.

Lemma le_val_bound bs : Forall is_byte bs -> 0 <= le_val bs < 256 ^ Z.of_nat (length bs).
Proof.
  induction 1 as [|b bs Hb Hbs IH]; [done|]. cbn [le_val length].
  rewrite Nat2Z.inj_succ, Z.pow_succ_r by lia. unfold is_byte in Hb. lia.
Qed.
