(* ===== verification/Memmap.v ===== *)
(** * The memory map: entries, the sanitiser, range allocation

    Models the part of [common/mm/pmm.s2.c] that works on an array of
    [struct memmap_entry] passed by pointer: [align_entry],
    [pmm_sanitise_entries], [pmm_new_entry], [memmap_alloc_range_in],
    [pmm_check_type] and [mmap_get_info].

    The array [m] with its [count] live entries is a list, whose length is the
    count; the slots past the count are never read.  [max_entries] is the
    array's capacity ([memmap_max_entries]: 512 on BIOS, computed from the
    firmware map on UEFI) and [keep_first_page] the global
    [pmm_sanitiser_keep_first_page].  The padding field [unused] is not
    represented. *)

From S2P Require Import Prelude CInt.

Record memmap_entry := MkEntry {
  e_base : Z;
  e_length : Z;
  e_type : Z;
}.

#[export] Instance memmap_entry_eq_dec : EqDecision memmap_entry.
Proof. solve_decision. Defined.

#[export] Instance memmap_entry_inhabited : Inhabited memmap_entry :=
  populate (MkEntry 0 0 0).

Definition MEMMAP_USABLE := 1.
Definition MEMMAP_RESERVED := 2.
Definition MEMMAP_ACPI_RECLAIMABLE := 3.
Definition MEMMAP_ACPI_NVS := 4.
Definition MEMMAP_BAD_MEMORY := 5.
Definition MEMMAP_BOOTLOADER_RECLAIMABLE := 0x1000.
Definition MEMMAP_KERNEL_AND_MODULES := 0x1001.
Definition MEMMAP_FRAMEBUFFER := 0x1002.
Definition MEMMAP_RESERVED_MAPPED := 0x1003.
Definition MEMMAP_EFI_RECLAIMABLE := 0x2000.

Definition PAGE_SIZE := 4096.

(** [CHECKED_ADD(m[i].base, m[i].length, ...)]. *)
Definition entry_top (e : memmap_entry) : option Z := CHECKED_ADD (e_base e) (e_length e).

Definition set_range (e : memmap_entry) (b l : Z) : memmap_entry := MkEntry b l (e_type e).

(** [align_entry(&base, &length)]: the flag it returns, with the entry as the
    function leaves it. *)
Definition align_entry (e : memmap_entry) : bool * memmap_entry :=
  if e_length e <? PAGE_SIZE then (false, e)
  else
    match ALIGN_UP (e_base e) PAGE_SIZE with
    | None => (false, e)
    | Some base =>
        let length := u64 (e_length e - (base - e_base e)) in
        let length := ALIGN_DOWN length PAGE_SIZE in
        (negb (length =? 0), set_range e base length)
    end.

Section Sanitiser.
Variable max_entries : nat.
Variable keep_first_page : bool.

(** ** First loop: make usable entries disjoint from everything else

    How the loop over [j] is left: by its end or the [break], or by
    [goto del_mm0]. *)
Inductive inner_exit :=
| InnerEnd (m : list memmap_entry)
| InnerDel (m : list memmap_entry).

Definition is_nested (base top res_base res_top : Z) : bool :=
  ((base <=? res_base) && (res_base <? top)) && ((base <=? res_top) && (res_top <? top)).

Definition overlap_body (i : nat) (s : list memmap_entry * nat)
    : res (list memmap_entry * nat + inner_exit) :=
  let '(m, j) := s in
  if negb (j <? length m)%nat then Ok (inr (InnerEnd m))
  else if (j =? i)%nat then Ok (inl (m, S j))
  else
    let! ei := rd m i in
    match entry_top ei with
    | None => Ok (inr (InnerDel m))
    | Some top =>
        let base := e_base ei in
        let! ej := rd m j in
        match entry_top ej with
        | None => Ok (inl (m, S j))
        | Some res_top =>
            let res_base := e_base ej in
            if e_length ej =? 0 then Ok (inl (m, S j))
            else if (res_base <=? base) && (top <=? res_top) then
              let! m := wr m i (set_range ei top 0) in
              Ok (inr (InnerEnd m))
            else
              let! (m, top) :=
                if is_nested base top res_base res_top then
                  if (max_entries <=? length m)%nat then Panic "Memory map exhausted."
                  else Ok (m ++ [set_range ei res_top (u64 (top - res_top))], res_base)
                else Ok (m, top) in
              let top := if (base <=? res_base) && (res_base <? top) then res_base else top in
              let base := if (base <=? res_top) && (res_top <? top) then res_top else base in
              let! m := wr m i (set_range ei base (u64 (top - base))) in
              Ok (inl (m, S j))
        end
    end.

Definition entry_len (m : list memmap_entry) (i : nat) : Z :=
  match m !! i with Some e => e_length e | None => 0 end.

Definition overlap_variant (i : nat) (s : list memmap_entry * nat) : Z :=
  let '(m, j) := s in
  entry_len m i * (Z.of_nat max_entries + 1) + (Z.of_nat (length m) - Z.of_nat j).

Definition overlap_loop (m : list memmap_entry) (i : nat) : res inner_exit :=
  loop (overlap_body i) (overlap_variant i) (m, 0%nat).

Definition usable_total (m : list memmap_entry) : Z :=
  foldr (fun e acc => (if e_type e =? MEMMAP_USABLE then e_length e else 0) + acc) 0 m.

Definition separate_variant (s : list memmap_entry * nat) : Z :=
  let '(m, i) := s in
  (usable_total m * (Z.of_nat max_entries + 1) + Z.of_nat (length m))
    * (Z.of_nat max_entries + 2)
  + (Z.of_nat (length m) - Z.of_nat i).

Definition separate_body (align_entries : bool) (s : list memmap_entry * nat)
    : res (list memmap_entry * nat + list memmap_entry) :=
  let '(m, i) := s in
  if negb (i <? length m)%nat then Ok (inr m)
  else
    let! e := rd m i in
    if negb (e_type e =? MEMMAP_USABLE) then Ok (inl (m, S i))
    else
      let! x := overlap_loop m i in
      match x with
      | InnerDel m => Ok (inl (swap_remove m i, 0%nat))
      | InnerEnd m =>
          let! e := rd m i in
          if e_length e =? 0 then Ok (inl (swap_remove m i, 0%nat))
          else if align_entries then
            let '(ok, e) := align_entry e in
            let! m := wr m i e in
            if ok then Ok (inl (m, S i)) else Ok (inl (swap_remove m i, 0%nat))
          else Ok (inl (m, S i))
      end.

Definition separate (align_entries : bool) (m : list memmap_entry) : res (list memmap_entry) :=
  loop (separate_body align_entries) separate_variant (m, 0%nat).

(** ** Second loop: clip usable memory below 0x1000, drop empty entries *)
Definition clip_body (s : list memmap_entry * nat)
    : res (list memmap_entry * nat + list memmap_entry) :=
  let '(m, i) := s in
  if negb (i <? length m)%nat then Ok (inr m)
  else
    let! e := rd m i in
    if (e_type e =? MEMMAP_USABLE) && negb keep_first_page && (e_base e <? 0x1000) then
      match entry_top e with
      | None => Ok (inl (swap_remove m i, i))
      | Some top =>
          if top <=? 0x1000 then Ok (inl (swap_remove m i, i))
          else
            let e := set_range e 0x1000 (u64 (e_length e - (0x1000 - e_base e))) in
            let! m := wr m i e in
            if e_length e =? 0 then Ok (inl (swap_remove m i, i)) else Ok (inl (m, S i))
      end
    else if e_length e =? 0 then Ok (inl (swap_remove m i, i))
    else Ok (inl (m, S i)).

Definition index_variant (s : list memmap_entry * nat) : Z :=
  let '(m, i) := s in Z.of_nat (length m) - Z.of_nat i.

Definition clip (m : list memmap_entry) : res (list memmap_entry) :=
  loop clip_body index_variant (m, 0%nat).

(** ** Third loop: selection sort on the base *)
Definition find_min (m : list memmap_entry) (p : nat) : res (Z * nat) :=
  let! e := rd m p in
  for_range (length m - p) p
    (fun i '(min, min_index) =>
       let! e := rd m i in
       if e_base e <? min then Ok (e_base e, i) else Ok (min, min_index))
    (e_base e, p).

Definition sort_turn (p : nat) (m : list memmap_entry) : res (list memmap_entry) :=
  let! (_, min_index) := find_min m p in
  let! min_e := rd m min_index in
  let! e := rd m p in
  let! m := wr m min_index e in
  wr m p min_e.

Definition sort_entries (m : list memmap_entry) : res (list memmap_entry) :=
  for_range (length m - 1) 0 sort_turn m.

(** ** Fourth loop: merge contiguous entries of the mergeable types *)
Definition mergeable (t : Z) : bool :=
  (t =? MEMMAP_BOOTLOADER_RECLAIMABLE) || (t =? MEMMAP_RESERVED_MAPPED)
  || (t =? MEMMAP_KERNEL_AND_MODULES) || (t =? MEMMAP_USABLE).

Definition merge_body (s : list memmap_entry * nat)
    : res (list memmap_entry * nat + list memmap_entry) :=
  let '(m, i) := s in
  if negb (i + 1 <? length m)%nat then Ok (inr m)
  else
    let! e := rd m i in
    if negb (mergeable (e_type e)) then Ok (inl (m, S i))
    else
      match entry_top e with
      | None => Ok (inl (m, S i))
      | Some merge_top =>
          let! e' := rd m (i + 1) in
          if (e_type e' =? e_type e) && (e_base e' =? merge_top) then
            match CHECKED_ADD (e_length e) (e_length e') with
            | None => Ok (inl (m, S i))
            | Some l =>
                let! m := wr m i (set_range e (e_base e) l) in
                Ok (inl (take (i + 1) m ++ drop (i + 2) m, i))
            end
          else Ok (inl (m, S i))
      end.

Definition merge_entries (m : list memmap_entry) : res (list memmap_entry) :=
  loop merge_body index_variant (m, 0%nat).

Definition pmm_sanitise_entries (m : list memmap_entry) (align_entries : bool)
    : res (list memmap_entry) :=
  let! m := separate align_entries m in
  let! m := clip m in
  let! m := sort_entries m in
  merge_entries m.

(** ** [pmm_new_entry] *)
Definition carve_body (base top : Z) (s : list memmap_entry * nat)
    : res (list memmap_entry * nat + list memmap_entry) :=
  let '(m, i) := s in
  if negb (i <? length m)%nat then Ok (inr m)
  else
    let! e := rd m i in
    match entry_top e with
    | None => Ok (inl (m, S i))
    | Some e_top =>
        let entry_base := e_base e in
        if (base <=? entry_base) && (e_top <=? top) then
          Ok (inl (swap_remove m i, i))
        else if (base <=? entry_base) && (top <? e_top) && (entry_base <? top) then
          let! m := wr m i (set_range e (u64 (entry_base + (top - entry_base)))
                                        (u64 (e_length e - (top - entry_base)))) in
          Ok (inl (m, S i))
        else if (entry_base <? base) && (base <? e_top) && (e_top <=? top) then
          let! m := wr m i (set_range e entry_base (u64 (e_length e - (e_top - base)))) in
          Ok (inl (m, S i))
        else if (entry_base <? base) && (top <? e_top) then
          let! m := wr m i (set_range e entry_base (u64 (e_length e - (e_top - base)))) in
          if (max_entries <=? length m)%nat then Panic "Memory map exhausted."
          else Ok (inl (m ++ [MkEntry top (u64 (e_top - top)) (e_type e)], S i))
        else Ok (inl (m, S i))
    end.

(** Entries from [i] on that strictly enclose the range are visited twice. *)
Definition carve_weight (base top : Z) (e : memmap_entry) : Z :=
  if (e_base e <? base) && (top <? e_base e + e_length e) then 2 else 1.

Definition carve_variant (base top : Z) (s : list memmap_entry * nat) : Z :=
  let '(m, i) := s in foldr (fun e acc => carve_weight base top e + acc) 0 (drop i m).

Definition carve (base top : Z) (m : list memmap_entry) : res (list memmap_entry) :=
  loop (carve_body base top) (carve_variant base top) (m, 0%nat).

Definition pmm_new_entry (m : list memmap_entry) (base len type : Z)
    : res (list memmap_entry) :=
  match CHECKED_ADD base len with
  | None => Panic "pmm: Integer overflow in memory range calculation"
  | Some top =>
      let! m := carve base top m in
      if (max_entries <=? length m)%nat then Panic "Memory map exhausted."
      else Ok (m ++ [MkEntry base len type])
  end.

(** ** [memmap_alloc_range_in]

    The flag returned, with the array as it is left.  [pmm_new_entry] only
    ever returns [true], so its result is not tested here. *)
Definition encloses (overlay_type base top : Z) (e : memmap_entry) : bool :=
  if negb (overlay_type =? 0) && negb (e_type e =? overlay_type) then false
  else match entry_top e with
       | None => false
       | Some e_top => (e_base e <=? base) && (base <? e_top) && (top <=? e_top)
       end.

Definition memmap_alloc_range_in (m : list memmap_entry)
    (base len type overlay_type : Z) (do_panic simulation new_entry : bool)
    : res (bool * list memmap_entry) :=
  if len =? 0 then Ok (true, m)
  else if simulation && new_entry then Ok (true, m)
  else
    match CHECKED_ADD base len with
    | None => if do_panic then Panic "Memory allocation overflow." else Ok (false, m)
    | Some top =>
        if existsb (encloses overlay_type base top) m then
          if simulation then Ok (true, m)
          else
            let! m := pmm_new_entry m base len type in
            let! m := pmm_sanitise_entries m false in
            Ok (true, m)
        else if negb new_entry && do_panic then Panic "Memory allocation failure."
        else if negb new_entry then Ok (false, m)
        else
          let! m := pmm_new_entry m base len type in
          let! m := pmm_sanitise_entries m false in
          Ok (true, m)
    end.

(** ** Queries *)
Definition pmm_check_type (m : list memmap_entry) (addr : Z) : Z :=
  match find (fun e => match entry_top e with
                       | None => false
                       | Some e_top => (e_base e <=? addr) && (addr <? e_top)
                       end) m with
  | Some e => e_type e
  | None => UINT64_MAX
  end.
End Sanitiser.

(** ** [mmap_get_info] *)
Record meminfo := MkInfo { uppermem : Z; lowermem : Z }.

Definition frontier_entry (s : Z * Z * bool) (e : memmap_entry) : Z * Z * bool :=
  let '(lower_end, upper_end, progress) := s in
  if negb (e_type e =? MEMMAP_USABLE) then s
  else match entry_top e with
       | None => s
       | Some top =>
           let base := e_base e in
           let '(lower_end, progress) :=
             if (base <=? lower_end) && (lower_end <? top) then (top, true)
             else (lower_end, progress) in
           let '(upper_end, progress) :=
             if (base <=? upper_end) && (upper_end <? top) then (top, true)
             else (upper_end, progress) in
           (lower_end, upper_end, progress)
       end.

Definition frontier_body (mmap : list memmap_entry) (s : Z * Z) : res (Z * Z + Z * Z) :=
  let '(lower_end, upper_end, progress) :=
    foldl frontier_entry (s.1, s.2, false) mmap in
  if progress then Ok (inl (lower_end, upper_end)) else Ok (inr (lower_end, upper_end)).

Definition frontier_variant (s : Z * Z) : Z := (2 ^ 64 - s.1) + (2 ^ 64 - s.2).

(** [size_bits] is the width of [size_t]. *)
Definition mmap_get_info (size_bits : Z) (mmap : list memmap_entry) : res meminfo :=
  let! (lower_end, upper_end) :=
    loop (frontier_body mmap) frontier_variant (0, 0x100000) in
  let lower_end := if 0x100000 <? lower_end then 0x100000 else lower_end in
  Ok (MkInfo (wrap size_bits (upper_end - 0x100000)) (wrap size_bits lower_end)).

(** ** Evaluation *)
Example sanitise_example :
  pmm_sanitise_entries 512 false
    [ MkEntry 0 0x9000 1; MkEntry 0x2000 0x1000 2; MkEntry 0x100000 0x10000 1;
      MkEntry 0x110000 0x10000 1; MkEntry 0x3000 0x1000 1 ] false
  = Ok [ MkEntry 0x1000 0x1000 1; MkEntry 0x2000 0x1000 2;
         MkEntry 0x3000 0x6000 1; MkEntry 0x100000 0x20000 1 ].
Proof. vm_compute. reflexivity. Qed.

Example alloc_range_example :
  memmap_alloc_range_in 512 false [ MkEntry 0x1000 0x8000 1 ] 0x2000 0x1000 0x1000 1 true false false
  = Ok (true, [ MkEntry 0x1000 0x1000 1; MkEntry 0x2000 0x1000 0x1000; MkEntry 0x3000 0x6000 1 ]).
Proof. vm_compute. reflexivity. Qed.
