(* ===== verification/MemmapSem.v ===== *)
(** * What a memory map means

    The abstract reading of a memory map: which addresses each type covers.
    An entry whose top does not fit in 64 bits covers nothing, since every
    loop of the code skips it.  Usable memory that another type also claims
    does not count as free. *)

From S2P Require Import Prelude CInt Memmap.

Definition e_top (e : memmap_entry) : Z := e_base e + e_length e.

(** The entry's top is representable: the code's [CHECKED_ADD] succeeds. *)
Definition entry_ok (e : memmap_entry) : Prop := e_top e < 2 ^ 64.

Definition covers (e : memmap_entry) (a : Z) : Prop := e_base e <= a < e_top e.

Definition has_type (m : list memmap_entry) (t a : Z) : Prop :=
  exists e, e ∈ m /\ entry_ok e /\ e_type e = t /\ covers e a.

Definition usable_at (m : list memmap_entry) (a : Z) : Prop := has_type m MEMMAP_USABLE a.

(** Some entry of another type claims the address. *)
Definition claimed_at (m : list memmap_entry) (a : Z) : Prop :=
  exists t, t <> MEMMAP_USABLE /\ has_type m t a.

(** The address is free memory: usable, and claimed by nothing else. *)
Definition free_at (m : list memmap_entry) (a : Z) : Prop := usable_at m a /\ ~ claimed_at m a.

(** Entries the firmware or the allocator can produce: fields in range, and
    those of the bootloader's own mergeable types within 64 bits (only
    [pmm_new_entry], which checks for overflow, creates them). *)
Definition entry_wf (e : memmap_entry) : Prop :=
  0 <= e_base e < 2 ^ 64 /\ 0 <= e_length e < 2 ^ 64 /\
  (mergeable (e_type e) = true -> e_type e <> MEMMAP_USABLE -> entry_ok e).

Definition map_wf (max_entries : nat) (m : list memmap_entry) : Prop :=
  (length m <= max_entries)%nat /\ Forall entry_wf m.

(** Two entries of which one is usable share no address. *)
Definition apart (e e' : memmap_entry) : Prop :=
  entry_ok e -> entry_ok e' -> e_type e = MEMMAP_USABLE \/ e_type e' = MEMMAP_USABLE ->
  forall a, ~ (covers e a /\ covers e' a).

Definition usable_apart (m : list memmap_entry) : Prop := List.ForallOrdPairs apart m.

Definition usable_sound (m : list memmap_entry) : Prop :=
  Forall (fun e => e_type e = MEMMAP_USABLE -> entry_ok e) m.

Definition base_sorted (m : list memmap_entry) : Prop :=
  forall i j e e', (i <= j)%nat -> m !! i = Some e -> m !! j = Some e' -> e_base e <= e_base e'.

(** No two neighbours are left that the merging loop would join. *)
Definition fully_merged (m : list memmap_entry) : Prop :=
  forall i e e', m !! i = Some e -> m !! S i = Some e' ->
  mergeable (e_type e) = true -> e_type e' = e_type e -> e_base e' <> e_top e.

(** ** Basic facts *)
Lemma entry_top_Some e t : entry_top e = Some t <-> t = e_top e /\ entry_ok e.
Proof. unfold entry_top, entry_ok, e_top. apply checked_add_Some. Qed.

Lemma entry_top_None e : entry_top e = None <-> ~ entry_ok e.
Proof. unfold entry_top, entry_ok, e_top. rewrite checked_add_None. lia. Qed.

Lemma apart_sym e e' : apart e e' -> apart e' e.
Proof. unfold apart. intros H ? ? Hor a [? ?]. apply (H H1 H0 ltac:(tauto) a). tauto. Qed.

Lemma has_type_perm m m' t a : m ≡ₚ m' -> has_type m t a <-> has_type m' t a.
Proof. intros Hp. unfold has_type. by setoid_rewrite Hp. Qed.

Lemma has_type_nil t a : has_type [] t a <-> False.
Proof. split; [|done]. intros (e & He & _). by apply not_elem_of_nil in He. Qed.

Lemma has_type_cons e m t a :
  has_type (e :: m) t a <-> (entry_ok e /\ e_type e = t /\ covers e a) \/ has_type m t a.
Proof.
  unfold has_type. split.
  - intros (x & Hx & H). apply elem_of_cons in Hx as [->|Hx]; [by left|right; eauto].
  - intros [H|(x & Hx & H)]; [exists e|exists x]; rewrite elem_of_cons; auto.
Qed.

Lemma has_type_app m m' t a :
  has_type (m ++ m') t a <-> has_type m t a \/ has_type m' t a.
Proof.
  induction m as [|e m IH]; simpl; [rewrite has_type_nil; tauto|].
  rewrite !has_type_cons, IH. tauto.
Qed.

#[export] Instance has_type_proper :
  Proper ((≡ₚ) ==> eq ==> eq ==> iff) has_type.
Proof. intros m m' Hp t ? <- a ? <-. by apply has_type_perm. Qed.

#[export] Instance usable_at_proper : Proper ((≡ₚ) ==> eq ==> iff) usable_at.
Proof. intros m m' Hp a ? <-. unfold usable_at. by rewrite Hp. Qed.

#[export] Instance claimed_at_proper : Proper ((≡ₚ) ==> eq ==> iff) claimed_at.
Proof. intros m m' Hp a ? <-. unfold claimed_at. by setoid_rewrite Hp. Qed.

#[export] Instance usable_apart_proper : Proper ((≡ₚ) ==> iff) usable_apart.
Proof.
  intros m m' Hp. split; apply ForallOrdPairs_perm; [apply apart_sym|done|apply apart_sym|done].
Qed.

Lemma claimed_at_cons e m a :
  claimed_at (e :: m) a <->
  (entry_ok e /\ e_type e <> MEMMAP_USABLE /\ covers e a) \/ claimed_at m a.
Proof.
  unfold claimed_at. setoid_rewrite has_type_cons. split.
  - intros (t & Ht & [(? & <- & ?)|H]); [left; auto|right; eauto].
  - intros [(? & ? & ?)|(t & ? & ?)]; eauto 10.
Qed.

Lemma usable_at_cons e m a :
  usable_at (e :: m) a <->
  (entry_ok e /\ e_type e = MEMMAP_USABLE /\ covers e a) \/ usable_at m a.
Proof. apply has_type_cons. Qed.

Lemma has_type_lookup m t a :
  has_type m t a <-> exists i e, m !! i = Some e /\ entry_ok e /\ e_type e = t /\ covers e a.
Proof.
  unfold has_type. setoid_rewrite list_elem_of_lookup. split.
  - intros (e & (i & Hi) & H). eauto.
  - intros (i & e & Hi & H). eauto.
Qed.

(** Replacing the entry at an index, as a permutation of the rest. *)
Lemma lookup_perm (m : list memmap_entry) i e :
  m !! i = Some e -> m ≡ₚ e :: delete i m.
Proof. intros H. by apply delete_Permutation. Qed.

Lemma insert_perm (m : list memmap_entry) i e e' :
  m !! i = Some e -> <[i := e']> m ≡ₚ e' :: delete i m.
Proof.
  intros H. pose proof (lookup_lt_Some _ _ _ H) as Hlt.
  rewrite insert_take_drop by done. rewrite delete_take_drop.
  by rewrite Permutation_middle.
Qed.

Lemma has_type_at m i e t a :
  m !! i = Some e ->
  has_type m t a <-> (entry_ok e /\ e_type e = t /\ covers e a) \/ has_type (delete i m) t a.
Proof. intros H. rewrite (has_type_perm _ _ _ _ (lookup_perm _ _ _ H)). apply has_type_cons. Qed.

Lemma has_type_insert m i e e' t a :
  m !! i = Some e ->
  has_type (<[i := e']> m) t a <->
  (entry_ok e' /\ e_type e' = t /\ covers e' a) \/ has_type (delete i m) t a.
Proof. intros H. rewrite (has_type_perm _ _ _ _ (insert_perm _ _ _ _ H)). apply has_type_cons. Qed.

Lemma has_type_swap_remove m i e t a :
  m !! i = Some e ->
  has_type m t a <-> (entry_ok e /\ e_type e = t /\ covers e a) \/ has_type (swap_remove m i) t a.
Proof. intros H. rewrite (has_type_perm _ _ _ _ (swap_remove_perm _ _ _ H)). apply has_type_cons. Qed.

Lemma usable_total_perm m m' : m ≡ₚ m' -> usable_total m = usable_total m'.
Proof. induction 1; simpl; lia. Qed.

#[export] Instance usable_total_proper : Proper ((≡ₚ) ==> eq) usable_total.
Proof. intros m m' H. by apply usable_total_perm. Qed.

Lemma usable_total_nonneg m : Forall entry_wf m -> 0 <= usable_total m.
Proof.
  induction 1 as [|e m (? & ? & ?) Hm IH]; cbn [usable_total foldr]; [lia|].
  fold (usable_total m). case_if; lia.
Qed.

Lemma set_range_type e b l : e_type (set_range e b l) = e_type e.
Proof. done. Qed.
