(* ===== verification/Separate.v ===== *)
(** * The first loop of [pmm_sanitise_entries]

    It terminates, and when it ends every usable entry is disjoint from every
    other entry, without any free address having been lost or invented. *)

From S2P Require Import Prelude CInt Memmap MemmapSem.

(** What one comparison of a usable entry [ei] with another entry [ej] does:
    the shrunk entry and the piece split off above [ej], if any. *)
Definition cut (ei ej : memmap_entry) : memmap_entry * list memmap_entry :=
  let base := e_base ei in
  let top := e_top ei in
  let res_base := e_base ej in
  let res_top := e_top ej in
  let nested := is_nested base top res_base res_top in
  let ext := if nested then [set_range ei res_top (u64 (top - res_top))] else [] in
  let top := if nested then res_base else top in
  let top := if (base <=? res_base) && (res_base <? top) then res_base else top in
  let base := if (base <=? res_top) && (res_top <? top) then res_top else base in
  (set_range ei base (u64 (top - base)), ext).

Record cut_ok (ei ej ei' : memmap_entry) (ext : list memmap_entry) : Prop := {
  cut_wf : entry_wf ei';
  cut_type : e_type ei' = e_type ei;
  cut_entry_ok : entry_ok ei';
  cut_minus : forall a, covers ei' a -> covers ei a /\ ~ covers ej a;
  cut_base : e_base ei <= e_base ei' /\ e_top ei' <= e_top ei;
  cut_ext : Forall (fun x => entry_wf x /\ entry_ok x /\ e_type x = MEMMAP_USABLE /\
                     forall a, covers x a -> covers ei a /\ ~ covers ej a) ext;
  cut_all : forall a, covers ei a -> covers ei' a \/ covers ej a \/
                      (exists x, x ∈ ext /\ covers x a);
  cut_length : e_length ei' + usable_total ext + Z.of_nat (length ext) <= e_length ei;
  cut_small : (length ext <= 1)%nat;
}.

Lemma cut_spec ei ej :
  entry_wf ei -> entry_wf ej -> entry_ok ei -> entry_ok ej ->
  e_type ei = MEMMAP_USABLE -> 0 < e_length ej ->
  (e_base ej <=? e_base ei) && (e_top ei <=? e_top ej) = false ->
  cut_ok ei ej (cut ei ej).1 (cut ei ej).2.
Proof.
  intros (Hb & Hl & _) (Hb' & Hl' & _) Hok Hok' Ht Hpos Hn.
  destruct ei as [b l t], ej as [b' l' t']. unfold cut, is_nested, entry_ok, e_top in *.
  cbn [e_base e_length e_type fst snd set_range] in *. subst t. bool_hyps.
  assert (forall x y z, 0 <= x -> x <= y <= b + l -> z = y - x -> u64 z = z) as Hw.
  { intros x y z ? ? ->. apply wrap_small. lia. }
  repeat case_if; (split; unfold entry_wf, entry_ok, covers, e_top;
    cbn [e_base e_length e_type set_range usable_total foldr length] in *;
    rewrite ?Forall_cons, ?Forall_nil; repeat (erewrite Hw; [|..|reflexivity]; [|lia|lia]));
    unfold e_top; cbn [e_base e_length e_type set_range]; try done; try lia.
  all: repeat (erewrite Hw; [|..|reflexivity]; [|lia|lia]); try lia.
  all: try (split_and!; try done; lia).
  all: try (intros a ?; setoid_rewrite elem_of_cons; setoid_rewrite elem_of_nil).
  - destruct (Z_lt_le_dec a b'); [left; lia|].
    destruct (Z_lt_le_dec a (b' + l')); [right; left; lia|].
    right; right. eexists. split; [by left|]. cbn. lia.
  - cbn. lia.
Qed.

Section Separate.
Variable max_entries : nat.

(** A turn of the inner loop, in terms of [cut]. *)
Lemma overlap_body_step m i j ei ej :
  m !! i = Some ei -> m !! j = Some ej -> j <> i -> entry_ok ei ->
  overlap_body max_entries i (m, j) =
  match entry_top ej with
  | None => Ok (inl (m, S j))
  | Some _ =>
      if e_length ej =? 0 then Ok (inl (m, S j))
      else if (e_base ej <=? e_base ei) && (e_top ei <=? e_top ej) then
        Ok (inr (InnerEnd (<[i := set_range ei (e_top ei) 0]> m)))
      else
        let '(ei', ext) := cut ei ej in
        if (max_entries <=? length m)%nat && (0 <? length ext)%nat
        then Panic "Memory map exhausted."
        else Ok (inl (<[i := ei']> (m ++ ext), S j))
  end.
Proof.
  intros Hi Hj Hne Hok.
  pose proof (lookup_lt_Some _ _ _ Hi) as Hlt. pose proof (lookup_lt_Some _ _ _ Hj) as Hlt'.
  unfold overlap_body, cut.
  rewrite (proj2 (Nat.ltb_lt _ _) Hlt'). rewrite (proj2 (Nat.eqb_neq _ _) Hne). simpl negb.
  cbn [rbind]. rewrite (rd_lookup _ _ _ Hi), (rd_lookup _ _ _ Hj). cbn [rbind].
  rewrite (proj2 (entry_top_Some ei _) (conj eq_refl Hok)).
  destruct (entry_top ej) as [t|] eqn:Et; [|done]. apply entry_top_Some in Et as [-> _].
  case_if; [done|]. case_if; [by rewrite wr_lt by lia|].
  destruct (is_nested _ _ _ _); cbn [rbind length]; simpl (0 <? _)%nat.
  - destruct (max_entries <=? length m)%nat; [done|]. cbn [rbind andb].
    rewrite wr_lt by (rewrite length_app; lia). done.
  - rewrite andb_false_r. rewrite wr_lt by lia. by rewrite app_nil_r.
Qed.

(** ** The invariant of the inner loop, relative to the array it starts on *)
Record inner_inv (m0 : list memmap_entry) (i : nat) (e0 : memmap_entry)
    (m : list memmap_entry) (j : nat) (ei : memmap_entry) : Prop := {
  in_len : (length m <= max_entries)%nat;
  in_wf : Forall entry_wf m;
  in_i : m !! i = Some ei;
  in_type : e_type ei = MEMMAP_USABLE;
  in_shrink : entry_ok ei /\ forall a, covers ei a -> covers e0 a;
  in_old : forall k, (k < length m0)%nat -> k <> i -> m !! k = m0 !! k;
  in_new : forall k e, (length m0 <= k)%nat -> m !! k = Some e ->
           e_type e = MEMMAP_USABLE /\ entry_ok e /\ forall a, covers e a -> covers e0 a;
  in_grow : (length m0 <= length m)%nat;
  in_total : usable_total m * (Z.of_nat max_entries + 1) + Z.of_nat (length m)
             <= usable_total m0 * (Z.of_nat max_entries + 1) + Z.of_nat (length m0);
  in_apart : forall k e, (k < j)%nat -> k <> i -> m !! k = Some e ->
             entry_ok e -> forall a, ~ (covers ei a /\ covers e a);
  in_keep : forall a, usable_at m0 a -> usable_at m a \/ claimed_at m0 a;
}.

Lemma in_other m0 i e0 m j ei :
  m0 !! i = Some e0 -> e_type e0 = MEMMAP_USABLE -> inner_inv m0 i e0 m j ei ->
  forall t a, t <> MEMMAP_USABLE -> has_type m t a <-> has_type m0 t a.
Proof.
  intros H0 Ht0 Inv t a Ht. rewrite !has_type_lookup.
  pose proof (lookup_lt_Some _ _ _ H0) as Hlt. split.
  - intros (k & e & Hk & Hok & <- & Hc).
    destruct (decide (k = i)) as [->|Hki].
    { rewrite (in_i _ _ _ _ _ _ Inv) in Hk. injection Hk as <-.
      by destruct Ht; apply (in_type _ _ _ _ _ _ Inv). }
    destruct (decide (k < length m0)%nat) as [Hk0|Hk0].
    + rewrite (in_old _ _ _ _ _ _ Inv) in Hk by done. eauto 10.
    + destruct (in_new _ _ _ _ _ _ Inv k e) as (He & _); [lia|done|congruence].
  - intros (k & e & Hk & Hok & <- & Hc).
    destruct (decide (k = i)) as [->|Hki]; [congruence|].
    exists k, e. rewrite (in_old _ _ _ _ _ _ Inv); eauto using lookup_lt_Some.
Qed.

Lemma in_usable m0 i e0 m j ei :
  m0 !! i = Some e0 -> e_type e0 = MEMMAP_USABLE -> inner_inv m0 i e0 m j ei -> entry_ok e0 ->
  forall a, usable_at m a -> usable_at m0 a.
Proof.
  intros H0 Ht0 Inv Hok0 a. unfold usable_at. rewrite !has_type_lookup.
  intros (k & e & Hk & Hok & Ht & Hc).
  destruct (decide (k = i)) as [->|Hki].
  { rewrite (in_i _ _ _ _ _ _ Inv) in Hk. injection Hk as <-.
    exists i, e0. destruct (in_shrink _ _ _ _ _ _ Inv). auto. }
  destruct (decide (k < length m0)%nat) as [Hk0|Hk0].
  - rewrite (in_old _ _ _ _ _ _ Inv) in Hk by done. eauto 10.
  - destruct (in_new _ _ _ _ _ _ Inv k e) as (He & ? & Hsub); [lia|done|]. eauto 10.
Qed.

Lemma usable_total_app m m' : usable_total (m ++ m') = usable_total m + usable_total m'.
Proof.
  induction m as [|e m IH]; [done|]. cbn [usable_total foldr app] in *.
  fold (usable_total (m ++ m')) (usable_total m). lia.
Qed.

(** The invariant survives any update that cuts [ej] out of the entry at [i]. *)
Lemma inner_inv_update m0 i e0 m j ei ej ei' ext :
  m0 !! i = Some e0 -> e_type e0 = MEMMAP_USABLE ->
  inner_inv m0 i e0 m j ei -> m !! j = Some ej -> j <> i -> entry_ok ej ->
  cut_ok ei ej ei' ext -> (length m + length ext <= max_entries)%nat ->
  inner_inv m0 i e0 (<[i := ei']> (m ++ ext)) (S j) ei'.
Proof.
  intros H0 Ht0 Inv Hj Hji Hokj C Hlen.
  destruct (in_shrink _ _ _ _ _ _ Inv) as [Hok Hsub].
  pose proof (in_i _ _ _ _ _ _ Inv) as Hi. pose proof (in_type _ _ _ _ _ _ Inv) as Ht.
  pose proof (in_grow _ _ _ _ _ _ Inv) as Hgrow.
  pose proof (lookup_lt_Some _ _ _ Hi) as Hlt. pose proof (lookup_lt_Some _ _ _ Hj) as Hltj.
  assert ((m ++ ext) !! i = Some ei) as Hi' by (by rewrite lookup_app_l by lia).
  assert (<[i := ei']> (m ++ ext) !! i = Some ei') as Hins
    by (apply list_lookup_insert_eq; rewrite length_app; lia).
  pose proof (cut_type _ _ _ _ C) as Hty. pose proof (cut_ext _ _ _ _ C) as Hext.
  rewrite Forall_forall in Hext.
  split.
  - rewrite length_insert, length_app. lia.
  - apply Forall_insert; [|apply (cut_wf _ _ _ _ C)]. apply Forall_app. split.
    + apply (in_wf _ _ _ _ _ _ Inv).
    + apply Forall_forall. intros x Hx. by apply Hext.
  - done.
  - congruence.
  - split; [apply (cut_entry_ok _ _ _ _ C)|]. intros a Ha. by apply Hsub, (cut_minus _ _ _ _ C).
  - intros k Hk Hki. rewrite list_lookup_insert_ne by done. rewrite lookup_app_l by lia.
    by apply (in_old _ _ _ _ _ _ Inv).
  - intros k e Hk He. rewrite list_lookup_insert_ne in He
      by (pose proof (lookup_lt_Some _ _ _ H0); lia).
    destruct (decide (k < length m)%nat).
    + rewrite lookup_app_l in He by done. by apply (in_new _ _ _ _ _ _ Inv k).
    + rewrite lookup_app_r in He by lia.
      destruct (Hext e) as (? & ? & ? & Hx); [by eapply list_elem_of_lookup_2|].
      split_and!; [done..|]. intros a Ha. by apply Hsub, Hx.
  - rewrite length_insert, length_app. lia.
  - pose proof (in_total _ _ _ _ _ _ Inv). pose proof (cut_length _ _ _ _ C) as Hcl.
    rewrite length_insert, length_app, Nat2Z.inj_add.
    rewrite (insert_perm _ _ _ _ Hi').
    assert (usable_total (m ++ ext) = e_length ei + usable_total (delete i (m ++ ext))) as Hd.
    { rewrite (lookup_perm _ _ _ Hi') at 1. cbn [usable_total foldr]. by rewrite Ht. }
    cbn [usable_total foldr]. fold (usable_total (delete i (m ++ ext))).
    rewrite Hty, Ht. cbn. rewrite usable_total_app in Hd.
    nia.
  - intros k e Hk Hki He Hoke a [Ha1 Ha2]. rewrite list_lookup_insert_ne in He by done.
    destruct (cut_minus _ _ _ _ C a Ha1) as [Hei Hnej].
    rewrite lookup_app_l in He by lia.
    destruct (decide (k = j)) as [->|].
    + rewrite Hj in He. injection He as <-. done.
    + apply (in_apart _ _ _ _ _ _ Inv k e ltac:(lia) Hki He Hoke a). auto.
  - intros a Ha. destruct (in_keep _ _ _ _ _ _ Inv a Ha) as [Hu|]; [|by right].
    rewrite (lookup_perm _ _ _ Hi) in Hu. apply usable_at_cons in Hu as [(_ & _ & Hc)|Hu].
    + destruct (cut_all _ _ _ _ C a Hc) as [Hc'|[Hc'|(x & Hx & Hc')]].
      * left. rewrite (insert_perm _ _ _ _ Hi'). apply usable_at_cons. left.
        split_and!; [apply (cut_entry_ok _ _ _ _ C)|congruence|done].
      * destruct (decide (e_type ej = MEMMAP_USABLE)) as [Hu|Hu].
        -- left. apply has_type_lookup. exists j, ej.
           rewrite list_lookup_insert_ne, lookup_app_l by (done || lia). auto.
        -- right. exists (e_type ej). split; [done|]. apply (in_other _ _ _ _ _ _ H0 Ht0 Inv); [done|].
           apply has_type_lookup. exists j, ej. auto.
      * left. apply list_elem_of_lookup in Hx as [k Hk]. apply has_type_lookup.
        exists (length m + k)%nat, x. destruct (Hext x) as (? & ? & ? & _); [by eapply list_elem_of_lookup_2|].
        rewrite list_lookup_insert_ne, lookup_app_r by lia.
        replace (length m + k - length m)%nat with k by lia. auto.
    + left. rewrite (insert_perm _ _ _ _ Hi'). apply usable_at_cons. right.
      rewrite delete_take_drop in *. unfold usable_at in *.
      rewrite take_app_le, drop_app_le by lia. rewrite !has_type_app in *. tauto.
Qed.

Lemma inner_inv_skip m0 i e0 m j ei :
  inner_inv m0 i e0 m j ei ->
  (j = i \/ forall e, m !! j = Some e -> entry_ok e -> forall a, ~ covers e a) ->
  inner_inv m0 i e0 m (S j) ei.
Proof.
  intros Inv Hj. destruct Inv. split; auto.
  intros k e Hk Hki He Hok a [Ha1 Ha2]. destruct (decide (k = j)) as [->|].
  - destruct Hj as [?|Hj]; [done|]. by apply (Hj e He Hok a).
  - by apply (in_apart0 k e ltac:(lia) Hki He Hok a).
Qed.

Lemma inner_inv_empty m0 i e0 m j j' ei :
  inner_inv m0 i e0 m j ei -> e_length ei = 0 -> inner_inv m0 i e0 m j' ei.
Proof.
  intros Inv Hz. destruct Inv. split; try assumption.
  intros k e _ _ _ _ a [Ha _]. unfold covers, e_top in Ha. lia.
Qed.

Lemma inner_inv_start m0 i e0 :
  map_wf max_entries m0 -> m0 !! i = Some e0 -> e_type e0 = MEMMAP_USABLE -> entry_ok e0 ->
  inner_inv m0 i e0 m0 0 e0.
Proof.
  intros [? ?] ? ? ?. split; auto; try lia.
  intros k e Hk He. apply lookup_lt_Some in He. lia.
Qed.

Definition exhausted (msg : string) : Prop := msg = "Memory map exhausted."%string.

Lemma entry_len_lookup m i e : m !! i = Some e -> entry_len m i = e_length e.
Proof. unfold entry_len. by intros ->. Qed.

(** A fully contained entry is emptied, which cuts it out as well. *)
Lemma cut_ok_contained ei ej :
  entry_wf ei -> entry_ok ei -> e_base ej <= e_base ei -> e_top ei <= e_top ej ->
  cut_ok ei ej (set_range ei (e_top ei) 0) [].
Proof.
  intros (Hb & Hl & Hm) Hok H1 H2. unfold entry_ok, covers, e_top, entry_wf in *.
  split; unfold entry_wf, entry_ok, covers, e_top; cbn; try lia.
  constructor.
Qed.

Definition overlap_inv (m0 : list memmap_entry) i e0 (s : list memmap_entry * nat) : Prop :=
  exists ei, inner_inv m0 i e0 s.1 s.2 ei /\ (s.2 <= length s.1)%nat.

Definition overlap_post (m0 : list memmap_entry) i e0 (x : inner_exit) : Prop :=
  exists m ei, x = InnerEnd m /\ inner_inv m0 i e0 m (length m) ei.

Lemma overlap_skip m0 i e0 m j ei :
  inner_inv m0 i e0 m j ei -> (j < length m)%nat ->
  (j = i \/ forall e, m !! j = Some e -> entry_ok e -> forall a, ~ covers e a) ->
  overlap_inv m0 i e0 (m, S j) /\
  0 <= overlap_variant max_entries i (m, S j) < overlap_variant max_entries i (m, j).
Proof.
  intros Inv Hlt Hj. split; [exists ei; split; [by apply inner_inv_skip|simpl; lia]|].
  pose proof (in_wf _ _ _ _ _ _ Inv) as Hwf. rewrite Forall_lookup in Hwf.
  pose proof (in_i _ _ _ _ _ _ Inv) as Hi. destruct (Hwf i ei Hi) as (_ & Hl & _).
  cbn [overlap_variant]. rewrite (entry_len_lookup _ _ _ Hi). nia.
Qed.

Lemma overlap_cut m0 i e0 m j ei ej :
  m0 !! i = Some e0 -> e_type e0 = MEMMAP_USABLE ->
  inner_inv m0 i e0 m j ei -> m !! j = Some ej -> j <> i -> entry_ok ej -> 0 < e_length ej ->
  (e_base ej <=? e_base ei) && (e_top ei <=? e_top ej) = false ->
  let '(ei', ext) := cut ei ej in
  (length m + length ext <= max_entries)%nat ->
  overlap_inv m0 i e0 (<[i := ei']> (m ++ ext), S j) /\
  0 <= overlap_variant max_entries i (<[i := ei']> (m ++ ext), S j)
    < overlap_variant max_entries i (m, j).
Proof.
  intros H0 Ht0 Inv Hej Hji Hokj Hpos Hn.
  pose proof (in_wf _ _ _ _ _ _ Inv) as Hwf. rewrite Forall_lookup in Hwf.
  pose proof (in_i _ _ _ _ _ _ Inv) as Hi. destruct (in_shrink _ _ _ _ _ _ Inv) as [Hok _].
  pose proof (lookup_lt_Some _ _ _ Hej) as Hlt.
  assert (cut_ok ei ej (cut ei ej).1 (cut ei ej).2) as C.
  { apply cut_spec; [by apply (Hwf i)|by apply (Hwf j)|done|done|
      by apply (in_type _ _ _ _ _ _ Inv)|done|done]. }
  destruct (cut ei ej) as [ei' ext]. cbn [fst snd] in C. intros Hroom.
  pose proof (inner_inv_update _ _ _ _ _ _ _ _ _ H0 Ht0 Inv Hej Hji Hokj C Hroom) as Inv'.
  pose proof (cut_length _ _ _ _ C). destruct (cut_wf _ _ _ _ C) as (_ & ? & _).
  assert (0 <= usable_total ext).
  { apply usable_total_nonneg. eapply Forall_impl; [apply (cut_ext _ _ _ _ C)|]. by intros x (? & _). }
  split.
  - exists ei'. split; [done|]. cbn [fst snd]. rewrite length_insert, length_app. lia.
  - cbn [overlap_variant]. rewrite (entry_len_lookup _ _ _ Hi), (entry_len_lookup _ _ _ (in_i _ _ _ _ _ _ Inv')).
    rewrite length_insert, length_app. nia.
Qed.

Lemma overlap_contained m0 i e0 m j ei ej :
  m0 !! i = Some e0 -> e_type e0 = MEMMAP_USABLE ->
  inner_inv m0 i e0 m j ei -> m !! j = Some ej -> j <> i -> entry_ok ej ->
  e_base ej <= e_base ei -> e_top ei <= e_top ej ->
  overlap_post m0 i e0 (InnerEnd (<[i := set_range ei (e_top ei) 0]> m)).
Proof.
  intros H0 Ht0 Inv Hej Hji Hokj H1 H2.
  pose proof (in_wf _ _ _ _ _ _ Inv) as Hwf. rewrite Forall_lookup in Hwf.
  destruct (in_shrink _ _ _ _ _ _ Inv) as [Hok _].
  assert (cut_ok ei ej (set_range ei (e_top ei) 0) []) as C.
  { apply cut_ok_contained; [|done..]. apply (Hwf i), (in_i _ _ _ _ _ _ Inv). }
  assert (inner_inv m0 i e0 (<[i:=set_range ei (e_top ei) 0]> (m ++ [])) (S j)
            (set_range ei (e_top ei) 0)) as Inv'.
  { eapply inner_inv_update; try done. pose proof (in_len _ _ _ _ _ _ Inv). simpl. lia. }
  rewrite app_nil_r in Inv'. eexists _, _. split; [done|]. by eapply inner_inv_empty.
Qed.

Lemma overlap_turn m0 i e0 s :
  m0 !! i = Some e0 -> e_type e0 = MEMMAP_USABLE -> overlap_inv m0 i e0 s ->
  turn_ok (overlap_body max_entries i) (overlap_inv m0 i e0) (overlap_variant max_entries i)
    (overlap_post m0 i e0) exhausted s.
Proof.
  destruct s as [m j]. intros H0 Ht0 (ei & Inv & Hj). cbn [fst snd] in *. unfold turn_ok.
  destruct (decide (j < length m)%nat) as [Hlt|Hge].
  2: { unfold overlap_body. rewrite (proj2 (Nat.ltb_ge _ _)) by lia. cbn.
       exists m, ei. split; [done|]. by replace (length m) with j by lia. }
  destruct (decide (j = i)) as [->|Hji].
  { unfold overlap_body. rewrite (proj2 (Nat.ltb_lt _ _) Hlt), Nat.eqb_refl.
    eapply overlap_skip; eauto. }
  destruct (lookup_lt_is_Some_2 m j Hlt) as [ej Hej].
  destruct (in_shrink _ _ _ _ _ _ Inv) as [Hok _].
  rewrite (overlap_body_step _ _ _ _ _ (in_i _ _ _ _ _ _ Inv) Hej Hji Hok).
  destruct (entry_top ej) as [tj|] eqn:Hokj;
    [apply entry_top_Some in Hokj as [-> Hokj]|apply entry_top_None in Hokj].
  2: { eapply overlap_skip; [done|done|]. right. intros e He. congruence. }
  case_if.
  { eapply overlap_skip; [done|done|]. right. intros e He _ a.
    rewrite Hej in He. injection He as <-. unfold covers, e_top. lia. }
  pose proof (in_wf _ _ _ _ _ _ Inv) as Hwf. rewrite Forall_lookup in Hwf.
  destruct (Hwf j ej Hej) as (_ & Hl' & _).
  destruct ((e_base ej <=? e_base ei) && (e_top ei <=? e_top ej)) eqn:Hcont.
  - bool_hyps. by eapply overlap_contained.
  - pose proof (overlap_cut _ _ _ _ _ _ _ H0 Ht0 Inv Hej Hji Hokj ltac:(lia) Hcont) as Hcut.
    assert (length (cut ei ej).2 <= 1)%nat by (unfold cut; cbn; case_if; simpl; lia).
    destruct (cut ei ej) as [ei' ext]. pose proof (in_len _ _ _ _ _ _ Inv).
    case_if; [done|]. apply Hcut. simpl in *. destruct Hb0; bool_hyps; lia.
Qed.

Lemma overlap_loop_spec m0 i e0 :
  map_wf max_entries m0 -> m0 !! i = Some e0 -> e_type e0 = MEMMAP_USABLE -> entry_ok e0 ->
  res_post (overlap_post m0 i e0) exhausted (overlap_loop max_entries m0 i).
Proof.
  intros Hwf H0 Ht0 Hok. eapply loop_spec.
  - intros s. by apply overlap_turn.
  - exists e0. split; [by apply inner_inv_start|simpl; lia].
  - cbn. rewrite (entry_len_lookup _ _ _ H0). destruct Hwf as [_ Hwf]. rewrite Forall_lookup in Hwf.
    destruct (Hwf i e0 H0) as (? & ? & ?). nia.
Qed.

(** An entry that overflows is deleted, unless it is alone in the map. *)
Lemma overlap_loop_overflow m0 i e0 :
  m0 !! i = Some e0 -> ~ entry_ok e0 -> (0 <= e_length e0) ->
  res_post (fun x => x = InnerDel m0 \/ (x = InnerEnd m0 /\ length m0 = 1%nat))
    no_panic (overlap_loop max_entries m0 i).
Proof.
  intros H0 Hok Hl. pose proof (lookup_lt_Some _ _ _ H0) as Hlt.
  eapply (loop_spec _ (fun s => s.1 = m0 /\ (s.2 = 0 \/ (s.2 = 1 /\ i = 0))%nat /\ (s.2 <= length m0)%nat)).
  - intros [m j] (Hm & Hj & Hjl). cbn [fst snd] in *. subst m. unfold turn_ok, overlap_body.
    case_if.
    { right. split; [done|]. lia. }
    case_if.
    { cbn [res_post fst snd overlap_variant]. rewrite (entry_len_lookup _ _ _ H0).
      split_and!; [done|lia|lia|nia|lia]. }
    rewrite (rd_lookup _ _ _ H0). cbn [rbind]. rewrite (proj2 (entry_top_None e0) Hok). cbn. by left.
  - cbn. split_and!; [done|lia|lia].
  - cbn. rewrite (entry_len_lookup _ _ _ H0). nia.
Qed.

(** ** The outer loop

    What a pass may change: the other types keep their addresses, usable
    memory is never invented, and what disappears is claimed by another type. *)
Definition sem_sub (m m' : list memmap_entry) : Prop :=
  (forall t a, t <> MEMMAP_USABLE -> has_type m' t a <-> has_type m t a) /\
  (forall a, usable_at m' a -> usable_at m a).

Definition sem_keep (m m' : list memmap_entry) : Prop :=
  forall a, usable_at m a -> usable_at m' a \/ claimed_at m a.

Lemma sem_sub_claimed m m' a : sem_sub m m' -> claimed_at m' a <-> claimed_at m a.
Proof.
  intros [H _]. unfold claimed_at. split; intros (t & Ht & Hh); exists t; split; try done; by apply H.
Qed.

Lemma sem_sub_trans m1 m2 m3 : sem_sub m1 m2 -> sem_sub m2 m3 -> sem_sub m1 m3.
Proof.
  intros [H1 H1'] [H2 H2']. split; [|auto]. intros t a Ht. by rewrite H2, H1.
Qed.

Lemma sem_keep_trans m1 m2 m3 :
  sem_sub m1 m2 -> sem_keep m1 m2 -> sem_keep m2 m3 -> sem_keep m1 m3.
Proof.
  intros Hs H1 H2 a Ha. destruct (H1 a Ha) as [Hu|]; [|by right].
  destruct (H2 a Hu) as [|Hc]; [by left|]. right. by apply (sem_sub_claimed m1 m2).
Qed.

(** Dropping an entry that covers nothing, and shrinking a usable entry. *)
Lemma sem_drop m i e :
  m !! i = Some e -> e_type e = MEMMAP_USABLE -> sem_sub m (swap_remove m i).
Proof.
  intros Hi Ht. split.
  - intros t a Hne. rewrite (has_type_swap_remove m i e) by done. split; [by right|].
    intros [(_ & ? & _)|]; [congruence|done].
  - intros a Ha. apply (has_type_swap_remove m i e); [done|]. by right.
Qed.

Lemma sem_drop_keep m i e :
  m !! i = Some e -> (forall a, entry_ok e -> ~ covers e a) -> sem_keep m (swap_remove m i).
Proof.
  intros Hi Hno a Ha. apply (has_type_swap_remove m i e) in Ha as [(? & _ & Hc)|]; [|by left|done].
  by destruct (Hno a).
Qed.

Lemma sem_shrink m i e e' :
  m !! i = Some e -> e_type e = MEMMAP_USABLE -> e_type e' = e_type e ->
  (entry_ok e' -> entry_ok e) -> (forall a, covers e' a -> covers e a) ->
  sem_sub m (<[i := e']> m).
Proof.
  intros Hi Ht Ht' Hok Hc. split.
  - intros t a Hne. rewrite (has_type_insert _ _ _ _ _ _ Hi), (has_type_at _ _ _ _ _ Hi).
    split; (intros [(_ & ? & _)|]; [congruence|by right]).
  - intros a. unfold usable_at. rewrite (has_type_insert _ _ _ _ _ _ Hi), (has_type_at _ _ _ _ _ Hi).
    rewrite Ht'. intros [(? & ? & ?)|]; [left|right]; auto.
Qed.

Lemma sem_inner m0 i e0 m j ei :
  m0 !! i = Some e0 -> e_type e0 = MEMMAP_USABLE -> entry_ok e0 ->
  inner_inv m0 i e0 m j ei -> sem_sub m0 m /\ sem_keep m0 m.
Proof.
  intros H0 Ht0 Hok Inv. split; [split|].
  - intros t a Ht. by eapply in_other.
  - intros a. by eapply in_usable.
  - intros a Ha. by apply (in_keep _ _ _ _ _ _ Inv).
Qed.

(** ** [align_entry] *)
Definition page_aligned (e : memmap_entry) : Prop :=
  e_base e mod PAGE_SIZE = 0 /\ e_length e mod PAGE_SIZE = 0.

Lemma align_entry_spec e :
  entry_wf e -> e_type e = MEMMAP_USABLE ->
  let '(b, e') := align_entry e in
  entry_wf e' /\ e_type e' = e_type e /\ e_length e' <= e_length e /\
  e_base e <= e_base e' /\ e_top e' <= e_top e /\ (entry_ok e' -> entry_ok e) /\
  (b = true -> 0 < e_length e' /\ page_aligned e').
Proof.
  intros Hwf Ht. pose proof Hwf as (Hb & Hl & Hm). unfold align_entry, PAGE_SIZE.
  case_if; [split_and!; done|].
  destruct (ALIGN_UP (e_base e) 4096) as [b|] eqn:E; [|split_and!; done].
  apply align_up_Some in E as (_ & Hbb & Hmod & Hb64); [|lia|lia|lia].
  rewrite (wrap_small 64) by lia.
  pose proof (align_down_spec (e_length e - (b - e_base e)) 4096 ltac:(lia)) as Hd.
  pose proof (align_down_mod (e_length e - (b - e_base e)) 4096 ltac:(lia)) as Hdm.
  pose proof (align_down_nonneg (e_length e - (b - e_base e)) 4096 ltac:(lia) ltac:(lia)) as Hdn.
  set (L := align_down _ _) in *. unfold entry_wf, entry_ok, e_top, page_aligned, PAGE_SIZE.
  cbn [set_range e_base e_length e_type]. split_and!; try lia.
  intros Hok. pose proof (Z.div_mod b 4096). pose proof (Z.div_mod L 4096).
  change (2 ^ 64) with (4096 * 2 ^ 52) in *. lia.
Qed.

(** ** Entries the outer loop is done with *)
Definition settled (align : bool) (m : list memmap_entry) (k : nat) : Prop :=
  forall e, m !! k = Some e -> e_type e = MEMMAP_USABLE ->
  0 < e_length e /\ ((2 <= length m)%nat -> entry_ok e) /\
  (align = true -> page_aligned e) /\
  (forall k' e', k' <> k -> m !! k' = Some e' -> entry_ok e -> entry_ok e' ->
   forall a, ~ (covers e a /\ covers e' a)).

Lemma settled_inner align m0 i e0 m j ei k :
  m0 !! i = Some e0 -> e_type e0 = MEMMAP_USABLE -> entry_ok e0 ->
  inner_inv m0 i e0 m j ei -> k <> i -> (k < length m0)%nat ->
  settled align m0 k -> settled align m k.
Proof.
  intros H0 Ht0 Hok0 Inv Hki Hk Hs e He Ht.
  pose proof (lookup_lt_Some _ _ _ H0) as Hi.
  rewrite (in_old _ _ _ _ _ _ Inv) in He by done.
  destruct (Hs e He Ht) as (Hpos & Hok & Hal & Hap).
  split_and!; [done|intros _; apply Hok; lia|done|].
  intros k' e' Hk' He' Hoke Hoke' a [Ha Ha'].
  destruct (decide (k' = i)) as [->|Hk'i].
  - rewrite (in_i _ _ _ _ _ _ Inv) in He'. injection He' as <-.
    destruct (in_shrink _ _ _ _ _ _ Inv) as [_ Hsub].
    apply (Hap i e0 ltac:(lia) H0 Hoke Hok0 a). auto.
  - destruct (decide (k' < length m0)%nat) as [Hlt|Hge].
    + rewrite (in_old _ _ _ _ _ _ Inv) in He' by done. by apply (Hap k' e' Hk' He' Hoke Hoke' a).
    + destruct (in_new _ _ _ _ _ _ Inv k' e' ltac:(lia) He') as (_ & _ & Hsub).
      apply (Hap i e0 ltac:(lia) H0 Hoke Hok0 a). auto.
Qed.

Lemma settled_shrink align m i e e' k :
  m !! i = Some e -> (entry_ok e' -> entry_ok e) -> (forall a, covers e' a -> covers e a) ->
  k <> i -> settled align m k -> settled align (<[i := e']> m) k.
Proof.
  intros Hi Hok Hsub Hki Hs x Hx Ht. rewrite list_lookup_insert_ne in Hx by done.
  destruct (Hs x Hx Ht) as (Hpos & Hokx & Hal & Hap). rewrite length_insert.
  split_and!; [done..|]. intros k' y Hk' Hy Hox Hoy a [Ha Ha'].
  destruct (decide (k' = i)) as [->|].
  - rewrite list_lookup_insert_eq in Hy by (by eapply lookup_lt_Some). injection Hy as <-.
    apply (Hap i e ltac:(done) Hi Hox (Hok Hoy) a). auto.
  - rewrite list_lookup_insert_ne in Hy by done. by apply (Hap k' y Hk' Hy Hox Hoy a).
Qed.

Record outer_inv (align : bool) (m0 m : list memmap_entry) (i : nat) : Prop := {
  out_wf : map_wf max_entries m;
  out_i : (i <= length m)%nat;
  out_settled : forall k, (k < i)%nat -> settled align m k;
  out_sub : sem_sub m0 m;
  out_keep : align = false -> sem_keep m0 m;
}.

Lemma outer_inv_start align m : map_wf max_entries m -> outer_inv align m m 0.
Proof.
  intros H. split; [done|lia|intros; lia|split; intros; [done|done]|].
  intros _ a Ha. by left.
Qed.

(** Advancing over an entry that is settled, or deleting the entry at [i]. *)
Lemma outer_inv_next align m0 m i :
  outer_inv align m0 m i -> (i < length m)%nat -> settled align m i -> outer_inv align m0 m (S i).
Proof.
  intros Inv Hi Hs. destruct Inv. split; try done.
  intros k Hk. destruct (decide (k = i)) as [->|]; [done|]. apply out_settled0. lia.
Qed.

Lemma map_wf_remove m i e : m !! i = Some e -> map_wf max_entries m -> map_wf max_entries (swap_remove m i).
Proof.
  intros Hi [Hlen Hwf]. split; [rewrite (length_swap_remove m i e) by done; lia|].
  rewrite (swap_remove_perm m i e Hi) in Hwf. by inversion Hwf.
Qed.

Lemma outer_inv_delete align m0 m i j e :
  outer_inv align m0 m j -> m !! i = Some e -> e_type e = MEMMAP_USABLE ->
  (align = false -> forall a, entry_ok e -> ~ covers e a) ->
  outer_inv align m0 (swap_remove m i) 0.
Proof.
  intros Inv Hi Ht Hno. destruct Inv. split.
  - by eapply map_wf_remove.
  - lia.
  - intros; lia.
  - eapply sem_sub_trans; [done|by eapply sem_drop].
  - intros Hal. eapply sem_keep_trans; [done|auto|eapply sem_drop_keep; eauto].
Qed.

Lemma outer_inv_inner align m0 m i e m1 ei :
  outer_inv align m0 m i -> m !! i = Some e -> e_type e = MEMMAP_USABLE -> entry_ok e ->
  inner_inv m i e m1 (length m1) ei -> outer_inv align m0 m1 i.
Proof.
  intros Inv Hi Ht Hok In. pose proof (lookup_lt_Some _ _ _ Hi) as Hlt.
  destruct (sem_inner _ _ _ _ _ _ Hi Ht Hok In) as [Hsub Hkeep]. split.
  - split; [apply (in_len _ _ _ _ _ _ In)|apply (in_wf _ _ _ _ _ _ In)].
  - pose proof (in_grow _ _ _ _ _ _ In). lia.
  - intros k Hk. eapply settled_inner; try done; [lia|lia|]. by apply (out_settled _ _ _ _ Inv).
  - eapply sem_sub_trans; [apply (out_sub _ _ _ _ Inv)|done].
  - intros Hal. eapply sem_keep_trans; [apply (out_sub _ _ _ _ Inv)|by apply (out_keep _ _ _ _ Inv)|done].
Qed.

(** ** Termination: bytes of usable memory, then entries, then the index *)
Definition bulk (m : list memmap_entry) : Z :=
  usable_total m * (Z.of_nat max_entries + 1) + Z.of_nat (length m).

Lemma bulk_nonneg m : Forall entry_wf m -> 0 <= bulk m.
Proof. intros H. pose proof (usable_total_nonneg m H). unfold bulk. nia. Qed.

Lemma separate_variant_bulk m i :
  separate_variant max_entries (m, i)
  = bulk m * (Z.of_nat max_entries + 2) + (Z.of_nat (length m) - Z.of_nat i).
Proof. done. Qed.

Lemma variant_restart m m' i :
  map_wf max_entries m' -> (i <= length m)%nat -> bulk m' < bulk m ->
  0 <= separate_variant max_entries (m', 0%nat) < separate_variant max_entries (m, i).
Proof.
  intros [Hlen Hwf] Hi Hb. pose proof (bulk_nonneg m' Hwf). rewrite !separate_variant_bulk. nia.
Qed.

Lemma bulk_same m m' :
  (length m <= max_entries)%nat -> (length m' <= max_entries)%nat -> bulk m' = bulk m ->
  length m' = length m.
Proof.
  unfold bulk. intros H1 H2 H.
  assert (usable_total m = usable_total m' \/ usable_total m < usable_total m'
          \/ usable_total m' < usable_total m) as [?|[?|?]] by lia; nia.
Qed.

Lemma variant_next m m' i :
  map_wf max_entries m -> map_wf max_entries m' -> (i < length m')%nat -> (i < length m)%nat ->
  bulk m' <= bulk m ->
  0 <= separate_variant max_entries (m', S i) < separate_variant max_entries (m, i).
Proof.
  intros [Hlen Hwf] [Hlen' Hwf'] Hi' Hi Hb.
  pose proof (bulk_nonneg m' Hwf'). pose proof (bulk_nonneg m Hwf).
  destruct (decide (bulk m' = bulk m)) as [Heq|Hne].
  - pose proof (bulk_same m m' Hlen Hlen' Heq). rewrite !separate_variant_bulk. nia.
  - rewrite !separate_variant_bulk. nia.
Qed.

Lemma bulk_remove m i e :
  m !! i = Some e -> entry_wf e -> bulk (swap_remove m i) < bulk m.
Proof.
  intros Hi (_ & Hl & _). unfold bulk. rewrite (length_swap_remove m i e Hi).
  pose proof (lookup_lt_Some _ _ _ Hi).
  rewrite (usable_total_perm _ _ (swap_remove_perm m i e Hi)). cbn [usable_total foldr].
  fold (usable_total (swap_remove m i)). case_if; nia.
Qed.

Lemma bulk_insert m i e e' :
  m !! i = Some e -> e_type e' = e_type e -> e_length e' <= e_length e ->
  bulk (<[i := e']> m) <= bulk m.
Proof.
  intros Hi Ht Hl. unfold bulk. rewrite length_insert.
  rewrite (usable_total_perm _ _ (insert_perm m i e e' Hi)), (usable_total_perm _ _ (lookup_perm m i e Hi)).
  cbn [usable_total foldr]. rewrite Ht. case_if; nia.
Qed.

(** What a turn of the outer loop leaves, from the list [m] it started on. *)
Definition turn_post (align : bool) (m0 m : list memmap_entry) (i : nat)
    (o : list memmap_entry * nat + list memmap_entry) : Prop :=
  match o with
  | inl s' => outer_inv align m0 s'.1 s'.2 /\
              0 <= separate_variant max_entries s' < separate_variant max_entries (m, i)
  | inr m' => outer_inv align m0 m' (length m')
  end.

Lemma turn_delete align m0 m m1 i e :
  outer_inv align m0 m i -> outer_inv align m0 m1 i -> bulk m1 <= bulk m -> m1 !! i = Some e ->
  e_type e = MEMMAP_USABLE -> (align = false -> forall a, entry_ok e -> ~ covers e a) ->
  turn_post align m0 m i (inl (swap_remove m1 i, 0%nat)).
Proof.
  intros Inv Inv1 Hb Hi Ht Hno. split; cbn [fst snd].
  - by eapply outer_inv_delete.
  - destruct (out_wf _ _ _ _ Inv1) as [Hlen Hwf]. pose proof Hwf as Hwf'. rewrite Forall_lookup in Hwf'.
    pose proof (bulk_remove m1 i e Hi (Hwf' i e Hi)).
    apply variant_restart; [|apply (out_i _ _ _ _ Inv)|lia].
    eapply map_wf_remove; [done|by split].
Qed.

Lemma turn_next align m0 m m1 i :
  outer_inv align m0 m i -> outer_inv align m0 m1 i -> bulk m1 <= bulk m -> (i < length m)%nat ->
  (i < length m1)%nat -> settled align m1 i -> turn_post align m0 m i (inl (m1, S i)).
Proof.
  intros Inv Inv1 Hb Hi Hi1 Hs. split; cbn [fst snd].
  - by apply outer_inv_next.
  - apply variant_next; try done; [apply (out_wf _ _ _ _ Inv)|apply (out_wf _ _ _ _ Inv1)].
Qed.

Lemma outer_inv_align m0 m i e :
  outer_inv true m0 m i -> m !! i = Some e -> e_type e = MEMMAP_USABLE ->
  outer_inv true m0 (<[i := (align_entry e).2]> m) i.
Proof.
  intros Inv Hi Ht. pose proof (out_wf _ _ _ _ Inv) as [Hlen Hwf].
  pose proof Hwf as Hwf'. rewrite Forall_lookup in Hwf'.
  pose proof (align_entry_spec e (Hwf' i e Hi) Ht) as Ha. destruct (align_entry e) as [b e'].
  destruct Ha as (Hwe & Hty & Hle & Hbase & Htop & Hok & _). cbn [snd].
  assert (forall a, covers e' a -> covers e a) as Hsub by (unfold covers; lia).
  split.
  - split; [by rewrite length_insert|by apply Forall_insert].
  - rewrite length_insert. apply (out_i _ _ _ _ Inv).
  - intros k Hk. eapply settled_shrink; try done; [lia|]. by apply (out_settled _ _ _ _ Inv).
  - eapply sem_sub_trans; [apply (out_sub _ _ _ _ Inv)|]. by eapply sem_shrink.
  - done.
Qed.

(** The end of a turn, once the entry at [i] overlaps nothing. *)
Lemma separate_tail align m0 m m1 i e :
  outer_inv align m0 m i -> outer_inv align m0 m1 i -> bulk m1 <= bulk m -> (i < length m)%nat ->
  m1 !! i = Some e -> e_type e = MEMMAP_USABLE -> ((2 <= length m1)%nat -> entry_ok e) ->
  (forall k' e', k' <> i -> m1 !! k' = Some e' -> entry_ok e -> entry_ok e' ->
   forall a, ~ (covers e a /\ covers e' a)) ->
  res_post (turn_post align m0 m i) exhausted
    (let! e := rd m1 i in
     if e_length e =? 0 then Ok (inl (swap_remove m1 i, 0%nat))
     else if align then
       let '(ok, e) := align_entry e in
       let! m := wr m1 i e in
       if ok then Ok (inl (m, S i)) else Ok (inl (swap_remove m i, 0%nat))
     else Ok (inl (m1, S i))).
Proof.
  intros Inv Inv1 Hb Hi Hi1 Ht Hok Hap. pose proof (lookup_lt_Some _ _ _ Hi1) as Hlt1.
  rewrite (rd_lookup _ _ _ Hi1). cbn [rbind].
  destruct (out_wf _ _ _ _ Inv1) as [Hlen Hwf]. pose proof Hwf as Hwf'. rewrite Forall_lookup in Hwf'.
  pose proof (Hwf' i e Hi1) as Hwe. case_if.
  { cbn [res_post]. eapply turn_delete; try done. intros _ a _. unfold covers, e_top. lia. }
  destruct align.
  2: { apply turn_next; try done. intros x Hx _. rewrite Hi1 in Hx. injection Hx as <-.
       split_and!; [destruct Hwe; lia|done|done|done]. }
  pose proof (outer_inv_align m0 m1 i e Inv1 Hi1 Ht) as Inv2.
  pose proof (align_entry_spec e Hwe Ht) as Ha. destruct (align_entry e) as [b e'].
  destruct Ha as (Hwe' & Hty & Hle & Hbase & Htop & Hok' & Hal). cbn [snd] in Inv2.
  rewrite wr_lt by done. cbn [rbind].
  assert (<[i := e']> m1 !! i = Some e') as Hi2 by (by apply list_lookup_insert_eq).
  pose proof (bulk_insert m1 i e e' Hi1 Hty Hle) as Hb2.
  destruct b; cbn [res_post].
  - destruct (Hal eq_refl) as [Hpos Hpage].
    apply turn_next; try done; [lia|by rewrite length_insert|].
    intros x Hx _. rewrite Hi2 in Hx. injection Hx as <-. rewrite length_insert.
    split_and!; [done| |done|].
    + intros H2. specialize (Hok H2). unfold entry_ok in *. lia.
    + intros k' y Hk' Hy Ho1 Ho2 a [Hc1 Hc2]. rewrite list_lookup_insert_ne in Hy by done.
      apply (Hap k' y Hk' Hy (Hok' Ho1) Ho2 a). split; [|done]. unfold covers in *. lia.
  - eapply turn_delete; try done; [lia|congruence].
Qed.

Lemma separate_turn align m0 s :
  outer_inv align m0 s.1 s.2 ->
  turn_ok (separate_body max_entries align) (fun s => outer_inv align m0 s.1 s.2)
    (separate_variant max_entries) (fun m' => outer_inv align m0 m' (length m')) exhausted s.
Proof.
  destruct s as [m i]. cbn [fst snd]. intros Inv. unfold turn_ok.
  change (res_post (turn_post align m0 m i) exhausted (separate_body max_entries align (m, i))).
  unfold separate_body. destruct (i <? length m)%nat eqn:Hi; bool_hyps; cbn [negb].
  2: { cbn. pose proof (out_i _ _ _ _ Inv). by replace (length m) with i by lia. }
  destruct (lookup_lt_is_Some_2 m i Hi) as [e He]. rewrite (rd_lookup _ _ _ He). cbn [rbind].
  pose proof (out_wf _ _ _ _ Inv) as [Hlen Hwf]. pose proof Hwf as Hwf'. rewrite Forall_lookup in Hwf'.
  destruct (e_type e =? MEMMAP_USABLE) eqn:Ht; bool_hyps; cbn [negb].
  2: { apply turn_next; try done. intros x Hx ?. congruence. }
  destruct (decide (entry_ok e)) as [Hok|Hok].
  - eapply res_post_bind; [by apply overlap_loop_spec|].
    intros x (m1 & ei & -> & In). eapply (separate_tail _ _ _ _ _ ei); try done.
    + by eapply outer_inv_inner.
    + apply (in_total _ _ _ _ _ _ In).
    + apply (in_i _ _ _ _ _ _ In).
    + apply (in_type _ _ _ _ _ _ In).
    + intros _. apply (in_shrink _ _ _ _ _ _ In).
    + intros k' e' Hk' He' _ Hok' a. apply (in_apart _ _ _ _ _ _ In k'); try done.
      by eapply lookup_lt_Some.
  - destruct (Hwf' i e He) as (_ & Hl & _).
    eapply res_post_bind; [eapply res_post_mono; [by apply (overlap_loop_overflow m i e); [..|lia]| |done]|].
    { intros x Hx. exact Hx. }
    intros x [->|[-> H1]].
    + cbn [res_post]. eapply turn_delete; try done.
    + apply (separate_tail _ _ _ _ _ e); try done; try lia.
Qed.

(** The first loop terminates with every usable entry settled. *)
Lemma separate_spec align m :
  map_wf max_entries m ->
  res_post (fun m' => outer_inv align m m' (length m')) exhausted (separate max_entries align m).
Proof.
  intros Hwf. unfold separate. eapply loop_spec.
  - apply (separate_turn align m).
  - by apply outer_inv_start.
  - destruct Hwf as [? Hwf]. pose proof (bulk_nonneg m Hwf). rewrite separate_variant_bulk. nia.
Qed.
End Separate.
