(* ===== verification/Sanitise.v ===== *)
(** * [pmm_sanitise_entries] is correct

    The clipping, sorting and merging loops, and the theorems on the whole
    function: it terminates, its result is sorted, merged, free of empty
    entries and of overlaps with usable memory, and it denotes the same
    memory as its input. *)

From S2P Require Import Prelude CInt Memmap MemmapSem Separate.

(** What the first loop establishes and the later ones keep. *)
Record clean (max_entries : nat) (align : bool) (m : list memmap_entry) : Prop := {
  cl_wf : map_wf max_entries m;
  cl_apart : usable_apart m;
  cl_usable : Forall (fun e => e_type e = MEMMAP_USABLE ->
                0 < e_length e /\ (align = true -> page_aligned e)) m;
  cl_sound : (2 <= length m)%nat -> usable_sound m;
}.

Lemma clean_separated max_entries align m0 m :
  outer_inv max_entries align m0 m (length m) -> clean max_entries align m.
Proof.
  intros Inv. split.
  - apply (out_wf _ _ _ _ _ Inv).
  - apply ForallOrdPairs_lookup. intros i j x y Hij Hx Hy Hokx Hoky [Ht|Ht] a [Ha Hb].
    + destruct (out_settled _ _ _ _ _ Inv i (lookup_lt_Some _ _ _ Hx) x Hx Ht) as (_ & _ & _ & Hap).
      apply (Hap j y ltac:(lia) Hy Hokx Hoky a). auto.
    + destruct (out_settled _ _ _ _ _ Inv j (lookup_lt_Some _ _ _ Hy) y Hy Ht) as (_ & _ & _ & Hap).
      apply (Hap i x ltac:(lia) Hx Hoky Hokx a). auto.
  - apply Forall_lookup. intros i x Hx Ht.
    destruct (out_settled _ _ _ _ _ Inv i (lookup_lt_Some _ _ _ Hx) x Hx Ht) as (? & _ & ? & _). auto.
  - intros H2. apply Forall_lookup. intros i x Hx Ht.
    destruct (out_settled _ _ _ _ _ Inv i (lookup_lt_Some _ _ _ Hx) x Hx Ht) as (_ & Hok & _). auto.
Qed.

Lemma clean_perm max_entries align m m' :
  m ≡ₚ m' -> clean max_entries align m -> clean max_entries align m'.
Proof.
  intros Hp [[Hl Hw] Ha Hu Hs]. split.
  - split; [by rewrite <- Hp|by rewrite <- Hp].
  - by rewrite <- Hp.
  - by rewrite <- Hp.
  - unfold usable_sound in *. rewrite <- Hp. exact Hs.
Qed.

Lemma clean_tail max_entries align e m :
  clean max_entries align (e :: m) -> clean max_entries align m.
Proof.
  intros [[Hl Hw] Ha Hu Hs]. inversion Hw; inversion Ha; inversion Hu; subst. split; try done.
  - split; [simpl in *; lia|done].
  - intros Hlen2. assert (usable_sound (e :: m)) as Hs' by (apply Hs; simpl; lia).
    by inversion Hs'.
Qed.

Lemma clean_remove max_entries align m i e :
  m !! i = Some e -> clean max_entries align m -> clean max_entries align (swap_remove m i).
Proof.
  intros Hi Hc. eapply clean_tail, clean_perm; [|exact Hc]. by apply swap_remove_perm.
Qed.

(** Replacing the head by an entry that covers less. *)
Lemma clean_shrink max_entries align e e' m :
  clean max_entries align (e :: m) -> entry_wf e' -> e_type e' = e_type e ->
  (entry_ok e' <-> entry_ok e) -> (forall a, covers e' a -> covers e a) ->
  (e_type e = MEMMAP_USABLE -> 0 < e_length e' /\ (align = true -> page_aligned e')) ->
  clean max_entries align (e' :: m).
Proof.
  intros [[Hl Hw] Ha Hu Hs] Hwe Ht Hok Hsub Hus.
  inversion Hw; inversion Ha as [|? ? Hap ?]; inversion Hu; subst. split.
  - split; [done|by constructor].
  - constructor; [|done]. eapply Forall_impl; [exact Hap|]. intros x Hx Ho Hox Hor a [Hc Hc'].
    apply (Hx (proj1 Hok Ho) Hox ltac:(by rewrite <- Ht) a). auto.
  - constructor; [by rewrite Ht|done].
  - intros H2'. specialize (Hs H2'). inversion Hs; subst. constructor; [|done].
    rewrite Ht, Hok. done.
Qed.

Lemma clean_insert max_entries align m i e e' :
  m !! i = Some e -> clean max_entries align m -> entry_wf e' -> e_type e' = e_type e ->
  (entry_ok e' <-> entry_ok e) -> (forall a, covers e' a -> covers e a) ->
  (e_type e = MEMMAP_USABLE -> 0 < e_length e' /\ (align = true -> page_aligned e')) ->
  clean max_entries align (<[i := e']> m).
Proof.
  intros Hi Hc. intros. eapply clean_perm; [symmetry; by apply (insert_perm m i e)|].
  eapply clean_shrink; try done. eapply clean_perm; [|exact Hc]. by apply lookup_perm.
Qed.

Section Clip.
Variable max_entries : nat.
Variable keep : bool.

Definition kept (a : Z) : Prop := keep = true \/ 0x1000 <= a.

Record clip_inv (align : bool) (m1 m : list memmap_entry) (i : nat) : Prop := {
  cp_clean : clean max_entries align m;
  cp_i : (i <= length m)%nat;
  cp_done : forall k e, (k < i)%nat -> m !! k = Some e ->
            0 < e_length e /\ (e_type e = MEMMAP_USABLE -> kept (e_base e));
  cp_other : forall t a, t <> MEMMAP_USABLE -> has_type m t a <-> has_type m1 t a;
  cp_sub : forall a, usable_at m a -> usable_at m1 a;
  cp_keep : forall a, kept a -> usable_at m1 a -> usable_at m a;
}.

Lemma swap_remove_lookup (m : list memmap_entry) i k x :
  m !! i = Some x -> (k < i)%nat -> swap_remove m i !! k = m !! k.
Proof.
  intros Hi Hk. apply lookup_lt_Some in Hi. unfold swap_remove.
  rewrite lookup_take_lt by lia. case_if; [|done].
  destruct (last m); [|done]. by rewrite list_lookup_insert_ne by lia.
Qed.

Lemma clip_remove align m1 m i e :
  clip_inv align m1 m i -> m !! i = Some e ->
  (forall a, entry_ok e -> covers e a -> e_type e = MEMMAP_USABLE /\ ~ kept a) ->
  clip_inv align m1 (swap_remove m i) i /\
  0 <= index_variant (swap_remove m i, i) < index_variant (m, i).
Proof.
  intros [Hcl Hi Hd Ho Hs Hk] He Hno. pose proof (lookup_lt_Some _ _ _ He) as Hlt.
  pose proof (length_swap_remove m i e He) as Hlen.
  split; [|cbn; lia]. split.
  - by eapply clean_remove.
  - lia.
  - intros k x Hki Hx. rewrite (swap_remove_lookup m i k e) in Hx by done. eauto.
  - intros t a Ht. rewrite <- Ho by done. rewrite (has_type_swap_remove m i e t a He).
    split; [by right|]. intros [(Hok & <- & Hc)|]; [|done]. by destruct (Hno a Hok Hc).
  - intros a Ha. apply Hs. apply (has_type_swap_remove m i e _ a He). by right.
  - intros a Hka Ha. apply (Hk a Hka) in Ha. apply (has_type_swap_remove m i e _ a He) in Ha as [(Hok & _ & Hc)|]; [|done].
    by destruct (Hno a Hok Hc).
Qed.

Lemma clip_advance align m1 m i :
  clip_inv align m1 m i -> (i < length m)%nat ->
  (forall e, m !! i = Some e -> 0 < e_length e /\ (e_type e = MEMMAP_USABLE -> kept (e_base e))) ->
  clip_inv align m1 m (S i) /\ 0 <= index_variant (m, S i) < index_variant (m, i).
Proof.
  intros [Hcl Hi Hd Ho Hs Hk] Hlt He. split; [|cbn; lia]. split; try done.
  intros k e Hki Hx. destruct (decide (k = i)) as [->|]; [auto|]. apply (Hd k); [lia|done].
Qed.

Lemma clip_raise align m1 m i e :
  clip_inv align m1 m i -> m !! i = Some e -> e_type e = MEMMAP_USABLE -> keep = false ->
  e_base e < 0x1000 -> entry_ok e -> 0x1000 < e_top e ->
  clip_inv align m1 (<[i := set_range e 0x1000 (e_length e - (0x1000 - e_base e))]> m) i.
Proof.
  intros [Hcl Hi Hd Ho Hs Hk] He Ht Hkeep Hlow Hok Htop. pose proof (lookup_lt_Some _ _ _ He) as Hlt.
  pose proof (cl_wf _ _ _ Hcl) as [_ Hwf]. rewrite Forall_lookup in Hwf.
  destruct (Hwf i e He) as (Hb & Hl & Hm).
  set (e' := set_range _ _ _).
  assert (forall a, covers e' a <-> covers e a /\ 0x1000 <= a) as Hcov
    by (intros a; unfold covers, e_top, e' in *; cbn in *; lia).
  assert (entry_ok e' <-> entry_ok e) as Hok' by (unfold entry_ok, e_top, e' in *; cbn in *; lia).
  split.
  - eapply clean_insert; try done.
    + unfold entry_wf, entry_ok, e_top, e' in *. cbn in *. split_and!; try lia.
    + intros a Ha. by apply Hcov.
    + intros _. pose proof (cl_usable _ _ _ Hcl) as Hu. rewrite Forall_lookup in Hu.
      destruct (Hu i e He Ht) as [_ Hal]. unfold e_top, page_aligned, PAGE_SIZE, e' in *. cbn in *.
      split; [lia|]. intros Hal1. destruct (Hal Hal1) as [Hm1 Hm2].
      assert (e_base e = 0) as Hz by (rewrite Z.mod_small in Hm1; lia).
      split; [done|]. rewrite Hz, Z.sub_0_r. rewrite <- Zminus_mod_idemp_r.
      change (4096 mod 4096) with 0. by rewrite Z.sub_0_r.
  - by rewrite length_insert.
  - intros k x Hki Hx. rewrite list_lookup_insert_ne in Hx by lia. eauto.
  - intros t a Hne. rewrite <- Ho by done.
    rewrite (has_type_insert _ _ _ _ _ _ He), (has_type_at _ _ _ _ _ He).
    split; (intros [(_ & ? & _)|]; [exfalso; apply Hne; unfold e' in *; cbn in *; congruence|by right]).
  - intros a Ha. apply Hs. apply (has_type_insert _ _ _ _ _ _ He) in Ha. apply (has_type_at _ _ _ _ _ He).
    destruct Ha as [(? & ? & Hc)|]; [left|by right]. split_and!; [tauto|done|by apply Hcov].
  - intros a Hka Ha. apply (Hk a Hka) in Ha. apply (has_type_at _ _ _ _ _ He) in Ha.
    apply (has_type_insert _ _ _ _ _ _ He). destruct Ha as [(? & ? & Hc)|]; [left|by right].
    split_and!; [tauto|done|]. apply Hcov. split; [done|]. destruct Hka; [congruence|done].
Qed.

Lemma clip_turn align m1 s :
  clip_inv align m1 s.1 s.2 ->
  turn_ok (clip_body keep) (fun s => clip_inv align m1 s.1 s.2) index_variant
    (fun m' => clip_inv align m1 m' (length m')) no_panic s.
Proof.
  destruct s as [m i]. cbn [fst snd]. intros Inv. unfold turn_ok, clip_body.
  destruct (i <? length m)%nat eqn:Hi; bool_hyps; cbn [negb].
  2: { cbn. pose proof (cp_i _ _ _ _ Inv). by replace (length m) with i by lia. }
  destruct (lookup_lt_is_Some_2 m i Hi) as [e He]. rewrite (rd_lookup _ _ _ He). cbn [rbind].
  pose proof (cp_clean _ _ _ _ Inv) as Hcl. pose proof (cl_wf _ _ _ Hcl) as [_ Hwf].
  rewrite Forall_lookup in Hwf. destruct (Hwf i e He) as (Hb & Hl & Hm).
  assert (e_length e = 0 -> forall a, covers e a -> False) as Hz by (unfold covers, e_top; lia).
  destruct ((e_type e =? MEMMAP_USABLE) && negb keep && (e_base e <? 4096)) eqn:Hc; bool_hyps.
  - destruct (entry_top e) as [t|] eqn:Et;
      [apply entry_top_Some in Et as [-> Hok]|apply entry_top_None in Et].
    2: { cbn. eapply clip_remove; try done. }
    case_if.
    + cbn. eapply clip_remove; try done. intros a _ Ha. split; [done|].
      unfold kept. rewrite H1. unfold covers in Ha. intros [?|?]; [done|lia].
    + rewrite wrap_small by (unfold e_top, entry_ok in *; lia).
      rewrite wr_lt by done. cbn [rbind].
      pose proof (clip_raise align m1 m i e Inv He H H1 H0 Hok Hb0) as Inv'.
      cbn [set_range e_length]. rewrite (proj2 (Z.eqb_neq _ _)) by (unfold e_top in *; lia).
      eapply clip_advance in Inv'; [|by rewrite length_insert|].
      * destruct Inv' as [Inv' Hv]. split; [done|]. unfold index_variant in *.
        rewrite !length_insert in *. lia.
      * intros x Hx. rewrite list_lookup_insert_eq in Hx by done. injection Hx as <-.
        unfold kept, e_top in *. cbn. split; [lia|auto with lia].
  - case_if.
    + cbn. eapply clip_remove; try done. intros a _ Ha. by destruct (Hz Hb0 a).
    + cbn. apply clip_advance; [done|done|]. intros x Hx. rewrite He in Hx. injection Hx as <-.
      split; [lia|]. intros Ht. unfold kept. rewrite Ht in Hc. destruct keep; [by left|]. right.
      destruct Hc as [Hc|Hc]; [done|]. bool_hyps. lia.
Qed.

Lemma clip_spec align m :
  clean max_entries align m ->
  res_post (fun m' => clip_inv align m m' (length m')) no_panic (clip keep m).
Proof.
  intros Hcl. eapply loop_spec; [apply (clip_turn align m)| |cbn; lia].
  split; cbn; try done; lia.
Qed.
End Clip.

(** ** Sorting *)
Lemma swap_perm {A} (l : list A) i j x y :
  l !! i = Some x -> l !! j = Some y -> (i < j)%nat -> <[i := y]> (<[j := x]> l) ≡ₚ l.
Proof.
  intros Hi Hj Hij.
  pose proof (lookup_lt_Some _ _ _ Hi). pose proof (lookup_lt_Some _ _ _ Hj).
  assert (drop (S i) l !! (j - S i)%nat = Some y) as Hd.
  { rewrite lookup_drop. by replace (S i + (j - S i))%nat with j by lia. }
  assert (length (take i l) = i) as Hlen by (rewrite length_take; lia).
  pose proof (take_drop_middle l i x Hi) as Hl.
  revert Hd Hlen Hl. generalize (take i l) (drop (S i) l). intros l1 d Hd Hlen <-.
  replace j with (length l1 + S (j - S i))%nat by lia.
  replace i with (length l1 + 0)%nat at 1 by lia.
  rewrite insert_app_r, insert_app_r.
  change (<[S (j - S i) := x]> (x :: d)) with (x :: <[(j - S i)%nat := x]> d).
  change (<[0%nat := y]> (x :: <[(j - S i)%nat := x]> d)) with (y :: <[(j - S i)%nat := x]> d).
  apply Permutation_app_head.
  rewrite insert_take_drop by (by eapply lookup_lt_Some).
  rewrite <- (take_drop_middle _ _ _ Hd) at 3.
  rewrite <- !Permutation_middle. apply perm_swap.
Qed.

Lemma find_min_spec m p :
  (p < length m)%nat ->
  res_post (fun r => exists e, m !! r.2 = Some e /\ (p <= r.2)%nat /\
                     forall k x, (p <= k)%nat -> m !! k = Some x -> e_base e <= e_base x)
    no_panic (find_min m p).
Proof.
  intros Hp. unfold find_min. destruct (lookup_lt_is_Some_2 m p Hp) as [e He].
  rewrite (rd_lookup _ _ _ He). cbn [rbind].
  eapply res_post_mono; [apply (for_range_spec (fun i r =>
    exists e, m !! r.2 = Some e /\ (p <= r.2)%nat /\ r.1 = e_base e /\
    forall k x, (p <= k < i)%nat -> m !! k = Some x -> e_base e <= e_base x) no_panic) | | done].
  - intros k [mn idx] Hk (x & Hx & Hpx & Hmn & Hall). cbn [fst snd] in *.
    destruct (lookup_lt_is_Some_2 m k ltac:(lia)) as [y Hy]. rewrite (rd_lookup _ _ _ Hy). cbn [rbind].
    case_if; cbn.
    + exists y. split_and!; [done|lia|done|]. intros k' z Hk' Hz.
      destruct (decide (k' = k)) as [->|]; [rewrite Hy in Hz; injection Hz as <-; lia|].
      pose proof (Hall k' z ltac:(lia) Hz). lia.
    + exists x. split_and!; [done|lia|done|]. intros k' z Hk' Hz.
      destruct (decide (k' = k)) as [->|]; [rewrite Hy in Hz; injection Hz as <-; lia|].
      apply (Hall k' z ltac:(lia) Hz).
  - exists e. cbn. split_and!; [done|lia|done|]. intros; lia.
  - intros [mn idx] (x & Hx & Hpx & _ & Hall). exists x. split_and!; [done|done|].
    intros k y Hk Hy. apply (Hall k y); [|done]. apply lookup_lt_Some in Hy. lia.
Qed.

Definition sorted_upto (m : list memmap_entry) (p : nat) : Prop :=
  forall i j e e', (i < p)%nat -> (i <= j)%nat -> m !! i = Some e -> m !! j = Some e' ->
  e_base e <= e_base e'.

Lemma sort_turn_spec p m :
  (p < length m)%nat -> sorted_upto m p ->
  res_post (fun m' => m' ≡ₚ m /\ sorted_upto m' (S p)) no_panic (sort_turn p m).
Proof.
  intros Hp Hs. unfold sort_turn. eapply res_post_bind; [by apply find_min_spec|].
  intros [mn idx] (e & He & Hpi & Hmin). cbn [fst snd] in *. rewrite (rd_lookup _ _ _ He). cbn [rbind].
  destruct (lookup_lt_is_Some_2 m p Hp) as [ep Hep]. rewrite (rd_lookup _ _ _ Hep). cbn [rbind].
  rewrite wr_lt by (by eapply lookup_lt_Some). cbn [rbind]. rewrite wr_lt by (by rewrite length_insert).
  cbn [res_post].
  assert (<[p := e]> (<[idx := ep]> m) ≡ₚ m) as Hperm.
  { destruct (decide (idx = p)) as [->|]; [|apply swap_perm; [done|done|lia]].
    rewrite He in Hep. injection Hep as ->. by rewrite list_insert_insert_eq, list_insert_id. }
  split; [done|]. intros i j x y Hi Hij Hx Hy.
  assert (forall k z, (p <= k)%nat -> <[p := e]> (<[idx := ep]> m) !! k = Some z ->
          exists k', (p <= k')%nat /\ m !! k' = Some z) as Hfrom.
  { intros k z Hk Hz. destruct (decide (k = p)) as [->|].
    - rewrite list_lookup_insert_eq in Hz by (by rewrite length_insert). injection Hz as <-. eauto.
    - rewrite list_lookup_insert_ne in Hz by lia. destruct (decide (k = idx)) as [->|].
      + rewrite list_lookup_insert_eq in Hz by (by eapply lookup_lt_Some). injection Hz as <-. eauto.
      + rewrite list_lookup_insert_ne in Hz by lia. eauto. }
  destruct (decide (i = p)) as [->|].
  - rewrite list_lookup_insert_eq in Hx by (by rewrite length_insert). injection Hx as <-.
    destruct (Hfrom j y Hij Hy) as (k' & Hk' & Hy'). eauto.
  - rewrite !list_lookup_insert_ne in Hx by lia.
    destruct (decide (p <= j)%nat) as [Hpj|].
    + destruct (Hfrom j y Hpj Hy) as (k' & Hk' & Hy'). apply (Hs i k' x y); [lia|lia|done|done].
    + rewrite !list_lookup_insert_ne in Hy by lia. apply (Hs i j x y); [lia|done|done|done].
Qed.

Lemma sort_entries_spec m :
  res_post (fun m' => m' ≡ₚ m /\ base_sorted m') no_panic (sort_entries m).
Proof.
  unfold sort_entries.
  eapply res_post_mono; [apply (for_range_spec (fun p m' => m' ≡ₚ m /\ sorted_upto m' p) no_panic)| |done].
  - intros p m' Hp [Hperm Hs]. pose proof (Permutation_length Hperm).
    eapply res_post_mono; [apply sort_turn_spec; [lia|done]| |done].
    intros m'' [Hp2 ?]. split; [by rewrite Hp2|done].
  - split; [done|]. intros i j e e' Hi. lia.
  - intros m' [Hperm Hs]. split; [done|]. pose proof (Permutation_length Hperm).
    intros i j e e' Hij He He'. pose proof (lookup_lt_Some _ _ _ He). pose proof (lookup_lt_Some _ _ _ He').
    destruct (decide (i = j)) as [->|]; [rewrite He in He'; injection He' as <-; lia|].
    apply (Hs i j); [lia|done|done|done].
Qed.

(** ** Merging *)
Section Merge.
Variable max_entries : nat.
Variable align : bool.

Record merge_inv (m2 m : list memmap_entry) (i : nat) : Prop := {
  mg_clean : clean max_entries align m;
  mg_sorted : base_sorted m;
  mg_pos : Forall (fun e => 0 < e_length e) m;
  mg_i : (i <= length m)%nat;
  mg_types : forall t a, has_type m t a <-> has_type m2 t a;
  mg_pairs : forall k e e', (k < i)%nat -> m !! k = Some e -> m !! S k = Some e' ->
             mergeable (e_type e) = true -> e_type e' = e_type e -> e_base e' <> e_top e;
  mg_low : forall b, (forall e, e ∈ m2 -> e_type e = MEMMAP_USABLE -> b <= e_base e) ->
           forall e, e ∈ m -> e_type e = MEMMAP_USABLE -> b <= e_base e;
}.

Definition joined (e e' : memmap_entry) : memmap_entry :=
  set_range e (e_base e) (e_length e + e_length e').

(** Both halves of a mergeable pair are representable, hence so is their union. *)
Lemma joined_ok m e e' :
  clean max_entries align m -> (2 <= length m)%nat -> e' ∈ m ->
  mergeable (e_type e) = true -> e_type e' = e_type e -> e_base e' = e_top e ->
  entry_ok e' /\ entry_ok (joined e e').
Proof.
  intros Hcl H2 Hin Hmg Ht Hb.
  assert (entry_ok e') as Hok.
  { destruct (decide (e_type e' = MEMMAP_USABLE)) as [Hu|Hu].
    - pose proof (cl_sound _ _ _ Hcl H2) as Hs. unfold usable_sound in Hs.
      rewrite Forall_forall in Hs. by apply Hs.
    - destruct (cl_wf _ _ _ Hcl) as [_ Hwf]. rewrite Forall_forall in Hwf.
      destruct (Hwf e' Hin) as (_ & _ & Hm). apply Hm; [by rewrite Ht|done]. }
  split; [done|]. unfold joined, entry_ok, e_top in *. cbn. lia.
Qed.

Lemma joined_covers e e' a :
  0 <= e_length e -> 0 <= e_length e' -> e_base e' = e_top e ->
  covers (joined e e') a <-> covers e a \/ covers e' a.
Proof. unfold joined, covers, e_top. cbn. lia. Qed.

Lemma clean_join e e' R :
  clean max_entries align (e :: e' :: R) -> mergeable (e_type e) = true ->
  e_type e' = e_type e -> e_base e' = e_top e -> entry_ok e ->
  clean max_entries align (joined e e' :: R).
Proof.
  intros Hcl Hmg Ht Hb Hok.
  destruct (joined_ok (e :: e' :: R) e e' Hcl) as [Hok' Hokj]; try done; [simpl; lia|set_solver|].
  destruct Hcl as [[Hl Hw] Ha Hu Hs].
  apply Forall_cons in Hw as [Hwe Hw]. apply Forall_cons in Hw as [Hwe' Hw].
  apply Forall_cons in Hu as [Hue Hu]. apply Forall_cons in Hu as [Hue' Hu].
  inversion Ha as [|? ? Hap Ha']; subst. inversion Ha' as [|? ? Hap' Ha'']; subst.
  apply Forall_cons in Hap as [_ Hap].
  destruct Hwe as (Hbe & Hle & _), Hwe' as (Hbe' & Hle' & _).
  split.
  - split; [simpl in *; lia|]. constructor; [|done].
    unfold entry_wf, entry_ok, e_top, joined in *. cbn in *. split_and!; try lia.
  - constructor; [|done]. apply Forall_forall. intros x Hx _ Hox Hor a [Hc Hcx].
    rewrite Forall_forall in Hap. rewrite Forall_forall in Hap'.
    apply joined_covers in Hc as [Hc|Hc]; [| |lia|lia|done].
    + by apply (Hap x Hx Hok Hox Hor a).
    + assert (e_type e' = MEMMAP_USABLE \/ e_type x = MEMMAP_USABLE) as Hor' by (by rewrite Ht).
      by apply (Hap' x Hx Hok' Hox Hor' a).
  - constructor; [|done]. cbn. intros Hty. destruct (Hue Hty) as [? Hal].
    destruct (Hue' ltac:(by rewrite Ht)) as [? Hal']. split; [lia|].
    intros Hal1. destruct (Hal Hal1) as [? Hm], (Hal' Hal1) as [? Hm'].
    unfold page_aligned. cbn. split; [done|]. by rewrite Z.add_mod, Hm, Hm'.
  - intros H2. constructor; [done|]. unfold usable_sound in *.
    specialize (Hs ltac:(simpl; lia)). by do 2 apply Forall_cons in Hs as [_ Hs].
Qed.

Lemma base_sorted_join A e e' B :
  base_sorted (A ++ e :: e' :: B) -> base_sorted (A ++ joined e e' :: B).
Proof.
  intros Hs.
  assert (forall k x, (A ++ joined e e' :: B) !! k = Some x ->
          exists y, (A ++ e :: e' :: B) !! (if (k <=? length A)%nat then k else S k) = Some y
                    /\ e_base y = e_base x) as Hmap.
  { intros k x Hx. destruct (decide (k < length A)%nat) as [Hk|Hk].
    - rewrite lookup_app_l in Hx by done. exists x. rewrite (proj2 (Nat.leb_le _ _)) by lia.
      by rewrite lookup_app_l.
    - rewrite lookup_app_r in Hx by lia. destruct (decide (k = length A)) as [->|].
      + rewrite Nat.sub_diag in Hx. injection Hx as <-. exists e. rewrite Nat.leb_refl.
        by rewrite lookup_app_r, Nat.sub_diag by lia.
      + exists x. rewrite (proj2 (Nat.leb_gt _ _)) by lia. rewrite lookup_app_r by lia.
        replace (S k - length A)%nat with (S (S (k - length A - 1))) by lia.
        replace (k - length A)%nat with (S (k - length A - 1)) in Hx by lia. done. }
  intros i j x y Hij Hx Hy.
  destruct (Hmap i x Hx) as (x' & Hx' & <-), (Hmap j y Hy) as (y' & Hy' & <-).
  eapply Hs; [|done|done]. destruct (i <=? length A)%nat eqn:?, (j <=? length A)%nat eqn:?; bool_hyps; lia.
Qed.

Lemma merge_join m2 A e e' B :
  merge_inv m2 (A ++ e :: e' :: B) (length A) -> mergeable (e_type e) = true ->
  e_type e' = e_type e -> e_base e' = e_top e -> entry_ok e ->
  merge_inv m2 (A ++ joined e e' :: B) (length A).
Proof.
  intros Inv Hmg Ht Hb Hok.
  pose proof (mg_clean _ _ _ Inv) as Hcl.
  assert (A ++ e :: e' :: B ≡ₚ e :: e' :: (A ++ B)) as Hp by (by rewrite <- !Permutation_middle).
  assert (A ++ joined e e' :: B ≡ₚ joined e e' :: (A ++ B)) as Hp' by (by rewrite <- Permutation_middle).
  pose proof (clean_perm _ _ _ _ Hp Hcl) as Hcl'.
  destruct (joined_ok _ e e' Hcl') as [Hok' Hokj]; try done; [simpl; lia|set_solver|].
  destruct (cl_wf _ _ _ Hcl') as [_ Hwf].
  apply Forall_cons in Hwf as [(_ & Hl & _) Hwf]. apply Forall_cons in Hwf as [(_ & Hl' & _) _].
  split.
  - eapply clean_perm; [symmetry; exact Hp'|]. by apply clean_join.
  - by apply base_sorted_join, (mg_sorted _ _ _ Inv).
  - pose proof (mg_pos _ _ _ Inv) as Hpos. rewrite Hp in Hpos. rewrite Hp'.
    apply Forall_cons in Hpos as [? Hpos]. apply Forall_cons in Hpos as [? Hpos].
    constructor; [cbn; lia|done].
  - rewrite length_app. lia.
  - intros t a. rewrite <- (mg_types _ _ _ Inv). rewrite Hp, Hp', !has_type_cons.
    rewrite joined_covers by (lia || done). rewrite Ht. cbn [joined set_range e_type]. tauto.
  - intros k x y Hk Hx Hy. rewrite lookup_app_l in Hx by done.
    destruct (decide (S k < length A)%nat) as [Hk'|Hk'].
    + rewrite lookup_app_l in Hy by done. eapply (mg_pairs _ _ _ Inv k); try done.
      * by rewrite lookup_app_l.
      * by rewrite lookup_app_l.
    + assert (S k = length A) as Hk2 by lia. rewrite lookup_app_r, Hk2, Nat.sub_diag in Hy by lia.
      injection Hy as <-. eapply (mg_pairs _ _ _ Inv k x e); try done.
      * by rewrite lookup_app_l.
      * by rewrite lookup_app_r, Hk2, Nat.sub_diag by lia.
  - intros b Hlow x Hx Htx. rewrite Hp' in Hx. apply elem_of_cons in Hx as [->|Hx].
    + eapply (mg_low _ _ _ Inv b Hlow e); [rewrite Hp, !elem_of_cons; auto|done].
    + eapply (mg_low _ _ _ Inv b Hlow x); [rewrite Hp, !elem_of_cons; auto|done].
Qed.

Lemma merge_turn m2 s :
  merge_inv m2 s.1 s.2 ->
  turn_ok merge_body (fun s => merge_inv m2 s.1 s.2) index_variant
    (fun m' => merge_inv m2 m' (length m')) no_panic s.
Proof.
  destruct s as [m i]. cbn [fst snd]. intros Inv. unfold turn_ok, merge_body.
  assert (forall j, (i <= j)%nat -> (j <= length m)%nat ->
    (forall k e e', (i <= k < j)%nat -> m !! k = Some e -> m !! S k = Some e' ->
      mergeable (e_type e) = true -> e_type e' = e_type e -> e_base e' <> e_top e) ->
    merge_inv m2 m j) as Hadv.
  { intros j Hij Hj Hp. destruct Inv. split; try done. intros k e e' Hk.
    destruct (decide (k < i)%nat); [by apply mg_pairs0|]. apply Hp. lia. }
  destruct (i + 1 <? length m)%nat eqn:Hi; bool_hyps; cbn [negb].
  2: { cbn. apply Hadv; [apply (mg_i _ _ _ Inv)|done|].
       intros k e e' Hk _ He'. apply lookup_lt_Some in He'. lia. }
  destruct (lookup_lt_is_Some_2 m i ltac:(lia)) as [e He]. rewrite (rd_lookup _ _ _ He). cbn [rbind].
  destruct (lookup_lt_is_Some_2 m (i + 1) ltac:(lia)) as [e' He'].
  assert ((mergeable (e_type e) = true -> e_type e' = e_type e -> e_base e' <> e_top e) ->
    merge_inv m2 m (S i) /\ 0 <= index_variant (m, S i) < index_variant (m, i)) as Hnext.
  { intros Hn. split; [|cbn; lia]. apply Hadv; [lia|lia|]. intros k x y Hk Hx Hy.
    assert (k = i) as -> by lia. rewrite He in Hx. injection Hx as <-.
    replace (S i) with (i + 1)%nat in Hy by lia. rewrite He' in Hy. injection Hy as <-. done. }
  destruct (mergeable (e_type e)) eqn:Hmg; cbn [negb]; [|by apply Hnext].
  destruct (entry_top e) as [t|] eqn:Et;
    [apply entry_top_Some in Et as [-> Hok]|apply entry_top_None in Et].
  2: { cbn. apply Hnext. intros _ Ht Hb. destruct (cl_wf _ _ _ (mg_clean _ _ _ Inv)) as [_ Hwf].
       rewrite Forall_lookup in Hwf. destruct (Hwf _ _ He') as (Hbe & _). unfold entry_ok in Et. lia. }
  rewrite (rd_lookup _ _ _ He'). cbn [rbind].
  destruct ((e_type e' =? e_type e) && (e_base e' =? e_top e)) eqn:Hc.
  2: { cbn. apply Hnext. intros _ Ht Hb. bool_hyps. destruct Hc; bool_hyps; done. }
  bool_hyps. destruct (joined_ok m e e' (mg_clean _ _ _ Inv)) as [_ Hokj]; try done;
    [lia|by eapply list_elem_of_lookup_2|].
  destruct (cl_wf _ _ _ (mg_clean _ _ _ Inv)) as [_ Hwf]. rewrite Forall_lookup in Hwf.
  destruct (Hwf _ _ He) as (Hbe & _). unfold entry_ok, joined, e_top in Hokj. cbn in Hokj.
  assert (CHECKED_ADD (e_length e) (e_length e') = Some (e_length e + e_length e')) as ->
    by (apply checked_add_Some; lia).
  rewrite wr_lt by lia. cbn [rbind res_post fst snd].
  replace (i + 1)%nat with (S i) in He' by lia.
  pose proof (take_drop_middle m i e He) as Hm.
  assert (drop (S i) m = e' :: drop (S (S i)) m) as Hd by (by apply drop_S).
  assert (length (take i m) = i) as HA by (rewrite length_take; lia).
  replace (i + 1)%nat with (S i) by lia. replace (i + 2)%nat with (S (S i)) by lia.
  rewrite drop_insert_lt by lia. rewrite (take_S_r _ _ (joined e e')) by (apply list_lookup_insert_eq; lia).
  rewrite take_insert_ge by lia. rewrite <- app_assoc. cbn [app].
  assert (merge_inv m2 (take i m ++ joined e e' :: drop (S (S i)) m) i) as Inv'.
  { pose proof (merge_join m2 (take i m) e e' (drop (S (S i)) m)) as Hj.
    rewrite HA, <- Hd, Hm in Hj. by apply Hj. }
  split; [exact Inv'|]. cbn. rewrite length_app, HA. cbn [length]. rewrite length_drop. lia.
Qed.

Lemma merge_spec m :
  clean max_entries align m -> base_sorted m -> Forall (fun e => 0 < e_length e) m ->
  res_post (fun m' => merge_inv m m' (length m')) no_panic (merge_entries m).
Proof.
  intros Hcl Hs Hp. eapply loop_spec; [apply (merge_turn m)| |cbn; lia].
  split; cbn; try done; lia.
Qed.
End Merge.

(** ** The whole sanitiser *)
Section Whole.
Variable max_entries : nat.
Variable keep : bool.

(** The shape every sanitised map has. *)
Record sanitised (align : bool) (m : list memmap_entry) : Prop := {
  sn_clean : clean max_entries align m;
  sn_sorted : base_sorted m;
  sn_pos : Forall (fun e => 0 < e_length e) m;
  sn_merged : fully_merged m;
  sn_low : forall e, e ∈ m -> e_type e = MEMMAP_USABLE -> kept keep (e_base e);
}.

(** What the sanitised map [m'] means, given the meaning of [m]. *)
Record same_memory (align : bool) (m m' : list memmap_entry) : Prop := {
  sm_other : forall t a, t <> MEMMAP_USABLE -> has_type m' t a <-> has_type m t a;
  sm_sound : forall a, usable_at m' a -> free_at m a /\ kept keep a;
  sm_complete : align = false -> forall a, free_at m a -> kept keep a -> usable_at m' a;
}.

(** Usable memory in a clean map is free memory. *)
Lemma clean_free align m a : clean max_entries align m -> usable_at m a -> ~ claimed_at m a.
Proof.
  intros Hcl Hu (t & Ht & Hc). unfold usable_at in Hu. rewrite has_type_lookup in Hu, Hc.
  destruct Hu as (i & e & Hi & Hok & Hte & Hce), Hc as (j & e' & Hj & Hok' & Hte' & Hce').
  pose proof (cl_apart _ _ _ Hcl) as Hap.
  destruct (decide (i = j)) as [->|Hne]; [congruence|].
  destruct (decide (i < j)%nat).
  - apply (ForallOrdPairs_lookup_inv _ _ i j e e' Hap ltac:(done) Hi Hj Hok Hok' ltac:(auto) a). auto.
  - apply (ForallOrdPairs_lookup_inv _ _ j i e' e Hap ltac:(lia) Hj Hi Hok' Hok ltac:(auto) a). auto.
Qed.

Lemma pmm_sanitise_entries_spec align m :
  map_wf max_entries m ->
  res_post (fun m' => sanitised align m' /\ same_memory align m m') exhausted
    (pmm_sanitise_entries max_entries keep m align).
Proof.
  intros Hwf. unfold pmm_sanitise_entries.
  eapply res_post_bind; [by apply separate_spec|]. intros m1 I1.
  pose proof (clean_separated _ _ _ _ I1) as C1.
  eapply res_post_bind.
  { eapply res_post_mono; [by apply (clip_spec max_entries keep align)|intros x Hx; exact Hx|done]. }
  intros m2 I2. eapply res_post_bind.
  { eapply res_post_mono; [apply sort_entries_spec|intros x Hx; exact Hx|done]. }
  intros m3 [Hp Hs]. pose proof (clean_perm _ _ _ _ (symmetry Hp) (cp_clean _ _ _ _ _ _ I2)) as C3.
  assert (Forall (fun e => 0 < e_length e) m3) as Hpos.
  { rewrite Hp. apply Forall_lookup. intros k e He.
    by destruct (cp_done _ _ _ _ _ _ I2 k e (lookup_lt_Some _ _ _ He) He). }
  assert (forall e, e ∈ m3 -> e_type e = MEMMAP_USABLE -> kept keep (e_base e)) as Hlow.
  { intros e He. rewrite Hp in He. apply list_elem_of_lookup in He as [k He].
    by destruct (cp_done _ _ _ _ _ _ I2 k e (lookup_lt_Some _ _ _ He) He). }
  eapply res_post_mono; [by apply (merge_spec max_entries align)| |done]. intros m4 I4.
  assert (forall e, e ∈ m4 -> e_type e = MEMMAP_USABLE -> kept keep (e_base e)) as Hlow4.
  { intros e He Ht. unfold kept. destruct keep; [by left|right].
    refine (mg_low _ _ _ _ _ I4 0x1000 _ e He Ht). intros x Hx Htx.
    by destruct (Hlow x Hx Htx). }
  split; [split|].
  - apply (mg_clean _ _ _ _ _ I4).
  - apply (mg_sorted _ _ _ _ _ I4).
  - apply (mg_pos _ _ _ _ _ I4).
  - intros k e e' He. apply (mg_pairs _ _ _ _ _ I4 k); [by eapply lookup_lt_Some|done].
  - done.
  - assert (forall t a, t <> MEMMAP_USABLE -> has_type m4 t a <-> has_type m t a) as Hother.
    { intros t a Ht. rewrite (mg_types _ _ _ _ _ I4), Hp, (cp_other _ _ _ _ _ _ I2) by done.
      by apply (out_sub _ _ _ _ _ I1). }
    split; [done| |].
    + intros a Ha. split; [split|].
      * apply (out_sub _ _ _ _ _ I1), (cp_sub _ _ _ _ _ _ I2). unfold usable_at.
        by rewrite <- Hp, <- (mg_types _ _ _ _ _ I4).
      * intros (t & Ht & Hc). apply (clean_free align m4 a (mg_clean _ _ _ _ _ I4) Ha).
        exists t. split; [done|]. by apply Hother.
      * destruct Ha as (e & He & _ & Ht & Hc). unfold kept in *. unfold covers in Hc.
        destruct (Hlow4 e He Ht); [by left|right; lia].
    + intros Hal a [Hu Hn] Hk. unfold usable_at. rewrite (mg_types _ _ _ _ _ I4), Hp.
      apply (cp_keep _ _ _ _ _ _ I2 a Hk). by destruct (out_keep _ _ _ _ _ I1 Hal a Hu).
Qed.
End Whole.
