(* ===== verification/RangeAlloc.v ===== *)
(** * Reserving a range of the memory map

    [pmm_new_entry] carves the range out of every entry it meets and appends
    it; [memmap_alloc_range_in] does so where the range is available and
    sanitises the result.  The effect is stated on the addresses. *)

From S2P Require Import Prelude CInt Memmap MemmapSem Separate Sanitise.

Definition inside (base top a : Z) : Prop := base <= a < top.

Section Carve.
Variable max_entries : nat.
Variables base top : Z.
Hypothesis Hrange : 0 <= base <= top.
Hypothesis Htop : top < 2 ^ 64.

Record carve_inv (m0 m : list memmap_entry) (i : nat) : Prop := {
  cv_wf : map_wf max_entries m;
  cv_i : (i <= length m)%nat;
  cv_done : forall k e, (k < i)%nat -> m !! k = Some e -> entry_ok e ->
            forall a, inside base top a -> ~ covers e a;
  cv_sub : forall t a, has_type m t a -> has_type m0 t a;
  cv_keep : forall t a, ~ inside base top a -> has_type m0 t a -> has_type m t a;
}.

Lemma drop_swap_remove (m : list memmap_entry) i e :
  m !! i = Some e -> drop i (swap_remove m i) ≡ₚ drop (S i) m.
Proof.
  intros Hi. pose proof (lookup_lt_Some _ _ _ Hi) as Hlt.
  pose proof (swap_remove_perm m i e Hi) as Hp.
  assert (take i (swap_remove m i) = take i m) as Ht.
  { apply list_eq. intros k. destruct (decide (k < i)%nat) as [Hk|Hk].
    - rewrite !lookup_take_lt by done. by eapply swap_remove_lookup.
    - by rewrite !lookup_take_ge by lia. }
  rewrite <- (take_drop i (swap_remove m i)), Ht in Hp.
  rewrite <- (take_drop_middle m i e Hi) in Hp at 1.
  rewrite Permutation_middle in Hp. apply Permutation_app_inv_l in Hp.
  apply Permutation_cons_inv in Hp. done.
Qed.

Definition weight_sum (l : list memmap_entry) : Z :=
  foldr (fun e acc => carve_weight base top e + acc) 0 l.

Lemma weight_sum_perm l l' : l ≡ₚ l' -> weight_sum l = weight_sum l'.
Proof. induction 1; unfold weight_sum in *; cbn [foldr] in *; lia. Qed.

Lemma weight_sum_app l l' : weight_sum (l ++ l') = weight_sum l + weight_sum l'.
Proof. induction l as [|e l IH]; unfold weight_sum in *; cbn [foldr app] in *; [done|lia]. Qed.

Lemma carve_weight_pos e : 1 <= carve_weight base top e <= 2.
Proof. unfold carve_weight. case_if; lia. Qed.

Lemma weight_sum_nonneg l : 0 <= weight_sum l.
Proof.
  induction l as [|e l IH]; unfold weight_sum in *; cbn [foldr] in *; [lia|].
  pose proof (carve_weight_pos e). lia.
Qed.

Lemma carve_variant_cons m i e :
  m !! i = Some e ->
  carve_variant base top (m, i) = carve_weight base top e + weight_sum (drop (S i) m).
Proof. intros Hi. cbn [carve_variant]. by rewrite (drop_S m e i Hi). Qed.

(** The pieces an entry is replaced by. *)
Lemma carve_replace m0 m i e e' :
  carve_inv m0 m i -> m !! i = Some e -> entry_ok e -> entry_wf e' ->
  e_type e' = e_type e -> (forall a, covers e' a <-> covers e a /\ ~ inside base top a) -> entry_ok e' ->
  carve_inv m0 (<[i := e']> m) (S i).
Proof.
  intros [Hwf Hi Hd Hs Hk] He Hok Hwe Ht Hc Hok'. pose proof (lookup_lt_Some _ _ _ He) as Hlt. split.
  - destruct Hwf. split; [by rewrite length_insert|by apply Forall_insert].
  - rewrite length_insert. lia.
  - intros k x Hki Hx Hokx a Ha. destruct (decide (k = i)) as [->|].
    + rewrite list_lookup_insert_eq in Hx by done. injection Hx as <-. rewrite Hc. tauto.
    + rewrite list_lookup_insert_ne in Hx by done. apply (Hd k x ltac:(lia) Hx Hokx a Ha).
  - intros t a Ha. apply Hs. apply (has_type_insert _ _ _ _ _ _ He) in Ha. apply (has_type_at _ _ _ _ _ He).
    rewrite Ht, Hc in Ha. tauto.
  - intros t a Ha Hh. apply (Hk t a Ha) in Hh. apply (has_type_at _ _ _ _ _ He) in Hh.
    apply (has_type_insert _ _ _ _ _ _ He). rewrite Ht, Hc. tauto.
Qed.

Lemma carve_append m0 m i e e' e'' :
  carve_inv m0 m i -> m !! i = Some e -> entry_ok e -> (length m < max_entries)%nat ->
  entry_wf e' -> entry_wf e'' -> e_type e' = e_type e -> e_type e'' = e_type e ->
  entry_ok e' -> entry_ok e'' -> (forall a, inside base top a -> ~ covers e' a) ->
  (forall a, covers e' a \/ covers e'' a <-> covers e a /\ ~ inside base top a) ->
  carve_inv m0 (<[i := e']> m ++ [e'']) (S i).
Proof.
  intros [Hwf Hi Hd Hs Hk] He Hok Hroom Hwe Hwe' Ht Ht' Hok' Hok'' Hno Hc.
  pose proof (lookup_lt_Some _ _ _ He) as Hlt. split.
  - destruct Hwf. split; [rewrite length_app, length_insert; simpl; lia|].
    apply Forall_app. split; [by apply Forall_insert|by constructor].
  - rewrite length_app, length_insert. lia.
  - intros k x Hki Hx Hokx a Ha. rewrite lookup_app_l in Hx by (rewrite length_insert; lia).
    destruct (decide (k = i)) as [->|].
    + rewrite list_lookup_insert_eq in Hx by done. injection Hx as <-. by apply Hno.
    + rewrite list_lookup_insert_ne in Hx by done. apply (Hd k x ltac:(lia) Hx Hokx a Ha).
  - intros t a Ha. apply Hs. rewrite has_type_app, has_type_cons, has_type_nil in Ha.
    rewrite (has_type_insert _ _ _ _ _ _ He) in Ha. apply (has_type_at _ _ _ _ _ He).
    rewrite Ht, Ht' in Ha. specialize (Hc a). tauto.
  - intros t a Ha Hh. apply (Hk t a Ha) in Hh. apply (has_type_at _ _ _ _ _ He) in Hh.
    rewrite has_type_app, has_type_cons, has_type_nil, (has_type_insert _ _ _ _ _ _ He).
    rewrite Ht, Ht'. specialize (Hc a). tauto.
Qed.

Lemma carve_skip m0 m i e :
  carve_inv m0 m i -> m !! i = Some e ->
  (entry_ok e -> forall a, inside base top a -> ~ covers e a) -> carve_inv m0 m (S i).
Proof.
  intros [Hwf Hi Hd Hs Hk] He Hno. pose proof (lookup_lt_Some _ _ _ He) as Hlt. split; try done.
  intros k x Hki Hx Hokx. destruct (decide (k = i)) as [->|].
  - rewrite He in Hx. injection Hx as <-. auto.
  - apply (Hd k x); [lia|done|done].
Qed.

Lemma carve_drop m0 m i e :
  carve_inv m0 m i -> m !! i = Some e -> (forall a, covers e a -> inside base top a) ->
  carve_inv m0 (swap_remove m i) i.
Proof.
  intros [Hwf Hi Hd Hs Hk] He Hin. pose proof (lookup_lt_Some _ _ _ He) as Hlt.
  pose proof (length_swap_remove m i e He). split.
  - by eapply map_wf_remove.
  - lia.
  - intros k x Hki Hx. rewrite (swap_remove_lookup m i k e) in Hx by done. eauto.
  - intros t a Ha. apply Hs, (has_type_swap_remove m i e t a He). by right.
  - intros t a Ha Hh. apply (Hk t a Ha), (has_type_swap_remove m i e t a He) in Hh as [(_ & _ & Hc)|]; [|done].
    by destruct (Ha (Hin a Hc)).
Qed.

Ltac carve_arith := unfold entry_wf, entry_ok, covers, e_top, inside, set_range in *; cbn in *; lia.

Lemma carve_turn m0 s :
  carve_inv m0 s.1 s.2 ->
  turn_ok (carve_body max_entries base top) (fun s => carve_inv m0 s.1 s.2) (carve_variant base top)
    (fun m' => carve_inv m0 m' (length m')) exhausted s.
Proof.
  destruct s as [m i]. cbn [fst snd]. intros Inv. unfold turn_ok, carve_body.
  destruct (i <? length m)%nat eqn:Hi; bool_hyps; cbn [negb].
  2: { cbn. pose proof (cv_i _ _ _ Inv). by replace (length m) with i by lia. }
  destruct (lookup_lt_is_Some_2 m i Hi) as [e He]. rewrite (rd_lookup _ _ _ He). cbn [rbind].
  pose proof (cv_wf _ _ _ Inv) as [Hlen Hwf]. rewrite Forall_lookup in Hwf.
  destruct (Hwf i e He) as (Hbe & Hle & Hme).
  pose proof (carve_weight_pos e) as Hw. pose proof (weight_sum_nonneg (drop (S i) m)) as Hnn.
  rewrite (carve_variant_cons m i e He).
  destruct (entry_top e) as [t|] eqn:Et;
    [apply entry_top_Some in Et as [-> Hok]|apply entry_top_None in Et].
  2: { cbn. split; [eapply carve_skip; try done|unfold weight_sum in *; lia]. }
  assert (forall e', carve_variant base top (<[i := e']> m, S i) = weight_sum (drop (S i) m)) as Hv.
  { intros e'. cbn [carve_variant]. by rewrite drop_insert_lt by lia. }
  repeat (case_if; [cbn [res_post fst snd]|]).
  - split; [eapply carve_drop; try done; intros a Ha; carve_arith|].
    cbn [carve_variant]. change (foldr _ 0 ?l) with (weight_sum l).
    rewrite (weight_sum_perm _ _ (drop_swap_remove m i e He)). lia.
  - rewrite wr_lt by done. cbn [rbind res_post fst snd]. rewrite Hv. split; [|lia].
    rewrite !wrap_small by carve_arith.
    eapply carve_replace; try done; [carve_arith| |carve_arith].
    intros a; carve_arith.
  - rewrite wr_lt by done. cbn [rbind res_post fst snd]. rewrite Hv. split; [|lia].
    rewrite !wrap_small by carve_arith.
    eapply carve_replace; try done; [carve_arith| |carve_arith].
    intros a; carve_arith.
  - rewrite wr_lt by done. cbn [rbind]. case_if; [done|]. cbn [rbind res_post fst snd].
    match goal with H : context [length (<[_ := _]> _)] |- _ => rewrite length_insert in H end.
    rewrite !wrap_small by carve_arith. split.
    + eapply carve_append; try done; carve_arith.
    + cbn [carve_variant]. change (foldr _ 0 ?l) with (weight_sum l).
      rewrite drop_app_le by (rewrite length_insert; lia). rewrite drop_insert_lt by lia.
      rewrite weight_sum_app. cbn. unfold carve_weight; cbn.
      rewrite (proj2 (Z.ltb_ge top base)) by lia. cbn.
      rewrite (proj2 (Z.ltb_lt _ _)) by carve_arith. rewrite (proj2 (Z.ltb_lt _ _)) by carve_arith.
      cbn. lia.
  - cbn [res_post fst snd]. split; [|cbn; unfold weight_sum in *; lia].
    eapply carve_skip; try done. intros _ a Ha Hc.
    repeat (bool_hyps; match goal with H : _ \/ _ |- _ => destruct H end); bool_hyps; carve_arith.
Qed.

Lemma carve_spec m :
  map_wf max_entries m ->
  res_post (fun m' => carve_inv m m' (length m')) exhausted (carve max_entries base top m).
Proof.
  intros Hwf. eapply loop_spec; [apply (carve_turn m)| |apply weight_sum_nonneg].
  split; cbn; try done; lia.
Qed.
End Carve.

(** ** The new entry owns its range and nothing else changes *)
Definition retyped (m m' : list memmap_entry) (base top type : Z) : Prop :=
  forall t a, has_type m' t a <->
    (inside base top a /\ t = type) \/ (~ inside base top a /\ has_type m t a).

Section NewEntry.
Variable max_entries : nat.

Lemma pmm_new_entry_post m base len type :
  map_wf max_entries m -> 0 <= base -> 0 <= len -> base + len < 2 ^ 64 ->
  res_post (fun m' => map_wf max_entries m' /\ retyped m m' base (base + len) type) exhausted
    (pmm_new_entry max_entries m base len type).
Proof.
  intros Hwf Hb Hl Htop. unfold pmm_new_entry.
  assert (CHECKED_ADD base len = Some (base + len)) as -> by (apply checked_add_Some; lia).
  eapply res_post_bind; [apply carve_spec; [lia|lia|done]|]. intros m1 Inv.
  case_if; [done|]. cbn [res_post].
  assert (entry_ok (MkEntry base len type)) as Hok by (unfold entry_ok, e_top; cbn; lia).
  split.
  - destruct (cv_wf _ _ _ _ _ _ Inv) as [? ?]. split; [rewrite length_app; simpl; lia|].
    apply Forall_app. split; [done|]. constructor; [|done].
    unfold entry_wf; cbn. split_and!; try lia. by intros _ _.
  - intros t a. rewrite has_type_app, has_type_cons, has_type_nil.
    change (covers (MkEntry base len type) a) with (inside base (base + len) a). cbn [e_type].
    split.
    + intros [Hh|[(_ & <- & Hin)|[]]]; [|by left]. right. split.
      * intros Hin. apply has_type_lookup in Hh as (k & e & Hk & Hoke & _ & Hc).
        by apply (cv_done _ _ _ _ _ _ Inv k e (lookup_lt_Some _ _ _ Hk) Hk Hoke a).
      * by apply (cv_sub _ _ _ _ _ _ Inv).
    + intros [[Hin ->]|[Hout Hh]]; [auto 10|]. left. by apply (cv_keep _ _ _ _ _ _ Inv).
Qed.

Variable keep : bool.

(** The map after a reservation: sanitised, the range holds [type] only, and
    elsewhere the other types are as before and free memory stays usable. *)
Record reserved (m m' : list memmap_entry) (base top type : Z) : Prop := {
  rs_sanitised : sanitised max_entries keep false m';
  rs_other : forall t a, t <> MEMMAP_USABLE ->
             has_type m' t a <-> (inside base top a /\ t = type) \/ (~ inside base top a /\ has_type m t a);
  rs_usable : forall a, usable_at m' a <->
              kept keep a /\ ((inside base top a /\ type = MEMMAP_USABLE) \/
                              (~ inside base top a /\ free_at m a));
}.

Lemma reserved_retyped m m1 m' base top type :
  retyped m m1 base top type -> sanitised max_entries keep false m' -> same_memory keep false m1 m' ->
  reserved m m' base top type.
Proof.
  intros Hr Hs Hm. split; [done| |].
  - intros t a Ht. rewrite (sm_other _ _ _ _ Hm) by done. apply Hr.
  - assert (forall a, free_at m1 a <-> (inside base top a /\ type = MEMMAP_USABLE) \/
                              (~ inside base top a /\ free_at m a)) as Hfree.
    { intros a. unfold free_at, usable_at, claimed_at. setoid_rewrite (Hr _ a).
      assert (inside base top a \/ ~ inside base top a) as [Hin|Hout] by (unfold inside; lia).
      - split; [intros [[[_ ?]|[? _]] _]; [left; auto|tauto]|]. intros [[_ <-]|[? _]]; [|tauto].
        split; [by left|]. intros (t & Hne & [[_ ?]|[? _]]); [congruence|tauto].
      - split.
        + intros [[[? _]|[_ Hu]] Hn]; [tauto|]. right. split_and!; [done..|].
          intros (t & Hne & Hh). apply Hn. eauto.
        + intros [[? _]|[_ [Hu Hn]]]; [tauto|]. split; [by right|].
          intros (t & Hne & [[? _]|[_ Hh]]); [tauto|]. apply Hn. eauto. }
    intros a. rewrite <- Hfree. split.
    + intros Ha. destruct (sm_sound _ _ _ _ Hm a Ha). auto.
    + intros [Hk Hf]. by apply (sm_complete _ _ _ _ Hm eq_refl a).
Qed.

(** Some entry of the wanted type (any type if [overlay] is 0) encloses the range. *)
Definition available (m : list memmap_entry) (overlay base top : Z) : Prop :=
  exists e, e ∈ m /\ (overlay = 0 \/ e_type e = overlay) /\ entry_ok e /\
            e_base e <= base /\ top <= e_top e.

Lemma existsb_available m overlay base top :
  base < top -> existsb (encloses overlay base top) m = true <-> available m overlay base top.
Proof.
  intros Hlt. rewrite existsb_exists. unfold available, encloses.
  split; intros (e & Hin & H); exists e.
  - apply list_elem_of_In in Hin. split; [done|].
    destruct (entry_top e) as [t|] eqn:Et; [apply entry_top_Some in Et as [-> Hok]|by (revert H; case_if)].
    destruct (overlay =? 0) eqn:E1, (e_type e =? overlay) eqn:E2; cbn in H; bool_hyps; try done; auto.
  - split; [by apply list_elem_of_In|]. destruct H as (Hov & Hok & Hb & Ht).
    rewrite (proj2 (entry_top_Some e _) (conj eq_refl Hok)).
    assert (negb (overlay =? 0) && negb (e_type e =? overlay) = false) as ->.
    { destruct Hov as [->| ->]; [done|]. by rewrite Z.eqb_refl, andb_false_r. }
    rewrite !andb_true_iff, !Z.leb_le, Z.ltb_lt. lia.
Qed.

Lemma new_entry_sanitised m base len type :
  map_wf max_entries m -> 0 <= base -> 0 <= len -> base + len < 2 ^ 64 ->
  res_post (fun r => r.1 = true /\ reserved m r.2 base (base + len) type) exhausted
    (let! m := pmm_new_entry max_entries m base len type in
     let! m := pmm_sanitise_entries max_entries keep m false in
     Ok (true, m)).
Proof.
  intros. eapply res_post_bind; [by apply pmm_new_entry_post|]. intros m1 [Hwf Hr].
  eapply res_post_bind; [by apply pmm_sanitise_entries_spec|]. intros m2 [Hs Hm].
  cbn. split; [done|]. by eapply reserved_retyped.
Qed.

(** What a call that is not a simulation may return. *)
Definition alloc_range_post m base len type overlay (do_panic new_entry : bool)
    (r : bool * list memmap_entry) : Prop :=
  (r.1 = true /\ reserved m r.2 base (base + len) type /\
     (new_entry = false -> available m overlay base (base + len))) \/
  (r.1 = false /\ r.2 = m /\ do_panic = false /\ new_entry = false /\
     ~ available m overlay base (base + len)).

Lemma memmap_alloc_range_in_post m base len type overlay do_panic new_entry :
  map_wf max_entries m -> 0 <= base -> 0 < len -> base + len < 2 ^ 64 ->
  res_post (alloc_range_post m base len type overlay do_panic new_entry)
    (fun msg => exhausted msg \/
       (msg = "Memory allocation failure."%string /\ do_panic = true /\ new_entry = false /\
        ~ available m overlay base (base + len)))
    (memmap_alloc_range_in max_entries keep m base len type overlay do_panic false new_entry).
Proof.
  intros Hwf Hb Hl Htop. unfold memmap_alloc_range_in.
  rewrite (proj2 (Z.eqb_neq len 0)) by lia. cbn [andb].
  assert (CHECKED_ADD base len = Some (base + len)) as -> by (apply checked_add_Some; lia).
  pose proof (existsb_available m overlay base (base + len) ltac:(lia)) as Hav.
  pose proof (new_entry_sanitised m base len type Hwf Hb ltac:(lia) Htop) as Hnew.
  destruct (existsb _ m).
  - eapply res_post_mono; [exact Hnew| |by left]. intros r [? ?]. left. split_and!; [done..|].
    intros _. by apply Hav.
  - destruct new_entry; cbn [negb andb].
    + eapply res_post_mono; [exact Hnew| |by left]. intros r [? ?]. left. by split_and!.
    + assert (~ available m overlay base (base + len)) by (intros H; by apply Hav in H).
      destruct do_panic; cbn; right; by split_and!.
Qed.
End NewEntry.

(** * How many entries a reservation adds

    Callers that copy the memory map leave room for the entries their own
    allocation adds.  Reserving a range of usable memory in a sanitised map adds
    at most two: the range itself, and what is left of the entry around it. *)
(** ** Loops, when they return *)
Lemma loop_returns {S R} (body : S -> res (S + R)) (I : S -> Prop) (Q : R -> Prop) mu s r :
  (forall s, I s -> match body s with Ok (inl s') => I s' | Ok (inr r) => Q r | _ => True end) ->
  I s -> loop body mu s = Ok r -> Q r.
Proof.
  intros Hb. assert (forall p s, I s -> match iter_pos body p s with Ok (inl s') => I s' | Ok (inr r) => Q r | _ => True end) as H.
  { intros p. induction p as [q IH|q IH|]; intros s' Hs; cbn [iter_pos].
    - pose proof (Hb s' Hs) as H1. destruct (body s') as [[s1|r1]| | |]; try done.
      pose proof (IH s1 H1) as H2. destruct (iter_pos body q s1) as [[s2|r2]| | |]; try done. by apply IH.
    - pose proof (IH s' Hs) as H2. destruct (iter_pos body q s') as [[s2|r2]| | |]; try done. by apply IH.
    - by apply Hb. }
  intros Hs. unfold loop. specialize (H (Z.to_pos (mu s + 1)) s Hs).
  destruct (iter_pos _ _ s) as [[?|r']| | |]; try done. by intros [= <-].
Qed.

(** ** Maps on which the sanitiser has nothing to separate *)
Record tidy (m : list memmap_entry) : Prop := {
  td_apart : usable_apart m;
  td_pos : Forall (fun e => 0 < e_length e) m;
  td_sound : usable_sound m;
}.

Lemma tidy_perm m m' : m ≡ₚ m' -> tidy m -> tidy m'.
Proof. intros Hp [Ha Hl Hs]. split; [by rewrite <- Hp|by rewrite <- Hp|unfold usable_sound in *; by rewrite <- Hp]. Qed.

Lemma tidy_cons e m : tidy (e :: m) <-> Forall (apart e) m /\ 0 < e_length e /\ (e_type e = MEMMAP_USABLE -> entry_ok e) /\ tidy m.
Proof.
  split.
  - intros [Ha Hl Hs]. inversion Ha; inversion Hl; inversion Hs; subst. split_and!; try done.
  - intros (Ha & Hl & Hs & []). split; by constructor.
Qed.

(** Covering less keeps entries apart. *)
Lemma apart_shrink e e' x : entry_ok e -> e_type e' = e_type e -> (forall a, covers e' a -> covers e a) -> apart e x -> apart e' x.
Proof. intros Hok Ht Hc H _ Hox Hor a [? ?]. apply (H Hok Hox ltac:(by rewrite <- Ht) a). auto. Qed.

Lemma tidy_shrink e e' m : tidy (e :: m) -> entry_ok e -> entry_ok e' -> e_type e' = e_type e -> 0 < e_length e' ->
  (forall a, covers e' a -> covers e a) -> tidy (e' :: m).
Proof.
  rewrite !tidy_cons. intros (Ha & Hl & Hs & Ht) Hok Hok' Hty Hl' Hc. split_and!; try done.
  eapply Forall_impl; [exact Ha|]. intros x. by apply apart_shrink.
Qed.

Lemma tidy_split e e' e'' m : tidy (e :: m) -> entry_ok e -> entry_ok e' -> entry_ok e'' ->
  e_type e' = e_type e -> e_type e'' = e_type e -> 0 < e_length e' -> 0 < e_length e'' ->
  (forall a, covers e' a -> covers e a) -> (forall a, covers e'' a -> covers e a) -> (forall a, ~ (covers e' a /\ covers e'' a)) ->
  tidy (e' :: e'' :: m).
Proof.
  intros Ht Hok Hok' Hok'' Hty Hty' Hl Hl' Hc Hc' Hd.
  pose proof (tidy_shrink e e' m Ht Hok Hok' Hty Hl Hc) as H1. pose proof (tidy_shrink e e'' m Ht Hok Hok'' Hty' Hl' Hc') as H2.
  rewrite tidy_cons in H1. rewrite tidy_cons. destruct H1 as (Ha & Hp & Hs & _). split_and!; try done.
  constructor; [|done]. intros _ _ _. exact Hd.
Qed.

(** ** Carving a range out *)
Section Carve.
Variable max_entries : nat.
Variables base top : Z.
Hypothesis Hrange : 0 <= base < top.
Hypothesis Htop : top < 2 ^ 64.

Ltac carve_arith := unfold entry_wf, entry_ok, covers, e_top, inside, set_range in *; cbn in *; lia.

(** What an entry may become: itself, and a second piece if it encloses the range. *)
Definition pieces (e : memmap_entry) : Z :=
  if (e_base e <? base) && match entry_top e with Some t => top <? t | None => false end then 2 else 1.

Definition total_pieces (l : list memmap_entry) : Z := foldr (fun e n => pieces e + n) 0 l.

Lemma total_pieces_perm l l' : l ≡ₚ l' -> total_pieces l = total_pieces l'.
Proof. induction 1; unfold total_pieces in *; cbn [foldr] in *; lia. Qed.

Lemma total_pieces_app l l' : total_pieces (l ++ l') = total_pieces l + total_pieces l'.
Proof. induction l as [|e l IH]; unfold total_pieces in *; cbn [foldr app] in *; [done|lia]. Qed.

Lemma pieces_pos e : 1 <= pieces e <= 2.
Proof. unfold pieces. case_if; lia. Qed.

Lemma total_pieces_length l : Z.of_nat (length l) <= total_pieces l.
Proof. induction l as [|e l IH]; unfold total_pieces in *; cbn [foldr length] in *; [lia|]. pose proof (pieces_pos e). lia. Qed.

Definition budget (s : list memmap_entry * nat) : Z := Z.of_nat s.2 + total_pieces (drop s.2 s.1).

Lemma carve_tidy_body m0 m i : carve_inv max_entries base top m0 m i -> tidy m ->
  match carve_body max_entries base top (m, i) with
  | Ok (inl (m', i')) => tidy m' /\ budget (m', i') <= budget (m, i)
  | Ok (inr m') => m' = m /\ i = length m
  | _ => True
  end.
Proof.
  intros Inv Ht. unfold carve_body. destruct (i <? length m)%nat eqn:Hi; bool_hyps; cbn [negb].
  2: { split; [done|]. pose proof (cv_i _ _ _ _ _ _ Inv). lia. }
  destruct (lookup_lt_is_Some_2 m i Hi) as [e He]. rewrite (rd_lookup _ _ _ He). cbn [rbind].
  assert (budget (m, i) = Z.of_nat i + pieces e + total_pieces (drop (S i) m)) as Hbud.
  { unfold budget. cbn [fst snd]. rewrite (drop_S m e i He). unfold total_pieces. cbn [foldr]. lia. }
  pose proof (pieces_pos e) as Hp1. rewrite Hbud.
  assert (forall e', budget (<[i := e']> m, S i) = Z.of_nat (S i) + total_pieces (drop (S i) m)) as Hbi.
  { intros e'. unfold budget. cbn [fst snd]. by rewrite drop_insert_lt by lia. }
  pose proof (cv_wf _ _ _ _ _ _ Inv) as [_ Hwf]. rewrite Forall_lookup in Hwf. destruct (Hwf i e He) as (Hbe & Hle & _).
  destruct (entry_top e) as [t|] eqn:Et; [|split; [done|unfold budget; cbn [fst snd]; lia]].
  assert (pieces e = if (e_base e <? base) && (top <? t) then 2 else 1) as Hpe by (unfold pieces; by rewrite Et).
  apply entry_top_Some in Et as [-> Hok].
  pose proof (tidy_perm _ _ (lookup_perm m i e He) Ht) as Htp.
  assert (forall e', entry_ok e' -> e_type e' = e_type e -> 0 < e_length e' -> (forall a, covers e' a -> covers e a) ->
    tidy (<[i := e']> m) /\ budget (<[i := e']> m, S i) <= Z.of_nat i + pieces e + total_pieces (drop (S i) m)) as Hins.
  { intros e' ? ? ? ?. split; [|rewrite Hbi; lia].
    eapply tidy_perm; [symmetry; by apply (insert_perm m i e)|]. by eapply tidy_shrink. }
  repeat case_if; bool_hyps.
  - split; [apply (tidy_perm _ _ (swap_remove_perm m i e He)), tidy_cons in Ht; by destruct Ht as (_ & _ & _ & ?)|].
    unfold budget. cbn [fst snd]. rewrite (total_pieces_perm _ _ (drop_swap_remove m i e He)). lia.
  - rewrite wr_lt by done. cbn [rbind]. rewrite !wrap_small by carve_arith. apply Hins; carve_arith.
  - rewrite wr_lt by done. cbn [rbind]. rewrite !wrap_small by carve_arith. apply Hins; carve_arith.
  - rewrite wr_lt by done. cbn [rbind]. case_if; [done|]. rewrite !wrap_small by carve_arith.
    set (e' := set_range e (e_base e) _). set (e'' := MkEntry top _ _). split.
    + eapply tidy_perm with (m := e' :: e'' :: delete i m); [|eapply tidy_split; [exact Htp|..]; carve_arith].
      rewrite (insert_perm m i e e' He). by rewrite Permutation_app_comm, perm_swap.
    + unfold budget. cbn [fst snd]. rewrite drop_app_le by (rewrite length_insert; lia). rewrite drop_insert_lt by lia.
      rewrite total_pieces_app. rewrite Hpe.
      assert (pieces e'' = 1) as Hp2 by (unfold pieces, e''; cbn [e_base]; by rewrite (proj2 (Z.ltb_ge top base)) by lia).
      unfold total_pieces at 2. cbn [foldr andb]. rewrite Hp2. lia.
  - split; [done|]. unfold budget. cbn [fst snd]. lia.
Qed.

Lemma carve_returns m m' :
  map_wf max_entries m -> tidy m -> carve max_entries base top m = Ok m' ->
  tidy m' /\ carve_inv max_entries base top m m' (length m') /\ Z.of_nat (length m') <= total_pieces m.
Proof.
  intros Hwf Ht Hc.
  apply (loop_returns (carve_body max_entries base top)
    (fun s => carve_inv max_entries base top m s.1 s.2 /\ tidy s.1 /\ budget s <= total_pieces m)
    (fun m' => tidy m' /\ carve_inv max_entries base top m m' (length m') /\ Z.of_nat (length m') <= total_pieces m))
    with (s := (m, 0%nat)) (mu := carve_variant base top); [| |done].
  - intros [m1 i] (Inv & Ht1 & Hb). cbn [fst snd] in *.
    pose proof (carve_turn max_entries base top ltac:(lia) Htop m (m1, i) Inv) as Hturn. unfold turn_ok in Hturn.
    pose proof (carve_tidy_body m m1 i Inv Ht1) as Hbody.
    destruct (carve_body _ _ _ _) as [[[m2 i2]|m2]| | |] eqn:E; try done.
    + cbn [res_post fst snd] in Hturn. destruct Hturn as [Inv2 _], Hbody as [Ht2 Hb2]. split_and!; [done|done|cbn [fst snd]; lia].
    + cbn [res_post] in Hturn. destruct Hbody as [-> ->]. split_and!; [done|done|].
      unfold budget in Hb. cbn [fst snd] in Hb. rewrite drop_all in Hb. cbn in Hb. lia.
  - split_and!; [|done|].
    + split; cbn; try done; lia.
    + unfold budget. cbn [fst snd]. rewrite drop_0. lia.
Qed.
End Carve.

(** ** Sanitising a tidy map *)
Section Sanitise.
Variable max_entries : nat.
Variable keep : bool.

Lemma overlap_body_tidy m i j ei : tidy m -> Forall entry_wf m -> m !! i = Some ei -> e_type ei = MEMMAP_USABLE ->
  overlap_body max_entries i (m, j) = if (j <? length m)%nat then Ok (inl (m, S j)) else Ok (inr (InnerEnd m)).
Proof.
  intros [Ha Hl Hs] Hwf Hi Hu. unfold overlap_body. destruct (j <? length m)%nat eqn:Hj; bool_hyps; cbn [negb]; [|done].
  destruct (Nat.eqb_spec j i) as [->|Hne]; [done|].
  destruct (lookup_lt_is_Some_2 m j Hj) as [ej Hej]. rewrite (rd_lookup _ _ _ Hi), (rd_lookup _ _ _ Hej). cbn [rbind].
  pose proof (Forall_lookup_1 _ _ _ _ Hs Hi Hu) as Hok. cbn in Hok. rewrite (proj2 (entry_top_Some ei _) (conj eq_refl Hok)).
  destruct (entry_top ej) as [t|] eqn:Et; [apply entry_top_Some in Et as [-> Hokj]|done].
  pose proof (Forall_lookup_1 _ _ _ _ Hl Hi) as Hli. pose proof (Forall_lookup_1 _ _ _ _ Hl Hej) as Hlj. cbn in Hli, Hlj.
  pose proof (Forall_lookup_1 _ _ _ _ Hwf Hi) as (Hbi & Hli' & _). pose proof (Forall_lookup_1 _ _ _ _ Hwf Hej) as (Hbj & Hlj' & _).
  assert (forall a, ~ (covers ei a /\ covers ej a)) as Hd.
  { intros a [H1 H2]. destruct (decide (i < j)%nat).
    - apply (ForallOrdPairs_lookup_inv _ _ i j ei ej Ha ltac:(lia) Hi Hej Hok Hokj (or_introl Hu) a). auto.
    - apply (ForallOrdPairs_lookup_inv _ _ j i ej ei Ha ltac:(lia) Hej Hi Hokj Hok (or_intror Hu) a). auto. }
  assert (e_base ei < e_top ei) as Hei by (unfold e_top; lia). assert (e_base ej < e_top ej) as Hlt by (unfold e_top; lia).
  assert (e_top ei <= e_base ej \/ e_top ej <= e_base ei) as Hapart.
  { unfold covers in Hd. pose proof (Hd (Z.max (e_base ei) (e_base ej))). lia. }
  rewrite (proj2 (Z.eqb_neq _ _)) by lia. unfold is_nested.
  assert ((e_base ej <=? e_base ei) && (e_top ei <=? e_top ej) = false) as -> by (apply andb_false_iff; rewrite !Z.leb_gt; lia).
  assert ((e_base ei <=? e_base ej) && (e_base ej <? e_top ei) = false) as -> by (apply andb_false_iff; rewrite Z.leb_gt, Z.ltb_ge; lia).
  cbn [andb rbind].
  replace (if (e_base ei <=? e_base ej) && (e_base ej <? e_top ei) then e_base ej else e_top ei) with (e_top ei)
    by (case_if; bool_hyps; lia).
  replace (if (e_base ei <=? e_top ej) && (e_top ej <? e_top ei) then e_top ej else e_base ei) with (e_base ei)
    by (case_if; bool_hyps; lia).
  rewrite wr_lt by (by apply lookup_lt_Some in Hi). cbn [rbind].
  rewrite (wrap_small 64 (e_top ei - e_base ei)) by (unfold e_top in *; lia).
  replace (set_range ei (e_base ei) (e_top ei - e_base ei)) with ei
    by (unfold set_range, e_top; destruct ei; cbn; f_equal; lia).
  by rewrite list_insert_id.
Qed.

Lemma separate_returns m m' : tidy m -> Forall entry_wf m -> separate max_entries false m = Ok m' -> m' = m.
Proof.
  intros Ht Hwf.
  apply (loop_returns (separate_body max_entries false) (fun s => s.1 = m) (fun r => r = m) (separate_variant max_entries) (m, 0%nat)); [|done].
  intros [m1 i] E. cbn in E. subst m1. unfold separate_body. destruct (i <? length m)%nat eqn:Hi; bool_hyps; cbn [negb]; [|done].
  destruct (lookup_lt_is_Some_2 m i Hi) as [e He]. rewrite (rd_lookup _ _ _ He). cbn [rbind]. case_if; [done|]. bool_hyps.
  destruct (overlap_loop max_entries m i) as [x| | |] eqn:Eo; cbn [rbind]; try done.
  assert (x = InnerEnd m) as ->.
  { revert Eo. apply (loop_returns (overlap_body max_entries i) (fun s => s.1 = m) (fun x => x = InnerEnd m)); [|done].
    intros [m2 j] E. cbn in E. subst m2. rewrite (overlap_body_tidy m i j e) by done. by case_if. }
  rewrite (rd_lookup _ _ _ He). cbn [rbind]. pose proof (Forall_lookup_1 _ _ _ _ (td_pos _ Ht) He) as Hl. cbn in Hl.
  by rewrite (proj2 (Z.eqb_neq _ _)) by lia.
Qed.

Lemma clip_returns m m' : clip keep m = Ok m' -> (length m' <= length m)%nat.
Proof.
  apply (loop_returns (clip_body keep) (fun s => (length s.1 <= length m)%nat) (fun r => (length r <= length m)%nat)
    index_variant (m, 0%nat)); [|done].
  intros [m1 i] E. cbn in E. unfold clip_body. destruct (i <? length m1)%nat eqn:Hi; bool_hyps; cbn [negb]; [|done].
  destruct (lookup_lt_is_Some_2 m1 i Hi) as [e He]. rewrite (rd_lookup _ _ _ He). cbn [rbind].
  pose proof (length_swap_remove m1 i e He) as Hr.
  case_if; [destruct (entry_top e)|]; repeat case_if; cbn [fst]; try lia.
  - rewrite wr_lt by done. cbn [rbind fst].
    rewrite (length_swap_remove _ _ (set_range e 0x1000 (u64 (e_length e - (0x1000 - e_base e)))))
      by (by apply list_lookup_insert_eq). rewrite length_insert. lia.
  - rewrite wr_lt by done. cbn [rbind fst]. by rewrite length_insert.
Qed.

Lemma merge_returns m m' : merge_entries m = Ok m' -> (length m' <= length m)%nat.
Proof.
  apply (loop_returns merge_body (fun s => (length s.1 <= length m)%nat) (fun r => (length r <= length m)%nat)
    index_variant (m, 0%nat)); [|done].
  intros [m1 i] E. cbn in E. unfold merge_body. destruct (i + 1 <? length m1)%nat eqn:Hi; bool_hyps; cbn [negb]; [|done].
  destruct (lookup_lt_is_Some_2 m1 i ltac:(lia)) as [e He]. destruct (lookup_lt_is_Some_2 m1 (i + 1) ltac:(lia)) as [e' He'].
  rewrite (rd_lookup _ _ _ He), (rd_lookup _ _ _ He'). cbn [rbind]. case_if; [done|].
  destruct (entry_top e); [|done]. case_if; [|done]. destruct (CHECKED_ADD _ _); [|done].
  rewrite wr_lt by lia. cbn [rbind fst]. rewrite length_app, length_take, length_drop, length_insert. lia.
Qed.

Lemma sanitise_returns m m' : tidy m -> Forall entry_wf m -> pmm_sanitise_entries max_entries keep m false = Ok m' ->
  (length m' <= length m)%nat.
Proof.
  intros Ht Hwf. unfold pmm_sanitise_entries. destruct (separate _ _ m) as [m1| | |] eqn:E1; cbn [rbind]; try done.
  apply separate_returns in E1 as ->; [|done|done].
  destruct (clip keep m) as [m2| | |] eqn:E2; cbn [rbind]; try done. apply clip_returns in E2.
  pose proof (sort_entries_spec m2) as Hsort. destruct (sort_entries m2) as [m3| | |]; cbn [rbind]; try done.
  destruct Hsort as [Hp%Permutation_length _]. intros E3%merge_returns. lia.
Qed.

(** At most one entry of a tidy map encloses an address range if one of them is
    usable memory. *)
Lemma pieces_one m base top : tidy m -> base < top -> 
  (forall e, e ∈ m -> e_type e <> MEMMAP_USABLE -> pieces base top e = 1) ->
  total_pieces base top m <= Z.of_nat (length m) + 1.
Proof.
  intros Ht Hlt Hn. induction m as [|e m IH]; [cbn; lia|]. pose proof Ht as (Ha & Hl & Hs & Htm)%tidy_cons.
  change (total_pieces base top (e :: m)) with (pieces base top e + total_pieces base top m). cbn [length].
  assert (forall x, x ∈ m -> e_type x <> MEMMAP_USABLE -> pieces base top x = 1) as Hn' by (intros x Hx; apply Hn; by right).
  destruct (decide (pieces base top e = 1)) as [->|E2]; [specialize (IH Htm Hn'); lia|].
  assert (e_type e = MEMMAP_USABLE) as Hu.
  { destruct (decide (e_type e = MEMMAP_USABLE)); [done|]. exfalso. apply E2, Hn; [by apply list_elem_of_here|done]. }
  pose proof (pieces_pos base top e). assert (total_pieces base top m = Z.of_nat (length m)) as ->; [|lia].
  assert (Forall (fun x => pieces base top x = 1) m) as H1.
  { eapply Forall_impl; [exact Ha|]. intros x Hx. revert E2. unfold pieces. repeat case_if; try done. intros _. exfalso.
    bool_hyps. destruct (entry_top e) as [t|] eqn:Et; [|done]. apply entry_top_Some in Et as [-> Hok].
    destruct (entry_top x) as [t'|] eqn:Et'; [|done]. apply entry_top_Some in Et' as [-> Hok']. bool_hyps.
    apply (Hx Hok Hok' (or_introl Hu) base). unfold covers. lia. }
  clear -H1. induction H1 as [|x m Hx _ IH]; [done|].
  change (total_pieces base top (x :: m)) with (pieces base top x + total_pieces base top m). cbn [length]. lia.
Qed.

(** A reservation of usable memory in a sanitised map. *)
Lemma reserve_growth m base len type m' :
  sanitised max_entries keep false m -> 0 <= base -> 0 < len -> base + len < 2 ^ 64 ->
  (forall a, inside base (base + len) a -> usable_at m a) -> type <> MEMMAP_USABLE ->
  (let! m := pmm_new_entry max_entries m base len type in pmm_sanitise_entries max_entries keep m false) = Ok m' ->
  (length m' <= length m + 2)%nat.
Proof.
  intros Hsn Hb Hl Htop Hu Hty. pose proof (sn_clean _ _ _ _ Hsn) as Hcl. pose proof (cl_wf _ _ _ Hcl) as Hwf.
  assert (tidy m) as Ht.
  { split; [apply Hcl|apply Hsn|]. destruct (decide (2 <= length m)%nat) as [H2|H2]; [by apply (cl_sound _ _ _ Hcl)|].
    destruct m as [|e [|]]; [constructor| |cbn in H2; lia]. constructor; [|constructor]. intros Hue.
    destruct (Hu base ltac:(unfold inside; lia)) as (x & Hx & Hok & _).
    apply list_elem_of_singleton in Hx as ->. done. }
  unfold pmm_new_entry. assert (CHECKED_ADD base len = Some (base + len)) as -> by (apply checked_add_Some; lia).
  destruct (carve _ _ _ m) as [m1| | |] eqn:Ec; cbn [rbind]; try done.
  apply (carve_returns max_entries base (base + len) ltac:(lia) Htop) in Ec as (Ht1 & Inv & Hlen); [|done|done].
  case_if; [done|]. cbn [rbind]. intros E. apply sanitise_returns in E.
  - rewrite length_app in E. cbn [length] in E.
    assert (total_pieces base (base + len) m <= Z.of_nat (length m) + 1); [|lia].
    apply pieces_one; [done|lia|]. intros e He Hne. unfold pieces. case_if; [|done]. bool_hyps. exfalso.
    destruct (entry_top e) as [t|] eqn:Et; [|done]. apply entry_top_Some in Et as [-> Hok]. bool_hyps.
    apply (clean_free max_entries false m base Hcl); [apply Hu; unfold inside; lia|].
    exists (e_type e). split; [done|]. exists e. split_and!; try done. unfold covers; lia.
  - eapply tidy_perm; [apply Permutation_cons_append|]. apply tidy_cons. split_and!; [|cbn; lia|by intros|done].
    apply Forall_lookup. intros k x Hk _ Hokx _ a [Hc Hc'].
    by apply (cv_done _ _ _ _ _ _ Inv k x (lookup_lt_Some _ _ _ Hk) Hk Hokx a Hc).
  - apply Forall_app. split; [apply (cv_wf _ _ _ _ _ _ Inv)|]. constructor; [|done]. unfold entry_wf, entry_ok, e_top; cbn. lia.
Qed.
End Sanitise.
