(* ===== verification/Pmm.v ===== *)
(** * The physical memory allocator

    The state of [common/mm/pmm.s2.c] and [common/mm/pmm.c] and the functions
    that work on the global [memmap]: initialisation from the BIOS map, the
    conventional-memory and top-down allocators, [pmm_free], [pmm_realloc],
    [get_memmap] and [check_usable_memory].  Physical memory is a function
    from addresses to bytes, so the zeroing and copying of blocks is part of
    the state. *)

From S2P Require Import Prelude CInt Memmap.

Record pmm := MkPmm {
  memmap : list memmap_entry;
  allocations_disallowed : bool;
  pmm_sanitiser_keep_first_page : bool;
  conv_base : Z;            (** the static [base] of [conv_mem_alloc] *)
  ram : Z -> Z;
}.

Definition with_memmap (st : pmm) (m : list memmap_entry) : pmm :=
  MkPmm m (allocations_disallowed st) (pmm_sanitiser_keep_first_page st) (conv_base st) (ram st).
Definition with_disallowed (st : pmm) (b : bool) : pmm :=
  MkPmm (memmap st) b (pmm_sanitiser_keep_first_page st) (conv_base st) (ram st).
Definition with_conv_base (st : pmm) (b : Z) : pmm :=
  MkPmm (memmap st) (allocations_disallowed st) (pmm_sanitiser_keep_first_page st) b (ram st).
Definition with_ram (st : pmm) (r : Z -> Z) : pmm :=
  MkPmm (memmap st) (allocations_disallowed st) (pmm_sanitiser_keep_first_page st) (conv_base st) r.

(** [memset] and [memcpy] on physical memory; the blocks copied never overlap. *)
Definition memset (r : Z -> Z) (s c n : Z) : Z -> Z :=
  fun a => if (s <=? a) && (a <? s + n) then u8 c else r a.

Definition memcpy (r : Z -> Z) (dest src n : Z) : Z -> Z :=
  fun a => if (dest <=? a) && (a <? dest + n) then r (src + (a - dest)) else r a.

Fixpoint first_some {A B : Type} (f : A -> option B) (l : list A) : option B :=
  match l with
  | [] => None
  | x :: l => match f x with Some y => Some y | None => first_some f l end
  end.

Section Pmm.
(** The build: the map's capacity, whether the target is x86 (either width)
    and whether it is 32-bit x86. *)
Variable max_entries : nat.
Variables x86 i386 : bool.

Definition sanitise (st : pmm) (align_entries : bool) : res pmm :=
  let! m := pmm_sanitise_entries max_entries (pmm_sanitiser_keep_first_page st) (memmap st) align_entries in
  Ok (with_memmap st m).

Definition memmap_alloc_range (st : pmm) (base len type overlay_type : Z)
    (do_panic simulation new_entry : bool) : res (bool * pmm) :=
  let! (b, m) := memmap_alloc_range_in max_entries (pmm_sanitiser_keep_first_page st) (memmap st)
                   base len type overlay_type do_panic simulation new_entry in
  Ok (b, with_memmap st m).

(** ** Conventional memory *)
Definition conv_body (count : Z) (st : pmm) : res (pmm + (Z * pmm)) :=
  let base := conv_base st in
  if 0x100000 <? u64 (base + count) then Panic "Conventional memory allocation failed"
  else
    let! (ok, st) := memmap_alloc_range st base count MEMMAP_BOOTLOADER_RECLAIMABLE
                       MEMMAP_USABLE false false false in
    if ok : bool then
      let st := with_ram st (memset (ram st) base 0 count) in
      let st := with_conv_base st (u64 (base + count)) in
      let! st := sanitise st false in
      Ok (inr (base, st))
    else Ok (inl (with_conv_base st (u64 (base + 4096)))).

Definition conv_variant (st : pmm) : Z := 2 ^ 22 - conv_base st.

Definition conv_mem_alloc (st : pmm) (count : Z) : res (Z * pmm) :=
  if allocations_disallowed st then Panic "Memory allocations disallowed"
  else
    let count := if count =? 0 then 1 else count in
    match ALIGN_UP count 4096 with
    | None => Panic "Alignment overflow"
    | Some count => loop (conv_body count) conv_variant st
    end.

(** ** The BIOS memory map

    [ebda_get] takes the BIOS data area's word at [0x40e]. *)
Definition ebda_get (bda_word : Z) : Z :=
  let ebda := Z.shiftl bda_word 4 in
  if (ebda <? 0x80000) || (0xa0000 <=? ebda) then 0x80000 else ebda.

Definition init_memmap_entry (EBDA : Z) (e : memmap_entry) : option memmap_entry :=
  match entry_top e with
  | None => None
  | Some top =>
      if e_type e =? MEMMAP_USABLE then
        let raise := (EBDA <=? e_base e) && (e_base e <? 0x100000) in
        if raise && (top <=? 0x100000) then None
        else
          let e := if raise
                   then set_range e 0x100000 (u64 (e_length e - (0x100000 - e_base e))) else e in
          if (EBDA <? top) && (top <=? 0x100000)
          then Some (set_range e (e_base e) (u64 (e_length e - (top - EBDA))))
          else Some e
      else Some e
  end.

Fixpoint init_memmap_load (EBDA : Z) (e820_map : list memmap_entry) (m : list memmap_entry)
    : res (list memmap_entry) :=
  match e820_map with
  | [] => Ok m
  | e :: rest =>
      if (length m =? max_entries)%nat then Panic "Memory map exhausted."
      else match init_memmap_entry EBDA e with
           | None => init_memmap_load EBDA rest m
           | Some e => init_memmap_load EBDA rest (m ++ [e])
           end
  end.

Definition init_memmap (st : pmm) (EBDA bss_end : Z) (e820_map : list memmap_entry) : res pmm :=
  let! m := init_memmap_load EBDA e820_map (memmap st) in
  let! st := sanitise (with_memmap st m) false in
  match ALIGN_UP bss_end 4096 with
  | None => Panic "Alignment overflow"
  | Some end_ =>
      let! (_, st) := memmap_alloc_range st 4096 (u64 (end_ - 4096))
                        MEMMAP_BOOTLOADER_RECLAIMABLE 0 true false false in
      let! st := sanitise st false in
      Ok (with_disallowed st false)
  end.

Definition get_memmap (st : pmm) : res (list memmap_entry * pmm) :=
  let! st := sanitise st true in
  Ok (memmap st, with_disallowed st true).

(** ** The top-down allocator *)
Definition alloc_candidate (limit count alignment : Z) (e : memmap_entry) : option (Z * Z) :=
  if negb (e_type e =? MEMMAP_USABLE) then None
  else match entry_top e with
       | None => None
       | Some entry_top =>
           let entry_base := e_base e in
           let over := limit <? entry_top in
           let entry_top := if over then limit else entry_top in
           if over && (entry_top <=? entry_base) then None
           else if u64 (entry_top - entry_base) <? count then None
           else
             let alloc_base := ALIGN_DOWN (u64 (entry_top - count)) alignment in
             if alloc_base <? entry_base then None else Some (alloc_base, entry_top)
       end.

(** The size a request is rounded to. *)
Definition round_count (count alignment : Z) : option Z :=
  let count := if count =? 0 then 1 else count in
  match CHECKED_ADD count (u64 (alignment - 1)) with
  | None => None
  | Some c => Some (ALIGN_DOWN c alignment)
  end.

(** The address of the block.  With high allocations on IA-32 the code returns a
    pointer to a static variable that holds this address, as it may not fit in a
    pointer, and leaves the block as it is instead of clearing it. *)
Definition ext_mem_alloc_impl (st : pmm) (count type alignment : Z)
    (allow_high_allocs do_panic : bool) : res (option Z * pmm) :=
  match round_count count alignment with
  | None => Panic "ext_mem_alloc: count overflows when aligning"
  | Some count =>
      if allocations_disallowed st then Panic "Memory allocations disallowed"
      else
        let try (limit : Z) := first_some (alloc_candidate limit count alignment) (rev (memmap st)) in
        let limit := if x86 then 0x100000000 else UINT64_MAX in
        let found :=
          match try limit with
          | Some r => Some r
          | None => if x86 && allow_high_allocs && (limit <? UINT64_MAX) then try UINT64_MAX else None
          end in
        match found with
        | Some (alloc_base, entry_top) =>
            let aligned_length := u64 (entry_top - alloc_base) in
            let! (_, st) := memmap_alloc_range st alloc_base aligned_length type MEMMAP_USABLE
                              true false false in
            let st := if i386 && allow_high_allocs then st
                      else with_ram st (memset (ram st) alloc_base 0 count) in
            let! st := sanitise st false in
            Ok (Some alloc_base, st)
        | None =>
            if negb do_panic then Ok (None, st)
            else Panic "High memory allocator: Out of memory"
        end
  end.

Definition ext_mem_alloc_type_aligned_mode (st : pmm) (count type alignment : Z)
    (allow_high_allocs : bool) : res (option Z * pmm) :=
  ext_mem_alloc_impl st count type alignment allow_high_allocs true.

Definition ext_mem_alloc_type_aligned (st : pmm) (count type alignment : Z) : res (option Z * pmm) :=
  ext_mem_alloc_type_aligned_mode st count type alignment false.

Definition ext_mem_alloc_type (st : pmm) (count type : Z) : res (option Z * pmm) :=
  ext_mem_alloc_type_aligned st count type 4096.

Definition ext_mem_alloc (st : pmm) (count : Z) : res (option Z * pmm) :=
  ext_mem_alloc_type st count MEMMAP_BOOTLOADER_RECLAIMABLE.

Definition ext_mem_alloc_counted (st : pmm) (count elem_size : Z) : res (option Z * pmm) :=
  match CHECKED_MUL count elem_size with
  | None => Panic "ext_mem_alloc_counted: allocation size overflow"
  | Some n => ext_mem_alloc st n
  end.

Definition ext_mem_alloc_nopanic (st : pmm) (count : Z) : res (option Z * pmm) :=
  ext_mem_alloc_impl st count MEMMAP_BOOTLOADER_RECLAIMABLE 4096 false false.

(** ** Allocation below a limit, from either end *)
Definition below_candidate (limit count alignment : Z) (bottom_up : bool) (e : memmap_entry)
    : option Z :=
  if negb (e_type e =? MEMMAP_USABLE) then None
  else match entry_top e with
       | None => None
       | Some entry_top =>
           let entry_base := e_base e in
           let entry_top := if limit <? entry_top then limit else entry_top in
           if (entry_top <=? entry_base) || (u64 (entry_top - entry_base) <? count) then None
           else if bottom_up then
             match ALIGN_UP entry_base alignment with
             | None => None
             | Some alloc_base =>
                 if u64 (entry_top - count) <? alloc_base then None else Some alloc_base
             end
           else
             let alloc_base := ALIGN_DOWN (u64 (entry_top - count)) alignment in
             if alloc_base <? entry_base then None else Some alloc_base
       end.

Definition ext_mem_alloc_type_aligned_below (st : pmm) (count type alignment limit : Z)
    (bottom_up : bool) : res (Z * pmm) :=
  match round_count count alignment with
  | None => Panic "ext_mem_alloc: count overflows when aligning"
  | Some count =>
      if allocations_disallowed st then Panic "Memory allocations disallowed"
      else
        let entries := if bottom_up then memmap st else rev (memmap st) in
        match first_some (below_candidate limit count alignment bottom_up) entries with
        | None => Panic "High memory allocator: Out of memory"
        | Some alloc_base =>
            let! (_, st) := memmap_alloc_range st alloc_base count type MEMMAP_USABLE
                              true false false in
            let st := with_ram st (memset (ram st) alloc_base 0 count) in
            let! st := sanitise st false in
            Ok (alloc_base, st)
        end
  end.

(** ** Freeing and growing; a pointer is [None] when NULL *)
Definition pmm_free (st : pmm) (ptr : option Z) (count : Z) : res pmm :=
  match ptr with
  | None => Ok st
  | Some p =>
      if negb (p mod 4096 =? 0) then Panic "pmm_free: Unaligned pointer %p"
      else
        let count := if count =? 0 then 1 else count in
        match ALIGN_UP count 4096 with
        | None => Panic "Alignment overflow"
        | Some count =>
            if allocations_disallowed st then Panic "Memory allocations disallowed"
            else
              let! (_, st) := memmap_alloc_range st p count MEMMAP_USABLE 0 false false true in
              Ok st
        end
  end.

Definition pmm_realloc (st : pmm) (old_ptr : option Z) (old_size new_size : Z)
    : res (option Z * pmm) :=
  match old_ptr with
  | None => ext_mem_alloc st new_size
  | Some old =>
      let! (new_ptr, st) := ext_mem_alloc st new_size in
      let st := match new_ptr with
                | Some new => with_ram st (memcpy (ram st) new old (MIN new_size old_size))
                | None => st
                end in
      let! st := pmm_free st old_ptr old_size in
      Ok (new_ptr, st)
  end.
End Pmm.

(** ** [common/mm/pmm.c] *)
Definition full_overlap_check (base1 top1 base2 top2 : Z) : bool :=
  ((base2 <=? base1) && (base1 <? top2)) && ((base2 <? top1) && (top1 <=? top2)).

(** The types that count as real memory; the EFI type only in UEFI builds. *)
Definition is_ram_type (uefi : bool) (t : Z) : bool :=
  (t =? MEMMAP_USABLE) || (uefi && (t =? MEMMAP_EFI_RECLAIMABLE))
  || (t =? MEMMAP_BOOTLOADER_RECLAIMABLE) || (t =? MEMMAP_KERNEL_AND_MODULES).

Fixpoint check_usable_loop (uefi : bool) (base top overlap_remaining : Z)
    (m : list memmap_entry) : bool :=
  match m with
  | [] => false
  | e :: m =>
      if negb (is_ram_type uefi (e_type e)) then check_usable_loop uefi base top overlap_remaining m
      else match entry_top e with
           | None => check_usable_loop uefi base top overlap_remaining m
           | Some memmap_top =>
               if full_overlap_check base top (e_base e) memmap_top then true
               else if (e_base e <? top) && (base <? memmap_top) then
                 let overlap_bottom := if base <? e_base e then e_base e else base in
                 let overlap_top := if memmap_top <? top then memmap_top else top in
                 let overlap_size := u64 (overlap_top - overlap_bottom) in
                 let overlap_remaining := u64 (overlap_remaining - overlap_size) in
                 if overlap_remaining =? 0 then true
                 else check_usable_loop uefi base top overlap_remaining m
               else check_usable_loop uefi base top overlap_remaining m
           end
  end.

Definition check_usable_memory (uefi : bool) (m : list memmap_entry) (base top : Z) : bool :=
  check_usable_loop uefi base top (u64 (top - base)) m.

(** [pmm_randomise_memory], with the generator's state threaded through
    [rand32].  Bytes of one random word are stored while there is room. *)
Section Randomise.
Variable i386 : bool.
Context {rng : Type}.
Variable rand32 : rng -> Z * rng.

Definition store_byte (r : Z -> Z) (a b : Z) : Z -> Z := fun x => if x =? a then b else r x.

Fixpoint randomise_word (ptr len random j : Z) (k : nat) (r : Z -> Z) : (Z -> Z) * Z * bool :=
  match k with
  | O => (r, j, false)
  | S k =>
      if len <=? j then (r, j, true)
      else randomise_word ptr len (Z.shiftr random 8) (j + 1) k (store_byte r (ptr + j) (u8 random))
  end.

Definition randomise_body (ptr len : Z) (s : (Z -> Z) * rng * Z) : res ((Z -> Z) * rng * Z + (Z -> Z) * rng) :=
  let '(r, g, j) := s in
  let '(random, g) := rand32 g in
  let '(r, j, done) := randomise_word ptr len random j 4 r in
  if done : bool then Ok (inr (r, g)) else Ok (inl (r, g, j)).

Definition randomise_block (ptr len : Z) (r : Z -> Z) (g : rng) : res ((Z -> Z) * rng) :=
  loop (randomise_body ptr len) (fun s => Z.max 0 (len + 4 - s.2)) (r, g, 0).

Fixpoint randomise_entries (m : list memmap_entry) (r : Z -> Z) (g : rng) : res ((Z -> Z) * rng) :=
  match m with
  | [] => Ok (r, g)
  | e :: m =>
      if negb (e_type e =? MEMMAP_USABLE) then randomise_entries m r g
      else
        let top := u64 (e_base e + e_length e) in
        if i386 && (0x100000000 <=? e_base e) then randomise_entries m r g
        else
          let top := if i386 && (0x100000000 <? top) then 0x100000000 else top in
          let! (r, g) := randomise_block (e_base e) (wrap (if i386 then 32 else 64) (top - e_base e)) r g in
          randomise_entries m r g
  end.

Definition pmm_randomise_memory (st : pmm) (g : rng) : res (pmm * rng) :=
  let! (r, g) := randomise_entries (memmap st) (ram st) g in
  Ok (with_ram st r, g).
End Randomise.

(** ** Evaluation *)
Definition demo_pmm : pmm :=
  MkPmm [MkEntry 0x1000 0x8000 1; MkEntry 0x100000 0x100000 1] false false 4096 (fun a => a mod 251).

Example alloc_demo :
  match ext_mem_alloc 512 true false demo_pmm 5000 with
  | Ok (p, st) => (p, memmap st, ram st 0x1fe010)
  | _ => (None, [], 0)
  end = (Some 0x1fe000, [MkEntry 0x1000 0x8000 1; MkEntry 0x100000 0xfe000 1; MkEntry 0x1fe000 0x2000 0x1000], 0).
Proof. vm_compute. reflexivity. Qed.
