(* ===== verification/PmmFacts.v ===== *)
(** * Correctness of the physical memory allocator

    The contract of the allocator as a relation between states, and the proof
    that each allocation function of [Pmm] meets it. *)

From S2P Require Import Prelude CInt Memmap MemmapSem Separate Sanitise RangeAlloc Pmm.

(** ** The contract

    A block of [count] bytes at [p] has been taken out of usable memory and
    given [type]; [top] is the end of the reservation, which may lie above the
    block when the end of usable memory is not aligned. *)
Record allocated (st st' : pmm) (p count top type : Z) : Prop := {
  al_size : 0 < count /\ p + count <= top /\ top < 2 ^ 64 /\ 0 <= p;
  al_fresh : forall a, inside p top a -> usable_at (memmap st) a;
  al_owned : forall t a, t <> MEMMAP_USABLE -> inside p top a ->
             has_type (memmap st') t a <-> t = type;
  al_gone : type <> MEMMAP_USABLE -> forall a, inside p top a -> ~ usable_at (memmap st') a;
  al_other : forall t a, t <> MEMMAP_USABLE -> ~ inside p top a ->
             has_type (memmap st') t a <-> has_type (memmap st) t a;
  al_usable : forall a, ~ inside p top a ->
              usable_at (memmap st') a <-> usable_at (memmap st) a;
}.

Section Facts.
Variable max_entries : nat.
Variables x86 i386 : bool.

(** The allocator's invariant: the map is sanitised. *)
Definition pmm_inv (st : pmm) : Prop :=
  sanitised max_entries (pmm_sanitiser_keep_first_page st) false (memmap st).

Lemma sanitised_wf keep align m : sanitised max_entries keep align m -> map_wf max_entries m.
Proof. intros H. apply (cl_wf _ _ _ (sn_clean _ _ _ _ H)). Qed.

Lemma sanitised_usable keep align m a :
  sanitised max_entries keep align m -> usable_at m a <-> free_at m a /\ kept keep a.
Proof.
  intros H. split; [|intros [[? _] _]; done]. intros Hu. split.
  - split; [done|]. eapply clean_free; [apply (sn_clean _ _ _ _ H)|done].
  - destruct Hu as (e & He & _ & Ht & Hc). pose proof (sn_low _ _ _ _ H e He Ht) as Hk.
    unfold kept, covers in *. destruct Hk; [by left|right; lia].
Qed.

(** Sanitising a sanitised map keeps what it means. *)
Lemma sanitise_again keep m :
  sanitised max_entries keep false m ->
  res_post (fun m' => sanitised max_entries keep false m' /\ forall t a, has_type m' t a <-> has_type m t a)
    exhausted (pmm_sanitise_entries max_entries keep m false).
Proof.
  intros Hs. eapply res_post_mono; [apply pmm_sanitise_entries_spec; by eapply sanitised_wf| |done].
  intros m' [Hs' Hm]. split; [done|]. intros t a.
  destruct (decide (t = MEMMAP_USABLE)) as [->|Hne]; [|by apply (sm_other _ _ _ _ Hm)].
  split.
  - intros Hu. by destruct (sm_sound _ _ _ _ Hm a Hu) as [[? _] _].
  - intros Hu. apply (sanitised_usable keep false m a Hs) in Hu as [? ?].
    by apply (sm_complete _ _ _ _ Hm eq_refl a).
Qed.

(** Reserving part of usable memory meets the contract. *)
Lemma reserved_allocated st st' m1 p count top type :
  pmm_inv st -> 0 < count -> p + count <= top -> top < 2 ^ 64 -> 0 <= p ->
  (forall a, inside p top a -> usable_at (memmap st) a) ->
  reserved max_entries (pmm_sanitiser_keep_first_page st) (memmap st) m1 p top type ->
  (forall t a, has_type (memmap st') t a <-> has_type m1 t a) ->
  allocated st st' p count top type.
Proof.
  intros Hinv Hc Hpt Ht Hp Hfresh Hr Hsame. split; try done.
  - intros t a Hne Hin. rewrite Hsame, (rs_other _ _ _ _ _ _ _ Hr) by done. tauto.
  - intros Hne a Hin Hu. apply Hsame, (rs_usable _ _ _ _ _ _ _ Hr) in Hu. tauto.
  - intros t a Hne Hin. rewrite Hsame, (rs_other _ _ _ _ _ _ _ Hr) by done. tauto.
  - intros a Hin. unfold usable_at at 1. rewrite Hsame. fold (usable_at m1 a).
    rewrite (rs_usable _ _ _ _ _ _ _ Hr), (sanitised_usable _ _ _ a Hinv). tauto.
Qed.

Lemma available_usable m p top a : available m MEMMAP_USABLE p top -> inside p top a -> usable_at m a.
Proof.
  intros (e & He & [?|Ht] & Hok & Hb & Htop) Ha; [done|].
  exists e. split_and!; [done..|]. unfold covers, inside in *. lia.
Qed.

(** A request for usable memory that may fail: reserved, or nothing changes. *)
Lemma memmap_alloc_range_post st p len type do_panic :
  pmm_inv st -> 0 < len -> 0 <= p -> p + len < 2 ^ 64 ->
  res_post (fun r =>
      (r.1 = true /\ available (memmap st) MEMMAP_USABLE p (p + len) /\
       exists m1, r.2 = with_memmap st m1 /\
         reserved max_entries (pmm_sanitiser_keep_first_page st) (memmap st) m1 p (p + len) type) \/
      (r = (false, st) /\ do_panic = false /\ ~ available (memmap st) MEMMAP_USABLE p (p + len)))
    (fun msg => exhausted msg \/
       (msg = "Memory allocation failure."%string /\ do_panic = true /\
        ~ available (memmap st) MEMMAP_USABLE p (p + len)))
    (memmap_alloc_range max_entries st p len type MEMMAP_USABLE do_panic false false).
Proof.
  intros Hinv Hlen Hp Htop. unfold memmap_alloc_range. eapply res_post_bind.
  - eapply res_post_mono; [apply memmap_alloc_range_in_post; [by eapply sanitised_wf|done|lia|done]|
      intros r Hr; exact Hr|]. intros msg [?|(? & ? & _ & Hn)]; [by left|by right].
  - intros [b m1] [(Hb & Hr & Hav)|(Hb & Hm & Hp' & _ & Hn)]; cbn in *; subst.
    + left. eauto 10.
    + right. split_and!; [|done|done]. by destruct st.
Qed.

(** The common tail of the allocators: update the rest of the state with [f],
    sanitise. *)
Lemma finish_block st m1 p count len type f :
  pmm_inv st -> 0 < count <= len -> 0 <= p -> p + len < 2 ^ 64 ->
  available (memmap st) MEMMAP_USABLE p (p + len) ->
  reserved max_entries (pmm_sanitiser_keep_first_page st) (memmap st) m1 p (p + len) type ->
  (forall s, memmap (f s) = memmap s /\
             pmm_sanitiser_keep_first_page (f s) = pmm_sanitiser_keep_first_page s) ->
  res_post (fun st' => pmm_inv st' /\ allocated st st' p count (p + len) type /\
              exists m2, st' = with_memmap (f (with_memmap st m1)) m2)
    exhausted (sanitise max_entries (f (with_memmap st m1)) false).
Proof.
  intros Hinv Hc Hp Htop Hav Hr Hf. unfold sanitise.
  destruct (Hf (with_memmap st m1)) as [-> ->]. cbn [with_memmap memmap].
  eapply res_post_bind; [apply sanitise_again, (rs_sanitised _ _ _ _ _ _ _ Hr)|].
  intros m2 [Hs Hsame]. cbn [res_post]. split_and!.
  - unfold pmm_inv. cbn. by destruct (Hf (with_memmap st m1)) as [_ ->].
  - eapply reserved_allocated; try done; [lia|lia|].
    intros a Ha. by eapply available_usable.
  - eauto.
Qed.

Lemma take_block st p count len type do_panic f :
  pmm_inv st -> 0 < count <= len -> 0 <= p -> p + len < 2 ^ 64 ->
  available (memmap st) MEMMAP_USABLE p (p + len) ->
  (forall s, memmap (f s) = memmap s /\
             pmm_sanitiser_keep_first_page (f s) = pmm_sanitiser_keep_first_page s) ->
  res_post (fun st' => pmm_inv st' /\ allocated st st' p count (p + len) type /\
              exists m1 m2, st' = with_memmap (f (with_memmap st m1)) m2)
    exhausted
    (let! (b, st1) := memmap_alloc_range max_entries st p len type MEMMAP_USABLE do_panic false false in
     sanitise max_entries (f st1) false).
Proof.
  intros Hinv Hc Hp Htop Hav Hf. eapply res_post_bind.
  - eapply res_post_mono; [apply memmap_alloc_range_post; [done|lia|done|done]|intros r Hr; exact Hr|].
    intros msg [?|(_ & _ & Hn)]; [done|]. by destruct Hn.
  - intros [b st1] [(_ & _ & m1 & Hst & Hr)|(_ & _ & Hn)]; [|by destruct Hn]. cbn in Hst. subst st1.
    eapply res_post_mono; [by eapply finish_block| |done]. intros st' (? & ? & ? & ?). eauto 10.
Qed.

(** ** Choosing the block *)
Lemma round_count_Some count alignment c :
  0 <= count < 2 ^ 64 -> 0 < alignment < 2 ^ 64 -> round_count count alignment = Some c ->
  0 < c < 2 ^ 64 /\ count <= c /\ c mod alignment = 0.
Proof.
  intros Hc Ha. unfold round_count. rewrite (wrap_small 64) by lia.
  set (n := if count =? 0 then 1 else count).
  assert (1 <= n /\ count <= n) by (unfold n; case_if; lia).
  destruct (CHECKED_ADD n (alignment - 1)) as [x|] eqn:E; [|done].
  apply checked_add_Some in E as [-> E]. intros [= <-].
  pose proof (align_down_spec (n + (alignment - 1)) alignment ltac:(lia)).
  split_and!; [lia|lia|lia|]. apply align_down_mod. lia.
Qed.

Lemma alloc_candidate_Some limit count alignment e b t :
  entry_wf e -> 0 < count < 2 ^ 64 -> 0 < alignment -> 0 <= limit < 2 ^ 64 ->
  alloc_candidate limit count alignment e = Some (b, t) ->
  e_type e = MEMMAP_USABLE /\ entry_ok e /\ 0 <= e_base e <= b /\ b + count <= t /\
  t <= limit /\ t <= e_top e /\ b mod alignment = 0.
Proof.
  intros (Hb & Hl & _) Hc Ha Hlim. unfold alloc_candidate. case_if; [done|].
  destruct (entry_top e) as [x|] eqn:Et; [|done]. apply entry_top_Some in Et as [-> Hok].
  set (tp := if limit <? e_top e then limit else e_top e).
  case_if; [done|].
  assert (e_base e <= tp <= limit /\ tp <= e_top e) as Htp.
  { unfold tp, e_top in *. destruct (limit <? e_base e + e_length e) eqn:E; bool_hyps; [|lia].
    destruct Hb1; bool_hyps; lia. }
  unfold entry_ok in *. rewrite !wrap_small by lia. case_if; [done|]. rewrite wrap_small by lia.
  pose proof (align_down_spec (tp - count) alignment ltac:(lia)).
  case_if; [done|]. intros [= <- <-]. split_and!; try lia. apply align_down_mod. lia.
Qed.

(** The least multiple of [a] from [x] on. *)
Definition round_up (x a : Z) : Z := (x + a - 1) / a * a.

Lemma round_count_value count alignment :
  0 <= count -> 0 < alignment < 2 ^ 64 ->
  round_count count alignment =
    if Z.max 1 count + alignment - 1 <? 2 ^ 64 then Some (round_up (Z.max 1 count) alignment) else None.
Proof.
  intros Hc Ha. unfold round_count, round_up. rewrite (wrap_small 64) by lia.
  replace (if count =? 0 then 1 else count) with (Z.max 1 count) by (case_if; lia).
  unfold checked_add. rewrite Z.add_sub_assoc. by destruct (Z.max 1 count + alignment - 1 <? 2 ^ 64).
Qed.

(** An entry is refused only if no aligned block of the size fits into it. *)
Lemma alloc_candidate_None limit count alignment e b :
  entry_wf e -> 0 < count < 2 ^ 64 -> 0 < alignment -> alloc_candidate limit count alignment e = None ->
  e_type e = MEMMAP_USABLE -> entry_ok e -> e_base e <= b -> b mod alignment = 0 ->
  ~ (b + count <= e_top e /\ b + count <= limit).
Proof.
  intros (Hb & Hl & _) Hc Ha. unfold alloc_candidate. intros Hcand Hty Hok Hbb Hmod [Htop Hlim]. revert Hcand.
  rewrite (proj2 (Z.eqb_eq _ _) Hty). cbn [negb]. rewrite (proj2 (entry_top_Some e (e_top e)) (conj eq_refl Hok)).
  set (tp := if limit <? e_top e then limit else e_top e).
  assert (b + count <= tp <= e_top e) as Htp by (unfold tp; case_if; bool_hyps; lia).
  rewrite (proj2 (Z.leb_gt tp (e_base e))) by lia. rewrite andb_false_r. unfold entry_ok in Hok.
  rewrite (wrap_small 64 (tp - e_base e)), (wrap_small 64 (tp - count)) by lia. rewrite (proj2 (Z.ltb_ge (tp - e_base e) count)) by lia.
  pose proof (align_down_spec (tp - count) alignment Ha) as Hdown. rewrite (proj2 (Z.ltb_ge (ALIGN_DOWN (tp - count) alignment) (e_base e))); [done|].
  pose proof (align_down_mod (tp - count) alignment Ha) as Hdm.
  pose proof (Z.div_mod b alignment ltac:(lia)). pose proof (Z.div_mod (ALIGN_DOWN (tp - count) alignment) alignment ltac:(lia)).
  transitivity b; [done|]. destruct (Z.le_gt_cases b (ALIGN_DOWN (tp - count) alignment)) as [|Hgt]; [done|].
  assert (ALIGN_DOWN (tp - count) alignment / alignment + 1 <= b / alignment) by nia. nia.
Qed.

Lemma first_some_Some {A B} (f : A -> option B) l y :
  first_some f l = Some y -> exists x, x ∈ l /\ f x = Some y.
Proof.
  induction l as [|x l IH]; [done|]. cbn. destruct (f x) eqn:E.
  - intros [= ->]. exists x. split; [by left|done].
  - intros H. destruct (IH H) as (z & Hz & ?). exists z. split; [by right|done].
Qed.

Lemma first_some_None {A B} (f : A -> option B) l :
  first_some f l = None <-> forall x, x ∈ l -> f x = None.
Proof.
  induction l as [|x l IH]; cbn.
  - split; [|done]. intros _ x Hx. by apply not_elem_of_nil in Hx.
  - destruct (f x) eqn:E; [split; [done|]|rewrite IH; split].
    + intros H. rewrite (H x) in E by (by left). done.
    + intros H z Hz. apply elem_of_cons in Hz as [->|Hz]; auto.
    + intros H z Hz. apply H. by right.
Qed.

(** ** [ext_mem_alloc_impl] *)
Definition alloc_limit (allow_high : bool) : Z :=
  if x86 && negb allow_high then 0x100000000 else UINT64_MAX.

(** Everything a successful call promises about pointer, block and state. *)
Record alloc_ok (st st' : pmm) (p count type alignment : Z) (zero : bool) (limit : Z) : Prop := {
  ao_inv : pmm_inv st';
  ao_align : p mod alignment = 0;
  ao_flags : allocations_disallowed st' = allocations_disallowed st /\
             pmm_sanitiser_keep_first_page st' = pmm_sanitiser_keep_first_page st;
  ao_block : exists n top, round_count count alignment = Some n /\ count <= n /\
             top <= limit /\ allocated st st' p n top type /\
             forall a, ram st' a = if zero && (p <=? a) && (a <? p + n) then 0 else ram st a;
}.

Definition oom_msg (msg : string) : Prop :=
  msg = "High memory allocator: Out of memory"%string.

(** No usable entry has room for [n] bytes at an aligned address below the limit. *)
Definition no_room (m : list memmap_entry) (limit n alignment : Z) : Prop :=
  forall e b, e ∈ m -> e_type e = MEMMAP_USABLE -> entry_ok e -> b mod alignment = 0 -> e_base e <= b ->
  ~ (b + n <= e_top e /\ b + n <= limit).

Definition choose (m : list memmap_entry) (n alignment : Z) (allow_high : bool) : option (Z * Z) :=
  let limit := if x86 then 0x100000000 else UINT64_MAX in
  match first_some (alloc_candidate limit n alignment) (rev m) with
  | Some r => Some r
  | None => if x86 && allow_high && (limit <? UINT64_MAX)
            then first_some (alloc_candidate UINT64_MAX n alignment) (rev m) else None
  end.

Lemma choose_Some m n alignment allow_high b t :
  map_wf max_entries m -> 0 < n < 2 ^ 64 -> 0 < alignment ->
  choose m n alignment allow_high = Some (b, t) ->
  exists e, e ∈ m /\ e_type e = MEMMAP_USABLE /\ entry_ok e /\ 0 <= e_base e <= b /\
  b + n <= t /\ t <= alloc_limit allow_high /\ t <= e_top e /\ b mod alignment = 0.
Proof.
  intros [_ Hwf] Hn Ha. rewrite Forall_forall in Hwf. unfold choose, alloc_limit.
  assert (forall limit, 0 <= limit < 2 ^ 64 ->
    first_some (alloc_candidate limit n alignment) (rev m) = Some (b, t) ->
    exists e, e ∈ m /\ e_type e = MEMMAP_USABLE /\ entry_ok e /\ 0 <= e_base e <= b /\
    b + n <= t /\ t <= limit /\ t <= e_top e /\ b mod alignment = 0) as Hfind.
  { intros limit Hlim Hf. apply first_some_Some in Hf as (e & He & Hcand).
    apply list_elem_of_In, in_rev, list_elem_of_In in He. exists e. split; [done|].
    by apply alloc_candidate_Some in Hcand; [|by apply Hwf|..]. }
  destruct x86, allow_high; cbn [andb negb]; unfold UINT64_MAX in *.
  - destruct (first_some (alloc_candidate 0x100000000 n alignment) (rev m)) as [r|] eqn:E1.
    + intros [= ->]. apply Hfind in E1; [|lia]. 
      destruct E1 as (e & ? & ? & ? & ? & ? & ? & ?). exists e. split_and!; try done; lia.
    + cbn. apply Hfind. lia.
  - destruct (first_some (alloc_candidate 0x100000000 n alignment) (rev m)) as [r|] eqn:E1; [|done].
    intros [= ->]. by apply Hfind in E1.
  - destruct (first_some _ _) as [r|] eqn:E1; [|done]. intros [= ->]. apply Hfind in E1; [done|lia].
  - destruct (first_some _ _) as [r|] eqn:E1; [|done]. intros [= ->]. apply Hfind in E1; [done|lia].
Qed.

Lemma choose_None m n alignment allow_high :
  map_wf max_entries m -> 0 < n < 2 ^ 64 -> 0 < alignment -> choose m n alignment allow_high = None ->
  no_room m (alloc_limit allow_high) n alignment.
Proof.
  intros [_ Hwf] Hn Ha. rewrite Forall_forall in Hwf. unfold choose, alloc_limit.
  assert (forall limit, first_some (alloc_candidate limit n alignment) (rev m) = None -> no_room m limit n alignment) as Hnone.
  { intros limit H e b He Hty Hok Hmod Hb. rewrite first_some_None in H. apply (alloc_candidate_None limit n alignment e b); try done; [by apply Hwf|].
    apply H. by apply list_elem_of_In, in_rev; rewrite rev_involutive; apply list_elem_of_In. }
  destruct x86, allow_high; cbn [andb negb]; unfold UINT64_MAX in *; (destruct (first_some _ _) as [r|] eqn:E1; [done|]); cbn; auto.
Qed.

Lemma ext_mem_alloc_impl_spec st count type alignment allow_high do_panic :
  pmm_inv st -> allocations_disallowed st = false ->
  0 <= count < 2 ^ 64 -> 0 < alignment < 2 ^ 64 ->
  res_post (fun r =>
      match r.1 with
      | Some p => alloc_ok st r.2 p count type alignment (negb (i386 && allow_high)) (alloc_limit allow_high)
      | None => do_panic = false /\ r.2 = st /\
                exists n, round_count count alignment = Some n /\
                          no_room (memmap st) (alloc_limit allow_high) n alignment
      end)
    (fun msg => exhausted msg \/
       (round_count count alignment = None /\ msg = "ext_mem_alloc: count overflows when aligning"%string) \/
       (do_panic = true /\ oom_msg msg /\ exists n, round_count count alignment = Some n /\
          no_room (memmap st) (alloc_limit allow_high) n alignment))
    (ext_mem_alloc_impl max_entries x86 i386 st count type alignment allow_high do_panic).
Proof.
  intros Hinv Hdis Hc Ha. unfold ext_mem_alloc_impl.
  destruct (round_count count alignment) as [n|] eqn:Hn; [|cbn; auto].
  destruct (round_count_Some _ _ _ Hc Ha Hn) as (Hn0 & Hcn & _). rewrite Hdis.
  change (match first_some _ _ with Some r => Some r | None => _ end)
    with (choose (memmap st) n alignment allow_high).
  destruct (choose (memmap st) n alignment allow_high) as [[b t]|] eqn:Hch.
  2: { apply choose_None in Hch; [|by eapply sanitised_wf|lia|lia]. destruct do_panic; cbn [negb res_post fst snd];
       [right; right|]; (split_and!; [done|done|by exists n]). }
  destruct (choose_Some (memmap st) n alignment allow_high b t) as
    (e & He & Hty & Hok & Heb & Hbt & Hlim & Het & Hmod); try done; [by eapply sanitised_wf|lia|].
  assert (t < 2 ^ 64) by (unfold entry_ok in Hok; lia).
  rewrite (wrap_small 64 (t - b)) by lia.
  set (f := fun s => if i386 && allow_high then s else with_ram s (memset (ram s) b 0 n)).
  pose proof (take_block st b n (t - b) type true f Hinv) as Htb.
  replace (b + (t - b)) with t in Htb by lia.
  assert (available (memmap st) MEMMAP_USABLE b t) as Hav
    by (exists e; split_and!; [done|by right|done|lia|done]).
  specialize (Htb ltac:(lia) ltac:(lia) ltac:(lia) Hav).
  assert (forall s, memmap (f s) = memmap s /\
     pmm_sanitiser_keep_first_page (f s) = pmm_sanitiser_keep_first_page s) as Hf
    by (intros s; unfold f; by case_if).
  specialize (Htb Hf).
  destruct (memmap_alloc_range max_entries st b (t - b) type MEMMAP_USABLE true false false)
    as [[ok st1]|msg| |]; cbn [rbind] in *; try done; [|by left].
  eapply res_post_bind; [eapply res_post_mono; [exact Htb|intros x Hx; exact Hx|by left]|].
  intros st' (Hinv' & Hal & m1 & m2 & ->). cbn [res_post fst snd].
  split; [done|done|unfold f; by destruct (i386 && allow_high)|].
  exists n, t. split_and!; [done|done|done|done|].
  intros a. cbn. unfold f. destruct (i386 && allow_high); cbn; [done|].
  unfold memset. by case_if.
Qed.

(** ** Allocation below a limit *)
Lemma below_candidate_Some limit count alignment bottom_up e b :
  entry_wf e -> 0 < count < 2 ^ 64 -> 0 < alignment < 2 ^ 64 -> 0 <= limit < 2 ^ 64 ->
  below_candidate limit count alignment bottom_up e = Some b ->
  e_type e = MEMMAP_USABLE /\ entry_ok e /\ 0 <= e_base e <= b /\
  b + count <= limit /\ b + count <= e_top e /\ b mod alignment = 0.
Proof.
  intros (Hb & Hl & _) Hc Ha Hlim. unfold below_candidate. case_if; [done|].
  destruct (entry_top e) as [x|] eqn:Et; [|done]. apply entry_top_Some in Et as [-> Hok].
  set (tp := if limit <? e_top e then limit else e_top e).
  assert (tp <= limit /\ tp <= e_top e) as Htp by (unfold tp; case_if; lia).
  unfold entry_ok in *. case_if; [done|]. rewrite wrap_small in * by lia.
  destruct bottom_up.
  - destruct (ALIGN_UP (e_base e) alignment) as [y|] eqn:Ey; [|done].
    apply align_up_Some in Ey as (_ & ? & ? & ?); [|lia|lia|lia].
    rewrite wrap_small by lia. case_if; [done|]. intros [= <-]. split_and!; try lia; done.
  - rewrite wrap_small by lia. pose proof (align_down_spec (tp - count) alignment ltac:(lia)).
    case_if; [done|]. intros [= <-]. split_and!; try lia. apply align_down_mod. lia.
Qed.

Lemma ext_mem_alloc_below_spec st count type alignment limit bottom_up :
  pmm_inv st -> allocations_disallowed st = false ->
  0 <= count < 2 ^ 64 -> 0 < alignment < 2 ^ 64 -> 0 <= limit < 2 ^ 64 ->
  res_post (fun r => alloc_ok st r.2 r.1 count type alignment true limit)
    (fun msg => exhausted msg \/ oom_msg msg \/ round_count count alignment = None)
    (ext_mem_alloc_type_aligned_below max_entries st count type alignment limit bottom_up).
Proof.
  intros Hinv Hdis Hc Ha Hlim. unfold ext_mem_alloc_type_aligned_below.
  destruct (round_count count alignment) as [n|] eqn:Hn; [|cbn; auto].
  destruct (round_count_Some _ _ _ Hc Ha Hn) as (Hn0 & Hcn & _). rewrite Hdis.
  destruct (first_some _ _) as [b|] eqn:Hf; [|cbn; by right; left].
  apply first_some_Some in Hf as (e & He & Hcand).
  assert (e ∈ memmap st) as Hin.
  { destruct bottom_up; [done|]. by apply list_elem_of_In, in_rev, list_elem_of_In. }
  destruct (sanitised_wf _ _ _ Hinv) as [_ Hwf]. rewrite Forall_forall in Hwf.
  apply below_candidate_Some in Hcand as (Hty & Hok & Heb & Hbl & Hbt & Hmod); [|by apply Hwf|lia|lia|lia].
  set (f := fun s => with_ram s (memset (ram s) b 0 n)).
  pose proof (take_block st b n n type true f Hinv) as Htb.
  assert (available (memmap st) MEMMAP_USABLE b (b + n)) as Hav
    by (exists e; split_and!; [done|by right|done|lia|done]).
  specialize (Htb ltac:(lia) ltac:(lia) ltac:(unfold entry_ok in *; lia) Hav ltac:(done)).
  destruct (memmap_alloc_range max_entries st b n type MEMMAP_USABLE true false false)
    as [[ok st1]|msg| |]; cbn [rbind] in *; try done; [|by left].
  eapply res_post_bind; [eapply res_post_mono; [exact Htb|intros x Hx; exact Hx|by left]|].
  intros st' (Hinv' & Hal & m1 & m2 & ->). cbn [res_post fst snd]. split; [done|done|done|].
  exists n, (b + n). split_and!; [done|done|done|done|].
  intros a. cbn. unfold memset. by case_if.
Qed.

(** ** Freeing *)
Lemma pmm_free_spec st p count n :
  pmm_inv st -> allocations_disallowed st = false -> 0 <= p -> p mod 4096 = 0 ->
  0 <= count -> ALIGN_UP (if count =? 0 then 1 else count) 4096 = Some n -> p + n < 2 ^ 64 ->
  res_post (fun st' => pmm_inv st' /\ ram st' = ram st /\
              reserved max_entries (pmm_sanitiser_keep_first_page st) (memmap st) (memmap st')
                p (p + n) MEMMAP_USABLE)
    exhausted (pmm_free max_entries st (Some p) count).
Proof.
  intros Hinv Hdis Hp Hmod Hc Hn Htop. unfold pmm_free. rewrite Hmod, Z.eqb_refl, Hn, Hdis. cbn [negb].
  assert (0 < n) as Hpos.
  { apply align_up_Some in Hn as (_ & ? & _); [|lia|lia|case_if; lia]. revert H. case_if; lia. }
  unfold memmap_alloc_range. eapply res_post_bind.
  - eapply res_post_bind.
    + eapply res_post_mono; [apply (memmap_alloc_range_in_post max_entries _ _ p n MEMMAP_USABLE 0 false true);
        [by eapply sanitised_wf|done|done|done]|intros r Hr; exact Hr|].
      intros msg [?|(_ & ? & _)]; done.
    + intros [b m1] [(_ & Hr & _)|(_ & _ & _ & ? & _)]; [|done].
      instantiate (1 := fun r => pmm_inv r.2 /\ ram r.2 = ram st /\
        reserved max_entries (pmm_sanitiser_keep_first_page st) (memmap st) (memmap r.2)
                p (p + n) MEMMAP_USABLE). cbn in *.
      split_and!; [apply (rs_sanitised _ _ _ _ _ _ _ Hr)|done|done].
  - by intros [b st'] H.
Qed.

(** ** Conventional memory *)
Definition conv_inv (st0 st : pmm) : Prop :=
  exists b, st = with_conv_base st0 b /\ 0 <= b <= 2 ^ 22 - 4096 /\ b mod 4096 = 0.

(** The block a call returns lies below 1 MiB, and the static cursor moves past it. *)
Record conv_ok (st0 st' : pmm) (p count : Z) : Prop := {
  co_inv : pmm_inv st';
  co_align : p mod 4096 = 0;
  co_low : p + count <= 0x100000;
  co_cursor : conv_base st' = p + count;
  co_block : allocated st0 st' p count (p + count) MEMMAP_BOOTLOADER_RECLAIMABLE;
  co_ram : forall a, ram st' a = if (p <=? a) && (a <? p + count) then 0 else ram st0 a;
}.

Definition conv_fail (msg : string) : Prop :=
  exhausted msg \/ msg = "Conventional memory allocation failed"%string.

Lemma conv_turn st0 count st :
  pmm_inv st0 -> 4096 <= count < 2 ^ 64 -> (count <= 2 ^ 20 \/ 2 ^ 64 - count <= 2 ^ 20) ->
  conv_inv st0 st ->
  turn_ok (conv_body max_entries count) (conv_inv st0) conv_variant
    (fun r => conv_ok st0 r.2 r.1 count) conv_fail st.
Proof.
  intros Hinv Hc Hsize (b & -> & Hb & Hbm). unfold turn_ok, conv_body. cbn [with_conv_base conv_base].
  assert (conv_inv st0 (with_conv_base st0 (b + 4096)) <-> b <= 2 ^ 22 - 8192) as Hnext.
  { split.
    - intros (b' & Heq & Hb' & _). injection Heq. lia.
    - intros. exists (b + 4096). split_and!; [done|lia|lia|].
      rewrite <- Z.add_mod_idemp_r by lia. by rewrite Z_mod_same_full, Z.add_0_r. }
  assert (pmm_inv (with_conv_base st0 b)) as Hinvb by done.
  case_if; [by right|].
  destruct (decide (2 ^ 64 <= b + count)) as [Hbig|Hsmall].
  - (* the sum wraps: the range check of memmap_alloc_range refuses it *)
    assert (u64 (b + count) = b + count - 2 ^ 64) as Hw.
    { unfold wrap. symmetry. apply Z.mod_unique with 1; [left; lia|lia]. }
    rewrite Hw in *. unfold memmap_alloc_range, memmap_alloc_range_in.
    rewrite (proj2 (Z.eqb_neq count 0)) by lia. cbn [andb].
    rewrite (proj2 (checked_add_None 64 b count)) by lia. cbn [rbind].
    rewrite (wrap_small 64 (b + 4096)) by lia.
    change (with_conv_base (with_memmap _ _) ?x) with (with_conv_base st0 x).
    cbn [res_post]. split; [apply Hnext; lia|].
    unfold conv_variant. cbn [conv_base with_conv_base]. lia.
  - rewrite wrap_small in Hb0 by lia. rewrite (wrap_small 64 (b + count)), (wrap_small 64 (b + 4096)) by lia.
    eapply res_post_bind.
    + eapply res_post_mono; [apply (memmap_alloc_range_post _ b count); [done|lia|lia|lia]|
        intros r Hr; exact Hr|]. intros msg [?|(_ & ? & _)]; [by left|done].
    + intros [ok st1] [(Hok & Hav & m1 & Hst & Hr)|(Heq & _ & Hn)]; cbn [fst snd] in *.
      * subst ok st1.
        set (f := fun s => with_conv_base (with_ram s (memset (ram s) b 0 count)) (b + count)).
        eapply res_post_bind.
        { eapply res_post_mono; [apply (finish_block (with_conv_base st0 b) m1 b count count
            MEMMAP_BOOTLOADER_RECLAIMABLE f); try done; lia|intros x Hx; exact Hx|by left]. }
        intros st' (Hinv' & Hal & m2 & ->). cbn [res_post fst snd]. split; [done|done|lia|done|by destruct Hal; split|].
        intros a. cbn. unfold memset. by case_if.
      * injection Heq as -> ->. cbn [res_post]. 
        change (with_conv_base (with_conv_base st0 b) ?x) with (with_conv_base st0 x).
        split; [apply Hnext; lia|]. unfold conv_variant. cbn [conv_base with_conv_base]. lia.
Qed.

Lemma conv_mem_alloc_spec st count n :
  pmm_inv st -> allocations_disallowed st = false ->
  0 <= conv_base st <= 0x100000 -> conv_base st mod 4096 = 0 ->
  0 <= count -> ALIGN_UP (if count =? 0 then 1 else count) 4096 = Some n ->
  res_post (fun r => conv_ok st r.2 r.1 n) conv_fail (conv_mem_alloc max_entries st count).
Proof.
  intros Hinv Hdis Hb Hbm Hc Hn. unfold conv_mem_alloc. rewrite Hdis, Hn.
  apply align_up_Some in Hn as (_ & Hn1 & Hn2 & Hn3); [|lia|lia|case_if; lia].
  assert (4096 <= n) as Hn4.
  { assert (0 < n) by (revert Hn1; case_if; lia).
    pose proof (Z.div_mod n 4096 ltac:(lia)). lia. }
  assert (conv_inv st st) as Hst by (exists (conv_base st); split_and!; [by destruct st|lia|lia|done]).
  destruct (decide (n <= 2 ^ 20 \/ 2 ^ 64 - n <= 2 ^ 20)) as [Hs|Hs].
  - eapply loop_spec; [intros s; by apply conv_turn|done|unfold conv_variant; lia].
  - assert (conv_body max_entries n st = Panic "Conventional memory allocation failed") as Hfail.
    { unfold conv_body. rewrite wrap_small by lia. by rewrite (proj2 (Z.ltb_lt _ _)) by lia. }
    eapply (loop_spec _ (fun s => s = st)); [|done|unfold conv_variant; lia].
    intros s ->. unfold turn_ok. rewrite Hfail. by right.
Qed.
End Facts.
