(* ===== verification/PmmProps.v ===== *)
(** * Theorems on the physical memory manager

    The statements the rest of the bootloader relies on: the sanitiser, range
    reservation, the allocators, and the queries on the memory map. *)

From stdpp Require Import gmap.
From S2P Require Import Prelude CInt Memmap MemmapSem Separate Sanitise RangeAlloc Pmm PmmFacts.

(** ** [mmap_get_info]: the contiguous usable memory from 0 and from 1 MiB *)
Section Frontier.
Variable m : list memmap_entry.

Definition frontier_ok (s : Z * Z) : Prop :=
  0 <= s.1 < 2 ^ 64 /\ 0x100000 <= s.2 < 2 ^ 64 /\
  (forall a, 0 <= a < s.1 -> usable_at m a) /\
  (forall a, 0x100000 <= a < s.2 -> usable_at m a).

Definition blocked (mm : list memmap_entry) (x : Z) : Prop :=
  forall e, e ∈ mm -> e_type e = MEMMAP_USABLE -> entry_ok e -> ~ covers e x.

Lemma frontier_fold mm l0 u0 :
  (forall e, e ∈ mm -> e ∈ m) -> frontier_ok (l0, u0) ->
  let '(l, u, p) := foldl frontier_entry (l0, u0, false) mm in
  frontier_ok (l, u) /\ l0 <= l /\ u0 <= u /\
  (if p : bool then l0 < l \/ u0 < u else l = l0 /\ u = u0 /\ blocked mm l0 /\ blocked mm u0).
Proof.
  induction mm as [|e mm IH] using rev_ind; intros Hsub Hok.
  - cbn. split_and!; try done; try lia; intros e He; by apply not_elem_of_nil in He.
  - rewrite foldl_snoc. destruct (foldl frontier_entry (l0, u0, false) mm) as [[l u] p].
    destruct IH as (Hfo & Hl & Hu & Hp); [intros x Hx; apply Hsub; set_solver|done|].
    assert (e ∈ m) as He by (apply Hsub; set_solver).
    assert (forall x, blocked mm x -> (e_type e = MEMMAP_USABLE -> entry_ok e -> ~ covers e x) ->
            blocked (mm ++ [e]) x) as Hblk.
    { intros x Hx Hex y Hy. apply elem_of_app in Hy as [Hy|Hy%list_elem_of_singleton]; [by apply Hx|by subst]. }
    unfold frontier_entry. destruct (e_type e =? MEMMAP_USABLE) eqn:Ht; bool_hyps; cbn [negb].
    2: { split_and!; try done. destruct p; [done|]. destruct Hp as (? & ? & ? & ?).
         split_and!; try done; apply Hblk; try done; intros; congruence. }
    destruct (entry_top e) as [t|] eqn:Et;
      [apply entry_top_Some in Et as [-> Hoke]|apply entry_top_None in Et].
    2: { split_and!; try done. destruct p; [done|]. destruct Hp as (? & ? & ? & ?).
         split_and!; try done; apply Hblk; try done. }
    assert (forall a, covers e a -> usable_at m a) as Huse.
    { intros a Ha. exists e. split_and!; done. }
    destruct Hfo as (H1 & H2 & H3 & H4). cbn [fst snd] in *. unfold entry_ok, covers in *.
    assert (forall a, 0 <= a < e_top e -> e_base e <= l -> usable_at m a) as Hlow.
    { intros a Ha Hb. destruct (decide (a < l)); [apply H3; lia|apply Huse; lia]. }
    assert (forall a, 0x100000 <= a < e_top e -> e_base e <= u -> usable_at m a) as Hup.
    { intros a Ha Hb. destruct (decide (a < u)); [apply H4; lia|apply Huse; lia]. }
    repeat case_if; unfold frontier_ok; cbn [fst snd]; split_and!; try done; try lia.
    all: try (intros a Ha; apply Hlow; lia); try (intros a Ha; apply Hup; lia).
    all: destruct Hp as (-> & -> & ? & ?); apply Hblk; try done.
    all: intros _ _ Hc; unfold covers in Hc; destruct Hb, Hb0; bool_hyps; lia.
Qed.

Lemma frontier_spec :
  res_post (fun s => frontier_ok s /\ ~ usable_at m s.1 /\ ~ usable_at m s.2) no_panic
    (loop (frontier_body m) frontier_variant (0, 0x100000)).
Proof.
  apply (loop_spec _ frontier_ok).
  - intros [l0 u0] Hok. unfold turn_ok, frontier_body.
    pose proof (frontier_fold m l0 u0 ltac:(done) Hok) as Hf. cbn [fst snd].
    destruct (foldl frontier_entry (l0, u0, false) m) as [[l u] p].
    destruct Hf as (Hok' & Hl & Hu & Hp). destruct p; cbn.
    + split; [done|]. destruct Hok' as (? & ? & _), Hok as (? & ? & _). unfold frontier_variant. cbn in *. lia.
    + destruct Hp as (-> & -> & Hb1 & Hb2). split_and!; [done| |].
      * intros (e & He & ? & ? & ?). by apply (Hb1 e).
      * intros (e & He & ? & ? & ?). by apply (Hb2 e).
  - unfold frontier_ok. cbn [fst snd]. split_and!; intros; lia.
  - unfold frontier_variant. cbn [fst snd]. lia.
Qed.
End Frontier.

(** ** [check_usable_memory]: is a range made of real memory? *)
Section Usable.
Variable uefi : bool.
Variables base top : Z.
Hypothesis Hbt : 0 <= base < top.
Hypothesis Htop : top < 2 ^ 64.

(** An entry the check counts. *)
Definition counts (e : memmap_entry) : Prop := is_ram_type uefi (e_type e) = true /\ entry_ok e.

Definition counted_apart (m : list memmap_entry) : Prop :=
  List.ForallOrdPairs (fun e e' => counts e -> counts e' -> forall a, ~ (covers e a /\ covers e' a)) m.

Definition full : gset Z := list_to_set (seqZ base (top - base)).

Definition span (e : memmap_entry) : gset Z :=
  let lo := Z.max base (e_base e) in list_to_set (seqZ lo (Z.min top (e_top e) - lo)).

Lemma elem_of_full a : a ∈ full <-> base <= a < top.
Proof. unfold full. rewrite elem_of_list_to_set, elem_of_seqZ. lia. Qed.

Lemma elem_of_span e a : a ∈ span e <-> (base <= a < top) /\ covers e a.
Proof. unfold span, covers. rewrite elem_of_list_to_set, elem_of_seqZ. lia. Qed.

Lemma size_span e :
  e_base e < top -> base < e_top e -> e_base e <= e_top e ->
  Z.of_nat (size (span e)) = Z.min top (e_top e) - Z.max base (e_base e).
Proof.
  intros. unfold span. rewrite size_list_to_set by apply NoDup_seqZ. rewrite length_seqZ. lia.
Qed.

Lemma size_full : Z.of_nat (size full) = top - base.
Proof. unfold full. rewrite size_list_to_set by apply NoDup_seqZ. rewrite length_seqZ. lia. Qed.

Lemma full_not_covered (X : gset Z) : (size X < size full)%nat -> ~ full ⊆ X.
Proof. intros H Hs. apply subseteq_size in Hs. lia. Qed.

(** What the loop still has to find covered once [X] has been counted. *)
Definition covered_by (X : gset Z) (m : list memmap_entry) : Prop :=
  forall a, a ∈ full -> a ∈ X \/ exists e, e ∈ m /\ counts e /\ covers e a.

Lemma covered_by_cons (X Y : gset Z) e m :
  (forall a, a ∈ Y <-> a ∈ X \/ (a ∈ full /\ counts e /\ covers e a)) ->
  covered_by X (e :: m) <-> covered_by Y m.
Proof.
  intros HY. split; intros H a Ha; destruct (H a Ha) as [HaX|(x & Hx & Hc)].
  - left. apply HY. by left.
  - apply elem_of_cons in Hx as [->|Hx]; [left; apply HY; tauto|right; eauto].
  - apply HY in HaX as [?|(_ & ?)]; [by left|right; exists e; split; [by left|done]].
  - right. exists x. split; [by right|done].
Qed.

Lemma covered_by_skip X e m :
  ~ counts e \/ (forall a, a ∈ full -> ~ covers e a) -> covered_by X (e :: m) <-> covered_by X m.
Proof.
  intros Hno. apply covered_by_cons. intros a. split; [tauto|].
  intros [?|(Ha & Hc & Hcov)]; [done|]. destruct Hno as [?|Hno]; [done|]. by destruct (Hno a Ha).
Qed.

Lemma span_size_u64 e :
  0 <= e_base e -> 0 <= e_length e -> e_base e < top -> base < e_top e ->
  u64 ((if e_top e <? top then e_top e else top) - (if base <? e_base e then e_base e else base))
    = Z.of_nat (size (span e)).
Proof.
  intros. rewrite (size_span e) by (unfold e_top in *; lia).
  rewrite wrap_small; repeat case_if; unfold e_top in *; lia.
Qed.

Lemma check_usable_loop_spec m : forall (X : gset Z),
  Forall entry_wf m -> counted_apart m -> X ⊆ full -> (size X < size full)%nat ->
  (forall e, e ∈ m -> counts e -> forall a, a ∈ X -> ~ covers e a) ->
  check_usable_loop uefi base top (top - base - Z.of_nat (size X)) m = true <-> covered_by X m.
Proof.
  induction m as [|e m IH]; intros X Hwf Hap HX Hsz Hdis; cbn [check_usable_loop].
  { split; [done|]. intros H. exfalso. apply (full_not_covered X Hsz). intros a Ha.
    destruct (H a Ha) as [|(x & Hx & _)]; [done|]. by apply not_elem_of_nil in Hx. }
  apply Forall_cons in Hwf as [(Hb & Hl & _) Hwf].
  inversion Hap as [|? ? Hape Hapm]; subst. rewrite Forall_forall in Hape.
  assert (forall x, x ∈ m -> counts x -> forall a, a ∈ X -> ~ covers x a) as Hdism
    by (intros x Hx; apply Hdis; by right).
  specialize (IH X Hwf Hapm HX Hsz Hdism) as IHX.
  destruct (is_ram_type uefi (e_type e)) eqn:Hram; cbn [negb];
    [|rewrite covered_by_skip; [done|left; by intros [? _]; congruence]].
  destruct (entry_top e) as [t|] eqn:Et;
    [apply entry_top_Some in Et as [-> Hok]
    |apply entry_top_None in Et; rewrite covered_by_skip; [done|left; by intros [_ ?]]].
  assert (counts e) as Hce by done.
  destruct (full_overlap_check base top (e_base e) (e_top e)) eqn:Hfo.
  { split; [|done]. intros _ a Ha. right. exists e. split; [by left|]. split; [done|].
    unfold full_overlap_check in Hfo. bool_hyps. apply elem_of_full in Ha. unfold covers. lia. }
  destruct ((e_base e <? top) && (base <? e_top e)) eqn:Hov.
  2: { rewrite covered_by_skip; [done|]. right. intros a Ha Hc. apply elem_of_full in Ha.
       unfold covers in Hc. bool_hyps. destruct Hov; bool_hyps; lia. }
  bool_hyps. rewrite span_size_u64 by (done || lia).
  assert (X ## span e) as Hxd.
  { apply elem_of_disjoint. intros a Ha Ha2. apply elem_of_span in Ha2 as [_ Hc].
    by apply (Hdis e ltac:(by left) Hce a). }
  assert (X ∪ span e ⊆ full) as Hxf.
  { apply union_subseteq. split; [done|]. intros a Ha. apply elem_of_span in Ha as [? _]. by apply elem_of_full. }
  pose proof (size_union X (span e) Hxd) as Hsu. pose proof (subseteq_size _ _ Hxf) as Hsf.
  pose proof size_full as Hfull.
  rewrite wrap_small by lia.
  rewrite (covered_by_cons X (X ∪ span e))
    by (intros a; rewrite elem_of_union, elem_of_span, elem_of_full; tauto).
  case_if.
  - split; [|done]. intros _ a Ha. left.
    assert (X ∪ span e ≡ full) as Heq by (apply set_subseteq_size_equiv; [done|lia]). by rewrite Heq.
  - replace (top - base - Z.of_nat (size X) - Z.of_nat (size (span e)))
      with (top - base - Z.of_nat (size (X ∪ span e))) by lia.
    apply IH; [done|done|done|lia|].
    intros x Hx Hcx a [Ha|Ha]%elem_of_union Hc; [by apply (Hdism x Hx Hcx a)|].
    apply elem_of_span in Ha as [_ Ha]. by apply (Hape x Hx Hce Hcx a).
Qed.
End Usable.

(** ** A concrete machine, used to exhibit inputs that meet the hypotheses *)
Definition entry_wf_b (e : memmap_entry) : bool :=
  fits 64 (e_base e) && fits 64 (e_length e) &&
  (negb (mergeable (e_type e)) || (e_type e =? MEMMAP_USABLE) || (e_base e + e_length e <? 2 ^ 64)).

Definition map_wf_b (max_entries : nat) (m : list memmap_entry) : bool :=
  (length m <=? max_entries)%nat && forallb entry_wf_b m.

Lemma map_wf_check max_entries m : map_wf_b max_entries m = true -> map_wf max_entries m.
Proof.
  unfold map_wf_b. intros H. bool_hyps. split; [done|]. apply Forall_forall. intros e He.
  rewrite forallb_forall in H0. specialize (H0 e (proj1 (list_elem_of_In _ _) He)).
  unfold entry_wf_b, fits in H0. bool_hyps. unfold entry_wf, entry_ok, e_top.
  split_and!; try done. intros Hm Hu. rewrite Hm in H1. cbn in H1.
  destruct H1; bool_hyps; [done|lia].
Qed.

(** A map the sanitiser leaves alone satisfies the invariant. *)
Lemma pmm_inv_check max_entries st :
  map_wf max_entries (memmap st) ->
  pmm_sanitise_entries max_entries (pmm_sanitiser_keep_first_page st) (memmap st) false = Ok (memmap st) ->
  pmm_inv max_entries st.
Proof.
  intros Hwf E. pose proof (pmm_sanitise_entries_spec max_entries (pmm_sanitiser_keep_first_page st) false
    (memmap st) Hwf) as H. rewrite E in H. by destruct H.
Qed.

Lemma demo_pmm_inv : pmm_inv 512 demo_pmm.
Proof. apply pmm_inv_check; [by apply map_wf_check|by vm_compute]. Qed.

Definition demo_map : list memmap_entry :=
  [ MkEntry 0 0xa0000 1; MkEntry 0x9fc00 0x400 2; MkEntry 0x100000 0x700123 1;
    MkEntry 0x500000 0x1000 2; MkEntry 0xfffffffffffff000 0x1000 2 ].

(** ** The sanitiser *)

(** C1.  On any array that fits its capacity the sanitiser terminates without
    touching a slot outside the array; it panics only for lack of room.  The
    array it leaves is sorted by base, has no empty entry, no usable entry that
    meets another entry, no two contiguous entries of a mergeable type, and,
    when alignment was asked for, usable entries made of whole pages. *)
Theorem pmm_sanitise_entries_shape max_entries keep align m :
  map_wf max_entries m ->
  res_post (fun m' =>
      (length m' <= max_entries)%nat /\ base_sorted m' /\
      Forall (fun e => 0 < e_length e) m' /\ usable_apart m' /\ fully_merged m' /\
      (align = true -> Forall (fun e => e_type e = MEMMAP_USABLE -> page_aligned e) m'))
    (fun msg => msg = "Memory map exhausted."%string)
    (pmm_sanitise_entries max_entries keep m align).
Proof.
  intros Hwf. eapply res_post_mono; [by apply pmm_sanitise_entries_spec| |done].
  intros m' [[Hcl Hs Hp Hm Hlow] _]. split_and!; try done.
  - apply (cl_wf _ _ _ Hcl).
  - apply (cl_apart _ _ _ Hcl).
  - intros Hal. eapply Forall_impl; [apply (cl_usable _ _ _ Hcl)|]. intros e He Ht. by apply He.
Qed.

Lemma pmm_sanitise_entries_shape_witness :
  res_post (fun m' =>
      (length m' <= 512)%nat /\ base_sorted m' /\
      Forall (fun e => 0 < e_length e) m' /\ usable_apart m' /\ fully_merged m' /\
      (true = true -> Forall (fun e => e_type e = MEMMAP_USABLE -> page_aligned e) m'))
    (fun msg => msg = "Memory map exhausted."%string)
    (pmm_sanitise_entries 512 false demo_map true).
Proof. apply (pmm_sanitise_entries_shape 512 false true demo_map). apply map_wf_check. reflexivity. Defined.

(** C2.  The sanitised array denotes the same memory: every type other than
    usable covers exactly the addresses it covered, an address is usable
    afterwards only if it was usable and claimed by no other type (and, unless
    the first page is kept, not below 0x1000), and without alignment all such
    addresses stay usable. *)
Theorem pmm_sanitise_entries_memory max_entries keep align m m' :
  map_wf max_entries m -> pmm_sanitise_entries max_entries keep m align = Ok m' ->
  (forall t a, t <> MEMMAP_USABLE -> has_type m' t a <-> has_type m t a) /\
  (forall a, usable_at m' a -> free_at m a /\ (keep = true \/ 0x1000 <= a)) /\
  (align = false -> forall a, free_at m a -> keep = true \/ 0x1000 <= a -> usable_at m' a).
Proof.
  intros Hwf Heq. pose proof (pmm_sanitise_entries_spec max_entries keep align m Hwf) as H.
  rewrite Heq in H. destruct H as [_ [Ho Hs Hc]]. by split_and!.
Qed.

Lemma pmm_sanitise_entries_memory_witness :
  exists m', pmm_sanitise_entries 512 false demo_map false = Ok m' /\
  (forall a, usable_at m' a -> free_at demo_map a /\ (false = true \/ 0x1000 <= a)).
Proof.
  eexists. split; [vm_compute; reflexivity|].
  exact (proj1 (proj2 (pmm_sanitise_entries_memory 512 false false demo_map _
    (map_wf_check 512 demo_map eq_refl) ltac:(vm_compute; reflexivity)))).
Defined.

(** [pmm_new_entry] gives its range to the new entry and to nothing else:
    inside the range exactly the new type is present, outside it every type
    covers exactly what it covered. *)
Theorem pmm_new_entry_retypes max_entries m base len type :
  map_wf max_entries m -> 0 <= base -> 0 <= len -> base + len < 2 ^ 64 ->
  res_post (fun m' => map_wf max_entries m' /\
      forall t a, has_type m' t a <->
        (inside base (base + len) a /\ t = type) \/ (~ inside base (base + len) a /\ has_type m t a))
    (fun msg => msg = "Memory map exhausted."%string)
    (pmm_new_entry max_entries m base len type).
Proof. apply pmm_new_entry_post. Qed.

Lemma pmm_new_entry_retypes_witness :
  res_post (fun m' => map_wf 512 m' /\
      forall t a, has_type m' t a <->
        (inside 0x2000 (0x2000 + 0x1000) a /\ t = 5) \/
        (~ inside 0x2000 (0x2000 + 0x1000) a /\ has_type demo_map t a))
    (fun msg => msg = "Memory map exhausted."%string)
    (pmm_new_entry 512 demo_map 0x2000 0x1000 5).
Proof. apply (pmm_new_entry_retypes 512 demo_map 0x2000 0x1000 5); [by apply map_wf_check|lia|lia|lia]. Defined.

(** [memmap_alloc_range_in] on a non-empty range: it succeeds exactly when
    an entry of the overlay type encloses the range or a new entry is allowed;
    the range then holds the new type only, other types are unchanged outside
    it, and outside it an address is usable exactly if it was free memory.  On
    failure the array is untouched, or the call panics if (and only if) asked to. *)
Theorem memmap_alloc_range_in_effect max_entries keep m base len type overlay do_panic new_entry :
  map_wf max_entries m -> 0 <= base -> 0 < len -> base + len < 2 ^ 64 ->
  res_post (fun r =>
      (r.1 = true /\ (new_entry = true \/ available m overlay base (base + len)) /\
       (forall t a, t <> MEMMAP_USABLE -> has_type r.2 t a <->
          (inside base (base + len) a /\ t = type) \/ (~ inside base (base + len) a /\ has_type m t a)) /\
       (forall a, usable_at r.2 a <-> (keep = true \/ 0x1000 <= a) /\
          ((inside base (base + len) a /\ type = MEMMAP_USABLE) \/
           (~ inside base (base + len) a /\ free_at m a)))) \/
      (r = (false, m) /\ do_panic = false /\ new_entry = false /\ ~ available m overlay base (base + len)))
    (fun msg => msg = "Memory map exhausted."%string \/
       (msg = "Memory allocation failure."%string /\ do_panic = true /\ new_entry = false /\
        ~ available m overlay base (base + len)))
    (memmap_alloc_range_in max_entries keep m base len type overlay do_panic false new_entry).
Proof.
  intros Hwf Hb Hl Ht.
  eapply res_post_mono; [by apply memmap_alloc_range_in_post| |done].
  intros [b m'] [(Hok & [_ Ho Hu] & Hav)|(Hok & Hm & Hp & Hn & Hna)]; cbn in *; subst.
  - left. split_and!; try done. destruct new_entry; [by left|right; auto].
  - right. auto.
Qed.

Lemma memmap_alloc_range_in_effect_witness :
  available demo_map 1 0x200000 (0x200000 + 0x1000) /\
  memmap_alloc_range_in 512 false demo_map 0x200000 0x1000 0x1000 1 true false false <> Fault.
Proof.
  split; [eexists; split; [do 2 right; by left|]; vm_compute; repeat split; (done || (by right))|].
  pose proof (memmap_alloc_range_in_effect 512 false demo_map 0x200000 0x1000 0x1000 1 true false
    (map_wf_check 512 demo_map eq_refl) ltac:(lia) ltac:(lia) ltac:(lia)) as H.
  intros E. rewrite E in H. exact H.
Defined.

(** ** The allocators *)

(** C4.  [ext_mem_alloc_impl], while allocations are allowed and for a type other
    than usable memory, with the request rounded up to a multiple of the
    alignment: a pointer it returns is aligned and starts a block of that size that
    lay wholly in usable memory (below 4 GiB on x86 unless high allocations are
    allowed); the block, with what was left of its entry above it, now has the
    requested type only, nothing else changed its type, and exactly the bytes of
    the block have been zeroed (none are on i386 when high allocations are allowed,
    where the caller gets an address it cannot write to).  NULL (without [do_panic])
    or the out-of-memory panic mean that no usable entry contains an aligned block
    of that size below the limit; the other panics are a size that does not fit 64
    bits when rounded, and a full memory map. *)
Theorem ext_mem_alloc_impl_correct max_entries x86 i386 st count type alignment allow_high do_panic :
  pmm_inv max_entries st -> allocations_disallowed st = false ->
  0 <= count < 2 ^ 64 -> 0 < alignment < 2 ^ 64 -> type <> MEMMAP_USABLE ->
  let n := round_up (Z.max 1 count) alignment in
  res_post (fun r =>
      match r.1 with
      | Some p =>
          pmm_inv max_entries r.2 /\ p mod alignment = 0 /\ count <= n /\ 0 < n /\
          exists top, p + n <= top /\ top <= alloc_limit x86 allow_high /\
          (forall a, p <= a < top -> usable_at (memmap st) a /\
             forall t, has_type (memmap r.2) t a <-> t = type) /\
          (forall a, ~ (p <= a < top) -> forall t, has_type (memmap r.2) t a <-> has_type (memmap st) t a) /\
          (forall a, ram r.2 a =
             if negb (i386 && allow_high) && (p <=? a) && (a <? p + n) then 0 else ram st a)
      | None => do_panic = false /\ r.2 = st /\ no_room (memmap st) (alloc_limit x86 allow_high) n alignment
      end)
    (fun msg => msg = "Memory map exhausted."%string \/
       (msg = "ext_mem_alloc: count overflows when aligning"%string /\ 2 ^ 64 <= Z.max 1 count + alignment - 1) \/
       (msg = "High memory allocator: Out of memory"%string /\ do_panic = true /\
        no_room (memmap st) (alloc_limit x86 allow_high) n alignment))
    (ext_mem_alloc_impl max_entries x86 i386 st count type alignment allow_high do_panic).
Proof.
  intros Hinv Hdis Hc Ha Hty n0.
  assert (forall n, round_count count alignment = Some n -> n = n0) as Hval
    by (intros n; rewrite round_count_value by lia; case_if; [by intros [= <-]|done]).
  eapply res_post_mono; [by apply ext_mem_alloc_impl_spec| |].
  - intros [[p|] st'] H; cbn [fst snd] in *; [|by destruct H as (? & ? & n & ->%Hval & ?)].
    destruct H as [Hinv' Hmod _ (n & top & Hn & Hcn & Hlim & Hal & Hram)]. apply Hval in Hn as ->.
    destruct Hal as [Hsz Hfresh Howned Hgone Hother Hus].
    split_and!; [done|done|done|lia|]. exists top. split_and!; try done; try lia.
    + intros a Hin. split; [by apply Hfresh|]. intros t.
      destruct (decide (t = MEMMAP_USABLE)) as [->|Hne]; [|by apply Howned].
      split; [|congruence]. intros Hu. by destruct (Hgone Hty a Hin).
    + intros a Hout t. destruct (decide (t = MEMMAP_USABLE)) as [->|Hne]; [by apply Hus|by apply Hother].
  - intros msg [?|[[Hr ?]|(? & ? & n & ->%Hval & ?)]]; auto 10. right; left. split; [done|].
    rewrite round_count_value in Hr by lia. revert Hr. case_if; [done|]. bool_hyps. intros _. lia.
Qed.

(** Did a call return a block? *)
Definition got_block (r : res (option Z * pmm)) : bool :=
  match r with Ok (Some _, _) => true | _ => false end.

Lemma ext_mem_alloc_impl_correct_witness :
  exists p st', ext_mem_alloc_impl 512 true false demo_pmm 5000 0x1000 4096 false true = Ok (Some p, st')
  /\ pmm_inv 512 st' /\ p mod 4096 = 0.
Proof.
  pose proof (ext_mem_alloc_impl_correct 512 true false demo_pmm 5000 0x1000 4096 false true
    demo_pmm_inv eq_refl ltac:(lia) ltac:(lia) ltac:(done)) as H.
  assert (got_block (ext_mem_alloc_impl 512 true false demo_pmm 5000 0x1000 4096 false true) = true) as G
    by (vm_compute; reflexivity).
  destruct (ext_mem_alloc_impl _ _ _ _ _ _ _ _ _) as [[[p|] st']|msg| |]; try discriminate G.
  exists p, st'. destruct H as (? & ? & _). auto.
Defined.

(** C5.  Blocks handed out one after the other never overlap. *)
Theorem ext_mem_allocs_disjoint max_entries x86 i386 st count1 count2 type1 type2 al1 al2 p1 p2 st1 st2 :
  pmm_inv max_entries st -> allocations_disallowed st = false ->
  0 <= count1 < 2 ^ 64 -> 0 <= count2 < 2 ^ 64 -> 0 < al1 < 2 ^ 64 -> 0 < al2 < 2 ^ 64 ->
  type1 <> MEMMAP_USABLE ->
  ext_mem_alloc_type_aligned max_entries x86 i386 st count1 type1 al1 = Ok (Some p1, st1) ->
  ext_mem_alloc_type_aligned max_entries x86 i386 st1 count2 type2 al2 = Ok (Some p2, st2) ->
  p1 + count1 <= p2 \/ p2 + count2 <= p1.
Proof.
  intros Hinv Hdis Hc1 Hc2 Ha1 Ha2 Hty E1 E2.
  pose proof (ext_mem_alloc_impl_spec max_entries x86 i386 st count1 type1 al1 false true
    Hinv Hdis Hc1 Ha1) as H1.
  unfold ext_mem_alloc_type_aligned, ext_mem_alloc_type_aligned_mode in E1, E2. rewrite E1 in H1.
  destruct H1 as [Hinv1 _ [Hdis1 _] (n1 & top1 & _ & Hn1 & _ & Hal1 & _)]. rewrite Hdis in Hdis1.
  pose proof (ext_mem_alloc_impl_spec max_entries x86 i386 st1 count2 type2 al2 false true
    Hinv1 Hdis1 Hc2 Ha2) as H2. rewrite E2 in H2.
  destruct H2 as [_ _ _ (n2 & top2 & _ & Hn2 & _ & Hal2 & _)].
  pose proof (al_size _ _ _ _ _ _ Hal1) as Hs1. pose proof (al_size _ _ _ _ _ _ Hal2) as Hs2.
  destruct (decide (p1 + count1 <= p2)) as [|Hn]; [by left|right].
  destruct (decide (p2 + count2 <= p1)) as [|Hn']; [done|exfalso].
  apply (al_gone _ _ _ _ _ _ Hal1 Hty (Z.max p1 p2)); [unfold inside; lia|].
  apply (al_fresh _ _ _ _ _ _ Hal2). unfold inside. lia.
Qed.

Lemma ext_mem_allocs_disjoint_witness :
  exists p1 p2 st1 st2,
  ext_mem_alloc_type_aligned 512 true false demo_pmm 5000 0x1000 4096 = Ok (Some p1, st1) /\
  ext_mem_alloc_type_aligned 512 true false st1 100 0x1000 0x10000 = Ok (Some p2, st2) /\
  (p1 + 5000 <= p2 \/ p2 + 100 <= p1).
Proof.
  assert (match ext_mem_alloc_type_aligned 512 true false demo_pmm 5000 0x1000 4096 with
          | Ok (Some _, st1) =>
              got_block (ext_mem_alloc_type_aligned 512 true false st1 100 0x1000 0x10000)
          | _ => false
          end = true) as G by (vm_compute; reflexivity).
  destruct (ext_mem_alloc_type_aligned 512 true false demo_pmm 5000 0x1000 4096)
    as [[[p1|] st1]|msg| |] eqn:E1; try discriminate G.
  destruct (ext_mem_alloc_type_aligned 512 true false st1 100 0x1000 0x10000)
    as [[[p2|] st2]|msg| |] eqn:E2; try discriminate G.
  exists p1, p2, st1, st2. split; [done|]. split; [done|].
  eapply (ext_mem_allocs_disjoint 512 true false demo_pmm 5000 100 0x1000 0x1000 4096 0x10000);
    [exact demo_pmm_inv|reflexivity|lia|lia|lia|lia|done|exact E1|exact E2].
Defined.

(** Freeing a page-aligned block right after it was allocated makes the
    whole block usable again and leaves usable memory as it was everywhere else
    below and above the reservation. *)
Theorem ext_mem_alloc_free_roundtrip max_entries x86 i386 st count p st1 st2 :
  pmm_inv max_entries st -> allocations_disallowed st = false ->
  0 <= count < 2 ^ 64 ->
  ext_mem_alloc max_entries x86 i386 st count = Ok (Some p, st1) ->
  pmm_free max_entries st1 (Some p) count = Ok st2 ->
  exists n top, round_count count 4096 = Some n /\ p + n <= top /\
  (forall a, p <= a < p + n -> usable_at (memmap st2) a) /\
  (forall a, ~ (p <= a < top) -> usable_at (memmap st2) a <-> usable_at (memmap st) a).
Proof.
  intros Hinv Hdis Hc E1 E2.
  pose proof (ext_mem_alloc_impl_spec max_entries x86 i386 st count MEMMAP_BOOTLOADER_RECLAIMABLE 4096
    false true Hinv Hdis Hc ltac:(lia)) as H1.
  change (ext_mem_alloc_impl _ _ _ _ _ _ _ _ _) with (ext_mem_alloc max_entries x86 i386 st count) in H1.
  rewrite E1 in H1. destruct H1 as [Hinv1 Hmod [Hdis1 Hkeep] (n & top & Hn & Hcn & _ & Hal & _)].
  cbn [snd] in *. rewrite Hdis in Hdis1.
  pose proof (al_size _ _ _ _ _ _ Hal) as Hsz.
  assert (ALIGN_UP (if count =? 0 then 1 else count) 4096 = Some n) as Hup.
  { revert Hn. unfold round_count, align_up, div_roundup. rewrite (wrap_small 64 (4096 - 1)) by lia.
    destruct (CHECKED_ADD _ _) as [x|] eqn:E; [|done]. intros [= <-]. f_equal.
    apply wrap_small. unfold align_down in *. lia. }
  pose proof (pmm_free_spec max_entries st1 p count n Hinv1 Hdis1 ltac:(lia) Hmod ltac:(lia) Hup ltac:(lia)) as H2.
  rewrite E2 in H2. destruct H2 as (Hinv2 & _ & [_ _ Hu]). rewrite Hkeep in Hu.
  exists n, top. split_and!; [done|lia| |].
  - intros a Ha. apply Hu.
    assert (usable_at (memmap st) a) as Hf by (apply (al_fresh _ _ _ _ _ _ Hal); unfold inside; lia).
    apply (sanitised_usable _ _ _ _ _ Hinv) in Hf as [_ ?]. unfold inside. auto with lia.
  - intros a Ha. rewrite Hu, <- (al_usable _ _ _ _ _ _ Hal a Ha).
    rewrite (sanitised_usable _ _ _ _ _ Hinv1), Hkeep. unfold inside.
    assert (~ (p <= a < p + n)) by lia. tauto.
Qed.

Lemma ext_mem_alloc_free_roundtrip_witness :
  exists p st1 st2,
  ext_mem_alloc 512 true false demo_pmm 5000 = Ok (Some p, st1) /\
  pmm_free 512 st1 (Some p) 5000 = Ok st2 /\
  exists n top, round_count 5000 4096 = Some n /\ p + n <= top /\
  (forall a, p <= a < p + n -> usable_at (memmap st2) a) /\
  (forall a, ~ (p <= a < top) -> usable_at (memmap st2) a <-> usable_at (memmap demo_pmm) a).
Proof.
  assert (got_block (ext_mem_alloc 512 true false demo_pmm 5000) = true) as G by (vm_compute; reflexivity).
  assert (match ext_mem_alloc 512 true false demo_pmm 5000 with
          | Ok (Some p, st1) => match pmm_free 512 st1 (Some p) 5000 with Ok _ => true | _ => false end
          | _ => false
          end = true) as F by (vm_compute; reflexivity).
  destruct (ext_mem_alloc 512 true false demo_pmm 5000) as [[[p|] st1]|msg| |] eqn:E1; try discriminate G.
  destruct (pmm_free 512 st1 (Some p) 5000) as [st2|msg| |] eqn:E2; try discriminate F.
  exists p, st1, st2. split; [done|]. split; [done|].
  eapply (ext_mem_alloc_free_roundtrip 512 true false demo_pmm 5000);
    [exact demo_pmm_inv|reflexivity|lia|exact E1|exact E2].
Defined.

(** [pmm_realloc] of a live block (one that is not usable memory): the new
    block starts with the old contents, up to the smaller of the two sizes, and
    the rest of it is zero. *)
Theorem pmm_realloc_contents max_entries x86 i386 st old old_size new_size p st' :
  pmm_inv max_entries st -> allocations_disallowed st = false ->
  0 <= old_size < 2 ^ 64 -> 0 <= new_size < 2 ^ 64 -> 0 <= old -> old mod 4096 = 0 ->
  old + old_size + 4096 < 2 ^ 64 ->
  (forall a, old <= a < old + old_size -> ~ usable_at (memmap st) a) ->
  pmm_realloc max_entries x86 i386 st (Some old) old_size new_size = Ok (Some p, st') ->
  (forall k, 0 <= k < Z.min new_size old_size -> ram st' (p + k) = ram st (old + k)) /\
  (forall k, Z.min new_size old_size <= k < new_size -> ram st' (p + k) = 0).
Proof.
  intros Hinv Hdis Ho Hn Hold Holdm Hfit Howned E. unfold pmm_realloc in E.
  destruct (ext_mem_alloc max_entries x86 i386 st new_size) as [[np st1]|msg| |] eqn:E1; try done.
  cbn [rbind] in E.
  pose proof (ext_mem_alloc_impl_spec max_entries x86 i386 st new_size MEMMAP_BOOTLOADER_RECLAIMABLE 4096
    false true Hinv Hdis Hn ltac:(lia)) as H1.
  change (ext_mem_alloc_impl _ _ _ _ _ _ _ _ _) with (ext_mem_alloc max_entries x86 i386 st new_size) in H1.
  rewrite E1 in H1. destruct np as [q|]; [|by destruct H1 as (? & _)].
  destruct H1 as [Hinv1 _ [Hdis1 _] (n & top & _ & Hnn & _ & Hal & Hram)]. cbn [fst snd] in *.
  pose proof (al_size _ _ _ _ _ _ Hal) as Hsz. rewrite andb_false_r in Hram. cbn [negb andb] in Hram.
  assert (exists m, ALIGN_UP (if old_size =? 0 then 1 else old_size) 4096 = Some m) as [m Hm].
  { destruct (ALIGN_UP _ 4096) as [m|] eqn:Em; [by eauto|]. apply align_up_None in Em; [|lia|lia].
    revert Em. case_if; lia. }
  set (s1 := with_ram st1 (memcpy (ram st1) q old (MIN new_size old_size))) in E.
  assert (pmm_inv max_entries s1) as Hinv2 by exact Hinv1.
  assert (allocations_disallowed s1 = false) as Hdis2 by (cbn; congruence).
  assert (old + m < 2 ^ 64) as Hm64.
  { pose proof Hm as Hm'. apply align_up_Some in Hm' as (_ & Hm1 & _); [|lia|lia|case_if; lia].
    revert Hm1. case_if; lia. }
  pose proof (pmm_free_spec max_entries s1 old old_size m Hinv2 Hdis2 Hold Holdm ltac:(lia) Hm Hm64) as H2.
  destruct (pmm_free max_entries s1 (Some old) old_size) as [st2|msg| |]; try done.
  cbn [rbind] in E. injection E as <- <-. destruct H2 as (_ & Hr2 & _). rewrite Hr2.
  cbn [s1 with_ram ram]. unfold memcpy. rewrite MIN_min.
  assert (forall a, old <= a < old + old_size -> ~ inside q top a) as Hsep.
  { intros a Ha Hin. apply (Howned a Ha), (al_fresh _ _ _ _ _ _ Hal a Hin). }
  split; intros k Hk.
  - rewrite (proj2 (Z.leb_le q (q + k))), (proj2 (Z.ltb_lt (q + k) _)) by lia. cbn [andb].
    replace (old + (q + k - q)) with (old + k) by lia. rewrite Hram.
    specialize (Hsep (old + k) ltac:(lia)). unfold inside in Hsep.
    destruct ((q <=? old + k) && (old + k <? q + n)) eqn:Eb; [|done]. bool_hyps. lia.
  - rewrite (proj2 (Z.leb_le q (q + k))), (proj2 (Z.ltb_ge (q + k) _)) by lia. cbn [andb].
    rewrite Hram, (proj2 (Z.leb_le q (q + k))), (proj2 (Z.ltb_lt (q + k) _)) by lia. done.
Qed.

Lemma pmm_realloc_contents_witness :
  exists p st', pmm_realloc 512 true false demo_pmm (Some 0x400000) 16 5000 = Ok (Some p, st') /\
  (forall k, 0 <= k < Z.min 5000 16 -> ram st' (p + k) = ram demo_pmm (0x400000 + k)).
Proof.
  assert (got_block (pmm_realloc 512 true false demo_pmm (Some 0x400000) 16 5000) = true) as G
    by (vm_compute; reflexivity).
  destruct (pmm_realloc 512 true false demo_pmm (Some 0x400000) 16 5000) as [[[p|] st']|msg| |] eqn:E;
    try discriminate G.
  exists p, st'. split; [done|].
  apply (pmm_realloc_contents 512 true false demo_pmm 0x400000 16 5000 p st');
    [exact demo_pmm_inv|reflexivity|lia|lia|lia|reflexivity|lia| |exact E].
  intros a Ha (e & He & _ & _ & Hc). unfold covers, e_top in Hc. cbn in He.
  apply elem_of_cons in He as [->|He]; [cbn in Hc; lia|].
  apply list_elem_of_singleton in He as ->. cbn in Hc. lia.
Defined.

(** [conv_mem_alloc] returns a page-aligned, zeroed block of whole pages
    below 1 MiB taken out of usable memory, and its cursor moves past it; its
    search ends even when the requested size makes the sum wrap around. *)
Theorem conv_mem_alloc_correct max_entries st count n :
  pmm_inv max_entries st -> allocations_disallowed st = false ->
  0 <= conv_base st <= 0x100000 -> conv_base st mod 4096 = 0 ->
  0 <= count -> ALIGN_UP (if count =? 0 then 1 else count) 4096 = Some n ->
  res_post (fun r =>
      pmm_inv max_entries r.2 /\ r.1 mod 4096 = 0 /\ r.1 + n <= 0x100000 /\ conv_base r.2 = r.1 + n /\
      (forall a, r.1 <= a < r.1 + n -> usable_at (memmap st) a /\ ~ usable_at (memmap r.2) a /\ ram r.2 a = 0) /\
      (forall a, ~ (r.1 <= a < r.1 + n) ->
         (usable_at (memmap r.2) a <-> usable_at (memmap st) a) /\ ram r.2 a = ram st a))
    (fun msg => msg = "Memory map exhausted."%string \/ msg = "Conventional memory allocation failed"%string)
    (conv_mem_alloc max_entries st count).
Proof.
  intros Hinv Hdis Hb Hbm Hc Hn.
  eapply res_post_mono; [by eapply conv_mem_alloc_spec| |done].
  intros [p st'] [Hinv' Hal Hlow Hcur Hblk Hram]. cbn [fst snd] in *. split_and!; try done.
  - intros a Ha. split_and!.
    + by apply (al_fresh _ _ _ _ _ _ Hblk).
    + by apply (al_gone _ _ _ _ _ _ Hblk).
    + rewrite Hram. rewrite (proj2 (Z.leb_le _ _)), (proj2 (Z.ltb_lt _ _)) by lia. done.
  - intros a Ha. split; [by apply (al_usable _ _ _ _ _ _ Hblk)|].
    rewrite Hram. destruct ((p <=? a) && (a <? p + n)) eqn:Eb; [bool_hyps; lia|done].
Qed.

Lemma conv_mem_alloc_correct_witness :
  exists p st', conv_mem_alloc 512 demo_pmm 5000 = Ok (p, st') /\ p + 0x2000 <= 0x100000.
Proof.
  pose proof (conv_mem_alloc_correct 512 demo_pmm 5000 0x2000 demo_pmm_inv eq_refl
    ltac:(cbn; lia) eq_refl ltac:(lia) eq_refl) as H.
  assert (match conv_mem_alloc 512 demo_pmm 5000 with Ok _ => true | _ => false end = true) as G
    by (vm_compute; reflexivity).
  destruct (conv_mem_alloc 512 demo_pmm 5000) as [[p st']|msg| |]; try discriminate G.
  exists p, st'. destruct H as (_ & _ & ? & _). auto.
Defined.

(** [mmap_get_info] terminates; on a machine with 64-bit sizes it reports
    the largest run of usable memory from address 0 (cut at 1 MiB) and from
    1 MiB: every address of the runs is usable and the next one is not. *)
Theorem mmap_get_info_correct m :
  res_post (fun info =>
      0 <= lowermem info <= 0x100000 /\ 0 <= uppermem info /\
      (forall a, 0 <= a < lowermem info -> usable_at m a) /\
      (lowermem info < 0x100000 -> ~ usable_at m (lowermem info)) /\
      (forall a, 0x100000 <= a < 0x100000 + uppermem info -> usable_at m a) /\
      ~ usable_at m (0x100000 + uppermem info))
    no_panic (mmap_get_info 64 m).
Proof.
  unfold mmap_get_info. eapply res_post_bind; [apply frontier_spec|].
  intros [l u] ((Hl & Hu & Hlow & Hup) & Hnl & Hnu). cbn [fst snd res_post lowermem uppermem] in *.
  rewrite !wrap_small by (case_if || idtac; lia).
  replace (0x100000 + (u - 0x100000)) with u by lia.
  case_if; split_and!; try done; try lia; intros a Ha; apply Hlow; lia.
Qed.

(** [check_usable_memory] answers whether every byte of a range is backed
    by real memory, provided the entries it counts do not overlap each other
    (so that no byte is counted twice). *)
Theorem check_usable_memory_correct uefi m base top :
  0 <= base < top -> top < 2 ^ 64 -> Forall entry_wf m -> counted_apart uefi m ->
  check_usable_memory uefi m base top = true <->
  (forall a, base <= a < top -> exists e, e ∈ m /\ counts uefi e /\ covers e a).
Proof.
  intros Hbt Htop Hwf Hap. unfold check_usable_memory. rewrite wrap_small by lia.
  replace (top - base) with (top - base - Z.of_nat (size (∅ : gset Z))) by (rewrite size_empty; lia).
  pose proof (size_full base top Hbt) as Hsf.
  rewrite (check_usable_loop_spec uefi base top Hbt Htop m ∅); try done.
  - unfold covered_by. setoid_rewrite elem_of_full. split; intros H a Ha; [|right; by apply H].
    destruct (H a Ha) as [Hx|]; [by apply not_elem_of_empty in Hx|done].
  - rewrite size_empty. lia.
Qed.

Lemma check_usable_memory_correct_witness :
  check_usable_memory false (memmap demo_pmm) 0x101000 0x108000 = true.
Proof.
  apply (check_usable_memory_correct false (memmap demo_pmm) 0x101000 0x108000); [lia|lia| | |].
  - apply (map_wf_check 512 (memmap demo_pmm) eq_refl).
  - repeat constructor. intros _ _ a. unfold covers, e_top. cbn. lia.
  - intros a Ha. exists (MkEntry 0x100000 0x100000 1). cbn. split; [right; by left|].
    split; [split; [done|unfold entry_ok, e_top; cbn; lia]|]. unfold covers, e_top. cbn. lia.
Defined.
