(* ===== verification/PmmInit.v ===== *)
(** * Bringing the allocator up on BIOS

    How the global memory map is first filled from the E820 map
    ([init_memmap] of [common/mm/pmm.s2.c], BIOS). *)

From S2P Require Import Prelude CInt Memmap MemmapSem Separate Sanitise RangeAlloc Pmm PmmFacts PmmProps.

Lemma sanitise_spec max_entries st align :
  map_wf max_entries (memmap st) ->
  res_post (fun st' => exists m', st' = with_memmap st m' /\
      sanitised max_entries (pmm_sanitiser_keep_first_page st) align m' /\
      same_memory (pmm_sanitiser_keep_first_page st) align (memmap st) m')
    exhausted (sanitise max_entries st align).
Proof.
  intros Hwf. unfold sanitise. eapply res_post_bind; [by apply pmm_sanitise_entries_spec|].
  intros m' [? ?]. cbn. eauto.
Qed.

(** Reserving a range on top of any entry. *)
Lemma reserve_any max_entries st base len type new_entry :
  map_wf max_entries (memmap st) -> 0 <= base -> 0 < len -> base + len < 2 ^ 64 ->
  res_post (fun r => exists m', r.2 = with_memmap st m' /\
      reserved max_entries (pmm_sanitiser_keep_first_page st) (memmap st) m' base (base + len) type)
    (fun msg => exhausted msg \/ msg = "Memory allocation failure."%string)
    (memmap_alloc_range max_entries st base len type 0 true false new_entry).
Proof.
  intros. unfold memmap_alloc_range. eapply res_post_bind.
  - eapply res_post_mono; [by apply memmap_alloc_range_in_post|intros x Hx; exact Hx|].
    intros msg [?|(? & _)]; [by left|by right].
  - intros [b m'] [(_ & Hr & _)|(_ & _ & ? & _)]; [|done]. cbn. eauto.
Qed.

Lemma sanitise_inv max_entries st :
  pmm_inv max_entries st ->
  res_post (fun st' => exists m', st' = with_memmap st m' /\ pmm_inv max_entries st' /\
      forall t a, has_type m' t a <-> has_type (memmap st) t a)
    exhausted (sanitise max_entries st false).
Proof.
  intros Hinv. unfold sanitise. eapply res_post_bind; [by apply sanitise_again|].
  intros m' [? ?]. cbn. eauto.
Qed.

(** Sanitising only removes usable memory that is not free or not kept. *)
Lemma sanitised_free max_entries keep m m' a :
  sanitised max_entries keep false m' -> same_memory keep false m m' -> kept keep a ->
  free_at m' a <-> free_at m a.
Proof.
  intros Hs Hm Hk. split.
  - intros [Hu _]. by apply (sm_sound _ _ _ _ Hm).
  - intros Hf. apply (sanitised_usable max_entries keep false m' a Hs).
    by apply (sm_complete _ _ _ _ Hm eq_refl).
Qed.

(** ** BIOS *)
Section Bios.
Variable max_entries : nat.
Variable bda_word : Z.
Local Abbreviation EBDA := (ebda_get bda_word).

Lemma ebda_range : 0x80000 <= EBDA < 0xa0000.
Proof. unfold ebda_get. case_if; [lia|]. bool_hyps. lia. Qed.

(** The fields of a firmware entry are 64-bit. *)
Definition raw_wf (e : memmap_entry) : Prop := 0 <= e_base e < 2 ^ 64 /\ 0 <= e_length e < 2 ^ 64.

Lemma init_memmap_load_spec e820 m :
  (length m <= max_entries)%nat ->
  res_post (fun m' => m' = m ++ omap (init_memmap_entry EBDA) e820 /\ (length m' <= max_entries)%nat)
    exhausted (init_memmap_load max_entries EBDA e820 m).
Proof.
  revert m. induction e820 as [|e e820 IH]; intros m Hm; cbn.
  - by rewrite app_nil_r.
  - case_if; [done|]. destruct (init_memmap_entry EBDA e) as [x|].
    + eapply res_post_mono; [apply IH; rewrite length_app; cbn; lia| |done].
      intros m' [-> Hl]. by rewrite <- app_assoc in *.
    + by apply IH.
Qed.

Lemma init_memmap_entry_wf e x : raw_wf e -> init_memmap_entry EBDA e = Some x -> entry_wf x.
Proof.
  intros [Hb Hl]. unfold init_memmap_entry.
  destruct (entry_top e) as [t|] eqn:Et; [apply entry_top_Some in Et as [-> Hok]|done].
  assert (forall e', e_type e' = MEMMAP_USABLE -> 0 <= e_base e' < 2 ^ 64 -> 0 <= e_length e' < 2 ^ 64 ->
    entry_wf e') as Hw by (unfold entry_wf; intros; split_and!; try done; lia).
  pose proof (wrap_range 64) as Hu.
  repeat case_if; intros [= <-]; try (apply Hw; cbn; first [done|by apply Hu|lia]).
  unfold entry_wf. split_and!; try done; lia.
Qed.

(** A usable entry that reaches from below the EBDA to above 1 MiB. *)
Definition straddles (e : memmap_entry) (a : Z) : Prop :=
  e_type e = MEMMAP_USABLE /\ entry_ok e /\ covers e a /\ e_base e < EBDA /\ 0x100000 < e_top e.

Lemma init_entry_covers e x a :
  raw_wf e -> init_memmap_entry EBDA e = Some x ->
  e_type x = e_type e /\
  ((entry_ok x /\ covers x a) <->
   entry_ok e /\ covers e a /\
   (e_type e = MEMMAP_USABLE -> EBDA <= a < 0x100000 -> straddles e a)).
Proof.
  intros [Hb Hl]. unfold init_memmap_entry, straddles. pose proof ebda_range as HE.
  destruct (entry_top e) as [t|] eqn:Et; [apply entry_top_Some in Et as [-> Hok]|done].
  unfold entry_ok, covers, e_top in *.
  case_if; [|by intros [= <-]; tauto].
  destruct ((EBDA <=? e_base e) && (e_base e <? 0x100000)) eqn:Hr; cbn [andb].
  - bool_hyps. case_if; [done|]. case_if; [lia|]. intros [= <-]. cbn.
    rewrite wrap_small by lia. split; [done|lia].
  - case_if; intros [= <-]; cbn; (split; [done|]).
    + destruct Hr as [Hr|Hr]; bool_hyps.
      * rewrite wrap_small by lia. lia.
      * assert (e_length e - (e_base e + e_length e - EBDA) = EBDA - 0x100000) as -> by lia.
        unfold wrap. rewrite <- (Z.mod_add _ 1) by lia. rewrite Z.mod_small by lia. lia.
    + destruct Hr as [Hr|Hr], Hb1 as [Hb1|Hb1]; bool_hyps; lia.
Qed.

Lemma init_entry_dropped e a :
  init_memmap_entry EBDA e = None ->
  ~ entry_ok e \/ (e_type e = MEMMAP_USABLE /\ (covers e a -> EBDA <= a < 0x100000 /\ ~ straddles e a)).
Proof.
  unfold init_memmap_entry. destruct (entry_top e) as [t|] eqn:Et.
  - apply entry_top_Some in Et as [-> Hok]. repeat case_if; intros [=]. right.
    split; [done|]. unfold covers, straddles. lia.
  - intros _. left. by apply entry_top_None in Et.
Qed.

Lemma init_map_types e820 t a :
  Forall raw_wf e820 ->
  has_type (omap (init_memmap_entry EBDA) e820) t a <->
  exists e, e ∈ e820 /\ entry_ok e /\ e_type e = t /\ covers e a /\
            (e_type e = MEMMAP_USABLE -> EBDA <= a < 0x100000 -> straddles e a).
Proof.
  intros Hwf. rewrite Forall_forall in Hwf. unfold has_type. setoid_rewrite list_elem_of_omap. split.
  - intros (x & (e & He & Hx) & Hok & Ht & Hc).
    destruct (init_entry_covers e x a (Hwf e He) Hx) as [Htx Hiff].
    exists e. rewrite <- Htx at 1. tauto.
  - intros (e & He & Hok & Ht & Hc & Hs). destruct (init_memmap_entry EBDA e) as [x|] eqn:Hx.
    + destruct (init_entry_covers e x a (Hwf e He) Hx) as [Htx Hiff].
      exists x. rewrite Htx. split; [by exists e|]. tauto.
    + exfalso. destruct (init_entry_dropped e a Hx) as [?|(? & Hd)]; [done|].
      destruct (Hd Hc) as [Hin Hns]. by apply Hns, Hs.
Qed.

Lemma init_map_wf e820 m :
  Forall raw_wf e820 -> m = omap (init_memmap_entry EBDA) e820 -> (length m <= max_entries)%nat ->
  map_wf max_entries m.
Proof.
  intros Hwf -> Hl. split; [done|]. apply Forall_forall. intros x Hx.
  apply list_elem_of_omap in Hx as (e & He & Hx). rewrite Forall_forall in Hwf.
  by eapply init_memmap_entry_wf, Hx; apply Hwf.
Qed.

(** Memory a BIOS entry makes usable once the EBDA area has been cut off. *)
Definition e820_usable (e820 : list memmap_entry) (a : Z) : Prop :=
  ~ claimed_at e820 a /\
  exists e, e ∈ e820 /\ e_type e = MEMMAP_USABLE /\ entry_ok e /\ covers e a /\
            (EBDA <= a < 0x100000 -> e_base e < EBDA /\ 0x100000 < e_top e).

Lemma init_map_free e820 a :
  Forall raw_wf e820 -> free_at (omap (init_memmap_entry EBDA) e820) a <-> e820_usable e820 a.
Proof.
  intros Hwf. unfold free_at, usable_at, claimed_at, e820_usable, straddles.
  setoid_rewrite (fun t => init_map_types e820 t a Hwf). unfold straddles. split.
  - intros [(e & He & Hok & Ht & Hc & Hs) Hn]. split.
    + intros (t & Hne & x & Hx & Hokx & Htx & Hcx). apply Hn. exists t. split; [done|].
      exists x. split_and!; [done..|]. congruence.
    + exists e. split_and!; try done. intros Ha. by destruct (Hs Ht Ha) as (_ & _ & _ & ? & ?).
  - intros [Hn (e & He & Ht & Hok & Hc & Hs)]. split.
    + exists e. split_and!; [done..|]. intros _ Ha. destruct (Hs Ha). by split_and!.
    + intros (t & Hne & x & Hx & Hokx & Htx & Hcx & _). apply Hn. exists t. split; [done|].
      exists x. by split_and!.
Qed.

Lemma init_map_other e820 t a :
  Forall raw_wf e820 -> t <> MEMMAP_USABLE ->
  has_type (omap (init_memmap_entry EBDA) e820) t a <-> has_type e820 t a.
Proof.
  intros Hwf Ht. rewrite (init_map_types e820 t a Hwf). unfold has_type. split.
  - intros (e & ? & ? & ? & ? & _). by exists e.
  - intros (e & ? & ? & ? & ?). exists e. split_and!; try done. congruence.
Qed.

(** BIOS [init_memmap]: after it the allocator's invariant holds and
    allocations are allowed; an address is usable exactly if it lies above the
    loader's image, an E820 entry makes it usable and no entry of another type
    claims it (between the EBDA and 1 MiB only an entry reaching from below the
    EBDA to above 1 MiB does); the image is bootloader memory and the other
    types are those of the E820 map. *)
Theorem init_memmap_correct st bss_end end_ e820 :
  memmap st = [] -> pmm_sanitiser_keep_first_page st = false -> Forall raw_wf e820 ->
  4096 < bss_end -> ALIGN_UP bss_end 4096 = Some end_ ->
  res_post (fun st' =>
      pmm_inv max_entries st' /\ allocations_disallowed st' = false /\ ram st' = ram st /\
      (forall a, usable_at (memmap st') a <-> end_ <= a /\ e820_usable e820 a) /\
      (forall a, 4096 <= a < end_ -> has_type (memmap st') MEMMAP_BOOTLOADER_RECLAIMABLE a) /\
      (forall t a, t <> MEMMAP_USABLE -> ~ (4096 <= a < end_) ->
         has_type (memmap st') t a <-> has_type e820 t a))
    (fun msg => exhausted msg \/ msg = "Memory allocation failure."%string)
    (init_memmap max_entries st EBDA bss_end e820).
Proof.
  intros Hm Hkeep Hraw Hbss Hend. unfold init_memmap. rewrite Hm, Hend.
  apply align_up_Some in Hend as (_ & Hle & _ & Hlt); [|lia..]. rewrite (wrap_small 64) by lia.
  eapply res_post_bind.
  { eapply res_post_mono; [apply init_memmap_load_spec; cbn; lia|intros x Hx; exact Hx|by left]. }
  cbn [app]. intros m1 [Hm1 Hl1].
  eapply res_post_bind.
  { eapply res_post_mono; [by apply sanitise_spec, (init_map_wf e820)|intros x Hx; exact Hx|by left]. }
  cbn [with_memmap pmm_sanitiser_keep_first_page memmap]. rewrite Hkeep.
  intros st2 (m2 & -> & Hs2 & Hsm).
  eapply res_post_bind; [apply reserve_any; [by eapply sanitised_wf|lia..]|].
  cbn [with_memmap pmm_sanitiser_keep_first_page memmap]. rewrite Hkeep.
  replace (4096 + (end_ - 4096)) with end_ by lia.
  intros [b st3] (m3 & Hst3 & Hr). cbn in Hst3. subst st3.
  eapply res_post_bind.
  { eapply res_post_mono; [apply sanitise_inv|intros x Hx; exact Hx|by left].
    unfold pmm_inv. cbn. rewrite Hkeep. apply (rs_sanitised _ _ _ _ _ _ _ Hr). }
  intros st4 (m4 & -> & Hinv & Hsame). cbn [res_post with_disallowed with_memmap memmap] in *.
  assert (forall t a, t <> MEMMAP_USABLE -> has_type m2 t a <-> has_type e820 t a) as Ho.
  { intros t a Ht. rewrite (sm_other _ _ _ _ Hsm), Hm1 by done. by apply init_map_other. }
  split_and!; try done.
  - intros a. unfold usable_at. rewrite Hsame. fold (usable_at m3 a).
    rewrite (rs_usable _ _ _ _ _ _ _ Hr). setoid_rewrite <- (init_map_free e820 a Hraw).
    rewrite <- Hm1. unfold kept, inside.
    assert (0x1000 <= a -> free_at m2 a <-> free_at m1 a) as Hf.
    { intros Ha. rewrite <- (sanitised_free _ _ _ _ _ Hs2 Hsm); [done|by right]. }
    split.
    + intros [[?|Hk] [[_ ?]|[Hn Hfr]]]; try done. split; [lia|]. by apply Hf.
    + intros [Ha Hfr]. split; [right; lia|right]. split; [lia|]. apply Hf; [lia|done].
  - intros a Ha. rewrite Hsame, (rs_other _ _ _ _ _ _ _ Hr) by done. left. by unfold inside.
  - intros t a Ht Ha. rewrite Hsame, (rs_other _ _ _ _ _ _ _ Hr), Ho by done. unfold inside. tauto.
Qed.
End Bios.

Definition demo_e820 : list memmap_entry :=
  [MkEntry 0 0x9fc00 1; MkEntry 0x9fc00 0x400 2; MkEntry 0xf0000 0x10000 2; MkEntry 0x100000 0x700000 1].

Lemma init_memmap_correct_witness :
  exists st', init_memmap 512 (MkPmm [] true false 4096 (fun _ => 0)) (ebda_get 0x9fc0) 0x20123 demo_e820 = Ok st' /\
  usable_at (memmap st') 0x30000.
Proof.
  pose proof (init_memmap_correct 512 0x9fc0 (MkPmm [] true false 4096 (fun _ => 0)) 0x20123 0x21000 demo_e820
    eq_refl eq_refl ltac:(repeat constructor; cbn; lia) ltac:(lia) eq_refl) as H.
  assert (match init_memmap 512 (MkPmm [] true false 4096 (fun _ => 0)) (ebda_get 0x9fc0) 0x20123 demo_e820
          with Ok _ => true | _ => false end = true) as G by (vm_compute; reflexivity).
  destruct (init_memmap 512 _ (ebda_get 0x9fc0) 0x20123 demo_e820) as [st'|msg| |]; try discriminate G.
  exists st'. split; [done|]. destruct H as (_ & _ & _ & H & _). apply H. split; [lia|]. split.
  - intros (t & Ht & e & He & _ & <- & Hc). unfold covers, e_top in Hc. unfold demo_e820 in He.
    repeat (apply elem_of_cons in He as [->|He]; [cbn in Hc, Ht; first [lia|by destruct Ht]|]). by apply not_elem_of_nil in He.
  - exists (MkEntry 0 0x9fc00 1). split; [by left|]. split; [done|]. split; [done|]. split; [done|]. intros [Hbad _]. exfalso. by vm_compute in Hbad.
Defined.

(** ** Randomising usable memory *)
Section Randomise.
Variable i386 : bool.
Context {rng : Type}.
Variable rand32 : rng -> Z * rng.

(** Nothing outside the block changes. *)
Definition kept_outside (r0 r : Z -> Z) (ptr len : Z) : Prop := forall a, ~ (ptr <= a < ptr + len) -> r a = r0 a.

Lemma randomise_word_spec r0 ptr len k : forall random j r,
  0 <= j -> kept_outside r0 r ptr len ->
  let '(r', j', done) := randomise_word ptr len random j k r in
  kept_outside r0 r' ptr len /\ (done = false -> j' = j + Z.of_nat k /\ (j' <= len \/ k = 0%nat)).
Proof.
  induction k as [|k IH]; intros random j r Hj Hr; cbn [randomise_word]; [split; [done|lia]|].
  case_if; [done|].
  specialize (IH (Z.shiftr random 8) (j + 1) (store_byte r (ptr + j) (u8 random)) ltac:(lia)).
  destruct (randomise_word _ _ _ _ _ _) as [[r' j'] d]. destruct IH as [IH Hj'].
  { intros a Ha. unfold store_byte. rewrite (proj2 (Z.eqb_neq _ _)) by lia. by apply Hr. }
  split; [done|]. intros Hd. specialize (Hj' Hd). lia.
Qed.

Lemma randomise_block_spec ptr len r0 g :
  0 <= len ->
  res_post (fun '(r, _) => kept_outside r0 r ptr len) no_panic (randomise_block rand32 ptr len r0 g).
Proof.
  intros Hlen. unfold randomise_block.
  apply (loop_spec _ (fun '(r, _, j) => 0 <= j <= len /\ kept_outside r0 r ptr len)); [|split; [lia|done]|cbn; lia].
  intros [[r g'] j] [Hj Hr]. unfold turn_ok, randomise_body. destruct (rand32 g') as [random g2].
  pose proof (randomise_word_spec r0 ptr len 4 random j r ltac:(lia) Hr) as Hw.
  destruct (randomise_word _ _ _ _ _ _) as [[r' j'] d]. destruct Hw as [Hk Hj']. destruct d; cbn; [done|].
  specialize (Hj' eq_refl). split; [split; [lia|done]|lia].
Qed.

Lemma randomise_entries_spec m : forall r0 g, Forall entry_wf m -> usable_sound m ->
  res_post (fun '(r, _) => forall a, ~ usable_at m a -> r a = r0 a) no_panic (randomise_entries i386 rand32 m r0 g).
Proof.
  induction m as [|e m IH]; intros r0 g Hwf Hus; cbn [randomise_entries]; [done|].
  apply Forall_cons in Hwf as [He Hwf]. apply Forall_cons in Hus as [Heu Hus].
  assert (forall a, ~ usable_at (e :: m) a -> ~ usable_at m a) as Hsub.
  { intros a Ha (x & Hx & Hr). apply Ha. exists x. split; [by right|done]. }
  assert (forall r1 g1, (forall a, ~ usable_at (e :: m) a -> r1 a = r0 a) ->
    res_post (fun '(r, _) => forall a, ~ usable_at (e :: m) a -> r a = r0 a) no_panic
      (randomise_entries i386 rand32 m r1 g1)) as Hgo.
  { intros r1 g1 H1. eapply res_post_mono; [by apply IH| |done].
    intros [r g'] Hr a Ha. rewrite Hr by (by apply Hsub). by apply H1. }
  case_if; [by apply Hgo|]. case_if; [by apply Hgo|].
  destruct He as (Hbase & Hl & _). specialize (Heu ltac:(done)) as Hok. pose proof Hok as Ht. unfold entry_ok, e_top in Ht.
  assert (u64 (e_base e + e_length e) = e_base e + e_length e) as -> by (unfold wrap; rewrite Z.mod_small; lia).
  set (top := if i386 && _ then _ else _).
  assert (0 <= top - e_base e <= e_length e) as Htop.
  { unfold top. repeat case_if; [|lia]. destruct i386; cbn in *; bool_hyps; [lia|done]. }
  eapply res_post_bind; [apply randomise_block_spec; apply Z.mod_pos_bound; by destruct i386|].
  intros [r1 g1] Hk. apply Hgo. intros a Ha. apply Hk. intros Hin. apply Ha.
  exists e. split; [left|]. split; [done|]. split; [done|]. unfold covers, e_top.
  pose proof (Z.mod_le (top - e_base e) (2 ^ (if i386 then 32 else 64)) ltac:(lia) ltac:(by destruct i386)).
  unfold wrap in Hin. lia.
Qed.
End Randomise.

(** [pmm_randomise_memory] always finishes and overwrites usable memory only:
    the map and every byte in memory of another type are what they were.  (The map is one the
    sanitiser leaves, and no usable entry runs past the end of the address space.) *)
Theorem pmm_randomise_memory_correct max_entries i386 {rng : Type} (rand32 : rng -> Z * rng) st g :
  pmm_inv max_entries st -> usable_sound (memmap st) ->
  exists st' g', pmm_randomise_memory i386 rand32 st g = Ok (st', g') /\
    memmap st' = memmap st /\ forall a, ~ usable_at (memmap st) a -> ram st' a = ram st a.
Proof.
  intros Hinv Hus. unfold pmm_randomise_memory. pose proof (sanitised_wf _ _ _ _ Hinv) as [_ Hwf].
  pose proof (randomise_entries_spec i386 rand32 (memmap st) (ram st) g Hwf Hus) as Hr.
  destruct (res_post_total _ _ Hr) as ([r g'] & -> & Hk). by exists (with_ram st r), g'.
Qed.

Lemma pmm_randomise_memory_correct_witness :
  exists st' g', pmm_randomise_memory false (fun g : Z => (g, g + 1)) demo_pmm 0x12345678 = Ok (st', g') /\
    forall a, ~ usable_at (memmap demo_pmm) a -> ram st' a = ram demo_pmm a.
Proof.
  destruct (pmm_randomise_memory_correct 512 false (fun g : Z => (g, g + 1)) demo_pmm 0x12345678 demo_pmm_inv
    ltac:(repeat constructor; vm_compute; discriminate))
    as (st' & g' & E & _ & H).
  exists st', g'. split; [exact E|exact H].
Defined.
