(* ===== verification/PmmUefi.v ===== *)
(** * The allocator on UEFI

    [common/mm/pmm.s2.c] under UEFI: the memory map is built from the firmware's,
    every usable page is claimed with [AllocatePages] so that the firmware does
    not hand it out as well, and at the end the memory left to the firmware is
    typed from the final EFI memory map ([pmm_reclaim_uefi_mem]).  The boot
    services are parameters. *)

From S2P Require Import Prelude CInt Memmap MemmapSem Separate Sanitise RangeAlloc Pmm PmmFacts PmmProps.

Definition PAGE_SIZE : Z := 4096.

(** [EFI_MEMORY_TYPE] and [EFI_MEMORY_DESCRIPTOR] *)
Definition EfiLoaderCode : Z := 1.
Definition EfiLoaderData : Z := 2.
Definition EfiBootServicesCode : Z := 3.
Definition EfiBootServicesData : Z := 4.
Definition EfiConventionalMemory : Z := 7.
Definition EfiACPIReclaimMemory : Z := 9.
Definition EfiACPIMemoryNVS : Z := 10.

Record efi_desc := MkDesc { d_type : Z; PhysicalStart : Z; NumberOfPages : Z }.

Definition UEFI_ALLOC_MAX_PAGES : Z := 0x40000000 / PAGE_SIZE.
Definition UEFI_ALLOC_MIN_PAGES : Z := 0x04000000 / PAGE_SIZE.
Definition UEFI_ALLOC_FALLBACK_PAGES : Z := 0x00100000 / PAGE_SIZE.

Section Uefi.
Variable max_entries : nat.
Variables x86 i386 : bool.
(** The firmware: [AllocatePages] of [EfiAllocateAddress] kind, at an address
    and for a number of pages, says whether it failed. *)
Context {fw : Type}.
Variable AllocatePages : fw -> Z -> Z -> bool * fw.

Record uefi := MkUefi { u_pmm : pmm; u_fw : fw; uefi_alloc_chunk_pages : Z }.

Definition pmm_mark_uefi_pages_unclaimed (st : pmm) (base page_count : Z) : res pmm :=
  let! (_, st) := memmap_alloc_range max_entries st base (u64 (page_count * PAGE_SIZE))
                    MEMMAP_EFI_RECLAIMABLE MEMMAP_USABLE true false false in
  Ok st.

(** *** Claiming page by page *)
Record fallback := MkFb {
  fb_base : Z; fb_count : Z; failed_base : Z; failed_pages : Z; fb_pmm : pmm; fb_fw : fw }.

Section Fallback.
Variable rec : pmm -> fw -> Z -> Z -> res (pmm * fw).
Variable step_pages : Z.

Definition fallback_body (s : fallback) : res (fallback + pmm * fw) :=
  let 'MkFb base page_count failed_base failed_pages st f := s in
  if page_count =? 0 then
    let! st := if negb (failed_pages =? 0)
               then pmm_mark_uefi_pages_unclaimed st failed_base failed_pages else Ok st in
    Ok (inr (st, f))
  else
    let chunk_pages := MIN page_count step_pages in
    let '(status, f) := AllocatePages f base chunk_pages in
    let base' := u64 (base + chunk_pages * PAGE_SIZE) in
    let count' := page_count - chunk_pages in
    if status && (1 <? chunk_pages) then
      let! (st, f) := rec st f base chunk_pages in
      Ok (inl (MkFb base' count' failed_base failed_pages st f))
    else if status : bool then
      let failed_base := if failed_pages =? 0 then base else failed_base in
      Ok (inl (MkFb base' count' failed_base (failed_pages + chunk_pages) st f))
    else if negb (failed_pages =? 0) then
      let! st := pmm_mark_uefi_pages_unclaimed st failed_base failed_pages in
      Ok (inl (MkFb base' count' failed_base 0 st f))
    else Ok (inl (MkFb base' count' failed_base 0 st f)).
End Fallback.

(** [depth] bounds the recursion: the recursive call has a step of one page,
    with which it never recurses. *)
Fixpoint pmm_claim_uefi_pages_fallback (depth : nat) (st : pmm) (f : fw) (base page_count step_pages : Z)
    : res (pmm * fw) :=
  loop (fallback_body
          (fun st f base n =>
             match depth with
             | O => NoFuel
             | S depth => pmm_claim_uefi_pages_fallback depth st f base n 1
             end) step_pages)
    fb_count (MkFb base page_count 0 0 st f).

(** *** Claiming in large chunks *)
Definition claim_body (s : uefi * Z * Z) : res (uefi * Z * Z + uefi) :=
  let '(MkUefi st f chunk, base, page_count) := s in
  if page_count =? 0 then Ok (inr (MkUefi st f chunk))
  else
    let chunk_pages := MIN page_count chunk in
    let '(status, f) := AllocatePages f base chunk_pages in
    if status && (UEFI_ALLOC_MIN_PAGES <? chunk_pages) then
      let new_chunk_pages := MAX (chunk_pages / 2) UEFI_ALLOC_MIN_PAGES in
      Ok (inl (MkUefi st f (MIN chunk new_chunk_pages), base, page_count))
    else
      let! (st, f) :=
        if status : bool
        then pmm_claim_uefi_pages_fallback 1 st f base chunk_pages UEFI_ALLOC_FALLBACK_PAGES
        else Ok (st, f) in
      Ok (inl (MkUefi st f chunk, u64 (base + chunk_pages * PAGE_SIZE), page_count - chunk_pages)).

Definition claim_variant (s : uefi * Z * Z) : Z := uefi_alloc_chunk_pages s.1.1 + s.2.

Definition pmm_claim_uefi_pages (u : uefi) (base page_count : Z) : res uefi :=
  loop claim_body claim_variant (u, base, page_count).

(** *** The firmware's stack, at [sp], stays the firmware's *)
Definition spare_overlap (bottom top : Z) (e : memmap_entry) : option (Z * Z) :=
  if negb (e_type e =? MEMMAP_USABLE) then None
  else match entry_top e with
       | None => None
       | Some t =>
           let base := MAX (e_base e) bottom in
           let end_ := MIN t top in
           if end_ <=? base then None else Some (base, end_)
       end.

Definition spare_body (bottom top : Z) (st : pmm) : res (pmm + pmm) :=
  match first_some (spare_overlap bottom top) (memmap st) with
  | None => Ok (inr st)
  | Some (base, end_) =>
      let! (_, st) := memmap_alloc_range max_entries st base (u64 (end_ - base))
                        MEMMAP_EFI_RECLAIMABLE MEMMAP_USABLE true false false in
      Ok (inl st)
  end.

Definition spare_variant (bottom top : Z) (st : pmm) : Z :=
  match first_some (spare_overlap bottom top) (memmap st) with
  | None => 0
  | Some (base, _) => top - base
  end.

Definition pmm_spare_firmware_stack (sp : Z) (st : pmm) : res pmm :=
  let bottom := if 0x20000 <? sp then ALIGN_DOWN (sp - 0x20000) PAGE_SIZE else 0 in
  match CHECKED_ADD (ALIGN_DOWN sp PAGE_SIZE) 0x10000 with
  | None => Ok st
  | Some top => loop (spare_body bottom top) (spare_variant bottom top) st
  end.

(** *** Initialisation *)
Definition efi_our_type (t : Z) : Z :=
  if (t =? EfiLoaderCode) || (t =? EfiLoaderData) || (t =? EfiBootServicesCode)
     || (t =? EfiBootServicesData) then MEMMAP_EFI_RECLAIMABLE
  else if t =? EfiACPIReclaimMemory then MEMMAP_ACPI_RECLAIMABLE
  else if t =? EfiACPIMemoryNVS then MEMMAP_ACPI_NVS
  else if t =? EfiConventionalMemory then MEMMAP_USABLE
  else MEMMAP_RESERVED.

Fixpoint efi_load (ds : list efi_desc) (m : list memmap_entry) : res (list memmap_entry) :=
  match ds with
  | [] => Ok m
  | d :: ds =>
      if NumberOfPages d =? 0 then efi_load ds m
      else match CHECKED_MUL (NumberOfPages d) 4096 with
           | None => efi_load ds m
           | Some length_ =>
               if (length m =? max_entries)%nat then Panic "Memory map exhausted."
               else efi_load ds (m ++ [MkEntry (PhysicalStart d) length_ (efi_our_type (d_type d))])
           end
  end.

(** 64 allocations of 1 MiB that are left to the firmware. *)
Fixpoint leave_to_firmware (n : nat) (st : pmm) : res pmm :=
  match n with
  | O => Ok st
  | S n =>
      let! (_, st) := ext_mem_alloc_type max_entries x86 i386 st 0x100000 MEMMAP_EFI_RECLAIMABLE in
      leave_to_firmware n st
  end.

(** Claim every usable entry of a snapshot of the map. *)
Fixpoint claim_entries (m : list memmap_entry) (u : uefi) : res uefi :=
  match m with
  | [] => Ok u
  | e :: m =>
      if negb (e_type e =? MEMMAP_USABLE) then claim_entries m u
      else if i386 && match entry_top e with None => true | Some t => 0x100000000 <? t end
      then claim_entries m u
      else let! u := pmm_claim_uefi_pages u (e_base e) (e_length e / PAGE_SIZE) in
           claim_entries m u
  end.

(** What follows the reading of the EFI map: [image] and [image_size] are the
    loader's own.  Returns the state, the untouched copy of the map and the
    scratch buffer for [pmm_reclaim_uefi_mem]. *)
Definition init_memmap_uefi (u : uefi) (ds : list efi_desc) (sp image image_size : Z)
    : res (uefi * list memmap_entry * option Z) :=
  let st := u_pmm u in
  let! m := efi_load ds (memmap st) in
  let! st := sanitise max_entries (with_memmap st m) false in
  let! (_, st) := memmap_alloc_range max_entries st 0 PAGE_SIZE MEMMAP_EFI_RECLAIMABLE MEMMAP_USABLE
                    false false false in
  let! st := pmm_spare_firmware_stack sp st in
  let st := with_disallowed st false in
  let! st := leave_to_firmware 64 st in
  let! u := claim_entries (memmap st) (MkUefi st (u_fw u) (uefi_alloc_chunk_pages u)) in
  let st := u_pmm u in
  let untouched_memmap := memmap st in
  let! (_, st) := memmap_alloc_range max_entries st image image_size MEMMAP_BOOTLOADER_RECLAIMABLE 0
                    true false true in
  let! st := sanitise max_entries st false in
  let! (recl, st) := ext_mem_alloc_counted max_entries x86 i386 st 1024 24 in
  Ok (MkUefi st (u_fw u) (uefi_alloc_chunk_pages u), untouched_memmap, recl).

(** *** Handing over: typing what was left to the firmware *)
Definition reclaim_type (raw : bool) (t : Z) : Z :=
  if (t =? EfiLoaderCode) || (t =? EfiLoaderData) || (t =? EfiBootServicesCode)
     || (t =? EfiBootServicesData)
  then if raw then MEMMAP_USABLE else MEMMAP_BOOTLOADER_RECLAIMABLE
  else if t =? EfiConventionalMemory then MEMMAP_USABLE
  else if t =? EfiACPIReclaimMemory then MEMMAP_ACPI_RECLAIMABLE
  else if t =? EfiACPIMemoryNVS then MEMMAP_ACPI_NVS
  else MEMMAP_RESERVED.

(** The part of a descriptor that lies in the entry [r]; [None] is [continue]. *)
Definition reclaim_clip (r : memmap_entry) (d : efi_desc) : option (Z * Z) :=
  let base := e_base r in
  match entry_top r, CHECKED_MUL (NumberOfPages d) 4096 with
  | Some top, Some efi_size =>
      let efi_base := PhysicalStart d in
      let low := efi_base <? base in
      if low && (efi_size <=? base - efi_base) then None
      else
        let efi_size := if low then efi_size - (base - efi_base) else efi_size in
        let efi_base := if low then base else efi_base in
        match CHECKED_ADD efi_base efi_size with
        | None => None
        | Some efi_top =>
            let high := top <? efi_top in
            if high && (efi_size <=? efi_top - top) then None
            else
              let efi_size := if high then efi_size - (efi_top - top) else efi_size in
              let efi_top := if high then top else efi_top in
              if negb ((base <=? efi_base) && (efi_base <? top) && (base <? efi_top) && (efi_top <=? top))
              then None else Some (efi_base, efi_size)
        end
  | _, _ => None
  end.

Fixpoint reclaim_holes (keep raw : bool) (r : memmap_entry) (ds : list efi_desc) (m : list memmap_entry)
    : res (list memmap_entry) :=
  match ds with
  | [] => Ok m
  | d :: ds =>
      match reclaim_clip r d with
      | None => reclaim_holes keep raw r ds m
      | Some (efi_base, efi_size) =>
          let! (_, m) := memmap_alloc_range_in max_entries keep m efi_base efi_size
                           (reclaim_type raw (d_type d)) 0 true false false in
          reclaim_holes keep raw r ds m
      end
  end.

Fixpoint reclaim_all (keep raw : bool) (recl : list memmap_entry) (ds : list efi_desc)
    (m : list memmap_entry) : res (list memmap_entry) :=
  match recl with
  | [] => Ok m
  | r :: recl => let! m := reclaim_holes keep raw r ds m in reclaim_all keep raw recl ds m
  end.

(** The array is [memmap] or its untouched copy; the caller also sets
    [allocations_disallowed]. *)
Definition pmm_reclaim_uefi_mem (keep : bool) (ds : list efi_desc) (m : list memmap_entry) (raw : bool)
    : res (list memmap_entry) :=
  let recl := List.filter (fun e => e_type e =? MEMMAP_EFI_RECLAIMABLE) m in
  if (1024 <? length recl)%nat then Panic "pmm: Too many EFI reclaimable entries"
  else
    let! m := reclaim_all keep raw recl ds m in
    pmm_sanitise_entries max_entries keep m false.

Definition get_memmap_uefi (efi_boot_services_exited : bool) (ds : list efi_desc) (st : pmm)
    : res (list memmap_entry * pmm) :=
  if negb efi_boot_services_exited then Panic "get_memmap called whilst in boot services"
  else
    let! m := pmm_reclaim_uefi_mem (pmm_sanitiser_keep_first_page st) ds (memmap st) false in
    let! st := sanitise max_entries (with_memmap st m) true in
    Ok (memmap st, with_disallowed st true).

Definition get_raw_memmap_uefi (efi_boot_services_exited : bool) (ds : list efi_desc)
    (untouched_memmap : list memmap_entry) : res (list memmap_entry) :=
  if negb efi_boot_services_exited then Panic "get_raw_memmap called whilst in boot services"
  else pmm_reclaim_uefi_mem true ds untouched_memmap true.

(** [pmm_release_uefi_mem]: what was claimed is given back. *)
Fixpoint release_entries (FreePages : fw -> Z -> Z -> bool * fw) (f : fw) (m : list memmap_entry) : res fw :=
  match m with
  | [] => Ok f
  | e :: m =>
      if negb (e_type e =? MEMMAP_USABLE) && negb (e_type e =? MEMMAP_BOOTLOADER_RECLAIMABLE)
      then release_entries FreePages f m
      else
        let '(status, f) := FreePages f (e_base e) (e_length e / 4096) in
        if status : bool then Panic "pmm: FreePages failure (%X)" else release_entries FreePages f m
  end.

Definition pmm_release_uefi_mem (FreePages : fw -> Z -> Z -> bool * fw) (untouched_memmap : list memmap_entry)
    (st : pmm) (f : fw) : res (pmm * fw) :=
  let! f := release_entries FreePages f untouched_memmap in
  Ok (with_disallowed st true, f).

Definition claim_fail (msg : string) : Prop :=
  exhausted msg \/ msg = "Memory allocation failure."%string.

(** ** The firmware's stack *)
Lemma first_some_first {A B} (f : A -> option B) l y :
  first_some f l = Some y ->
  exists i x, l !! i = Some x /\ f x = Some y /\ forall j z, (j < i)%nat -> l !! j = Some z -> f z = None.
Proof.
  induction l as [|x l IH]; [done|]. cbn. destruct (f x) as [y'|] eqn:E.
  - intros [= <-]. exists 0%nat, x. split_and!; [done|done|lia].
  - intros (i & z & Hi & Hz & Hj)%IH. exists (S i), z. split_and!; [done|done|].
    intros [|j] w Hlt Hw; [by injection Hw as <-|]. apply (Hj j w); [lia|done].
Qed.

Section Spare.
Variables bottom top : Z.
Hypothesis Hbot : 0 <= bottom.
Hypothesis Htop : top < 2 ^ 64.

Lemma spare_overlap_Some e b t :
  spare_overlap bottom top e = Some (b, t) <->
  e_type e = MEMMAP_USABLE /\ entry_ok e /\ b = Z.max (e_base e) bottom /\ t = Z.min (e_top e) top /\ b < t.
Proof.
  unfold spare_overlap. case_if; [split; [done|by intros [? _]]|].
  destruct (entry_top e) as [x|] eqn:Et;
    [apply entry_top_Some in Et as [-> Hok]|apply entry_top_None in Et; split; [done|by intros (_ & ? & _)]].
  rewrite MAX_max, MIN_min. case_if; split; try done; [lia|intros [= <- <-]; by split_and!|].
  by intros (_ & _ & -> & -> & _).
Qed.

Lemma spare_overlap_covers e a :
  e_type e = MEMMAP_USABLE -> entry_ok e -> covers e a -> bottom <= a < top ->
  exists b t, spare_overlap bottom top e = Some (b, t) /\ b <= a.
Proof.
  intros Ht Hok Hc Ha. exists (Z.max (e_base e) bottom), (Z.min (e_top e) top).
  rewrite spare_overlap_Some. unfold covers in Hc. split_and!; try done; lia.
Qed.

(** The first overlap found is the lowest usable address of the window. *)
Lemma spare_lowest m b t :
  base_sorted m -> first_some (spare_overlap bottom top) m = Some (b, t) ->
  (exists e, e ∈ m /\ spare_overlap bottom top e = Some (b, t)) /\
  forall a, bottom <= a < top -> usable_at m a -> b <= a.
Proof.
  intros Hs (i & x & Hi & Hx & Hfirst)%first_some_first. split.
  { exists x. split; [by eapply list_elem_of_lookup_2|done]. }
  intros a Ha (j & e & Hj & Hok & Hte & Hc)%has_type_lookup.
  destruct (spare_overlap_covers e a Hte Hok Hc Ha) as (b' & t' & He & Hle).
  destruct (decide (j < i)%nat) as [Hlt|Hge]; [rewrite (Hfirst j e Hlt Hj) in He; done|].
  pose proof (Hs i j x e ltac:(lia) Hi Hj).
  apply spare_overlap_Some in Hx as (_ & _ & -> & _), He as (_ & _ & -> & _). lia.
Qed.

(** What sparing the window does to the map. *)
Record spared (st st' : pmm) : Prop := {
  sp_inv : pmm_inv max_entries st';
  sp_rest : exists m', st' = with_memmap st m';
  sp_out : forall a, ~ (bottom <= a < top) -> forall t, has_type (memmap st') t a <-> has_type (memmap st) t a;
  sp_sub : forall a, usable_at (memmap st') a -> usable_at (memmap st) a;
}.

Lemma spare_turn st0 st :
  spared st0 st ->
  turn_ok (spare_body bottom top) (spared st0) (spare_variant bottom top)
    (fun st' => spared st0 st' /\ forall a, bottom <= a < top -> ~ usable_at (memmap st') a) exhausted st.
Proof.
  intros Hsp. pose proof (sp_inv _ _ Hsp) as Hinv. unfold turn_ok, spare_body.
  destruct (first_some (spare_overlap bottom top) (memmap st)) as [[b t]|] eqn:Ef.
  2: { cbn. split; [done|]. intros a Ha (e & He & Hok & Ht & Hc).
       destruct (spare_overlap_covers e a Ht Hok Hc Ha) as (b & t & Hs & _).
       pose proof (proj1 (first_some_None _ _) Ef e He). congruence. }
  destruct (spare_lowest _ _ _ (sn_sorted _ _ _ _ Hinv) Ef) as [(e & He & Hov) Hlow].
  apply spare_overlap_Some in Hov as (Hte & Hok & Hb & Ht & Hlt).
  rewrite wrap_small by lia.
  assert (available (memmap st) MEMMAP_USABLE b (b + (t - b))) as Hav
    by (exists e; split_and!; [done|by right|done|lia|lia]).
  eapply res_post_bind.
  { eapply res_post_mono; [apply memmap_alloc_range_post; [done|lia..]|intros x Hx; exact Hx|].
    intros msg [?|(_ & _ & ?)]; [done|by destruct H]. }
  intros [ok st1] [(_ & _ & m1 & Hst & Hr)|(_ & ? & _)]; [|done]. cbn in Hst. subst st1. cbn [res_post].
  pose proof (reserved_allocated max_entries st (with_memmap st m1) m1 b (t - b) (b + (t - b))
    MEMMAP_EFI_RECLAIMABLE Hinv ltac:(lia) ltac:(lia) ltac:(lia) ltac:(lia)
    (fun a => available_usable _ _ _ a Hav) Hr (fun t a => iff_refl _)) as [_ Hf Ho Hg Hoth Hus].
  cbn [with_memmap memmap] in *.
  assert (forall a, inside b (b + (t - b)) a \/ ~ inside b (b + (t - b)) a) as Hdec
    by (intros; unfold inside; lia).
  assert (forall a, usable_at m1 a -> usable_at (memmap st) a /\ ~ inside b (b + (t - b)) a) as Hsub.
  { intros a Ha. destruct (Hdec a) as [Hin|Hout]; [by destruct (Hg ltac:(done) a Hin)|].
    split; [by apply Hus|done]. }
  split; [split|].
  - apply (rs_sanitised _ _ _ _ _ _ _ Hr).
  - destruct (sp_rest _ _ Hsp) as [m' ->]. by exists m1.
  - intros a Ha ty. rewrite <- (sp_out _ _ Hsp a Ha ty).
    assert (~ inside b (b + (t - b)) a) by (unfold inside; lia).
    destruct (decide (ty = MEMMAP_USABLE)) as [->|]; [by apply Hus|by apply Hoth].
  - intros a Ha. by apply (sp_sub _ _ Hsp), Hsub.
  - unfold spare_variant. rewrite Ef. cbn [with_memmap memmap].
    destruct (first_some (spare_overlap bottom top) m1) as [[b2 t2]|] eqn:Ef2; [|lia].
    apply first_some_Some in Ef2 as (y & Hy & (Hty & Hoky & Hb2 & Ht2 & Hlt2)%spare_overlap_Some).
    assert (usable_at m1 b2) as Hu2 by (exists y; split_and!; try done; unfold covers; lia).
    apply Hsub in Hu2 as [Hu2 Hout]. unfold inside in Hout.
    specialize (Hlow b2 ltac:(lia) Hu2). lia.
Qed.

Lemma spare_spec st :
  pmm_inv max_entries st ->
  res_post (fun st' => spared st st' /\ forall a, bottom <= a < top -> ~ usable_at (memmap st') a) exhausted
    (loop (spare_body bottom top) (spare_variant bottom top) st).
Proof.
  intros Hinv. eapply (loop_spec _ (spared st)); [apply spare_turn| |].
  - split; try done. exists (memmap st). by destruct st.
  - unfold spare_variant. destruct (first_some _ _) as [[b t]|] eqn:Ef; [|done].
    apply first_some_Some in Ef as (e & He & (_ & _ & ? & ? & ?)%spare_overlap_Some). lia.
Qed.
End Spare.

(** ** Typing the firmware's memory *)
Section Reclaim.
Variables keep raw : bool.
Variable ds : list efi_desc.
Hypothesis Hds : Forall (fun d => 0 <= PhysicalStart d < 2 ^ 64 /\ 0 <= NumberOfPages d < 2 ^ 64) ds.

Definition desc_covers (d : efi_desc) (a : Z) : Prop :=
  PhysicalStart d <= a < PhysicalStart d + NumberOfPages d * 4096.

Lemma reclaim_clip_Some r d b n :
  entry_wf r -> 0 <= PhysicalStart d < 2 ^ 64 -> 0 <= NumberOfPages d ->
  reclaim_clip r d = Some (b, n) ->
  entry_ok r /\ 0 <= b /\ 0 <= n /\ b + n < 2 ^ 64 /\
  forall a, b <= a < b + n -> covers r a /\ desc_covers d a.
Proof.
  intros (Hb & Hl & _) Hp Hn. unfold reclaim_clip, desc_covers, covers.
  destruct (entry_top r) as [t|] eqn:Et; [apply entry_top_Some in Et as [-> Hok]|done].
  destruct (CHECKED_MUL _ _) as [sz|] eqn:Es; [apply checked_mul_Some in Es as [-> Hsz]|done].
  unfold entry_ok in Hok.
  destruct (PhysicalStart d <? e_base r) eqn:E1; cbn [andb]; bool_hyps;
    [case_if; [done|]|]; (destruct (CHECKED_ADD _ _) as [et|] eqn:Ea;
    [apply checked_add_Some in Ea as [-> Ha]|done]);
    (destruct (e_top r <? _) eqn:E2; cbn [andb]; bool_hyps; [case_if; [done|]|]);
    (case_if; [done|]); intros [= <- <-]; split_and!; try done; try lia; intros a Hr; lia.
Qed.

(** [m] comes from [m0] by retyping memory the firmware had, as the descriptors say. *)
Record retold (m0 m : list memmap_entry) : Prop := {
  rt_wf : map_wf max_entries m;
  rt_sound : forall t a, has_type m t a -> has_type m0 t a \/
             (has_type m0 MEMMAP_EFI_RECLAIMABLE a /\
              exists d, d ∈ ds /\ desc_covers d a /\ reclaim_type raw (d_type d) = t);
  rt_keep : forall t a, t <> MEMMAP_USABLE -> ~ has_type m0 MEMMAP_EFI_RECLAIMABLE a ->
            has_type m0 t a -> has_type m t a;
}.

Lemma reclaim_holes_spec m0 r l m :
  r ∈ m0 -> entry_wf r -> e_type r = MEMMAP_EFI_RECLAIMABLE -> (forall d, d ∈ l -> d ∈ ds) -> retold m0 m ->
  res_post (retold m0) claim_fail (reclaim_holes keep raw r l m).
Proof.
  intros Hr Hwr Htr. revert m. induction l as [|d l IH]; intros m Hl Hm; cbn [reclaim_holes]; [done|].
  assert (forall d, d ∈ l -> d ∈ ds) as Hl' by (intros x Hx; apply Hl; by right).
  assert (d ∈ ds) as Hd by (apply Hl; by left).
  destruct (reclaim_clip r d) as [[b n]|] eqn:Ec; [|by apply IH].
  rewrite Forall_forall in Hds. destruct (Hds d Hd) as [Hp Hn].
  apply reclaim_clip_Some in Ec as (Hok & Hb & Hn0 & Ht & Hin); [|done|done|lia].
  destruct (decide (n = 0)) as [->|Hnz]; [by apply IH|].
  eapply res_post_bind.
  { eapply res_post_mono; [apply memmap_alloc_range_in_post; [apply (rt_wf _ _ Hm)|lia..]|
      intros x Hx; exact Hx|intros msg [?|(? & _)]; [by left|by right]]. }
  intros [ok m1] [(_ & Hres & _)|(_ & _ & ? & _)]; [|done]. cbn [fst snd] in Hres. apply IH; [done|].
  assert (forall a, inside b (b + n) a -> has_type m0 MEMMAP_EFI_RECLAIMABLE a) as Hefi.
  { intros a Ha. destruct (Hin a Ha). by exists r. }
  split.
  - eapply sanitised_wf, (rs_sanitised _ _ _ _ _ _ _ Hres).
  - intros t a Ha. destruct (decide (t = MEMMAP_USABLE)) as [->|Hne].
    + apply (rs_usable _ _ _ _ _ _ _ Hres) in Ha as [_ [[Hi Hty]|[_ [Hu _]]]]; [right|by apply (rt_sound _ _ Hm)].
      split; [by apply Hefi|]. exists d. split_and!; try done; by apply Hin.
    + apply (rs_other _ _ _ _ _ _ _ Hres) in Ha as [[Hi ->]|[_ Hu]]; [right|by apply (rt_sound _ _ Hm)|done].
      split; [by apply Hefi|]. exists d. split_and!; try done; by apply Hin.
  - intros t a Hne Hno Ha. apply (rs_other _ _ _ _ _ _ _ Hres); [done|]. right. split.
    + intros Hi. by apply Hno, Hefi.
    + by apply (rt_keep _ _ Hm).
Qed.

Lemma reclaim_all_spec m0 recl m :
  (forall r, r ∈ recl -> r ∈ m0 /\ entry_wf r /\ e_type r = MEMMAP_EFI_RECLAIMABLE) -> retold m0 m ->
  res_post (retold m0) claim_fail (reclaim_all keep raw recl ds m).
Proof.
  revert m. induction recl as [|r recl IH]; intros m Hr Hm; cbn [reclaim_all]; [done|].
  destruct (Hr r ltac:(by left)) as (? & ? & ?).
  eapply res_post_bind; [by eapply reclaim_holes_spec|]. intros m1 Hm1.
  apply IH; [|done]. intros x Hx. apply Hr. by right.
Qed.
End Reclaim.

(** ** Claiming is sound

    [granted f a]: the firmware has given the page of [a] to the loader. *)
Section Claim.
Variable granted : fw -> Z -> Prop.
Hypothesis granted_new : forall f b n f',
  AllocatePages f b n = (false, f') -> forall a, b <= a < b + n * PAGE_SIZE -> granted f' a.
Hypothesis granted_mono : forall f b n s f' a,
  AllocatePages f b n = (s, f') -> granted f a -> granted f' a.

(** From [st] to [st'] the addresses in [P] have been claimed: those still
    usable were granted, the others went to the EFI type, nothing else moved. *)
Record claim_step (P : Z -> Prop) (st : pmm) (f : fw) (st' : pmm) (f' : fw) : Prop := {
  cs_inv : pmm_inv max_entries st';
  cs_rest : exists m', st' = with_memmap st m';
  cs_in : forall a, usable_at (memmap st') a -> usable_at (memmap st) a /\ (P a -> granted f' a);
  cs_lost : forall a, usable_at (memmap st) a ->
            usable_at (memmap st') a \/ (P a /\ has_type (memmap st') MEMMAP_EFI_RECLAIMABLE a);
  cs_types : forall t a, t <> MEMMAP_USABLE -> has_type (memmap st') t a ->
             has_type (memmap st) t a \/ (P a /\ t = MEMMAP_EFI_RECLAIMABLE /\ usable_at (memmap st) a);
  cs_keep : forall t a, t <> MEMMAP_USABLE -> has_type (memmap st) t a -> has_type (memmap st') t a;
  cs_mono : forall a, granted f a -> granted f' a;
}.

Lemma claim_step_trans P Q R st f st1 f1 st2 f2 :
  claim_step P st f st1 f1 -> claim_step Q st1 f1 st2 f2 -> (forall a, R a <-> P a \/ Q a) ->
  claim_step R st f st2 f2.
Proof.
  intros H1 H2 HR. split.
  - apply (cs_inv _ _ _ _ _ H2).
  - destruct (cs_rest _ _ _ _ _ H1) as [m1 ->], (cs_rest _ _ _ _ _ H2) as [m2 ->]. by exists m2.
  - intros a Ha. destruct (cs_in _ _ _ _ _ H2 a Ha) as [Hu Hq].
    destruct (cs_in _ _ _ _ _ H1 a Hu) as [Hu0 Hp]. split; [done|].
    intros [HP|HQ]%HR; [|by apply Hq]. by apply (cs_mono _ _ _ _ _ H2), Hp.
  - intros a Ha. destruct (cs_lost _ _ _ _ _ H1 a Ha) as [Hu|[HP He]].
    + destruct (cs_lost _ _ _ _ _ H2 a Hu) as [?|[HQ ?]]; [by left|right].
      split; [apply HR; by right|done].
    + right. split; [apply HR; by left|]. by apply (cs_keep _ _ _ _ _ H2).
  - intros t a Ht Ha. destruct (cs_types _ _ _ _ _ H2 t a Ht Ha) as [Ha1|(HQ & -> & Hu)].
    + destruct (cs_types _ _ _ _ _ H1 t a Ht Ha1) as [?|(HP & ? & ?)]; [by left|right].
      split_and!; [apply HR; by left|done|done].
    + right. destruct (cs_in _ _ _ _ _ H1 a Hu) as [? _]. split_and!; [apply HR; by right|done|done].
  - intros t a Ht Ha. by apply (cs_keep _ _ _ _ _ H2), (cs_keep _ _ _ _ _ H1).
  - intros a Ha. by apply (cs_mono _ _ _ _ _ H2), (cs_mono _ _ _ _ _ H1).
Qed.

(** Asking the firmware changes no map; what it grants is claimed. *)
Lemma claim_step_fw (P : Z -> Prop) st f f' :
  pmm_inv max_entries st -> (forall a, P a -> granted f' a) -> (forall a, granted f a -> granted f' a) ->
  claim_step P st f st f'.
Proof.
  intros Hi Hp Hm. split; try done; [by exists (memmap st); destruct st|auto..].
Qed.

Definition pages (b n : Z) (a : Z) : Prop := b <= a < b + n * PAGE_SIZE.

Lemma mark_step st f b n :
  pmm_inv max_entries st -> 0 < n -> 0 <= b -> b + n * PAGE_SIZE < 2 ^ 64 ->
  res_post (fun st' => claim_step (pages b n) st f st' f) claim_fail
    (pmm_mark_uefi_pages_unclaimed st b n).
Proof.
  intros Hinv Hn Hb Ht. unfold pmm_mark_uefi_pages_unclaimed, pages, PAGE_SIZE in *.
  rewrite wrap_small by lia.
  eapply res_post_bind.
  { eapply res_post_mono; [apply memmap_alloc_range_post; [done|lia..]|intros x Hx; exact Hx|].
    intros msg [?|(? & _)]; [by left|by right]. }
  intros [ok st'] [(_ & Hav & m' & Hst & Hr)|(_ & ? & _)]; [|done]. cbn in Hst. subst st'. cbn [res_post].
  pose proof (reserved_allocated max_entries st (with_memmap st m') m' b (n * 4096) (b + n * 4096)
    MEMMAP_EFI_RECLAIMABLE Hinv ltac:(lia) ltac:(lia) ltac:(lia) Hb
    (fun a => available_usable _ _ _ a Hav) Hr (fun t a => iff_refl _)) as [_ Hf Ho Hg Hoth Hus].
  assert (forall a, inside b (b + n * 4096) a \/ ~ inside b (b + n * 4096) a) as Hdec
    by (intros; unfold inside; lia).
  split; try done.
  - apply (rs_sanitised _ _ _ _ _ _ _ Hr).
  - by exists m'.
  - intros a Ha. destruct (Hdec a) as [Hin|Hout].
    + by destruct (Hg ltac:(done) a Hin).
    + split; [by apply Hus|done].
  - intros a Ha. destruct (Hdec a) as [Hin|Hout]; [right|left; by apply Hus].
    split; [done|]. by apply Ho.
  - intros t a Hne Ha. destruct (Hdec a) as [Hin|Hout]; [right|left; by apply Hoth].
    apply Ho in Ha; try done. subst. split; [done|]. split; [done|by apply Hf].
  - intros t a Hne Ha. destruct (Hdec a) as [Hin|Hout]; [|by apply Hoth].
    exfalso. apply Hf in Hin. apply (sanitised_usable _ _ _ _ a Hinv) in Hin as [[_ Hn'] _].
    apply Hn'. exists t. auto.
Qed.

(** One turn after another: adjacent runs of pages. *)
Lemma claim_step_pages b n k st f st1 f1 st2 f2 :
  0 <= n -> 0 <= k ->
  claim_step (pages b n) st f st1 f1 -> claim_step (pages (b + n * PAGE_SIZE) k) st1 f1 st2 f2 ->
  claim_step (pages b (n + k)) st f st2 f2.
Proof.
  intros Hn Hk H1 H2. eapply claim_step_trans; [exact H1|exact H2|].
  intros a. unfold pages, PAGE_SIZE. lia.
Qed.

Lemma claim_step_none b st f f' :
  pmm_inv max_entries st -> (forall a, granted f a -> granted f' a) -> claim_step (pages b 0) st f st f'.
Proof. intros. apply claim_step_fw; try done. unfold pages. lia. Qed.

Section FallbackProof.
Variable rec : pmm -> fw -> Z -> Z -> res (pmm * fw).
Variable step : Z.
Hypothesis Hstep : 0 < step.
Hypothesis Hrec : 1 < step -> forall st f b n,
  pmm_inv max_entries st -> 0 < n -> 0 <= b -> b + n * PAGE_SIZE < 2 ^ 64 ->
  res_post (fun r => claim_step (pages b n) st f r.1 r.2) claim_fail (rec st f b n).
Variables (st0 : pmm) (f0 : fw) (b0 n0 : Z).
Hypothesis Hb0 : 0 <= b0.
Hypothesis Hn0 : 0 <= n0.
Hypothesis Ht0 : b0 + n0 * PAGE_SIZE < 2 ^ 64.

(** [k] pages are settled, the next [failed_pages] were refused. *)
Record fb_inv (s : fallback) : Prop := {
  fi_run : exists k, 0 <= k /\ 0 <= failed_pages s /\ 0 <= fb_count s /\
           k + failed_pages s + fb_count s = n0 /\
           fb_base s = b0 + (k + failed_pages s) * PAGE_SIZE /\
           (failed_pages s <> 0 -> failed_base s = b0 + k * PAGE_SIZE) /\
           claim_step (pages b0 k) st0 f0 (fb_pmm s) (fb_fw s);
  fi_last : failed_pages s <> 0 -> step = 1 \/ fb_count s = 0;
}.

Lemma fallback_turn s :
  fb_inv s ->
  turn_ok (fallback_body rec step) fb_inv fb_count
    (fun r => claim_step (pages b0 n0) st0 f0 r.1 r.2) claim_fail s.
Proof.
  intros [(k & Hk & Hfp & Hc & Hsum & Hbase & Hfb & Hcs) Hlast]. destruct s as [base count fb fp st f].
  cbn [fb_base fb_count failed_base failed_pages fb_pmm fb_fw] in *.
  pose proof (cs_inv _ _ _ _ _ Hcs) as Hinv. unfold turn_ok, fallback_body.
  assert (0 <= k <= n0 /\ PAGE_SIZE = 4096) as [Hk0 HP] by (split; [lia|done]).
  (* settling the refused run *)
  assert (fp <> 0 -> res_post (fun st' => claim_step (pages b0 (k + fp)) st0 f0 st' f) claim_fail
            (pmm_mark_uefi_pages_unclaimed st fb fp)) as Hmark.
  { intros Hfp0. rewrite (Hfb Hfp0).
    eapply res_post_mono; [apply (mark_step st f (b0 + k * PAGE_SIZE) fp); [done|nia..]| |done].
    intros st' Hm. by eapply claim_step_pages. }
  destruct (count =? 0) eqn:Ec; bool_hyps.
  { destruct (fp =? 0) eqn:Efp; cbn [negb]; bool_hyps.
    - cbn. by replace n0 with k by lia.
    - eapply res_post_bind; [by apply Hmark|]. intros st' Hst'. cbn. by replace n0 with (k + fp) by lia. }
  rewrite MIN_min. set (chunk := Z.min count step). assert (0 < chunk <= count) by lia.
  destruct (AllocatePages f base chunk) as [status f'] eqn:Ea.
  rewrite (wrap_small 64) by nia.
  assert (forall a, granted f a -> granted f' a) as Hmono by (intros a; by apply (granted_mono _ _ _ _ _ a Ea)).
  (* [j] pages settled in state [st'] with firmware [f], then [chunk] more settled *)
  assert (forall j st' st2 f2, 0 <= j -> j = k + fp -> claim_step (pages b0 j) st0 f0 st' f ->
            claim_step (pages base chunk) st' f' st2 f2 ->
            fb_inv (MkFb (base + chunk * PAGE_SIZE) (count - chunk) fb 0 st2 f2)) as Hgo.
  { intros j st' st2 f2 Hj Hjk H1 H2. split; cbn; [|done].
    exists (j + chunk). split_and!; try lia.
    eapply claim_step_pages; [lia|lia|exact H1|].
    replace (b0 + j * PAGE_SIZE) with base by nia. eapply claim_step_trans; [|exact H2|].
    - apply (claim_step_none base); [apply (cs_inv _ _ _ _ _ H1)|exact Hmono].
    - intros a. unfold pages. lia. }
  destruct status; cbn [andb].
  - destruct (1 <? chunk) eqn:E1; bool_hyps.
    + assert (fp = 0) as -> by (destruct (decide (fp = 0)); [done|]; destruct (Hlast ltac:(done)); lia).
      eapply res_post_bind; [apply Hrec; [lia|done|lia|nia|nia]|]. intros [st2 f2] H2. cbn in H2 |- *.
      split; [|lia]. apply (Hgo k st); try done; lia.
    + cbn [res_post]. split; [|cbn; lia]. split; cbn; [|lia].
      exists k. split_and!; try lia.
      * intros _. case_if; [nia|]. by apply Hfb.
      * eapply claim_step_trans; [exact Hcs|by apply (claim_step_none base)|]. intros a. unfold pages. lia.
  - assert (forall st', pmm_inv max_entries st' -> claim_step (pages base chunk) st' f' st' f') as Hgrant
      by (intros st' Hi; apply claim_step_fw; [done|by apply (granted_new _ _ _ _ Ea)|done]).
    destruct (fp =? 0) eqn:Efp; cbn [negb]; bool_hyps.
    + cbn. split; [|lia]. apply (Hgo k st); try done; [lia|by apply Hgrant].
    + eapply res_post_bind; [by apply Hmark|]. intros st' Hst'. cbn. split; [|lia].
      apply (Hgo (k + fp) st'); try done; [lia|]. apply Hgrant, (cs_inv _ _ _ _ _ Hst').
Qed.

Lemma fallback_loop_spec :
  pmm_inv max_entries st0 ->
  res_post (fun r => claim_step (pages b0 n0) st0 f0 r.1 r.2) claim_fail
    (loop (fallback_body rec step) fb_count (MkFb b0 n0 0 0 st0 f0)).
Proof.
  intros Hinv. eapply (loop_spec _ fb_inv); [apply fallback_turn| |done].
  split; cbn; [|lia]. exists 0. split_and!; try lia. by apply claim_step_none.
Qed.
End FallbackProof.

Lemma fallback_spec depth st f b n step :
  (1 < step -> (0 < depth)%nat) -> 0 < step -> pmm_inv max_entries st -> 0 <= n -> 0 <= b ->
  b + n * PAGE_SIZE < 2 ^ 64 ->
  res_post (fun r => claim_step (pages b n) st f r.1 r.2) claim_fail
    (pmm_claim_uefi_pages_fallback depth st f b n step).
Proof.
  revert st f b n step. induction depth as [|depth IH]; intros st f b n step Hd Hs Hinv Hn Hb Ht;
    cbn [pmm_claim_uefi_pages_fallback]; apply fallback_loop_spec; try done.
  - intros. lia.
  - intros. apply IH; try done; lia.
Qed.

(** *** The chunked loop *)
Record claim_inv (st0 : pmm) (f0 : fw) (b0 n0 : Z) (s : uefi * Z * Z) : Prop := {
  ci_chunk : 0 < uefi_alloc_chunk_pages s.1.1;
  ci_run : exists k, 0 <= k /\ 0 <= s.2 /\ k + s.2 = n0 /\ s.1.2 = b0 + k * PAGE_SIZE /\
           claim_step (pages b0 k) st0 f0 (u_pmm s.1.1) (u_fw s.1.1);
}.

Lemma claim_turn st0 f0 b0 n0 s :
  0 <= b0 -> b0 + n0 * PAGE_SIZE < 2 ^ 64 -> claim_inv st0 f0 b0 n0 s ->
  turn_ok claim_body (claim_inv st0 f0 b0 n0) claim_variant
    (fun u => 0 < uefi_alloc_chunk_pages u /\ claim_step (pages b0 n0) st0 f0 (u_pmm u) (u_fw u)) claim_fail s.
Proof.
  intros Hb0 Ht0 [Hch (k & Hk & Hc & Hsum & Hbase & Hcs)]. destruct s as [[[st f chunk] base] count].
  cbn in Hch, Hc, Hsum, Hbase, Hcs. pose proof (cs_inv _ _ _ _ _ Hcs) as Hinv.
  unfold turn_ok, claim_body, claim_variant. assert (PAGE_SIZE = 4096) as HP by done.
  destruct (count =? 0) eqn:Ec; bool_hyps.
  { cbn. split; [done|]. by replace n0 with k by lia. }
  rewrite MIN_min. set (n := Z.min count chunk). assert (0 < n <= count /\ n <= chunk) by lia.
  destruct (AllocatePages f base n) as [status f'] eqn:Ea.
  assert (forall a, granted f a -> granted f' a) as Hmono by (intros a; by apply (granted_mono _ _ _ _ _ a Ea)).
  assert (claim_step (pages b0 k) st0 f0 st f') as Hcs'.
  { eapply claim_step_trans; [exact Hcs|by apply (claim_step_none base)|]. intros a. unfold pages. lia. }
  destruct (status && (UEFI_ALLOC_MIN_PAGES <? n)) eqn:E1; bool_hyps.
  - cbn. rewrite MIN_min, MAX_max. change UEFI_ALLOC_MIN_PAGES with 16384 in *. split.
    + split; cbn; [lia|]. exists k. split_and!; try done; lia.
    + pose proof (Z.div_lt_upper_bound n 2 n). lia.
  - eapply res_post_bind.
    + instantiate (1 := fun r => claim_step (pages base n) st f' r.1 r.2).
      destruct status; [apply fallback_spec; try done; nia|].
      apply claim_step_fw; [done|by apply (granted_new _ _ _ _ Ea)|done].
    + intros [st2 f2] H2. cbn. split; [|lia]. split; cbn; [done|]. rewrite wrap_small by nia.
      exists (k + n). split_and!; try lia.
      eapply claim_step_pages; [done|lia|exact Hcs'|]. by rewrite <- Hbase.
Qed.

Lemma pmm_claim_uefi_pages_spec u b n :
  pmm_inv max_entries (u_pmm u) -> 0 < uefi_alloc_chunk_pages u -> 0 <= b -> 0 <= n ->
  b + n * PAGE_SIZE < 2 ^ 64 ->
  res_post (fun u' => 0 < uefi_alloc_chunk_pages u' /\
      claim_step (pages b n) (u_pmm u) (u_fw u) (u_pmm u') (u_fw u')) claim_fail
    (pmm_claim_uefi_pages u b n).
Proof.
  intros Hinv Hch Hb Hn Ht. unfold pmm_claim_uefi_pages.
  eapply (loop_spec _ (claim_inv (u_pmm u) (u_fw u) b n)).
  - intros s. by apply claim_turn.
  - split; [done|]. exists 0. cbn. split_and!; try lia. by apply claim_step_none.
  - unfold claim_variant. cbn. lia.
Qed.

(** *** Every entry of the map *)
Definition whole_pages (e : memmap_entry) : Prop :=
  e_type e = MEMMAP_USABLE -> entry_ok e /\ e_length e mod PAGE_SIZE = 0.

Definition entry_claimed (m : list memmap_entry) (a : Z) : Prop :=
  exists e, e ∈ m /\ e_type e = MEMMAP_USABLE /\ covers e a /\ (i386 = true -> e_top e <= 0x100000000).

Lemma entry_claimed_cons_skip e m a :
  (e_type e <> MEMMAP_USABLE \/ (i386 = true /\ 0x100000000 < e_top e)) ->
  entry_claimed (e :: m) a <-> entry_claimed m a.
Proof.
  intros Hs. unfold entry_claimed. setoid_rewrite elem_of_cons. split.
  - intros (x & [->|Hx] & Ht & Hc & Hi); [|by exists x]. destruct Hs as [?|[Hi' ?]]; [done|].
    specialize (Hi Hi'). lia.
  - intros (x & ? & ?). exists x. auto.
Qed.

Lemma claim_entries_spec m u :
  Forall entry_wf m -> Forall whole_pages m -> pmm_inv max_entries (u_pmm u) -> 0 < uefi_alloc_chunk_pages u ->
  res_post (fun u' => claim_step (entry_claimed m) (u_pmm u) (u_fw u) (u_pmm u') (u_fw u')) claim_fail
    (claim_entries m u).
Proof.
  revert u. induction m as [|e m IH]; intros u Hwf Hp Hinv Hch; cbn [claim_entries].
  { apply claim_step_fw; try done. by intros a (x & Hx%not_elem_of_nil & _). }
  apply Forall_cons in Hwf as [(Hb & Hl & _) Hwf], Hp as [Hpe Hp].
  assert (forall u' : uefi, e_type e <> MEMMAP_USABLE \/ (i386 = true /\ 0x100000000 < e_top e) ->
    claim_step (entry_claimed m) (u_pmm u) (u_fw u) (u_pmm u') (u_fw u') ->
    claim_step (entry_claimed (e :: m)) (u_pmm u) (u_fw u) (u_pmm u') (u_fw u')) as Hskip.
  { intros u' Hs H. eapply claim_step_trans;
      [exact H|apply (claim_step_none 0); [apply (cs_inv _ _ _ _ _ H)|done]|].
    intros a. rewrite entry_claimed_cons_skip by done. unfold pages. split; [by left|]. intros [?|?]; [done|lia]. }
  case_if; [eapply res_post_mono; [by apply IH|intros u' Hu'; apply Hskip; auto|done]|].
  destruct (Hpe Hb0) as [Hok Hmod]. rewrite (proj2 (entry_top_Some e _) (conj eq_refl Hok)).
  case_if; [eapply res_post_mono; [by apply IH|intros u' Hu'; apply Hskip; auto|done]|].
  assert (e_length e = e_length e / PAGE_SIZE * PAGE_SIZE) as Hlen
    by (rewrite Z.mul_comm; by apply Z.div_exact).
  unfold entry_ok, e_top in Hok.
  eapply res_post_bind; [apply pmm_claim_uefi_pages_spec; try done; [lia|by apply Z.div_pos; [lia|]|lia]|].
  intros u1 [Hch1 H1]. eapply res_post_mono; [apply IH; try done; apply (cs_inv _ _ _ _ _ H1)| |done].
  intros u2 H2. eapply claim_step_trans; [exact H1|exact H2|]. intros a.
  unfold entry_claimed. setoid_rewrite elem_of_cons. unfold pages. rewrite <- Hlen.
  split.
  - intros (x & [->|Hx] & ? & Hc & ?); [left; exact Hc|right; by exists x].
  - intros [Hc|(x & ? & ?)]; [|exists x; auto]. exists e. split_and!; auto.
    intros Hi. rewrite Hi in *. cbn in Hb1. bool_hyps. lia.
Qed.
End Claim.
End Uefi.

(** ** Properties *)

(** Claiming the usable entries of the UEFI map: afterwards every address
    of a claimed entry that is still usable has been granted by the firmware;
    a usable address is lost only to the EFI type; no address becomes usable
    and no other type moves.  The search ends whatever the firmware answers. *)
Theorem claim_entries_sound max_entries i386 {fw : Type} (AllocatePages : fw -> Z -> Z -> bool * fw)
    (granted : fw -> Z -> Prop) (u : uefi (fw := fw)) :
  (forall f b n f', AllocatePages f b n = (false, f') ->
     forall a, b <= a < b + n * PAGE_SIZE -> granted f' a) ->
  (forall f b n s f' a, AllocatePages f b n = (s, f') -> granted f a -> granted f' a) ->
  pmm_inv max_entries (u_pmm u) -> 0 < uefi_alloc_chunk_pages u -> Forall whole_pages (memmap (u_pmm u)) ->
  let m := memmap (u_pmm u) in
  res_post (fun u' =>
      let m' := memmap (u_pmm u') in
      pmm_inv max_entries (u_pmm u') /\ ram (u_pmm u') = ram (u_pmm u) /\
      (forall a, usable_at m' a -> usable_at m a /\ (entry_claimed i386 m a -> granted (u_fw u') a)) /\
      (forall a, usable_at m a -> usable_at m' a \/ has_type m' MEMMAP_EFI_RECLAIMABLE a) /\
      (forall t a, t <> MEMMAP_USABLE -> t <> MEMMAP_EFI_RECLAIMABLE -> has_type m' t a <-> has_type m t a))
    (fun msg => msg = "Memory map exhausted."%string \/ msg = "Memory allocation failure."%string)
    (claim_entries max_entries i386 AllocatePages m u).
Proof.
  intros Hnew Hmono Hinv Hch Hwp m.
  destruct (cl_wf _ _ _ (sn_clean _ _ _ _ Hinv)) as [_ Hwf].
  eapply res_post_mono; [by eapply claim_entries_spec| |done].
  intros u' H. destruct (cs_rest _ _ _ _ _ _ _ H) as [m' Hm']. split_and!.
  - apply (cs_inv _ _ _ _ _ _ _ H).
  - by rewrite Hm'.
  - apply (cs_in _ _ _ _ _ _ _ H).
  - intros a Ha. destruct (cs_lost _ _ _ _ _ _ _ H a Ha) as [?|[_ ?]]; auto.
  - intros t a Ht Hne. split; [|by apply (cs_keep _ _ _ _ _ _ _ H)].
    intros Ha. by destruct (cs_types _ _ _ _ _ _ _ H t a Ht Ha) as [?|(_ & ? & _)].
Qed.

(** A firmware that grants a request unless it holds the page at [0x103000];
    its state is the list of what it granted. *)
Definition demo_fw (f : list (Z * Z)) (b n : Z) : bool * list (Z * Z) :=
  if (b <=? 0x103000) && (0x103000 <? b + n * 4096) then (true, f) else (false, (b, n) :: f).

Definition demo_granted (f : list (Z * Z)) (a : Z) : Prop :=
  exists r, r ∈ f /\ r.1 <= a < r.1 + r.2 * 4096.

Definition demo_uefi : uefi :=
  MkUefi (MkPmm [MkEntry 0x100000 0x8000 1] false false 4096 (fun _ => 0)) ([] : list (Z * Z))
    UEFI_ALLOC_MAX_PAGES.

Example claim_demo :
  match claim_entries 16 false demo_fw (memmap (u_pmm demo_uefi)) demo_uefi with
  | Ok u => (memmap (u_pmm u), u_fw u)
  | _ => ([], [])
  end = ([MkEntry 0x100000 0x3000 1; MkEntry 0x103000 0x1000 MEMMAP_EFI_RECLAIMABLE; MkEntry 0x104000 0x4000 1],
         [(0x107000, 1); (0x106000, 1); (0x105000, 1); (0x104000, 1); (0x102000, 1); (0x101000, 1); (0x100000, 1)]).
Proof. vm_compute. reflexivity. Qed.

Lemma demo_uefi_inv : pmm_inv 16 (u_pmm demo_uefi).
Proof. apply pmm_inv_check; [by apply map_wf_check|by vm_compute]. Qed.

Lemma entry_claimed_all m a : usable_at m a -> entry_claimed false m a.
Proof. intros (e & He & _ & Ht & Hc). by exists e. Qed.

Lemma claim_entries_sound_witness :
  exists u', claim_entries 16 false demo_fw (memmap (u_pmm demo_uefi)) demo_uefi = Ok u' /\
  forall a, usable_at (memmap (u_pmm u')) a -> demo_granted (u_fw u') a.
Proof.
  assert (match claim_entries 16 false demo_fw (memmap (u_pmm demo_uefi)) demo_uefi with
          Ok _ => true | _ => false end = true) as G by (vm_compute; reflexivity).
  epose proof (claim_entries_sound 16 false demo_fw demo_granted demo_uefi _ _ demo_uefi_inv eq_refl
    ltac:(constructor; [intros _; vm_compute; auto|constructor])) as H.
  cbn zeta in H. destruct (claim_entries 16 false demo_fw _ demo_uefi) as [u'|msg| |]; try discriminate G.
  exists u'. split; [reflexivity|]. destruct H as (_ & _ & H & _). intros a Ha.
  destruct (H a Ha) as [Hu Hg]. exact (Hg (entry_claimed_all _ _ Hu)).
  Unshelve.
  - unfold demo_fw. intros f b n f'. case_if; [done|]. intros [= <-] a Ha. exists (b, n). split; [by left|done].
  - unfold demo_fw, demo_granted. intros f b n s f' a. case_if; intros [= _ <-]; [done|].
    intros (r & Hr & Hc). exists r. split; [by right|done].
Defined.

(** [pmm_spare_firmware_stack] terminates, and afterwards no address from
    128 KiB below the firmware's stack pointer to 60 KiB above it is usable;
    the map is unchanged outside that window and no address becomes usable. *)
Theorem pmm_spare_firmware_stack_correct max_entries sp st :
  pmm_inv max_entries st -> 0 <= sp -> sp + 0x10000 < 2 ^ 64 ->
  res_post (fun st' => pmm_inv max_entries st' /\
      (forall a, sp - 0x20000 <= a < sp + 0xf000 -> 0 <= a -> ~ usable_at (memmap st') a) /\
      (forall a, a < sp - 0x21000 \/ sp + 0x10000 <= a ->
         forall t, has_type (memmap st') t a <-> has_type (memmap st) t a) /\
      (forall a, usable_at (memmap st') a -> usable_at (memmap st) a))
    (fun msg => msg = "Memory map exhausted."%string) (pmm_spare_firmware_stack max_entries sp st).
Proof.
  intros Hinv Hsp Hlim. unfold pmm_spare_firmware_stack.
  pose proof (align_down_spec sp PAGE_SIZE ltac:(done)) as Hd. unfold PAGE_SIZE in *.
  rewrite (proj2 (checked_add_Some 64 _ 0x10000 (ALIGN_DOWN sp 4096 + 0x10000))) by lia.
  set (bottom := if 0x20000 <? sp then _ else _).
  assert (0 <= bottom /\ bottom <= Z.max 0 (sp - 0x20000) /\ sp - 0x21000 <= bottom) as (Hb & Hb1 & Hb2).
  { unfold bottom. case_if; [|lia]. pose proof (align_down_spec (sp - 0x20000) 4096 ltac:(done)).
    pose proof (align_down_nonneg (sp - 0x20000) 4096). lia. }
  eapply res_post_mono; [apply spare_spec; [done|lia|done]| |done].
  intros st' [Hs Hno]. split_and!.
  - apply (sp_inv _ _ _ _ _ Hs).
  - intros a Ha Ha0. apply Hno. lia.
  - intros a Ha. apply (sp_out _ _ _ _ _ Hs). lia.
  - apply (sp_sub _ _ _ _ _ Hs).
Qed.

Lemma pmm_spare_firmware_stack_correct_witness :
  res_post (fun st' => ~ usable_at (memmap st') 0x102345) (fun _ => True)
    (pmm_spare_firmware_stack 16 0x103800 (u_pmm demo_uefi)).
Proof.
  eapply res_post_mono; [apply (pmm_spare_firmware_stack_correct 16 0x103800 (u_pmm demo_uefi) demo_uefi_inv); lia| |].
  - intros st' (_ & H & _). apply H; lia.
  - intros msg _. exact I.
Defined.

(** [pmm_reclaim_uefi_mem]: memory that was not left to the firmware keeps
    its type; memory that was gets the type of an EFI descriptor covering it or
    stays as it was, so that nothing becomes usable unless a descriptor of
    conventional memory (or, in the raw map, loader or boot services memory)
    covers it. *)
Theorem pmm_reclaim_uefi_mem_correct max_entries keep ds m raw :
  map_wf max_entries m ->
  Forall (fun d => 0 <= PhysicalStart d < 2 ^ 64 /\ 0 <= NumberOfPages d < 2 ^ 64) ds ->
  res_post (fun m' =>
      sanitised max_entries keep false m' /\
      (forall t a, has_type m' t a -> has_type m t a \/
         (has_type m MEMMAP_EFI_RECLAIMABLE a /\
          exists d, d ∈ ds /\ desc_covers d a /\ reclaim_type raw (d_type d) = t)) /\
      (forall t a, t <> MEMMAP_USABLE -> ~ has_type m MEMMAP_EFI_RECLAIMABLE a ->
         has_type m t a -> has_type m' t a))
    (fun msg => msg = "Memory map exhausted."%string \/ msg = "Memory allocation failure."%string \/
       msg = "pmm: Too many EFI reclaimable entries"%string)
    (pmm_reclaim_uefi_mem max_entries keep ds m raw).
Proof.
  intros Hwf Hds. unfold pmm_reclaim_uefi_mem. case_if; [by right; right|].
  eapply res_post_bind.
  { eapply res_post_mono; [apply (reclaim_all_spec max_entries keep raw ds Hds m)|intros x Hx; exact Hx|].
    - intros r Hr. apply list_elem_of_In, filter_In in Hr as [Hr Ht]. bool_hyps.
      apply list_elem_of_In in Hr. split_and!; [done| |done]. destruct Hwf as [_ Hwf].
      rewrite Forall_forall in Hwf. by apply Hwf.
    - split; [done|auto|auto].
    - intros msg [?|?]; auto. }
  intros m1 Hm1. eapply res_post_mono; [apply pmm_sanitise_entries_spec, (rt_wf _ _ _ _ _ Hm1)| |by left].
  intros m' [Hs Hsm]. split_and!; [done| |].
  - intros t a Ha. apply (rt_sound _ _ _ _ _ Hm1). destruct (decide (t = MEMMAP_USABLE)) as [->|Hne].
    + by destruct (sm_sound _ _ _ _ Hsm a Ha) as [[? _] _].
    + by apply (sm_other _ _ _ _ Hsm).
  - intros t a Hne Hno Ha. apply (sm_other _ _ _ _ Hsm); [done|]. by apply (rt_keep _ _ _ _ _ Hm1).
Qed.

Definition demo_descs : list efi_desc :=
  [MkDesc EfiConventionalMemory 0x1000 4; MkDesc 6 0x5000 2; MkDesc EfiBootServicesData 0x7000 9].

Example reclaim_demo :
  pmm_reclaim_uefi_mem 16 false demo_descs [MkEntry 0x2000 0x8000 MEMMAP_EFI_RECLAIMABLE] false
  = Ok [MkEntry 0x2000 0x3000 MEMMAP_USABLE; MkEntry 0x5000 0x2000 MEMMAP_RESERVED;
        MkEntry 0x7000 0x3000 MEMMAP_BOOTLOADER_RECLAIMABLE].
Proof. vm_compute. reflexivity. Qed.

Lemma pmm_reclaim_uefi_mem_correct_witness :
  res_post (fun m' => sanitised 16 false false m') (fun _ => True)
    (pmm_reclaim_uefi_mem 16 false demo_descs [MkEntry 0x2000 0x8000 MEMMAP_EFI_RECLAIMABLE] false).
Proof.
  eapply res_post_mono; [apply (pmm_reclaim_uefi_mem_correct 16 false demo_descs
    [MkEntry 0x2000 0x8000 MEMMAP_EFI_RECLAIMABLE] false)| |].
  - by apply map_wf_check.
  - repeat constructor; cbn; lia.
  - intros m' [H _]. exact H.
  - intros msg _. exact I.
Defined.
