(* ===== verification/Elsewhere.v ===== *)
(** * Placing the pieces of a kernel and its modules: [common/lib/elsewhere.c]

    A boot protocol that hands memory over at fixed addresses stages each
    piece (kernel, module, information structure) in a block of its own and
    records where it has to be copied at the very end.  [elsewhere_append]
    chooses the target address of a piece: it walks the address space upwards,
    past the targets and the sources recorded so far and over memory that does
    not exist, wrapping around once where the caller allows it, and reserves
    what it finds.  The search gives up after [0x10000] turns. *)

From S2P Require Import Prelude CInt Memmap MemmapSem Separate Sanitise RangeAlloc Pmm PmmFacts.

Record elsewhere_range := MkRange {
  r_elsewhere : Z;
  r_target : Z;
  r_length : Z;
}.

Definition elsewhere_overlap_check (base1 top1 base2 top2 : Z) : bool :=
  (base1 <? top2) && (base2 <? top1).

Definition elsewhere_memmap_type (type : Z) : bool :=
  (type =? MEMMAP_USABLE) || (type =? MEMMAP_BOOTLOADER_RECLAIMABLE).

(** One turn of the loop over the map: the best candidate so far. *)
Definition candidate_entry (target length : Z) (best : Z) (e : memmap_entry) : Z :=
  if negb (elsewhere_memmap_type (e_type e)) then best
  else
    match entry_top e with
    | None => best
    | Some top =>
        let base := e_base e in
        if 0x100000000 <=? base then best
        else
          let top := if 0x100000000 <? top then 0x100000000 else top in
          if top <=? target then best
          else if target <? base then
            if u64 (top - base) <? length then best
            else if base <? best then base else best
          else if top <? best then top else best
    end.

Definition elsewhere_next_memmap_candidate (m : list memmap_entry) (target length : Z) : option Z :=
  let best := foldl (candidate_entry target length) UINT64_MAX m in
  if best =? UINT64_MAX then None else ALIGN_UP best 4096.

(** How the body of the loop over the ranges is left: on to the next range,
    [goto retry] with a new target, or [return false]. *)
Inductive range_exit :=
| Pass
| Retry (wrapped : bool) (target : Z)
| Fail.

Definition retry_at (wrapped : bool) (o : option Z) : range_exit :=
  match o with Some target => Retry wrapped target | None => Fail end.

(** Searching from low memory, once. *)
Definition wrap_around (allow_wraparound wrapped : bool) : range_exit :=
  if allow_wraparound && negb wrapped then Retry true 0x100000 else Fail.

Section Elsewhere.
Variable max_entries : nat.

(** The memory is there: usable or the bootloader's own.  A simulated call
    leaves the map as it is. *)
Definition target_exists (st : pmm) (target t_length : Z) : res bool :=
  let! (ok, _) := memmap_alloc_range max_entries st target t_length MEMMAP_BOOTLOADER_RECLAIMABLE
                    MEMMAP_USABLE false true false in
  if ok : bool then Ok true
  else
    let! (ok, _) := memmap_alloc_range max_entries st target t_length MEMMAP_BOOTLOADER_RECLAIMABLE
                      MEMMAP_BOOTLOADER_RECLAIMABLE false true false in
    Ok ok.

Definition check_range (st : pmm) (allow_wraparound wrapped : bool) (target t_length : Z)
    (r : elsewhere_range) : res range_exit :=
  match CHECKED_ADD target t_length with
  | None => Ok Fail
  | Some t_top =>
      if 0x100000000 <? t_top then Ok (wrap_around allow_wraparound wrapped)
      else
        match CHECKED_ADD (r_target r) (r_length r) with
        | None => Ok Pass
        | Some top =>
            if elsewhere_overlap_check (r_target r) top target t_top
            then Ok (retry_at wrapped (ALIGN_UP top 4096))
            else
              match CHECKED_ADD (r_elsewhere r) (r_length r) with
              | None => Ok Pass
              | Some top =>
                  if elsewhere_overlap_check (r_elsewhere r) top target t_top
                  then Ok (retry_at wrapped (ALIGN_UP top 4096))
                  else
                    let! ok := target_exists st target t_length in
                    if ok : bool then Ok Pass
                    else
                      match elsewhere_next_memmap_candidate (memmap st) target t_length with
                      | None => Ok (wrap_around allow_wraparound wrapped)
                      | Some next_target => Ok (Retry wrapped next_target)
                      end
              end
        end
  end.

Fixpoint check_ranges (st : pmm) (allow_wraparound wrapped : bool) (target t_length : Z)
    (ranges : list elsewhere_range) : res range_exit :=
  match ranges with
  | [] => Ok Pass
  | r :: rest =>
      let! x := check_range st allow_wraparound wrapped target t_length r in
      match x with
      | Pass => check_ranges st allow_wraparound wrapped target t_length rest
      | _ => Ok x
      end
  end.

(** The code from the label [retry] to the end of the loop over the ranges:
    whether a target was found, and [*target] as it is left. *)
Fixpoint search (max_retries : nat) (st : pmm) (allow_wraparound wrapped : bool)
    (target t_length : Z) (ranges : list elsewhere_range) : res (bool * Z) :=
  match max_retries with
  | O => Ok (false, target)
  | S max_retries =>
      let! x := check_ranges st allow_wraparound wrapped target t_length ranges in
      match x with
      | Pass => Ok (true, target)
      | Retry wrapped target => search max_retries st allow_wraparound wrapped target t_length ranges
      | Fail => Ok (false, target)
      end
  end.

(** ** [elsewhere_reserve_target] *)
Definition part_of (base top : Z) (e : memmap_entry) : option (Z * Z) :=
  if negb (e_type e =? MEMMAP_USABLE) then None
  else
    match entry_top e with
    | None => None
    | Some e_top =>
        let o_base := if e_base e <? base then base else e_base e in
        let o_top := if top <? e_top then top else e_top in
        if o_base <? o_top then Some (o_base, u64 (o_top - o_base)) else None
    end.

Fixpoint reserve_parts (st : pmm) (parts : list (Z * Z)) : res pmm :=
  match parts with
  | [] => Ok st
  | (b, l) :: rest =>
      let! (_, st) := memmap_alloc_range max_entries st b l MEMMAP_BOOTLOADER_RECLAIMABLE
                        MEMMAP_USABLE false false false in
      reserve_parts st rest
  end.

Definition elsewhere_reserve_target (st : pmm) (base length : Z) : res pmm :=
  match CHECKED_ADD base length with
  | None => Ok st
  | Some top => reserve_parts st (take 64 (omap (part_of base top) (memmap st)))
  end.

(** ** [elsewhere_append] *)
Definition ranges_top (ranges : list elsewhere_range) : Z :=
  foldl (fun top r => match CHECKED_ADD (r_target r) (r_length r) with
                      | None => top
                      | Some r_top => if top <? r_top then r_top else top
                      end) 0 ranges.

Definition initial_target (ranges : list elsewhere_range) (target : Z) : option Z :=
  if target =? UINT64_MAX then ALIGN_UP (ranges_top ranges) 4096 else Some target.

(** The flag returned, [*target], the array of ranges and the allocator. *)
Definition elsewhere_append (st : pmm) (allow_wraparound : bool) (ranges : list elsewhere_range)
    (ranges_max : nat) (elsewhere target t_length : Z)
    : res (bool * Z * list elsewhere_range * pmm) :=
  match initial_target ranges target with
  | None => Ok (false, target, ranges, st)
  | Some target =>
      let! (found, target) := search (N.to_nat 0x10000) st allow_wraparound false target t_length ranges in
      if negb found then Ok (false, target, ranges, st)
      else
        let! st := elsewhere_reserve_target st target t_length in
        if (ranges_max <=? length ranges)%nat then Panic "elsewhere: ranges array overflow"
        else Ok (true, target, ranges ++ [MkRange elsewhere target t_length], st)
  end.
End Elsewhere.

(** * Correctness of the placement of boot pieces

    A target found by [elsewhere_append] lies below 4 GiB in memory that
    exists, meets no target and no source recorded before it, and is no longer
    available to the allocator afterwards; so a block staged later cannot lie
    on it. *)
(** ** The predicates of the contract *)
Definition disjoint (b1 t1 b2 t2 : Z) : Prop := forall a, ~ (inside b1 t1 a /\ inside b2 t2 a).

Definition range_ok (r : elsewhere_range) : Prop :=
  0 <= r_elsewhere r /\ 0 <= r_target r /\ 0 <= r_length r /\
  r_elsewhere r + r_length r < 2 ^ 64 /\ r_target r + r_length r < 2 ^ 64.

(** Copying a piece to the target touches neither end of the range's copy. *)
Definition clear_of (target t_length : Z) (r : elsewhere_range) : Prop :=
  disjoint (r_target r) (r_target r + r_length r) target (target + t_length) /\
  disjoint (r_elsewhere r) (r_elsewhere r + r_length r) target (target + t_length).

(** One entry of usable or bootloader memory holds the whole target. *)
Definition backed (m : list memmap_entry) (target t_length : Z) : Prop :=
  t_length = 0 \/ available m MEMMAP_USABLE target (target + t_length) \/
  available m MEMMAP_BOOTLOADER_RECLAIMABLE target (target + t_length).

Definition good_target (m : list memmap_entry) (ranges : list elsewhere_range)
    (target t_length : Z) : Prop :=
  0 <= target /\ target + t_length <= 0x100000000 /\
  Forall (clear_of target t_length) ranges /\ backed m target t_length.

(** The usable part of [target, target + t_length) became the bootloader's. *)
Record target_reserved (m m' : list memmap_entry) (target t_length : Z) : Prop := {
  tr_gone : forall a, inside target (target + t_length) a -> ~ usable_at m' a;
  tr_usable : forall a, ~ inside target (target + t_length) a -> usable_at m' a <-> usable_at m a;
  tr_other : forall t a, t <> MEMMAP_USABLE -> has_type m' t a <->
    has_type m t a \/ (t = MEMMAP_BOOTLOADER_RECLAIMABLE /\ inside target (target + t_length) a
                       /\ usable_at m a);
}.

Lemma overlap_check_false b1 t1 b2 t2 :
  elsewhere_overlap_check b1 t1 b2 t2 = false -> disjoint b1 t1 b2 t2.
Proof. unfold elsewhere_overlap_check, disjoint, inside. intros H a. bool_cases; lia. Qed.

Lemma overlap_check_empty b1 t1 b2 t2 :
  b1 < t1 -> b2 < t2 -> disjoint b1 t1 b2 t2 -> elsewhere_overlap_check b1 t1 b2 t2 = false.
Proof.
  unfold elsewhere_overlap_check, disjoint, inside. intros ? ? H.
  destruct ((b1 <? t2) && (b2 <? t1)) eqn:E; [|done]. bool_hyps.
  destruct (H (Z.max b1 b2)). lia.
Qed.

Section Correct.
Variable max_entries : nat.

(** ** The existence test *)
Lemma simulated_range st target t_length overlay :
  0 <= target -> 0 <= t_length -> target + t_length < 2 ^ 64 ->
  exists b, memmap_alloc_range max_entries st target t_length MEMMAP_BOOTLOADER_RECLAIMABLE
              overlay false true false = Ok (b, st) /\
  (b = true <-> t_length = 0 \/ available (memmap st) overlay target (target + t_length)).
Proof.
  intros Ht Hl Htop. unfold memmap_alloc_range, memmap_alloc_range_in.
  assert (forall b : bool, Ok (b, with_memmap st (memmap st)) = Ok (b, st)) as Hst by (by destruct st).
  destruct (decide (t_length = 0)) as [->|Hne].
  - exists true. cbn. rewrite Hst. split; [done|tauto].
  - rewrite (proj2 (Z.eqb_neq _ _)) by done. cbn [andb].
    rewrite (proj2 (checked_add_Some 64 target t_length _) (conj eq_refl Htop)).
    pose proof (existsb_available (memmap st) overlay target (target + t_length) ltac:(lia)) as Hav.
    destruct (existsb _ _); cbn [negb andb rbind]; rewrite Hst; eexists; (split; [done|]);
      (split; [|by intros [?|?%Hav]]); [|done]. intros _. right. by apply Hav.
Qed.

Lemma target_exists_spec st target t_length :
  0 <= target -> 0 <= t_length -> target + t_length < 2 ^ 64 ->
  exists b, target_exists max_entries st target t_length = Ok b /\
            (b = true <-> backed (memmap st) target t_length).
Proof.
  intros Ht Hl Htop. unfold target_exists, backed.
  destruct (simulated_range st target t_length MEMMAP_USABLE Ht Hl Htop) as (b1 & -> & H1).
  destruct (simulated_range st target t_length MEMMAP_BOOTLOADER_RECLAIMABLE Ht Hl Htop) as (b2 & E2 & H2).
  cbn [rbind]. destruct b1; [exists true; tauto|]. rewrite E2. cbn [rbind].
  exists b2. split; [done|]. rewrite H2. intuition congruence.
Qed.

(** ** The candidates *)
Lemma foldl_candidate_bound m target t_length best :
  Forall entry_wf m -> 0 <= best <= UINT64_MAX ->
  0 <= foldl (candidate_entry target t_length) best m <= UINT64_MAX.
Proof.
  intros Hwf. revert best. induction Hwf as [|e m (He & Hl & _) Hm IH]; intros best Hb; [done|].
  cbn [foldl]. apply IH. unfold candidate_entry. case_if; [done|].
  destruct (entry_top e) as [t|] eqn:Et; [apply entry_top_Some in Et as [-> Hok]|done].
  unfold entry_ok, e_top, UINT64_MAX in *. repeat case_if; try done; lia.
Qed.

Lemma next_candidate_range m target t_length c :
  Forall entry_wf m -> elsewhere_next_memmap_candidate m target t_length = Some c -> 0 <= c < 2 ^ 64.
Proof.
  intros Hwf. unfold elsewhere_next_memmap_candidate. case_if; [done|].
  pose proof (foldl_candidate_bound m target t_length UINT64_MAX Hwf ltac:(unfold UINT64_MAX; lia)).
  intros Hc. apply align_up_Some in Hc; lia.
Qed.

(** ** One turn *)
Definition exit_ok (P : Prop) (x : range_exit) : Prop :=
  match x with
  | Pass => P
  | Retry _ target => 0 <= target < 2 ^ 64
  | Fail => True
  end.

Lemma retry_at_ok P wrapped top :
  0 <= top -> exit_ok P (retry_at wrapped (ALIGN_UP top 4096)).
Proof.
  intros H. destruct (ALIGN_UP top 4096) eqn:E; cbn; [|done]. apply align_up_Some in E; lia.
Qed.

Lemma wrap_around_ok P allow wrapped : exit_ok P (wrap_around allow wrapped).
Proof. unfold wrap_around. case_if; cbn; [lia|done]. Qed.

Lemma check_range_spec st allow wrapped target t_length r :
  pmm_inv max_entries st -> range_ok r -> 0 <= target < 2 ^ 64 -> 0 <= t_length ->
  exists x, check_range max_entries st allow wrapped target t_length r = Ok x /\
  exit_ok (target + t_length <= 0x100000000 /\ clear_of target t_length r /\
           backed (memmap st) target t_length) x.
Proof.
  intros Hinv (He & Ht & Hl & Het & Htt) Htg Hlen. unfold check_range.
  destruct (sanitised_wf _ _ _ _ Hinv) as [_ Hwf].
  destruct (CHECKED_ADD target t_length) as [t_top|] eqn:E; [|by eexists].
  apply checked_add_Some in E as [-> E]. case_if; [eexists; split; [done|apply wrap_around_ok]|].
  rewrite (proj2 (checked_add_Some 64 (r_target r) _ _) (conj eq_refl Htt)).
  destruct (elsewhere_overlap_check (r_target r) _ _ _) eqn:O1;
    [eexists; split; [done|apply retry_at_ok; lia]|].
  rewrite (proj2 (checked_add_Some 64 (r_elsewhere r) _ _) (conj eq_refl Het)).
  destruct (elsewhere_overlap_check (r_elsewhere r) _ _ _) eqn:O2;
    [eexists; split; [done|apply retry_at_ok; lia]|].
  apply overlap_check_false in O1, O2.
  destruct (target_exists_spec st target t_length ltac:(lia) Hlen E) as (b & -> & Hbk).
  cbn [rbind]. destruct b.
  - eexists. split; [done|]. cbn. split; [lia|]. split; [done|]. by apply Hbk.
  - destruct (elsewhere_next_memmap_candidate _ _ _) eqn:En; eexists; (split; [done|]).
    + by eapply next_candidate_range.
    + apply wrap_around_ok.
Qed.

Lemma check_ranges_spec st allow wrapped target t_length ranges :
  pmm_inv max_entries st -> Forall range_ok ranges -> ranges <> [] ->
  0 <= target < 2 ^ 64 -> 0 <= t_length ->
  exists x, check_ranges max_entries st allow wrapped target t_length ranges = Ok x /\
  exit_ok (good_target (memmap st) ranges target t_length) x.
Proof.
  intros Hinv Hok. induction Hok as [|r ranges Hr Hok IH]; [done|]. intros _ Htg Hlen. cbn.
  destruct (check_range_spec st allow wrapped target t_length r Hinv Hr Htg Hlen) as (x & -> & Hx).
  cbn [rbind]. destruct x; [|by eexists..].
  destruct Hx as (Htop & Hcl & Hbk). destruct ranges as [|r' ranges].
  - eexists. split; [done|]. cbn. unfold good_target. split_and!; [lia|done|by constructor|done].
  - destruct (IH ltac:(done) Htg Hlen) as (x & -> & Hx). exists x. split; [done|].
    destruct x; [|done..]. destruct Hx as (? & ? & ? & ?). unfold good_target. cbn.
    split_and!; [done|done|by constructor|done].
Qed.

(** ** The search *)
Lemma search_spec n st allow wrapped target t_length ranges :
  pmm_inv max_entries st -> Forall range_ok ranges -> ranges <> [] ->
  0 <= target < 2 ^ 64 -> 0 <= t_length ->
  exists b target', search max_entries n st allow wrapped target t_length ranges = Ok (b, target') /\
  (b = true -> good_target (memmap st) ranges target' t_length).
Proof.
  intros Hinv Hok Hne Htg Hlen. revert wrapped target Htg.
  induction n as [|n IH]; intros wrapped target Htg; [by exists false, target|]. cbn [search].
  destruct (check_ranges_spec st allow wrapped target t_length ranges Hinv Hok Hne Htg Hlen) as (x & -> & Hx).
  cbn [rbind]. destruct x; [by exists true, target|by apply IH|by exists false, target].
Qed.

(** ** The reservation *)
Lemma usable_entry_unique st e1 e2 a :
  pmm_inv max_entries st -> e1 ∈ memmap st -> e2 ∈ memmap st ->
  e_type e1 = MEMMAP_USABLE -> entry_ok e1 -> entry_ok e2 -> covers e1 a -> covers e2 a -> e1 = e2.
Proof.
  intros Hinv H1 H2 Ht Hok1 Hok2 Hc1 Hc2.
  pose proof (cl_apart _ _ _ (sn_clean _ _ _ _ Hinv)) as Hap.
  apply list_elem_of_lookup in H1 as [i Hi], H2 as [j Hj].
  destruct (decide (i = j)) as [->|Hne]; [congruence|]. exfalso.
  destruct (decide (i < j)%nat).
  - by apply (ForallOrdPairs_lookup_inv _ _ i j e1 e2 Hap ltac:(lia) Hi Hj Hok1 Hok2 (or_introl Ht) a).
  - by apply (ForallOrdPairs_lookup_inv _ _ j i e2 e1 Hap ltac:(lia) Hj Hi Hok2 Hok1 (or_intror Ht) a).
Qed.

Lemma part_of_spec base top e p :
  entry_wf e -> 0 <= base -> part_of base top e = Some p ->
  e_type e = MEMMAP_USABLE /\ entry_ok e /\ 0 < p.2 /\ 0 <= p.1 /\
  p.1 = Z.max base (e_base e) /\ p.1 + p.2 = Z.min top (e_top e).
Proof.
  intros (Heb & Hl & _) Hbase. unfold part_of. case_if; [done|].
  destruct (entry_top e) as [t|] eqn:Et; [apply entry_top_Some in Et as [-> Hok]|done].
  unfold entry_ok in *.
  destruct (e_base e <? base) eqn:E1, (top <? e_top e) eqn:E2; bool_hyps; case_if; try done;
    intros [= <-]; cbn [fst snd]; rewrite wrap_small by lia; split_and!; try done; lia.
Qed.

Lemma part_of_None base top e a :
  part_of base top e = None -> entry_ok e -> e_type e = MEMMAP_USABLE -> inside base top a -> ~ covers e a.
Proof.
  unfold part_of. intros H Hok Ht. rewrite Ht in H. cbn in H.
  rewrite (proj2 (entry_top_Some e _) (conj eq_refl Hok)) in H.
  unfold inside, covers. revert H.
  destruct (e_base e <? base) eqn:E1, (top <? e_top e) eqn:E2; bool_hyps; case_if; try done; lia.
Qed.

Lemma omap_nil {A B} (f : A -> option B) l : (forall x, x ∈ l -> f x = None) -> omap f l = [].
Proof.
  induction l as [|x l IH]; intros H; [done|]. cbn. rewrite (H x) by apply list_elem_of_here.
  apply IH. intros y Hy. apply H. by apply list_elem_of_further.
Qed.

(** Only the entry that holds the target can have a part in it. *)
Lemma parts_usable st target t_length :
  pmm_inv max_entries st -> 0 <= target -> 0 < t_length ->
  available (memmap st) MEMMAP_USABLE target (target + t_length) ->
  omap (part_of target (target + t_length)) (memmap st) = [(target, t_length)].
Proof.
  intros Hinv Ht Hl (e & He & [?|Hty] & Hok & Hb & Htop); [done|].
  destruct (sanitised_wf _ _ _ _ Hinv) as [_ Hwf]. rewrite Forall_forall in Hwf.
  pose proof (cl_apart _ _ _ (sn_clean _ _ _ _ Hinv)) as Hap.
  apply list_elem_of_lookup in He as [i Hi]. 
  assert (forall j e', j <> i -> memmap st !! j = Some e' ->
    part_of target (target + t_length) e' = None) as Hother.
  { intros j e' Hne Hj. destruct (part_of _ _ e') as [p|] eqn:Ep; [|done]. exfalso.
    apply part_of_spec in Ep as (Hty' & Hok' & Hp2 & Hp1 & E1 & E2);
      [|by apply Hwf; eapply list_elem_of_lookup_2|done].
    assert (covers e p.1 /\ covers e' p.1) as [? ?] by (unfold covers; lia).
    destruct (decide (i < j)%nat).
    - by apply (ForallOrdPairs_lookup_inv _ _ i j e e' Hap ltac:(lia) Hi Hj Hok Hok' (or_introl Hty) p.1).
    - by apply (ForallOrdPairs_lookup_inv _ _ j i e' e Hap ltac:(lia) Hj Hi Hok' Hok (or_intror Hty) p.1). }
  assert (part_of target (target + t_length) e = Some (target, t_length)) as Hself.
  { unfold part_of, entry_ok in *. rewrite Hty. cbn [negb Z.eqb Pos.eqb].
    change (MEMMAP_USABLE =? MEMMAP_USABLE) with true. cbn [negb].
    rewrite (proj2 (entry_top_Some e _) (conj eq_refl Hok)).
    replace (if e_base e <? target then target else e_base e) with target by (case_if; lia).
    replace (if target + t_length <? e_top e then target + t_length else e_top e)
      with (target + t_length) by (case_if; lia).
    rewrite (proj2 (Z.ltb_lt _ _)) by lia. rewrite wrap_small by lia. do 2 f_equal. lia. }
  rewrite <- (take_drop_middle _ _ _ Hi), omap_app. cbn. rewrite Hself.
  pose proof (lookup_lt_Some _ _ _ Hi) as Hlt.
  rewrite !omap_nil; [done|..]; intros e' He'; apply list_elem_of_lookup in He' as [j Hj].
  - rewrite lookup_drop in Hj. eapply (Hother (S i + j)%nat); [lia|done].
  - apply lookup_take_Some in Hj as [Hj ?]. apply (Hother j); [lia|done].
Qed.

Lemma parts_claimed st target t_length :
  pmm_inv max_entries st -> 0 <= target ->
  available (memmap st) MEMMAP_BOOTLOADER_RECLAIMABLE target (target + t_length) ->
  omap (part_of target (target + t_length)) (memmap st) = [].
Proof.
  intros Hinv Ht (e & He & [?|Hty] & Hok & Hb & Htop); [done|].
  destruct (sanitised_wf _ _ _ _ Hinv) as [_ Hwf]. rewrite Forall_forall in Hwf.
  apply omap_nil. intros e' He'. destruct (part_of _ _ e') as [p|] eqn:Ep; [|done]. exfalso.
  apply part_of_spec in Ep as (Hty' & Hok' & ? & ? & ? & ?); [|by apply Hwf|done].
  assert (e' = e) by (apply (usable_entry_unique st e' e p.1 Hinv); try done; unfold covers; lia).
  subst e'. by rewrite Hty in Hty'.
Qed.

Lemma parts_empty st target :
  pmm_inv max_entries st -> 0 <= target -> omap (part_of target (target + 0)) (memmap st) = [].
Proof.
  intros Hinv Ht. destruct (sanitised_wf _ _ _ _ Hinv) as [_ Hwf]. rewrite Forall_forall in Hwf.
  apply omap_nil. intros e He. destruct (part_of _ _ e) as [p|] eqn:Ep; [|done].
  apply part_of_spec in Ep; [lia|by apply Hwf|done].
Qed.

Lemma target_reserved_refl st target t_length :
  pmm_inv max_entries st -> 0 <= target ->
  (t_length = 0 \/ available (memmap st) MEMMAP_BOOTLOADER_RECLAIMABLE target (target + t_length)) ->
  target_reserved (memmap st) (memmap st) target t_length.
Proof.
  intros Hinv Ht Hor.
  assert (forall a, inside target (target + t_length) a -> ~ usable_at (memmap st) a) as Hno.
  { intros a Ha (e' & He' & Hok' & Hty' & Hc'). destruct Hor as [->|(e & He & [?|Hty] & Hok & Hb & Htop)];
      [unfold inside in *; lia|done|].
    assert (e' = e) by (apply (usable_entry_unique st e' e a Hinv); try done; unfold covers, inside in *; lia).
    subst e'. by rewrite Hty in Hty'. }
  split; [done|done|]. intros t a _. split; [auto|]. intros [?|(_ & Ha & Hu)]; [done|]. by destruct (Hno a Ha).
Qed.

Lemma reserve_target_spec st target t_length :
  pmm_inv max_entries st -> 0 <= target -> 0 <= t_length -> target + t_length < 2 ^ 64 ->
  backed (memmap st) target t_length ->
  res_post (fun st' => pmm_inv max_entries st' /\ target_reserved (memmap st) (memmap st') target t_length /\
                       exists m, st' = with_memmap st m)
    exhausted (elsewhere_reserve_target max_entries st target t_length).
Proof.
  intros Hinv Ht Hl Htop Hbk. unfold elsewhere_reserve_target.
  rewrite (proj2 (checked_add_Some 64 target t_length _) (conj eq_refl Htop)).
  assert (st = with_memmap st (memmap st)) as Hst by (by destruct st).
  destruct (decide (t_length = 0)) as [->|Hne].
  { rewrite parts_empty by done. cbn. split_and!; [done| |by eexists]. apply target_reserved_refl; auto. }
  destruct Hbk as [?|[Hav|Hav]]; [done| |].
  - rewrite parts_usable by (done || lia). cbn [take reserve_parts].
    eapply res_post_bind.
    + eapply res_post_mono; [apply (memmap_alloc_range_post max_entries st target t_length
        MEMMAP_BOOTLOADER_RECLAIMABLE false Hinv); lia|intros r Hr; exact Hr|].
      by intros msg [?|(_ & ? & _)].
    + intros [ok st1] [(_ & _ & m1 & Hst1 & Hr)|(_ & _ & Hn)]; [|done]. cbn [fst snd] in *. subst st1.
      cbn [res_post]. split_and!; [apply (rs_sanitised _ _ _ _ _ _ _ Hr)| |by eexists].
      pose proof (fun a => available_usable _ _ _ a Hav) as Hfresh. split; cbn [memmap with_memmap].
      * intros a Ha Hu. apply (rs_usable _ _ _ _ _ _ _ Hr) in Hu as [_ [[_ ?]|[? _]]]; done.
      * intros a Ha. rewrite (rs_usable _ _ _ _ _ _ _ Hr), (sanitised_usable _ _ _ _ a Hinv). tauto.
      * intros t a Hne'. rewrite (rs_other _ _ _ _ _ _ _ Hr) by done.
        destruct (decide (inside target (target + t_length) a)) as [Ha|Ha]; [|tauto].
        assert (~ has_type (memmap st) t a).
        { intros Hh. apply (clean_free _ _ _ a (sn_clean _ _ _ _ Hinv) (Hfresh a Ha)). by exists t. }
        specialize (Hfresh a Ha). tauto.
  - rewrite parts_claimed by done. cbn. split_and!; [done| |by eexists]. apply target_reserved_refl; auto.
Qed.

(** ** [elsewhere_append] *)
Lemma ranges_top_bound ranges top :
  Forall range_ok ranges -> 0 <= top ->
  0 <= foldl (fun top r => match CHECKED_ADD (r_target r) (r_length r) with
                           | None => top
                           | Some r_top => if top <? r_top then r_top else top
                           end) top ranges.
Proof.
  intros Hok. revert top. induction Hok as [|r ranges (? & ? & ? & ? & ?) Hok IH]; intros top Htop; [done|].
  cbn [foldl]. apply IH. rewrite (proj2 (checked_add_Some 64 (r_target r) _ _) (conj eq_refl H3)).
  case_if; lia.
Qed.

Lemma initial_target_range ranges target t :
  Forall range_ok ranges -> 0 <= target < 2 ^ 64 -> initial_target ranges target = Some t -> 0 <= t < 2 ^ 64.
Proof.
  intros Hok Ht. unfold initial_target. case_if; [|by intros [= <-]].
  pose proof (ranges_top_bound ranges 0 Hok ltac:(lia)). intros E. unfold ranges_top in E. apply align_up_Some in E; lia.
Qed.

(** What a call promises: flag, target, ranges and allocator. *)
Definition append_post (st : pmm) (ranges : list elsewhere_range) (ranges_max : nat)
    (elsewhere t_length : Z) (r : bool * Z * list elsewhere_range * pmm) : Prop :=
  let '(ok, target, ranges', st') := r in
  if ok : bool then
    good_target (memmap st) ranges target t_length /\
    (length ranges < ranges_max)%nat /\ ranges' = ranges ++ [MkRange elsewhere target t_length] /\
    pmm_inv max_entries st' /\ target_reserved (memmap st) (memmap st') target t_length /\
    exists m, st' = with_memmap st m
  else ranges' = ranges /\ st' = st.

Lemma elsewhere_append_spec st allow ranges ranges_max elsewhere target t_length :
  pmm_inv max_entries st -> Forall range_ok ranges -> ranges <> [] ->
  0 <= target < 2 ^ 64 -> 0 <= t_length ->
  res_post (append_post st ranges ranges_max elsewhere t_length)
    (fun msg => exhausted msg \/
       (msg = "elsewhere: ranges array overflow"%string /\ (ranges_max <= length ranges)%nat))
    (elsewhere_append max_entries st allow ranges ranges_max elsewhere target t_length).
Proof.
  intros Hinv Hok Hne Htg Hlen. unfold elsewhere_append.
  destruct (initial_target ranges target) as [t|] eqn:Et; [|done].
  apply initial_target_range in Et; [|done..].
  destruct (search_spec (N.to_nat 0x10000) st allow false t t_length ranges Hinv Hok Hne Et Hlen)
    as (b & t' & -> & Hgood).
  cbn [rbind]. destruct b; cbn [negb]; [|done].
  pose proof (Hgood eq_refl) as (Ht0 & Ht1 & Hcl & Hbk).
  eapply res_post_bind.
  - eapply res_post_mono; [by apply (reserve_target_spec st t' t_length); [|lia..|]|intros x Hx; exact Hx|by left].
  - intros st' (Hinv' & Hres & Hm). destruct (ranges_max <=? length ranges)%nat eqn:Hmax; bool_hyps.
    + by right.
    + cbn. split_and!; auto.
Qed.

(** A request that is already good is granted as it stands. *)
Lemma check_ranges_good st allow wrapped target t_length ranges :
  Forall range_ok ranges -> Forall (fun r => 0 < r_length r) ranges -> 0 < t_length ->
  good_target (memmap st) ranges target t_length ->
  check_ranges max_entries st allow wrapped target t_length ranges = Ok Pass.
Proof.
  intros Hok Hpos Hlen (Ht & Htop & Hcl & Hbk). induction Hcl as [|r ranges [Hc1 Hc2] Hcl IH]; [done|].
  apply Forall_cons in Hok as [(? & ? & ? & Hs & Hg) Hok], Hpos as [? Hpos]. cbn. unfold check_range.
  rewrite (proj2 (checked_add_Some 64 target t_length (target + t_length))) by lia.
  rewrite (proj2 (Z.ltb_ge _ _)) by lia.
  rewrite (proj2 (checked_add_Some 64 (r_target r) _ _) (conj eq_refl Hg)).
  rewrite overlap_check_empty by (done || lia).
  rewrite (proj2 (checked_add_Some 64 (r_elsewhere r) _ _) (conj eq_refl Hs)).
  rewrite overlap_check_empty by (done || lia).
  destruct (target_exists_spec st target t_length ltac:(lia) ltac:(lia) ltac:(lia)) as (b & -> & Hb).
  rewrite (proj2 Hb Hbk). cbn [rbind]. by apply IH.
Qed.

Lemma append_keeps_good st allow ranges ranges_max elsewhere target t_length r :
  Forall range_ok ranges -> Forall (fun r => 0 < r_length r) ranges -> 0 < t_length ->
  good_target (memmap st) ranges target t_length ->
  elsewhere_append max_entries st allow ranges ranges_max elsewhere target t_length = Ok r ->
  r.1.1 = (true, target).
Proof.
  intros Hok Hpos Hlen Hgood. unfold elsewhere_append, initial_target.
  pose proof Hgood as (? & ? & _). rewrite (proj2 (Z.eqb_neq _ _)) by (unfold UINT64_MAX; lia).
  replace (N.to_nat 0x10000) with (S (N.to_nat 0xffff)) by lia. cbn [search].
  rewrite check_ranges_good by done. cbn [rbind negb].
  destruct (elsewhere_reserve_target _ _ _ _); cbn [rbind]; try done.
  destruct (ranges_max <=? length ranges)%nat; [done|]. by intros [= <-].
Qed.
End Correct.
