(* ===== verification/Relocation.v ===== *)
(** * Moving the staged pieces to their targets

    The last thing a Multiboot boot does: [multiboot_reloc_stub]
    ([common/protos/multiboot_reloc.asm_x86]) walks the array of
    [struct elsewhere_range] and copies each piece from its staging block to
    its target, byte by byte, forwards or backwards.  [session] is how the
    protocols build that array out of the allocator and [elsewhere_append];
    the theorems show that every piece arrives whole. *)

From S2P Require Import Prelude CInt Memmap MemmapSem Separate Sanitise RangeAlloc Pmm PmmFacts.
From S2P Require Import PmmProps Elsewhere.

(** ** The stub *)
Definition upd (r : Z -> Z) (a v : Z) : Z -> Z := fun x => if x =? a then v else r x.

(** [rep movsb] with the direction flag clear, and set. *)
Fixpoint movsb_forwards (ecx : nat) (r : Z -> Z) (esi edi : Z) : Z -> Z :=
  match ecx with
  | O => r
  | S ecx => movsb_forwards ecx (upd r edi (r esi)) (u32 (esi + 1)) (u32 (edi + 1))
  end.

Fixpoint movsb_backwards (ecx : nat) (r : Z -> Z) (esi edi : Z) : Z -> Z :=
  match ecx with
  | O => r
  | S ecx => movsb_backwards ecx (upd r edi (r esi)) (u32 (esi - 1)) (u32 (edi - 1))
  end.

Definition mov32 (r : Z -> Z) (a : Z) : Z := le_val [r a; r (a + 1); r (a + 2); r (a + 3)].

(** One turn of [.ranges_loop], with [eax] on a range. *)
Definition ranges_turn (r : Z -> Z) (eax : Z) : Z -> Z :=
  let esi := mov32 r eax in
  let edi := mov32 r (eax + 8) in
  let ecx := mov32 r (eax + 16) in
  if edi <=? esi then movsb_forwards (Z.to_nat ecx) r esi edi
  else movsb_backwards (Z.to_nat ecx) r (u32 (esi + ecx - 1)) (u32 (edi + ecx - 1)).

Fixpoint ranges_loop (edx : nat) (r : Z -> Z) (eax : Z) : Z -> Z :=
  match edx with
  | O => r
  | S edx => ranges_loop edx (ranges_turn r eax) (u32 (eax + 24))
  end.

(** ** Copying *)
Lemma upd_same r a v : upd r a v a = v.
Proof. unfold upd. by rewrite Z.eqb_refl. Qed.

Lemma movsb_forwards_spec n r s t a :
  0 <= t <= s -> s + Z.of_nat n <= 2 ^ 32 ->
  movsb_forwards n r s t a = if (t <=? a) && (a <? t + Z.of_nat n) then r (s + (a - t)) else r a.
Proof.
  revert r s t. induction n as [|n IH]; intros r s t Hts Htop; cbn [movsb_forwards]; [solve_ifs|].
  destruct (decide (n = 0%nat)) as [->|Hn].
  - cbn. unfold upd. solve_ifs.
  - rewrite !wrap_small, IH by lia. unfold upd. solve_ifs.
Qed.

Lemma movsb_backwards_spec n r s t a :
  0 <= s < t -> t + Z.of_nat n <= 2 ^ 32 ->
  movsb_backwards n r (s + Z.of_nat n - 1) (t + Z.of_nat n - 1) a =
  if (t <=? a) && (a <? t + Z.of_nat n) then r (s + (a - t)) else r a.
Proof.
  revert r. induction n as [|n IH]; intros r Hst Htop; cbn [movsb_backwards]; [solve_ifs|].
  destruct (decide (n = 0%nat)) as [->|Hn].
  - cbn. unfold upd. solve_ifs.
  - rewrite !wrap_small by lia.
    replace (s + Z.of_nat (S n) - 1 - 1) with (s + Z.of_nat n - 1) by lia.
    replace (t + Z.of_nat (S n) - 1 - 1) with (t + Z.of_nat n - 1) by lia.
    rewrite IH by lia. unfold upd. solve_ifs.
Qed.

(** ** The array of ranges *)
Definition low_range (x : elsewhere_range) : Prop :=
  0 <= r_elsewhere x /\ 0 <= r_target x /\ 0 <= r_length x < 2 ^ 32 /\
  r_elsewhere x + r_length x <= 2 ^ 32 /\ r_target x + r_length x <= 2 ^ 32.

Definition source_of (x : elsewhere_range) (a : Z) : Prop :=
  inside (r_elsewhere x) (r_elsewhere x + r_length x) a.
Definition target_of (x : elsewhere_range) (a : Z) : Prop :=
  inside (r_target x) (r_target x + r_length x) a.

(** Memory holds the array at [eax]: the low halves of its 64-bit fields. *)
Fixpoint array_holds (r : Z -> Z) (eax : Z) (ranges : list elsewhere_range) : Prop :=
  match ranges with
  | [] => True
  | x :: rest =>
      mov32 r eax = u32 (r_elsewhere x) /\ mov32 r (eax + 8) = u32 (r_target x) /\
      mov32 r (eax + 16) = u32 (r_length x) /\ array_holds r (eax + 24) rest
  end.

(** Copying [x] spoils neither the target nor the source of the later [y]. *)
Definition before (x y : elsewhere_range) : Prop :=
  (forall a, ~ (target_of x a /\ target_of y a)) /\ (forall a, ~ (target_of x a /\ source_of y a)).

Lemma ranges_turn_spec r eax x a :
  low_range x -> mov32 r eax = u32 (r_elsewhere x) -> mov32 r (eax + 8) = u32 (r_target x) ->
  mov32 r (eax + 16) = u32 (r_length x) ->
  (target_of x a -> ranges_turn r eax a = r (r_elsewhere x + (a - r_target x))) /\
  (~ target_of x a -> ranges_turn r eax a = r a).
Proof.
  intros (He & Ht & Hl & Hes & Hts) E1 E2 E3. unfold ranges_turn. rewrite E1, E2, E3.
  rewrite (wrap_small 32 (r_length x)) by lia. unfold target_of, inside.
  destruct (decide (r_length x = 0)) as [Hz|Hz].
  { rewrite Hz. cbn. split; [lia|]. intros _. by case_if. }
  rewrite !(wrap_small 32 (r_elsewhere x)), !(wrap_small 32 (r_target x)) by lia. case_if.
  - rewrite movsb_forwards_spec, Z2Nat.id by lia. solve_ifs.
  - rewrite !wrap_small by lia.
    pose proof (movsb_backwards_spec (Z.to_nat (r_length x)) r (r_elsewhere x) (r_target x) a) as Hm.
    rewrite Z2Nat.id in Hm by lia. rewrite Hm by lia. solve_ifs.
Qed.

Lemma mov32_agree r r' a :
  (forall x, inside a (a + 4) x -> r' x = r x) -> mov32 r' a = mov32 r a.
Proof. intros H. unfold mov32, inside in *. by rewrite !H by lia. Qed.

Lemma array_holds_agree r r' eax ranges :
  (forall a, inside eax (eax + 24 * Z.of_nat (length ranges)) a -> r' a = r a) ->
  array_holds r eax ranges -> array_holds r' eax ranges.
Proof.
  revert eax. induction ranges as [|x ranges IH]; intros eax H; [done|]. cbn [array_holds length] in *.
  intros (E1 & E2 & E3 & Hrest).
  rewrite !(mov32_agree r r') by (intros y Hy; apply H; unfold inside in *; lia).
  split_and!; [done..|]. apply IH; [|done]. intros a Ha. apply H. unfold inside in *. lia.
Qed.

Definition array_clear (eax n : Z) (ranges : list elsewhere_range) : Prop :=
  forall x a, x ∈ ranges -> target_of x a -> ~ inside eax (eax + 24 * n) a.

Lemma ranges_loop_spec ranges : forall r eax,
  Forall low_range ranges -> List.ForallOrdPairs before ranges ->
  0 <= eax -> eax + 24 * Z.of_nat (length ranges) <= 2 ^ 32 ->
  array_clear eax (Z.of_nat (length ranges)) ranges -> array_holds r eax ranges ->
  (forall x a, x ∈ ranges -> target_of x a ->
     ranges_loop (length ranges) r eax a = r (r_elsewhere x + (a - r_target x))) /\
  (forall a, (forall x, x ∈ ranges -> ~ target_of x a) -> ranges_loop (length ranges) r eax a = r a).
Proof.
  induction ranges as [|x ranges IH]; intros r eax Hlow Hord Heax Htop Hclear Hholds.
  { split; [|done]. intros x a Hx. by apply not_elem_of_nil in Hx. }
  apply Forall_cons in Hlow as [Hx Hlow]. inversion Hord as [|? ? Hbx Hord']; subst.
  destruct Hholds as (E1 & E2 & E3 & Hrest).
  pose proof (fun a => ranges_turn_spec r eax x a Hx E1 E2 E3) as Hturn.
  cbn [ranges_loop length]. rewrite Forall_forall in Hbx.
  assert (forall a, inside eax (eax + 24 * Z.of_nat (length (x :: ranges))) a -> ranges_turn r eax a = r a) as Hkeep.
  { intros a Ha. apply Hturn. intros Ht. by apply (Hclear x a (list_elem_of_here _ _) Ht). }
  set (eax' := if (length ranges =? 0)%nat then u32 (eax + 24) else eax + 24).
  assert (u32 (eax + 24) = eax') as ->.
  { unfold eax'. destruct (length ranges =? 0)%nat eqn:E; [done|]. bool_hyps. cbn [length] in Htop.
    apply wrap_small. lia. }
  destruct (IH (ranges_turn r eax) eax') as [IH1 IH2]; [done|done|..].
  - unfold eax'. pose proof (wrap_range 32 (eax + 24) ltac:(lia)). case_if; lia.
  - unfold eax'. pose proof (wrap_range 32 (eax + 24) ltac:(lia)). cbn [length] in Htop. case_if; lia.
  - intros y a Hy Ht Ha. apply (Hclear y a (list_elem_of_further _ _ _ Hy) Ht).
    unfold inside, eax' in *. cbn [length]. revert Ha. case_if; lia.
  - destruct ranges as [|y ranges]; [done|]. unfold eax'. cbn [length Nat.eqb].
    apply (array_holds_agree r); [|done]. intros a Ha. apply Hkeep. unfold inside in *. cbn [length] in *. lia.
  - split.
    + intros y a Hy Ht. apply elem_of_cons in Hy as [->|Hy].
      * rewrite IH2; [by apply Hturn|]. intros y Hy Hty. by apply (proj1 (Hbx y Hy) a).
      * rewrite (IH1 y a Hy Ht). apply Hturn. intros Hs. apply (proj2 (Hbx y Hy) (r_elsewhere y + (a - r_target y))).
        split; [done|]. unfold source_of, target_of, inside in *. lia.
    + intros a Hno. rewrite IH2; [apply Hturn, Hno, list_elem_of_here|].
      intros y Hy. apply Hno. by apply list_elem_of_further.
Qed.

(** ** Building the array

    The protocols start from the kernel's range, whose target they have
    reserved, and then stage pieces: a block from the allocator, handed to
    [elsewhere_append]; or a part of the kernel's file, which stays where it
    is ([MEMMAP_KERNEL_AND_MODULES]).  Other allocations may come between;
    nothing is freed. *)
Section Session.
Variable max_entries : nat.
Variable i386 : bool.

(** The kernel's file and the bootloader's own memory are separate. *)
Definition files_apart (m : list memmap_entry) : Prop :=
  forall a, ~ (has_type m MEMMAP_KERNEL_AND_MODULES a /\ has_type m MEMMAP_BOOTLOADER_RECLAIMABLE a).

Definition held (m : list memmap_entry) (x : elsewhere_range) : Prop :=
  forall a, target_of x a -> ~ usable_at m a /\ ~ has_type m MEMMAP_KERNEL_AND_MODULES a.

Definition stage_alloc (st : pmm) (count type : Z) : res (option Z * pmm) :=
  ext_mem_alloc_type_aligned_mode max_entries true i386 st count type 4096 false.

Inductive session : pmm -> list elsewhere_range -> Prop :=
| SStart st k :
    pmm_inv max_entries st -> allocations_disallowed st = false -> files_apart (memmap st) ->
    low_range k -> held (memmap st) k -> session st [k]
| SScratch st ranges count type p st' :
    session st ranges -> 0 <= count < 2 ^ 32 -> type <> MEMMAP_USABLE ->
    stage_alloc st count type = Ok (Some p, st') -> session st' ranges
| SStage st ranges count type p st1 allow ranges_max request target ranges' st' :
    session st ranges -> 0 <= count < 2 ^ 32 -> type <> MEMMAP_USABLE ->
    stage_alloc st count type = Ok (Some p, st1) -> 0 <= request < 2 ^ 64 ->
    elsewhere_append max_entries st1 allow ranges ranges_max p request count
      = Ok (true, target, ranges', st') -> session st' ranges'
| SSection st ranges p count allow ranges_max request target ranges' st' :
    session st ranges -> 0 <= count < 2 ^ 32 -> 0 <= p -> p + count <= 2 ^ 32 ->
    (forall a, inside p (p + count) a -> has_type (memmap st) MEMMAP_KERNEL_AND_MODULES a) ->
    0 <= request < 2 ^ 64 ->
    elsewhere_append max_entries st allow ranges ranges_max p request count
      = Ok (true, target, ranges', st') -> session st' ranges'.

Record staged (st : pmm) (ranges : list elsewhere_range) : Prop := {
  sg_inv : pmm_inv max_entries st;
  sg_open : allocations_disallowed st = false;
  sg_files : files_apart (memmap st);
  sg_some : ranges <> [];
  sg_low : Forall low_range ranges;
  sg_held : Forall (held (memmap st)) ranges;
  sg_order : List.ForallOrdPairs before ranges;
}.

Lemma low_range_ok x : low_range x -> range_ok x.
Proof. unfold low_range, range_ok. lia. Qed.

Lemma ForallOrdPairs_snoc {A} (R : A -> A -> Prop) l x :
  List.ForallOrdPairs R l -> Forall (fun y => R y x) l -> List.ForallOrdPairs R (l ++ [x]).
Proof.
  induction 1 as [|y l Hy Hl IH]; intros Hx; cbn.
  - constructor; constructor.
  - apply Forall_cons in Hx as [? Hx]. constructor; [|by apply IH].
    apply Forall_app. split; [done|]. by constructor.
Qed.

(** What an allocation does to the invariant, and where its block lies. *)
Lemma stage_alloc_spec st ranges count type p st' :
  staged st ranges -> 0 <= count < 2 ^ 32 -> type <> MEMMAP_USABLE ->
  stage_alloc st count type = Ok (Some p, st') ->
  staged st' ranges /\ 0 <= p /\ p + count <= 2 ^ 32 /\
  forall x a, x ∈ ranges -> ~ (target_of x a /\ inside p (p + count) a).
Proof.
  intros [Hinv Hopen Hfiles Hne Hlow Hheld Hord] Hc Hty Ha.
  pose proof (ext_mem_alloc_impl_spec max_entries true i386 st count type 4096 false true Hinv Hopen
                ltac:(lia) ltac:(lia)) as Hspec.
  apply (res_post_ok _ _ _ _ Hspec) in Ha. clear Hspec. cbn [fst snd] in Ha.
  destruct Ha as [Hinv' _ [Hop' _] (n & top & _ & Hcn & Htop & [Hsz Hfresh Hown Hgone Hoth Hus] & _)].
  assert (forall a, usable_at (memmap st') a -> usable_at (memmap st) a) as Hsub.
  { intros a Hu. destruct (decide (inside p top a)) as [Hin|Hin]; [by destruct (Hgone Hty a Hin)|].
    by apply Hus. }
  assert (alloc_limit true false = 0x100000000) as Hlim by done. rewrite Hlim in Htop.
  rewrite Forall_forall in Hheld.
  assert (forall x a, x ∈ ranges -> ~ (target_of x a /\ inside p top a)) as Hdis.
  { intros x a Hx [Ht Hin]. by apply (proj1 (Hheld x Hx a Ht)), Hfresh. }
  split; [split; try done; [by rewrite Hop'| |]|].
  - intros a [H1 H2]. destruct (decide (inside p top a)) as [Hin|Hin].
    + apply Hown in H1, H2; [|done..]. by rewrite <- H2 in H1.
    + apply Hoth in H1, H2; try done. by apply (Hfiles a).
  - apply Forall_forall. intros x Hx a Ht. destruct (Hheld x Hx a Ht) as [H1 H2].
    split; [intros Hu; by apply H1, Hsub|]. intros Hk. apply H2.
    apply Hoth; [done| |done]. intros Hin. by apply (Hdis x a Hx).
  - split_and!; [lia|lia|]. intros x a Hx [Ht Hin]. apply (Hdis x a Hx). unfold inside in *. split; [done|lia].
Qed.

Lemma append_staged st ranges p count allow ranges_max request target ranges' st' :
  staged st ranges -> 0 <= count < 2 ^ 32 -> 0 <= p -> p + count <= 2 ^ 32 -> 0 <= request < 2 ^ 64 ->
  (forall x a, x ∈ ranges -> ~ (target_of x a /\ inside p (p + count) a)) ->
  elsewhere_append max_entries st allow ranges ranges_max p request count = Ok (true, target, ranges', st') ->
  staged st' ranges'.
Proof.
  intros [Hinv Hopen Hfiles Hne Hlow Hheld Hord] Hc Hp Hpt Hreq Hsrc Ha.
  pose proof (elsewhere_append_spec max_entries st allow ranges ranges_max p request count Hinv
    (Forall_impl _ _ _ Hlow low_range_ok) Hne Hreq ltac:(lia)) as Hspec.
  apply (res_post_ok _ _ _ _ Hspec) in Ha. clear Hspec.
  destruct Ha as ((Ht0 & Ht1 & Hcl & Hbk) & _ & -> & Hinv' & [Hgone Hus Hoth] & m & ->).
  cbn [memmap with_memmap] in *.
  assert (forall a, usable_at m a -> usable_at (memmap st) a) as Hsub.
  { intros a Hu. destruct (decide (inside target (target + count) a)) as [Hin|Hin]; [by destruct (Hgone a Hin)|].
    by apply Hus. }
  assert (forall a, usable_at (memmap st) a -> ~ has_type (memmap st) MEMMAP_KERNEL_AND_MODULES a) as Hclean.
  { intros a Hu Hk. apply (clean_free _ _ _ a (sn_clean _ _ _ _ Hinv) Hu). by exists MEMMAP_KERNEL_AND_MODULES. }
  assert (forall a, has_type m MEMMAP_KERNEL_AND_MODULES a -> has_type (memmap st) MEMMAP_KERNEL_AND_MODULES a) as Hkm.
  { intros a Hk. apply Hoth in Hk as [?|[? _]]; done. }
  rewrite Forall_forall in Hcl, Hheld. split; cbn [memmap with_memmap allocations_disallowed]; try done.
  - intros a [H1 H2]. apply Hkm in H1. apply Hoth in H2 as [H2|(_ & _ & Hu)]; [by apply (Hfiles a)| |done].
    by apply (Hclean a).
  - intros E. by apply app_nil in E as [_ ?].
  - apply Forall_app. split; [done|]. constructor; [|done]. unfold low_range. cbn. lia.
  - apply Forall_app. split.
    + apply Forall_forall. intros x Hx a Ht. destruct (Hheld x Hx a Ht) as [H1 H2]. auto.
    + constructor; [|done]. intros a Hin. unfold target_of in Hin. cbn in Hin.
      split; [by apply Hgone|]. intros Hk%Hkm. destruct Hbk as [->|[Hav|Hav]].
      * unfold inside in Hin. lia.
      * apply (Hclean a); [|done]. by eapply available_usable.
      * apply (Hfiles a). split; [done|]. destruct Hav as (e & He & [?|Hte] & Hok & Hb & Ht); [done|].
        exists e. split_and!; try done; unfold inside, covers in *; lia.
  - apply ForallOrdPairs_snoc; [done|]. apply Forall_forall. intros x Hx. split; intros a [H1 H2].
    + by apply (proj1 (Hcl x Hx) a).
    + by apply (Hsrc x a Hx).
Qed.

Lemma session_staged st ranges : session st ranges -> staged st ranges.
Proof.
  induction 1 as [st k Hinv Hopen Hf Hlow Hheld|st ranges count type p st' _ IH Hc Hty Ha
    |st ranges count type p st1 allow rm req t ranges' st' _ IH Hc Hty Ha Hreq Happ
    |st ranges p count allow rm req t ranges' st' _ IH Hc Hp Hpt Hsrc Hreq Happ].
  - split; try done; [by constructor; [|constructor]..|]. constructor; constructor.
  - by apply (stage_alloc_spec st ranges count type p st' IH Hc Hty).
  - destruct (stage_alloc_spec st ranges count type p st1 IH Hc Hty Ha) as (Hst1 & Hp & Hpt & Hsrc).
    by eapply append_staged.
  - eapply append_staged; try done. intros x a Hx [Ht Hin].
    pose proof (sg_held _ _ IH) as Hheld. rewrite Forall_forall in Hheld.
    by apply (proj2 (Hheld x Hx a Ht)), Hsrc.
Qed.
End Session.

(** ** A concrete session: a kernel of 8 KiB at 1 MiB and one module *)
Definition demo_kernel : elsewhere_range := MkRange 0x300000 0x100000 0x2000.

Definition demo_started : pmm :=
  with_memmap demo_pmm [MkEntry 0x1000 0x8000 1; MkEntry 0x100000 0x2000 0x1000; MkEntry 0x102000 0xfe000 1].

Definition state_of {A : Type} (r : res (A * pmm)) : pmm :=
  match r with Ok (_, st) => st | _ => demo_started end.

Definition value_of {A : Type} (r : res (A * pmm)) : option A :=
  match r with Ok (a, _) => Some a | _ => None end.

(** A call is determined by its value and its state, which is never evaluated. *)
Lemma split_call {A} (r : res (A * pmm)) a : value_of r = Some a -> r = Ok (a, state_of r).
Proof. destruct r as [[x st]| | |]; cbn; try done. by intros [= ->]. Qed.

Definition demo_module : pmm :=
  state_of (stage_alloc 512 false demo_started 5000 MEMMAP_BOOTLOADER_RECLAIMABLE).

Definition demo_placed : pmm :=
  state_of (elsewhere_append 512 demo_module false [demo_kernel] 3 0x1fe000 0x100000 5000).

Definition demo_ranges : list elsewhere_range := [demo_kernel; MkRange 0x1fe000 0x102000 5000].

Lemma demo_started_inv : pmm_inv 512 demo_started.
Proof. apply pmm_inv_check; [by apply map_wf_check|by vm_compute]. Qed.

Lemma demo_started_types t a :
  has_type (memmap demo_started) t a ->
  (t = 1 /\ (inside 0x1000 0x9000 a \/ inside 0x102000 0x200000 a)) \/ (t = 0x1000 /\ inside 0x100000 0x102000 a).
Proof.
  cbn [memmap demo_started with_memmap]. rewrite !has_type_cons, has_type_nil.
  unfold entry_ok, covers, e_top, inside. cbn. lia.
Qed.

Lemma demo_append :
  elsewhere_append 512 demo_module false [demo_kernel] 3 0x1fe000 0x100000 5000
    = Ok (true, 0x102000, demo_ranges, demo_placed).
Proof. apply split_call. vm_compute. reflexivity. Qed.

Lemma demo_session : session 512 false demo_placed demo_ranges.
Proof.
  pose proof (split_call (stage_alloc 512 false demo_started 5000 MEMMAP_BOOTLOADER_RECLAIMABLE) (Some 0x1fe000)
    ltac:(vm_compute; reflexivity)) as E1.
  pose proof demo_append as E2.
  refine (SStage 512 false demo_started [demo_kernel] 5000 MEMMAP_BOOTLOADER_RECLAIMABLE 0x1fe000 demo_module
            false 3 0x100000 0x102000 demo_ranges demo_placed _ _ _ E1 _ E2); [|lia|done|lia].
  apply SStart; [apply demo_started_inv|done| | |].
  - intros a [H _]. apply demo_started_types in H. unfold MEMMAP_KERNEL_AND_MODULES in *. lia.
  - unfold low_range. cbn. lia.
  - intros a Ht. split; intros H; apply demo_started_types in H;
      unfold MEMMAP_KERNEL_AND_MODULES, MEMMAP_USABLE, target_of, inside in *; cbn in Ht; lia.
Qed.

(** ** The claims *)

(** [elsewhere_append] with at least one range recorded always returns, or
    panics for a full array or an exhausted map.  A target it finds lies
    below 4 GiB, inside one entry of usable or bootloader memory, clear of the
    target and of the source of every range recorded before; it appends that
    range alone, and afterwards no byte of the target is usable memory while
    every other byte is as it was.  Where it finds none nothing changes.  A
    requested target that is good already is the one returned. *)
Theorem elsewhere_append_correct max_entries st allow ranges ranges_max elsewhere target t_length :
  pmm_inv max_entries st -> Forall range_ok ranges -> ranges <> [] ->
  0 <= target < 2 ^ 64 -> 0 <= t_length ->
  res_post (fun r =>
      append_post max_entries st ranges ranges_max elsewhere t_length r /\
      (0 < t_length -> Forall (fun x => 0 < r_length x) ranges ->
       good_target (memmap st) ranges target t_length -> r.1.1 = (true, target)))
    (fun msg => exhausted msg \/
       (msg = "elsewhere: ranges array overflow"%string /\ (ranges_max <= length ranges)%nat))
    (elsewhere_append max_entries st allow ranges ranges_max elsewhere target t_length).
Proof.
  intros Hinv Hok Hne Ht Hl.
  pose proof (elsewhere_append_spec max_entries st allow ranges ranges_max elsewhere target t_length
                Hinv Hok Hne Ht Hl) as H.
  destruct (elsewhere_append _ _ _ _ _ _ _ _) as [r|msg| |] eqn:E; cbn in *; try done.
  split; [done|]. intros Hlen Hpos Hgood.
  by apply (append_keeps_good max_entries st allow ranges ranges_max elsewhere target t_length r).
Qed.

Lemma elsewhere_append_correct_witness :
  elsewhere_append 512 demo_module false [demo_kernel] 3 0x1fe000 0x100000 5000
    = Ok (true, 0x102000, demo_ranges, demo_placed) /\
  Forall (clear_of 0x102000 5000) [demo_kernel] /\ pmm_inv 512 demo_placed.
Proof.
  assert (pmm_inv 512 demo_module) as Hinv
    by (apply pmm_inv_check; [apply map_wf_check|]; vm_compute; reflexivity).
  assert (Forall range_ok [demo_kernel]) as Hok
    by (constructor; [unfold range_ok; cbn; lia|constructor]).
  pose proof (elsewhere_append_correct 512 demo_module false [demo_kernel] 3 0x1fe000 0x100000 5000
    Hinv Hok ltac:(done) ltac:(lia) ltac:(lia)) as H.
  rewrite demo_append in H. destruct H as [((_ & _ & Hcl & _) & _ & _ & Hinv' & _) _].
  split; [exact demo_append|]. split; [exact Hcl|exact Hinv'].
Defined.

(** C9.  However a protocol stages its pieces - blocks from the allocator and
    parts of the kernel's file, with any target requested, other allocations
    between them - the relocation stub delivers each piece whole: after it has
    run over the array every target holds the bytes its source held when the
    stub started, also where a target lies on its own source or on the sources
    of earlier pieces, and nothing but the targets has changed.  The array
    itself must lie off the targets. *)
Theorem relocation_delivers max_entries i386 st ranges r eax :
  session max_entries i386 st ranges ->
  0 <= eax -> eax + 24 * Z.of_nat (length ranges) <= 2 ^ 32 ->
  array_clear eax (Z.of_nat (length ranges)) ranges -> array_holds r eax ranges ->
  (forall x a, x ∈ ranges -> target_of x a ->
     ranges_loop (length ranges) r eax a = r (r_elsewhere x + (a - r_target x))) /\
  (forall a, (forall x, x ∈ ranges -> ~ target_of x a) -> ranges_loop (length ranges) r eax a = r a).
Proof.
  intros Hs He Ht Hc Hh. pose proof (session_staged max_entries i386 st ranges Hs) as Hst.
  apply ranges_loop_spec; try done; [apply (sg_low _ _ _ Hst)|apply (sg_order _ _ _ Hst)].
Qed.

Definition demo_array : list Z :=
  le_bytes 8 0x300000 ++ le_bytes 8 0x100000 ++ le_bytes 8 0x2000 ++
  le_bytes 8 0x1fe000 ++ le_bytes 8 0x102000 ++ le_bytes 8 5000.

Definition demo_ram (a : Z) : Z :=
  if (0x5000 <=? a) && (a <? 0x5000 + 48) then nth (Z.to_nat (a - 0x5000)) demo_array 0
  else (a / 3) mod 256.

Lemma relocation_delivers_witness :
  ranges_loop 2 demo_ram 0x5000 0x102007 = demo_ram (0x1fe000 + (0x102007 - 0x102000)).
Proof.
  destruct (relocation_delivers 512 false demo_placed demo_ranges demo_ram 0x5000) as [H _].
  - exact demo_session.
  - lia.
  - vm_compute. discriminate.
  - intros x a Hx. apply elem_of_cons in Hx as [->|Hx]; [|apply list_elem_of_singleton in Hx as ->];
      unfold target_of, inside; cbn; lia.
  - vm_compute. tauto.
  - exact (H (MkRange 0x1fe000 0x102000 5000) 0x102007 ltac:(apply list_elem_of_further, list_elem_of_here)
             ltac:(unfold target_of, inside; cbn; lia)).
Defined.
