(* ===== verification/Qoi.v ===== *)
(** * The QOI image decoder: [common/lib/qoi.c]

    [qoi_decode] turns a QOI file in memory into an array of 32-bit XRGB
    pixels in a block of the physical allocator, whose first 16 bytes hold the
    block's size for [qoi_free].  The file is a list of bytes; reading outside
    it is a fault.  [size_bits] is the width of [size_t]. *)

From S2P Require Import Prelude CInt Memmap MemmapSem Pmm PmmFacts.

Definition QOI_OP_INDEX : Z := 0x00.
Definition QOI_OP_DIFF : Z := 0x40.
Definition QOI_OP_LUMA : Z := 0x80.
Definition QOI_OP_RUN : Z := 0xc0.
Definition QOI_OP_RGB : Z := 0xfe.
Definition QOI_OP_RGBA : Z := 0xff.
Definition QOI_OP_MASK : Z := 0xc0.
Definition QOI_HEADER_SIZE : Z := 14.
Definition QOI_PADDING_SIZE : Z := 8.
Definition QOI_MAX_DIM : Z := 65536.
Definition QOI_MAX_PIXELS : Z := 400000000.

Definition QOI_HASH (r g b a : Z) : Z := Z.land (r * 3 + g * 5 + b * 7 + a * 11) 63.

(** A byte of the file. *)
Definition byte_at (p : list Z) (i : Z) : res Z := if i <? 0 then Fault else rd p (Z.to_nat i).

Definition qoi_be32 (p : list Z) (i : Z) : res Z :=
  let! b0 := byte_at p i in
  let! b1 := byte_at p (i + 1) in
  let! b2 := byte_at p (i + 2) in
  let! b3 := byte_at p (i + 3) in
  Ok (Z.lor (Z.lor (Z.lor (Z.shiftl b0 24) (Z.shiftl b1 16)) (Z.shiftl b2 8)) b3).

(** ** The decoder's state: the last pixel, the table of pixels seen, the run *)
Record qoi := MkQoi {
  q_index : list Z;
  q_run : Z;
  q_r : Z;
  q_g : Z;
  q_b : Z;
  q_a : Z;
  q_pos : Z;
}.

Definition qoi_start : qoi := MkQoi (replicate 64 0) 0 0 0 0 0xff QOI_HEADER_SIZE.

Definition pack_rgba (r g b a : Z) : Z :=
  Z.lor (Z.lor (Z.lor r (Z.shiftl g 8)) (Z.shiftl b 16)) (Z.shiftl a 24).

(** [index[QOI_HASH(r, g, b, a)] = ...]. *)
Definition remember (s : qoi) : res qoi :=
  let! index := wr (q_index s) (Z.to_nat (QOI_HASH (q_r s) (q_g s) (q_b s) (q_a s)))
                  (pack_rgba (q_r s) (q_g s) (q_b s) (q_a s)) in
  Ok (MkQoi index (q_run s) (q_r s) (q_g s) (q_b s) (q_a s) (q_pos s)).

(** The operation [op], read just before [pos]; [None] is [goto fail]. *)
Definition qoi_apply (p : list Z) (end_ : Z) (op : Z) (s : qoi) : res (option qoi) :=
  let '(MkQoi index run r g b a pos) := s in
  if op =? QOI_OP_RGB then
    if end_ - pos <? 3 then Ok None
    else
      let! r := byte_at p pos in
      let! g := byte_at p (pos + 1) in
      let! b := byte_at p (pos + 2) in
      Ok (Some (MkQoi index run r g b a (pos + 3)))
  else if op =? QOI_OP_RGBA then
    if end_ - pos <? 4 then Ok None
    else
      let! r := byte_at p pos in
      let! g := byte_at p (pos + 1) in
      let! b := byte_at p (pos + 2) in
      let! a := byte_at p (pos + 3) in
      Ok (Some (MkQoi index run r g b a (pos + 4)))
  else
    let tag := Z.land op QOI_OP_MASK in
    if tag =? QOI_OP_INDEX then
      let! v := rd index (Z.to_nat (Z.land op 0x3f)) in
      Ok (Some (MkQoi index run (u8 v) (u8 (Z.shiftr v 8)) (u8 (Z.shiftr v 16)) (u8 (Z.shiftr v 24)) pos))
    else if tag =? QOI_OP_DIFF then
      Ok (Some (MkQoi index run (u8 (r + (Z.land (Z.shiftr op 4) 3 - 2)))
                  (u8 (g + (Z.land (Z.shiftr op 2) 3 - 2))) (u8 (b + (Z.land op 3 - 2))) a pos))
    else if tag =? QOI_OP_LUMA then
      if end_ <=? pos then Ok None
      else
        let! b2 := byte_at p pos in
        let dg := Z.land op 0x3f - 32 in
        Ok (Some (MkQoi index run (u8 (r + (dg + Z.land (Z.shiftr b2 4) 0xf - 8))) (u8 (g + dg))
                    (u8 (b + (dg + Z.land b2 0xf - 8))) a (pos + 1)))
    else if tag =? QOI_OP_RUN then Ok (Some (MkQoi index (Z.land op 0x3f) r g b a pos))
    else Ok (Some (MkQoi index run r g b a pos)).

Definition advance (s : qoi) : qoi :=
  MkQoi (q_index s) (q_run s) (q_r s) (q_g s) (q_b s) (q_a s) (q_pos s + 1).

Definition qoi_op (p : list Z) (end_ : Z) (s : qoi) : res (option qoi) :=
  if end_ <=? q_pos s then Ok None
  else
    let! op := byte_at p (q_pos s) in
    let! next := qoi_apply p end_ op (advance s) in
    match next with
    | None => Ok None
    | Some s => let! s := remember s in Ok (Some s)
    end.

Definition qoi_pixel (p : list Z) (end_ : Z) (s : qoi) : res (option qoi) :=
  if 0 <? q_run s
  then Ok (Some (MkQoi (q_index s) (q_run s - 1) (q_r s) (q_g s) (q_b s) (q_a s) (q_pos s)))
  else qoi_op p end_ s.

Definition xrgb (s : qoi) : Z :=
  Z.lor (Z.lor (Z.shiftl (q_r s) 16) (Z.shiftl (q_g s) 8)) (q_b s).

(** Storing a little-endian integer, and loading one. *)
Definition store (mem : Z -> Z) (a : Z) (n : nat) (v : Z) : Z -> Z :=
  fun x => if (a <=? x) && (x <? a + Z.of_nat n) then nth (Z.to_nat (x - a)) (le_bytes n v) 0 else mem x.
Definition load (mem : Z -> Z) (a : Z) (n : nat) : Z := le_val (map mem (seqZ a (Z.of_nat n))).

(** The loop over [px]; the flag is whether it came to its end. *)
Fixpoint qoi_loop (n : nat) (px : Z) (p : list Z) (end_ : Z) (out : Z) (s : qoi) (mem : Z -> Z)
    : res (bool * (Z -> Z)) :=
  match n with
  | O => Ok (true, mem)
  | S n =>
      let! next := qoi_pixel p end_ s in
      match next with
      | None => Ok (false, mem)
      | Some s => qoi_loop n (px + 1) p end_ out s (store mem (out + 4 * px) 4 (xrgb s))
      end
  end.

Section Qoi.
Variable max_entries : nat.
Variables x86 i386 : bool.
Variable size_bits : Z.

Definition size_bytes : nat := Z.to_nat (size_bits / 8).

Definition qoi_alloc_xrgb (st : pmm) (pixels : Z) : res (option Z * pmm) :=
  match checked_mul size_bits pixels 4 with
  | None => Ok (None, st)
  | Some bytes =>
      match checked_add size_bits bytes 16 with
      | None => Ok (None, st)
      | Some total =>
          let! (raw, st) := ext_mem_alloc_nopanic max_entries x86 i386 st total in
          match raw with
          | None => Ok (None, st)
          | Some raw => Ok (Some (raw + 16), with_ram st (store (ram st) raw size_bytes total))
          end
      end
  end.

Definition qoi_free (st : pmm) (buf : option Z) : res pmm :=
  match buf with
  | None => Ok st
  | Some buf => pmm_free max_entries st (Some (buf - 16)) (load (ram st) (buf - 16) size_bytes)
  end.

(** The pointer returned, with the width and the height. *)
Definition qoi_decode (st : pmm) (src : option (list Z)) : res (option (Z * Z * Z) * pmm) :=
  match src with
  | None => Ok (None, st)
  | Some p =>
      let src_size := Z.of_nat (length p) in
      if src_size <? QOI_HEADER_SIZE + QOI_PADDING_SIZE then Ok (None, st)
      else
        let! p0 := byte_at p 0 in
        let! p1 := byte_at p 1 in
        let! p2 := byte_at p 2 in
        let! p3 := byte_at p 3 in
        if negb (p0 =? 0x71) || negb (p1 =? 0x6f) || negb (p2 =? 0x69) || negb (p3 =? 0x66)
        then Ok (None, st)
        else
          let! w := qoi_be32 p 4 in
          let! h := qoi_be32 p 8 in
          let! channels := byte_at p 12 in
          if (w =? 0) || (h =? 0) || (QOI_MAX_DIM <? w) || (QOI_MAX_DIM <? h) then Ok (None, st)
          else if negb (channels =? 3) && negb (channels =? 4) then Ok (None, st)
          else
            match checked_mul size_bits w h with
            | None => Ok (None, st)
            | Some pixels =>
                if QOI_MAX_PIXELS <? pixels then Ok (None, st)
                else
                  let! (out, st) := qoi_alloc_xrgb st pixels in
                  match out with
                  | None => Ok (None, st)
                  | Some out =>
                      let end_ := src_size - QOI_PADDING_SIZE in
                      let! (ok, mem) := qoi_loop (Z.to_nat pixels) 0 p end_ out qoi_start (ram st) in
                      let st := with_ram st mem in
                      if ok : bool then Ok (Some (out, w, h), st)
                      else
                        let! st := qoi_free st (Some out) in
                        Ok (None, st)
                  end
            end
  end.
End Qoi.
