(* ===== verification/QoiProps.v ===== *)
(** * Correctness of the QOI decoder

    The format is given by its chunks: [expand] is the sequence of pixels a
    sequence of chunks stands for, [chunk_bytes] how a chunk is written.  The
    decoder is shown to be safe on every input and to write the pixels of
    every well-formed file. *)

From S2P Require Import Prelude CInt Memmap MemmapSem Separate Sanitise RangeAlloc Pmm PmmFacts PmmProps Qoi.

(** ** Bytes of the file *)
Lemma byte_at_post p i E :
  Forall is_byte p -> 0 <= i < Z.of_nat (length p) -> res_post is_byte E (byte_at p i).
Proof.
  intros Hp Hi. unfold byte_at. rewrite (proj2 (Z.ltb_ge _ _)) by lia.
  apply rd_post; [lia|]. intros x Hx. rewrite Forall_lookup in Hp. eauto.
Qed.

Lemma byte_at_app pre b post : byte_at (pre ++ b :: post) (Z.of_nat (length pre)) = Ok b.
Proof.
  unfold byte_at. rewrite (proj2 (Z.ltb_ge _ _)) by lia. rewrite Nat2Z.id.
  apply rd_lookup. by apply list_lookup_middle.
Qed.

Lemma byte_at_mid pre bs post i b :
  bs !! i = Some b -> byte_at (pre ++ bs ++ post) (Z.of_nat (length pre) + Z.of_nat i) = Ok b.
Proof.
  intros Hi. unfold byte_at. rewrite (proj2 (Z.ltb_ge _ _)) by lia.
  replace (Z.to_nat _) with (length pre + i)%nat by lia. apply rd_lookup.
  rewrite lookup_app_r by lia. replace (length pre + i - length pre)%nat with i by lia.
  by apply lookup_app_l_Some.
Qed.

(** ** Safety of one pixel *)
Record qoi_ok (end_ : Z) (s : qoi) : Prop := {
  qk_index : length (q_index s) = 64%nat;
  qk_pos : 0 <= q_pos s <= end_;
}.

Lemma QOI_HASH_range r g b a : 0 <= QOI_HASH r g b a < 64.
Proof. unfold QOI_HASH. change 63 with (Z.ones 6). rewrite Z.land_ones by lia. apply Z.mod_pos_bound. lia. Qed.

Lemma remember_ok end_ s E : qoi_ok end_ s -> res_post (qoi_ok end_) E (remember s).
Proof.
  intros [Hi Hp]. unfold remember. pose proof (QOI_HASH_range (q_r s) (q_g s) (q_b s) (q_a s)).
  rewrite wr_lt by lia. cbn. split; cbn; [by rewrite length_insert|done].
Qed.

Lemma land_63_lt op : (Z.to_nat (Z.land op 0x3f) < 64)%nat.
Proof. change 0x3f with (Z.ones 6). rewrite Z.land_ones by lia. pose proof (Z.mod_pos_bound op (2 ^ 6)). lia. Qed.

Section Safe.
Variable p : list Z.
Variable end_ : Z.
Hypothesis Hbytes : Forall is_byte p.
Hypothesis Hend : end_ <= Z.of_nat (length p).

Definition op_post (o : option qoi) : Prop := match o with Some s => qoi_ok end_ s | None => True end.

Ltac read_byte := eapply res_post_bind; [apply byte_at_post; [done|lia]|intros ? _].
Ltac op_done := cbn; split; cbn; [done|lia].

Lemma qoi_apply_safe op s : qoi_ok end_ s -> res_post op_post no_panic (qoi_apply p end_ op s).
Proof.
  destruct s as [index run r g b a pos]. intros [Hi Hp]. cbn in Hi, Hp. unfold qoi_apply.
  repeat match goal with
         | |- res_post _ _ (if ?c then _ else _) => destruct c eqn:?; bool_hyps
         end; try done; repeat read_byte; try op_done.
  eapply res_post_bind; [apply rd_post; [rewrite Hi; apply land_63_lt|intros x _; exact I]|].
  intros v _. op_done.
Qed.

Lemma qoi_op_safe s : qoi_ok end_ s -> res_post op_post no_panic (qoi_op p end_ s).
Proof.
  intros Hs. unfold qoi_op. destruct (end_ <=? q_pos s) eqn:E; bool_hyps; [done|].
  pose proof (qk_pos _ _ Hs). read_byte.
  eapply res_post_bind; [apply qoi_apply_safe; split; cbn; [apply Hs|lia]|].
  intros [s'|] Hs'; [|done]. eapply res_post_bind; [by apply remember_ok|]. done.
Qed.

Lemma qoi_pixel_safe s : qoi_ok end_ s -> res_post op_post no_panic (qoi_pixel p end_ s).
Proof.
  intros Hs. unfold qoi_pixel. destruct (0 <? q_run s); [|by apply qoi_op_safe].
  destruct Hs. cbn. by split.
Qed.

(** Outside the pixels of the loop, memory stays as it was. *)
Lemma qoi_loop_safe n : forall px out s mem, qoi_ok end_ s ->
  res_post (fun r => forall a, ~ (out + 4 * px <= a < out + 4 * (px + Z.of_nat n)) -> r.2 a = mem a)
    no_panic (qoi_loop n px p end_ out s mem).
Proof.
  induction n as [|n IH]; intros px out s mem Hs; cbn [qoi_loop]; [done|].
  eapply res_post_bind; [by apply qoi_pixel_safe|]. intros [s'|] Hs'; [|done].
  eapply res_post_mono; [by apply IH| |done]. intros [ok m] Hm a Ha. cbn in *.
  rewrite Hm by lia. unfold store. rewrite (proj2 (andb_false_iff _ _)); [done|].
  rewrite Z.leb_gt, Z.ltb_ge. lia.
Qed.
End Safe.

(** ** Integers in memory *)
Lemma load_agree mem mem' a n :
  (forall x, a <= x < a + Z.of_nat n -> mem' x = mem x) -> load mem' a n = load mem a n.
Proof.
  intros H. unfold load. f_equal. apply map_ext_in. intros x Hx.
  apply list_elem_of_In, elem_of_seqZ in Hx. apply H. lia.
Qed.

Lemma load_store mem a n v : load (store mem a n v) a n = v mod 256 ^ Z.of_nat n.
Proof.
  unfold load. rewrite <- le_val_bytes. f_equal. apply list_eq. intros i.
  change (map (store mem a n v)) with (fmap (M := list) (store mem a n v)). rewrite list_lookup_fmap.
  destruct (decide (i < n)%nat) as [Hi|Hi].
  - rewrite (lookup_seqZ_lt _ _ i) by lia. cbn. unfold store.
    rewrite (proj2 (andb_true_iff _ _)) by (rewrite Z.leb_le, Z.ltb_lt; lia).
    replace (Z.to_nat (a + Z.of_nat i - a)) with i by lia.
    destruct (lookup_lt_is_Some_2 (le_bytes n v) i) as [x Hx]; [rewrite length_le_bytes; lia|].
    rewrite Hx. f_equal. by apply nth_lookup_Some.
  - rewrite (lookup_seqZ_ge _ _ i) by lia. cbn. symmetry. apply lookup_ge_None. rewrite length_le_bytes. lia.
Qed.

Lemma load_store_ne mem a n v b k :
  b + Z.of_nat k <= a \/ a + Z.of_nat n <= b -> load (store mem a n v) b k = load mem b k.
Proof.
  intros H. apply load_agree. intros x Hx. unfold store.
  rewrite (proj2 (andb_false_iff _ _)); [done|]. rewrite Z.leb_gt, Z.ltb_ge. lia.
Qed.

(** ** Whole calls *)
Section Whole.
Variable max_entries : nat.
Variables x86 i386 : bool.
Variable size_bits : Z.
Hypothesis Hwidth : size_bits = 32 \/ size_bits = 64.

Lemma size_bytes_bits : 256 ^ Z.of_nat (size_bytes size_bits) = 2 ^ size_bits /\ (size_bytes size_bits <= 8)%nat.
Proof. destruct Hwidth as [-> | ->]; split; vm_compute; try done; lia. Qed.

(** A block for [pixels] pixels, whose first bytes hold its size. *)
Record pixel_block (st st' : pmm) (out pixels : Z) : Prop := {
  pb_inv : pmm_inv max_entries st';
  pb_open : allocations_disallowed st' = false;
  pb_keep : pmm_sanitiser_keep_first_page st' = pmm_sanitiser_keep_first_page st;
  pb_align : (out - 16) mod 4096 = 0;
  pb_block : exists n top, round_count (16 + 4 * pixels) 4096 = Some n /\ 16 + 4 * pixels <= n /\
             allocated st st' (out - 16) n top MEMMAP_BOOTLOADER_RECLAIMABLE /\
             forall a, ~ inside (out - 16) (out - 16 + n) a -> ram st' a = ram st a;
  pb_size : load (ram st') (out - 16) (size_bytes size_bits) = 16 + 4 * pixels;
}.

(** Why an allocation can fail: no usable entry has the room. *)
Definition refused_block (st : pmm) (pixels : Z) : Prop :=
  exists n, round_count (16 + 4 * pixels) 4096 = Some n /\ no_room (memmap st) (alloc_limit x86 false) n 4096.

Lemma qoi_alloc_spec st pixels :
  pmm_inv max_entries st -> allocations_disallowed st = false -> 0 < pixels <= QOI_MAX_PIXELS ->
  res_post (fun r => match r.1 with
                     | Some out => pixel_block st r.2 out pixels
                     | None => r.2 = st /\ refused_block st pixels
                     end) exhausted
    (qoi_alloc_xrgb max_entries x86 i386 size_bits st pixels).
Proof.
  intros Hinv Hopen Hpx. unfold qoi_alloc_xrgb, QOI_MAX_PIXELS in *.
  assert (2 ^ 32 <= 2 ^ size_bits) by (destruct Hwidth as [-> | ->]; lia).
  rewrite (proj2 (checked_mul_Some size_bits pixels 4 (pixels * 4))) by (split; [done|lia]).
  rewrite (proj2 (checked_add_Some size_bits (pixels * 4) 16 (pixels * 4 + 16))) by (split; [done|lia]).
  replace (pixels * 4 + 16) with (16 + 4 * pixels) by lia. remember (16 + 4 * pixels) as total eqn:Etotal.
  pose proof (ext_mem_alloc_impl_spec max_entries x86 i386 st total MEMMAP_BOOTLOADER_RECLAIMABLE 4096
    false false Hinv Hopen ltac:(lia) ltac:(lia)) as Hal.
  unfold ext_mem_alloc_nopanic. eapply res_post_bind.
  - eapply res_post_mono; [exact Hal|intros r Hr; exact Hr|].
    intros msg [?|[[Hr _]|(? & _)]]; [done| |done]. exfalso. revert Hr. unfold round_count.
    rewrite (proj2 (Z.eqb_neq total 0)) by lia. rewrite (wrap_small 64 (4096 - 1)) by lia.
    by rewrite (proj2 (checked_add_Some 64 total (4096 - 1) (total + (4096 - 1)))) by (split; [done|lia]).
  - intros [[raw|] st1] Hr; cbn [fst snd] in Hr.
    2: { destruct Hr as (_ & -> & n & Hn & Hno). cbn. split; [done|]. exists n. by rewrite <- Etotal. }
    destruct Hr as [Hinv1 Hmod [Hop Hkeep] (n & top & Hn & Hcn & _ & Hblk & Hram)].
    cbn [res_post fst snd]. pose proof (al_size _ _ _ _ _ _ Hblk) as Hsz.
    destruct size_bytes_bits as [Hsb1 Hsb2]. split; rewrite <- ?Etotal; cbn [ram with_ram allocations_disallowed]; try done.
    + by rewrite Hop.
    + by replace (raw + 16 - 16) with raw by lia.
    + replace (raw + 16 - 16) with raw by lia. exists n, top. split_and!; [done|lia| |].
      * destruct Hblk. by split.
      * intros a Ha. unfold store, inside in *.
        rewrite (proj2 (andb_false_iff _ _)) by (rewrite Z.leb_gt, Z.ltb_ge; lia).
        rewrite Hram, <- andb_assoc, (proj2 (andb_false_iff (raw <=? a) (a <? raw + n)))
          by (rewrite Z.leb_gt, Z.ltb_ge; lia). by rewrite andb_false_r.
    + replace (raw + 16 - 16) with raw by lia. rewrite load_store, Hsb1. apply Z.mod_small. lia.
Qed.

Lemma round_count_align_up count n :
  0 < count < 2 ^ 63 -> round_count count 4096 = Some n ->
  ALIGN_UP (if count =? 0 then 1 else count) 4096 = Some n.
Proof.
  intros Hc. unfold round_count, align_up, div_roundup.
  rewrite (proj2 (Z.eqb_neq count 0)), (wrap_small 64 (4096 - 1)) by lia.
  rewrite (proj2 (checked_add_Some 64 count (4096 - 1) (count + (4096 - 1)))) by (split; [done|lia]).
  intros [= <-]. f_equal. pose proof (align_down_spec (count + (4096 - 1)) 4096 ltac:(lia)).
  apply wrap_small. unfold align_down in *. lia.
Qed.

(** What is given back: all but the odd bytes above the block. *)
Definition given_back (st st' : pmm) : Prop :=
  (forall a, usable_at (memmap st') a -> usable_at (memmap st) a) /\
  exists b top, forall a, ~ inside b top a -> usable_at (memmap st') a <-> usable_at (memmap st) a.

Lemma qoi_free_spec st st1 out pixels mem :
  pmm_inv max_entries st -> pixel_block st st1 out pixels -> 0 < pixels <= QOI_MAX_PIXELS ->
  load mem (out - 16) (size_bytes size_bits) = 16 + 4 * pixels ->
  res_post (fun st' => pmm_inv max_entries st' /\ given_back st st') exhausted
    (qoi_free max_entries size_bits (with_ram st1 mem) (Some out)).
Proof.
  intros Hinv [Hinv1 Hop Hkeep Hmod (n & top & Hn & Hle & Hblk & _) _] Hpx Hld.
  unfold qoi_free. cbn [ram with_ram]. rewrite Hld. unfold QOI_MAX_PIXELS in *.
  pose proof (al_size _ _ _ _ _ _ Hblk) as Hsz.
  eapply res_post_mono; [apply (pmm_free_spec max_entries (with_ram st1 mem) (out - 16) (16 + 4 * pixels) n)| |done].
  - exact Hinv1.
  - exact Hop.
  - lia.
  - done.
  - lia.
  - apply round_count_align_up; [lia|done].
  - lia.
  - intros st' (Hinv' & _ & [_ _ Hu]). cbn [pmm_sanitiser_keep_first_page with_ram memmap] in Hu. rewrite Hkeep in Hu.
    assert (forall a, inside (out - 16) top a -> usable_at (memmap st) a) as Hfresh by apply Hblk.
    assert (forall a, free_at (memmap st1) a -> usable_at (memmap st) a) as Hsub.
    { intros a [Ha _]. destruct (decide (inside (out - 16) top a)) as [Hin|Hin]; [by apply Hfresh|].
      by apply (al_usable _ _ _ _ _ _ Hblk a Hin). }
    split; [done|]. split.
    + intros a Ha. apply Hu in Ha as [_ [[Hin _]|[_ Hf]]]; [|by apply Hsub].
      apply Hfresh. unfold inside in *. lia.
    + exists (out - 16 + n), top. intros a Ha. split.
      { intros Hx. apply Hu in Hx as [_ [[Hin _]|[_ Hf]]]; [|by apply Hsub].
        apply Hfresh. unfold inside in *. lia. }
      intros Hx. apply Hu. pose proof Hx as Hx'. apply (sanitised_usable _ _ _ _ _ Hinv) in Hx' as [_ Hk].
      split; [done|]. destruct (decide (inside (out - 16) (out - 16 + n) a)) as [Hin|Hin]; [by left|right].
      split; [done|]. apply (al_usable _ _ _ _ _ _ Hblk a) in Hx; [|unfold inside in *; lia].
      by apply (sanitised_usable _ _ _ _ _ Hinv1) in Hx as [? _].
Qed.

Definition decode_post (st : pmm) (r : option (Z * Z * Z) * pmm) : Prop :=
  match r.1 with
  | Some (out, w, h) =>
      0 < w <= QOI_MAX_DIM /\ 0 < h <= QOI_MAX_DIM /\ w * h <= QOI_MAX_PIXELS /\
      pixel_block st r.2 out (w * h)
  | None => pmm_inv max_entries r.2 /\ given_back st r.2
  end.

Lemma given_back_refl st : given_back st st.
Proof. split; [done|]. by exists 0, 0. Qed.

(** The part of the function behind the header checks. *)
Lemma decode_pixels_spec st p w h :
  pmm_inv max_entries st -> allocations_disallowed st = false ->
  Forall is_byte p -> QOI_HEADER_SIZE + QOI_PADDING_SIZE <= Z.of_nat (length p) ->
  0 < w <= QOI_MAX_DIM -> 0 < h <= QOI_MAX_DIM -> w * h <= QOI_MAX_PIXELS ->
  res_post (decode_post st) exhausted
    (let! (out, st) := qoi_alloc_xrgb max_entries x86 i386 size_bits st (w * h) in
     match out with
     | None => Ok (None, st)
     | Some out =>
         let end_ := Z.of_nat (length p) - QOI_PADDING_SIZE in
         let! (ok, mem) := qoi_loop (Z.to_nat (w * h)) 0 p end_ out qoi_start (ram st) in
         let st := with_ram st mem in
         if ok : bool then Ok (Some (out, w, h), st)
         else let! st := qoi_free max_entries size_bits st (Some out) in Ok (None, st)
     end).
Proof.
  intros Hinv Hop Hp Hlen Hw Hh Hpx. unfold QOI_HEADER_SIZE, QOI_PADDING_SIZE in *.
  eapply res_post_bind; [apply (qoi_alloc_spec st (w * h) Hinv Hop); nia|].
  intros [[out|] st1] Hr; cbn [fst snd] in Hr.
  2: { destruct Hr as [-> _]. cbn. split; [done|apply given_back_refl]. }
  cbn zeta.
  eapply res_post_bind.
  { eapply res_post_mono; [apply (qoi_loop_safe p _ Hp); [lia|split; cbn; unfold QOI_HEADER_SIZE; [done|lia]]|
      intros r Hm; exact Hm|done]. }
  intros [ok mem] Hmem. cbn [snd] in Hmem. rewrite Z2Nat.id in Hmem by nia.
  destruct size_bytes_bits as [_ Hsb].
  assert (load mem (out - 16) (size_bytes size_bits) = 16 + 4 * (w * h)) as Hld.
  { rewrite <- (pb_size _ _ _ _ Hr). apply load_agree. intros x Hx. apply Hmem. lia. }
  destruct ok; cbn [res_post decode_post fst snd].
  - split_and!; [lia..|]. destruct Hr as [H1 H2 H3 H4 (n & top & Hn & Hle & Hblk & Hram) H5].
    split; cbn [ram with_ram]; try done. exists n, top. split_and!; [done|done|by destruct Hblk; split|].
    intros a Ha. rewrite Hmem by (unfold inside in Ha; lia). by apply Hram.
  - eapply res_post_bind; [apply (qoi_free_spec st st1 out (w * h) mem Hinv Hr); [nia|done]|].
    intros st' [Hi Hg]. cbn. done.
Qed.
End Whole.

Lemma qoi_be32_bytes b0 b1 b2 b3 :
  is_byte b0 -> is_byte b1 -> is_byte b2 -> is_byte b3 ->
  Z.lor (Z.lor (Z.lor (Z.shiftl b0 24) (Z.shiftl b1 16)) (Z.shiftl b2 8)) b3
  = ((b0 * 256 + b1) * 256 + b2) * 256 + b3.
Proof.
  unfold is_byte. intros H0 H1 H2 H3.
  replace (Z.shiftl b0 24) with (Z.shiftl (Z.shiftl b0 8) 16) by (by rewrite Z.shiftl_shiftl by lia).
  rewrite <- Z.shiftl_lor, (shiftl_lor_low b0 b1 8) by lia.
  replace (Z.shiftl (b0 * 2 ^ 8 + b1) 16) with (Z.shiftl (Z.shiftl (b0 * 2 ^ 8 + b1) 8) 8)
    by (by rewrite Z.shiftl_shiftl by lia).
  rewrite <- Z.shiftl_lor, (shiftl_lor_low _ b2 8) by lia.
  rewrite (shiftl_lor_low _ b3 8) by lia. lia.
Qed.

Lemma qoi_be32_post p i :
  Forall is_byte p -> 0 <= i -> i + 4 <= Z.of_nat (length p) ->
  res_post (fun v => 0 <= v < 2 ^ 32) no_panic (qoi_be32 p i).
Proof.
  intros Hp Hi Hl. unfold qoi_be32.
  do 4 (eapply res_post_bind; [apply byte_at_post; [done|lia]|intros ? ?]).
  cbn. rewrite qoi_be32_bytes by done. unfold is_byte in *. lia.
Qed.

Lemma qoi_decode_spec max_entries x86 i386 size_bits st src :
  size_bits = 32 \/ size_bits = 64 ->
  pmm_inv max_entries st -> allocations_disallowed st = false -> (forall p, src = Some p -> Forall is_byte p) ->
  res_post (decode_post max_entries size_bits st) exhausted
    (qoi_decode max_entries x86 i386 size_bits st src).
Proof.
  intros Hwidth Hinv Hop Hsrc.
  assert (decode_post max_entries size_bits st (None, st)) as Hnone
    by (split; [done|apply given_back_refl]).
  unfold qoi_decode. destruct src as [p|]; [|done]. specialize (Hsrc p eq_refl).
  destruct (Z.of_nat (length p) <? _) eqn:Hlen; bool_hyps; [done|].
  pose proof Hlen as Hlen'. unfold QOI_HEADER_SIZE, QOI_PADDING_SIZE in Hlen'.
  do 4 (eapply res_post_bind; [apply byte_at_post; [done|lia]|intros ? _]).
  case_if; [done|].
  do 2 (eapply res_post_bind; [eapply res_post_mono; [apply qoi_be32_post; [done|lia|lia]|intros x Hx; exact Hx|done]|intros ? ?]).
  eapply res_post_bind; [apply byte_at_post; [done|lia]|intros ? _].
  case_if; [done|]. destruct (negb (a5 =? 3) && negb (a5 =? 4)); [done|].
  destruct (checked_mul size_bits a3 a4) as [px|] eqn:Hpx; [|done].
  apply checked_mul_Some in Hpx as [-> _]. case_if; [done|].
  apply decode_pixels_spec; try done; unfold QOI_MAX_DIM in *; lia.
Qed.

(** ** The format *)
Record pixel := MkPixel { p_r : Z; p_g : Z; p_b : Z; p_a : Z }.

Inductive chunk :=
| CRgb (r g b : Z)
| CRgba (r g b a : Z)
| CIndex (i : Z)
| CDiff (dr dg db : Z)
| CLuma (dg dr_dg db_dg : Z)
| CRun (n : Z).

Definition chunk_ok (c : chunk) : Prop :=
  match c with
  | CRgb r g b => is_byte r /\ is_byte g /\ is_byte b
  | CRgba r g b a => is_byte r /\ is_byte g /\ is_byte b /\ is_byte a
  | CIndex i => 0 <= i < 64
  | CDiff dr dg db => -2 <= dr <= 1 /\ -2 <= dg <= 1 /\ -2 <= db <= 1
  | CLuma dg dr_dg db_dg => -32 <= dg <= 31 /\ -8 <= dr_dg <= 7 /\ -8 <= db_dg <= 7
  | CRun n => 1 <= n <= 62
  end.

Definition chunk_bytes (c : chunk) : list Z :=
  match c with
  | CRgb r g b => [0xfe; r; g; b]
  | CRgba r g b a => [0xff; r; g; b; a]
  | CIndex i => [i]
  | CDiff dr dg db => [0x40 + (dr + 2) * 16 + (dg + 2) * 4 + (db + 2)]
  | CLuma dg dr_dg db_dg => [0x80 + (dg + 32); (dr_dg + 8) * 16 + (db_dg + 8)]
  | CRun n => [0xc0 + (n - 1)]
  end.

(** The pixel a chunk stands for, after [prev], with the table of seen pixels. *)
Definition chunk_pixel (prev : pixel) (table : list pixel) (c : chunk) : pixel :=
  match c with
  | CRgb r g b => MkPixel r g b (p_a prev)
  | CRgba r g b a => MkPixel r g b a
  | CIndex i => nth (Z.to_nat i) table prev
  | CDiff dr dg db => MkPixel ((p_r prev + dr) mod 256) ((p_g prev + dg) mod 256)
                        ((p_b prev + db) mod 256) (p_a prev)
  | CLuma dg dr_dg db_dg =>
      MkPixel ((p_r prev + dg + dr_dg) mod 256) ((p_g prev + dg) mod 256)
        ((p_b prev + dg + db_dg) mod 256) (p_a prev)
  | CRun _ => prev
  end.

Definition chunk_count (c : chunk) : nat := match c with CRun n => Z.to_nat n | _ => 1%nat end.

Definition pixel_hash (x : pixel) : nat :=
  Z.to_nat ((p_r x * 3 + p_g x * 5 + p_b x * 7 + p_a x * 11) mod 64).

Fixpoint expand (prev : pixel) (table : list pixel) (cs : list chunk) : list pixel :=
  match cs with
  | [] => []
  | c :: cs =>
      let x := chunk_pixel prev table c in
      replicate (chunk_count c) x ++ expand x (<[pixel_hash x := x]> table) cs
  end.

Definition image_of (cs : list chunk) : list pixel :=
  expand (MkPixel 0 0 0 255) (replicate 64 (MkPixel 0 0 0 0)) cs.

Definition be32 (z : Z) : list Z := [z / 2 ^ 24 mod 256; z / 2 ^ 16 mod 256; z / 2 ^ 8 mod 256; z mod 256].

(** A file: header, chunks and the 8 bytes that end it. *)
Definition qoi_file (w h channels colorspace : Z) (cs : list chunk) (padding : list Z) : list Z :=
  [0x71; 0x6f; 0x69; 0x66] ++ be32 w ++ be32 h ++ [channels; colorspace]
  ++ concat (map chunk_bytes cs) ++ padding.

Definition xrgb_word (x : pixel) : Z := p_r x * 65536 + p_g x * 256 + p_b x.

(** ** Bits of an operation byte *)
Definition byte_forall (f : Z -> bool) : bool := forallb f (seqZ 0 256).

Lemma byte_forall_spec f b : byte_forall f = true -> is_byte b -> f b = true.
Proof.
  intros H Hb. unfold byte_forall in H. rewrite forallb_forall in H. apply H.
  apply list_elem_of_In, elem_of_seqZ. unfold is_byte in Hb. lia.
Qed.

Lemma op_tag op : is_byte op -> Z.land op QOI_OP_MASK = op / 64 * 64.
Proof.
  intros H. apply Z.eqb_eq. apply (byte_forall_spec (fun op => Z.land op QOI_OP_MASK =? op / 64 * 64)); [|done].
  by vm_compute.
Qed.

Lemma land_low op k : 0 <= k -> Z.land op (Z.ones k) = op mod 2 ^ k.
Proof. apply Z.land_ones. Qed.

Definition pixel_ok (x : pixel) : Prop := is_byte (p_r x) /\ is_byte (p_g x) /\ is_byte (p_b x) /\ is_byte (p_a x).

Definition pack_pixel (x : pixel) : Z := pack_rgba (p_r x) (p_g x) (p_b x) (p_a x).

Lemma pack_rgba_val r g b a :
  is_byte r -> is_byte g -> is_byte b -> is_byte a ->
  pack_rgba r g b a = r + 256 * (g + 256 * (b + 256 * a)).
Proof.
  intros. unfold pack_rgba. pose proof (qoi_be32_bytes a b g r ltac:(done) ltac:(done) ltac:(done) ltac:(done)) as E.
  rewrite (Z.lor_comm _ (Z.shiftl a 24)), (Z.lor_comm _ (Z.shiftl b 16)), (Z.lor_comm r), !Z.lor_assoc, E. lia.
Qed.

Lemma unpack_rgba r g b a :
  is_byte r -> is_byte g -> is_byte b -> is_byte a ->
  u8 (pack_rgba r g b a) = r /\ u8 (Z.shiftr (pack_rgba r g b a) 8) = g /\
  u8 (Z.shiftr (pack_rgba r g b a) 16) = b /\ u8 (Z.shiftr (pack_rgba r g b a) 24) = a.
Proof.
  intros. rewrite pack_rgba_val by done. rewrite !Z.shiftr_div_pow2 by lia. unfold wrap, is_byte in *.
  split_and!; symmetry.
  - apply Z.mod_unique with (g + 256 * (b + 256 * a)); lia.
  - apply Z.mod_unique with (b + 256 * a); [lia|]. symmetry. apply Z.div_unique with r; lia.
  - apply Z.mod_unique with a; [lia|]. symmetry. apply Z.div_unique with (r + 256 * g); lia.
  - apply Z.mod_unique with 0; [lia|]. symmetry. apply Z.div_unique with (r + 256 * (g + 256 * b)); lia.
Qed.

(** ** One chunk *)
Record tracks (s : qoi) (prev : pixel) (table : list pixel) (pos : Z) : Prop := {
  tk_state : s = MkQoi (map pack_pixel table) 0 (p_r prev) (p_g prev) (p_b prev) (p_a prev) pos;
  tk_prev : pixel_ok prev;
  tk_size : length table = 64%nat;
  tk_table : Forall pixel_ok table;
}.

Definition after_chunk (x : pixel) (table : list pixel) (run pos : Z) : qoi :=
  MkQoi (map pack_pixel (<[pixel_hash x := x]> table)) run (p_r x) (p_g x) (p_b x) (p_a x) pos.

Lemma remember_pixel x table run pos :
  pixel_ok x -> length table = 64%nat ->
  remember (MkQoi (map pack_pixel table) run (p_r x) (p_g x) (p_b x) (p_a x) pos)
  = Ok (after_chunk x table run pos).
Proof.
  intros (Hr & Hg & Hb & Ha) Hlen. unfold remember, after_chunk. cbn [q_index q_r q_g q_b q_a q_run q_pos].
  pose proof (QOI_HASH_range (p_r x) (p_g x) (p_b x) (p_a x)) as Hh.
  rewrite wr_lt by (rewrite length_map; lia). cbn [rbind]. do 2 f_equal.
  change (map pack_pixel) with (fmap (M := list) pack_pixel). rewrite list_fmap_insert. f_equal.
  unfold pixel_hash, QOI_HASH. change 63 with (Z.ones 6). by rewrite Z.land_ones by lia.
Qed.

Lemma chunk_pixel_ok prev table c :
  pixel_ok prev -> Forall pixel_ok table -> chunk_ok c -> pixel_ok (chunk_pixel prev table c).
Proof.
  intros Hp Ht Hc. pose proof Hp as (? & ? & ? & ?).
  destruct c; cbn in *; unfold pixel_ok; cbn; try (by split_and!; try tauto);
    try (split_and!; unfold is_byte in *; try (apply Z.mod_pos_bound; lia); lia).
  destruct (nth_in_or_default (Z.to_nat i) table prev) as [Hin| ->]; [|done].
  rewrite Forall_forall in Ht. apply Ht. by apply list_elem_of_In.
Qed.

Lemma chunk_bytes_ok c : chunk_ok c -> Forall is_byte (chunk_bytes c).
Proof. destruct c; cbn; intros; repeat constructor; unfold is_byte in *; lia. Qed.

Section Chunk.
Variables (pre post : list Z) (c : chunk) (end_ : Z).
Hypothesis Hc : chunk_ok c.
Hypothesis Hfit : Z.of_nat (length pre) + Z.of_nat (length (chunk_bytes c)) <= end_.

Let p : list Z := pre ++ chunk_bytes c ++ post.
Let pos : Z := Z.of_nat (length pre).

Lemma chunk_read x i b : x = pos + Z.of_nat i -> chunk_bytes c !! i = Some b -> byte_at p x = Ok b.
Proof. intros ->. apply byte_at_mid. Qed.

(** The state a chunk leads to, before the table is updated. *)
Definition at_pixel (x : pixel) (table : list pixel) (run pos : Z) : qoi :=
  MkQoi (map pack_pixel table) run (p_r x) (p_g x) (p_b x) (p_a x) pos.

Definition applied (prev : pixel) (table : list pixel) (op : Z) : Prop :=
  qoi_apply p end_ op (at_pixel prev table 0 (pos + 1)) =
  Ok (Some (at_pixel (chunk_pixel prev table c) table (Z.of_nat (chunk_count c) - 1)
              (pos + Z.of_nat (length (chunk_bytes c))))).

Lemma qoi_op_chunk s prev table op :
  tracks s prev table pos -> chunk_bytes c !! 0%nat = Some op -> applied prev table op ->
  qoi_op p end_ s =
  Ok (Some (after_chunk (chunk_pixel prev table c) table (Z.of_nat (chunk_count c) - 1)
              (pos + Z.of_nat (length (chunk_bytes c))))).
Proof.
  intros [-> Hprev Hsize Htable] Hop Happ. unfold qoi_op. cbn [q_pos].
  pose proof (lookup_lt_Some _ _ _ Hop) as Hpos.
  rewrite (proj2 (Z.leb_gt end_ pos)) by (unfold pos; lia).
  rewrite (chunk_read pos 0%nat op) by (done || lia). cbn [rbind].
  unfold advance. cbn [q_index q_run q_r q_g q_b q_a q_pos]. unfold applied, at_pixel in Happ. rewrite Happ. cbn [rbind].
  rewrite remember_pixel by (done || by apply chunk_pixel_ok). done.
Qed.
End Chunk.

(** ** Each kind of chunk *)
Lemma apply_rgb pre post r g b end_ prev table :
  chunk_ok (CRgb r g b) -> Z.of_nat (length pre) + 4 <= end_ ->
  applied pre post (CRgb r g b) end_ prev table 0xfe.
Proof.
  intros Hc Hfit. unfold applied, qoi_apply, at_pixel. change (0xfe =? QOI_OP_RGB) with true. cbn iota.
  rewrite (proj2 (Z.ltb_ge _ _)) by lia.
  rewrite (chunk_read pre post (CRgb r g b) _ 1%nat r), (chunk_read pre post (CRgb r g b) _ 2%nat g),
    (chunk_read pre post (CRgb r g b) _ 3%nat b) by (done || lia).
  cbn. do 3 f_equal. lia.
Qed.

Lemma apply_rgba pre post r g b a end_ prev table :
  chunk_ok (CRgba r g b a) -> Z.of_nat (length pre) + 5 <= end_ ->
  applied pre post (CRgba r g b a) end_ prev table 0xff.
Proof.
  intros Hc Hfit. unfold applied, qoi_apply, at_pixel.
  change (0xff =? QOI_OP_RGB) with false. change (0xff =? QOI_OP_RGBA) with true. cbn iota.
  rewrite (proj2 (Z.ltb_ge _ _)) by lia.
  rewrite (chunk_read pre post (CRgba r g b a) _ 1%nat r), (chunk_read pre post (CRgba r g b a) _ 2%nat g),
    (chunk_read pre post (CRgba r g b a) _ 3%nat b), (chunk_read pre post (CRgba r g b a) _ 4%nat a) by (done || lia).
  cbn. do 3 f_equal. lia.
Qed.

(** The tests of an operation byte of the two-bit kinds. *)
Lemma apply_tag op k x :
  op = k * 64 + x -> 0 <= k < 4 -> 0 <= x < 64 -> op < 0xfe ->
  is_byte op /\ (op =? QOI_OP_RGB) = false /\ (op =? QOI_OP_RGBA) = false /\
  Z.land op QOI_OP_MASK = k * 64 /\ Z.land op 0x3f = x.
Proof.
  intros -> Hk Hx Hop. assert (is_byte (k * 64 + x)) as Hb by (unfold is_byte; lia).
  rewrite op_tag by done. change 0x3f with (Z.ones 6). rewrite Z.land_ones by lia.
  unfold QOI_OP_RGB, QOI_OP_RGBA. split_and!; [done|lia|lia| |].
  - f_equal. symmetry. apply Z.div_unique with x; lia.
  - symmetry. apply Z.mod_unique with k; lia.
Qed.

Lemma apply_index pre post i end_ prev table :
  chunk_ok (CIndex i) -> length table = 64%nat -> Forall pixel_ok table ->
  applied pre post (CIndex i) end_ prev table i.
Proof.
  intros Hc Hsize Htable. cbn in Hc. unfold applied, qoi_apply, at_pixel.
  destruct (apply_tag i 0 i) as (_ & -> & -> & -> & ->); [lia..|]. cbn [Z.mul Z.eqb QOI_OP_INDEX chunk_pixel].
  destruct (lookup_lt_is_Some_2 table (Z.to_nat i) ltac:(lia)) as [x Hx].
  rewrite (nth_lookup_Some _ _ _ _ Hx). rewrite Forall_lookup in Htable.
  destruct (Htable _ _ Hx) as (? & ? & ? & ?).
  rewrite (rd_lookup _ _ (pack_pixel x)) by (rewrite (list_lookup_fmap pack_pixel), Hx; done). cbn [rbind].
  destruct (unpack_rgba (p_r x) (p_g x) (p_b x) (p_a x)) as (E1 & E2 & E3 & E4); [done..|].
  fold (pack_pixel x) in *. rewrite E1, E2, E3, E4. done.
Qed.

Lemma apply_diff pre post dr dg db end_ prev table :
  chunk_ok (CDiff dr dg db) ->
  applied pre post (CDiff dr dg db) end_ prev table (0x40 + (dr + 2) * 16 + (dg + 2) * 4 + (db + 2)).
Proof.
  intros Hc. cbn in Hc. unfold applied, qoi_apply, at_pixel.
  set (op := 0x40 + (dr + 2) * 16 + (dg + 2) * 4 + (db + 2)).
  destruct (apply_tag op 1 ((dr + 2) * 16 + (dg + 2) * 4 + (db + 2))) as (_ & -> & -> & -> & _); [unfold op; lia..|].
  cbn [Z.mul Z.eqb Pos.eqb QOI_OP_INDEX QOI_OP_DIFF chunk_pixel p_r p_g p_b p_a chunk_count chunk_bytes length].
  rewrite !Z.shiftr_div_pow2 by lia. change 3 with (Z.ones 2). rewrite !Z.land_ones by lia.
  replace (op / 2 ^ 4) with (4 + (dr + 2)) by (apply Z.div_unique with ((dg + 2) * 4 + (db + 2)); unfold op; lia).
  replace (op / 2 ^ 2) with (16 + (dr + 2) * 4 + (dg + 2)) by (apply Z.div_unique with (db + 2); unfold op; lia).
  replace ((4 + (dr + 2)) mod 2 ^ 2) with (dr + 2) by (apply Z.mod_unique with 1; lia).
  replace ((16 + (dr + 2) * 4 + (dg + 2)) mod 2 ^ 2) with (dg + 2) by (apply Z.mod_unique with (4 + (dr + 2)); lia).
  replace (op mod 2 ^ 2) with (db + 2)
    by (apply Z.mod_unique with (16 + (dr + 2) * 4 + (dg + 2)); unfold op; lia).
  unfold wrap. do 3 f_equal; (f_equal; lia) || lia.
Qed.

Lemma apply_luma pre post dg dr db end_ prev table :
  chunk_ok (CLuma dg dr db) -> Z.of_nat (length pre) + 2 <= end_ ->
  applied pre post (CLuma dg dr db) end_ prev table (0x80 + (dg + 32)).
Proof.
  intros Hc Hfit. cbn in Hc. unfold applied, qoi_apply, at_pixel.
  destruct (apply_tag (0x80 + (dg + 32)) 2 (dg + 32)) as (_ & -> & -> & -> & ->); [lia..|].
  cbn [Z.mul Pos.mul Z.eqb Pos.eqb QOI_OP_INDEX QOI_OP_DIFF QOI_OP_LUMA chunk_pixel p_r p_g p_b p_a chunk_count].
  rewrite (proj2 (Z.leb_gt _ _)) by lia.
  set (b2 := (dr + 8) * 16 + (db + 8)).
  rewrite (chunk_read pre post (CLuma dg dr db) _ 1%nat b2) by (done || lia). cbn [rbind].
  rewrite !Z.shiftr_div_pow2 by lia. change 0xf with (Z.ones 4). rewrite !Z.land_ones by lia.
  replace (b2 / 2 ^ 4) with (dr + 8) by (apply Z.div_unique with (db + 8); unfold b2; lia).
  replace ((dr + 8) mod 2 ^ 4) with (dr + 8) by (symmetry; apply Z.mod_small; lia).
  replace (b2 mod 2 ^ 4) with (db + 8) by (apply Z.mod_unique with (dr + 8); unfold b2; lia).
  unfold wrap. do 3 f_equal; (f_equal; lia) || (cbn; lia).
Qed.

Lemma apply_run pre post n end_ prev table :
  chunk_ok (CRun n) -> applied pre post (CRun n) end_ prev table (0xc0 + (n - 1)).
Proof.
  intros Hc. cbn in Hc. unfold applied, qoi_apply, at_pixel.
  destruct (apply_tag (0xc0 + (n - 1)) 3 (n - 1)) as (_ & -> & -> & -> & ->); [lia..|].
  cbn. do 3 f_equal; lia.
Qed.

Lemma qoi_op_any pre post c end_ s prev table :
  chunk_ok c -> Z.of_nat (length pre) + Z.of_nat (length (chunk_bytes c)) <= end_ ->
  tracks s prev table (Z.of_nat (length pre)) ->
  qoi_op (pre ++ chunk_bytes c ++ post) end_ s =
  Ok (Some (after_chunk (chunk_pixel prev table c) table (Z.of_nat (chunk_count c) - 1)
              (Z.of_nat (length pre) + Z.of_nat (length (chunk_bytes c))))).
Proof.
  intros Hc Hfit Htr. pose proof (tk_size _ _ _ _ Htr). pose proof (tk_table _ _ _ _ Htr).
  destruct c; (eapply qoi_op_chunk; [done|done|done|reflexivity|]); cbn [chunk_bytes length] in Hfit.
  - apply apply_rgb; [done|lia].
  - apply apply_rgba; [done|lia].
  - by apply apply_index.
  - by apply apply_diff.
  - apply apply_luma; [done|lia].
  - by apply apply_run.
Qed.

(** ** The loop *)
Fixpoint store_words (mem : Z -> Z) (a : Z) (ws : list Z) : Z -> Z :=
  match ws with
  | [] => mem
  | w :: ws => store_words (store mem a 4 w) (a + 4) ws
  end.

Lemma store_words_app mem a ws ws' :
  store_words mem a (ws ++ ws') = store_words (store_words mem a ws) (a + 4 * Z.of_nat (length ws)) ws'.
Proof.
  revert mem a. induction ws as [|w ws IH]; intros mem a; cbn [app store_words length].
  - f_equal. lia.
  - rewrite IH. f_equal. lia.
Qed.

Lemma load_store_words_ne mem a ws b :
  b + 4 <= a -> load (store_words mem a ws) b 4 = load mem b 4.
Proof.
  revert mem a. induction ws as [|w ws IH]; intros mem a Hb; cbn [store_words]; [done|].
  rewrite IH by lia. apply load_store_ne. lia.
Qed.

Lemma load_store_words mem a ws i w :
  ws !! i = Some w -> 0 <= w < 2 ^ 32 -> load (store_words mem a ws) (a + 4 * Z.of_nat i) 4 = w.
Proof.
  revert mem a i. induction ws as [|x ws IH]; intros mem a [|i] Hi Hw; [done..| |]; cbn [store_words].
  - injection Hi as ->. rewrite Z.mul_0_r, Z.add_0_r.
    rewrite load_store_words_ne by lia. rewrite load_store. apply Z.mod_small. lia.
  - replace (a + 4 * Z.of_nat (S i)) with (a + 4 + 4 * Z.of_nat i) by lia. by apply IH.
Qed.

Lemma xrgb_at_pixel x index run pos :
  pixel_ok x -> xrgb (MkQoi index run (p_r x) (p_g x) (p_b x) (p_a x) pos) = xrgb_word x.
Proof.
  intros (Hr & Hg & Hb & _). unfold xrgb, xrgb_word. cbn [q_r q_g q_b].
  pose proof (qoi_be32_bytes 0 (p_r x) (p_g x) (p_b x) ltac:(unfold is_byte; lia) Hr Hg Hb) as E.
  rewrite Z.shiftl_0_l, Z.lor_0_l in E. rewrite E. lia.
Qed.

Section Stream.
Variables (p : list Z) (end_ out : Z).

Lemma run_loop k : forall n px index r g b a pos mem,
  qoi_loop (k + n) px p end_ out (MkQoi index (Z.of_nat k) r g b a pos) mem =
  qoi_loop n (px + Z.of_nat k) p end_ out (MkQoi index 0 r g b a pos)
    (store_words mem (out + 4 * px) (replicate k (xrgb (MkQoi index 0 r g b a pos)))).
Proof.
  induction k as [|k IH]; intros n px index r g b a pos mem.
  - cbn. f_equal. lia.
  - cbn [Nat.add qoi_loop]. unfold qoi_pixel. cbn [q_run q_index q_r q_g q_b q_a q_pos].
    rewrite (proj2 (Z.ltb_lt _ _)) by lia. cbn [rbind].
    replace (Z.of_nat (S k) - 1) with (Z.of_nat k) by lia. rewrite IH.
    replace (px + 1 + Z.of_nat k) with (px + Z.of_nat (S k)) by lia. f_equal.
    cbn [replicate store_words]. replace (out + 4 * (px + 1)) with (out + 4 * px + 4) by lia. done.
Qed.
End Stream.

Lemma chunk_count_pos c : chunk_ok c -> exists k, chunk_count c = S k.
Proof. destruct c; cbn; intros H; try (by exists 0%nat). exists (Z.to_nat (n - 1)). lia. Qed.

Lemma qoi_loop_chunks cs : forall pre post end_ out s prev table px mem,
  Forall chunk_ok cs -> tracks s prev table (Z.of_nat (length pre)) ->
  Z.of_nat (length pre) + Z.of_nat (length (concat (map chunk_bytes cs))) <= end_ ->
  qoi_loop (length (expand prev table cs)) px (pre ++ concat (map chunk_bytes cs) ++ post) end_ out s mem
  = Ok (true, store_words mem (out + 4 * px) (map xrgb_word (expand prev table cs))).
Proof.
  induction cs as [|c cs IH]; intros pre post end_ out s prev table px mem Hok Htr Hfit; [done|].
  apply Forall_cons in Hok as [Hc Hok]. cbn [map concat expand] in *. rewrite length_app in Hfit.
  pose proof (chunk_pixel_ok prev table c (tk_prev _ _ _ _ Htr) (tk_table _ _ _ _ Htr) Hc) as Hpx.
  set (x := chunk_pixel prev table c) in *. rewrite <- !app_assoc, length_app, length_replicate, map_app.
  destruct (chunk_count_pos c Hc) as [k Hk]. rewrite Hk. cbn [Nat.add qoi_loop].
  unfold qoi_pixel. rewrite (tk_state _ _ _ _ Htr) at 1. cbn [q_run Z.ltb Z.compare].
  rewrite (qoi_op_any pre _ c end_ s prev table Hc ltac:(lia) Htr). fold x. cbn [rbind].
  unfold after_chunk. rewrite Hk. replace (Z.of_nat (S k) - 1) with (Z.of_nat k) by lia.
  rewrite run_loop, !xrgb_at_pixel by done.
  rewrite (app_assoc pre). rewrite (IH (pre ++ chunk_bytes c) post).
  - do 2 f_equal. rewrite store_words_app, length_map, length_replicate.
    replace (out + 4 * (px + 1 + Z.of_nat k)) with (out + 4 * px + 4 * Z.of_nat (S k)) by lia. f_equal.
    cbn [replicate map store_words].
    replace (out + 4 * (px + 1)) with (out + 4 * px + 4) by lia. f_equal.
    clear. induction k; cbn; congruence.
  - done.
  - split; [|done| |].
    + f_equal. rewrite length_app. lia.
    + rewrite length_insert. apply (tk_size _ _ _ _ Htr).
    + apply Forall_insert; [apply (tk_table _ _ _ _ Htr)|done].
  - rewrite length_app. lia.
Qed.

(** ** The whole file *)
Lemma be32_val z :
  0 <= z < 2 ^ 32 ->
  ((z / 2 ^ 24 mod 256 * 256 + z / 2 ^ 16 mod 256) * 256 + z / 2 ^ 8 mod 256) * 256 + z mod 256 = z.
Proof. intros. Z.div_mod_to_equations. lia. Qed.

Lemma byte_mod z : is_byte (z mod 256).
Proof. apply Z.mod_pos_bound. lia. Qed.

Lemma qoi_be32_read p i z :
  0 <= z < 2 ^ 32 -> byte_at p i = Ok (z / 2 ^ 24 mod 256) -> byte_at p (i + 1) = Ok (z / 2 ^ 16 mod 256) ->
  byte_at p (i + 2) = Ok (z / 2 ^ 8 mod 256) -> byte_at p (i + 3) = Ok (z mod 256) -> qoi_be32 p i = Ok z.
Proof.
  intros Hz E0 E1 E2 E3. unfold qoi_be32. rewrite E0, E1, E2, E3. cbn [rbind].
  rewrite qoi_be32_bytes by apply byte_mod. by rewrite be32_val.
Qed.

Lemma xrgb_word_range x : pixel_ok x -> 0 <= xrgb_word x < 2 ^ 32.
Proof. unfold pixel_ok, xrgb_word, is_byte. lia. Qed.

Lemma expand_ok prev table cs :
  pixel_ok prev -> Forall pixel_ok table -> Forall chunk_ok cs -> Forall pixel_ok (expand prev table cs).
Proof.
  intros Hp Ht Hok. revert prev table Hp Ht. induction Hok as [|c cs Hc Hok IH]; intros prev table Hp Ht; [done|].
  cbn [expand]. pose proof (chunk_pixel_ok prev table c Hp Ht Hc) as Hx. apply Forall_app. split.
  - by apply Forall_replicate.
  - apply IH; [done|]. by apply Forall_insert.
Qed.

Lemma tracks_start : tracks qoi_start (MkPixel 0 0 0 255) (replicate 64 (MkPixel 0 0 0 0)) 14.
Proof.
  split; [by vm_compute| |done|].
  - unfold pixel_ok, is_byte. cbn. lia.
  - apply Forall_replicate. unfold pixel_ok, is_byte. cbn. lia.
Qed.

Section Format.
Variables (w h channels colorspace : Z) (cs : list chunk) (padding : list Z).
Hypothesis Hw : 0 < w <= QOI_MAX_DIM.
Hypothesis Hh : 0 < h <= QOI_MAX_DIM.
Hypothesis Hpx : w * h <= QOI_MAX_PIXELS.
Hypothesis Hch : channels = 3 \/ channels = 4.
Hypothesis Hcs : Forall chunk_ok cs.
Hypothesis Himg : Z.of_nat (length (image_of cs)) = w * h.
Hypothesis Hpad : length padding = 8%nat.

Let file : list Z := qoi_file w h channels colorspace cs padding.

Lemma qoi_file_loop out mem :
  qoi_loop (Z.to_nat (w * h)) 0 file (Z.of_nat (length file) - QOI_PADDING_SIZE) out qoi_start mem
  = Ok (true, store_words mem out (map xrgb_word (image_of cs))).
Proof.
  unfold file, qoi_file. rewrite <- Himg, Nat2Z.id. rewrite !app_assoc.
  rewrite <- (app_assoc _ (concat _)).
  rewrite (qoi_loop_chunks cs _ padding _ out qoi_start (MkPixel 0 0 0 255) (replicate 64 (MkPixel 0 0 0 0)) 0 mem Hcs).
  - by replace (out + 4 * 0) with out by lia.
  - exact tracks_start.
  - unfold QOI_PADDING_SIZE. rewrite !length_app. cbn [length be32]. lia.
Qed.
End Format.

(** ** The claims *)

(** [qoi_decode] is safe on any input: it reads no byte outside the file,
    writes no byte outside the block it allocates, always returns or panics
    for an exhausted memory map.  A picture it returns has sides of 1 to 65536
    pixels and lies in a fresh block large enough for all of them, whose size
    is stored in front of it; where it returns nothing it has given back the
    block it took, apart from the odd bytes that rounding had reserved above
    it. *)
Theorem qoi_decode_safe max_entries x86 i386 size_bits st src :
  size_bits = 32 \/ size_bits = 64 ->
  pmm_inv max_entries st -> allocations_disallowed st = false -> (forall p, src = Some p -> Forall is_byte p) ->
  res_post (decode_post max_entries size_bits st) exhausted
    (qoi_decode max_entries x86 i386 size_bits st src).
Proof. apply qoi_decode_spec. Qed.

Definition demo_chunks : list chunk := [CRgba 10 20 30 40; CRun 2; CDiff 1 (-2) 0; CLuma 20 (-8) 7; CIndex 42; CRgb 1 2 3].
Definition demo_file : list Z := qoi_file 7 1 4 0 demo_chunks (replicate 8 0).

Lemma demo_file_bytes : Forall is_byte demo_file.
Proof.
  apply Forall_forall. intros b Hb. apply list_elem_of_In in Hb.
  assert (forallb (fun b => (0 <=? b) && (b <? 256)) demo_file = true) as H by (vm_compute; reflexivity).
  rewrite forallb_forall in H. specialize (H b Hb). bool_hyps. unfold is_byte. lia.
Qed.

Lemma qoi_decode_safe_witness :
  res_post (decode_post 512 64 demo_pmm) exhausted (qoi_decode 512 true false 64 demo_pmm (Some demo_file)).
Proof.
  apply (qoi_decode_safe 512 true false 64 demo_pmm (Some demo_file)).
  - right. reflexivity.
  - exact demo_pmm_inv.
  - reflexivity.
  - intros p [= <-]. exact demo_file_bytes.
Defined.

(** C32.  Decoding inverts the format: for a file made of any sequence of valid
    chunks (literal pixels, table references, differences, runs) that stands
    for exactly the pixels of its header's width and height, [qoi_decode]
    returns that width and height and memory holds, pixel by pixel, the colours
    the chunks stand for; it returns nothing only where no usable memory entry
    has the room, and the only panic is that of a full memory map. *)
Theorem qoi_decode_format max_entries x86 i386 size_bits st w h channels colorspace cs padding :
  size_bits = 32 \/ size_bits = 64 ->
  pmm_inv max_entries st -> allocations_disallowed st = false ->
  0 < w <= QOI_MAX_DIM -> 0 < h <= QOI_MAX_DIM -> w * h <= QOI_MAX_PIXELS ->
  channels = 3 \/ channels = 4 -> Forall chunk_ok cs ->
  Z.of_nat (length (image_of cs)) = w * h -> length padding = 8%nat ->
  res_post (fun r =>
      match r.1 with
      | Some (out, w', h') =>
          w' = w /\ h' = h /\
          forall i x, image_of cs !! i = Some x -> load (ram r.2) (out + 4 * Z.of_nat i) 4 = xrgb_word x
      | None => r.2 = st /\ refused_block x86 st (w * h)
      end)
    exhausted
    (qoi_decode max_entries x86 i386 size_bits st
       (Some (qoi_file w h channels colorspace cs padding))).
Proof.
  intros Hwidth Hinv Hop Hw Hh Hpx Hch Hcs Himg Hpad. unfold qoi_decode.
  pose proof (qoi_file_loop w h channels colorspace cs padding Hcs Himg Hpad) as Hloop.
  set (file := qoi_file w h channels colorspace cs padding) in *.
  assert (22 <= Z.of_nat (length file)) as Hlen
    by (unfold file, qoi_file; rewrite !length_app; cbn [length be32]; lia).
  rewrite (proj2 (Z.ltb_ge _ _)) by exact Hlen.
  unfold QOI_MAX_DIM, QOI_MAX_PIXELS in *.
  assert (qoi_be32 file 4 = Ok w) as -> by (apply qoi_be32_read; [lia|reflexivity..]).
  assert (qoi_be32 file 8 = Ok h) as -> by (apply qoi_be32_read; [lia|reflexivity..]).
  change (byte_at file 0) with (Ok 0x71). change (byte_at file 1) with (Ok 0x6f).
  change (byte_at file 2) with (Ok 0x69). change (byte_at file 3) with (Ok 0x66).
  change (byte_at file 12) with (Ok channels). cbn [rbind Z.eqb Pos.eqb negb orb].
  rewrite !(proj2 (Z.eqb_neq _ _)), !(proj2 (Z.ltb_ge _ _)) by lia. cbn [orb].
  replace (negb (channels =? 3) && negb (channels =? 4)) with false by (destruct Hch as [-> | ->]; done).
  assert (2 ^ 32 <= 2 ^ size_bits) by (destruct Hwidth as [-> | ->]; lia).
  rewrite (proj2 (checked_mul_Some size_bits w h (w * h))) by (split; [done|lia]).
  rewrite (proj2 (Z.ltb_ge _ _)) by lia.
  eapply res_post_bind; [apply (qoi_alloc_spec max_entries x86 i386 size_bits Hwidth st (w * h) Hinv Hop);
    unfold QOI_MAX_PIXELS; nia|].
  intros [[out|] st1] Hr; cbn [fst snd] in Hr; [|exact Hr]. rewrite Hloop. cbn. split_and!; [done..|].
  intros i x Hi. apply load_store_words.
  - by rewrite (list_lookup_fmap xrgb_word), Hi.
  - pose proof (expand_ok (MkPixel 0 0 0 255) (replicate 64 (MkPixel 0 0 0 0)) cs
      (tk_prev _ _ _ _ tracks_start) (tk_table _ _ _ _ tracks_start) Hcs) as Hok.
    rewrite Forall_lookup in Hok. apply xrgb_word_range. by apply (Hok i).
Qed.

Lemma qoi_decode_format_witness :
  res_post (fun r =>
      match r.1 with
      | Some (out, w', h') =>
          w' = 7 /\ h' = 1 /\
          forall i x, image_of demo_chunks !! i = Some x ->
          load (ram r.2) (out + 4 * Z.of_nat i) 4 = xrgb_word x
      | None => r.2 = demo_pmm /\ refused_block true demo_pmm (7 * 1)
      end)
    exhausted (qoi_decode 512 true false 64 demo_pmm (Some demo_file)).
Proof.
  apply (qoi_decode_format 512 true false 64 demo_pmm 7 1 4 0 demo_chunks (replicate 8 0)).
  - right. reflexivity.
  - exact demo_pmm_inv.
  - reflexivity.
  - unfold QOI_MAX_DIM. lia.
  - unfold QOI_MAX_DIM. lia.
  - unfold QOI_MAX_PIXELS. lia.
  - right. reflexivity.
  - repeat constructor; cbn; unfold is_byte; lia.
  - reflexivity.
  - reflexivity.
Defined.
