(* ===== verification/Libc.v ===== *)
(** * The C library of the loader

    [common/lib/libc.s2.c], [common/lib/libc.c], [common/lib/memory.s2.c] and the
    number parsing of [common/lib/misc.s2.c].  A pointer into a string is the
    list of bytes from there to the end of its object, so reading past the
    object is [Fault]; offsets of returned pointers are [nat]s. *)

From S2P Require Import Prelude CInt Pmm.

(** ** Character classes *)
Definition isprint (c : Z) : bool := (32 <=? c) && (c <=? 126).
Definition isspace (c : Z) : bool := ((9 <=? c) && (c <=? 0xD)) || (c =? 32).
Definition isalpha (c : Z) : bool := ((97 <=? c) && (c <=? 122)) || ((65 <=? c) && (c <=? 90)).
Definition isdigit (c : Z) : bool := (48 <=? c) && (c <=? 57).
Definition toupper (c : Z) : Z := if (97 <=? c) && (c <=? 122) then c - 0x20 else c.
Definition tolower (c : Z) : Z := if (65 <=? c) && (c <=? 90) then c + 0x20 else c.

(** ** Strings *)
Fixpoint strlen (str : list Z) : res nat :=
  match str with
  | [] => Fault
  | c :: str => if c =? 0 then Ok 0%nat else let! len := strlen str in Ok (S len)
  end.

Fixpoint strnlen (str : list Z) (maxlen : nat) {struct maxlen} : res nat :=
  match maxlen with
  | O => Ok 0%nat
  | S maxlen =>
      match str with
      | [] => Fault
      | c :: str => if c =? 0 then Ok 0%nat else let! len := strnlen str maxlen in Ok (S len)
      end
  end.

Fixpoint strcpy (dest src : list Z) : res (list Z) :=
  match src, dest with
  | c :: src, _ :: dest => if c =? 0 then Ok (0 :: dest) else let! r := strcpy dest src in Ok (c :: r)
  | _, _ => Fault
  end.

Fixpoint fill_zero (dest : list Z) (n : nat) : res (list Z) :=
  match n, dest with
  | O, _ => Ok dest
  | S n, _ :: dest => let! r := fill_zero dest n in Ok (0 :: r)
  | S _, [] => Fault
  end.

Fixpoint strncpy (dest src : list Z) (n : nat) {struct n} : res (list Z) :=
  match n with
  | O => Ok dest
  | S n' =>
      match src with
      | [] => Fault
      | c :: src =>
          if c =? 0 then fill_zero dest n
          else match dest with
               | [] => Fault
               | _ :: dest => let! r := strncpy dest src n' in Ok (c :: r)
               end
      end
  end.

(** The four comparisons differ in the bound and in the folding of case. *)
Fixpoint str_cmp (fold : Z -> Z) (s1 s2 : list Z) : res Z :=
  match s1, s2 with
  | c1 :: s1, c2 :: s2 =>
      if negb (fold c1 =? fold c2) then Ok (if fold c1 <? fold c2 then -1 else 1)
      else if c1 =? 0 then Ok 0 else str_cmp fold s1 s2
  | _, _ => Fault
  end.

Fixpoint strn_cmp (fold : Z -> Z) (s1 s2 : list Z) (n : nat) {struct n} : res Z :=
  match n with
  | O => Ok 0
  | S n =>
      match s1, s2 with
      | c1 :: s1, c2 :: s2 =>
          if negb (fold c1 =? fold c2) then Ok (if fold c1 <? fold c2 then -1 else 1)
          else if c1 =? 0 then Ok 0 else strn_cmp fold s1 s2 n
      | _, _ => Fault
      end
  end.

Definition strcmp := str_cmp (fun c => c).
Definition strcasecmp := str_cmp tolower.
Definition strncmp := strn_cmp (fun c => c).
Definition strncasecmp := strn_cmp tolower.

Fixpoint memchr (p : list Z) (ch : Z) (n : nat) {struct n} : res (option nat) :=
  match n, p with
  | O, _ => Ok None
  | S n, c :: p => if c =? ch then Ok (Some 0%nat) else let! r := memchr p ch n in Ok (S <$> r)
  | S _, [] => Fault
  end.

Fixpoint strchr (str : list Z) (ch : Z) : res (option nat) :=
  match str with
  | [] => Fault
  | c :: str =>
      if c =? u8 ch then Ok (Some 0%nat)
      else if c =? 0 then Ok None
      else let! r := strchr str ch in Ok (S <$> r)
  end.

Fixpoint strrchr_loop (str : list Z) (ch : Z) (i : nat) (p : option nat) : res (option nat) :=
  match str with
  | [] => Fault
  | c :: str =>
      let p := if c =? u8 ch then Some i else p in
      if c =? 0 then Ok p else strrchr_loop str ch (S i) p
  end.

Definition strrchr (str : list Z) (ch : Z) : res (option nat) := strrchr_loop str ch 0 None.

Fixpoint memcmp (s1 s2 : list Z) (n : nat) {struct n} : res Z :=
  match n with
  | O => Ok 0
  | S n =>
      match s1, s2 with
      | c1 :: s1, c2 :: s2 =>
          if negb (c1 =? c2) then Ok (if c1 <? c2 then -1 else 1) else memcmp s1 s2 n
      | _, _ => Fault
      end
  end.

(** ** Memory: byte loops on a flat memory *)
Definition store (r : Z -> Z) (a v : Z) : Z -> Z := fun x => if x =? a then v else r x.

(** [for (i = i0; i < i0 + n; i++) pdest[i] = psrc[i]] *)
Fixpoint copy_up (r : Z -> Z) (dest src i : Z) (n : nat) : Z -> Z :=
  match n with
  | O => r
  | S n => copy_up (store r (dest + i) (r (src + i))) dest src (i + 1) n
  end.

(** [for (i = n; i > 0; i--) pdest[i - 1] = psrc[i - 1]] *)
Fixpoint copy_down (r : Z -> Z) (dest src : Z) (n : nat) : Z -> Z :=
  match n with
  | O => r
  | S m => copy_down (store r (dest + Z.of_nat m) (r (src + Z.of_nat m))) dest src m
  end.

Fixpoint set_up (r : Z -> Z) (s c i : Z) (n : nat) : Z -> Z :=
  match n with
  | O => r
  | S n => set_up (store r (s + i) (u8 c)) s c (i + 1) n
  end.

Definition c_memcpy (r : Z -> Z) (dest src : Z) (n : nat) : Z -> Z := copy_up r dest src 0 n.
Definition c_memset (r : Z -> Z) (s c : Z) (n : nat) : Z -> Z := set_up r s c 0 n.
Definition memmove (r : Z -> Z) (dest src : Z) (n : nat) : Z -> Z :=
  if dest <? src then copy_up r dest src 0 n
  else if src <? dest then copy_down r dest src n
  else r.

(** ** Numbers *)
Definition bcd_to_int (val : Z) : Z := u8 (Z.land val 0x0f + Z.shiftr (Z.land val 0xf0) 4 * 10).
Definition int_to_bcd (val : Z) : Z := u8 (Z.lor (val mod 10) (Z.shiftl (val / 10) 4)).

Definition digit_to_int (c : Z) : Z :=
  if (97 <=? c) && (c <=? 102) then c - 97 + 10
  else if (65 <=? c) && (c <=? 70) then c - 65 + 10
  else if (48 <=? c) && (c <=? 57) then c - 48
  else -1.

(** The value and how far [*end] is into the string. *)
Fixpoint strtoui_loop (s : list Z) (base n : Z) (i : nat) : res (Z * nat) :=
  match s with
  | [] => Fault
  | c :: s =>
      let d := digit_to_int c in
      if (d =? -1) || (base <=? d) then Ok (n, i)
      else match CHECKED_MUL n base with
           | None => Ok (UINT64_MAX, i)
           | Some mul_result =>
               match CHECKED_ADD mul_result d with
               | None => Ok (UINT64_MAX, i)
               | Some n => strtoui_loop s base n (S i)
               end
           end
  end.

Definition strtoui (s : list Z) (base : Z) : res (Z * nat) := strtoui_loop s base 0 0.

Definition UINT_MAX : Z := 2 ^ 32 - 1.

Definition digit_value (c : Z) : Z :=
  if isdigit c then c - 48 else if isalpha c then tolower c - 97 + 10 else UINT_MAX.

(** The digits of [strtoul]: value, overflow flag and number of digits. *)
Fixpoint strtoul_digits (p : list Z) (radix value : Z) (overflow : bool) : res (Z * bool * nat) :=
  match p with
  | [] => Fault
  | c :: p =>
      let digit := digit_value c in
      if radix <=? digit then Ok (value, overflow, 0%nat)
      else
        let overflow := overflow || (2 ^ 64 <=? value * radix) in
        let value := u64 (value * radix) in
        let overflow := overflow || (2 ^ 64 <=? value + digit) in
        let value := u64 (value + digit) in
        let! (v, o, n) := strtoul_digits p radix value overflow in
        Ok (v, o, S n)
  end.

Fixpoint skip_space (p : list Z) : res nat :=
  match p with
  | [] => Fault
  | c :: p => if isspace c then let! n := skip_space p in Ok (S n) else Ok 0%nat
  end.

(** A 64-bit [unsigned long]; the value and the offset of [*end]. *)
Definition strtoul (str : list Z) (base : Z) : res (Z * nat) :=
  if negb (base =? 0) && ((base <? 2) || (36 <? base)) then Ok (0, 0%nat)
  else
    let! i := skip_space str in
    let! c := rd str i in
    let sign := (c =? 43) || (c =? 45) in
    let negative := c =? 45 in
    let i := if sign then S i else i in
    let! c0 := rd str i in
    let! hex :=
      if ((base =? 0) || (base =? 16)) && (c0 =? 48) then
        let! c1 := rd str (i + 1) in
        if (c1 =? 120) || (c1 =? 88) then
          let! c2 := rd str (i + 2) in Ok (digit_value c2 <? 16)
        else Ok false
      else Ok false in
    let '(i, base) := if hex : bool then ((i + 2)%nat, 16)
                      else (i, if base =? 0 then if c0 =? 48 then 8 else 10 else base) in
    let! (value, overflow, n) := strtoul_digits (drop i str) base 0 false in
    let end_ := if (n =? 0)%nat then 0%nat else (i + n)%nat in
    if overflow : bool then Ok (UINT64_MAX, end_)
    else Ok (if negative then u64 (- value) else value, end_).

(** [inet_pton]: [None] is the return value -1. *)
Fixpoint inet_pton_loop (octets : nat) (current : list Z) : res (option (list Z)) :=
  match octets with
  | O => Ok (Some [])
  | S octets =>
      let! (value, n) := strtoui current 10 in
      if (n =? 0)%nat then Ok None
      else
        let current := drop n current in
        let! c := rd current 0 in
        let last := (octets =? 0)%nat in
        if negb (c =? if last then 0 else 46) then Ok None
        else if 255 <? value then Ok None
        else let! r := inet_pton_loop octets (drop 1 current) in
             Ok ((fun a => u8 value :: a) <$> r)
  end.

Definition inet_pton (src : list Z) : res (option (list Z)) := inet_pton_loop 4 src.

(** [parse_resolution] of [misc.c]: width, height and bits per pixel. *)
Fixpoint resolution_fields (fields : nat) (first : list Z) : res (list Z) :=
  match fields with
  | O => Ok []
  | S fields =>
      let! (x, n) := strtoui first 10 in
      if (n =? 0)%nat then Ok []
      else
        let! c := rd first n in
        if c =? 0 then Ok [x]
        else let! r := resolution_fields fields (drop (S n) first) in Ok (x :: r)
  end.

Definition parse_resolution (buf : list Z) : res (option (Z * Z * Z)) :=
  let! r := resolution_fields 3 buf in
  let field (i : nat) := nth i r 0 in
  if (field 0%nat =? 0) || (field 1%nat =? 0) then Ok None
  else Ok (Some (field 0%nat, field 1%nat, if field 2%nat =? 0 then 32 else field 2%nat)).

(** [sqrt] and [get_trailing_zeros] of [misc.c] *)
Definition sqrt_scale (value : Z) (place : Z) : res (Z + Z) :=
  if value <? place then Ok (inl (Z.shiftr place 2)) else Ok (inr place).

Definition sqrt_body (s : Z * Z * Z) : res (Z * Z * Z + Z) :=
  let '(rem, root, place) := s in
  if place =? 0 then Ok (inr root)
  else
    let trial := u64 (root + place) in
    let root := Z.shiftr root 1 in
    let '(rem, root) := if trial <=? rem then (u64 (rem - trial), u64 (root + place)) else (rem, root) in
    Ok (inl (rem, root, Z.shiftr place 2)).

Definition sqrt (value : Z) : res Z :=
  let! place := loop (sqrt_scale value) (fun place => place) (2 ^ 62) in
  loop sqrt_body (fun s => s.2) (value, 0, place).

Fixpoint trailing_zeros (n i : nat) (val : Z) : nat :=
  match n with
  | O => 64
  | S n => if negb (Z.land val 1 =? 0) then i else trailing_zeros n (S i) (Z.shiftr val 1)
  end.

Definition get_trailing_zeros (val : Z) : nat := trailing_zeros 64 0 val.

(** ** Evaluation *)
Definition bytes (s : string) : list Z :=
  map (fun c => Z.of_N (Ascii.N_of_ascii c)) (String.list_ascii_of_string s).

Definition cstring (s : string) : list Z := bytes s ++ [0].

Example strtoul_ex : strtoul (cstring " -0x1fz") 0 = Ok (u64 (- 0x1f), 6%nat).
Proof. reflexivity. Qed.
Example inet_ex : inet_pton (cstring "192.168.0.17") = Ok (Some [192; 168; 0; 17]).
Proof. reflexivity. Qed.
Example inet_bad : inet_pton (cstring "192.168.0.256") = Ok None.
Proof. reflexivity. Qed.
Example resolution_ex : parse_resolution (cstring "1024x768") = Ok (Some (1024, 768, 32)).
Proof. reflexivity. Qed.
Example sqrt_ex : sqrt 1000001 = Ok 1000.
Proof. vm_compute. reflexivity. Qed.
