(* ===== verification/LibcProps.v ===== *)
(** * Correctness of the C library

    Comparison, copying and number parsing against reference definitions. *)

From S2P Require Import Prelude CInt Pmm Libc.

(** ** Comparisons: lexicographic order of the contents *)
Fixpoint lex (l1 l2 : list Z) : Z :=
  match l1, l2 with
  | [], [] => 0
  | [], _ :: _ => -1
  | _ :: _, [] => 1
  | c1 :: l1, c2 :: l2 => if c1 <? c2 then -1 else if c2 <? c1 then 1 else lex l1 l2
  end.

Lemma lex_eq l1 l2 : lex l1 l2 = 0 <-> l1 = l2.
Proof.
  revert l2. induction l1 as [|c1 l1 IH]; intros [|c2 l2]; cbn; try done.
  case_if; [split; [done|intros [= -> _]; lia]|].
  case_if; [split; [done|intros [= -> _]; lia]|].
  rewrite IH. assert (c1 = c2) as -> by lia. split; [by intros ->|by intros [= ->]].
Qed.

Section Compare.
Variable fold : Z -> Z.
Hypothesis fold_0 : fold 0 = 0.
Hypothesis fold_pos : forall c, 0 < c -> 0 < fold c.

Lemma strn_cmp_lex l1 t1 l2 t2 n :
  Forall (fun c => 0 < c) l1 -> Forall (fun c => 0 < c) l2 ->
  strn_cmp fold (l1 ++ 0 :: t1) (l2 ++ 0 :: t2) n = Ok (lex (map fold (take n l1)) (map fold (take n l2))).
Proof.
  revert l1 l2. induction n as [|n IH]; intros l1 l2 H1 H2; [done|].
  destruct H1 as [|c1 l1 Hc1 H1], H2 as [|c2 l2 Hc2 H2]; cbn -[Z.eqb Z.ltb]; rewrite ?fold_0.
  - done.
  - pose proof (fold_pos c2 Hc2). destruct (0 =? fold c2) eqn:E; bool_hyps; [lia|]. cbn [negb].
    rewrite (proj2 (Z.ltb_lt _ _)) by lia. done.
  - pose proof (fold_pos c1 Hc1). destruct (fold c1 =? 0) eqn:E; bool_hyps; [lia|]. cbn [negb].
    rewrite (proj2 (Z.ltb_ge _ _)) by lia. done.
  - destruct (fold c1 =? fold c2) eqn:E; bool_hyps; cbn [negb].
    + rewrite E, Z.ltb_irrefl. case_if; [lia|]. by apply IH.
    + case_if; [done|]. case_if; [done|lia].
Qed.

Lemma str_cmp_strn s1 s2 n r : strn_cmp fold s1 s2 n = Ok r -> (length s1 <= n)%nat ->
  (exists l t, s1 = l ++ 0 :: t) -> str_cmp fold s1 s2 = Ok r.
Proof.
  revert s1 s2. induction n as [|n IH]; intros s1 s2 H Hlen (l & t & ->).
  { rewrite length_app in Hlen. cbn in Hlen. lia. }
  destruct l as [|c l]; cbn in *.
  - destruct s2 as [|c2 s2]; [done|]. by destruct (fold 0 =? fold c2).
  - destruct s2 as [|c2 s2]; [done|]. destruct (fold c =? fold c2); cbn in *; [|done].
    destruct (c =? 0); [done|]. apply IH; [done|lia|eauto].
Qed.

Lemma str_cmp_lex l1 t1 l2 t2 :
  Forall (fun c => 0 < c) l1 -> Forall (fun c => 0 < c) l2 ->
  str_cmp fold (l1 ++ 0 :: t1) (l2 ++ 0 :: t2) = Ok (lex (map fold l1) (map fold l2)).
Proof.
  intros H1 H2. set (n := (length (l1 ++ 0%Z :: t1) + length l2)%nat).
  assert (length l1 <= n)%nat by (unfold n; rewrite length_app; lia).
  apply (str_cmp_strn _ _ n); [|lia|eauto].
  rewrite strn_cmp_lex by done. rewrite !take_ge; [done|lia|done].
Qed.
End Compare.

Lemma tolower_pos c : 0 < c -> 0 < tolower c.
Proof. unfold tolower. case_if; lia. Qed.

(** The four string comparisons read nothing past either terminator and
    return the lexicographic order of the contents (cut at [n] for the bounded
    ones, with letters folded for the case-insensitive ones), which is 0
    exactly for equal strings. *)
Theorem string_comparisons l1 t1 l2 t2 n :
  Forall (fun c => 0 < c) l1 -> Forall (fun c => 0 < c) l2 ->
  let s1 := l1 ++ 0 :: t1 in let s2 := l2 ++ 0 :: t2 in
  strcmp s1 s2 = Ok (lex l1 l2) /\
  strcasecmp s1 s2 = Ok (lex (map tolower l1) (map tolower l2)) /\
  strncmp s1 s2 n = Ok (lex (take n l1) (take n l2)) /\
  strncasecmp s1 s2 n = Ok (lex (map tolower (take n l1)) (map tolower (take n l2))) /\
  (strcmp s1 s2 = Ok 0 <-> l1 = l2).
Proof.
  intros H1 H2 s1 s2.
  assert (forall l : list Z, map (fun c => c) l = l) as Hid by (intros; apply map_id).
  assert (strcmp s1 s2 = Ok (lex l1 l2)) as Hc.
  { unfold strcmp, s1, s2. rewrite str_cmp_lex by (done || auto). by rewrite !Hid. }
  split_and!; [done| | | |].
  - unfold strcasecmp, s1, s2. rewrite str_cmp_lex; auto using tolower_pos.
  - unfold strncmp, s1, s2. rewrite strn_cmp_lex by (done || auto). by rewrite !Hid.
  - unfold strncasecmp, s1, s2. rewrite strn_cmp_lex; auto using tolower_pos.
  - rewrite Hc, <- lex_eq. split; [by intros [= ->]|by intros ->].
Qed.

Lemma string_comparisons_witness :
  strcasecmp (cstring "Kernel") (cstring "kERNEL") = Ok 0 /\ strcmp (cstring "a") (cstring "ab") = Ok (-1).
Proof.
  split.
  - apply (string_comparisons (bytes "Kernel") [] (bytes "kERNEL") [] 0); cbn; repeat constructor; lia.
  - apply (string_comparisons (bytes "a") [] (bytes "ab") [] 0); cbn; repeat constructor; lia.
Defined.

(** ** Memory *)
Lemma copy_up_spec n : forall r dest src i a,
  dest <= src \/ src + Z.of_nat n <= dest ->
  copy_up r dest src i n a =
  if (dest + i <=? a) && (a <? dest + i + Z.of_nat n) then r (src + (a - dest)) else r a.
Proof.
  induction n as [|n IH]; intros r dest src i a Hd; cbn [copy_up].
  - case_if; [lia|done].
  - rewrite IH by lia. unfold store. solve_ifs.
Qed.

Lemma copy_down_spec n : forall r dest src a,
  src <= dest ->
  copy_down r dest src n a =
  if (dest <=? a) && (a <? dest + Z.of_nat n) then r (src + (a - dest)) else r a.
Proof.
  induction n as [|n IH]; intros r dest src a Hd; cbn [copy_down].
  - case_if; [lia|done].
  - rewrite IH by lia. unfold store. solve_ifs.
Qed.

Lemma set_up_spec n : forall r s c i a,
  set_up r s c i n a = if (s + i <=? a) && (a <? s + i + Z.of_nat n) then u8 c else r a.
Proof.
  induction n as [|n IH]; intros r s c i a; cbn [set_up].
  - case_if; [lia|done].
  - rewrite IH. unfold store. solve_ifs.
Qed.

(** The byte loops of [memory.s2.c] refine the block operations the
    allocator's model uses: [memset] always, [memcpy] when the blocks do not
    overlap, and [memmove] copies the old contents of the source however the
    blocks overlap. *)
Theorem memory_functions r dest src c n :
  (forall a, c_memset r dest c n a = memset r dest c (Z.of_nat n) a) /\
  (dest + Z.of_nat n <= src \/ src + Z.of_nat n <= dest ->
   forall a, c_memcpy r dest src n a = memcpy r dest src (Z.of_nat n) a) /\
  (forall a, memmove r dest src n a =
     if (dest <=? a) && (a <? dest + Z.of_nat n) then r (src + (a - dest)) else r a).
Proof.
  split_and!.
  - intros a. unfold c_memset, memset. rewrite set_up_spec. by rewrite Z.add_0_r.
  - intros Hd a. unfold c_memcpy, memcpy. rewrite copy_up_spec by lia. by rewrite Z.add_0_r.
  - intros a. unfold memmove. case_if; [rewrite copy_up_spec by lia; by rewrite Z.add_0_r|].
    case_if; [by apply copy_down_spec; lia|]. assert (src = dest) as -> by lia.
    case_if; [f_equal; lia|done].
Qed.

Lemma memory_functions_witness : c_memcpy (fun a => a) 100 200 8 103 = 203.
Proof. rewrite (proj1 (proj2 (memory_functions (fun a => a) 100 200 0 8)) ltac:(lia)). reflexivity. Defined.

(** ** Numbers *)

(** The value a digit string denotes. *)
Definition digits_value (base n : Z) (ds : list Z) : Z :=
  foldl (fun n c => n * base + digit_to_int c) n ds.

Definition is_digit_of (base c : Z) : Prop := 0 <= digit_to_int c < base.

Lemma digit_to_int_range c : -1 <= digit_to_int c <= 15.
Proof. unfold digit_to_int. solve_ifs. Qed.

Lemma digit_stop base c :
  ((digit_to_int c =? -1) || (base <=? digit_to_int c)) = false <-> is_digit_of base c.
Proof.
  pose proof (digit_to_int_range c). unfold is_digit_of.
  destruct (digit_to_int c =? -1) eqn:E, (base <=? digit_to_int c) eqn:E2; bool_hyps; cbn; split; (done || lia).
Qed.

Lemma digits_value_mono base ds : forall n,
  0 < base -> 0 <= n -> Forall (is_digit_of base) ds -> n <= digits_value base n ds.
Proof.
  induction ds as [|c ds IH]; intros n Hb Hn Hds; cbn; [lia|].
  apply Forall_cons in Hds as [Hc Hds]. unfold is_digit_of in Hc.
  specialize (IH (n * base + digit_to_int c) Hb ltac:(nia) Hds). unfold digits_value in IH. nia.
Qed.

Section Strtoui.
Variables base c : Z.
Variable rest : list Z.
Hypothesis Hbase : 0 < base.
Hypothesis Hstop : ~ is_digit_of base c.

(** One more digit: both overflow checks together. *)
Lemma strtoui_step d s n i :
  is_digit_of base d -> 0 <= n ->
  strtoui_loop (d :: s) base n i =
  if n * base + digit_to_int d <? 2 ^ 64 then strtoui_loop s base (n * base + digit_to_int d) (S i)
  else Ok (UINT64_MAX, i).
Proof.
  intros Hd Hn. cbn [strtoui_loop]. rewrite (proj2 (digit_stop base d) Hd). unfold is_digit_of in Hd.
  destruct (CHECKED_MUL n base) as [m|] eqn:Em.
  - apply checked_mul_Some in Em as [-> Hm]. destruct (CHECKED_ADD _ _) as [v|] eqn:Ea.
    + apply checked_add_Some in Ea as [-> Ha]. by rewrite (proj2 (Z.ltb_lt _ _)) by lia.
    + apply checked_add_None in Ea. by rewrite (proj2 (Z.ltb_ge _ _)) by lia.
  - apply checked_mul_None in Em. by rewrite (proj2 (Z.ltb_ge _ _)) by lia.
Qed.

Lemma strtoui_value ds : forall n i,
  Forall (is_digit_of base) ds -> 0 <= n -> digits_value base n ds < 2 ^ 64 ->
  strtoui_loop (ds ++ c :: rest) base n i = Ok (digits_value base n ds, (i + length ds)%nat).
Proof.
  induction ds as [|d ds IH]; intros n i Hds Hn Hv; cbn [app].
  - cbn [strtoui_loop]. destruct ((digit_to_int c =? -1) || _) eqn:E; [by rewrite Nat.add_0_r|].
    by apply digit_stop in E.
  - apply Forall_cons in Hds as [Hd Hds]. rewrite strtoui_step by done. unfold is_digit_of in Hd.
    assert (0 <= n * base + digit_to_int d) by nia.
    pose proof (digits_value_mono base ds (n * base + digit_to_int d) Hbase ltac:(done) Hds).
    cbn [digits_value foldl] in Hv. unfold digits_value in *.
    rewrite (proj2 (Z.ltb_lt _ _)) by lia. rewrite IH by done. cbn [length].
    do 2 f_equal. lia.
Qed.

Lemma strtoui_overflow ds : forall n i,
  Forall (is_digit_of base) ds -> 0 <= n < 2 ^ 64 -> 2 ^ 64 <= digits_value base n ds ->
  exists k, (k < length ds)%nat /\ strtoui_loop (ds ++ c :: rest) base n i = Ok (UINT64_MAX, (i + k)%nat) /\
    digits_value base n (take k ds) < 2 ^ 64 <= digits_value base n (take (S k) ds).
Proof.
  induction ds as [|d ds IH]; intros n i Hds Hn Hv; [cbn in Hv; lia|].
  apply Forall_cons in Hds as [Hd Hds]. cbn [app]. rewrite strtoui_step by (done || lia).
  unfold is_digit_of in Hd. assert (0 <= n * base + digit_to_int d) by nia.
  case_if.
  - destruct (IH (n * base + digit_to_int d) (S i) Hds ltac:(lia) Hv) as (k & Hk & -> & Hpre).
    exists (S k). cbn [length]. split_and!; [lia| |apply Hpre..]. do 2 f_equal. lia.
  - exists 0%nat. rewrite Nat.add_0_r. cbn. split_and!; (done || lia).
Qed.
End Strtoui.

(** [strtoui] on a string of digits of the base followed by anything else:
    the value and a pointer to what follows if it fits in 64 bits, and otherwise
    [UINT64_MAX] and a pointer to the digit that made it overflow. *)
Theorem strtoui_correct base ds c rest :
  0 < base -> Forall (is_digit_of base) ds -> ~ is_digit_of base c ->
  let v := digits_value base 0 in
  (v ds < 2 ^ 64 -> strtoui (ds ++ c :: rest) base = Ok (v ds, length ds)) /\
  (2 ^ 64 <= v ds -> exists k, (k < length ds)%nat /\
     strtoui (ds ++ c :: rest) base = Ok (UINT64_MAX, k) /\
     v (take k ds) < 2 ^ 64 <= v (take (S k) ds)).
Proof.
  intros Hb Hds Hc v. split; intros Hv.
  - by apply strtoui_value.
  - by apply (strtoui_overflow base c rest Hb ds 0 0).
Qed.

Lemma strtoui_correct_witness : strtoui (cstring "0123") 8 = Ok (83, 4%nat).
Proof.
  apply (strtoui_correct 8 (bytes "0123") 0 []); [lia| | |vm_compute; reflexivity].
  - repeat constructor; vm_compute; congruence.
  - unfold is_digit_of. cbn. lia.
Defined.

(** ** IPv4 addresses *)
Definition decimal (n : Z) : list Z :=
  if n <? 10 then [48 + n]
  else if n <? 100 then [48 + n / 10; 48 + n mod 10]
  else [48 + n / 100; 48 + n / 10 mod 10; 48 + n mod 10].

Lemma digit_to_int_dec d : 0 <= d < 10 -> digit_to_int (48 + d) = d.
Proof. intros. unfold digit_to_int. solve_ifs. Qed.

Lemma decimal_value n : 0 <= n < 256 ->
  Forall (is_digit_of 10) (decimal n) /\ digits_value 10 0 (decimal n) = n /\ decimal n <> [].
Proof.
  intros Hn. pose proof (Z.mod_pos_bound n 10 ltac:(lia)). pose proof (Z.mod_pos_bound (n / 10) 10 ltac:(lia)).
  pose proof (Z.div_mod n 10 ltac:(lia)). pose proof (Z.div_mod (n / 10) 10 ltac:(lia)).
  pose proof (Z.div_div n 10 10 ltac:(lia) ltac:(lia)) as Hdd. change (10 * 10) with 100 in Hdd.
  unfold decimal, digits_value, is_digit_of. repeat case_if; (split; [|split; [|done]]); cbn [foldl];
    first [rewrite !digit_to_int_dec by lia; lia
          |repeat (apply List.Forall_cons; [rewrite digit_to_int_dec by lia; lia|]); apply List.Forall_nil].
Qed.

Lemma inet_pton_octet octets n c rest :
  0 <= n < 256 -> c = (if (octets =? 0)%nat then 0 else 46) ->
  inet_pton_loop (S octets) (decimal n ++ c :: rest) =
  let! r := inet_pton_loop octets rest in Ok ((fun a => n :: a) <$> r).
Proof.
  intros Hn Hc. destruct (decimal_value n Hn) as (Hd & Hv & Hne).
  cbn [inet_pton_loop]. unfold strtoui.
  rewrite (strtoui_value 10 c rest) ; [|lia| |done|lia|lia].
  2: { unfold is_digit_of. subst c. case_if; cbn; lia. }
  rewrite Hv. cbn [rbind Nat.add]. destruct (length (decimal n) =? 0)%nat eqn:El; bool_hyps.
  { by apply length_zero_iff_nil in El. }
  rewrite drop_app_length. cbn [rd of_option lookup list_lookup rbind]. rewrite <- Hc, Z.eqb_refl. cbn [negb].
  rewrite (proj2 (Z.ltb_ge _ _)) by lia. by rewrite wrap_small by lia.
Qed.

Lemma inet_pton_bytes octets : forall s l,
  inet_pton_loop octets s = Ok (Some l) -> length l = octets /\ Forall is_byte l.
Proof.
  induction octets as [|octets IH]; intros s l; cbn [inet_pton_loop]; [by intros [= <-]|].
  destruct (strtoui s 10) as [[v n]|m| |]; cbn [rbind]; try done.
  case_if; [done|]. destruct (rd _ _) as [c|m| |]; cbn [rbind]; try done.
  case_if; [done|]. case_if; [done|].
  destruct (inet_pton_loop octets _) as [[r|]|m| |] eqn:E; cbn; try done.
  intros [= <-]. apply IH in E as [El Hb']. split; [cbn; lia|]. constructor; [|done].
  apply (wrap_range 8). lia.
Qed.

(** [inet_pton] reads back every address printed in dotted decimal, and
    whatever it accepts is four bytes. *)
Theorem inet_pton_roundtrip a b c d rest :
  is_byte a -> is_byte b -> is_byte c -> is_byte d ->
  inet_pton (decimal a ++ 46 :: decimal b ++ 46 :: decimal c ++ 46 :: decimal d ++ 0 :: rest)
    = Ok (Some [a; b; c; d]) /\
  forall s l, inet_pton s = Ok (Some l) -> length l = 4%nat /\ Forall is_byte l.
Proof.
  intros Ha Hb Hc Hd. split; [|intros s l; apply inet_pton_bytes].
  unfold inet_pton. by rewrite !inet_pton_octet.
Qed.

Lemma inet_pton_roundtrip_witness :
  inet_pton (decimal 10 ++ 46 :: decimal 0 ++ 46 :: decimal 255 ++ 46 :: decimal 7 ++ [0]) = Ok (Some [10; 0; 255; 7]).
Proof. apply (inet_pton_roundtrip 10 0 255 7 []); unfold is_byte; lia. Defined.

(** ** Square root *)

(** On the pass for bit [k]: the root so far is [r], a multiple of [2^(k+1)]. *)
Definition sqrt_inv (value : Z) (s : Z * Z * Z) : Prop :=
  let '(rem, root, place) := s in
  (place = 0 /\ root * root <= value < (root + 1) * (root + 1) /\ 0 <= root) \/
  exists k m, 0 <= k <= 31 /\ 0 <= m /\
    let p := 2 ^ k in let r := m * (2 * p) in
    place = p * p /\ root = r * (2 * p) /\ rem = value - r * r /\
    r * r <= value < (r + 2 * p) * (r + 2 * p).

Lemma shiftr_square k : 0 <= k -> Z.shiftr (2 ^ k * 2 ^ k) 2 = if k =? 0 then 0 else 2 ^ (k - 1) * 2 ^ (k - 1).
Proof.
  intros Hk. rewrite Z.shiftr_div_pow2 by lia. case_if; [by subst|].
  replace (2 ^ k) with (2 * 2 ^ (k - 1)) by (rewrite <- Z.pow_succ_r by lia; f_equal; lia).
  replace (2 * 2 ^ (k - 1) * (2 * 2 ^ (k - 1))) with (2 ^ (k - 1) * 2 ^ (k - 1) * 4) by ring.
  apply Z.div_mul. lia.
Qed.

Lemma sqrt_turn value s :
  0 <= value < 2 ^ 64 -> sqrt_inv value s ->
  turn_ok sqrt_body (sqrt_inv value) (fun s => s.2)
    (fun r => 0 <= r /\ r * r <= value < (r + 1) * (r + 1)) no_panic s.
Proof.
  intros Hv Hs. destruct s as [[rem root] place]. unfold turn_ok, sqrt_body.
  destruct Hs as [(-> & ? & ?)|(k & m & Hk & Hm & -> & -> & -> & Hr)]; [done|].
  set (p := 2 ^ k) in *. assert (0 < p) by (apply Z.pow_pos_nonneg; lia).
  assert (p <= 2 ^ 31) by (apply Z.pow_le_mono_r; lia).
  rewrite (proj2 (Z.eqb_neq (p * p) 0)) by nia.
  set (r := m * (2 * p)) in *. assert (0 <= r) by (unfold r; nia).
  assert (r < 2 ^ 32) by nia.
  assert (r = 0 \/ (2 * p <= r /\ 2 * p <= 2 ^ 31)) as Hcase.
  { unfold r. destruct (decide (m = 0)) as [->|]; [by left|right]. split; [nia|].
    assert (2 * p <= r) by (unfold r; nia). assert (k <= 30).
    { destruct (decide (k = 31)) as [->|]; [|lia]. unfold p in *. change (2 * 2 ^ 31) with (2 ^ 32) in *. lia. }
    unfold p. rewrite <- Z.pow_succ_r by lia. apply Z.pow_le_mono_r; lia. }
  assert (0 <= r * (2 * p) < 2 ^ 63 /\ p * p <= 2 ^ 62) as [Hrp Hpp].
  { split; [|nia]. destruct Hcase as [->|[_ ?]]; [lia|]. split; [nia|].
    apply Z.lt_le_trans with (2 ^ 32 * (2 * p)); [nia|lia]. }
  rewrite (wrap_small 64 (r * (2 * p) + p * p)) by nia.
  rewrite Z.shiftr_div_pow2 by lia. replace (r * (2 * p) / 2 ^ 1) with (r * p)
    by (replace (r * (2 * p)) with (r * p * 2) by ring; symmetry; by apply Z.div_mul).
  (* the next state, for the root [r'] with the bit decided *)
  assert (forall r' m', 0 <= m' -> r' = m' * p -> r' * r' <= value < (r' + p) * (r' + p) ->
    sqrt_inv value (value - r' * r', r' * p, Z.shiftr (p * p) 2) /\ 0 <= Z.shiftr (p * p) 2 < p * p) as Hnext.
  { intros r' m' Hm' -> Hr'. unfold p. rewrite shiftr_square by lia. fold p. case_if.
    - unfold p in *. subst k. cbn in *. split; [|lia]. left. split_and!; lia.
    - assert (p = 2 * 2 ^ (k - 1)) as Hp by (unfold p; rewrite <- Z.pow_succ_r by lia; f_equal; lia).
      assert (0 < 2 ^ (k - 1)) by (apply Z.pow_pos_nonneg; lia). split; [|nia].
      right. exists (k - 1), m'. cbn. rewrite <- Hp. split_and!; try done; try lia. }
  destruct (r * (2 * p) + p * p <=? value - r * r) eqn:Et; bool_hyps; cbn [res_post].
  - rewrite !wrap_small by nia.
    replace (value - r * r - (r * (2 * p) + p * p)) with (value - (r + p) * (r + p)) by ring.
    replace (r * p + p * p) with ((r + p) * p) by ring.
    apply (Hnext (r + p) (2 * m + 1)); [lia|unfold r; ring|nia].
  - apply (Hnext r (2 * m)); [lia|unfold r; ring|nia].
Qed.

Lemma sqrt_scale_turn value place :
  0 <= value -> (place = 0 /\ value = 0) \/ (exists k, 0 <= k <= 31 /\ place = 2 ^ k * 2 ^ k /\ value < 4 * place) ->
  turn_ok (sqrt_scale value)
    (fun place => (place = 0 /\ value = 0) \/ (exists k, 0 <= k <= 31 /\ place = 2 ^ k * 2 ^ k /\ value < 4 * place))
    (fun place => place) (fun place => sqrt_inv value (value, 0, place)) no_panic place.
Proof.
  intros Hv Hp. unfold turn_ok, sqrt_scale. destruct Hp as [[-> ->]|(k & Hk & -> & Hlt)].
  - left. lia.
  - assert (0 < 2 ^ k) by (apply Z.pow_pos_nonneg; lia). case_if; cbn [res_post].
    + rewrite shiftr_square by lia. case_if.
      * subst. cbn in *. split; [left; lia|lia].
      * assert (2 ^ k = 2 * 2 ^ (k - 1)) as Hp by (rewrite <- Z.pow_succ_r by lia; f_equal; lia).
        split; [right; exists (k - 1); split_and!; try done; nia|nia].
    + right. exists k, 0. cbn. split_and!; try done; try lia; nia.
Qed.

(** [sqrt] terminates, never overflows its 64-bit variables and returns the
    integer square root. *)
Theorem sqrt_correct value : 0 <= value < 2 ^ 64 -> sqrt value = Ok (Z.sqrt value).
Proof.
  intros Hv. assert (res_post (fun r => 0 <= r /\ r * r <= value < (r + 1) * (r + 1)) no_panic (sqrt value)) as H.
  { unfold sqrt. eapply res_post_bind.
    - eapply loop_spec; [intros place; apply sqrt_scale_turn; lia| |done].
      right. exists 31. split_and!; [lia..|done|lia].
    - intros place Hinv. eapply loop_spec; [intros s; by apply sqrt_turn|done|].
      cbn. destruct Hinv as [(-> & _)|(k & m & _ & _ & -> & _)]; [done|]. apply Z.square_nonneg. }
  apply res_post_total in H as (r & -> & Hr0 & Hr). f_equal. symmetry. apply Z.sqrt_unique. lia.
Qed.

Lemma sqrt_correct_witness : sqrt (2 ^ 64 - 1) = Ok (2 ^ 32 - 1).
Proof. rewrite (sqrt_correct (2 ^ 64 - 1) ltac:(lia)). reflexivity. Defined.
