(* ===== verification/Guid.v ===== *)
(** * GUIDs as text

    [common/lib/guid.c].  A [struct guid] is modelled with its fields; the
    conversions from text work on its 16 bytes as the code does, on a
    little-endian machine (every target of the loader is). *)

From S2P Require Import Prelude CInt Libc.

Record guid := MkGuid { g_a : Z; g_b : Z; g_c : Z; g_d : list Z }.

(** The object representation of a [struct guid]. *)
Definition guid_bytes (g : guid) : list Z :=
  le_bytes 4 (g_a g) ++ le_bytes 2 (g_b g) ++ le_bytes 2 (g_c g) ++ g_d g.

Definition guid_of_bytes (bs : list Z) : guid :=
  MkGuid (le_val (take 4 bs)) (le_val (take 2 (drop 4 bs))) (le_val (take 2 (drop 6 bs))) (drop 8 bs).

(** [is_valid_guid], from index [i]. *)
Fixpoint is_valid_guid_from (i : nat) (s : list Z) : res bool :=
  match s with
  | [] => Fault
  | c :: s =>
      if (i =? 8)%nat || (i =? 13)%nat || (i =? 18)%nat || (i =? 23)%nat then
        if negb (c =? 45) then Ok false else is_valid_guid_from (S i) s
      else if (i =? 36)%nat then Ok (c =? 0)
      else if digit_to_int c =? -1 then Ok false else is_valid_guid_from (S i) s
  end.

Definition is_valid_guid (s : list Z) : res bool := is_valid_guid_from 0 s.

(** [for (int i = len - 1; i >= 0; i--)]: [k] counts up, [i] down. *)
Definition guid_convert_le_cluster (dest : list Z) (off : nat) (s : list Z) (len : nat) : res (list Z) :=
  let! (dest, _) :=
    for_range len 0
      (fun k '(dest, p) =>
         let i := (len - 1 - k)%nat in
         let! c := rd s i in
         let val := digit_to_int c in
         if Nat.odd i then
           let! dest := wr dest (off + p) (u8 val) in Ok (dest, p)
         else
           let! old := rd dest (off + p) in
           let! dest := wr dest (off + p) (u8 (Z.lor old (Z.shiftl val 4))) in
           Ok (dest, S p))
      (dest, 0%nat) in
  Ok dest.

Definition guid_convert_be_cluster (dest : list Z) (off : nat) (s : list Z) (len : nat) : res (list Z) :=
  let! (dest, _) :=
    for_range len 0
      (fun i '(dest, p) =>
         let! c := rd s i in
         let val := digit_to_int c in
         if Nat.odd i then
           let! old := rd dest (off + p) in
           let! dest := wr dest (off + p) (u8 (Z.lor old val)) in
           Ok (dest, S p)
         else
           let! dest := wr dest (off + p) (u8 (Z.shiftl val 4)) in Ok (dest, p))
      (dest, 0%nat) in
  Ok dest.

(** [None] when the string is refused; [guid] is the object written to. *)
Definition string_to_guid_be (g : guid) (s : list Z) : res (option guid) :=
  let! ok := is_valid_guid s in
  if negb ok then Ok None
  else
    let! b := guid_convert_be_cluster (guid_bytes g) 0 s 8 in
    let! b := guid_convert_be_cluster b 4 (drop 9 s) 4 in
    let! b := guid_convert_be_cluster b 6 (drop 14 s) 4 in
    let! b := guid_convert_be_cluster b 8 (drop 19 s) 4 in
    let! b := guid_convert_be_cluster b 10 (drop 24 s) 12 in
    Ok (Some (guid_of_bytes b)).

Definition string_to_guid_mixed (g : guid) (s : list Z) : res (option guid) :=
  let! ok := is_valid_guid s in
  if negb ok then Ok None
  else
    let! b := guid_convert_le_cluster (guid_bytes g) 0 s 8 in
    let! b := guid_convert_le_cluster b 4 (drop 9 s) 4 in
    let! b := guid_convert_le_cluster b 6 (drop 14 s) 4 in
    let! b := guid_convert_be_cluster b 8 (drop 19 s) 4 in
    let! b := guid_convert_be_cluster b 10 (drop 24 s) 12 in
    Ok (Some (guid_of_bytes b)).

(** [uint_to_hex]: the [len] characters written. *)
Definition hex_digits : list Z := bytes "0123456789abcdef".

Definition uint_to_hex (num : Z) (len : nat) : list Z :=
  map (fun i => nth (Z.to_nat (Z.land (Z.shiftr num (Z.of_nat (len - 1 - i) * 4)) 0xf)) hex_digits 0)
    (seq 0 len).

Definition guid_to_string (g : guid) : list Z :=
  let d i := uint_to_hex (nth i (g_d g) 0) 2 in
  uint_to_hex (g_a g) 8 ++ [45] ++ uint_to_hex (g_b g) 4 ++ [45] ++ uint_to_hex (g_c g) 4 ++ [45]
  ++ d 0%nat ++ d 1%nat ++ [45] ++ d 2%nat ++ d 3%nat ++ d 4%nat ++ d 5%nat ++ d 6%nat ++ d 7%nat ++ [0].

Example guid_text :
  guid_to_string (MkGuid 0xc12a7328 0xf81f 0x11d2 [0xba; 0x4b; 0; 0xa0; 0xc9; 0x3e; 0xc9; 0x3b])
  = cstring "c12a7328-f81f-11d2-ba4b-00a0c93ec93b".
Proof. vm_compute. reflexivity. Qed.

Example guid_parse :
  string_to_guid_mixed (MkGuid 0 0 0 (replicate 8 0)) (cstring "C12A7328-F81F-11D2-BA4B-00A0C93EC93B")
  = Ok (Some (MkGuid 0xc12a7328 0xf81f 0x11d2 [0xba; 0x4b; 0; 0xa0; 0xc9; 0x3e; 0xc9; 0x3b])).
Proof. vm_compute. reflexivity. Qed.

(** ** Proofs *)
Definition hex (n : Z) : Z := nth (Z.to_nat n) hex_digits 0.

Lemma digit_to_int_hex n : 0 <= n < 16 -> digit_to_int (hex n) = n.
Proof.
  intros Hn. assert (exists k, (k < 16)%nat /\ n = Z.of_nat k) as (k & Hk & ->) by (exists (Z.to_nat n); lia).
  do 16 (destruct k as [|k]; [reflexivity|]). lia.
Qed.

(** The hexadecimal digits of a number, most significant first. *)
Definition nibble (num : Z) (k : Z) : Z := num / 16 ^ k mod 16.

Lemma nibble_range num k : 0 <= nibble num k < 16.
Proof. apply Z.mod_pos_bound. lia. Qed.

Lemma uint_to_hex_nibbles num len :
  uint_to_hex num len = map (fun i => hex (nibble num (Z.of_nat (len - 1 - i)))) (seq 0 len).
Proof.
  apply map_ext. intros i. unfold hex, nibble. do 2 f_equal.
  change 0xf with (Z.ones 4). rewrite Z.land_ones, Z.shiftr_div_pow2 by lia.
  change (2 ^ 4) with 16. rewrite Z.mul_comm, Z.pow_mul_r by lia. done.
Qed.

(** Two characters make one byte. *)
Lemma nibbles_byte h l : 0 <= h < 16 -> 0 <= l < 16 ->
  u8 (Z.lor (u8 (Z.shiftl h 4)) l) = 16 * h + l /\ u8 (Z.lor (u8 l) (Z.shiftl h 4)) = 16 * h + l.
Proof.
  intros Hh Hl. rewrite !(wrap_small 8 l), (wrap_small 8 (Z.shiftl h 4)) by (rewrite ?Z.shiftl_mul_pow2; lia).
  rewrite (Z.lor_comm l). rewrite (shiftl_lor_low h l 4) by lia. rewrite wrap_small by lia. lia.
Qed.

(** The clusters, [n] bytes from byte [j] on; [x i] is the digit at [s[i]]. *)
Section Clusters.
Variable s : list Z.
Variable x : nat -> Z.
Variable off : nat.

Definition digits_at (lo hi : nat) : Prop :=
  forall i, (lo <= i < hi)%nat -> 0 <= x i < 16 /\ exists c, s !! i = Some c /\ digit_to_int c = x i.

Lemma be_cluster_loop n : forall j dest,
  (off + j + n <= length dest)%nat -> digits_at (2 * j) (2 * j + 2 * n) ->
  for_range (2 * n) (2 * j)
    (fun i '(dest, p) =>
       let! c := rd s i in
       let val := digit_to_int c in
       if Nat.odd i then
         let! old := rd dest (off + p) in
         let! dest := wr dest (off + p) (u8 (Z.lor old val)) in
         Ok (dest, S p)
       else
         let! dest := wr dest (off + p) (u8 (Z.shiftl val 4)) in Ok (dest, p)) (dest, j)
  = Ok (list_inserts (off + j) (map (fun t => 16 * x (2 * t)%nat + x (2 * t + 1)%nat) (seq j n)) dest, (j + n)%nat).
Proof.
  induction n as [|n IH]; intros j dest Hlen Hd; [by rewrite Nat.add_0_r|].
  replace (2 * S n)%nat with (S (S (2 * n))) by lia. cbn [for_range].
  destruct (Hd (2 * j)%nat ltac:(lia)) as (Hx0 & c0 & Hc0 & Hv0).
  destruct (Hd (S (2 * j))%nat ltac:(lia)) as (Hx1 & c1 & Hc1 & Hv1).
  rewrite (rd_lookup _ _ _ Hc0), (rd_lookup _ _ _ Hc1). cbn [rbind]. rewrite Hv0, Hv1.
  rewrite Nat.odd_succ, Nat.even_mul, Nat.odd_mul. cbn [Nat.odd Nat.even orb andb negb].
  rewrite wr_lt by lia. cbn [rbind].
  rewrite (rd_lookup _ (off + j) (u8 (Z.shiftl (x (2 * j)) 4)))
    by (apply list_lookup_insert_eq; lia). cbn [rbind].
  rewrite wr_lt by (rewrite length_insert; lia). cbn [rbind].
  rewrite list_insert_insert_eq. rewrite (proj1 (nibbles_byte _ _ Hx0 Hx1)).
  replace (S (S (2 * j))) with (2 * S j)%nat by lia.
  rewrite IH; [|rewrite length_insert; lia|intros i Hi; apply Hd; lia].
  cbn [seq map list_inserts]. rewrite list_insert_inserts_lt by lia.
  replace (off + S j)%nat with (S (off + j)) by lia. replace (2 * j + 1)%nat with (S (2 * j)) by lia.
  do 2 f_equal. lia.
Qed.

Lemma le_cluster_loop len n : forall j dest,
  (off + j + n <= length dest)%nat -> (2 * j + 2 * n <= len)%nat -> Nat.even len = true -> digits_at 0 len ->
  for_range (2 * n) (2 * j)
    (fun k '(dest, p) =>
       let i := (len - 1 - k)%nat in
       let! c := rd s i in
       let val := digit_to_int c in
       if Nat.odd i then
         let! dest := wr dest (off + p) (u8 val) in Ok (dest, p)
       else
         let! old := rd dest (off + p) in
         let! dest := wr dest (off + p) (u8 (Z.lor old (Z.shiftl val 4))) in
         Ok (dest, S p)) (dest, j)
  = Ok (list_inserts (off + j)
          (map (fun t => 16 * x (len - 2 - 2 * t)%nat + x (len - 1 - 2 * t)%nat) (seq j n)) dest, (j + n)%nat).
Proof.
  induction n as [|n IH]; intros j dest Hlen Hle Hev Hd; [by rewrite Nat.add_0_r|].
  replace (2 * S n)%nat with (S (S (2 * n))) by lia. cbn [for_range].
  destruct (Hd (len - 1 - 2 * j)%nat ltac:(lia)) as (Hx0 & c0 & Hc0 & Hv0).
  destruct (Hd (len - 1 - S (2 * j))%nat ltac:(lia)) as (Hx1 & c1 & Hc1 & Hv1).
  assert (Nat.odd (len - 1 - 2 * j) = true /\ Nat.odd (len - 1 - S (2 * j)) = false) as [Ho0 Ho1].
  { apply Nat.even_spec in Hev as [m ->]. split.
    - apply Nat.odd_spec. exists (m - 1 - j)%nat. lia.
    - apply not_true_is_false. rewrite Nat.odd_spec. intros [q Hq]. lia. }
  rewrite (rd_lookup _ _ _ Hc0), (rd_lookup _ _ _ Hc1). cbn [rbind]. rewrite Hv0, Hv1, Ho0, Ho1.
  rewrite wr_lt by lia. cbn [rbind].
  rewrite (rd_lookup _ (off + j) (u8 (x (len - 1 - 2 * j))))
    by (apply list_lookup_insert_eq; lia). cbn [rbind].
  rewrite wr_lt by (rewrite length_insert; lia). cbn [rbind].
  rewrite list_insert_insert_eq. rewrite (proj2 (nibbles_byte _ _ Hx1 Hx0)).
  replace (S (S (2 * j))) with (2 * S j)%nat by lia.
  rewrite IH; [|rewrite length_insert; lia|lia|done|done].
  cbn [seq map list_inserts]. rewrite list_insert_inserts_lt by lia.
  replace (off + S j)%nat with (S (off + j)) by lia.
  replace (len - 1 - S (2 * j))%nat with (len - 2 - 2 * j)%nat by lia.
  do 2 f_equal. lia.
Qed.
End Clusters.

Lemma be_cluster_spec s x off n dest :
  (off + n <= length dest)%nat -> digits_at s x 0 (2 * n) ->
  guid_convert_be_cluster dest off s (2 * n) =
  Ok (list_inserts off (map (fun t => 16 * x (2 * t)%nat + x (2 * t + 1)%nat) (seq 0 n)) dest).
Proof.
  intros Hl Hd. unfold guid_convert_be_cluster. change 0%nat with (2 * 0)%nat at 1.
  rewrite (be_cluster_loop s x off n 0) by (done || lia). cbn [rbind]. by rewrite Nat.add_0_r.
Qed.

Lemma le_cluster_spec s x off n dest :
  (off + n <= length dest)%nat -> digits_at s x 0 (2 * n) ->
  guid_convert_le_cluster dest off s (2 * n) =
  Ok (list_inserts off
        (map (fun t => 16 * x (2 * n - 2 - 2 * t)%nat + x (2 * n - 1 - 2 * t)%nat) (seq 0 n)) dest).
Proof.
  intros Hl Hd. unfold guid_convert_le_cluster. change 0%nat with (2 * 0)%nat at 2.
  rewrite (le_cluster_loop s x off (2 * n) n 0); [|lia|lia|by rewrite Nat.even_mul|done].
  cbn [rbind]. by rewrite Nat.add_0_r.
Qed.

(** *** Which strings are accepted *)
Definition dash_at (i : nat) : bool := (i =? 8)%nat || (i =? 13)%nat || (i =? 18)%nat || (i =? 23)%nat.

Definition guid_char (i : nat) (c : Z) : Prop :=
  if dash_at i then c = 45 else digit_to_int c <> -1.

Lemma is_valid_guid_from_iff n : forall i s,
  (i + n = 36)%nat -> (n < length s)%nat ->
  is_valid_guid_from i s = Ok true <->
  (forall k c, (k < n)%nat -> s !! k = Some c -> guid_char (i + k) c) /\ s !! n = Some 0.
Proof.
  induction n as [|n IH]; intros i s Hi Hl; destruct s as [|c s]; cbn in Hl; try lia; cbn [is_valid_guid_from].
  - assert (i = 36)%nat as -> by lia. cbn. split; [intros [= H]; bool_hyps; subst; by split; [lia|]|].
    by intros [_ [= ->]].
  - fold (dash_at i). assert ((i =? 36)%nat = false) as -> by (apply Nat.eqb_neq; lia).
    specialize (IH (S i) s ltac:(lia) ltac:(lia)).
    assert ((forall k c', (k < S n)%nat -> (c :: s) !! k = Some c' -> guid_char (i + k) c') <->
            guid_char i c /\ (forall k c', (k < n)%nat -> s !! k = Some c' -> guid_char (S i + k) c')) as ->.
    { split.
      - intros H. split; [rewrite <- (Nat.add_0_r i); by apply (H 0%nat c); [lia|]|].
        intros k c' Hk Hc. replace (S i + k)%nat with (i + S k)%nat by lia. apply H; [lia|done].
      - intros [H0 H] [|k] c' Hk Hc; [injection Hc as ->; by rewrite Nat.add_0_r|].
        replace (i + S k)%nat with (S i + k)%nat by lia. apply H; [lia|done]. }
    change ((c :: s) !! S n) with (s !! n). unfold guid_char at 1. destruct (dash_at i).
    + destruct (c =? 45) eqn:E; bool_hyps; cbn; [rewrite IH; tauto|]. split; [done|tauto].
    + destruct (digit_to_int c =? -1) eqn:E; bool_hyps; [split; [done|tauto]|]. rewrite IH. tauto.
Qed.

(** *** Reading back what was printed *)
Lemma nibble_step num k : 0 <= k -> num / 16 ^ k = 16 * (num / 16 ^ (k + 1)) + nibble num k.
Proof.
  intros Hk. unfold nibble. rewrite Z.pow_add_r, Z.pow_1_r by lia.
  rewrite <- Z.div_div by lia. apply Z.div_mod. lia.
Qed.

(** The printed characters, as a function of the position. *)
Definition guid_digit (g : guid) (i : nat) : Z :=
  if (i <? 8)%nat then nibble (g_a g) (7 - Z.of_nat i)
  else if (i <? 13)%nat then nibble (g_b g) (12 - Z.of_nat i)
  else if (i <? 18)%nat then nibble (g_c g) (17 - Z.of_nat i)
  else if (i <? 23)%nat then nibble (nth ((i - 19) / 2) (g_d g) 0) (1 - Z.of_nat ((i - 19) mod 2))
  else nibble (nth (2 + (i - 24) / 2) (g_d g) 0) (1 - Z.of_nat (i mod 2)).

Definition guid_printed (g : guid) : list Z :=
  map (fun i => if (i =? 36)%nat then 0 else if dash_at i then 45 else hex (guid_digit g i)) (seq 0 37).

Lemma guid_to_string_printed g : guid_to_string g = guid_printed g.
Proof. unfold guid_to_string. rewrite !uint_to_hex_nibbles. reflexivity. Qed.

Lemma guid_printed_lookup g rest i :
  (i < 36)%nat -> dash_at i = false -> (guid_printed g ++ rest) !! i = Some (hex (guid_digit g i)).
Proof.
  intros Hi Hd. rewrite lookup_app_l by (unfold guid_printed; rewrite length_map, length_seq; lia).
  unfold guid_printed. rewrite list_lookup_fmap, lookup_seq_lt by lia. cbn [fmap option_fmap option_map].
  rewrite Nat.add_0_l, Hd. by rewrite (proj2 (Nat.eqb_neq i 36)) by lia.
Qed.

Lemma guid_digit_range g i : 0 <= guid_digit g i < 16.
Proof. unfold guid_digit. repeat case_if; apply nibble_range. Qed.

Lemma guid_printed_digits g rest off n :
  (off + n <= 36)%nat -> (forall i, (i < n)%nat -> dash_at (off + i) = false) ->
  digits_at (drop off (guid_printed g ++ rest)) (fun i => guid_digit g (off + i)) 0 n.
Proof.
  intros Ho Hd i Hi. split; [apply guid_digit_range|].
  exists (hex (guid_digit g (off + i))). rewrite lookup_drop. split.
  - apply guid_printed_lookup; [lia|]. apply Hd. lia.
  - apply digit_to_int_hex, guid_digit_range.
Qed.

Lemma guid_printed_valid g rest : is_valid_guid (guid_printed g ++ rest) = Ok true.
Proof.
  unfold is_valid_guid. apply (is_valid_guid_from_iff 36 0).
  - done.
  - rewrite length_app. unfold guid_printed. rewrite length_map, length_seq. lia.
  - split; [|done]. intros k c Hk Hc. unfold guid_char. cbn [Nat.add]. destruct (dash_at k) eqn:E.
    + revert Hc. rewrite lookup_app_l by (unfold guid_printed; rewrite length_map, length_seq; lia).
      unfold guid_printed. rewrite list_lookup_fmap, lookup_seq_lt by lia. cbn [fmap option_fmap option_map].
      rewrite Nat.add_0_l, E, (proj2 (Nat.eqb_neq k 36)) by lia. by intros [= <-].
    + rewrite (guid_printed_lookup g rest k Hk E) in Hc. injection Hc as <-.
      pose proof (guid_digit_range g k). rewrite digit_to_int_hex by done. lia.
Qed.

Definition guid_wf (g : guid) : Prop :=
  0 <= g_a g < 2 ^ 32 /\ 0 <= g_b g < 2 ^ 16 /\ 0 <= g_c g < 2 ^ 16 /\
  length (g_d g) = 8%nat /\ Forall is_byte (g_d g).

Ltac no_dash := let i := fresh in let H := fresh in
  intros i H; do 12 (destruct i as [|i]; [first [reflexivity|lia]|]); lia.

Lemma length_guid_bytes g : length (g_d g) = 8%nat -> length (guid_bytes g) = 16%nat.
Proof. intros H. unfold guid_bytes. rewrite !length_app, !length_le_bytes, H. reflexivity. Qed.

Lemma list_16 {A} (l : list A) : length l = 16%nat ->
  exists a b c d e f g h i j k m n o p q, l = [a; b; c; d; e; f; g; h; i; j; k; m; n; o; p; q].
Proof.
  intros H. do 16 (destruct l as [|? l]; [discriminate H|]). destruct l; [|discriminate H].
  repeat eexists.
Qed.

(** A number is the sum of its low nibbles and the rest. *)
Lemma nibbles_2 num k : 0 <= k ->
  num / 16 ^ k = 16 * nibble num (k + 1) + nibble num k + 256 * (num / 16 ^ (k + 2)).
Proof.
  intros Hk. rewrite (nibble_step num k), (nibble_step num (k + 1)) by lia.
  replace (k + 1 + 1) with (k + 2) by lia. lia.
Qed.

Lemma byte_nibbles b : is_byte b -> 16 * nibble b 1 + nibble b 0 = b.
Proof.
  unfold is_byte. intros H. pose proof (nibbles_2 b 0 ltac:(lia)) as H0. change (16 ^ 0) with 1 in H0.
  change (16 ^ (0 + 2)) with 256 in H0. rewrite Z.div_1_r, (Z.div_small b 256) in H0 by lia.
  change (0 + 1) with 1 in H0. lia.
Qed.

Lemma u16_nibbles b : 0 <= b < 2 ^ 16 ->
  16 * nibble b 1 + nibble b 0 + 256 * (16 * nibble b 3 + nibble b 2 + 256 * 0) = b.
Proof.
  intros H. pose proof (nibbles_2 b 0 ltac:(lia)) as H0. pose proof (nibbles_2 b 2 ltac:(lia)) as H2.
  change (16 ^ 0) with 1 in H0. rewrite Z.div_1_r in H0. change (16 ^ (2 + 2)) with (2 ^ 16) in H2.
  rewrite (Z.div_small b (2 ^ 16)) in H2 by lia.
  change (0 + 1) with 1 in H0. change (0 + 2) with 2 in H0. change (2 + 1) with 3 in H2. lia.
Qed.

Lemma u32_nibbles b : 0 <= b < 2 ^ 32 ->
  16 * nibble b 1 + nibble b 0 + 256 * (16 * nibble b 3 + nibble b 2 + 256 * (16 * nibble b 5 + nibble b 4
  + 256 * (16 * nibble b 7 + nibble b 6 + 256 * 0))) = b.
Proof.
  intros H. pose proof (nibbles_2 b 0 ltac:(lia)) as H0. pose proof (nibbles_2 b 2 ltac:(lia)) as H2.
  pose proof (nibbles_2 b 4 ltac:(lia)) as H4. pose proof (nibbles_2 b 6 ltac:(lia)) as H6.
  change (16 ^ 0) with 1 in H0. rewrite Z.div_1_r in H0. change (16 ^ (6 + 2)) with (2 ^ 32) in H6.
  rewrite (Z.div_small b (2 ^ 32)) in H6 by lia.
  change (0 + 1) with 1 in H0. change (0 + 2) with 2 in H0. change (2 + 1) with 3 in H2.
  change (2 + 2) with 4 in H2. change (4 + 1) with 5 in H4. change (4 + 2) with 6 in H4.
  change (6 + 1) with 7 in H6. lia.
Qed.

(** The 16 bytes that parsing the printed form writes. *)
Lemma string_to_guid_mixed_bytes g0 g rest :
  length (g_d g0) = 8%nat ->
  string_to_guid_mixed g0 (guid_printed g ++ rest) =
  Ok (Some (guid_of_bytes
    (map (fun i => 16 * guid_digit g i + guid_digit g (S i)) [6; 4; 2; 0; 11; 9; 16; 14; 19; 21; 24; 26; 28; 30; 32; 34]%nat))).
Proof.
  intros H0. unfold string_to_guid_mixed. rewrite guid_printed_valid. cbn [rbind negb].
  destruct (list_16 _ (length_guid_bytes g0 H0)) as (a & b & c & d & e & f & g' & h & i & j & k & m & n & o & p & q & ->).
  set (s := guid_printed g ++ rest).
  rewrite (le_cluster_spec s (fun i => guid_digit g (0 + i)) 0 4); [|cbn; lia|apply (guid_printed_digits g rest 0 8); [lia|no_dash]].
  cbn [rbind].
  rewrite (le_cluster_spec (drop 9 s) (fun i => guid_digit g (9 + i)) 4 2);
    [|cbn; lia|apply (guid_printed_digits g rest 9 4); [lia|no_dash]]. cbn [rbind].
  rewrite (le_cluster_spec (drop 14 s) (fun i => guid_digit g (14 + i)) 6 2);
    [|cbn; lia|apply (guid_printed_digits g rest 14 4); [lia|no_dash]]. cbn [rbind].
  rewrite (be_cluster_spec (drop 19 s) (fun i => guid_digit g (19 + i)) 8 2);
    [|cbn; lia|apply (guid_printed_digits g rest 19 4); [lia|no_dash]]. cbn [rbind].
  rewrite (be_cluster_spec (drop 24 s) (fun i => guid_digit g (24 + i)) 10 6);
    [|cbn; lia|apply (guid_printed_digits g rest 24 12); [lia|no_dash]]. cbn [rbind].
  do 3 f_equal.
Qed.

(** Reading a printed GUID gives it back, whatever the object held before;
    and a string with enough characters is accepted exactly if it is 36
    characters long with dashes at the four places and hexadecimal digits at
    the others. *)
Theorem guid_text_roundtrip g g0 rest :
  guid_wf g -> length (g_d g0) = 8%nat ->
  string_to_guid_mixed g0 (guid_to_string g ++ rest) = Ok (Some g) /\
  forall s, (36 < length s)%nat ->
    is_valid_guid s = Ok true <->
    (forall k c, (k < 36)%nat -> s !! k = Some c -> guid_char k c) /\ s !! 36%nat = Some 0.
Proof.
  intros (Ha & Hb & Hc & Hl & Hd) H0. split; [|intros s Hs; by apply (is_valid_guid_from_iff 36 0)].
  rewrite guid_to_string_printed, string_to_guid_mixed_bytes by done. do 2 f_equal.
  destruct g as [a b c d]. cbn [g_a g_b g_c g_d] in *.
  do 8 (destruct d as [|? d]; [discriminate Hl|]). destruct d; [|discriminate Hl].
  unfold guid_of_bytes. cbn [map take drop le_val].
  repeat (apply Forall_cons in Hd as [? Hd]).
  f_equal; [exact (u32_nibbles a Ha)|exact (u16_nibbles b Hb)|exact (u16_nibbles c Hc)|].
  repeat (f_equal; [by apply byte_nibbles|]). f_equal. by apply byte_nibbles.
Qed.

Lemma guid_text_roundtrip_witness :
  string_to_guid_mixed (MkGuid 1 2 3 (replicate 8 9))
    (guid_to_string (MkGuid 0xc12a7328 0xf81f 0x11d2 [0xba; 0x4b; 0; 0xa0; 0xc9; 0x3e; 0xc9; 0x3b]) ++ [7])
  = Ok (Some (MkGuid 0xc12a7328 0xf81f 0x11d2 [0xba; 0x4b; 0; 0xa0; 0xc9; 0x3e; 0xc9; 0x3b])).
Proof.
  apply (guid_text_roundtrip (MkGuid 0xc12a7328 0xf81f 0x11d2 [0xba; 0x4b; 0; 0xa0; 0xc9; 0x3e; 0xc9; 0x3b])).
  - unfold guid_wf. cbn. split_and!; try lia. repeat constructor; unfold is_byte; lia.
  - reflexivity.
Defined.
