(* ===== verification/Utf.v ===== *)
(** * UTF-8 and UTF-16

    [common/lib/utf.s2.c]: conversion in both directions into buffers of a
    fixed size, with ill-formed input replaced by U+FFFD. *)

From S2P Require Import Prelude CInt.

Definition REPLACEMENT_CHARACTER : Z := 0xfffd.

(** ** UTF-16 to UTF-8 *)
Definition utf8_len (cp : Z) : nat :=
  if cp <? 0x80 then 1 else if cp <? 0x800 then 2 else if cp <? 0x10000 then 3 else 4.

(** The [k] trail bytes of a sequence. *)
Fixpoint utf8_trail_bytes (cp : Z) (k : nat) : list Z :=
  match k with
  | O => []
  | S k => u8 (Z.lor 0x80 (Z.land (Z.shiftr cp (6 * Z.of_nat k)) 0x3f)) :: utf8_trail_bytes cp k
  end.

Definition utf8_put (cp : Z) : list Z :=
  let n := utf8_len cp in
  if (n =? 1)%nat then [u8 cp]
  else
    let shift := 6 * (Z.of_nat n - 1) in
    u8 (Z.lor (u8 (Z.shiftr 0xff00 (Z.of_nat n))) (Z.shiftr cp shift)) :: utf8_trail_bytes cp (n - 1).

Definition is_high (c : Z) : bool := (0xd800 <=? c) && (c <=? 0xdbff).
Definition is_low (c : Z) : bool := (0xdc00 <=? c) && (c <=? 0xdfff).
Definition is_surrogate (c : Z) : bool := (0xd800 <=? c) && (c <=? 0xdfff).

(** The bytes written so far are [out]; the result also says whether the whole
    of [src] was converted. *)
Fixpoint utf16_to_utf8_loop (dest_size : Z) (src : list Z) (out : list Z) (complete : bool) : bool * list Z :=
  match src with
  | [] => (complete, out)
  | c :: rest =>
      if c =? 0 then (complete, out)
      else
        let room (cp : Z) := negb (u64 (dest_size - Z.of_nat (length out)) <=? Z.of_nat (utf8_len cp)) in
        match rest with
        | c2 :: rest2 =>
            if is_high c && is_low c2 then
              let cp := 0x10000 + Z.shiftl (c - 0xd800) 10 + (c2 - 0xdc00) in
              if room cp then utf16_to_utf8_loop dest_size rest2 (out ++ utf8_put cp) complete
              else (false, out)
            else
              let cp := if is_surrogate c then REPLACEMENT_CHARACTER else c in
              if room cp then utf16_to_utf8_loop dest_size rest (out ++ utf8_put cp) complete
              else (false, out)
        | [] =>
            let cp := if is_surrogate c then REPLACEMENT_CHARACTER else c in
            if room cp then utf16_to_utf8_loop dest_size rest (out ++ utf8_put cp) complete
            else (false, out)
        end
  end.

(** The return value, what was written to [dest] and [*dest_len]. *)
Definition utf_finish (dest_size : Z) (r : bool * list Z) : bool * list Z * nat :=
  (r.1, r.2 ++ (if dest_size =? 0 then [] else [0]), length r.2).

Definition utf16_to_utf8 (dest_size : Z) (src : list Z) : bool * list Z * nat :=
  utf_finish dest_size (utf16_to_utf8_loop dest_size src [] (negb (dest_size =? 0))).

(** ** UTF-8 to UTF-16 *)

(** What a lead byte says: the bits it carries, the number of trail bytes and
    the bounds of the first of them. *)
Definition utf8_lead (c : Z) : Z * nat * Z * Z :=
  if (0xc2 <=? c) && (c <=? 0xdf) then (Z.land c 0x1f, 1%nat, 0x80, 0xbf)
  else if (0xe0 <=? c) && (c <=? 0xef) then
    (Z.land c 0x0f, 2%nat, if c =? 0xe0 then 0xa0 else 0x80, if c =? 0xed then 0x9f else 0xbf)
  else if (0xf0 <=? c) && (c <=? 0xf4) then
    (Z.land c 0x07, 3%nat, if c =? 0xf0 then 0x90 else 0x80, if c =? 0xf4 then 0x8f else 0xbf)
  else if 0x80 <=? c then (REPLACEMENT_CHARACTER, 0%nat, 0x80, 0xbf)
  else (c, 0%nat, 0x80, 0xbf).

(** The trail bytes; a byte that cannot continue the sequence is left unread. *)
Fixpoint utf8_trail (trail : nat) (cp lo hi : Z) (s : list Z) : Z * list Z :=
  match trail with
  | O => (cp, s)
  | S trail =>
      match s with
      | [] => (REPLACEMENT_CHARACTER, s)
      | b :: s' =>
          if (b <? lo) || (hi <? b) then (REPLACEMENT_CHARACTER, s)
          else utf8_trail trail (u32 (Z.lor (Z.shiftl cp 6) (Z.land b 0x3f))) 0x80 0xbf s'
      end
  end.

Definition utf8_next (c : Z) (s : list Z) : Z * list Z :=
  let '(cp, trail, lo, hi) := utf8_lead c in utf8_trail trail cp lo hi s.

Definition utf16_put (cp : Z) : list Z :=
  if 0x10000 <=? cp then
    let cp := cp - 0x10000 in
    [u16 (Z.lor 0xd800 (Z.shiftr cp 10)); u16 (Z.lor 0xdc00 (Z.land cp 0x3ff))]
  else [u16 cp].

Fixpoint utf8_to_utf16_loop (fuel : nat) (dest_size : Z) (s : list Z) (out : list Z) (complete : bool)
    : res (bool * list Z) :=
  match s with
  | [] => Ok (complete, out)
  | c :: rest =>
      if c =? 0 then Ok (complete, out)
      else match fuel with
           | O => NoFuel
           | S fuel =>
               let '(cp, s) := utf8_next c rest in
               let n := if 0x10000 <=? cp then 2 else 1 in
               if u64 (dest_size - Z.of_nat (length out)) <=? n then Ok (false, out)
               else utf8_to_utf16_loop fuel dest_size s (out ++ utf16_put cp) complete
           end
  end.

(** Each turn reads at least one byte, so the length of [src] bounds them. *)
Definition utf8_to_utf16 (dest_size : Z) (src : list Z) : res (bool * list Z * nat) :=
  let! r := utf8_to_utf16_loop (length src) dest_size src [] (negb (dest_size =? 0)) in
  Ok (utf_finish dest_size r).

Example utf_ex1 : utf16_to_utf8 32 [0x61; 0x20ac; 0xd83d; 0xde00; 0xd800; 0x62; 0; 0x63]
  = (true, [0x61; 0xe2; 0x82; 0xac; 0xf0; 0x9f; 0x98; 0x80; 0xef; 0xbf; 0xbd; 0x62; 0], 12%nat).
Proof. vm_compute. reflexivity. Qed.
Example utf_ex2 : utf8_to_utf16 8 [0x61; 0xe2; 0x82; 0xac; 0xf0; 0x9f; 0x98; 0x80; 0xc0; 0x62]
  = Ok (true, [0x61; 0x20ac; 0xd83d; 0xde00; 0xfffd; 0x62; 0], 6%nat).
Proof. vm_compute. reflexivity. Qed.

(** ** The reference encodings *)
Definition scalar (cp : Z) : Prop := 0 < cp <= 0x10ffff /\ ~ 0xd800 <= cp <= 0xdfff.

Definition enc8 (cp : Z) : list Z :=
  if cp <? 0x80 then [cp]
  else if cp <? 0x800 then [0xc0 + cp / 64; 0x80 + cp mod 64]
  else if cp <? 0x10000 then [0xe0 + cp / 4096; 0x80 + cp / 64 mod 64; 0x80 + cp mod 64]
  else [0xf0 + cp / 262144; 0x80 + cp / 4096 mod 64; 0x80 + cp / 64 mod 64; 0x80 + cp mod 64].

Definition enc16 (cp : Z) : list Z :=
  if cp <? 0x10000 then [cp]
  else [0xd800 + (cp - 0x10000) / 1024; 0xdc00 + (cp - 0x10000) mod 1024].

(** Or-ing bits below a mask made of high bits. *)
Lemma lor_mask m a b k : 0 <= k -> m = a * 2 ^ k -> 0 <= b < 2 ^ k -> Z.lor m b = m + b.
Proof. intros Hk -> Hb. by apply lor_low. Qed.

Lemma trail_byte cp k : 0 <= cp -> 0 <= k -> u8 (Z.lor 0x80 (Z.land (Z.shiftr cp k) 0x3f)) = 0x80 + cp / 2 ^ k mod 64.
Proof.
  intros Hcp Hk. change 0x3f with (Z.ones 6). rewrite Z.land_ones, Z.shiftr_div_pow2 by lia.
  change (2 ^ 6) with 64. pose proof (Z.mod_pos_bound (cp / 2 ^ k) 64 ltac:(lia)).
  rewrite (lor_mask 0x80 1 _ 7) by lia. rewrite wrap_small by lia. done.
Qed.

Lemma lead_byte m a cp k w : 0 <= w -> m = a * 2 ^ w -> 0 <= cp / 2 ^ k < 2 ^ w -> 0 <= k -> 0 <= m -> m + 2 ^ w <= 256 ->
  u8 (Z.lor m (Z.shiftr cp k)) = m + cp / 2 ^ k.
Proof.
  intros Hw Hm Hc Hk Hm0 Hb. rewrite Z.shiftr_div_pow2 by lia. rewrite (lor_mask m a _ w) by done.
  apply wrap_small. lia.
Qed.

Lemma utf8_put_enc cp : 0 <= cp < 0x110000 -> utf8_put cp = enc8 cp.
Proof.
  intros Hcp. unfold utf8_put, enc8, utf8_len.
  assert (forall a b, 0 < b -> a < b * 0x110000 -> 0 <= a -> 0 <= a / b < 0x110000) as Hd.
  { intros a b Hb Ha H0. split; [apply Z.div_pos; lia|apply Z.div_lt_upper_bound; lia]. }
  repeat case_if; cbn [Nat.eqb Nat.sub utf8_trail_bytes]; try lia;
    repeat match goal with |- context [Z.of_nat ?n] => let z := eval cbv in (Z.of_nat n) in change (Z.of_nat n) with z end.
  - by rewrite wrap_small by lia.
  - rewrite trail_byte by lia. change (6 * (2 - 1)) with 6.
    change (u8 (Z.shiftr 0xff00 2)) with 0xc0. rewrite (lead_byte 0xc0 6 cp 6 5); try done.
    + change (6 * 0) with 0. change (2 ^ 0) with 1. by rewrite Z.div_1_r.
    + split; [apply Z.div_pos; lia|apply Z.div_lt_upper_bound; lia].
  - rewrite !trail_byte by lia. change (6 * (3 - 1)) with 12.
    change (u8 (Z.shiftr 0xff00 3)) with 0xe0. rewrite (lead_byte 0xe0 14 cp 12 4); try done.
    + change (6 * 0) with 0. change (2 ^ 0) with 1. by rewrite Z.div_1_r.
    + split; [apply Z.div_pos; lia|apply Z.div_lt_upper_bound; lia].
  - rewrite !trail_byte by lia. change (6 * (4 - 1)) with 18.
    change (u8 (Z.shiftr 0xff00 4)) with 0xf0. rewrite (lead_byte 0xf0 30 cp 18 3); try done.
    + change (6 * 0) with 0. change (2 ^ 0) with 1. by rewrite Z.div_1_r.
    + split; [apply Z.div_pos; lia|apply Z.div_lt_upper_bound; lia].
Qed.

Lemma utf16_put_enc cp : 0 <= cp < 0x110000 -> utf16_put cp = enc16 cp.
Proof.
  intros Hcp. unfold utf16_put, enc16. destruct (0x10000 <=? cp) eqn:E; bool_hyps.
  - rewrite (proj2 (Z.ltb_ge _ _)) by lia. change 0x3ff with (Z.ones 10). rewrite Z.land_ones, Z.shiftr_div_pow2 by lia.
    change (2 ^ 10) with 1024. pose proof (Z.mod_pos_bound (cp - 0x10000) 1024 ltac:(lia)).
    assert (0 <= (cp - 0x10000) / 1024 < 2 ^ 10)
      by (split; [apply Z.div_pos; lia|apply Z.div_lt_upper_bound; lia]).
    rewrite (lor_mask 0xd800 54 _ 10), (lor_mask 0xdc00 55 _ 10) by lia. by rewrite !wrap_small by lia.
  - rewrite (proj2 (Z.ltb_lt _ _)) by lia. by rewrite wrap_small by lia.
Qed.

(** *** Decoding one code point *)
Lemma land_low_mod x k m : 0 <= k -> m = Z.ones k -> Z.land x m = x mod 2 ^ k.
Proof. intros Hk ->. by apply Z.land_ones. Qed.

(** A trail byte within its bounds shifts six more bits in. *)
Lemma utf8_trail_step n cp lo hi r s :
  0 <= cp < 2 ^ 20 -> 0 <= r < 64 -> lo <= 0x80 + r <= hi ->
  utf8_trail (S n) cp lo hi (0x80 + r :: s) = utf8_trail n (cp * 64 + r) 0x80 0xbf s.
Proof.
  intros Hcp Hr Hb. cbn [utf8_trail].
  rewrite (proj2 (Z.ltb_ge _ _)), (proj2 (Z.ltb_ge _ _)) by lia. cbn [orb].
  rewrite (land_low_mod _ 6) by done. change (2 ^ 6) with 64.
  replace (0x80 + r) with (r + 2 * 64) by lia. rewrite (Z.mod_add r 2 64), (Z.mod_small r) by lia.
  rewrite (shiftl_lor_low cp r 6) by lia. by rewrite wrap_small by lia.
Qed.

Lemma lead_bits m a q k mask : 0 <= k -> m = a * 2 ^ k -> mask = Z.ones k -> 0 <= q < 2 ^ k ->
  Z.land (m + q) mask = q.
Proof.
  intros Hk -> Hmask Hq. rewrite (land_low_mod _ k) by done.
  rewrite Z.add_comm, Z.mod_add by lia. by apply Z.mod_small.
Qed.

Lemma utf8_next_enc cp s :
  scalar cp -> exists c t, enc8 cp = c :: t /\ c <> 0 /\ utf8_next c (t ++ s) = (cp, s).
Proof.
  intros [Hcp Hns]. unfold enc8, utf8_next, utf8_lead.
  pose proof (Z.div_mod cp 64 ltac:(lia)) as E0. pose proof (Z.mod_pos_bound cp 64 ltac:(lia)) as B0.
  pose proof (Z.div_mod (cp / 64) 64 ltac:(lia)) as E1. pose proof (Z.mod_pos_bound (cp / 64) 64 ltac:(lia)) as B1.
  rewrite Z.div_div in E1 by lia. change (64 * 64) with 4096 in E1.
  pose proof (Z.div_mod (cp / 4096) 64 ltac:(lia)) as E2. pose proof (Z.mod_pos_bound (cp / 4096) 64 ltac:(lia)) as B2.
  rewrite Z.div_div in E2 by lia. change (4096 * 64) with 262144 in E2.
  set (r0 := cp mod 64) in *. set (r1 := (cp / 64) mod 64) in *. set (r2 := (cp / 4096) mod 64) in *.
  set (q1 := cp / 64) in *. set (q2 := cp / 4096) in *. set (q3 := cp / 262144) in *.
  repeat case_if; try lia; eexists _, _; (split; [reflexivity|]); (split; [lia|]); cbn [app].
  - solve_ifs.
  - rewrite (proj2 (Z.leb_le 0xc2 _)), (proj2 (Z.leb_le _ 0xdf)) by lia. cbn [andb].
    rewrite (lead_bits 0xc0 6 q1 5) by (done || lia). rewrite utf8_trail_step by lia. cbn. f_equal; lia.
  - rewrite (proj2 (Z.leb_gt _ 0xdf)), andb_false_r by lia.
    rewrite (proj2 (Z.leb_le 0xe0 _)), (proj2 (Z.leb_le _ 0xef)) by lia. cbn [andb].
    rewrite (lead_bits 0xe0 14 q2 4) by (done || lia).
    rewrite utf8_trail_step; [|lia|lia|repeat case_if; lia].
    rewrite utf8_trail_step by lia. cbn. f_equal; lia.
  - rewrite (proj2 (Z.leb_gt _ 0xdf)), (proj2 (Z.leb_gt _ 0xef)), !andb_false_r by lia.
    rewrite (proj2 (Z.leb_le 0xf0 _)), (proj2 (Z.leb_le _ 0xf4)) by lia. cbn [andb].
    rewrite (lead_bits 0xf0 30 q3 3) by (done || lia).
    rewrite utf8_trail_step; [|lia|lia|repeat case_if; lia].
    rewrite utf8_trail_step by lia. rewrite utf8_trail_step by lia. cbn. f_equal; lia.
Qed.

Lemma length_enc8 cp : length (enc8 cp) = utf8_len cp.
Proof. unfold enc8, utf8_len. repeat case_if; reflexivity. Qed.

Lemma length_enc16 cp : Z.of_nat (length (enc16 cp)) = if 0x10000 <=? cp then 2 else 1.
Proof. unfold enc16. solve_ifs. Qed.

Lemma enc8_nonempty cp : (0 < length (enc8 cp))%nat.
Proof. unfold enc8. repeat case_if; cbn; lia. Qed.

Lemma enc16_cases cp :
  (cp < 0x10000 /\ enc16 cp = [cp]) \/
  (0x10000 <= cp /\ enc16 cp = [0xd800 + (cp - 0x10000) / 1024; 0xdc00 + (cp - 0x10000) mod 1024]).
Proof. unfold enc16. solve_ifs; auto. Qed.

Lemma is_surrogate_false c : 0 <= c -> ~ 0xd800 <= c <= 0xdfff -> is_surrogate c = false /\ is_high c = false.
Proof.
  intros. unfold is_surrogate, is_high.
  destruct (0xd800 <=? c) eqn:?, (c <=? 0xdfff) eqn:?, (c <=? 0xdbff) eqn:?; bool_hyps; cbn; (done || lia).
Qed.

(** What ends a source: its length, or a NUL. *)
Definition stops (t : list Z) : Prop := t = [] \/ exists t', t = 0 :: t'.

(** *** The loops on well-formed input *)
(** One turn on the encoding of a character. *)
Lemma utf16_to_utf8_loop_cons size cp s out complete :
  scalar cp -> 0 <= size < 2 ^ 64 -> Z.of_nat (length out) <= size ->
  utf16_to_utf8_loop size (enc16 cp ++ s) out complete =
    if Z.of_nat (length out + length (enc8 cp)) <? size then utf16_to_utf8_loop size s (out ++ enc8 cp) complete
    else (false, out).
Proof.
  intros [Hr Hns] Hsz Hl.
  assert ((if negb (u64 (size - Z.of_nat (length out)) <=? Z.of_nat (utf8_len cp))
           then utf16_to_utf8_loop size s (out ++ utf8_put cp) complete else (false, out)) =
    if Z.of_nat (length out + length (enc8 cp)) <? size then utf16_to_utf8_loop size s (out ++ enc8 cp) complete
    else (false, out)) as Hroom.
  { rewrite wrap_small by lia. rewrite <- length_enc8, utf8_put_enc by lia.
    destruct (Z.leb_spec (size - Z.of_nat (length out)) (Z.of_nat (length (enc8 cp)))); cbn [negb];
      [rewrite (proj2 (Z.ltb_ge _ _)) by lia|rewrite (proj2 (Z.ltb_lt _ _)) by lia]; done. }
  rewrite <- Hroom. destruct (enc16_cases cp) as [[Hlt ->]|[Hge ->]]; cbn [app utf16_to_utf8_loop].
  - rewrite (proj2 (Z.eqb_neq _ _)) by lia. destruct (is_surrogate_false cp ltac:(lia) Hns) as [-> ->].
    by destruct s as [|c2 rest2]; cbn [andb].
  - pose proof (Z.div_mod (cp - 0x10000) 1024 ltac:(lia)).
    pose proof (Z.mod_pos_bound (cp - 0x10000) 1024 ltac:(lia)).
    set (q := (cp - 0x10000) / 1024) in *. set (r := (cp - 0x10000) mod 1024) in *.
    rewrite (proj2 (Z.eqb_neq _ _)) by lia. unfold is_high, is_low.
    rewrite !(proj2 (Z.leb_le _ _)) by lia. cbn [andb].
    replace (0xd800 + q - 0xd800) with q by lia. rewrite Z.shiftl_mul_pow2 by lia. change (2 ^ 10) with 1024.
    by replace (0x10000 + q * 1024 + (0xdc00 + r - 0xdc00)) with cp by lia.
Qed.

Lemma utf8_to_utf16_loop_cons size cp s fuel out complete :
  scalar cp -> 0 <= size < 2 ^ 64 -> Z.of_nat (length out) <= size ->
  utf8_to_utf16_loop (S fuel) size (enc8 cp ++ s) out complete =
    if Z.of_nat (length out + length (enc16 cp)) <? size then utf8_to_utf16_loop fuel size s (out ++ enc16 cp) complete
    else Ok (false, out).
Proof.
  intros Hcp Hsz Hl. destruct (utf8_next_enc cp s Hcp) as (c & tl & Henc & Hc & Hn).
  rewrite Henc. cbn [app utf8_to_utf16_loop]. rewrite (proj2 (Z.eqb_neq _ _)), Hn by done.
  rewrite <- length_enc16, wrap_small by lia. rewrite utf16_put_enc by (unfold scalar in Hcp; lia).
  destruct (Z.leb_spec (size - Z.of_nat (length out)) (Z.of_nat (length (enc16 cp))));
    [rewrite (proj2 (Z.ltb_ge _ _)) by lia|rewrite (proj2 (Z.ltb_lt _ _)) by lia]; done.
Qed.

Lemma utf16_to_utf8_loop_enc size cps : forall t out complete,
  Forall scalar cps -> stops t -> 0 <= size < 2 ^ 64 ->
  Z.of_nat (length out + length (concat (map enc8 cps))) < size ->
  utf16_to_utf8_loop size (concat (map enc16 cps) ++ t) out complete = (complete, out ++ concat (map enc8 cps)).
Proof.
  induction cps as [|cp cps IH]; intros t out complete Hs Ht Hsz Hl; cbn [map concat app].
  - rewrite app_nil_r. by destruct Ht as [->|[t' ->]].
  - apply Forall_cons in Hs as [Hcp Hs]. cbn [map concat] in Hl. rewrite length_app in Hl.
    rewrite <- app_assoc, utf16_to_utf8_loop_cons by (done || lia). rewrite (proj2 (Z.ltb_lt _ _)) by lia.
    rewrite IH; [by rewrite app_assoc|done|done|done|]. rewrite length_app. lia.
Qed.

Lemma utf8_to_utf16_loop_enc size cps : forall fuel t out complete,
  Forall scalar cps -> stops t -> 0 <= size < 2 ^ 64 -> (length cps <= fuel)%nat ->
  Z.of_nat (length out + length (concat (map enc16 cps))) < size ->
  utf8_to_utf16_loop fuel size (concat (map enc8 cps) ++ t) out complete = Ok (complete, out ++ concat (map enc16 cps)).
Proof.
  induction cps as [|cp cps IH]; intros fuel t out complete Hs Ht Hsz Hf Hl; cbn [map concat app].
  - rewrite app_nil_r. destruct fuel; by destruct Ht as [->|[t' ->]].
  - apply Forall_cons in Hs as [Hcp Hs]. cbn [map concat length] in Hl, Hf. rewrite length_app in Hl.
    destruct fuel as [|fuel]; [lia|].
    rewrite <- app_assoc, utf8_to_utf16_loop_cons by (done || lia). rewrite (proj2 (Z.ltb_lt _ _)) by lia.
    rewrite IH; [by rewrite app_assoc|done|done|done|lia|]. rewrite length_app. lia.
Qed.

(** What does not fit is reported. *)
Lemma utf16_to_utf8_loop_cut size cps : forall t out complete,
  Forall scalar cps -> 0 <= size < 2 ^ 64 -> Z.of_nat (length out) < size ->
  size <= Z.of_nat (length out + length (concat (map enc8 cps))) ->
  (utf16_to_utf8_loop size (concat (map enc16 cps) ++ t) out complete).1 = false.
Proof.
  induction cps as [|cp cps IH]; intros t out complete Hs Hsz Ho Hl; cbn [map concat app length] in *; [lia|].
  apply Forall_cons in Hs as [Hcp Hs]. rewrite length_app in Hl.
  rewrite <- app_assoc, utf16_to_utf8_loop_cons by (done || lia). case_if; [|done].
  apply IH; [done|done|rewrite length_app; lia|rewrite length_app; lia].
Qed.

Lemma utf8_to_utf16_loop_cut size cps : forall fuel t out complete,
  Forall scalar cps -> 0 <= size < 2 ^ 64 -> (length cps <= fuel)%nat -> Z.of_nat (length out) < size ->
  size <= Z.of_nat (length out + length (concat (map enc16 cps))) ->
  exists out', utf8_to_utf16_loop fuel size (concat (map enc8 cps) ++ t) out complete = Ok (false, out').
Proof.
  induction cps as [|cp cps IH]; intros fuel t out complete Hs Hsz Hf Ho Hl; cbn [map concat app length] in *; [lia|].
  apply Forall_cons in Hs as [Hcp Hs]. rewrite length_app in Hl. destruct fuel as [|fuel]; [lia|].
  rewrite <- app_assoc, utf8_to_utf16_loop_cons by (done || lia). case_if; [|by eexists].
  apply IH; [done|done|lia|rewrite length_app; lia|rewrite length_app; lia].
Qed.

(** *** Bounds, for any input *)
Lemma length_utf8_put cp : length (utf8_put cp) = utf8_len cp.
Proof. unfold utf8_put, utf8_len. repeat case_if; try reflexivity; discriminate. Qed.

Lemma length_utf16_put cp : Z.of_nat (length (utf16_put cp)) = if 0x10000 <=? cp then 2 else 1.
Proof. unfold utf16_put. case_if; reflexivity. Qed.

Definition fits_in (size : Z) (out : list Z) : Prop := size = 0 /\ out = [] \/ Z.of_nat (length out) < size.

Lemma room_fits size out n (w : list Z) :
  0 <= size < 2 ^ 64 -> fits_in size out -> Z.of_nat (length w) = n -> 0 < n ->
  (u64 (size - Z.of_nat (length out)) <=? n) = false -> fits_in size (out ++ w).
Proof.
  intros Hsz Hf Hw Hn Hr. bool_hyps. destruct Hf as [[-> ->]|Hf]; [change (u64 _) with 0 in Hr; lia|].
  rewrite wrap_small in Hr by lia. right. rewrite length_app. lia.
Qed.

Lemma utf8_len_pos cp : 0 < Z.of_nat (utf8_len cp).
Proof. unfold utf8_len. repeat case_if; lia. Qed.

Lemma utf16_to_utf8_loop_fits size n : forall src out complete,
  (length src <= n)%nat -> 0 <= size < 2 ^ 64 -> fits_in size out -> fits_in size (utf16_to_utf8_loop size src out complete).2.
Proof.
  induction n as [|n IH]; intros src out complete Hl Hsz Hf; (destruct src as [|c rest]; [done|]); cbn [length] in Hl; [lia|].
  assert (forall cp rest', (length rest' <= n)%nat ->
    fits_in size (if negb (u64 (size - Z.of_nat (length out)) <=? Z.of_nat (utf8_len cp))
                  then utf16_to_utf8_loop size rest' (out ++ utf8_put cp) complete else (false, out)).2) as Hstep.
  { intros cp rest' Hl'. destruct (u64 _ <=? _) eqn:E; cbn [negb]; [done|]. apply IH; [done|done|].
    eapply room_fits; [done|done| | |exact E]; [by rewrite length_utf8_put|apply utf8_len_pos]. }
  cbn [utf16_to_utf8_loop]. destruct (c =? 0); [done|].
  destruct rest as [|c2 rest2]; [apply Hstep; cbn; lia|]. cbn [length] in Hl.
  destruct (is_high c && is_low c2); apply Hstep; cbn; lia.
Qed.

Lemma utf8_trail_shorter k : forall cp lo hi s, (length (utf8_trail k cp lo hi s).2 <= length s)%nat.
Proof.
  induction k as [|k IH]; intros cp lo hi s; [done|]. destruct s as [|b s]; [done|]. cbn [utf8_trail].
  case_if; [done|]. etrans; [apply IH|cbn; lia].
Qed.

Lemma utf8_next_shorter c s : (length (utf8_next c s).2 <= length s)%nat.
Proof. unfold utf8_next. destruct (utf8_lead c) as [[[cp k] lo] hi]. apply utf8_trail_shorter. Qed.

Lemma utf8_to_utf16_loop_fits size fuel : forall s out complete,
  (length s <= fuel)%nat -> 0 <= size < 2 ^ 64 -> fits_in size out ->
  res_post (fun r => fits_in size r.2) no_panic (utf8_to_utf16_loop fuel size s out complete).
Proof.
  induction fuel as [|fuel IH]; intros s out complete Hl Hsz Hf; (destruct s as [|c s]; [done|]); cbn [length] in Hl; [lia|].
  cbn [utf8_to_utf16_loop]. destruct (c =? 0); [done|].
  pose proof (utf8_next_shorter c s) as Hn. destruct (utf8_next c s) as [cp s']. cbn in Hn.
  destruct (u64 _ <=? _) eqn:E; [done|]. apply IH; [lia|done|].
  eapply room_fits; [done|done|apply length_utf16_put| |exact E]. case_if; lia.
Qed.

(** C37.  Neither conversion writes outside its buffer, whatever the input: what
    they write, with its terminator, fits in [dest_size] units (nothing at all
    for a buffer of size 0), and both always return. *)
Theorem utf_bounds size src8 src16 :
  0 <= size < 2 ^ 64 ->
  (let '(_, written, len) := utf16_to_utf8 size src16 in
   Z.of_nat (length written) <= size /\ (0 < size -> written !! len = Some 0)) /\
  res_post (fun '(_, written, len) =>
      Z.of_nat (length written) <= size /\ (0 < size -> written !! len = Some 0)) no_panic
    (utf8_to_utf16 size src8).
Proof.
  intros Hsz.
  assert (forall r : bool * list Z, fits_in size r.2 ->
    let '(_, written, len) := utf_finish size r in
    Z.of_nat (length written) <= size /\ (0 < size -> written !! len = Some 0)) as Hfin.
  { intros [b out] Hf. unfold utf_finish. cbn [fst snd] in *. rewrite length_app. case_if; cbn [length].
    - destruct Hf as [[_ ->]|Hf]; cbn; lia.
    - destruct Hf as [[? _]|Hf]; [lia|]. split; [lia|]. intros _.
      rewrite lookup_app_r, Nat.sub_diag by lia. done. }
  assert (fits_in size []) as H0.
  { unfold fits_in. destruct (decide (size = 0)); [by left|right; cbn; lia]. }
  split; [by apply Hfin, (utf16_to_utf8_loop_fits size (length src16))|].
  unfold utf8_to_utf16. eapply res_post_bind; [by apply utf8_to_utf16_loop_fits|].
  intros r Hr. cbn [res_post]. specialize (Hfin r Hr). by destruct (utf_finish size r) as [[? ?] ?].
Qed.

Lemma utf_bounds_witness :
  res_post (fun '(_, written, len) => Z.of_nat (length written) <= 3 /\ (0 < 3 -> written !! len = Some 0)) no_panic
    (utf8_to_utf16 3 [0xf0; 0x9f; 0x98; 0x80; 0x61]).
Proof. apply (utf_bounds 3 [0xf0; 0x9f; 0x98; 0x80; 0x61] []). lia. Defined.

(** On the encoding of any sequence of Unicode scalar values each
    conversion produces exactly the other encoding, terminated, and reports it
    complete, when the buffer has room for it. *)
Theorem utf_conversions_correct size cps t :
  Forall scalar cps -> stops t -> 0 <= size < 2 ^ 64 ->
  let e8 := concat (map enc8 cps) in let e16 := concat (map enc16 cps) in
  (Z.of_nat (length e8) < size -> utf16_to_utf8 size (e16 ++ t) = (true, e8 ++ [0], length e8)) /\
  (Z.of_nat (length e16) < size -> utf8_to_utf16 size (e8 ++ t) = Ok (true, e16 ++ [0], length e16)).
Proof.
  intros Hs Ht Hsz e8 e16. split; intros Hl.
  - unfold utf16_to_utf8. rewrite (proj2 (Z.eqb_neq size 0)) by lia. cbn [negb].
    unfold e16. rewrite utf16_to_utf8_loop_enc by done. unfold utf_finish. cbn [fst snd app].
    by rewrite (proj2 (Z.eqb_neq size 0)) by lia.
  - unfold utf8_to_utf16. rewrite (proj2 (Z.eqb_neq size 0)) by lia. cbn [negb].
    unfold e8. rewrite utf8_to_utf16_loop_enc; try done.
    + cbn [rbind]. unfold utf_finish. cbn [fst snd app]. by rewrite (proj2 (Z.eqb_neq size 0)) by lia.
    + rewrite length_app. enough (length cps <= length (concat (map enc8 cps)))%nat by lia.
      clear. induction cps as [|cp cps IH]; cbn; [lia|]. rewrite length_app. pose proof (enc8_nonempty cp). lia.
Qed.

Lemma utf_conversions_correct_witness :
  utf8_to_utf16 16 (concat (map enc8 [0x4c; 0x20ac; 0x1f600]) ++ [0; 7])
  = Ok (true, [0x4c; 0x20ac; 0xd83d; 0xde00; 0], 4%nat).
Proof.
  apply (utf_conversions_correct 16 [0x4c; 0x20ac; 0x1f600] [0; 7]).
  - repeat constructor; lia.
  - right. exists [7]. reflexivity.
  - lia.
  - vm_compute. reflexivity.
Defined.
