(* ===== verification/Blake2b.v ===== *)
(** * BLAKE2b

    [common/crypt/blake2b.c], which hashes every file the configuration gives a
    digest for.  The compression function is transcribed word for word; the
    theorems are about the streaming interface around it, which the reading
    filter feeds in pieces of any size. *)

From Equations Require Import Equations.
From S2P Require Import Prelude CInt Libc.

Definition BLAKE2B_BLOCK_BYTES : nat := 128.
Definition BLAKE2B_OUT_BYTES : nat := 64.

Definition blake2b_iv : list Z :=
  [ 0x6a09e667f3bcc908; 0xbb67ae8584caa73b; 0x3c6ef372fe94f82b; 0xa54ff53a5f1d36f1;
    0x510e527fade682d1; 0x9b05688c2b3e6c1f; 0x1f83d9abfb41bd6b; 0x5be0cd19137e2179 ].

Definition blake2b_sigma : list (list nat) :=
  [ [  0;  1;  2;  3;  4;  5;  6;  7;  8;  9; 10; 11; 12; 13; 14; 15 ];
    [ 14; 10;  4;  8;  9; 15; 13;  6;  1; 12;  0;  2; 11;  7;  5;  3 ];
    [ 11;  8; 12;  0;  5;  2; 15; 13; 10; 14;  3;  6;  7;  1;  9;  4 ];
    [  7;  9;  3;  1; 13; 12; 11; 14;  2;  6;  5; 10;  4;  0; 15;  8 ];
    [  9;  0;  5;  7;  2;  4; 10; 15; 14;  1; 11; 12;  6;  8;  3; 13 ];
    [  2; 12;  6; 10;  0; 11;  8;  3;  4; 13;  7;  5; 15; 14;  1;  9 ];
    [ 12;  5;  1; 15; 14; 13;  4; 10;  0;  7;  6;  3;  9;  2;  8; 11 ];
    [ 13; 11;  7; 14; 12;  1;  3;  9;  5;  0; 15;  4;  8;  6;  2; 10 ];
    [  6; 15; 14;  9; 11;  3;  0;  8; 12;  2; 13;  7;  1;  4; 10;  5 ];
    [ 10;  2;  8;  4;  7;  6;  1;  5; 15; 11;  9; 14;  3; 12; 13;  0 ];
    [  0;  1;  2;  3;  4;  5;  6;  7;  8;  9; 10; 11; 12; 13; 14; 15 ];
    [ 14; 10;  4;  8;  9; 15; 13;  6;  1; 12;  0;  2; 11;  7;  5;  3 ] ]%nat.

(** [struct blake2b_state], the chaining part apart from the buffer.
    [last_node] is never read. *)
Record core := MkCore { c_h : list Z; c_t0 : Z; c_t1 : Z; c_f0 : Z; c_f1 : Z }.
Record blake2b_state := MkState { b_core : core; b_buf : list Z; buf_len : nat }.

Definition load64_le (src : list Z) : Z := le_val (take 8 src).
Definition store64_le (val : Z) : list Z := le_bytes 8 val.

Definition blake2b_increment_counter (s : core) (inc : Z) : core :=
  let t0 := u64 (c_t0 s + inc) in
  MkCore (c_h s) t0 (u64 (c_t1 s + (if t0 <? inc then 1 else 0))) (c_f0 s) (c_f1 s).

Definition rotr64 (w c : Z) : Z := Z.lor (Z.shiftr w c) (u64 (Z.shiftl w (64 - c))).

Section Compress.
Variable m : list Z.

Definition G (r i a b c d : nat) (v : list Z) : list Z :=
  let sigma k := nth (nth (2 * i + k) (nth r blake2b_sigma []) 0%nat) m 0 in
  let va := nth a v 0 in let vb := nth b v 0 in let vc := nth c v 0 in let vd := nth d v 0 in
  let va := u64 (va + vb + sigma 0%nat) in
  let vd := rotr64 (Z.lxor vd va) 32 in
  let vc := u64 (vc + vd) in
  let vb := rotr64 (Z.lxor vb vc) 24 in
  let va := u64 (va + vb + sigma 1%nat) in
  let vd := rotr64 (Z.lxor vd va) 16 in
  let vc := u64 (vc + vd) in
  let vb := rotr64 (Z.lxor vb vc) 63 in
  <[d := vd]> (<[c := vc]> (<[b := vb]> (<[a := va]> v))).

Definition ROUND (v : list Z) (r : nat) : list Z :=
  let v := G r 0 0 4 8 12 v in
  let v := G r 1 1 5 9 13 v in
  let v := G r 2 2 6 10 14 v in
  let v := G r 3 3 7 11 15 v in
  let v := G r 4 0 5 10 15 v in
  let v := G r 5 1 6 11 12 v in
  let v := G r 6 2 7 8 13 v in
  G r 7 3 4 9 14 v.
End Compress.

Definition blake2b_compress (s : core) (block : list Z) : core :=
  let m := map (fun i => load64_le (drop (i * 8) block)) (seq 0 16) in
  let iv i := nth i blake2b_iv 0 in
  let v := c_h s ++ [iv 0%nat; iv 1%nat; iv 2%nat; iv 3%nat;
                     Z.lxor (iv 4%nat) (c_t0 s); Z.lxor (iv 5%nat) (c_t1 s);
                     Z.lxor (iv 6%nat) (c_f0 s); Z.lxor (iv 7%nat) (c_f1 s)] in
  let v := foldl (ROUND m) v (seq 0 12) in
  let h := map (fun i => Z.lxor (Z.lxor (nth i (c_h s) 0) (nth i v 0)) (nth (i + 8) v 0)) (seq 0 8) in
  MkCore h (c_t0 s) (c_t1 s) (c_f0 s) (c_f1 s).

(** [struct blake2b_param] with the fields [blake2b_init] sets. *)
Definition blake2b_param_bytes : list Z := [Z.of_nat BLAKE2B_OUT_BYTES; 0; 1; 1] ++ replicate 60 0.

Definition blake2b_init : blake2b_state :=
  let h := map (fun i => Z.lxor (nth i blake2b_iv 0) (load64_le (drop (8 * i) blake2b_param_bytes))) (seq 0 8) in
  MkState (MkCore h 0 0 0 0) (replicate BLAKE2B_BLOCK_BYTES 0) 0.

(** [while (in_len > BLAKE2B_BLOCK_BYTES)]: the state and the input left. *)
Equations absorb (s : core) (inp : list Z) : core * list Z by wf (length inp) lt :=
  absorb s inp with le_lt_dec (length inp) BLAKE2B_BLOCK_BYTES :=
  { | left _ => (s, inp)
    | right _ =>
        absorb (blake2b_compress (blake2b_increment_counter s 128) (take BLAKE2B_BLOCK_BYTES inp))
               (drop BLAKE2B_BLOCK_BYTES inp) }.
Next Obligation.
  intros. rewrite length_drop. unfold BLAKE2B_BLOCK_BYTES in *. lia.
Qed.

Definition blake2b_update (state : blake2b_state) (inp : list Z) : blake2b_state :=
  if (length inp =? 0)%nat then state
  else
    let left := buf_len state in
    let fill := (BLAKE2B_BLOCK_BYTES - left)%nat in
    let '(s, buf, len, inp) :=
      if (fill <? length inp)%nat then
        let buf := buf_write (b_buf state) left (take fill inp) in
        let s := blake2b_increment_counter (b_core state) 128 in
        let s := blake2b_compress s buf in
        let '(s, inp) := absorb s (drop fill inp) in
        (s, buf, 0%nat, inp)
      else (b_core state, b_buf state, buf_len state, inp) in
    MkState s (buf_write buf len inp) (len + length inp).

(** The digest; the state is not used again. *)
Definition blake2b_final (state : blake2b_state) : list Z :=
  let s := blake2b_increment_counter (b_core state) (Z.of_nat (buf_len state)) in
  let s := MkCore (c_h s) (c_t0 s) (c_t1 s) UINT64_MAX (c_f1 s) in
  let buf := buf_write (b_buf state) (buf_len state) (replicate (BLAKE2B_BLOCK_BYTES - buf_len state) 0) in
  concat (map store64_le (c_h (blake2b_compress s buf))).

Definition blake2b (inp : list Z) : list Z := blake2b_final (blake2b_update blake2b_init inp).

(** The test vector of RFC 7693. *)
Definition hex_of (l : list Z) : list Z :=
  concat (map (fun b => [nth (Z.to_nat (b / 16)) (bytes "0123456789abcdef") 0;
                         nth (Z.to_nat (b mod 16)) (bytes "0123456789abcdef") 0]) l).

Example blake2b_abc :
  hex_of (blake2b (bytes "abc")) =
  bytes "ba80a53f981c4d0d6a2797b69f12f6e94c212f14685ac4b74b12bb6fdbffa2d17d87c5392aab792dc252d5de4533cc9518d38aa8dbf1925ab92386edd4009923".
Proof. vm_compute. reflexivity. Qed.

Example blake2b_long : take 8 (blake2b (replicate 300 7)) = [179; 72; 146; 216; 95; 243; 68; 28].
Proof. vm_compute. reflexivity. Qed.

(** ** The streaming interface *)
Lemma absorb_small s inp : (length inp <= 128)%nat -> absorb s inp = (s, inp).
Proof. intros H. rewrite absorb_equation_1. unfold absorb_unfold_clause_1. destruct (le_lt_dec _ _); [done|]. unfold BLAKE2B_BLOCK_BYTES in *. lia. Qed.

Lemma absorb_large s inp : (128 < length inp)%nat ->
  absorb s inp = absorb (blake2b_compress (blake2b_increment_counter s 128) (take 128 inp)) (drop 128 inp).
Proof. intros H. rewrite absorb_equation_1. unfold absorb_unfold_clause_1. destruct (le_lt_dec _ _); [|done]. unfold BLAKE2B_BLOCK_BYTES in *. lia. Qed.

Lemma absorb_rest s inp : (length (absorb s inp).2 <= 128)%nat.
Proof. funelim (absorb s inp). 1,2: unfold BLAKE2B_BLOCK_BYTES in *; try done. Qed.

(** Absorbing in two steps is absorbing at once. *)
Lemma absorb_app s inp more :
  absorb s (inp ++ more) = absorb (absorb s inp).1 ((absorb s inp).2 ++ more).
Proof.
  funelim (absorb s inp); unfold BLAKE2B_BLOCK_BYTES in *; [done|].
  rewrite (absorb_large s (inp ++ more)) by (rewrite length_app; lia).
  rewrite take_app_le, drop_app_le by lia. apply H.
Qed.

(** The bytes waiting in the buffer; the rest of it is stale. *)
Definition content (st : blake2b_state) : list Z := take (buf_len st) (b_buf st).

Definition state_wf (st : blake2b_state) : Prop :=
  length (b_buf st) = 128%nat /\ (buf_len st <= 128)%nat.

Lemma length_content st : state_wf st -> length (content st) = buf_len st.
Proof. intros [Hl Hb]. unfold content. rewrite length_take. lia. Qed.

(** [blake2b_update] absorbs the buffered bytes followed by the new ones. *)
Lemma blake2b_update_spec st inp :
  state_wf st ->
  let r := absorb (b_core st) (content st ++ inp) in
  let st' := blake2b_update st inp in
  state_wf st' /\ b_core st' = r.1 /\ content st' = r.2.
Proof.
  intros Hwf r st'. pose proof (length_content st Hwf) as Hlc. destruct Hwf as [Hl Hb].
  unfold st', blake2b_update. destruct (length inp =? 0)%nat eqn:E0; bool_hyps.
  { apply length_zero_iff_nil in E0. subst inp. unfold r. rewrite app_nil_r.
    rewrite absorb_small by lia. by unfold state_wf. }
  unfold BLAKE2B_BLOCK_BYTES. destruct (128 - buf_len st <? length inp)%nat eqn:E1; bool_hyps.
  - assert (buf_write (b_buf st) (buf_len st) (take (128 - buf_len st) inp) = take 128 (content st ++ inp)) as Hblk.
    { unfold buf_write, content. rewrite length_take, drop_ge, app_nil_r by lia.
      rewrite take_app, length_take, take_take. f_equal; f_equal; lia. }
    assert (drop (128 - buf_len st) inp = drop 128 (content st ++ inp)) as Hrest.
    { rewrite drop_app_ge by lia. f_equal. lia. }
    rewrite Hblk, Hrest.
    assert (length (content st ++ inp) > 128)%nat as Hgt by (rewrite length_app; lia).
    unfold r. rewrite (absorb_large _ _ Hgt).
    set (s1 := blake2b_compress _ _). pose proof (absorb_rest s1 (drop 128 (content st ++ inp))) as Hr.
    destruct (absorb s1 _) as [s2 rest]. cbn [fst snd] in *.
    assert (length (take 128 (content st ++ inp)) = 128%nat) as Hl2 by (rewrite length_take; lia).
    split_and!; [split; cbn; [rewrite length_buf_write; lia|lia]|done|].
    unfold content. cbn [buf_len b_buf]. rewrite take_buf_write by lia. done.
  - unfold r. rewrite absorb_small by (rewrite length_app; lia). cbn [fst snd].
    split_and!; [split; cbn; [rewrite length_buf_write; lia|lia]|done|].
    unfold content at 1. cbn [buf_len b_buf]. by rewrite take_buf_write by lia.
Qed.

(** States that differ only in stale bytes are equivalent, and the digest does
    not see the difference. *)
Definition state_equiv (s1 s2 : blake2b_state) : Prop :=
  state_wf s1 /\ state_wf s2 /\ b_core s1 = b_core s2 /\ content s1 = content s2.

Lemma blake2b_final_content st :
  state_wf st ->
  blake2b_final st =
  let s := blake2b_increment_counter (b_core st) (Z.of_nat (length (content st))) in
  concat (map store64_le (c_h (blake2b_compress (MkCore (c_h s) (c_t0 s) (c_t1 s) UINT64_MAX (c_f1 s))
    (content st ++ replicate (128 - length (content st)) 0)))).
Proof.
  intros Hwf. rewrite (length_content st Hwf). destruct Hwf as [Hl Hb]. unfold blake2b_final, buf_write.
  rewrite length_replicate. unfold BLAKE2B_BLOCK_BYTES.
  rewrite (drop_ge (b_buf st)) by lia. by rewrite app_nil_r.
Qed.

#[export] Instance blake2b_final_proper : Proper (state_equiv ==> eq) blake2b_final.
Proof.
  intros s1 s2 (H1 & H2 & Hc & Hb). rewrite !blake2b_final_content by done. by rewrite Hc, Hb.
Qed.

#[export] Instance blake2b_update_proper : Proper (state_equiv ==> eq ==> state_equiv) blake2b_update.
Proof.
  intros s1 s2 (H1 & H2 & Hc & Hb) i1 i2 <-.
  destruct (blake2b_update_spec s1 i1 H1) as (W1 & C1 & B1).
  destruct (blake2b_update_spec s2 i1 H2) as (W2 & C2 & B2).
  split_and!; try done; rewrite ?C1, ?C2, ?B1, ?B2; by rewrite Hc, Hb.
Qed.

Lemma state_wf_init : state_wf blake2b_init.
Proof. split; cbn; lia. Qed.

Lemma update_app st a b :
  state_wf st -> state_equiv (blake2b_update (blake2b_update st a) b) (blake2b_update st (a ++ b)).
Proof.
  intros Hwf. destruct (blake2b_update_spec st a Hwf) as (W1 & C1 & B1).
  destruct (blake2b_update_spec _ b W1) as (W2 & C2 & B2).
  destruct (blake2b_update_spec st (a ++ b) Hwf) as (W3 & C3 & B3).
  rewrite C1, B1, <- absorb_app, <- app_assoc in C2, B2. split_and!; try done; congruence.
Qed.

Lemma update_pieces pieces : forall st, state_wf st ->
  state_equiv (foldl blake2b_update st pieces) (blake2b_update st (concat pieces)).
Proof.
  induction pieces as [|p pieces IH]; intros st Hwf; cbn [foldl concat].
  - by unfold blake2b_update, state_equiv.
  - destruct (blake2b_update_spec st p Hwf) as (W1 & _ & _).
    destruct (IH _ W1) as (Wa & Wb & Hc & Hb). destruct (update_app st p (concat pieces) Hwf) as (_ & Wd & Hc' & Hb').
    split_and!; try done; congruence.
Qed.

(** ** The reading filter *)
Section Filter.
(** [fread] of the handle underneath, at an offset, for a number of bytes. *)
Variable fread : Z -> Z -> res (list Z).

Record blake2b_handle := MkHandle { h_state : blake2b_state; h_pos : Z; finalized : bool; digest : list Z }.

Definition blake2b_open : blake2b_handle := MkHandle blake2b_init 0 false (replicate BLAKE2B_OUT_BYTES 0).

Definition blake2b_read (h : blake2b_handle) (loc count : Z) : res (list Z * blake2b_handle) :=
  if negb (loc =? h_pos h) then Panic "blake2b filter: non-sequential read (pos=%X, loc=%X)"
  else
    let! buf := fread loc count in
    Ok (buf, MkHandle (blake2b_update (h_state h) buf) (u64 (h_pos h + Z.of_nat (length buf)))
               (finalized h) (digest h)).

Definition blake2b_check_hash (h : blake2b_handle) (reference_hash : list Z) : res (bool * blake2b_handle) :=
  let h := if finalized h then h
           else MkHandle (h_state h) (h_pos h) true (blake2b_final (h_state h)) in
  let! r := memcmp (digest h) reference_hash BLAKE2B_OUT_BYTES in
  Ok (r =? 0, h).

(** A run of reads, as the caller makes them. *)
Fixpoint read_all (h : blake2b_handle) (reads : list (Z * Z)) : res (list Z * blake2b_handle) :=
  match reads with
  | [] => Ok ([], h)
  | (loc, count) :: reads =>
      let! (buf, h) := blake2b_read h loc count in
      let! (bufs, h) := read_all h reads in
      Ok (buf ++ bufs, h)
  end.

(** [h] has hashed [msg]. *)
Definition hashed (h : blake2b_handle) (msg : list Z) : Prop :=
  finalized h = false /\ state_equiv (h_state h) (blake2b_update blake2b_init msg).

Lemma hashed_open : hashed blake2b_open [].
Proof. split; [done|]. pose proof state_wf_init. by split_and!. Qed.

Lemma read_all_hashed reads : forall h msg bytes h',
  hashed h msg -> read_all h reads = Ok (bytes, h') -> hashed h' (msg ++ bytes).
Proof.
  induction reads as [|[loc count] reads IH]; intros h msg bytes h' Hh; cbn [read_all].
  - intros [= <- <-]. by rewrite app_nil_r.
  - unfold blake2b_read. case_if; [done|]. destruct (fread loc count) as [buf|m| |]; cbn [rbind]; try done.
    destruct (read_all _ reads) as [[bufs h2]|m| |] eqn:E; cbn [rbind]; try done.
    intros [= <- <-]. rewrite app_assoc. eapply IH; [|exact E].
    destruct Hh as [Hf Hs]. split; [done|]. cbn [h_state].
    destruct (update_app blake2b_init msg buf state_wf_init) as (Wa & Wb & Hc & Hbb).
    destruct (blake2b_update_proper _ _ Hs buf buf eq_refl) as (W1 & W2 & Hc2 & Hb2).
    split_and!; try done; congruence.
Qed.
End Filter.

Lemma memcmp_eq n : forall l1 l2, length l1 = n -> length l2 = n ->
  exists r, memcmp l1 l2 n = Ok r /\ (r = 0 <-> l1 = l2).
Proof.
  induction n as [|n IH]; intros l1 l2 H1 H2.
  - apply length_zero_iff_nil in H1, H2. subst. by exists 0.
  - destruct l1 as [|c1 l1], l2 as [|c2 l2]; try discriminate. cbn in *.
    destruct (c1 =? c2) eqn:E; bool_hyps; cbn [negb].
    + subst c2. destruct (IH l1 l2) as (r & -> & Hr); [lia|lia|]. exists r. split; [done|]. rewrite Hr.
      split; [by intros ->|by intros [= ->]].
    + eexists. split; [reflexivity|]. split; [case_if; done|]. by intros [= -> _].
Qed.

Lemma length_blake2b_final st : length (blake2b_final st) = 64%nat.
Proof. reflexivity. Qed.

(** Hashing a message in pieces, cut anywhere, gives the digest of the
    whole message. *)
Theorem blake2b_streaming pieces :
  blake2b_final (foldl blake2b_update blake2b_init pieces) = blake2b (concat pieces).
Proof. unfold blake2b. apply blake2b_final_proper, update_pieces, state_wf_init. Qed.

(** The filter returns the bytes of the source unchanged; after any run of
    reads [blake2b_check_hash] answers whether the digest of all the bytes read
    equals the reference, and answers the same when asked again. *)
Theorem blake2b_filter_correct fread reads bytes h reference_hash :
  read_all fread blake2b_open reads = Ok (bytes, h) -> length reference_hash = 64%nat ->
  exists b h', blake2b_check_hash h reference_hash = Ok (b, h') /\
    (b = true <-> blake2b bytes = reference_hash) /\
    blake2b_check_hash h' reference_hash = Ok (b, h').
Proof.
  intros Hr Hl. destruct (read_all_hashed fread reads _ [] _ _ hashed_open Hr) as [Hf Hs]. cbn [app] in Hs.
  assert (blake2b_final (h_state h) = blake2b bytes) as Hd by (by apply blake2b_final_proper).
  destruct (memcmp_eq 64 (blake2b_final (h_state h)) reference_hash (length_blake2b_final _) Hl) as (r & Hm & Hiff).
  unfold blake2b_check_hash. rewrite Hf. cbn [digest finalized].
  change BLAKE2B_OUT_BYTES with 64%nat. rewrite Hm. cbn [rbind].
  eexists _, _. split; [reflexivity|]. split.
  - rewrite Z.eqb_eq, Hiff, Hd. done.
  - cbn [finalized digest]. by rewrite Hm.
Qed.

Definition demo_fread (loc n : Z) : res (list Z) := Ok (replicate (Z.to_nat n) 7).

Lemma blake2b_filter_correct_witness :
  exists h b h', read_all demo_fread blake2b_open [(0, 200); (200, 100)] = Ok (replicate 300 7, h) /\
    blake2b_check_hash h (replicate 64 0) = Ok (b, h') /\ (b = true <-> blake2b (replicate 300 7) = replicate 64 0).
Proof.
  eexists. assert (read_all demo_fread blake2b_open [(0, 200); (200, 100)] = Ok (replicate 300 7, _)) as E
    by (cbn; reflexivity).
  destruct (blake2b_filter_correct demo_fread [(0, 200); (200, 100)] (replicate 300 7) _ (replicate 64 0) E eq_refl)
    as (b & h' & H1 & H2 & _).
  exists b, h'. split; [exact E|]. split; [exact H1|exact H2].
Defined.
