(* ===== verification/Volume.v ===== *)
(** * Reading a volume through its block cache

    [cache_block], [volume_read] and [partition_range_valid] of
    [common/lib/part.s2.c].  The driver below ([disk_read_sectors]) is a
    parameter; what the cache guarantees above it is that reads see the disk. *)

From S2P Require Import Prelude CInt.

(** [struct volume]: the fields reading depends on.  [sect_count] is in
    512-byte units, [UINT64_MAX] when unknown; [cache_status] is [CACHE_READY]. *)
Record volume := MkVol {
  fastest_xfer_size : Z; sector_size : Z; v_pxe : bool; is_optical : bool;
  first_sect : Z; sect_count : Z;
  cache : option (list Z); cache_status : bool; cached_block : Z }.

Definition with_cache (v : volume) (c : option (list Z)) (ready : bool) (block : Z) : volume :=
  MkVol (fastest_xfer_size v) (sector_size v) (v_pxe v) (is_optical v) (first_sect v) (sect_count v)
    c ready block.

Section Volume.
(** [disk_read_sectors]: from a sector, a number of sectors, on success. *)
Variable disk_read_sectors : Z -> Z -> option (list Z).
(** The allocation of the cache: a buffer of the size asked for. *)
Variable new_cache : Z -> res (list Z).

Definition cache_clamp (v : volume) (first_sect_ read_sector : Z) : option Z :=
  let xfer_size := fastest_xfer_size v in
  if sect_count v =? UINT64_MAX then Some xfer_size
  else match div_roundup 64 (sect_count v) (sector_size v / 512) with
       | None => None
       | Some volume_sectors =>
           let end_sector := first_sect_ + MIN volume_sectors (UINT64_MAX - first_sect_) in
           if end_sector <=? read_sector then None
           else
             let remaining := end_sector - read_sector in
             Some (if remaining <? xfer_size then remaining else xfer_size)
       end.

Definition cache_block (v : volume) (block : Z) : res (bool * volume) :=
  if cache_status v && (block =? cached_block v) then Ok (true, v)
  else
    let! c := match cache v with
              | Some c => Ok c
              | None => match CHECKED_MUL (fastest_xfer_size v) (sector_size v) with
                        | None => Panic "cache_block: block size overflow"
                        | Some n => new_cache n
                        end
              end in
    let v := with_cache v (Some c) false (cached_block v) in
    let mult := sector_size v / 512 in
    if negb (first_sect v mod mult =? 0) then Ok (false, v)
    else
      let first_sect_ := first_sect v / mult in
      match CHECKED_MUL block (fastest_xfer_size v) with
      | None => Ok (false, v)
      | Some block_offset =>
          match CHECKED_ADD first_sect_ block_offset with
          | None => Ok (false, v)
          | Some read_sector =>
              match cache_clamp v first_sect_ read_sector with
              | None => Ok (false, v)
              | Some xfer_size =>
                  match disk_read_sectors read_sector xfer_size with
                  | None => Ok (false, v)
                  | Some bytes =>
                      if (length c <? length bytes)%nat then Fault
                      else Ok (true, with_cache v (Some (buf_write c 0 bytes)) true block)
                  end
              end
          end
      end.

(** One turn; [out] is what has been copied to the buffer, [progress] its length. *)
Definition read_body (block_size loc count : Z) (s : volume * list Z)
    : res (volume * list Z + bool * list Z * volume) :=
  let '(v, out) := s in
  let progress := Z.of_nat (length out) in
  if count <=? progress then Ok (inr (true, out, v))
  else if block_size =? 0 then Fault
  else
    let block := u64 (loc + progress) / block_size in
    let! (ok, v) := cache_block v block in
    if negb ok then Ok (inr (false, out, v))
    else
      let chunk := count - progress in
      let offset := u64 (loc + progress) mod block_size in
      let chunk := if block_size - offset <? chunk then block_size - offset else chunk in
      let! c := of_option (cache v) in
      if Z.of_nat (length c) <? offset + chunk then Fault
      else Ok (inl (v, out ++ take (Z.to_nat chunk) (drop (Z.to_nat offset) c))).

Definition read_variant (count : Z) (s : volume * list Z) : Z :=
  Z.max 0 (count - Z.of_nat (length s.2)).

(** The return value, what was written to the buffer, and the volume. *)
Definition volume_read (v : volume) (loc count : Z) : res (bool * list Z * volume) :=
  if v_pxe v then Panic "Attempted volume_read() on pxe"
  else if (fastest_xfer_size v =? 0) || (sector_size v <? 512) || negb (sector_size v mod 512 =? 0)
  then Ok (false, [], v)
  else
    let in_range :=
      if sect_count v =? UINT64_MAX then true
      else match CHECKED_MUL (sect_count v) 512 with
           | None => false
           | Some part_size => negb ((part_size <=? loc) || (part_size - loc <? count))
           end in
    if negb in_range then Ok (false, [], v)
    else
      let block_size := u64 (fastest_xfer_size v * sector_size v) in
      loop (read_body block_size loc count) (read_variant count) (v, []).

Definition partition_range_valid (v : volume) (first_sect_ sect_count_ : Z) : bool :=
  if sect_count_ =? 0 then false
  else match CHECKED_ADD first_sect_ sect_count_ with
       | None => false
       | Some end_sect => (sect_count v =? UINT64_MAX) || (end_sect <=? sect_count v)
       end.

(** ** Correctness: reads see the disk *)
Variable disk : Z -> Z.

Definition disk_bytes (a n : Z) : list Z := map disk (seqZ a n).

Lemma length_disk_bytes a n : length (disk_bytes a n) = Z.to_nat n.
Proof. unfold disk_bytes. by rewrite length_map, length_seqZ. Qed.

Lemma lookup_disk_bytes a n i : Z.of_nat i < n -> disk_bytes a n !! i = Some (disk (a + Z.of_nat i)).
Proof. intros Hi. unfold disk_bytes. by rewrite list_lookup_fmap, lookup_seqZ_lt. Qed.

Lemma disk_bytes_app a n k : 0 <= n -> 0 <= k -> disk_bytes a n ++ disk_bytes (a + n) k = disk_bytes a (n + k).
Proof. intros Hn Hk. unfold disk_bytes. by rewrite seqZ_app, map_app by lia. Qed.

Lemma slice_disk_bytes c off n a :
  (forall i, Z.of_nat i < n -> c !! (off + i)%nat = Some (disk (a + Z.of_nat i))) ->
  take (Z.to_nat n) (drop off c) = disk_bytes a n.
Proof.
  intros H. apply list_eq. intros i. destruct (decide (Z.of_nat i < n)) as [Hi|Hi].
  - rewrite lookup_take_lt by lia. rewrite lookup_drop, H, lookup_disk_bytes by done. done.
  - rewrite lookup_take_ge by lia. symmetry. apply lookup_ge_None. rewrite length_disk_bytes. lia.
Qed.

(** The driver, when it succeeds, returns what is on the disk. *)
Variable ss : Z.
Hypothesis driver_ok : forall s n bytes,
  disk_read_sectors s n = Some bytes -> 0 <= s -> 0 <= n -> bytes = disk_bytes (s * ss) (n * ss).
(** The allocation of the cache may panic. *)
Variable alloc_panic : string -> Prop.
Hypothesis alloc_ok : forall n, 0 <= n -> res_post (fun c => Z.of_nat (length c) = n) alloc_panic (new_cache n).

(** Sane geometry; a known size keeps the last sector number in 64 bits. *)
Record geometry (v : volume) : Prop := {
  ge_ss : sector_size v = ss /\ 512 <= ss /\ ss mod 512 = 0;
  ge_xfer : 0 < fastest_xfer_size v /\ fastest_xfer_size v * ss < 2 ^ 64;
  ge_first : 0 <= first_sect v < 2 ^ 64;
  ge_count : 0 <= sect_count v < 2 ^ 64;
  ge_end : sect_count v <> UINT64_MAX -> first_sect v + sect_count v + ss / 512 < 2 ^ 64;
}.

(** Offset [x] of the volume lies in a sector the volume owns, wholly or not. *)
Definition in_volume (v : volume) (x : Z) : Prop :=
  sect_count v = UINT64_MAX \/ x < (sect_count v + ss / 512 - 1) / (ss / 512) * ss.

(** A ready cache holds the disk's bytes of its block. *)
Record coherent (v : volume) : Prop := {
  co_size : forall c, cache v = Some c -> Z.of_nat (length c) = fastest_xfer_size v * ss;
  co_data : cache_status v = true ->
    exists c, cache v = Some c /\
    forall i, Z.of_nat i < fastest_xfer_size v * ss ->
      let x := cached_block v * (fastest_xfer_size v * ss) + Z.of_nat i in
      in_volume v x -> c !! i = Some (disk (first_sect v * 512 + x));
}.

Definition same_geometry (v v' : volume) : Prop :=
  fastest_xfer_size v' = fastest_xfer_size v /\ sector_size v' = sector_size v /\ v_pxe v' = v_pxe v /\
  is_optical v' = is_optical v /\ first_sect v' = first_sect v /\ sect_count v' = sect_count v.

Lemma cache_clamp_Some v first read xfer :
  geometry v -> first = first_sect v / (ss / 512) -> cache_clamp v first read = Some xfer ->
  0 <= read -> 0 < xfer <= fastest_xfer_size v /\
  (sect_count v = UINT64_MAX -> xfer = fastest_xfer_size v) /\
  (xfer = fastest_xfer_size v \/ read + xfer = first + (sect_count v + ss / 512 - 1) / (ss / 512)).
Proof.
  intros [[Hss [Hs Hs5]] [Hx Hxs] Hf Hc He] -> Hcl Hr. revert Hcl. unfold cache_clamp. rewrite Hss.
  set (k := ss / 512) in *. assert (1 <= k) by (unfold k; apply Z.div_le_lower_bound; lia).
  case_if; [intros [= <-]; split_and!; auto; lia|].
  unfold div_roundup. destruct (CHECKED_ADD _ _) as [a|] eqn:Ea; [|done].
  assert (k < 2 ^ 64) by (unfold k; pose proof (Z.div_le_upper_bound ss 512 ss); nia).
  rewrite (wrap_small 64 (k - 1)) in Ea by lia. apply checked_add_Some in Ea as [-> _].
  replace (sect_count v + (k - 1)) with (sect_count v + k - 1) by lia. rewrite MIN_min.
  set (n := (sect_count v + k - 1) / k).
  assert (n <= sect_count v + k) by (unfold n; apply Z.div_le_upper_bound; nia).
  assert (first_sect v / k <= first_sect v) by (apply Z.div_le_upper_bound; nia).
  unfold UINT64_MAX in *. rewrite Z.min_l by (specialize (He Hb); lia).
  case_if; [done|]. case_if; intros [= <-]; (split; [lia|]); (split; [done|]); [right|left]; lia.
Qed.

Lemma cache_clamp_None v read x :
  geometry v -> in_volume v x -> 0 <= x ->
  (read - first_sect v / (ss / 512)) * ss <= x -> cache_clamp v (first_sect v / (ss / 512)) read <> None.
Proof.
  intros [[Hss [Hs Hs5]] [Hx Hxs] Hf Hc He] Hin Hx0 Hr. unfold cache_clamp. rewrite Hss.
  set (k := ss / 512) in *. assert (1 <= k) by (unfold k; apply Z.div_le_lower_bound; lia).
  case_if; [done|]. specialize (He Hb). destruct Hin as [?|Hin]; [done|].
  fold k in Hin. unfold div_roundup. rewrite (wrap_small 64 (k - 1)) by lia.
  rewrite (proj2 (checked_add_Some 64 _ _ (sect_count v + (k - 1)))) by lia.
  replace (sect_count v + (k - 1)) with (sect_count v + k - 1) by lia. rewrite MIN_min.
  set (n := (sect_count v + k - 1) / k) in *.
  assert (n <= sect_count v + k) by (unfold n; apply Z.div_le_upper_bound; nia).
  assert (first_sect v / k <= first_sect v) by (apply Z.div_le_upper_bound; nia).
  unfold UINT64_MAX. rewrite Z.min_l by lia. case_if; [nia|done].
Qed.

Lemma lookup_buf_write_0 (c bytes : list Z) i :
  (length bytes <= length c)%nat -> (i < length bytes)%nat -> buf_write c 0 bytes !! i = bytes !! i.
Proof. intros Hl Hi. unfold buf_write. change (take 0 c) with (@nil Z). cbn [app]. by rewrite lookup_app_l. Qed.

Lemma same_geometry_refl v : same_geometry v v.
Proof. by split_and!. Qed.

Lemma same_geometry_cache v c r b : same_geometry v (with_cache v c r b).
Proof. by split_and!. Qed.

Lemma geometry_same v v' : same_geometry v v' -> geometry v -> geometry v'.
Proof. intros (E1 & E2 & _ & _ & E3 & E4) [H1 H2 H3 H4 H5]. split; rewrite ?E1, ?E2, ?E3, ?E4; done. Qed.

Lemma first_sect_bytes v :
  geometry v -> first_sect v mod (ss / 512) = 0 -> first_sect v / (ss / 512) * ss = first_sect v * 512.
Proof.
  intros Hg Hm. destruct (ge_ss _ Hg) as (_ & H512 & Hm5).
  pose proof (proj2 (Z.div_exact ss 512 ltac:(lia)) Hm5) as Hsk.
  pose proof (proj2 (Z.div_exact (first_sect v) (ss / 512) ltac:(lia)) Hm) as Hfk.
  rewrite Hsk at 2. rewrite Hfk at 2. lia.
Qed.

(** Filling the buffer with a block makes the cache coherent. *)
Lemma coherent_fill v c block xfer bytes :
  geometry v -> Z.of_nat (length c) = fastest_xfer_size v * ss -> 0 <= block ->
  first_sect v mod (ss / 512) = 0 ->
  let read := first_sect v / (ss / 512) + block * fastest_xfer_size v in
  cache_clamp v (first_sect v / (ss / 512)) read = Some xfer ->
  disk_read_sectors read xfer = Some bytes ->
  (length bytes <= length c)%nat /\ coherent (with_cache v (Some (buf_write c 0 bytes)) true block).
Proof.
  intros Hg Hc Hbl Hmod read Hcl Hrd. destruct (ge_ss _ Hg) as (Hss & H512 & Hm5). destruct (ge_xfer _ Hg) as [Hx _].
  set (k := ss / 512) in *. assert (ss = 512 * k) as Hsk by (apply Z.div_exact; [lia|done]). assert (1 <= k) by lia.
  destruct (ge_first _ Hg) as [Hf _]. assert (0 <= first_sect v / k) by (apply Z.div_pos; lia).
  assert (0 <= read) by (unfold read; nia).
  destruct (cache_clamp_Some v _ read xfer Hg eq_refl Hcl ltac:(done)) as (Hxf & Hmax & Hend).
  apply driver_ok in Hrd; [|done|lia]. subst bytes.
  assert (Z.of_nat (length (disk_bytes (read * ss) (xfer * ss))) = xfer * ss) as Hlb
    by (rewrite length_disk_bytes; nia).
  assert (length (disk_bytes (read * ss) (xfer * ss)) <= length c)%nat as Hle by nia.
  split; [done|]. split; cbn [cache cache_status cached_block with_cache fastest_xfer_size].
  - intros c' [= <-]. by rewrite length_buf_write by (cbn; lia).
  - intros _. eexists. split; [reflexivity|]. intros i Hi. cbn [first_sect].
    set (x := block * (fastest_xfer_size v * ss) + Z.of_nat i). intros Hin.
    assert (Z.of_nat i < xfer * ss) as Hix.
    { destruct Hend as [->|Hend]; [done|]. destruct Hin as [Hu|Hin]; [rewrite (Hmax Hu); done|].
      cbn [sect_count with_cache] in Hin. fold k in Hin, Hend. unfold x, read in *.
      assert ((sect_count v + k - 1) / k = block * fastest_xfer_size v + xfer) as Hn by lia.
      rewrite Hn, Z.mul_add_distr_r, <- Z.mul_assoc in Hin. lia. }
    rewrite lookup_buf_write_0 by (done || lia). rewrite lookup_disk_bytes by done. do 2 f_equal.
    pose proof (first_sect_bytes v Hg Hmod) as Hq. fold k in Hq.
    unfold x, read. rewrite Z.mul_add_distr_r, Hq. cbn [first_sect with_cache]. lia.
Qed.

(** Why a read may be refused: the partition does not start on a sector, or the driver
    failed on sectors that hold a byte [x] of the range. *)
Definition refused_at (v : volume) (x : Z) : Prop :=
  first_sect v mod (ss / 512) <> 0 \/
  exists s n, disk_read_sectors s n = None /\ s * ss <= first_sect v * 512 + x < (s + n) * ss.

Definition refused (v : volume) (loc count : Z) : Prop := exists x, loc <= x < loc + count /\ refused_at v x.

(** A panic can only be the one of the allocation, and only if there is no cache yet. *)
Definition cache_panic (v : volume) (msg : string) : Prop := cache v = None /\ alloc_panic msg.

Lemma cache_block_spec v block x :
  geometry v -> coherent v -> 0 <= block < 2 ^ 64 -> 0 <= x -> in_volume v x -> block = x / (fastest_xfer_size v * ss) -> first_sect v * 512 + x < 2 ^ 64 ->
  res_post (fun r => same_geometry v r.2 /\ coherent r.2 /\ (cache v <> None -> cache r.2 <> None) /\
      (r.1 = true -> cache_status r.2 = true /\ cached_block r.2 = block) /\ (r.1 = false -> refused_at v x))
    (cache_panic v) (cache_block v block).
Proof.
  intros Hg Hco Hbl Hx0 Hin Hbx Htop. unfold cache_block. destruct (ge_ss _ Hg) as (Hss & H512 & Hm5).
  destruct (ge_xfer _ Hg) as [Hx Hxs]. destruct (ge_first _ Hg) as [Hf _].
  case_if; [subst; cbn; split_and!; (done || by apply same_geometry_refl)|].
  eapply res_post_bind with (Q := fun c => Z.of_nat (length c) = fastest_xfer_size v * ss).
  { destruct (cache v) as [c|] eqn:Ec; [by apply (co_size _ Hco)|].
    rewrite Hss, (proj2 (checked_mul_Some 64 _ _ _)) by done. eapply res_post_mono; [apply alloc_ok; lia|done|done]. }
  intros c Hc. cbn [with_cache sector_size first_sect fastest_xfer_size]. rewrite Hss.
  set (v1 := with_cache v (Some c) false (cached_block v)).
  assert (coherent v1) as Hco1 by (split; [by intros c' [= <-]|done]).
  set (k := ss / 512) in *. assert (ss = 512 * k) as Hsk by (apply Z.div_exact; [lia|done]). assert (1 <= k) by lia.
  destruct (first_sect v mod k =? 0) eqn:Hm; cbn [negb]; bool_hyps.
  2: { cbn. split_and!; try done. intros _. by left. }
  (* neither product nor sum overflows for an offset inside the 64-bit disk *)
  set (F := fastest_xfer_size v) in *.
  pose proof (first_sect_bytes v Hg Hm) as Hq. fold k in Hq.
  assert (0 <= first_sect v / k) by (apply Z.div_pos; lia).
  assert (block * (F * ss) <= x) as Hbx2 by (rewrite Hbx, Z.mul_comm; apply Z.mul_div_le; nia).
  assert ((first_sect v / k + block * F) * ss <= first_sect v * 512 + x) as Hrs
    by (rewrite Z.mul_add_distr_r, Hq, <- Z.mul_assoc; lia).
  rewrite (proj2 (checked_mul_Some 64 block F (block * F))) by nia.
  rewrite (proj2 (checked_add_Some 64 _ _ (first_sect v / k + block * F))) by nia.
  destruct (cache_clamp v1 _ _) as [xfer|] eqn:Ecl.
  2: { exfalso. revert Ecl. apply (cache_clamp_None v1 _ x); [by apply (geometry_same v)|done|done|].
       cbn [v1 with_cache first_sect]. fold k. nia. }
  destruct (disk_read_sectors _ xfer) as [bytes|] eqn:Erd.
  2: { cbn. split_and!; try done. intros _. right. exists (first_sect v / k + block * F), xfer. split; [done|]. split; [done|].
       destruct (cache_clamp_Some v1 _ _ xfer (geometry_same v v1 (same_geometry_cache _ _ _ _) Hg) eq_refl Ecl ltac:(nia)) as (_ & Hmax & Hend).
       cbn [v1 with_cache first_sect sect_count fastest_xfer_size] in Hmax, Hend. fold k F in Hmax, Hend.
       pose proof (Z.mul_succ_div_gt x (F * ss) ltac:(nia)) as Hgt. rewrite <- Hbx in Hgt.
       assert (xfer = F -> first_sect v * 512 + x < (first_sect v / k + block * F + xfer) * ss) as Hfull by (intros ->; nia).
       destruct Hend as [?|Hend]; [by apply Hfull|]. destruct Hin as [Hu|Hin]; [by apply Hfull, Hmax|]. fold k in Hin. rewrite Hend. nia. }
  destruct (coherent_fill v c block xfer bytes Hg Hc ltac:(lia) Hm Ecl Erd) as [Hle Hco2].
  rewrite (proj2 (Nat.ltb_ge _ _)) by done. cbn. split_and!; try done.
Qed.

(** ** [volume_read] *)
Record read_inv (v0 : volume) (loc count : Z) (s : volume * list Z) : Prop := {
  ri_geometry : same_geometry v0 s.1;
  ri_coherent : coherent s.1;
  ri_cache : cache v0 <> None -> cache s.1 <> None;
  ri_len : Z.of_nat (length s.2) <= count;
  ri_out : s.2 = disk_bytes (first_sect v0 * 512 + loc) (Z.of_nat (length s.2));
}.

Definition read_post (v0 : volume) (loc count : Z) (r : bool * list Z * volume) : Prop :=
  let '(ok, out, v') := r in
  same_geometry v0 v' /\ coherent v' /\
  if ok : bool then out = disk_bytes (first_sect v0 * 512 + loc) count else refused v0 loc count.

Lemma read_turn v0 loc count s :
  geometry v0 -> 0 <= loc -> first_sect v0 * 512 + loc + count < 2 ^ 64 ->
  (forall x, x < loc + count -> in_volume v0 x) -> read_inv v0 loc count s ->
  turn_ok (read_body (fastest_xfer_size v0 * ss) loc count) (read_inv v0 loc count) (read_variant count)
    (read_post v0 loc count) (cache_panic v0) s.
Proof.
  intros Hg Hloc Htop Hin [Hsg Hco Hcp Hlen Hout]. destruct s as [v out]. cbn [fst snd] in *.
  unfold turn_ok, read_body, read_variant. set (p := Z.of_nat (length out)) in *.
  destruct (ge_xfer _ Hg) as [Hx Hxs]. destruct (ge_ss _ Hg) as (Hss & H512 & _). destruct (ge_first _ Hg) as [Hf _].
  pose proof Hsg as (E1 & E2 & E3 & E4 & E5 & E6).
  case_if; [cbn; split_and!; try done; assert (p = count) as <- by lia; done|].
  set (bs := fastest_xfer_size v0 * ss) in *. assert (0 < bs) by (unfold bs; nia).
  rewrite (proj2 (Z.eqb_neq bs 0)) by lia. rewrite !(wrap_small 64 (loc + p)) by lia.
  pose proof (Z.div_mod (loc + p) bs ltac:(lia)) as Hdm.
  pose proof (Z.mod_pos_bound (loc + p) bs ltac:(lia)) as Hmb.
  assert (0 <= (loc + p) / bs <= loc + p) as Hdv by (split; [apply Z.div_pos; lia|apply Z.div_le_upper_bound; nia]).
  assert (forall x, in_volume v0 x -> in_volume v x) as Hiv by (intros x; unfold in_volume; by rewrite E6).
  eapply res_post_bind.
  { eapply res_post_mono; [apply (cache_block_spec v _ (loc + p)); [by apply (geometry_same v0)|done|lia|lia|apply Hiv, Hin; lia|by rewrite E1|rewrite E5; lia]|intros r Hr; exact Hr|].
    intros msg [Hn Ha]. split; [|done]. destruct (cache v0) eqn:Ec; [|done]. by destruct (Hcp ltac:(done)). }
  intros [ok v1] (Hsg1 & Hco1 & Hcp1 & Hok & Hno). cbn [fst snd] in *.
  assert (same_geometry v0 v1) as Hsg01.
  { destruct Hsg1 as (? & ? & ? & ? & ? & ?). split_and!; congruence. }
  destruct ok; cbn [negb]; [|cbn; split_and!; try done; exists (loc + p); split; [lia|]; unfold refused_at in *; rewrite <- E5; by apply Hno].
  destruct (Hok eq_refl) as [Hst Hcb]. destruct (co_data _ Hco1 Hst) as (c & Hc & Hdata).
  rewrite Hc. cbn [of_option rbind]. pose proof (co_size _ Hco1 c Hc) as Hcl.
  destruct Hsg01 as (F1 & F2 & F3 & F4 & F5 & F6). rewrite F1 in Hcl, Hdata. fold bs in Hcl, Hdata.
  set (off := (loc + p) mod bs) in *. set (chunk := if bs - off <? count - p then _ else _).
  assert (0 < chunk /\ chunk <= count - p /\ off + chunk <= bs) as (Hc1 & Hc2 & Hc3) by (unfold chunk; case_if; lia).
  rewrite Hcl, (proj2 (Z.ltb_ge _ _)) by lia. cbn [res_post].
  assert (take (Z.to_nat chunk) (drop (Z.to_nat off) c) = disk_bytes (first_sect v0 * 512 + loc + p) chunk) as ->.
  { apply slice_disk_bytes. intros i Hi. rewrite Hdata; [|lia|].
    - do 2 f_equal. rewrite F5, Hcb. lia.
    - unfold in_volume. rewrite F6. apply Hin. rewrite Hcb. lia. }
  assert (length (out ++ disk_bytes (first_sect v0 * 512 + loc + p) chunk) = Z.to_nat (p + chunk)) as Hnl
    by (rewrite length_app, length_disk_bytes; lia).
  split; [split; cbn [fst snd]|].
  - by split_and!.
  - done.
  - auto.
  - rewrite Hnl. lia.
  - rewrite Hnl, Z2Nat.id by lia. rewrite Hout. by apply disk_bytes_app; lia.
  - cbn [snd]. rewrite Hnl. lia.
Qed.

Lemma volume_read_spec v loc count :
  geometry v -> coherent v -> v_pxe v = false -> 0 <= loc -> 0 <= count ->
  first_sect v * 512 + loc + count < 2 ^ 64 ->
  res_post (fun r =>
      let '(ok, out, v') := r in
      same_geometry v v' /\ coherent v' /\
      if ok : bool then out = disk_bytes (first_sect v * 512 + loc) count
      else refused v loc count \/ (sect_count v <> UINT64_MAX /\
                         (2 ^ 64 <= sect_count v * 512 \/ sect_count v * 512 <= loc \/ sect_count v * 512 < loc + count)))
    (cache_panic v) (volume_read v loc count).
Proof.
  intros Hg Hco Hp Hl Hc Ht. unfold volume_read. rewrite Hp.
  destruct (ge_xfer _ Hg) as [Hx Hxs]. destruct (ge_ss _ Hg) as (Hss & H512 & Hm5).
  destruct (ge_count _ Hg) as [Hsc _]. rewrite Hss, Hm5.
  rewrite (proj2 (Z.eqb_neq _ 0)), (proj2 (Z.ltb_ge _ _)) by lia. cbn [orb negb Z.eqb].
  rewrite wrap_small by nia.
  assert ((forall x, x < loc + count -> in_volume v x) ->
    res_post (fun r => let '(ok, out, v') := r in same_geometry v v' /\ coherent v' /\
      if ok : bool then out = disk_bytes (first_sect v * 512 + loc) count
      else refused v loc count \/ (sect_count v <> UINT64_MAX /\
        (2 ^ 64 <= sect_count v * 512 \/ sect_count v * 512 <= loc \/ sect_count v * 512 < loc + count)))
    (cache_panic v) (loop (read_body (fastest_xfer_size v * ss) loc count) (read_variant count) (v, []))) as Hloop.
  { intros Hin. eapply res_post_mono; [eapply (loop_spec _ (read_inv v loc count)) with (Q := read_post v loc count)| |done].
    - intros s. by apply read_turn.
    - split; try done; cbn; lia.
    - unfold read_variant. lia.
    - intros [[ok out] v'] (? & ? & Hok). destruct ok; auto. }
  destruct (sect_count v =? UINT64_MAX) eqn:E; bool_hyps; cbn [negb].
  { apply Hloop. intros x _. by left. }
  destruct (CHECKED_MUL _ _) as [ps|] eqn:Em.
  2: { apply checked_mul_None in Em. cbn. split; [apply same_geometry_refl|]. split; [done|]. right. auto. }
  apply checked_mul_Some in Em as [-> _]. rewrite negb_involutive.
  destruct ((_ <=? loc) || _) eqn:Er; bool_hyps.
  { cbn. split; [apply same_geometry_refl|]. split; [done|]. right. split; [done|].
    destruct Er; bool_hyps; [right; left; lia|right; right; lia]. }
  apply Hloop. intros x Hxl. right. set (k := ss / 512). assert (ss = 512 * k) as Hsk by (apply Z.div_exact; [lia|done]).
  assert (1 <= k) by lia. set (q := (sect_count v + k - 1) / k).
  pose proof (Z.div_mod (sect_count v + k - 1) k ltac:(lia)) as Hd. fold q in Hd.
  pose proof (Z.mod_pos_bound (sect_count v + k - 1) k ltac:(lia)).
  assert (sect_count v <= q * k) by lia. rewrite Hsk. nia.
Qed.
End Volume.

(** C34.  [volume_read] with the block cache refines reading the disk.  For a volume with
    a transfer size and a sector size that is a multiple of 512, not on the network,
    whatever block the cache held, and a range that ends below 2^64 on the disk: a
    read that succeeds returns exactly the bytes
    of the disk at the volume's offset, the cache stays coherent, and the volume is
    otherwise untouched.  It always returns, unless there is no cache yet and its
    allocation panics; and it fails only if the range is outside the volume, the
    partition does not start on a sector, or the driver failed to read sectors that
    hold bytes of the range.  A volume without such sizes is refused. *)
Theorem volume_read_correct disk_read_sectors new_cache disk alloc_panic v loc count :
  let ss := sector_size v in
  (forall s n bytes, disk_read_sectors s n = Some bytes -> 0 <= s -> 0 <= n ->
     bytes = disk_bytes disk (s * ss) (n * ss)) ->
  (forall n, 0 <= n -> res_post (fun c => Z.of_nat (length c) = n) alloc_panic (new_cache n)) ->
  v_pxe v = false -> 0 <= loc -> 0 <= count -> first_sect v * 512 + loc + count < 2 ^ 64 ->
  (fastest_xfer_size v = 0 \/ ss < 512 \/ ss mod 512 <> 0 -> volume_read disk_read_sectors new_cache v loc count = Ok (false, [], v)) /\
  (geometry ss v -> coherent disk ss v ->
   res_post (fun r =>
      let '(ok, out, v') := r in
      same_geometry v v' /\ coherent disk ss v' /\
      if ok : bool then out = disk_bytes disk (first_sect v * 512 + loc) count
      else refused disk_read_sectors ss v loc count \/
           (sect_count v <> UINT64_MAX /\
            (2 ^ 64 <= sect_count v * 512 \/ sect_count v * 512 <= loc \/ sect_count v * 512 < loc + count)))
    (fun msg => cache v = None /\ alloc_panic msg) (volume_read disk_read_sectors new_cache v loc count)).
Proof.
  intros ss Hd Ha Hp Hl Hc Ht. split; [|intros Hg Hco; by apply volume_read_spec].
  intros Hbad. unfold volume_read. rewrite Hp. fold ss.
  assert ((fastest_xfer_size v =? 0) || (ss <? 512) || negb (ss mod 512 =? 0) = true) as ->; [|done].
  rewrite !orb_true_iff, negb_true_iff, Z.eqb_eq, Z.ltb_lt, Z.eqb_neq. tauto.
Qed.

Definition demo_disk (a : Z) : Z := a mod 251.
Definition demo_driver (s n : Z) : option (list Z) := Some (disk_bytes demo_disk (s * 512) (n * 512)).
Definition demo_volume : volume := MkVol 2 512 false false 4 8 None false 0.

Lemma volume_read_correct_witness :
  exists out v', volume_read demo_driver (fun n => Ok (replicate (Z.to_nat n) 0)) demo_volume 1000 300 = Ok (true, out, v') /\
  out = disk_bytes demo_disk (4 * 512 + 1000) 300.
Proof.
  pose proof (volume_read_correct demo_driver (fun n => Ok (replicate (Z.to_nat n) 0)) demo_disk no_panic demo_volume 1000 300) as H.
  cbn zeta in H.
  assert (match volume_read demo_driver (fun n => Ok (replicate (Z.to_nat n) 0)) demo_volume 1000 300
          with Ok (true, _, _) => true | _ => false end = true) as G by (vm_compute; reflexivity).
  destruct (volume_read demo_driver _ demo_volume 1000 300) as [[[[] out] v']|m| |]; try discriminate G.
  exists out, v'. split; [reflexivity|]. destruct H as [_ H].
  - intros s n bytes [= <-] _ _. reflexivity.
  - intros n Hn. cbn. rewrite length_replicate. lia.
  - reflexivity.
  - lia.
  - lia.
  - cbn. lia.
  - apply H; [split; vm_compute; intuition congruence|split; cbn; discriminate].
Defined.
