(* ===== verification/Gpt.v ===== *)
(** * GUID partition tables

    The GPT half of [common/lib/part.s2.c]: CRC-32, header verification, the
    search for a valid header with its memos, and the partition an index names.
    Everything here reads the volume through an interface, a function from an
    offset and a size to bytes, whose laws are the class [ByteReader].  [Volume] shows
    that a successful [volume_read] returns the bytes of the disk, which is what
    [disk_reader] below returns, and [disk_reader_ok] discharges the class. *)

From S2P Require Import Prelude CInt Libc Volume.

(** ** The reading interface *)
Class ByteReader (read : Z -> Z -> option (list Z)) : Prop := {
  read_length : forall loc n bs, read loc n = Some bs -> 0 <= n -> Z.of_nat (length bs) = n;
  read_bytes : forall loc n bs, read loc n = Some bs -> Forall is_byte bs;
  read_bound : forall loc n bs, read loc n = Some bs -> 0 <= loc /\ loc + n < 2 ^ 64;
  (** what can be read in one piece can be read in two, with the same bytes;
      the second piece is not empty, as a read at the very end is refused *)
  read_split : forall loc n k bs, 0 <= n -> 0 < k -> read loc (n + k) = Some bs ->
    exists b1 b2, read loc n = Some b1 /\ read (loc + n) k = Some b2 /\ bs = b1 ++ b2;
  (** and back *)
  read_join : forall loc n k b1 b2, 0 <= n -> 0 <= k ->
    read loc n = Some b1 -> read (loc + n) k = Some b2 -> read loc (n + k) = Some (b1 ++ b2);
}.

(** A volume of [size] bytes at offset [base] of a disk, with the bounds check of
    [volume_read]: an offset at or past the end is refused, also for an empty read. *)
Definition disk_reader (disk : Z -> Z) (base size loc n : Z) : option (list Z) :=
  if (0 <=? loc) && (loc <? size) && (loc + n <=? size) then Some (disk_bytes disk (base + loc) n) else None.

Class ByteDisk (disk : Z -> Z) (size : Z) : Prop := {
  byte_disk : forall a, is_byte (disk a);
  size_disk : size < 2 ^ 64;
}.

#[export] Instance disk_reader_ok disk base size `{ByteDisk disk size} : ByteReader (disk_reader disk base size).
Proof.
  split; unfold disk_reader.
  - intros loc n bs. case_if; [|done]. intros [= <-] Hn. rewrite length_disk_bytes. lia.
  - intros loc n bs. case_if; [|done]. intros [= <-]. apply Forall_map, Forall_true. intros a.
    apply (byte_disk (size := size)).
  - intros loc n bs. case_if; [|done]. intros _. pose proof (size_disk (disk := disk) (size := size)). lia.
  - intros loc n k bs Hn Hk. case_if; [|done]. intros [= <-].
    rewrite !(proj2 (Z.leb_le _ _)), !(proj2 (Z.ltb_lt _ _)) by lia. cbn. eexists _, _. split; [reflexivity|]. split; [reflexivity|].
    rewrite Z.add_assoc. symmetry. apply disk_bytes_app; lia.
  - intros loc n k b1 b2 Hn Hk. case_if; [|done]. intros [= <-]. case_if; [|done]. intros [= <-].
    rewrite !(proj2 (Z.leb_le _ _)), !(proj2 (Z.ltb_lt _ _)) by lia. cbn. by rewrite Z.add_assoc, disk_bytes_app.
Qed.

(** Little-endian fields of a structure. *)
Definition field (bs : list Z) (off n : nat) : Z := le_val (take n (drop off bs)).

(** ** CRC-32 *)
Definition crc32_bit (crc : Z) : Z :=
  if negb (Z.land crc 1 =? 0) then Z.lxor (Z.shiftr crc 1) 0xedb88320 else Z.shiftr crc 1.

Definition crc32_byte (crc b : Z) : Z := Nat.iter 8 crc32_bit (Z.lxor crc b).

Definition crc32_update (crc : Z) (bytes : list Z) : Z := foldl crc32_byte crc bytes.

(** The check value of the algorithm: CRC-32 of "123456789". *)
Example crc32_check : Z.lxor (crc32_update 0xffffffff (bytes "123456789")) 0xffffffff = 0xcbf43926.
Proof. vm_compute. reflexivity. Qed.

(** ** [struct gpt_table_header] (92 bytes) and [struct gpt_entry] (128 bytes) *)
Definition sizeof_header : Z := 92.
Definition sizeof_entry : Z := 128.

Definition h_revision (h : list Z) : Z := field h 8 4.
Definition h_header_size (h : list Z) : Z := field h 12 4.
Definition h_crc32 (h : list Z) : Z := field h 16 4.
Definition h_my_lba (h : list Z) : Z := field h 24 8.
Definition h_alternate_lba (h : list Z) : Z := field h 32 8.
Definition h_first_usable_lba (h : list Z) : Z := field h 40 8.
Definition h_last_usable_lba (h : list Z) : Z := field h 48 8.
Definition h_disk_guid (h : list Z) : list Z := take 16 (drop 56 h).
Definition h_partition_entry_lba (h : list Z) : Z := field h 72 8.
Definition h_number_of_entries (h : list Z) : Z := field h 80 4.
Definition h_size_of_entry (h : list Z) : Z := field h 84 4.
Definition h_array_crc32 (h : list Z) : Z := field h 88 4.

Definition e_type_guid (e : list Z) : list Z := take 16 e.
Definition e_starting_lba (e : list Z) : Z := field e 32 8.
Definition e_ending_lba (e : list Z) : Z := field e 40 8.

(** [!strncmp(header->signature, "EFI PART", 8)] *)
Definition signature_ok (h : list Z) : bool :=
  match strncmp h (cstring "EFI PART") 8 with Ok r => r =? 0 | _ => false end.

Definition GPT_MAX_ARRAY_SIZE : Z := 1024 * 1024.
Definition NOT32 (x : Z) : Z := Z.lxor x 0xffffffff.

Section Gpt.
Variable read : Z -> Z -> option (list Z).
(** [volume->sect_count], in 512-byte units, [UINT64_MAX] if unknown. *)
Variable sect_count : Z.

(** [crc32_volume_range]: [None] when a read fails. *)
Definition crc32_range_body (s : Z * Z * Z) : res (Z * Z * Z + option Z) :=
  let '(loc, count, crc) := s in
  if count <=? 0 then Ok (inr (Some crc))
  else
    let step := if count <? 512 then count else 512 in
    match read loc step with
    | None => Ok (inr None)
    | Some chunk => Ok (inl (u64 (loc + step), count - step, crc32_update crc chunk))
    end.

Definition crc32_volume_range (loc count crc : Z) : res (option Z) :=
  loop crc32_range_body (fun s => s.1.2) (loc, count, crc).

(** [gpt_verify_header]: the verdict and the budget left. *)
Definition gpt_verify_header (h : list Z) (header_lba lb_size budget : Z) : res (bool * Z) :=
  if negb (signature_ok h) then Ok (false, budget)
  else if negb (h_revision h =? 0x00010000) then Ok (false, budget)
  else if (h_header_size h <? sizeof_header) || (lb_size <? h_header_size h) then Ok (false, budget)
  else if negb (h_my_lba h =? header_lba) then Ok (false, budget)
  else match CHECKED_MUL header_lba lb_size with
  | None => Ok (false, budget)
  | Some header_loc =>
      let zeroed := buf_write h 16 [0; 0; 0; 0] in
      let crc := crc32_update 0xffffffff zeroed in
      let! crc :=
        if sizeof_header <? h_header_size h then
          match CHECKED_ADD header_loc sizeof_header with
          | None => Ok None
          | Some tail => crc32_volume_range tail (h_header_size h - sizeof_header) crc
          end
        else Ok (Some crc) in
      match crc with
      | None => Ok (false, budget)
      | Some crc =>
          let entry_size := h_size_of_entry h in
          if negb (NOT32 crc =? h_crc32 h) then Ok (false, budget)
          else if (entry_size <? sizeof_entry) || negb (Z.land entry_size (u32 (entry_size - 1)) =? 0)
          then Ok (false, budget)
          else match CHECKED_MUL (h_number_of_entries h) entry_size with
          | None => Ok (false, budget)
          | Some array_size =>
              let array_lba := h_partition_entry_lba h in
              let array_blocks := (array_size + lb_size - 1) / lb_size in
              if array_size =? 0 then Ok (false, budget)
              else if (GPT_MAX_ARRAY_SIZE <? array_size) || (budget <? array_size) then Ok (false, budget)
              else match CHECKED_ADD array_lba array_blocks with
              | None => Ok (false, budget)
              | Some array_end =>
                  if h_last_usable_lba h <? h_first_usable_lba h then Ok (false, budget)
                  else if (if array_lba <? h_first_usable_lba h
                           then h_first_usable_lba h <? array_end
                           else (array_lba <=? h_last_usable_lba h) || (header_lba <? array_end))
                  then Ok (false, budget)
                  else if negb (sect_count =? UINT64_MAX) && (sect_count / (lb_size / 512) <? array_end)
                  then Ok (false, budget)
                  else match CHECKED_MUL array_lba lb_size with
                  | None => Ok (false, budget)
                  | Some array_loc =>
                      let budget := budget - array_size in
                      let! crc := crc32_volume_range array_loc array_size 0xffffffff in
                      match crc with
                      | None => Ok (false, budget)
                      | Some crc => Ok (NOT32 crc =? h_array_crc32 h, budget)
                      end
                  end
              end
          end
      end
  end.

Definition gpt_protective_mbr : bool :=
  let fix probe (i : Z) (n : nat) : bool :=
    match n with
    | O => false
    | S n => match read (0x1be + 16 * i + 4) 1 with
             | Some [type] => if type =? 0xee then true else probe (i + 1) n
             | _ => false
             end
    end in
  probe 0 4%nat.

(** One candidate header block; [Some] when it verifies. *)
Definition gpt_try (lba guess budget : Z) : res (option (list Z) * Z) :=
  match CHECKED_MUL lba guess with
  | None => Ok (None, budget)
  | Some loc =>
      match read loc sizeof_header with
      | None => Ok (None, budget)
      | Some h =>
          let! (ok, budget) := gpt_verify_header h lba guess budget in
          Ok (if ok : bool then Some h else None, budget)
      end
  end.

(** The fallback locations for a block size: the last block, then the one the
    failed primary names. *)
Definition gpt_candidates (guess : Z) : list Z :=
  let claimed := match read guess sizeof_header with
                 | Some h => if signature_ok h && (1 <? h_alternate_lba h) then [h_alternate_lba h] else []
                 | None => []
                 end in
  if negb (sect_count =? UINT64_MAX) && (512 <=? guess) then
    let blocks := sect_count / (guess / 512) in
    if 2 <=? blocks then
      match claimed with
      | [c] => if c =? blocks - 1 then [blocks - 1] else [blocks - 1; c]
      | _ => [blocks - 1]
      end
    else claimed
  else claimed.

Fixpoint gpt_try_all (lbas : list Z) (guess budget : Z) : res (option (list Z * Z) * Z) :=
  match lbas with
  | [] => Ok (None, budget)
  | lba :: lbas =>
      let! (r, budget) := gpt_try lba guess budget in
      match r with
      | Some h => Ok (Some (h, lba), budget)
      | None => gpt_try_all lbas guess budget
      end
  end.

(** The search proper: header, its LBA and the block size. *)
Fixpoint gpt_search_sizes (guesses : list Z) (budget : Z) : res (option (list Z * Z * Z)) :=
  match guesses with
  | [] => Ok None
  | guess :: guesses =>
      let! (r, budget) := gpt_try 1 guess budget in
      match r with
      | Some h => Ok (Some (h, 1, guess))
      | None =>
          let! (r, budget) := gpt_try_all (gpt_candidates guess) guess budget in
          match r with
          | Some (h, lba) => Ok (Some (h, lba, guess))
          | None => gpt_search_sizes guesses budget
          end
      end
  end.

Definition gpt_search : res (option (list Z * Z * Z)) :=
  if negb gpt_protective_mbr then Ok None
  else gpt_search_sizes [512; 2048; 4096] (GPT_MAX_ARRAY_SIZE * 2).
End Gpt.

(** ** The memos *)
Record gpt_memo := MkMemo {
  memo_volume : option Z; memo_header : list Z; memo_lba : Z; memo_lb_size : Z;
  none_volume : option Z; none_block : option (list Z)   (** [None]: it was not readable *) }.

Section Locate.
Variable read : Z -> Z -> option (list Z).
Variable sect_count : Z.
(** The volume's address, which the memos compare. *)
Variable volume : Z.

Definition gpt_memo_hit (m : gpt_memo) : option (list Z * Z * Z) :=
  if negb (bool_decide (memo_volume m = Some volume)) then None
  else match CHECKED_MUL (memo_lba m) (memo_lb_size m) with
       | None => None
       | Some loc =>
           match read loc sizeof_header with
           | None => None
           | Some fresh => if negb (bool_decide (fresh = memo_header m)) then None
                           else Some (memo_header m, memo_lba m, memo_lb_size m)
           end
       end.

Definition gpt_memo_none_hit (m : gpt_memo) : bool :=
  if negb (bool_decide (none_volume m = Some volume)) then false
  else bool_decide (read 512 sizeof_header = none_block m).

Definition gpt_memo_none_store (m : gpt_memo) : gpt_memo :=
  MkMemo (memo_volume m) (memo_header m) (memo_lba m) (memo_lb_size m)
    (Some volume) (read 512 sizeof_header).

Definition gpt_memo_store (m : gpt_memo) (r : list Z * Z * Z) : gpt_memo :=
  let '(header, lba, lb_size) := r in
  MkMemo (Some volume) header lba lb_size (none_volume m) (none_block m).

(** [gpt_locate_header]: header, LBA and block size if one is found. *)
Definition gpt_locate_header (m : gpt_memo) : res (option (list Z * Z * Z) * gpt_memo) :=
  match gpt_memo_hit m with
  | Some r => Ok (Some r, m)
  | None =>
      if gpt_memo_none_hit m then Ok (None, m)
      else if negb (gpt_protective_mbr read) then Ok (None, m)
      else
        let! r := gpt_search_sizes read sect_count [512; 2048; 4096] (GPT_MAX_ARRAY_SIZE * 2) in
        match r with
        | Some r => Ok (Some r, gpt_memo_store m r)
        | None => Ok (None, gpt_memo_none_store m)
        end
  end.

(** ** [gpt_get_part] *)
Inductive part_result (A : Type) : Type :=
| Part (a : A)
| NO_PARTITION
| INVALID_TABLE
| END_OF_TABLE.
#[global] Arguments Part {A} a.
#[global] Arguments NO_PARTITION {A}.
#[global] Arguments INVALID_TABLE {A}.
#[global] Arguments END_OF_TABLE {A}.

Definition MAX_GPT_PARTITIONS : Z := 256.

(** The geometry of the partition: first sector and count, in 512-byte units. *)
Definition gpt_entry_part (range_valid : Z -> Z -> bool) (entry : list Z) (lb_size : Z)
    : part_result (Z * Z) :=
  if bool_decide (e_type_guid entry = replicate 16 0) then NO_PARTITION
  else if e_ending_lba entry <? e_starting_lba entry then NO_PARTITION
  else
    let sect_multiplier := lb_size / 512 in
    match CHECKED_MUL (e_starting_lba entry) sect_multiplier with
    | None => NO_PARTITION
    | Some first_sect_result =>
        let partition_size := e_ending_lba entry - e_starting_lba entry in
        if partition_size =? UINT64_MAX then NO_PARTITION
        else match CHECKED_MUL (partition_size + 1) sect_multiplier with
             | None => NO_PARTITION
             | Some sect_count_result =>
                 if negb (range_valid first_sect_result sect_count_result) then NO_PARTITION
                 else Part (first_sect_result, sect_count_result)
             end
    end.

Definition gpt_get_part (range_valid : Z -> Z -> bool) (m : gpt_memo) (partition : Z)
    : res (part_result (Z * Z) * gpt_memo) :=
  let! (r, m) := gpt_locate_header m in
  match r with
  | None => Ok (INVALID_TABLE, m)
  | Some (header, _, lb_size) =>
      let entry_count := if MAX_GPT_PARTITIONS <? h_number_of_entries header
                         then MAX_GPT_PARTITIONS else h_number_of_entries header in
      if entry_count <=? partition then Ok (END_OF_TABLE, m)
      else if h_size_of_entry header <? sizeof_entry then Ok (INVALID_TABLE, m)
      else match CHECKED_MUL (h_partition_entry_lba header) lb_size with
           | None => Ok (INVALID_TABLE, m)
           | Some entry_offset =>
               match CHECKED_ADD entry_offset (partition * h_size_of_entry header) with
               | None => Ok (INVALID_TABLE, m)
               | Some entry_offset =>
                   match read entry_offset sizeof_entry with
                   | None => Ok (END_OF_TABLE, m)
                   | Some entry => Ok (gpt_entry_part range_valid entry lb_size, m)
                   end
               end
           end
  end.

Definition gpt_get_guid (m : gpt_memo) : res (option (list Z) * gpt_memo) :=
  let! (r, m) := gpt_locate_header m in
  Ok ((fun '(header, _, _) => h_disk_guid header) <$> r, m).
End Locate.

(** ** Proofs *)
Section Proofs.
Variable read : Z -> Z -> option (list Z).
Context `{ByteReader read}.
Variable sect_count : Z.

Lemma crc32_update_app crc a b : crc32_update crc (a ++ b) = crc32_update (crc32_update crc a) b.
Proof. unfold crc32_update. apply foldl_app. Qed.

(** The streamed CRC is the CRC of the range. *)
Lemma crc32_range_spec loc count crc :
  0 < count ->
  res_post (fun r => match r with
                     | Some c => exists bs, read loc count = Some bs /\ c = crc32_update crc bs
                     | None => read loc count = None
                     end) no_panic (crc32_volume_range read loc count crc).
Proof.
  intros Hc. unfold crc32_volume_range.
  apply (loop_spec _ (fun s => let '(l, n, c) := s in
    0 <= n <= count /\ l = loc + (count - n) /\
    exists k, k = count - n /\ (k = 0 /\ c = crc \/
    0 < k /\ exists bs, read loc k = Some bs /\ c = crc32_update crc bs))).
  - intros [[l n] c] (Hn & -> & k & Hk & Hkb). unfold turn_ok, crc32_range_body. cbn [fst snd].
    case_if.
    { cbn. assert (n = 0) as -> by lia. destruct Hkb as [[? _]|(_ & bs & Hbs & ->)]; [lia|].
      exists bs. split; [|done]. by replace count with k by lia. }
    set (step := if n <? 512 then n else 512). assert (0 < step <= n) by (unfold step; case_if; lia).
    destruct (read (loc + (count - n)) step) as [chunk|] eqn:Er; cbn [res_post].
    + pose proof (read_bound _ _ _ Er). split; [|cbn; lia]. rewrite wrap_small by lia. split; [lia|]. split; [lia|].
      exists (k + step). split; [lia|]. right. split; [lia|].
      destruct Hkb as [[-> ->]|(Hk0 & bs & Hbs & ->)].
      * exists chunk. split; [|done]. rewrite <- Er. f_equal; lia.
      * exists (bs ++ chunk). rewrite crc32_update_app. split; [|done].
        apply read_join; try done; [lia|lia|]. by rewrite Hk.
    + destruct (read loc count) as [bs|] eqn:E; [|done]. exfalso.
      assert (exists x, read (loc + (count - n)) n = Some x) as [x Hx].
      { destruct (decide (n = count)) as [->|Hne]; [exists bs; rewrite <- E; f_equal; lia|].
        replace count with ((count - n) + n) in E by lia.
        apply read_split in E as (b1 & b2 & _ & E & _); [|lia..]. by exists b2. }
      destruct (decide (step = n)) as [Heq|Hne]; [by rewrite Heq, Hx in Er|].
      replace n with (step + (n - step)) in Hx at 2 by lia.
      apply read_split in Hx as (b1 & b2 & Hx & _); [congruence|lia|lia].
  - split; [lia|]. split; [lia|]. exists 0. split; [lia|]. by left.
  - cbn. lia.
Qed.

(** The bytes the header's CRC covers: the first [HeaderSize] bytes of its block,
    of which [h] are the first 92, with the CRC field cleared. *)
Definition header_covered (h : list Z) (lba lb_size : Z) (covered : list Z) : Prop :=
  let zeroed := take 16 h ++ [0; 0; 0; 0] ++ drop 20 h in
  (h_header_size h = 92 /\ covered = zeroed) \/
  (92 < h_header_size h /\
   exists tail, read (lba * lb_size + 92) (h_header_size h - 92) = Some tail /\ covered = zeroed ++ tail).

(** What a verified header satisfies (UEFI 2.11, 5.3.2). *)
Record gpt_valid (h : list Z) (lba lb_size : Z) : Prop := {
  gv_signature : take 8 h = bytes "EFI PART";
  gv_revision : h_revision h = 0x00010000;
  gv_header_size : 92 <= h_header_size h <= lb_size;
  gv_my_lba : h_my_lba h = lba;
  gv_header_crc : exists covered, header_covered h lba lb_size covered /\
    NOT32 (crc32_update 0xffffffff covered) = h_crc32 h;
  (** 128 times a power of two *)
  gv_entry_size : exists n, 0 <= n /\ h_size_of_entry h = 128 * 2 ^ n;
  gv_array : let size := h_number_of_entries h * h_size_of_entry h in
    0 < size <= GPT_MAX_ARRAY_SIZE /\
    exists arr, read (h_partition_entry_lba h * lb_size) size = Some arr /\
                NOT32 (crc32_update 0xffffffff arr) = h_array_crc32 h;
  gv_usable : h_first_usable_lba h <= h_last_usable_lba h;
  (** every block that holds a byte of the array lies before the usable range, or
      after it and before the header; and on the medium, where its size is known *)
  gv_outside : forall block,
    h_partition_entry_lba h <= block ->
    block * lb_size < h_partition_entry_lba h * lb_size + h_number_of_entries h * h_size_of_entry h ->
    (block < h_first_usable_lba h \/ h_last_usable_lba h < block < lba) /\
    (sect_count <> UINT64_MAX -> (block + 1) * lb_size <= sect_count * 512);
}.

Lemma strncmp_eq n : forall s1 s2,
  strncmp s1 s2 n = Ok 0 -> Forall (fun c => c <> 0) (take n s2) -> take n s1 = take n s2.
Proof.
  unfold strncmp. induction n as [|n IH]; intros s1 s2 Hs Hz; [done|].
  destruct s1 as [|c1 s1], s2 as [|c2 s2]; try done. cbn in Hs, Hz |- *.
  apply Forall_cons in Hz as [Hc Hz]. revert Hs. destruct (c1 =? c2) eqn:E; bool_hyps; cbn [negb].
  - subst. case_if; [lia|]. intros Hs. f_equal. by apply IH.
  - case_if; done.
Qed.

Lemma signature_ok_spec h : signature_ok h = true -> take 8 h = bytes "EFI PART".
Proof.
  unfold signature_ok. destruct (strncmp _ _ 8) as [r|m| |] eqn:E; try done. intros Hr. bool_hyps. subst r.
  apply strncmp_eq in E; [done|]. vm_compute. repeat constructor; done.
Qed.

Ltac refute := let H := fresh in intros H; cbn in H; (discriminate H || (injection H; intros; discriminate)).

Lemma field_nonneg h off n : Forall is_byte h -> 0 <= field h off n.
Proof. intros Hb. apply le_val_bound. by apply Forall_take, Forall_drop. Qed.

(** [x & (x - 1)] is zero only for a power of two. *)
Lemma land_pred_pow2 x : 0 < x -> Z.land x (x - 1) = 0 -> x = 2 ^ Z.log2 x.
Proof.
  intros Hx Hl. destruct (Z.log2_spec x Hx) as [Hlo Hhi]. destruct (decide (x = 2 ^ Z.log2 x)) as [|Hne]; [done|].
  exfalso. assert (Z.log2 (x - 1) = Z.log2 x) as Heq by (apply Z.log2_unique; [apply Z.log2_nonneg|lia]).
  assert (0 < x - 1) by (pose proof (Z.pow_pos_nonneg 2 (Z.log2 x) ltac:(lia) (Z.log2_nonneg x)); lia).
  apply (f_equal (fun z => Z.testbit z (Z.log2 x))) in Hl.
  rewrite Z.land_spec, Z.bit_log2, <- Heq, Z.bit_log2, Z.bits_0 in Hl by lia. done.
Qed.

Lemma entry_size_pow2 h : Forall is_byte h -> sizeof_entry <= h_size_of_entry h ->
  Z.land (h_size_of_entry h) (u32 (h_size_of_entry h - 1)) = 0 ->
  exists n, 0 <= n /\ h_size_of_entry h = 128 * 2 ^ n.
Proof.
  unfold sizeof_entry. intros Hb Hs Hl.
  assert (h_size_of_entry h < 2 ^ 32).
  { unfold h_size_of_entry, field. pose proof (le_val_bound (take 4 (drop 84 h)) ltac:(by apply Forall_take, Forall_drop)) as [_ Hu].
    eapply Z.lt_le_trans; [exact Hu|]. transitivity (256 ^ 4); [|done].
    apply Z.pow_le_mono_r; [lia|]. rewrite length_take. lia. }
  rewrite wrap_small in Hl by lia. apply land_pred_pow2 in Hl; [|lia].
  assert (7 <= Z.log2 (h_size_of_entry h)) by (apply Z.log2_le_pow2; lia).
  exists (Z.log2 (h_size_of_entry h) - 7). split; [lia|].
  rewrite Hl at 1. change 128 with (2 ^ 7). rewrite <- Z.pow_add_r by lia. f_equal. lia.
Qed.

(** The tests on the array's block range, read as facts on each block. *)
Lemma array_block_outside h lba lb_size size block :
  0 < size ->
  (if h_partition_entry_lba h <? h_first_usable_lba h
   then h_first_usable_lba h <? h_partition_entry_lba h + (size + lb_size - 1) / lb_size
   else (h_partition_entry_lba h <=? h_last_usable_lba h) ||
        (lba <? h_partition_entry_lba h + (size + lb_size - 1) / lb_size)) = false ->
  negb (sect_count =? UINT64_MAX) &&
    (sect_count / (lb_size / 512) <? h_partition_entry_lba h + (size + lb_size - 1) / lb_size) = false ->
  lb_size ∈ [512; 2048; 4096] ->
  h_partition_entry_lba h <= block -> block * lb_size < h_partition_entry_lba h * lb_size + size ->
  (block < h_first_usable_lba h \/ h_last_usable_lba h < block < lba) /\
  (sect_count <> UINT64_MAX -> (block + 1) * lb_size <= sect_count * 512).
Proof.
  intros Hs Hgeo Hdev Hin H1 H2. set (a := h_partition_entry_lba h) in *.
  assert (exists m, lb_size = 512 * m /\ 0 < m) as (m & -> & Hm).
  { repeat (apply elem_of_cons in Hin as [->|Hin]; [first [by exists 1|by exists 4|by exists 8]|]). by apply not_elem_of_nil in Hin. }
  assert (block + 1 <= a + (size + 512 * m - 1) / (512 * m)) as Hend.
  { enough (block + 1 - a <= (size + 512 * m - 1) / (512 * m)) by lia. apply Z.div_le_lower_bound; nia. }
  split; [revert Hgeo; case_if; intros; bool_hyps; lia|].
  intros Hc. assert (a + (size + 512 * m - 1) / (512 * m) <= sect_count / (512 * m / 512)) as Hd.
  { apply andb_false_iff in Hdev as [Hd|Hd]; [|lia]. apply negb_false_iff in Hd. lia. }
  replace (512 * m / 512) with m in Hd by (rewrite Z.mul_comm, Z.div_mul; lia).
  pose proof (Z.mul_div_le sect_count m Hm).
  pose proof (Z.mul_le_mono_nonneg_l (block + 1) (sect_count / m) m ltac:(lia) ltac:(lia)). lia.
Qed.

Lemma gpt_verify_header_valid h lba lb_size budget budget' :
  Forall is_byte h -> 0 <= lba -> lb_size ∈ [512; 2048; 4096] ->
  gpt_verify_header read sect_count h lba lb_size budget = Ok (true, budget') -> gpt_valid h lba lb_size.
Proof.
  intros Hby Hlba Hlb. unfold gpt_verify_header.
  destruct (signature_ok h) eqn:Hs; cbn [negb]; [|refute]. apply signature_ok_spec in Hs.
  case_if; [refute|]. case_if; [refute|]. case_if; [refute|].
  destruct (CHECKED_MUL lba lb_size) as [hl|] eqn:Em; [apply checked_mul_Some in Em as [-> Hm]|refute].
  set (z := buf_write h 16 [0; 0; 0; 0]).
  set (first := if sizeof_header <? h_header_size h then _ else _).
  assert (res_post (fun r => forall c, r = Some c -> exists covered,
    header_covered h lba lb_size covered /\ c = crc32_update 0xffffffff covered) no_panic first) as Hfirst.
  { unfold first, header_covered, sizeof_header in *.
    case_if; [|cbn; intros c [= <-]; exists z; split; [left; split; [lia|done]|done]].
    destruct (CHECKED_ADD _ _) as [tl|] eqn:Ea; [apply checked_add_Some in Ea as [-> _]|done].
    eapply res_post_mono; [apply crc32_range_spec; lia| |done]. intros [c|]; [|done].
    intros (bs & Hbs & ->) c' [= <-]. exists (z ++ bs). rewrite crc32_update_app. split; [|done].
    right. split; [lia|]. by exists bs. }
  destruct first as [[crc|]|m| |]; cbn [rbind]; try refute; try done.
  destruct (Hfirst crc eq_refl) as (covered & Hcov & ->).
  case_if; [refute|]. case_if; [refute|].
  destruct (CHECKED_MUL (h_number_of_entries h) _) as [size|] eqn:Es; [apply checked_mul_Some in Es as [-> _]|refute].
  case_if; [refute|]. case_if; [refute|].
  destruct (CHECKED_ADD _ _) as [aend|] eqn:Ee; [apply checked_add_Some in Ee as [-> _]|refute].
  case_if; [refute|]. destruct (if h_partition_entry_lba h <? _ then _ else _) eqn:Hgeo; [refute|].
  destruct (negb _ && _) eqn:Hdev; [refute|].
  destruct (CHECKED_MUL (h_partition_entry_lba h) _) as [aloc|] eqn:El; [apply checked_mul_Some in El as [-> _]|refute].
  set (size := h_number_of_entries h * h_size_of_entry h) in *.
  assert (0 < size) as Hsize.
  { unfold size in *. pose proof (field_nonneg h 80 4 Hby). pose proof (field_nonneg h 84 4 Hby).
    unfold h_number_of_entries, h_size_of_entry in *. nia. }
  pose proof (crc32_range_spec (h_partition_entry_lba h * lb_size) size 0xffffffff Hsize) as Harr.
  destruct (crc32_volume_range _ _ _ _) as [[crc|]|m| |]; cbn [rbind] in *; try refute; try done.
  destruct Harr as (arr & Harr & ->). intros [= Hcrc _]. apply Z.eqb_eq in Hcrc. unfold sizeof_header in *. split; try done.
  - by exists covered.
  - apply entry_size_pow2; [done|done|lia].
  - split; [done|]. by exists arr.
  - intros block Hblk1 Hblk2.
    apply (array_block_outside h lba lb_size size); try done.
Qed.

Lemma gpt_try_valid lba guess budget h budget' :
  0 <= lba -> guess ∈ [512; 2048; 4096] ->
  gpt_try read sect_count lba guess budget = Ok (Some h, budget') ->
  read (lba * guess) sizeof_header = Some h /\ gpt_valid h lba guess /\ lba * guess < 2 ^ 64.
Proof.
  intros Hl Hg. unfold gpt_try.
  destruct (CHECKED_MUL _ _) as [loc|] eqn:Em; [apply checked_mul_Some in Em as [-> Hm]|done].
  destruct (read _ _) as [h'|] eqn:Er; [|done].
  destruct (gpt_verify_header _ _ _ _ _ _) as [[[] b]|m| |] eqn:Ev; cbn; try done.
  intros [= -> _]. split; [done|]. split; [|done].
  eapply gpt_verify_header_valid; [by eapply read_bytes|done|done|exact Ev].
Qed.

Lemma gpt_candidates_nonneg guess : Forall (fun lba => 0 <= lba) (gpt_candidates read sect_count guess).
Proof.
  unfold gpt_candidates.
  assert (Forall (fun lba => 0 <= lba) (match read guess sizeof_header with
     | Some h => if signature_ok h && (1 <? h_alternate_lba h) then [h_alternate_lba h] else [] | None => [] end)) as Hc.
  { destruct (read _ _); [|done]. case_if; [|done]. constructor; [lia|done]. }
  case_if; [|done]. case_if; [|done].
  destruct (match read guess sizeof_header with Some _ => _ | None => _ end) as [|c []].
  - constructor; [lia|done].
  - apply Forall_cons in Hc as [? _]. case_if; repeat constructor; lia.
  - constructor; [lia|done].
Qed.

Lemma gpt_try_all_valid lbas guess : forall budget h lba budget',
  Forall (fun lba => 0 <= lba) lbas -> guess ∈ [512; 2048; 4096] ->
  gpt_try_all read sect_count lbas guess budget = Ok (Some (h, lba), budget') ->
  read (lba * guess) sizeof_header = Some h /\ gpt_valid h lba guess /\ lba * guess < 2 ^ 64.
Proof.
  induction lbas as [|l lbas IH]; intros budget h lba budget' Hl Hg; cbn [gpt_try_all]; [done|].
  apply Forall_cons in Hl as [Hl0 Hl].
  destruct (gpt_try _ _ l guess budget) as [[[h'|] b]|m| |] eqn:Et; cbn [rbind]; try done.
  - intros [= -> -> _]. by eapply gpt_try_valid.
  - by apply IH.
Qed.

Lemma gpt_search_sizes_valid guesses : forall budget h lba lb,
  Forall (fun g => g ∈ [512; 2048; 4096]) guesses ->
  gpt_search_sizes read sect_count guesses budget = Ok (Some (h, lba, lb)) ->
  lb ∈ guesses /\ read (lba * lb) sizeof_header = Some h /\ gpt_valid h lba lb /\ lba * lb < 2 ^ 64.
Proof.
  induction guesses as [|g guesses IH]; intros budget h lba lb Hg; cbn [gpt_search_sizes]; [done|].
  apply Forall_cons in Hg as [Hg0 Hg].
  destruct (gpt_try _ _ 1 g budget) as [[[h'|] b]|m| |] eqn:Et; cbn [rbind]; try done.
  { intros [= -> <- ->]. split; [by left|]. by eapply gpt_try_valid. }
  destruct (gpt_try_all _ _ _ _ _) as [[[[h' l]|] b']|m| |] eqn:Ea; cbn [rbind]; try done.
  { intros [= -> -> ->]. split; [by left|]. eapply gpt_try_all_valid; [apply gpt_candidates_nonneg|done|exact Ea]. }
  intros (? & ?)%IH; [|done]. split; [by right|done].
Qed.

(** ** Termination: every call of the verifier returns *)
Lemma gpt_verify_header_total h lba lb budget :
  exists r, gpt_verify_header read sect_count h lba lb budget = Ok r.
Proof.
  assert (forall loc n c, exists r, crc32_volume_range read loc n c = Ok r) as Hc.
  { intros loc n c. destruct (decide (0 < n)) as [Hn|Hn].
    - destruct (res_post_total _ _ (crc32_range_spec loc n c Hn)) as (r & Hr & _). eauto.
    - eexists. unfold crc32_volume_range, loop. cbn [fst snd].
      assert (crc32_range_body read (loc, n, c) = Ok (inr (Some c))) as Hb
        by (unfold crc32_range_body; by rewrite (proj2 (Z.leb_le _ _)) by lia).
      replace (Z.to_pos (n + 1)) with 1%positive by lia. cbn [iter_pos]. by rewrite Hb. }
  unfold gpt_verify_header.
  repeat first [progress cbn [rbind] | eexists; reflexivity | case_if
    | match goal with |- context [match ?x with Some _ => _ | None => _ end] => destruct x end
    | match goal with |- context [crc32_volume_range read ?l ?n ?c] =>
        let r := fresh "r" in destruct (Hc l n c) as [r ->] end].
Qed.

Lemma gpt_try_total lba g b : exists r, gpt_try read sect_count lba g b = Ok r.
Proof.
  unfold gpt_try. destruct (CHECKED_MUL _ _); [|eauto]. destruct (read _ _) as [h|]; [|eauto].
  destruct (gpt_verify_header_total h lba g b) as [[ok b'] ->]. cbn. eauto.
Qed.

Lemma gpt_try_all_total lbas g : forall b, exists r, gpt_try_all read sect_count lbas g b = Ok r.
Proof.
  induction lbas as [|l lbas IH]; intros b; cbn [gpt_try_all]; [eauto|].
  destruct (gpt_try_total l g b) as [[[h|] b'] ->]; cbn; eauto.
Qed.

Lemma gpt_search_sizes_total gs : forall b, exists r, gpt_search_sizes read sect_count gs b = Ok r.
Proof.
  induction gs as [|g gs IH]; intros b; cbn [gpt_search_sizes]; [eauto|].
  destruct (gpt_try_total 1 g b) as [[[h|] b'] ->]; cbn; [eauto|].
  destruct (gpt_try_all_total (gpt_candidates read sect_count g) g b') as [[[[h l]|] b''] ->]; cbn; eauto.
Qed.

Lemma gpt_search_spec h lba lb :
  gpt_search read sect_count = Ok (Some (h, lba, lb)) ->
  lb ∈ [512; 2048; 4096] /\ read (lba * lb) sizeof_header = Some h /\ gpt_valid h lba lb.
Proof.
  unfold gpt_search. case_if; [done|]. intros Hs.
  destruct (gpt_search_sizes_valid [512; 2048; 4096] _ _ _ _ ltac:(rewrite Forall_forall; done) Hs)
    as (? & ? & ? & _). auto.
Qed.

(** *** The memos are transparent *)
Section Memo.
Variable volume : Z.

(** What the memos say about this volume is what the search says. *)
Definition memo_inv (m : gpt_memo) : Prop :=
  (memo_volume m = Some volume ->
   gpt_search read sect_count = Ok (Some (memo_header m, memo_lba m, memo_lb_size m))) /\
  (none_volume m = Some volume -> gpt_search read sect_count = Ok None).

Lemma gpt_locate_header_spec m :
  memo_inv m ->
  exists r m', gpt_locate_header read sect_count volume m = Ok (r, m') /\
    gpt_search read sect_count = Ok r /\ memo_inv m'.
Proof.
  intros Hinv. pose proof Hinv as [Hm Hn]. unfold gpt_locate_header, gpt_memo_hit.
  assert (forall r m', gpt_locate_header read sect_count volume m = Ok (r, m') -> True) as _ by done.
  set (hit := if negb _ then None else _).
  assert (hit = None \/ (hit = Some (memo_header m, memo_lba m, memo_lb_size m) /\ memo_volume m = Some volume)) as Hhit.
  { unfold hit. destruct (bool_decide (memo_volume m = Some volume)) eqn:E; cbn; [|by left].
    apply bool_decide_eq_true in E. destruct (CHECKED_MUL _ _); [|by left]. destruct (read _ _); [|by left].
    case_if; [by left|by right]. }
  destruct Hhit as [->|[-> Hv]]; [|eexists _, m; split; [reflexivity|]; split; [by apply Hm|done]].
  unfold gpt_memo_none_hit. destruct (bool_decide (none_volume m = Some volume)) eqn:En; cbn [negb].
  { apply bool_decide_eq_true in En. pose proof (Hn En) as Hs.
    destruct (bool_decide (read 512 sizeof_header = none_block m)); [by eexists _, _|].
    revert Hs. unfold gpt_search. destruct (gpt_protective_mbr read) eqn:Ep; cbn [negb]; [|by eexists _, _].
    intros Hs. rewrite Hs. cbn. eexists _, _. split; [reflexivity|]. split; [done|].
    split; cbn; unfold gpt_search; rewrite Ep; cbn [negb]; [|by intros _].
    intros Hmv. specialize (Hm Hmv). unfold gpt_search in Hm. rewrite Ep in Hm. exact Hm. }
  destruct (gpt_protective_mbr read) eqn:Ep; cbn [negb].
  2: { eexists _, _. split; [reflexivity|]. split; [|done]. unfold gpt_search. by rewrite Ep. }
  destruct (gpt_search_sizes_total [512; 2048; 4096] (GPT_MAX_ARRAY_SIZE * 2)) as [r Hr].
  assert (gpt_search read sect_count = Ok r) as Hs by (unfold gpt_search; by rewrite Ep).
  rewrite Hr. cbn [rbind]. destruct r as [[[h l] lb]|]; eexists _, _; (split; [reflexivity|]); (split; [done|]);
    split; cbn; try done.
Qed.
End Memo.
End Proofs.

(** ** Properties *)

(** [gpt_locate_header] always returns, and its memos do not change its
    answer: with memos that came from the same disk it returns what the search
    without memos returns, and leaves the memos in the same condition. *)
Theorem gpt_memo_transparent read sect_count volume m `{ByteReader read} :
  memo_inv read sect_count volume m ->
  exists r m', gpt_locate_header read sect_count volume m = Ok (r, m') /\
    gpt_search read sect_count = Ok r /\ memo_inv read sect_count volume m'.
Proof. intros Hm. by apply gpt_locate_header_spec. Qed.

Definition no_memo : gpt_memo := MkMemo None [] 0 0 None None.

#[export] Instance zero_disk_ok : ByteDisk (fun _ => 0) 65536.
Proof. split; [by intros|lia]. Qed.

Lemma gpt_memo_transparent_witness :
  exists r m', gpt_locate_header (disk_reader (fun _ => 0) 0 65536) 128 7 no_memo = Ok (r, m').
Proof.
  destruct (gpt_memo_transparent (disk_reader (fun _ => 0) 0 65536) 128 7 no_memo) as (r & m' & H & _).
  - split; discriminate.
  - exists r, m'. exact H.
Defined.

(** C35.  A header the search returns is a valid GPT header: it was read at the
    block it says it is in, of 512, 2048 or 4096 bytes, carries the signature and
    the revision, and its size is at least 92 bytes and at most a block; its CRC
    matches over all the bytes that size names, with the CRC field cleared; the
    entry size is 128 times a power of two, the array is not empty, at most 1 MiB
    and matches its CRC; every block that holds part of the array lies before the
    first usable block, or after the last usable one and before the header, and on
    the medium when its size is known. *)
Theorem gpt_search_valid read sect_count h lba lb `{ByteReader read} :
  gpt_search read sect_count = Ok (Some (h, lba, lb)) ->
  lb ∈ [512; 2048; 4096] /\ read (lba * lb) sizeof_header = Some h /\ gpt_valid read sect_count h lba lb.
Proof. apply gpt_search_spec. exact H. Qed.

(** A small disk with a GPT of one entry: the MBR, the header and the array. *)
Definition demo_entry : list Z :=
  replicate 16 7 ++ replicate 16 9 ++ le_bytes 8 4 ++ le_bytes 8 9 ++ replicate 80 0.

Definition demo_header_with (crc : Z) : list Z :=
  bytes "EFI PART" ++ le_bytes 4 0x10000 ++ le_bytes 4 92 ++ le_bytes 4 crc ++ le_bytes 4 0 ++
  le_bytes 8 1 ++ le_bytes 8 31 ++ le_bytes 8 3 ++ le_bytes 8 20 ++ replicate 16 5 ++
  le_bytes 8 2 ++ le_bytes 4 1 ++ le_bytes 4 128 ++
  le_bytes 4 (NOT32 (crc32_update 0xffffffff demo_entry)).

Definition demo_header : list Z :=
  demo_header_with (NOT32 (crc32_update 0xffffffff (demo_header_with 0))).

Definition demo_image : list Z :=
  Eval vm_compute in
  (replicate 450 0 ++ [0xee] ++ replicate 61 0) ++ (demo_header ++ replicate 420 0) ++ demo_entry.

Definition demo_gpt_disk (a : Z) : Z := nth (Z.to_nat a) demo_image 0.

Lemma nth_is_byte l i : forallb (fun b => (0 <=? b) && (b <? 256)) l = true -> is_byte (nth i l 0).
Proof.
  revert i. induction l as [|b l IH]; intros [|i]; cbn; intros H; bool_hyps; unfold is_byte; try lia; by apply IH.
Qed.

#[export] Instance demo_gpt_disk_ok : ByteDisk demo_gpt_disk 16384.
Proof. split; [|lia]. intros a. apply nth_is_byte. vm_compute. reflexivity. Qed.

Lemma gpt_search_valid_witness :
  gpt_valid (disk_reader demo_gpt_disk 0 16384) 32 demo_header 1 512.
Proof.
  apply (gpt_search_valid (disk_reader demo_gpt_disk 0 16384) 32 demo_header 1 512).
  vm_compute. reflexivity.
Defined.

Lemma gpt_get_part_total read sect_count volume rv m partition `{ByteReader read} :
  memo_inv read sect_count volume m ->
  exists r m', gpt_get_part read sect_count volume rv m partition = Ok (r, m') /\ memo_inv read sect_count volume m'.
Proof.
  intros Hinv. unfold gpt_get_part.
  destruct (gpt_locate_header_spec read sect_count volume m Hinv) as (r & m1 & -> & _ & Hinv1). cbn [rbind].
  destruct r as [[[h lba] lb]|]; [|by eexists _, _]. case_if; [by eexists _, _|]. case_if; [by eexists _, _|].
  destruct (CHECKED_MUL _ _); [|by eexists _, _]. destruct (CHECKED_ADD _ _); [|by eexists _, _].
  destruct (read _ _); by eexists _, _.
Qed.

Lemma gpt_get_part_spec read v volume m partition first count m' `{ByteReader read} :
  memo_inv read (sect_count v) volume m -> 0 <= partition ->
  gpt_get_part read (sect_count v) volume (partition_range_valid v) m partition = Ok (Part (first, count), m') ->
  memo_inv read (sect_count v) volume m' /\
  exists h lba lb entry,
    gpt_valid read (sect_count v) h lba lb /\ partition < h_number_of_entries h /\
    read (h_partition_entry_lba h * lb + partition * h_size_of_entry h) sizeof_entry = Some entry /\
    first = e_starting_lba entry * (lb / 512) /\
    count = (e_ending_lba entry - e_starting_lba entry + 1) * (lb / 512) /\
    0 < count /\ first + count < 2 ^ 64 /\
    (sect_count v <> UINT64_MAX -> first + count <= sect_count v).
Proof.
  intros Hinv Hp. unfold gpt_get_part.
  destruct (gpt_locate_header_spec read (sect_count v) volume m Hinv) as (r & m1 & -> & Hs & Hinv1).
  cbn [rbind]. destruct r as [[[h lba] lb]|]; [|done].
  destruct (gpt_search_spec read (sect_count v) h lba lb Hs) as (Hlb & _ & Hv).
  set (ec := if MAX_GPT_PARTITIONS <? _ then _ else _). assert (ec <= h_number_of_entries h) by (unfold ec; case_if; lia).
  case_if; [done|]. case_if; [done|].
  destruct (CHECKED_MUL _ _) as [eo|] eqn:Em; [apply checked_mul_Some in Em as [-> _]|done].
  destruct (CHECKED_ADD _ _) as [eo|] eqn:Ea; [apply checked_add_Some in Ea as [-> _]|done].
  destruct (read _ sizeof_entry) as [entry|] eqn:Er; [|done].
  unfold gpt_entry_part. case_if; [done|]. case_if; [done|].
  destruct (CHECKED_MUL (e_starting_lba entry) _) as [f|] eqn:Ef; [apply checked_mul_Some in Ef as [-> Hf]|done].
  case_if; [done|].
  destruct (CHECKED_MUL _ (lb / 512)) as [c|] eqn:Ec; [apply checked_mul_Some in Ec as [-> Hc]|done].
  destruct (partition_range_valid v _ _) eqn:Ev; cbn [negb]; [|done].
  intros [= <- <- <-]. split; [done|]. exists h, lba, lb, entry.
  unfold partition_range_valid in Ev. revert Ev. case_if; [done|].
  destruct (CHECKED_ADD _ _) as [e|] eqn:Ee; [apply checked_add_Some in Ee as [-> He]|done]. intros Ev.
  assert (0 < lb / 512).
  { repeat (apply elem_of_cons in Hlb as [->|Hlb]; [done|]). by apply not_elem_of_nil in Hlb. }
  split_and!; try done; try lia. nia.
Qed.

(** A partition [gpt_get_part] returns comes from an entry inside the
    verified array of a valid table, its extent is the entry's LBA range in
    512-byte sectors, not empty, without overflow, and inside the disk. *)
Theorem gpt_get_part_sound read v volume m partition first count m' `{ByteReader read} :
  memo_inv read (sect_count v) volume m -> 0 <= partition ->
  gpt_get_part read (sect_count v) volume (partition_range_valid v) m partition = Ok (Part (first, count), m') ->
  memo_inv read (sect_count v) volume m' /\
  exists h lba lb entry,
    gpt_valid read (sect_count v) h lba lb /\ partition < h_number_of_entries h /\
    read (h_partition_entry_lba h * lb + partition * h_size_of_entry h) sizeof_entry = Some entry /\
    first = e_starting_lba entry * (lb / 512) /\
    count = (e_ending_lba entry - e_starting_lba entry + 1) * (lb / 512) /\
    0 < count /\ first + count < 2 ^ 64 /\
    (sect_count v <> UINT64_MAX -> first + count <= sect_count v).
Proof. by apply gpt_get_part_spec. Qed.

Lemma gpt_get_part_sound_witness :
  exists m', gpt_get_part (disk_reader demo_gpt_disk 0 16384) 32 7
    (partition_range_valid (MkVol 1 512 false false 0 32 None false 0)) no_memo 0 = Ok (Part (4, 6), m') /\
  4 + 6 <= 32.
Proof.
  eexists. assert (gpt_get_part (disk_reader demo_gpt_disk 0 16384) (sect_count (MkVol 1 512 false false 0 32 None false 0)) 7
    (partition_range_valid (MkVol 1 512 false false 0 32 None false 0)) no_memo 0 = Ok (Part (4, 6), _)) as E
    by (vm_compute; reflexivity).
  destruct (gpt_get_part_sound (disk_reader demo_gpt_disk 0 16384) (MkVol 1 512 false false 0 32 None false 0) 7 no_memo 0
    4 6 _ ltac:(split; discriminate) ltac:(lia) E) as (_ & _ & _ & _ & _ & _ & _ & _ & _ & _ & _ & _ & Hle).
  split; [exact E|]. apply Hle. vm_compute. discriminate.
Defined.
