(* ===== verification/Mbr.v ===== *)
(** * MBR partition tables

    The MBR half of [common/lib/part.s2.c]: table validity, primary partitions,
    and logical partitions found by walking chains of extended boot records.
    The walk resumes from a memo kept on the disk's volume; the specification is
    the plain enumeration of every logical partition of the disk, and the
    refinement theorem says that the resumed walk looks one up in it. *)

From S2P Require Import Prelude CInt Libc Volume Gpt.

(** ** Entries *)
Record mbr_part := MkMbrPart { p_type : Z; p_first : Z; p_count : Z }.

Definition sizeof_mbr_entry : Z := 16.
Definition MAX_LOGICAL_PARTITIONS : Z := 256.
Definition MAX_EBRS : nat := 256.

Definition is_extended_type (t : Z) : bool := (t =? 0x0f) || (t =? 0x05) || (t =? 0x85).

(** The volume of an extended partition with its walk memo. *)
Record ext_part := MkExt {
  x_partition : Z; x_first_sect : Z; x_sect_count : Z;
  ebr_walk_index : Z; ebr_walk_depth : nat; ebr_walk_size : Z; ebr_walk_chain : list Z }.

(** What [ret] is filled with: partition number, first sector, sector count. *)
Record part_volume := MkPartVol { pv_partition : Z; pv_first_sect : Z; pv_sect_count : Z }.

Definition mbr_cut_to_disk (disk_sect_count first_sect sect_count : Z) : option Z :=
  if disk_sect_count =? UINT64_MAX then Some sect_count
  else if disk_sect_count <=? first_sect then None
  else Some (if disk_sect_count - first_sect <? sect_count then disk_sect_count - first_sect
             else sect_count).

Definition mbr_logical_entry_contained (extended_size ebr_sector : Z) (e : mbr_part) : bool :=
  match CHECKED_ADD ebr_sector (p_first e) with
  | None => false
  | Some rel_first =>
      match CHECKED_ADD rel_first (p_count e) with
      | None => false
      | Some rel_end => rel_end <=? extended_size
      end
  end.

Section Mbr.
(** The disk, and reads of a volume given by its first sector and its size. *)
Variable disk : volume.
Variable vread : Z -> Z -> Z -> Z -> option (list Z).

Definition disk_rd : Z -> Z -> option (list Z) := vread (first_sect disk) (sect_count disk).

Definition mbr_read_entry (rd : Z -> Z -> option (list Z)) (offset : Z) : option mbr_part :=
  match rd offset sizeof_mbr_entry with
  | None => None
  | Some e =>
      let mult := if is_optical disk then 1 else sector_size disk / 512 in
      Some (MkMbrPart (field e 4 1) (u64 (field e 8 4 * mult)) (u64 (field e 12 4 * mult)))
  end.

(** [0x1be + sizeof(struct mbr_entry) * i] *)
Definition slot_offset (i : nat) : Z := 0x1be + sizeof_mbr_entry * Z.of_nat i.

(** ** [is_valid_mbr] *)
Definition boot_flag_ok (off : Z) : bool :=
  match disk_rd off 1 with
  | Some b => (field b 0 1 =? 0x00) || (field b 0 1 =? 0x80)
  | None => false
  end.

Definition lacks_magic (off n : Z) (magic : list Z) : bool :=
  match disk_rd off n with
  | Some b => negb (bool_decide (b = magic))
  | None => false
  end.

Definition is_valid_mbr : bool :=
  match disk_rd 510 2 with
  | None => false
  | Some hint =>
      (field hint 0 2 =? 0xaa55) &&
      boot_flag_ok 446 && boot_flag_ok 462 && boot_flag_ok 478 && boot_flag_ok 494 &&
      lacks_magic 3 4 (bytes "NTFS") && lacks_magic 54 3 (bytes "FAT") &&
      lacks_magic 82 3 (bytes "FAT") && lacks_magic 3 5 (bytes "FAT32") &&
      lacks_magic 1080 2 (le_bytes 2 0xef53)
  end.

Definition mbr_get_id : Z :=
  if negb is_valid_mbr then 0
  else match disk_rd 0x1b8 4 with Some b => field b 0 4 | None => 0 end.

(** ** One EBR: its four slots

    [SlotsDone] when all four were read; [SlotsStop] when the function returns. *)
Inductive slots_result :=
| SlotsDone (accepted : Z) (link : option (Z * Z))
| SlotsStop (r : part_result (Z * Z)) (accepted : Z).

(** The volume of the entry whose number was asked for. *)
Definition logical_volume (ext_first ext_declared ebr_sector : Z) (e : mbr_part) : part_result (Z * Z) :=
  if (sect_count disk =? UINT64_MAX) && negb (mbr_logical_entry_contained ext_declared ebr_sector e)
  then NO_PARTITION
  else match CHECKED_ADD ebr_sector (p_first e) with
       | None => NO_PARTITION
       | Some rel_first =>
           match CHECKED_ADD ext_first rel_first with
           | None => NO_PARTITION
           | Some first_sect_64 =>
               match mbr_cut_to_disk (sect_count disk) first_sect_64 (p_count e) with
               | None => NO_PARTITION
               | Some count => Part (first_sect_64, count)
               end
           end
       end.

(** Which entries take a number: non-empty, not a link, and in the last two
    slots only if inside the extended partition and the extent of the link. *)
Definition counts (ext_declared ebr_sector ebr_size : Z) (i : nat) (e : mbr_part) : bool :=
  let contained := mbr_logical_entry_contained ext_declared ebr_sector e in
  let within_link := u64 (p_first e + p_count e) <=? ebr_size in
  negb ((2 <=? i)%nat && (negb contained || negb within_link)).

Fixpoint ebr_slots (ext_rd : Z -> Z -> option (list Z)) (ext_first ext_declared ebr_sector ebr_size partition : Z)
    (slots : list nat) (link : option (Z * Z)) (accepted : Z) : slots_result :=
  match slots with
  | [] => SlotsDone accepted link
  | i :: slots' =>
      match mbr_read_entry ext_rd (u64 (ebr_sector * 512 + slot_offset i)) with
      | None => SlotsStop END_OF_TABLE accepted
      | Some e =>
          if is_extended_type (p_type e) then
            let link := match link with
                        | Some l => Some l
                        | None => if negb (p_count e =? 0) then Some (p_first e, p_count e) else None
                        end in
            ebr_slots ext_rd ext_first ext_declared ebr_sector ebr_size partition slots' link accepted
          else if p_count e =? 0 then
            ebr_slots ext_rd ext_first ext_declared ebr_sector ebr_size partition slots' link accepted
          else if negb (counts ext_declared ebr_sector ebr_size i e) then
            ebr_slots ext_rd ext_first ext_declared ebr_sector ebr_size partition slots' link accepted
          else if accepted =? partition then
            SlotsStop (logical_volume ext_first ext_declared ebr_sector e) accepted
          else
            ebr_slots ext_rd ext_first ext_declared ebr_sector ebr_size partition slots' link (accepted + 1)
      end
  end.

(** ** The chain of one extended partition *)
Definition ext_rd (x : ext_part) : Z -> Z -> option (list Z) := vread (x_first_sect x) (x_sect_count x).

(** Is the sector an EBR: readable, with the signature? *)
Definition ebr_signed (rd : Z -> Z -> option (list Z)) (ebr_sector : Z) : bool :=
  match rd (u64 (ebr_sector * 512 + 510)) 2 with
  | None => false
  | Some s => field s 0 2 =? 0xaa55
  end.

(** The four assignments of the memo at the top of the loop. *)
Definition walk_memo (x : ext_part) (accepted : Z) (depth : nat) (ebr_sector ebr_size : Z) : res ext_part :=
  let! chain := wr (ebr_walk_chain x) depth ebr_sector in
  Ok (MkExt (x_partition x) (x_first_sect x) (x_sect_count x) accepted depth ebr_size chain).

(** The locals of the loop: the volume with its memo, [depth], [ebr_sector],
    [ebr_size], [*accepted]. *)
Record walk := MkWalk { w_ext : ext_part; w_depth : nat; w_sector : Z; w_size : Z; w_accepted : Z }.

Definition walk_result : Type := part_result (Z * Z) * Z * ext_part.

Definition walk_body (ext_declared partition : Z) (w : walk) : res (walk + walk_result) :=
  let '(MkWalk x depth ebr_sector ebr_size accepted) := w in
  let! x := walk_memo x accepted depth ebr_sector ebr_size in
  if negb (ebr_signed (ext_rd x) ebr_sector) then Ok (inr (END_OF_TABLE, accepted, x))
  else match ebr_slots (ext_rd x) (x_first_sect x) ext_declared ebr_sector ebr_size partition
               [0; 1; 2; 3]%nat None accepted with
  | SlotsStop r accepted => Ok (inr (r, accepted, x))
  | SlotsDone accepted None => Ok (inr (END_OF_TABLE, accepted, x))
  | SlotsDone accepted (Some (link_first_sect, link_sect_count)) =>
      if bool_decide (link_first_sect ∈ take (S depth) (ebr_walk_chain x)) then
        Ok (inr (END_OF_TABLE, accepted, x))
      else if (S depth =? MAX_EBRS)%nat then Ok (inr (END_OF_TABLE, accepted, x))
      else if x_sect_count x <=? link_first_sect then Ok (inr (END_OF_TABLE, accepted, x))
      else Ok (inl (MkWalk x (S depth) link_first_sect link_sect_count accepted))
  end.

Definition mbr_get_logical_part (x : ext_part) (partition : Z) : res walk_result :=
  let depth := ebr_walk_depth x in
  let! ebr_sector := rd (ebr_walk_chain x) depth in
  match mbr_read_entry disk_rd (slot_offset (Z.to_nat (x_partition x - 1))) with
  | None => Ok (END_OF_TABLE, ebr_walk_index x, x)
  | Some extended_entry =>
      loop (walk_body (p_count extended_entry) partition)
        (fun w => Z.of_nat (MAX_EBRS - w_depth w))
        (MkWalk x depth ebr_sector (ebr_walk_size x) (ebr_walk_index x))
  end.

(** ** [mbr_get_part] *)

(** The extended partition of slot [i], if there is one on the disk; its walk
    starts with [accepted] logical partitions numbered. *)
Definition open_extended (i : nat) (accepted : Z) : option ext_part :=
  match mbr_read_entry disk_rd (slot_offset i) with
  | None => None
  | Some e =>
      if negb (is_extended_type (p_type e)) then None
      else if p_count e =? 0 then None
      else match mbr_cut_to_disk (sect_count disk) (p_first e) (p_count e) with
           | None => None
           | Some count =>
               Some (MkExt (Z.of_nat i + 1) (p_first e) count accepted 0 (p_count e) (replicate MAX_EBRS 0))
           end
  end.

(** The loop over the slots of the table from [first_slot]. *)
Fixpoint walk_slots (slots : list nat) (partition accepted : Z) (memo : option ext_part)
    : res (part_result (Z * Z) * option ext_part) :=
  match slots with
  | [] => Ok (END_OF_TABLE, memo)
  | i :: slots' =>
      match open_extended i accepted with
      | None => walk_slots slots' partition accepted memo
      | Some x =>
          let! (st, accepted, x) := mbr_get_logical_part x partition in
          match st with
          | END_OF_TABLE => walk_slots slots' partition accepted (Some x)
          | _ => Ok (st, Some x)
          end
      end
  end.

Definition table_slots : list nat := [0; 1; 2; 3]%nat.

Definition mbr_get_logical (memo : option ext_part) (partition : Z)
    : res (part_result (Z * Z) * option ext_part) :=
  match memo with
  | Some x =>
      if ebr_walk_index x <=? partition then
        let! (st, accepted, x) := mbr_get_logical_part x partition in
        match st with
        | END_OF_TABLE => walk_slots (drop (Z.to_nat (x_partition x)) table_slots) partition accepted (Some x)
        | _ => Ok (st, Some x)
        end
      else walk_slots table_slots partition 0 memo
  | None => walk_slots table_slots partition 0 memo
  end.

Definition mbr_primary (partition : Z) : part_result (Z * Z) :=
  match mbr_read_entry disk_rd (slot_offset (Z.to_nat partition)) with
  | None => END_OF_TABLE
  | Some e =>
      if p_type e =? 0 then NO_PARTITION
      else if is_extended_type (p_type e) then NO_PARTITION
      else if p_count e =? 0 then NO_PARTITION
      else match mbr_cut_to_disk (sect_count disk) (p_first e) (p_count e) with
           | None => NO_PARTITION
           | Some count => Part (p_first e, count)
           end
  end.

(** Number the result: [partition + 1] here, [(partition - 4) + 4 + 1] for a
    logical partition. *)
Definition numbered (partition : Z) (r : part_result (Z * Z)) : part_result part_volume :=
  match r with
  | Part (first, count) => Part (MkPartVol (partition + 1) first count)
  | NO_PARTITION => NO_PARTITION
  | INVALID_TABLE => INVALID_TABLE
  | END_OF_TABLE => END_OF_TABLE
  end.

Definition mbr_get_part (memo : option ext_part) (partition : Z)
    : res (part_result part_volume * option ext_part) :=
  if negb is_valid_mbr then Ok (INVALID_TABLE, memo)
  else if 3 <? partition then
    if MAX_LOGICAL_PARTITIONS <=? partition - 4 then Ok (END_OF_TABLE, memo)
    else
      let! (r, memo) := mbr_get_logical memo (partition - 4) in
      Ok (numbered partition r, memo)
  else Ok (numbered partition (mbr_primary partition), memo).

(** ** [part_get]: a GPT if there is one, else an MBR *)
Definition part_get (volume_addr : Z) (gm : gpt_memo) (memo : option ext_part) (partition : Z)
    : res (part_result part_volume * gpt_memo * option ext_part) :=
  if partition <? 0 then Ok (NO_PARTITION, gm, memo)
  else
    let! (r, gm) := gpt_get_part disk_rd (sect_count disk) volume_addr (partition_range_valid disk) gm partition in
    match r with
    | INVALID_TABLE =>
        let! (r, memo) := mbr_get_part memo partition in
        Ok (r, gm, memo)
    | _ => Ok (numbered partition r, gm, memo)
    end.
End Mbr.

(** ** The volume index *)
Record vol_id := MkVolId {
  vi_guid : option (list Z); vi_part_guid : option (list Z); vi_fslabel : option (list Z);
  vi_index : Z; vi_optical : bool; vi_partition : Z; vi_drive : Z }.

(** [valid && memcmp(...) == 0] *)
Definition opt_is (o : option (list Z)) (g : list Z) : bool :=
  match o with Some g' => bool_decide (take 16 g' = take 16 g) | None => false end.

Fixpoint find_index (p : vol_id -> bool) (idx : list vol_id) : option vol_id :=
  match idx with
  | [] => None
  | v :: idx' => if p v then Some v else find_index p idx'
  end.

Definition volume_get_by_guid (idx : list vol_id) (g : list Z) : option vol_id :=
  find_index (fun v => opt_is (vi_guid v) g || opt_is (vi_part_guid v) g) idx.

Definition volume_get_by_fslabel (idx : list vol_id) (label : list Z) : option vol_id :=
  find_index (fun v => match vi_fslabel v with
                       | Some l => match strcasecmp l label with Ok r => r =? 0 | _ => false end
                       | None => false
                       end) idx.

Definition volume_get_by_coord (idx : list vol_id) (optical : bool) (drive partition : Z) : option vol_id :=
  find_index (fun v => (vi_index v =? drive) && Bool.eqb (vi_optical v) optical && (vi_partition v =? partition)) idx.

Definition volume_get_by_bios_drive (idx : list vol_id) (drive : Z) : option vol_id :=
  find_index (fun v => vi_drive v =? drive) idx.

(** ** Specification: the enumeration of the logical partitions *)
Section Spec.
Variable disk : volume.
Variable vread : Z -> Z -> Z -> Z -> option (list Z).

(** The numbered entries of one EBR, in slot order, and its link; no link is
    known ([None]) if a slot could not be read. *)
Fixpoint slot_list (rd : Z -> Z -> option (list Z)) (declared sector size : Z)
    (slots : list nat) (link : option (Z * Z)) : list mbr_part * option (option (Z * Z)) :=
  match slots with
  | [] => ([], Some link)
  | i :: slots' =>
      match mbr_read_entry disk rd (u64 (sector * 512 + slot_offset i)) with
      | None => ([], None)
      | Some e =>
          if is_extended_type (p_type e) then
            slot_list rd declared sector size slots'
              (match link with
               | Some l => Some l
               | None => if negb (p_count e =? 0) then Some (p_first e, p_count e) else None
               end)
          else if (p_count e =? 0) || negb (counts declared sector size i e) then
            slot_list rd declared sector size slots' link
          else
            let '(es, l) := slot_list rd declared sector size slots' link in (e :: es, l)
      end
  end.

(** The logical partitions of the chain from one EBR on: at most [fuel] more
    links, none to a sector of [visited] or outside the extended partition. *)
Fixpoint chain_list (first count declared : Z) (fuel : nat) (visited : list Z) (sector size : Z)
    : list (part_result (Z * Z)) :=
  if negb (ebr_signed (vread first count) sector) then []
  else
    let '(es, link) := slot_list (vread first count) declared sector size table_slots None in
    map (logical_volume disk first declared sector) es ++
    match fuel, link with
    | S fuel', Some (Some (l, l_size)) =>
        if bool_decide (l ∈ visited) || (count <=? l) then []
        else chain_list first count declared fuel' (visited ++ [l]) l l_size
    | _, _ => []
    end.

Definition slot_chain (i : nat) : list (part_result (Z * Z)) :=
  match open_extended disk vread i 0 with
  | None => []
  | Some x => chain_list (x_first_sect x) (x_sect_count x) (ebr_walk_size x) (MAX_EBRS - 1) [0] 0 (ebr_walk_size x)
  end.

Definition chains (slots : list nat) : list (part_result (Z * Z)) := flat_map slot_chain slots.

(** Every logical partition of the disk, in the order of their numbers. *)
Definition logical_table : list (part_result (Z * Z)) := chains table_slots.

Definition entry_at (t : list (part_result (Z * Z))) (n : Z) : part_result (Z * Z) :=
  default END_OF_TABLE (t !! Z.to_nat n).

Definition mbr_spec (partition : Z) : part_result part_volume :=
  if negb (is_valid_mbr disk vread) then INVALID_TABLE
  else if 3 <? partition then
    if MAX_LOGICAL_PARTITIONS <=? partition - 4 then END_OF_TABLE
    else numbered partition (entry_at logical_table (partition - 4))
  else numbered partition (mbr_primary disk vread partition).

(** *** One EBR *)
Lemma ebr_slots_spec rd first declared sector size partition slots : forall link accepted,
  accepted <= partition ->
  ebr_slots disk rd first declared sector size partition slots link accepted =
  let '(es, l) := slot_list rd declared sector size slots link in
  match es !! Z.to_nat (partition - accepted) with
  | Some e => SlotsStop (logical_volume disk first declared sector e) partition
  | None =>
      match l with
      | None => SlotsStop END_OF_TABLE (accepted + Z.of_nat (length es))
      | Some l => SlotsDone (accepted + Z.of_nat (length es)) l
      end
  end.
Proof.
  induction slots as [|i slots IH]; intros link accepted Ha; cbn [ebr_slots slot_list].
  { cbn. by rewrite Z.add_0_r. }
  destruct (mbr_read_entry disk rd _) as [e|]; [|cbn; by rewrite Z.add_0_r].
  destruct (is_extended_type _); [by apply IH|].
  destruct (p_count e =? 0); cbn [orb]; [by apply IH|].
  destruct (negb (counts _ _ _ _ _)); [by apply IH|].
  destruct (slot_list rd declared sector size slots link) as [es l] eqn:Es.
  case_if; [subst; by rewrite Z.sub_diag|].
  rewrite IH by lia. rewrite Es.
  replace (Z.to_nat (partition - accepted)) with (S (Z.to_nat (partition - (accepted + 1)))) by lia.
  cbn. destruct (es !! _); [done|]. destruct l; f_equal; lia.
Qed.

Lemma logical_volume_not_end first declared sector e : logical_volume disk first declared sector e <> END_OF_TABLE.
Proof.
  unfold logical_volume. case_if; [done|].
  destruct (CHECKED_ADD _ _); [|done]. destruct (CHECKED_ADD _ _); [|done]. by destruct (mbr_cut_to_disk _ _ _).
Qed.

Lemma chain_list_not_end first count declared fuel : forall visited sector size,
  Forall (fun r => r <> END_OF_TABLE) (chain_list first count declared fuel visited sector size).
Proof.
  induction fuel as [|fuel IH]; intros visited sector size; cbn [chain_list];
    (case_if; [done|]); destruct (slot_list _ _ _ _ _ _) as [es l]; apply Forall_app; split.
  1,3: apply Forall_map, Forall_true; intros e; apply logical_volume_not_end.
  - done.
  - destruct l as [[[l ls]|]|]; [|done..]. case_if; [done|]. apply IH.
Qed.

(** *** One chain *)
Lemma chain_list_eq first count declared fuel visited sector size :
  chain_list first count declared fuel visited sector size =
  if negb (ebr_signed (vread first count) sector) then []
  else
    let '(es, link) := slot_list (vread first count) declared sector size table_slots None in
    map (logical_volume disk first declared sector) es ++
    match fuel, link with
    | S fuel', Some (Some (l, l_size)) =>
        if bool_decide (l ∈ visited) || (count <=? l) then []
        else chain_list first count declared fuel' (visited ++ [l]) l l_size
    | _, _ => []
    end.
Proof. by destruct fuel. Qed.

Section Walk.
(** The extended partition of slot [i], whose chain numbers on from [a0]. *)
Variable i : nat.
Variable a0 : Z.
Variable x0 : ext_part.
Hypothesis Hopen : open_extended disk vread i 0 = Some x0.

Let rest (fuel : nat) (visited : list Z) (sector size : Z) : list (part_result (Z * Z)) :=
  chain_list (x_first_sect x0) (x_sect_count x0) (ebr_walk_size x0) fuel visited sector size.

Record same_ext (x : ext_part) : Prop := {
  same_partition : x_partition x = Z.of_nat i + 1;
  same_first : x_first_sect x = x_first_sect x0;
  same_count : x_sect_count x = x_sect_count x0;
  same_chain : length (ebr_walk_chain x) = MAX_EBRS;
}.

(** The memo of [x] pairs an EBR of the chain with the count of the logical
    partitions before it. *)
Definition memo_at (x : ext_part) (depth : nat) (visited : list Z) (sector size accepted : Z) : Prop :=
  same_ext x /\ (depth < MAX_EBRS)%nat /\
  exists pre, slot_chain i = pre ++ rest (MAX_EBRS - 1 - depth) visited sector size /\
    accepted = a0 + Z.of_nat (length pre).

Definition memo_ok (x : ext_part) : Prop :=
  exists sector, ebr_walk_chain x !! ebr_walk_depth x = Some sector /\
    memo_at x (ebr_walk_depth x) (take (S (ebr_walk_depth x)) (ebr_walk_chain x)) sector
      (ebr_walk_size x) (ebr_walk_index x).

Definition walk_inv (partition : Z) (w : walk) : Prop :=
  w_accepted w <= partition /\
  memo_at (w_ext w) (w_depth w) (take (w_depth w) (ebr_walk_chain (w_ext w)) ++ [w_sector w])
    (w_sector w) (w_size w) (w_accepted w).

Definition walk_post (partition : Z) (r : walk_result) : Prop :=
  let '(st, accepted, x) := r in
  st = entry_at (slot_chain i) (partition - a0) /\
  (st = END_OF_TABLE -> accepted = a0 + Z.of_nat (length (slot_chain i)) /\ accepted <= partition) /\
  memo_ok x.

Lemma slot_chain_open : slot_chain i = rest (MAX_EBRS - 1) [0] 0 (ebr_walk_size x0).
Proof. unfold slot_chain. by rewrite Hopen. Qed.

Lemma entry_at_app pre l n k :
  k = Z.of_nat (length pre) -> k <= n -> entry_at (pre ++ l) n = entry_at l (n - k).
Proof.
  intros -> Hn. unfold entry_at. rewrite lookup_app_r by lia. do 2 f_equal. lia.
Qed.

Lemma walk_memo_ok x depth sector size accepted :
  memo_at x depth (take depth (ebr_walk_chain x) ++ [sector]) sector size accepted ->
  exists x', walk_memo x accepted depth sector size = Ok x' /\ memo_ok x' /\ same_ext x' /\
    take (S depth) (ebr_walk_chain x') = take depth (ebr_walk_chain x) ++ [sector].
Proof.
  intros ([Hp Hf Hc Hl] & Hd & Hpre). unfold walk_memo. rewrite wr_lt by lia. cbn [rbind].
  assert (take (S depth) (<[depth := sector]> (ebr_walk_chain x)) = take depth (ebr_walk_chain x) ++ [sector]) as Ht.
  { rewrite (take_S_r _ _ sector) by (apply list_lookup_insert_eq; lia). by rewrite take_insert_ge by lia. }
  eexists. split; [reflexivity|].
  assert (same_ext (MkExt (x_partition x) (x_first_sect x) (x_sect_count x) accepted depth size
    (<[depth := sector]> (ebr_walk_chain x)))) as Hs by (split; cbn; try done; by rewrite length_insert).
  split_and!; [|done|done].
  exists sector. cbn. rewrite list_lookup_insert_eq by lia. split; [done|]. rewrite Ht. by split_and!.
Qed.

Lemma walk_turn partition w :
  walk_inv partition w ->
  turn_ok (walk_body disk vread (ebr_walk_size x0) partition) (walk_inv partition)
    (fun w => Z.of_nat (MAX_EBRS - w_depth w)) (walk_post partition) no_panic w.
Proof.
  destruct w as [x depth sector size accepted]. intros [Ha Hm]. cbn in Ha, Hm. unfold turn_ok, walk_body.
  destruct (walk_memo_ok _ _ _ _ _ Hm) as (x' & -> & Hok & Hs' & Hv). destruct Hm as (_ & Hd & pre & Hpre & Hacc).
  pose proof Hs' as [_ Hf Hc Hl]. cbn [rbind]. rewrite <- Hv in *.
  (* what the rest of the chain holds decides the result *)
  assert (forall l st acc, rest (MAX_EBRS - 1 - depth) (take (S depth) (ebr_walk_chain x')) sector size = l ->
    st = entry_at l (partition - accepted) ->
    (st = END_OF_TABLE -> acc = accepted + Z.of_nat (length l) /\ acc <= partition) ->
    walk_post partition (st, acc, x')) as Hend.
  { intros l st acc Hl' -> He. rewrite Hl' in Hpre. unfold walk_post. rewrite Hpre, length_app.
    rewrite (entry_at_app _ _ _ (Z.of_nat (length pre))) by lia.
    replace (partition - a0 - Z.of_nat (length pre)) with (partition - accepted) by lia.
    split_and!; [done| |done]. intros E. destruct (He E). lia. }
  unfold rest in Hend, Hpre. rewrite chain_list_eq in Hend, Hpre. unfold ext_rd. rewrite Hf, Hc.
  destruct (negb _); [cbn; eapply Hend; [reflexivity|done|cbn; lia]|].
  rewrite ebr_slots_spec by done. fold table_slots.
  destruct (slot_list _ _ _ _ _ _) as [es link].
  destruct (es !! Z.to_nat (partition - accepted)) as [e|] eqn:He.
  { cbn. eapply Hend; [reflexivity| |intros Hx; by apply logical_volume_not_end in Hx].
    unfold entry_at. rewrite lookup_app_l by (rewrite length_map; by eapply lookup_lt_Some).
    by rewrite list_lookup_fmap, He. }
  apply lookup_ge_None in He.
  set (tl := match (MAX_EBRS - 1 - depth)%nat with O => _ | S _ => _ end) in *.
  (* no further EBR: the chain ends here *)
  assert (tl = [] -> walk_post partition (END_OF_TABLE, accepted + Z.of_nat (length es), x')) as Hlast.
  { intros ->. eapply Hend; [reflexivity| |].
    - unfold entry_at. by rewrite lookup_ge_None_2 by (rewrite app_nil_r, length_map; lia).
    - rewrite app_nil_r, length_map. lia. }
  destruct link as [[[l l_size]|]|]; cbn [res_post]; [|apply Hlast; unfold tl; by destruct (_ - _)%nat..].
  case_if; [cbn; apply Hlast; unfold tl; by destruct (_ - _)%nat|].
  case_if; [cbn; apply Hlast; unfold tl; by replace (MAX_EBRS - 1 - depth)%nat with 0%nat by lia|].
  case_if; [cbn; apply Hlast; unfold tl; by destruct (_ - _)%nat|].
  cbn [res_post w_depth]. unfold tl in Hpre. clear Hlast Hend tl.
  destruct (MAX_EBRS - 1 - depth)%nat as [|fuel] eqn:Hfuel; [lia|].
  cbn [orb] in Hpre.
  split; [|lia]. split; cbn; [lia|]. split_and!; [done|lia|].
  exists (pre ++ map (logical_volume disk (x_first_sect x0) (ebr_walk_size x0) sector) es).
  replace (MAX_EBRS - 1 - S depth)%nat with fuel by lia.
  rewrite <- app_assoc, length_app, length_map. split; [done|lia].
Qed.

Lemma mbr_get_logical_part_spec x partition :
  memo_ok x -> ebr_walk_index x <= partition ->
  res_post (walk_post partition) no_panic (mbr_get_logical_part disk vread x partition).
Proof.
  intros (sector & Hsec & Hm) Hle. unfold mbr_get_logical_part. rewrite (rd_lookup _ _ _ Hsec). cbn [rbind].
  pose proof Hm as ([Hp _ _ _] & _). rewrite Hp. replace (Z.to_nat (Z.of_nat i + 1 - 1)) with i by lia.
  assert (exists e, mbr_read_entry disk (disk_rd disk vread) (slot_offset i) = Some e /\ p_count e = ebr_walk_size x0)
    as (e & -> & ->).
  { pose proof Hopen as Ho. revert Ho. unfold open_extended. destruct (mbr_read_entry _ _ _) as [e|]; [|done].
    case_if; [done|]. case_if; [done|]. destruct (mbr_cut_to_disk _ _ _); [|done].
    intros E. injection E as E. exists e. split; [done|]. by rewrite <- E. }
  apply (loop_spec _ (walk_inv partition)); [apply walk_turn| |cbn; lia].
  split; [done|]. cbn. by rewrite <- (take_S_r _ _ _ Hsec).
Qed.
End Walk.

(** *** The disk: every chain in slot order *)
Definition ebr_memo_ok (memo : option ext_part) : Prop :=
  match memo with
  | None => True
  | Some x =>
      exists i x0, table_slots !! i = Some i /\ open_extended disk vread i 0 = Some x0 /\
        memo_ok i (Z.of_nat (length (chains (take i table_slots)))) x0 x
  end.

Lemma open_extended_Some i accepted x :
  open_extended disk vread i accepted = Some x ->
  ebr_walk_index x = accepted /\
  exists x0, open_extended disk vread i 0 = Some x0 /\ memo_ok i accepted x0 x.
Proof.
  intros Ho. assert (exists x0, open_extended disk vread i 0 = Some x0 /\
    x = MkExt (x_partition x0) (x_first_sect x0) (x_sect_count x0) accepted 0 (ebr_walk_size x0) (ebr_walk_chain x0) /\
    x_partition x0 = Z.of_nat i + 1 /\ ebr_walk_chain x0 = replicate MAX_EBRS 0) as (x0 & Ho' & -> & Hp & Hc).
  { revert Ho. unfold open_extended. destruct (mbr_read_entry _ _ _) as [e|]; [|done].
    case_if; [done|]. case_if; [done|]. destruct (mbr_cut_to_disk _ _ _); [|done].
    intros [= <-]. by eexists. }
  split; [done|]. exists x0. split; [done|]. exists 0. cbn [ebr_walk_chain ebr_walk_depth]. rewrite Hc. split; [done|].
  split; [by split|]. split; [unfold MAX_EBRS; cbn; lia|]. exists []. split; [|cbn; lia].
  cbn [app]. by rewrite (slot_chain_open i x0 Ho').
Qed.

Lemma open_extended_None i accepted :
  open_extended disk vread i accepted = None -> slot_chain i = [].
Proof.
  unfold slot_chain, open_extended. destruct (mbr_read_entry _ _ _) as [e|]; [|done].
  case_if; [done|]. case_if; [done|]. by destruct (mbr_cut_to_disk _ _ _).
Qed.

Lemma table_slots_lookup pre i slots : table_slots = pre ++ i :: slots -> i = length pre /\ table_slots !! i = Some i.
Proof.
  intros H. assert (table_slots !! length pre = Some i) as Hi by (rewrite H; by apply list_lookup_middle).
  unfold table_slots in *. destruct (length pre) as [|[|[|[|n]]]]; cbn in Hi; try done; injection Hi as <-; done.
Qed.

Lemma chains_app l l' : chains (l ++ l') = chains l ++ chains l'.
Proof. apply flat_map_app. Qed.

(** The slot's chain decided, or the search goes on past it. *)
Lemma table_at pre i slots partition :
  table_slots = pre ++ i :: slots -> Z.of_nat (length (chains pre)) <= partition ->
  let r := entry_at (slot_chain i) (partition - Z.of_nat (length (chains pre))) in
  r <> END_OF_TABLE -> entry_at logical_table partition = r.
Proof.
  intros Ht Hle r Hr. unfold logical_table. rewrite Ht, chains_app. rewrite (entry_at_app _ _ _ _ eq_refl Hle).
  unfold chains at 1. cbn [flat_map]. unfold r, entry_at in *.
  destruct (slot_chain i !! _) as [y|] eqn:Hy; [|done]. by rewrite (lookup_app_l_Some _ _ _ _ Hy).
Qed.

Lemma walk_slots_spec partition slots : forall pre accepted memo,
  table_slots = pre ++ slots -> accepted = Z.of_nat (length (chains pre)) -> accepted <= partition ->
  ebr_memo_ok memo ->
  res_post (fun '(st, memo') => st = entry_at logical_table partition /\ ebr_memo_ok memo') no_panic
    (walk_slots disk vread slots partition accepted memo).
Proof.
  induction slots as [|i slots IH]; intros pre accepted memo Ht Ha Hle Hm; cbn [walk_slots].
  { cbn [res_post]. split; [|done]. unfold logical_table. rewrite Ht, app_nil_r.
    unfold entry_at. by rewrite lookup_ge_None_2 by lia. }
  destruct (table_slots_lookup _ _ _ Ht) as [Hi Hii].
  destruct (open_extended disk vread i accepted) as [x|] eqn:Ho; last first.
  { apply (IH (pre ++ [i])); [by rewrite <- app_assoc| |done|done].
    rewrite chains_app. cbn. rewrite (open_extended_None _ _ Ho). cbn. by rewrite app_nil_r. }
  destruct (open_extended_Some _ _ _ Ho) as (Hidx & x0 & Ho0 & Hmo).
  eapply res_post_bind; [apply (mbr_get_logical_part_spec i accepted x0 Ho0); [done|lia]|].
  intros [[st acc] x'] (Hst & Hend & Hmo').
  assert (ebr_memo_ok (Some x')) as Hm'.
  { exists i, x0. split_and!; [done|done|]. replace (take i table_slots) with pre; [by rewrite <- Ha|].
    rewrite Ht. symmetry. apply take_app_length'. done. }
  rewrite Ha in Hst. pose proof (table_at _ _ _ partition Ht ltac:(lia)) as Hat. rewrite <- Hst in Hat. cbn zeta in Hat.
  destruct st; try (cbn; split; [symmetry; by apply Hat|done]).
  destruct (Hend eq_refl) as [-> Hle']. apply (IH (pre ++ [i])); [by rewrite <- app_assoc| |done|done].
  rewrite chains_app, length_app. cbn. rewrite app_nil_r. lia.
Qed.

Lemma mbr_get_logical_spec memo partition :
  ebr_memo_ok memo -> 0 <= partition ->
  res_post (fun '(st, memo') => st = entry_at logical_table partition /\ ebr_memo_ok memo') no_panic
    (mbr_get_logical disk vread memo partition).
Proof.
  intros Hm Hp. unfold mbr_get_logical.
  destruct memo as [x|]; [|by apply (walk_slots_spec partition table_slots [])].
  case_if; [|by apply (walk_slots_spec partition table_slots [])].
  destruct Hm as (i & x0 & Hii & Ho & Hmo).
  eapply res_post_bind; [eapply (mbr_get_logical_part_spec i (Z.of_nat (length (chains (take i table_slots)))) x0 Ho); done|].
  intros [[st acc] x'] (Hst & Hend & Hmo').
  assert (ebr_memo_ok (Some x')) as Hm' by (exists i, x0; done).
  assert (table_slots = take i table_slots ++ i :: drop (S i) table_slots) as Ht by (symmetry; by apply take_drop_middle).
  assert (x_partition x' = Z.of_nat i + 1) as Hpx by (destruct Hmo' as (? & _ & [? _ _ _] & _); done).
  assert (Z.of_nat (length (chains (take i table_slots))) <= partition) as Hbase
    by (destruct Hmo as (? & _ & _ & _ & ? & _ & ?); lia).
  pose proof (table_at _ _ _ partition Ht Hbase) as Hat. rewrite <- Hst in Hat. cbn zeta in Hat.
  destruct st; try (cbn; split; [symmetry; by apply Hat|done]).
  destruct (Hend eq_refl) as [-> Hle']. rewrite Hpx. replace (Z.to_nat (Z.of_nat i + 1)) with (S i) by lia.
  apply (walk_slots_spec partition _ (take i table_slots ++ [i])); [by rewrite <- app_assoc| |done|done].
  rewrite chains_app, length_app. cbn. rewrite app_nil_r. lia.
Qed.

Lemma mbr_get_part_spec memo partition :
  ebr_memo_ok memo ->
  exists memo', mbr_get_part disk vread memo partition = Ok (mbr_spec partition, memo') /\ ebr_memo_ok memo'.
Proof.
  intros Hm. unfold mbr_get_part, mbr_spec. case_if; [by eexists|]. case_if; [|by eexists]. case_if; [by eexists|].
  destruct (res_post_total _ _ (mbr_get_logical_spec memo (partition - 4) Hm ltac:(lia))) as ([st memo'] & -> & -> & Hm').
  by eexists.
Qed.

(** Probes in any order, each starting from the memo the last one left. *)
Fixpoint mbr_probes (memo : option ext_part) (ps : list Z)
    : res (list (part_result part_volume) * option ext_part) :=
  match ps with
  | [] => Ok ([], memo)
  | p :: ps' =>
      let! (r, memo) := mbr_get_part disk vread memo p in
      let! (rs, memo) := mbr_probes memo ps' in
      Ok (r :: rs, memo)
  end.

Lemma mbr_probes_spec ps : forall memo, ebr_memo_ok memo ->
  exists memo', mbr_probes memo ps = Ok (map mbr_spec ps, memo').
Proof.
  induction ps as [|p ps IH]; intros memo Hm; cbn [mbr_probes map]; [by eexists|].
  destruct (mbr_get_part_spec memo p Hm) as (m1 & -> & Hm1). cbn [rbind].
  destruct (IH m1 Hm1) as (m2 & ->). by eexists.
Qed.

(** *** Partitions stay on the disk *)
Definition on_disk (r : part_result (Z * Z)) : Prop :=
  match r with
  | Part (first, count) => 0 < count /\ (sect_count disk <> UINT64_MAX -> first + count <= sect_count disk)
  | _ => True
  end.

Lemma mbr_cut_on_disk first count c :
  mbr_cut_to_disk (sect_count disk) first count = Some c -> 0 < count -> on_disk (Part (first, c)).
Proof.
  unfold mbr_cut_to_disk. case_if; [intros [= <-]; cbn; lia|]. case_if; [done|]. intros [= <-] Hc.
  unfold on_disk. case_if; lia.
Qed.

Lemma mbr_read_entry_count rd off e : mbr_read_entry disk rd off = Some e -> 0 <= p_count e.
Proof.
  unfold mbr_read_entry. destruct (rd off _); [|done]. intros [= <-]. cbn. apply Z.mod_pos_bound. lia.
Qed.

Lemma slot_list_count rd declared sector size slots : forall link,
  Forall (fun e => 0 < p_count e) (slot_list rd declared sector size slots link).1.
Proof.
  induction slots as [|i slots IH]; intros link; cbn [slot_list]; [done|].
  destruct (mbr_read_entry disk rd _) as [e|] eqn:He; [|done]. apply mbr_read_entry_count in He.
  case_if; [apply IH|]. case_if; [apply IH|].
  destruct (slot_list rd declared sector size slots link) as [es l] eqn:Es.
  constructor; [lia|]. specialize (IH link). by rewrite Es in IH.
Qed.

Lemma logical_volume_on_disk first declared sector e :
  0 < p_count e -> on_disk (logical_volume disk first declared sector e).
Proof.
  intros Hc. unfold logical_volume. case_if; [done|].
  destruct (CHECKED_ADD _ _); [|done]. destruct (CHECKED_ADD _ _); [|done].
  destruct (mbr_cut_to_disk _ _ _) as [c|] eqn:Ec; [|done]. by apply mbr_cut_on_disk in Ec.
Qed.

Lemma chain_list_on_disk first count declared fuel : forall visited sector size,
  Forall on_disk (chain_list first count declared fuel visited sector size).
Proof.
  induction fuel as [|fuel IH]; intros visited sector size; rewrite chain_list_eq; (case_if; [done|]);
    pose proof (slot_list_count (vread first count) declared sector size table_slots None) as Hs;
    destruct (slot_list _ _ _ _ _ _) as [es l]; (apply Forall_app; split;
      [apply Forall_map; eapply Forall_impl; [exact Hs|]; intros e; apply logical_volume_on_disk|]).
  - done.
  - destruct l as [[[l ls]|]|]; [|done..]. case_if; [done|]. apply IH.
Qed.

Lemma logical_table_on_disk : Forall on_disk logical_table.
Proof.
  unfold logical_table, chains. induction table_slots as [|i l IH]; cbn [flat_map]; [constructor|].
  apply Forall_app. split; [|done]. unfold slot_chain. destruct (open_extended _ _ _ _); [|done].
  apply chain_list_on_disk.
Qed.

Lemma mbr_spec_on_disk partition v :
  mbr_spec partition = Part v ->
  pv_partition v = partition + 1 /\ on_disk (Part (pv_first_sect v, pv_sect_count v)).
Proof.
  assert (forall r, on_disk r -> numbered partition r = Part v ->
    pv_partition v = partition + 1 /\ on_disk (Part (pv_first_sect v, pv_sect_count v))) as Hn.
  { intros [[f c]| | |] Hr; cbn [numbered]; try done. intros [= <-]. done. }
  unfold mbr_spec. case_if; [done|]. case_if; [case_if; [done|]|]; apply Hn.
  - unfold entry_at. destruct (logical_table !! _) as [r|] eqn:Er; [|done].
    eapply Forall_lookup_1; [apply logical_table_on_disk|done].
  - unfold mbr_primary. destruct (mbr_read_entry _ _ _) as [e|] eqn:He; [|done]. apply mbr_read_entry_count in He.
    case_if; [done|]. case_if; [done|]. case_if; [done|].
    destruct (mbr_cut_to_disk _ _ _) as [c|] eqn:Ec; [|done]. apply mbr_cut_on_disk in Ec; [done|lia].
Qed.
End Spec.

(** Probing MBR partitions, in any order and number, gives for each index
    what the table says, independently of the walk memo earlier probes left: the
    primary slots, and from index 4 the entry of that number in the enumeration
    of every chain of extended boot records.  The walk always ends, even through
    a cyclic chain, and never indexes its record of sectors out of bounds. *)
Theorem mbr_probes_correct disk vread ps :
  exists memo, mbr_probes disk vread None ps = Ok (map (mbr_spec disk vread) ps, memo).
Proof. by apply mbr_probes_spec. Qed.

(** [part_get] always returns, keeps both memos valid, and a partition it
    returns is not empty, carries the number asked for plus one, and ends on
    the disk whenever the size of the disk is known. *)
Theorem part_get_on_disk disk vread addr gm memo partition `{ByteReader (disk_rd disk vread)} :
  memo_inv (disk_rd disk vread) (sect_count disk) addr gm -> ebr_memo_ok disk vread memo ->
  exists r gm' memo',
    part_get disk vread addr gm memo partition = Ok (r, gm', memo') /\
    memo_inv (disk_rd disk vread) (sect_count disk) addr gm' /\ ebr_memo_ok disk vread memo' /\
    forall v, r = Part v -> pv_partition v = partition + 1 /\ 0 < pv_sect_count v /\
      (sect_count disk <> UINT64_MAX -> pv_first_sect v + pv_sect_count v <= sect_count disk).
Proof.
  intros Hg Hm. unfold part_get. case_if; [by eexists _, _, _|].
  destruct (gpt_get_part_total _ _ _ (partition_range_valid disk) _ partition Hg) as (r & gm' & Er & Hg'). rewrite Er.
  cbn [rbind]. destruct r as [[f c]| | |].
  - eexists _, _, _. split_and!; [done..|]. intros v [= <-]. cbn.
    destruct (gpt_get_part_spec _ _ _ _ _ _ _ _ Hg Hb Er) as (_ & h & lba & lb & e & _ & _ & _ & _ & _ & Hc & _ & Hle).
    done.
  - eexists _, _, _. by split_and!.
  - destruct (mbr_get_part_spec disk vread memo partition Hm) as (memo' & -> & Hm'). cbn [rbind].
    eexists _, _, _. split_and!; [done..|]. intros v Hv. by apply mbr_spec_on_disk in Hv.
  - eexists _, _, _. by split_and!.
Qed.

(** A disk of 64 sectors with an extended partition at sector 8, whose chain has
    two EBRs, the second of which links to itself. *)
Definition demo_slot (type first count : Z) : list Z :=
  [0; 0; 0; 0; type; 0; 0; 0] ++ le_bytes 4 first ++ le_bytes 4 count.

Definition demo_mbr : list Z :=
  Eval vm_compute in
  (replicate 446 0 ++ demo_slot 0x83 2 4 ++ demo_slot 0x05 8 32 ++ demo_slot 0 0 0 ++ demo_slot 0 0 0 ++ [0x55; 0xaa])
  ++ replicate (7 * 512) 0
  ++ (replicate 446 0 ++ demo_slot 0x83 2 6 ++ demo_slot 0x05 10 8 ++ demo_slot 0 0 0 ++ demo_slot 0 0 0 ++ [0x55; 0xaa])
  ++ replicate (9 * 512) 0
  ++ (replicate 446 0 ++ demo_slot 0x83 1 60 ++ demo_slot 0x05 10 8 ++ demo_slot 0 0 0 ++ demo_slot 0 0 0 ++ [0x55; 0xaa]).

Definition demo_mbr_disk (a : Z) : Z := nth (Z.to_nat a) demo_mbr 0.

Definition demo_mbr_volume : volume := MkVol 1 512 false false 0 64 None false 0.

Definition demo_vread (first count loc n : Z) : option (list Z) :=
  disk_reader demo_mbr_disk (first * 512) (count * 512) loc n.

#[export] Instance demo_mbr_disk_ok : ByteDisk demo_mbr_disk 32768.
Proof. split; [|lia]. intros a. apply nth_is_byte. vm_compute. reflexivity. Qed.

#[export] Instance demo_vread_ok : ByteReader (disk_rd demo_mbr_volume demo_vread).
Proof. exact (disk_reader_ok demo_mbr_disk 0 32768). Qed.

(** Two logical partitions; the second is cut at the end of the disk. *)
Example demo_probes :
  (let! (rs, _) := mbr_probes demo_mbr_volume demo_vread None [0; 4; 5; 6; 4] in Ok rs) =
  Ok [Part (MkPartVol 1 2 4); Part (MkPartVol 5 10 6); Part (MkPartVol 6 19 45); END_OF_TABLE;
      Part (MkPartVol 5 10 6)].
Proof. vm_compute. reflexivity. Qed.

Lemma part_get_on_disk_witness :
  exists r gm' memo', part_get demo_mbr_volume demo_vread 7 no_memo None 5 = Ok (r, gm', memo') /\
    forall v, r = Part v -> pv_first_sect v + pv_sect_count v <= 64.
Proof.
  destruct (part_get_on_disk demo_mbr_volume demo_vread 7 no_memo None 5) as (r & gm' & memo' & E & _ & _ & H).
  - split; discriminate.
  - exact I.
  - exists r, gm', memo'. split; [exact E|]. intros v Hv. apply (H v Hv). discriminate.
Defined.
