(* ===== verification/Print.v ===== *)
(** * Formatted printing

    [common/lib/print.s2.c] up to the point where the text is handed to the
    terminals: the bounded print buffer, number conversion and the directives of
    [vprint].  The specification is the text a format denotes; the theorem is
    that the buffer ends up with as much of it as fits. *)

From S2P Require Import Prelude CInt Libc LibcProps.

Definition PRINT_BUF_MAX : nat := 4096.

(** [print_buf] and [print_buf_i]. *)
Record pbuf := MkPbuf { print_buf : list Z; print_buf_i : nat }.

(** The tail of [prn_char]: store if there is room, then terminate. *)
Definition put_char (b : pbuf) (c : Z) : res pbuf :=
  let! b :=
    if (print_buf_i b <? PRINT_BUF_MAX - 1)%nat then
      let! buf := wr (print_buf b) (print_buf_i b) c in
      Ok (MkPbuf buf (S (print_buf_i b)))
    else Ok b in
  let! buf := wr (print_buf b) (print_buf_i b) 0 in
  Ok (MkPbuf buf (print_buf_i b)).

(** A newline is preceded by a carriage return, which recurses no further. *)
Definition prn_char (b : pbuf) (c : Z) : res pbuf :=
  let! b := if c =? 10 then put_char b 13 else Ok b in
  put_char b c.

Fixpoint prn_str (b : pbuf) (s : list Z) : res pbuf :=
  match s with
  | [] => Fault
  | c :: s => if c =? 0 then Ok b else let! b := prn_char b c in prn_str b s
  end.

Fixpoint prn_nstr (b : pbuf) (s : list Z) (len : nat) {struct len} : res pbuf :=
  match len with
  | O => Ok b
  | S len => match s with
             | [] => Fault
             | c :: s => let! b := prn_char b c in prn_nstr b s len
             end
  end.

(** [for (i = ...; x; i--) { buf[i] = digit(x % base); x = x / base; }] *)
Definition digits_body (base : Z) (digit : Z -> Z) (s : list Z * Z * Z)
    : res (list Z * Z * Z + list Z * Z) :=
  let '(buf, i, x) := s in
  if x =? 0 then Ok (inr (buf, i))
  else if i <? 0 then Fault
  else
    let! buf := wr buf (Z.to_nat i) (digit (x mod base)) in
    Ok (inl (buf, i - 1, x / base)).

Definition digits_loop (base : Z) (digit : Z -> Z) (buf : list Z) (i x : Z) : res (list Z * Z) :=
  loop (digits_body base digit) (fun s => s.2) (buf, i, x).

Definition dec_digit (d : Z) : Z := d + 0x30.

Definition base_digits : list Z := cstring "0123456789abcdef".

Definition hex_digit (d : Z) : Z := nth (Z.to_nat d) base_digits 0.

(** [prn_str(print_buf, print_buf_i, buf + i)] *)
Definition prn_from (b : pbuf) (buf : list Z) (i : Z) : res pbuf :=
  if (i <? 0) || (Z.of_nat (length buf) <? i) then Fault else prn_str b (drop (Z.to_nat i) buf).

(** [x] is the value of an [int64_t]. *)
Definition prn_i (b : pbuf) (x : Z) : res pbuf :=
  if x =? 0 then prn_char b 48
  else
    let sign := x <? 0 in
    let ux := if sign then u64 (0 - u64 x) else u64 x in
    let! (buf, i) := digits_loop 10 dec_digit (replicate 21 0) 19 ux in
    if sign then
      if i <? 0 then Fault
      else let! buf := wr buf (Z.to_nat i) 45 in prn_from b buf i
    else prn_from b buf (i + 1).

Definition prn_ui (b : pbuf) (x : Z) : res pbuf :=
  if x =? 0 then prn_char b 48
  else
    let! (buf, i) := digits_loop 10 dec_digit (replicate 21 0) 19 x in
    prn_from b buf (i + 1).

Definition prn_x (b : pbuf) (x : Z) : res pbuf :=
  if x =? 0 then prn_str b (cstring "0x0")
  else
    let! (buf, i) := digits_loop 16 hex_digit (replicate 17 0) 15 x in
    let! b := prn_str b (cstring "0x") in
    prn_from b buf (i + 1).

(** ** [vprint]

    The variable arguments: integers by their bits, strings as the bytes the
    pointer points to ([None] for NULL).  An argument of the wrong kind, or a
    missing one, is undefined. *)
Inductive va := VInt (z : Z) | VStr (s : option (list Z)).

(** The value of a [w]-bit signed integer with these bits. *)
Definition sint (w z : Z) : Z := let u := wrap w z in if u <? 2 ^ (w - 1) then u else u - 2 ^ w.

(** The last index below [n] that holds a hash sign. *)
Fixpoint last_hash (s : list Z) (n : nat) : res (option nat) :=
  match n with
  | O => Ok None
  | S n => let! c := rd s n in if negb (c =? 35) then last_hash s n else Ok (Some n)
  end.

Definition prn_unhashed (b : pbuf) (s : list Z) : res pbuf :=
  let! len := strlen s in
  let! h := last_hash s len in
  match h with
  | Some i => prn_nstr b s i
  | None => prn_str b s
  end.

Definition null_text : list Z := cstring "(null)".

(** [ptr_bits] is the width of [uintptr_t]. *)
Definition directive (ptr_bits d : Z) (b : pbuf) (args : list va) : res (pbuf * list va) :=
  let ret (r : res pbuf) (args : list va) := let! b := r in Ok (b, args) in
  if d =? 115 then (* s *)
    match args with
    | VStr None :: args => ret (prn_str b null_text) args
    | VStr (Some s) :: args => ret (prn_str b s) args
    | _ => Fault
    end
  else if d =? 83 then (* S *)
    match args with
    | VStr None :: VInt _ :: args => ret (prn_str b null_text) args
    | VStr (Some s) :: VInt n :: args => ret (prn_nstr b s (Z.to_nat n)) args
    | _ => Fault
    end
  else if d =? 35 then (* # *)
    match args with
    | VStr None :: args => ret (prn_str b null_text) args
    | VStr (Some s) :: args => ret (prn_unhashed b s) args
    | _ => Fault
    end
  else if bool_decide (d ∈ [100; 117; 120; 68; 85; 88; 112; 99]) then
    match args with
    | VInt z :: args =>
        ret (if d =? 100 then prn_i b (sint 32 z)              (* d *)
             else if d =? 117 then prn_ui b (u32 z)            (* u *)
             else if d =? 120 then prn_x b (u32 z)             (* x *)
             else if d =? 68 then prn_i b (sint 64 z)          (* D *)
             else if d =? 85 then prn_ui b (u64 z)             (* U *)
             else if d =? 88 then prn_x b (u64 z)              (* X *)
             else if d =? 112 then prn_x b (wrap ptr_bits z)   (* p *)
             else prn_char b (u8 z)) args                      (* c *)
    | _ => Fault
    end
  else ret (prn_char b 63) args.

Fixpoint vprint_loop (ptr_bits : Z) (b : pbuf) (fmt : list Z) (args : list va) : res pbuf :=
  match fmt with
  | [] => Fault
  | c :: fmt =>
      if c =? 0 then Ok b
      else if negb (c =? 37) then let! b := prn_char b c in vprint_loop ptr_bits b fmt args
      else match fmt with
           | [] => Fault
           | d :: fmt =>
               if d =? 0 then Ok b
               else let! (b, args) := directive ptr_bits d b args in vprint_loop ptr_bits b fmt args
           end
  end.

(** [buf]: what the static buffer held before. *)
Definition vprint (ptr_bits : Z) (buf fmt : list Z) (args : list va) : res pbuf :=
  vprint_loop ptr_bits (MkPbuf buf 0) fmt args.

Example vprint_ex :
  match vprint 64 (replicate PRINT_BUF_MAX 7) (cstring "a%d %u %X%s%%|%#\n")
          [VInt (-42); VInt 7; VInt 0xbeef; VStr (Some (cstring "!!")); VStr (Some (cstring "path#hash"))] with
  | Ok b => take (print_buf_i b) (print_buf b)
  | _ => []
  end = bytes "a-42 7 0xbeef!!?|path\n".
Proof. vm_compute. reflexivity. Qed.

(** ** Specification: the text a format denotes *)
Section Radix.
Variable base : Z.
Variable digit : Z -> Z.

(** The digits of [x], most significant first; [fuel] bounds their number. *)
Fixpoint radix (fuel : nat) (x : Z) : list Z :=
  match fuel with
  | O => []
  | S fuel => if x =? 0 then [] else radix fuel (x / base) ++ [digit (x mod base)]
  end.
End Radix.

Definition unsigned_text (x : Z) : list Z := if x =? 0 then [48] else radix 10 dec_digit 64 x.
Definition signed_text (x : Z) : list Z := if x <? 0 then 45 :: unsigned_text (- x) else unsigned_text x.
Definition hex_text (x : Z) : list Z := [48; 120] ++ if x =? 0 then [48] else radix 16 hex_digit 64 x.

(** The bytes before the terminator. *)
Fixpoint c_text (s : list Z) : option (list Z) :=
  match s with
  | [] => None
  | c :: s => if c =? 0 then Some [] else cons c <$> c_text s
  end.

(** A path without its hash: what precedes the last hash sign, if there is one. *)
Fixpoint unhashed (s : list Z) : option (list Z) :=
  match s with
  | [] => None
  | c :: s => match unhashed s with
              | Some r => Some (c :: r)
              | None => if c =? 35 then Some [] else None
              end
  end.

Definition or_null (s : option (list Z)) (f : list Z -> option (list Z)) : option (list Z) :=
  match s with None => Some (bytes "(null)") | Some s => f s end.

Definition directive_text (ptr_bits d : Z) (args : list va) : option (list Z * list va) :=
  let str (o : option (list Z)) (args : list va) := (fun t => (t, args)) <$> o in
  if d =? 115 then match args with VStr s :: args => str (or_null s c_text) args | _ => None end
  else if d =? 83 then
    match args with
    | VStr s :: VInt n :: args =>
        str (or_null s (fun s => if Z.of_nat (length s) <? n then None else Some (take (Z.to_nat n) s))) args
    | _ => None
    end
  else if d =? 35 then
    match args with
    | VStr s :: args => str (or_null s (fun s => (fun t => default t (unhashed t)) <$> c_text s)) args
    | _ => None
    end
  else if bool_decide (d ∈ [100; 117; 120; 68; 85; 88; 112; 99]) then
    match args with
    | VInt z :: args =>
        Some (if d =? 100 then signed_text (sint 32 z)
              else if d =? 117 then unsigned_text (u32 z)
              else if d =? 120 then hex_text (u32 z)
              else if d =? 68 then signed_text (sint 64 z)
              else if d =? 85 then unsigned_text (u64 z)
              else if d =? 88 then hex_text (u64 z)
              else if d =? 112 then hex_text (wrap ptr_bits z)
              else [u8 z], args)
    | _ => None
    end
  else Some ([63], args).

Fixpoint format_text (ptr_bits : Z) (fmt : list Z) (args : list va) : option (list Z) :=
  match fmt with
  | [] => None
  | c :: fmt =>
      if c =? 0 then Some []
      else if negb (c =? 37) then cons c <$> format_text ptr_bits fmt args
      else match fmt with
           | [] => None
           | d :: fmt =>
               if d =? 0 then Some []
               else match directive_text ptr_bits d args with
                    | None => None
                    | Some (t, args) => app t <$> format_text ptr_bits fmt args
                    end
           end
  end.

Definition crlf (c : Z) : list Z := if c =? 10 then [13; 10] else [c].

(** The buffer holds as much of [out] as fits with its terminator. *)
Record holds (b : pbuf) (out : list Z) : Prop := {
  holds_length : length (print_buf b) = PRINT_BUF_MAX;
  holds_index : print_buf_i b = Nat.min (PRINT_BUF_MAX - 1) (length out);
  holds_text : take (print_buf_i b) (print_buf b) = take (PRINT_BUF_MAX - 1) out;
  holds_nul : out <> [] -> print_buf b !! print_buf_i b = Some 0;
}.

(** ** Proofs *)
Definition appends (r : pbuf -> res pbuf) (t : list Z) : Prop :=
  forall b out, holds b out -> exists b', r b = Ok b' /\ holds b' (out ++ t).

Lemma put_char_appends c : appends (fun b => put_char b c) [c].
Proof.
  intros b out [Hl Hi Ht Hn]. assert (PRINT_BUF_MAX = 4096%nat) as HM by done. unfold put_char. case_if.
  - assert (length out < PRINT_BUF_MAX - 1)%nat by lia. rewrite wr_lt by lia. cbn [rbind print_buf print_buf_i].
    rewrite wr_lt by (rewrite length_insert; lia). eexists. split; [reflexivity|].
    split; cbn [print_buf print_buf_i].
    + by rewrite !length_insert.
    + rewrite length_app. cbn [length]. lia.
    + rewrite take_insert_ge by lia. rewrite (take_S_r _ _ c) by (apply list_lookup_insert_eq; lia).
      rewrite take_insert_ge by lia. rewrite Ht. rewrite !take_ge by (rewrite ?length_app; cbn [length]; lia). done.
    + intros _. apply list_lookup_insert_eq. rewrite length_insert. lia.
  - assert (PRINT_BUF_MAX - 1 <= length out)%nat by lia. cbn [rbind].
    rewrite wr_lt by (unfold PRINT_BUF_MAX in *; lia). eexists. split; [reflexivity|].
    split; cbn [print_buf print_buf_i].
    + by rewrite length_insert.
    + rewrite length_app. cbn [length]. lia.
    + rewrite take_insert_ge by lia. rewrite Ht, take_app_le by lia. done.
    + intros _. apply list_lookup_insert_eq. unfold PRINT_BUF_MAX in *. lia.
Qed.

Lemma appends_nil r : (forall b, r b = Ok b) -> appends r [].
Proof. intros Hr b out Hb. exists b. rewrite app_nil_r. done. Qed.

Lemma appends_bind r1 r2 t1 t2 :
  appends r1 t1 -> appends r2 t2 -> appends (fun b => let! b := r1 b in r2 b) (t1 ++ t2).
Proof.
  intros H1 H2 b out Hb. destruct (H1 b out Hb) as (b1 & -> & Hb1). cbn [rbind].
  rewrite app_assoc. by apply H2.
Qed.

Lemma prn_char_appends c : appends (fun b => prn_char b c) (crlf c).
Proof.
  unfold prn_char, crlf. case_if.
  - subst. apply (appends_bind (fun b => put_char b 13) _ [13] [10]); apply put_char_appends.
  - apply put_char_appends.
Qed.

Lemma prn_str_appends s t : c_text s = Some t -> appends (fun b => prn_str b s) (flat_map crlf t).
Proof.
  revert t. induction s as [|c s IH]; intros t; cbn [c_text prn_str]; [done|].
  case_if; [intros [= <-]; by apply appends_nil|].
  destruct (c_text s) as [t'|]; [|done]. intros [= <-]. cbn [flat_map].
  apply (appends_bind (fun b => prn_char b c)); [apply prn_char_appends|by apply IH].
Qed.

Lemma prn_nstr_appends n : forall s, (n <= length s)%nat -> appends (fun b => prn_nstr b s n) (flat_map crlf (take n s)).
Proof.
  induction n as [|n IH]; intros s Hn; cbn [prn_nstr]; [apply (appends_nil Ok); intros b; reflexivity|].
  destruct s as [|c s]; cbn in Hn; [lia|]. cbn [take flat_map].
  apply (appends_bind (fun b => prn_char b c)); [apply prn_char_appends|apply IH; lia].
Qed.

(** *** Numbers *)
Section Digits.
Variable base : Z.
Variable digit : Z -> Z.
Hypothesis Hbase : 2 <= base.
Hypothesis Hdigit : forall d, 0 <= d < base -> digit d <> 0.

Lemma radix_fuel f : forall g x, (f <= g)%nat -> 0 <= x < 2 ^ Z.of_nat f ->
  radix base digit g x = radix base digit f x.
Proof.
  induction f as [|f IH]; intros g x Hg Hx.
  { cbn in Hx. assert (x = 0) as -> by lia. by destruct g. }
  destruct g as [|g]; [lia|]. cbn [radix]. case_if; [done|]. f_equal. apply IH; [lia|].
  rewrite Nat2Z.inj_succ, Z.pow_succ_r in Hx by lia. split; [apply Z.div_pos; lia|].
  apply Z.div_lt_upper_bound; nia.
Qed.

Lemma radix_S f x : x <> 0 -> radix base digit (S f) x = radix base digit f (x / base) ++ [digit (x mod base)].
Proof. intros Hx. cbn [radix]. by rewrite (proj2 (Z.eqb_neq _ _)). Qed.

Lemma radix_step x : 0 < x < 2 ^ 64 -> radix base digit 64 x = radix base digit 64 (x / base) ++ [digit (x mod base)].
Proof.
  intros Hx. rewrite radix_S by lia. rewrite (radix_fuel 63 64); [done|lia|].
  split; [apply Z.div_pos; lia|]. apply Z.div_lt_upper_bound; [lia|].
  change (2 ^ 64) with (2 * 2 ^ Z.of_nat 63) in Hx. nia.
Qed.

Lemma radix_nonzero f : forall x, Forall (fun c => c <> 0) (radix base digit f x).
Proof.
  induction f as [|f IH]; intros x; cbn [radix]; [done|]. case_if; [done|]. apply Forall_app. split; [done|].
  apply Forall_singleton, Hdigit, Z.mod_pos_bound. lia.
Qed.

(** The invariant: the digits stored so far end the buffer, and the slots below
    are enough for the digits to come, with [k] to spare. *)
Definition digits_inv (n k : nat) (x0 : Z) (s : list Z * Z * Z) : Prop :=
  let '(buf, i, x) := s in
  Z.of_nat k <= i + 1 <= Z.of_nat n /\ 0 <= x < 2 ^ 64 /\ x < base ^ (i + 1 - Z.of_nat k) /\ length buf = S n /\
  exists ds, radix base digit 64 x0 = radix base digit 64 x ++ ds /\ drop (Z.to_nat (i + 1)) buf = ds ++ [0].

Definition digits_post (n k : nat) (x0 : Z) (r : list Z * Z) : Prop :=
  let '(buf, i) := r in
  Z.of_nat k <= i + 1 <= Z.of_nat n /\ length buf = S n /\
  drop (Z.to_nat (i + 1)) buf = radix base digit 64 x0 ++ [0].

Lemma digits_turn n k x0 s :
  digits_inv n k x0 s ->
  turn_ok (digits_body base digit) (digits_inv n k x0) (fun s => s.2) (digits_post n k x0) no_panic s.
Proof.
  destruct s as [[buf i] x]. intros (Hi & Hx & Hlt & Hl & ds & Hds & Hdrop). unfold turn_ok, digits_body. cbn [snd].
  case_if.
  { subst x. cbn [res_post digits_post]. split_and!; try done; try lia. by rewrite Hdrop, Hds. }
  assert (Z.of_nat k < i + 1) as Hki.
  { destruct (decide (i + 1 = Z.of_nat k)) as [E|]; [|lia]. rewrite E, Z.sub_diag in Hlt. cbn in Hlt. lia. }
  rewrite (proj2 (Z.ltb_ge _ _)) by lia. rewrite wr_lt by lia. cbn [rbind res_post].
  assert (0 <= x / base < x) by (split; [apply Z.div_pos; lia|apply Z.div_lt_upper_bound; nia]).
  split; [|cbn; lia]. unfold digits_inv. replace (i - 1 + 1) with i by lia. split_and!; try lia.
  - apply Z.div_lt_upper_bound; [lia|]. rewrite <- Z.pow_succ_r by lia.
    by replace (Z.succ (i - Z.of_nat k)) with (i + 1 - Z.of_nat k) by lia.
  - by rewrite length_insert.
  - exists (digit (x mod base) :: ds). split; [rewrite Hds, radix_step by lia; by rewrite <- app_assoc|].
    rewrite (drop_S _ (digit (x mod base))) by (apply list_lookup_insert_eq; lia).
    rewrite drop_insert_lt by lia. cbn [app]. f_equal. rewrite <- Hdrop. f_equal. lia.
Qed.

Lemma digits_loop_spec n k x i0 :
  i0 = Z.of_nat n - 1 -> (k <= n)%nat -> 0 <= x < 2 ^ 64 -> x < base ^ (Z.of_nat n - Z.of_nat k) ->
  exists buf i, digits_loop base digit (replicate (S n) 0) i0 x = Ok (buf, i) /\
    digits_post n k x (buf, i).
Proof.
  intros -> Hk Hx Hlt. unfold digits_loop.
  edestruct (res_post_total (digits_post n k x)) as ([buf i] & -> & Hp); [|by exists buf, i].
  apply (loop_spec _ (digits_inv n k x)); [apply digits_turn| |cbn; lia].
  unfold digits_inv. replace (Z.of_nat n - 1 + 1) with (Z.of_nat n) by lia. split_and!; try lia.
  - by rewrite length_replicate.
  - exists []. split; [by rewrite app_nil_r|]. rewrite Nat2Z.id, drop_replicate.
    by replace (S n - n)%nat with 1%nat by lia.
Qed.
End Digits.

Lemma c_text_app t : Forall (fun c => c <> 0) t -> c_text (t ++ [0]) = Some t.
Proof.
  induction 1 as [|c t Hc Ht IH]; [done|]. cbn [app c_text]. rewrite (proj2 (Z.eqb_neq _ _) Hc). by rewrite IH.
Qed.

Lemma prn_from_appends buf i t :
  0 <= i <= Z.of_nat (length buf) -> drop (Z.to_nat i) buf = t ++ [0] -> Forall (fun c => c <> 0) t ->
  appends (fun b => prn_from b buf i) (flat_map crlf t).
Proof.
  intros Hi Hd Ht. unfold prn_from. rewrite (proj2 (Z.ltb_ge i 0)), (proj2 (Z.ltb_ge _ i)) by lia. cbn [orb].
  apply prn_str_appends. rewrite Hd. by apply c_text_app.
Qed.

Lemma dec_digit_ok d : 0 <= d < 10 -> dec_digit d <> 0.
Proof. unfold dec_digit. lia. Qed.

Lemma hex_digit_cases d : 0 <= d < 16 -> hex_digit d <> 0 /\ digit_to_int (hex_digit d) = d.
Proof.
  intros Hd. assert (d = 0 \/ d = 1 \/ d = 2 \/ d = 3 \/ d = 4 \/ d = 5 \/ d = 6 \/ d = 7 \/ d = 8 \/ d = 9 \/
    d = 10 \/ d = 11 \/ d = 12 \/ d = 13 \/ d = 14 \/ d = 15) as Hc by lia.
  repeat destruct Hc as [->|Hc]; try (split; [discriminate|reflexivity]). subst. split; [discriminate|reflexivity].
Qed.

Lemma prn_ui_appends x : 0 <= x < 2 ^ 64 -> appends (fun b => prn_ui b x) (flat_map crlf (unsigned_text x)).
Proof.
  intros Hx. unfold prn_ui, unsigned_text. case_if; [apply prn_char_appends|].
  destruct (digits_loop_spec 10 dec_digit ltac:(lia) 20 0 x 19 eq_refl ltac:(lia) Hx ltac:(cbn; lia)) as (buf & i & -> & Hi & Hl & Hd).
  cbn [rbind]. apply prn_from_appends; [lia|done|]. apply radix_nonzero; [lia|apply dec_digit_ok].
Qed.

Lemma prn_x_appends x : 0 <= x < 2 ^ 64 -> appends (fun b => prn_x b x) (flat_map crlf (hex_text x)).
Proof.
  intros Hx. unfold prn_x, hex_text. case_if; [by apply prn_str_appends|].
  destruct (digits_loop_spec 16 hex_digit ltac:(lia) 16 0 x 15 eq_refl ltac:(lia) Hx ltac:(cbn; lia)) as (buf & i & -> & Hi & Hl & Hd).
  cbn [rbind]. rewrite flat_map_app. apply (appends_bind (fun b => prn_str b (cstring "0x"))); [by apply prn_str_appends|].
  apply prn_from_appends; [lia|done|]. apply radix_nonzero; [lia|]. intros d ?. by apply hex_digit_cases.
Qed.

Lemma prn_i_appends x : - 2 ^ 63 <= x < 2 ^ 63 -> appends (fun b => prn_i b x) (flat_map crlf (signed_text x)).
Proof.
  intros Hx. unfold prn_i, signed_text.
  destruct (x =? 0) eqn:E0; bool_hyps; [subst; apply prn_char_appends|].
  destruct (x <? 0) eqn:Es; bool_hyps.
  - assert (u64 (0 - u64 x) = - x) as ->.
    { unfold wrap. rewrite Zminus_mod_idemp_r. rewrite Z.mod_small; lia. }
    destruct (digits_loop_spec 10 dec_digit ltac:(lia) 20 1 (- x) 19 eq_refl ltac:(lia) ltac:(lia) ltac:(cbn; lia))
      as (buf & i & -> & Hi & Hl & Hd).
    cbn [rbind]. rewrite (proj2 (Z.ltb_ge i 0)) by lia. rewrite wr_lt by lia. cbn [rbind].
    apply (prn_from_appends _ _ (45 :: unsigned_text (- x))).
    + rewrite length_insert. lia.
    + rewrite (drop_S _ 45) by (apply list_lookup_insert_eq; lia). rewrite drop_insert_lt by lia.
      unfold unsigned_text. rewrite (proj2 (Z.eqb_neq _ _)) by lia. cbn [app]. f_equal. rewrite <- Hd. f_equal. lia.
    + unfold unsigned_text. rewrite (proj2 (Z.eqb_neq _ _)) by lia. constructor; [done|].
      apply radix_nonzero; [lia|apply dec_digit_ok].
  - assert (u64 x = x) as -> by (unfold wrap; rewrite Z.mod_small; lia). unfold unsigned_text. rewrite (proj2 (Z.eqb_neq x 0)) by lia.
    destruct (digits_loop_spec 10 dec_digit ltac:(lia) 20 0 x 19 eq_refl ltac:(lia) ltac:(lia) ltac:(cbn; lia)) as (buf & i & -> & Hi & Hl & Hd).
    cbn [rbind]. apply prn_from_appends; [lia|done|]. apply radix_nonzero; [lia|apply dec_digit_ok].
Qed.

(** *** Directives *)
Lemma strlen_c_text s t : c_text s = Some t -> strlen s = Ok (length t) /\ exists r, s = t ++ 0 :: r.
Proof.
  revert t. induction s as [|c s IH]; intros t; cbn [c_text strlen]; [done|].
  case_if; [intros [= <-]; subst; split; [done|by exists s]|].
  destruct (c_text s) as [t'|]; [|done]. intros [= <-]. destruct (IH t' eq_refl) as (-> & r & ->).
  split; [done|by exists r].
Qed.

Lemma unhashed_app a b : unhashed (a ++ b) = match unhashed b with Some r => Some (a ++ r) | None => unhashed a end.
Proof.
  induction a as [|c a IH]; cbn [app unhashed]; [by destruct (unhashed b)|]. rewrite IH. by destruct (unhashed b).
Qed.

Lemma last_hash_spec t : forall r,
  last_hash (t ++ r) (length t) = Ok (length <$> unhashed t) /\ (forall u, unhashed t = Some u -> u = take (length u) t).
Proof.
  induction t as [|c t IH] using rev_ind; intros r; [done|].
  rewrite length_app, Nat.add_1_r, <- app_assoc. cbn [last_hash app].
  rewrite (rd_lookup _ _ c) by (by apply list_lookup_middle). cbn [rbind]. rewrite unhashed_app. cbn [unhashed].
  destruct (IH (c :: r)) as [-> Hu]. destruct (c =? 35); cbn [negb].
  - rewrite app_nil_r. split; [done|]. intros u [= <-]. by rewrite take_app_length.
  - split; [done|]. intros u Eu. pose proof (Hu u Eu) as E. rewrite E at 1.
    rewrite take_app_le; [done|]. rewrite E, length_take. lia.
Qed.

Lemma prn_unhashed_appends s t :
  c_text s = Some t -> appends (fun b => prn_unhashed b s) (flat_map crlf (default t (unhashed t))).
Proof.
  intros Hs. unfold prn_unhashed. destruct (strlen_c_text s t Hs) as (-> & r & E). cbn [rbind].
  destruct (last_hash_spec t (0 :: r)) as [Eh Hu]. rewrite <- E in Eh. rewrite Eh. cbn [rbind].
  destruct (unhashed t) as [u|]; cbn [default fmap option_fmap option_map id]; [|by apply prn_str_appends].
  pose proof (Hu u eq_refl) as Eu. assert (length u <= length t)%nat by (rewrite Eu, length_take; lia).
  assert (take (length u) s = u) as Et by (rewrite E, take_app_le by done; done).
  pose proof (prn_nstr_appends (length u) s ltac:(rewrite E, length_app; lia)) as Ha. by rewrite Et in Ha.
Qed.

Definition appends_args (r : pbuf -> res (pbuf * list va)) (t : list Z) (args : list va) : Prop :=
  forall b out, holds b out -> exists b', r b = Ok (b', args) /\ holds b' (out ++ t).

Lemma appends_ret r t args : appends r t -> appends_args (fun b => let! b := r b in Ok (b, args)) t args.
Proof. intros H b out Hb. destruct (H b out Hb) as (b' & -> & Hb'). by exists b'. Qed.

Lemma sint_range w z : 0 < w -> - 2 ^ (w - 1) <= sint w z < 2 ^ (w - 1).
Proof.
  intros Hw. unfold sint, wrap. pose proof (Z.mod_pos_bound z (2 ^ w) ltac:(lia)).
  assert (2 ^ w = 2 * 2 ^ (w - 1)) by (rewrite <- Z.pow_succ_r by lia; f_equal; lia). case_if; lia.
Qed.

Lemma wrap_below_64 w z : 0 <= w <= 64 -> 0 <= wrap w z < 2 ^ 64.
Proof.
  intros Hw. unfold wrap. pose proof (Z.mod_pos_bound z (2 ^ w) ltac:(lia)).
  pose proof (Z.pow_le_mono_r 2 w 64 ltac:(lia) ltac:(lia)). lia.
Qed.

Lemma directive_appends ptr_bits d args t args' :
  0 <= ptr_bits <= 64 -> directive_text ptr_bits d args = Some (t, args') ->
  appends_args (fun b => directive ptr_bits d b args) (flat_map crlf t) args'.
Proof.
  intros Hp. unfold directive_text, directive.
  destruct (d =? 115).
  { destruct args as [|[|[s|]] args]; try done; cbn [or_null].
    - destruct (c_text s) eqn:Es; [|done]. intros [= <- <-]. by apply appends_ret, prn_str_appends.
    - intros [= <- <-]. by apply appends_ret, prn_str_appends. }
  destruct (d =? 83).
  { destruct args as [|[|[s|]] [|[n|] args]]; try done; cbn [or_null].
    - case_if; [done|]. intros [= <- <-]. apply appends_ret, prn_nstr_appends. lia.
    - intros [= <- <-]. by apply appends_ret, prn_str_appends. }
  destruct (d =? 35).
  { destruct args as [|[|[s|]] args]; try done; cbn [or_null].
    - destruct (c_text s) eqn:Es; [|done]. intros [= <- <-]. by apply appends_ret, prn_unhashed_appends.
    - intros [= <- <-]. by apply appends_ret, prn_str_appends. }
  destruct (bool_decide _).
  - destruct args as [|[z|] args]; try done. intros [= <- <-]. apply appends_ret.
    pose proof (sint_range 32 z ltac:(lia)). pose proof (sint_range 64 z ltac:(lia)).
    pose proof (wrap_below_64 32 z ltac:(lia)). pose proof (wrap_below_64 64 z ltac:(lia)). pose proof (wrap_below_64 ptr_bits z Hp).
    repeat case_if; try first [apply prn_i_appends; lia|apply prn_ui_appends; lia|apply prn_x_appends; lia].
    cbn [flat_map]. rewrite app_nil_r. apply prn_char_appends.
  - intros [= <- <-]. apply appends_ret, prn_char_appends.
Qed.

Lemma vprint_appends ptr_bits n : 0 <= ptr_bits <= 64 -> forall fmt args t, (length fmt <= n)%nat ->
  format_text ptr_bits fmt args = Some t -> appends (fun b => vprint_loop ptr_bits b fmt args) (flat_map crlf t).
Proof.
  intros Hp. induction n as [|n IH]; intros [|c fmt] args t Hn; cbn [format_text vprint_loop length] in *; try done; try lia.
  case_if; [intros [= <-]; by apply appends_nil|]. destruct (negb (c =? 37)).
  - destruct (format_text ptr_bits fmt args) as [t'|] eqn:Ef; [|done]. intros [= <-]. cbn [flat_map].
    apply (appends_bind (fun b => prn_char b c)); [apply prn_char_appends|]. apply IH; [lia|done].
  - destruct fmt as [|d fmt]; [done|]. cbn [length] in Hn. case_if; [intros [= <-]; by apply appends_nil|].
    destruct (directive_text ptr_bits d args) as [[td args']|] eqn:Ed; [|done].
    destruct (format_text ptr_bits fmt args') as [t'|] eqn:Ef; [|done]. intros [= <-].
    rewrite flat_map_app. intros b out Hh. destruct (directive_appends _ _ _ _ _ Hp Ed b out Hh) as (b1 & -> & Hb1).
    cbn [rbind]. rewrite app_assoc. apply (IH fmt args' t' ltac:(lia) Ef). done.
Qed.

(** [vprint] never writes outside the print buffer and ends with as much of
    the text the format denotes as fits in it, newlines as carriage return and
    line feed, followed by a terminator.  The text is the mathematical one:
    decimal and hexadecimal numerals of the arguments at their width. *)
Theorem vprint_correct ptr_bits buf fmt args t :
  0 <= ptr_bits <= 64 -> length buf = PRINT_BUF_MAX -> format_text ptr_bits fmt args = Some t ->
  exists b, vprint ptr_bits buf fmt args = Ok b /\ holds b (flat_map crlf t).
Proof.
  intros Hp Hl Ht. apply (vprint_appends ptr_bits (length fmt) Hp fmt args t (le_n _) Ht (MkPbuf buf 0) []).
  split; cbn [print_buf print_buf_i]; done.
Qed.

Lemma vprint_correct_witness :
  exists b, vprint 64 (replicate PRINT_BUF_MAX 7) (cstring "%d") [VInt (-42)] = Ok b /\ holds b (bytes "-42").
Proof.
  apply (vprint_correct 64 (replicate PRINT_BUF_MAX 7) (cstring "%d") [VInt (-42)] (bytes "-42")).
  - lia.
  - reflexivity.
  - vm_compute. reflexivity.
Defined.

(** *** What is printed can be read back *)
Section RadixValue.
Variable base : Z.
Variable digit : Z -> Z.
Hypothesis Hbase : 2 <= base <= 16.
Hypothesis Hdigit : forall d, 0 <= d < base -> digit_to_int (digit d) = d.

Lemma radix_value f : forall x, 0 <= x < 2 ^ Z.of_nat f ->
  digits_value base 0 (radix base digit f x) = x /\ Forall (is_digit_of base) (radix base digit f x) /\
  (length (radix base digit f x) <= f)%nat.
Proof.
  induction f as [|f IH]; intros x Hx; cbn [radix]; [cbn in Hx; split_and!; [cbn; lia|done|done]|].
  case_if; [subst; split_and!; [done|done|cbn; lia]|].
  rewrite Nat2Z.inj_succ, Z.pow_succ_r in Hx by lia. pose proof (Z.mod_pos_bound x base ltac:(lia)).
  destruct (IH (x / base)) as (Hv & Hd & Hl).
  { split; [apply Z.div_pos; lia|]. apply Z.div_lt_upper_bound; nia. }
  unfold digits_value in *. rewrite foldl_app, Hv, length_app. cbn [foldl length]. rewrite Hdigit by done.
  split_and!; [|apply Forall_app; split; [done|apply Forall_singleton; unfold is_digit_of; rewrite Hdigit; lia]|lia].
  pose proof (Z.div_mod x base ltac:(lia)). lia.
Qed.
End RadixValue.

(** A short text is in the buffer whole, followed by its terminator. *)
Lemma holds_short b out :
  holds b out -> out <> [] -> (length out < PRINT_BUF_MAX)%nat ->
  print_buf_i b = length out /\ exists rest, print_buf b = out ++ 0 :: rest.
Proof.
  intros [Hl Hi Ht Hn] Hne Hlt. assert (print_buf_i b = length out) as E by lia. split; [done|].
  specialize (Hn Hne). rewrite E in *. rewrite (take_ge out) in Ht by lia.
  exists (drop (S (length out)) (print_buf b)). rewrite <- Ht at 1. by rewrite take_drop_middle.
Qed.

Lemma nul_stops base : ~ is_digit_of base 0.
Proof. unfold is_digit_of. cbn. lia. Qed.

Lemma digits_crlf base t : Forall (is_digit_of base) t -> flat_map crlf t = t.
Proof.
  induction 1 as [|c t Hc Ht IH]; [done|]. cbn [flat_map]. rewrite IH. unfold crlf.
  case_if; [|done]. subst. unfold is_digit_of in Hc. cbn in Hc. lia.
Qed.

(** Numerals, zero included, as [strtoui] reads them. *)
Lemma numeral_value base digit x :
  2 <= base <= 16 -> (forall d, 0 <= d < base -> digit_to_int (digit d) = d) -> 0 <= x < 2 ^ 64 ->
  let t := if x =? 0 then [48] else radix base digit 64 x in
  digits_value base 0 t = x /\ Forall (is_digit_of base) t /\ (0 < length t <= 64)%nat.
Proof.
  intros Hb Hd Hx t. unfold t. case_if.
  - subst. split_and!; [done| |cbn; lia..]. apply Forall_singleton. unfold is_digit_of. cbn. lia.
  - destruct (radix_value base digit Hb Hd 64 x Hx) as (Hv & Hf & Hl). split_and!; [done|done| |done].
    destruct (radix base digit 64 x); [|cbn [length]; lia]. cbn in Hv. lia.
Qed.

(** Printing a number and parsing the buffer gives the number back, in
    decimal for every 64-bit value and in hexadecimal past the prefix, and the
    parse consumes exactly what was printed. *)
Theorem print_parse_roundtrip buf x :
  length buf = PRINT_BUF_MAX -> 0 <= x < 2 ^ 64 ->
  (exists b, prn_ui (MkPbuf buf 0) x = Ok b /\ strtoui (print_buf b) 10 = Ok (x, print_buf_i b)) /\
  (exists b, prn_x (MkPbuf buf 0) x = Ok b /\ strtoui (drop 2 (print_buf b)) 16 = Ok (x, print_buf_i b - 2)%nat).
Proof.
  intros Hl Hx. assert (holds (MkPbuf buf 0) []) as H0 by (split; cbn [print_buf print_buf_i]; done). split.
  - destruct (numeral_value 10 dec_digit x ltac:(lia)) as (Hv & Hd & Hlen); [|done|].
    { intros d Hd. unfold dec_digit. rewrite Z.add_comm. by apply digit_to_int_dec. }
    destruct (prn_ui_appends x Hx _ _ H0) as (b & Eb & Hb). exists b. split; [done|].
    unfold unsigned_text in Hb. cbn [app] in Hb. rewrite (digits_crlf 10) in Hb by done.
    set (t := if x =? 0 then _ else _) in *. clearbody t.
    destruct (holds_short _ _ Hb) as (-> & rest & ->); [intros E; rewrite E in Hlen; cbn in Hlen; lia|unfold PRINT_BUF_MAX; lia|].
    rewrite <- Hv. apply strtoui_value; [lia|apply nul_stops|done|lia|lia].
  - destruct (numeral_value 16 hex_digit x ltac:(lia)) as (Hv & Hd & Hlen); [intros d ?; by apply hex_digit_cases|done|].
    destruct (prn_x_appends x Hx _ _ H0) as (b & Eb & Hb). exists b. split; [done|].
    unfold hex_text in Hb. rewrite flat_map_app, (digits_crlf 16 (if x =? 0 then [48] else radix 16 hex_digit 64 x)) in Hb by done.
    set (t := if x =? 0 then _ else _) in *. clearbody t.
    destruct (holds_short _ _ Hb) as (-> & rest & ->); [done|cbn [app length flat_map crlf]; unfold PRINT_BUF_MAX; rewrite length_app; cbn; lia|].
    cbn. rewrite <- Hv. rewrite Nat.sub_0_r. apply strtoui_value; [lia|apply nul_stops|done|lia|lia].
Qed.

Lemma print_parse_roundtrip_witness :
  exists b, prn_ui (MkPbuf (replicate PRINT_BUF_MAX 0) 0) UINT64_MAX = Ok b /\
    strtoui (print_buf b) 10 = Ok (UINT64_MAX, print_buf_i b).
Proof.
  apply (print_parse_roundtrip (replicate PRINT_BUF_MAX 0) UINT64_MAX).
  - reflexivity.
  - unfold UINT64_MAX. lia.
Defined.
