(* ===== verification/Vmm.v ===== *)
(** * Page tables on x86-64

    [map_page], [get_next_level] and [map_pages] of [common/mm/vmm.c] as built for
    x86.  Page tables live in physical memory; what they need of it is the
    interface [TableMemory] with the laws [TableLaws]: 64-bit loads and stores in
    pages that were handed out, and a page allocator returning zeroed pages that
    nobody else uses.  [VmmPmm] shows that the physical allocator provides it. *)

From S2P Require Import Prelude CInt.

(** ** The interface to physical memory *)
Class TableMemory (M : Type) := {
  pt_read : M -> Z -> Z;                  (** the 64-bit word at an address *)
  pt_write : M -> Z -> Z -> M;
  pt_alloc : M -> res (Z * M);            (** [ext_mem_alloc(PT_SIZE)] *)
}.

Definition PT_SIZE : Z := 0x1000.

Definition table_page (p : Z) : Prop := 0 <= p < 2 ^ 48 /\ p mod 4096 = 0.

Definition slot_ok (i : Z) : Prop := 0 <= i < 512.

Class TableLaws (M : Type) `{TableMemory M} := {
  mem_ok : M -> Prop;
  owned : M -> Z -> Prop;
  alloc_msg : string -> Prop;             (** how the allocator may panic *)
  owned_page : forall s p, owned s p -> table_page p;
  pt_write_ok : forall s p i v, mem_ok s -> owned s p -> slot_ok i -> 0 <= v < 2 ^ 64 ->
    mem_ok (pt_write s (p + 8 * i) v) /\ (forall q, owned s q -> owned (pt_write s (p + 8 * i) v) q);
  pt_read_write : forall s p i v q j, mem_ok s -> owned s p -> owned s q -> slot_ok i -> slot_ok j ->
    0 <= v < 2 ^ 64 ->
    pt_read (pt_write s (p + 8 * i) v) (q + 8 * j) =
    if p + 8 * i =? q + 8 * j then v else pt_read s (q + 8 * j);
  (** a fresh zeroed page; the pages in use keep their contents *)
  pt_alloc_ok : forall s, mem_ok s ->
    res_post (fun '(p, s') =>
        mem_ok s' /\ ~ owned s p /\ owned s' p /\ (forall i, slot_ok i -> pt_read s' (p + 8 * i) = 0) /\
        forall q, owned s q -> owned s' q /\ forall i, slot_ok i -> pt_read s' (q + 8 * i) = pt_read s (q + 8 * i))
      alloc_msg (pt_alloc s);
}.

(** ** Constants *)
Definition VMM_FLAG_WRITE : Z := Z.shiftl 1 1.
Definition VMM_FLAG_NOEXEC : Z := Z.shiftl 1 63.
Definition VMM_FLAG_FB : Z := Z.lor (Z.shiftl 1 3) (Z.shiftl 1 12).
Definition VMM_MAX_LEVEL : nat := 3.

Definition PT_FLAG_VALID : Z := Z.shiftl 1 0.
Definition PT_FLAG_WRITE : Z := Z.shiftl 1 1.
Definition PT_FLAG_USER : Z := Z.shiftl 1 2.
Definition PT_FLAG_LARGE : Z := Z.shiftl 1 7.
Definition PT_FLAG_NX : Z := Z.shiftl 1 63.
Definition PT_PADDR_MASK : Z := 0x0000FFFFFFFFF000.
Definition PT_TABLE_FLAGS : Z := Z.lor (Z.lor PT_FLAG_VALID PT_FLAG_WRITE) PT_FLAG_USER.

Definition PT_IS_TABLE (x : Z) : bool := Z.land x (Z.lor PT_FLAG_VALID PT_FLAG_LARGE) =? PT_FLAG_VALID.
Definition PT_IS_LARGE (x : Z) : bool :=
  Z.land x (Z.lor PT_FLAG_VALID PT_FLAG_LARGE) =? Z.lor PT_FLAG_VALID PT_FLAG_LARGE.
Definition PT_TO_VMM_FLAGS (x : Z) : Z := Z.land x (Z.lor (Z.lor PT_FLAG_WRITE PT_FLAG_NX) VMM_FLAG_FB).
Definition pte_new (addr flags : Z) : Z := Z.lor addr flags.
Definition pte_addr (pte : Z) : Z := Z.land pte PT_PADDR_MASK.

(** [enum page_size] is the index into [page_sizes]. *)
Definition Size4KiB : nat := 0.
Definition Size2MiB : nat := 1.
Definition Size1GiB : nat := 2.
Definition page_sizes : list Z := [0x1000; 0x200000; 0x40000000; 0x8000000000; 0x1000000000000].

Record pagemap := MkPagemap { levels : Z; top_level : Z }.

(** The entry flags: always present, without the framebuffer bits if the
    processor has no page attribute table. *)
Definition effective_flags (pat : bool) (flags : Z) : Z :=
  let flags := Z.lor flags PT_FLAG_VALID in
  if negb (Z.land flags VMM_FLAG_FB =? 0) && negb pat then Z.land flags (u64 (Z.lnot VMM_FLAG_FB)) else flags.

(** In a 4 KiB entry the attribute-table bit is 7 instead of 12. *)
Definition small_flags (flags : Z) : Z :=
  if negb (Z.land flags (Z.shiftl 1 12) =? 0)
  then Z.lor (Z.land flags (u64 (Z.lnot (Z.shiftl 1 12)))) (Z.shiftl 1 7) else flags.

Section Vmm.
Context {M : Type} `{TableMemory M}.
(** What [cpuid] reports: the page attribute table and 1 GiB pages. *)
Variables pat_supported gib_supported : bool.

Definition new_pagemap (s : M) (five_level : bool) : res (pagemap * M) :=
  let! (top, s) := pt_alloc s in
  Ok (MkPagemap (if five_level then 5 else 4) top, s).

(** [(virt_addr & (0x1ff << k)) >> k] with [k = 12 + 9 * level] *)
Definition entry_index (virt : Z) (level : nat) : Z :=
  let k := 12 + 9 * Z.of_nat level in Z.shiftr (Z.land virt (Z.shiftl 0x1ff k)) k.

(** [for (i = 0; i < total; i += step) map_page(..., virt + i, phys + i, flags, size)] *)
Definition map_range (map : M -> Z -> Z -> res M) (total step virt phys : Z) (s : M) : res M :=
  loop (fun '(s, i) =>
          if total <=? i then Ok (inr s)
          else let! s := map s (u64 (virt + i)) (u64 (phys + i)) in Ok (inl (s, i + step)))
       (fun '(_, i) => Z.max 0 (total - i)) (s, 0).

Definition get_next_level (map_page : M -> Z -> Z -> Z -> nat -> res M) (s : M)
    (current_level virt : Z) (desired_sz level_idx : nat) (entry : Z) : res (Z * M) :=
  let addr := current_level + 8 * entry in
  let e := pt_read s addr in
  if PT_IS_TABLE e then Ok (pte_addr e, s)
  else if PT_IS_LARGE e then
    if (VMM_MAX_LEVEL <=? level_idx)%nat || (level_idx =? 0)%nat
    then Panic "Unexpected level in get_next_level"
    else if (VMM_MAX_LEVEL <=? desired_sz)%nat then Panic "Unexpected page size in get_next_level"
    else
      let! old_page_size := rd page_sizes level_idx in
      let! new_page_size := rd page_sizes desired_sz in
      let old_flags := PT_TO_VMM_FLAGS e in
      let old_phys := pte_addr e in
      let old_virt := u64 (Z.land virt (Z.lnot (old_page_size - 1))) in
      if negb (Z.land old_phys (old_page_size - 1) =? 0)
      then Panic "Unexpected page table entry address in get_next_level"
      else
        let! (ret, s) := pt_alloc s in
        let s := pt_write s addr (pte_new ret PT_TABLE_FLAGS) in
        let! s := map_range (fun s v p => map_page s v p old_flags desired_sz)
                    old_page_size new_page_size old_virt old_phys s in
        Ok (ret, s)
  else
    let! (ret, s) := pt_alloc s in
    Ok (ret, pt_write s addr (pte_new ret PT_TABLE_FLAGS)).

(** [fuel] bounds the recursion through [get_next_level] and the emulation of
    1 GiB pages; three is enough, which the theorems below establish. *)
Fixpoint map_page (fuel : nat) (pm : pagemap) (s : M) (virt phys flags : Z) (pg_size : nat) : res M :=
  match fuel with
  | O => NoFuel
  | S fuel =>
      let flags := effective_flags pat_supported flags in
      let next := get_next_level (map_page fuel pm) in
      let! (pml4, s) := if levels pm =? 5
                        then next s (top_level pm) virt pg_size 4%nat (entry_index virt 4)
                        else Ok (top_level pm, s) in
      let! (pml3, s) := next s pml4 virt pg_size 3%nat (entry_index virt 3) in
      if (pg_size =? Size1GiB)%nat then
        if gib_supported then
          Ok (pt_write s (pml3 + 8 * entry_index virt 2) (Z.lor (Z.lor phys flags) PT_FLAG_LARGE))
        else
          map_range (fun s v p => map_page fuel pm s v p flags Size2MiB) 0x40000000 0x200000 virt phys s
      else
        let! (pml2, s) := next s pml3 virt pg_size 2%nat (entry_index virt 2) in
        if (pg_size =? Size2MiB)%nat then
          Ok (pt_write s (pml2 + 8 * entry_index virt 1) (Z.lor (Z.lor phys flags) PT_FLAG_LARGE))
        else
          let! (pml1, s) := next s pml2 virt pg_size 1%nat (entry_index virt 1) in
          Ok (pt_write s (pml1 + 8 * entry_index virt 0) (Z.lor phys (small_flags flags)))
  end.

Definition MAP_FUEL : nat := 3.

(** [map_pages]: a large page based at 0 is never used. *)
Definition large_ok (virt phys i count size : Z) : bool :=
  negb (u64 (phys + i) =? 0) && (Z.land (u64 (phys + i)) (size - 1) =? 0) &&
  (Z.land (u64 (virt + i)) (size - 1) =? 0) && (size <=? count - i).

Definition map_pages_body (pm : pagemap) (virt phys flags count : Z) (st : M * Z) : res (M * Z + M) :=
  let '(s, i) := st in
  if count <=? i then Ok (inr s)
  else if large_ok virt phys i count 0x40000000 then
    let! s := map_page MAP_FUEL pm s (u64 (virt + i)) (u64 (phys + i)) flags Size1GiB in
    Ok (inl (s, i + 0x40000000))
  else if large_ok virt phys i count 0x200000 then
    let! s := map_page MAP_FUEL pm s (u64 (virt + i)) (u64 (phys + i)) flags Size2MiB in
    Ok (inl (s, i + 0x200000))
  else
    let! s := map_page MAP_FUEL pm s (u64 (virt + i)) (u64 (phys + i)) flags Size4KiB in
    Ok (inl (s, i + 0x1000)).

Definition map_pages (pm : pagemap) (s : M) (virt phys flags count : Z) : res M :=
  if negb (virt mod 0x1000 =? 0) || negb (phys mod 0x1000 =? 0) || negb (count mod 0x1000 =? 0)
  then Panic "vmm: Misaligned call to map_pages()"
  else loop (map_pages_body pm virt phys flags count) (fun '(_, i) => Z.max 0 (count - i)) (s, 0).
End Vmm.

(** ** What the processor makes of the tables

    Four- or five-level translation (Intel SDM volume 3, section 5.5): present
    bit 0, writable 1, write-through 3, page size 7, execute-disable 63; the
    attribute-table bit is 7 in a 4 KiB entry and 12 in a large one.  Write and
    execute permission are restricted at every level. *)
Record attrs := MkAttrs { at_write : bool; at_noexec : bool; at_pwt : bool; at_pat : bool }.

Definition shift_of (l : nat) : Z := 12 + 9 * Z.of_nat l.

Definition index (l : nat) (v : Z) : Z := v / 2 ^ shift_of l mod 512.

(** Bits 51 to [k] of an entry. *)
Definition hw_addr (e k : Z) : Z := e mod 2 ^ 52 / 2 ^ k * 2 ^ k.

Definition restrict (e : Z) (r : option (Z * attrs)) : option (Z * attrs) :=
  match r with
  | None => None
  | Some (p, a) => Some (p, MkAttrs (at_write a && Z.testbit e 1) (at_noexec a || Z.testbit e 63) (at_pwt a) (at_pat a))
  end.

Fixpoint translate {M : Type} `{TableMemory M} (s : M) (l : nat) (table v : Z) : option (Z * attrs) :=
  let e := pt_read s (table + 8 * index l v) in
  if negb (Z.testbit e 0) then None
  else match l with
       | O => Some (hw_addr e 12 + v mod 2 ^ 12,
                    MkAttrs (Z.testbit e 1) (Z.testbit e 63) (Z.testbit e 3) (Z.testbit e 7))
       | S l' =>
           if Z.testbit e 7 then
             Some (hw_addr e (shift_of l) + v mod 2 ^ shift_of l,
                   MkAttrs (Z.testbit e 1) (Z.testbit e 63) (Z.testbit e 3) (Z.testbit e 12))
           else restrict e (translate s l' (hw_addr e 12) v)
       end.

(** ** The entries the code writes *)
Inductive pte := Empty | Table (p : Z) | Leaf (phys : Z) (w nx fb : bool).

Definition encode (l : nat) (x : pte) : Z :=
  match x with
  | Empty => 0
  | Table p => p + 7
  | Leaf phys w nx fb =>
      phys + 1 + 2 * Z.b2z w + 8 * Z.b2z fb
      + (if (l =? 0)%nat then 128 * Z.b2z fb else 128 + 4096 * Z.b2z fb) + 2 ^ 63 * Z.b2z nx
  end.

Definition pte_ok (l : nat) (x : pte) : Prop :=
  match x with
  | Empty => True
  | Table p => table_page p /\ (1 <= l)%nat
  | Leaf phys _ _ _ => (l <= 2)%nat /\ 0 <= phys < 2 ^ 48 /\ phys mod 2 ^ shift_of l = 0
  end.

Definition vmm_flags (w nx fb : bool) : Z := 2 * Z.b2z w + 2 ^ 63 * Z.b2z nx + 4104 * Z.b2z fb.

(** *** Bit arithmetic *)
Ltac dlia := Z.to_euclidean_division_equations; lia.

Lemma land_field e n k : 0 <= n -> 0 <= k -> Z.land e (Z.shiftl (Z.ones k) n) = (e / 2 ^ n mod 2 ^ k) * 2 ^ n.
Proof.
  intros Hn Hk. rewrite <- Z.land_ones, <- Z.shiftr_div_pow2, <- Z.shiftl_mul_pow2 by lia.
  apply Z.bits_inj'. intros m Hm. rewrite Z.land_spec, !Z.shiftl_spec by lia.
  destruct (decide (n <= m)).
  - rewrite Z.land_spec, Z.shiftr_spec by lia. by replace (m - n + n) with m by lia.
  - rewrite !(Z.testbit_neg_r _ (m - n)) by lia. by rewrite andb_false_r.
Qed.

Lemma land_bit e n : 0 <= n -> Z.land e (Z.shiftl 1 n) = 2 ^ n * Z.b2z (Z.testbit e n).
Proof.
  intros Hn. rewrite Z.testbit_spec' by lia. change 1 with (Z.ones 1) at 1.
  rewrite land_field by lia. change (2 ^ 1) with 2. lia.
Qed.

Lemma testbit_div e n b : 0 <= n -> (e / 2 ^ n) mod 2 = Z.b2z b -> Z.testbit e n = b.
Proof. intros Hn He. apply Z.b2z_inj. by rewrite Z.testbit_spec'. Qed.

Lemma lor_above k a b : 0 <= k -> a mod 2 ^ k = 0 -> 0 <= b < 2 ^ k -> Z.lor a b = a + b.
Proof.
  intros Hk Ha Hb. assert (a = a / 2 ^ k * 2 ^ k) as E.
  { pose proof (Z.pow_pos_nonneg 2 k ltac:(lia) Hk). pose proof (Z.div_mod a (2 ^ k) ltac:(lia)). lia. }
  replace (Z.lor a b) with (Z.lor (a / 2 ^ k * 2 ^ k) b) by (by rewrite <- E). rewrite lor_low by lia. lia.
Qed.

(** A physical address below the no-execute bit, with flags around it. *)
Lemma lor_flags k phys low nx :
  0 <= k <= 48 -> 0 <= phys < 2 ^ 48 -> phys mod 2 ^ k = 0 -> 0 <= low < 2 ^ k ->
  Z.lor phys (low + 2 ^ 63 * Z.b2z nx) = phys + low + 2 ^ 63 * Z.b2z nx.
Proof.
  intros Hk Hp Ha Hl. pose proof (Z.pow_le_mono_r 2 k 48 ltac:(lia) ltac:(lia)).
  assert (low + 2 ^ 63 * Z.b2z nx = Z.lor (2 ^ 63 * Z.b2z nx) low) as ->.
  { rewrite (lor_above 63); [lia|lia| |lia]. rewrite Z.mul_comm. apply Z.mod_mul. lia. }
  rewrite (Z.lor_comm (2 ^ 63 * _)), Z.lor_assoc, (lor_above k phys low) by (done || lia). rewrite Z.lor_comm.
  rewrite (lor_above 63); [lia|lia| |lia]. rewrite Z.mul_comm. apply Z.mod_mul. lia.
Qed.

Lemma entry_index_spec virt l : entry_index virt l = index l virt.
Proof.
  unfold entry_index, index, shift_of. change 0x1ff with (Z.ones 9).
  rewrite land_field by lia. rewrite Z.shiftr_div_pow2, Z.div_mul by lia. done.
Qed.

Lemma index_slot l v : slot_ok (index l v).
Proof. apply Z.mod_pos_bound. lia. Qed.

(** *** Decoding what was encoded *)
Lemma land_valid_large e :
  Z.land e (Z.lor PT_FLAG_VALID PT_FLAG_LARGE) = Z.b2z (Z.testbit e 0) + 128 * Z.b2z (Z.testbit e 7).
Proof.
  unfold PT_FLAG_VALID, PT_FLAG_LARGE. rewrite Z.lor_comm, Z.land_lor_distr_r, !land_bit by lia.
  change (2 ^ 0) with 1. change (2 ^ 7) with 128. assert (0 <= Z.b2z (Z.testbit e 0) < 2 ^ 7) by (destruct (Z.testbit e 0); cbn; lia).
  rewrite (lor_above 7); [lia|lia| |lia]. rewrite Z.mul_comm. apply Z.mod_mul. lia.
Qed.

Lemma is_table_bits e : PT_IS_TABLE e = Z.testbit e 0 && negb (Z.testbit e 7).
Proof. unfold PT_IS_TABLE. rewrite land_valid_large. by destruct (Z.testbit e 0), (Z.testbit e 7). Qed.

Lemma is_large_bits e : PT_IS_LARGE e = Z.testbit e 0 && Z.testbit e 7.
Proof. unfold PT_IS_LARGE. rewrite land_valid_large. by destruct (Z.testbit e 0), (Z.testbit e 7). Qed.

Lemma vmm_flags_bits e :
  PT_TO_VMM_FLAGS e = 2 * Z.b2z (Z.testbit e 1) + 2 ^ 63 * Z.b2z (Z.testbit e 63)
    + 8 * Z.b2z (Z.testbit e 3) + 4096 * Z.b2z (Z.testbit e 12).
Proof.
  unfold PT_TO_VMM_FLAGS. change (Z.lor (Z.lor PT_FLAG_WRITE PT_FLAG_NX) VMM_FLAG_FB) with
    (Z.lor (Z.shiftl 1 63) (Z.lor (Z.shiftl 1 12) (Z.lor (Z.shiftl 1 3) (Z.shiftl 1 1)))).
  rewrite !Z.land_lor_distr_r, !land_bit by lia.
  change (2 ^ 12) with 4096. change (2 ^ 3) with 8. change (2 ^ 1) with 2.
  by destruct (Z.testbit e 1), (Z.testbit e 3), (Z.testbit e 12), (Z.testbit e 63).
Qed.

Lemma pte_addr_spec e : pte_addr e = (e / 4096 mod 2 ^ 36) * 4096.
Proof.
  unfold pte_addr. change PT_PADDR_MASK with (Z.shiftl (Z.ones 36) 12). by rewrite land_field by lia.
Qed.

(** The levels of leaves, one by one. *)
Lemma leaf_level l phys w nx fb :
  pte_ok l (Leaf phys w nx fb) ->
  0 <= phys < 2 ^ 48 /\
  (l = 0%nat /\ phys mod 4096 = 0 \/ l = 1%nat /\ phys mod 2097152 = 0 \/ l = 2%nat /\ phys mod 1073741824 = 0).
Proof.
  intros (Hl & Hp & Hm). split; [done|]. destruct l as [|[|[|l]]]; [left|right; left|right; right|lia]; done.
Qed.

(** Decide a bit of an encoded entry. *)
Ltac bit_of := apply testbit_div; [lia|]; cbn [Z.b2z Nat.eqb]; dlia.

Lemma leaf_bits l phys w nx fb :
  pte_ok l (Leaf phys w nx fb) ->
  let e := encode l (Leaf phys w nx fb) in
  Z.testbit e 0 = true /\ Z.testbit e 1 = w /\ Z.testbit e 3 = fb /\ Z.testbit e 63 = nx /\
  Z.testbit e 7 = (if (l =? 0)%nat then fb else true) /\
  ((1 <= l)%nat -> Z.testbit e 12 = fb).
Proof.
  intros Hok e. destruct (leaf_level _ _ _ _ _ Hok) as (Hp & [[-> Hm]|[[-> Hm]|[-> Hm]]]); unfold e, encode;
    destruct w, nx, fb; split_and!; try (intros ?); try lia; try bit_of.
Qed.

Lemma leaf_addrs l phys w nx fb :
  pte_ok l (Leaf phys w nx fb) ->
  let e := encode l (Leaf phys w nx fb) in
  0 <= e < 2 ^ 64 /\ hw_addr e (shift_of l) = phys /\ ((1 <= l)%nat -> pte_addr e = phys + 4096 * Z.b2z fb).
Proof.
  intros Hok e. destruct (leaf_level _ _ _ _ _ Hok) as (Hp & [[-> Hm]|[[-> Hm]|[-> Hm]]]); unfold e, encode;
    rewrite pte_addr_spec; unfold hw_addr; cbn [Nat.eqb];
    try change (2 ^ shift_of 0) with 4096; try change (2 ^ shift_of 1) with 2097152;
    try change (2 ^ shift_of 2) with 1073741824;
    destruct w, nx, fb; cbn [Z.b2z]; split_and!; first [dlia | intros ?; dlia].
Qed.

Lemma table_bits p :
  table_page p ->
  let e := p + 7 in
  0 <= e < 2 ^ 64 /\ Z.testbit e 0 = true /\ Z.testbit e 1 = true /\ Z.testbit e 7 = false /\ Z.testbit e 63 = false /\
  hw_addr e 12 = p /\ pte_addr e = p /\ pte_new p PT_TABLE_FLAGS = e.
Proof.
  intros (Hp & Hm) e. unfold e. rewrite pte_addr_spec. unfold hw_addr.
  split_and!; try lia; try bit_of; try (change (2 ^ 12) with 4096; dlia).
  unfold pte_new. change PT_TABLE_FLAGS with 7. by apply (lor_above 12).
Qed.

(** For the eight combinations of flags there are. *)
Lemma effective_flags_again pat w nx fb :
  effective_flags pat (vmm_flags w nx (fb && pat) + 1) = vmm_flags w nx (fb && pat) + 1.
Proof. by destruct pat, w, nx, fb. Qed.

Lemma effective_flags_spec pat w nx fb : effective_flags pat (vmm_flags w nx fb) = vmm_flags w nx (fb && pat) + 1.
Proof. by destruct pat, w, nx, fb. Qed.

Lemma lor_small phys w nx fb :
  0 <= phys < 2 ^ 48 -> phys mod 2 ^ 12 = 0 ->
  Z.lor phys (small_flags (vmm_flags w nx fb + 1)) = encode 0 (Leaf phys w nx fb).
Proof.
  intros Hp Hm.
  assert (small_flags (vmm_flags w nx fb + 1) = (1 + 2 * Z.b2z w + 136 * Z.b2z fb) + 2 ^ 63 * Z.b2z nx) as ->
    by (by destruct w, nx, fb).
  rewrite (lor_flags 12) by (try done; destruct w, fb; cbn [Z.b2z]; lia). unfold encode. cbn [Nat.eqb]. lia.
Qed.

Lemma lor_large l phys w nx fb :
  (1 <= l)%nat -> pte_ok l (Leaf phys w nx fb) ->
  Z.lor (Z.lor phys (vmm_flags w nx fb + 1)) PT_FLAG_LARGE = encode l (Leaf phys w nx fb).
Proof.
  intros Hl Hok. rewrite <- Z.lor_assoc.
  assert (Z.lor (vmm_flags w nx fb + 1) PT_FLAG_LARGE = (129 + 2 * Z.b2z w + 4104 * Z.b2z fb) + 2 ^ 63 * Z.b2z nx) as ->
    by (by destruct w, nx, fb).
  destruct (leaf_level _ _ _ _ _ Hok) as (Hp & Hm).
  rewrite (lor_flags 21).
  - unfold encode. rewrite (proj2 (Nat.eqb_neq l 0)) by lia. lia.
  - lia.
  - done.
  - change (2 ^ 21) with 2097152. destruct Hm as [[-> _]|[[_ Hm]|[_ Hm]]]; [lia|done|dlia].
  - destruct w, fb; cbn [Z.b2z]; lia.
Qed.

(** ** The tree of tables *)
Section Tree.
Context {M : Type} `{TableLaws M}.
(** The level of the top table (3 or 4) and its address. *)
Variable L : nat.
Variable top : Z.

(** The part of a virtual address that translation looks at. *)
Definition vn (v : Z) : Z := v mod 2 ^ shift_of (S L).

(** Two addresses use the same entry at level [l]. *)
Definition same (l : nat) (v u : Z) : Prop := vn v / 2 ^ shift_of l = vn u / 2 ^ shift_of l.

#[export] Instance same_dec l v u : Decision (same l v u).
Proof. unfold same. apply _. Defined.

Definition next_table (e : Z) : option Z := if PT_IS_TABLE e then Some (hw_addr e 12) else None.

(** The table of each level on the way to [v]. *)
Fixpoint tbl_down (s : M) (d : nat) (v : Z) : option Z :=
  match d with
  | O => Some top
  | S d => match tbl_down s d v with
           | None => None
           | Some a => next_table (pt_read s (a + 8 * index (L - d) v))
           end
  end.

Definition tbl (s : M) (l : nat) (v : Z) : option Z := tbl_down s (L - l) v.

Definition ent (s : M) (a : Z) (l : nat) (v : Z) : Z := pt_read s (a + 8 * index l v).

Record WF (s : M) : Prop := {
  wf_mem : mem_ok s;
  wf_owned : forall l v a, (l <= L)%nat -> tbl s l v = Some a -> owned s a;
  wf_inj : forall l v l' v' a, (l <= L)%nat -> (l' <= L)%nat -> tbl s l v = Some a -> tbl s l' v' = Some a ->
    l = l' /\ same (S l) v v';
  wf_ent : forall l v a, (l <= L)%nat -> tbl s l v = Some a -> exists x, pte_ok l x /\ ent s a l v = encode l x;
}.

(** No large page above level [m] on the way to [v]. *)
Definition unsplit (s : M) (m : nat) (v : Z) : Prop :=
  forall l a, (m < l <= L)%nat -> tbl s l v = Some a -> PT_IS_LARGE (ent s a l v) = false.

(** *** Addresses *)
Lemma shift_S l : 2 ^ shift_of (S l) = 2 ^ shift_of l * 512.
Proof. unfold shift_of. rewrite Nat2Z.inj_succ. change 512 with (2 ^ 9). rewrite <- Z.pow_add_r by lia. f_equal. lia. Qed.

Lemma shift_pos l : 0 < 2 ^ shift_of l.
Proof. apply Z.pow_pos_nonneg; unfold shift_of; lia. Qed.

Lemma shift_split l k : (l <= k)%nat -> 2 ^ shift_of k = 2 ^ shift_of l * 2 ^ (9 * Z.of_nat (k - l)).
Proof. intros Hl. unfold shift_of. rewrite <- Z.pow_add_r by lia. f_equal. lia. Qed.

Lemma index_vn l v : (l <= L)%nat -> index l v = vn v / 2 ^ shift_of l mod 512.
Proof.
  intros Hl. unfold index, vn. rewrite (shift_split l (S L)) by lia.
  pose proof (shift_pos l) as Hp. assert (0 < 2 ^ (9 * Z.of_nat (S L - l))) as Hq by (apply Z.pow_pos_nonneg; lia).
  rewrite Z.rem_mul_r by lia. rewrite (Z.add_comm (v mod _)), (Z.mul_comm (2 ^ shift_of l)), Z.div_add_l by lia.
  rewrite (Z.div_small (v mod _)) by (apply Z.mod_pos_bound; lia). rewrite Z.add_0_r.
  replace (9 * Z.of_nat (S L - l)) with (9 + 9 * Z.of_nat (L - l)) by lia. rewrite Z.pow_add_r by lia.
  change (2 ^ 9) with 512. rewrite Z.rem_mul_r by (try lia; apply Z.pow_pos_nonneg; lia).
  rewrite (Z.mul_comm 512), Z.mod_add by lia. by rewrite Z.mod_mod by lia.
Qed.

Lemma same_split l v u : (l <= L)%nat -> same l v u <-> same (S l) v u /\ index l v = index l u.
Proof.
  intros Hl. unfold same. rewrite !(index_vn l) by done. rewrite shift_S.
  rewrite <- !Z.div_div by (try lia; apply shift_pos || (pose proof (shift_pos l); lia)).
  set (a := vn v / 2 ^ shift_of l). set (b := vn u / 2 ^ shift_of l). split; [by intros ->|].
  intros [E1 E2]. rewrite (Z.div_mod a 512), (Z.div_mod b 512) by lia. by rewrite E1, E2.
Qed.

Lemma same_up l k v u : (l <= k <= L)%nat -> same l v u -> same k v u.
Proof.
  intros [Hlk Hk]. induction Hlk as [|k Hlk IH]; [done|]. intros Hs.
  by destruct (proj1 (same_split k v u ltac:(lia)) (IH ltac:(lia) Hs)).
Qed.

Lemma same_top v u : same (S L) v u.
Proof. unfold same, vn. by rewrite !Z.div_small by (apply Z.mod_pos_bound, shift_pos). Qed.

Lemma same_sym l v u : same l v u -> same l u v.
Proof. unfold same. congruence. Qed.
Lemma same_trans l v u w : same l v u -> same l u w -> same l v w.
Proof. unfold same. congruence. Qed.

(** *** Walking down *)
Lemma down_ind (P : nat -> Prop) :
  P L -> (forall l, (l < L)%nat -> P (S l) -> P l) -> forall l, (l <= L)%nat -> P l.
Proof.
  intros HL Hs l Hl. remember (L - l)%nat as d eqn:Hd. revert l Hl Hd.
  induction d as [|d IH]; intros l Hl Hd; [by replace l with L by lia|].
  apply Hs; [lia|]. apply IH; lia.
Qed.

Lemma tbl_top s v : tbl s L v = Some top.
Proof. unfold tbl. by rewrite Nat.sub_diag. Qed.

Lemma tbl_step s l v : (l < L)%nat ->
  tbl s l v = match tbl s (S l) v with None => None | Some a => next_table (ent s a (S l) v) end.
Proof.
  intros Hl. unfold tbl. replace (L - l)%nat with (S (L - S l)) by lia. cbn [tbl_down].
  by replace (L - (L - S l))%nat with (S l) by lia.
Qed.

Lemma tbl_same s l v u : (l <= L)%nat -> same (S l) v u -> tbl s l v = tbl s l u.
Proof.
  revert l. apply (down_ind (fun l => same (S l) v u -> tbl s l v = tbl s l u)).
  - intros _. by rewrite !tbl_top.
  - intros l Hl IH Hs. rewrite (tbl_step s l v), (tbl_step s l u) by done. apply same_split in Hs as [Hs Hi]; [|lia].
    rewrite (IH Hs). destruct (tbl s (S l) u); [|done]. unfold ent. by rewrite Hi.
Qed.

(** Memories that agree on the entries used for [v]. *)
Lemma tbl_agree s s' v l0 :
  (forall l a, (l0 < l <= L)%nat -> tbl s l v = Some a -> ent s' a l v = ent s a l v) ->
  forall l, (l0 <= l)%nat -> (l <= L)%nat -> tbl s' l v = tbl s l v.
Proof.
  intros Ha l Hl0 Hl. revert l Hl Hl0. apply (down_ind (fun l => (l0 <= l)%nat -> tbl s' l v = tbl s l v)).
  - intros _. by rewrite !tbl_top.
  - intros l Hl IH Hl0. rewrite (tbl_step s' l v), (tbl_step s l v) by done. rewrite IH by lia.
    destruct (tbl s (S l) v) as [a|] eqn:E; [|done]. f_equal. apply Ha; [lia|done].
Qed.

Lemma translate_agree s s' v :
  (forall l a, (l <= L)%nat -> tbl s l v = Some a -> ent s' a l v = ent s a l v) ->
  translate s' L top v = translate s L top v.
Proof.
  intros Ha. assert (forall l a, (l <= L)%nat -> tbl s l v = Some a -> translate s' l a v = translate s l a v) as Hl.
  { induction l as [|l IH]; intros a Hl E; cbn [translate]; fold (ent s' a 0 v) (ent s a 0 v).
    - by rewrite (Ha 0%nat a Hl E).
    - fold (ent s' a (S l) v) (ent s a (S l) v). rewrite (Ha (S l) a Hl E).
      destruct (Z.testbit (ent s a (S l) v) 0) eqn:E0; cbn [negb]; [|done].
      destruct (Z.testbit (ent s a (S l) v) 7) eqn:E7; [done|]. f_equal. apply IH; [lia|].
      rewrite tbl_step by lia. rewrite E. unfold next_table. by rewrite is_table_bits, E0, E7. }
  apply Hl; [done|apply tbl_top].
Qed.

(** *** Entries of a well-formed tree *)
Lemma pte_range l x : pte_ok l x -> 0 <= encode l x < 2 ^ 64.
Proof.
  destruct x as [|p|phys w nx fb]; intros Hok; [cbn; lia| |by apply leaf_addrs].
  destruct Hok as [Hp _]. by destruct (table_bits p Hp) as (? & _).
Qed.

Lemma next_table_enc l x : (1 <= l)%nat -> pte_ok l x ->
  next_table (encode l x) = match x with Table p => Some p | _ => None end.
Proof.
  intros Hl Hok. unfold next_table. rewrite is_table_bits. destruct x as [|p|phys w nx fb]; [done| |].
  - destruct Hok as [Hp _]. destruct (table_bits p Hp) as (_ & E0 & _ & E7 & _ & Ha & _). cbn [encode].
    by rewrite E0, E7, Ha.
  - destruct (leaf_bits _ _ _ _ _ Hok) as (E0 & _ & _ & _ & E7 & _). rewrite E0, E7.
    by rewrite (proj2 (Nat.eqb_neq l 0)) by lia.
Qed.

Lemma is_large_enc l x : (1 <= l)%nat -> pte_ok l x ->
  PT_IS_LARGE (encode l x) = match x with Leaf _ _ _ _ => true | _ => false end.
Proof.
  intros Hl Hok. rewrite is_large_bits. destruct x as [|p|phys w nx fb]; [done| |].
  - destruct Hok as [Hp _]. destruct (table_bits p Hp) as (_ & E0 & _ & E7 & _). cbn [encode]. by rewrite E0, E7.
  - destruct (leaf_bits _ _ _ _ _ Hok) as (E0 & _ & _ & _ & E7 & _). rewrite E0, E7.
    by rewrite (proj2 (Nat.eqb_neq l 0)) by lia.
Qed.

Definition leaf_result (l : nat) (v : Z) (x : pte) : option (Z * attrs) :=
  match x with
  | Leaf phys w nx fb => Some (phys + v mod 2 ^ shift_of l, MkAttrs w nx fb fb)
  | _ => None
  end.

Lemma translate_enc s l a v x :
  pte_ok l x -> ent s a l v = encode l x ->
  translate s l a v = match x, l with Table p, S l' => translate s l' p v | _, _ => leaf_result l v x end.
Proof.
  intros Hok He. destruct l as [|l]; cbn [translate]; fold (ent s a 0 v); [|fold (ent s a (S l) v)]; rewrite He.
  - destruct x as [|p|phys w nx fb]; [done|destruct Hok; lia|].
    destruct (leaf_bits _ _ _ _ _ Hok) as (-> & -> & -> & -> & -> & _). cbn [negb Nat.eqb leaf_result].
    destruct (leaf_addrs _ _ _ _ _ Hok) as (_ & Ha & _). change (shift_of 0) with 12 in *. by rewrite Ha.
  - destruct x as [|p|phys w nx fb]; [done| |].
    + destruct Hok as [Hp _]. destruct (table_bits p Hp) as (_ & E0 & E1 & E7 & E63 & Ha & _). cbn [encode].
      rewrite E0, E7, Ha. cbn [negb]. unfold restrict. destruct (translate s l p v) as [[q [w nx pw pa]]|]; [|done].
      rewrite E1, E63. cbn. by rewrite andb_true_r, orb_false_r.
    + destruct (leaf_bits _ _ _ _ _ Hok) as (-> & -> & -> & -> & -> & E12). rewrite E12 by lia.
      cbn [negb Nat.eqb leaf_result]. by destruct (leaf_addrs _ _ _ _ _ Hok) as (_ & -> & _).
Qed.

(** The walk can be entered at any table on the way. *)
Lemma translate_tbl s v l a :
  WF s -> (l <= L)%nat -> tbl s l v = Some a -> translate s L top v = translate s l a v.
Proof.
  intros Hwf Hl. revert l Hl a. apply (down_ind (fun l => forall a, tbl s l v = Some a -> translate s L top v = translate s l a v)).
  - intros a E. rewrite tbl_top in E. by injection E as <-.
  - intros l Hl IH a E. rewrite tbl_step in E by done. destruct (tbl s (S l) v) as [b|] eqn:Eb; [|done].
    destruct (wf_ent s Hwf (S l) v b ltac:(lia) Eb) as (x & Hok & He). rewrite He, next_table_enc in E by (done || lia).
    rewrite (IH b eq_refl). rewrite (translate_enc s (S l) b v x Hok He). destruct x; try done. by injection E as <-.
Qed.

Lemma tbl_none s v l k : tbl s l v = None -> (k <= l)%nat -> (l <= L)%nat -> tbl s k v = None.
Proof.
  intros E Hk Hl. remember (l - k)%nat as d eqn:Hd. revert k Hk Hd. induction d as [|d IH]; intros k Hk Hd.
  - by replace k with l by lia.
  - rewrite tbl_step by lia. by rewrite (IH (S k)) by lia.
Qed.

(** Above a table of the way there are only tables. *)
Lemma above_table s v k b l a :
  tbl s k v = Some b -> (k < l)%nat -> (l <= L)%nat -> tbl s l v = Some a -> PT_IS_LARGE (ent s a l v) = false.
Proof.
  intros Ek Hk Hl E. destruct (PT_IS_LARGE (ent s a l v)) eqn:El; [|done].
  assert (tbl s (l - 1) v = None) as En.
  { rewrite tbl_step by lia. replace (S (l - 1)) with l by lia. rewrite E. unfold next_table.
    rewrite is_large_bits in El. rewrite is_table_bits. by destruct (Z.testbit _ 0), (Z.testbit _ 7). }
  by rewrite (tbl_none s v (l - 1) k En) in Ek by lia.
Qed.

(** *** Writing an entry *)
Section Write.
Variable s : M.
Variables (l0 : nat) (v0 a0 : Z) (x : pte).
Hypothesis Hwf : WF s.
Hypothesis Hl0 : (l0 <= L)%nat.
Hypothesis Ha0 : tbl s l0 v0 = Some a0.
Hypothesis Hx : pte_ok l0 x.

Let s' : M := pt_write s (a0 + 8 * index l0 v0) (encode l0 x).

Lemma write_mem : mem_ok s' /\ forall q, owned s q -> owned s' q.
Proof.
  apply pt_write_ok; [apply (wf_mem s Hwf)|by apply (wf_owned s Hwf l0 v0)|apply index_slot|by apply pte_range].
Qed.

Lemma page_slots p q i j : table_page p -> table_page q -> slot_ok i -> slot_ok j ->
  p + 8 * i = q + 8 * j -> p = q /\ i = j.
Proof. intros [Hp Mp] [Hq Mq] Hi Hj. unfold slot_ok in *. dlia. Qed.

(** Only the entry of the addresses that share it with [v0] changes. *)
Lemma write_ent l v a : (l <= L)%nat -> tbl s l v = Some a ->
  ent s' a l v = if decide (l = l0 /\ same l0 v v0) then encode l0 x else ent s a l v.
Proof.
  intros Hl E. unfold ent, s'. pose proof (wf_owned s Hwf l v a Hl E) as Ho. pose proof (wf_owned s Hwf l0 v0 a0 Hl0 Ha0) as Ho0.
  rewrite pt_read_write; [|apply (wf_mem s Hwf)|done|done|apply index_slot|apply index_slot|by apply pte_range].
  case_if.
  - apply page_slots in Hb as [Ea Ei]; [|by eapply owned_page|by eapply owned_page|apply index_slot|apply index_slot].
    subst a. destruct (wf_inj s Hwf l v l0 v0 a0 Hl Hl0 E Ha0) as [-> Hs].
    rewrite decide_True; [done|]. split; [done|]. by apply same_split.
  - rewrite decide_False; [done|]. intros [-> Hs]. apply same_split in Hs as [Hs Hi]; [|done].
    rewrite (tbl_same s l0 v v0 Hl0 Hs), Ha0 in E. injection E as ->. by rewrite Hi in Hb.
Qed.

Lemma write_tbl_above l v : (l0 <= l)%nat -> (l <= L)%nat -> tbl s' l v = tbl s l v.
Proof.
  apply tbl_agree. intros k a Hk E. rewrite write_ent by (done || lia). rewrite decide_False; [done|lia].
Qed.

Lemma write_tbl_other l v : ~ same l0 v v0 -> (l <= L)%nat -> tbl s' l v = tbl s l v.
Proof.
  intros Hn Hl. apply (tbl_agree s s' v 0); [|lia|done]. intros k a Hk E.
  rewrite write_ent by (done || lia). rewrite decide_False; [done|tauto].
Qed.

Lemma write_tbl_below l v : same l0 v v0 -> (S l = l0)%nat ->
  tbl s' l v = match x with Table p => Some p | _ => None end.
Proof.
  intros Hs Hl. rewrite tbl_step by lia. rewrite Hl, write_tbl_above by lia.
  apply same_split in Hs as Hs1; [|done]. rewrite (tbl_same s l0 v v0 Hl0 (proj1 Hs1)), Ha0.
  rewrite write_ent; [|done|by rewrite (tbl_same s l0 v v0 Hl0 (proj1 Hs1))].
  rewrite decide_True by done. apply next_table_enc; [lia|done].
Qed.

Lemma write_translate_other v : ~ same l0 v v0 -> translate s' L top v = translate s L top v.
Proof.
  intros Hn. apply translate_agree. intros l a Hl E. rewrite write_ent by done. rewrite decide_False; [done|tauto].
Qed.

Lemma write_ent_same v : same l0 v v0 -> tbl s' l0 v = Some a0 /\ ent s' a0 l0 v = encode l0 x.
Proof.
  intros Hs. apply same_split in Hs as Hs1; [|done].
  assert (tbl s l0 v = Some a0) as E by (rewrite (tbl_same s l0 v v0 Hl0 (proj1 Hs1)); done).
  split; [by rewrite write_tbl_above by lia|]. rewrite write_ent by done. by rewrite decide_True.
Qed.

(** *** A leaf or nothing *)
Section Plain.
Hypothesis Hplain : forall p, x <> Table p.

Lemma write_plain_below v : same l0 v v0 -> forall l, (l < l0)%nat -> tbl s' l v = None.
Proof.
  intros Hs l Hl. apply (tbl_none s' v (l0 - 1)); [|lia|lia].
  rewrite write_tbl_below by (done || lia). destruct x; try done. by destruct (Hplain p).
Qed.

Lemma write_plain_tbl l v a : (l <= L)%nat -> tbl s' l v = Some a -> tbl s l v = Some a.
Proof.
  intros Hl E. destruct (decide (same l0 v v0)) as [Hs|Hn]; [|by rewrite <- (write_tbl_other l v Hn Hl)].
  destruct (decide (l0 <= l)%nat); [by rewrite <- (write_tbl_above l v) by lia|].
  by rewrite write_plain_below in E by (done || lia).
Qed.

Lemma wf_write_plain : WF s'.
Proof.
  split.
  - apply write_mem.
  - intros l v a Hl E. apply write_mem. eapply wf_owned; [done..|]. by apply write_plain_tbl.
  - intros l v l' v' a Hl Hl' E E'. eapply wf_inj; [done..| |]; by apply write_plain_tbl.
  - intros l v a Hl E. apply write_plain_tbl in E; [|done]. rewrite write_ent by done.
    destruct (decide _) as [[-> _]|_]; [by exists x|]. by eapply wf_ent.
Qed.

Lemma write_plain_translate v :
  translate s' L top v = if decide (same l0 v v0) then leaf_result l0 v x else translate s L top v.
Proof.
  destruct (decide _) as [Hs|Hn]; [|by apply write_translate_other].
  destruct (write_ent_same v Hs) as [E He]. rewrite (translate_tbl s' v l0 a0 wf_write_plain Hl0 E).
  rewrite (translate_enc s' l0 a0 v x Hx He). destruct x; try done. by destruct (Hplain p).
Qed.

Lemma write_plain_unsplit m v : (l0 <= m)%nat -> unsplit s m v -> unsplit s' m v.
Proof.
  intros Hm Hu l a Hl E. apply write_plain_tbl in E as E1; [|lia]. rewrite write_ent by (done || lia).
  rewrite decide_False by lia. by apply Hu.
Qed.
End Plain.

(** *** A new table *)
Section NewTable.
Variable p : Z.
Hypothesis Hp : x = Table p.
Hypothesis Howned : owned s p.
Hypothesis Hfresh : forall l v, (l <= L)%nat -> tbl s l v <> Some p.
Hypothesis Hzero : forall i, slot_ok i -> pt_read s (p + 8 * i) = 0.

Lemma new_level : (1 <= l0)%nat.
Proof. pose proof Hx as H1. rewrite Hp in H1. apply H1. Qed.

Lemma new_zero i : slot_ok i -> pt_read s' (p + 8 * i) = 0.
Proof.
  intros Hi. unfold s'. pose proof (wf_owned s Hwf l0 v0 a0 Hl0 Ha0) as Ho0.
  rewrite pt_read_write; [|apply (wf_mem s Hwf)|done|done|apply index_slot|done|by apply pte_range].
  case_if; [|by apply Hzero].
  apply page_slots in Hb as [E _]; [|by eapply owned_page|by eapply owned_page|apply index_slot|done].
  exfalso. apply (Hfresh l0 v0 Hl0). by rewrite Ha0, E.
Qed.

Lemma new_tbl_child v l : same l0 v v0 -> (S l = l0)%nat -> tbl s' l v = Some p.
Proof. intros Hs Hl. rewrite write_tbl_below by done. by rewrite Hp. Qed.

Lemma new_tbl_below v : same l0 v v0 -> forall l, (S l < l0)%nat -> tbl s' l v = None.
Proof.
  intros Hs l Hl. apply (tbl_none s' v (l0 - 2)); [|lia|lia]. rewrite tbl_step by lia.
  rewrite (new_tbl_child v) by (done || lia). unfold next_table, ent. by rewrite new_zero by apply index_slot.
Qed.

Lemma new_tbl l v a : (l <= L)%nat -> tbl s' l v = Some a ->
  tbl s l v = Some a \/ S l = l0 /\ same l0 v v0 /\ a = p.
Proof.
  intros Hl E. destruct (decide (same l0 v v0)) as [Hs|Hn]; [|left; by rewrite <- (write_tbl_other l v Hn Hl)].
  destruct (decide (l0 <= l)%nat); [left; by rewrite <- (write_tbl_above l v) by lia|].
  destruct (decide (S l = l0)) as [El|Nl].
  - rewrite (new_tbl_child v l Hs El) in E. injection E as <-. by right.
  - by rewrite new_tbl_below in E by (done || lia).
Qed.

Lemma wf_write_table : WF s'.
Proof.
  pose proof new_level as Hl1. split.
  - apply write_mem.
  - intros l v a Hl E. apply write_mem. destruct (new_tbl l v a Hl E) as [E1|(_ & _ & ->)]; [|done]. by eapply wf_owned.
  - intros l v l' v' a Hl Hl' E E'.
    destruct (new_tbl l v a Hl E) as [E1|(E1 & Hs & Ea)], (new_tbl l' v' a Hl' E') as [E2|(E2 & Hs' & Ea')].
    + by eapply wf_inj.
    + rewrite Ea' in E1. by destruct (Hfresh l v Hl).
    + rewrite Ea in E2. by destruct (Hfresh l' v' Hl').
    + split; [lia|]. rewrite E1. eapply same_trans; [exact Hs|]. by apply same_sym.
  - intros l v a Hl E. destruct (new_tbl l v a Hl E) as [E1|(E1 & Hs & ->)].
    + rewrite write_ent by done. destruct (decide _) as [[-> _]|_]; [by exists x|]. by eapply wf_ent.
    + exists Empty. split; [done|]. unfold ent. by rewrite new_zero by apply index_slot.
Qed.

Lemma new_translate v :
  translate s' L top v = if decide (same l0 v v0) then None else translate s L top v.
Proof.
  pose proof new_level as Hl1. destruct (decide _) as [Hs|Hn]; [|by apply write_translate_other].
  assert (tbl s' (l0 - 1) v = Some p) as E by (apply new_tbl_child; [done|lia]).
  rewrite (translate_tbl s' v (l0 - 1) p wf_write_table ltac:(lia) E).
  rewrite (translate_enc s' (l0 - 1) p v Empty); [done|done|]. unfold ent. by rewrite new_zero by apply index_slot.
Qed.

Lemma new_unsplit m v : unsplit s m v -> unsplit s' m v.
Proof.
  pose proof new_level as Hl1. intros Hu l a Hl E. destruct (new_tbl l v a ltac:(lia) E) as [E1|(E1 & Hs & ->)].
  - rewrite write_ent by (done || lia). destruct (decide _) as [[-> _]|_]; [|by apply Hu].
    rewrite is_large_enc by done. by rewrite Hp.
  - unfold ent. by rewrite new_zero by apply index_slot.
Qed.

(** Below the new table there is nothing to split. *)
Lemma new_unsplit_below m v : same l0 v v0 -> unsplit s' m v.
Proof.
  pose proof new_level as Hl1. intros Hs l a Hl E.
  destruct (decide (l0 <= l)%nat).
  - apply (above_table s' v (l0 - 1) p); [|lia|lia|done]. apply new_tbl_child; [done|lia].
  - destruct (decide (S l = l0)) as [El|]; [|by rewrite new_tbl_below in E by (done || lia)].
    rewrite (new_tbl_child v l Hs El) in E. injection E as <-. unfold ent. by rewrite new_zero by apply index_slot.
Qed.
End NewTable.
End Write.

(** *** Pages as intervals *)
Lemma vn_add v i : 0 <= i -> vn v + i < 2 ^ shift_of (S L) -> vn (v + i) = vn v + i.
Proof.
  intros Hi Hb. unfold vn in *. rewrite <- Zplus_mod_idemp_l. apply Z.mod_small.
  pose proof (Z.mod_pos_bound v _ (shift_pos (S L))). lia.
Qed.

Lemma vn_range v : 0 <= vn v < 2 ^ shift_of (S L).
Proof. apply Z.mod_pos_bound, shift_pos. Qed.

Lemma vn_mod l v : (l <= S L)%nat -> vn v mod 2 ^ shift_of l = v mod 2 ^ shift_of l.
Proof.
  intros Hl. unfold vn. rewrite (shift_split l (S L) Hl).
  pose proof (shift_pos l). rewrite Z.rem_mul_r by (try lia; apply Z.pow_pos_nonneg; lia).
  rewrite (Z.mul_comm (2 ^ shift_of l)), Z.mod_add by lia. apply Z.mod_mod. lia.
Qed.

Lemma vn_aligned l v : (l <= S L)%nat -> v mod 2 ^ shift_of l = 0 -> vn v + 2 ^ shift_of l <= 2 ^ shift_of (S L).
Proof.
  intros Hl Hv. rewrite <- vn_mod in Hv by done. pose proof (vn_range v) as Hr. pose proof (shift_pos l) as Hp.
  rewrite (shift_split l (S L) Hl) in Hr |- *. apply Z.div_exact in Hv; [|lia].
  generalize dependent (2 ^ (9 * Z.of_nat (S L - l))). intros K Hr.
  generalize dependent (vn v / 2 ^ shift_of l). intros q Hv. rewrite Hv in *.
  generalize dependent (2 ^ shift_of l). intros P Hp Hr Hv. assert (q < K) by nia. nia.
Qed.

Lemma same_interval l v u : (l <= S L)%nat -> u mod 2 ^ shift_of l = 0 ->
  same l v u <-> vn u <= vn v < vn u + 2 ^ shift_of l.
Proof.
  intros Hl Hu. rewrite <- vn_mod in Hu by done. pose proof (shift_pos l) as Hp. unfold same.
  set (P := 2 ^ shift_of l) in *. apply Z.div_exact in Hu; [|lia]. set (q := vn u / P) in *. rewrite Hu. split.
  - intros E. pose proof (Z.div_mod (vn v) P ltac:(lia)). pose proof (Z.mod_pos_bound (vn v) P ltac:(lia)). nia.
  - intros Hv. symmetry. apply (Z.div_unique _ _ _ (vn v - P * q)); lia.
Qed.

(** *** What an operation does to the translation *)
Record mapped (m : nat) (B n phys : Z) (a : attrs) (s s' : M) : Prop := {
  mp_wf : WF s';
  mp_tbl : forall l v t, (m <= l)%nat -> (l <= L)%nat -> tbl s l v = Some t -> tbl s' l v = Some t;
  mp_unsplit : forall k v, (m <= k)%nat -> unsplit s k v -> unsplit s' k v;
  mp_translate : forall v, translate s' L top v =
    if decide (B <= vn v < B + n) then Some (phys + (vn v - B), a) else translate s L top v;
}.

(** Tables were added, nothing is translated differently. *)
Definition grown (m : nat) (s s' : M) : Prop := mapped m 0 0 0 (MkAttrs true true true true) s s'.

Lemma mapped_nil m B phys a s : WF s -> mapped m B 0 phys a s s.
Proof. intros Hwf. split; auto. intros v. rewrite decide_False; [done|lia]. Qed.

Lemma mapped_mono m k B n phys a s s' : (m <= k)%nat -> mapped m B n phys a s s' -> mapped k B n phys a s s'.
Proof. intros Hk [H1 H2 H3 H4]. split; auto; intros; [eapply H2|eapply H3]; eauto; lia. Qed.

Lemma mapped_app m B n n' phys a s s1 s2 :
  0 <= n -> 0 <= n' -> mapped m B n phys a s s1 -> mapped m (B + n) n' (phys + n) a s1 s2 ->
  mapped m B (n + n') phys a s s2.
Proof.
  intros Hn Hn' [H1 H2 H3 H4] [K1 K2 K3 K4]. split; auto. intros v. rewrite K4, H4.
  repeat (destruct (decide _)); try done; try lia. do 2 f_equal. lia.
Qed.

Lemma grown_mapped m B n phys a s s1 s2 :
  grown m s s1 -> mapped m B n phys a s1 s2 -> mapped m B n phys a s s2.
Proof.
  intros [H1 H2 H3 H4] [K1 K2 K3 K4]. split; auto. intros v. rewrite K4, H4.
  rewrite (decide_False (P := 0 <= vn v < 0 + 0)) by lia. done.
Qed.

(** Writing a leaf at level [m] maps its page. *)
Lemma leaf_mapped s m virt t phys w nx fb :
  WF s -> (m <= L)%nat -> tbl s m virt = Some t -> pte_ok m (Leaf phys w nx fb) -> virt mod 2 ^ shift_of m = 0 ->
  mapped m (vn virt) (2 ^ shift_of m) phys (MkAttrs w nx fb fb) s
    (pt_write s (t + 8 * index m virt) (encode m (Leaf phys w nx fb))).
Proof.
  intros Hwf Hm Ht Hok Hal. split.
  - by apply wf_write_plain.
  - intros l v a Hl HL E. by rewrite (write_tbl_above s m virt t).
  - intros k v Hk. by apply write_plain_unsplit.
  - intros v. rewrite (write_plain_translate s m virt t) by done. pose proof (same_interval m v virt ltac:(lia) Hal) as Hs.
    destruct (decide (same m v virt)) as [S|S]; destruct (decide (vn virt <= vn v < _)) as [D|D]; try tauto.
    cbn [leaf_result]. do 2 f_equal. rewrite <- (vn_mod m v) by lia. f_equal.
    rewrite <- vn_mod in Hal by lia. pose proof (shift_pos m).
    pose proof (Z.div_mod (vn virt) (2 ^ shift_of m) ltac:(lia)) as E. rewrite Hal in E.
    symmetry. apply (Z.mod_unique _ _ (vn virt / 2 ^ shift_of m)); lia.
Qed.

(** The state after the allocation of a page. *)
Lemma alloc_grown s p s1 :
  WF s -> mem_ok s1 -> ~ owned s p -> owned s1 p ->
  (forall q, owned s q -> owned s1 q /\ forall i, slot_ok i -> pt_read s1 (q + 8 * i) = pt_read s (q + 8 * i)) ->
  WF s1 /\ (forall l v, (l <= L)%nat -> tbl s1 l v = tbl s l v) /\ (forall l v, (l <= L)%nat -> tbl s1 l v <> Some p) /\
  (forall k v, unsplit s k v -> unsplit s1 k v) /\ (forall v, translate s1 L top v = translate s L top v) /\
  (forall l v a, (l <= L)%nat -> tbl s l v = Some a -> ent s1 a l v = ent s a l v).
Proof.
  intros Hwf Hm Hno Ho Hold.
  assert (forall l v a, (l <= L)%nat -> tbl s l v = Some a -> ent s1 a l v = ent s a l v) as He.
  { intros l v a Hl E. apply Hold; [by apply (wf_owned s Hwf l v)|apply index_slot]. }
  assert (forall l v, (l <= L)%nat -> tbl s1 l v = tbl s l v) as Ht.
  { intros l v Hl. apply (tbl_agree s s1 v 0); [|lia|done]. intros k a Hk. apply He. lia. }
  split_and!; [|done| | | |done].
  - split; [done|..].
    + intros l v a Hl E. rewrite Ht in E by done. apply Hold. by apply (wf_owned s Hwf l v).
    + intros l v l' v' a Hl Hl' E E'. rewrite Ht in E, E' by done. by apply (wf_inj s Hwf l v l' v' a).
    + intros l v a Hl E. rewrite Ht in E by done. rewrite He by done. by apply (wf_ent s Hwf).
  - intros l v Hl E. rewrite Ht in E by done. apply Hno. by apply (wf_owned s Hwf l v).
  - intros k v Hu l a Hl E. rewrite Ht in E by lia. rewrite He by (done || lia). by apply Hu.
  - intros v. apply translate_agree. auto.
Qed.
End Tree.

(** ** The operations *)
Definition pm_level (pm : pagemap) : nat := if levels pm =? 5 then 4 else 3.

Definition split_msg : string := "Unexpected page table entry address in get_next_level".

Section Map.
Context {M : Type} `{TableLaws M}.
Variables pat gib : bool.
Variable pm : pagemap.

Abbreviation L := (pm_level pm).
Abbreviation top := (top_level pm).
Abbreviation tree := (WF L top).

(** [v] is mapped with the framebuffer memory type. *)
Definition fb_at (s : M) (v : Z) : Prop :=
  exists p w nx, translate s L top v = Some (p, MkAttrs w nx true true).

(** How mapping a page of level [m] at [v] may panic: as the allocator does, or
    because a framebuffer page larger than that is in the way. *)
Definition map_err (s : M) (m : nat) (v : Z) (msg : string) : Prop :=
  alloc_msg msg \/ msg = split_msg /\ ~ unsplit L top s m v /\ fb_at s v.

Lemma grown_err m s s1 v msg : grown L top m s s1 -> map_err s1 m v msg -> map_err s m v msg.
Proof.
  intros Hgr [Ha|(-> & Hu & (p & w & nx & Hf))]; [by left|right]. split; [done|]. split.
  - intros Hs. apply Hu. by apply (mp_unsplit _ _ _ _ _ _ _ _ _ Hgr).
  - exists p, w, nx. rewrite (mp_translate _ _ _ _ _ _ _ _ _ Hgr) in Hf. rewrite decide_False in Hf by lia. done.
Qed.

Lemma level_bounds : (3 <= L <= 4)%nat.
Proof. unfold pm_level. case_if; lia. Qed.

Lemma page_sizes_shift m : (m <= 2)%nat -> rd page_sizes m = Ok (2 ^ shift_of m).
Proof. intros Hm. by destruct m as [|[|[|m]]]; [..|lia]. Qed.

(** A loop of [map_page] calls over a range. *)
Lemma map_range_spec (map : M -> Z -> Z -> res M) (Pre : M -> Prop) E m n step virt phys a s :
  0 <= virt -> virt + n * step <= 2 ^ 64 -> 0 <= phys -> phys + n * step <= 2 ^ 64 ->
  0 < step -> 0 <= n -> vn L virt + n * step <= 2 ^ shift_of (S L) ->
  (forall s s' i, Pre s -> mapped L top m (vn L virt + i) step (phys + i) a s s' -> Pre s') ->
  (forall s1 k, mapped L top m (vn L virt) (k * step) phys a s s1 -> Pre s1 -> 0 <= k < n ->
     res_post (mapped L top m (vn L virt + k * step) step (phys + k * step) a s1) E
       (map s1 (virt + k * step) (phys + k * step))) ->
  tree s -> Pre s ->
  res_post (mapped L top m (vn L virt) (n * step) phys a s) E (map_range map (n * step) step virt phys s).
Proof.
  intros Hv Hvt Hp Hpt Hstep Hn Hvn Hpre Hmap Hwf Hs. unfold map_range.
  apply (loop_spec _ (fun '(s1, i) => exists k, i = k * step /\ 0 <= k <= n /\ Pre s1 /\
    mapped L top m (vn L virt) i phys a s s1)).
  - intros [s1 i] (k & -> & Hk & Hs1 & Hmp). unfold turn_ok. cbn. case_if.
    + cbn. assert (k = n) as -> by nia. done.
    + assert (k < n) by nia. unfold wrap. rewrite !Z.mod_small by nia.
      eapply res_post_bind; [apply Hmap; [done|done|lia]|]. intros s2 Hm2. cbn. split; [|nia].
      exists (k + 1). split_and!; try nia; [by eapply Hpre|].
      by eapply mapped_app; [nia|lia|done|].
  - exists 0. split_and!; try lia; [done|by apply mapped_nil].
  - cbn. lia.
Qed.

(** What the recursive calls have to do. *)
Definition rec_ok (rec : M -> Z -> Z -> Z -> nat -> res M) (m : nat) : Prop :=
  forall s virt phys w nx, tree s -> 0 <= virt < 2 ^ 64 -> virt mod 2 ^ shift_of m = 0 ->
    0 <= phys -> phys + 2 ^ shift_of m <= 2 ^ 48 -> phys mod 2 ^ shift_of m = 0 -> unsplit L top s m virt ->
    res_post (mapped L top m (vn L virt) (2 ^ shift_of m) phys (MkAttrs w nx false false) s) alloc_msg
      (rec s virt phys (vmm_flags w nx false) m).

(** [get_next_level] on a table or an empty entry. *)
Lemma new_table_grown s l virt t m :
  tree s -> (1 <= l <= L)%nat -> (m < l)%nat -> tbl L top s l virt = Some t ->
  forall x, pte_ok l x -> ent s t l virt = encode l x -> (forall q, x <> Table q) ->
  res_post (fun '(ret, s1) =>
      let s' := pt_write s1 (t + 8 * index l virt) (pte_new ret PT_TABLE_FLAGS) in
      tree s' /\ tbl L top s' (l - 1) virt = Some ret /\
      (forall k v b, (m <= k)%nat -> (k <= L)%nat -> tbl L top s k v = Some b -> tbl L top s' k v = Some b) /\
      (forall k v, unsplit L top s k v -> unsplit L top s' k v) /\
      (forall k v, same L l v virt -> unsplit L top s' k v) /\
      forall v, translate s' L top v = if decide (same L l v virt) then None else translate s L top v)
    alloc_msg (pt_alloc s).
Proof.
  intros Hwf Hl Hm Ht x Hx He Hnt.
  eapply res_post_mono; [apply pt_alloc_ok; apply (wf_mem _ _ s Hwf)| |done].
  intros [p s1] (Hmem & Hno & Ho & Hz & Hold).
  destruct (alloc_grown L top s p s1 Hwf Hmem Hno Ho Hold) as (Hwf1 & Ht1 & Hfr & Hu & Htr & He1).
  assert (pte_ok l (Table p)) as Hok by (split; [by eapply owned_page|lia]).
  assert (tbl L top s1 l virt = Some t) as Hlt by (by rewrite Ht1 by lia).
  destruct (table_bits p (owned_page _ _ Ho)) as (_ & _ & _ & _ & _ & _ & _ & ->).
  cbn zeta. change (p + 7) with (encode l (Table p)). split_and!.
  - eapply wf_write_table; try done; lia.
  - eapply new_tbl_child; try done; try lia. 
  - intros k v b Hk Hkl E. destruct (decide (same L l v virt)) as [Hs|Hn].
    + destruct (decide (l <= k)%nat); [rewrite write_tbl_above by (done || lia); by rewrite Ht1|].
      (* below the entry the old tree had no table *)
      exfalso. assert (tbl L top s (l - 1) v = None) as E1.
      { rewrite tbl_step by lia. replace (S (l - 1)) with l by lia.
        apply same_split in Hs as [Hs Hi]; [|lia]. rewrite (tbl_same L top s l v virt) by (done || lia).
        rewrite Ht. unfold ent in *. rewrite Hi, He. rewrite next_table_enc by (done || lia). destruct x; try done. by destruct (Hnt p0). }
      rewrite (tbl_none L top s v (l - 1) k E1) in E by lia. done.
    + rewrite write_tbl_other by (done || lia). by rewrite Ht1.
  - intros k v Hk. eapply new_unsplit; try done; try lia. by apply Hu.
  - intros k v Hs. eapply new_unsplit_below; try done; lia.
  - intros v. erewrite new_translate; try done; try lia. by rewrite Htr.
Qed.

Lemma land_low_mask a l : Z.land a (2 ^ shift_of l - 1) = a mod 2 ^ shift_of l.
Proof. rewrite <- Z.land_ones by (unfold shift_of; lia). by rewrite Z.ones_equiv, Z.sub_1_r. Qed.

(** [virt & ~(size - 1)] *)
Lemma round_down virt l : 0 <= virt < 2 ^ 64 -> (l <= 2)%nat ->
  u64 (Z.land virt (Z.lnot (2 ^ shift_of l - 1))) = 2 ^ shift_of l * (virt / 2 ^ shift_of l) /\
  2 ^ shift_of l * (virt / 2 ^ shift_of l) + 2 ^ shift_of l <= 2 ^ 64.
Proof.
  intros Hv Hl. assert (2 ^ shift_of l - 1 = Z.ones (shift_of l)) as -> by (rewrite Z.ones_equiv; lia).
  rewrite <- Z.ldiff_land, Z.ldiff_ones_r by (unfold shift_of; lia).
  rewrite Z.shiftl_mul_pow2, Z.shiftr_div_pow2 by (unfold shift_of; lia).
  unfold wrap. destruct l as [|[|[|l]]]; [..|lia];
    change (2 ^ shift_of 0) with 4096 || change (2 ^ shift_of 1) with 2097152 || change (2 ^ shift_of 2) with 1073741824;
    (split; [rewrite Z.mod_small; dlia|dlia]).
Qed.

Lemma aligned_down m l a : (m <= l)%nat -> a mod 2 ^ shift_of l = 0 -> a mod 2 ^ shift_of m = 0.
Proof.
  intros Hm Ha. pose proof (shift_pos l). pose proof (shift_pos m). apply Z.div_exact in Ha; [|lia].
  rewrite Ha, (shift_split m l Hm). rewrite <- Z.mul_assoc, Z.mul_comm. apply Z.mod_mul. lia.
Qed.

Lemma aligned_room l phys : (l <= 2)%nat -> 0 <= phys < 2 ^ 48 -> phys mod 2 ^ shift_of l = 0 ->
  phys + 2 ^ shift_of l <= 2 ^ 48.
Proof.
  intros Hl Hp Ha. destruct l as [|[|[|l]]]; [..|lia]; revert Ha;
    change (2 ^ shift_of 0) with 4096 || change (2 ^ shift_of 1) with 2097152 || change (2 ^ shift_of 2) with 1073741824;
    intros Ha; dlia.
Qed.

(** A page of level [l] as pages of level [m]. *)
Lemma sub_page l m virt phys k :
  (m <= l)%nat -> (l <= L)%nat -> 0 <= virt -> virt mod 2 ^ shift_of l = 0 -> virt + 2 ^ shift_of l <= 2 ^ 64 ->
  0 <= phys -> phys mod 2 ^ shift_of l = 0 -> phys + 2 ^ shift_of l <= 2 ^ 48 ->
  0 <= k < 2 ^ (9 * Z.of_nat (l - m)) ->
  let i := k * 2 ^ shift_of m in
  0 <= virt + i < 2 ^ 64 /\ (virt + i) mod 2 ^ shift_of m = 0 /\ 0 <= phys + i /\
  phys + i + 2 ^ shift_of m <= 2 ^ 48 /\ (phys + i) mod 2 ^ shift_of m = 0 /\
  vn L (virt + i) = vn L virt + i /\ same L l (virt + i) virt.
Proof.
  intros Hm Hl Hv Hva Hvt Hp Hpa Hpt Hk i. pose proof (shift_pos m) as Hpos.
  pose proof (vn_aligned L l virt ltac:(lia) Hva) as Hvn.
  rewrite (shift_split m l Hm) in Hvt, Hpt, Hvn.
  assert (0 <= i /\ i + 2 ^ shift_of m <= 2 ^ shift_of m * 2 ^ (9 * Z.of_nat (l - m))) as [Hi0 Hi1].
  { clear -Hpos Hk. unfold i. set (P := 2 ^ shift_of m) in *. set (K := 2 ^ (9 * _)) in *. clearbody P K. nia. }
  assert (vn L (virt + i) = vn L virt + i) as Ei by (apply vn_add; lia).
  split_and!; try lia.
  - unfold i. rewrite Z.mod_add by lia. by eapply aligned_down.
  - unfold i. rewrite Z.mod_add by lia. by eapply aligned_down.
  - apply same_interval; [lia|done|]. rewrite Ei, (shift_split m l Hm). lia.
Qed.

Section Split.
Variables (rec : M -> Z -> Z -> Z -> nat -> res M) (s s' : M) (l m : nat) (virt t ret phys : Z) (w nx : bool).
Hypothesis Hwf : tree s.
Hypothesis Hl : (1 <= l <= L)%nat.
Hypothesis Hl2 : (l <= 2)%nat.
Hypothesis Hm : (m < l)%nat.
Hypothesis Hv : 0 <= virt < 2 ^ 64.
Hypothesis Hp : 0 <= phys < 2 ^ 48.
Hypothesis Hal : phys mod 2 ^ shift_of l = 0.
Hypothesis Hrec : rec_ok rec m.
Hypothesis Hwf' : tree s'.
Hypothesis Hret : tbl L top s' (l - 1) virt = Some ret.
Hypothesis Hkeep : forall k v b, (m <= k)%nat -> (k <= L)%nat -> tbl L top s k v = Some b -> tbl L top s' k v = Some b.
Hypothesis Hu : forall k v, unsplit L top s k v -> unsplit L top s' k v.
Hypothesis Hub : forall k v, same L l v virt -> unsplit L top s' k v.
Hypothesis Htr' : forall v, translate s' L top v = if decide (same L l v virt) then None else translate s L top v.
Hypothesis Htr : forall v, same L l v virt ->
  translate s L top v = Some (phys + v mod 2 ^ shift_of l, MkAttrs w nx false false).

Let ov : Z := 2 ^ shift_of l * (virt / 2 ^ shift_of l).

Lemma ov_facts : 0 <= ov /\ ov mod 2 ^ shift_of l = 0 /\ same L l ov virt.
Proof.
  pose proof (shift_pos l). assert (ov mod 2 ^ shift_of l = 0) as Hoal by (unfold ov; rewrite Z.mul_comm; apply Z.mod_mul; lia).
  split_and!; [unfold ov; pose proof (Z.div_pos virt (2 ^ shift_of l)); nia|done|].
  apply same_sym. apply same_interval; [lia|done|].
  pose proof (Z.div_mod virt (2 ^ shift_of l) ltac:(lia)) as Ed. pose proof (Z.mod_pos_bound virt (2 ^ shift_of l) ltac:(lia)).
  fold ov in Ed. pose proof (vn_aligned L l ov ltac:(lia) Hoal).
  assert (vn L virt = vn L ov + virt mod 2 ^ shift_of l) as -> by (rewrite <- vn_add by lia; by rewrite <- Ed). lia.
Qed.

Lemma split_page :
  ov + 2 ^ shift_of l <= 2 ^ 64 ->
  res_post (fun s3 => grown L top m s s3 /\ tbl L top s3 (l - 1) virt = Some ret) alloc_msg
    (map_range (fun s v p => rec s v p (vmm_flags w nx false) m) (2 ^ shift_of l) (2 ^ shift_of m) ov phys s').
Proof.
  intros Hov. destruct ov_facts as (Hov0 & Hoal & Hsame). pose proof (shift_pos m).
  pose proof (aligned_room l phys Hl2 Hp Hal) as Hroom. pose proof (vn_aligned L l ov ltac:(lia) Hoal) as Hvt.
  assert (2 ^ shift_of l = 2 ^ (9 * Z.of_nat (l - m)) * 2 ^ shift_of m) as Hsz by (rewrite (shift_split m l) by lia; lia).
  rewrite Hsz. eapply res_post_mono; [|clear Hsz; intros s3 Hmp|done].
  - apply (map_range_spec _ (fun s2 => forall v, same L l v virt -> unsplit L top s2 m v) _ m _ (2 ^ shift_of m) ov phys
      (MkAttrs w nx false false)); rewrite <- ?Hsz; try done; try lia.
    + intros s2 s3 i Hc Hmp v Hs. apply (mp_unsplit _ _ _ _ _ _ _ _ _ Hmp); [lia|]. by apply Hc.
    + intros s2 k Hmp2 Hc Hk.
      destruct (sub_page l m ov phys k ltac:(lia) ltac:(lia) Hov0 Hoal Hov ltac:(lia) Hal Hroom Hk)
        as (E1 & E2 & E3 & E4 & E5 & E6 & E7). rewrite <- E6. apply Hrec; try done; [apply Hmp2|].
      apply Hc. by eapply same_trans.
    + intros v Hs. by apply Hub.
  - split; [|apply (mp_tbl _ _ _ _ _ _ _ _ _ Hmp); [lia|lia|done]]. destruct Hmp as [M1 M2 M3 M4]. split; auto.
    intros v. rewrite (decide_False (P := 0 <= _ < _)) by lia. rewrite M4, Htr'.
    pose proof (same_interval L l v ov ltac:(lia) Hoal) as Hin. rewrite (shift_split m l) in Hin by lia.
    assert (same L l v virt <-> same L l v ov) as Hvo.
    { split; intros Hs; eapply same_trans; try exact Hs; [by apply same_sym|done]. }
    destruct (decide (vn L ov <= _ < _)) as [D|D], (decide (same L l v virt)) as [S1|S1]; try done.
    + rewrite (Htr v S1). do 2 f_equal. rewrite <- (vn_mod L l v) by lia.
      apply Hvo, same_interval in S1; [|lia|done]. f_equal. rewrite <- (vn_mod L) in Hoal by lia.
      pose proof (shift_pos l). pose proof (Z.div_mod (vn L ov) (2 ^ shift_of l) ltac:(lia)) as E. rewrite Hoal in E.
      apply (Z.mod_unique _ _ (vn L ov / 2 ^ shift_of l)); lia.
    + exfalso. apply S1, Hvo, Hin. lia.
    + exfalso. apply D. apply Hvo, Hin in S1. lia.
Qed.
End Split.

Lemma get_next_level_spec rec s l virt t m :
  tree s -> (1 <= l <= L)%nat -> (m < l)%nat -> (m <= 2)%nat -> tbl L top s l virt = Some t -> 0 <= virt < 2 ^ 64 ->
  unsplit L top s m virt \/ rec_ok rec m ->
  res_post (fun '(ret, s') => grown L top m s s' /\ tbl L top s' (l - 1) virt = Some ret) (map_err s m virt)
    (get_next_level rec s t virt m l (entry_index virt l)).
Proof.
  intros Hwf Hl Hm Hm2 Ht Hv Hrec. unfold get_next_level. rewrite entry_index_spec.
  destruct (wf_ent _ _ s Hwf l virt t ltac:(lia) Ht) as (x & Hx & He). unfold ent in He. rewrite He.
  pose proof (next_table_enc l x ltac:(lia) Hx) as Hnt. unfold next_table in Hnt.
  pose proof (is_large_enc l x ltac:(lia) Hx) as Hlg.
  assert (forall v, same L l v virt -> translate s L top v = leaf_result l v x \/ exists q, x = Table q) as Htr.
  { intros v Hs. apply same_split in Hs as [Hs Hi]; [|lia].
    assert (tbl L top s l v = Some t) as Ev by (by rewrite (tbl_same L top s l v virt) by (done || lia)).
    rewrite (translate_tbl L top s v l t Hwf ltac:(lia) Ev).
    rewrite (translate_enc s l t v x Hx) by (unfold ent; by rewrite Hi). destruct x; [by left|right; by eexists|by left]. }
  destruct x as [|q|phys w nx fb].
  - (* empty *)
    destruct (PT_IS_TABLE _); [done|]. rewrite Hlg.
    eapply res_post_bind; [eapply res_post_mono; [by apply (new_table_grown s l virt t m Hwf Hl Hm Ht Empty)|done|by left]|].
    intros [ret s1] (Hwf' & Hret & Hk & Hu & _ & Htr'). cbn. split; [|done]. split; auto.
    intros v. rewrite (decide_False (P := 0 <= _ < _)) by lia. rewrite Htr'.
    destruct (decide (same L l v virt)) as [Hs|]; [|done]. by destruct (Htr v Hs) as [->|[q ?]].
  - (* a table *)
    destruct (PT_IS_TABLE _); [|done]. injection Hnt as Eq. cbn.
    pose proof Hx as [Hq _]. destruct (table_bits q Hq) as (_ & _ & _ & _ & _ & Hh & Hp & _).
    split; [by apply mapped_nil|]. rewrite tbl_step by lia. replace (S (l - 1)) with l by lia. rewrite Ht.
    unfold ent. rewrite He, next_table_enc by (done || lia). f_equal. symmetry. exact Hp.
  - (* a large page: split it *)
    destruct (PT_IS_TABLE _); [done|]. rewrite Hlg.
    destruct Hrec as [Hun|Hrec]; [exfalso; specialize (Hun l t ltac:(lia) Ht); unfold ent in Hun; rewrite He, Hlg in Hun; done|].
    pose proof Hx as (Hl2 & Hp & Hal). change VMM_MAX_LEVEL with 3%nat.
    rewrite (proj2 (Nat.leb_gt 3 l)), (proj2 (Nat.eqb_neq l 0)), (proj2 (Nat.leb_gt 3 m)) by lia. cbn [orb].
    rewrite !page_sizes_shift by lia. cbn [rbind].
    destruct (leaf_addrs _ _ _ _ _ Hx) as (_ & _ & Ha). rewrite Ha by lia.
    destruct (leaf_bits _ _ _ _ _ Hx) as (_ & B1 & B3 & B63 & _ & B12).
    rewrite vmm_flags_bits, B1, B3, B63, B12 by lia. rewrite land_low_mask.
    pose proof (shift_pos l) as Hpl. pose proof (shift_pos m) as Hpm.
    destruct fb.
    { (* the attribute-table bit is taken for part of the address *)
      replace ((phys + 4096 * Z.b2z true) mod 2 ^ shift_of l) with 4096.
      { cbn [negb Z.eqb res_post]. right. split; [done|]. split.
        - intros Hun. specialize (Hun l t ltac:(lia) Ht). unfold ent in Hun. by rewrite He, Hlg in Hun.
        - unfold fb_at. destruct (Htr virt eq_refl) as [->|[q ?]]; [|done]. by do 3 eexists. }
      destruct (leaf_level _ _ _ _ _ Hx) as (_ & [[-> _]|[[-> Hm']|[-> Hm']]]); [lia|..];
        change (2 ^ shift_of 1) with 2097152 || change (2 ^ shift_of 2) with 1073741824; cbn [Z.b2z]; dlia. }
    replace (phys + 4096 * Z.b2z false) with phys by (cbn; lia). rewrite Hal. cbn [negb Z.eqb].
    replace (2 * Z.b2z w + 2 ^ 63 * Z.b2z nx + 8 * Z.b2z false + 4096 * Z.b2z false) with (vmm_flags w nx false)
      by (unfold vmm_flags; cbn [Z.b2z]; lia).
    destruct (round_down virt l Hv Hl2) as [-> Hov]. set (ov := 2 ^ shift_of l * (virt / 2 ^ shift_of l)) in *.
    eapply res_post_bind; [eapply res_post_mono; [by apply (new_table_grown s l virt t m Hwf Hl Hm Ht (Leaf phys w nx false))|done|by left]|].
    intros [ret s1] (Hwf' & Hret & Hk & Hu & Hub & Htr'). cbn zeta. set (s' := pt_write s1 _ _) in *.
    eapply res_post_bind.
    { eapply res_post_mono; [|intros s3 Hs3; exact Hs3|by left]. apply (split_page rec s s' l m virt ret phys w nx); try done; try lia.
      intros v Hs. by destruct (Htr v Hs) as [->|[q ?]]. }
    intros s3 Hs3. exact Hs3.
Qed.

(** *** [map_page] *)
Definition page_args (m : nat) (virt phys : Z) : Prop :=
  0 <= virt < 2 ^ 64 /\ virt mod 2 ^ shift_of m = 0 /\ 0 <= phys < 2 ^ 48 /\ phys mod 2 ^ shift_of m = 0.

(** One step down from a state reached in the walk. *)
Lemma walk_step rec s s1 l t virt m :
  grown L top m s s1 -> (1 <= l <= L)%nat -> (m < l)%nat -> (m <= 2)%nat -> tbl L top s1 l virt = Some t -> 0 <= virt < 2 ^ 64 ->
  unsplit L top s m virt \/ rec_ok rec m ->
  res_post (fun '(ret, s') => grown L top m s s' /\ tbl L top s' (l - 1) virt = Some ret) (map_err s m virt)
    (get_next_level rec s1 t virt m l (entry_index virt l)).
Proof.
  intros Hgr Hl Hml Hm2 Ht Hv Hrec. eapply res_post_mono; [apply get_next_level_spec; try done|..].
  - apply Hgr.
  - destruct Hrec as [Hun|]; [left|by right]. by apply (mp_unsplit _ _ _ _ _ _ _ _ _ Hgr).
  - intros [ret s'] [Hgr' Hret]. split; [|done]. by eapply grown_mapped.
  - intros msg. by apply grown_err.
Qed.

(** The table of level 3. *)
Lemma walk_top rec s virt m :
  tree s -> (m <= 2)%nat -> 0 <= virt < 2 ^ 64 -> unsplit L top s m virt \/ rec_ok rec m ->
  res_post (fun '(t, s1) => grown L top m s s1 /\ tbl L top s1 3 virt = Some t) (map_err s m virt)
    (if levels pm =? 5 then get_next_level rec s top virt m 4%nat (entry_index virt 4) else Ok (top, s)).
Proof.
  intros Hwf Hm Hv Hrec. destruct (levels pm =? 5) eqn:E5.
  - assert (L = 4%nat) as EL by (unfold pm_level; by rewrite E5).
    apply (walk_step rec s s 4); [by apply mapped_nil|lia|lia|done| |done|done]. rewrite <- EL at 1. apply tbl_top.
  - assert (L = 3%nat) as EL by (unfold pm_level; by rewrite E5).
    cbn [res_post]. split; [by apply mapped_nil|]. rewrite <- EL at 1. apply tbl_top.
Qed.

Lemma map_page_direct f s virt phys flags w nx fb m :
  (m <= 2)%nat -> (m = 2%nat -> gib = true) -> effective_flags pat flags = vmm_flags w nx fb + 1 ->
  tree s -> page_args m virt phys -> unsplit L top s m virt \/ rec_ok (map_page pat gib f pm) m ->
  res_post (mapped L top m (vn L virt) (2 ^ shift_of m) phys (MkAttrs w nx fb fb) s) (map_err s m virt)
    (map_page pat gib (S f) pm s virt phys flags m).
Proof.
  intros Hm Hg Hfl Hwf (Hv & Hva & Hp & Hpa) Hrec. cbn [map_page]. rewrite Hfl. set (rec := map_page pat gib f pm) in *.
  pose proof level_bounds as HL.
  assert (forall s1 t, grown L top m s s1 -> tbl L top s1 m virt = Some t ->
    mapped L top m (vn L virt) (2 ^ shift_of m) phys (MkAttrs w nx fb fb) s
      (pt_write s1 (t + 8 * entry_index virt m) (encode m (Leaf phys w nx fb)))) as Hleaf.
  { intros s1 t Hgr Ht. eapply grown_mapped; [exact Hgr|]. rewrite entry_index_spec.
    apply leaf_mapped; try done; [apply Hgr|lia]. }
  eapply res_post_bind; [by apply walk_top|]. intros [pml4 s1] [Hg1 Ht1].
  eapply res_post_bind; [apply (walk_step rec s s1 3%nat); try done; lia|]. intros [pml3 s2] [Hg2 Ht2]. cbn [Nat.sub] in Ht2.
  destruct m as [|[|[|m]]]; [..|lia]; cbn [Nat.eqb Size1GiB Size2MiB].
  - eapply res_post_bind; [apply (walk_step rec s s2 2%nat); try done; lia|]. intros [pml2 s3] [Hg3 Ht3]. cbn [Nat.sub] in Ht3.
    eapply res_post_bind; [apply (walk_step rec s s3 1%nat); try done; lia|]. intros [pml1 s4] [Hg4 Ht4]. cbn [Nat.sub res_post] in *.
    rewrite lor_small by done. by apply Hleaf.
  - eapply res_post_bind; [apply (walk_step rec s s2 2%nat); try done; lia|]. intros [pml2 s3] [Hg3 Ht3]. cbn [Nat.sub res_post] in *.
    rewrite (lor_large 1); [by apply Hleaf|lia|split; [lia|split; [exact Hp|exact Hpa]]].
  - rewrite Hg by done. cbn. rewrite (lor_large 2); [by apply Hleaf|lia|split; [lia|split; [exact Hp|exact Hpa]]].
Qed.

(** Two levels of recursion are enough unless 1 GiB pages are emulated. *)
Lemma map_page_rec f m : (m <= 2)%nat -> (m = 2%nat -> gib = true) -> rec_ok (map_page pat gib (S f) pm) m.
Proof.
  intros Hm Hg s virt phys w nx Hwf Hv Hva Hp Hpt Hpa Hun. pose proof (shift_pos m).
  eapply res_post_mono.
  - eapply map_page_direct; try done; [apply (effective_flags_spec pat w nx false)| |by left]. split_and!; try done; lia.
  - done.
  - intros msg [Ha|(_ & Hn & _)]; [done|by destruct Hn].
Qed.

Lemma map_page_native f s virt phys flags w nx fb m :
  (m <= 2)%nat -> (m = 2%nat -> gib = true) -> effective_flags pat flags = vmm_flags w nx fb + 1 ->
  tree s -> page_args m virt phys ->
  res_post (mapped L top m (vn L virt) (2 ^ shift_of m) phys (MkAttrs w nx fb fb) s) (map_err s m virt)
    (map_page pat gib (S (S f)) pm s virt phys flags m).
Proof. intros. apply map_page_direct; try done. right. by apply map_page_rec. Qed.
End Map.
