(* ===== verification/VmmProps.v ===== *)
(** * The paging theorems

    [map_page] with the recursion depth [MAP_FUEL] on every branch, the
    emulation of 1 GiB pages included; [map_pages]; the case in which a large
    page cannot be split; the empty page map.  Everything is stated through what
    the processor translates. *)

From S2P Require Import Prelude CInt Vmm.

Section Props.
Context {M : Type} `{TableLaws M}.
Variables pat gib : bool.
Variable pm : pagemap.

Abbreviation L := (pm_level pm).
Abbreviation top := (top_level pm).
Abbreviation tree := (WF L top).

(** Leaves above level 2 do not exist. *)
Lemma unsplit_2 s v : tree s -> unsplit L top s 2 v.
Proof.
  intros Hwf l t Hl Ht. destruct (wf_ent _ _ s Hwf l v t ltac:(lia) Ht) as (x & Hx & ->).
  rewrite is_large_enc by (done || lia). destruct x; try done. destruct Hx. lia.
Qed.

(** Without 1 GiB pages, 512 pages of 2 MiB. *)
Lemma map_page_emulated f s virt phys flags w nx fb :
  gib = false -> effective_flags pat flags = vmm_flags w nx (fb && pat) + 1 -> tree s -> page_args 2 virt phys ->
  res_post (mapped L top 2 (vn L virt) (2 ^ shift_of 2) phys (MkAttrs w nx (fb && pat) (fb && pat)) s)
    (fun msg => alloc_msg msg \/ msg = split_msg /\ exists v, vn L virt <= vn L v < vn L virt + 2 ^ shift_of 2 /\ fb_at pm s v)
    (map_page pat gib (S (S (S f))) pm s virt phys flags 2).
Proof.
  intros Hg Hfl Hwf (Hv & Hva & Hp & Hpa). pose proof (level_bounds pm) as HL. pose proof (unsplit_2 s virt Hwf) as Hun.
  assert (virt + 2 ^ shift_of 2 <= 2 ^ 64) as Hvt by (revert Hva; change (2 ^ shift_of 2) with 1073741824; dlia).
  pose proof (aligned_room 2 phys ltac:(lia) Hp Hpa) as Hpt.
  pose proof (vn_aligned L 2 virt ltac:(lia) Hva) as Hvn.
  remember (S (S f)) as f2 eqn:Ef2. cbn [map_page]. rewrite Hfl, Hg. cbn [Nat.eqb Size1GiB].
  assert (forall msg, map_err pm s 2 virt msg -> alloc_msg msg) as Herr by (intros msg [Ha|(_ & Hn & _)]; tauto).
  eapply res_post_bind; [eapply res_post_mono; [apply walk_top; try done; by left|done|by left; apply Herr]|].
  intros [pml4 s1] [Hg1 Ht1].
  eapply res_post_bind; [eapply res_post_mono; [apply (walk_step pm _ s s1 3%nat); try done; try lia; by left|done|by left; apply Herr]|].
  intros [pml3 s2] [Hg2 Ht2].
  apply (res_post_mono (mapped L top 1 (vn L virt) (512 * 2 ^ shift_of 1) phys (MkAttrs w nx (fb && pat) (fb && pat)) s2)
    (mapped L top 2 (vn L virt) (2 ^ shift_of 2) phys (MkAttrs w nx (fb && pat) (fb && pat)) s)
    (fun msg => alloc_msg msg \/ msg = split_msg /\ exists v, vn L virt <= vn L v < vn L virt + 2 ^ shift_of 2 /\ fb_at pm s v));
    [|intros s3 Hm3; eapply grown_mapped; [exact Hg2|]; apply (mapped_mono _ _ 1); [lia|exact Hm3]|done].
  change 0x40000000 with (512 * 2 ^ shift_of 1). change 0x200000 with (2 ^ shift_of 1).
  assert (2 ^ shift_of 2 = 512 * 2 ^ shift_of 1) as Esz by done. rewrite Esz in Hvt, Hpt, Hvn.
  apply (map_range_spec pm _ (fun _ => True)); try done; try lia; try apply Hg2.
  intros s3 k Hm3 _ Hk.
  destruct (sub_page pm 2 1 virt phys k ltac:(lia) ltac:(lia) ltac:(lia) Hva
    ltac:(by rewrite Esz) ltac:(lia) Hpa ltac:(by rewrite Esz) Hk)
    as (E1 & E2 & E3 & E4 & E5 & E6 & E7). pose proof (shift_pos 1).
  subst f2. change Size2MiB with 1%nat. eapply res_post_mono.
  - apply map_page_native; [lia|done|apply effective_flags_again|apply Hm3|].
    split; [done|]. split; [done|]. split; [|done]. split; [done|]. eapply Z.lt_le_trans; [|exact E4]. lia.
  - intros s4. by rewrite E6.
  - intros msg [Ha|(-> & _ & (p & w' & nx' & Hf))]; [by left|right]. split; [done|].
    exists (virt + k * 2 ^ shift_of 1). rewrite E6. split; [rewrite Esz; nia|].
    exists p, w', nx'. rewrite (mp_translate _ _ _ _ _ _ _ _ _ Hm3), E6, decide_False in Hf by lia.
    by rewrite (mp_translate _ _ _ _ _ _ _ _ _ Hg2), decide_False in Hf by lia.
Qed.

(** How mapping [n] bytes at [B] may panic. *)
Definition range_err (s : M) (B n : Z) (msg : string) : Prop :=
  alloc_msg msg \/ msg = split_msg /\ exists v, B <= vn L v < B + n /\ fb_at pm s v.

Lemma map_page_spec s virt phys w nx fb m :
  (m <= 2)%nat -> tree s -> page_args m virt phys ->
  res_post (mapped L top m (vn L virt) (2 ^ shift_of m) phys (MkAttrs w nx (fb && pat) (fb && pat)) s)
    (range_err s (vn L virt) (2 ^ shift_of m)) (map_page pat gib MAP_FUEL pm s virt phys (vmm_flags w nx fb) m).
Proof.
  intros Hm Hwf Ha. pose proof (effective_flags_spec pat w nx fb) as Hfl. pose proof (shift_pos m).
  destruct (decide (m = 2%nat /\ gib = false)) as [[-> Hg]|Hn]; [by apply map_page_emulated|].
  eapply res_post_mono; [apply map_page_native; try done; destruct gib; naive_solver|done|].
  intros msg [?|(-> & _ & Hf)]; [by left|right]. split; [done|]. exists virt. split; [lia|done].
Qed.
(** An error in a later part of a range is one of the range. *)
Lemma range_err_app m B i n total phys a s s1 msg :
  mapped L top m B i phys a s s1 -> 0 <= i -> i + n <= total -> range_err s1 (B + i) n msg -> range_err s B total msg.
Proof.
  intros Hmp Hi Hn [?|(-> & v & Hv & p & w & nx & Hf)]; [by left|right]. split; [done|].
  exists v. split; [lia|]. exists p, w, nx. by rewrite (mp_translate _ _ _ _ _ _ _ _ _ Hmp), decide_False in Hf by lia.
Qed.

(** One turn of the loop of [map_pages] with the page size it chose. *)
Lemma map_pages_turn m s s1 virt phys w nx fb i count :
  (m <= 2)%nat -> 0 <= virt < 2 ^ 64 -> 0 <= phys -> phys + count <= 2 ^ 48 -> vn L virt + count <= 2 ^ shift_of (S L) ->
  0 <= i -> 2 ^ shift_of m <= count - i -> (virt + i) mod 2 ^ shift_of m = 0 -> (phys + i) mod 2 ^ shift_of m = 0 ->
  let a := MkAttrs w nx (fb && pat) (fb && pat) in
  mapped L top 2 (vn L virt) i phys a s s1 ->
  res_post (mapped L top 2 (vn L virt) (i + 2 ^ shift_of m) phys a s) (range_err s (vn L virt) count)
    (map_page pat gib MAP_FUEL pm s1 (u64 (virt + i)) (u64 (phys + i)) (vmm_flags w nx fb) m).
Proof.
  intros Hm Hv Hp Hpt Hvt Hi Hroom Hva Hpa a Hmp. pose proof (shift_pos m).
  assert (u64 (phys + i) = phys + i) as -> by (apply Z.mod_small; lia).
  assert (virt + i < 2 ^ 64) as Hvi.
  { unfold vn in Hvt. revert Hvt. unfold pm_level. case_if.
    - change (2 ^ shift_of 5) with 144115188075855872. dlia.
    - change (2 ^ shift_of 4) with 281474976710656. dlia. }
  assert (u64 (virt + i) = virt + i) as -> by (apply Z.mod_small; lia).
  assert (vn L (virt + i) = vn L virt + i) as Ei by (apply vn_add; lia).
  eapply res_post_mono; [apply (map_page_spec s1 _ _ w nx fb m Hm)|..].
  - apply Hmp.
  - split_and!; try done; try lia.
  - intros s2 Hm2. rewrite Ei in Hm2. eapply mapped_app; [lia|lia|exact Hmp|]. by eapply mapped_mono.
  - intros msg. rewrite Ei. eapply range_err_app; [done|lia|lia].
Qed.

Lemma large_ok_spec virt phys i count m : (1 <= m <= 2)%nat -> 0 <= i <= count -> 
  0 <= virt < 2 ^ 64 -> 0 <= phys -> phys + count <= 2 ^ 48 ->
  large_ok virt phys i count (2 ^ shift_of m) = true ->
  2 ^ shift_of m <= count - i /\ (virt + i) mod 2 ^ shift_of m = 0 /\ (phys + i) mod 2 ^ shift_of m = 0.
Proof.
  intros Hm Hi Hv Hp Hpt. unfold large_ok. rewrite !land_low_mask. intros Ho. bool_hyps.
  assert (forall z, u64 z mod 2 ^ shift_of m = z mod 2 ^ shift_of m) as Hu.
  { intros z. unfold wrap. destruct m as [|[|[|m]]]; [lia| | |lia];
      change (2 ^ shift_of 1) with 2097152 || change (2 ^ shift_of 2) with 1073741824; dlia. }
  rewrite !Hu in *. done.
Qed.

Lemma map_pages_mapped s virt phys w nx fb count :
  tree s -> 0 <= virt < 2 ^ 64 -> 0 <= phys -> 0 <= count -> phys + count <= 2 ^ 48 ->
  vn L virt + count <= 2 ^ shift_of (S L) ->
  virt mod 4096 = 0 -> phys mod 4096 = 0 -> count mod 4096 = 0 ->
  res_post (mapped L top 2 (vn L virt) count phys (MkAttrs w nx (fb && pat) (fb && pat)) s)
    (range_err s (vn L virt) count) (map_pages pat gib pm s virt phys (vmm_flags w nx fb) count).
Proof.
  intros Hwf Hv Hp Hc Hpt Hvt Hva Hpa Hca. unfold map_pages. rewrite Hva, Hpa, Hca. cbn [negb orb Z.eqb].
  apply (loop_spec _ (fun '(s1, i) => 0 <= i <= count /\ i mod 4096 = 0 /\
    mapped L top 2 (vn L virt) i phys (MkAttrs w nx (fb && pat) (fb && pat)) s s1)).
  - intros [s1 i] (Hi & Hia & Hmp). unfold turn_ok, map_pages_body. case_if.
    { cbn [res_post]. by replace count with i by lia. }
    change 0x40000000 with (2 ^ shift_of 2). change 0x200000 with (2 ^ shift_of 1). change 0x1000 with (2 ^ shift_of 0).
    assert (forall m, (m <= 2)%nat -> 2 ^ shift_of m <= count - i -> (virt + i) mod 2 ^ shift_of m = 0 ->
      (phys + i) mod 2 ^ shift_of m = 0 ->
      turn_ok (fun _ => let! s2 := map_page pat gib MAP_FUEL pm s1 (u64 (virt + i)) (u64 (phys + i)) (vmm_flags w nx fb) m in
                        Ok (inl (s2, i + 2 ^ shift_of m)))
        (fun '(s1, i) => 0 <= i <= count /\ i mod 4096 = 0 /\
           mapped L top 2 (vn L virt) i phys (MkAttrs w nx (fb && pat) (fb && pat)) s s1)
        (fun '(_, i) => Z.max 0 (count - i))
        (mapped L top 2 (vn L virt) count phys (MkAttrs w nx (fb && pat) (fb && pat)) s)
        (range_err s (vn L virt) count) (s1, i)) as Ht.
    { intros m Hm Hroom Hvm Hpm. unfold turn_ok. pose proof (shift_pos m).
      eapply res_post_bind; [apply (map_pages_turn m s s1); try done; lia|]. intros s2 Hm2. cbn [res_post].
      split; [|lia]. split; [lia|]. split; [|done]. rewrite <- Zplus_mod_idemp_l, Hia, Z.add_0_l.
      apply (aligned_down 0 m); [lia|]. apply Z.mod_same. lia. }
    case_if; [apply (Ht 2%nat); [lia|by apply large_ok_spec in Hb0; [destruct_and!|lia..]..]|].
    case_if; [apply (Ht 1%nat); [lia|by apply large_ok_spec in Hb1; [destruct_and!|lia..]..]|].
    apply (Ht 0%nat); [lia|..]; change (2 ^ shift_of 0) with 4096; dlia.
  - split; [lia|]. split; [done|]. by apply mapped_nil.
  - cbn. lia.
Qed.

(** *** A page larger than [m] in the way *)
Definition large_over (s : M) (m : nat) (v : Z) : Prop :=
  exists l t, (m < l <= L)%nat /\ tbl L top s l v = Some t /\ PT_IS_LARGE (ent s t l v) = true.

Lemma next_is_table rec s k a b v m :
  tree s -> (1 <= k <= L)%nat -> tbl L top s k v = Some a -> tbl L top s (k - 1) v = Some b ->
  get_next_level rec s a v m k (entry_index v k) = Ok (b, s).
Proof.
  intros Hwf Hk Ha Hb. rewrite tbl_step in Hb by lia. replace (S (k - 1)) with k in Hb by lia. rewrite Ha in Hb.
  destruct (wf_ent _ _ s Hwf k v a ltac:(lia) Ha) as (x & Hx & He). rewrite He, next_table_enc in Hb by (done || lia).
  unfold get_next_level. rewrite entry_index_spec. unfold ent in He. rewrite He.
  pose proof (next_table_enc k x ltac:(lia) Hx) as Hn. unfold next_table in Hn. destruct x; [done| |done].
  destruct (PT_IS_TABLE _); [|done]. injection Hb as <-. destruct Hx as [Hp _]. cbn [encode].
  by destruct (table_bits p Hp) as (_ & _ & _ & _ & _ & _ & -> & _).
Qed.

Lemma next_is_fb rec s l t v m :
  tree s -> (m < l <= L)%nat -> tbl L top s l v = Some t -> PT_IS_LARGE (ent s t l v) = true -> fb_at pm s v ->
  get_next_level rec s t v m l (entry_index v l) = Panic split_msg.
Proof.
  intros Hwf Hl Ht Hlg (p & w & nx & Hf). destruct (wf_ent _ _ s Hwf l v t ltac:(lia) Ht) as (x & Hx & He).
  rewrite (translate_tbl L top s v l t Hwf ltac:(lia) Ht), (translate_enc s l t v x Hx He) in Hf.
  rewrite He, is_large_enc in Hlg by (done || lia). destruct x as [| |phys w' nx' fb]; [done..|].
  cbn [leaf_result] in Hf. injection Hf as _ -> -> ->. unfold get_next_level. rewrite entry_index_spec. unfold ent in He. rewrite He.
  pose proof (next_table_enc l _ ltac:(lia) Hx) as Hn. unfold next_table in Hn. destruct (PT_IS_TABLE _); [done|].
  rewrite (is_large_enc l _ ltac:(lia) Hx). pose proof Hx as (Hl2 & Hp & Hal). change VMM_MAX_LEVEL with 3%nat.
  rewrite (proj2 (Nat.leb_gt 3 l)), (proj2 (Nat.eqb_neq l 0)), (proj2 (Nat.leb_gt 3 m)) by lia. cbn [orb].
  rewrite !page_sizes_shift by lia. cbn [rbind]. destruct (leaf_addrs _ _ _ _ _ Hx) as (_ & _ & Ha).
  rewrite Ha by lia. rewrite land_low_mask.
  replace ((phys + 4096 * Z.b2z true) mod 2 ^ shift_of l) with 4096; [done|].
  destruct (leaf_level _ _ _ _ _ Hx) as (_ & [[-> _]|[[-> Hm']|[-> Hm']]]); [lia|..];
    change (2 ^ shift_of 1) with 2097152 || change (2 ^ shift_of 2) with 1073741824; cbn [Z.b2z]; dlia.
Qed.

Lemma fb_unsplittable f s m virt phys flags :
  tree s -> (m <= 1)%nat -> large_over s m virt -> fb_at pm s virt ->
  map_page pat gib (S f) pm s virt phys flags m = Panic split_msg.
Proof.
  intros Hwf Hm (l & t & Hl & Ht & Hlg) Hf. pose proof (level_bounds pm) as HL.
  assert (l <= 2)%nat as Hl2.
  { destruct (wf_ent _ _ s Hwf l virt t ltac:(lia) Ht) as (x & Hx & He). rewrite He, is_large_enc in Hlg by (done || lia).
    destruct x; try done. by destruct Hx. }
  assert (forall k, (l <= k <= L)%nat -> exists a, tbl L top s k virt = Some a) as Hab.
  { intros k Hk. destruct (tbl L top s k virt) as [a|] eqn:E; [by exists a|].
    by rewrite (tbl_none L top s virt k l E) in Ht by lia. }
  destruct (Hab 3%nat ltac:(lia)) as [t3 H3]. destruct (Hab 2%nat ltac:(lia)) as [t2 H2].
  cbn [map_page]. set (rec := map_page pat gib f pm).
  assert ((if levels pm =? 5 then get_next_level rec s top virt m 4 (entry_index virt 4) else Ok (top, s)) = Ok (t3, s)) as ->.
  { destruct (levels pm =? 5) eqn:E5.
    - assert (L = 4%nat) as EL by (unfold pm_level; by rewrite E5). apply next_is_table; [done|lia| |done].
      rewrite <- EL at 1. apply tbl_top.
    - assert (L = 3%nat) as EL by (unfold pm_level; by rewrite E5). rewrite <- EL, tbl_top in H3 at 1. by injection H3 as <-. }
  cbn [rbind]. rewrite (next_is_table rec s 3 t3 t2) by (done || lia). cbn [rbind].
  replace (m =? Size1GiB)%nat with false by (by destruct m as [|[|m]]; [..|lia]).
  destruct (decide (l = 2%nat)) as [->|Hn2].
  { rewrite H2 in Ht. injection Ht as ->. by rewrite (next_is_fb rec s 2 t virt m). }
  assert (l = 1%nat) as -> by lia. assert (m = 0%nat) as -> by lia.
  rewrite (next_is_table rec s 2 t2 t) by (done || lia). cbn [rbind Nat.eqb Size2MiB].
  by rewrite (next_is_fb rec s 1 t virt 0).
Qed.
End Props.

(** ** A new page map *)
Lemma empty_tbl {M : Type} `{TableLaws M} L top s l v :
  (forall i, slot_ok i -> pt_read s (top + 8 * i) = 0) -> (l < L)%nat -> tbl L top s l v = None.
Proof.
  intros Hz Hl. apply (tbl_none L top s v (L - 1)); [|lia|lia]. rewrite tbl_step by lia.
  replace (S (L - 1)) with L by lia. rewrite tbl_top. unfold next_table, ent. by rewrite Hz by apply index_slot.
Qed.

Lemma empty_wf {M : Type} `{TableLaws M} L top s :
  mem_ok s -> owned s top -> (forall i, slot_ok i -> pt_read s (top + 8 * i) = 0) ->
  WF L top s /\ forall v, translate s L top v = None.
Proof.
  intros Hm Ho Hz. assert (forall l v a, (l <= L)%nat -> tbl L top s l v = Some a -> l = L /\ a = top) as Ht.
  { intros l v a Hl E. destruct (decide (l = L)) as [->|]; [|by rewrite empty_tbl in E by (done || lia)].
    rewrite tbl_top in E. by injection E as <-. }
  split.
  - split; [done|..].
    + intros l v a Hl E. by destruct (Ht l v a Hl E) as [_ ->].
    + intros l v l' v' a Hl Hl' E E'. destruct (Ht l v a Hl E) as [-> _], (Ht l' v' a Hl' E') as [-> _].
      split; [done|apply same_top].
    + intros l v a Hl E. destruct (Ht l v a Hl E) as [-> ->]. exists Empty. split; [done|]. apply Hz, index_slot.
  - intros v. rewrite (translate_enc s L top v Empty); [done|done|]. apply Hz, index_slot.
Qed.

Lemma new_pagemap_spec {M : Type} `{TableLaws M} (s : M) (five : bool) :
  mem_ok s ->
  res_post (fun '(pm, s') => levels pm = (if five then 5 else 4) /\
      WF (pm_level pm) (top_level pm) s' /\ forall v, translate s' (pm_level pm) (top_level pm) v = None)
    alloc_msg (new_pagemap s five).
Proof.
  intros Hm. unfold new_pagemap. eapply res_post_bind; [by apply pt_alloc_ok|].
  intros [top s'] (Hm' & _ & Ho & Hz & _). cbn [res_post levels top_level]. split; [done|]. by apply empty_wf.
Qed.
