(* ===== verification/VmmPmm.v ===== *)
(** * Page tables in physical memory

    The physical memory of [Pmm] provides what [Vmm] asks of it: 64-bit
    little-endian loads and stores, and pages from [ext_mem_alloc(PT_SIZE)],
    which on x86 lie below 4 GiB, are zeroed and were usable before.  A page is
    owned when it is not usable memory any more. *)

From S2P Require Import Prelude CInt Memmap MemmapSem Separate Sanitise RangeAlloc Pmm PmmFacts PmmProps Vmm VmmProps.

Definition read64 (r : Z -> Z) (a : Z) : Z := le_val (map (fun k => r (a + Z.of_nat k)) (seq 0 8)).

Definition write64 (r : Z -> Z) (a v : Z) : Z -> Z :=
  fun x => if (a <=? x) && (x <? a + 8) then nth (Z.to_nat (x - a)) (le_bytes 8 v) 0 else r x.

Lemma read64_ext r r' a : (forall x, a <= x < a + 8 -> r x = r' x) -> read64 r a = read64 r' a.
Proof.
  intros Hr. unfold read64. f_equal. apply map_ext_in. intros k Hk. apply in_seq in Hk. apply Hr. lia.
Qed.

Lemma read_write64 r a v : 0 <= v < 2 ^ 64 -> read64 (write64 r a v) a = v.
Proof.
  intros Hv. assert (forall k, (k < 8)%nat -> write64 r a v (a + Z.of_nat k) = nth k (le_bytes 8 v) 0) as Hw.
  { intros k Hk. unfold write64. rewrite (proj2 (Z.leb_le a _)), (proj2 (Z.ltb_lt _ (a + 8))) by lia.
    cbn [andb]. f_equal. lia. }
  unfold read64. transitivity (le_val (le_bytes 8 v)); [|by rewrite le_val_bytes; apply Z.mod_small].
  cbn [map seq]. by rewrite !Hw by lia.
Qed.

Lemma read_write64_other r a b v : a + 8 <= b \/ b + 8 <= a -> read64 (write64 r a v) b = read64 r b.
Proof.
  intros Hd. apply read64_ext. intros x Hx. unfold write64. case_if; [lia|done].
Qed.

Lemma read64_zero r a : (forall x, a <= x < a + 8 -> r x = 0) -> read64 r a = 0.
Proof. intros Hr. by rewrite (read64_ext r (fun _ => 0)). Qed.

Section VmmPmm.
(** Capacity of the memory map; whether the build is for 32-bit x86. *)
Variable max_entries : nat.
Variable i386 : bool.

Definition alloc_table (st : pmm) : res (Z * pmm) :=
  let! (p, st) := ext_mem_alloc max_entries true i386 st PT_SIZE in
  match p with
  | Some p => Ok (p, st)
  | None => Fault
  end.

#[local] Instance pmm_tables : TableMemory pmm := {|
  pt_read st a := read64 (ram st) a;
  pt_write st a v := with_ram st (write64 (ram st) a v);
  pt_alloc := alloc_table;
|}.

Definition tables_ok (st : pmm) : Prop := pmm_inv max_entries st /\ allocations_disallowed st = false.

Definition owned_page_of (st : pmm) (p : Z) : Prop :=
  table_page p /\ forall a, p <= a < p + 4096 -> ~ usable_at (memmap st) a.

Definition alloc_table_msg (msg : string) : Prop :=
  msg = "Memory map exhausted."%string \/ msg = "High memory allocator: Out of memory"%string.

Lemma alloc_table_ok st :
  tables_ok st ->
  res_post (fun '(p, s') =>
      tables_ok s' /\ ~ owned_page_of st p /\ owned_page_of s' p /\
      (forall i, slot_ok i -> pt_read s' (p + 8 * i) = 0) /\
      forall q, owned_page_of st q -> owned_page_of s' q /\
        forall i, slot_ok i -> pt_read s' (q + 8 * i) = pt_read st (q + 8 * i))
    alloc_table_msg (alloc_table st).
Proof.
  intros [Hinv Hdis]. unfold alloc_table. eapply res_post_bind.
  - eapply res_post_mono.
    + apply (ext_mem_alloc_impl_spec max_entries true i386 st PT_SIZE MEMMAP_BOOTLOADER_RECLAIMABLE 4096 false true);
        [done|done|unfold PT_SIZE; lia|lia].
    + intros r Hr. exact Hr.
    + intros msg [Hx|[[Hx _]|(_ & Hx & _)]]; [by left|discriminate Hx|by right].
  - intros [[p|] s'] Hr; cbn [fst snd res_post] in *; [|by destruct Hr].
    destruct Hr as [Hinv' Hmod [Hdis' _] (n & t & Hn & _ & Hlim & Hal & Hram)].
    assert (n = 4096) as -> by (by injection Hn).
    rewrite andb_false_r in Hram. cbn [negb andb] in Hram. cbn [alloc_limit negb andb] in Hlim.
    pose proof (al_size _ _ _ _ _ _ Hal) as Hsz.
    assert (forall a, p <= a < p + 4096 -> usable_at (memmap st) a) as Hfr
      by (intros a Ha; apply (al_fresh _ _ _ _ _ _ Hal); unfold inside; lia).
    split_and!.
    + split; [done|by rewrite Hdis'].
    + intros [_ Ho]. apply (Ho p); [lia|apply Hfr; lia].
    + split; [split; [lia|done]|]. intros a Ha. apply (al_gone _ _ _ _ _ _ Hal); [done|unfold inside; lia].
    + intros i Hi. unfold slot_ok in Hi. apply read64_zero. intros x Hx. rewrite Hram.
      by rewrite (proj2 (Z.leb_le p x)), (proj2 (Z.ltb_lt x _)) by lia.
    + intros q [Hq Ho]. split.
      * split; [done|]. intros a Ha. destruct (decide (inside p t a)).
        -- apply (al_gone _ _ _ _ _ _ Hal); done.
        -- rewrite (al_usable _ _ _ _ _ _ Hal) by done. by apply Ho.
      * intros i Hi. apply read64_ext. intros x Hx. unfold slot_ok in Hi. rewrite Hram. case_if; [|done].
        exfalso. apply (Ho x); [lia|apply Hfr; lia].
Qed.

#[local] Instance pmm_table_laws : TableLaws pmm.
Proof.
  apply (Build_TableLaws _ _ tables_ok owned_page_of alloc_table_msg).
  - by intros s p [? _].
  - intros s p i v [? ?] Ho Hi Hv. done.
  - intros s p i v q j _ [[Hp Mp] _] [[Hq Mq] _] Hi Hj Hv. cbn. unfold slot_ok in *. case_if.
    + rewrite Hb. by apply read_write64.
    + apply read_write64_other. dlia.
  - apply alloc_table_ok.
Defined.
End VmmPmm.

(** ** The claims *)

(** [map_page], for any page size, four or five levels, with or without
    1 GiB pages and a page attribute table, and whatever is mapped already:
    afterwards the processor translates every address of the page to the
    physical page with the requested permissions and memory type (ordinary
    memory without an attribute table) and every other address exactly as
    before, splitting larger pages where needed; the tables stay a tree of
    pages of their own.  It panics only as the allocator does, or when a larger
    page with the framebuffer type is in the way. *)
Theorem map_page_correct {M : Type} `{TableLaws M} pat gib pm (s : M) virt phys w nx fb m :
  let L := pm_level pm in let top := top_level pm in let size := 2 ^ shift_of m in
  (m <= 2)%nat -> WF L top s -> 0 <= virt < 2 ^ 64 -> 0 <= phys < 2 ^ 48 ->
  virt mod size = 0 -> phys mod size = 0 ->
  res_post (fun s' => WF L top s' /\ forall v, translate s' L top v =
        if decide (vn L virt <= vn L v < vn L virt + size)
        then Some (phys + (vn L v - vn L virt), MkAttrs w nx (fb && pat) (fb && pat)) else translate s L top v)
    (range_err pm s (vn L virt) size) (map_page pat gib MAP_FUEL pm s virt phys (vmm_flags w nx fb) m).
Proof.
  intros L top size Hm Hwf Hv Hp Hva Hpa.
  eapply res_post_mono; [apply map_page_spec; try done; by split_and!|intros s' []; by split|done].
Qed.

(** C25.  [map_pages] on page-aligned arguments whose range does not run past
    the end of the virtual or physical address space: whatever mixture of page
    sizes it picks, the processor afterwards translates the whole range linearly
    with the requested attributes, and everything else as before. *)
Theorem map_pages_correct {M : Type} `{TableLaws M} pat gib pm (s : M) virt phys w nx fb count :
  let L := pm_level pm in let top := top_level pm in
  WF L top s -> 0 <= virt < 2 ^ 64 -> 0 <= phys -> 0 <= count -> phys + count <= 2 ^ 48 ->
  vn L virt + count <= 2 ^ shift_of (S L) ->
  virt mod 4096 = 0 -> phys mod 4096 = 0 -> count mod 4096 = 0 ->
  res_post (fun s' => WF L top s' /\ forall v, translate s' L top v =
        if decide (vn L virt <= vn L v < vn L virt + count)
        then Some (phys + (vn L v - vn L virt), MkAttrs w nx (fb && pat) (fb && pat)) else translate s L top v)
    (range_err pm s (vn L virt) count) (map_pages pat gib pm s virt phys (vmm_flags w nx fb) count).
Proof.
  intros L top Hwf Hv Hp Hc Hpt Hvt Hva Hpa Hca.
  eapply res_post_mono; [by apply map_pages_mapped|intros s' []; by split|done].
Qed.

(** C38.  A large page mapped with the framebuffer type cannot be remapped in
    part: as the mask that takes the address out of its entry keeps bit 12,
    where large entries have the attribute-table bit, [get_next_level] takes
    the page for misaligned and panics. *)
Theorem framebuffer_page_unsplittable {M : Type} `{TableLaws M} pat gib pm (s : M) virt phys flags m fuel :
  WF (pm_level pm) (top_level pm) s -> (m <= 1)%nat -> large_over pm s m virt -> fb_at pm s virt ->
  map_page pat gib (S fuel) pm s virt phys flags m = Panic split_msg.
Proof. apply fb_unsplittable. Qed.

(** *** A page map in real memory *)
#[local] Instance demo_tables : TableMemory pmm := pmm_tables 512 false.
#[local] Instance demo_laws : TableLaws pmm := pmm_table_laws 512 false.

Definition demo_map : res (pagemap * pmm) := new_pagemap demo_pmm false.

Definition ok_map : pagemap * pmm :=
  match demo_map with Ok r => r | _ => (MkPagemap 4 0, demo_pmm) end.

Lemma demo_tables_ok : tables_ok 512 demo_pmm.
Proof. split; [apply demo_pmm_inv|done]. Qed.

Lemma ok_map_wf : levels ok_map.1 = 4 /\ WF (pm_level ok_map.1) (top_level ok_map.1) ok_map.2.
Proof.
  pose proof (new_pagemap_spec demo_pmm false demo_tables_ok) as Hs. fold demo_map in Hs. unfold ok_map.
  assert (match demo_map with Ok _ => true | _ => false end = true) as He by (vm_compute; reflexivity).
  destruct demo_map as [[pm s]| | |]; try discriminate He. by destruct Hs as (? & ? & _).
Qed.

Lemma map_page_correct_witness :
  exists s', map_page true true MAP_FUEL ok_map.1 ok_map.2 0xffffffff80200000 0x400000 (vmm_flags true false false) 1 = Ok s' /\
    translate s' 3 (top_level ok_map.1) 0xffffffff80212345 = Some (0x412345, MkAttrs true false false false).
Proof.
  destruct ok_map_wf as [HL Hwf].
  pose proof (map_page_correct true true ok_map.1 ok_map.2 0xffffffff80200000 0x400000 true false false 1
    ltac:(lia) Hwf ltac:(lia) ltac:(lia) ltac:(done) ltac:(done)) as Hm.
  assert (match map_page true true MAP_FUEL ok_map.1 ok_map.2 0xffffffff80200000 0x400000 (vmm_flags true false false) 1
          with Ok _ => true | _ => false end = true) as He by (vm_compute; reflexivity).
  destruct (map_page _ _ _ _ _ _ _ _ _) as [s'| | |]; try discriminate He.
  exists s'. split; [reflexivity|]. destruct Hm as [_ Ht]. unfold pm_level in Ht. rewrite HL in Ht. exact (Ht 0xffffffff80212345).
Defined.

Lemma map_pages_correct_witness :
  exists s', map_pages true false ok_map.1 ok_map.2 0x1ff000 0x3ff000 (vmm_flags false true false) 0x202000 = Ok s' /\
    translate s' 3 (top_level ok_map.1) 0x400010 = Some (0x600010, MkAttrs false true false false).
Proof.
  destruct ok_map_wf as [HL Hwf]. assert (pm_level ok_map.1 = 3%nat) as E3 by (unfold pm_level; by rewrite HL).
  pose proof (map_pages_correct true false ok_map.1 ok_map.2 0x1ff000 0x3ff000 false true false 0x202000
    Hwf ltac:(lia) ltac:(lia) ltac:(lia) ltac:(lia) ltac:(rewrite E3; discriminate) ltac:(done) ltac:(done) ltac:(done)) as Hm.
  assert (match map_pages true false ok_map.1 ok_map.2 0x1ff000 0x3ff000 (vmm_flags false true false) 0x202000
          with Ok _ => true | _ => false end = true) as He by (vm_compute; reflexivity).
  destruct (map_pages _ _ _ _ _ _ _ _) as [s'| | |]; try discriminate He.
  exists s'. split; [reflexivity|]. destruct Hm as [_ Ht]. rewrite E3 in Ht. exact (Ht 0x400010).
Defined.

(** A 2 MiB framebuffer mapping, and an attempt to remap one page of it. *)
Definition fb_state : pmm :=
  match map_page true true MAP_FUEL ok_map.1 ok_map.2 0x200000 0x400000 (vmm_flags true false true) 1 with
  | Ok s => s | _ => demo_pmm
  end.

Lemma framebuffer_page_unsplittable_witness :
  map_page true true MAP_FUEL ok_map.1 fb_state 0x201000 0x800000 (vmm_flags true false false) 0 = Panic split_msg.
Proof.
  destruct ok_map_wf as [HL Hwf]. assert (pm_level ok_map.1 = 3%nat) as E3 by (unfold pm_level; by rewrite HL).
  apply framebuffer_page_unsplittable.
  - pose proof (map_page_spec true true ok_map.1 ok_map.2 0x200000 0x400000 true false true 1 ltac:(lia) Hwf
      ltac:(split_and!; done)) as Hm. unfold fb_state.
    assert (match map_page true true MAP_FUEL ok_map.1 ok_map.2 0x200000 0x400000 (vmm_flags true false true) 1
            with Ok _ => true | _ => false end = true) as He by (vm_compute; reflexivity).
    destruct (map_page _ _ _ _ _ _ _ _ _) as [s'| | |]; try discriminate He. apply Hm.
  - lia.
  - exists 1%nat, (default 0 (tbl 3 (top_level ok_map.1) fb_state 1 0x201000)). rewrite E3. split; [lia|].
    split; vm_compute; reflexivity.
  - exists 0x401000, true, false. rewrite E3. vm_compute. reflexivity.
Defined.
