(* ===== verification/Config.v ===== *)
(** * The configuration file

    [common/lib/config.c]: checking and normalising the text, macros, the menu
    tree and the lookup of keys.  A buffer is the list of its bytes and a
    pointer into it an offset, so a read or write outside the object is
    [Fault].  The entries of the menu tree are the one array the code allocates,
    and pointers between them indices into it.  [ext_mem_alloc] panics instead
    of returning NULL; its buffers are fresh zeroed objects here. *)

From S2P Require Import Prelude CInt Libc Blake2b.

(** ** Characters *)
Definition SEPARATOR : Z := 10.
Definition is_sep (c : Z) : bool := c =? SEPARATOR.
Definition blank (c : Z) : bool := (c =? 32) || (c =? 9).
Definition line_end (c : Z) : bool := (c =? SEPARATOR) || (c =? 0).
Definition name_end (c : Z) : bool := (c =? 125) || (c =? SEPARATOR) || (c =? 0).

(** ** Scanning *)

(** A loop that advances a pointer to the first character of a class: the
    distance it goes. *)
Fixpoint scan_from (stop : Z -> bool) (s : list Z) : res nat :=
  match s with
  | [] => Fault
  | c :: s => if stop c then Ok 0%nat else let! n := scan_from stop s in Ok (S n)
  end.

Definition scan (stop : Z -> bool) (buf : list Z) (p : nat) : res nat :=
  let! n := scan_from stop (drop p buf) in Ok (p + n)%nat.

(** The same with a bound on the distance. *)
Fixpoint scan_below (stop : Z -> bool) (s : list Z) (n : nat) {struct n} : res nat :=
  match n with
  | O => Ok 0%nat
  | S n =>
      match s with
      | [] => Fault
      | c :: s => if stop c then Ok 0%nat else let! k := scan_below stop s n in Ok (S k)
      end
  end.

(** Copying characters into an array of [room] and its terminator, with a panic
    when it is too small, or stopping there. *)
Fixpoint copy_until (stop : Z -> bool) (msg : string) (s : list Z) (room : nat) : res (list Z) :=
  match s with
  | [] => Fault
  | c :: s =>
      if stop c then Ok []
      else match room with
           | O => Panic msg
           | S room => let! r := copy_until stop msg s room in Ok (c :: r)
           end
  end.

Fixpoint copy_at_most (stop : Z -> bool) (s : list Z) (room : nat) {struct room} : res (list Z) :=
  match room with
  | O => Ok []
  | S room =>
      match s with
      | [] => Fault
      | c :: s => if stop c then Ok [] else let! r := copy_at_most stop s room in Ok (c :: r)
      end
  end.

(** ** Normalisation: carriage returns and the blanks around lines go *)
Fixpoint trim_back (buf : list Z) (write : nat) : res nat :=
  match write with
  | O => Ok 0%nat
  | S w => let! c := rd buf w in if blank c then trim_back buf w else Ok write
  end.

Definition normalise_body (read : nat) (s : list Z * nat * bool) : res (list Z * nat * bool) :=
  let '(buf, write, at_line_start) := s in
  let! c := rd buf read in
  if c =? 13 then Ok s
  else if at_line_start && blank c then Ok s
  else
    let! write := if is_sep c then trim_back buf write else Ok write in
    let! buf := wr buf write c in
    Ok (buf, S write, is_sep c).

(** The text in place, and its new size, the terminator included. *)
Definition normalise (buf : list Z) (config_size : nat) : res (list Z * nat) :=
  let! buf := wr buf (config_size - 2) SEPARATOR in
  let! buf := wr buf (config_size - 1) 0 in
  let! (buf, write, _) := for_range (config_size - 1) 0 normalise_body (buf, 0%nat, true) in
  let! write := trim_back buf write in
  let! buf := wr buf write 0 in
  Ok (buf, S write).

(** ** Macros *)
Record macro := MkMacro { m_name : list Z; m_value : list Z }.

Definition MACRO_NAME_MAX : nat := 1023.
Definition MACRO_VALUE_MAX : nat := 2047.

Section Macros.
Variables (config : list Z) (config_size : nat).

Definition has_macro_body (p : nat) : res (nat + bool) :=
  let! r := memchr (drop p config) 36 (config_size - p) in
  match r with
  | None => Ok (inr false)
  | Some k =>
      let p := (p + k)%nat in
      let! hit := if (2 <=? config_size - p)%nat then let! c := rd config (S p) in Ok (c =? 123) else Ok false in
      if hit : bool then Ok (inr true) else Ok (inl (S p))
  end.

Definition has_macro_references : res bool :=
  loop has_macro_body (fun p => Z.of_nat (config_size - p)) 0%nat.

(** [memcmp(config_addr + i, s, length s) == 0] *)
Definition at_text (i : nat) (s : list Z) : res bool :=
  let! r := memcmp (drop i config) s (length s) in Ok (r =? 0).

(** A line that starts with [${]. *)
Definition at_reference_line (i : nat) : res bool :=
  let! nl := if (3 <=? config_size - i)%nat then at_text i (SEPARATOR :: bytes "${") else Ok false in
  if nl : bool then Ok true
  else if (2 <=? config_size - i)%nat && (i =? 0)%nat then at_text 0 (bytes "${") else Ok false.

Definition reference_start (i : nat) : nat := if (i =? 0)%nat then (i + 2)%nat else (i + 3)%nat.

Definition load_macros_body (s : nat * list macro) : res (nat * list macro + list macro) :=
  let '(i, macros) := s in
  if (config_size <=? i)%nat then Ok (inr macros)
  else
    let! line := at_reference_line i in
    if line : bool then
      let i := reference_start i in
      let! name := copy_until name_end "config: Macro name too long (max %U)" (drop i config) MACRO_NAME_MAX in
      let i := (i + length name)%nat in
      let! c := rd config i in
      let! skip := if line_end c then Ok true else let! c := rd config (S i) in Ok (negb (c =? 61)) in
      if skip : bool then Ok (inl (i, macros))
      else
        let i := (i + 2)%nat in
        let! value := copy_until line_end "config: Macro value too long (max %U)" (drop i config) MACRO_VALUE_MAX in
        Ok (inl ((i + length value)%nat, MkMacro name value :: macros))
    else Ok (inl (S i, macros)).

Definition load_macros (macros : list macro) : res (list macro) :=
  loop load_macros_body (fun '(i, _) => Z.of_nat (config_size - i)) (0%nat, macros).

Fixpoint find_macro (macros : list macro) (name : list Z) : res (list Z) :=
  match macros with
  | [] => Ok []
  | m :: macros =>
      let! r := strcmp (m_name m ++ [0]) (name ++ [0]) in
      if r =? 0 then Ok (m_value m) else find_macro macros name
  end.

(** [memcpy(out + in, bytes, length bytes)] unless [out] is NULL *)
Definition put (out : option (list Z)) (pos : nat) (bs : list Z) : res (option (list Z)) :=
  match out with
  | None => Ok None
  | Some o => if (pos + length bs <=? length o)%nat then Ok (Some (buf_write o pos bs)) else Fault
  end.

Variable size_bits : Z.    (** the width of [size_t] *)

(** Past a definition at the start of a line: [None] if it is not one. *)
Definition skip_definition (i : nat) : res (option nat) :=
  let i := reference_start i in
  let! k := scan_below (fun c => c =? 125) (drop i config) (config_size - i) in
  let i := (i + k)%nat in
  if (config_size <=? i)%nat then Panic "config: Malformed macro usage"
  else
    let i := S i in
    if (config_size <=? i)%nat then Ok None
    else
      let! c := rd config i in
      if negb (c =? 61) then Ok None
      else let! i := scan line_end config (S i) in Ok (Some i).

(** The next piece of the output: where to go on, and the bytes. *)
Definition next_piece (macros : list macro) (i : nat) : res (nat * list Z) :=
  let! reference := if (2 <=? config_size - i)%nat then at_text i (bytes "${") else Ok false in
  if reference : bool then
    let i := (i + 2)%nat in
    let! name := copy_at_most name_end (drop i config) MACRO_NAME_MAX in
    let i := (i + length name)%nat in
    let! c := rd config i in
    if negb (c =? 125) then Panic "config: Malformed macro usage"
    else let! value := find_macro macros name in Ok (S i, value)
  else let! c := rd config i in Ok (S i, [c]).

Definition expand_next (macros : list macro) (out : option (list Z)) (i pos : nat)
    : res (option (list Z) * nat * nat) :=
  let! (i, bs) := next_piece macros i in
  let! out := put out pos bs in
  match checked_add size_bits (Z.of_nat pos) (Z.of_nat (length bs)) with
  | None => Panic "config: Config file too large for macro expansion"
  | Some _ => Ok (out, i, (pos + length bs)%nat)
  end.

Definition expand_body (macros : list macro) (s : option (list Z) * nat * nat)
    : res (option (list Z) * nat * nat + option (list Z) * nat) :=
  let '(out, i, pos) := s in
  if (config_size <=? i)%nat then Ok (inr (out, pos))
  else
    let! line := at_reference_line i in
    let! skip := if line : bool then skip_definition i else Ok None in
    match skip with
    | Some i => Ok (inl (out, i, pos))
    | None => let! s := expand_next macros out i pos in Ok (inl s)
    end.

Definition expand_macros (macros : list macro) (out : option (list Z)) : res (option (list Z) * nat) :=
  loop (expand_body macros) (fun '(_, i, _) => Z.of_nat (config_size - i)) (out, 0%nat, 0%nat).
End Macros.

(** ** The menu tree *)
Definition MAX_MENU_NESTING : nat := 64.

(** [struct menu_entry]; a [body] of [None] is the empty literal. *)
Record menu_entry := MkMenu {
  me_name : nat; me_body : option nat; me_parent : option nat; me_sub : option nat;
  me_next : option nat; me_expanded : bool }.

Definition blank_entry : menu_entry := MkMenu 0 None None None None false.
Definition set_sub (e : menu_entry) (p : option nat) : menu_entry :=
  MkMenu (me_name e) (me_body e) (me_parent e) p (me_next e) (me_expanded e).
Definition set_next (e : menu_entry) (p : option nat) : menu_entry :=
  MkMenu (me_name e) (me_body e) (me_parent e) (me_sub e) p (me_expanded e).

(** To the next entry: a slash at the beginning of a line, or the end. *)
Fixpoint entry_from (line_start : bool) (s : list Z) : res nat :=
  match s with
  | [] => Fault
  | c :: s =>
      if c =? 0 then Ok 0%nat
      else if (c =? 47) && line_start then Ok 0%nat
      else let! n := entry_from (is_sep c) s in Ok (S n)
  end.

Fixpoint count_entries (line_start : bool) (s : list Z) : res nat :=
  match s with
  | [] => Fault
  | c :: s =>
      if c =? 0 then Ok 0%nat
      else let! n := count_entries (is_sep c) s in
           Ok (if (c =? 47) && line_start then S n else n)
  end.

(** What parsing an entry yields: its place in the tree and its texts. *)
Record item := MkItem { it_depth : nat; it_expanded : bool; it_name : nat; it_body : option nat }.

(** The name line of an entry after its slashes, up to the line after it. *)
Definition parse_name (buf : list Z) (p : nat) : res (bool * nat * nat * list Z) :=
  let! c := rd buf p in
  let expanded := c =? 43 in
  let p := if expanded then S p else p in
  let! name := scan (fun c => negb (blank c)) buf p in
  let! p := scan line_end buf name in
  let! c := rd buf p in
  if is_sep c then let! buf := wr buf p 0 in Ok (expanded, name, S p, buf)
  else Ok (expanded, name, p, buf).

(** The body, up to the next entry; its last newline becomes the terminator. *)
Definition parse_body (buf : list Z) (p : nat) : res (option nat * nat * list Z) :=
  let! c := rd buf p in
  if c =? 47 then Ok (None, p, buf)
  else
    let body := p in
    let! prev := rd buf (p - 1) in
    let! n := entry_from (is_sep prev) (drop p buf) in
    let p := (p + n)%nat in
    let! prev := rd buf (p - 1) in
    if (body <? p)%nat && is_sep prev then let! buf := wr buf (p - 1) 0 in Ok (Some body, p, buf)
    else Ok (Some body, p, buf).

(** [entries], [entries_used], [last_at_depth] and [root] *)
Record tree := MkTree { t_entries : list menu_entry; t_used : nat; t_last : list (option nat); t_root : option nat }.

(** The nesting checks, which come before the rest of the line is looked at. *)
Definition check_depth (last : list (option nat)) (depth : nat) : res unit :=
  if (MAX_MENU_NESTING <? depth)%nat then Panic "config: Menu nesting too deep (max %u)"
  else if (1 <? depth)%nat then
    let! up := rd last (depth - 1) in
    match up with
    | None => Panic "config: Malformed config file. Parentless child."
    | Some _ => Ok tt
    end
  else Ok tt.

(** [for (d = depth + 1; d <= MAX_MENU_NESTING; d++) last_at_depth[d] = NULL;] *)
Definition clear_below (depth : nat) (last : list (option nat)) : res (list (option nat)) :=
  for_range (MAX_MENU_NESTING - depth) (S depth) (fun d last => wr last d None) last.

(** Linking a new entry into the tree. *)
Definition link_entry (t : tree) (it : item) : res tree :=
  let depth := it_depth it in
  let entry := t_used t in
  let! parent := if (depth =? 0)%nat then Fault else rd (t_last t) (depth - 1) in
  let! fresh := rd (t_entries t) entry in
  let! es := wr (t_entries t) entry
               (MkMenu (it_name it) (it_body it) parent (me_sub fresh) (me_next fresh) (it_expanded it)) in
  let! es :=
    match parent with
    | None => Ok es
    | Some q =>
        let! pe := rd es q in
        match me_sub pe with
        | None => wr es q (set_sub pe (Some entry))
        | Some _ => Ok es
        end
    end in
  let! before := rd (t_last t) depth in
  let! sibling :=
    match before with
    | None => Ok None
    | Some b => let! be := rd es b in Ok (if decide (me_parent be = parent) then Some b else None)
    end in
  let! (es, root) :=
    match sibling with
    | Some b => let! be := rd es b in let! es := wr es b (set_next be (Some entry)) in Ok (es, t_root t)
    | None =>
        Ok (es, match t_root t with
                | None => if (depth =? 1)%nat then Some entry else None
                | r => r
                end)
    end in
  let! last := wr (t_last t) depth (Some entry) in
  let! last := clear_below depth last in
  Ok (MkTree es (S entry) last root).

Definition menu_body (s : list Z * nat * tree) : res (list Z * nat * tree + list Z * tree) :=
  let '(buf, p, t) := s in
  let! c := rd buf p in
  if c =? 0 then Ok (inr (buf, t))
  else
    let! e := scan (fun c => negb (c =? 47)) buf p in
    let depth := (e - p)%nat in
    let! _ := check_depth (t_last t) depth in
    let! (expanded, name, p, buf) := parse_name buf e in
    let! (body, p, buf) := parse_body buf p in
    let! t := link_entry t (MkItem depth expanded name body) in
    Ok (inl (buf, p, t)).

(** The root entry, all the entries, and the text they point into. *)
Definition create_menu_tree (buf : list Z) : res (option nat * list menu_entry * list Z) :=
  let! p := entry_from true buf in
  let! c := rd buf p in
  if c =? 0 then Ok (None, [], buf)
  else
    let! count := count_entries false (drop (S p) buf) in
    let entries := replicate (S count) blank_entry in
    let! buf := if (0 <? p)%nat then wr buf (p - 1) 0 else Ok buf in
    let! (buf, t) := loop menu_body (fun '(buf, p, _) => Z.of_nat (length buf - p))
                       (buf, p, MkTree entries 0 (replicate (MAX_MENU_NESTING + 2) None) None) in
    Ok (t_root t, t_entries t, buf).

(** ** Initialisation *)
Definition CONFIG_B2SUM_EMPTY : list Z := replicate 128 48.

(** The hash in the executable, from its hexadecimal digits. *)
Fixpoint decode_b2sum (n : nat) (s : list Z) : res (list Z) :=
  match n with
  | O => Ok []
  | S n =>
      match s with
      | h :: l :: s =>
          let hi := digit_to_int h in
          let lo := digit_to_int l in
          if (hi =? -1) || (lo =? -1) then Panic "!!! INVALID CHARACTER IN CONFIG CHECKSUM !!!"
          else let! r := decode_b2sum n s in Ok (u8 (Z.lor (Z.shiftl hi 4) lo) :: r)
      | _ => Fault
      end
  end.

(** The static variables of [config.c] and the two settings it clears. *)
Record config := MkConfig {
  config_addr : option (list Z); config_raw : option (list Z); config_ready : bool;
  menu_entries : list menu_entry; menu_tree : option nat;
  secure_boot_active : bool; editor_enabled : bool }.

Section Init.
Variable size_bits : Z.
Variable uefi : bool.
Variable config_b2sum : list Z.             (** past its signature *)
Variables arch fw_type loader_arch : list Z. (** [current_arch()] and the like *)

(** Whether a hash is set, and if so whether it is that of the file. *)
Definition check_b2sum (buf : list Z) (config_size : nat) : res bool :=
  let! r := memcmp config_b2sum CONFIG_B2SUM_EMPTY 128 in
  if r =? 0 then Ok false
  else
    let out_buf := blake2b (take (config_size - 2) buf) in
    let! hash_buf := decode_b2sum 64 config_b2sum in
    let! r := memcmp hash_buf out_buf 64 in
    if negb (r =? 0) then Panic "!!! CHECKSUM MISMATCH FOR CONFIG FILE !!!" else Ok true.

Definition predefined_macros : list macro :=
  [MkMacro (bytes "LOADER_ARCH") loader_arch; MkMacro (bytes "FW_TYPE") fw_type; MkMacro (bytes "ARCH") arch].

(** The text with its macros expanded: measured first, then stored in a buffer
    of the size measured. *)
Definition expand_config (buf : list Z) (config_size : nat) : res (list Z) :=
  let! macros := load_macros buf config_size predefined_macros in
  let! (_, n) := expand_macros buf config_size size_bits macros None in
  let! (out, _) := expand_macros buf config_size size_bits macros (Some (replicate n 0)) in
  of_option out.

Definition init_config (c : config) (buf : list Z) (config_size : nat) : res config :=
  let! hashed := check_b2sum buf config_size in
  let raw := if uefi then Some (take (config_size - 2) buf) else config_raw c in
  let! (buf, config_size) := normalise buf config_size in
  let! refs := has_macro_references buf config_size in
  let! buf := if refs : bool then expand_config buf config_size else Ok buf in
  let! (root, entries, buf) := create_menu_tree buf in
  Ok (MkConfig (Some buf) raw true entries root
        (if hashed then secure_boot_active c else false) (if hashed then false else editor_enabled c)).
End Init.

(** ** Keys *)
Definition CONFIG_VALUE_BUF_SIZE : nat := 4096.

Section Value.
(** The object [config] points into, and the offset it points at. *)
Variables (obj : list Z) (start : nat) (key : list Z) (key_len : nat).

Definition value_body (s : nat * nat) : res (nat * nat + option (list Z * nat)) :=
  let '(i, index) := s in
  let p := (start + i)%nat in
  let! c := rd obj p in
  if c =? 0 then Ok (inr None)
  else
    let! r := strncasecmp (drop p obj) key key_len in
    let! hit := if r =? 0 then let! c := rd obj (p + key_len) in Ok (c =? 58) else Ok false in
    if negb hit then Ok (inl (S i, index))
    else
      let! line_start := if (i =? 0)%nat then Ok true else let! c := rd obj (p - 1) in Ok (is_sep c) in
      if negb line_start then Ok (inl (S i, index))
      else if negb (index =? 0)%nat then Ok (inl (S i, index - 1)%nat)
      else
        let! v := scan (fun c => negb (blank c)) obj (p + key_len + 1) in
        let! e := scan line_end obj v in
        let value_len := if (CONFIG_VALUE_BUF_SIZE <=? e - v)%nat then (CONFIG_VALUE_BUF_SIZE - 1)%nat else (e - v)%nat in
        Ok (inr (Some (take value_len (drop v obj), v))).

(** The value and [lastkey], or NULL, which leaves [lastkey] alone. *)
Definition get_value (index : nat) : res (option (list Z * nat)) :=
  loop value_body (fun '(i, _) => Z.of_nat (length obj - (start + i))) (0%nat, index).
End Value.

(** [config_get_value] on a pointer into [obj], or NULL for the whole file. *)
Definition config_get_value (c : config) (ptr : option (list Z * nat)) (index : nat) (key : option (list Z))
    : res (option (list Z * (list Z * nat))) :=
  match key with
  | None => Ok None
  | Some key =>
      if negb (config_ready c) then Ok None
      else
        match (match ptr with Some p => Some p | None => (fun a => (a, 0%nat)) <$> config_addr c end) with
        | None => Ok None
        | Some (obj, start) =>
            let! key_len := strlen key in
            let! r := get_value obj start key key_len index in
            Ok ((fun '(v, k) => (v, (obj, k))) <$> r)
        end
  end.

(** [config_get_tuple], with [lastkey] threaded through its three calls; the
    addresses it compares are those of one object.  Its own buffers have the size
    of that of [config_get_value], so nothing more is cut off. *)
Definition config_get_tuple (c : config) (ptr : option (list Z * nat)) (index : nat) (key1 key2 : option (list Z))
    : res (option (list Z) * option (list Z)) :=
  let! r1 := config_get_value c ptr index key1 in
  match r1 with
  | None => Ok (None, None)
  | Some (value1, lk1) =>
      let! r2 := config_get_value c (Some lk1) 0 key2 in
      let lk2 := match r2 with Some (_, k) => k | None => lk1 end in
      let! r3 := config_get_value c ptr (S index) key1 in
      let lk3 := match r3 with Some (_, k) => k | None => lk2 end in
      let value2 := fst <$> r2 in
      Ok (Some value1,
          match value2, r3 with
          | Some v, Some _ => if (lk3.2 <? lk2.2)%nat then None else Some v
          | v, _ => v
          end)
  end.

(** ** Evaluation *)
Definition demo_lines : list string :=
  ["  timeout: 5  "; "${DIR}=boot():/sys"; "/Linux"; "protocol: linux"; "  PATH: ${DIR}/vmlinuz"; "/+More"; "comment: x"; "//Old ${ARCH}"; "path: z"].

Definition demo_text : list Z := concat (map (fun l => bytes l ++ [13; 10]) demo_lines).

Definition demo_config : res config :=
  init_config 64 true CONFIG_B2SUM_EMPTY (bytes "x86-64") (bytes "UEFI") (bytes "x86-64")
    (MkConfig None None false [] None true true) (demo_text ++ [0; 0]) (length demo_text + 2).

Definition demo_get (ptr : option nat) (key : string) : option (list Z) :=
  match demo_config with
  | Ok c => match config_addr c with
            | Some a => match config_get_value c ((fun p => (a, p)) <$> ptr) 0 (Some (cstring key)) with
                        | Ok (Some (v, _)) => Some v
                        | _ => None
                        end
            | None => None
            end
  | _ => None
  end.

Example demo_timeout : demo_get None "Timeout" = Some (bytes "5").
Proof. vm_compute. reflexivity. Qed.

Example demo_path :
  match demo_config with
  | Ok c => (menu_tree c, map (fun e => (me_parent e, me_sub e, me_next e, me_expanded e)) (menu_entries c),
             match menu_entries c with e :: _ => demo_get (me_body e) "path" | [] => None end)
  | _ => (None, [], None)
  end = (Some 0%nat,
         [(None, None, Some 1%nat, false); (None, Some 2%nat, None, true); (Some 1%nat, None, None, false)],
         Some (bytes "boot():/sys/vmlinuz")).
Proof. vm_compute. reflexivity. Qed.
