(* ===== verification/ConfigText.v ===== *)
(** * The configuration text as lines

    Lines and their stripped form; [normalise] computes the stripped lines in
    place, and [get_value] finds the line of a key. *)

From S2P Require Import Prelude CInt Libc LibcProps Config.

(** ** Lines *)
Fixpoint lines (s : list Z) : list (list Z) :=
  match s with
  | [] => [[]]
  | c :: s =>
      if is_sep c then [] :: lines s
      else match lines s with
           | l :: ls => (c :: l) :: ls
           | [] => [[c]]
           end
  end.

Definition unlines (ls : list (list Z)) : list Z := concat (map (fun l => l ++ [SEPARATOR]) ls).

Definition one_line (l : list Z) : Prop := Forall (fun c => is_sep c = false) l.

Lemma lines_nonempty s : lines s <> [].
Proof. destruct s as [|c s]; [done|]. cbn. case_if; [done|]. by destruct (lines s). Qed.

Lemma lines_one_line s : Forall one_line (lines s).
Proof.
  induction s as [|c s IH]; cbn; [by repeat constructor|]. case_if; [by constructor; [constructor|]|].
  destruct (lines s) as [|l ls]; [by repeat constructor|]. apply Forall_cons in IH as [Hl Hls]. by repeat constructor.
Qed.

Lemma unlines_lines s : unlines (lines s) = s ++ [SEPARATOR].
Proof.
  induction s as [|c s IH]; [done|]. cbn. case_if; unfold unlines in *; cbn.
  - unfold is_sep in Hb. bool_hyps. subst. by rewrite IH.
  - destruct (lines s) as [|l ls] eqn:E; [by destruct (lines_nonempty s)|]. cbn in *. by rewrite IH.
Qed.

(** ** Stripping *)
Fixpoint skip_blanks (l : list Z) : list Z :=
  match l with
  | c :: l' => if blank c then skip_blanks l' else l
  | [] => []
  end.

Definition trim (l : list Z) : list Z := reverse (skip_blanks (reverse l)).

(** A line without carriage returns and without blanks at either end. *)
Definition strip (l : list Z) : list Z := trim (skip_blanks (filter (fun c => c <> 13) l)).

Lemma trim_snoc_blank l c : blank c = true -> trim (l ++ [c]) = trim l.
Proof. intros Hc. unfold trim. rewrite reverse_snoc. cbn [skip_blanks]. by rewrite Hc. Qed.

Lemma trim_snoc_char l c : blank c = false -> trim (l ++ [c]) = l ++ [c].
Proof. intros Hc. unfold trim. rewrite reverse_snoc. cbn [skip_blanks]. rewrite Hc. by rewrite reverse_cons, reverse_involutive. Qed.

(** The text written so far is empty or ends in a newline. *)
Definition whole_lines (out : list Z) : Prop := out = [] \/ exists o, out = o ++ [SEPARATOR].

Lemma trim_app out l : whole_lines out -> trim (out ++ l) = out ++ trim l.
Proof.
  intros Ho. induction l as [|c l IH] using rev_ind.
  - rewrite app_nil_r. change (trim []) with (@nil Z). rewrite app_nil_r. destruct Ho as [->|[o ->]]; [done|by apply trim_snoc_char].
  - rewrite app_assoc. destruct (blank c) eqn:E; [by rewrite !trim_snoc_blank|by rewrite !trim_snoc_char, app_assoc].
Qed.

(** ** [normalise] as a fold *)
Definition norm_step (s : list Z * bool) (c : Z) : list Z * bool :=
  if c =? 13 then s
  else if s.2 && blank c then s
  else if is_sep c then (trim s.1 ++ [c], true) else (s.1 ++ [c], false).

Lemma trim_back_spec out rest : trim_back (out ++ rest) (length out) = Ok (length (trim out)).
Proof.
  revert rest. induction out as [|c out IH] using rev_ind; intros rest; [done|].
  rewrite length_app. cbn [length]. rewrite Nat.add_1_r. cbn [trim_back].
  rewrite (rd_lookup _ _ c) by (rewrite <- app_assoc; by apply list_lookup_middle). cbn [rbind].
  destruct (blank c) eqn:E.
  - rewrite <- app_assoc. rewrite IH. by rewrite trim_snoc_blank.
  - rewrite trim_snoc_char by done. by rewrite length_app, Nat.add_comm.
Qed.

Lemma trim_prefix out : exists k, out = trim out ++ k.
Proof.
  induction out as [|c out [k IH]] using rev_ind; [by exists []|].
  destruct (blank c) eqn:E; [|exists []; by rewrite trim_snoc_char, app_nil_r].
  rewrite trim_snoc_blank by done. exists (k ++ [c]). by rewrite app_assoc, <- IH.
Qed.

(** Writing the next character keeps what is still to be read. *)
Lemma write_over (out rest : list Z) (c : Z) :
  (0 < length rest)%nat -> wr (out ++ rest) (length out) c = Ok ((out ++ [c]) ++ drop 1 rest).
Proof.
  intros Hr. destruct rest as [|d rest]; [cbn in Hr; lia|]. rewrite wr_lt by (rewrite length_app; cbn; lia).
  f_equal. rewrite insert_app_r_alt, Nat.sub_diag by lia. cbn. rewrite drop_0. by rewrite <- app_assoc.
Qed.

Lemma normalise_body_spec text out als k c rest :
  text !! k = Some c -> (length out <= k)%nat -> length (out ++ rest) = length text ->
  drop k (out ++ rest) = drop k text ->
  exists rest', let s' := norm_step (out, als) c in
    normalise_body k (out ++ rest, length out, als) = Ok (s'.1 ++ rest', length s'.1, s'.2) /\
    (length s'.1 <= S k)%nat /\ length (s'.1 ++ rest') = length text /\
    drop (S k) (s'.1 ++ rest') = drop (S k) text.
Proof.
  intros Hc Hle Hlen Hd. assert ((out ++ rest) !! k = Some c) as Hc'.
  { rewrite <- (Nat.add_0_r k), <- lookup_drop, Hd, lookup_drop, Nat.add_0_r. done. }
  pose proof (lookup_lt_Some _ _ _ Hc) as Hk. unfold normalise_body, norm_step. rewrite (rd_lookup _ _ _ Hc'). cbn [rbind fst snd].
  assert (forall o r, length (o ++ r) = length text -> drop k (o ++ r) = drop k text ->
    drop (S k) (o ++ r) = drop (S k) text) as Hnext.
  { intros o r _ E. replace (S k) with (k + 1)%nat by lia. by rewrite <- !drop_drop, E. }
  destruct (c =? 13); [exists rest; cbn; split_and!; [done|lia|done|by apply Hnext]|].
  destruct (als && blank c); [exists rest; cbn; split_and!; [done|lia|done|by apply Hnext]|].
  assert (exists o2 r2, out ++ rest = o2 ++ r2 /\ (length o2 <= k)%nat /\
    (if is_sep c then trim_back (out ++ rest) (length out) else Ok (length out)) = Ok (length o2) /\
    (if is_sep c then (trim out ++ [c], true) else (out ++ [c], false)) = (o2 ++ [c], is_sep c)) as (o2 & r2 & E & Ho2 & -> & ->).
  { destruct (is_sep c); [|by exists out, rest]. destruct (trim_prefix out) as [t Et]. exists (trim out), (t ++ rest).
    rewrite trim_back_spec. split; [by rewrite app_assoc, <- Et|]. split; [|done].
    rewrite Et, length_app in Hle. lia. }
  cbn [rbind fst snd]. rewrite E in *. rewrite length_app in Hlen. rewrite write_over by lia. cbn [rbind].
  exists (drop 1 r2). split_and!.
  - rewrite length_app. cbn. by rewrite Nat.add_1_r.
  - rewrite length_app. cbn. lia.
  - rewrite !length_app, length_drop. cbn. lia.
  - rewrite <- (Hnext o2 r2) by (rewrite ?length_app; done). apply list_eq. intros i. rewrite !lookup_drop.
    rewrite lookup_app_r by (rewrite length_app; cbn; lia). rewrite (lookup_app_r o2) by lia.
    rewrite lookup_drop, length_app. cbn [length]. f_equal. lia.
Qed.

Lemma norm_middle out x l :
  one_line l -> x <> [] -> foldl norm_step (out ++ x, false) l = (out ++ x ++ filter (fun c => c <> 13) l, false).
Proof.
  intros Hl. revert x. induction Hl as [|c l Hc Hl IH]; intros x Hx; [by rewrite app_nil_r|].
  cbn [foldl]. unfold norm_step at 2. cbn [fst snd]. rewrite Hc, filter_cons. cbn [andb].
  destruct (c =? 13) eqn:E; bool_hyps.
  - rewrite decide_False by lia. by apply IH.
  - rewrite decide_True by lia. rewrite <- app_assoc, IH by (by destruct x). by rewrite <- !app_assoc.
Qed.

Lemma norm_start out l :
  one_line l -> exists b, foldl norm_step (out, true) l = (out ++ skip_blanks (filter (fun c => c <> 13) l), b) /\
    (b = true -> skip_blanks (filter (fun c => c <> 13) l) = []).
Proof.
  induction 1 as [|c l Hc Hl IH]; [exists true; by rewrite app_nil_r|].
  cbn [foldl]. unfold norm_step at 2. cbn [fst snd]. rewrite Hc, filter_cons. cbn [andb].
  destruct (c =? 13) eqn:E; bool_hyps; [by rewrite decide_False by lia|].
  rewrite decide_True by lia. cbn [skip_blanks]. destruct (blank c) eqn:Eb; [done|].
  exists false. split; [|done]. by rewrite norm_middle.
Qed.

Lemma norm_line out l :
  whole_lines out -> one_line l ->
  foldl norm_step (out, true) (l ++ [SEPARATOR]) = (out ++ strip l ++ [SEPARATOR], true).
Proof.
  intros Ho Hl. rewrite foldl_app. destruct (norm_start out l Hl) as (b & -> & _). cbn [foldl].
  unfold norm_step. cbn [fst snd]. change (blank SEPARATOR) with false. rewrite andb_false_r.
  change (SEPARATOR =? 13) with false. change (is_sep SEPARATOR) with true. cbn iota. by rewrite trim_app, <- app_assoc.
Qed.

Lemma norm_lines ls out :
  whole_lines out -> Forall one_line ls ->
  foldl norm_step (out, true) (unlines ls) = (out ++ unlines (map strip ls), true).
Proof.
  intros Ho Hls. revert out Ho. induction Hls as [|l ls Hl Hls IH]; intros out Ho; [by rewrite app_nil_r|].
  change (unlines (l :: ls)) with ((l ++ [SEPARATOR]) ++ unlines ls). rewrite foldl_app, norm_line by done.
  rewrite IH by (right; exists (out ++ strip l); by rewrite app_assoc).
  change (unlines (map strip (l :: ls))) with ((strip l ++ [SEPARATOR]) ++ unlines (map strip ls)). by rewrite !app_assoc.
Qed.

(** The loop of [normalise] is that fold, on the text and its terminator. *)
Definition norm_at (text : list Z) (k : nat) : list Z * bool := foldl norm_step ([], true) (take k text).

Definition norm_inv (text : list Z) (k : nat) (s : list Z * nat * bool) : Prop :=
  exists rest, s = ((norm_at text k).1 ++ rest, length (norm_at text k).1, (norm_at text k).2) /\
    (length (norm_at text k).1 <= k)%nat /\ length ((norm_at text k).1 ++ rest) = length (text ++ [0]) /\
    drop k ((norm_at text k).1 ++ rest) = drop k (text ++ [0]).

Lemma normalise_loop text :
  exists s, for_range (length text) 0 normalise_body (text ++ [0], 0%nat, true) = Ok s /\ norm_inv text (length text) s.
Proof.
  apply (res_post_total (norm_inv text (length text))). apply (for_range_spec (norm_inv text)).
  - intros k s Hk (rest & -> & Hle & Hl & Hd). destruct (lookup_lt_is_Some_2 text k ltac:(lia)) as [c Hc].
    destruct (normalise_body_spec (text ++ [0]) (norm_at text k).1 (norm_at text k).2 k c rest) as (rest' & E & E1 & E2 & E3);
      [by apply lookup_app_l_Some|done|done|done|]. rewrite E. cbn [res_post].
    assert (norm_step ((norm_at text k).1, (norm_at text k).2) c = norm_at text (S k)) as E4.
    { unfold norm_at. rewrite (take_S_r _ _ c Hc), foldl_app. cbn [foldl]. by rewrite <- surjective_pairing. }
    rewrite E4 in *. by exists rest'.
  - exists (text ++ [0]). unfold norm_at. cbn. split_and!; done.
Qed.

Lemma unlines_whole ls : whole_lines (unlines ls).
Proof.
  destruct ls as [|l ls _] using rev_ind; [by left|right]. unfold unlines.
  rewrite map_app, concat_app. cbn. rewrite app_nil_r, app_assoc. by eexists.
Qed.

(** [normalise]: the stripped lines of the file, each with its newline, and a
    terminator; the object keeps its size. *)
Lemma normalise_spec buf size :
  length buf = size -> (2 <= size)%nat ->
  exists rest, let text := unlines (map strip (lines (take (size - 2) buf))) in
    normalise buf size = Ok (text ++ 0 :: rest, S (length text)) /\ length (text ++ 0 :: rest) = size.
Proof.
  intros Hlen Hs. set (t := take (size - 2) buf).
  assert (buf = t ++ drop (size - 2) buf) as Eb by (unfold t; by rewrite take_drop).
  assert (length t = (size - 2)%nat) as Ht by (unfold t; rewrite length_take; lia).
  destruct (drop (size - 2) buf) as [|x [|y [|]]] eqn:Ed;
    try (apply (f_equal length) in Ed; rewrite length_drop in Ed; cbn in Ed; lia).
  unfold normalise. rewrite Eb. rewrite <- Ht. rewrite write_over by (cbn; lia). cbn [rbind drop].
  replace (size - 1)%nat with (length (t ++ [SEPARATOR])) by (rewrite length_app; cbn; lia).
  rewrite write_over by (cbn; lia). cbn [rbind drop]. rewrite app_nil_r.
  destruct (normalise_loop (t ++ [SEPARATOR])) as (s & -> & rest & -> & Hle & Hl & _). cbn [rbind].
  assert (norm_at (t ++ [SEPARATOR]) (length (t ++ [SEPARATOR])) = (unlines (map strip (lines t)), true)) as Ef.
  { unfold norm_at. rewrite take_ge by lia. rewrite <- unlines_lines. apply (norm_lines _ []); [by left|apply lines_one_line]. }
  rewrite Ef in *. cbn [fst snd] in *. pose proof (unlines_whole (map strip (lines t))) as Hw.
  set (u := unlines (map strip (lines t))) in *. rewrite trim_back_spec.
  replace (trim u) with u by (rewrite <- (app_nil_r u), trim_app by done; done).
  cbn [rbind]. repeat rewrite length_app in Hl. rewrite length_app in Hle. cbn [length] in *.
  rewrite write_over by lia. cbn [rbind]. exists (drop 1 rest). rewrite <- app_assoc. cbn [app].
  split; [done|]. rewrite length_app. cbn [length]. rewrite length_drop. lia.
Qed.

(** ** Keys *)
Definition same_text (a b : list Z) : bool := bool_decide (map tolower a = map tolower b).

(** [key:] at the beginning of a text *)
Definition starts_key (key s : list Z) : bool :=
  same_text (take (length key) s) key && bool_decide (s !! length key = Some 58).

Definition value_text (s : list Z) : list Z := take (CONFIG_VALUE_BUF_SIZE - 1) (skip_blanks s).

(** The value on the [index]-th line with the key, and where it starts. *)
Fixpoint find_key (key : list Z) (off index : nat) (ls : list (list Z)) : option (list Z * nat) :=
  match ls with
  | [] => None
  | l :: ls =>
      if starts_key key l then
        match index with
        | O => let v := drop (S (length key)) l in
               Some (value_text v, (off + length l - length (skip_blanks v))%nat)
        | S index => find_key key (off + S (length l)) index ls
        end
      else find_key key (off + S (length l)) index ls
  end.

(** The characters up to the end of the line. *)
Definition this_line (s : list Z) : list Z := match lines s with l :: _ => l | [] => [] end.
Definition next_lines (s : list Z) : list (list Z) := match lines s with _ :: ls => ls | [] => [] end.

Lemma lines_eq s : lines s = this_line s :: next_lines s.
Proof. unfold this_line, next_lines. pose proof (lines_nonempty s). by destruct (lines s). Qed.

Lemma this_line_cons c s : is_sep c = false -> this_line (c :: s) = c :: this_line s.
Proof. intros Hc. unfold this_line at 1. cbn. rewrite Hc. by rewrite lines_eq. Qed.

Lemma next_lines_cons c s : is_sep c = false -> next_lines (c :: s) = next_lines s.
Proof. intros Hc. unfold next_lines at 1. cbn. rewrite Hc. by rewrite (lines_eq s). Qed.

Lemma this_line_app k s : one_line k -> this_line (k ++ s) = k ++ this_line s.
Proof. induction 1 as [|c k Hc Hk IH]; [done|]. cbn [app]. by rewrite this_line_cons, IH. Qed.

Lemma this_line_prefix s : exists t, s = this_line s ++ t.
Proof.
  induction s as [|c s [t IH]]; [by exists []|]. destruct (is_sep c) eqn:E.
  - exists (c :: s). unfold this_line. cbn [lines]. by rewrite E.
  - exists t. rewrite this_line_cons by done. cbn. by rewrite <- IH.
Qed.

(** The scans of the code on a text before its terminator. *)
Lemma scan_line s rest : Forall (fun c => c <> 0) s ->
  scan_from line_end (s ++ 0 :: rest) = Ok (length (this_line s)).
Proof.
  induction 1 as [|c s Hc Hs IH]; [done|]. cbn [app scan_from]. unfold line_end at 1. unfold is_sep in *.
  destruct (c =? SEPARATOR) eqn:E.
  - unfold this_line. cbn. unfold is_sep. by rewrite E.
  - rewrite (proj2 (Z.eqb_neq c 0)) by done. cbn [orb]. rewrite IH, this_line_cons by (unfold is_sep; done). done.
Qed.

Lemma scan_blanks s rest :
  exists b, scan_from (fun c => negb (blank c)) (s ++ 0 :: rest) = Ok (length b) /\ s = b ++ skip_blanks s /\ Forall (fun c => blank c = true) b.
Proof.
  induction s as [|c s (b & IH & E & Hb)]; [by exists []|]. cbn [app scan_from skip_blanks].
  destruct (blank c) eqn:Ec; cbn [negb]; [|by exists []]. rewrite IH. exists (c :: b). split; [done|].
  split; [cbn; by rewrite <- E|by constructor].
Qed.

Lemma skip_blanks_head s : match skip_blanks s with [] => True | c :: _ => blank c = false end.
Proof. induction s as [|c s IH]; [done|]. cbn. by destruct (blank c) eqn:E. Qed.

Lemma blank_nosep b : Forall (fun c => blank c = true) b -> one_line b.
Proof. intros Hb. eapply Forall_impl; [exact Hb|]. intros c. unfold blank, is_sep, SEPARATOR. intros ?. bool_cases; lia. Qed.

Lemma skip_blanks_line s : skip_blanks (this_line s) = this_line (skip_blanks s).
Proof.
  induction s as [|c s IH]; [done|]. destruct (is_sep c) eqn:E.
  - assert (c = SEPARATOR) as -> by (unfold is_sep in E; by bool_hyps). done.
  - rewrite this_line_cons by done. cbn [skip_blanks]. destruct (blank c); [done|]. by rewrite this_line_cons.
Qed.

Lemma tolower_sep c : is_sep (tolower c) = is_sep c.
Proof. unfold is_sep, tolower, SEPARATOR. case_if; [|done]. apply eq_true_iff_eq. rewrite !Z.eqb_eq. lia. Qed.

Lemma starts_key_cons k key c s :
  starts_key (k :: key) (c :: s) = (tolower c =? tolower k) && starts_key key s.
Proof.
  unfold starts_key, same_text. cbn [length take map lookup list_lookup]. rewrite andb_assoc. f_equal.
  destruct (Z.eqb_spec (tolower c) (tolower k)) as [->|Hn]; cbn [andb].
  - apply bool_decide_ext. split; [by intros [= ->]|by intros ->].
  - apply bool_decide_eq_false. by intros [= ? ?].
Qed.

Lemma starts_key_nil key : starts_key key [] = false.
Proof. unfold starts_key. by rewrite lookup_nil, andb_false_r. Qed.

Lemma starts_key_line key s : one_line key -> starts_key key (this_line s) = starts_key key s.
Proof.
  intros Hk. revert s. induction Hk as [|k key Hk1 Hk IH]; intros s; destruct s as [|c s]; try done.
  - destruct (is_sep c) eqn:E; [|by rewrite this_line_cons].
    unfold this_line. cbn. rewrite E. unfold is_sep in E. by bool_hyps; subst.
  - destruct (is_sep c) eqn:E; [|by rewrite this_line_cons, !starts_key_cons, IH].
    unfold this_line. cbn [lines]. rewrite E, starts_key_nil, starts_key_cons.
    destruct (Z.eqb_spec (tolower c) (tolower k)) as [Ec|]; [|done].
    apply (f_equal is_sep) in Ec. rewrite !tolower_sep, Hk1, E in Ec. done.
Qed.

Section Keys.
Variables (obj : list Z) (start : nat) (text rest key : list Z).
Hypothesis Hobj : drop start obj = text ++ 0 :: rest.
Hypothesis Htext : Forall (fun c => 0 < c) text.
Hypothesis Hkey : Forall (fun c => 0 < c) key.
Hypothesis Hline : one_line key.

(** What remains to be found from the middle or the beginning of a line. *)
Definition still (line_start : bool) (off index : nat) (s : list Z) : option (list Z * nat) :=
  if line_start then find_key key off index (lines s)
  else find_key key (off + S (length (this_line s))) index (next_lines s).

Lemma still_cons off index c s : still false off index (c :: s) = still (is_sep c) (S off) index s.
Proof.
  unfold still. destruct (is_sep c) eqn:E.
  - unfold this_line, next_lines. cbn [lines]. rewrite E. cbn. by rewrite Nat.add_1_r.
  - rewrite this_line_cons, next_lines_cons by done. cbn [length]. f_equal. lia.
Qed.

Lemma still_miss off index s : starts_key key s = false -> still true off index s = still false off index s.
Proof. intros Hm. unfold still. rewrite lines_eq. cbn [find_key]. by rewrite starts_key_line, Hm. Qed.

(** The comparison of the code. *)
Lemma key_compare s :
  Forall (fun c => 0 < c) s ->
  exists r, strncasecmp (s ++ 0 :: rest) (key ++ [0]) (length key) = Ok r /\
    ((r =? 0) = same_text (take (length key) s) key).
Proof.
  intros Hs. eexists. split; [apply strn_cmp_lex; [done|intros; by apply tolower_pos|done|done]|].
  rewrite (take_ge key) by lia. unfold same_text. apply eq_true_iff_eq. by rewrite Z.eqb_eq, bool_decide_eq_true, lex_eq.
Qed.

Lemma same_text_length s : same_text (take (length key) s) key = true -> (length key <= length s)%nat.
Proof.
  unfold same_text. intros E. apply bool_decide_eq_true, (f_equal length) in E.
  rewrite !length_map, length_take in E. lia.
Qed.

(** The [:] after a key. *)
Lemma key_colon s p : drop p obj = s ++ 0 :: rest -> same_text (take (length key) s) key = true ->
  exists d, rd obj (p + length key) = Ok d /\ (d =? 58) = bool_decide (s !! length key = Some 58).
Proof.
  intros Hp Hm. pose proof (same_text_length s Hm) as Hl.
  assert (forall d, (s ++ 0 :: rest) !! length key = Some d -> rd obj (p + length key) = Ok d) as Hr.
  { intros d Hd. apply rd_lookup. by rewrite <- lookup_drop, Hp. }
  destruct (s !! length key) as [d|] eqn:Ed.
  - exists d. split; [by apply Hr, lookup_app_l_Some|]. apply eq_true_iff_eq. rewrite Z.eqb_eq, bool_decide_eq_true. naive_solver.
  - exists 0. split; [|done]. apply Hr. apply lookup_ge_None in Ed. assert (length key = length s) as -> by lia. by apply list_lookup_middle.
Qed.

(** The value behind a key at the beginning of a line. *)
Lemma key_value s p : drop p obj = s ++ 0 :: rest -> Forall (fun c => 0 < c) s -> starts_key key s = true ->
  exists v e, scan (fun c => negb (blank c)) obj (p + length key + 1) = Ok v /\ scan line_end obj v = Ok e /\
    find_key key p 0 (lines s) =
      Some (take (if (CONFIG_VALUE_BUF_SIZE <=? e - v)%nat then (CONFIG_VALUE_BUF_SIZE - 1)%nat else (e - v)%nat) (drop v obj), v).
Proof.
  intros Hp Hs Hk. rewrite lines_eq. cbn [find_key]. rewrite starts_key_line, Hk by done.
  pose proof Hk as Hk'. unfold starts_key in Hk'. apply andb_true_iff in Hk' as [Hm Hc].
  apply bool_decide_eq_true in Hc. pose proof (lookup_lt_Some _ _ _ Hc) as Hlt.
  set (s1 := drop (S (length key)) s).
  assert (drop (p + length key + 1) obj = s1 ++ 0 :: rest) as H1.
  { replace (p + length key + 1)%nat with (p + S (length key))%nat by lia.
    rewrite <- drop_drop, Hp. rewrite drop_app_le by lia. done. }
  assert (drop (S (length key)) (this_line s) = this_line s1) as H2.
  { rewrite <- (take_drop (S (length key)) s) at 1. rewrite this_line_app.
    - rewrite drop_app_le, drop_ge by (rewrite length_take; lia). done.
    - rewrite (take_S_r _ _ _ Hc). apply Forall_app. split; [|by repeat constructor].
      unfold same_text in Hm. apply bool_decide_eq_true in Hm. apply Forall_lookup. intros i c Hi.
      rewrite <- tolower_sep. assert (map tolower key !! i = Some (tolower c)) as Hi'
        by (rewrite <- Hm; rewrite list_lookup_fmap; by rewrite Hi).
      rewrite list_lookup_fmap in Hi'. destruct (key !! i) as [k|] eqn:Ek; [|done]. injection Hi' as <-.
      rewrite tolower_sep. exact (Forall_lookup_1 _ _ _ _ Hline Ek). }
  destruct (scan_blanks s1 rest) as (b & Hb & Eb & Hbl). rewrite H2, skip_blanks_line.
  set (s2 := skip_blanks s1) in *.
  assert (drop (p + length key + 1 + length b) obj = s2 ++ 0 :: rest) as H3.
  { rewrite <- drop_drop, H1, Eb, <- app_assoc. apply drop_app_length. }
  assert (Forall (fun c => c <> 0) s2) as Hs2.
  { apply (Forall_app _ b). rewrite <- Eb. apply Forall_drop. eapply Forall_impl; [exact Hs|]. cbn. lia. }
  exists (p + length key + 1 + length b)%nat, (p + length key + 1 + length b + length (this_line s2))%nat.
  unfold scan. rewrite H1, Hb, H3, scan_line by done. cbn [rbind]. split; [done|]. split; [done|].
  destruct (this_line_prefix s2) as [t Et].
  assert (length (this_line s) = S (length key) + (length b + length (this_line s2)))%nat as Hlen.
  { rewrite <- (take_drop (S (length key)) (this_line s)), H2, Eb, this_line_app by (by apply blank_nosep).
    rewrite !length_app, length_take. apply (f_equal length) in H2. rewrite length_drop, Eb, this_line_app, length_app in H2
      by (by apply blank_nosep). destruct (decide (length (this_line s) < S (length key))%nat); [|lia].
    exfalso. pose proof Hk as Hk'. rewrite <- starts_key_line in Hk' by done. unfold starts_key in Hk'.
    apply andb_true_iff in Hk' as [_ Hc']. apply bool_decide_eq_true, lookup_lt_Some in Hc'. lia. }
  f_equal. f_equal; [|lia]. unfold value_text.
  replace (skip_blanks (this_line s1)) with (this_line s2) by (unfold s2; by rewrite <- skip_blanks_line).
  replace (p + length key + 1 + length b + length (this_line s2) - (p + length key + 1 + length b))%nat
    with (length (this_line s2)) by lia.
  assert (s2 ++ 0 :: rest = this_line s2 ++ (t ++ 0 :: rest)) as -> by (rewrite Et at 1; by rewrite <- app_assoc). case_if.
  - by rewrite take_app_le by lia.
  - rewrite take_ge by lia. by rewrite take_app_length.
Qed.

Definition at_start (pre : list Z) : bool := match last pre with None => true | Some c => is_sep c end.

(** One turn of [get_value] in the middle of the text. *)
Lemma value_turn pre s index :
  text = pre ++ s ->
  match s with
  | [] => value_body obj start (key ++ [0]) (length key) (length pre, index) = Ok (inr None) /\
          still (at_start pre) (start + length pre) index [] = None
  | c :: s' =>
      (exists index', value_body obj start (key ++ [0]) (length key) (length pre, index) = Ok (inl (S (length pre), index')) /\
         still (at_start pre) (start + length pre) index s = still (at_start (pre ++ [c])) (start + S (length pre)) index' s') \/
      (exists r, value_body obj start (key ++ [0]) (length key) (length pre, index) = Ok (inr (Some r)) /\
         still (at_start pre) (start + length pre) index s = Some r)
  end.
Proof.
  intros Et. set (p := (start + length pre)%nat).
  assert (drop p obj = s ++ 0 :: rest) as Hp
    by (unfold p; rewrite <- drop_drop, Hobj, Et, <- app_assoc; apply drop_app_length).
  assert (Forall (fun c => 0 < c) s) as Hs by (rewrite Et in Htext; by apply Forall_app in Htext as [_ ?]).
  assert (forall i d, (s ++ 0 :: rest) !! i = Some d -> rd obj (p + i) = Ok d) as Hrd
    by (intros i d Hd; apply rd_lookup; by rewrite <- lookup_drop, Hp).
  unfold value_body. fold p. destruct s as [|c s'].
  { rewrite <- (Nat.add_0_r p), (Hrd 0%nat 0) by done. cbn [rbind Z.eqb]. split; [done|].
    unfold still. destruct (at_start pre); [|done]. cbn [lines find_key]. by rewrite starts_key_nil. }
  pose proof (Hrd 0%nat c eq_refl) as Hc. rewrite Nat.add_0_r in Hc. rewrite Hc. cbn [rbind].
  apply Forall_cons in Hs as Hs'. rewrite (proj2 (Z.eqb_neq c 0)) by lia.
  destruct (key_compare (c :: s') Hs) as (r & Er & Hr). rewrite Hp, Er. cbn [rbind]. rewrite Hr.
  assert (at_start (pre ++ [c]) = is_sep c) as Est by (unfold at_start; by rewrite last_snoc).
  assert (forall idx, still false p idx (c :: s') = still (at_start (pre ++ [c])) (start + S (length pre)) idx s') as Hnext.
  { intros idx. rewrite still_cons, Est. f_equal. unfold p. lia. }
  assert ((if same_text (take (length key) (c :: s')) key then let! d := rd obj (p + length key) in Ok (d =? 58) else Ok false)
    = Ok (starts_key key (c :: s'))) as ->.
  { unfold starts_key. destruct (same_text _ _) eqn:Em; [|done].
    destruct (key_colon (c :: s') p Hp Em) as (d & -> & Hd). cbn [rbind andb]. by rewrite Hd. }
  cbn [rbind]. destruct (starts_key key (c :: s')) eqn:Ek; cbn [negb].
  2: { left. exists index. split; [done|]. destruct (at_start pre); [rewrite still_miss by done|]; apply Hnext. }
  assert ((if (length pre =? 0)%nat then Ok true else let! d := rd obj (p - 1) in Ok (is_sep d)) = Ok (at_start pre)) as ->.
  { destruct pre as [|d pre' _] using rev_ind; [done|]. rewrite length_app in *. cbn [length].
    rewrite (proj2 (Nat.eqb_neq _ 0)) by lia. unfold at_start. rewrite last_snoc.
    rewrite (rd_lookup _ _ d); [done|]. unfold p. rewrite length_app. cbn [length].
    replace (start + (length pre' + 1) - 1)%nat with (start + length pre')%nat by lia.
    rewrite <- lookup_drop, Hobj, Et, <- !app_assoc. by apply list_lookup_middle. }
  cbn [rbind]. destruct (at_start pre) eqn:Ea; cbn [negb].
  2: { left. exists index. split; [done|]. apply Hnext. }
  destruct index as [|index]; cbn [Nat.eqb negb Nat.sub].
  - right. destruct (key_value (c :: s') p Hp Hs Ek) as (v & e & -> & E2 & E3). cbn [rbind]. rewrite E2. cbn [rbind].
    eexists. split; [done|]. unfold still. exact E3.
  - left. exists index. rewrite Nat.sub_0_r. split; [done|]. rewrite <- Hnext. unfold still. rewrite (lines_eq (c :: s')) at 1.
    cbn [find_key]. by rewrite starts_key_line, Ek.
Qed.

(** [get_value] is the search by lines. *)
Lemma get_value_spec index :
  get_value obj start (key ++ [0]) (length key) index = Ok (find_key key start index (lines text)).
Proof.
  assert (length obj = start + length text + S (length rest))%nat as Hlen.
  { apply (f_equal length) in Hobj. rewrite length_drop, length_app in Hobj. cbn in Hobj. lia. }
  unfold get_value. destruct (res_post_total (fun r => r = find_key key start index (lines text))
    (loop (value_body obj start (key ++ [0]) (length key)) (fun '(i, _) => Z.of_nat (length obj - (start + i))) (0%nat, index)))
    as (r & -> & ->); [|done].
  apply (loop_spec _ (fun '(i, idx) => exists pre s, text = pre ++ s /\ length pre = i /\
    still (at_start pre) (start + i) idx s = find_key key start index (lines text))).
  - intros [i idx] (pre & s & Et & <- & Hst). unfold turn_ok. pose proof (value_turn pre s idx Et) as Ht. destruct s as [|c s].
    + destruct Ht as [-> Hn]. cbn [res_post]. congruence.
    + destruct Ht as [(idx' & -> & Hn)|(r & -> & Hn)]; cbn [res_post]; [|congruence].
      rewrite Et, length_app in Hlen. cbn [length] in Hlen. split; [|lia].
      exists (pre ++ [c]), s. rewrite <- app_assoc, length_app. cbn [length]. split; [done|]. split; [lia|]. by rewrite <- Hn.
  - exists [], text. split_and!; [done|done|]. cbn. by rewrite Nat.add_0_r.
  - lia.
Qed.
End Keys.
