(* ===== verification/ConfigMacro.v ===== *)
(** * Macros

    [expand_macros] runs twice, once to measure and once to store.  [emits]
    describes the bytes from a position on; both runs follow it, so the second
    fills the buffer the first one measured.  On a text made of lines the bytes
    are those of the lines with their references replaced, the definitions left
    out. *)

From S2P Require Import Prelude CInt Libc LibcProps Config ConfigText.

Section Emit.
Variables (config : list Z) (config_size : nat) (size_bits : Z) (macros : list macro).

(** A definition line is skipped, anything else produces its next piece. *)
Definition step (i : nat) : res (nat * list Z) :=
  let! line := at_reference_line config config_size i in
  let! skip := if line : bool then skip_definition config config_size i else Ok None in
  match skip with
  | Some i => Ok (i, [])
  | None => next_piece config config_size macros i
  end.

Inductive emits : nat -> list Z -> Prop :=
| emits_end i : (config_size <= i)%nat -> emits i []
| emits_step i i' bs rest : (i < config_size)%nat -> (i < i')%nat -> step i = Ok (i', bs) ->
    emits i' rest -> emits i (bs ++ rest).

Lemma emits_inv i rest : emits i rest ->
  if (config_size <=? i)%nat then rest = []
  else exists i' bs r, (i < i')%nat /\ step i = Ok (i', bs) /\ emits i' r /\ rest = bs ++ r.
Proof.
  inversion 1; subst; [by rewrite (proj2 (Nat.leb_le _ _)) by lia|].
  rewrite (proj2 (Nat.leb_gt _ _)) by lia. by exists i', bs, rest0.
Qed.

(** One turn of the loop in terms of [step]. *)
Lemma expand_body_step out i pos i' bs :
  (i < config_size)%nat -> step i = Ok (i', bs) ->
  match out with Some o => (pos + length bs <= length o)%nat | None => True end ->
  Z.of_nat (pos + length bs) < 2 ^ size_bits ->
  expand_body config config_size size_bits macros (out, i, pos) =
    Ok (inl (match out with Some o => Some (if decide (bs = []) then o else buf_write o pos bs) | None => None end, i', (pos + length bs)%nat)).
Proof.
  intros Hi Hs Hroom Hbits. unfold expand_body, step in *. rewrite (proj2 (Nat.leb_gt _ _)) by lia.
  destruct (at_reference_line config config_size i) as [line| | |]; try done. cbn [rbind] in *.
  destruct (if line then skip_definition config config_size i else Ok None) as [[j|]| | |]; try done; cbn [rbind] in *.
  - injection Hs as <- <-. rewrite Nat.add_0_r. by destruct out.
  - unfold expand_next. rewrite Hs. cbn [rbind]. unfold put, checked_add. rewrite <- Nat2Z.inj_add.
    rewrite (proj2 (Z.ltb_lt _ _) Hbits). destruct out as [o|]; [|done].
    rewrite (proj2 (Nat.leb_le _ _)) by done. cbn [rbind]. do 4 f_equal.
    destruct (decide (bs = [])) as [->|]; [|done]. unfold buf_write. cbn. by rewrite Nat.add_0_r, take_drop.
Qed.

Definition filled (o : option (list Z)) (acc rest : list Z) (o' : option (list Z)) : Prop :=
  match o, o' with
  | None, None => True
  | Some _, Some b => exists junk, b = acc ++ junk /\ length junk = length rest
  | _, _ => False
  end.

(** Both passes follow [emits]; a buffer of the size emitted ends up holding it. *)
Lemma expand_emits out all :
  emits 0 all -> Z.of_nat (length all) < 2 ^ size_bits ->
  match out with Some o => length o = length all | None => True end ->
  expand_macros config config_size size_bits macros out =
    Ok (match out with Some _ => Some all | None => None end, length all).
Proof.
  intros Hall Hbits Hout. unfold expand_macros.
  destruct (res_post_total (fun r => r = (match out with Some _ => Some all | None => None end, length all))
    (loop (expand_body config config_size size_bits macros) (fun '(_, i, _) => Z.of_nat (config_size - i)) (out, 0%nat, 0%nat)))
    as (r & -> & ->); [|done].
  apply (loop_spec _ (fun '(o, i, pos) => exists acc rest, all = acc ++ rest /\ length acc = pos /\ emits i rest /\ filled out acc rest o)).
  - intros [[o i] pos] (acc & rest & Ea & <- & He & Hf). unfold turn_ok. apply emits_inv in He.
    destruct (config_size <=? i)%nat eqn:Ei; bool_hyps.
    + subst rest. rewrite app_nil_r in Ea. subst acc. unfold expand_body. rewrite (proj2 (Nat.leb_le _ _)) by lia. cbn [res_post].
      destruct out as [o0|], o as [b|]; try done. destruct Hf as (junk & -> & Hj). destruct junk; [|done]. by rewrite app_nil_r.
    + destruct He as (i' & bs & r & Hlt & Hs & Hr & ->). rewrite Ea, !length_app in Hbits.
      rewrite (expand_body_step o i (length acc) i' bs) by (done || lia || (destruct out, o; try done;
        destruct Hf as (junk & -> & Hj); rewrite length_app in *; lia)).
      cbn [res_post]. split; [|lia]. exists (acc ++ bs), r. rewrite <- app_assoc, length_app. split_and!; try done.
      destruct out as [o0|], o as [b|]; try done. destruct Hf as (junk & -> & Hj). rewrite length_app in Hj.
      destruct (decide (bs = [])) as [->|]; [exists junk; by rewrite app_nil_r|].
      exists (drop (length bs) junk). rewrite length_drop. split; [|lia]. unfold buf_write.
      rewrite take_app_length, <- drop_drop, drop_app_length. by rewrite app_assoc.
  - exists [], all. split_and!; try done. destruct out as [o|]; [|done]. by exists o.
  - lia.
Qed.
End Emit.

(** ** Every text that ends in a terminator is handled *)
Lemma text_memcmp_eq s1 s2 : (length s2 <= length s1)%nat ->
  exists r, memcmp s1 s2 (length s2) = Ok r /\ (r =? 0) = bool_decide (take (length s2) s1 = s2).
Proof.
  revert s1. induction s2 as [|c s2 IH]; intros s1 Hl; [by exists 0|].
  destruct s1 as [|d s1]; [cbn in Hl; lia|]. cbn [length take memcmp] in *.
  destruct (Z.eqb_spec d c) as [->|Hn]; cbn [negb].
  - destruct (IH s1 ltac:(lia)) as (r & -> & Hr). exists r. split; [done|]. rewrite Hr. apply bool_decide_ext. split; congruence.
  - eexists. split; [done|]. rewrite bool_decide_eq_false_2 by congruence. by case_if.
Qed.

Definition stops (stop : Z -> bool) (s : list Z) (n : nat) : Prop :=
  (forall i c, (i < n)%nat -> s !! i = Some c -> stop c = false) /\ exists c, s !! n = Some c /\ stop c = true.

Lemma stops_S stop c s n : stop c = false -> stops stop s n -> stops stop (c :: s) (S n).
Proof. intros Hc [Hi He]. split; [|done]. intros [|i] d Hlt; [by intros [= <-]|]. cbn. intros Hd. eapply Hi; [|done]. lia. Qed.

Lemma scan_stops stop s k c : s !! k = Some c -> stop c = true ->
  exists n, scan_from stop s = Ok n /\ (n <= k)%nat /\ stops stop s n.
Proof.
  revert k. induction s as [|d s IH]; intros k Hk Hc; [done|]. cbn [scan_from]. destruct (stop d) eqn:Ed.
  - exists 0%nat. split_and!; [done|lia|]. split; [lia|]. by exists d.
  - destruct k as [|k]; [cbn in Hk; congruence|]. destruct (IH k Hk Hc) as (n & -> & Hn & Hs).
    exists (S n). split_and!; [done|lia|]. by apply stops_S.
Qed.

Lemma copy_until_stops stop msg s room k c : s !! k = Some c -> stop c = true ->
  res_post (fun r => r = take (length r) s /\ (length r <= k)%nat /\ (length r <= room)%nat /\ stops stop s (length r))
    (fun m => m = msg) (copy_until stop msg s room).
Proof.
  revert k room. induction s as [|d s IH]; intros k room Hk Hc; [done|]. cbn [copy_until]. destruct (stop d) eqn:Ed.
  - cbn. split_and!; [done|lia|lia|]. split; [lia|]. by exists d.
  - destruct k as [|k]; [cbn in Hk; congruence|]. destruct room as [|room]; [done|].
    eapply res_post_bind; [by apply (IH k room)|]. intros r (Er & H1 & H2 & H3). cbn [res_post length take].
    split_and!; [by rewrite <- Er|lia|lia|by apply stops_S].
Qed.

Lemma copy_at_most_stops stop s room k c : s !! k = Some c -> stop c = true ->
  exists r, copy_at_most stop s room = Ok r /\ r = take (length r) s /\ (length r <= k)%nat /\ (length r <= room)%nat /\
    ((length r < room)%nat -> stops stop s (length r)) /\ Forall (fun c => stop c = false) r.
Proof.
  revert k room. induction s as [|d s IH]; intros k room Hk Hc; [done|]. destruct room as [|room].
  { exists []. cbn. split_and!; try done; lia. }
  cbn [copy_at_most]. destruct (stop d) eqn:Ed.
  - exists []. cbn. split_and!; try done; try lia. intros _. split; [lia|]. by exists d.
  - destruct k as [|k]; [cbn in Hk; congruence|]. destruct (IH k room Hk Hc) as (r & -> & Er & H1 & H2 & H3 & H4).
    exists (d :: r). cbn [length take]. split_and!; [done|by rewrite <- Er|lia|lia| |by constructor].
    intros Hlt. apply stops_S; [done|]. apply H3. lia.
Qed.

(** The value of a macro, empty if it was never defined. *)
Definition pos_text (s : list Z) : Prop := Forall (fun c => 0 < c) s.

Fixpoint macro_value (macros : list macro) (name : list Z) : list Z :=
  match macros with
  | [] => []
  | m :: macros => if decide (m_name m = name) then m_value m else macro_value macros name
  end.

Lemma map_id_Z (l : list Z) : map (fun c : Z => c) l = l.
Proof. induction l; cbn; congruence. Qed.

Lemma find_macro_spec macros name :
  Forall (fun m => pos_text (m_name m)) macros -> pos_text name -> find_macro macros name = Ok (macro_value macros name).
Proof.
  intros Hm Hn. induction Hm as [|m macros Hm1 Hm IH]; [done|]. cbn [find_macro macro_value].
  unfold strcmp. rewrite str_cmp_lex by (done || lia). cbn [rbind]. rewrite !map_id_Z.
  destruct (decide (m_name m = name)) as [->|Hne].
  - by rewrite (proj2 (Z.eqb_eq _ _)) by (by apply lex_eq).
  - rewrite (proj2 (Z.eqb_neq _ _)); [done|]. by rewrite lex_eq.
Qed.

Definition malformed : string := "config: Malformed macro usage".

Lemma at_text_spec config i s : (i + length s <= length config)%nat ->
  at_text config i s = Ok (bool_decide (take (length s) (drop i config) = s)).
Proof.
  intros Hl. unfold at_text. destruct (text_memcmp_eq (drop i config) s) as (r & -> & Hr); [rewrite length_drop; lia|].
  cbn [rbind]. by rewrite Hr.
Qed.

Section Safe.
Variables (config : list Z) (config_size : nat).
Hypothesis Hsize : (0 < config_size <= length config)%nat.
Hypothesis Hend : config !! (config_size - 1)%nat = Some 0.
Hypothesis Hbytes : Forall is_byte config.

(** Position [i] starts a line with [${]. *)
Definition ref_line (i : nat) : bool :=
  (3 <=? config_size - i)%nat && bool_decide (take 3 (drop i config) = [SEPARATOR; 36; 123]) ||
  ((2 <=? config_size - i)%nat && (i =? 0)%nat && bool_decide (take 2 config = [36; 123])).

Lemma at_reference_line_spec i : (i < config_size)%nat -> at_reference_line config config_size i = Ok (ref_line i).
Proof.
  intros Hi. unfold at_reference_line, ref_line. destruct (3 <=? config_size - i)%nat eqn:E3; bool_hyps.
  - rewrite at_text_spec by (cbn; lia). cbn [rbind andb]. change (length (SEPARATOR :: bytes "${")) with 3%nat.
    change (SEPARATOR :: bytes "${") with [SEPARATOR; 36; 123]. destruct (bool_decide _); [done|]. cbn [orb].
    destruct ((2 <=? config_size - i)%nat && (i =? 0)%nat) eqn:E2; [|done]. bool_hyps. by rewrite at_text_spec by (cbn; lia).
  - cbn [rbind andb orb]. destruct ((2 <=? config_size - i)%nat && (i =? 0)%nat) eqn:E2; [|done]. bool_hyps.
    by rewrite at_text_spec by (cbn; lia).
Qed.

Lemma byte_pos (l : list Z) : Forall is_byte l -> Forall (fun c => name_end c = false) l -> pos_text l.
Proof.
  intros Hb Hn. apply Forall_lookup. intros i c Hc. pose proof (Forall_lookup_1 _ _ _ _ Hb Hc) as [H0 _].
  pose proof (Forall_lookup_1 _ _ _ _ Hn Hc) as Hne. unfold name_end in Hne. bool_hyps. lia.
Qed.

(** The terminator seen from a position. *)
Lemma end_from i : (i < config_size)%nat -> drop i config !! (config_size - 1 - i)%nat = Some 0.
Proof. intros Hi. rewrite lookup_drop. by replace (i + (config_size - 1 - i))%nat with (config_size - 1)%nat by lia. Qed.

Lemma text_inside i s : (i + length s <= config_size)%nat -> take (length s) (drop i config) = s -> ~ In 0 s -> s <> [] ->
  (i + length s < config_size)%nat.
Proof.
  intros Hl Et Hn Hne. destruct (decide (i + length s = config_size)%nat) as [He|]; [exfalso|lia].
  destruct s as [|c s _] using rev_ind; [done|].
  apply Hn. rewrite length_app in *. cbn [length] in *. apply in_app_iff. right.
  assert ((s ++ [c]) !! length s = Some 0) as Hs.
  { rewrite <- Et. rewrite lookup_take_lt by lia. rewrite lookup_drop. by replace (i + length s)%nat with (config_size - 1)%nat by lia. }
  rewrite list_lookup_middle in Hs by done. injection Hs as ->. by left.
Qed.

Lemma ref_line_inside i : (i < config_size)%nat -> ref_line i = true -> (i < reference_start i < config_size)%nat.
Proof.
  unfold ref_line, reference_start. intros Hi Hr. apply orb_true_iff in Hr as [Hr|Hr]; bool_hyps.
  - rewrite bool_decide_eq_true in *. pose proof (text_inside i [SEPARATOR; 36; 123] ltac:(cbn; lia) ltac:(done)
      ltac:(cbn; unfold SEPARATOR; lia) ltac:(done)) as Ht. cbn in Ht. case_if; lia.
  - rewrite bool_decide_eq_true in *. subst i. pose proof (text_inside 0 [36; 123] ltac:(cbn; lia) ltac:(done) ltac:(cbn; lia) ltac:(done)) as Ht.
    cbn in Ht. cbn. lia.
Qed.

Lemma scan_below_ok stop s n : (n <= length s)%nat -> exists k, scan_below stop s n = Ok k /\ (k <= n)%nat /\
  ((k < n)%nat -> stops stop s k).
Proof.
  revert s. induction n as [|n IH]; intros s Hn; [exists 0%nat; split_and!; [done|lia|lia]|].
  destruct s as [|c s]; [cbn in Hn; lia|]. cbn [scan_below length] in *. destruct (stop c) eqn:Ec.
  - exists 0%nat. split_and!; [done|lia|]. intros _. split; [lia|]. by exists c.
  - destruct (IH s ltac:(lia)) as (k & -> & Hk & Hs). exists (S k). split_and!; [done|lia|].
    intros Hlt. apply stops_S; [done|]. apply Hs. lia.
Qed.

Lemma skip_definition_safe i : (i < config_size)%nat -> ref_line i = true ->
  res_post (fun o => match o with Some i' => (i < i' < config_size)%nat | None => True end)
    (fun m => m = malformed) (skip_definition config config_size i).
Proof.
  intros Hi Hr. pose proof (ref_line_inside i Hi Hr) as Hs. unfold skip_definition. set (j := reference_start i) in *.
  destruct (scan_below_ok (fun c => c =? 125) (drop j config) (config_size - j)) as (k & -> & Hk & _);
    [rewrite length_drop; lia|]. cbn [rbind]. case_if; [done|]. case_if; [done|].
  destruct (lookup_lt_is_Some_2 config (S (j + k)) ltac:(lia)) as [c Hc]. rewrite (rd_lookup _ _ _ Hc). cbn [rbind].
  case_if; [done|]. assert (S (j + k) <> config_size - 1)%nat as Hne by (intros E; rewrite E, Hend in Hc; injection Hc as <-; lia).
  destruct (scan_stops line_end (drop (S (S (j + k))) config) (config_size - 1 - S (S (j + k))) 0) as (n & E & Hn & _);
    [apply end_from; lia|done|]. unfold scan. rewrite E. cbn [rbind res_post]. lia.
Qed.

Lemma next_piece_safe macros i : Forall (fun m => pos_text (m_name m)) macros -> (i < config_size)%nat ->
  res_post (fun '(i', _) => (i < i' <= config_size)%nat) (fun m => m = malformed) (next_piece config config_size macros i).
Proof.
  intros Hm Hi. unfold next_piece.
  assert (exists b, (if (2 <=? config_size - i)%nat then at_text config i (bytes "${") else Ok false) = Ok b /\
    (b = true -> (i + 2 < config_size)%nat)) as (b & -> & Hb).
  { destruct (2 <=? config_size - i)%nat eqn:E2; bool_hyps; [|by exists false]. rewrite at_text_spec by (cbn; lia).
    eexists. split; [done|]. intros Hb. rewrite bool_decide_eq_true in Hb.
    apply (text_inside i [36; 123]); [cbn; lia|done|cbn; lia|done]. }
  cbn [rbind]. destruct b.
  - specialize (Hb eq_refl). destruct (copy_at_most_stops name_end (drop (i + 2) config) MACRO_NAME_MAX (config_size - 1 - (i + 2)) 0)
      as (name & -> & En & H1 & _ & _ & Hne); [apply end_from; lia|done|]. cbn [rbind].
    destruct (lookup_lt_is_Some_2 config (i + 2 + length name) ltac:(lia)) as [c Hc]. rewrite (rd_lookup _ _ _ Hc). cbn [rbind].
    case_if; [done|]. rewrite find_macro_spec; [cbn; lia|done|]. apply byte_pos; [|done].
    rewrite En. by apply Forall_take, Forall_drop.
  - destruct (lookup_lt_is_Some_2 config i ltac:(lia)) as [c Hc]. rewrite (rd_lookup _ _ _ Hc). cbn. lia.
Qed.

Lemma step_safe macros i : Forall (fun m => pos_text (m_name m)) macros -> (i < config_size)%nat ->
  res_post (fun '(i', _) => (i < i' <= config_size)%nat) (fun m => m = malformed) (step config config_size macros i).
Proof.
  intros Hm Hi. unfold step. rewrite at_reference_line_spec by done. cbn [rbind].
  eapply (res_post_bind (fun o => match o with Some i' => (i < i' < config_size)%nat | None => True end)).
  - destruct (ref_line i) eqn:Er; [by apply skip_definition_safe|done].
  - intros [i'|] Hi'; [cbn; lia|by apply next_piece_safe].
Qed.

Definition too_large : string := "config: Config file too large for macro expansion".

(** The measuring pass: it stops for a malformed reference or a size that does
    not fit in [size_t], and otherwise reports the number of bytes emitted. *)
Lemma expand_measure size_bits macros :
  0 < size_bits -> Forall (fun m => pos_text (m_name m)) macros ->
  res_post (fun r => exists all, r = (None, length all) /\ emits config config_size macros 0 all /\ Z.of_nat (length all) < 2 ^ size_bits)
    (fun m => m = malformed \/ m = too_large) (expand_macros config config_size size_bits macros None).
Proof.
  intros Hbits Hm. unfold expand_macros.
  apply (loop_spec _ (fun '(o, i, pos) => o = None /\ Z.of_nat pos < 2 ^ size_bits /\ exists acc, length acc = pos /\
    forall rest, emits config config_size macros i rest -> emits config config_size macros 0 (acc ++ rest))).
  - intros [[o i] pos] (-> & Hpos & acc & <- & Hacc). unfold turn_ok.
    destruct (config_size <=? i)%nat eqn:Ei; bool_hyps.
    + unfold expand_body. rewrite (proj2 (Nat.leb_le _ _)) by lia. cbn [res_post]. exists acc. split_and!; try done.
      rewrite <- (app_nil_r acc). apply Hacc. by constructor.
    + pose proof (step_safe macros i Hm ltac:(lia)) as Hs.
      destruct (step config config_size macros i) as [[i' bs]|msg| |] eqn:Est; cbn [res_post] in Hs; try done.
      * destruct (decide (Z.of_nat (length acc + length bs) < 2 ^ size_bits)) as [Hb|Hb].
        -- rewrite (expand_body_step _ _ _ _ _ _ _ i' bs) by (done || lia). cbn [res_post]. split; [|lia].
           split; [done|]. split; [done|]. exists (acc ++ bs). rewrite length_app. split; [done|].
           intros rest Hr. rewrite <- app_assoc. apply Hacc. apply (emits_step _ _ _ i i'); [lia|lia|done|done].
        -- unfold expand_body, step in *. rewrite (proj2 (Nat.leb_gt _ _)) by lia.
           destruct (at_reference_line config config_size i) as [line| | |]; try done. cbn [rbind] in *.
           destruct (if line then skip_definition config config_size i else Ok None) as [[j|]| | |]; try done; cbn [rbind] in *.
           ++ injection Est as <- <-. cbn in Hb. lia.
           ++ unfold expand_next. rewrite Est. cbn [rbind put]. unfold checked_add.
              rewrite (proj2 (Z.ltb_ge _ _)) by lia. cbn. by right.
      * unfold expand_body, step in *. rewrite (proj2 (Nat.leb_gt _ _)) by lia.
        destruct (at_reference_line config config_size i) as [line| | |]; try done; cbn [rbind] in *; [|injection Est as ->; cbn; by left].
        destruct (if line then skip_definition config config_size i else Ok None) as [[j|]| | |]; try done; cbn [rbind] in *;
          [|injection Est as ->; cbn; by left].
        unfold expand_next. rewrite Est. cbn. by left.
  - split; [done|]. split; [cbn; lia|]. exists []. by split.
  - lia.
Qed.

Definition name_too_long : string := "config: Macro name too long (max %U)".
Definition value_too_long : string := "config: Macro value too long (max %U)".

End Safe.

Definition macro_msg (m : string) : Prop :=
  m = malformed \/ m = too_large \/ m = name_too_long \/ m = value_too_long.

(** * Macro expansion line by line

    What [load_macros] and [expand_macros] do to a text of lines whose
    references are closed: the definitions, in order, and the other lines with
    every reference replaced by the value of the last definition of its name. *)
(** A reference is replaced, everything else stays. *)
Inductive expands (macros : list macro) : list Z -> list Z -> Prop :=
| ex_nil : expands macros [] []
| ex_char c l r : (c = 36 -> head l <> Some 123) -> expands macros l r -> expands macros (c :: l) (c :: r)
| ex_ref name l r : Forall (fun c => name_end c = false) name -> (length name <= MACRO_NAME_MAX)%nat ->
    expands macros l r -> expands macros (36 :: 123 :: name ++ 125 :: l) (macro_value macros name ++ r).

(** The text before and after the first closing brace. *)
Fixpoint break_brace (l : list Z) : option (list Z * list Z) :=
  match l with
  | [] => None
  | c :: l => if c =? 125 then Some ([], l) else (fun '(a, b) => (c :: a, b)) <$> break_brace l
  end.

(** [${name}=value] *)
Definition def_of (l : list Z) : option macro :=
  match l with
  | a :: b :: r =>
      if (a =? 36) && (b =? 123) then
        match break_brace r with
        | Some (name, e :: value) => if e =? 61 then Some (MkMacro name value) else None
        | _ => None
        end
      else None
  | _ => None
  end.

Definition defined (macros : list macro) (ls : list (list Z)) : list macro :=
  foldl (fun ms l => match def_of l with Some m => m :: ms | None => ms end) macros ls.

Definition line_ok (macros : list macro) (l : list Z) (r : option (list Z)) : Prop :=
  match def_of l with
  | Some m => r = None /\ (length (m_name m) <= MACRO_NAME_MAX)%nat /\ (length (m_value m) <= MACRO_VALUE_MAX)%nat
  | None => exists t, r = Some t /\ expands macros l t
  end.

(** The lines of a text joined by newlines; of the output, with the lines of
    definitions gone together with the newline before them. *)
Definition join (l0 : list Z) (ls : list (list Z)) : list Z := l0 ++ concat (map (cons SEPARATOR) ls).

Definition later (r : option (list Z)) : list Z := match r with Some t => SEPARATOR :: t | None => [] end.
Definition join_out (r0 : option (list Z)) (rs : list (option (list Z))) : list Z :=
  default [] r0 ++ concat (map later rs).

Lemma break_brace_spec l : match break_brace l with
  | Some (a, b) => l = a ++ 125 :: b /\ Forall (fun c => c <> 125) a
  | None => Forall (fun c => c <> 125) l
  end.
Proof.
  induction l as [|c l IH]; [constructor|]. cbn. destruct (Z.eqb_spec c 125) as [->|Hc]; [by split|].
  destruct (break_brace l) as [[a b]|]; cbn; [|by constructor]. destruct IH as [-> Ha]. split; [done|by constructor].
Qed.

Lemma break_brace_app a b : Forall (fun c => c <> 125) a -> break_brace (a ++ 125 :: b) = Some (a, b).
Proof. induction 1 as [|c a Hc Ha IH]; [done|]. cbn. rewrite (proj2 (Z.eqb_neq _ _) Hc), IH. done. Qed.

Lemma def_of_spec l m : def_of l = Some m ->
  l = 36 :: 123 :: m_name m ++ 125 :: 61 :: m_value m /\ Forall (fun c => c <> 125) (m_name m).
Proof.
  unfold def_of. destruct l as [|a [|b r]]; [done|done|]. case_if; [|done]. subst.
  pose proof (break_brace_spec r) as Hb. destruct (break_brace r) as [[name [|e value]]|]; try done.
  case_if; [|done]. subst. destruct Hb as [-> Hn]. by intros [= <-].
Qed.

(** A closed reference at the beginning of a line that is not a definition. *)
Lemma def_of_ref name l : Forall (fun c => c <> 125) name -> def_of (36 :: 123 :: name ++ 125 :: l) = None -> head l <> Some 61.
Proof.
  intros Hn. unfold def_of. cbn [Z.eqb andb Pos.eqb]. rewrite break_brace_app by done.
  destruct l as [|e l]; [done|]. case_if; [done|]. intros _ [= ->]. done.
Qed.

Lemma name_no_brace name : Forall (fun c => name_end c = false) name -> Forall (fun c => c <> 125) name.
Proof. intros Hn. eapply Forall_impl; [exact Hn|]. intros c Hc. unfold name_end in Hc. bool_hyps. done. Qed.

(** *** Scans that stop where expected *)
Lemma copy_at_most_exact stop name d t room :
  Forall (fun c => stop c = false) name -> stop d = true -> (length name <= room)%nat ->
  copy_at_most stop (name ++ d :: t) room = Ok name.
Proof.
  intros Hn Hd. revert room. induction Hn as [|c name Hc Hn IH]; intros room Hl.
  - destruct room as [|room]; [done|]. cbn. by rewrite Hd.
  - destruct room as [|room]; [cbn in Hl; lia|]. cbn in *. by rewrite Hc, IH by lia.
Qed.

Lemma copy_until_exact stop msg name d t room :
  Forall (fun c => stop c = false) name -> stop d = true -> (length name <= room)%nat ->
  copy_until stop msg (name ++ d :: t) room = Ok name.
Proof.
  intros Hn Hd. revert room. induction Hn as [|c name Hc Hn IH]; intros room Hl; cbn.
  - by rewrite Hd.
  - rewrite Hc. destruct room as [|room]; [cbn in Hl; lia|]. cbn in Hl. by rewrite IH by lia.
Qed.

Lemma scan_below_exact stop name d t n :
  Forall (fun c => stop c = false) name -> stop d = true -> (length name < n)%nat ->
  scan_below stop (name ++ d :: t) n = Ok (length name).
Proof.
  intros Hn Hd. revert n. induction Hn as [|c name Hc Hn IH]; intros [|n] Hl; cbn in *; try lia.
  - by rewrite Hd.
  - by rewrite Hc, IH by lia.
Qed.

Lemma scan_from_exact stop name d t :
  Forall (fun c => stop c = false) name -> stop d = true -> scan_from stop (name ++ d :: t) = Ok (length name).
Proof. intros Hn Hd. induction Hn as [|c name Hc Hn IH]; cbn; [by rewrite Hd|]. by rewrite Hc, IH. Qed.

Section Lines.
Variables (config junk : list Z) (config_size : nat) (macros : list macro).
Hypothesis Hmacros : Forall (fun m => pos_text (m_name m)) macros.

(** The text from position [i] on is [s] and the terminator. *)
Definition text_at (i : nat) (s : list Z) : Prop := drop i config = s ++ 0 :: junk /\ (i + length s + 1 = config_size)%nat.

Lemma text_at_app i a b : text_at i (a ++ b) -> text_at (i + length a) b.
Proof.
  intros [Hd Hs]. rewrite length_app in Hs. split; [|lia]. rewrite <- drop_drop, Hd, <- app_assoc. apply drop_app_length.
Qed.

Lemma text_at_cons i c s : text_at i (c :: s) -> text_at (S i) s /\ rd config i = Ok c.
Proof.
  intros Ht. split; [rewrite <- Nat.add_1_r; by apply (text_at_app i [c])|]. apply rd_lookup.
  rewrite <- (Nat.add_0_r i), <- lookup_drop. destruct Ht as [-> _]. done.
Qed.

Lemma text_at_size i s : text_at i s -> (i < config_size)%nat /\ config_size = (i + length s + 1)%nat /\
  length config = (config_size + length junk)%nat /\ config !! (config_size - 1)%nat = Some 0.
Proof.
  intros [Hd Hs]. assert (length (drop i config) = (length s + S (length junk))%nat) as Hl by (rewrite Hd, length_app; done).
  rewrite length_drop in Hl. split_and!; try lia. replace (config_size - 1)%nat with (i + length s)%nat by lia.
  rewrite <- lookup_drop, Hd. by apply list_lookup_middle.
Qed.

Lemma ref_line_text i s : text_at i s -> Forall (fun c => 0 < c) s ->
  ref_line config config_size i = bool_decide (take 3 s = [SEPARATOR; 36; 123]) || ((i =? 0)%nat && bool_decide (take 2 s = [36; 123])).
Proof.
  intros Ht Hp. pose proof (text_at_size i s Ht) as (Hi & Hs & Hl & _). destruct Ht as [Hd _]. unfold ref_line. rewrite Hd.
  assert (forall k p, (0 < k)%nat -> length p = k -> Forall (fun c => c <> 0) p ->
    (k <=? config_size - i)%nat && bool_decide (take k (s ++ 0 :: junk) = p) = bool_decide (take k s = p)) as Hk.
  { intros k p Hk0 Hkl Hnz. destruct (decide (k <= length s)%nat).
    - rewrite take_app_le by done. by rewrite (proj2 (Nat.leb_le _ _)) by lia.
    - rewrite (bool_decide_eq_false_2 (take k s = p)) by (intros E; apply (f_equal length) in E; rewrite length_take in E; lia).
      apply andb_false_iff. right. apply bool_decide_eq_false_2. intros E.
      assert (p !! length s = Some 0) as H0.
      { rewrite <- E, lookup_take_lt by lia. by apply list_lookup_middle. }
      by apply (Forall_lookup_1 _ _ _ _ Hnz) in H0. }
  rewrite (Hk 3%nat) by (try done; try lia; unfold SEPARATOR; repeat constructor; lia). f_equal.
  destruct (Nat.eqb_spec i 0) as [->|]; [|by rewrite !andb_false_r]. rewrite andb_true_r. cbn [andb]. rewrite drop_0 in Hd.
  rewrite Hd, <- (Hk 2%nat) by (try done; try lia; repeat constructor; lia). done.
Qed.

Lemma scan_brace i name l : text_at i (name ++ 125 :: l) -> Forall (fun c => c <> 125) name ->
  scan_below (fun c => c =? 125) (drop i config) (config_size - i) = Ok (length name).
Proof.
  intros Ht Hn. pose proof (text_at_size _ _ Ht) as (_ & Hs & _). destruct Ht as [-> _]. rewrite length_app in Hs. cbn in Hs.
  rewrite <- app_assoc. apply scan_below_exact; [|done|lia].
  eapply Forall_impl; [exact Hn|]. intros c. apply Z.eqb_neq.
Qed.

(** A reference on the line that is not a definition. *)
Lemma skip_none i name l :
  text_at (reference_start i) (name ++ 125 :: l) -> Forall (fun c => c <> 125) name -> head l <> Some 61 ->
  skip_definition config config_size i = Ok None.
Proof.
  intros Ht Hn Hl. unfold skip_definition. rewrite (scan_brace _ name l) by done. cbn [rbind].
  set (j := reference_start i) in *. apply text_at_app in Ht. apply text_at_cons in Ht as [Ht _].
  pose proof (text_at_size _ _ Ht) as (Hlt & _). rewrite !(proj2 (Nat.leb_gt _ _)) by lia.
  assert (exists c, rd config (S (j + length name)) = Ok c /\ c <> 61) as (c & -> & Hc).
  { destruct l as [|d l].
    - exists 0. split; [|done]. apply rd_lookup. rewrite <- (Nat.add_0_r (S _)), <- lookup_drop. by destruct Ht as [-> _].
    - exists d. split; [by apply text_at_cons in Ht as [_ ?]|]. by intros ->. }
  cbn [rbind]. by rewrite (proj2 (Z.eqb_neq _ _) Hc).
Qed.

Definition line_stop (t : list Z) : Prop := t = [] \/ exists t', t = SEPARATOR :: t'.

Lemma skip_some i name value t :
  text_at (reference_start i) (name ++ 125 :: 61 :: value ++ t) -> Forall (fun c => c <> 125) name ->
  Forall (fun c => line_end c = false) value -> line_stop t ->
  skip_definition config config_size i = Ok (Some (reference_start i + (length name + 2 + length value))%nat).
Proof.
  intros Ht Hn Hv Hstop. unfold skip_definition. rewrite (scan_brace _ name (61 :: value ++ t)) by done. cbn [rbind].
  set (j := reference_start i) in *. apply text_at_app in Ht. apply text_at_cons in Ht as [Ht _].
  pose proof (text_at_size _ _ Ht) as (Hlt & _). rewrite !(proj2 (Nat.leb_gt _ _)) by lia.
  apply text_at_cons in Ht as [Ht ->]. cbn [rbind Z.eqb Pos.eqb negb]. unfold scan. destruct Ht as [-> _].
  assert (exists d t', (value ++ t) ++ 0 :: junk = value ++ d :: t' /\ line_end d = true) as (d & t' & -> & Hd).
  { destruct Hstop as [->|[t' ->]]; [exists 0, junk|exists SEPARATOR, (t' ++ 0 :: junk)]; by rewrite <- app_assoc. }
  rewrite scan_from_exact by done. cbn. do 2 f_equal. lia.
Qed.

Lemma no_brace_here i c s : text_at i (c :: s) -> Forall (fun c => 0 < c) s -> (c = 36 -> head s <> Some 123) ->
  (if (2 <=? config_size - i)%nat then at_text config i (bytes "${") else Ok false) = Ok false.
Proof.
  intros Ht Hp Hc. pose proof (text_at_size _ _ Ht) as (Hlt & Hs & Hl & _). case_if; [|done].
  rewrite at_text_spec by (cbn; lia). change (length (bytes "${")) with 2%nat. destruct Ht as [-> _]. f_equal.
  apply bool_decide_eq_false_2. change (bytes "${") with [36; 123]. destruct s as [|d s]; cbn; [intros [= -> ?]; lia|].
  intros [= -> ->]. by apply Hc.
Qed.

Lemma step_char i c s : text_at i (c :: s) -> Forall (fun c => 0 < c) (c :: s) -> (c = 36 -> head s <> Some 123) ->
  (ref_line config config_size i = true -> skip_definition config config_size i = Ok None) ->
  step config config_size macros i = Ok (S i, [c]).
Proof.
  intros Ht Hp Hc Hskip. pose proof (text_at_size _ _ Ht) as (Hlt & Hs & Hl & _). unfold step.
  rewrite at_reference_line_spec by lia. cbn [rbind].
  assert ((if ref_line config config_size i then skip_definition config config_size i else Ok None) = Ok None) as ->
    by (destruct (ref_line _ _ _); auto).
  cbn [rbind]. unfold next_piece. apply Forall_cons in Hp as [_ Hp]. rewrite (no_brace_here i c s) by done. cbn [rbind].
  by apply text_at_cons in Ht as [_ ->].
Qed.

Lemma step_ref i name l : text_at i (36 :: 123 :: name ++ 125 :: l) -> Forall (fun c => 0 < c) (name ++ 125 :: l) ->
  Forall (fun c => name_end c = false) name -> (length name <= MACRO_NAME_MAX)%nat ->
  (i = 0%nat -> head l <> Some 61) ->
  step config config_size macros i = Ok ((i + S (S (length name + 1)))%nat, macro_value macros name).
Proof.
  intros Ht Hp Hn Hlen Hdef. pose proof (text_at_size _ _ Ht) as (Hlt & Hs & Hl & _). unfold step.
  rewrite at_reference_line_spec by lia. cbn [rbind].
  assert ((if ref_line config config_size i then skip_definition config config_size i else Ok None) = Ok None) as ->.
  { rewrite (ref_line_text i _ Ht) by (by repeat constructor). cbn [take]. rewrite bool_decide_eq_false_2 by (unfold SEPARATOR; congruence).
    cbn [orb]. destruct (Nat.eqb_spec i 0) as [->|]; [|done]. rewrite bool_decide_eq_true_2 by done. cbn [andb].
    apply (skip_none 0 name l); [|by apply name_no_brace|by apply Hdef].
    apply text_at_cons in Ht as [Ht _]. by apply text_at_cons in Ht as [Ht _]. }
  cbn [rbind]. unfold next_piece. cbn [length] in Hs. rewrite (proj2 (Nat.leb_le _ _)) by lia.
  rewrite at_text_spec by (cbn; lia). change (length (bytes "${")) with 2%nat. rewrite bool_decide_eq_true_2 by (by destruct Ht as [-> _]).
  cbn [rbind]. apply text_at_cons in Ht as [Ht _]. apply text_at_cons in Ht as [Ht _].
  replace (i + 2)%nat with (S (S i)) by lia. pose proof Ht as [-> _]. rewrite <- app_assoc. cbn [app].
  rewrite copy_at_most_exact by done. cbn [rbind]. apply text_at_app in Ht. apply text_at_cons in Ht as [_ ->]. cbn [rbind Z.eqb Pos.eqb negb].
  rewrite find_macro_spec; [|done|by apply Forall_app in Hp as [? _]]. cbn. do 2 f_equal. lia.
Qed.

(** The text of a line, up to its end, after which [rest] is emitted. *)
Lemma emits_line l r : expands macros l r -> forall i t rest,
  text_at i (l ++ t) -> Forall (fun c => 0 < c) (l ++ t) -> one_line l -> line_stop t ->
  (i = 0%nat -> def_of l = None) ->
  emits config config_size macros (i + length l) rest -> emits config config_size macros i (r ++ rest).
Proof.
  induction 1 as [|c l r Hc He IH|name l r Hn Hlen He IH]; intros i t rest Ht Hp Hone Hstop Hdef Hr.
  - by rewrite Nat.add_0_r in Hr.
  - pose proof (text_at_size _ _ Ht) as (Hlt & _). cbn [app] in *. apply Forall_cons in Hone as [Hc1 Hone].
    assert (c = 36 -> head (l ++ t) <> Some 123) as Hc2.
    { intros Ec. destruct l as [|d l]; [|by apply Hc]. destruct Hstop as [->|[t' ->]]; done. }
    change (c :: r ++ rest) with ([c] ++ (r ++ rest)). apply (emits_step _ _ _ i (S i)); [done|lia| |].
    + apply (step_char i c (l ++ t)); try done. rewrite (ref_line_text i _ Ht) by done. cbn [take].
      rewrite bool_decide_eq_false_2 by (intros [= -> _]; done). cbn [orb].
      destruct (Nat.eqb_spec i 0) as [->|]; [|done]. cbn [andb]. rewrite bool_decide_eq_false_2; [done|].
      intros [= -> E]. apply Hc2; [done|]. destruct (l ++ t); [done|]. by injection E as ->.
    + apply (IH (S i) t rest); try done; [by apply text_at_cons in Ht as [? _]|by apply Forall_cons in Hp as [_ ?]|].
      cbn [length] in Hr. by rewrite Nat.add_succ_l, <- Nat.add_succ_r.
  - pose proof (text_at_size _ _ Ht) as (Hlt & _). cbn [app] in *. rewrite <- app_assoc in *. cbn [app] in *.
    apply Forall_cons in Hp as [_ Hp]. apply Forall_cons in Hp as [_ Hp].
    eapply (emits_step _ _ _ i _); [done| |apply (step_ref i name (l ++ t)); try done|]; [lia| |].
    + intros ->. pose proof (def_of_ref name l (name_no_brace _ Hn) (Hdef eq_refl)) as Hh.
      destruct l as [|d l]; [|done]. destruct Hstop as [->|[t' ->]]; done.
    + assert (text_at (i + S (S (length name + 1))) (l ++ t)) as Ht'.
      { change (36 :: 123 :: name ++ 125 :: l ++ t) with ([36; 123] ++ (name ++ [125] ++ l ++ t)) in Ht.
        rewrite !app_assoc in Ht. rewrite <- app_assoc in Ht. apply text_at_app in Ht. rewrite !length_app in Ht. cbn [length] in Ht.
        by replace (i + S (S (length name + 1)))%nat with (i + (2 + length name + 1))%nat by lia. }
      apply (IH _ t rest); try done; [by apply Forall_app in Hp as [_ Hp]; apply Forall_cons in Hp as [_ ?]| |lia|].
      * apply Forall_cons in Hone as [_ Hone]. apply Forall_cons in Hone as [_ Hone].
        apply Forall_app in Hone as [_ Hone]. by apply Forall_cons in Hone as [_ ?].
      * cbn [length] in Hr. rewrite length_app in Hr. cbn [length] in Hr.
        by replace (i + S (S (length name + 1)) + length l)%nat with (i + S (S (length name + S (length l))))%nat by lia.
Qed.

(** A line fit to be expanded: no newline, no terminator. *)
Definition plain (l : list Z) : Prop := Forall (fun c => 0 < c /\ is_sep c = false) l.

Lemma plain_line_end l : plain l -> Forall (fun c => line_end c = false) l.
Proof.
  intros Hl. eapply Forall_impl; [exact Hl|]. intros c [Hc Hs]. unfold line_end. unfold is_sep in Hs. rewrite Hs.
  apply Z.eqb_neq. lia.
Qed.

Lemma plain_parts l : plain l -> Forall (fun c => 0 < c) l /\ one_line l.
Proof. intros Hl. split; (eapply Forall_impl; [exact Hl|]); by intros c [? ?]. Qed.

Definition tail_text (ls : list (list Z)) : list Z := concat (map (cons SEPARATOR) ls).

Lemma tail_pos ls : Forall plain ls -> Forall (fun c => 0 < c) (tail_text ls).
Proof.
  induction 1 as [|l ls Hl Hls IH]; [constructor|]. unfold tail_text. cbn. constructor; [done|].
  apply Forall_app. split; [by apply plain_parts|done].
Qed.

Lemma tail_stop ls : line_stop (tail_text ls).
Proof. destruct ls; [by left|right]. by eexists. Qed.

Lemma emits_nul i : text_at i [] -> emits config config_size macros i [0].
Proof.
  intros Ht. pose proof (text_at_size _ _ Ht) as (Hlt & Hs & Hl & _). cbn in Hs. change [0] with ([0] ++ @nil Z).
  apply (emits_step _ _ _ i (S i)); [lia|lia| |constructor; lia]. unfold step. rewrite at_reference_line_spec by lia. cbn [rbind].
  rewrite (ref_line_text i [] Ht) by constructor. cbn [take]. rewrite !bool_decide_eq_false_2 by done. rewrite andb_false_r. cbn [orb rbind].
  unfold next_piece. rewrite (proj2 (Nat.leb_gt _ _)) by lia. cbn [rbind].
  rewrite (rd_lookup _ _ 0); [done|]. rewrite <- (Nat.add_0_r i), <- lookup_drop. by destruct Ht as [-> _].
Qed.

(** A definition is skipped from the newline before it, or from the beginning
    of the text, to the end of its line. *)
Lemma skip_line i p l m t : text_at i (p ++ l ++ t) -> plain l -> def_of l = Some m -> line_stop t ->
  p = [SEPARATOR] \/ (p = [] /\ i = 0%nat) ->
  skip_definition config config_size i = Ok (Some (i + length p + length l)%nat).
Proof.
  intros Ht Hl Hd Hstop Hp. apply def_of_spec in Hd as [El Hnb].
  assert (Forall (fun c => line_end c = false) (m_value m)) as Hv.
  { rewrite El in Hl. apply plain_line_end in Hl. apply Forall_cons in Hl as [_ Hl]. apply Forall_cons in Hl as [_ Hl].
    apply Forall_app in Hl as [_ Hl]. apply Forall_cons in Hl as [_ Hl]. by apply Forall_cons in Hl as [_ ?]. }
  assert (exists nm, text_at (reference_start i) (nm ++ 125 :: 61 :: m_value m ++ t) /\ Forall (fun c => c <> 125) nm /\
    (reference_start i + (length nm + 2 + length (m_value m)) = i + length p + length l)%nat) as (nm & Ht' & Hn' & E).
  { rewrite El in *. cbn [app] in Ht. rewrite <- app_assoc in Ht. cbn [app length] in *. rewrite length_app. cbn [length].
    unfold reference_start. destruct Hp as [->|[-> ->]]; cbn [app length] in *.
    - apply text_at_cons in Ht as [Ht _]. apply text_at_cons in Ht as [Ht _]. destruct (Nat.eqb_spec i 0) as [->|].
      + exists (123 :: m_name m). cbn [app length]. split; [done|]. split; [by constructor|lia].
      + apply text_at_cons in Ht as [Ht _]. exists (m_name m). replace (i + 3)%nat with (S (S (S i))) by lia. split; [done|]. split; [done|lia].
    - apply text_at_cons in Ht as [Ht _]. apply text_at_cons in Ht as [Ht _]. exists (m_name m). cbn. split; [done|]. split; [done|lia]. }
  rewrite (skip_some i nm (m_value m) t) by done. by rewrite E.
Qed.

Lemma step_definition i p l m t : text_at i (p ++ l ++ t) -> plain l -> Forall (fun c => 0 < c) (p ++ l ++ t) ->
  def_of l = Some m -> line_stop t -> p = [SEPARATOR] \/ (p = [] /\ i = 0%nat) ->
  step config config_size macros i = Ok ((i + length p + length l)%nat, []).
Proof.
  intros Ht Hl Hpos Hd Hstop Hp. pose proof (text_at_size _ _ Ht) as (Hlt & Hs & Hlen & _). unfold step.
  rewrite at_reference_line_spec by lia. cbn [rbind]. rewrite (ref_line_text i _ Ht Hpos).
  rewrite (skip_line i p l m t) by done. pose proof (def_of_spec l m Hd) as [-> _].
  destruct Hp as [->|[-> ->]]; cbn [app take]; [by rewrite bool_decide_eq_true_2|].
  rewrite (bool_decide_eq_true_2 ([36; 123] = _)) by done. by rewrite orb_true_r.
Qed.

(** The first thing on a closed line that starts with a reference. *)
Lemma expands_ref_inv l r : expands macros (36 :: 123 :: l) r ->
  exists name l', l = name ++ 125 :: l' /\ Forall (fun c => c <> 125) name.
Proof.
  inversion 1 as [|? ? ? Hc|name l' ? Hn]; subst; [exfalso; by apply Hc|]. exists name, l'. split; [done|by apply name_no_brace].
Qed.

Lemma step_newline i l r t : text_at i (SEPARATOR :: l ++ t) -> Forall (fun c => 0 < c) (l ++ t) -> plain l -> line_stop t ->
  expands macros l r -> def_of l = None -> step config config_size macros i = Ok (S i, [SEPARATOR]).
Proof.
  intros Ht Hpos Hl Hstop He Hd. apply (step_char i SEPARATOR (l ++ t)); [done|by constructor|done|].
  rewrite (ref_line_text i _ Ht) by (by constructor). intros Hr.
  assert (exists l', l = 36 :: 123 :: l') as [l' ->].
  { apply orb_true_iff in Hr as [Hr|Hr]; [|bool_hyps; rewrite bool_decide_eq_true in *; done].
    rewrite bool_decide_eq_true in Hr. destruct l as [|a [|b l]].
    - destruct Hstop as [->|[t' ->]]; discriminate Hr.
    - destruct Hstop as [->|[t' ->]]; discriminate Hr.
    - injection Hr as -> -> . by eexists. }
  destruct (expands_ref_inv l' r He) as (name & l2 & -> & Hn). pose proof (def_of_ref name l2 Hn Hd) as Hh.
  assert (head (l2 ++ t) <> Some 61) as Hh' by (destruct l2; [destruct Hstop as [->|[t' ->]]; done|done]).
  cbn [app] in Ht. rewrite <- app_assoc in Ht. cbn [app] in Ht.
  apply text_at_cons in Ht as [Ht _]. apply text_at_cons in Ht as [Ht _].
  destruct (decide (i = 0%nat)) as [->|Hi].
  - apply (skip_none 0 (123 :: name) (l2 ++ t)); [done|by constructor|done].
  - apply text_at_cons in Ht as [Ht _]. apply (skip_none i name (l2 ++ t)); [|done|done].
    unfold reference_start. rewrite (proj2 (Nat.eqb_neq i 0)) by done. by replace (i + 3)%nat with (S (S (S i))) by lia.
Qed.

Lemma emits_tail ls rs : Forall2 (line_ok macros) ls rs -> Forall plain ls -> forall i, text_at i (tail_text ls) ->
  emits config config_size macros i (concat (map later rs) ++ [0]).
Proof.
  induction 1 as [|l r ls rs Hlr Hls IH]; intros Hpl i Ht; [by apply emits_nul|].
  apply Forall_cons in Hpl as [Hl Hpl]. pose proof (text_at_size _ _ Ht) as (Hlt & _).
  change (tail_text (l :: ls)) with ((SEPARATOR :: l) ++ tail_text ls) in Ht. pose proof (text_at_app _ _ _ Ht) as Hnext.
  assert (Forall (fun c => 0 < c) (l ++ tail_text ls)) as Hpos by (apply Forall_app; split; [by apply plain_parts|by apply tail_pos]).
  unfold line_ok in Hlr. destruct (def_of l) as [m|] eqn:Ed.
  - destruct Hlr as [-> _]. cbn [map later concat app]. change (concat (map later rs) ++ [0]) with ([] ++ (concat (map later rs) ++ [0])).
    apply (emits_step _ _ _ i (i + 1 + length l)); [done|lia| |].
    + by apply (step_definition i [SEPARATOR] l m (tail_text ls)); try done; [constructor|apply tail_stop|left].
    + replace (i + 1 + length l)%nat with (i + length (SEPARATOR :: l))%nat by (cbn; lia). by apply IH.
  - destruct Hlr as (t & -> & He). cbn [map later concat]. rewrite <- app_assoc. cbn [app].
    change (SEPARATOR :: t ++ concat (map later rs) ++ [0]) with ([SEPARATOR] ++ (t ++ (concat (map later rs) ++ [0]))).
    apply (emits_step _ _ _ i (S i)); [done|lia| |].
    + by apply (step_newline i l t (tail_text ls)); try done; apply tail_stop.
    + apply (emits_line l t He (S i) (tail_text ls)); try done; [by apply text_at_cons in Ht as [? _]|by apply plain_parts|apply tail_stop|].
      replace (S i + length l)%nat with (i + length (SEPARATOR :: l))%nat by (cbn; lia). by apply IH.
Qed.

Lemma emits_text l0 r0 ls rs : line_ok macros l0 r0 -> Forall2 (line_ok macros) ls rs -> Forall plain (l0 :: ls) ->
  text_at 0 (join l0 ls) -> emits config config_size macros 0 (join_out r0 rs ++ [0]).
Proof.
  intros H0 Hls Hpl Ht. apply Forall_cons in Hpl as [Hl Hpl]. unfold join in Ht. fold (tail_text ls) in Ht.
  pose proof (text_at_size _ _ Ht) as (Hlt & _). pose proof (text_at_app _ _ _ Ht) as Hnext. cbn [Nat.add] in Hnext.
  pose proof (emits_tail ls rs Hls Hpl _ Hnext) as Hrest. unfold join_out. rewrite <- app_assoc.
  assert (Forall (fun c => 0 < c) (l0 ++ tail_text ls)) as Hpos by (apply Forall_app; split; [by apply plain_parts|by apply tail_pos]).
  unfold line_ok in H0. destruct (def_of l0) as [m|] eqn:Ed.
  - destruct H0 as [-> _]. cbn [default]. apply (emits_step _ _ _ 0 (0 + 0 + length l0)); [done| | |done].
    + apply def_of_spec in Ed as [-> _]. cbn. lia.
    + apply (step_definition 0 [] l0 m (tail_text ls)); try done; [apply tail_stop|by right].
  - destruct H0 as (t & -> & He). cbn [default]. apply (emits_line l0 t He 0 (tail_text ls)); try done; [by apply plain_parts|apply tail_stop].
Qed.
End Lines.

(** ** Loading *)
Section Load.
Variables (config junk : list Z) (config_size : nat) (macros : list macro).

Abbreviation text_at := (text_at config junk config_size).

(** The state of the loader inside a line (not at the very beginning). *)
Definition loading (i : nat) (ms : list macro) : Prop :=
  i <> 0%nat /\ ((config_size <= i)%nat /\ ms = macros \/
  exists s ls rs, text_at i (s ++ tail_text ls) /\ plain s /\ Forall plain ls /\ Forall2 (line_ok macros) ls rs /\ defined ms ls = macros).

Lemma load_plain i ms s : text_at i s -> ref_line config config_size i = false ->
  load_macros_body config config_size (i, ms) = Ok (inl (S i, ms)).
Proof.
  intros Ht Hr. pose proof (text_at_size _ _ _ _ _ Ht) as (Hlt & _ & Hl & _). unfold load_macros_body.
  rewrite (proj2 (Nat.leb_gt _ _)) by lia. rewrite at_reference_line_spec by lia. cbn [rbind]. by rewrite Hr.
Qed.

(** A definition with its name at [reference_start i]. *)
Lemma load_definition i ms m t :
  ref_line config config_size i = true -> (i < config_size <= length config)%nat ->
  text_at (reference_start i) (m_name m ++ 125 :: 61 :: m_value m ++ t) ->
  Forall (fun c => name_end c = false) (m_name m) -> Forall (fun c => line_end c = false) (m_value m) -> line_stop t ->
  (length (m_name m) <= MACRO_NAME_MAX)%nat -> (length (m_value m) <= MACRO_VALUE_MAX)%nat ->
  load_macros_body config config_size (i, ms) =
    Ok (inl ((reference_start i + (length (m_name m) + 2 + length (m_value m)))%nat, m :: ms)).
Proof.
  intros Hr Hi Ht Hn Hv Hstop Hln Hlv. unfold load_macros_body. rewrite (proj2 (Nat.leb_gt _ _)) by lia.
  rewrite at_reference_line_spec by lia. cbn [rbind]. rewrite Hr. set (j := reference_start i) in *.
  pose proof Ht as [-> _]. rewrite <- app_assoc. cbn [app]. rewrite copy_until_exact by done. cbn [rbind].
  apply text_at_app in Ht. apply text_at_cons in Ht as [Ht ->]. cbn [rbind]. change (line_end 125) with false.
  apply text_at_cons in Ht as [Ht ->]. cbn [rbind Z.eqb Pos.eqb negb].
  replace (j + length (m_name m) + 2)%nat with (S (S (j + length (m_name m)))) by lia. destruct Ht as [-> _].
  assert (exists d t', (m_value m ++ t) ++ 0 :: junk = m_value m ++ d :: t' /\ line_end d = true) as (d & t' & -> & Hd).
  { destruct Hstop as [->|[t' ->]]; [exists 0, junk|exists SEPARATOR, (t' ++ 0 :: junk)]; by rewrite <- app_assoc. }
  rewrite copy_until_exact by done. cbn [rbind]. destruct m. cbn. do 4 f_equal. lia.
Qed.

(** A closed reference that is not a definition. *)
Lemma load_reference i ms name l :
  ref_line config config_size i = true -> (i < config_size <= length config)%nat ->
  text_at (reference_start i) (name ++ 125 :: l) -> Forall (fun c => name_end c = false) name ->
  (length name <= MACRO_NAME_MAX)%nat -> head l <> Some 61 ->
  load_macros_body config config_size (i, ms) = Ok (inl ((reference_start i + length name)%nat, ms)).
Proof.
  intros Hr Hi Ht Hn Hln Hh. unfold load_macros_body. rewrite (proj2 (Nat.leb_gt _ _)) by lia.
  rewrite at_reference_line_spec by lia. cbn [rbind]. rewrite Hr. set (j := reference_start i) in *.
  pose proof Ht as [-> _]. rewrite <- app_assoc. cbn [app]. rewrite copy_until_exact by done. cbn [rbind].
  apply text_at_app in Ht. apply text_at_cons in Ht as [Ht ->]. cbn [rbind]. change (line_end 125) with false.
  assert (exists c, rd config (S (j + length name)) = Ok c /\ c <> 61) as (c & -> & Hc).
  { destruct l as [|d l].
    - exists 0. split; [|done]. apply rd_lookup. rewrite <- (Nat.add_0_r (S _)), <- lookup_drop. by destruct Ht as [-> _].
    - exists d. split; [by apply text_at_cons in Ht as [_ ?]|]. by intros ->. }
  cbn [rbind]. by rewrite (proj2 (Z.eqb_neq _ _) Hc).
Qed.

Lemma plain_name_end l : plain l -> Forall (fun c => c <> 125) l -> Forall (fun c => name_end c = false) l.
Proof.
  intros Hl Hb. apply Forall_lookup. intros k c Hc. pose proof (Forall_lookup_1 _ _ _ _ Hb Hc) as Hn. cbn beta in Hn.
  pose proof (Forall_lookup_1 _ _ _ _ Hl Hc) as [? Hs]. unfold name_end. unfold is_sep in Hs. rewrite Hs.
  rewrite !(proj2 (Z.eqb_neq _ _)) by lia. done.
Qed.

(** A whole line [l] that starts at [i + length p], the loader standing at [i]. *)
Lemma load_line i p l r ls rs ms :
  text_at i (p ++ l ++ tail_text ls) -> p = [SEPARATOR] /\ i <> 0%nat \/ p = [] /\ i = 0%nat /\ take 2 l = [36; 123] ->
  plain l -> Forall plain ls -> line_ok macros l r -> Forall2 (line_ok macros) ls rs -> defined ms (l :: ls) = macros ->
  exists i' ms', load_macros_body config config_size (i, ms) = Ok (inl (i', ms')) /\ (i < i' <= config_size)%nat /\ loading i' ms'.
Proof.
  intros Ht Hp Hl Hls Hr Hrs Hdef. pose proof (text_at_size _ _ _ _ _ Ht) as (Hlt & Hsz & Hlen & _).
  assert (Forall (fun c => 0 < c) (p ++ l ++ tail_text ls)) as Hpos.
  { apply Forall_app. split; [by destruct Hp as [[-> _]|[-> _]]; repeat constructor|].
    apply Forall_app. split; [by apply plain_parts|by apply tail_pos]. }
  pose proof (ref_line_text _ _ _ i _ Ht Hpos) as Href.
  destruct (decide (take 2 l = [36; 123])) as [E2|N2].
  2: { destruct Hp as [[-> Hi]|(_ & _ & ?)]; [|done]. exists (S i), ms. cbn [app] in *. split; [|split; [lia|]].
    - apply (load_plain i ms _ Ht). rewrite Href. cbn [take]. rewrite (proj2 (Nat.eqb_neq i 0)) by done. rewrite orb_false_r.
      apply bool_decide_eq_false_2. intros [= E]. apply N2. destruct l as [|a [|b l]]; cbn in *; [..|done];
        pose proof (tail_stop ls) as [Et|[t' Et]]; rewrite Et in E; discriminate E.
    - split; [lia|]. right. exists l, ls, rs. split; [by apply text_at_cons in Ht as [? _]|]. split_and!; try done.
      rewrite <- Hdef. cbn. replace (def_of l) with (@None macro); [done|]. symmetry. destruct (def_of l) as [m|] eqn:Ed; [|done].
      apply def_of_spec in Ed as [-> _]. done. }
  destruct l as [|a [|b l]]; try done. cbn in E2. injection E2 as -> ->.
  assert (ref_line config config_size i = true) as Hrl.
  { rewrite Href. destruct Hp as [[-> Hi]|(-> & -> & _)]; cbn; [done|]. by rewrite orb_true_r. }
  assert (text_at (reference_start i) (l ++ tail_text ls) /\ reference_start i = (i + length p + 2)%nat) as [Ht' Er].
  { unfold reference_start. destruct Hp as [[-> Hi]|(-> & -> & _)]; cbn [app length] in *.
    - apply text_at_cons in Ht as [Ht _]. apply text_at_cons in Ht as [Ht _]. apply text_at_cons in Ht as [Ht _].
      rewrite (proj2 (Nat.eqb_neq i 0)) by done. split; [by replace (i + 3)%nat with (S (S (S i))) by lia|lia].
    - apply text_at_cons in Ht as [Ht _]. apply text_at_cons in Ht as [Ht _]. done. }
  rewrite !length_app in Hsz. cbn [length] in Hsz. unfold line_ok in Hr. cbn [defined foldl] in Hdef.
  destruct (def_of (36 :: 123 :: l)) as [m|] eqn:Ed.
  - destruct Hr as (_ & Hln & Hlv). apply def_of_spec in Ed as [[= El] Hnb]. subst l. rewrite length_app in Hsz. cbn [length] in Hsz.
    apply Forall_cons in Hl as [_ Hl]. apply Forall_cons in Hl as [_ Hl]. apply Forall_app in Hl as [Hl1 Hl2].
    apply Forall_cons in Hl2 as [_ Hl2]. apply Forall_cons in Hl2 as [_ Hl2]. rewrite <- app_assoc in Ht'. cbn [app] in Ht'.
    eexists _, _. split; [apply (load_definition i ms m (tail_text ls)); try done|split; [lia|]].
    + lia.
    + by apply plain_name_end.
    + by apply plain_line_end.
    + apply tail_stop.
    + split; [lia|]. right. exists [], ls, rs. cbn [app]. split; [|split; [constructor|done]].
      replace (m_name m ++ 125 :: 61 :: m_value m ++ tail_text ls) with ((m_name m ++ [125; 61] ++ m_value m) ++ tail_text ls) in Ht'
        by (by rewrite <- !app_assoc). apply text_at_app in Ht'. rewrite !length_app in Ht'. cbn [length] in Ht'.
      by replace (reference_start i + (length (m_name m) + 2 + length (m_value m)))%nat
        with (reference_start i + (length (m_name m) + (2 + length (m_value m))))%nat by lia.
  - destruct Hr as (t & _ & He). inversion He as [|? ? ? Hc|name l' r' Hn Hln He']; subst; [by destruct (Hc eq_refl)|].
    pose proof (def_of_ref name l' (name_no_brace _ Hn) Ed) as Hh. rewrite <- app_assoc in Ht'. cbn [app] in Ht'.
    rewrite length_app in Hsz. cbn [length] in Hsz.
    eexists _, _. split; [apply (load_reference i ms name (l' ++ tail_text ls)); try done; [lia|]|split; [lia|]].
    + destruct l'; [pose proof (tail_stop ls) as [->|[t' ->]]; done|done].
    + split; [lia|]. right. exists (125 :: l'), ls, rs. split; [by apply text_at_app in Ht'|]. split; [|done].
      apply Forall_cons in Hl as [_ Hl]. apply Forall_cons in Hl as [_ Hl]. by apply Forall_app in Hl as [_ Hl].
Qed.

Lemma load_turn i ms : loading i ms -> (i <= config_size)%nat ->
  if (config_size <=? i)%nat then ms = macros
  else exists i' ms', load_macros_body config config_size (i, ms) = Ok (inl (i', ms')) /\ (i < i' <= config_size)%nat /\ loading i' ms'.
Proof.
  intros [Hi [[Hs ->]|(s & ls & rs & Ht & Hpl & Hls & Hrs & Hdef)]] Hle; [by rewrite (proj2 (Nat.leb_le _ _)) by lia|].
  pose proof (text_at_size _ _ _ _ _ Ht) as (Hlt & Hsz & Hlen & _). rewrite (proj2 (Nat.leb_gt _ _)) by lia.
  assert (Forall (fun c => 0 < c) (s ++ tail_text ls)) as Hpos
    by (apply Forall_app; split; [by apply plain_parts|by apply tail_pos]).
  pose proof (ref_line_text _ _ _ i _ Ht Hpos) as Href. rewrite (proj2 (Nat.eqb_neq i 0)), orb_false_r in Href by done.
  destruct s as [|c s].
  - destruct ls as [|l ls].
    + exists (S i), ms. split; [by apply (load_plain i ms _ Ht); rewrite Href|]. cbn in Hsz. split; [lia|]. split; [lia|]. left. split; [lia|done].
    + inversion Hrs as [|? r ? rs' Hr Hrs']; subst. apply Forall_cons in Hls as [Hl Hls].
      apply (load_line i [SEPARATOR] l r ls rs'); try done. by left.
  - exists (S i), ms. split.
    + apply (load_plain i ms _ Ht). rewrite Href. apply bool_decide_eq_false_2. cbn. intros [= -> _]. by apply Forall_cons in Hpl as [[_ ?] _].
    + split; [lia|]. split; [lia|]. right. exists s, ls, rs. split; [by apply text_at_cons in Ht as [? _]|].
      apply Forall_cons in Hpl as [_ ?]. done.
Qed.

(** The beginning of the text; an empty first line may not be followed by a
    reference at the start of the second. *)
Definition proper_start (l0 : list Z) (ls : list (list Z)) : Prop :=
  l0 = [] -> forall l, head ls = Some l -> take 2 l <> [36; 123].

Lemma load_first l0 r0 ls rs ms :
  text_at 0 (join l0 ls) -> Forall plain (l0 :: ls) -> line_ok macros l0 r0 -> Forall2 (line_ok macros) ls rs ->
  defined ms (l0 :: ls) = macros -> proper_start l0 ls ->
  exists i' ms', load_macros_body config config_size (0%nat, ms) = Ok (inl (i', ms')) /\ (0 < i' <= config_size)%nat /\ loading i' ms'.
Proof.
  intros Ht Hpl H0 Hrs Hdef Hps. apply Forall_cons in Hpl as [Hl Hpl].
  pose proof (text_at_size _ _ _ _ _ Ht) as (Hlt & Hsz & Hlen & _). unfold join in Ht. fold (tail_text ls) in Ht.
  destruct (decide (take 2 l0 = [36; 123])) as [E2|N2]; [apply (load_line 0 [] l0 r0 ls rs); try done; by right|].
  assert (Forall (fun c => 0 < c) (l0 ++ tail_text ls)) as Hpos
    by (apply Forall_app; split; [by apply plain_parts|by apply tail_pos]).
  exists 1%nat, ms. cbn [defined foldl] in Hdef.
  assert (def_of l0 = None) as Hnd by (destruct (def_of l0) as [m|] eqn:Ed; [apply def_of_spec in Ed as [-> _]; done|done]).
  rewrite Hnd in Hdef. split; [|split; [lia|]].
  - apply (load_plain 0 ms _ Ht). rewrite (ref_line_text _ _ _ 0 _ Ht Hpos). cbn [Nat.eqb andb].
    apply orb_false_iff. split; apply bool_decide_eq_false_2; intros E.
    + destruct l0 as [|c l0]; [|cbn in E; injection E as -> _; by apply Forall_cons in Hl as [[_ ?] _]].
      destruct ls as [|l ls]; [done|]. cbn in E. injection E as E. apply (Hps eq_refl l eq_refl).
      destruct l as [|a [|b l]]; cbn in *; [..|done]; pose proof (tail_stop ls) as [Et|[t' Et]]; unfold tail_text in Et;
        rewrite Et in E; discriminate E.
    + apply N2. destruct l0 as [|a [|b l0]]; cbn in *; [..|done]; pose proof (tail_stop ls) as [Et|[t' Et]]; rewrite Et in E; discriminate E.
  - split; [lia|]. destruct l0 as [|c l0].
    + destruct ls as [|l ls]; [left; cbn in Hsz; split; [lia|done]|]. right. inversion Hrs as [|? r ? rs' Hr Hrs']; subst.
      apply Forall_cons in Hpl as [Hl1 Hpl]. exists l, ls, rs'. split; [by apply text_at_cons in Ht as [? _]|]. split_and!; try done.
      cbn. replace (def_of l) with (@None macro); [done|]. symmetry. destruct (def_of l) as [m|] eqn:Ed; [|done].
      exfalso. apply (Hps eq_refl l eq_refl). by apply def_of_spec in Ed as [-> _].
    + right. exists l0, ls, rs. split; [by apply text_at_cons in Ht as [? _]|]. by apply Forall_cons in Hl as [_ ?].
Qed.

(** The loader after its first turn. *)
Lemma load_from ms i ms1 :
  load_macros_body config config_size (0%nat, ms) = Ok (inl (i, ms1)) -> (0 < i <= config_size)%nat -> loading i ms1 ->
  load_macros config config_size ms = Ok macros.
Proof.
  intros H1 Hi Hl. unfold load_macros.
  destruct (res_post_total (fun r => r = macros)
    (loop (load_macros_body config config_size) (fun '(i, _) => Z.of_nat (config_size - i)) (0%nat, ms))) as (r & -> & ->); [|done].
  apply (loop_spec _ (fun '(i, ms1) => (i = 0%nat /\ ms1 = ms) \/ (loading i ms1 /\ (i <= config_size)%nat))); [|by left|lia].
  intros [i2 ms2] [[-> ->]|[Hld Hle]]; unfold turn_ok.
  - rewrite H1. cbn. split; [right; split; [done|lia]|lia].
  - pose proof (load_turn i2 ms2 Hld Hle) as Hturn. destruct (config_size <=? i2)%nat eqn:E; bool_hyps.
    + unfold load_macros_body. by rewrite (proj2 (Nat.leb_le _ _)) by lia.
    + destruct Hturn as (i' & ms' & -> & Hi' & Hld'). cbn. split; [right; split; [done|lia]|lia].
Qed.

Lemma load_text l0 r0 ls rs ms :
  text_at 0 (join l0 ls) -> Forall plain (l0 :: ls) -> line_ok macros l0 r0 -> Forall2 (line_ok macros) ls rs ->
  defined ms (l0 :: ls) = macros -> proper_start l0 ls -> load_macros config config_size ms = Ok macros.
Proof.
  intros Ht Hpl H0 Hrs Hdef Hps. destruct (load_first l0 r0 ls rs ms Ht Hpl H0 Hrs Hdef Hps) as (i' & ms' & H1 & Hi' & Hld).
  by apply (load_from _ i' ms').
Qed.

(** A definition on the second line, after an empty first one: the loader stands
    on the newline at offset 0, for which [reference_start] skips two characters
    only, so the name it takes begins with the opening brace. *)
Definition misnamed (m : macro) : macro := MkMacro (123 :: m_name m) (m_value m).

Lemma load_misnamed l m ls rs ms :
  text_at 0 (join [] (l :: ls)) -> Forall plain (l :: ls) -> def_of l = Some m ->
  (length (m_name m) < MACRO_NAME_MAX)%nat -> (length (m_value m) <= MACRO_VALUE_MAX)%nat ->
  Forall2 (line_ok macros) ls rs -> defined (misnamed m :: ms) ls = macros -> load_macros config config_size ms = Ok macros.
Proof.
  intros Ht Hpl Hd Hln Hlv Hrs Hdef. apply Forall_cons in Hpl as [Hl Hpl]. pose proof (text_at_size _ _ _ _ _ Ht) as (Hlt & Hsz & Hlen & _).
  change (join [] (l :: ls)) with (SEPARATOR :: l ++ tail_text ls) in *.
  assert (Forall (fun c => 0 < c) (SEPARATOR :: l ++ tail_text ls)) as Hpos
    by (constructor; [done|apply Forall_app; split; [by apply plain_parts|by apply tail_pos]]).
  pose proof (ref_line_text _ _ _ 0 _ Ht Hpos) as Href.
  apply def_of_spec in Hd as [-> Hnb]. cbn [app] in Ht. rewrite <- app_assoc in Ht. cbn [app] in Ht.
  apply text_at_cons in Ht as [Ht _]. apply text_at_cons in Ht as [Ht _].
  do 2 apply Forall_cons in Hl as [_ Hl]. apply Forall_app in Hl as [Hl1 Hl2]. do 2 apply Forall_cons in Hl2 as [_ Hl2].
  cbn [app length] in Hsz. rewrite !length_app in Hsz. cbn [length] in Hsz.
  apply (load_from _ (reference_start 0 + (length (m_name (misnamed m)) + 2 + length (m_value (misnamed m)))) (misnamed m :: ms)).
  - apply (load_definition 0 ms (misnamed m) (tail_text ls)); try done.
    + lia.
    + constructor; [done|by apply plain_name_end].
    + by apply plain_line_end.
    + apply tail_stop.
  - unfold reference_start, misnamed. cbn [Nat.eqb m_name m_value length]. lia.
  - split; [unfold reference_start; cbn; lia|]. right. exists [], ls, rs. cbn [app]. split; [|split; [constructor|done]].
    change (123 :: ?a ++ 125 :: 61 :: m_value m ++ tail_text ls) with ((123 :: a) ++ [125; 61] ++ m_value m ++ tail_text ls) in Ht.
    rewrite !app_assoc in Ht. apply text_at_app in Ht. rewrite !length_app in Ht. cbn [length] in Ht.
    unfold reference_start, misnamed. cbn [Nat.eqb m_name m_value length] in *.
    by replace (0 + 2 + (S (length (m_name m)) + 2 + length (m_value m)))%nat
      with (2 + (S (length (m_name m)) + 2 + length (m_value m)))%nat by lia.
Qed.
End Load.

(** *** The expanded configuration *)
Lemma pos_names macros ls : Forall (fun m => pos_text (m_name m)) macros -> Forall plain ls ->
  Forall (fun m => pos_text (m_name m)) (defined macros ls).
Proof.
  intros Hm Hls. revert macros Hm. induction Hls as [|l ls Hl Hls IH]; intros macros Hm; [done|].
  cbn [defined foldl]. apply IH. destruct (def_of l) as [m|] eqn:Ed; [|done]. constructor; [|done].
  apply def_of_spec in Ed as [-> _]. apply Forall_cons in Hl as [_ Hl]. apply Forall_cons in Hl as [_ Hl].
  apply Forall_app in Hl as [Hl _]. by apply plain_parts.
Qed.

Lemma expand_config_lines size_bits arch fw_type loader_arch l0 ls r0 rs junk :
  let macros := defined (predefined_macros arch fw_type loader_arch) (l0 :: ls) in
  let out := join_out r0 rs ++ [0] in
  Forall plain (l0 :: ls) -> line_ok macros l0 r0 -> Forall2 (line_ok macros) ls rs -> proper_start l0 ls ->
  Z.of_nat (length out) < 2 ^ size_bits ->
  expand_config size_bits arch fw_type loader_arch (join l0 ls ++ 0 :: junk) (length (join l0 ls) + 1) = Ok out.
Proof.
  intros macros out Hpl H0 Hrs Hps Hbits. unfold expand_config.
  assert (text_at (join l0 ls ++ 0 :: junk) junk (length (join l0 ls) + 1) 0 (join l0 ls)) as Ht by (by split).
  rewrite (load_text _ junk _ macros l0 r0 ls rs _ Ht Hpl H0 Hrs eq_refl Hps). cbn [rbind].
  assert (emits (join l0 ls ++ 0 :: junk) (length (join l0 ls) + 1) macros 0 out) as He.
  { eapply emits_text; try done. apply pos_names; [by repeat constructor|done]. }
  rewrite (expand_emits _ _ _ _ None out) by done. cbn [rbind].
  by rewrite (expand_emits _ _ _ _ (Some _) out) by (done || by rewrite length_replicate).
Qed.

Lemma expand_misnamed size_bits arch fw_type loader_arch l m ls rs junk :
  let macros := defined (misnamed m :: predefined_macros arch fw_type loader_arch) ls in
  let out := concat (map later rs) ++ [0] in
  Forall plain (l :: ls) -> def_of l = Some m ->
  (length (m_name m) < MACRO_NAME_MAX)%nat -> (length (m_value m) <= MACRO_VALUE_MAX)%nat ->
  Forall2 (line_ok macros) ls rs -> Z.of_nat (length out) < 2 ^ size_bits ->
  expand_config size_bits arch fw_type loader_arch (join [] (l :: ls) ++ 0 :: junk) (length (join [] (l :: ls)) + 1) = Ok out.
Proof.
  intros macros out Hpl Hd Hln Hlv Hrs Hbits. unfold expand_config.
  assert (text_at (join [] (l :: ls) ++ 0 :: junk) junk (length (join [] (l :: ls)) + 1) 0 (join [] (l :: ls))) as Ht by (by split).
  rewrite (load_misnamed _ junk _ macros l m ls rs _ Ht Hpl Hd Hln Hlv Hrs eq_refl). cbn [rbind].
  pose proof Hpl as Hpl'. apply Forall_cons in Hpl' as [Hl Hls].
  assert (Forall (fun m => pos_text (m_name m)) macros) as Hnames.
  { apply pos_names; [|done]. constructor; [|by repeat constructor]. constructor; [done|]. apply def_of_spec in Hd as [-> _].
    do 2 apply Forall_cons in Hl as [_ Hl]. apply Forall_app in Hl as [Hl _]. by apply plain_parts. }
  assert (emits (join [] (l :: ls) ++ 0 :: junk) (length (join [] (l :: ls)) + 1) macros 0 out) as He.
  { change (join [] (l :: ls)) with ([SEPARATOR] ++ l ++ tail_text ls) in *. pose proof (text_at_size _ _ _ _ _ Ht) as (Hlt & _).
    change out with ([] ++ out). apply (emits_step _ _ _ 0 (0 + 1 + length l)); [done|lia| |].
    - apply (step_definition _ junk _ _ 0 [SEPARATOR] l m (tail_text ls)); try done; [|apply tail_stop|by left].
      constructor; [done|]. apply Forall_app. split; [by apply plain_parts|by apply tail_pos].
    - eapply emits_tail; try done. rewrite app_assoc in Ht. by apply text_at_app in Ht. }
  rewrite (expand_emits _ _ _ _ None out) by done. cbn [rbind].
  by rewrite (expand_emits _ _ _ _ (Some _) out) by (done || by rewrite length_replicate).
Qed.
