(* ===== verification/ConfigMenu.v ===== *)
(** * The menu tree

    The array of entries [create_menu_tree] links represents a forest whose
    preorder is the sequence of entries of the file with their depths, and the
    entries' names and bodies are the strings of the file. *)

From S2P Require Import Prelude CInt Libc Config ConfigText ConfigMacro.

(** ** Forests: first child, next sibling *)
Inductive forest := Nil | Tree (id : nat) (subs rest : forest).

Fixpoint ids (f : forest) : list nat :=
  match f with
  | Nil => []
  | Tree i subs rest => i :: ids subs ++ ids rest
  end.

(** The entries in order, with their depth. *)
Fixpoint preorder (d : nat) (f : forest) : list (nat * nat) :=
  match f with
  | Nil => []
  | Tree i subs rest => (d, i) :: preorder (S d) subs ++ preorder d rest
  end.

(** [es] with the pointer [ptr] holds the forest: what follows [sub], [next] and
    [parent] from there. *)
Fixpoint shows (es : list menu_entry) (parent ptr : option nat) (f : forest) : Prop :=
  match f with
  | Nil => ptr = None
  | Tree i subs rest =>
      ptr = Some i /\ exists e, es !! i = Some e /\ me_parent e = parent /\
        shows es (Some i) (me_sub e) subs /\ shows es parent (me_next e) rest
  end.

(** The last entry of each depth. *)
Fixpoint spine (f : forest) : list nat :=
  match f with
  | Nil => []
  | Tree i subs Nil => i :: spine subs
  | Tree i subs rest => spine rest
  end.

(** A new entry at depth [d] (1 is the depth of the forest itself). *)
Fixpoint add (d k : nat) (f : forest) : forest :=
  match f with
  | Nil => Tree k Nil Nil
  | Tree i subs Nil => if (d =? 1)%nat then Tree i subs (Tree k Nil Nil) else Tree i (add (d - 1) k subs) Nil
  | Tree i subs rest => Tree i subs (add d k rest)
  end.

Lemma spine_ids f j : In j (spine f) -> In j (ids f).
Proof.
  induction f as [|i subs IHs rest IHr]; [done|]. cbn. destruct rest as [|i2 s2 r2].
  - cbn. rewrite app_nil_r. intros [->|Hj]; auto.
  - intros Hj. right. apply in_app_iff. auto.
Qed.

Lemma spine_nil f : spine f = [] -> f = Nil.
Proof. induction f as [|i subs IHs rest IHr]; [done|]. cbn. destruct rest; [done|]. intros E. by specialize (IHr E). Qed.

Lemma add_nonnil d k f : add d k f <> Nil.
Proof. destruct f as [|i subs rest]; [done|]. cbn. destruct rest; [|done]. by destruct (d =? 1)%nat. Qed.

Lemma add_spine d k f : (1 <= d)%nat -> (d - 1 <= length (spine f))%nat -> spine (add d k f) = take (d - 1) (spine f) ++ [k].
Proof.
  revert d. induction f as [|i subs IHs rest IHr]; intros d Hd Hl.
  - cbn in *. by replace (d - 1)%nat with 0%nat by lia.
  - cbn [add]. destruct rest as [|i2 s2 r2].
    + cbn [spine length] in Hl. destruct (Nat.eqb_spec d 1) as [->|Hn]; [done|]. cbn [spine].
      rewrite IHs by lia. destruct d as [|[|d]]; [lia|lia|]. cbn. by rewrite Nat.sub_0_r.
    + change (spine (Tree i subs (Tree i2 s2 r2))) with (spine (Tree i2 s2 r2)) in *. rewrite <- IHr by done.
      cbn [spine]. pose proof (add_nonnil d k (Tree i2 s2 r2)). by destruct (add d k (Tree i2 s2 r2)).
Qed.

Lemma add_preorder lvl d k f : (1 <= d)%nat -> (d - 1 <= length (spine f))%nat ->
  preorder lvl (add d k f) = preorder lvl f ++ [((lvl + (d - 1))%nat, k)].
Proof.
  revert lvl d. induction f as [|i subs IHs rest IHr]; intros lvl d Hd Hl.
  - cbn in *. by replace (lvl + (d - 1))%nat with lvl by lia.
  - cbn [add]. destruct rest as [|i2 s2 r2].
    + cbn [spine length] in Hl. cbn [preorder]. destruct (Nat.eqb_spec d 1) as [->|Hn]; cbn [preorder].
      * rewrite Nat.sub_diag, Nat.add_0_r, !app_nil_r. done.
      * rewrite IHs by lia. rewrite !app_nil_r. cbn [app]. do 4 f_equal. lia.
    + change (spine (Tree i subs (Tree i2 s2 r2))) with (spine (Tree i2 s2 r2)) in *.
      cbn [preorder]. rewrite IHr by done. cbn [preorder]. by rewrite app_assoc.
Qed.

Lemma shows_frame es es' f : forall parent ptr, (forall j, In j (ids f) -> es' !! j = es !! j) -> shows es parent ptr f -> shows es' parent ptr f.
Proof.
  induction f as [|i subs IHs rest IHr]; intros parent ptr Hj; [done|]. cbn in *. intros (-> & e & He & Hp & Hs & Hr).
  split; [done|]. exists e. rewrite Hj by auto. split_and!; try done; [apply IHs|apply IHr]; try done; intros j ?; apply Hj; right; apply in_app_iff; auto.
Qed.

(** What is known about the last entries. *)
Lemma shows_spine es f : forall parent ptr d j, shows es parent ptr f -> spine f !! d = Some j ->
  exists e, es !! j = Some e /\ me_parent e = (match d with O => parent | S d => spine f !! d end) /\
    me_next e = None /\ (me_sub e = None <-> spine f !! S d = None).
Proof.
  induction f as [|i subs IHs rest IHr]; intros parent ptr d j Hsh Hj; [done|]. cbn [shows] in Hsh. destruct Hsh as (-> & e & He & Hp & Hs & Hr).
  destruct rest as [|i2 s2 r2].
  - cbn [shows] in Hr. cbn [spine] in *. destruct d as [|d].
    + injection Hj as <-. exists e. split_and!; try done. destruct subs as [|i3 s3 r3]; cbn [shows] in Hs; [by rewrite Hs|].
      destruct Hs as [Es _]. rewrite Es. split; [done|]. change ((i :: spine (Tree i3 s3 r3)) !! 1%nat) with (spine (Tree i3 s3 r3) !! 0%nat).
      intros E. destruct (spine (Tree i3 s3 r3)) eqn:E3; [by apply spine_nil in E3|done].
    + cbn in Hj. destruct (IHs _ _ d j Hs Hj) as (e2 & H1 & H2 & H3 & H4). exists e2. split_and!; try done.
  - change (spine (Tree i subs (Tree i2 s2 r2))) with (spine (Tree i2 s2 r2)) in *. by apply (IHr parent (me_next e)).
Qed.

(** The parent of an entry added at depth [d]. *)
Definition new_parent (d : nat) (parent : option nat) (f : forest) : option nat :=
  if (d =? 1)%nat then parent else spine f !! (d - 2)%nat.

(** What linking entry [k] at depth [d] changes: the last sibling's [next], or
    the [sub] of a parent without children. *)
Definition relinked (es es' : list menu_entry) (d k : nat) (parent : option nat) (f : forest) : Prop :=
  forall j, In j (ids f) -> es' !! j =
    match spine f !! (d - 1)%nat with
    | Some b => if decide (j = b) then (fun e => set_next e (Some k)) <$> es !! j else es !! j
    | None => match (if (d =? 1)%nat then None else spine f !! (d - 2)%nat) with
              | Some q => if decide (j = q) then (fun e => set_sub e (Some k)) <$> es !! j else es !! j
              | None => es !! j
              end
    end.

Lemma relinked_frame es es' d k parent f g :
  relinked es es' d k parent f -> (forall j, In j (ids g) -> In j (ids f)) ->
  (forall j, In j (ids g) -> In j (spine f) -> False) -> forall j, In j (ids g) -> es' !! j = es !! j.
Proof.
  intros Hr Hsub Hns j Hj. rewrite (Hr j) by auto. destruct (spine f !! (d - 1)%nat) as [b|] eqn:Eb.
  - rewrite decide_False; [done|]. intros ->. apply (Hns b Hj). apply list_elem_of_In. by eapply list_elem_of_lookup_2.
  - destruct (if (d =? 1)%nat then None else spine f !! (d - 2)%nat) as [q|] eqn:Eq; [|done]. rewrite decide_False; [done|].
    intros ->. destruct (d =? 1)%nat; [done|]. apply (Hns q Hj). apply list_elem_of_In. by eapply list_elem_of_lookup_2.
Qed.

(** One level down. *)
Lemma below_lookup i (l : list nat) d : (i :: l) !! (S (S d) - 1)%nat = l !! d.
Proof. by replace (S (S d) - 1)%nat with (S d) by lia. Qed.

Lemma below_parent i (l : list nat) d :
  (if (S (S d) =? 1)%nat then None else (i :: l) !! (S (S d) - 2)%nat) = match d with O => Some i | S d => l !! d end.
Proof. cbn [Nat.eqb]. replace (S (S d) - 2)%nat with d by lia. by destruct d. Qed.

Lemma below_parent2 i (l : list nat) d (p : option nat) :
  (if (S (S d) =? 1)%nat then p else (i :: l) !! (S (S d) - 2)%nat) = match d with O => Some i | S d => l !! d end.
Proof. cbn [Nat.eqb]. replace (S (S d) - 2)%nat with d by lia. by destruct d. Qed.

Lemma shows_add es es' d k e0 f : forall parent ptr,
  shows es parent ptr f -> NoDup (ids f) -> ~ In k (ids f) -> (1 <= d)%nat -> (d - 1 <= length (spine f))%nat ->
  es' !! k = Some e0 -> me_parent e0 = new_parent d parent f -> me_sub e0 = None -> me_next e0 = None ->
  relinked es es' d k parent f ->
  shows es' parent (match f with Nil => Some k | _ => ptr end) (add d k f).
Proof.
  revert d. induction f as [|i subs IHs rest IHr]; intros d parent ptr Hsh Hnd Hk Hd Hl Hek Hpar Hsub Hnext Hr.
  { cbn [spine length] in Hl. assert (d = 1%nat) as -> by lia. cbn. split; [done|]. exists e0. done. }
  cbn [shows] in Hsh. destruct Hsh as (-> & e & He & Hp & Hs & Hrest). cbn [ids] in Hnd, Hk.
  apply NoDup_cons in Hnd as [Hi Hnd]. apply NoDup_app in Hnd as (Hnd1 & Hdis & Hnd2). rewrite list_elem_of_In, in_app_iff in Hi.
  cbn [add]. destruct rest as [|i2 s2 r2].
  - cbn [shows] in Hrest. cbn [spine length] in *. destruct (Nat.eqb_spec d 1) as [->|Hn].
    + (* a sibling of [i] *)
      unfold new_parent in Hpar. cbn [Nat.eqb] in Hpar.
      assert (es' !! i = Some (set_next e (Some k))) as Hei.
      { rewrite (Hr i) by (by left). cbn. rewrite decide_True by done. by rewrite He. }
      cbn [shows]. split; [done|]. exists (set_next e (Some k)). split_and!; try done.
      * apply (shows_frame es); [|done]. intros j Hj. rewrite (Hr j) by (right; apply in_app_iff; by left). cbn.
        rewrite decide_False; [done|]. intros ->. tauto.
      * cbn. by exists e0.
    + (* below [i] *)
      assert (forall j, In j (ids subs) -> j <> i) as Hji by (intros j Hj ->; tauto).
      destruct subs as [|i3 s3 r3].
      * cbn [spine length] in Hl. assert (d = 2%nat) as -> by lia. cbn [shows] in Hs.
        assert (es' !! i = Some (set_sub e (Some k))) as Hei.
        { rewrite (Hr i) by (by left). cbn. rewrite decide_True by done. by rewrite He. }
        cbn. split; [done|]. exists (set_sub e (Some k)). split_and!; try done.
        exists e0. cbn in Hpar. split_and!; done.
      * assert (es' !! i = Some e) as Hei.
        { rewrite (Hr i) by (by left). destruct d as [|[|d]]; [lia|lia|].
          change (spine (Tree i (Tree i3 s3 r3) Nil)) with (i :: spine (Tree i3 s3 r3)). 
          rewrite (below_lookup i _ d), (below_parent i _ d). destruct (spine (Tree i3 s3 r3) !! d) as [b|] eqn:Eb.
          - rewrite decide_False; [done|]. intros ->. apply (Hji b); [|done]. apply spine_ids, list_elem_of_In. by eapply list_elem_of_lookup_2.
          - destruct d as [|d].
            + exfalso. destruct (spine (Tree i3 s3 r3)) eqn:E3; [by apply spine_nil in E3|done].
            + destruct (spine (Tree i3 s3 r3) !! d) as [q|] eqn:Eq; [|done]. rewrite decide_False; [done|]. intros ->.
              apply (Hji q); [|done]. apply spine_ids, list_elem_of_In. by eapply list_elem_of_lookup_2. }
        cbn [shows]. split; [done|]. exists e. split_and!; try done.
        assert (me_sub e = Some i3) as Es by (cbn [shows] in Hs; tauto). rewrite Es in *. apply (IHs (d - 1)%nat (Some i) (Some i3)); try done.
        -- intros Hin. apply Hk. right. apply in_app_iff. by left.
        -- lia.
        -- lia.
        -- rewrite Hpar. unfold new_parent. destruct d as [|[|d]]; [lia|lia|]. change (spine (Tree i (Tree i3 s3 r3) Nil)) with (i :: spine (Tree i3 s3 r3)). rewrite below_parent2. destruct d as [|d]; [done|]. cbn [Nat.eqb]. by replace (S (S (S d)) - 1 - 2)%nat with d by lia.
        -- intros j Hj. rewrite (Hr j) by (right; apply in_app_iff; by left). destruct d as [|[|d]]; [lia|lia|].
           change (spine (Tree i (Tree i3 s3 r3) Nil)) with (i :: spine (Tree i3 s3 r3)). 
          rewrite (below_lookup i _ d), (below_parent i _ d). replace (S (S d) - 1 - 1)%nat with d by lia.
           destruct (spine (Tree i3 s3 r3) !! d) as [b|] eqn:Eb; [done|].
           destruct d as [|d]; [cbn; rewrite decide_False; [done|]; by apply Hji|].
           by replace (S (S (S d)) - 1 - 2)%nat with d by lia.
  - (* in the rest of the forest *)
    change (spine (Tree i subs (Tree i2 s2 r2))) with (spine (Tree i2 s2 r2)) in *.
    assert (forall j, In j (spine (Tree i2 s2 r2)) -> In j (ids (Tree i2 s2 r2))) as Hsp by (intros j; apply spine_ids).
    cbn [shows]. split; [done|]. exists e. split.
    { rewrite (relinked_frame es es' d k parent (Tree i subs (Tree i2 s2 r2)) (Tree i Nil Nil) Hr); [done| | |by left].
      - intros j [->|[]]. by left.
      - intros j [->|[]] Hj. apply Hi. right. by apply Hsp. }
    split_and!; try done.
    + apply (shows_frame es); [|done]. apply (relinked_frame es es' d k parent (Tree i subs (Tree i2 s2 r2)) subs Hr).
      * intros j Hj. right. apply in_app_iff. by left.
      * intros j Hj Hj2. apply (Hdis j); apply list_elem_of_In; [done|by apply Hsp].
    + assert (me_next e = Some i2) as En by (cbn [shows] in Hrest; tauto). rewrite En in *.
      apply (IHr d parent (Some i2)); try done.
      * intros Hin. apply Hk. right. apply in_app_iff. by right.
      * intros j Hj. rewrite (Hr j) by (right; apply in_app_iff; by right). done.
Qed.

(** ** [link_entry] *)
Lemma preorder_ids d f : map snd (preorder d f) = ids f.
Proof. revert d. induction f as [|i subs IHs rest IHr]; intros d; [done|]. cbn. by rewrite map_app, IHs, IHr. Qed.

Lemma clear_below_spec depth last : length last = (MAX_MENU_NESTING + 2)%nat -> (depth <= MAX_MENU_NESTING)%nat ->
  exists last', clear_below depth last = Ok last' /\ length last' = length last /\
    forall j, last' !! j = if decide (depth < j <= MAX_MENU_NESTING)%nat then Some None else last !! j.
Proof.
  intros Hlen Hd. unfold clear_below.
  destruct (res_post_total (fun l' => length l' = length last /\
      (forall j, (depth < j < S depth + (MAX_MENU_NESTING - depth))%nat -> l' !! j = Some None) /\
      (forall j, ~ (depth < j < S depth + (MAX_MENU_NESTING - depth))%nat -> l' !! j = last !! j))
    (for_range (MAX_MENU_NESTING - depth) (S depth) (fun d last => wr last d None) last)) as (l' & -> & Hl & Hj1 & Hj2).
  - apply (for_range_spec (fun k l' => length l' = length last /\ (forall j, (depth < j < k)%nat -> l' !! j = Some None) /\
      (forall j, ~ (depth < j < k)%nat -> l' !! j = last !! j))).
    + intros k l' Hk (Hl & Hj1 & Hj2). rewrite wr_lt by lia. cbn. rewrite length_insert. split; [done|].
      split; intros j Hj; destruct (decide (j = k)) as [->|Hne]; rewrite ?list_lookup_insert_ne by congruence; try lia.
      * apply list_lookup_insert_eq. lia.
      * apply Hj1. lia.
      * apply Hj2. lia.
    + split_and!; [done|lia|done].
  - exists l'. split; [done|]. split; [done|]. intros j. destruct (decide _); [apply Hj1|apply Hj2]; lia.
Qed.

Record linked (cap : nat) (t : tree) (f : forest) (items : list item) : Prop := {
  lk_cap : length (t_entries t) = cap;
  lk_used : t_used t = length items;
  lk_shows : shows (t_entries t) None (t_root t) f;
  lk_order : preorder 1 f = zip (map it_depth items) (seq 0 (length items));
  lk_last : length (t_last t) = (MAX_MENU_NESTING + 2)%nat /\ t_last t !! 0%nat = Some None /\
            forall d, (1 <= d <= MAX_MENU_NESTING)%nat -> t_last t !! d = Some (spine f !! (d - 1)%nat);
  lk_data : forall i it, items !! i = Some it -> exists e, t_entries t !! i = Some e /\
            me_name e = it_name it /\ me_body e = it_body it /\ me_expanded e = it_expanded it;
  lk_fresh : forall i, (length items <= i < cap)%nat -> t_entries t !! i = Some blank_entry;
}.

Lemma linked_ids cap t f items : linked cap t f items -> ids f = seq 0 (length items).
Proof.
  intros Hl. rewrite <- (preorder_ids 1), (lk_order _ _ _ _ Hl). rewrite <- (length_map it_depth items).
  generalize (map it_depth items). intros ds. change (map snd ?x) with (x.*2). apply snd_zip. by rewrite length_seq.
Qed.

(** The entries after a new one was linked in. *)
Definition link_es (es : list menu_entry) (k : nat) (e0 : menu_entry) (parent before : option nat) : list menu_entry :=
  let es1 := <[k := e0]> es in
  match before with
  | Some b => match es1 !! b with Some be => <[b := set_next be (Some k)]> es1 | None => es1 end
  | None => match parent with
            | Some q => match es1 !! q with Some pe => <[q := set_sub pe (Some k)]> es1 | None => es1 end
            | None => es1
            end
  end.

Lemma link_es_lookup es k e0 parent before j :
  (k < length es)%nat -> before <> Some k -> parent <> Some k ->
  (forall b, before = Some b -> is_Some (es !! b)) -> (forall q, parent = Some q -> is_Some (es !! q)) ->
  link_es es k e0 parent before !! j =
    if decide (j = k) then Some e0
    else match before with
         | Some b => if decide (j = b) then (fun e => set_next e (Some k)) <$> es !! j else es !! j
         | None => match parent with
                   | Some q => if decide (j = q) then (fun e => set_sub e (Some k)) <$> es !! j else es !! j
                   | None => es !! j
                   end
         end.
Proof.
  intros Hk Hb Hq Hsb Hsq. unfold link_es.
  assert (forall g x, x <> k -> is_Some (es !! x) -> forall j,
    (match <[k := e0]> es !! x with Some xe => <[x := g xe]> (<[k := e0]> es) | None => <[k := e0]> es end) !! j =
    if decide (j = k) then Some e0 else if decide (j = x) then g <$> es !! j else es !! j) as Hgen.
  { intros g x Hx [xe Hxe] j'. rewrite list_lookup_insert_ne by congruence. rewrite Hxe.
    destruct (decide (j' = k)) as [->|].
    - rewrite list_lookup_insert_ne by congruence. by apply list_lookup_insert_eq.
    - destruct (decide (j' = x)) as [->|].
      + rewrite list_lookup_insert_eq by (rewrite length_insert; by eapply lookup_lt_Some). by rewrite Hxe.
      + rewrite !list_lookup_insert_ne by congruence. done. }
  destruct before as [b|]; [apply (Hgen (fun e => set_next e (Some k))); [congruence|by apply Hsb]|].
  destruct parent as [q|]; [apply (Hgen (fun e => set_sub e (Some k))); [congruence|by apply Hsq]|].
  destruct (decide (j = k)) as [->|]; [by apply list_lookup_insert_eq|by rewrite list_lookup_insert_ne].
Qed.

Lemma length_link_es es k e0 parent before : length (link_es es k e0 parent before) = length es.
Proof. unfold link_es. repeat case_match; rewrite ?length_insert; done. Qed.

Section Link.
Variables (cap : nat) (t : tree) (f : forest) (items : list item) (it : item).
Hypothesis Hl : linked cap t f items.
Hypothesis Hroom : (length items < cap)%nat.
Hypothesis Hdepth : (1 <= it_depth it <= MAX_MENU_NESTING)%nat.
Hypothesis Hnest : (it_depth it - 1 <= length (spine f))%nat.

Let k := length items.
Let d := it_depth it.
Let parent := new_parent d None f.
Let before := spine f !! (d - 1)%nat.
Let e0 := MkMenu (it_name it) (it_body it) parent None None (it_expanded it).
Let es' := link_es (t_entries t) k e0 parent before.

Lemma spine_old d1 j : spine f !! d1 = Some j -> (j < k)%nat /\ In j (ids f).
Proof.
  intros Hj. assert (In j (ids f)) as Hin by (apply spine_ids, list_elem_of_In; by eapply list_elem_of_lookup_2).
  split; [|done]. rewrite (linked_ids _ _ _ _ Hl) in Hin. apply in_seq in Hin. unfold k. lia.
Qed.

Lemma parent_old q : parent = Some q -> (q < k)%nat /\ d <> 1%nat /\ spine f !! (d - 2)%nat = Some q.
Proof.
  unfold parent, new_parent. destruct (Nat.eqb_spec d 1) as [|Hne]; [done|]. intros Hq. split_and!; try done. by eapply spine_old.
Qed.

(** The parent's record. *)
Lemma parent_entry q : parent = Some q ->
  exists pe, t_entries t !! q = Some pe /\ (me_sub pe = None <-> before = None).
Proof.
  intros Hq. destruct (parent_old q Hq) as (_ & Hd1 & Hs).
  destruct (shows_spine _ _ _ _ _ _ (lk_shows _ _ _ _ Hl) Hs) as (pe & He & _ & _ & Hsub). exists pe. split; [done|].
  unfold before. by replace (d - 1)%nat with (S (d - 2)) by (unfold d in *; lia).
Qed.

Lemma before_entry b : before = Some b ->
  exists be, t_entries t !! b = Some be /\ me_parent be = parent.
Proof.
  intros Hb. destruct (shows_spine _ _ _ _ _ _ (lk_shows _ _ _ _ Hl) Hb) as (be & He & Hp & _). exists be. split; [done|].
  rewrite Hp. unfold parent, new_parent. destruct (Nat.eqb_spec d 1) as [->|Hne]; [done|].
  by replace (d - 1)%nat with (S (d - 2)) by (unfold d in *; lia).
Qed.

Lemma es'_lookup j : es' !! j =
    if decide (j = k) then Some e0
    else match before with
         | Some b => if decide (j = b) then (fun e => set_next e (Some k)) <$> t_entries t !! j else t_entries t !! j
         | None => match parent with
                   | Some q => if decide (j = q) then (fun e => set_sub e (Some k)) <$> t_entries t !! j else t_entries t !! j
                   | None => t_entries t !! j
                   end
         end.
Proof.
  apply link_es_lookup.
  - rewrite (lk_cap _ _ _ _ Hl). done.
  - intros E. apply spine_old in E. lia.
  - intros E. apply parent_old in E. lia.
  - intros b Hb. destruct (before_entry b Hb) as (be & -> & _). by eexists.
  - intros q Hq. destruct (parent_entry q Hq) as (pe & -> & _). by eexists.
Qed.

Lemma link_shows : shows es' None (match f with Nil => Some k | _ => t_root t end) (add d k f).
Proof.
  pose proof (linked_ids _ _ _ _ Hl) as Hids.
  apply (shows_add (t_entries t) es' d k e0); try done; [apply (lk_shows _ _ _ _ Hl)|..].
  - rewrite Hids. apply NoDup_seq.
  - rewrite Hids, in_seq. unfold k. lia.
  - apply Hdepth.
  - rewrite es'_lookup. by rewrite decide_True.
  - intros j Hj. rewrite es'_lookup. rewrite Hids, in_seq in Hj. rewrite decide_False by (unfold k; lia).
    fold before. unfold parent, new_parent. by destruct before.
Qed.

Lemma link_linked last :
  length last = (MAX_MENU_NESTING + 2)%nat ->
  (forall j, last !! j = if decide (d < j <= MAX_MENU_NESTING)%nat then Some None
                         else if decide (j = d) then Some (Some k) else t_last t !! j) ->
  linked cap (MkTree es' (S k) last (match f with Nil => Some k | _ => t_root t end)) (add d k f) (items ++ [it]).
Proof.
  intros Hlen Hlast. split; cbn [t_entries t_used t_last t_root].
  - unfold es'. rewrite length_link_es. apply (lk_cap _ _ _ _ Hl).
  - rewrite length_app. cbn. unfold k. lia.
  - apply link_shows.
  - rewrite add_preorder by (apply Hdepth || done). rewrite (lk_order _ _ _ _ Hl), map_app, length_app. cbn [length map].
    rewrite Nat.add_1_r, seq_S, zip_with_app by (by rewrite length_map, length_seq). cbn. unfold d, k. do 3 f_equal. lia.
  - split; [done|]. destruct (lk_last _ _ _ _ Hl) as (_ & H0 & Hs). split.
    + rewrite Hlast, !decide_False by (unfold d in *; lia). done.
    + intros j Hj. rewrite Hlast, add_spine by (apply Hdepth || done).
      assert (length (take (d - 1) (spine f)) = (d - 1)%nat) as Ht by (rewrite length_take; unfold d; lia).
      destruct (decide (d < j <= MAX_MENU_NESTING)%nat).
      * f_equal. symmetry. apply lookup_ge_None. rewrite length_app, Ht. cbn. lia.
      * destruct (decide (j = d)) as [->|].
        -- rewrite lookup_app_r by lia. rewrite Ht. by replace (d - 1 - (d - 1))%nat with 0%nat by lia.
        -- rewrite (Hs j Hj). rewrite lookup_app_l by lia. by rewrite lookup_take_lt by lia.
  - intros i it1 Hi. apply lookup_snoc_Some in Hi as [[Hi Hit]|[Ei <-]].
    + destruct (lk_data _ _ _ _ Hl i it1 Hit) as (e & He & Hn & Hb & Hx). rewrite es'_lookup, decide_False by (unfold k; lia). rewrite He.
      destruct before as [b|]; [destruct (decide (i = b)); by eexists|]. destruct parent as [q|]; [destruct (decide (i = q)); by eexists|by eexists].
    + rewrite Ei, es'_lookup, decide_True by done. by exists e0.
  - intros i Hi. rewrite length_app in Hi. cbn in Hi. rewrite es'_lookup, decide_False by (unfold k; lia).
    assert (t_entries t !! i = Some blank_entry) as Hf by (apply (lk_fresh _ _ _ _ Hl); lia). rewrite Hf.
    destruct before as [b|] eqn:Eb.
    + rewrite decide_False; [done|]. intros ->. apply spine_old in Eb. unfold k in Eb. lia.
    + destruct parent as [q|] eqn:Eq; [|done]. rewrite decide_False; [done|]. intros ->. apply parent_old in Eq. unfold k in Eq. lia.
Qed.

Lemma link_entry_spec : exists t', link_entry t it = Ok t' /\ linked cap t' (add d k f) (items ++ [it]).
Proof.
  destruct (lk_last _ _ _ _ Hl) as (Hlen & H0 & Hs). unfold link_entry. fold d.
  rewrite (lk_used _ _ _ _ Hl). fold k. rewrite (proj2 (Nat.eqb_neq d 0)) by (unfold d; lia).
  assert (rd (t_last t) (d - 1) = Ok parent) as ->.
  { apply rd_lookup. unfold parent, new_parent. destruct (Nat.eqb_spec d 1) as [->|]; [done|].
    rewrite Hs by (unfold d in *; lia). by replace (d - 1 - 1)%nat with (d - 2)%nat by lia. }
  cbn [rbind]. rewrite (rd_lookup _ _ blank_entry) by (apply (lk_fresh _ _ _ _ Hl); unfold k; lia). cbn [rbind blank_entry me_sub me_next].
  rewrite wr_lt by (rewrite (lk_cap _ _ _ _ Hl); done). cbn [rbind]. fold e0. set (es1 := <[k:=e0]> (t_entries t)).
  assert (forall j, (j < k)%nat -> es1 !! j = t_entries t !! j) as H1 by (intros j Hj; unfold es1; apply list_lookup_insert_ne; lia).
  assert (length es1 = cap) as Hl1 by (unfold es1; rewrite length_insert; apply (lk_cap _ _ _ _ Hl)).
  assert (rd (t_last t) d = Ok before) as Hrb by (apply rd_lookup; by rewrite Hs).
  assert (exists last2, (let! last := wr (t_last t) d (Some k) in clear_below d last) = Ok last2 /\ length last2 = (MAX_MENU_NESTING + 2)%nat /\
    forall j, last2 !! j = if decide (d < j <= MAX_MENU_NESTING)%nat then Some None
                           else if decide (j = d) then Some (Some k) else t_last t !! j) as (last2 & Hlast & Hlen2 & Hj2).
  { assert (d < length (t_last t))%nat as Hdl by (rewrite Hlen; unfold d; lia). rewrite wr_lt by done. cbn [rbind].
    destruct (clear_below_spec d (<[d:=Some k]> (t_last t))) as (l2 & -> & E1 & E2); [by rewrite length_insert|unfold d; lia|].
    exists l2. rewrite length_insert in E1. split; [done|]. split; [lia|]. intros j. rewrite E2. destruct (decide _); [done|].
    destruct (decide (j = d)) as [->|]; [by rewrite list_lookup_insert_eq|by rewrite list_lookup_insert_ne]. }
  exists (MkTree es' (S k) last2 (match f with Nil => Some k | _ => t_root t end)). split; [|by apply link_linked].
  pose proof (lk_shows _ _ _ _ Hl) as Hsh. unfold es', link_es. fold es1.
  assert (match f with Nil => t_root t = None /\ d = 1%nat | _ => is_Some (t_root t) end) as Hroot.
  { destruct f as [|i s r]; cbn in Hsh; [split; [done|]; cbn in Hnest; unfold d; lia|]. destruct Hsh as [-> _]. by eexists. }
  destruct before as [b|] eqn:Eb.
  - destruct (before_entry b Eb) as (be & Hbe & Hpb). assert (b < k)%nat as Hbk by (by eapply spine_old).
    assert (match parent with None => Ok es1 | Some q => let! pe := rd es1 q in match me_sub pe with None => wr es1 q (set_sub pe (Some k)) | Some _ => Ok es1 end end
      = Ok es1) as ->.
    { destruct parent as [q|] eqn:Eq; [|done]. destruct (parent_entry q Eq) as (pe & Hpe & Hsub).
      assert (q < k)%nat by (by apply parent_old). rewrite (rd_lookup _ _ pe) by (by rewrite H1). cbn [rbind].
      destruct (me_sub pe) eqn:Es; [done|]. destruct Hsub as [Hsub _]. rewrite Eb in Hsub. by specialize (Hsub eq_refl). }
    cbn [rbind]. rewrite Hrb. cbn [rbind]. rewrite (rd_lookup es1 b be) by (by rewrite H1). cbn [rbind]. rewrite decide_True by done. cbn [rbind].
    rewrite (rd_lookup es1 b be) by (by rewrite H1). cbn [rbind]. rewrite wr_lt by lia. cbn [rbind].
    destruct (wr (t_last t) d (Some k)) as [l1| | |]; try done. cbn [rbind] in *. rewrite Hlast. cbn [rbind].
    rewrite (H1 b Hbk), Hbe. by destruct f; [destruct Hroot; unfold before in Eb|].
  - assert (match parent with None => Ok es1 | Some q => let! pe := rd es1 q in match me_sub pe with None => wr es1 q (set_sub pe (Some k)) | Some _ => Ok es1 end end
      = Ok (match parent with Some q => match es1 !! q with Some pe => <[q := set_sub pe (Some k)]> es1 | None => es1 end | None => es1 end)) as ->.
    { destruct parent as [q|] eqn:Eq; [|done]. destruct (parent_entry q Eq) as (pe & Hpe & Hsub).
      assert (q < k)%nat by (by apply parent_old). rewrite (rd_lookup _ _ pe) by (by rewrite H1). cbn [rbind].
      rewrite H1, Hpe by done. rewrite (proj2 Hsub Eb). rewrite wr_lt by (rewrite Hl1; unfold k in *; lia). done. }
    cbn [rbind]. rewrite Hrb. cbn [rbind].
    destruct (wr (t_last t) d (Some k)) as [l1| | |]; try done. cbn [rbind] in *. rewrite Hlast. cbn [rbind]. do 2 f_equal.
    destruct f as [|i s r]; [destruct Hroot as [-> ->]; done|]. by destruct Hroot as [r0 ->].
Qed.
End Link.

(** ** Parsing *)
Fixpoint slashes (l : list Z) : nat :=
  match l with
  | c :: l => if c =? 47 then S (slashes l) else 0%nat
  | [] => 0%nat
  end.

(** The parts of a name line. *)
Definition after_slashes (h : list Z) : list Z := drop (slashes h) h.
Definition expanded_of (h : list Z) : bool := bool_decide (head (after_slashes h) = Some 43).
Definition name_of (h : list Z) : list Z :=
  skip_blanks (if expanded_of h then drop 1 (after_slashes h) else after_slashes h).

Definition body_of (b : list (list Z)) : list Z := match b with [] => [] | l :: ls => join l ls end.

Lemma unlines_body b : b <> [] -> unlines b = body_of b ++ [SEPARATOR].
Proof.
  intros Hb. destruct b as [|l b]; [done|]. clear Hb. revert l. induction b as [|l2 b IH]; intros l.
  - unfold unlines, body_of, join. cbn [map concat]. by rewrite !app_nil_r.
  - change (unlines (l :: l2 :: b)) with ((l ++ [SEPARATOR]) ++ unlines (l2 :: b)). rewrite IH. unfold body_of, join.
    cbn [map concat]. rewrite <- !app_assoc. done.
Qed.

Lemma slashes_split h : h = replicate (slashes h) 47 ++ after_slashes h /\ head (after_slashes h) <> Some 47.
Proof.
  unfold after_slashes. induction h as [|c h [IH1 IH2]]; [done|]. cbn [slashes]. destruct (Z.eqb_spec c 47) as [->|Hc].
  - cbn. split; [by rewrite <- IH1|done].
  - cbn. split; [done|congruence].
Qed.

Lemma name_suffix h : exists k, h = k ++ name_of h.
Proof.
  destruct (slashes_split h) as [E _]. unfold name_of. set (a := after_slashes h) in *.
  assert (exists k, a = k ++ (if expanded_of h then drop 1 a else a)) as [k1 E1]
    by (destruct (expanded_of h); [exists (take 1 a); by rewrite take_drop|by exists []]).
  set (a2 := if expanded_of h then drop 1 a else a) in *. destruct (scan_blanks a2 []) as (b & _ & Eb & _).
  exists (replicate (slashes h) 47 ++ k1 ++ b). rewrite <- !app_assoc, <- Eb, <- E1. exact E.
Qed.

Lemma scan_at stop buf p x d t : drop p buf = x ++ d :: t -> Forall (fun c => stop c = false) x -> stop d = true ->
  scan stop buf p = Ok (p + length x)%nat.
Proof. intros Hd Hx Hs. unfold scan. by rewrite Hd, scan_from_exact. Qed.

Lemma rd_at (buf : list Z) p d t : drop p buf = d :: t -> rd buf p = Ok d.
Proof. intros Hd. apply rd_lookup. rewrite <- (Nat.add_0_r p), <- lookup_drop, Hd. done. Qed.

(** The slashes of the line that starts at [p]. *)
Lemma scan_slashes buf p h t : drop p buf = h ++ SEPARATOR :: t ->
  scan (fun c => negb (c =? 47)) buf p = Ok (p + slashes h)%nat.
Proof.
  intros Hd. destruct (slashes_split h) as [E Hh].
  assert (exists d t', drop p buf = replicate (slashes h) 47 ++ d :: t' /\ d <> 47) as (d & t' & Hd' & Hne).
  { rewrite Hd. replace (h ++ SEPARATOR :: t) with ((replicate (slashes h) 47 ++ after_slashes h) ++ SEPARATOR :: t) by (by rewrite <- E). rewrite <- app_assoc. destruct (after_slashes h) as [|d r]; [by exists SEPARATOR, t|].
    exists d, (r ++ SEPARATOR :: t). split; [done|]. by intros ->. }
  rewrite (scan_at _ _ _ _ _ _ Hd'); [by rewrite length_replicate| |].
  - apply Forall_replicate. done.
  - by rewrite (proj2 (Z.eqb_neq _ _) Hne).
Qed.

Lemma parse_name_spec pre h t :
  plain h ->
  exists name, parse_name (pre ++ h ++ SEPARATOR :: t) (length pre + slashes h) =
    Ok (expanded_of h, name, (length pre + S (length h))%nat, pre ++ h ++ 0 :: t) /\
    (name + length (name_of h) = length pre + length h)%nat.
Proof.
  intros Hpl. set (buf := pre ++ h ++ SEPARATOR :: t). destruct (slashes_split h) as [E Hh].
  set (a := after_slashes h) in *. set (p := (length pre + slashes h)%nat).
  assert (drop p buf = a ++ SEPARATOR :: t) as Hp.
  { unfold buf, p. rewrite <- drop_drop, drop_app_length. replace (h ++ SEPARATOR :: t) with ((replicate (slashes h) 47 ++ after_slashes h) ++ SEPARATOR :: t) by (f_equal; symmetry; exact E). rewrite <- app_assoc.
    rewrite drop_app_length' by (by rewrite length_replicate). done. }
  assert (length h = slashes h + length a)%nat as Hlh by (apply (f_equal length) in E; rewrite length_app, length_replicate in E; exact E).
  unfold parse_name.
  assert (exists c, rd buf p = Ok c /\ (c =? 43) = expanded_of h) as (c & -> & Hc).
  { unfold expanded_of. fold a. destruct a as [|c a']; cbn [app] in Hp; rewrite (rd_at _ _ _ _ Hp).
    - exists SEPARATOR. done.
    - exists c. split; [done|]. cbn. apply eq_true_iff_eq. rewrite Z.eqb_eq, bool_decide_eq_true. split; congruence. }
  cbn [rbind]. rewrite Hc.
  set (p2 := if expanded_of h then S p else p). set (a2 := if expanded_of h then drop 1 a else a).
  assert (drop p2 buf = a2 ++ SEPARATOR :: t /\ (p2 + length a2 = p + length a)%nat) as [Hp2 Hl2].
  { unfold p2, a2. destruct (expanded_of h) eqn:Ex; [|done]. unfold expanded_of in Ex. apply bool_decide_eq_true in Ex. fold a in Ex.
    destruct a as [|c' a']; [done|]. cbn in *. rewrite drop_0. split; [|lia].
    replace (S p) with (p + 1)%nat by lia. rewrite <- drop_drop, Hp. done. }
  destruct (scan_blanks a2 []) as (b & _ & Eb & Hb).
  assert (Forall (fun c => negb (blank c) = false) b) as Hb' by (eapply Forall_impl; [exact Hb|]; by intros x ->).
  assert (exists d t', drop p2 buf = b ++ d :: t' /\ negb (blank d) = true) as (d & t' & Hd & Hnb).
  { rewrite Hp2, Eb, <- app_assoc. pose proof (skip_blanks_head a2) as Hs.
    destruct (skip_blanks a2) as [|d r]; [by exists SEPARATOR, t|]. exists d, (r ++ SEPARATOR :: t). split; [done|]. by rewrite Hs. }
  rewrite (scan_at _ _ _ _ _ _ Hd Hb' Hnb). cbn [rbind].
  assert (drop (p2 + length b) buf = name_of h ++ SEPARATOR :: t) as Hn.
  { rewrite <- drop_drop, Hp2, Eb, <- app_assoc, drop_app_length. done. }
  assert (Forall (fun c => line_end c = false) (name_of h)) as Hne.
  { apply plain_line_end. unfold name_of. fold a a2. eapply (Forall_app _ b). rewrite <- Eb. unfold a2.
    assert (plain a) as Ha by (rewrite E in Hpl; by apply Forall_app in Hpl as [_ ?]). destruct (expanded_of h); [by apply Forall_drop|done]. }
  rewrite (scan_at _ _ _ _ _ _ Hn Hne) by done. cbn [rbind].
  assert (p2 + length b + length (name_of h) = length pre + length h)%nat as Hend.
  { unfold name_of. fold a a2. apply (f_equal length) in Eb. rewrite length_app in Eb. unfold p in Hl2. lia. }
  rewrite Hend.
  assert (drop (length pre + length h) buf = SEPARATOR :: t) as Hsep.
  { unfold buf. by rewrite <- drop_drop, drop_app_length, drop_app_length. }
  rewrite (rd_at _ _ _ _ Hsep). cbn [rbind]. change (is_sep SEPARATOR) with true.
  assert (wr buf (length pre + length h) 0 = Ok (pre ++ h ++ 0 :: t)) as ->.
  { unfold buf. rewrite app_assoc, <- length_app, write_over by (cbn; lia). cbn [drop]. by rewrite <- !app_assoc. }
  cbn [rbind]. exists (p2 + length b)%nat. split; [|done]. do 3 f_equal. lia.
Qed.

(** *** Finding the next entry *)
Definition entry_line (l : list Z) : Prop := head l = Some 47.

Lemma entry_from_line b l s n : plain l -> (b = true -> ~ entry_line l) -> entry_from true s = Ok n ->
  entry_from b (l ++ SEPARATOR :: s) = Ok (length l + S n)%nat.
Proof.
  intros Hl Hb Hn. revert b Hb. induction Hl as [|c l [Hc Hs] Hl IH]; intros b Hb; cbn [app entry_from length].
  - change (SEPARATOR =? 0) with false. change (SEPARATOR =? 47) with false. change (is_sep SEPARATOR) with true. cbn [andb]. by rewrite Hn.
  - rewrite (proj2 (Z.eqb_neq c 0)) by lia. rewrite Hs.
    assert ((c =? 47) && b = false) as ->.
    { destruct b; [|by rewrite andb_false_r]. rewrite andb_true_r. apply Z.eqb_neq. intros ->. by apply (Hb eq_refl). }
    by rewrite IH.
Qed.

Lemma entry_from_lines b ls d t : Forall plain ls -> Forall (fun l => ~ entry_line l) ls ->
  d = 0 \/ d = 47 /\ (b = true \/ ls <> []) -> entry_from b (unlines ls ++ d :: t) = Ok (length (unlines ls)).
Proof.
  intros Hpl. revert b. induction Hpl as [|l ls Hl Hpl IH]; intros b Hne Hd.
  - cbn. destruct Hd as [->|[-> [->|?]]]; done.
  - apply Forall_cons in Hne as [Hl1 Hne]. change (unlines (l :: ls)) with ((l ++ [SEPARATOR]) ++ unlines ls).
    rewrite <- !app_assoc. cbn [app]. rewrite (entry_from_line b l _ (length (unlines ls))); [|done|done|].
    + f_equal. rewrite !length_app. cbn [length]. lia.
    + apply IH; [done|]. destruct Hd as [->|[-> _]]; auto.
Qed.

Lemma count_line b l s n : plain l -> count_entries true s = Ok n ->
  count_entries b (l ++ SEPARATOR :: s) = Ok (if b && bool_decide (entry_line l) then S n else n).
Proof.
  intros Hl Hn. revert b. induction Hl as [|c l [Hc Hs] Hl IH]; intros b; cbn [app count_entries].
  - change (SEPARATOR =? 0) with false. change (SEPARATOR =? 47) with false. change (is_sep SEPARATOR) with true. cbn [andb].
    rewrite Hn. cbn. by rewrite andb_false_r.
  - rewrite (proj2 (Z.eqb_neq c 0)) by lia. rewrite Hs, IH. cbn [rbind andb]. f_equal.
    replace (bool_decide (entry_line (c :: l))) with (c =? 47); [by rewrite andb_comm|].
    apply eq_true_iff_eq. unfold entry_line. cbn. rewrite Z.eqb_eq, bool_decide_eq_true. split; congruence.
Qed.

Lemma count_lines ls t : Forall plain ls ->
  count_entries true (unlines ls ++ 0 :: t) = Ok (length (filter entry_line ls)).
Proof.
  induction 1 as [|l ls Hl Hls IH]; [done|]. change (unlines (l :: ls)) with ((l ++ [SEPARATOR]) ++ unlines ls).
  rewrite <- !app_assoc. cbn [app]. rewrite (count_line true l _ _ Hl IH). cbn [andb]. rewrite filter_cons. by repeat case_decide; case_bool_decide.
Qed.

Lemma parse_body_spec q b d t :
  last q = Some 0 -> Forall plain b -> Forall (fun l => ~ entry_line l) b -> d = 0 \/ d = 47 ->
  parse_body (q ++ unlines b ++ d :: t) (length q) =
    Ok (if decide (b = [] /\ d = 47) then None else Some (length q),
        (length q + length (unlines b))%nat,
        q ++ (if decide (b = []) then [] else body_of b ++ [0]) ++ d :: t).
Proof.
  intros Hlast Hpl Hne Hd. set (buf := q ++ unlines b ++ d :: t). unfold parse_body.
  assert (drop (length q) buf = unlines b ++ d :: t) as Hq by (unfold buf; apply drop_app_length).
  assert (exists c t', unlines b ++ d :: t = c :: t' /\ (c = 47 <-> b = [] /\ d = 47)) as (c & t' & Ec & Hc).
  { destruct b as [|l b]; [exists d, t; split; [done|]; tauto|]. apply Forall_cons in Hne as [Hl _].
    change (unlines (l :: b)) with ((l ++ [SEPARATOR]) ++ unlines b). rewrite <- !app_assoc. destruct l as [|c l]; cbn [app].
    - exists SEPARATOR. eexists. split; [done|]. split; [done|]. by intros [? _].
    - exists c. eexists. split; [done|]. split; [|by intros [? _]]. intros ->. by destruct Hl. }
  rewrite (rd_at _ _ c t') by (by rewrite Hq). cbn [rbind]. destruct (Z.eqb_spec c 47) as [E47|N47].
  { destruct Hc as [Hc _]. destruct (Hc E47) as [-> ->]. rewrite decide_True by done. rewrite decide_True by done. cbn. by rewrite Nat.add_0_r. }
  rewrite (decide_False (P := b = [] /\ d = 47)) by tauto.
  assert (rd buf (length q - 1) = Ok 0) as ->.
  { apply rd_lookup. unfold buf. apply lookup_app_l_Some. rewrite last_lookup in Hlast.
    by replace (length q - 1)%nat with (pred (length q)) by lia. }
  cbn [rbind]. change (is_sep 0) with false. rewrite Hq.
  rewrite (entry_from_lines false b d t) by (done || (destruct Hd as [->| ->]; [by left|right; split; [done|right; tauto]])). cbn [rbind].
  destruct (decide (b = [])) as [->|Hb].
  - cbn [unlines map concat length]. rewrite Nat.add_0_r.
    assert (exists x, rd buf (length q - 1) = Ok x) as [x ->].
    { destruct (lookup_lt_is_Some_2 buf (length q - 1)) as [x Hx]; [unfold buf; rewrite !length_app; cbn; lia|].
      exists x. by apply rd_lookup. }
    cbn [rbind]. rewrite (proj2 (Nat.ltb_ge _ _)) by lia. cbn [andb]. done.
  - assert (0 < length (unlines b))%nat as Hlen by (rewrite unlines_body, length_app by done; cbn; lia).
    assert (buf = (q ++ body_of b) ++ SEPARATOR :: d :: t) as Ebuf.
    { unfold buf. rewrite unlines_body by done. by rewrite <- !app_assoc. }
    assert (length q + length (unlines b) - 1 = length (q ++ body_of b))%nat as Epos.
    { rewrite unlines_body by done. rewrite !length_app. cbn. lia. }
    rewrite Epos. rewrite (rd_lookup buf _ SEPARATOR) by (rewrite Ebuf; by apply list_lookup_middle). cbn [rbind].
    rewrite (proj2 (Nat.ltb_lt _ _)) by lia. change (is_sep SEPARATOR) with true. cbn [andb].
    rewrite Ebuf, write_over by (cbn; lia). cbn [rbind drop]. do 2 f_equal. by rewrite <- !app_assoc.
Qed.

(** ** The whole file *)

(** An entry of the file: its name line and the lines of its body. *)
Abbreviation group := (list Z * list (list Z))%type.
Definition group_ok (g : group) : Prop :=
  plain g.1 /\ entry_line g.1 /\ Forall plain g.2 /\ Forall (fun l => ~ entry_line l) g.2.
Definition group_lines (gs : list group) : list (list Z) := concat (map (fun g => g.1 :: g.2) gs).

(** The string at an offset. *)
Definition cstr (buf : list Z) (o : nat) (s : list Z) : Prop := exists t, drop o buf = s ++ 0 :: t.

Lemma cstr_app buf x o s : cstr buf o s -> cstr (buf ++ x) o s.
Proof.
  intros [t Ht]. exists (t ++ x). rewrite drop_app_le; [by rewrite Ht, <- app_assoc|].
  apply (f_equal length) in Ht. rewrite length_drop, length_app in Ht. cbn in Ht. lia.
Qed.

(** An entry with the text of a group. *)
Definition item_ok (buf : list Z) (g : group) (it : item) : Prop :=
  it_depth it = slashes g.1 /\ it_expanded it = expanded_of g.1 /\ cstr buf (it_name it) (name_of g.1) /\
  match it_body it with Some o => cstr buf o (body_of g.2) | None => g.2 = [] end.

Lemma item_ok_app buf x g it : item_ok buf g it -> item_ok (buf ++ x) g it.
Proof. intros (H1 & H2 & H3 & H4). split_and!; try done; [by apply cstr_app|]. destruct (it_body it); [by apply cstr_app|done]. Qed.

(** Every entry is at most one deeper than the one before it. *)
Fixpoint nested (prev : nat) (ds : list nat) : Prop :=
  match ds with
  | [] => True
  | d :: ds => (d <= S prev)%nat /\ nested d ds
  end.

Lemma nested_app prev ds1 ds2 : nested prev (ds1 ++ ds2) -> nested prev ds1 /\ nested (default prev (last ds1)) ds2.
Proof.
  revert prev. induction ds1 as [|d ds1 IH]; intros prev; [done|]. cbn. intros [Hd Hn]. destruct (IH d Hn) as [H1 H2].
  split; [done|]. rewrite last_cons. by destruct (last ds1).
Qed.

Definition deep_msg : string := "config: Menu nesting too deep (max %u)".
Definition parentless_msg : string := "config: Malformed config file. Parentless child.".

Definition menu_err (gs : list group) (msg : string) : Prop :=
  (msg = deep_msg /\ Exists (fun g => (MAX_MENU_NESTING < slashes g.1)%nat) gs) \/
  (msg = parentless_msg /\ ~ nested 0 (map (fun g => slashes g.1) gs)).

(** The state of the loop before the groups [gs]; [before] were done. *)
Record menu_inv (junk : list Z) (cap : nat) (before gs : list group) (buf : list Z) (p : nat) (t : tree) : Prop := {
  mi_buf : exists pre, buf = pre ++ unlines (group_lines gs) ++ 0 :: junk /\ length pre = p /\
           exists items, Forall2 (item_ok (if decide (gs = []) then pre ++ [0] else pre)) before items /\
           exists f, linked cap t f items /\ length (spine f) = default 0%nat (last (map (fun g => slashes g.1) before));
  mi_cap : cap = (length before + length gs)%nat;
}.

Lemma check_depth_spec cap t f items depth : linked cap t f items -> (1 <= depth)%nat ->
  check_depth (t_last t) depth =
    if (MAX_MENU_NESTING <? depth)%nat then Panic deep_msg
    else if (S (length (spine f)) <? depth)%nat then Panic parentless_msg else Ok tt.
Proof.
  intros Hl Hd. unfold check_depth. case_if; [done|]. destruct (lk_last _ _ _ _ Hl) as (Hlen & H0 & Hs).
  destruct (1 <? depth)%nat eqn:E1; bool_hyps.
  - rewrite (rd_lookup _ _ (spine f !! (depth - 1 - 1)%nat)) by (apply Hs; lia). cbn [rbind].
    destruct (spine f !! (depth - 1 - 1)%nat) as [q|] eqn:Eq.
    + apply lookup_lt_Some in Eq. by rewrite (proj2 (Nat.ltb_ge _ _)) by lia.
    + apply lookup_ge_None in Eq. by rewrite (proj2 (Nat.ltb_lt _ _)) by lia.
  - by rewrite (proj2 (Nat.ltb_ge _ _)) by lia.
Qed.

Lemma menu_turn junk cap before gs buf p t :
  menu_inv junk cap before gs buf p t -> Forall group_ok gs ->
  match gs with
  | [] => menu_body (buf, p, t) = Ok (inr (buf, t))
  | g :: gs' =>
      res_post (fun r => match r with
          | inl (buf', p', t') => menu_inv junk cap (before ++ [g]) gs' buf' p' t' /\ (p < p')%nat /\ length buf' = length buf /\ (p' <= length buf)%nat /\
              (p + length g.1 + 1 <= p')%nat /\ take (p + length g.1 + 1) buf' = take p buf ++ g.1 ++ [0]
          | inr _ => False
          end) (menu_err (before ++ gs)) (menu_body (buf, p, t))
  end.
Proof.
  intros [(pre & Ebuf & <- & items & Hit & f & Hlk & Hsp) Hcap] Hgs. unfold menu_body. destruct gs as [|[h b] gs].
  { rewrite (rd_at buf (length pre) 0 junk); [done|]. rewrite Ebuf. apply drop_app_length. }
  apply Forall_cons in Hgs as [(Hh & Hen & Hb & Hne) Hgs]. cbn [fst snd] in *.
  set (tail := unlines (group_lines gs) ++ 0 :: junk).
  assert (unlines (group_lines ((h, b) :: gs)) ++ 0 :: junk = h ++ SEPARATOR :: unlines b ++ tail) as Etext.
  { unfold group_lines, unlines, tail. cbn [map concat fst snd]. rewrite map_app, concat_app. cbn [map concat]. by rewrite <- !app_assoc. }
  rewrite Etext in Ebuf. clear Etext.
  assert (exists d t', tail = d :: t' /\ ((d = 0 /\ gs = []) \/ (d = 47 /\ gs <> []))) as (d & t' & Etail & Hd).
  { unfold tail. destruct gs as [|[h2 b2] gs]; [exists 0, junk; split; [done|by left]|].
    apply Forall_cons in Hgs as [(_ & Hen2 & _) _]. cbn [fst] in Hen2. destruct h2 as [|c2 h2]; [done|]. injection Hen2 as ->.
    unfold group_lines, unlines. cbn. eexists _, _. split; [done|by right]. }
  assert (drop (length pre) buf = h ++ SEPARATOR :: unlines b ++ tail) as Hp by (rewrite Ebuf; apply drop_app_length).
  assert (1 <= slashes h)%nat as Hs1 by (destruct h as [|c0 h0]; [done|]; injection Hen as ->; cbn; lia).
  assert (exists t0, drop (length pre) buf = 47 :: t0) as [t0 Hp0].
  { rewrite Hp. destruct h as [|c0 h0]; [done|]. injection Hen as ->. by eexists. }
  rewrite (rd_at _ _ _ _ Hp0). cbn [rbind Z.eqb]. rewrite (scan_slashes _ _ _ _ Hp). cbn [rbind].
  replace (length pre + slashes h - length pre)%nat with (slashes h) by lia.
  rewrite (check_depth_spec _ _ _ _ _ Hlk Hs1). case_if.
  { cbn. left. split; [done|]. apply Exists_app. right. by apply Exists_cons; left. }
  case_if.
  { cbn. right. split; [done|]. rewrite map_app. intros Hn. apply nested_app in Hn as [_ Hn]. cbn in Hn. rewrite <- Hsp in Hn. lia. }
  cbn [rbind]. rewrite Ebuf. destruct (parse_name_spec pre h (unlines b ++ tail) Hh) as (name & -> & Hname). cbn [rbind].
  set (q := pre ++ h ++ [0%Z]).
  assert (length q = length pre + S (length h))%nat as Hlq by (unfold q; rewrite !length_app; cbn; lia).
  replace (pre ++ h ++ 0 :: unlines b ++ tail) with (q ++ unlines b ++ d :: t') by (unfold q; rewrite Etail; by rewrite <- !app_assoc).
  rewrite <- Hlq, parse_body_spec; [|unfold q; by rewrite app_assoc, last_snoc|done|done|destruct Hd as [[? _]|[? _]]; auto].
  cbn [rbind]. set (bo := if decide (b = [] /\ d = 47) then None else Some (length q)).
  set (it := MkItem (slashes h) (expanded_of h) name bo). pose proof (Forall2_length _ _ _ Hit) as Hli.
  destruct (link_entry_spec cap t f items it Hlk) as (t2 & -> & Hlk2); [cbn in Hcap; lia|cbn; lia|cbn; lia|]. cbn [rbind res_post].
  set (bb := if decide (b = []) then [] else body_of b ++ [0]).
  assert (length bb = length (unlines b)) as Hlb.
  { unfold bb. destruct (decide (b = [])) as [->|Hbne]; [done|]. rewrite unlines_body by done. by rewrite !length_app. }
  assert (length (q ++ bb ++ d :: t') = length buf) as Hlbuf.
  { rewrite Ebuf, Etail. unfold q. rewrite !length_app. cbn [length]. rewrite !length_app. cbn [length]. lia. }
  assert (take (length pre + length h + 1) (q ++ bb ++ d :: t') = take (length pre) buf ++ h ++ [0]) as Htake.
  { rewrite take_app_length' by lia. by rewrite Ebuf, take_app_length. }
  split; [|split; [lia|split; [congruence|split; [rewrite <- Ebuf, <- Hlbuf, !length_app; cbn; lia|split; [cbn [fst]; lia|by rewrite <- Ebuf]]]]].
  split; [|rewrite length_app; cbn in *; lia].
  exists (q ++ bb). split; [unfold tail in Etail; rewrite Etail; by rewrite <- app_assoc|]. split; [rewrite length_app; lia|].
  exists (items ++ [it]). split.
  - apply Forall2_app.
    + rewrite decide_False in Hit by done. eapply Forall2_impl; [exact Hit|]. intros g1 it1 Hok.
      assert (exists x, (if decide (gs = []) then (q ++ bb) ++ [0] else q ++ bb) = pre ++ x) as [x ->].
      { unfold q. case_decide; rewrite <- !app_assoc; by eexists. }
      by apply item_ok_app.
    + constructor; [|constructor]. split; [done|]. split; [done|]. split.
      * assert (exists x, (if decide (gs = []) then (q ++ bb) ++ [0] else q ++ bb) = q ++ x) as [x ->]
          by (destruct (decide (gs = [])); [exists (bb ++ [0]); by rewrite <- app_assoc|by exists bb]).
        apply cstr_app. exists []. cbn [it_name it]. destruct (name_suffix h) as [k Ek].
        assert (q = (pre ++ k) ++ name_of h ++ [0%Z]) as Eq.
        { transitivity (pre ++ (k ++ name_of h) ++ [0%Z]); [unfold q; by rewrite <- Ek|by rewrite <- !app_assoc]. }
        rewrite Eq. apply drop_app_length'. apply (f_equal length) in Ek. rewrite length_app in *. lia.
      * cbn [it_body it snd]. unfold bo. destruct (decide (b = [] /\ d = 47)) as [[-> _]|Hnb]; [done|].
        destruct (decide (b = [])) as [->|Hbne].
        -- destruct Hd as [[_ ->]|[-> _]]; [|tauto]. rewrite decide_True by done. unfold bb. rewrite ?decide_True by done.
           rewrite app_nil_r. exists []. cbn. apply drop_app_length.
        -- assert (cstr (q ++ bb) (length q) (body_of b)) as Hc by (exists []; unfold bb; rewrite ?decide_False by done; apply drop_app_length).
           destruct (decide (gs = [])); [by apply cstr_app|done].
  - exists (add (it_depth it) (length items) f). split; [done|]. rewrite add_spine by (cbn; lia).
    rewrite length_app, length_take, map_app. cbn [map]. rewrite last_snoc. cbn. lia.
Qed.

Lemma filter_no_entry b : Forall (fun l => ~ entry_line l) b -> filter entry_line b = [].
Proof. induction 1 as [|l b Hl Hb IH]; [done|]. by rewrite filter_cons, decide_False. Qed.

Lemma group_entries gs : Forall group_ok gs -> length (filter entry_line (group_lines gs)) = length gs.
Proof.
  induction 1 as [|[h b] gs (_ & He & _ & Hne) Hgs IH]; [done|]. cbn [fst snd] in *. unfold group_lines in *. cbn [map concat fst snd].
  rewrite <- app_comm_cons, filter_cons, decide_True by done. rewrite filter_app. cbn [length]. f_equal.
  by rewrite filter_no_entry.
Qed.

Lemma group_plain gs : Forall group_ok gs -> Forall plain (group_lines gs).
Proof.
  induction 1 as [|[h b] gs (Hh & _ & Hb & _) Hgs IH]; [constructor|]. unfold group_lines in *. cbn. constructor; [done|]. by apply Forall_app.
Qed.

(** What the result of [create_menu_tree] stands for. *)
Record menu_of (gs : list group) (root : option nat) (es : list menu_entry) (buf : list Z) : Prop := {
  mo_count : length es = length gs;
  mo_tree : exists f, shows es None root f /\ preorder 1 f = zip (map (fun g => slashes g.1) gs) (seq 0 (length gs));
  mo_text : forall i g, gs !! i = Some g -> exists e, es !! i = Some e /\ me_expanded e = expanded_of g.1 /\
            cstr buf (me_name e) (name_of g.1) /\ match me_body e with Some o => cstr buf o (body_of g.2) | None => g.2 = [] end;
}.

Lemma linked_menu_of pre junk gs items t f :
  Forall2 (item_ok (pre ++ [0])) gs items -> linked (length gs) t f items ->
  menu_of gs (t_root t) (t_entries t) (pre ++ 0 :: junk).
Proof.
  intros Hit Hlk. pose proof (Forall2_length _ _ _ Hit) as Hlen. split.
  - apply (lk_cap _ _ _ _ Hlk).
  - exists f. split; [apply (lk_shows _ _ _ _ Hlk)|]. rewrite (lk_order _ _ _ _ Hlk), Hlen. f_equal.
    clear Hlk Hlen. induction Hit as [|g it gs items (Hd & _) Hit IH]; [done|]. cbn. by rewrite IH, Hd.
  - intros i g Hg. destruct (Forall2_lookup_l _ _ _ _ _ Hit Hg) as (it & Hi & _ & Hx & Hn & Hb).
    destruct (lk_data _ _ _ _ Hlk i it Hi) as (e & He & E1 & E2 & E3). exists e. rewrite E1, E2, E3.
    replace (pre ++ 0 :: junk) with ((pre ++ [0]) ++ junk) by (by rewrite <- app_assoc).
    split_and!; try done; [by apply cstr_app|]. destruct (it_body it); [by apply cstr_app|done].
Qed.

(** The string at the beginning of the text: the lines before the first entry,
    or the line of the first entry if there are none. *)
Definition globals_of (ls : list (list Z)) (gs : list group) (buf : list Z) : Prop :=
  match gs with
  | [] => cstr buf 0 (unlines ls)
  | (h, _) :: _ => cstr buf 0 (if decide (ls = []) then h else body_of ls)
  end.

Lemma globals_keep ls h b gs pre buf :
  pre = (if decide (ls = []) then [] else body_of ls ++ [0]) ->
  take (length (pre ++ h ++ [0%Z])) buf = pre ++ h ++ [0] -> globals_of ls ((h, b) :: gs) buf.
Proof.
  intros Hpre Hb. unfold globals_of. rewrite <- (take_drop (length (pre ++ h ++ [0%Z])) buf), Hb, Hpre.
  destruct (decide (ls = [])); unfold cstr; cbn [drop app]; rewrite <- !app_assoc; by eexists.
Qed.

Lemma create_menu_tree_spec ls gs junk :
  Forall plain ls -> Forall (fun l => ~ entry_line l) ls -> Forall group_ok gs ->
  res_post (fun '(root, es, buf) => menu_of gs root es buf /\ globals_of ls gs buf) (menu_err gs)
    (create_menu_tree (unlines (ls ++ group_lines gs) ++ 0 :: junk)).
Proof.
  intros Hpl Hne Hgs. unfold create_menu_tree.
  assert (unlines (ls ++ group_lines gs) ++ 0 :: junk = unlines ls ++ unlines (group_lines gs) ++ 0 :: junk) as ->
    by (unfold unlines; rewrite map_app, concat_app; by rewrite <- app_assoc).
  destruct gs as [|[h b] gs].
  { cbn [group_lines map concat unlines app]. rewrite entry_from_lines by (done || by left). cbn [rbind].
    rewrite (rd_at _ _ 0 junk) by apply drop_app_length. cbn. split; [|by exists junk]. split; [done| |done]. by exists Nil. }
  pose proof Hgs as Hgs'. apply Forall_cons in Hgs' as [(Hh & Hen & Hb & Hnb) Hgs']. cbn [fst snd] in *.
  destruct h as [|c h]; [done|]. injection Hen as ->.
  set (tail := unlines b ++ unlines (group_lines gs) ++ 0 :: junk).
  assert (unlines (group_lines ((47 :: h, b) :: gs)) ++ 0 :: junk = 47 :: h ++ SEPARATOR :: tail) as Et.
  { unfold group_lines, unlines, tail. cbn [map concat fst snd]. rewrite map_app, concat_app. cbn [map concat app]. by rewrite <- !app_assoc. }
  rewrite Et. rewrite entry_from_lines by (done || (right; split; [done|by left])). cbn [rbind].
  rewrite (rd_at _ _ 47 (h ++ SEPARATOR :: tail)) by apply drop_app_length. cbn [rbind Z.eqb].
  assert (drop (S (length (unlines ls))) (unlines ls ++ 47 :: h ++ SEPARATOR :: tail) = h ++ SEPARATOR :: tail) as ->.
  { rewrite <- Nat.add_1_r, <- drop_drop, drop_app_length. done. }
  assert (count_entries true tail = Ok (length gs)) as Hcount.
  { unfold tail. replace (unlines b ++ unlines (group_lines gs) ++ 0 :: junk) with (unlines (b ++ group_lines gs) ++ 0 :: junk)
      by (unfold unlines; rewrite map_app, concat_app; by rewrite <- app_assoc).
    rewrite count_lines by (apply Forall_app; split; [done|by apply group_plain]). rewrite filter_app, length_app.
    by rewrite group_entries, filter_no_entry. }
  assert (plain h) as Hh' by (by apply Forall_cons in Hh as [_ ?]).
  rewrite (count_line false h tail _ Hh' Hcount). cbn [rbind andb].
  set (pre := if decide (ls = []) then [] else body_of ls ++ [0]).
  assert (length pre = length (unlines ls)) as Hlp.
  { unfold pre. destruct (decide (ls = [])) as [->|Hl]; [done|]. rewrite unlines_body by done. by rewrite !length_app. }
  assert ((if (0 <? length (unlines ls))%nat then wr (unlines ls ++ 47 :: h ++ SEPARATOR :: tail) (length (unlines ls) - 1) 0
           else Ok (unlines ls ++ 47 :: h ++ SEPARATOR :: tail)) = Ok (pre ++ 47 :: h ++ SEPARATOR :: tail)) as ->.
  { unfold pre in *. destruct (decide (ls = [])) as [->|Hl]; [done|]. rewrite unlines_body by done. rewrite !length_app. cbn [length].
    rewrite (proj2 (Nat.ltb_lt _ _)) by lia. replace (length (body_of ls) + 1 - 1)%nat with (length (body_of ls)) by lia.
    rewrite <- app_assoc, write_over by (cbn; lia). cbn [drop app]. by rewrite <- app_assoc. }
  cbn [rbind]. rewrite <- Et, <- Hlp. set (gs0 := (47 :: h, b) :: gs) in *. set (buf0 := pre ++ unlines (group_lines gs0) ++ 0 :: junk).
  set (first := pre ++ (47 :: h) ++ [0%Z]).
  eapply (res_post_bind (fun '(buf, t) => menu_of gs0 (t_root t) (t_entries t) buf /\ globals_of ls gs0 buf)); [|by intros [buf t] Hm].
  apply (loop_spec _ (fun '(buf, p, t) => exists before rest, gs0 = before ++ rest /\
    menu_inv junk (length gs0) before rest buf p t /\ length buf = length buf0 /\ (p <= length buf0)%nat /\
    (if decide (before = []) then take (length pre) buf = pre /\ p = length pre
     else (length first <= p)%nat /\ take (length first) buf = first))).
  - intros [[buf p] t] (before & rest & Eg & Hinv & Hlen & Hp & Htk). unfold turn_ok.
    assert (Forall group_ok rest) as Hrest by (rewrite Eg in Hgs; by apply Forall_app in Hgs as [_ ?]).
    pose proof (menu_turn _ _ _ _ _ _ _ Hinv Hrest) as Ht. destruct rest as [|g rest].
    + rewrite Ht. cbn. rewrite app_nil_r in Eg. destruct Hinv as [(q & -> & _ & items & Hit & f & Hlk & _) _].
      rewrite decide_True in Hit by done. cbn.
      split; [rewrite Eg in *; by eapply linked_menu_of|]. rewrite <- Eg, decide_False in Htk by done. apply (globals_keep _ (47 :: h) b gs pre); [done|]. by destruct Htk as [_ Htk].
    + eapply res_post_mono; [exact Ht| |by rewrite Eg]. intros [[[buf' p'] t']|r] Hr; [|done]. destruct Hr as (Hinv' & Hlt & Hl & Hp' & Hge & Htk').
      split; [|lia]. exists (before ++ [g]), rest. rewrite <- app_assoc. split_and!; try done; [lia..|].
      rewrite decide_False by (by destruct before). destruct (decide (before = [])) as [->|Hbf].
      * injection Eg as <- <-. destruct Htk as [Htk ->]. rewrite Htk in Htk'. cbn [fst] in *.
        assert (length first = length pre + length (47%Z :: h) + 1)%nat as Hf by (unfold first; rewrite !length_app; cbn; lia).
        rewrite Hf. by split.
      * destruct Htk as [Hfp Htk]. split; [lia|]. rewrite <- (Nat.min_l (length first) (p + length g.1 + 1)), <- take_take by lia.
        rewrite Htk', take_app_le by (rewrite length_take; lia). rewrite take_take, Nat.min_l by lia. done.
  - exists [], gs0. split; [done|]. split; [|split; [done|split; [unfold buf0; rewrite length_app; lia|rewrite decide_True by done; split; [unfold buf0; apply take_app_length|done]]]]. split; [|done].
    exists pre. split; [done|]. split; [done|]. exists []. split; [constructor|]. exists Nil. split; [|done]. split; cbn; try done.
    + by rewrite length_replicate.
    + split; [done|]. split; [done|]. intros d Hd. change (replicate (MAX_MENU_NESTING + 2) (@None nat) !! d = Some None). apply lookup_replicate_2. lia.
    + intros i Hi. change (replicate (S (length gs)) blank_entry !! i = Some blank_entry). apply lookup_replicate_2. lia.
  - lia.
Qed.
