(* ===== verification/ConfigProps.v ===== *)
(** * The configuration file: what the program promises

    The stages of [init_config] put together: a file whose lines expand gives the
    menu of its entries, and looking a key up in it finds the lines of the file
    that carry the key.  Macro expansion of any text is stated on the text itself:
    [definitions] are those it holds, [expansion] is what becomes of it. *)

From S2P Require Import Prelude CInt Libc LibcProps Blake2b Config ConfigText ConfigMacro ConfigMenu.

(** ** Texts without references *)
Definition no_ref (s : list Z) : Prop := forall i, s !! i = Some 36 -> s !! S i <> Some 123.

Lemma no_ref_app a b : no_ref (a ++ b) -> no_ref a /\ no_ref b.
Proof.
  intros H. split; intros i Hi Hj.
  - apply (H i); by apply lookup_app_l_Some.
  - apply (H (length a + i)%nat); [|rewrite <- Nat.add_succ_r]; rewrite lookup_app_r by lia; by rewrite Nat.add_comm, Nat.add_sub.
Qed.

Lemma memchr_spec p ch n : (n <= length p)%nat ->
  match memchr p ch n with
  | Ok (Some k) => (k < n)%nat /\ p !! k = Some ch /\ forall j, (j < k)%nat -> p !! j <> Some ch
  | Ok None => forall j, (j < n)%nat -> p !! j <> Some ch
  | _ => False
  end.
Proof.
  revert p. induction n as [|n IH]; intros p Hn; cbn [memchr]; [intros; lia|]. destruct p as [|c p]; cbn in Hn; [lia|].
  destruct (Z.eqb_spec c ch) as [->|Hc]; [split; [lia|split; [done|intros; lia]]|].
  specialize (IH p ltac:(lia)). destruct (memchr p ch n) as [[k|]|m| |]; try done; cbn [rbind fmap option_fmap option_map].
  - destruct IH as (H1 & H2 & H3). split; [lia|]. split; [done|]. intros [|j] Hj; [cbn; congruence|]. apply H3. lia.
  - intros [|j] Hj; [cbn; congruence|]. apply IH. lia.
Qed.

Lemma has_macro_references_spec buf size : (size <= length buf)%nat ->
  exists b, has_macro_references buf size = Ok b /\ (b = false -> no_ref (take size buf)).
Proof.
  intros Hs. apply (res_post_total (fun b : bool => b = false -> no_ref (take size buf))).
  apply (loop_spec _ (fun p => (p <= size)%nat /\
    forall i, (i < p)%nat -> (S i < size)%nat -> buf !! i = Some 36 -> buf !! S i <> Some 123)); [|split; [lia|intros; lia]|lia].
  intros p [Hp Hi]. unfold turn_ok, has_macro_body.
  pose proof (memchr_spec (drop p buf) 36 (size - p)) as Hm. rewrite length_drop in Hm. specialize (Hm ltac:(lia)).
  destruct (memchr (drop p buf) 36 (size - p)) as [[k|]|m| |]; try done; cbn [rbind].
  - destruct Hm as (Hk & Hc & Hbef). rewrite lookup_drop in Hc.
    assert (forall i, (i < p + k)%nat -> (S i < size)%nat -> buf !! i = Some 36 -> buf !! S i <> Some 123) as Hi'.
    { intros i Hip Hsz Hb. destruct (decide (i < p)%nat); [by apply Hi|]. exfalso. apply (Hbef (i - p)%nat); [lia|].
      rewrite lookup_drop. by replace (p + (i - p))%nat with i by lia. }
    destruct (Nat.leb_spec 2 (size - (p + k))) as [H2|H2].
    + destruct (lookup_lt_is_Some_2 buf (S (p + k))) as [c Ec]; [lia|]. rewrite (rd_lookup _ _ _ Ec). cbn [rbind].
      destruct (Z.eqb_spec c 123) as [->|Hne]; cbn [res_post]; [done|]. split; [|lia]. split; [lia|].
      intros i Hip Hsz Hb. destruct (decide (i = p + k)%nat) as [->|]; [rewrite Ec; congruence|]. apply Hi'; [lia|done|done].
    + cbn [rbind res_post]. split; [|lia]. split; [lia|]. intros i Hip Hsz Hb. apply Hi'; [lia|done|done].
  - cbn [res_post]. intros _ i Hb Hb2. rewrite lookup_take_Some in Hb, Hb2. destruct Hb as [Hb Hlt], Hb2 as [Hb2 Hlt2].
    destruct (decide (i < p)%nat); [by apply (Hi i)|]. apply (Hm (i - p)%nat); [lia|]. rewrite lookup_drop.
    by replace (p + (i - p))%nat with i by lia.
Qed.

Lemma no_ref_expands macros l r : no_ref l -> expands macros l r -> r = l.
Proof.
  intros Hn He. revert Hn. induction He as [|c l r Hc He IH|name l r Hnm Hlen He IH]; intros Hn; [done| |].
  - f_equal. apply IH. by apply (no_ref_app [c] l).
  - exfalso. by apply (Hn 0%nat).
Qed.

Lemma no_ref_line macros l r : no_ref l -> line_ok macros l r -> r = Some l.
Proof.
  intros Hn Hl. unfold line_ok in Hl. destruct (def_of l) as [m|] eqn:Ed.
  - apply def_of_spec in Ed as [-> _]. exfalso. by apply (Hn 0%nat).
  - destruct Hl as (t & -> & He). by rewrite (no_ref_expands _ _ _ Hn He).
Qed.

Lemma no_ref_lines macros ls rs : no_ref (unlines ls) -> Forall2 (line_ok macros) ls rs -> rs = map Some ls.
Proof.
  intros Hn Hrs. revert Hn. induction Hrs as [|l r ls rs Hl Hrs IH]; intros Hn; [done|].
  change (unlines (l :: ls)) with ((l ++ [SEPARATOR]) ++ unlines ls) in Hn.
  apply no_ref_app in Hn as [H1 H2]. apply no_ref_app in H1 as [H1 _]. cbn. by rewrite (no_ref_line _ _ _ H1 Hl), IH.
Qed.

(** ** The lines after macro expansion *)
Definition out_lines (rs : list (option (list Z))) : list (list Z) :=
  match rs with
  | [] => []
  | r0 :: rs => default [] r0 :: omap id rs
  end.

Lemma join_out_unlines r0 rs : join_out r0 (rs ++ [Some []]) = unlines (out_lines (r0 :: rs)).
Proof.
  unfold join_out, out_lines, unlines. cbn [map concat]. rewrite <- !app_assoc. f_equal.
  rewrite map_app, concat_app. cbn [map concat later app].
  induction rs as [|[t|] rs IH]; [done| |done]. cbn. by rewrite <- !app_assoc, IH.
Qed.

Lemma join_unlines l0 ls : join l0 (ls ++ [[]]) = unlines (l0 :: ls).
Proof.
  unfold join, unlines. cbn [map concat]. rewrite <- app_assoc. f_equal. rewrite map_app, concat_app. cbn [map concat app].
  induction ls as [|l ls IH]; [done|]. cbn. by rewrite <- !app_assoc, IH.
Qed.

Lemma out_lines_same ls : out_lines (map Some ls) = ls.
Proof. destruct ls as [|l ls]; [done|]. cbn. f_equal. induction ls as [|l2 ls IH]; [done|]. cbn. by rewrite IH. Qed.

Lemma defined_app macros ls1 ls2 : defined macros (ls1 ++ ls2) = defined (defined macros ls1) ls2.
Proof. apply foldl_app. Qed.

Section Expansion.
Variables (size_bits : Z) (arch fw_type loader_arch : list Z).
Variables (ls : list (list Z)) (rs : list (option (list Z))).
Let macros : list macro := defined (predefined_macros arch fw_type loader_arch) ls.
Hypothesis Hls : ls <> [].
Hypothesis Hplain : Forall plain ls.
Hypothesis Hrs : Forall2 (line_ok macros) ls rs.
Hypothesis Hstart : forall l ls', ls = l :: ls' -> proper_start l ls'.
Hypothesis Hbits : Z.of_nat (length (unlines (out_lines rs)) + 1) < 2 ^ size_bits.

(** The expansion stage, run or not. *)
Lemma expand_stage rest :
  let buf := unlines ls ++ 0 :: rest in let size := S (length (unlines ls)) in
  exists rest',
  (let! refs := has_macro_references buf size in
   if refs : bool then expand_config size_bits arch fw_type loader_arch buf size else Ok buf)
  = Ok (unlines (out_lines rs) ++ 0 :: rest').
Proof.
  intros buf size. destruct (has_macro_references_spec buf size) as (b & -> & Hb).
  { unfold buf, size. rewrite length_app. cbn. lia. }
  cbn [rbind]. destruct b.
  - destruct ls as [|l0 ls'] eqn:El; [done|]. inversion Hrs as [|? r0 ? rs' H0 Hrs' E1 E2]; subst. exists [].
    unfold buf, size. rewrite <- join_unlines, <- Nat.add_1_r, <- join_out_unlines.
    assert (macros = defined (predefined_macros arch fw_type loader_arch) (l0 :: ls' ++ [[]])) as Em.
    { by rewrite app_comm_cons, defined_app. }
    apply (expand_config_lines _ _ _ _ l0 (ls' ++ [[]]) r0 (rs' ++ [Some []])); rewrite <- ?Em.
    + rewrite app_comm_cons. apply Forall_app. split; [done|]. by repeat constructor.
    + done.
    + apply Forall2_app; [done|]. constructor; [|done]. exists []. split; [done|constructor].
    + intros E l Hl. destruct ls' as [|l1 ls']; cbn in Hl; injection Hl as <-; [done|]. by apply (Hstart _ _ eq_refl).
    + rewrite join_out_unlines, length_app. done.
  - exists rest. rewrite (no_ref_lines macros ls rs); [by rewrite out_lines_same| |done].
    specialize (Hb eq_refl). unfold buf, size in Hb. rewrite take_app_ge in Hb by lia. by apply no_ref_app in Hb as [? _].
Qed.
End Expansion.

(** *** Lines stay lines *)
Lemma skip_blanks_suffix l : exists p, l = p ++ skip_blanks l.
Proof.
  induction l as [|c l [p IH]]; [by exists []|]. cbn. case_if; [|by exists []]. exists (c :: p). cbn. by rewrite <- IH.
Qed.

Lemma strip_plain l : plain l -> plain (strip l).
Proof.
  intros Hl. unfold strip, trim, plain. apply Forall_reverse.
  assert (Forall (fun c => 0 < c /\ is_sep c = false) (filter (fun c => c <> 13) l)) as Hf.
  { apply Forall_forall. intros c Hc. apply list_elem_of_filter in Hc as [_ Hc]. by eapply Forall_forall in Hl. }
  destruct (skip_blanks_suffix (filter (fun c => c <> 13) l)) as [p Ep]. rewrite Ep in Hf. apply Forall_app in Hf as [_ Hf].
  apply Forall_reverse in Hf.
  destruct (skip_blanks_suffix (reverse (skip_blanks (filter (fun c => c <> 13) l)))) as [p2 Ep2].
  rewrite Ep2 in Hf. by apply Forall_app in Hf as [_ ?].
Qed.

Lemma lines_plain s : Forall (fun c => 0 < c) s -> Forall plain (lines s).
Proof.
  induction 1 as [|c s Hc Hs IH]; [by repeat constructor|]. cbn. destruct (is_sep c) eqn:E; [by constructor; [constructor|]|].
  destruct (lines s) as [|l ls]; [by repeat constructor|]. apply Forall_cons in IH as [Hl Hls]. by repeat constructor.
Qed.

Lemma macro_value_plain macros name : Forall (fun m => plain (m_value m)) macros -> plain (macro_value macros name).
Proof. induction 1 as [|m macros Hv Hm IH]; [constructor|]. cbn. by destruct (decide (m_name m = name)). Qed.

Lemma expands_plain macros l r : Forall (fun m => plain (m_value m)) macros -> plain l -> expands macros l r -> plain r.
Proof.
  intros Hm Hl He. revert Hl. induction He as [|c l r Hc He IH|name l r Hnm Hlen He IH]; intros Hl; [done| |].
  - apply Forall_cons in Hl as [Hc' Hl]. constructor; [done|]. by apply IH.
  - apply Forall_app. split; [by apply macro_value_plain|]. apply IH. do 2 apply Forall_cons in Hl as [_ Hl].
    apply Forall_app in Hl as [_ Hl]. by apply Forall_cons in Hl as [_ ?].
Qed.

Lemma defined_plain macros ls : Forall (fun m => plain (m_value m)) macros -> Forall plain ls ->
  Forall (fun m => plain (m_value m)) (defined macros ls).
Proof.
  intros Hm Hls. revert macros Hm. induction Hls as [|l ls Hl Hls IH]; intros macros Hm; [done|]. cbn [defined foldl]. apply IH.
  destruct (def_of l) as [m|] eqn:Ed; [|done]. constructor; [|done]. apply def_of_spec in Ed as [-> _].
  do 2 apply Forall_cons in Hl as [_ Hl]. apply Forall_app in Hl as [_ Hl]. by do 2 apply Forall_cons in Hl as [_ Hl].
Qed.

Lemma out_lines_plain macros ls rs : Forall (fun m => plain (m_value m)) macros -> Forall plain ls ->
  Forall2 (line_ok macros) ls rs -> Forall plain (out_lines rs).
Proof.
  intros Hm Hls Hrs.
  assert (Forall (fun r => match r with Some t => plain t | None => True end) rs) as Hr.
  { clear - Hm Hls Hrs. induction Hrs as [|l r ls rs Hl Hrs IH]; [constructor|]. apply Forall_cons in Hls as [Hpl Hls].
    constructor; [|by apply IH]. unfold line_ok in Hl. destruct (def_of l); [by destruct Hl as [-> _]|].
    destruct Hl as (t & -> & He). by eapply expands_plain. }
  destruct rs as [|r0 rs]; [constructor|]. apply Forall_cons in Hr as [H0 Hr]. cbn [out_lines]. constructor.
  - destruct r0; [done|constructor].
  - clear - Hr. induction Hr as [|[t|] rs Ht Hr IH]; [constructor| |done]. by constructor.
Qed.

(** ** The entries among the lines *)
#[global] Instance entry_line_dec l : Decision (entry_line l).
Proof. unfold entry_line. apply _. Defined.

(** The lines before the first entry, and each entry with the lines after it. *)
Fixpoint split_menu (ls : list (list Z)) : list (list Z) * list group :=
  match ls with
  | [] => ([], [])
  | l :: ls => let '(b, gs) := split_menu ls in if decide (entry_line l) then ([], (l, b) :: gs) else (l :: b, gs)
  end.

Lemma split_menu_spec ls : Forall plain ls ->
  let '(b, gs) := split_menu ls in
  ls = b ++ group_lines gs /\ Forall plain b /\ Forall (fun l => ~ entry_line l) b /\ Forall group_ok gs.
Proof.
  induction 1 as [|l ls Hl Hls IH]; [by split_and!|]. cbn [split_menu]. destruct (split_menu ls) as [b gs].
  destruct IH as (-> & Hb & Hn & Hg). destruct (decide (entry_line l)).
  - split_and!; try constructor; try done.
  - split_and!; try constructor; try done.
Qed.

(** ** Keys *)
Lemma lines_body b : Forall plain b -> b <> [] -> lines (body_of b) = b.
Proof.
  intros Hb Hne. destruct b as [|l b]; [done|]. clear Hne. revert l Hb. induction b as [|l2 b IH]; intros l Hb.
  - apply Forall_cons in Hb as [Hl _]. unfold body_of, join. cbn [map concat]. rewrite app_nil_r.
    induction Hl as [|c l [Hc Hs] Hl IHl]; [done|]. cbn. by rewrite Hs, IHl.
  - apply Forall_cons in Hb as [Hl Hb]. change (body_of (l :: l2 :: b)) with (l ++ SEPARATOR :: body_of (l2 :: b)).
    specialize (IH l2 Hb). induction Hl as [|c l [Hc Hs] Hl IHl]; cbn [app lines].
    + change (is_sep SEPARATOR) with true. cbn iota. by rewrite IH.
    + by rewrite Hs, IHl.
Qed.

Lemma lines_unlines b : Forall plain b -> lines (unlines b) = b ++ [[]].
Proof.
  intros Hb. destruct (decide (b = [])) as [->|Hne]; [done|]. destruct b as [|l b]; [done|]. rewrite <- join_unlines.
  change (join l (b ++ [[]])) with (body_of ((l :: b) ++ [[]])). rewrite lines_body; [done| |done].
  apply Forall_app. split; [done|]. by repeat constructor.
Qed.

Lemma find_key_nil key off index : find_key key off index [[]] = None.
Proof. cbn. unfold starts_key. by rewrite lookup_nil, andb_false_r. Qed.

Lemma find_key_app key off index ls : find_key key off index (ls ++ [[]]) = find_key key off index ls.
Proof.
  revert off index. induction ls as [|l ls IH]; intros off index; [apply find_key_nil|]. cbn. case_if; [|apply IH].
  destruct index; [done|apply IH].
Qed.

Lemma plain_pos ls : Forall plain ls -> Forall (fun c => 0 < c) (unlines ls).
Proof.
  induction 1 as [|l ls Hl Hls IH]; [constructor|]. change (unlines (l :: ls)) with ((l ++ [SEPARATOR]) ++ unlines ls).
  apply Forall_app. split; [|done]. apply Forall_app. split; [|by repeat constructor]. eapply Forall_impl; [exact Hl|]. by intros c [].
Qed.

Lemma body_pos b : Forall plain b -> Forall (fun c => 0 < c) (body_of b).
Proof.
  intros Hb. destruct (decide (b = [])) as [->|Hne]; [constructor|]. apply plain_pos in Hb. rewrite unlines_body in Hb by done.
  by apply Forall_app in Hb as [? _].
Qed.

(** Looking a key up in a string of the configuration. *)
Lemma get_value_cstr c obj o s ls key index :
  config_ready c = true -> cstr obj o s -> Forall (fun c => 0 < c) s -> plain key ->
  (forall k off i, find_key k off i (lines s) = find_key k off i ls) ->
  config_get_value c (Some (obj, o)) index (Some (key ++ [0])) =
    Ok ((fun '(v, k) => (v, (obj, k))) <$> find_key key o index ls).
Proof.
  intros Hr [t Ht] Hs Hk Hf. unfold config_get_value. rewrite Hr. cbn [negb].
  assert (Forall (fun c => 0 < c) key) as Hkp by (eapply Forall_impl; [exact Hk|]; by intros ? []).
  assert (strlen (key ++ [0]) = Ok (length key)) as ->.
  { clear - Hkp. induction Hkp as [|c l Hc Hl IH]; [done|]. cbn [app strlen length]. rewrite (proj2 (Z.eqb_neq c 0)) by lia. by rewrite IH. }
  cbn [rbind]. rewrite (get_value_spec obj o s t key Ht Hs Hkp); [|eapply Forall_impl; [exact Hk|]; by intros ? []].
  cbn [rbind]. by rewrite Hf.
Qed.

Lemma find_key_entry key index h : head key <> Some 47 -> entry_line h -> find_key key 0 index [h] = None.
Proof.
  intros Hk Hh. cbn [find_key]. destruct (starts_key key h) eqn:E; [|done]. exfalso. unfold starts_key, same_text in E.
  destruct h as [|c h]; [done|]. injection Hh as ->. destruct key as [|k key]; [done|].
  apply andb_true_iff in E as [E _]. apply bool_decide_eq_true_1 in E. cbn in E. injection E as E _. apply Hk. cbn. f_equal.
  unfold tolower in E. revert E. case_if; lia.
Qed.

(** What a configuration read from the lines [globals] and the entries [gs] answers. *)
Record config_of (globals : list (list Z)) (gs : list group) (c : config) : Prop := {
  co_ready : config_ready c = true;
  co_text : exists buf, config_addr c = Some buf /\ menu_of gs (menu_tree c) (menu_entries c) buf /\
    (forall key index, plain key -> head key <> Some 47 ->
       config_get_value c None index (Some (key ++ [0])) =
         Ok ((fun '(v, k) => (v, (buf, k))) <$> find_key key 0 index globals)) /\
    (forall i g e o key index, gs !! i = Some g -> menu_entries c !! i = Some e -> me_body e = Some o -> plain key ->
       config_get_value c (Some (buf, o)) index (Some (key ++ [0])) =
         Ok ((fun '(v, k) => (v, (buf, k))) <$> find_key key o index g.2));
}.

Lemma config_of_menu globals gs c buf :
  config_ready c = true -> config_addr c = Some buf -> Forall plain globals -> Forall group_ok gs ->
  menu_of gs (menu_tree c) (menu_entries c) buf -> globals_of globals gs buf -> config_of globals gs c.
Proof.
  intros Hr Ha Hgl Hgs Hm Hg. split; [done|]. exists buf. split; [done|]. split; [done|]. split.
  - intros key index Hk Hh.
    assert (config_get_value c None index (Some (key ++ [0])) = config_get_value c (Some (buf, 0%nat)) index (Some (key ++ [0]))) as ->
      by (unfold config_get_value; by rewrite Ha).
    unfold globals_of in Hg. destruct gs as [|[h b] gs].
    + eapply get_value_cstr; [done|exact Hg|by apply plain_pos|done|]. intros. rewrite lines_unlines by done. apply find_key_app.
    + destruct (decide (globals = [])) as [->|Hne].
      * apply Forall_cons in Hgs as [(Hpl & He & _) _]. cbn [fst] in *.
        rewrite (get_value_cstr c buf 0 h [h]); try done; [by rewrite find_key_entry| |].
        -- eapply Forall_impl; [exact Hpl|]. by intros ? [].
        -- intros. assert (lines h = [h]) as ->; [|done]. rewrite <- (lines_body [h]); [|by repeat constructor|done].
           unfold body_of, join. cbn. by rewrite app_nil_r.
      * eapply get_value_cstr; [done|exact Hg|by apply body_pos|done|]. intros. by rewrite lines_body.
  - intros i g e o key index Hi He Ho Hk. destruct (mo_text _ _ _ _ Hm i g Hi) as (e' & He' & _ & _ & Hb).
    rewrite He in He'. injection He' as <-. rewrite Ho in Hb.
    pose proof (proj1 (Forall_lookup _ _) Hgs i g Hi) as (_ & _ & Hpl & _).
    eapply get_value_cstr; [done|exact Hb|by apply body_pos|done|]. intros k off j.
    destruct (decide (g.2 = [])) as [->|Hne]; [apply find_key_nil|by rewrite lines_body].
Qed.

(** C7.  Reading a configuration file whose stripped lines, with the macro
    definitions taken out and the references replaced, are [out_lines rs]: it
    either returns a configuration with the menu the entry lines describe (their
    nesting, names, expansion marks and bodies, all inside the text), in which
    looking a key up globally finds the lines before the first entry, and
    looking it up in an entry finds that entry's own lines, or panics because an
    entry is nested too deep or has no parent.  Whether a hash is set decides
    the editor and secure-boot flags, and the raw file is kept under UEFI. *)
Theorem init_config_correct size_bits (uefi hashed : bool) b2sum arch fw_type loader_arch c buf size rs :
  let text := take (size - 2) buf in
  let ls := map strip (lines text) in
  let macros := defined (predefined_macros arch fw_type loader_arch) ls in
  let menu := split_menu (out_lines rs) in
  length buf = size -> (2 <= size)%nat -> Forall (fun c => 0 < c) text -> Forall plain [arch; fw_type; loader_arch] ->
  check_b2sum b2sum buf size = Ok hashed ->
  Forall2 (line_ok macros) ls rs -> (forall l ls', ls = l :: ls' -> proper_start l ls') ->
  Z.of_nat (length (unlines (out_lines rs)) + 1) < 2 ^ size_bits ->
  res_post (fun c' : config => config_of menu.1 menu.2 c' /\
      config_raw c' = (if uefi then Some text else config_raw c) /\
      secure_boot_active c' = hashed && secure_boot_active c /\ editor_enabled c' = negb hashed && editor_enabled c)
    (menu_err menu.2)
    (init_config size_bits uefi b2sum arch fw_type loader_arch c buf size).
Proof.
  intros text ls macros menu Hlen Hs Htext Hpre Hhash Hrs Hst Hbits. unfold init_config. rewrite Hhash. cbn [rbind].
  destruct (normalise_spec buf size Hlen Hs) as (rest & En & _). fold text in En. fold ls in En. rewrite En. cbn [rbind]. clear En.
  assert (Forall plain ls) as Hpl.
  { apply Forall_map. apply (Forall_impl plain); [by apply lines_plain|]. intros l. apply strip_plain. }
  assert (ls <> []) as Hne by (unfold ls; pose proof (lines_nonempty text); by destruct (lines text)).
  destruct (expand_stage size_bits arch fw_type loader_arch ls rs Hne Hpl Hrs Hst Hbits rest) as [rest' He].
  cbv zeta in He. destruct (has_macro_references _ _) as [refs| | |]; try done. cbn [rbind] in *. rewrite He. cbn [rbind].
  assert (Forall plain (out_lines rs)) as Hout.
  { eapply out_lines_plain; [|exact Hpl|exact Hrs]. apply defined_plain; [|done].
    apply Forall_cons in Hpre as [H1 Hpre]. apply Forall_cons in Hpre as [H2 Hpre]. apply Forall_cons in Hpre as [H3 _]. by repeat constructor. }
  pose proof (split_menu_spec _ Hout) as Hsp. fold menu in Hsp. destruct menu as [globals gs]. destruct Hsp as (-> & Hg & Hn & Hgs).
  eapply res_post_bind; [by apply create_menu_tree_spec|]. intros [[root es] out] [Hm Hgl]. cbn [res_post fst snd].
  split; [by eapply config_of_menu|]. by destruct hashed.
Qed.

(** ** Macro expansion, stated on the text

    A definition is [${name}=value] up to the end of the line, behind a newline or
    at the very start of the text ([first]).  The pass that expands takes any
    characters but a closing brace for the name; the one that loads stops the name
    at the end of the line too, and, behind a newline at the very start of the
    text, takes the opening brace for a part of it. *)
Definition in_line (c : Z) : Prop := c <> 10 /\ c <> 0.

Definition ends_line (rest : list Z) : Prop := exists c r, rest = c :: r /\ (c = 10 \/ c = 0).

Definition skipped_at (first : bool) (s name value rest : list Z) : Prop :=
  let definition := 36 :: 123 :: name ++ 125 :: 61 :: value ++ rest in
  (s = 10 :: definition \/ first = true /\ s = definition) /\
  (125 ∉ name) /\ Forall in_line value /\ ends_line rest.

Definition stored_at (first : bool) (s name value rest : list Z) : Prop :=
  let body := name ++ 125 :: 61 :: value ++ rest in
  (first = false /\ s = 10 :: 36 :: 123 :: body \/
   first = true /\ s = 36 :: 123 :: body \/
   first = true /\ s = 10 :: 36 :: body /\ head body = Some 123) /\
  (125 ∉ name) /\ Forall in_line name /\ Forall in_line value /\ ends_line rest.

(** The definitions of a text, the last one first, in front of those there were. *)
Inductive definitions : bool -> list Z -> list macro -> list macro -> Prop :=
| df_end first ms : definitions first [] ms ms
| df_stored first s name value rest ms ms' :
    stored_at first s name value rest -> (length name <= 1023)%nat -> (length value <= 2047)%nat ->
    definitions false rest (MkMacro name value :: ms) ms' -> definitions first s ms ms'
| df_other first c rest ms ms' :
    (forall name value r, ~ stored_at first (c :: rest) name value r) ->
    definitions false rest ms ms' -> definitions first (c :: rest) ms ms'.

(** Definitions go, with the newline before them; a reference [${name}] becomes the
    value of the first macro of that name, or nothing; the rest stays. *)
Inductive expansion (macros : list macro) : bool -> list Z -> list Z -> Prop :=
| xp_end first : expansion macros first [] []
| xp_definition first s name value rest out :
    skipped_at first s name value rest -> expansion macros false rest out -> expansion macros first s out
| xp_reference first name rest out :
    (forall n v r, ~ skipped_at first (36 :: 123 :: name ++ 125 :: rest) n v r) ->
    Forall in_line name -> (125 ∉ name) -> (length name <= 1023)%nat ->
    expansion macros false rest out ->
    expansion macros first (36 :: 123 :: name ++ 125 :: rest) (macro_value macros name ++ out)
| xp_other first c rest out :
    (forall n v r, ~ skipped_at first (c :: rest) n v r) -> (c = 36 -> head rest <> Some 123) ->
    expansion macros false rest out -> expansion macros first (c :: rest) (c :: out).

Lemma brace_split (a b a' b' : list Z) : a ++ 125 :: b = a' ++ 125 :: b' -> 125 ∉ a -> 125 ∉ a' -> a = a' /\ b = b'.
Proof.
  intros E Ha Ha'. assert (forall l : list Z, 125 ∉ l -> Forall (fun c => c <> 125) l) as Hf.
  { intros l Hl. apply Forall_forall. intros c Hc ->. done. }
  pose proof (break_brace_app a b (Hf _ Ha)) as H1. rewrite E, break_brace_app in H1 by (by apply Hf). by injection H1.
Qed.

Lemma line_end_false c : line_end c = false -> in_line c.
Proof. unfold line_end, in_line, is_sep. intros H. bool_hyps. unfold SEPARATOR in *. lia. Qed.

Lemma line_end_true c : line_end c = true -> c = 10 \/ c = 0.
Proof. unfold line_end, is_sep. intros H. bool_cases; unfold SEPARATOR in *; lia. Qed.

Lemma name_end_false c : name_end c = false -> in_line c /\ c <> 125.
Proof. unfold name_end, in_line, is_sep. intros H. bool_hyps. unfold SEPARATOR in *. lia. Qed.

Lemma stops_prefix stop s n : stops stop s n -> Forall (fun c => stop c = false) (take n s).
Proof.
  intros [H _]. apply Forall_lookup. intros i c Hc. pose proof (lookup_lt_Some _ _ _ Hc) as Hl. rewrite length_take in Hl.
  rewrite lookup_take_lt in Hc by lia. apply (H i); [lia|done].
Qed.

Lemma names_inline name : Forall (fun c => name_end c = false) name -> Forall in_line name /\ 125 ∉ name.
Proof.
  intros H. split; [eapply Forall_impl; [exact H|]; intros c Hc; by apply name_end_false|].
  rewrite Forall_forall in H. intros Hin. by apply H in Hin.
Qed.

Section OnText.
Variables (config : list Z) (config_size : nat).
Hypothesis Hsize : (0 < config_size <= length config)%nat.
Hypothesis Hend : config !! (config_size - 1)%nat = Some 0.
Hypothesis Hbytes : Forall is_byte config.

Let txt : list Z := take config_size config.

Lemma txt_split j n c : (j + n < config_size)%nat -> config !! (j + n)%nat = Some c ->
  drop j txt = take n (drop j config) ++ c :: drop (S (j + n)) txt.
Proof.
  intros Hl Hc. assert (txt !! (j + n)%nat = Some c) as Ht by (unfold txt; by rewrite lookup_take_lt by lia).
  rewrite <- (drop_S _ _ _ Ht), <- (take_drop n (drop j txt)), drop_drop. f_equal.
  unfold txt. rewrite !take_drop_commute, take_take. by rewrite Nat.min_l by lia.
Qed.

Lemma txt_head i c : (i < config_size)%nat -> config !! i = Some c -> drop i txt = c :: drop (S i) txt.
Proof. intros Hi Hc. rewrite (txt_split i 0 c) by (rewrite ?Nat.add_0_r; done). by rewrite Nat.add_0_r. Qed.

(** A short pattern at a position, inside the text. *)
Lemma txt_at i pat : (i <= config_size)%nat ->
  ((length pat <= config_size - i)%nat /\ take (length pat) (drop i config) = pat) <-> exists r, drop i txt = pat ++ r.
Proof.
  intros Hi. split.
  - intros [Hl Ht]. exists (drop (i + length pat) txt). rewrite <- Ht at 1. rewrite <- (take_drop (length pat) (drop i txt)), drop_drop.
    f_equal. unfold txt. rewrite !take_drop_commute, take_take. by rewrite Nat.min_l by lia.
  - intros [r Hr]. assert (length pat <= config_size - i)%nat as Hl.
    { apply (f_equal length) in Hr. rewrite length_drop, length_app in Hr. unfold txt in Hr. rewrite length_take in Hr. lia. }
    split; [done|]. apply (f_equal (take (length pat))) in Hr. rewrite take_app_length in Hr. etransitivity; [|exact Hr]. unfold txt.
    rewrite !take_drop_commute, take_take. by rewrite Nat.min_l by lia.
Qed.

(** Where a line starts with [${], with what follows it. *)
Definition opens (i : nat) (r : list Z) : Prop := drop i txt = 10 :: 36 :: 123 :: r \/ i = 0%nat /\ drop i txt = 36 :: 123 :: r.

Lemma ref_line_opens i : (i < config_size)%nat -> if ref_line config config_size i then exists r, opens i r else forall r, ~ opens i r.
Proof.
  intros Hi. unfold ref_line, opens.
  pose proof (txt_at i [SEPARATOR; 36; 123] ltac:(lia)) as H3. pose proof (txt_at 0 [36; 123] ltac:(lia)) as H2. cbn [length app] in *. rewrite !drop_0 in H2.
  destruct (3 <=? config_size - i)%nat eqn:E3; cbn [andb].
  - apply Nat.leb_le in E3. destruct (decide (take 3 (drop i config) = [SEPARATOR; 36; 123])) as [Ht|Ht].
    { rewrite (bool_decide_eq_true_2 _ Ht). cbn [orb]. destruct (proj1 H3 (conj E3 Ht)) as [r Hr]. exists r. by left. }
    rewrite (bool_decide_eq_false_2 _ Ht). cbn [orb].
    destruct ((2 <=? config_size - i)%nat && (i =? 0)%nat) eqn:E2; cbn [andb].
    + bool_hyps. subst i. destruct (decide (take 2 config = [36; 123])) as [Ht2|Ht2].
      * rewrite (bool_decide_eq_true_2 _ Ht2). destruct (proj1 H2) as [r Hr]; [split; [lia|done]|]. exists r. right. by rewrite drop_0.
      * rewrite (bool_decide_eq_false_2 _ Ht2). intros r [Hr|[_ Hr]]; [apply Ht, H3; by exists r|apply Ht2, H2; exists r; by rewrite drop_0 in Hr].
    + intros r [Hr|[-> Hr]]; [apply Ht, H3; by exists r|]. apply andb_false_iff in E2 as [E2|E2]; [apply Nat.leb_gt in E2; lia|done].
  - apply Nat.leb_gt in E3. cbn [orb]. assert (forall r, drop i txt <> 10 :: 36 :: 123 :: r) as Hno by (intros r Hr; assert (3 <= config_size - i)%nat by (apply H3; by exists r); lia).
    destruct ((2 <=? config_size - i)%nat && (i =? 0)%nat) eqn:E2; cbn [andb].
    + bool_hyps. subst i. destruct (decide (take 2 config = [36; 123])) as [Ht2|Ht2].
      * rewrite (bool_decide_eq_true_2 _ Ht2). destruct (proj1 H2) as [r Hr]; [split; [lia|done]|]. exists r. right. by rewrite drop_0.
      * rewrite (bool_decide_eq_false_2 _ Ht2). intros r [Hr|[_ Hr]]; [by apply (Hno r)|apply Ht2, H2; exists r; by rewrite drop_0 in Hr].
    + intros r [Hr|[-> Hr]]; [by apply (Hno r)|]. rewrite drop_0 in Hr. apply andb_false_iff in E2 as [E2|E2]; [|done].
      apply Nat.leb_gt in E2. assert (2 <= config_size - 0)%nat by (apply H2; by exists r). lia.
Qed.

(** The text from [reference_start] on: one brace early behind a first newline. *)
Lemma opens_start i r : opens i r ->
  drop (reference_start i) txt = r /\ (i = 0%nat -> drop i txt = 36 :: 123 :: r) \/
  i = 0%nat /\ drop i txt = 10 :: 36 :: 123 :: r /\ drop (reference_start i) txt = 123 :: r.
Proof.
  unfold opens, reference_start. intros Ho. assert (forall k, drop (i + k) txt = drop k (drop i txt)) as Hd by (intros k; by rewrite drop_drop).
  destruct (Nat.eqb_spec i 0) as [->|Hi].
  - rewrite (Hd 2%nat). destruct Ho as [->|[_ ->]]; [right|left]; done.
  - left. rewrite (Hd 3%nat). destruct Ho as [->|[? _]]; done.
Qed.

Lemma skipped_opens i n v r : skipped_at (i =? 0)%nat (drop i txt) n v r -> opens i (n ++ 125 :: 61 :: v ++ r).
Proof. intros [[H|[Hi H]] _]; [by left|right]. split; [by apply Nat.eqb_eq|done]. Qed.

Lemma opens_unique i r r' : opens i r -> opens i r' -> r = r'.
Proof. unfold opens. intros [H|[_ H]] [H'|[_ H']]; congruence. Qed.

(** What [skip_definition] decides. *)
Lemma skip_definition_text i r : (i < config_size)%nat -> opens i r ->
  match skip_definition config config_size i with
  | Ok (Some i') => (i < i')%nat /\ exists n v, skipped_at (i =? 0)%nat (drop i txt) n v (drop i' txt)
  | Ok None => forall n v r', ~ skipped_at (i =? 0)%nat (drop i txt) n v r'
  | _ => True
  end.
Proof.
  intros Hi Ho. assert (ref_line config config_size i = true) as Href.
  { pose proof (ref_line_opens i Hi) as H. destruct (ref_line _ _ i); [done|by destruct (H r)]. }
  pose proof (ref_line_inside config config_size Hsize Hend i Hi Href) as Hj. unfold skip_definition.
  set (j := reference_start i) in *.
  destruct (scan_below_ok config config_size Hsize (fun c => c =? 125) (drop j config) (config_size - j)) as (k & -> & Hk & Hst); [rewrite length_drop; lia|].
  cbn [rbind]. case_if; [done|]. specialize (Hst ltac:(lia)). pose proof (stops_prefix _ _ _ Hst) as Hpre.
  destruct Hst as [_ (c & Hc & Hc125)]. apply Z.eqb_eq in Hc125. subst c. rewrite lookup_drop in Hc.
  pose proof (txt_split j k 125 ltac:(lia) Hc) as Hsplit. set (nm := take k (drop j config)) in *.
  assert (125 ∉ nm) as Hnm by (intros Hin; rewrite Forall_forall in Hpre; by apply Hpre in Hin).
  assert (exists name, (125 ∉ name) /\ r = name ++ 125 :: drop (S (j + k)) txt) as (name & Hname & Hr).
  { destruct (opens_start i r Ho) as [[Hs _]|(_ & _ & Hs)]; fold j in Hs; rewrite Hsplit in Hs; [by exists nm|].
    destruct nm as [|c nm]; [discriminate Hs|]. injection Hs as -> Hs. exists nm. split; [set_unfold; tauto|done]. }
  assert (forall n v r', skipped_at (i =? 0)%nat (drop i txt) n v r' -> drop (S (j + k)) txt = 61 :: v ++ r') as Hno.
  { intros n v r' Hsk. pose proof (skipped_opens i n v r' Hsk) as Ho'. pose proof (opens_unique _ _ _ Ho Ho') as E. rewrite Hr in E.
    destruct Hsk as (_ & Hn & _). by destruct (brace_split _ _ _ _ E Hname Hn). }
  case_if. { intros n v r' Hsk. apply Hno in Hsk. rewrite drop_ge in Hsk; [done|]. unfold txt. rewrite length_take. lia. }
  destruct (lookup_lt_is_Some_2 config (S (j + k)) ltac:(lia)) as [c Hc2]. rewrite (rd_lookup _ _ _ Hc2). cbn [rbind].
  pose proof (txt_head (S (j + k)) c ltac:(lia) Hc2) as Hhd.
  destruct (Z.eqb_spec c 61) as [->|Hne]; cbn [negb].
  2: { intros n v r' Hsk. apply Hno in Hsk. congruence. }
  assert (S (j + k) <> config_size - 1)%nat as Hne by (intros E; rewrite E, Hend in Hc2; discriminate Hc2).
  destruct (scan_stops line_end (drop (S (S (j + k))) config) (config_size - 1 - S (S (j + k))) 0) as (m & Em & Hm & Hst);
    [apply end_from; (done || lia)|done|]. unfold scan. rewrite Em. cbn [rbind]. split; [lia|].
  pose proof (stops_prefix _ _ _ Hst) as Hv. destruct Hst as [_ (d & Hd & Hde)]. rewrite lookup_drop in Hd.
  pose proof (txt_split (S (S (j + k))) m d ltac:(lia) Hd) as Hsv.
  exists name, (take m (drop (S (S (j + k))) config)).
  assert (drop (S (S (j + k)) + m) txt = d :: drop (S (S (S (j + k)) + m)) txt) as Hrest by (apply txt_head; [lia|done]).
  assert (r = name ++ 125 :: 61 :: take m (drop (S (S (j + k))) config) ++ drop (S (S (j + k)) + m) txt) as Hrr
    by (by rewrite Hr, Hhd, Hsv, Hrest).
  split; [destruct Ho as [Ho|[-> Ho]]; rewrite Ho, Hrr; [by left|by right]|]. split; [done|]. split.
  - eapply Forall_impl; [exact Hv|]. intros x Hx. by apply line_end_false.
  - exists d, (drop (S (S (S (j + k)) + m)) txt). split; [done|by apply line_end_true].
Qed.

Lemma next_piece_text macros i i' bs out :
  Forall (fun m => pos_text (m_name m)) macros -> (i < config_size)%nat ->
  (forall n v r, ~ skipped_at (i =? 0)%nat (drop i txt) n v r) ->
  next_piece config config_size macros i = Ok (i', bs) ->
  expansion macros false (drop i' txt) out -> expansion macros (i =? 0)%nat (drop i txt) (bs ++ out).
Proof.
  intros Hm Hi Hno. unfold next_piece. pose proof (txt_at i [36; 123] ltac:(lia)) as Hat. cbn [length app] in Hat.
  assert (exists b, (if (2 <=? config_size - i)%nat then at_text config i (bytes "${") else Ok false) = Ok b /\
    (b = true <-> exists r, drop i txt = 36 :: 123 :: r)) as (b & -> & Hb).
  { destruct (2 <=? config_size - i)%nat eqn:E2.
    - apply Nat.leb_le in E2. rewrite at_text_spec by (cbn; lia). eexists. split; [done|]. rewrite bool_decide_eq_true, <- Hat. by split; [|intros []].
    - apply Nat.leb_gt in E2. exists false. split; [done|]. rewrite <- Hat. split; [done|lia]. }
  cbn [rbind]. destruct b.
  - destruct (proj1 Hb eq_refl) as [r Hr].
    assert (i + 2 < config_size)%nat as Hi2.
    { destruct (proj2 Hat) as [Hl Ht]; [by exists r|]. apply (text_inside config config_size Hsize Hend i [36; 123]); [cbn; lia|done|cbn; lia|done]. }
    destruct (copy_at_most_stops name_end (drop (i + 2) config) MACRO_NAME_MAX (config_size - 1 - (i + 2)) 0)
      as (name & -> & En & H1 & H2 & _ & Hne); [apply end_from; (done || lia)|done|]. cbn [rbind].
    destruct (lookup_lt_is_Some_2 config (i + 2 + length name) ltac:(lia)) as [c Hc]. rewrite (rd_lookup _ _ _ Hc). cbn [rbind].
    destruct (Z.eqb_spec c 125) as [->|]; cbn [negb]; [|done].
    rewrite find_macro_spec; [|done|apply (byte_pos config config_size Hsize); [|done]; rewrite En; by apply Forall_take, Forall_drop].
    cbn [rbind]. intros [= <- <-] Hx. pose proof (txt_split (i + 2) (length name) 125 ltac:(lia) Hc) as Hs. rewrite <- En in Hs.
    assert (drop (i + 2) txt = r) as Hr2 by (rewrite <- drop_drop, Hr; done).
    rewrite Hr2 in Hs. rewrite Hs in Hr. rewrite Hr in *. destruct (names_inline name Hne). by apply xp_reference.
  - destruct (lookup_lt_is_Some_2 config i ltac:(lia)) as [c Hc]. rewrite (rd_lookup _ _ _ Hc). cbn [rbind].
    intros [= <- <-] Hx. rewrite (txt_head i c Hi Hc) in *. apply xp_other; [done| |done].
    intros -> Hh. destruct (drop (S i) txt) as [|d r]; [done|]. injection Hh as ->. assert (false = true) as [=]. apply Hb. by exists r.
Qed.

Lemma emits_expansion macros i out : Forall (fun m => pos_text (m_name m)) macros ->
  emits config config_size macros i out -> expansion macros (i =? 0)%nat (drop i txt) out.
Proof.
  intros Hm He. induction He as [i Hi|i i' bs rest Hi Hlt Hs He IH].
  { rewrite drop_ge by (unfold txt; rewrite length_take; lia). constructor. }
  rewrite (proj2 (Nat.eqb_neq i' 0)) in IH by lia. unfold step in Hs. rewrite at_reference_line_spec in Hs by done. cbn [rbind] in Hs.
  pose proof (ref_line_opens i Hi) as Href. destruct (ref_line config config_size i).
  - destruct Href as [r Ho]. pose proof (skip_definition_text i r Hi Ho) as Hsk.
    destruct (skip_definition config config_size i) as [[i1|]| | |]; cbn [rbind] in Hs; try done.
    + injection Hs as <- <-. destruct Hsk as (_ & n & v & Hsk). by eapply xp_definition.
    + by eapply next_piece_text.
  - eapply next_piece_text; try done. intros n v r Hsk. by apply (Href _ (skipped_opens i n v r Hsk)).
Qed.

(** *** Loading *)
Lemma opens_body i r : opens i r -> let body := drop (reference_start i) txt in
  i <> 0%nat /\ drop i txt = 10 :: 36 :: 123 :: body \/
  i = 0%nat /\ drop i txt = 36 :: 123 :: body \/
  i = 0%nat /\ drop i txt = 10 :: 36 :: body /\ head body = Some 123.
Proof.
  intros Ho. cbv zeta. destruct (opens_start i r Ho) as [[Hs H0]|(Hi & H0 & Hs)]; rewrite Hs; [|right; right; by rewrite H0].
  destruct (decide (i = 0%nat)) as [E|E]; [right; left; auto|left]. split; [done|]. by destruct Ho as [Ho|[? _]].
Qed.

Lemma stored_opens i n v r : stored_at (i =? 0)%nat (drop i txt) n v r ->
  (exists r', opens i r') /\ drop (reference_start i) txt = n ++ 125 :: 61 :: v ++ r.
Proof.
  intros (H & _). unfold opens, reference_start.
  assert (forall k, drop (i + k) txt = drop k (drop i txt)) as Hd by (intros k; by rewrite drop_drop).
  destruct H as [(Hi & H)|[(Hi & H)|(Hi & H & Hh)]]; rewrite Hi, Hd, H; (split; [|done]).
  - eexists. by left.
  - eexists. right. split; [by apply Nat.eqb_eq|done].
  - destruct (n ++ 125 :: 61 :: v ++ r) as [|x b]; [done|]. injection Hh as ->. eexists. by left.
Qed.

Lemma definitions_skip p rest ms mf : 10 ∉ p -> definitions false rest ms mf -> definitions false (p ++ rest) ms mf.
Proof.
  intros Hp Hd. induction p as [|c p IH]; [done|]. apply not_elem_of_cons in Hp as [Hc Hp]. cbn [app]. apply df_other; [|by apply IH].
  intros n v r ([[_ [= E _]]|[[? _]|[? _]]] & _); done.
Qed.

Lemma stop_split (stop : Z -> bool) a x b : forall a' x' b', a ++ x :: b = a' ++ x' :: b' ->
  Forall (fun c => stop c = false) a -> Forall (fun c => stop c = false) a' -> stop x = true -> stop x' = true -> a = a' /\ x = x' /\ b = b'.
Proof.
  induction a as [|c a IH]; intros [|c' a'] x' b' E Ha Ha' Hx Hx'; cbn [app] in E; injection E as <- E.
  - done.
  - apply Forall_cons in Ha' as [? _]. congruence.
  - apply Forall_cons in Ha as [? _]. congruence.
  - apply Forall_cons in Ha as [_ Ha], Ha' as [_ Ha']. by destruct (IH a' x' b' E Ha Ha' Hx Hx') as (-> & -> & ->).
Qed.

(** What starts like a definition and is none is passed over, up to where its
    name ends. *)
Lemma definitions_past i r name rest ms mf : opens i r -> drop (reference_start i) txt = name ++ rest -> Forall in_line name ->
  (forall n v r', ~ stored_at (i =? 0)%nat (drop i txt) n v r') ->
  definitions false rest ms mf -> definitions (i =? 0)%nat (drop i txt) ms mf.
Proof.
  intros Ho Hs Hin Hno Hd. pose proof (opens_body i r Ho) as Hbody. cbv zeta in Hbody. rewrite Hs in Hbody.
  assert (forall x q, 10 ∉ q -> drop i txt = x :: q ++ name ++ rest -> definitions (i =? 0)%nat (drop i txt) ms mf) as Hgo.
  { intros x q Hq E. rewrite E in *. apply df_other; [done|]. apply definitions_skip; [done|]. apply definitions_skip; [|done].
    intros H10. rewrite Forall_forall in Hin. by destruct (Hin 10 H10). }
  destruct Hbody as [[_ E]|[[_ E]|(_ & E & _)]]; [eapply (Hgo _ [36; 123])|eapply (Hgo _ [123])|eapply (Hgo _ [36])]; try exact E;
    rewrite !not_elem_of_cons; by split_and?; try apply not_elem_of_nil.
Qed.

(** One turn of the loader. *)
Lemma load_turn_text i ms : Forall (fun m => pos_text (m_name m)) ms -> (i < config_size)%nat ->
  res_post (fun t => exists i' ms', t = inl (i', ms') /\ (i < i')%nat /\ Forall (fun m => pos_text (m_name m)) ms' /\
      forall mf, definitions false (drop i' txt) ms' mf -> definitions (i =? 0)%nat (drop i txt) ms mf)
    (fun m => m = name_too_long \/ m = value_too_long) (load_macros_body config config_size (i, ms)).
Proof.
  intros Hms Hi. unfold load_macros_body. rewrite (proj2 (Nat.leb_gt _ _)) by lia. rewrite at_reference_line_spec by done. cbn [rbind].
  pose proof (ref_line_opens i Hi) as Href. destruct (ref_line config config_size i) eqn:Er.
  2: { exists (S i), ms. split_and!; try done; [lia|]. intros mf Hd. destruct (lookup_lt_is_Some_2 config i ltac:(lia)) as [c Hc].
       rewrite (txt_head i c Hi Hc) in *. apply df_other; [|done]. intros n v r Hst. rewrite <- (txt_head i c Hi Hc) in Hst.
       destruct (stored_opens i n v r Hst) as [[r' Ho] _]. by apply (Href r'). }
  destruct Href as [r Ho]. pose proof (ref_line_inside config config_size Hsize Hend i Hi Er) as Hj.
  pose proof (opens_body i r Ho) as Hbody. cbv zeta in Hbody. pose proof (stored_opens i) as Hsto. set (j := reference_start i) in *.
  eapply (res_post_bind (fun name => name = take (length name) (drop j config) /\ (length name <= config_size - 1 - j)%nat /\
    (length name <= MACRO_NAME_MAX)%nat /\ stops name_end (drop j config) (length name))).
  { eapply res_post_mono; [apply (copy_until_stops _ _ _ _ (config_size - 1 - j) 0); [apply end_from; (done || lia)|done]|by intros|by left]. }
  intros name (En & Hl & Hmax & Hst). pose proof (stops_prefix _ _ _ Hst) as Hne. rewrite <- En in Hne.
  destruct Hst as [_ (c & Hc & Hce)]. rewrite lookup_drop in Hc. rewrite (rd_lookup _ _ _ Hc). cbn [rbind].
  pose proof (txt_split j (length name) c ltac:(lia) Hc) as Hs. rewrite <- En in Hs. destruct (names_inline name Hne) as [Hin Hbr].
  pose proof (txt_head (j + length name) c ltac:(lia) Hc) as Hhd.
  assert (forall n v r', stored_at (i =? 0)%nat (drop i txt) n v r' -> name = n /\ c = 125 /\ drop (S (j + length name)) txt = 61 :: v ++ r') as Huniq.
  { intros n v r' Hx. destruct (Hsto n v r' Hx) as [_ E]. rewrite Hs in E. destruct Hx as (_ & Hn1 & Hn2 & _).
    eapply (stop_split name_end) in E; try done. apply Forall_forall. intros x Hx. rewrite Forall_forall in Hn2. destruct (Hn2 x Hx).
    assert (x <> 125) by (intros ->; done). unfold name_end, is_sep, SEPARATOR. by rewrite !(proj2 (Z.eqb_neq _ _)) by done. }
  assert ((forall n v r', ~ stored_at (i =? 0)%nat (drop i txt) n v r') -> exists i' ms',
    @inl (nat * list macro) (list macro) ((j + length name)%nat, ms) = inl (i', ms') /\ (i < i')%nat /\ Forall (fun m => pos_text (m_name m)) ms' /\
    forall mf, definitions false (drop i' txt) ms' mf -> definitions (i =? 0)%nat (drop i txt) ms mf) as Hskip.
  { intros Hno. exists (j + length name)%nat, ms. split_and!; try done; [lia|]. intros mf Hd.
    apply (definitions_past i r name (drop (j + length name) txt)); try done. fold j. by rewrite Hs, Hhd. }
  destruct (line_end c) eqn:Ec.
  { cbn [rbind res_post]. apply Hskip. intros n v r' Hx. destruct (Huniq n v r' Hx) as (_ & -> & _). done. }
  assert (c = 125) as ->.
  { unfold name_end, line_end, is_sep in *. destruct (Z.eqb_spec c 125); [done|]. cbn [orb] in Hce. congruence. }
  assert (j + length name <> config_size - 1)%nat as Hne1 by (intros E; rewrite E, Hend in Hc; discriminate Hc).
  destruct (lookup_lt_is_Some_2 config (S (j + length name)) ltac:(lia)) as [d Hd]. rewrite (rd_lookup _ _ _ Hd). cbn [rbind].
  pose proof (txt_head (S (j + length name)) d ltac:(lia) Hd) as Hhd2.
  destruct (Z.eqb_spec d 61) as [->|Hd61]; cbn [negb].
  2: { cbn [res_post]. apply Hskip. intros n v r' Hx. destruct (Huniq n v r' Hx) as (_ & _ & E). congruence. }
  assert (S (j + length name) <> config_size - 1)%nat as Hne2 by (intros E; rewrite E, Hend in Hd; discriminate Hd).
  set (k := (j + length name + 2)%nat).
  eapply (res_post_bind (fun value => value = take (length value) (drop k config) /\ (length value <= config_size - 1 - k)%nat /\
    (length value <= MACRO_VALUE_MAX)%nat /\ stops line_end (drop k config) (length value))).
  { eapply res_post_mono; [apply (copy_until_stops _ _ _ _ (config_size - 1 - k) 0); [apply end_from; unfold k; (done || lia)|done]|by intros|by right]. }
  intros value (Ev & Hvl & Hvmax & Hvst). pose proof (stops_prefix _ _ _ Hvst) as Hve. rewrite <- Ev in Hve.
  destruct Hvst as [_ (e & He & Hee)]. rewrite lookup_drop in He.
  pose proof (txt_split k (length value) e ltac:(lia) He) as Hsv. rewrite <- Ev in Hsv.
  pose proof (txt_head (k + length value) e ltac:(unfold k in *; lia) He) as Hhd3.
  cbn [res_post]. eexists _, _. split; [done|]. split; [lia|]. split.
  { constructor; [|done]. cbn [m_name]. apply (byte_pos config config_size Hsize); [rewrite En; by apply Forall_take, Forall_drop|done]. }
  intros mf Hmf. eapply (df_stored _ _ name value (drop (k + length value) txt)); try done.
  assert (drop j txt = name ++ 125 :: 61 :: value ++ drop (k + length value) txt) as Hbd.
  { rewrite Hs, Hhd2. do 3 f_equal. replace (S (S (j + length name))) with k by (unfold k; lia). by rewrite Hsv, Hhd3. }
  rewrite Hbd in Hbody. split; [|split_and!; try done].
  - destruct Hbody as [[Hi0 E]|[[Hi0 E]|(Hi0 & E & Hh)]]; [left|right; left|right; right]; rewrite E.
    + split; [by apply Nat.eqb_neq|done].
    + split; [by apply Nat.eqb_eq|done].
    + split_and!; [by apply Nat.eqb_eq|done|done].
  - eapply Forall_impl; [exact Hve|]. intros x Hx. by apply line_end_false.
  - exists e, (drop (S (k + length value)) txt). split; [done|by apply line_end_true].
Qed.

Lemma load_macros_text ms : Forall (fun m => pos_text (m_name m)) ms ->
  res_post (fun mf => Forall (fun m => pos_text (m_name m)) mf /\ definitions true txt ms mf)
    (fun m => m = name_too_long \/ m = value_too_long) (load_macros config config_size ms).
Proof.
  intros Hms. unfold load_macros. apply (loop_spec _ (fun '(i, ms1) => Forall (fun m => pos_text (m_name m)) ms1 /\
    forall mf, definitions (i =? 0)%nat (drop i txt) ms1 mf -> definitions true txt ms mf)); [| |lia].
  - intros [i ms1] [Hm1 Hinv]. unfold turn_ok. destruct (decide (config_size <= i)%nat) as [Hle|Hlt].
    + unfold load_macros_body. rewrite (proj2 (Nat.leb_le _ _)) by lia. cbn. split; [done|]. apply Hinv.
      rewrite drop_ge by (unfold txt; rewrite length_take; lia). constructor.
    + eapply res_post_mono; [by apply load_turn_text; [done|lia]| |done].
      intros t (i' & ms' & -> & Hi' & Hm' & Hd). split; [|lia]. split; [done|]. intros mf H. apply Hinv, Hd.
      by rewrite (proj2 (Nat.eqb_neq i' 0)) in H by lia.
  - split; [done|]. intros mf H. by rewrite drop_0 in H.
Qed.
End OnText.

Lemma expand_config_text size_bits arch fw_type loader_arch config config_size :
  0 < size_bits -> (0 < config_size <= length config)%nat -> config !! (config_size - 1)%nat = Some 0 -> Forall is_byte config ->
  res_post (fun out => exists macros,
      definitions true (take config_size config) (predefined_macros arch fw_type loader_arch) macros /\
      expansion macros true (take config_size config) out)
    macro_msg (expand_config size_bits arch fw_type loader_arch config config_size).
Proof.
  intros Hbits Hs He Hb. unfold expand_config.
  assert (Forall (fun m => pos_text (m_name m)) (predefined_macros arch fw_type loader_arch)) as Hp by (by repeat constructor).
  eapply res_post_bind; [eapply res_post_mono; [by apply (load_macros_text config config_size Hs He Hb)|intros r Hr; exact Hr|
    unfold macro_msg; tauto]|].
  intros ms [Hms Hdef].
  eapply res_post_bind; [eapply res_post_mono; [by apply (expand_measure config config_size Hs He Hb size_bits ms)|intros r Hr; exact Hr|
    unfold macro_msg; tauto]|].
  intros [o n] (all & [= -> ->] & Hem & Hlt). rewrite (expand_emits _ _ _ _ _ all) by (done || by rewrite length_replicate).
  cbn. exists ms. split; [done|]. apply (emits_expansion config config_size Hs He Hb ms 0 all) in Hem; [|done]. by rewrite drop_0 in Hem.
Qed.

(** C36.  Macro expansion, on any bytes that end in a NUL, whatever their macros:
    loading and both expansion passes terminate without reading or writing outside
    the text or the buffer that the first pass measured, and the result is the text
    with every definition left out and every other reference [${name}] replaced by
    the value of the last definition of that name, of the predefined macro, or by
    nothing.  A definition is [${name}=value] behind a newline or at the very start;
    the loader takes it for one only if its name stays on the line, and behind a
    newline at the very start it takes the opening brace into the name.  The only
    panics are those of malformed usage, of names and values that are too long and
    of a result too large. *)
Theorem macro_expansion_terminates size_bits arch fw_type loader_arch buf size :
  0 < size_bits -> (0 < size <= length buf)%nat -> buf !! (size - 1)%nat = Some 0 -> Forall is_byte buf ->
  res_post (fun out => exists macros,
      definitions true (take size buf) (predefined_macros arch fw_type loader_arch) macros /\
      expansion macros true (take size buf) out)
    macro_msg (expand_config size_bits arch fw_type loader_arch buf size).
Proof. apply expand_config_text. Qed.

Lemma undefined_value macros name : Forall (fun m => m_name m <> name) macros -> macro_value macros name = [].
Proof. induction 1 as [|m macros Hm Hms IH]; [done|]. cbn. by rewrite decide_False. Qed.

Lemma defined_names macros ls name :
  Forall (fun m => m_name m <> name) macros -> Forall (fun l => forall m, def_of l = Some m -> m_name m <> name) ls ->
  Forall (fun m => m_name m <> name) (defined macros ls).
Proof.
  intros Hm Hls. revert macros Hm. induction Hls as [|l ls Hl Hls IH]; intros macros Hm; [done|]. cbn [defined foldl]. apply IH.
  destruct (def_of l) as [m|]; [|done]. constructor; [by apply Hl|done].
Qed.

(** C39.  A macro defined on the second line of a file that starts with an empty
    line is lost: it is stored under its name with the opening brace in front,
    so a reference to it expands to nothing, unless another line or a predefined
    macro gives the name a value. *)
Theorem leading_newline_macro_lost size_bits arch fw_type loader_arch l m ls rs junk :
  let macros := defined (misnamed m :: predefined_macros arch fw_type loader_arch) ls in
  let text := join [] (l :: ls) in
  Forall plain (l :: ls) -> def_of l = Some m ->
  (length (m_name m) < MACRO_NAME_MAX)%nat -> (length (m_value m) <= MACRO_VALUE_MAX)%nat ->
  Forall (fun d => m_name d <> m_name m) (predefined_macros arch fw_type loader_arch) ->
  Forall (fun l' => forall d, def_of l' = Some d -> m_name d <> m_name m) ls ->
  Forall2 (line_ok macros) ls rs -> Z.of_nat (length (concat (map later rs) ++ [0])) < 2 ^ size_bits ->
  expand_config size_bits arch fw_type loader_arch (text ++ 0 :: junk) (length text + 1) = Ok (concat (map later rs) ++ [0]) /\
  macro_value macros (m_name m) = [].
Proof.
  intros macros text Hpl Hd Hln Hlv Hpre Hls Hrs Hbits. split; [by apply (expand_misnamed _ _ _ _ l m)|].
  apply undefined_value, defined_names; [|done]. constructor; [|done]. cbn. intros E. apply (f_equal length) in E. cbn in E. lia.
Qed.

(** *** An executable expansion of one line, for evaluation *)
Fixpoint expand_line (macros : list macro) (n : nat) (l : list Z) : option (list Z) :=
  match n, l with
  | O, _ => None
  | S n, [] => Some []
  | S n, c :: l =>
      if (c =? 36) && bool_decide (head l = Some 123) then
        match break_brace (drop 1 l) with
        | Some (name, l') =>
            if forallb (fun c => negb (name_end c)) name && (length name <=? MACRO_NAME_MAX)%nat then
              app (macro_value macros name) <$> expand_line macros n l'
            else None
        | None => None
        end
      else cons c <$> expand_line macros n l
  end.

Lemma expand_line_sound macros n l r : expand_line macros n l = Some r -> expands macros l r.
Proof.
  revert l r. induction n as [|n IH]; intros l r; [done|]. destruct l as [|c l]; [intros [= <-]; constructor|]. cbn [expand_line].
  destruct ((c =? 36) && bool_decide (head l = Some 123)) eqn:E.
  - apply andb_true_iff in E as [E1 E2]. apply Z.eqb_eq in E1 as ->. apply bool_decide_eq_true_1 in E2.
    destruct l as [|b l]; [done|]. injection E2 as ->. change (drop 1 (123 :: l)) with l.
    pose proof (break_brace_spec l) as Hb. destruct (break_brace l) as [[name l']|]; [|done]. destruct Hb as [-> _].
    destruct (forallb _ name && _) eqn:Eb; [|done]. apply andb_true_iff in Eb as [Ef El]. apply Nat.leb_le in El.
    destruct (expand_line macros n l') as [r'|] eqn:Er; [|done]. intros [= <-]. constructor; [|done|by apply IH].
    apply Forall_forall. intros x Hx. apply list_elem_of_In in Hx. eapply forallb_forall in Ef; [|exact Hx]. cbv beta in Ef. by apply negb_true_iff in Ef.
  - destruct (expand_line macros n l) as [r'|] eqn:Er; [|done]. intros [= <-]. constructor; [|by apply IH].
    intros -> Hh. change ((36 =? 36) && ?b) with b in E. by rewrite bool_decide_eq_true_2 in E by done.
Qed.

(** [line_ok] by evaluation *)
Definition line_out (macros : list macro) (l : list Z) : option (option (list Z)) :=
  match def_of l with
  | Some m => if (length (m_name m) <=? MACRO_NAME_MAX)%nat && (length (m_value m) <=? MACRO_VALUE_MAX)%nat then Some None else None
  | None => Some <$> expand_line macros (S (length l)) l
  end.

Lemma line_out_ok macros ls rs : map (line_out macros) ls = map Some rs -> Forall2 (line_ok macros) ls rs.
Proof.
  revert rs. induction ls as [|l ls IH]; intros [|r rs]; try done. cbn. intros [= Hr Hrs]. constructor; [|by apply IH].
  unfold line_out in Hr. unfold line_ok. destruct (def_of l) as [m|].
  - revert Hr. case_if; [|done]. intros [= <-]. split; [done|]. lia.
  - destruct (expand_line _ _ l) as [t|] eqn:Et; [|done]. injection Hr as <-. exists t. split; [done|]. by eapply expand_line_sound.
Qed.

Definition plainb (l : list Z) : bool := forallb (fun c => (0 <? c) && negb (is_sep c)) l.

Lemma plainb_plain l : plainb l = true -> plain l.
Proof.
  intros H. apply Forall_forall. intros c Hc. apply list_elem_of_In in Hc. eapply forallb_forall in H; [|exact Hc].
  apply andb_true_iff in H as [H1 H2]. split; [lia|]. by apply negb_true_iff.
Qed.

Definition demo_out : list string :=
  ["timeout: 5"; "/Linux"; "protocol: linux"; "PATH: boot():/sys/vmlinuz"; "/+More"; "comment: x"; "//Old x86-64"; "path: z"; ""].
Definition demo_rs : list (option (list Z)) :=
  match map bytes demo_out with l :: ls => Some l :: None :: map Some ls | [] => [] end.

Lemma init_config_correct_witness :
  let menu := split_menu (map bytes demo_out) in
  length menu.2 = 3%nat /\ (exists c, demo_config = Ok c) /\ res_post (config_of menu.1 menu.2) (menu_err menu.2) demo_config.
Proof.
  split; [reflexivity|]. split; [eexists; vm_compute; reflexivity|].
  refine (res_post_mono _ _ _ _ _ (init_config_correct 64 true false CONFIG_B2SUM_EMPTY (bytes "x86-64") (bytes "UEFI") (bytes "x86-64")
    (MkConfig None None false [] None true true) (demo_text ++ [0; 0]) (length demo_text + 2) demo_rs _ _ _ _ _ _ _ _) (fun _ Hc => proj1 Hc) (fun _ Hm => Hm)).
  - reflexivity.
  - vm_compute. lia.
  - apply Forall_forall. intros x Hx. apply list_elem_of_In in Hx.
    assert (forallb (fun c => 0 <? c) (take (length demo_text + 2 - 2) (demo_text ++ [0; 0])) = true) as Hb by (vm_compute; reflexivity).
    eapply forallb_forall in Hb; [|exact Hx]. lia.
  - repeat constructor.
  - vm_compute. reflexivity.
  - apply line_out_ok. vm_compute. reflexivity.
  - intros l ls' E. vm_compute in E. injection E as <- _. intros E0. discriminate E0.
  - vm_compute. reflexivity.
Defined.

Lemma macro_expansion_terminates_witness :
  let text := bytes "${A}=b" ++ 10 :: bytes "c: ${A}${ARCH}" ++ [0] in
  exists macros, definitions true text (predefined_macros (bytes "x86-64") (bytes "UEFI") (bytes "x86-64")) macros /\
    expansion macros true text (10 :: bytes "c: bx86-64" ++ [0]).
Proof.
  intros text. assert (Forall is_byte text) as Hb.
  { apply Forall_forall. intros x Hx. apply list_elem_of_In in Hx. vm_compute in Hx. unfold is_byte.
    repeat (destruct Hx as [<-|Hx]; [lia|]). destruct Hx. }
  pose proof (macro_expansion_terminates 64 (bytes "x86-64") (bytes "UEFI") (bytes "x86-64") text (length text)
    ltac:(lia) ltac:(vm_compute; lia) eq_refl Hb) as H.
  assert (expand_config 64 (bytes "x86-64") (bytes "UEFI") (bytes "x86-64") text (length text) = Ok (10 :: bytes "c: bx86-64" ++ [0])) as E
    by (vm_compute; reflexivity).
  rewrite E in H. rewrite take_ge in H by lia. exact H.
Defined.

Lemma leading_newline_macro_lost_witness :
  let text := 10 :: bytes "${DIR}=boot():/" ++ 10 :: bytes "path: ${DIR}k" ++ [10] in
  expand_config 64 (bytes "x86-64") (bytes "UEFI") (bytes "x86-64") (text ++ [0]) (length text + 1) = Ok (10 :: bytes "path: k" ++ [10; 0]) /\
  macro_value (defined (misnamed (MkMacro (bytes "DIR") (bytes "boot():/")) :: predefined_macros (bytes "x86-64") (bytes "UEFI") (bytes "x86-64"))
    [bytes "path: ${DIR}k"; []]) (bytes "DIR") = [].
Proof.
  apply (leading_newline_macro_lost 64 (bytes "x86-64") (bytes "UEFI") (bytes "x86-64") (bytes "${DIR}=boot():/")
    (MkMacro (bytes "DIR") (bytes "boot():/")) [bytes "path: ${DIR}k"; []] [Some (bytes "path: k"); Some []] []).
  - repeat (constructor; [apply plainb_plain; reflexivity|]). constructor.
  - reflexivity.
  - vm_compute. lia.
  - vm_compute. lia.
  - repeat (constructor; [discriminate|]). constructor.
  - repeat (constructor; [discriminate|]). constructor.
  - apply line_out_ok. vm_compute. reflexivity.
  - vm_compute. reflexivity.
Defined.
