(* ===== verification/Fat.v ===== *)
(** * The FAT driver

    [common/fs/fat32.s2.c] and the character table of [common/lib/cp437.s2.c]:
    the geometry of a FAT12, FAT16 or FAT32 volume, cluster chains, directories
    with long names, and the file a path names.  The volume is read through the
    interface of [Gpt].  Memory for chains and directories comes zeroed from
    [ext_mem_alloc]; running out of it is a panic of the allocator and not
    modelled here. *)

From S2P Require Import Prelude CInt Libc Utf Volume Gpt.

(** ** Code page 437 *)
Definition cp437_to_unicode : list Z :=
  [
   0x0020; 0x263a; 0x263b; 0x2665; 0x2666; 0x2663; 0x2660; 0x2022; 0x25d8; 0x25cb; 0x25d9; 0x2642; 0x2640; 0x266a; 0x266b; 0x263c;
   0x25ba; 0x25c4; 0x2195; 0x203c; 0x00b6; 0x00a7; 0x25ac; 0x21a8; 0x2191; 0x2193; 0x2192; 0x2190; 0x221f; 0x2194; 0x25b2; 0x25bc;
   0x0020; 0x0021; 0x0022; 0x0023; 0x0024; 0x0025; 0x0026; 0x0027; 0x0028; 0x0029; 0x002a; 0x002b; 0x002c; 0x002d; 0x002e; 0x002f;
   0x0030; 0x0031; 0x0032; 0x0033; 0x0034; 0x0035; 0x0036; 0x0037; 0x0038; 0x0039; 0x003a; 0x003b; 0x003c; 0x003d; 0x003e; 0x003f;
   0x0040; 0x0041; 0x0042; 0x0043; 0x0044; 0x0045; 0x0046; 0x0047; 0x0048; 0x0049; 0x004a; 0x004b; 0x004c; 0x004d; 0x004e; 0x004f;
   0x0050; 0x0051; 0x0052; 0x0053; 0x0054; 0x0055; 0x0056; 0x0057; 0x0058; 0x0059; 0x005a; 0x005b; 0x005c; 0x005d; 0x005e; 0x005f;
   0x0060; 0x0061; 0x0062; 0x0063; 0x0064; 0x0065; 0x0066; 0x0067; 0x0068; 0x0069; 0x006a; 0x006b; 0x006c; 0x006d; 0x006e; 0x006f;
   0x0070; 0x0071; 0x0072; 0x0073; 0x0074; 0x0075; 0x0076; 0x0077; 0x0078; 0x0079; 0x007a; 0x007b; 0x007c; 0x007d; 0x007e; 0x2302;
   0x00c7; 0x00fc; 0x00e9; 0x00e2; 0x00e4; 0x00e0; 0x00e5; 0x00e7; 0x00ea; 0x00eb; 0x00e8; 0x00ef; 0x00ee; 0x00ec; 0x00c4; 0x00c5;
   0x00c9; 0x00e6; 0x00c6; 0x00f4; 0x00f6; 0x00f2; 0x00fb; 0x00f9; 0x00ff; 0x00d6; 0x00dc; 0x00a2; 0x00a3; 0x00a5; 0x20a7; 0x0192;
   0x00e1; 0x00ed; 0x00f3; 0x00fa; 0x00f1; 0x00d1; 0x00aa; 0x00ba; 0x00bf; 0x2310; 0x00ac; 0x00bd; 0x00bc; 0x00a1; 0x00ab; 0x00bb;
   0x2591; 0x2592; 0x2593; 0x2502; 0x2524; 0x2561; 0x2562; 0x2556; 0x2555; 0x2563; 0x2551; 0x2557; 0x255d; 0x255c; 0x255b; 0x2510;
   0x2514; 0x2534; 0x252c; 0x251c; 0x2500; 0x253c; 0x255e; 0x255f; 0x255a; 0x2554; 0x2569; 0x2566; 0x2560; 0x2550; 0x256c; 0x2567;
   0x2568; 0x2564; 0x2565; 0x2559; 0x2558; 0x2552; 0x2553; 0x256b; 0x256a; 0x2518; 0x250c; 0x2588; 0x2584; 0x258c; 0x2590; 0x2580;
   0x03b1; 0x00df; 0x0393; 0x03c0; 0x03a3; 0x03c3; 0x00b5; 0x03c4; 0x03a6; 0x0398; 0x03a9; 0x03b4; 0x221e; 0x03c6; 0x03b5; 0x2229;
   0x2261; 0x00b1; 0x2265; 0x2264; 0x2320; 0x2321; 0x00f7; 0x2248; 0x00b0; 0x2219; 0x00b7; 0x221a; 0x207f; 0x00b2; 0x25a0; 0x00a0].

(** ** Structures on the disk *)
Definition FAT32_LFN_MAX_ENTRIES : Z := 20.
Definition FAT32_LFN_MAX_FILENAME_LENGTH : Z := FAT32_LFN_MAX_ENTRIES * 13 + 1.
Definition FAT32_ATTRIBUTE_SUBDIRECTORY : Z := 0x10.
Definition FAT32_LFN_ATTRIBUTE : Z := 0x0f.
Definition FAT32_ATTRIBUTE_VOLLABEL : Z := 0x08.

(** [struct fat32_bpb], 512 bytes. *)
Definition sizeof_bpb : Z := 512.
Definition bpb_bytes_per_sector (b : list Z) : Z := field b 11 2.
Definition bpb_sectors_per_cluster (b : list Z) : Z := field b 13 1.
Definition bpb_reserved_sectors (b : list Z) : Z := field b 14 2.
Definition bpb_fats_count (b : list Z) : Z := field b 16 1.
Definition bpb_root_entries_count (b : list Z) : Z := field b 17 2.
Definition bpb_sectors_count_16 (b : list Z) : Z := field b 19 2.
Definition bpb_sectors_per_fat_16 (b : list Z) : Z := field b 22 2.
Definition bpb_hidden_sectors_count (b : list Z) : Z := field b 28 4.
Definition bpb_sectors_count_32 (b : list Z) : Z := field b 32 4.
Definition bpb_sectors_per_fat_32 (b : list Z) : Z := field b 36 4.
Definition bpb_flags (b : list Z) : Z := field b 40 2.
Definition bpb_root_directory_cluster (b : list Z) : Z := field b 44 4.

(** [struct fat32_directory_entry], 32 bytes. *)
Definition sizeof_dirent : Z := 32.
Definition d_name (e : list Z) : list Z := take 11 e.
Definition d_first (e : list Z) : Z := field e 0 1.
Definition d_attribute (e : list Z) : Z := field e 11 1.
Definition d_cluster_num_high (e : list Z) : Z := field e 20 2.
Definition d_cluster_num_low (e : list Z) : Z := field e 26 2.
Definition d_file_size_bytes (e : list Z) : Z := field e 28 4.

(** [struct fat32_lfn_entry], over the same 32 bytes. *)
Definition l_sequence_number (e : list Z) : Z := field e 0 1.
Definition l_dos_checksum (e : list Z) : Z := field e 13 1.
Definition l_name1 (e : list Z) : list Z := take 10 (drop 1 e).
Definition l_name2 (e : list Z) : list Z := take 12 (drop 14 e).
Definition l_name3 (e : list Z) : list Z := take 4 (drop 28 e).

Record context := MkContext {
  type : Z; bytes_per_sector : Z; sectors_per_cluster : Z; reserved_sectors : Z; number_of_fats : Z;
  hidden_sectors : Z; sectors_per_fat : Z; fat_start_lba : Z; data_start_lba : Z; root_directory_cluster : Z;
  root_entries : Z; root_start : Z; root_size : Z;
}.

(** ** Names *)
Definition fat32_lfn_checksum (sfn : list Z) : Z :=
  foldl (fun sum c => u8 ((if negb (Z.land sum 1 =? 0) then 0x80 else 0) + Z.shiftr sum 1 + c)) 0 (take 11 sfn).

Definition fat32_tolower (c : Z) : Z :=
  if ((65 <=? c) && (c <=? 90))
     || ((0xc0 <=? c) && (c <=? 0xde) && negb (c =? 0xd7))
     || ((0x391 <=? c) && (c <=? 0x3a9) && negb (c =? 0x3a2))
  then u16 (c + 0x20) else c.

Definition oem_to_unicode (c : Z) : res Z :=
  if c <? 0x80 then Ok c else rd cp437_to_unicode (Z.to_nat c).

(** The loop over the [8 + 3] characters from the [i]-th on. *)
Fixpoint sfn_matches_from (i n : nat) (sfn fn : list Z) : res bool :=
  match n with
  | O => Ok true
  | S n =>
      let! c := rd sfn i in
      let c := if (i =? 0)%nat && (c =? 0x05) then 0xe5 else c in
      let! u := oem_to_unicode c in
      let! f := rd fn i in
      if negb (fat32_tolower u =? fat32_tolower f) then Ok false else sfn_matches_from (S i) n sfn fn
  end.

Definition fat32_sfn_matches (sfn fn : list Z) : res bool := sfn_matches_from 0 11 sfn fn.

Definition fat32_cp437_encodes (c : Z) : bool :=
  if c <? 0x80 then true else existsb (fun u => u =? c) (drop 0x80 cp437_to_unicode).

(** The loop over the [len] code units, the [j]-th place of the name next. *)
Fixpoint to_8_3 (src16 : list Z) (dest : list Z) (j : nat) (ext : bool) : res (option (list Z)) :=
  match src16 with
  | [] => Ok (Some dest)
  | c :: src16 =>
      if c =? 46 then
        if ext then Ok None else to_8_3 src16 dest 8 true
      else if (11 <=? j)%nat || ((8 <=? j)%nat && negb ext) then Ok None
      else if negb (fat32_cp437_encodes c) then Ok None
      else let! dest := wr dest j c in to_8_3 src16 dest (S j) ext
  end.

(** [None] is the return of [false]. *)
Definition fat32_filename_to_8_3 (src : list Z) : res (option (list Z)) :=
  let! n := strlen src in
  let! (complete, src16, len) := utf8_to_utf16 13 (take n src) in
  if negb complete then Ok None
  else to_8_3 (take len src16) (replicate 11 32) 0 false.

Section Fat.
Variable read : Z -> Z -> option (list Z).
Variable sect_count : Z.    (** [part->sect_count] *)
Variable size_bits : Z.     (** the width of [size_t] *)

(** ** The geometry *)
Definition bpb_signature (b : list Z) : res bool :=
  let! r := strncmp (drop 0x36 b) (cstring "FAT") 3 in
  if r =? 0 then Ok true
  else
    let! r := strncmp (drop 0x52 b) (cstring "FAT") 3 in
    if r =? 0 then Ok true
    else let! r := strncmp (drop 0x03 b) (cstring "FAT32") 5 in Ok (r =? 0).

Definition fat_type (clusters_count : Z) : Z :=
  if clusters_count <? 4085 then 12 else if clusters_count <? 65525 then 16 else 32.

(** The FAT in use: [None] for an active FAT that does not exist. *)
Definition active_fat_start (b : list Z) (ty fats spf : Z) : option Z :=
  let start := bpb_reserved_sectors b in
  if (ty =? 32) && negb (Z.land (bpb_flags b) 0x80 =? 0) then
    let active_fat := Z.land (bpb_flags b) 0x0f in
    if fats <=? active_fat then None else Some (u32 (start + u32 (active_fat * spf)))
  else Some start.

(** [fat32_init_context]; [None] is the return of 1. *)
Definition fat32_init_context : res (option context) :=
  match read 0 sizeof_bpb with
  | None => Ok None
  | Some bpb =>
      let! valid := bpb_signature bpb in
      if negb valid then Ok None
      else if negb (existsb (fun v => bpb_sectors_per_cluster bpb =? v) [1; 2; 4; 8; 16; 32; 64; 128]) then Ok None
      else if negb (existsb (fun v => bpb_bytes_per_sector bpb =? v) [512; 1024; 2048; 4096]) then Ok None
      else if (bpb_fats_count bpb =? 0) || (4 <? bpb_fats_count bpb) then Ok None
      else if bpb_reserved_sectors bpb =? 0 then Ok None
      else
        let root_dir_sects := (bpb_root_entries_count bpb * 32 + (bpb_bytes_per_sector bpb - 1)) / bpb_bytes_per_sector bpb in
        let total_sects := if negb (bpb_sectors_count_16 bpb =? 0) then bpb_sectors_count_16 bpb else bpb_sectors_count_32 bpb in
        let spf := if negb (bpb_sectors_per_fat_16 bpb =? 0) then bpb_sectors_per_fat_16 bpb else bpb_sectors_per_fat_32 bpb in
        let metadata_sects := bpb_reserved_sectors bpb + bpb_fats_count bpb * spf + root_dir_sects in
        if total_sects <=? metadata_sects then Ok None
        else
          let data_sects := total_sects - metadata_sects in
          let clusters_count := data_sects / bpb_sectors_per_cluster bpb in
          let ty := fat_type clusters_count in
          let sectors_per_fat := if ty =? 32 then bpb_sectors_per_fat_32 bpb else bpb_sectors_per_fat_16 bpb in
          if sectors_per_fat =? 0 then Ok None
          else if negb (ty =? 32) && (bpb_root_entries_count bpb =? 0) then Ok None
          else
            match active_fat_start bpb ty (bpb_fats_count bpb) sectors_per_fat with
            | None => Ok None
            | Some fat_start =>
                let root_start_64 := bpb_reserved_sectors bpb + bpb_fats_count bpb * sectors_per_fat in
                if UINT32_MAX <? root_start_64 then Ok None
                else
                  match div_roundup size_bits (bpb_root_entries_count bpb * sizeof_dirent) (bpb_bytes_per_sector bpb) with
                  | None => Ok None
                  | Some root_size =>
                      match (if ty =? 32 then Some root_start_64 else checked_add 32 root_start_64 (u32 root_size)) with
                      | None => Ok None
                      | Some data_start =>
                          Ok (Some (MkContext ty (bpb_bytes_per_sector bpb) (bpb_sectors_per_cluster bpb) (bpb_reserved_sectors bpb)
                            (bpb_fats_count bpb) (bpb_hidden_sectors_count bpb) sectors_per_fat fat_start data_start
                            (bpb_root_directory_cluster bpb) (bpb_root_entries_count bpb) root_start_64 (u32 root_size)))
                      end
                  end
            end
  end.

(** ** Cluster chains *)
Section Context.
Variable ctx : context.

Definition block_size : Z := sectors_per_cluster ctx * bytes_per_sector ctx.
Definition fat_size : Z := sectors_per_fat ctx * bytes_per_sector ctx.
Definition fat_base : Z := fat_start_lba ctx * bytes_per_sector ctx.

(** Reading [n] bytes at an offset of the FAT. *)
Definition read_fat (offset n : Z) : option Z :=
  if fat_size <? offset + n then None else le_val <$> read (fat_base + offset) n.

(** [read_cluster_from_map]: the entry of a cluster; [None] is the return of -1. *)
Definition read_cluster_from_map (cluster : Z) : option Z :=
  if type ctx =? 12 then
    (fun tmp => if cluster mod 2 =? 0 then Z.land tmp 0xfff else Z.shiftr tmp 4) <$> read_fat (cluster + cluster / 2) 2
  else if type ctx =? 16 then read_fat (cluster * 2) 2
  else (fun out => Z.land out 0x0fffffff) <$> read_fat (cluster * 4) 4.

Definition cluster_limit : Z :=
  Z.lor (Z.lor (if type ctx =? 12 then 0xfef else 0) (if type ctx =? 16 then 0xffef else 0)) (if type ctx =? 32 then 0xfffffef else 0).

Definition FAT32_MAX_CHAIN_LENGTH : Z := 64 * 1024 * 1024 / 4.

Definition fat_entries : Z :=
  if type ctx =? 12 then fat_size * 2 / 3 else if type ctx =? 16 then fat_size / 2 else fat_size / 4.

Definition max_clusters : Z :=
  let m := cluster_limit - 1 in
  let m := if FAT32_MAX_CHAIN_LENGTH <? m then FAT32_MAX_CHAIN_LENGTH else m in
  if fat_entries <? m then fat_entries else m.

(** [None] is the return of [NULL] on overflow. *)
Definition readable_cluster_limit : option Z :=
  if sect_count =? UINT64_MAX then Some cluster_limit
  else
    match CHECKED_MUL sect_count 512 with
    | None => None
    | Some bytes =>
        let volume_sectors := bytes / bytes_per_sector ctx in
        let data_clusters :=
          if data_start_lba ctx <? volume_sectors then (volume_sectors - data_start_lba ctx) / sectors_per_cluster ctx else 0 in
        Some (if data_clusters + 1 <? cluster_limit then data_clusters + 1 else cluster_limit)
    end.

(** The first pass: the length of the chain, [None] for an unusable one. *)
Definition measure_body (readable : Z) (s : Z * Z) : res (Z * Z + option Z) :=
  let '(chain_length, cluster) := s in
  if max_clusters <? chain_length then Ok (inr None)
  else if readable <? cluster then Ok (inr None)
  else
    match read_cluster_from_map cluster with
    | None => Ok (inr None)
    | Some next =>
        if (next <? 2) || (cluster_limit <? next) then Ok (inr (Some chain_length))
        else Ok (inl (chain_length + 1, next))
    end.

Definition measure_chain (readable cluster : Z) : res (option Z) :=
  loop (measure_body readable) (fun '(n, _) => max_clusters + 1 - n) (1, cluster).

(** The second pass: the clusters, [None] when the FAT cannot be read. *)
Definition collect_body (chain_length : Z) (s : Z * Z * list Z) : res (Z * Z * list Z + option (list Z)) :=
  let '(i, cluster, chain) := s in
  if chain_length <=? i then Ok (inr (Some chain))
  else
    match read_cluster_from_map cluster with
    | None => Ok (inr None)
    | Some next => Ok (inl (i + 1, next, chain ++ [cluster]))
    end.

Definition collect_chain (chain_length cluster : Z) : res (option (list Z)) :=
  loop (collect_body chain_length) (fun '(i, _, _) => chain_length - i) (0, cluster, []).

(** [cache_cluster_chain]; [None] is [NULL]. *)
Definition cache_cluster_chain (initial_cluster : Z) : res (option (list Z)) :=
  if (initial_cluster <? 2) || (cluster_limit <? initial_cluster) then Ok None
  else
    match readable_cluster_limit with
    | None => Ok None
    | Some readable =>
        let! n := measure_chain readable initial_cluster in
        match n with
        | None => Ok None
        | Some chain_length => collect_chain chain_length initial_cluster
        end
    end.

(** [read_cluster_chain]: the bytes read, [None] is the return of [false]. *)
Definition read_chain_body (chain : list Z) (loc count : Z) (s : Z * list Z) : res (Z * list Z + option (list Z)) :=
  let '(progress, buf) := s in
  if count <=? progress then Ok (inr (Some buf))
  else
    let block := u64 (loc + progress) / block_size in
    if Z.of_nat (length chain) <=? block then Ok (inr None)
    else
      let! cluster := rd chain (Z.to_nat block) in
      if cluster <? 2 then Ok (inr None)
      else
        let offset := u64 (loc + progress) mod block_size in
        let chunk := if block_size - offset <? count - progress then block_size - offset else count - progress in
        let base := u64 ((data_start_lba ctx + (cluster - 2) * sectors_per_cluster ctx) * bytes_per_sector ctx) in
        match read (u64 (base + offset)) chunk with
        | None => Ok (inr None)
        | Some bs => Ok (inl (progress + chunk, buf ++ bs))
        end.

Definition read_cluster_chain (chain : list Z) (loc count : Z) : res (option (list Z)) :=
  loop (read_chain_body chain loc count) (fun '(progress, _) => count - progress) (0, []).

(** ** Directories *)
Variable case_insensitive_fopen : bool.
Variable stack_lfn : list Z.  (** what [current_lfn] holds before it is set *)

Definition MAX_DIRECTORY : Z := 256 * 1024 * 1024.

(** The bytes of a directory, given by the two halves of its first cluster, or
    of the root directory of FAT12 and FAT16; [None] is a return of non-zero. *)
Definition read_directory (directory : option (Z * Z)) : res (option (list Z)) :=
  match directory with
  | Some (low, high) =>
      let current_cluster_number := if type ctx =? 32 then Z.lor low (Z.shiftl high 16) else low in
      let! chain := cache_cluster_chain current_cluster_number in
      match chain with
      | None => Ok None
      | Some chain =>
          match checked_mul size_bits (Z.of_nat (length chain)) block_size with
          | None => Ok None
          | Some alloc_size =>
              if MAX_DIRECTORY <? alloc_size then Ok None else read_cluster_chain chain 0 alloc_size
          end
      end
  | None =>
      match div_roundup size_bits (root_entries ctx * sizeof_dirent) block_size with
      | None => Ok None
      | Some dir_chain_len =>
          match checked_mul size_bits dir_chain_len block_size with
          | None => Ok None
          | Some alloc_size =>
              if MAX_DIRECTORY <? alloc_size then Ok None
              else
                match read (root_start ctx * bytes_per_sector ctx) (root_entries ctx * sizeof_dirent) with
                | None => Ok None
                | Some bs => Ok (Some (bs ++ replicate (Z.to_nat alloc_size - length bs) 0))
                end
          end
      end
  end.

(** [directory_entries] as an array of [n] entries. *)
Fixpoint dirents (n : nat) (bs : list Z) : list (list Z) :=
  match n with
  | O => []
  | S n => take 32 bs :: dirents n (drop 32 bs)
  end.

Definition directory_entries (bs : list Z) : list (list Z) := dirents (length bs / 32) bs.

(** The code units of a byte string. *)
Fixpoint units (bs : list Z) : list Z :=
  match bs with
  | lo :: hi :: bs => (lo + 256 * hi) :: units bs
  | _ => []
  end.

(** One entry of a long name set: the buffer, what is expected next, the
    checksum of the set, and whether the name is complete. *)
Definition lfn_step (e lfn : list Z) (expected checksum : Z) : list Z * Z * Z * bool :=
  let seq_num := Z.land (l_sequence_number e) 0x1f in
  let '(lfn, expected, checksum) :=
    if negb (Z.land (l_sequence_number e) 0x40 =? 0) then (replicate 260 0, seq_num, l_dos_checksum e)
    else (lfn, expected, checksum) in
  if (seq_num =? 0) || negb (seq_num =? expected) || negb (l_dos_checksum e =? checksum) then (lfn, 0, checksum, false)
  else
    let lfn_index := (seq_num - 1) * 13 in
    if FAT32_LFN_MAX_ENTRIES * 13 <=? lfn_index then (lfn, 0, checksum, false)
    else
      let at_ := Z.to_nat lfn_index in
      let lfn := buf_write lfn at_ (units (l_name1 e)) in
      let lfn := buf_write lfn (at_ + 5) (units (l_name2 e)) in
      let lfn := buf_write lfn (at_ + 11) (units (l_name3 e)) in
      (lfn, expected - 1, checksum, seq_num =? 1).

Inductive found :=
| Label (r : list Z)
| Entry (e : list Z).

(** The label with its trailing spaces overwritten, from the [j]-th place down. *)
Fixpoint trim_label (r : list Z) (j : nat) : list Z :=
  match j with
  | O => r
  | S j => if bool_decide (r !! j = Some 32) then trim_label (<[j := 0]> r) j else r
  end.

Definition label_of (e : list Z) : list Z := trim_label (d_name e ++ [0]) 11.

(** Whether a complete long name is the one looked for, and the short entry after
    it the one the set was made for. *)
Definition lfn_names (name lfn : list Z) : res bool :=
  let '(complete, lfn_utf8, _) := utf16_to_utf8 FAT32_LFN_MAX_FILENAME_LENGTH lfn in
  if negb complete then Ok false
  else
    let! r := (if case_insensitive_fopen then strcasecmp else strcmp) lfn_utf8 name in
    Ok (r =? 0).

Definition sfn_follows (sfn : list Z) (checksum : Z) : bool :=
  negb ((d_first sfn =? 0) || (d_first sfn =? 0xe5) || (d_attribute sfn =? FAT32_LFN_ATTRIBUTE)
        || negb (fat32_lfn_checksum (d_name sfn) =? checksum)).

(** Whether the short name of an entry is the one looked for. *)
Definition sfn_names (name e : list Z) : res bool :=
  if negb (Z.land (d_attribute e) (Z.shiftl 1 3) =? 0) then Ok false
  else
    let! fn := fat32_filename_to_8_3 name in
    match fn with
    | None => Ok false
    | Some fn => fat32_sfn_matches (d_name e) fn
    end.

(** The search loop of [fat32_open_in] from an entry on; without a name it looks
    for the volume label. *)
Fixpoint scan_entries (name : option (list Z)) (es : list (list Z)) (lfn : list Z) (expected checksum : Z) : res (option found) :=
  match es with
  | [] => Ok None
  | e :: rest =>
      if d_first e =? 0 then Ok None
      else if d_first e =? 0xe5 then scan_entries name rest lfn 0 checksum
      else
        match name with
        | None =>
            if negb (d_attribute e =? FAT32_ATTRIBUTE_VOLLABEL) then scan_entries name rest lfn expected checksum
            else Ok (Some (Label (label_of e)))
        | Some nm =>
            let short lfn expected checksum :=
              let! hit := sfn_names nm e in
              if hit : bool then Ok (Some (Entry e)) else scan_entries name rest lfn expected checksum in
            if d_attribute e =? FAT32_LFN_ATTRIBUTE then
              let '(lfn, expected, checksum, complete) := lfn_step e lfn expected checksum in
              if negb complete then scan_entries name rest lfn expected checksum
              else
                let! hit := lfn_names nm lfn in
                if hit : bool then
                  match rest with
                  | sfn :: _ =>
                      if sfn_follows sfn checksum then Ok (Some (Entry sfn)) else scan_entries name rest lfn 0 checksum
                  | [] => scan_entries name rest lfn 0 checksum
                  end
                else short lfn expected checksum
            else short lfn expected checksum
        end
  end.

Definition fat32_open_in (directory : option (Z * Z)) (name : option (list Z)) : res (option found) :=
  let! bs := read_directory directory in
  match bs with
  | None => Ok None
  | Some bs => scan_entries name (directory_entries bs) stack_lfn 0 0
  end.

Definition root_directory : option (Z * Z) :=
  if type ctx =? 32 then Some (Z.land (root_directory_cluster ctx) 0xffff, Z.shiftr (root_directory_cluster ctx) 16) else None.
End Context.

Variable case_insensitive_fopen : bool.
Variable stack_lfn : list Z.

(** [fat32_get_label]; [None] is [NULL]. *)
Definition fat32_get_label : res (option (list Z)) :=
  let! c := fat32_init_context in
  match c with
  | None => Ok None
  | Some ctx =>
      let! f := fat32_open_in ctx case_insensitive_fopen stack_lfn (root_directory ctx) None in
      match f with
      | Some (Label l) => Ok (Some l)
      | _ => Ok None
      end
  end.

(** ** Files *)
Record file_handle := MkFile { f_context : context; f_first_cluster : Z; f_size_bytes : Z; f_chain : list Z }.

Fixpoint skip_slashes (path : list Z) : res nat :=
  match path with
  | [] => Fault
  | c :: path => if c =? 47 then let! n := skip_slashes path in Ok (S n) else Ok 0%nat
  end.

(** The end of the component at [current_index], at most [n] characters on, and
    whether a slash ends it; [None] for one that is too long. *)
Fixpoint component (path : list Z) (current_index i : Z) (n : nat) : res (option (Z * bool)) :=
  match n with
  | O => Ok None
  | S n =>
      match checked_add 32 i current_index with
      | None => Ok None
      | Some path_idx =>
          let! c := rd path (Z.to_nat path_idx) in
          if c =? 0 then Ok (Some (i, false))
          else if c =? 47 then Ok (Some (i, true))
          else component path current_index (i + 1) n
      end
  end.

(** The file an entry describes; [None] is [NULL]. *)
Definition open_file (ctx : context) (e : list Z) : res (option file_handle) :=
  let first_cluster :=
    if type ctx =? 32 then Z.lor (d_cluster_num_low e) (Z.shiftl (d_cluster_num_high e) 16) else d_cluster_num_low e in
  let! chain := cache_cluster_chain ctx first_cluster in
  let chain := default [] chain in
  if Z.of_nat (length chain) * block_size ctx <? d_file_size_bytes e then Ok None
  else Ok (Some (MkFile ctx first_cluster (d_file_size_bytes e) chain)).

Definition open_body (ctx : context) (path : list Z) (s : Z * option (Z * Z)) : res (Z * option (Z * Z) + option file_handle) :=
  let '(current_index, current_directory) := s in
  let! part := component path current_index 0 (Z.to_nat (FAT32_LFN_MAX_FILENAME_LENGTH - 1)) in
  match part with
  | None => Ok (inr None)
  | Some (i, expect_directory) =>
      let current_part := take (Z.to_nat i) (drop (Z.to_nat current_index) path) ++ [0] in
      match (if expect_directory : bool then checked_add 32 current_index (i + 1) else Some current_index) with
      | None => Ok (inr None)
      | Some current_index =>
          let! f := fat32_open_in ctx case_insensitive_fopen stack_lfn current_directory (Some current_part) in
          match f with
          | Some (Entry current_file) =>
              if expect_directory then
                if Z.land (d_attribute current_file) FAT32_ATTRIBUTE_SUBDIRECTORY =? 0 then Ok (inr None)
                else Ok (inl (current_index, Some (d_cluster_num_low current_file, d_cluster_num_high current_file)))
              else let! h := open_file ctx current_file in Ok (inr h)
          | _ => Ok (inr None)
          end
      end
  end.

Definition fat32_open (path : list Z) : res (option file_handle) :=
  let! c := fat32_init_context in
  match c with
  | None => Ok None
  | Some ctx =>
      let! n := skip_slashes path in
      loop (open_body ctx path) (fun '(i, _) => Z.of_nat (length path) - i) (u32 (Z.of_nat n), root_directory ctx)
  end.

(** [fat32_read], which returns the count it was asked for. *)
Definition fat32_read (f : file_handle) (loc count : Z) : res (list Z) :=
  let! r := read_cluster_chain (f_context f) (f_chain f) loc count in
  match r with
  | None => Panic "fat32: cluster chain read failed (corrupted filesystem?)"
  | Some bs => Ok bs
  end.
End Fat.
