(* ===== verification/FatChain.v ===== *)
(** * FAT geometry and cluster chains

    What [fat32_init_context] accepts, and that [cache_cluster_chain] returns
    exactly the linked list the FAT holds. *)

From S2P Require Import Prelude CInt Libc Utf Volume Gpt Fat.

(** ** Geometry *)
Record geometry (c : context) : Prop := {
  geo_type : type c = 12 \/ type c = 16 \/ type c = 32;
  geo_sector : In (bytes_per_sector c) [512; 1024; 2048; 4096];
  geo_cluster : In (sectors_per_cluster c) [1; 2; 4; 8; 16; 32; 64; 128];
  geo_reserved : 0 < reserved_sectors c < 2 ^ 16;
  geo_fats : 1 <= number_of_fats c <= 4;
  geo_spf : 0 < sectors_per_fat c < 2 ^ 32;
  geo_root_start : root_start c = reserved_sectors c + number_of_fats c * sectors_per_fat c /\ root_start c < 2 ^ 32;
  (** the FAT in use is one of the copies *)
  geo_fat_start : exists k, 0 <= k < number_of_fats c /\ fat_start_lba c = reserved_sectors c + k * sectors_per_fat c;
  geo_root_size : root_size c = (root_entries c * sizeof_dirent + bytes_per_sector c - 1) / bytes_per_sector c;
  geo_data_start : data_start_lba c = root_start c + (if type c =? 32 then 0 else root_size c) /\ data_start_lba c < 2 ^ 32;
  geo_root_entries : 0 <= root_entries c < 2 ^ 16 /\ (type c <> 32 -> root_entries c <> 0);
  geo_root_cluster : 0 <= root_directory_cluster c < 2 ^ 32;
}.

Lemma geometry_bounds c : geometry c -> 512 <= bytes_per_sector c <= 4096 /\ 1 <= sectors_per_cluster c <= 128.
Proof. intros [_ Hb Hs]. cbn in Hb, Hs. lia. Qed.

Lemma field_range bs off n : Forall is_byte bs -> 0 <= field bs off n < 256 ^ Z.of_nat n.
Proof.
  intros Hb. unfold field. assert (Forall is_byte (take n (drop off bs))) as Ht by (apply Forall_take, Forall_drop, Hb).
  pose proof (le_val_bound _ Ht) as Hr. rewrite length_take in Hr.
  split; [lia|]. eapply Z.lt_le_trans; [apply Hr|]. apply Z.pow_le_mono_r; lia.
Qed.

Lemma existsb_In x l : existsb (fun v => x =? v) l = true <-> In x l.
Proof.
  rewrite existsb_exists. split; [intros (v & Hv & E)|intros H; exists x; split; [done|apply Z.eqb_refl]].
  apply Z.eqb_eq in E as ->. done.
Qed.

Section Chain.
Variable read : Z -> Z -> option (list Z).
Context `{!ByteReader read}.
Variables (sect_count size_bits : Z).
Hypothesis Hsize : 32 <= size_bits <= 64.

Lemma strncmp_total a b n : (n <= length a)%nat -> (n <= length b)%nat -> exists r, strncmp a b n = Ok r.
Proof.
  unfold strncmp. revert a b. induction n as [|n IH]; intros a b Ha Hb; [by eexists|].
  destruct a as [|x a]; cbn in Ha; [lia|]. destruct b as [|y b]; cbn in Hb; [lia|]. cbn.
  repeat case_if; try by eexists. apply IH; lia.
Qed.

Lemma bpb_signature_total b : length b = 512%nat -> exists r, bpb_signature b = Ok r.
Proof.
  intros Hb. unfold bpb_signature.
  destruct (strncmp_total (drop 0x36 b) (cstring "FAT") 3) as [r1 ->]; [rewrite length_drop; lia|cbn; lia|]. cbn [rbind].
  case_if; [by eexists|]. destruct (strncmp_total (drop 0x52 b) (cstring "FAT") 3) as [r2 ->]; [rewrite length_drop; lia|cbn; lia|].
  cbn [rbind]. case_if; [by eexists|].
  destruct (strncmp_total (drop 0x03 b) (cstring "FAT32") 5) as [r3 ->]; [rewrite length_drop; lia|cbn; lia|]. by eexists.
Qed.

(** The FAT in use starts at one of the copies, with no wrap-around. *)
Lemma active_fat_start_spec b ty fats spf start :
  Forall is_byte b -> 0 < spf < 2 ^ 32 -> 1 <= fats -> bpb_reserved_sectors b + fats * spf < 2 ^ 32 ->
  active_fat_start b ty fats spf = Some start -> exists k, 0 <= k < fats /\ start = bpb_reserved_sectors b + k * spf.
Proof.
  intros Hb Hs Hf Hmax. pose proof (field_range b 14 2 Hb) as Hr. change (256 ^ Z.of_nat 2) with (2 ^ 16) in Hr. unfold active_fat_start.
  unfold bpb_reserved_sectors in *. case_if; [|intros [= <-]; exists 0; lia].
  case_if; [done|]. intros [= <-]. exists (Z.land (bpb_flags b) 0x0f).
  pose proof (Z.land_nonneg (bpb_flags b) 0x0f) as Hn. split; [lia|].
  assert (Z.land (bpb_flags b) 0x0f * spf <= (fats - 1) * spf) by (apply Z.mul_le_mono_nonneg_r; lia).
  rewrite !wrap_small; [done| | ]; rewrite ?(wrap_small 32); lia.
Qed.

Lemma init_context_geometry :
  exists r, fat32_init_context read size_bits = Ok r /\ (forall c, r = Some c -> geometry c).
Proof.
  assert (exists r : option context, Ok None = Ok r /\ (forall c, r = Some c -> geometry c)) as Hnone by (exists None; by split).
  unfold fat32_init_context. destruct (read 0 sizeof_bpb) as [b|] eqn:Er; [|done].
  unfold sizeof_bpb in Er. pose proof (read_length _ _ _ Er ltac:(lia)) as Hl. pose proof (read_bytes _ _ _ Er) as Hb.
  destruct (bpb_signature_total b) as [v ->]; [lia|]. cbn [rbind].
  assert (forall off n, 0 <= field b off n < 256 ^ Z.of_nat n) as Hf by (intros; by apply field_range).
  pose proof (Hf 14%nat 2%nat : 0 <= bpb_reserved_sectors b < 65536) as Hres.
  pose proof (Hf 16%nat 1%nat : 0 <= bpb_fats_count b < 256) as Hfats.
  pose proof (Hf 17%nat 2%nat : 0 <= bpb_root_entries_count b < 65536) as Hroot.
  pose proof (Hf 22%nat 2%nat : 0 <= bpb_sectors_per_fat_16 b < 65536) as Hspf1.
  pose proof (Hf 36%nat 4%nat : 0 <= bpb_sectors_per_fat_32 b < 2 ^ 32) as Hspf2.
  pose proof (Hf 44%nat 4%nat : 0 <= bpb_root_directory_cluster b < 2 ^ 32) as Hrc. clear Hf.
  destruct (negb v); [done|]. destruct (existsb _ [1; 2; 4; 8; 16; 32; 64; 128]) eqn:Espc; [|done].
  destruct (existsb _ [512; 1024; 2048; 4096]) eqn:Ebps; [|done]. apply existsb_In in Espc, Ebps. cbn [negb].
  do 2 (case_if; [done|]). case_if; [done|].
  set (ty := fat_type _). set (spf := if ty =? 32 then _ else _). case_if; [done|]. case_if; [done|].
  assert (ty = 12 \/ ty = 16 \/ ty = 32) as Hty by (unfold ty, fat_type; repeat case_if; auto).
  assert (0 < spf < 2 ^ 32) as Hspf by (assert (0 <= spf < 2 ^ 32); [unfold spf; case_if; lia|lia]).
  destruct (active_fat_start b ty (bpb_fats_count b) spf) as [start|] eqn:Ea; [|done].
  case_if; [done|]. unfold UINT32_MAX in *.
  assert (512 <= bpb_bytes_per_sector b <= 4096) as Hbps by (cbn in Ebps; lia).
  assert (2 ^ 32 <= 2 ^ size_bits) as Hw by (apply Z.pow_le_mono_r; lia).
  assert (div_roundup size_bits (bpb_root_entries_count b * sizeof_dirent) (bpb_bytes_per_sector b) =
    Some ((bpb_root_entries_count b * sizeof_dirent + bpb_bytes_per_sector b - 1) / bpb_bytes_per_sector b)) as ->.
  { unfold div_roundup, sizeof_dirent. rewrite wrap_small by lia. unfold checked_add. rewrite (proj2 (Z.ltb_lt _ _)) by lia.
    by rewrite Z.add_sub_assoc. }
  set (rs := (_ + _ - 1) / _).
  assert (0 <= rs < 2 ^ 32) as Hrs.
  { unfold rs, sizeof_dirent. split; [apply Z.div_pos; lia|apply Z.div_lt_upper_bound; lia]. }
  rewrite (wrap_small 32 rs) by done.
  set (ds := if ty =? 32 then Some (bpb_reserved_sectors b + bpb_fats_count b * spf) else _).
  assert (forall d, ds = Some d -> d = bpb_reserved_sectors b + bpb_fats_count b * spf + (if ty =? 32 then 0 else rs) /\ d < 2 ^ 32) as Hds.
  { intros d. unfold ds. case_if; [intros [= <-]; lia|]. intros E. apply checked_add_Some in E. lia. }
  destruct ds as [d|]; [|done]. destruct (Hds d eq_refl) as [Ed Hd].
  eexists. split; [done|]. intros c [= <-]. destruct (active_fat_start_spec b ty (bpb_fats_count b) spf start Hb Hspf ltac:(lia) ltac:(lia) Ea) as (k & Hk & Es).
  split; cbn [type bytes_per_sector sectors_per_cluster reserved_sectors number_of_fats sectors_per_fat root_start fat_start_lba root_size
    data_start_lba root_entries root_directory_cluster]; try done; try lia; try (by exists k).
Qed.

(** ** Chains *)
Section Context.
Variable ctx : context.
Hypothesis Hgeo : geometry ctx.

Abbreviation next := (read_cluster_from_map read ctx).
Abbreviation limit := (cluster_limit ctx).

Definition in_data (c : Z) : Prop := 2 <= c <= limit.

(** The linked list of the FAT from a cluster to an end mark, no cluster of which
    lies past the end of the medium. *)
Inductive is_chain (readable : Z) : Z -> list Z -> Prop :=
| chain_end c e : c <= readable -> next c = Some e -> ~ in_data e -> is_chain readable c [c]
| chain_next c n l : c <= readable -> next c = Some n -> in_data n -> is_chain readable n l -> is_chain readable c (c :: l).

Lemma is_chain_head readable c l : is_chain readable c l -> exists l', l = c :: l'.
Proof. inversion 1; by eexists. Qed.

Lemma is_chain_det readable c l1 l2 : is_chain readable c l1 -> is_chain readable c l2 -> l1 = l2.
Proof.
  intros H1. revert l2. induction H1 as [c e Hr Hn He|c n l Hr Hn Hd Hl IH]; intros l2 H2; inversion H2; subst; try done;
    try (rewrite Hn in *; simplify_eq; done).
  f_equal. apply IH. congruence.
Qed.

Lemma is_chain_suffix readable c l x : is_chain readable c l -> In x l ->
  exists l', is_chain readable x l' /\ (length l' <= length l)%nat.
Proof.
  induction 1 as [c e Hr Hn He|c n l Hr Hn Hd Hl IH]; intros Hx.
  - destruct Hx as [->|[]]. exists [x]. split; [by eapply chain_end|done].
  - destruct Hx as [->|Hx]; [exists (x :: l); split; [by eapply chain_next|done]|].
    destruct (IH Hx) as (l' & Hl' & Hlen). exists l'. split; [done|cbn; lia].
Qed.

Lemma is_chain_NoDup readable c l : is_chain readable c l -> List.NoDup l.
Proof.
  induction 1 as [c e Hr Hn He|c n l Hr Hn Hd Hl IH]; [constructor; [intros []|constructor]|]. constructor; [|done]. intros Hc.
  destruct (is_chain_suffix _ _ _ _ Hl Hc) as (l' & Hl' & Hlen).
  pose proof (is_chain_det _ _ _ _ Hl' (chain_next _ c n l Hr Hn Hd Hl)) as ->. cbn in Hlen. lia.
Qed.

(** Every cluster of a chain has an entry in the FAT. *)
Lemma next_entry c n : 0 <= c -> next c = Some n -> c < fat_entries ctx.
Proof.
  intros Hc. unfold read_cluster_from_map, fat_entries, read_fat.
  destruct (type ctx =? 12); [|destruct (type ctx =? 16)];
    (destruct (fat_size ctx <? _) eqn:E; [done|]); bool_hyps; intros _; apply Z.lt_le_trans with (c + 1); try lia;
    apply Z.div_le_lower_bound; try lia.
  pose proof (Z.div_mod c 2 ltac:(lia)). pose proof (Z.mod_pos_bound c 2 ltac:(lia)). lia.
Qed.

Lemma is_chain_entries readable c l : in_data c -> is_chain readable c l -> Forall (fun x => in_data x /\ x < fat_entries ctx) l.
Proof.
  intros Hc H. revert Hc. induction H as [c e Hr Hn He|c n l Hr Hn Hd Hl IH]; intros Hc.
  - constructor; [|constructor]. split; [done|]. eapply next_entry; [destruct Hc; lia|done].
  - constructor; [|by apply IH]. split; [done|]. eapply next_entry; [destruct Hc; lia|done].
Qed.

(** Distinct numbers of a range are no more than the range. *)
Lemma NoDup_range l lo hi : List.NoDup l -> Forall (fun x => lo <= x < hi) l -> lo <= hi -> Z.of_nat (length l) <= hi - lo.
Proof.
  intros Hd Hr Hle.
  assert (length l <= length (map (fun i : nat => (lo + Z.of_nat i)%Z) (seq 0 (Z.to_nat (hi - lo)))))%nat as Hlen.
  { apply NoDup_incl_length; [done|]. intros x Hx. apply list_elem_of_In in Hx. eapply Forall_forall in Hr; [|exact Hx]. cbn beta in Hr.
    apply in_map_iff. exists (Z.to_nat (x - lo)). split; [lia|]. apply in_seq. lia. }
  rewrite length_map, length_seq in Hlen. lia.
Qed.

Lemma is_chain_length readable c l : in_data c -> is_chain readable c l ->
  Z.of_nat (length l) <= limit - 1 /\ Z.of_nat (length l) <= fat_entries ctx.
Proof.
  intros Hc Hl. pose proof (is_chain_NoDup _ _ _ Hl) as Hd. pose proof (is_chain_entries _ _ _ Hc Hl) as He.
  assert (0 <= fat_entries ctx) as Hfe.
  { destruct (is_chain_head _ _ _ Hl) as [l' ->]. apply Forall_cons in He as [[? ?] _]. destruct Hc. lia. }
  split.
  - assert (Z.of_nat (length l) <= limit + 1 - 2); [|lia]. destruct Hc. apply NoDup_range; [done| |lia].
    eapply Forall_impl; [exact He|]. intros x [[? ?] ?]. lia.
  - assert (Z.of_nat (length l) <= fat_entries ctx - 0); [|lia]. apply NoDup_range; [done| |lia].
    eapply Forall_impl; [exact He|]. intros x [[? ?] ?]. lia.
Qed.

Lemma max_clusters_spec readable c l : in_data c -> is_chain readable c l ->
  Z.of_nat (length l) <= max_clusters ctx <-> Z.of_nat (length l) <= FAT32_MAX_CHAIN_LENGTH.
Proof. intros Hc Hl. pose proof (is_chain_length _ _ _ Hc Hl). unfold max_clusters. destruct (FAT32_MAX_CHAIN_LENGTH <? limit - 1) eqn:E; case_if; bool_hyps; lia. Qed.

(** What the first pass may answer from cluster [c] with [n - 1] counted. *)
Definition measured (readable n c : Z) (r : option Z) : Prop :=
  match r with
  | Some m => exists l, is_chain readable c l /\ m = n - 1 + Z.of_nat (length l) /\ m <= max_clusters ctx
  | None => forall l, is_chain readable c l -> max_clusters ctx < n - 1 + Z.of_nat (length l)
  end.

Lemma max_clusters_nonneg : 0 <= max_clusters ctx.
Proof.
  pose proof (geometry_bounds _ Hgeo) as [Hbps _]. destruct Hgeo as [Hty _ _ _ _ Hspf]. assert (0 <= fat_entries ctx).
  { assert (0 <= fat_size ctx) by (unfold fat_size; apply Z.mul_nonneg_nonneg; lia).
    unfold fat_entries. repeat case_if; apply Z.div_pos; lia. }
  assert (0 <= limit - 1) by (unfold cluster_limit; destruct Hty as [->|[->| ->]]; by vm_compute).
  assert (0 <= FAT32_MAX_CHAIN_LENGTH) by done.
  unfold max_clusters. destruct (FAT32_MAX_CHAIN_LENGTH <? limit - 1); case_if; lia.
Qed.

Lemma measure_chain_spec readable c : exists r, measure_chain read ctx readable c = Ok r /\ measured readable 1 c r.
Proof.
  apply (res_post_total (measured readable 1 c)). pose proof max_clusters_nonneg as Hmax.
  apply (loop_spec _ (fun '(n, x) => 1 <= n <= max_clusters ctx + 1 /\ forall r, measured readable n x r -> measured readable 1 c r));
    [|split; [lia|done]|lia].
  intros [n x] [Hn Hk]. unfold turn_ok, measure_body. case_if.
  { cbn [res_post]. apply Hk. intros l Hl. destruct (is_chain_head _ _ _ Hl) as [l' ->]. cbn. lia. }
  case_if; [cbn [res_post]; apply Hk; intros l Hl; inversion Hl; lia|].
  destruct (next x) as [y|] eqn:En; [|cbn [res_post]; apply Hk; intros l Hl; inversion Hl; congruence].
  case_if; cbn [res_post].
  - apply Hk. exists [x]. split; [|cbn; lia]. eapply chain_end; [done|done|]. unfold in_data. bool_cases; lia.
  - split; [|lia]. split; [lia|]. intros r Hr. apply Hk. destruct r as [m|].
    + destruct Hr as (l & Hl & -> & Hm). exists (x :: l). split; [|cbn [length]; lia].
      eapply chain_next; [done|done|unfold in_data; lia|done].
    + intros l Hl. cbn in Hr. inversion Hl as [? e ? He Hne|? z l' ? Hz Hd Hl']; subst.
      * rewrite En in He. injection He as <-. exfalso. apply Hne. unfold in_data. lia.
      * rewrite En in Hz. injection Hz as <-. specialize (Hr _ Hl'). cbn [length]. lia.
Qed.

Lemma collect_chain_spec readable c l : is_chain readable c l -> collect_chain read ctx (Z.of_nat (length l)) c = Ok (Some l).
Proof.
  intros Hl. unfold collect_chain.
  destruct (res_post_total (fun r => r = Some l)
    (loop (collect_body read ctx (Z.of_nat (length l))) (fun '(i, _, _) => Z.of_nat (length l) - i) (0, c, []))) as (r & -> & ->); [|done].
  apply (loop_spec _ (fun '(i, x, acc) => i = Z.of_nat (length acc) /\ exists t, l = acc ++ t /\ (t = [] \/ is_chain readable x t)));
    [|split; [done|]; exists l; split; [done|by right]|lia].
  intros [[i x] acc] (-> & t & El & Ht). unfold turn_ok, collect_body.
  apply (f_equal length) in El as Hlen. rewrite length_app in Hlen. case_if.
  { cbn. destruct t; [|cbn in *; lia]. by rewrite El, app_nil_r. }
  destruct Ht as [->|Ht]; [cbn in *; lia|]. inversion Ht as [? e ? He Hne|? z l' ? Hz Hd Hl']; subst t; subst.
  - rewrite He. cbn. rewrite length_app. cbn. split; [|lia]. split; [lia|]. exists []. split; [by rewrite app_nil_r|by left].
  - rewrite Hz. cbn. rewrite length_app. cbn. split; [|cbn in *; lia]. split; [lia|]. exists l'. split; [by rewrite <- app_assoc|by right].
Qed.

(** [cache_cluster_chain] always returns, and returns the chain of the FAT when
    it is usable and no longer than the longest one the driver keeps. *)
Lemma cache_cluster_chain_spec c :
  exists r, cache_cluster_chain read sect_count ctx c = Ok r /\
    forall l, r = Some l <-> in_data c /\ Z.of_nat (length l) <= FAT32_MAX_CHAIN_LENGTH /\
      exists readable, readable_cluster_limit sect_count ctx = Some readable /\ is_chain readable c l.
Proof.
  unfold cache_cluster_chain. case_if; [exists None; split; [done|]; intros l; split; [done|]; unfold in_data; bool_cases; lia|].
  assert (in_data c) as Hc by (unfold in_data; lia).
  destruct (readable_cluster_limit sect_count ctx) as [readable|] eqn:Er; [|exists None; split; [done|]; intros l; split; [done|]; by intros (_ & _ & ? & ? & _)].
  destruct (measure_chain_spec readable c) as (m & -> & Hm). cbn [rbind]. destruct m as [m|].
  - destruct Hm as (l & Hl & -> & Hm). replace (1 - 1 + Z.of_nat (length l)) with (Z.of_nat (length l)) in * by lia.
    rewrite (collect_chain_spec _ _ _ Hl). exists (Some l). split; [done|]. intros l2. split.
    + intros [= <-]. split; [done|]. split; [by eapply max_clusters_spec|]. by exists readable.
    + intros (_ & _ & r2 & [= <-] & Hl2). f_equal. by eapply is_chain_det.
  - exists None. split; [done|]. intros l. split; [done|]. intros (_ & Hlen & r2 & [= <-] & Hl). specialize (Hm l Hl).
    apply (max_clusters_spec _ _ _ Hc Hl) in Hlen. lia.
Qed.
End Context.
End Chain.

(** * Reading files of a FAT volume

    [read_cluster_chain] returns a piece of the clusters of the chain put end to
    end; on a volume of known size every cluster of a chain can be read. *)
(** A piece that lies inside one block of a sequence of equal blocks. *)
Lemma concat_block {A} (data : list (list A)) (d : list A) (b k off n : nat) :
  Forall (fun x => length x = b) data -> data !! k = Some d -> (off + n <= b)%nat ->
  take n (drop (k * b + off) (concat data)) = take n (drop off d).
Proof.
  intros Hb. revert k. induction Hb as [|x data Hx Hb IH]; intros k Hk Hn; [done|]. destruct k as [|k]; cbn [concat].
  - injection Hk as ->. cbn. rewrite drop_app_le, take_app_le; [done|rewrite length_drop; lia|lia].
  - rewrite <- (IH k Hk Hn). replace (S k * b + off)%nat with (length x + (k * b + off))%nat by lia.
    by rewrite <- drop_drop, drop_app_length.
Qed.

Lemma length_concat_blocks {A} (data : list (list A)) (b : nat) :
  Forall (fun x => length x = b) data -> length (concat data) = (length data * b)%nat.
Proof. induction 1 as [|x data Hx Hb IH]; [done|]. cbn. rewrite length_app. lia. Qed.

Lemma take_add {A} (l : list A) n m : take (n + m) l = take n l ++ take m (drop n l).
Proof. revert l. induction n as [|n IH]; intros [|x l]; cbn; try done; [by rewrite take_nil|]. by rewrite IH. Qed.

Section Read.
Variable read : Z -> Z -> option (list Z).
Context `{!ByteReader read}.
Variable ctx : context.

(** Where a cluster starts on the volume. *)
Definition cluster_at (c : Z) : Z := u64 ((data_start_lba ctx + (c - 2) * sectors_per_cluster ctx) * bytes_per_sector ctx).

(** The contents of the clusters of a chain. *)
Definition chain_data (chain : list Z) (data : list (list Z)) : Prop :=
  Forall2 (fun c d => 2 <= c /\ read (cluster_at c) (block_size ctx) = Some d) chain data.

(** Part of what was read in one piece. *)
Lemma read_part loc n d off k : read loc n = Some d -> 0 <= off -> 0 < k -> off + k <= n ->
  read (loc + off) k = Some (take (Z.to_nat k) (drop (Z.to_nat off) d)).
Proof.
  intros Hr Ho Hk Hn. replace n with (off + (n - off)) in Hr by lia.
  destruct (read_split loc off (n - off) d Ho ltac:(lia) Hr) as (b1 & b2 & H1 & H2 & ->).
  pose proof (read_length _ _ _ H1 Ho). rewrite (drop_app_length' b1) by lia.
  destruct (decide (n - off = k)) as [<-|Hne].
  { pose proof (read_length _ _ _ H2 ltac:(lia)). by rewrite take_ge by lia. }
  replace (n - off) with (k + (n - off - k)) in H2 by lia.
  destruct (read_split (loc + off) k (n - off - k) b2 ltac:(lia) ltac:(lia) H2) as (b3 & b4 & H3 & H4 & ->).
  pose proof (read_length _ _ _ H3 ltac:(lia)).
  by rewrite (take_app_length' b3) by lia.
Qed.

Lemma read_cluster_chain_spec chain data loc count :
  0 < block_size ctx -> chain_data chain data -> 0 <= loc -> 0 <= count ->
  loc + count <= Z.of_nat (length chain) * block_size ctx -> loc + count < 2 ^ 64 ->
  read_cluster_chain read ctx chain loc count = Ok (Some (take (Z.to_nat count) (drop (Z.to_nat loc) (concat data)))).
Proof.
  intros Hbs Hd Hloc Hcount Hend Hmax. set (out := take (Z.to_nat count) (drop (Z.to_nat loc) (concat data))).
  assert (Forall (fun x : list Z => length x = Z.to_nat (block_size ctx)) data) as Hblocks.
  { apply Forall_lookup. intros k d Hk. destruct (Forall2_lookup_r _ _ _ _ _ Hd Hk) as (c & _ & _ & Hr).
    pose proof (read_length _ _ _ Hr ltac:(lia)). lia. }
  unfold read_cluster_chain.
  destruct (res_post_total (fun r => r = Some out)
    (loop (read_chain_body read ctx chain loc count) (fun '(progress, _) => count - progress) (0, []))) as (r & -> & ->); [|done].
  apply (loop_spec _ (fun '(p, buf) => 0 <= p <= count /\ buf = take (Z.to_nat p) (drop (Z.to_nat loc) (concat data))));
    [|split; [lia|done]|lia].
  intros [p buf] [Hp Hbuf]. unfold turn_ok, read_chain_body. case_if; [cbn [res_post]; rewrite Hbuf; unfold out; by replace p with count by lia|].
  rewrite (wrap_small 64 (loc + p)) by lia.
  pose proof (Z.div_mod (loc + p) (block_size ctx) ltac:(lia)) as Hdm. pose proof (Z.mod_pos_bound (loc + p) (block_size ctx) ltac:(lia)) as Hmb.
  set (k := (loc + p) / block_size ctx) in *. set (off := (loc + p) mod block_size ctx) in *.
  assert (0 <= k) by (apply Z.div_pos; lia).
  assert (k < Z.of_nat (length chain)) as Hk by (apply Z.div_lt_upper_bound; lia).
  rewrite (proj2 (Z.leb_gt _ _)) by done.
  destruct (lookup_lt_is_Some_2 chain (Z.to_nat k)) as [c Hc]; [lia|]. rewrite (rd_lookup _ _ _ Hc). cbn [rbind].
  destruct (Forall2_lookup_l _ _ _ _ _ Hd Hc) as (d & Hdk & Hc2 & Hr). rewrite (proj2 (Z.ltb_ge _ _)) by lia.
  fold (cluster_at c). set (chunk := if block_size ctx - off <? count - p then _ else _).
  assert (0 < chunk <= count - p /\ chunk <= block_size ctx - off) as [Hch Hch2] by (unfold chunk; case_if; lia).
  pose proof (read_bound _ _ _ Hr) as [Hb0 Hb1]. rewrite wrap_small by lia.
  rewrite (read_part _ _ _ off chunk Hr) by lia. cbn [res_post]. split; [|lia]. split; [lia|].
  rewrite Z2Nat.inj_add, take_add, <- Hbuf by lia. f_equal. rewrite drop_drop, <- Z2Nat.inj_add, Hdm by lia.
  rewrite Z2Nat.inj_add, Z.mul_comm, Z2Nat.inj_mul by lia. symmetry. apply concat_block; [done|done|lia].
Qed.
End Read.
