(* ===== verification/FatDir.v ===== *)
(** * FAT directories

    The search loop of [fat32_open_in] against a listing of the directory: the
    short entries in order, each with the long name whose set validly precedes
    it.  Then the other way round: a directory laid out from a list of deleted
    entries and files ([slot]), what it means that a file goes by a name, with
    code page, 8.3 form and checksum defined on their own, and that the listing
    of the layout is found by exactly those names. *)

From S2P Require Import Prelude CInt Libc LibcProps Utf Volume Gpt Fat FatChain.

(** ** The entries of a directory *)
Definition dirent (e : list Z) : Prop := length e = 32%nat /\ Forall is_byte e.

Lemma dirents_ok n bs : (n * 32 <= length bs)%nat -> Forall is_byte bs -> Forall dirent (dirents n bs).
Proof.
  revert bs. induction n as [|n IH]; intros bs Hl Hb; [constructor|]. cbn [dirents]. constructor.
  - split; [rewrite length_take; lia|by apply Forall_take].
  - apply IH; [rewrite length_drop; lia|by apply Forall_drop].
Qed.

Lemma directory_entries_ok bs : Forall is_byte bs -> Forall dirent (directory_entries bs).
Proof.
  intros Hb. apply dirents_ok; [|done]. pose proof (Nat.div_mod (length bs) 32 ltac:(lia)). lia.
Qed.

(** ** Everything the search compares returns *)
Definition terminated (s : list Z) : Prop := In 0 s.

Lemma str_cmp_total fold s1 s2 : (forall c, fold c = fold 0 -> c = 0) -> terminated s1 -> terminated s2 -> exists r, str_cmp fold s1 s2 = Ok r.
Proof.
  intros Hf. revert s2. induction s1 as [|c1 s1 IH]; intros s2 H1 H2; [done|]. destruct s2 as [|c2 s2]; [done|]. cbn [str_cmp].
  case_if; [by eexists|]. case_if; [by eexists|]. apply IH; [destruct H1; [lia|done]|]. destruct H2 as [->|]; [|done].
  exfalso. auto.
Qed.

Lemma strlen_total s : terminated s -> exists n, strlen s = Ok n /\ (n <= length s)%nat.
Proof.
  induction s as [|c s IH]; intros H; [done|]. cbn. case_if; [exists 0%nat; split; [done|lia]|].
  destruct IH as (n & -> & Hn); [destruct H; [lia|done]|]. exists (S n). split; [done|cbn; lia].
Qed.

Lemma fits_nil size : fits_in size [] \/ size < 0.
Proof. unfold fits_in. cbn. destruct (Z.lt_trichotomy size 0) as [?|[->|?]]; auto. Qed.

Lemma utf8_to_utf16_total size src : 0 <= size < 2 ^ 64 -> exists r, utf8_to_utf16 size src = Ok r.
Proof.
  intros Hs. unfold utf8_to_utf16. destruct (fits_nil size) as [Hf|]; [|lia].
  destruct (res_post_total _ _ (utf8_to_utf16_loop_fits size (length src) src [] (negb (size =? 0)) ltac:(done) Hs Hf)) as (r & -> & _).
  by eexists.
Qed.

Lemma to_8_3_total src : forall dest j ext, length dest = 11%nat ->
  exists r, to_8_3 src dest j ext = Ok r /\ (forall fn, r = Some fn -> length fn = 11%nat).
Proof.
  induction src as [|c src IH]; intros dest j ext Hd; cbn [to_8_3]; [exists (Some dest); split; [done|by intros ? [= <-]]|].
  case_if; [destruct ext; [exists None; by split|by apply IH]|]. case_if; [exists None; by split|]. case_if; [exists None; by split|].
  rewrite wr_lt by lia. cbn [rbind]. apply IH. by rewrite length_insert.
Qed.

Lemma to_8_3_name_total name : terminated name ->
  exists r, fat32_filename_to_8_3 name = Ok r /\ (forall fn, r = Some fn -> length fn = 11%nat).
Proof.
  intros Ht. unfold fat32_filename_to_8_3. destruct (strlen_total name Ht) as (n & -> & _). cbn [rbind].
  destruct (utf8_to_utf16_total 13 (take n name)) as [[[complete s] len] ->]; [lia|]. cbn [rbind].
  case_if; [exists None; by split|]. by apply to_8_3_total.
Qed.

Lemma sfn_matches_total n : forall i sfn fn, (i + n <= length sfn)%nat -> (i + n <= length fn)%nat -> Forall is_byte sfn ->
  exists r, sfn_matches_from i n sfn fn = Ok r.
Proof.
  induction n as [|n IH]; intros i sfn fn Hs Hf Hb; cbn [sfn_matches_from]; [by eexists|].
  destruct (lookup_lt_is_Some_2 sfn i) as [c Hc]; [lia|]. rewrite (rd_lookup _ _ _ Hc). cbn [rbind].
  pose proof (Forall_lookup_1 _ _ _ _ Hb Hc) as Hcb. unfold is_byte in Hcb. cbn beta in Hcb.
  set (c' := if (i =? 0)%nat && (c =? 5) then _ else _). assert (0 <= c' < 256) as Hc' by (unfold c'; case_if; lia).
  assert (exists u, oem_to_unicode c' = Ok u) as [u ->].
  { unfold oem_to_unicode. case_if; [by eexists|]. destruct (lookup_lt_is_Some_2 cp437_to_unicode (Z.to_nat c')) as [u Hu].
    - change (length cp437_to_unicode) with 256%nat. lia.
    - exists u. by apply rd_lookup. }
  cbn [rbind]. destruct (lookup_lt_is_Some_2 fn i) as [f Hf']; [lia|]. rewrite (rd_lookup _ _ _ Hf'). cbn [rbind].
  case_if; [by eexists|]. apply IH; [lia|lia|done].
Qed.

Lemma sfn_names_total name e : terminated name -> dirent e -> exists r, sfn_names name e = Ok r.
Proof.
  intros Ht [Hl Hb]. unfold sfn_names. case_if; [by eexists|]. destruct (to_8_3_name_total name Ht) as (r & -> & Hr). cbn [rbind].
  destruct r as [fn|]; [|by eexists]. apply sfn_matches_total; unfold d_name.
  - rewrite length_take. lia.
  - by rewrite (Hr fn eq_refl).
  - by apply Forall_take.
Qed.

Lemma lfn_names_total ci name lfn : terminated name -> exists r, lfn_names ci name lfn = Ok r.
Proof.
  intros Ht. unfold lfn_names. destruct (utf16_to_utf8 FAT32_LFN_MAX_FILENAME_LENGTH lfn) as [[complete s] len] eqn:E.
  assert (terminated s) as Hs by (injection E as _ <- _; apply in_app_iff; right; by left).
  case_if; [by eexists|]. destruct ci.
  - destruct (str_cmp_total tolower s name) as [r Hr]; [intros c; unfold tolower; repeat case_if; lia|done|done|].
    unfold strcasecmp. rewrite Hr. by eexists.
  - destruct (str_cmp_total (fun c => c) s name) as [r Hr]; [done|done|done|]. unfold strcmp. rewrite Hr. by eexists.
Qed.

(** ** The listing *)
Definition dir_item : Type := option (list Z) * list Z.

(** The short entries, each with its long name; [tag] is that of the entry to
    come. *)
Fixpoint items (es : list (list Z)) (tag : option (list Z)) (lfn : list Z) (expected checksum : Z) : list dir_item :=
  match es with
  | [] => []
  | e :: rest =>
      if d_first e =? 0 then []
      else if d_first e =? 0xe5 then items rest None lfn 0 checksum
      else if d_attribute e =? FAT32_LFN_ATTRIBUTE then
        let '(lfn, expected, checksum, complete) := lfn_step e lfn expected checksum in
        let follows := match rest with sfn :: _ => sfn_follows sfn checksum | [] => false end in
        items rest (if complete && follows then Some lfn else None) lfn expected checksum
      else (tag, e) :: items rest None lfn expected checksum
  end.

(** Whether an item has the name looked for, as a long or as a short name. *)
Definition item_names (ci : bool) (name : list Z) (i : dir_item) : res bool :=
  let! long := match i.1 with Some lfn => lfn_names ci name lfn | None => Ok false end in
  if long : bool then Ok true else sfn_names name i.2.

(** The first item with the name. *)
Fixpoint find_item (ci : bool) (name : list Z) (l : list dir_item) : res (option found) :=
  match l with
  | [] => Ok None
  | i :: l => let! hit := item_names ci name i in if hit : bool then Ok (Some (Entry i.2)) else find_item ci name l
  end.

Lemma sfn_names_lfn name e : d_attribute e = FAT32_LFN_ATTRIBUTE -> sfn_names name e = Ok false.
Proof. intros He. unfold sfn_names. rewrite He. done. Qed.

(** Only the first entry of a set gives a name, and nothing is expected after it. *)
Lemma lfn_step_complete e lfn expected checksum lfn' expected' checksum' :
  lfn_step e lfn expected checksum = (lfn', expected', checksum', true) -> expected' = 0.
Proof.
  unfold lfn_step. destruct (if negb (Z.land (l_sequence_number e) 64 =? 0) then _ else _) as [[l x] c].
  case_if; [by intros [= _ _ _]|]. case_if; [by intros [= _ _ _]|]. intros [= _ <- _ E]. bool_cases. lia.
Qed.

Lemma scan_entries_find ci name es : terminated name -> Forall dirent es ->
  forall tag lfn expected checksum,
  match tag with Some l => lfn_names ci name l = Ok false | None => True end ->
  scan_entries ci (Some name) es lfn expected checksum = find_item ci name (items es tag lfn expected checksum).
Proof.
  intros Hn. induction 1 as [|e es He Hes IH]; intros tag lfn expected checksum Htag; [done|]. cbn [scan_entries items].
  destruct (d_first e =? 0); [done|]. destruct (d_first e =? 0xe5); [by apply IH|].
  destruct (d_attribute e =? FAT32_LFN_ATTRIBUTE) eqn:Ea.
  - apply Z.eqb_eq in Ea. destruct (lfn_step e lfn expected checksum) as [[[lfn' expected'] checksum'] complete] eqn:El.
    destruct complete; [|cbn [negb andb]; by apply IH]. apply lfn_step_complete in El as ->. cbn [negb andb].
    destruct (lfn_names_total ci name lfn' Hn) as [hit Hhit]. rewrite Hhit. cbn [rbind]. destruct hit.
    + destruct es as [|sfn es]; [by apply IH|]. destruct (sfn_follows sfn checksum') eqn:Ef; [|by apply IH].
      unfold sfn_follows in Ef. apply negb_true_iff in Ef. rewrite !orb_false_iff in Ef. destruct Ef as [[[E1 E2] E3] _].
      cbn [items find_item]. rewrite E1, E2, E3. cbn [find_item]. unfold item_names. cbn [fst snd]. by rewrite Hhit.
    + rewrite (sfn_names_lfn name e Ea). cbn [rbind]. apply IH. by destruct es as [|sfn es]; [|destruct (sfn_follows sfn checksum')].
  - cbn [find_item]. unfold item_names. cbn [fst snd].
    assert (match tag with Some l => lfn_names ci name l | None => Ok false end = Ok false) as -> by (by destruct tag). cbn [rbind].
    destruct (sfn_names_total name e Hn He) as [hit ->]. cbn [rbind]. destruct hit; [done|]. by apply IH.
Qed.

(** ** Long name sets *)
Fixpoint unit_bytes (us : list Z) : list Z :=
  match us with
  | [] => []
  | u :: us => u mod 256 :: u / 256 :: unit_bytes us
  end.

(** A name padded to whole entries: a terminator, then [0xffff]. *)
Definition lfn_padded (name : list Z) : list Z :=
  name ++ (if (length name mod 13 =? 0)%nat then [] else 0 :: replicate (12 - length name mod 13) 0xffff).

Definition lfn_chunk (name : list Z) (k : nat) : list Z := take 13 (drop (13 * k) (lfn_padded name)).

(** The entry numbered [seq] of a set: byte 0, five units, the attribute, a zero,
    the checksum, six units, two zeros, two units. *)
Definition lfn_entry (flag checksum : Z) (seq : nat) (chunk : list Z) : list Z :=
  (Z.of_nat seq + flag) :: unit_bytes (take 5 chunk) ++ [0x0f; 0; checksum] ++ unit_bytes (take 6 (drop 5 chunk)) ++ [0; 0] ++
  unit_bytes (drop 11 chunk).

Fixpoint lfn_rest (name : list Z) (checksum : Z) (k : nat) : list (list Z) :=
  match k with
  | O => []
  | S k => lfn_entry 0 checksum (S k) (lfn_chunk name k) :: lfn_rest name checksum k
  end.

Definition lfn_count (name : list Z) : nat := (length (lfn_padded name) / 13)%nat.

(** The set of a name, last part first, the first one marked. *)
Definition lfn_set (name : list Z) (checksum : Z) : list (list Z) :=
  lfn_entry 0x40 checksum (lfn_count name) (lfn_chunk name (lfn_count name - 1)) :: lfn_rest name checksum (lfn_count name - 1).

Definition is_unit (u : Z) : Prop := 0 <= u < 0x10000.

Lemma length_unit_bytes us : length (unit_bytes us) = (2 * length us)%nat.
Proof. induction us as [|u us IH]; [done|]. cbn. lia. Qed.

Lemma units_unit_bytes us : Forall is_unit us -> units (unit_bytes us) = us.
Proof.
  induction 1 as [|u us Hu Hus IH]; [done|]. cbn [unit_bytes units]. rewrite IH. f_equal.
  pose proof (Z.div_mod u 256 ltac:(lia)). lia.
Qed.

Lemma unit_bytes_ok us : Forall is_unit us -> Forall is_byte (unit_bytes us).
Proof.
  induction 1 as [|u us Hu Hus IH]; [constructor|]. unfold is_unit in Hu. cbn [unit_bytes]. constructor; [by apply Z.mod_pos_bound|].
  constructor; [|done]. split; [apply Z.div_pos; lia|apply Z.div_lt_upper_bound; lia].
Qed.

Lemma length_lfn_padded name : (length (lfn_padded name) = 13 * lfn_count name)%nat /\ (length name <= length (lfn_padded name) < length name + 13)%nat.
Proof.
  unfold lfn_count. set (n := length name). assert (exists q, length (lfn_padded name) = (13 * q)%nat /\ (n <= 13 * q < n + 13)%nat) as (q & -> & Hq).
  { unfold lfn_padded. rewrite length_app. fold n. pose proof (Nat.div_mod n 13 ltac:(lia)) as Hd. pose proof (Nat.mod_upper_bound n 13 ltac:(lia)) as Hm.
    destruct (n mod 13 =? 0)%nat eqn:E; bool_hyps.
    - exists (n / 13)%nat. cbn [length]. lia.
    - exists (S (n / 13)). cbn [length]. rewrite length_replicate. lia. }
  rewrite (Nat.mul_comm 13 q), Nat.div_mul by lia. lia.
Qed.

Lemma lfn_chunk_ok name k : Forall is_unit name -> (k < lfn_count name)%nat -> length (lfn_chunk name k) = 13%nat /\ Forall is_unit (lfn_chunk name k).
Proof.
  intros Hn Hk. pose proof (length_lfn_padded name) as [Hl _]. unfold lfn_chunk. split; [rewrite length_take, length_drop; lia|].
  apply Forall_take, Forall_drop. unfold lfn_padded. apply Forall_app. split; [done|]. case_if; [constructor|].
  constructor; [unfold is_unit; lia|]. apply Forall_replicate. unfold is_unit. lia.
Qed.

(** What the driver reads out of such an entry. *)
Record lfn_fields (e : list Z) (seq checksum : Z) (chunk : list Z) : Prop := {
  lf_first : d_first e = seq;
  lf_attr : d_attribute e = FAT32_LFN_ATTRIBUTE;
  lf_sum : l_dos_checksum e = checksum;
  lf_1 : units (l_name1 e) = take 5 chunk;
  lf_2 : units (l_name2 e) = take 6 (drop 5 chunk);
  lf_3 : units (l_name3 e) = drop 11 chunk;
  lf_ok : dirent e;
}.

Lemma lfn_entry_fields flag checksum seq chunk :
  0 <= Z.of_nat seq + flag < 256 -> is_byte checksum -> length chunk = 13%nat -> Forall is_unit chunk ->
  lfn_fields (lfn_entry flag checksum seq chunk) (Z.of_nat seq + flag) checksum chunk.
Proof.
  intros Hs Hc Hl Hu. assert (forall a b, Forall is_unit (take a (drop b chunk))) as Hu' by (intros a b; apply Forall_take, Forall_drop, Hu).
  do 13 (destruct chunk as [|? chunk]; [discriminate Hl|]). destruct chunk; [|discriminate Hl].
  unfold lfn_entry. split.
  - unfold d_first, field. cbn. lia.
  - reflexivity.
  - unfold l_dos_checksum, field. cbn. lia.
  - exact (units_unit_bytes _ (Hu' 5%nat 0%nat)).
  - exact (units_unit_bytes _ (Hu' 6%nat 5%nat)).
  - exact (units_unit_bytes _ (Hu' 2%nat 11%nat)).
  - split; [done|]. constructor; [done|]. repeat (apply Forall_app; split).
    + exact (unit_bytes_ok _ (Hu' 5%nat 0%nat)).
    + repeat (constructor; [unfold is_byte in *; lia|]); constructor.
    + exact (unit_bytes_ok _ (Hu' 6%nat 5%nat)).
    + repeat (constructor; [unfold is_byte in *; lia|]); constructor.
    + exact (unit_bytes_ok _ (Hu' 2%nat 11%nat)).
Qed.

Lemma buf_write_app {A} (l a b : list A) i :
  (i + length a + length b <= length l)%nat -> buf_write (buf_write l i a) (i + length a) b = buf_write l i (a ++ b).
Proof.
  intros H. unfold buf_write at 1. rewrite take_buf_write by lia. unfold buf_write. rewrite <- !app_assoc. do 3 f_equal.
  rewrite length_app. rewrite <- drop_drop. rewrite (app_assoc (take i l)), drop_app_length' by (rewrite length_app, length_take; lia).
  rewrite drop_drop. f_equal. lia.
Qed.

Lemma seq_number_bits (flag : Z) seq : flag = 0 \/ flag = 0x40 -> (1 <= seq <= 20)%nat ->
  Z.land (Z.of_nat seq + flag) 0x1f = Z.of_nat seq /\ (Z.land (Z.of_nat seq + flag) 0x40 =? 0) = (flag =? 0) /\
  (Z.of_nat seq + flag =? 0) = false /\ (Z.of_nat seq + flag =? 0xe5) = false.
Proof.
  intros [->| ->] Hs; (do 21 (destruct seq as [|seq]; [by lia || done|])); lia.
Qed.

Lemma lfn_step_entry flag e seq checksum chunk lfn expected checksum0 :
  flag = 0 /\ expected = Z.of_nat seq /\ checksum0 = checksum \/ flag = 0x40 -> (1 <= seq <= 20)%nat ->
  lfn_fields e (Z.of_nat seq + flag) checksum chunk -> length chunk = 13%nat -> length lfn = 260%nat ->
  lfn_step e lfn expected checksum0 =
    (buf_write (if flag =? 0 then lfn else replicate 260 0) (13 * (seq - 1)) chunk, Z.of_nat seq - 1, checksum, (seq =? 1)%nat).
Proof.
  intros Hf Hs [H1 H2 H3 H4 H5 H6 _] Hl Hb. unfold lfn_step. change (l_sequence_number e) with (d_first e). rewrite H1.
  destruct (seq_number_bits flag seq) as (-> & -> & _); [tauto|done|]. rewrite H3, H4, H5, H6.
  assert ((if negb (flag =? 0) then (replicate 260 0, Z.of_nat seq, checksum) else (lfn, expected, checksum0)) =
    (if flag =? 0 then lfn else replicate 260 0, Z.of_nat seq, checksum)) as -> by (destruct Hf as [(-> & -> & ->)| ->]; done).
  set (buf := if flag =? 0 then lfn else replicate 260 0). assert (length buf = 260%nat) as Hbuf by (unfold buf; by case_if).
  rewrite !Z.eqb_refl, (proj2 (Z.eqb_neq _ 0)) by lia. cbn [negb orb]. unfold FAT32_LFN_MAX_ENTRIES.
  rewrite (proj2 (Z.leb_gt _ _)) by lia. replace (Z.to_nat ((Z.of_nat seq - 1) * 13)) with (13 * (seq - 1))%nat by lia.
  assert (chunk = take 5 chunk ++ take 6 (drop 5 chunk) ++ drop 11 chunk) as Ec.
  { rewrite <- (take_drop 5 chunk) at 1. f_equal. rewrite <- (take_drop 6 (drop 5 chunk)) at 1. by rewrite drop_drop. }
  replace (Z.of_nat seq =? 1) with (seq =? 1)%nat by (destruct (Nat.eqb_spec seq 1); lia). do 3 f_equal.
  rewrite Ec at 4. rewrite <- buf_write_app by (rewrite !length_app, !length_take, !length_drop; lia).
  replace (13 * (seq - 1) + length (take 5 chunk))%nat with (13 * (seq - 1) + 5)%nat by (rewrite length_take; lia).
  rewrite <- buf_write_app by (rewrite length_buf_write; rewrite ?length_take, ?length_drop; lia).
  f_equal. rewrite length_take, length_drop. lia.
Qed.

(** The buffer once the parts from the [k]-th on were stored. *)
Definition lfn_state (name : list Z) (k : nat) : list Z :=
  replicate (13 * k) 0 ++ drop (13 * k) (lfn_padded name) ++ replicate (260 - length (lfn_padded name)) 0.

Lemma lfn_state_step name k : (k < lfn_count name <= 20)%nat ->
  buf_write (lfn_state name (S k)) (13 * k) (lfn_chunk name k) = lfn_state name k.
Proof.
  intros Hk. pose proof (length_lfn_padded name) as [Hl _]. unfold buf_write, lfn_state, lfn_chunk.
  rewrite length_take, length_drop. replace (13 `min` (length (lfn_padded name) - 13 * k))%nat with 13%nat by lia.
  rewrite take_app_le by (rewrite length_replicate; lia). rewrite take_replicate, Nat.min_l by lia.
  rewrite drop_app_length' by (rewrite length_replicate; lia). f_equal. rewrite app_assoc. f_equal.
  rewrite <- (take_drop 13 (drop (13 * k) (lfn_padded name))) at 2. f_equal. rewrite drop_drop. f_equal. lia.
Qed.

Lemma length_lfn_state name k : (k <= lfn_count name <= 20)%nat -> length (lfn_state name k) = 260%nat.
Proof.
  intros Hk. pose proof (length_lfn_padded name) as [Hl _]. unfold lfn_state. rewrite !length_app, !length_replicate, length_drop. lia.
Qed.

Lemma lfn_state_first name : (1 <= lfn_count name <= 20)%nat ->
  buf_write (replicate 260 0) (13 * (lfn_count name - 1)) (lfn_chunk name (lfn_count name - 1)) = lfn_state name (lfn_count name - 1).
Proof.
  intros Hc. rewrite <- (lfn_state_step name (lfn_count name - 1)) by lia. f_equal. pose proof (length_lfn_padded name) as [Hl _].
  unfold lfn_state. replace (13 * S (lfn_count name - 1))%nat with (length (lfn_padded name)) by lia. rewrite drop_all. cbn [app].
  rewrite <- replicate_add. f_equal. lia.
Qed.

(** *** The listing of a set and its short entry *)
Section Set_.
Variables (name sfn : list Z) (rest : list (list Z)) (checksum : Z).
Hypothesis Hname : Forall is_unit name.
Hypothesis Hcount : (1 <= lfn_count name <= 20)%nat.
Hypothesis Hsum : is_byte checksum.
Hypothesis Hsfn : d_first sfn <> 0 /\ d_first sfn <> 0xe5 /\ d_attribute sfn <> FAT32_LFN_ATTRIBUTE.

(** The long name counts if the set carries the checksum of the short name. *)
Let owned : option (list Z) :=
  if fat32_lfn_checksum (d_name sfn) =? checksum then Some (lfn_state name 0) else None.

Lemma sfn_follows_sum : sfn_follows sfn checksum = (fat32_lfn_checksum (d_name sfn) =? checksum).
Proof.
  destruct Hsfn as (H1 & H2 & H3). unfold sfn_follows. rewrite !(proj2 (Z.eqb_neq (d_first sfn) _)) by done.
  rewrite (proj2 (Z.eqb_neq (d_attribute sfn) _)) by done. cbn [orb]. by rewrite negb_involutive.
Qed.

(** One entry of the set in the listing. *)
Lemma items_lfn_entry flag seq lfn expected checksum0 es tag :
  flag = 0 /\ expected = Z.of_nat seq /\ checksum0 = checksum \/ flag = 0x40 -> (1 <= seq <= lfn_count name)%nat ->
  length lfn = 260%nat ->
  let lfn' := buf_write (if flag =? 0 then lfn else replicate 260 0) (13 * (seq - 1)) (lfn_chunk name (seq - 1)) in
  items (lfn_entry flag checksum seq (lfn_chunk name (seq - 1)) :: es) tag lfn expected checksum0 =
  items es (if (seq =? 1)%nat && match es with sfn :: _ => sfn_follows sfn checksum | [] => false end then Some lfn' else None)
    lfn' (Z.of_nat seq - 1) checksum.
Proof.
  intros Hf Hs Hl lfn'. destruct (lfn_chunk_ok name (seq - 1) Hname) as [Hcl Hcu]; [lia|].
  assert (0 <= Z.of_nat seq + flag < 256) as Hrange by (destruct Hf as [(-> & _)| ->]; lia).
  pose proof (lfn_entry_fields flag checksum seq _ Hrange Hsum Hcl Hcu) as Hfields.
  destruct (seq_number_bits flag seq) as (_ & _ & E1 & E2); [destruct Hf as [(-> & _)| ->]; auto|lia|].
  cbn [items]. rewrite (lf_first _ _ _ _ Hfields), (lf_attr _ _ _ _ Hfields), E1, E2, Z.eqb_refl.
  by rewrite (lfn_step_entry flag _ seq checksum (lfn_chunk name (seq - 1))) by (done || lia).
Qed.

Lemma items_lfn_rest k : (1 <= k < lfn_count name)%nat -> forall tag,
  items (lfn_rest name checksum k ++ sfn :: rest) tag (lfn_state name k) (Z.of_nat k) checksum =
  items (sfn :: rest) owned (lfn_state name 0) 0 checksum.
Proof.
  induction k as [|k IH]; intros Hk tag; [lia|]. cbn [lfn_rest app].
  pose proof (items_lfn_entry 0 (S k) (lfn_state name (S k)) (Z.of_nat (S k)) checksum (lfn_rest name checksum k ++ sfn :: rest) tag) as H.
  cbv zeta in H. replace (S k - 1)%nat with k in H by lia. rewrite H; [|by left|lia|apply length_lfn_state; lia]. clear H.
  cbn [Z.eqb]. rewrite lfn_state_step by lia. replace (Z.of_nat (S k) - 1) with (Z.of_nat k) by lia.
  destruct k as [|k]; [cbn [lfn_rest app Nat.eqb andb]; by rewrite sfn_follows_sum|]. cbn [Nat.eqb andb]. apply IH. lia.
Qed.

Lemma items_lfn_set tag lfn expected checksum0 : length lfn = 260%nat ->
  items (lfn_set name checksum ++ sfn :: rest) tag lfn expected checksum0 =
  (owned, sfn) :: items rest None (lfn_state name 0) 0 checksum.
Proof.
  intros Hl. unfold lfn_set. cbn [app].
  pose proof (items_lfn_entry 0x40 (lfn_count name) lfn expected checksum0 (lfn_rest name checksum (lfn_count name - 1) ++ sfn :: rest) tag) as H.
  cbv zeta in H. rewrite H; [|by right|lia|done]. clear H. cbn [Z.eqb]. rewrite lfn_state_first by lia.
  assert (items (sfn :: rest) owned (lfn_state name 0) 0 checksum = (owned, sfn) :: items rest None (lfn_state name 0) 0 checksum) as Hlast.
  { destruct Hsfn as (H1 & H2 & H3). cbn [items]. rewrite !(proj2 (Z.eqb_neq (d_first sfn) _)) by done.
    by rewrite (proj2 (Z.eqb_neq (d_attribute sfn) _)) by done. }
  destruct (decide (lfn_count name = 1%nat)) as [->|Hne]; [cbn [Nat.sub lfn_rest app Nat.eqb andb]; rewrite sfn_follows_sum; exact Hlast|].
  rewrite (proj2 (Nat.eqb_neq _ 1)) by done. cbn [andb]. rewrite <- Hlast.
  replace (Z.of_nat (lfn_count name) - 1) with (Z.of_nat (lfn_count name - 1)) by lia. apply items_lfn_rest. lia.
Qed.

Lemma lfn_entry_dirent flag k : (k < lfn_count name)%nat -> 0 <= Z.of_nat (S k) + flag < 256 ->
  dirent (lfn_entry flag checksum (S k) (lfn_chunk name k)).
Proof using Hname Hsum. intros Hk Hr. destruct (lfn_chunk_ok name k Hname Hk). by eapply lf_ok, lfn_entry_fields. Qed.

Lemma lfn_set_dirents : Forall dirent (lfn_set name checksum).
Proof using Hname Hcount Hsum.
  clear Hsfn. unfold lfn_set. constructor.
  - replace (lfn_count name) with (S (lfn_count name - 1)) at 1 by lia. apply lfn_entry_dirent; lia.
  - assert (forall k, (k < lfn_count name)%nat -> Forall dirent (lfn_rest name checksum k)) as Hr; [|apply Hr; lia].
    induction k as [|k IH]; intros Hk; [constructor|]. cbn [lfn_rest]. constructor; [apply lfn_entry_dirent; lia|apply IH; lia].
Qed.
End Set_.

(** *** Names *)
Definition utf8_name (cps : list Z) : list Z := concat (map enc8 cps).
Definition utf16_name (cps : list Z) : list Z := concat (map enc16 cps).

Lemma utf8_name_pos cps : Forall scalar cps -> Forall (fun c => 0 < c) (utf8_name cps).
Proof.
  induction 1 as [|cp cps [Hcp _] Hs IH]; [constructor|]. unfold utf8_name. cbn [map concat]. apply Forall_app. split; [|done].
  unfold enc8. repeat case_if; repeat constructor; try lia;
    repeat match goal with |- context [?a mod ?b] => pose proof (Z.mod_pos_bound a b ltac:(lia)); generalize dependent (a mod b); intros end;
    try lia; apply Z.lt_le_trans with 1; try lia; apply (Z.le_trans _ (0xc0 + 0)); try lia; apply Z.add_le_mono; try lia; apply Z.div_pos; lia.
Qed.

Lemma utf16_name_unit cps : Forall scalar cps -> Forall is_unit (utf16_name cps).
Proof.
  induction 1 as [|cp cps [Hcp Hns] Hs IH]; [constructor|]. unfold utf16_name. cbn [map concat]. apply Forall_app. split; [|done].
  unfold enc16, is_unit. case_if; [constructor; [lia|constructor]|].
  pose proof (Z.mod_pos_bound (cp - 0x10000) 1024 ltac:(lia)).
  assert (0 <= (cp - 0x10000) / 1024 < 1024) by (split; [apply Z.div_pos; lia|apply Z.div_lt_upper_bound; lia]).
  constructor; [lia|]. constructor; [lia|constructor].
Qed.

Lemma lfn_state_name name : exists t, lfn_state name 0 = name ++ t /\ (lfn_count name <= 20 -> (length name <= 260)%nat)%nat /\ stops t.
Proof.
  pose proof (length_lfn_padded name) as [Hl Hlen]. unfold lfn_state. cbn [Nat.mul replicate app]. rewrite drop_0.
  unfold lfn_padded at 1. rewrite <- app_assoc. eexists. split; [done|]. split; [lia|]. case_if.
  - cbn [app]. unfold stops. destruct (260 - length (lfn_padded name))%nat; [by left|right; by eexists].
  - right. by eexists.
Qed.

(** Names compare byte by byte, with the case of ASCII letters ignored on demand. *)
Definition same_text (ci : bool) (a b : list Z) : Prop := if ci then map tolower a = map tolower b else a = b.

Lemma lfn_names_spec ci cps l : Forall scalar cps -> Forall scalar l ->
  exists b, lfn_names ci (utf8_name cps ++ [0]) (lfn_state (utf16_name l) 0) = Ok b /\
    (b = true <-> (length (utf8_name l) <= 260)%nat /\ same_text ci (utf8_name l) (utf8_name cps)).
Proof.
  intros Hs Hl. unfold lfn_names, utf16_to_utf8, utf_finish. destruct (lfn_state_name (utf16_name l)) as (t & -> & _ & Ht).
  change (FAT32_LFN_MAX_FILENAME_LENGTH =? 0) with false. cbn [negb]. unfold utf16_name.
  destruct (decide (length (utf8_name l) <= 260)%nat) as [H8|H8].
  2: { rewrite utf16_to_utf8_loop_cut; [exists false; split; [done|]; split; [done|tauto]|done|by vm_compute|by vm_compute|].
       cbn [length Nat.add]. fold (utf8_name l). unfold FAT32_LFN_MAX_FILENAME_LENGTH, FAT32_LFN_MAX_ENTRIES. lia. }
  rewrite utf16_to_utf8_loop_enc; [|done|done|by vm_compute|].
  2: { cbn [length Nat.add]. fold (utf8_name l). unfold FAT32_LFN_MAX_FILENAME_LENGTH, FAT32_LFN_MAX_ENTRIES. lia. }
  cbn [app fst snd negb]. fold (utf8_name l). pose proof (utf8_name_pos cps Hs) as Hp. pose proof (utf8_name_pos l Hl) as Hpl.
  destruct ci; [unfold strcasecmp; rewrite (str_cmp_lex tolower eq_refl tolower_pos (utf8_name l) [] (utf8_name cps) []) by done
    |unfold strcmp; rewrite (str_cmp_lex (fun c => c) eq_refl (fun c H => H) (utf8_name l) [] (utf8_name cps) []) by done].
  all: cbn [rbind]; eexists; split; [done|]; rewrite Z.eqb_eq, lex_eq, ?map_id; unfold same_text; tauto.
Qed.

(** *** Short names *)

(** The lower case of the characters of the code page, letter by letter: A to Z,
    the Latin capitals with diacritics and the Greek capitals it has. *)
Definition lower_pairs : list (Z * Z) :=
  map (fun c => (c, c + 32)) (seqZ 65 26) ++
  [(0xc4, 0xe4); (0xc5, 0xe5); (0xc6, 0xe6); (0xc7, 0xe7); (0xc9, 0xe9); (0xd1, 0xf1); (0xd6, 0xf6); (0xdc, 0xfc);
   (0x393, 0x3b3); (0x398, 0x3b8); (0x3a3, 0x3c3); (0x3a6, 0x3c6); (0x3a9, 0x3c9)].

Definition lower (c : Z) : Z :=
  match find (fun p => p.1 =? c) lower_pairs with Some (_, l) => l | None => c end.

(** ASCII, or in the upper half of the table. *)
Definition in_code_page (c : Z) : Prop := 0 <= c < 0x80 \/ c ∈ drop 128 cp437_to_unicode.

(** The eleven characters of a short name; 0x05 stands for 0xe5 in front. *)
Definition short_char (i : nat) (c : Z) : Z :=
  let c := if (i =? 0)%nat && (c =? 5) then 0xe5 else c in
  if c <? 0x80 then c else nth (Z.to_nat c) cp437_to_unicode 0.

Definition short_chars (e : list Z) : list Z := imap short_char (take 11 e).

(** [name] with its one dot, or none, split into eight and three places. *)
Definition padded_8_3 (base ext : list Z) : list Z :=
  base ++ replicate (8 - length base) 32 ++ ext ++ replicate (3 - length ext) 32.

Definition splits_8_3 (name base ext : list Z) : Prop :=
  (name = base /\ ext = [] \/ name = base ++ 46 :: ext) /\ (46 ∉ base) /\ (46 ∉ ext) /\
  (length base <= 8)%nat /\ (length ext <= 3)%nat /\ Forall in_code_page (base ++ ext).

Definition short_named (name e : list Z) : Prop :=
  exists base ext, splits_8_3 name base ext /\ map lower (short_chars e) = map lower (padded_8_3 base ext).

Lemma cp437_encodes_spec c : 0 <= c -> (fat32_cp437_encodes c = true <-> in_code_page c).
Proof.
  intros Hc. unfold fat32_cp437_encodes, in_code_page. case_if; [split; [by left; lia|done]|].
  rewrite existsb_exists. split.
  - intros (u & Hin & Hu). right. apply list_elem_of_In. by replace c with u by lia.
  - intros [?|Hin]; [lia|]. exists c. split; [by apply list_elem_of_In|lia].
Qed.

Lemma code_page_forall (P : Z -> Prop) `{!forall c, Decision (P c)} :
  forallb (fun c => bool_decide (P c)) (seqZ 0 128 ++ drop 128 cp437_to_unicode) = true ->
  forall c, in_code_page c -> P c.
Proof.
  intros Hf c Hc. rewrite forallb_forall in Hf. apply (bool_decide_eq_true_1 (P c)), Hf, list_elem_of_In, elem_of_app.
  destruct Hc as [Hc|Hc]; [left; apply elem_of_seqZ; lia|by right].
Qed.

(** The range tests of [fat32_tolower] are the table above on the code page. *)
Lemma fat32_tolower_lower c : in_code_page c -> fat32_tolower c = lower c.
Proof. apply (code_page_forall (fun c => fat32_tolower c = lower c)). vm_compute. reflexivity. Qed.

Lemma short_char_ok i c : is_byte c ->
  in_code_page (short_char i c) /\
  oem_to_unicode (if (i =? 0)%nat && (c =? 5) then 0xe5 else c) = Ok (short_char i c).
Proof.
  intros Hc. unfold short_char, oem_to_unicode, is_byte in *.
  set (c' := if (i =? 0)%nat && (c =? 5) then 0xe5 else c). assert (0 <= c' < 256) as Hc' by (unfold c'; case_if; lia).
  destruct (Z.ltb_spec c' 0x80); [split; [by left; lia|done]|].
  destruct (lookup_lt_is_Some_2 cp437_to_unicode (Z.to_nat c')) as [u Hu].
  { change (length cp437_to_unicode) with 256%nat. lia. }
  rewrite (nth_lookup_Some _ _ _ _ Hu). split; [|by apply rd_lookup]. right.
  apply list_elem_of_lookup. exists (Z.to_nat c' - 128)%nat. rewrite lookup_drop. by replace (128 + (Z.to_nat c' - 128))%nat with (Z.to_nat c') by lia.
Qed.

Lemma sfn_matches_spec n : forall i sfn fn, (i + n)%nat = length sfn -> (i + n)%nat = length fn ->
  Forall is_byte sfn -> Forall in_code_page fn ->
  exists b, sfn_matches_from i n sfn fn = Ok b /\
    (b = true <-> map lower (imap (fun k => short_char (i + k)) (drop i sfn)) = map lower (drop i fn)).
Proof.
  induction n as [|n IH]; intros i sfn fn Hs Hf Hb Hcp; cbn [sfn_matches_from].
  { exists true. split; [done|]. rewrite !drop_ge by lia. by split. }
  destruct (lookup_lt_is_Some_2 sfn i) as [c Hc]; [lia|]. destruct (lookup_lt_is_Some_2 fn i) as [f Hf']; [lia|].
  rewrite (rd_lookup _ _ _ Hc), (rd_lookup _ _ _ Hf'). cbn [rbind].
  destruct (short_char_ok i c (Forall_lookup_1 _ _ _ _ Hb Hc)) as [Hp ->]. cbn [rbind].
  rewrite !fat32_tolower_lower by (done || exact (Forall_lookup_1 _ _ _ _ Hcp Hf')).
  rewrite (drop_S _ _ _ Hc), (drop_S _ _ _ Hf'). cbn [imap map]. rewrite Nat.add_0_r.
  destruct (Z.eqb_spec (lower (short_char i c)) (lower f)) as [E|E]; cbn [negb].
  - destruct (IH (S i) sfn fn) as (b & -> & Hiff); [lia|lia|done|done|]. exists b. split; [done|]. rewrite Hiff, E.
    assert (imap (fun k => short_char (S i + k)) (drop (S i) sfn) =
      imap ((fun k => short_char (i + k)) ∘ S) (drop (S i) sfn)) as -> by (apply imap_ext; intros; cbn; f_equal; lia).
    split; [by intros ->|congruence].
  - exists false. split; [done|]. split; [done|]. intros [= ? _]. done.
Qed.

(** The loop of [fat32_filename_to_8_3] behind the dot, [e] of the extension
    stored, and before it, [b] of the name stored. *)
Lemma to_8_3_ext cs : forall pre e, length pre = 8%nat -> (length e <= 3)%nat -> Forall (fun c => 0 <= c) cs ->
  exists r, to_8_3 cs (pre ++ e ++ replicate (3 - length e) 32) (8 + length e) true = Ok r /\
    forall fn, r = Some fn <->
      (46 ∉ cs) /\ (length e + length cs <= 3)%nat /\ Forall in_code_page cs /\
      fn = pre ++ (e ++ cs) ++ replicate (3 - length (e ++ cs)) 32.
Proof.
  induction cs as [|c cs IH]; intros pre e Hp He Hc; cbn [to_8_3].
  { eexists. split; [done|]. intros fn. rewrite app_nil_r. split.
    - intros [= <-]. split_and!; [apply not_elem_of_nil|cbn; lia|constructor|done].
    - by intros (_ & _ & _ & ->). }
  apply Forall_cons in Hc as [Hc0 Hc].
  destruct (Z.eqb_spec c 46) as [->|Hne].
  { exists None. split; [done|]. intros fn. split; [done|]. intros (H & _). destruct H. by left. }
  destruct ((11 <=? 8 + length e)%nat || ((8 <=? 8 + length e)%nat && negb true)) eqn:Hj.
  { exists None. split; [done|]. intros fn. split; [done|]. intros (_ & Hl & _). cbn in Hl.
    rewrite andb_false_r, orb_false_r in Hj. apply Nat.leb_le in Hj. lia. }
  rewrite andb_false_r, orb_false_r in Hj. apply Nat.leb_gt in Hj.
  destruct (fat32_cp437_encodes c) eqn:Henc; cbn [negb].
  2: { exists None. split; [done|]. intros fn. split; [done|]. intros (_ & _ & H & _).
       apply Forall_cons in H as [H _]. apply cp437_encodes_spec in H; [congruence|done]. }
  apply cp437_encodes_spec in Henc; [|done].
  rewrite wr_lt by (rewrite !length_app, length_replicate; lia). cbn [rbind].
  assert (<[(8 + length e)%nat := c]> (pre ++ e ++ replicate (3 - length e) 32) =
    pre ++ (e ++ [c]) ++ replicate (3 - length (e ++ [c])) 32) as ->.
  { rewrite insert_app_r_alt by lia. f_equal. rewrite insert_app_r_alt by lia. rewrite <- app_assoc. f_equal.
    replace (8 + length e - length pre - length e)%nat with 0%nat by lia.
    rewrite length_app. cbn [length]. by replace (3 - length e)%nat with (S (3 - (length e + 1))) by lia. }
  destruct (IH pre (e ++ [c])) as (r & Hr & Hiff); [done|rewrite length_app; cbn; lia|done|].
  rewrite length_app in Hr. cbn [length] in Hr. replace (8 + (length e + 1))%nat with (S (8 + length e)) in Hr by lia.
  rewrite length_app. cbn [length]. rewrite Hr. exists r. split; [done|]. intros fn. rewrite Hiff, <- !app_assoc, length_app. cbn [app length].
  rewrite not_elem_of_cons, Forall_cons. replace (length e + 1 + length cs)%nat with (length e + S (length cs))%nat by lia.
  split; [intros (?&?&?&?); split_and!; congruence || done|intros ((?&?)&?&(?&?)&?); done].
Qed.

Lemma to_8_3_base cs : forall b, (length b <= 8)%nat -> Forall (fun c => 0 <= c) cs ->
  exists r, to_8_3 cs (b ++ replicate (11 - length b) 32) (length b) false = Ok r /\
    forall fn, r = Some fn <-> exists base ext,
      (cs = base /\ ext = [] \/ cs = base ++ 46 :: ext) /\ (46 ∉ base) /\ (46 ∉ ext) /\
      (length b + length base <= 8)%nat /\ (length ext <= 3)%nat /\ Forall in_code_page (base ++ ext) /\
      fn = padded_8_3 (b ++ base) ext.
Proof.
  induction cs as [|c cs IH]; intros b Hb Hc; cbn [to_8_3].
  { eexists. split; [done|]. intros fn. split.
    - intros [= <-]. exists [], []. split_and!; try (by left); try apply not_elem_of_nil; try (cbn; lia); try constructor.
      unfold padded_8_3. rewrite app_nil_r. cbn [app length]. rewrite <- replicate_add. do 2 f_equal. lia.
    - intros (base & ext & [[<- ->]|H] & _ & _ & _ & _ & _ & ->); [|by destruct base].
      unfold padded_8_3. rewrite app_nil_r. cbn [app length]. rewrite <- replicate_add. do 3 f_equal. lia. }
  apply Forall_cons in Hc as [Hc0 Hc]. destruct (Z.eqb_spec c 46) as [->|Hne].
  { destruct (to_8_3_ext cs (b ++ replicate (8 - length b) 32) []) as (r & Hr & Hiff);
      [rewrite length_app, length_replicate; lia|cbn; lia|done|].
    cbn [length app Nat.add Nat.sub] in Hr. rewrite <- app_assoc, <- replicate_add in Hr.
    replace (8 - length b + 3)%nat with (11 - length b)%nat in Hr by lia. rewrite Hr. exists r. split; [done|].
    intros fn. rewrite Hiff. unfold padded_8_3. cbn [app length Nat.add]. split.
    - intros (H1 & H2 & H3 & ->). exists [], cs. split_and!; try done; try apply not_elem_of_nil; try (by right); try (cbn; lia).
      by rewrite app_nil_r, <- app_assoc.
    - intros (base & ext & Hs & H1 & H2 & H3 & H4 & H5 & ->). destruct base as [|x base].
      + destruct Hs as [[? _]|[= <-]]; [done|]. rewrite app_nil_r, <- app_assoc. done.
      + destruct H1. destruct Hs as [[[= <- _] _]|[= <- _]]; by left. }
  destruct ((11 <=? length b)%nat || ((8 <=? length b)%nat && negb false)) eqn:Hj.
  { exists None. split; [done|]. intros fn. split; [done|]. intros (base & ext & Hs & _ & _ & Hl & _).
    assert (base <> []) by (intros ->; destruct Hs as [[? _]|[= ? _]]; done). destruct base; [done|]. cbn in Hl.
    apply orb_true_iff in Hj as [Hj|Hj]; [apply Nat.leb_le in Hj; lia|]. rewrite andb_true_r in Hj. apply Nat.leb_le in Hj. lia. }
  apply orb_false_iff in Hj as [_ Hj]. rewrite andb_true_r in Hj. apply Nat.leb_gt in Hj.
  assert (forall base ext, (c :: cs = base /\ ext = [] \/ c :: cs = base ++ 46 :: ext) ->
    exists base', base = c :: base' /\ (cs = base' /\ ext = [] \/ cs = base' ++ 46 :: ext)) as Hhead.
  { intros base ext Hs. destruct base as [|x base]; [destruct Hs as [[? _]|[= ? _]]; done|]. exists base.
    destruct Hs as [[[= <- <-] ->]|[= <- ->]]; auto. }
  destruct (fat32_cp437_encodes c) eqn:Henc; cbn [negb].
  2: { exists None. split; [done|]. intros fn. split; [done|]. intros (base & ext & (base' & -> & _)%Hhead & _ & _ & _ & _ & H & _).
       apply Forall_cons in H as [H _]. apply cp437_encodes_spec in H; [congruence|done]. }
  apply cp437_encodes_spec in Henc; [|done].
  rewrite wr_lt by (rewrite length_app, length_replicate; lia). cbn [rbind].
  assert (<[length b := c]> (b ++ replicate (11 - length b) 32) = (b ++ [c]) ++ replicate (11 - length (b ++ [c])) 32) as ->.
  { rewrite insert_app_r_alt by lia. rewrite <- app_assoc. f_equal. rewrite Nat.sub_diag, length_app. cbn [length].
    by replace (11 - length b)%nat with (S (11 - (length b + 1))) by lia. }
  destruct (IH (b ++ [c])) as (r & Hr & Hiff); [rewrite length_app; cbn; lia|done|].
  rewrite length_app in Hr. cbn [length] in Hr. rewrite length_app. cbn [length].
  replace (S (length b)) with (length b + 1)%nat by lia. rewrite Hr. exists r. split; [done|]. intros fn. rewrite Hiff.
  split.
  - intros (base & ext & Hs & H1 & H2 & H3 & H4 & H5 & ->). exists (c :: base), ext. rewrite length_app in H3. cbn [length app] in *.
    split_and!; try done; try lia.
    + destruct Hs as [[-> ->]| ->]; auto.
    + by apply not_elem_of_cons.
    + by constructor.
    + by rewrite <- app_assoc.
  - intros (base & ext & (base' & -> & Hs)%Hhead & H1 & H2 & H3 & H4 & H5 & ->). exists base', ext.
    apply not_elem_of_cons in H1 as [_ H1]. rewrite length_app. cbn [length app] in *. apply Forall_cons in H5 as [_ H5].
    split_and!; try done; try lia. by rewrite <- app_assoc.
Qed.

(** A character outside the first plane is two surrogates, which no code page has. *)
Lemma splits_utf16 cps base ext : Forall scalar cps ->
  splits_8_3 (utf16_name cps) base ext <-> splits_8_3 cps base ext.
Proof.
  intros Hs. destruct (decide (Forall (fun cp => cp < 0x10000) cps)) as [Hb|Hb].
  { assert (utf16_name cps = cps) as ->; [|done]. unfold utf16_name. clear Hs. induction Hb as [|cp cps Hcp Hb IH]; [done|].
    cbn [map concat]. destruct (enc16_cases cp) as [[_ ->]|[? _]]; [|lia]. cbn [app]. by rewrite IH. }
  assert (exists cp, cp ∈ cps /\ 0x10000 <= cp) as (cp & Hin & Hcp).
  { apply not_Forall_Exists in Hb; [|tc_solve]. apply Exists_exists in Hb as (cp & ? & Hnot). exists cp. split; [done|]. unfold compose in Hnot. lia. }
  assert (forall l c, c ∈ l -> 0xd800 <= c < 0xdc00 \/ 0x10000 <= c -> ~ splits_8_3 l base ext) as Hno.
  { intros l c Hc Hr (Hl & _ & _ & _ & _ & Hcode). rewrite Forall_forall in Hcode.
    assert (c ∈ base ++ ext) as Hbe.
    { destruct Hl as [[-> ->]| ->]; [by rewrite app_nil_r|]. apply elem_of_app in Hc as [Hc|Hc]; [apply elem_of_app; by left|].
      apply elem_of_cons in Hc as [->|Hc]; [lia|apply elem_of_app; by right]. }
    specialize (Hcode c Hbe). revert Hr.
    apply (code_page_forall (fun c => 0xd800 <= c < 0xdc00 \/ 0x10000 <= c -> False)); [|exact Hcode]. vm_compute. reflexivity. }
  assert (0xd800 + (cp - 0x10000) / 1024 ∈ utf16_name cps) as Hin16.
  { unfold utf16_name. apply list_elem_of_In, in_concat. exists (enc16 cp). split; [apply in_map, list_elem_of_In; done|].
    destruct (enc16_cases cp) as [[? _]|[_ ->]]; [lia|]. by left. }
  rewrite Forall_forall in Hs. destruct (Hs cp Hin) as [Hmax _].
  assert (0 <= (cp - 0x10000) / 1024 < 1024) by (split; [apply Z.div_pos; lia|apply Z.div_lt_upper_bound; lia]).
  split; intros Hsp; exfalso; [by apply (Hno _ _ Hin16); [left; lia|]|by apply (Hno _ _ Hin); [right|]].
Qed.

Lemma strlen_nz l : Forall (fun c => 0 < c) l -> strlen (l ++ [0]) = Ok (length l).
Proof. induction 1 as [|c l Hc Hl IH]; [done|]. cbn [app strlen length]. rewrite (proj2 (Z.eqb_neq c 0)) by lia. by rewrite IH. Qed.

Lemma length_cps_utf8 cps : (length cps <= length (utf8_name cps))%nat.
Proof.
  induction cps as [|cp cps IH]; [done|]. unfold utf8_name in *. cbn [map concat length]. rewrite length_app.
  pose proof (enc8_nonempty cp). lia.
Qed.

Lemma filename_to_8_3_spec cps : Forall scalar cps ->
  exists r, fat32_filename_to_8_3 (utf8_name cps ++ [0]) = Ok r /\
    forall fn, r = Some fn <-> exists base ext, splits_8_3 cps base ext /\ fn = padded_8_3 base ext.
Proof.
  intros Hs. unfold fat32_filename_to_8_3. rewrite strlen_nz by (by apply utf8_name_pos). cbn [rbind].
  rewrite take_app_length. unfold utf8_to_utf16. change (13 =? 0) with false. cbn [negb].
  pose proof (length_cps_utf8 cps) as Hfuel. set (fuel := length (utf8_name cps)) in *. unfold utf8_name.
  rewrite <- (app_nil_r (concat (map enc8 cps))).
  destruct (decide (length (utf16_name cps) <= 12)%nat) as [Hl|Hl].
  - rewrite utf8_to_utf16_loop_enc; [|done|by left|lia|done|cbn [length Nat.add]; fold (utf16_name cps); lia].
    cbn [rbind app]. fold (utf16_name cps). unfold utf_finish. cbn [fst snd negb]. rewrite take_app_length.
    destruct (to_8_3_base (utf16_name cps) []) as (r & Hr & Hiff).
    { cbn. lia. }
    { eapply Forall_impl; [by apply utf16_name_unit|]. intros c Hc. unfold is_unit in Hc. cbn beta. lia. }
    cbn [length app Nat.sub Nat.add] in *. rewrite Hr. exists r. split; [done|]. intros fn. rewrite Hiff.
    split; intros (base & ext & H); exists base, ext.
    + destruct H as (H1 & H2 & H3 & H4 & H5 & H6 & H7). split; [|done]. by apply splits_utf16.
    + destruct H as [(H1 & H2 & H3 & H4 & H5 & H6)%splits_utf16 H7]; done.
  - destruct (utf8_to_utf16_loop_cut 13 cps fuel [] [] true) as (out & Hout);
      [done|lia|done|cbn; lia|cbn [length Nat.add]; fold (utf16_name cps); lia|].
    rewrite Hout. cbn. exists None. split; [done|]. intros fn. split; [done|].
    intros (base & ext & Hsp%splits_utf16 & _); [|done]. destruct Hsp as (H1 & _ & _ & H4 & H5 & _).
    destruct H1 as [[H1 _]|H1]; rewrite H1, ?length_app in Hl; cbn [length] in Hl; lia.
Qed.

Lemma padded_8_3_ok name base ext : splits_8_3 name base ext ->
  length (padded_8_3 base ext) = 11%nat /\ Forall in_code_page (padded_8_3 base ext).
Proof.
  intros (_ & _ & _ & H4 & H5 & H6). apply Forall_app in H6 as [Hb He]. unfold padded_8_3. split.
  - rewrite !length_app, !length_replicate. lia.
  - repeat (apply Forall_app; split); try done; apply Forall_replicate; left; lia.
Qed.

Lemma sfn_names_spec cps e : Forall scalar cps -> dirent e ->
  exists b, sfn_names (utf8_name cps ++ [0]) e = Ok b /\
    (b = true <-> Z.testbit (d_attribute e) 3 = false /\ short_named cps e).
Proof.
  intros Hs [Hl Hb]. unfold sfn_names.
  assert ((Z.land (d_attribute e) (Z.shiftl 1 3) =? 0) = negb (Z.testbit (d_attribute e) 3)) as ->.
  { change (Z.shiftl 1 3) with (2 ^ 3). destruct (Z.testbit (d_attribute e) 3) eqn:Et; cbn [negb].
    - apply Z.eqb_neq. intros H0. apply (f_equal (fun z => Z.testbit z 3)) in H0. rewrite Z.land_spec, Et in H0. done.
    - apply Z.eqb_eq, Z.bits_inj'. intros k Hk. rewrite Z.land_spec, Z.bits_0, Z.pow2_bits_eqb by lia.
      destruct (Z.eqb_spec 3 k) as [<-|]; [by rewrite Et|apply andb_false_r]. }
  rewrite negb_involutive. destruct (Z.testbit (d_attribute e) 3); [exists false; split; [done|]; split; [done|by intros []]|].
  destruct (filename_to_8_3_spec cps Hs) as (r & -> & Hr). cbn [rbind]. destruct r as [fn|].
  - destruct (proj1 (Hr fn) eq_refl) as (base & ext & Hsp & ->). destruct (padded_8_3_ok _ _ _ Hsp) as [Hfl Hfc].
    assert (length (d_name e) = 11%nat) as Hdl by (unfold d_name; rewrite length_take; lia).
    unfold fat32_sfn_matches. destruct (sfn_matches_spec 11 0 (d_name e) (padded_8_3 base ext)) as (b & -> & Hiff);
      [lia|lia|by apply Forall_take|done|]. exists b. split; [done|]. rewrite Hiff, !drop_0. cbn [Nat.add].
    change (imap (fun k => short_char k) (d_name e)) with (short_chars e). split.
    + intros E. split; [done|]. by exists base, ext.
    + intros (_ & base' & ext' & Hsp' & ->).
      assert (Some (padded_8_3 base ext) = Some (padded_8_3 base' ext')) as [= ->]; [|done].
      apply Hr. by exists base', ext'.
  - exists false. split; [done|]. split; [done|]. intros (_ & base & ext & Hsp & _).
    assert (@None (list Z) = Some (padded_8_3 base ext)) by (apply Hr; by exists base, ext). done.
Qed.

(** *** A directory as it is laid out

    Its entries in order: deleted ones, and files, a file being a short entry
    alone or behind a set made for a long name and a checksum. *)
Inductive slot :=
| Free (e : list Z)
| File (long : option (list Z * Z)) (sfn : list Z).

Definition slot_entries (s : slot) : list (list Z) :=
  match s with
  | Free e => [e]
  | File None sfn => [sfn]
  | File (Some (l, sum)) sfn => lfn_set (utf16_name l) sum ++ [sfn]
  end.

Definition slot_ok (s : slot) : Prop :=
  match s with
  | Free e => dirent e /\ d_first e = 0xe5
  | File long sfn =>
      dirent sfn /\ (d_first sfn <> 0 /\ d_first sfn <> 0xe5 /\ d_attribute sfn <> FAT32_LFN_ATTRIBUTE) /\
      match long with
      | Some (l, sum) => Forall scalar l /\ (1 <= length (utf16_name l) <= 260)%nat /\ is_byte sum
      | None => True
      end
  end.

(** The array ends, or an entry that was never used ends the list. *)
Definition dir_end (tail : list (list Z)) : Prop :=
  tail = [] \/ exists e rest, tail = e :: rest /\ d_first e = 0 /\ Forall dirent tail.

(** The checksum of a short name: rotate right and add, byte by byte. *)
Definition name_sum (sfn : list Z) : Z := foldl (fun s c => (s / 2 + 128 * (s mod 2) + c) mod 256) 0 (take 11 sfn).

(** Whether the file in a slot goes by a name: its long name, if the set carries
    the checksum of the short entry behind it and takes at most 260 bytes in UTF-8;
    or its short name, if the entry is not a volume label. *)
Definition named (ci : bool) (name : list Z) (s : slot) : Prop :=
  match s with
  | Free _ => False
  | File long sfn =>
      (exists l, long = Some (l, name_sum sfn) /\ (length (utf8_name l) <= 260)%nat /\
                 same_text ci (utf8_name l) (utf8_name name)) \/
      (Z.testbit (d_attribute sfn) 3 = false /\ short_named name sfn)
  end.

Lemma name_sum_spec sfn : fat32_lfn_checksum (d_name sfn) = name_sum sfn.
Proof.
  unfold fat32_lfn_checksum, name_sum, d_name. rewrite take_take. change (11 `min` 11)%nat with 11%nat.
  assert (forall l s, foldl (fun sum c => u8 ((if negb (Z.land sum 1 =? 0) then 0x80 else 0) + Z.shiftr sum 1 + c)) s l =
    foldl (fun s c => (s / 2 + 128 * (s mod 2) + c) mod 256) s l) as H; [|apply H].
  induction l as [|c l IH]; intros s; [done|]. cbn [foldl]. rewrite IH. f_equal. unfold wrap. change (2 ^ 8) with 256. f_equal.
  change (Z.land s 1) with (Z.land s (Z.ones 1)).
  rewrite Z.land_ones, Z.shiftr_div_pow2 by lia. change (2 ^ 1) with 2. pose proof (Z.mod_pos_bound s 2 ltac:(lia)).
  destruct (Z.eqb_spec (s mod 2) 0); cbn [negb]; lia.
Qed.

Definition slot_items (s : slot) : list dir_item :=
  match s with
  | Free _ => []
  | File (Some (l, sum)) sfn => [(if name_sum sfn =? sum then Some (lfn_state (utf16_name l) 0) else None, sfn)]
  | File None sfn => [(None, sfn)]
  end.

Lemma lfn_count_bounds name : (1 <= length name <= 260)%nat -> (1 <= lfn_count name <= 20)%nat.
Proof. intros H. pose proof (length_lfn_padded name) as [? ?]. lia. Qed.

Lemma items_layout slots tail : Forall slot_ok slots -> dir_end tail ->
  forall lfn expected checksum, length lfn = 260%nat ->
  items (concat (map slot_entries slots) ++ tail) None lfn expected checksum = concat (map slot_items slots).
Proof.
  intros Hs Ht. induction Hs as [|s slots Hok Hs IH]; intros lfn expected checksum Hl; cbn [map concat app].
  { destruct Ht as [->|(e & rest & -> & He & _)]; [done|]. cbn [items]. by rewrite (proj2 (Z.eqb_eq _ _)) by done. }
  rewrite <- app_assoc. destruct s as [e|[[l sum]|] sfn]; cbn [slot_entries slot_items slot_ok app] in *.
  - destruct Hok as [_ He]. cbn [items]. rewrite He. cbn [Z.eqb]. by apply IH.
  - destruct Hok as (Hd & Hsfn & Hsc & Hlen & Hsum). pose proof (lfn_count_bounds _ Hlen) as Hc.
    rewrite <- app_assoc. cbn [app].
    rewrite (items_lfn_set (utf16_name l) sfn (concat (map slot_entries slots) ++ tail) sum (utf16_name_unit l Hsc) Hc Hsum Hsfn) by done.
    rewrite name_sum_spec. f_equal. apply IH. by apply length_lfn_state; lia.
  - destruct Hok as (Hd & (H1 & H2 & H3) & _). cbn [items]. rewrite !(proj2 (Z.eqb_neq (d_first sfn) _)) by done.
    rewrite (proj2 (Z.eqb_neq (d_attribute sfn) _)) by done. f_equal. by apply IH.
Qed.

Lemma layout_dirents slots tail : Forall slot_ok slots -> dir_end tail ->
  Forall dirent (concat (map slot_entries slots) ++ tail).
Proof.
  intros Hs Ht. induction Hs as [|s slots Hok Hs IH]; cbn [map concat app].
  { by destruct Ht as [->|(e & rest & -> & _ & H)]. }
  rewrite <- app_assoc. apply Forall_app. split; [|done].
  destruct s as [e|[[l sum]|] sfn]; cbn [slot_entries slot_ok] in *; [by constructor; [apply Hok|]| |by constructor; [apply Hok|]].
  destruct Hok as (Hd & _ & Hsc & Hlen & Hsum). apply Forall_app. split; [|by constructor].
  apply lfn_set_dirents; [by apply utf16_name_unit|by apply lfn_count_bounds|done].
Qed.

(** The listed items of a slot are found exactly by the names of its file. *)
Lemma item_named ci cps s X : Forall scalar cps -> slot_ok s ->
  (named ci cps s -> match s with File _ sfn => find_item ci (utf8_name cps ++ [0]) (slot_items s ++ X) = Ok (Some (Entry sfn)) | Free _ => True end) /\
  (~ named ci cps s -> find_item ci (utf8_name cps ++ [0]) (slot_items s ++ X) = find_item ci (utf8_name cps ++ [0]) X).
Proof.
  intros Hc Hok. destruct s as [e|long sfn]; [split; done|]. cbn [named slot_ok] in *. destruct Hok as (Hd & _ & Hlong).
  destruct (sfn_names_spec cps sfn Hc Hd) as (b & Hb & Hbs).
  assert (exists tag, slot_items (File long sfn) = [(tag, sfn)] /\
    exists hit, match tag with Some lfn => lfn_names ci (utf8_name cps ++ [0]) lfn | None => Ok false end = Ok hit /\
      (hit = true <-> exists l, long = Some (l, name_sum sfn) /\ (length (utf8_name l) <= 260)%nat /\
                         same_text ci (utf8_name l) (utf8_name cps))) as (tag & -> & hit & Hhit & Hiff).
  { destruct long as [[l sum]|]; cbn [slot_items]; eexists; (split; [done|]).
    2: { exists false. split; [done|]. split; [done|]. by intros (? & ? & _). }
    destruct Hlong as (Hl & _). destruct (Z.eqb_spec (name_sum sfn) sum) as [<-|Hne].
    - destruct (lfn_names_spec ci cps l Hc Hl) as (hit & Hhit & Hiff). exists hit. split; [done|]. rewrite Hiff. split.
      + intros [? ?]. by exists l.
      + intros (l' & [= <-] & ?). done.
    - exists false. split; [done|]. split; [done|]. intros (? & [= _ ->] & _). done. }
  cbn [app find_item]. unfold item_names. cbn [fst snd]. rewrite Hhit. cbn [rbind]. rewrite <- Hiff, <- Hbs.
  destruct hit; cbn [rbind]; [split; [done|intros []; by left]|]. rewrite Hb. cbn [rbind].
  destruct b; split; try done; [intros []; by right|by intros [|]].
Qed.

Lemma lookup_layout ci cps slots : Forall scalar cps -> Forall slot_ok slots ->
  let find := find_item ci (utf8_name cps ++ [0]) (concat (map slot_items slots)) in
  (forall before long sfn after, slots = before ++ File long sfn :: after ->
   Forall (fun s => ~ named ci cps s) before -> named ci cps (File long sfn) -> find = Ok (Some (Entry sfn))) /\
  (Forall (fun s => ~ named ci cps s) slots -> find = Ok None).
Proof.
  intros Hc Hs find. unfold find. clear find. split.
  - intros before long sfn after -> Hb Hn. induction Hb as [|s before Hsn Hb IH]; cbn [app map concat] in *.
    + apply Forall_cons in Hs as [Hok _]. by apply (item_named ci cps (File long sfn)).
    + apply Forall_cons in Hs as [Hok Hs]. rewrite (proj2 (item_named ci cps s _ Hc Hok)) by done. by apply IH.
  - intros Hn. induction Hn as [|s slots Hsn Hn IH]; [done|]. apply Forall_cons in Hs as [Hok Hs]. cbn [map concat].
    rewrite (proj2 (item_named ci cps s _ Hc Hok)) by done. by apply IH.
Qed.
