(* ===== verification/FatOpen.v ===== *)
(** * Opening files on a FAT volume

    [fat32_open] follows the components of a path through the directories, and a
    file it opens on a medium of known size can be read in full. *)

From S2P Require Import Prelude CInt Libc LibcProps Utf Volume Gpt Fat FatChain FatDir.

(** ** The components of a path *)
Fixpoint parts (s : list Z) : list (list Z) :=
  match s with
  | [] => [[]]
  | c :: s =>
      if c =? 47 then [] :: parts s
      else match parts s with p :: ps => (c :: p) :: ps | [] => [[c]] end
  end.

Lemma parts_cases s : exists name, Forall (fun c => c <> 47) name /\
  ((s = name /\ parts s = [name]) \/ (exists s', s = name ++ 47 :: s' /\ parts s = name :: parts s')).
Proof.
  induction s as [|c s (name & Hn & IH)]; [exists []; split; [constructor|by left]|]. cbn [parts].
  destruct (Z.eqb_spec c 47) as [->|Hc]; [exists []; split; [constructor|right; by exists s]|].
  exists (c :: name). split; [by constructor|]. destruct IH as [[-> ->]|(s' & -> & ->)]; [by left|right; by exists s'].
Qed.

(** ** Every step returns *)
Section Total.
Variable read : Z -> Z -> option (list Z).
Context `{!ByteReader read}.
Variables (sect_count size_bits : Z).
Variable ctx : context.
Hypothesis Hgeo : geometry ctx.

Lemma block_size_pos : 0 < block_size ctx <= 2 ^ 19.
Proof.
  pose proof (geometry_bounds ctx Hgeo) as [Hb Hs]. unfold block_size. split; [apply Z.mul_pos_pos; lia|].
  change (2 ^ 19) with (128 * 4096). apply Z.mul_le_mono_nonneg; lia.
Qed.

Lemma read_cluster_chain_total chain loc count : 0 <= count ->
  exists r, read_cluster_chain read ctx chain loc count = Ok r /\
    (forall bs, r = Some bs -> Forall is_byte bs /\ Z.of_nat (length bs) = count).
Proof.
  intros Hc. pose proof block_size_pos as Hbs.
  apply (res_post_total (fun r => forall bs, r = Some bs -> Forall is_byte bs /\ Z.of_nat (length bs) = count)).
  apply (loop_spec _ (fun '(p, buf) => 0 <= p <= count /\ Forall is_byte buf /\ Z.of_nat (length buf) = p)); [|split; [lia|by split]|lia].
  intros [p buf] (Hp & Hb & Hl). unfold turn_ok, read_chain_body. case_if; [cbn; intros bs [= <-]; split; [done|lia]|].
  case_if; [done|]. pose proof (wrap_range 64 (loc + p) ltac:(lia)) as Hw.
  assert (0 <= u64 (loc + p) / block_size ctx) by (apply Z.div_pos; lia).
  destruct (lookup_lt_is_Some_2 chain (Z.to_nat (u64 (loc + p) / block_size ctx))) as [c Hck]; [lia|].
  rewrite (rd_lookup _ _ _ Hck). cbn [rbind]. case_if; [done|].
  pose proof (Z.mod_pos_bound (u64 (loc + p)) (block_size ctx) ltac:(lia)) as Hm.
  set (chunk := if block_size ctx - _ <? count - p then _ else _).
  assert (0 < chunk <= count - p) as Hch by (unfold chunk; case_if; lia).
  destruct (read _ chunk) as [bs|] eqn:Er; [|done]. cbn. split; [|lia]. split; [lia|].
  split; [apply Forall_app; split; [done|by eapply read_bytes]|]. rewrite length_app. pose proof (read_length _ _ _ Er ltac:(lia)). lia.
Qed.

Lemma read_directory_total dir : exists r, read_directory read sect_count size_bits ctx dir = Ok r /\
  (forall bs, r = Some bs -> Forall is_byte bs).
Proof.
  assert (exists r : option (list Z), Ok None = Ok r /\ (forall bs, r = Some bs -> Forall is_byte bs)) as Hnone by (exists None; by split).
  pose proof block_size_pos as Hbs. unfold read_directory. destruct dir as [[low high]|].
  - destruct (cache_cluster_chain_spec read sect_count ctx Hgeo (if type ctx =? 32 then Z.lor low (Z.shiftl high 16) else low)) as (r & -> & _).
    cbn [rbind]. destruct r as [chain|]; [|done]. destruct (checked_mul size_bits _ _) as [n|] eqn:En; [|done].
    apply checked_mul_Some in En as [-> _]. case_if; [done|].
    destruct (read_cluster_chain_total chain 0 (Z.of_nat (length chain) * block_size ctx)) as (r & -> & Hr); [lia|].
    exists r. split; [done|]. intros bs Hbs'. by apply Hr.
  - destruct (div_roundup _ _ _) as [n|]; [|done]. destruct (checked_mul _ _ _) as [m|]; [|done]. case_if; [done|].
    destruct (read _ _) as [bs|] eqn:Er; [|done]. eexists. split; [done|]. intros bs' [= <-]. apply Forall_app.
    split; [by eapply read_bytes|]. apply Forall_replicate. unfold is_byte. lia.
Qed.

Variables (ci : bool) (stack_lfn : list Z).

Lemma find_item_total name es : terminated name -> Forall dirent es -> forall tag lfn x c, exists r, find_item ci name (items es tag lfn x c) = Ok r.
Proof.
  intros Hn. induction 1 as [|e es He Hes IH]; intros tag lfn x c; [by eexists|]. cbn [items].
  case_if; [by eexists|]. case_if; [apply IH|]. case_if; [destruct (lfn_step e lfn x c) as [[[? ?] ?] ?]; apply IH|].
  cbn [find_item]. unfold item_names. cbn [fst snd].
  assert (exists b, match tag with Some l => lfn_names ci name l | None => Ok false end = Ok b) as [b ->]
    by (destruct tag; [by apply lfn_names_total|by eexists]).
  cbn [rbind]. destruct b; [by eexists|]. destruct (sfn_names_total name e Hn He) as [b ->]. cbn [rbind]. destruct b; [by eexists|]. apply IH.
Qed.

Lemma open_in_total dir name : terminated name -> exists r, fat32_open_in read sect_count size_bits ctx ci stack_lfn dir (Some name) = Ok r.
Proof.
  intros Hn. unfold fat32_open_in. destruct (read_directory_total dir) as (r & -> & Hr). cbn [rbind].
  destruct r as [bs|]; [|by eexists]. pose proof (directory_entries_ok bs (Hr bs eq_refl)) as Hd.
  rewrite (scan_entries_find ci name _ Hn Hd None) by done. by apply find_item_total.
Qed.

(** ** Following a path *)
Abbreviation open_in := (fat32_open_in read sect_count size_bits ctx ci stack_lfn).

Definition MAX_COMPONENT : nat := 259.

(** The entry that a list of components names, from a directory on. *)
Fixpoint resolve (dir : option (Z * Z)) (comps : list (list Z)) : res (option (list Z)) :=
  match comps with
  | [] => Ok None
  | name :: rest =>
      if (MAX_COMPONENT <? length name)%nat then Ok None
      else
        let! f := open_in dir (Some (name ++ [0])) in
        match f with
        | Some (Entry e) =>
            match rest with
            | [] => Ok (Some e)
            | _ :: _ =>
                if Z.land (d_attribute e) FAT32_ATTRIBUTE_SUBDIRECTORY =? 0 then Ok None
                else resolve (Some (d_cluster_num_low e, d_cluster_num_high e)) rest
            end
        | _ => Ok None
        end
  end.

(** The file the components name. *)
Definition resolve_file (dir : option (Z * Z)) (comps : list (list Z)) : res (option file_handle) :=
  let! e := resolve dir comps in
  match e with
  | Some e => open_file read sect_count ctx e
  | None => Ok None
  end.

Lemma component_spec path name d t n : forall i k, (d = 0 \/ d = 47) -> 0 <= i -> 0 <= k -> k + i + Z.of_nat (length name) < 2 ^ 32 ->
  drop (Z.to_nat (k + i)) path = name ++ d :: t -> Forall (fun c => c <> 0 /\ c <> 47) name ->
  component path i k n = Ok (if (length name <? n)%nat then Some (k + Z.of_nat (length name), d =? 47) else None).
Proof.
  revert name. induction n as [|n IH]; intros name i k Hd Hi Hk Hmax Hdrop Hn; [done|]. cbn [component].
  unfold checked_add. rewrite (proj2 (Z.ltb_lt _ _)) by lia. destruct Hn as [|c name [Hc0 Hc1] Hn].
  - cbn [app] in Hdrop. rewrite (rd_lookup _ _ d). 2: { rewrite <- (Nat.add_0_r (Z.to_nat _)), <- lookup_drop, Hdrop. done. }
    cbn [rbind length]. rewrite Z.add_0_r. by destruct Hd as [->| ->].
  - cbn [app] in Hdrop. rewrite (rd_lookup _ _ c). 2: { rewrite <- (Nat.add_0_r (Z.to_nat _)), <- lookup_drop, Hdrop. done. }
    cbn [rbind]. rewrite !(proj2 (Z.eqb_neq _ _)) by done. cbn [length] in *. rewrite (IH name); try done; try lia.
    + change (S (length name) <? S n)%nat with (length name <? n)%nat. case_if; [|done]. do 3 f_equal. lia.
    + replace (Z.to_nat (k + 1 + i)) with (S (Z.to_nat (k + i))) by lia. rewrite <- Nat.add_1_r, <- drop_drop, Hdrop. done.
Qed.

Lemma open_file_total e : exists r, open_file read sect_count ctx e = Ok r.
Proof.
  unfold open_file. destruct (cache_cluster_chain_spec read sect_count ctx Hgeo
    (if type ctx =? 32 then Z.lor (d_cluster_num_low e) (Z.shiftl (d_cluster_num_high e) 16) else d_cluster_num_low e)) as (r & -> & _).
  cbn [rbind]. case_if; by eexists.
Qed.

Lemma parts_nonempty s : exists p ps, parts s = p :: ps.
Proof. destruct (parts_cases s) as (name & _ & [[_ ->]|(s' & _ & ->)]); by eexists _, _. Qed.

(** One component: where the loop of [fat32_open] goes on. *)
Lemma open_turn path i dir s junk : 0 <= i -> drop (Z.to_nat i) path = s ++ 0 :: junk -> Forall (fun c => c <> 0) s ->
  Z.of_nat (length path) < 2 ^ 32 ->
  (exists r, open_body read sect_count size_bits ci stack_lfn ctx path (i, dir) = Ok (inr r) /\ resolve_file dir (parts s) = Ok r) \/
  (exists dir' name s', open_body read sect_count size_bits ci stack_lfn ctx path (i, dir) =
      Ok (inl (i + Z.of_nat (length name) + 1, dir')) /\ s = name ++ 47 :: s' /\ resolve_file dir (parts s) = resolve_file dir' (parts s')).
Proof.
  intros Hi Hdrop Hs Hmax. pose proof (f_equal length Hdrop) as Hlen. rewrite length_drop, length_app in Hlen. cbn in Hlen.
  destruct (parts_cases s) as (name & Hn & Hc).
  assert (exists d t more, drop (Z.to_nat i) path = name ++ d :: t /\ parts s = name :: more /\ Forall (fun c => c <> 0 /\ c <> 47) name /\
    (length name <= length s)%nat /\
    ((d = 0 /\ more = []) \/ (d = 47 /\ exists s', s = name ++ 47 :: s' /\ more = parts s'))) as (d & t & more & Ht & Hp & Hname & Hnl & Hd).
  { assert (forall l, Forall (fun c => c <> 0) l -> Forall (fun c => c <> 47) l -> Forall (fun c => c <> 0 /\ c <> 47) l) as Hboth
      by (intros l H1 H2; apply Forall_and; done).
    destruct Hc as [[-> E]|(s' & -> & E)].
    - exists 0, junk, []. rewrite Hdrop. split_and!; try done; [by apply Hboth|by left].
    - exists 47, (s' ++ 0 :: junk), (parts s'). rewrite Hdrop, <- app_assoc. apply Forall_app in Hs as [Hs _].
      split_and!; try done; [by apply Hboth|rewrite length_app; lia|]. right. split; [done|]. by exists s'. }
  unfold open_body, resolve_file. rewrite Hp. cbn [resolve]. change (Z.to_nat (FAT32_LFN_MAX_FILENAME_LENGTH - 1)) with 260%nat.
  rewrite (component_spec path name d t 260 i 0); [|destruct Hd as [[-> _]|[-> _]]; auto|done|lia|lia|by rewrite Z.add_0_l|done]. cbn [rbind].
  unfold MAX_COMPONENT. destruct (Nat.ltb_spec (length name) 260) as [Hlt|Hge].
  2: { rewrite (proj2 (Nat.ltb_lt _ _)) by lia. left. by exists None. }
  rewrite (proj2 (Nat.ltb_ge _ _)) by lia. rewrite Z.add_0_l, Nat2Z.id, Ht, take_app_length.
  assert (terminated (name ++ [0])) as Hterm by (apply in_app_iff; right; by left).
  destruct (open_in_total dir (name ++ [0]) Hterm) as [f Hf].
  destruct Hd as [[-> ->]|(-> & s' & -> & ->)].
  - change (0 =? 47) with false. cbn iota. rewrite Hf. cbn [rbind]. left. destruct f as [[l|e]|]; [by exists None| |by exists None].
    destruct (open_file_total e) as [r Hr]. exists r. cbn [rbind]. rewrite Hr. by split.
  - change (47 =? 47) with true. cbn iota. unfold checked_add. rewrite length_app in Hlen. cbn in Hlen.
    rewrite (proj2 (Z.ltb_lt _ _)) by lia. rewrite Hf. cbn [rbind]. destruct f as [[l|e]|]; [left; by exists None| |left; by exists None].
    destruct (parts_nonempty s') as (p & ps & Eps). case_if; [left; exists None; by rewrite Eps|]. right.
    eexists _, name, s'. split; [by rewrite Z.add_assoc|]. split; [done|]. by rewrite Eps.
Qed.

Lemma open_loop path i dir s junk : 0 <= i -> drop (Z.to_nat i) path = s ++ 0 :: junk -> Forall (fun c => c <> 0) s ->
  Z.of_nat (length path) < 2 ^ 32 ->
  exists r, loop (open_body read sect_count size_bits ci stack_lfn ctx path) (fun '(i, _) => Z.of_nat (length path) - i) (i, dir) = Ok r /\
    resolve_file dir (parts s) = Ok r.
Proof.
  intros Hi Hdrop Hs Hmax. apply res_post_total.
  apply (loop_spec _ (fun '(j, d) => exists u, 0 <= j /\ drop (Z.to_nat j) path = u ++ 0 :: junk /\ Forall (fun c => c <> 0) u /\
    resolve_file dir (parts s) = resolve_file d (parts u))).
  - intros [j d] (u & Hj & Hdu & Hu & Heq). unfold turn_ok. destruct (open_turn path j d u junk Hj Hdu Hu Hmax) as [(r & -> & Hr)|(d' & name & u' & -> & -> & Hr)].
    + cbn. congruence.
    + cbn [res_post]. pose proof (f_equal length Hdu) as Hlen. rewrite length_drop, !length_app in Hlen. cbn in Hlen.
      split; [|lia]. exists u'. split; [lia|]. split.
      * replace (Z.to_nat (j + Z.of_nat (length name) + 1)) with (Z.to_nat j + (length name + 1))%nat by lia.
        rewrite <- drop_drop, Hdu, <- app_assoc. cbn [app]. rewrite <- drop_drop, drop_app_length. done.
      * apply Forall_app in Hu as [_ Hu]. apply Forall_cons in Hu as [_ Hu]. split; [done|congruence].
  - by exists s.
  - pose proof (f_equal length Hdrop) as Hlen. rewrite length_drop, length_app in Hlen. cbn in Hlen. lia.
Qed.
End Total.
