(* ===== verification/FatProps.v ===== *)
(** * The FAT driver: what it promises *)

From S2P Require Import Prelude CInt Libc LibcProps Utf Volume Gpt Fat FatChain FatDir FatOpen.

(** C40.  A volume the FAT driver accepts has a consistent geometry, and deciding
    so always returns: the type is 12, 16 or 32, sectors and clusters have the
    sizes of the specification, the FAT in use is one of the copies, and the
    root directory and the data area start right behind them, with none of the
    sector numbers overflowing its 32 bits. *)
Theorem fat_context_geometry read `{!ByteReader read} size_bits :
  32 <= size_bits <= 64 ->
  exists r, fat32_init_context read size_bits = Ok r /\ (forall c, r = Some c -> geometry c).
Proof. intros Hs. exact (init_context_geometry read size_bits Hs). Qed.

(** [cache_cluster_chain] always returns, also on a FAT with cycles: it
    returns a chain exactly if that is the linked list of the FAT from the cluster
    to an end mark, with no cluster past the end of the medium and at most
    [FAT32_MAX_CHAIN_LENGTH] of them.  Its other bounds, taken from the sizes of
    the FAT and of the type, exclude no such list, since a list repeats nothing. *)
Theorem fat_chain_correct read `{!ByteReader read} sect_count size_bits ctx c :
  32 <= size_bits <= 64 -> fat32_init_context read size_bits = Ok (Some ctx) ->
  exists r, cache_cluster_chain read sect_count ctx c = Ok r /\
    forall l, (r = Some l <-> in_data ctx c /\ Z.of_nat (length l) <= FAT32_MAX_CHAIN_LENGTH /\
        exists readable, readable_cluster_limit sect_count ctx = Some readable /\ is_chain read ctx readable c l) /\
      (r = Some l -> List.NoDup l).
Proof.
  intros Hs Hc. destruct (init_context_geometry read size_bits Hs) as (r0 & Hr0 & Hgeo). rewrite Hc in Hr0. injection Hr0 as <-.
  destruct (cache_cluster_chain_spec read sect_count ctx (Hgeo ctx eq_refl) c) as (r & -> & Hr). exists r. split; [done|]. intros l.
  split; [apply Hr|]. intros Hl. apply Hr in Hl as (_ & _ & readable & _ & Hl). by eapply is_chain_NoDup.
Qed.

(** ** Paths *)
Lemma skip_slashes_spec k s : head s <> Some 47 -> s <> [] -> skip_slashes (replicate k 47 ++ s) = Ok k.
Proof.
  intros Hh Hs. induction k as [|k IH]; cbn [replicate app skip_slashes].
  - destruct s as [|c s]; [done|]. cbn in Hh |- *. rewrite (proj2 (Z.eqb_neq c 47)); [done|congruence].
  - by rewrite IH.
Qed.

Lemma fat32_open_spec read `{!ByteReader read} sect_count size_bits ci stack_lfn k path junk :
  let full := replicate k 47 ++ path ++ 0 :: junk in
  32 <= size_bits <= 64 -> head path <> Some 47 -> Forall (fun c => c <> 0) path -> Z.of_nat (length full) < 2 ^ 32 ->
  exists r, fat32_open read sect_count size_bits ci stack_lfn full = Ok r /\
    (let! c := fat32_init_context read size_bits in
     match c with
     | None => Ok None
     | Some ctx => resolve_file read sect_count size_bits ctx ci stack_lfn (root_directory ctx) (parts path)
     end) = Ok r.
Proof.
  intros full Hs Hh Hp Hmax. unfold fat32_open. destruct (init_context_geometry read size_bits Hs) as (r0 & -> & Hgeo). cbn [rbind].
  destruct r0 as [ctx|]; [|by exists None]. unfold full at 1. rewrite skip_slashes_spec; [|by destruct path|by destruct path].
  assert (Z.of_nat k < 2 ^ 32) as Hk by (unfold full in Hmax; rewrite length_app, length_replicate in Hmax; lia).
  cbn [rbind]. rewrite wrap_small by lia.
  apply (open_loop read sect_count size_bits ctx (Hgeo ctx eq_refl) ci stack_lfn full (Z.of_nat k) (root_directory ctx) path junk);
    [lia| |done|done].
  rewrite Nat2Z.id. unfold full. apply drop_app_length'. by rewrite length_replicate.
Qed.

(** [fat32_open] always returns, and opens the file that the components of
    the path name one after the other: each is looked up in the directory the
    previous one named, starting from the root directory, all but the last have
    to be directories, and a component of more than 259 bytes names nothing. *)
Theorem fat_open_correct read `{!ByteReader read} sect_count size_bits ci stack_lfn k path junk :
  let full := replicate k 47 ++ path ++ 0 :: junk in
  32 <= size_bits <= 64 -> head path <> Some 47 -> Forall (fun c => c <> 0) path -> Z.of_nat (length full) < 2 ^ 32 ->
  exists r, fat32_open read sect_count size_bits ci stack_lfn full = Ok r /\
    (let! c := fat32_init_context read size_bits in
     match c with
     | None => Ok None
     | Some ctx => resolve_file read sect_count size_bits ctx ci stack_lfn (root_directory ctx) (parts path)
     end) = Ok r.
Proof. intros full. by apply fat32_open_spec. Qed.

(** ** Reading *)
Section Medium.
Variables (disk : Z -> Z) (base sect_count size_bits : Z).
Context `{!ByteDisk disk (sect_count * 512)}.
Abbreviation read := (disk_reader disk base (sect_count * 512)).

(** The bytes of a cluster. *)
Definition cluster_bytes (ctx : context) (c : Z) : list Z :=
  disk_bytes disk (base + (data_start_lba ctx + (c - 2) * sectors_per_cluster ctx) * bytes_per_sector ctx) (block_size ctx).

Lemma cluster_readable ctx readable c : geometry ctx -> readable_cluster_limit sect_count ctx = Some readable ->
  2 <= c <= readable -> read (cluster_at ctx c) (block_size ctx) = Some (cluster_bytes ctx c).
Proof.
  intros Hgeo Hr Hc. pose proof (geometry_bounds ctx Hgeo) as [Hb Hs]. pose proof (size_disk (disk := disk) (size := sect_count * 512)) as Hsz.
  destruct Hgeo as [_ _ _ [Hres _] [Hf1 _] [Hspf _] [Hrs _] _ Hroot [Hds _] [[Hre _] _] _].
  assert (0 <= data_start_lba ctx) as Hd0.
  { assert (0 <= root_size ctx) by (rewrite Hroot; apply Z.div_pos; unfold sizeof_dirent; lia). rewrite Hds, Hrs.
    assert (0 <= number_of_fats ctx * sectors_per_fat ctx) by (apply Z.mul_nonneg_nonneg; lia). case_if; lia. }
  unfold readable_cluster_limit, UINT64_MAX in Hr. rewrite (proj2 (Z.eqb_neq _ _)) in Hr by lia.
  unfold checked_mul in Hr. rewrite (proj2 (Z.ltb_lt _ _)) in Hr by lia.
  set (vs := sect_count * 512 / bytes_per_sector ctx) in *.
  assert (vs * bytes_per_sector ctx <= sect_count * 512) as Hvs by (rewrite Z.mul_comm; apply Z.mul_div_le; lia).
  set (dc := if data_start_lba ctx <? vs then _ else _) in Hr.
  assert (readable <= dc + 1) as Hle by (injection Hr as <-; case_if; lia).
  unfold dc in Hle. destruct (data_start_lba ctx <? vs) eqn:E; bool_hyps; [|lia].
  assert ((c - 1) * sectors_per_cluster ctx <= vs - data_start_lba ctx) as Hin.
  { etransitivity; [|apply (Z.mul_div_le _ (sectors_per_cluster ctx)); lia]. rewrite Z.mul_comm. apply Z.mul_le_mono_nonneg_l; lia. }
  assert (0 <= (c - 2) * sectors_per_cluster ctx) by (apply Z.mul_nonneg_nonneg; lia).
  set (lba := data_start_lba ctx + (c - 2) * sectors_per_cluster ctx).
  assert (0 <= lba /\ lba + sectors_per_cluster ctx <= vs) as [Hl0 Hl1] by (unfold lba; lia).
  assert (lba * bytes_per_sector ctx + block_size ctx <= sect_count * 512) as Hend.
  { unfold block_size. rewrite <- Z.mul_add_distr_r. etransitivity; [|exact Hvs]. apply Z.mul_le_mono_nonneg_r; lia. }
  assert (0 <= lba * bytes_per_sector ctx) as Hl2 by (apply Z.mul_nonneg_nonneg; lia).
  assert (0 < block_size ctx) by (unfold block_size; apply Z.mul_pos_pos; lia).
  unfold cluster_at. fold lba. rewrite wrap_small by lia. unfold disk_reader. rewrite !(proj2 (Z.leb_le _ _)), (proj2 (Z.ltb_lt _ _)) by lia. done.
Qed.

Lemma is_chain_data ctx readable c l : geometry ctx -> readable_cluster_limit sect_count ctx = Some readable ->
  in_data ctx c -> is_chain read ctx readable c l -> chain_data read ctx l (map (cluster_bytes ctx) l).
Proof.
  intros Hgeo Hr Hc Hl. revert Hc. induction Hl as [c e Hle Hn He|c n l Hle Hn Hd Hl IH]; intros [Hc1 Hc2].
  - constructor; [|constructor]. split; [done|]. by eapply cluster_readable.
  - constructor; [|by apply IH]. split; [done|]. by eapply cluster_readable.
Qed.

(** C17.  A file that was opened on a medium of known size can be read: the
    chain of the handle is the list the FAT holds for the entry's first cluster
    (empty if there is none), and every read inside the file's size returns
    that part of the clusters put end to end, without a panic. *)
Theorem fat_read_correct ctx e f loc count :
  32 <= size_bits <= 64 -> dirent e -> fat32_init_context read size_bits = Ok (Some ctx) -> open_file read sect_count ctx e = Ok (Some f) ->
  0 <= loc -> 0 <= count -> loc + count <= f_size_bytes f ->
  f_size_bytes f = d_file_size_bytes e /\
  (f_chain f = [] \/ exists readable, readable_cluster_limit sect_count ctx = Some readable /\
     is_chain read ctx readable (f_first_cluster f) (f_chain f)) /\
  fat32_read read f loc count =
    Ok (take (Z.to_nat count) (drop (Z.to_nat loc) (concat (map (cluster_bytes ctx) (f_chain f))))).
Proof.
  intros Hs [Hdl Hdb] Hctx Hopen Hloc Hcount' Hend. destruct (init_context_geometry read size_bits Hs) as (r0 & Hr0 & Hgeo).
  rewrite Hctx in Hr0. injection Hr0 as <-. specialize (Hgeo ctx eq_refl). pose proof (block_size_pos ctx Hgeo) as Hbs.
  unfold open_file in Hopen. set (fc := if type ctx =? 32 then _ else _) in Hopen.
  destruct (cache_cluster_chain_spec read sect_count ctx Hgeo fc) as (r & Hr & Hspec). rewrite Hr in Hopen. cbn [rbind] in Hopen.
  revert Hopen. case_if; [done|]. intros [= <-]. cbn [f_size_bytes f_chain f_first_cluster] in *.
  pose proof (field_range e 28 4 Hdb) as Hfs. change (256 ^ Z.of_nat 4) with (2 ^ 32) in Hfs. fold (d_file_size_bytes e) in Hfs.
  assert (chain_data read ctx (default [] r) (map (cluster_bytes ctx) (default [] r)) /\
    (default [] r = [] \/ exists readable, readable_cluster_limit sect_count ctx = Some readable /\ is_chain read ctx readable fc (default [] r))) as [Hd Hch].
  { destruct r as [l|]; [|split; [constructor|by left]]. cbn [default]. destruct (proj1 (Hspec l) eq_refl) as (Hin & _ & readable & Hrd & Hl).
    split; [by eapply is_chain_data|right; by exists readable]. }
  split; [done|]. split; [done|]. unfold fat32_read. cbn [f_context f_chain].
  rewrite (read_cluster_chain_spec read ctx (default [] r) (map (cluster_bytes ctx) (default [] r))); [done|lia|done|done|done|lia|lia].
Qed.
End Medium.

(** C26.  Looking up a name in a directory laid out as the FAT specification says
    returns the first file that goes by that name, and nothing if none does.  A
    directory is a list of deleted entries and of files, each a short entry alone
    or behind the long name entries made for a name of 1 to 260 UTF-16 code units
    and a checksum; it ends with the array or at a free entry.  A file goes by its
    long name if the checksum is that of its short name and the long name takes at
    most 260 bytes in UTF-8 (a longer one is not found), compared byte by byte, or
    without regard to the case of ASCII letters when the volume is opened so; and,
    if it is not a volume label, by its short name: at most eight characters and
    three behind the one dot, all of code page 437, compared with the eleven
    characters of the entry without regard to case. *)
Theorem fat_lookup_correct ci name slots tail lfn0 :
  Forall scalar name -> Forall slot_ok slots -> dir_end tail -> length lfn0 = 260%nat ->
  let lookup := scan_entries ci (Some (utf8_name name ++ [0])) (concat (map slot_entries slots) ++ tail) lfn0 0 0 in
  (forall before long sfn after, slots = before ++ File long sfn :: after ->
   Forall (fun s => ~ named ci name s) before -> named ci name (File long sfn) ->
   lookup = Ok (Some (Entry sfn))) /\
  (Forall (fun s => ~ named ci name s) slots -> lookup = Ok None).
Proof.
  intros Hn Hs Ht Hl lookup. unfold lookup.
  assert (terminated (utf8_name name ++ [0])) as Hterm by (apply in_app_iff; right; by left).
  rewrite (scan_entries_find ci _ _ Hterm (layout_dirents slots tail Hs Ht) None) by done.
  rewrite (items_layout slots tail Hs Ht) by done. by apply lookup_layout.
Qed.

(** ** A small volume

    Sixteen sectors: a boot sector, one FAT with the chain 2, 3, 5, a root
    directory with one file of 1200 bytes, and the data. *)
Definition demo_bpb : list Z :=
  [0xeb; 0x3c; 0x90] ++ bytes "LIMINE  " ++ le_bytes 2 512 ++ [1] ++ le_bytes 2 1 ++ [1] ++ le_bytes 2 16 ++ le_bytes 2 16 ++ [0xf8] ++
  le_bytes 2 1 ++ replicate 30 0 ++ bytes "FAT12   ".
Definition demo_fat : list Z := [0xf8; 0xff; 0xff; 0x03; 0x50; 0x00; 0x00; 0xf0; 0xff].
Definition demo_name : list Z := bytes "Long file name.txt".
Definition demo_sfn : list Z :=
  bytes "LONGFI~1TXT" ++ [0x20] ++ replicate 14 0 ++ le_bytes 2 2 ++ le_bytes 4 1200.
Definition demo_root : list (list Z) := lfn_set demo_name (fat32_lfn_checksum (d_name demo_sfn)) ++ [demo_sfn].

Definition demo_disk (a : Z) : Z :=
  let at_ l o := default 0 (l !! Z.to_nat (a - o)) in
  if a <? 512 then at_ demo_bpb 0 else if a <? 1024 then at_ demo_fat 512 else if a <? 1536 then at_ (concat demo_root) 1024 else a mod 251.

Abbreviation demo_read := (disk_reader demo_disk 0 (16 * 512)).

Lemma default_byte l i : forallb (fun b => (0 <=? b) && (b <? 256)) l = true -> is_byte (default 0 (l !! i)).
Proof.
  intros H. destruct (l !! i) as [b|] eqn:E; cbn [default]; [|unfold is_byte; lia].
  apply list_elem_of_lookup_2, list_elem_of_In in E. eapply forallb_forall in H; [|exact E]. apply andb_true_iff in H as [H1 H2]. apply Z.leb_le in H1. apply Z.ltb_lt in H2. done.
Qed.

Lemma demo_sfn_bytes : Forall is_byte demo_sfn.
Proof.
  apply Forall_forall. intros x Hx. apply list_elem_of_lookup in Hx as [i Hi].
  pose proof (default_byte demo_sfn i eq_refl) as Hb. by rewrite Hi in Hb.
Qed.

#[export] Instance demo_disk_ok : ByteDisk demo_disk (16 * 512).
Proof.
  split; [|lia]. intros a. unfold demo_disk. repeat case_if; try (apply default_byte; vm_compute; reflexivity).
  unfold is_byte. pose proof (Z.mod_pos_bound a 251 ltac:(lia)). lia.
Qed.

Definition demo_ctx : context := Eval vm_compute in
  match fat32_init_context demo_read 64 with Ok (Some c) => c | _ => MkContext 0 0 0 0 0 0 0 0 0 0 0 0 0 end.

Example demo_ctx_ok : fat32_init_context demo_read 64 = Ok (Some demo_ctx).
Proof. vm_compute. reflexivity. Qed.

Definition demo_path : list Z := bytes "Long file name.txt".

(** Opening the file by its long name and by its short name, and reading it
    across a cluster boundary. *)
Example demo_open :
  match fat32_open demo_read 16 64 false (replicate 260 0) (bytes "//" ++ demo_path ++ [0]) with
  | Ok (Some f) => (f_chain f, f_size_bytes f, fat32_read demo_read f 1020 8)
  | _ => ([], 0, Fault)
  end = ([2; 3; 5], 1200, Ok (map (fun i => (1536 + 1020 + (if i <? 4 then 0 else 512) + i) mod 251) [0; 1; 2; 3; 4; 5; 6; 7])).
Proof. vm_compute. reflexivity. Qed.

Example demo_open_short :
  match fat32_open demo_read 16 64 false (replicate 260 0) (bytes "longfi~1.txt" ++ [0]) with
  | Ok (Some f) => f_chain f
  | _ => []
  end = [2; 3; 5].
Proof. vm_compute. reflexivity. Qed.

(** ** Witnesses *)
Lemma fat_context_geometry_witness : geometry demo_ctx.
Proof. destruct (fat_context_geometry demo_read 64 ltac:(lia)) as (r & Hr & H). apply H. rewrite demo_ctx_ok in Hr. congruence. Defined.

Lemma fat_chain_correct_witness :
  cache_cluster_chain demo_read 16 demo_ctx 2 = Ok (Some [2; 3; 5]) /\ List.NoDup [2; 3; 5].
Proof.
  split; [vm_compute; reflexivity|]. destruct (fat_chain_correct demo_read 16 64 demo_ctx 2 ltac:(lia) demo_ctx_ok) as (r & Hr & H).
  apply (proj2 (H [2; 3; 5])). assert (cache_cluster_chain demo_read 16 demo_ctx 2 = Ok (Some [2; 3; 5])) as E by (vm_compute; reflexivity). congruence.
Defined.

Lemma fat_open_correct_witness :
  exists r, fat32_open demo_read 16 64 false (replicate 260 0) (replicate 1 47 ++ demo_path ++ 0 :: []) = Ok r.
Proof.
  destruct (fat_open_correct demo_read 16 64 false (replicate 260 0) 1 demo_path []) as (r & Hr & _).
  - lia.
  - discriminate.
  - repeat (constructor; [discriminate|]). constructor.
  - vm_compute. reflexivity.
  - exists r. exact Hr.
Defined.

Definition demo_file : file_handle := MkFile demo_ctx 2 1200 [2; 3; 5].

Lemma fat_read_correct_witness :
  fat32_read demo_read demo_file 500 600 = Ok (take 600 (drop 500 (concat (map (cluster_bytes demo_disk 0 demo_ctx) [2; 3; 5])))).
Proof.
  apply (fat_read_correct demo_disk 0 16 64 demo_ctx demo_sfn demo_file 500 600).
  - lia.
  - split; [reflexivity|]. exact demo_sfn_bytes.
  - vm_compute. reflexivity.
  - vm_compute. reflexivity.
  - lia.
  - lia.
  - vm_compute. discriminate.
Defined.

(** Found by the long name in other case, and by the short name. *)
Definition demo_slots : list slot :=
  [Free (0xe5 :: replicate 31 0); File (Some (demo_name, name_sum demo_sfn)) demo_sfn].

Lemma demo_slots_ok : Forall slot_ok demo_slots.
Proof.
  assert (Forall is_byte (0xe5 :: replicate 31 0)) by (repeat constructor; unfold is_byte; lia).
  constructor; [done|]. constructor; [|constructor]. cbn [slot_ok].
  split; [split; [done|exact demo_sfn_bytes]|]. split; [split_and!; by vm_compute|].
  split; [|split; [vm_compute; lia|split; by vm_compute]].
  apply Forall_forall. intros x Hx. apply list_elem_of_In in Hx. vm_compute in Hx. unfold scalar.
  repeat (destruct Hx as [<-|Hx]; [lia|]). destruct Hx.
Qed.

Lemma fat_lookup_correct_witness :
  scan_entries true (Some (bytes "LONG file name.TXT" ++ [0])) (concat (map slot_entries demo_slots) ++ [replicate 32 0])
    (replicate 260 0) 0 0 = Ok (Some (Entry demo_sfn)) /\
  scan_entries true (Some (bytes "longfi~1.txt" ++ [0])) (concat (map slot_entries demo_slots) ++ [])
    (replicate 260 0) 0 0 = Ok (Some (Entry demo_sfn)).
Proof.
  assert (forall n : string, forallb (fun c => (1 <=? c) && (c <? 128)) (bytes n) = true -> Forall scalar (bytes n)) as Hscalar.
  { intros n Hb. rewrite forallb_forall in Hb. apply Forall_forall. intros c Hc%list_elem_of_In.
    specialize (Hb c Hc). unfold scalar. lia. }
  split.
  - refine (proj1 (fat_lookup_correct true (bytes "LONG file name.TXT") demo_slots [replicate 32 0] (replicate 260 0)
      (Hscalar "LONG file name.TXT" eq_refl) demo_slots_ok _ eq_refl) [Free (0xe5 :: replicate 31 0)] _ _ [] eq_refl _ _).
    + right. exists (replicate 32 0), []. split; [done|]. split; [done|]. constructor; [|constructor].
      split; [done|]. apply Forall_replicate. unfold is_byte. lia.
    + constructor; [intros []|constructor].
    + left. exists demo_name. split_and!; vm_compute; (reflexivity || lia).
  - refine (proj1 (fat_lookup_correct true (bytes "longfi~1.txt") demo_slots [] (replicate 260 0)
      (Hscalar "longfi~1.txt" eq_refl) demo_slots_ok (or_introl eq_refl) eq_refl) [Free (0xe5 :: replicate 31 0)] _ _ [] eq_refl _ _).
    + constructor; [intros []|constructor].
    + right. split; [reflexivity|]. exists (bytes "longfi~1"), (bytes "txt"). split; [|vm_compute; reflexivity].
      split_and!; [right; reflexivity| | |vm_compute; lia|vm_compute; lia|].
      * intros Hin%list_elem_of_In. vm_compute in Hin. repeat (destruct Hin as [Hin|Hin]; [discriminate Hin|]). destruct Hin.
      * intros Hin%list_elem_of_In. vm_compute in Hin. repeat (destruct Hin as [Hin|Hin]; [discriminate Hin|]). destruct Hin.
      * apply Forall_forall. intros c Hc%list_elem_of_In. vm_compute in Hc. left.
        repeat (destruct Hc as [<-|Hc]; [lia|]). destruct Hc.
Defined.
