(* ===== verification/Iso.v ===== *)
(** * The ISO 9660 driver

    [common/fs/iso9660.s2.c]: the primary volume descriptor, directories with
    Rock Ridge names recorded through SUSP, the file a path names with its
    extents, and reading it.  The volume is read through the interface of
    [Gpt].  A pointer into a directory is an offset into its buffer; buffers
    come page-aligned from [ext_mem_alloc], so aligning a pointer to a sector
    aligns its offset.  Running out of memory is a panic of the allocator and
    not modelled here. *)

From S2P Require Import Prelude CInt Libc Volume Gpt.

Definition ISO9660_SECTOR_SIZE : Z := 2048.
Definition ISO9660_FLAG_DIRECTORY : Z := 0x02.
Definition ISO9660_FLAG_MULTI_EXTENT : Z := 0x80.
Definition ISO9660_FIRST_VOLUME_DESCRIPTOR : Z := 0x10.
Definition ROCK_RIDGE_MAX_FILENAME : Z := 255.
Definition ISO9660_MAX_EXTENT_COUNT : nat := N.to_nat 65536.
Definition ISO9660_VDT_PRIMARY : Z := 1.
Definition ISO9660_VDT_TERMINATOR : Z := 255.
Definition ISO9660_MAX_VOLUME_DESCRIPTORS : nat := 256.
Definition ISO9660_MAX_DIR_SIZE : Z := 64 * 1024 * 1024.
Definition ISO9660_MAX_CONTINUATIONS : Z := 32.

(** ** Structures on the disk *)

(** [struct iso9660_directory_entry]: 33 bytes and the name. *)
Definition sizeof_entry : Z := 33.
Definition e_len (e : list Z) : Z := field e 0 1.
Definition e_extended_attribute_length (e : list Z) : Z := field e 1 1.
Definition e_extent (e : list Z) : Z := field e 2 4.
Definition e_extent_size (e : list Z) : Z := field e 10 4.
Definition e_flags (e : list Z) : Z := field e 25 1.
Definition e_unit (e : list Z) : Z := field e 26 1.
Definition e_gap (e : list Z) : Z := field e 27 1.
Definition e_filename_size (e : list Z) : Z := field e 32 1.

(** [struct iso9660_primary_volume], 2048 bytes. *)
Definition sizeof_pv : Z := 2048.
Definition pv_type (d : list Z) : Z := field d 0 1.
Definition pv_identifier (d : list Z) : list Z := take 5 (drop 1 d).
Definition pv_version (d : list Z) : Z := field d 6 1.
Definition pv_volume_identifier (d : list Z) : list Z := take 32 (drop 40 d).
Definition pv_LBA_size (d : list Z) : Z := field d 128 2.
Definition pv_root (d : list Z) : list Z := drop 156 d.

(** A byte and a structure at an offset of a buffer. *)
Definition peek (buf : list Z) (off : Z) : res Z :=
  if off <? 0 then Fault else rd buf (Z.to_nat off).

Definition struct_at (buf : list Z) (off n : Z) : res (list Z) :=
  if (0 <=? off) && (off + n <=? Z.of_nat (length buf))
  then Ok (take (Z.to_nat n) (drop (Z.to_nat off) buf)) else Fault.

Section Iso.
Variable read : Z -> Z -> option (list Z).

(** ** The primary volume descriptor *)
Fixpoint find_PVD (n : nat) (lba : Z) : res (option (list Z)) :=
  match n with
  | O => Ok None
  | S n =>
      match read (lba * ISO9660_SECTOR_SIZE) sizeof_pv with
      | None => Ok None
      | Some desc =>
          let! r := memcmp (pv_identifier desc) (bytes "CD001") 5 in
          if negb (r =? 0) then Ok None
          else if pv_type desc =? ISO9660_VDT_PRIMARY then
            Ok (if pv_version desc =? 1 then Some desc else None)
          else if pv_type desc =? ISO9660_VDT_TERMINATOR then Ok None
          else find_PVD n (lba + 1)
      end
  end.

Definition iso9660_find_PVD : res (option (list Z)) :=
  find_PVD ISO9660_MAX_VOLUME_DESCRIPTORS ISO9660_FIRST_VOLUME_DESCRIPTOR.

(** The loop over the label from its last character: trailing spaces to zero. *)
Fixpoint strip_spaces (rev_label : list Z) : list Z :=
  match rev_label with
  | c :: rest => if negb (c =? 32) then rev_label else 0 :: strip_spaces rest
  | [] => []
  end.

Definition iso9660_get_label : res (option (list Z)) :=
  let! pv := iso9660_find_PVD in
  match pv with
  | None => Ok None
  | Some pv => Ok (Some (rev (strip_spaces (rev (pv_volume_identifier pv))) ++ [0]))
  end.

(** The sizes of a directory the driver accepts. *)
Definition bad_dir_size (n : Z) : bool :=
  (n =? 0) || (ISO9660_MAX_DIR_SIZE <? n) || negb (n mod ISO9660_SECTOR_SIZE =? 0).

Definition iso9660_cache_root : res (option (list Z)) :=
  let! pv := iso9660_find_PVD in
  match pv with
  | None => Ok None
  | Some pv =>
      if negb (pv_LBA_size pv =? ISO9660_SECTOR_SIZE) then Ok None
      else
        let root_size := e_extent_size (pv_root pv) in
        if bad_dir_size root_size then Ok None
        else
          let offset := (e_extent (pv_root pv) + e_extended_attribute_length (pv_root pv)) * ISO9660_SECTOR_SIZE in
          Ok (read offset root_size)
  end.

(** ** SUSP entries

    [s_area] is what is left of the current area. *)
Record susp_iter := MkIter {
  s_area : list Z;
  s_hops : Z;
  s_ce_lba : Z;
  s_ce_offset : Z;
  s_ce_size : Z;
}.

Definition susp_start (area : list Z) : susp_iter := MkIter area 0 0 0 0.

Definition is_sig (entry : list Z) (c1 c2 : Z) : bool :=
  (field entry 0 1 =? c1) && (field entry 1 1 =? c2).

Definition susp_body (it : susp_iter) : res (susp_iter + option (list Z * susp_iter)) :=
  let area := s_area it in
  let size := Z.of_nat (length area) in
  let! whole :=
    if 4 <=? size then let! len := peek area 2 in Ok ((4 <=? len) && (len <=? size)) else Ok false in
  if whole : bool then
    let! len := peek area 2 in
    let! entry := struct_at area 0 len in
    let area := drop (Z.to_nat len) area in
    if is_sig entry 0x53 0x54 && (field entry 3 1 =? 1)
    then Ok (inl (MkIter [] (s_hops it) (s_ce_lba it) (s_ce_offset it) (s_ce_size it)))
    else if is_sig entry 0x43 0x45 && (len =? 28) && (field entry 3 1 =? 1)
    then Ok (inr (Some (entry, MkIter area (s_hops it) (field entry 4 4) (field entry 12 4) (field entry 20 4))))
    else Ok (inr (Some (entry, MkIter area (s_hops it) (s_ce_lba it) (s_ce_offset it) (s_ce_size it))))
  else if (s_ce_size it =? 0) || (s_hops it =? ISO9660_MAX_CONTINUATIONS)
          || (ISO9660_SECTOR_SIZE <=? s_ce_offset it)
          || (ISO9660_SECTOR_SIZE - s_ce_offset it <? s_ce_size it)
  then Ok (inr None)
  else
    match read (s_ce_lba it * ISO9660_SECTOR_SIZE + s_ce_offset it) (s_ce_size it) with
    | None => Ok (inr None)
    | Some area => Ok (inl (MkIter area (s_hops it + 1) (s_ce_lba it) (s_ce_offset it) 0))
    end.

Definition susp_variant (it : susp_iter) : Z :=
  (ISO9660_MAX_CONTINUATIONS - s_hops it) * 0x10000 + Z.of_nat (length (s_area it)).

Definition iso9660_susp_next (it : susp_iter) : res (option (list Z * susp_iter)) :=
  loop susp_body susp_variant it.

(** ** Does the volume carry Rock Ridge names? *)
Definition er_is (susp : list Z) (id : string) : res bool :=
  if field susp 4 1 =? Z.of_nat (length (bytes id))
  then let! r := memcmp (drop 8 susp) (bytes id) (length (bytes id)) in Ok (r =? 0)
  else Ok false.

(** The value [skip] is left with, from the current position on. *)
Definition er_body (system_use : list Z) (it : susp_iter) : res (susp_iter + Z) :=
  let! o := iso9660_susp_next it in
  match o with
  | None => Ok (inr (-1))
  | Some (susp, it) =>
      if negb (is_sig susp 0x45 0x52) || negb (field susp 3 1 =? 1) || (field susp 2 1 <? 8)
      then Ok (inl it)
      else if negb (field susp 2 1 =? 8 + field susp 4 1 + field susp 5 1 + field susp 6 1)
      then Ok (inl it)
      else
        let! b1 := er_is susp "RRIP_1991A" in
        let! b2 := er_is susp "IEEE_P1282" in
        let! b3 := er_is susp "IEEE_1282" in
        if b1 || b2 || b3 then let! skip := peek system_use 6 in Ok (inr skip) else Ok (inl it)
  end.

Definition iso9660_susp_skip (root : list Z) : res Z :=
  let! entry := struct_at root 0 sizeof_entry in
  let offset := sizeof_entry + 1 in
  if (e_len entry <? offset + 7) || negb (e_filename_size entry =? 1) then Ok (-1)
  else
    let! c := peek root sizeof_entry in
    if negb (c =? 0) then Ok (-1)
    else
      let! system_use := struct_at root offset (e_len entry - offset) in
      if negb (is_sig system_use 0x53 0x50) || negb (field system_use 2 1 =? 7)
         || negb (field system_use 3 1 =? 1) || negb (field system_use 4 1 =? 0xbe)
         || negb (field system_use 5 1 =? 0xef)
      then Ok (-1)
      else loop (er_body system_use) susp_variant (susp_start system_use).

(** ** The context of a volume *)
Record iso_context := MkIso { i_root : list Z; i_susp_skip : Z }.

Definition new_context : res (option iso_context) :=
  let! root := iso9660_cache_root in
  match root with
  | None => Ok None
  | Some root => let! skip := iso9660_susp_skip root in Ok (Some (MkIso root skip))
  end.

(** The list of contexts is searched for the volume (here by its number) first. *)
Definition iso9660_get_context (contexts : list (Z * iso_context)) (vol : Z)
    : res (option iso_context * list (Z * iso_context)) :=
  match find (fun node => fst node =? vol) contexts with
  | Some node => Ok (Some (snd node), contexts)
  | None =>
      let! c := new_context in
      match c with
      | None => Ok (None, contexts)
      | Some c => Ok (Some c, (vol, c) :: contexts)
      end
  end.

(** ** Names

    One turn of the loop over the SUSP entries: it ends with whether the name
    was recorded in [NM] entries, and with the name. *)
Definition nm_body (limit : Z) (s : susp_iter * list Z * bool) : res ((susp_iter * list Z * bool) + (bool * list Z)) :=
  let '(it, name, found_nm) := s in
  let! o := iso9660_susp_next it in
  match o with
  | None => Ok (inr (found_nm, name))
  | Some (susp, it) =>
      if is_sig susp 0x4e 0x4d && (5 <=? field susp 2 1) && (field susp 3 1 =? 1) then
        let frag_len := field susp 2 1 - 5 in
        if limit <=? Z.of_nat (length name) + frag_len then Ok (inr (false, name))
        else
          let! frag := struct_at susp 5 frag_len in
          let name := name ++ frag in
          if Z.land (field susp 4 1) 1 =? 0 then Ok (inr (true, name))
          else Ok (inl (it, name, true))
      else Ok (inl (it, name, found_nm))
  end.

Definition nm_variant (s : susp_iter * list Z * bool) : Z := susp_variant s.1.1.

(** The system use area of an entry behind the volume's skip, if it has one. *)
Definition system_area (entry : list Z) (susp_skip : Z) : res (option (list Z)) :=
  if susp_skip <? 0 then Ok None
  else if e_len entry <? sizeof_entry + e_filename_size entry then Ok None
  else
    let start := sizeof_entry + e_filename_size entry in
    let sysarea_len := e_len entry - sizeof_entry - e_filename_size entry in
    let even := Z.land (e_filename_size entry) 1 =? 0 in
    if even && (sysarea_len =? 0) then Ok None
    else
      let start := if even then start + 1 else start in
      let sysarea_len := if even then sysarea_len - 1 else sysarea_len in
      if sysarea_len <? susp_skip then Ok None
      else let! area := struct_at entry (start + susp_skip) (sysarea_len - susp_skip) in Ok (Some area).

(** The loop over the recorded identifier, up to the version. *)
Fixpoint iso_name (name : list Z) : list Z :=
  match name with
  | [] => []
  | c :: rest =>
      if c =? 0x3b then []
      else if (c =? 0x2e) && match rest with c' :: _ => c' =? 0x3b | [] => false end then []
      else c :: iso_name rest
  end.

(** The flag returned, and the string left in the buffer of [limit] bytes. *)
Definition load_name (limit : Z) (entry : list Z) (susp_skip : Z) : res (bool * list Z) :=
  let! area := system_area entry susp_skip in
  let! (found_nm, name) :=
    match area with
    | None => Ok (false, [])
    | Some area => loop (nm_body limit) nm_variant (susp_start area, [], false)
    end in
  if found_nm : bool then Ok (true, name ++ [0])
  else if limit <=? e_filename_size entry then Panic "iso9660: Filename size exceeded"
  else
    let name_len :=
      if e_len entry <? sizeof_entry + e_filename_size entry then
        if e_len entry <=? sizeof_entry then 0 else e_len entry - sizeof_entry
      else e_filename_size entry in
    let! name := struct_at entry sizeof_entry name_len in
    Ok (false, iso_name name ++ [0]).

(** ** Walking a directory

    A whole entry at an offset, whose length has been validated. *)
Definition entry_at (buf : list Z) (off : Z) : res (list Z) :=
  let! len := peek buf off in
  struct_at buf off len.

(** The start of the next sector, if that is still inside the buffer and not
    empty. *)
Definition sector_after (buf : list Z) (off : Z) : res (option Z) :=
  let next_sector := (off / ISO9660_SECTOR_SIZE + 1) * ISO9660_SECTOR_SIZE in
  if Z.of_nat (length buf) <=? next_sector then Ok None
  else
    let! len := peek buf next_sector in
    Ok (if len =? 0 then None else Some next_sector).

Definition iso9660_next_entry (buf : list Z) (current : Z) : res (option Z) :=
  let! len := peek buf current in
  if len =? 0 then sector_after buf current
  else
    let next := current + len in
    if Z.of_nat (length buf) <=? next then Ok None
    else
      let! len := peek buf next in
      let! o := if len =? 0 then sector_after buf next else Ok (Some next) in
      match o with
      | None => Ok None
      | Some entry =>
          let! len := peek buf entry in
          if len <? sizeof_entry then Ok None
          else if Z.of_nat (length buf) - entry <? len then Ok None
          else Ok (Some entry)
      end.

Section Find.
Variable ci : bool.                (** [case_insensitive_fopen] *)
Variable susp_skip : Z.

Definition names_entry (filename entry : list Z) : res bool :=
  let! (rr, entry_filename) := load_name 256 entry susp_skip in
  let! r := if rr && negb ci then strcmp filename entry_filename else strcasecmp filename entry_filename in
  Ok (r =? 0).

(** The records of a directory for itself and its parent. *)
Definition is_dot_record (entry : list Z) : bool :=
  (e_filename_size entry =? 1) && (sizeof_entry <? e_len entry) && (field entry 33 1 <=? 1).

Definition find_body (filename buf : list Z) (s : Z * Z) : res ((Z * Z) + option Z) :=
  let '(off, size) := s in
  if size =? 0 then Ok (inr None)
  else
    let! len := peek buf off in
    if len =? 0 then
      if size <=? ISO9660_SECTOR_SIZE then Ok (inr None)
      else
        let prev_size := size in
        let size := ALIGN_DOWN size ISO9660_SECTOR_SIZE in
        if prev_size =? size then
          if size <=? ISO9660_SECTOR_SIZE then Ok (inr None)
          else Ok (inl (off + ISO9660_SECTOR_SIZE, size - ISO9660_SECTOR_SIZE))
        else Ok (inl (off + (prev_size - size), size))
    else if size <? len then Ok (inr None)
    else if len <? sizeof_entry then Ok (inr None)
    else
      let! entry := entry_at buf off in
      if is_dot_record entry then Ok (inl (off + len, size - len))
      else
        let! found := names_entry filename entry in
        if found : bool then Ok (inr (Some off)) else Ok (inl (off + len, size - len)).

Definition iso9660_find (buf filename : list Z) : res (option Z) :=
  loop (find_body filename buf) (fun '(_, size) => size) (0, Z.of_nat (length buf)).

(** ** The extents of a file *)
Record extent := MkExtent { x_LBA : Z; x_size : Z }.

Definition extent_of (e : list Z) : extent :=
  MkExtent (u32 (e_extent e + e_extended_attribute_length e)) (e_extent_size e).

(** First pass, with [n] more records allowed: where it ends, the number of
    extents, their total size and the interleaving seen. *)
Fixpoint count_extents (n : nat) (buf base_name : list Z) (e : Z) (extent_count total_size interleaved : Z)
    : res (Z * Z * Z * Z) :=
  match n with
  | O => Ok (e, extent_count, total_size, interleaved)
  | S n =>
      let! entry := entry_at buf e in
      if Z.land (e_flags entry) ISO9660_FLAG_MULTI_EXTENT =? 0 then Ok (e, extent_count, total_size, interleaved)
      else
        let! o := iso9660_next_entry buf e in
        match o with
        | None => Ok (e, extent_count, total_size, interleaved)
        | Some next =>
            let! entry := entry_at buf next in
            let! (_, next_name) := load_name 256 entry susp_skip in
            let! c := peek base_name 0 in
            let! differs := if c =? 0 then Ok true else let! r := strcmp base_name next_name in Ok (negb (r =? 0)) in
            if differs : bool then Ok (e, extent_count, total_size, interleaved)
            else
              count_extents n buf base_name next (extent_count + 1) (u64 (total_size + e_extent_size entry))
                (Z.lor interleaved (Z.lor (e_unit entry) (e_gap entry)))
        end
  end.

(** Second pass, into an array of [n] zeroed extents. *)
Fixpoint fill_extents (n : nat) (buf : list Z) (e : Z) : res (list extent) :=
  match n with
  | O => Ok []
  | S n =>
      let! entry := entry_at buf e in
      match n with
      | O => Ok [extent_of entry]
      | S _ =>
          let! o := iso9660_next_entry buf e in
          match o with
          | None => Ok (extent_of entry :: replicate n (MkExtent 0 0))
          | Some next => let! rest := fill_extents n buf next in Ok (extent_of entry :: rest)
          end
      end
  end.

Record iso_file := MkIsoFile { f_total_size : Z; f_extents : list extent }.

(** The file whose first record is at [off]. *)
Definition open_entry (buf : list Z) (off : Z) : res (option iso_file) :=
  let! entry := entry_at buf off in
  let! (_, base_name) := load_name 256 entry susp_skip in
  let! (e, extent_count, total_size, interleaved) :=
    count_extents (ISO9660_MAX_EXTENT_COUNT - 1) buf base_name off 1 (e_extent_size entry)
      (Z.lor (e_unit entry) (e_gap entry)) in
  let! last := entry_at buf e in
  if negb (interleaved =? 0) || negb (Z.land (e_flags last) ISO9660_FLAG_MULTI_EXTENT =? 0) then Ok None
  else
    let! extents := fill_extents (Z.to_nat extent_count) buf off in
    Ok (Some (MkIsoFile total_size extents)).

(** ** Paths *)
Fixpoint skip_slashes (path : list Z) : res (list Z) :=
  match path with
  | [] => Fault
  | c :: rest => if c =? 47 then skip_slashes rest else Ok path
  end.

(** The component at the start of the path, with room for [room] characters. *)
Fixpoint path_component (room : nat) (path : list Z) : res (list Z * list Z) :=
  match path with
  | [] => Fault
  | c :: rest =>
      if (c =? 47) || (c =? 0) then Ok ([], path)
      else
        match room with
        | O => Panic "iso9660: Path component exceeds maximum length"
        | S room => let! (name, path) := path_component room rest in Ok (c :: name, path)
        end
  end.

Definition open_body (s : list Z * list Z) : res ((list Z * list Z) + option iso_file) :=
  let '(path, current) := s in
  let! path := skip_slashes path in
  let! c := peek path 0 in
  if c =? 0 then Ok (inr None)
  else
    let! (filename, path) := path_component (Z.to_nat (ROCK_RIDGE_MAX_FILENAME - 1)) path in
    let! o := iso9660_find current (filename ++ [0]) in
    match o with
    | None => Ok (inr None)
    | Some off =>
        let! entry := entry_at current off in
        let next_sector := u32 (e_extent entry + e_extended_attribute_length entry) in
        let next_size := e_extent_size entry in
        let! c := peek path 0 in
        if negb (c =? 0) && (Z.land (e_flags entry) ISO9660_FLAG_DIRECTORY =? 0) then Ok (inr None)
        else if c =? 0 then let! f := open_entry current off in Ok (inr f)
        else if bad_dir_size next_size then Ok (inr None)
        else
          match read (next_sector * ISO9660_SECTOR_SIZE) next_size with
          | None => Ok (inr None)
          | Some dir => Ok (inl (drop 1 path, dir))
          end
    end.
End Find.

Definition iso9660_open (contexts : list (Z * iso_context)) (vol : Z) (ci : bool) (path : list Z)
    : res (option iso_file * list (Z * iso_context)) :=
  match read (ISO9660_FIRST_VOLUME_DESCRIPTOR * ISO9660_SECTOR_SIZE + 1) 5 with
  | None => Ok (None, contexts)
  | Some buf =>
      let! r := strcmp (buf ++ [0]) (cstring "CD001") in
      if negb (r =? 0) then Ok (None, contexts)
      else
        let! (c, contexts) := iso9660_get_context contexts vol in
        match c with
        | None => Ok (None, contexts)
        | Some c =>
            let! path := skip_slashes path in
            let! f := loop (open_body ci (i_susp_skip c)) (fun '(path, _) => Z.of_nat (length path)) (path, i_root c) in
            Ok (f, contexts)
        end
  end.

(** ** Reading *)
Fixpoint read_extents (extents : list extent) (extent_start loc count : Z) (buf : list Z) : res (list Z) :=
  match extents with
  | [] => if 0 <? count then Panic "iso9660: read beyond end of file" else Ok buf
  | x :: extents =>
      if negb (0 <? count) then Ok buf
      else
        let extent_end := u64 (extent_start + x_size x) in
        if loc <? extent_end then
          let offset_in_extent := if extent_start <? loc then loc - extent_start else 0 in
          let bytes_available := u64 (x_size x - offset_in_extent) in
          let to_read := if count <? bytes_available then count else bytes_available in
          match read (u64 (x_LBA x * ISO9660_SECTOR_SIZE + offset_in_extent)) to_read with
          | None => Panic "iso9660: failed to read file data"
          | Some bs => read_extents extents extent_end (u64 (loc + to_read)) (count - to_read) (buf ++ bs)
          end
        else read_extents extents extent_end loc count buf
  end.

Definition iso9660_read (f : iso_file) (loc count : Z) : res (list Z) :=
  read_extents (f_extents f) 0 loc count [].
End Iso.
