(* ===== verification/IsoFacts.v ===== *)
(** * Safety of the ISO 9660 driver

    On a volume with any contents the driver reads no byte outside the buffers
    it filled and every loop ends. *)

From S2P Require Import Prelude CInt Libc LibcProps Volume Gpt FatChain FatDir Iso.

(** ** Bytes and structures *)
Lemma peek_ok buf off :
  Forall is_byte buf -> 0 <= off < Z.of_nat (length buf) -> exists b, peek buf off = Ok b /\ is_byte b.
Proof.
  intros Hb Ho. unfold peek. rewrite (proj2 (Z.ltb_ge _ _)) by lia.
  destruct (lookup_lt_is_Some_2 buf (Z.to_nat off)) as [b Hl]; [lia|].
  exists b. split; [by apply rd_lookup|]. rewrite Forall_lookup in Hb. eauto.
Qed.

Lemma struct_at_ok buf off n :
  0 <= off -> 0 <= n -> off + n <= Z.of_nat (length buf) ->
  exists e, struct_at buf off n = Ok e /\ e = take (Z.to_nat n) (drop (Z.to_nat off) buf) /\
            Z.of_nat (length e) = n.
Proof.
  intros Ho Hn Hl. unfold struct_at. rewrite !(proj2 (Z.leb_le _ _)) by lia. cbn [andb].
  eexists. split; [done|]. split; [done|]. rewrite length_take, length_drop. lia.
Qed.

Lemma sub_bytes (l : list Z) n k : Forall is_byte l -> Forall is_byte (take n (drop k l)).
Proof. intros H. by apply Forall_take, Forall_drop. Qed.

Lemma field_byte e k : Forall is_byte e -> 0 <= field e k 1 < 256.
Proof. intros H. pose proof (field_range e k 1 H) as Hf. change (256 ^ Z.of_nat 1) with 256 in Hf. lia. Qed.

Lemma field_peek buf k b : peek buf (Z.of_nat k) = Ok b -> field buf k 1 = b.
Proof.
  unfold peek, rd, field. destruct (Z.of_nat k <? 0) eqn:Hk; bool_hyps; [lia|]. rewrite Nat2Z.id.
  destruct (buf !! k) as [x|] eqn:E; cbn; [|done]. intros [= ->].
  rewrite (drop_S _ _ _ E). cbn [firstn le_val]. apply Z.add_0_r.
Qed.

Lemma field_take e n k w : (k + w <= n)%nat -> field (take n e) k w = field e k w.
Proof. intros H. unfold field. by rewrite skipn_firstn_comm, take_take, Nat.min_l by lia. Qed.

Lemma memcmp_ok s1 s2 n : (n <= length s1)%nat -> (n <= length s2)%nat -> exists r, memcmp s1 s2 n = Ok r.
Proof.
  revert s1 s2. induction n as [|n IH]; intros s1 s2 H1 H2; [by eexists|].
  destruct s1 as [|c1 s1], s2 as [|c2 s2]; cbn [length] in *; try lia. cbn [memcmp].
  case_if; [by eexists|]. apply IH; lia.
Qed.

Section Safe.
Variable read : Z -> Z -> option (list Z).
Context `{!ByteReader read}.

(** ** SUSP *)
Record iter_ok (it : susp_iter) : Prop := {
  io_bytes : Forall is_byte (s_area it);
  io_size : Z.of_nat (length (s_area it)) <= 2048;
  io_hops : 0 <= s_hops it <= ISO9660_MAX_CONTINUATIONS;
  io_ce : 0 <= s_ce_lba it < 2 ^ 32 /\ 0 <= s_ce_offset it /\ 0 <= s_ce_size it;
}.

Lemma iter_start area : Forall is_byte area -> Z.of_nat (length area) <= 2048 -> iter_ok (susp_start area).
Proof. intros. unfold ISO9660_MAX_CONTINUATIONS. split; cbn; try done; unfold ISO9660_MAX_CONTINUATIONS; lia. Qed.

(** An entry of an area. *)
Record susp_entry (e : list Z) : Prop := {
  se_bytes : Forall is_byte e;
  se_len : field e 2 1 = Z.of_nat (length e);
  se_size : 4 <= Z.of_nat (length e) < 256;
}.

Lemma susp_variant_nonneg it : iter_ok it -> 0 <= susp_variant it.
Proof. intros [_ _ H _]. unfold susp_variant, ISO9660_MAX_CONTINUATIONS in *. lia. Qed.

Lemma susp_take area len :
  Forall is_byte area -> peek area 2 = Ok len -> 4 <= len -> len <= Z.of_nat (length area) ->
  exists e, struct_at area 0 len = Ok e /\ e = take (Z.to_nat len) area /\ susp_entry e.
Proof.
  intros Hb Hp H4 Hl. destruct (struct_at_ok area 0 len) as (e & -> & He & Hlen); [lia..|].
  rewrite drop_0 in He. exists e. split; [done|]. split; [done|].
  pose proof (field_peek area 2 len Hp) as Hf.
  assert (0 <= len < 256) by (rewrite <- Hf; by apply field_byte).
  split; [rewrite He; by apply Forall_take| |lia].
  rewrite He, field_take by lia. rewrite <- He. lia.
Qed.

(** The size of the rest: what the outer loops use as their variant. *)
Lemma susp_next_ok it :
  iter_ok it ->
  exists o, iso9660_susp_next read it = Ok o /\
  (forall e it', o = Some (e, it') -> iter_ok it' /\ susp_entry e /\ 0 <= susp_variant it' < susp_variant it).
Proof.
  intros Hit. apply (res_post_total (fun o => forall e it', o = Some (e, it') ->
    iter_ok it' /\ susp_entry e /\ 0 <= susp_variant it' < susp_variant it)).
  apply (loop_spec _ (fun i => iter_ok i /\ susp_variant i <= susp_variant it));
    [|split; [done|lia]|by apply susp_variant_nonneg].
  intros i [Hi Hle]. pose proof (susp_variant_nonneg i Hi) as Hv. unfold turn_ok, susp_body.
  destruct Hi as [Hb Hsz Hh (Hc1 & Hc2 & Hc3)].
  set (area := s_area i) in *.
  assert (exists w, (if 4 <=? Z.of_nat (length area)
    then let! len := peek area 2 in Ok ((4 <=? len) && (len <=? Z.of_nat (length area))) else Ok false) = Ok w /\
    (w = true -> exists len, peek area 2 = Ok len /\ 4 <= len <= Z.of_nat (length area))) as (w & -> & Hw).
  { case_if; [|by exists false]. destruct (peek_ok area 2) as (len & -> & _); [done|lia|]. cbn.
    eexists. split; [done|]. intros Hx. bool_hyps. by exists len. }
  cbn [rbind]. destruct w.
  - destruct (Hw eq_refl) as (len & Hp & Hlen). rewrite Hp. cbn [rbind].
    destruct (susp_take area len) as (e & -> & He & Hent); [done|done|lia|lia|]. cbn [rbind].
    pose proof (se_bytes _ Hent) as Heb. pose proof (field_range e 4 4 Heb). pose proof (field_range e 12 4 Heb).
    pose proof (field_range e 20 4 Heb). change (256 ^ Z.of_nat 4) with (2 ^ 32) in *.
    assert (Z.of_nat (length (drop (Z.to_nat len) area)) = Z.of_nat (length area) - len) as Hdl
      by (rewrite length_drop; lia).
    assert (forall a b c, 0 <= a < 2 ^ 32 -> 0 <= b -> 0 <= c ->
      iter_ok (MkIter (drop (Z.to_nat len) area) (s_hops i) a b c)) as Hnew
      by (intros; split; cbn; [by apply Forall_drop|lia|done|lia]).
    unfold susp_variant in *. fold area in Hle, Hv |- *.
    destruct (is_sig e 0x53 0x54 && _).
    { cbn [res_post s_area s_hops length]. split; [split; [split; cbn; [done|lia|done|lia]|lia]|lia]. }
    destruct (is_sig e 0x43 0x45 && _ && _); cbn [res_post]; intros e' it' [= <- <-];
      (split; [apply Hnew; lia|split; [done|cbn [s_area s_hops]; lia]]).
  - case_if; [done|]. unfold ISO9660_MAX_CONTINUATIONS, ISO9660_SECTOR_SIZE in *.
    destruct (read _ (s_ce_size i)) as [bs|] eqn:Er; [|done].
    pose proof (read_length _ _ _ Er ltac:(lia)). pose proof (read_bytes _ _ _ Er).
    unfold susp_variant, ISO9660_MAX_CONTINUATIONS in *. fold area in Hle, Hv |- *.
    cbn [res_post s_area s_hops]. split; [split|]; [|lia|lia].
    split; cbn [s_area s_hops s_ce_lba s_ce_offset s_ce_size]; [done|lia|unfold ISO9660_MAX_CONTINUATIONS; lia|lia].
Qed.

Lemma er_is_ok e id : susp_entry e -> 8 + field e 4 1 <= Z.of_nat (length e) -> exists b, er_is e id = Ok b.
Proof.
  intros He Hl. unfold er_is. case_if; [|by eexists].
  destruct (memcmp_ok (drop 8 e) (bytes id) (length (bytes id))) as [r ->]; [rewrite length_drop; lia|lia|].
  by eexists.
Qed.

Lemma er_loop_ok system_use it :
  Forall is_byte system_use -> 7 <= Z.of_nat (length system_use) -> iter_ok it ->
  exists v, loop (er_body read system_use) susp_variant it = Ok v /\ -1 <= v < 256.
Proof.
  intros Hb Hl Hit. apply (res_post_total (fun v => -1 <= v < 256)).
  apply (loop_spec _ iter_ok); [|done|by apply susp_variant_nonneg].
  intros i Hi. unfold turn_ok, er_body. destruct (susp_next_ok i Hi) as (o & -> & Ho). cbn [rbind].
  destruct o as [[e it']|]; [|cbn; lia]. destruct (Ho e it' eq_refl) as (Hi' & He & Hv).
  case_if; [done|]. case_if; [done|].
  pose proof (field_byte e 5 (se_bytes _ He)). pose proof (field_byte e 6 (se_bytes _ He)).
  pose proof (se_len _ He) as Hlen.
  destruct (er_is_ok e "RRIP_1991A") as [b1 ->]; [done|lia|]. cbn [rbind].
  destruct (er_is_ok e "IEEE_P1282") as [b2 ->]; [done|lia|]. cbn [rbind].
  destruct (er_is_ok e "IEEE_1282") as [b3 ->]; [done|lia|]. cbn [rbind].
  destruct (b1 || b2 || b3); [|done].
  destruct (peek_ok system_use 6) as (b & -> & ?); [done|lia|]. cbn. unfold is_byte in *. lia.
Qed.

(** A directory buffer as the driver reads it: whole sectors of bytes. *)
Definition dir_ok (buf : list Z) : Prop :=
  Forall is_byte buf /\ 2048 <= Z.of_nat (length buf) <= ISO9660_MAX_DIR_SIZE /\
  Z.of_nat (length buf) mod ISO9660_SECTOR_SIZE = 0.

Lemma susp_skip_ok root : dir_ok root -> exists v, iso9660_susp_skip read root = Ok v /\ -1 <= v < 256.
Proof.
  intros (Hb & Hl & _). unfold iso9660_susp_skip, sizeof_entry.
  destruct (struct_at_ok root 0 33) as (e & -> & He & Hel); [lia..|]. cbn [rbind].
  assert (exists v, Ok (-1) = Ok v /\ -1 <= v < 256) as Hno by (exists (-1); split; [done|lia]).
  case_if; [done|]. destruct (peek_ok root 33) as (c & -> & _); [done|lia|]. cbn [rbind].
  case_if; [done|].
  assert (0 <= e_len e < 256) by (apply field_byte; rewrite He; by apply sub_bytes).
  destruct (struct_at_ok root (33 + 1) (e_len e - (33 + 1))) as (u & -> & Hu & Hul); [lia..|]. cbn [rbind].
  assert (Forall is_byte u) by (rewrite Hu; by apply sub_bytes).
  case_if; [done|]. apply er_loop_ok; [done|lia|]. apply iter_start; [done|lia].
Qed.

(** ** Names *)
Record entry_ok (e : list Z) : Prop := {
  en_bytes : Forall is_byte e;
  en_len : e_len e = Z.of_nat (length e);
  en_size : 33 <= Z.of_nat (length e) < 256;
}.

Lemma system_area_ok e skip :
  entry_ok e -> exists o, system_area e skip = Ok o /\
  (forall a, o = Some a -> Forall is_byte a /\ Z.of_nat (length a) <= 2048).
Proof.
  intros [Hb Hl Hs]. unfold system_area, sizeof_entry. rewrite Hl.
  assert (exists o : option (list Z), Ok None = Ok o /\ (forall a, o = Some a -> Forall is_byte a /\ Z.of_nat (length a) <= 2048))
    as Hno by (by exists None).
  pose proof (field_byte e 32 Hb) as Hf. fold (e_filename_size e) in Hf.
  case_if; [done|]. case_if; [done|]. set (even := Z.land _ 1 =? 0). case_if; [done|].
  set (len := if even then _ - 1 else _). set (start := if even then _ + 1 else _).
  assert (0 <= start /\ 0 <= len /\ start + len <= Z.of_nat (length e)) as (H1 & H2 & H3).
  { unfold start, len. destruct even; cbn [andb] in *; bool_cases; lia. }
  case_if; [done|].
  destruct (struct_at_ok e (start + skip) (len - skip)) as (a & -> & Ha & Hal); [lia..|]. cbn [rbind].
  exists (Some a). split; [done|]. intros a' [= <-]. split; [rewrite Ha; by apply sub_bytes|lia].
Qed.

Lemma nm_loop_ok it :
  iter_ok it -> exists r, loop (nm_body read 256) nm_variant (it, [], false) = Ok r.
Proof.
  intros Hit.
  destruct (res_post_total (fun _ : bool * list Z => True)
    (loop (nm_body read 256) nm_variant (it, [], false))) as (r & -> & _); [|by exists r].
  apply (loop_spec _ (fun s => iter_ok s.1.1)); [|done|by apply susp_variant_nonneg].
  intros [[i name] found] Hi. cbn in Hi. unfold turn_ok, nm_body.
  destruct (susp_next_ok i Hi) as (o & -> & Ho). cbn [rbind].
  destruct o as [[e it']|]; [|done]. destruct (Ho e it' eq_refl) as (Hi' & He & Hv).
  case_if; [|done]. case_if; [done|]. pose proof (se_len _ He).
  destruct (struct_at_ok e 5 (field e 2 1 - 5)) as (f & -> & _ & _); [lia..|]. cbn [rbind]. by case_if.
Qed.

Lemma load_name_ok e skip :
  entry_ok e -> exists rr name, load_name read 256 e skip = Ok (rr, name) /\ terminated name.
Proof.
  intros He. pose proof He as [Hb Hl Hs]. unfold load_name.
  destruct (system_area_ok e skip He) as (o & -> & Ho). cbn [rbind].
  assert (exists r, match o with
    | None => Ok (false, [])
    | Some area => loop (nm_body read 256) nm_variant (susp_start area, [], false) end = Ok r) as ([found name] & ->).
  { destruct o as [a|]; [|by eexists]. destruct (Ho a eq_refl). apply nm_loop_ok. by apply iter_start. }
  cbn [rbind]. destruct found; [exists true; eexists; split; [done|apply in_app_iff; right; by left]|].
  pose proof (field_byte e 32 Hb) as Hf. fold (e_filename_size e) in Hf. unfold sizeof_entry.
  rewrite (proj2 (Z.leb_gt _ _)) by lia. set (n := if e_len e <? _ then _ else _).
  assert (0 <= n /\ 33 + n <= Z.of_nat (length e)) as [? ?] by (unfold n; rewrite Hl; repeat case_if; lia).
  destruct (struct_at_ok e 33 n) as (nm & -> & _ & _); [lia..|]. cbn [rbind].
  exists false. eexists. split; [done|]. apply in_app_iff. right. by left.
Qed.

(** ** Directories *)
Definition valid_at (buf : list Z) (off : Z) (e : list Z) : Prop := entry_at buf off = Ok e /\ entry_ok e /\ 0 <= off.

Lemma valid_entry buf off len :
  Forall is_byte buf -> 0 <= off -> peek buf off = Ok len -> 33 <= len -> off + len <= Z.of_nat (length buf) ->
  exists e, valid_at buf off e /\ Z.of_nat (length e) = len.
Proof.
  intros Hb Ho Hp H33 Hl. unfold valid_at, entry_at. rewrite Hp. cbn [rbind].
  destruct (struct_at_ok buf off len) as (e & -> & He & Hel); [lia..|]. exists e. split; [|done]. split; [done|].
  assert (e_len e = len) as Hlen.
  { unfold e_len. rewrite He, field_take by lia. pose proof (field_peek buf (Z.to_nat off) len) as Hf.
    rewrite Z2Nat.id in Hf by done. specialize (Hf Hp). unfold field in *. by rewrite drop_0. }
  split; [|done]. split; [rewrite He; by apply sub_bytes|lia|].
  rewrite Hel. split; [done|]. rewrite <- Hlen. apply field_byte. rewrite He. by apply sub_bytes.
Qed.

Lemma valid_len buf off e : valid_at buf off e -> peek buf off = Ok (Z.of_nat (length e)) /\ off + Z.of_nat (length e) <= Z.of_nat (length buf).
Proof.
  intros (He & [Hb Hl Hs] & Ho). unfold entry_at in He. destruct (peek buf off) as [len| | |] eqn:Hp; try done.
  cbn [rbind] in He. unfold struct_at in He. revert He. case_if; [|done]. intros [= He].
  assert (0 <= len) as Hlen.
  { destruct (decide (0 <= len)) as [|Hneg]; [done|].
    rewrite <- He, Z2Nat.nonpos, take_0 in Hs by lia. cbn [length] in Hs. lia. }
  assert (length e = Z.to_nat len) as -> by (rewrite <- He, length_take, length_drop; lia).
  rewrite Z2Nat.id by done. split; [done|lia].
Qed.
End Safe.

(** * Rock Ridge names

    A name recorded in any number of [NM] entries of a record's system use
    area is read back whole. *)
Section Names.
Variable read : Z -> Z -> option (list Z).
Context `{!ByteReader read}.

(** The entry at the front of an area is returned, unless it ends the area. *)
Lemma susp_next_front it e rest :
  iter_ok it -> susp_entry e -> s_area it = e ++ rest -> is_sig e 0x53 0x54 = false ->
  exists it', iso9660_susp_next read it = Ok (Some (e, it')) /\ s_area it' = rest.
Proof.
  intros Hit He Ha Hst.
  destruct (res_post_total (fun o => exists it', o = Some (e, it') /\ s_area it' = rest)
    (loop (susp_body read) susp_variant it)) as (o & Ho & it' & -> & Hr);
    [|exists it'; by unfold iso9660_susp_next; rewrite Ho].
  apply (loop_spec _ (fun i => i = it)); [|done|by apply susp_variant_nonneg].
  intros i ->. unfold turn_ok, susp_body. rewrite Ha.
  pose proof (se_size _ He) as Hs. pose proof (se_len _ He) as Hl.
  assert (peek (e ++ rest) 2 = Ok (Z.of_nat (length e))) as Hp.
  { destruct (peek_ok e 2 (se_bytes _ He) ltac:(lia)) as (b & Hb & _). pose proof (field_peek e 2 b Hb) as Hf.
    unfold peek in *. cbn [Z.ltb Z.compare] in *. unfold rd in *. rewrite lookup_app_l by lia.
    destruct (e !! Z.to_nat 2) eqn:E; [|done]. cbn in *. congruence. }
  rewrite length_app, (proj2 (Z.leb_le _ _)) by lia. rewrite Hp. cbn [rbind].
  rewrite !(proj2 (Z.leb_le _ _)) by lia. cbn [andb].
  unfold struct_at. rewrite length_app, !(proj2 (Z.leb_le _ _)) by lia. cbn [andb rbind].
  rewrite drop_0, Nat2Z.id, take_app_length, drop_app_length. rewrite Hst. cbn [andb].
  case_if; cbn; eexists; done.
Qed.

Definition nm_entry (more : bool) (frag : list Z) : list Z :=
  [0x4e; 0x4d; 5 + Z.of_nat (length frag); 1; if more then 1 else 0] ++ frag.

Fixpoint nm_area (frags : list (list Z)) : list Z :=
  match frags with
  | [] => []
  | [f] => nm_entry false f
  | f :: fs => nm_entry true f ++ nm_area fs
  end.

(** Entries of other kinds, which the name does not depend on. *)
Definition other_entry (e : list Z) : Prop :=
  susp_entry e /\ is_sig e 0x53 0x54 = false /\ is_sig e 0x4e 0x4d = false.

Definition frag_ok (f : list Z) : Prop := Forall is_byte f /\ (length f <= 250)%nat.

Lemma nm_entry_ok more f : frag_ok f -> susp_entry (nm_entry more f).
Proof.
  intros [Hb Hl]. unfold nm_entry. split.
  - apply Forall_app. split; [|done]. repeat constructor; unfold is_byte; try lia. all: destruct more; lia.
  - unfold field. cbn [drop app firstn le_val length]. change (take 0 _) with (@nil Z). cbn [le_val]. lia.
  - cbn [length app]. lia.
Qed.

Lemma concat_length_le (a b : list (list Z)) : (length (concat a) <= length (concat (a ++ b)))%nat.
Proof. rewrite concat_app, length_app. lia. Qed.

Lemma nm_loop_name it pre frags post :
  iter_ok it -> s_area it = concat pre ++ nm_area frags ++ post -> Forall other_entry pre ->
  frags <> [] -> Forall frag_ok frags -> (length (concat frags) < 256)%nat ->
  loop (nm_body read 256) nm_variant (it, [], false) = Ok (true, concat frags).
Proof.
  intros Hit Ha Hpre Hne Hok Htot.
  destruct (res_post_total (fun r => r = (true, concat frags)) (loop (nm_body read 256) nm_variant (it, [], false)))
    as (r & -> & ->); [|done].
  apply (loop_spec _ (fun '(i, name, found) => iter_ok i /\ exists pre' before after,
    s_area i = concat pre' ++ nm_area after ++ post /\ Forall other_entry pre' /\ after <> [] /\
    frags = before ++ after /\ name = concat before)); [| |by apply susp_variant_nonneg].
  2: { split; [done|]. by exists pre, [], frags. }
  intros [[i name] found] (Hi & pre' & before & after & Hai & Hpre' & Hne' & Hf & ->).
  unfold turn_ok, nm_body. destruct (susp_next_ok read i Hi) as (o & Ho & Hnext).
  destruct Hpre' as [|e pre' (He & Hst & Hnm) Hpre'].
  - destruct after as [|f after]; [done|]. subst frags. apply Forall_app in Hok as [_ Hok].
    apply Forall_cons in Hok as [Hfok Hok]. cbn [concat app] in Hai.
    set (more := match after with [] => false | _ :: _ => true end).
    assert (s_area i = nm_entry more f ++ (nm_area after ++ post)) as Hfront
      by (rewrite Hai; unfold more; destruct after; cbn [nm_area]; by rewrite <- ?app_assoc).
    destruct (susp_next_front i (nm_entry more f) (nm_area after ++ post) Hi (nm_entry_ok more f Hfok) Hfront eq_refl)
      as (it' & E & Hit'). rewrite E in *. injection Ho as <-. destruct (Hnext _ _ eq_refl) as (Hi' & _ & Hv). cbn [rbind].
    change (is_sig (nm_entry more f) 0x4e 0x4d) with true.
    change (field (nm_entry more f) 3 1) with 1.
    pose proof (se_len _ (nm_entry_ok more f Hfok)) as Hl. rewrite Hl.
    assert (length (nm_entry more f) = (5 + length f)%nat) as Hlen by done. rewrite Hlen.
    rewrite (proj2 (Z.leb_le _ _)) by lia. change (1 =? 1) with true. cbn [andb].
    rewrite concat_app, length_app in Htot. cbn [concat] in Htot. rewrite length_app in Htot.
    rewrite (proj2 (Z.leb_gt _ _)) by lia.
    replace (Z.of_nat (5 + length f) - 5) with (Z.of_nat (length f)) by lia.
    unfold struct_at. rewrite Hlen, !(proj2 (Z.leb_le _ _)) by lia. cbn [andb rbind]. rewrite Nat2Z.id.
    change (drop (Z.to_nat 5) (nm_entry more f)) with f. rewrite take_ge by lia.
    replace (Z.land (field (nm_entry more f) 4 1) 1 =? 0) with (negb more) by (by destruct more).
    destruct after as [|f' after]; cbn [negb more].
    + cbn. by rewrite concat_app; cbn [concat]; rewrite app_nil_r.
    + cbn [res_post]. split; [|done]. split; [done|]. exists [], (before ++ [f]), (f' :: after).
      split_and!; [done|constructor|done|by rewrite <- app_assoc|]. rewrite concat_app. cbn [concat]. by rewrite app_nil_r.
  - cbn [concat] in Hai. rewrite <- app_assoc in Hai.
    destruct (susp_next_front i e _ Hi He Hai Hst) as (it' & E & Hit'). rewrite E in *. injection Ho as <-.
    destruct (Hnext _ _ eq_refl) as (Hi' & _ & Hv). cbn [rbind]. rewrite Hnm. cbn [andb res_post].
    split; [|done]. split; [done|]. by exists pre', before, after.
Qed.

(** The name of a record whose system use area holds it in [NM] entries. *)
Lemma load_name_rock_ridge e skip pre frags post :
  entry_ok e -> system_area e skip = Ok (Some (concat pre ++ nm_area frags ++ post)) ->
  Forall other_entry pre -> frags <> [] -> Forall frag_ok frags -> (length (concat frags) < 256)%nat ->
  load_name read 256 e skip = Ok (true, concat frags ++ [0]).
Proof.
  intros He Ha Hpre Hne Hok Htot. unfold load_name. destruct (system_area_ok e skip He) as (o & Ho & Harea).
  rewrite Ha in *. injection Ho as <-. destruct (Harea _ eq_refl) as [Hb Hl]. cbn [rbind].
  rewrite (nm_loop_name (susp_start _) pre frags post); [done|by apply iter_start|done..].
Qed.
End Names.
