(* ===== verification/IsoOpen.v ===== *)
(** * Directories of an ISO 9660 volume

    [iso9660_find] is the search through the list of records that a walk over
    the sectors passes; on a directory laid out as ECMA-119 prescribes that
    list is the list of its records. *)

From S2P Require Import Prelude CInt Libc LibcProps Volume Gpt FatChain FatDir Iso IsoFacts FatOpen.

(** ** The walk *)
Inductive step :=
| Stop
| Gap (off size : Z)
| Rec (e : list Z).

(** What the walk finds at an offset, with [size] bytes to go. *)
Definition step_at (buf : list Z) (off size : Z) : step :=
  if size =? 0 then Stop
  else
    match buf !! Z.to_nat off with
    | None => Stop
    | Some len =>
        if len =? 0 then
          if size <=? 2048 then Stop
          else if size =? ALIGN_DOWN size 2048 then Gap (off + 2048) (size - 2048)
          else Gap (off + (size - ALIGN_DOWN size 2048)) (ALIGN_DOWN size 2048)
        else if (size <? len) || (len <? 33) then Stop
        else Rec (take (Z.to_nat len) (drop (Z.to_nat off) buf))
    end.

Fixpoint walk (n : nat) (buf : list Z) (off size : Z) : list (Z * list Z) :=
  match n with
  | O => []
  | S n =>
      match step_at buf off size with
      | Stop => []
      | Gap off' size' => walk n buf off' size'
      | Rec e => (off, e) :: walk n buf (off + Z.of_nat (length e)) (size - Z.of_nat (length e))
      end
  end.

Definition records (buf : list Z) : list (Z * list Z) := walk (length buf) buf 0 (Z.of_nat (length buf)).

Section Find.
Variable read : Z -> Z -> option (list Z).
Context `{!ByteReader read}.
Variable ci : bool.
Variable skip : Z.

Fixpoint find_named (filename : list Z) (l : list (Z * list Z)) : res (option Z) :=
  match l with
  | [] => Ok None
  | (off, e) :: l =>
      if is_dot_record e then find_named filename l
      else
        let! b := names_entry read ci skip filename e in
        if b : bool then Ok (Some off) else find_named filename l
  end.

Lemma names_entry_ok filename e :
  terminated filename -> entry_ok e -> exists b, names_entry read ci skip filename e = Ok b.
Proof.
  intros Hf He. unfold names_entry. destruct (load_name_ok read e skip He) as (rr & name & -> & Hn). cbn [rbind].
  destruct (rr && negb ci).
  - destruct (str_cmp_total (fun c => c) filename name) as [r Hr]; [done..|]. unfold strcmp. rewrite Hr. by eexists.
  - destruct (str_cmp_total tolower filename name) as [r Hr]; [intros c; unfold tolower; repeat case_if; lia|done|done|].
    unfold strcasecmp. rewrite Hr. by eexists.
Qed.

Lemma align_down_cases size :
  2048 < size -> 2048 <= ALIGN_DOWN size 2048 <= size /\ size - ALIGN_DOWN size 2048 < 2048.
Proof.
  intros H. pose proof (align_down_spec size 2048 ltac:(lia)).
  assert (2048 <= ALIGN_DOWN size 2048); [|lia]. unfold align_down in *.
  pose proof (Z.div_le_lower_bound size 2048 1 ltac:(lia) ltac:(lia)). lia.
Qed.

Lemma step_at_spec buf off size :
  Forall is_byte buf -> 0 <= off -> 0 <= size -> off + size = Z.of_nat (length buf) ->
  match step_at buf off size with
  | Stop => True
  | Gap off' size' => 0 <= off' /\ 0 <= size' < size /\ off' + size' = Z.of_nat (length buf)
  | Rec e => valid_at buf off e /\ Z.of_nat (length e) <= size
  end.
Proof.
  intros Hb Ho Hs Hl. unfold step_at. case_if; [done|].
  destruct (buf !! Z.to_nat off) as [len|] eqn:E; [|done]. case_if.
  - case_if; [done|]. destruct (align_down_cases size) as [? ?]; [done|]. case_if; lia.
  - destruct ((size <? len) || (len <? 33)) eqn:E2; bool_hyps; [done|].
    destruct (valid_entry buf off len) as (e & Hv & Hel); [done|done| |lia|lia|].
    + unfold peek. rewrite (proj2 (Z.ltb_ge _ _)) by lia. by apply rd_lookup.
    + assert (take (Z.to_nat len) (drop (Z.to_nat off) buf) = e) as ->; [|split; [done|lia]].
      destruct Hv as (He & _ & _). unfold entry_at, peek in He. rewrite (proj2 (Z.ltb_ge _ _)) in He by lia.
      rewrite (rd_lookup _ _ _ E) in He. cbn [rbind] in He. unfold struct_at in He.
      rewrite !(proj2 (Z.leb_le _ _)) in He by lia. cbn [andb] in He. by injection He.
Qed.

Lemma find_body_step filename buf off size :
  0 <= off -> 0 <= size -> off + size = Z.of_nat (length buf) ->
  find_body read ci skip filename buf (off, size) =
  match step_at buf off size with
  | Stop => Ok (inr None)
  | Gap off' size' => Ok (inl (off', size'))
  | Rec e =>
      if is_dot_record e then Ok (inl (off + Z.of_nat (length e), size - Z.of_nat (length e)))
      else
        let! found := names_entry read ci skip filename e in
        if found : bool then Ok (inr (Some off))
        else Ok (inl (off + Z.of_nat (length e), size - Z.of_nat (length e)))
  end.
Proof.
  intros Ho Hs Hl. unfold find_body, step_at, ISO9660_SECTOR_SIZE, sizeof_entry. case_if; [done|].
  destruct (lookup_lt_is_Some_2 buf (Z.to_nat off)) as [len E]; [lia|]. rewrite E.
  assert (peek buf off = Ok len) as Hp.
  { unfold peek. rewrite (proj2 (Z.ltb_ge _ _)) by lia. by apply rd_lookup. }
  rewrite Hp. cbn [rbind]. destruct (len =? 0) eqn:E0.
  - destruct (size <=? 2048) eqn:E1; [done|]. bool_hyps.
    destruct (size =? ALIGN_DOWN size 2048) eqn:E2; bool_hyps; [|done]. rewrite <- E2.
    by rewrite (proj2 (Z.leb_gt _ _)) by lia.
  - destruct (size <? len) eqn:E1; [done|]. destruct (len <? 33) eqn:E2; [done|]. cbn [orb]. bool_hyps.
    unfold entry_at. rewrite Hp. cbn [rbind]. unfold struct_at. rewrite !(proj2 (Z.leb_le _ _)) by lia. cbn [andb rbind].
    set (e := take _ _). assert (Z.of_nat (length e) = len) as -> by (unfold e; rewrite length_take, length_drop; lia).
    done.
Qed.

Lemma walk_valid n buf : forall off size,
  Forall is_byte buf -> 0 <= off -> 0 <= size -> off + size = Z.of_nat (length buf) ->
  Forall (fun '(o, e) => valid_at buf o e) (walk n buf off size).
Proof.
  induction n as [|n IH]; intros off size Hb Ho Hs Hl; cbn [walk]; [constructor|].
  pose proof (step_at_spec buf off size Hb Ho Hs Hl) as Hst. destruct (step_at buf off size) as [|o s|e]; [constructor| |].
  - apply IH; try done; lia.
  - destruct Hst as [Hv Hle]. constructor; [done|]. apply IH; try done; lia.
Qed.

(** Any fuel that covers what is left gives the same walk. *)
Lemma walk_fuel buf n1 : forall n2 off size,
  Forall is_byte buf -> 0 <= off -> 0 <= size -> off + size = Z.of_nat (length buf) ->
  size <= Z.of_nat n1 -> size <= Z.of_nat n2 -> walk n1 buf off size = walk n2 buf off size.
Proof.
  assert (forall n off, walk n buf off 0 = []) as Hz by (by intros [|n] off).
  induction n1 as [|n1 IH]; intros n2 off size Hb Ho Hs Hl H1 H2.
  { assert (size = 0) as -> by lia. by rewrite !Hz. }
  destruct n2 as [|n2]; [assert (size = 0) as -> by lia; by rewrite !Hz|]. cbn [walk].
  pose proof (step_at_spec buf off size Hb Ho Hs Hl) as Hst. destruct (step_at buf off size) as [|o s|e]; [done| |].
  - apply IH; try done; lia.
  - destruct Hst as [(_ & [_ _ He] & _) Hle]. f_equal. apply IH; try done; lia.
Qed.

Lemma find_named_ok filename l :
  terminated filename -> Forall (fun '(o, e) => entry_ok e) l -> exists r, find_named filename l = Ok r.
Proof.
  intros Hf. induction 1 as [|[o e] l He Hl IH]; [by eexists|]. cbn [find_named].
  destruct (is_dot_record e); [done|]. destruct (names_entry_ok filename e Hf He) as [b ->]. cbn [rbind].
  destruct b; [by eexists|done].
Qed.

(** The search of the code is the search through the records. *)
Lemma iso9660_find_records buf filename :
  Forall is_byte buf -> terminated filename ->
  exists r, iso9660_find read ci skip buf filename = Ok r /\ find_named filename (records buf) = Ok r.
Proof.
  intros Hb Hf. set (N := Z.of_nat (length buf)).
  assert (exists r, find_named filename (records buf) = Ok r) as [r Hr].
  { apply find_named_ok; [done|]. eapply Forall_impl; [apply walk_valid; try done; lia|].
    intros [o e] (_ & He & _). done. }
  exists r. split; [|done]. unfold iso9660_find. fold N.
  destruct (res_post_total (fun x => x = r) (loop (find_body read ci skip filename buf) (fun '(_, size) => size) (0, N)))
    as (x & -> & ->); [|done].
  apply (loop_spec _ (fun '(off, size) => 0 <= off /\ 0 <= size /\ off + size = N /\
    find_named filename (walk (Z.to_nat size) buf off size) = Ok r)).
  - intros [off size] (Ho & Hs & Hl & Hw). unfold turn_ok. rewrite find_body_step by done.
    pose proof (step_at_spec buf off size Hb Ho Hs Hl) as Hst.
    destruct (Z.to_nat size) as [|m] eqn:Em.
    { assert (size = 0) as -> by lia. cbn in *. congruence. }
    cbn [walk] in Hw. destruct (step_at buf off size) as [|o s|e].
    + cbn in *. congruence.
    + destruct Hst as (? & ? & ?). cbn. split; [|lia]. split_and!; [done|lia|done|].
      rewrite <- Hw. f_equal. apply walk_fuel; try done; lia.
    + destruct Hst as [Hv Hle]. pose proof Hv as (_ & He & _). pose proof (en_size _ He).
      assert (0 <= off + Z.of_nat (length e) /\ 0 <= size - Z.of_nat (length e) < size /\
        off + Z.of_nat (length e) + (size - Z.of_nat (length e)) = N) as (? & ? & ?) by lia.
      assert (walk m buf (off + Z.of_nat (length e)) (size - Z.of_nat (length e)) =
        walk (Z.to_nat (size - Z.of_nat (length e))) buf (off + Z.of_nat (length e)) (size - Z.of_nat (length e))) as Hfuel
        by (apply walk_fuel; try done; lia).
      cbn [find_named] in Hw. rewrite Hfuel in Hw. destruct (is_dot_record e).
      * cbn. split; [|lia]. split_and!; try done; lia.
      * destruct (names_entry_ok filename e Hf He) as [b Hn]. rewrite Hn in *. cbn [rbind] in *.
        destruct b; cbn; [congruence|]. split; [|lia]. split_and!; try done; lia.
  - unfold records in Hr. unfold N. rewrite Nat2Z.id. split_and!; try done; lia.
  - lia.
Qed.

(** What the search returns. *)
Lemma find_named_spec filename l r :
  find_named filename l = Ok r ->
  match r with
  | None => Forall (fun '(o, e) => is_dot_record e = true \/ names_entry read ci skip filename e = Ok false) l
  | Some off => exists pre e post, l = pre ++ (off, e) :: post /\
      Forall (fun '(o, e) => is_dot_record e = true \/ names_entry read ci skip filename e = Ok false) pre /\
      is_dot_record e = false /\ names_entry read ci skip filename e = Ok true
  end.
Proof.
  induction l as [|[o e] l IH]; cbn [find_named]; [intros [= <-]; constructor|].
  assert (is_dot_record e = true \/ names_entry read ci skip filename e = Ok false ->
    find_named filename l = Ok r -> match r with
    | None => Forall (fun '(o, e) => is_dot_record e = true \/ names_entry read ci skip filename e = Ok false) ((o, e) :: l)
    | Some off => exists pre e' post, (o, e) :: l = pre ++ (off, e') :: post /\
      Forall (fun '(o, e) => is_dot_record e = true \/ names_entry read ci skip filename e = Ok false) pre /\
      is_dot_record e' = false /\ names_entry read ci skip filename e' = Ok true end) as Hskip.
  { intros Hor Hr. specialize (IH Hr). destruct r as [off|]; [|by constructor].
    destruct IH as (pre & e' & post & -> & Hpre & Hrest). exists ((o, e) :: pre), e', post.
    split; [done|]. split; [by constructor|done]. }
  destruct (is_dot_record e) eqn:Ed; [apply Hskip; by left|].
  destruct (names_entry read ci skip filename e) as [b| | |] eqn:En; cbn [rbind]; try done.
  destruct b; [|apply Hskip; by right]. intros [= <-]. exists [], e, l. split_and!; [done|constructor|done|done].
Qed.
End Find.

(** ** Directories as a writer lays them out

    Records do not cross sectors; the rest of a sector is zero. *)
Definition pad_of (rs : list (list Z)) : nat := (2048 - length (concat rs))%nat.
Definition sector_of (rs : list (list Z)) : list Z := concat rs ++ replicate (pad_of rs) 0.
Definition sector_ok (rs : list (list Z)) : Prop := Forall entry_ok rs /\ (length (concat rs) <= 2048)%nat.
Definition lay_out (secs : list (list (list Z))) : list Z := concat (map sector_of secs).

Lemma length_sector rs : sector_ok rs -> length (sector_of rs) = 2048%nat.
Proof. intros [_ H]. unfold sector_of, pad_of. rewrite length_app, length_replicate. lia. Qed.

Lemma length_lay_out secs : Forall sector_ok secs -> length (lay_out secs) = (2048 * length secs)%nat.
Proof.
  induction 1 as [|rs secs Hrs Hsecs IH]; [done|]. unfold lay_out in *. cbn [map concat length].
  rewrite length_app, length_sector by done. lia.
Qed.

Lemma lay_out_bytes secs : Forall sector_ok secs -> Forall is_byte (lay_out secs).
Proof.
  induction 1 as [|rs secs [Hrs _] Hsecs IH]; [constructor|]. unfold lay_out in *. cbn [map concat].
  apply Forall_app. split; [|done]. apply Forall_app. split; [|apply Forall_replicate; unfold is_byte; lia].
  clear -Hrs. induction Hrs as [|e rs [He _ _] Hrs IH]; [constructor|]. cbn. apply Forall_app. by split.
Qed.

Lemma entry_head e : entry_ok e -> exists t, e = Z.of_nat (length e) :: t.
Proof.
  intros [Hb Hl Hs]. destruct e as [|c e]; [cbn in Hs; lia|]. exists e. f_equal.
  unfold e_len, field in Hl. rewrite drop_0 in Hl. cbn [firstn le_val] in Hl. change (take 0 e) with (@nil Z) in Hl. cbn [le_val] in Hl. lia.
Qed.

Lemma step_record done e rest size :
  entry_ok e -> Z.of_nat (length e) <= size ->
  step_at (done ++ e ++ rest) (Z.of_nat (length done)) size = Rec e.
Proof.
  intros He Hs. pose proof (en_size _ He). destruct (entry_head e He) as [t Ht]. unfold step_at.
  rewrite (proj2 (Z.eqb_neq _ _)), Nat2Z.id by lia.
  assert ((done ++ e ++ rest) !! length done = Some (Z.of_nat (length e))) as ->.
  { rewrite Ht at 1. cbn [app]. by apply list_lookup_middle. }
  rewrite (proj2 (Z.eqb_neq _ _)), (proj2 (Z.ltb_ge _ _)), (proj2 (Z.ltb_ge (Z.of_nat (length e)) 33)) by lia.
  cbn [orb]. by rewrite Nat2Z.id, drop_app_length, take_app_length.
Qed.

Lemma step_padding done k rest m :
  (0 < k <= 2048)%nat -> Z.of_nat (length rest) = 2048 * m -> 0 <= m ->
  step_at (done ++ replicate k 0 ++ rest) (Z.of_nat (length done)) (Z.of_nat k + 2048 * m) =
  if m =? 0 then Stop else Gap (Z.of_nat (length (done ++ replicate k 0))) (2048 * m).
Proof.
  intros Hk Hr Hm. unfold step_at. rewrite (proj2 (Z.eqb_neq _ _)), Nat2Z.id by lia.
  destruct k as [|k]; [lia|]. cbn [replicate app].
  rewrite (list_lookup_middle done _ 0 (length done) eq_refl). change (0 =? 0) with true. cbn iota.
  destruct (m =? 0) eqn:E; bool_hyps; [by rewrite (proj2 (Z.leb_le _ _)) by lia|].
  rewrite (proj2 (Z.leb_gt _ _)) by lia. rewrite length_app. cbn [length]. rewrite length_replicate.
  destruct (decide (S k = 2048)%nat) as [->|Hne].
  - replace (ALIGN_DOWN (Z.of_nat 2048 + 2048 * m) 2048) with (Z.of_nat 2048 + 2048 * m)
      by (unfold align_down; replace (Z.of_nat 2048 + 2048 * m) with ((m + 1) * 2048) by lia; by rewrite Z.div_mul).
    rewrite Z.eqb_refl. f_equal; lia.
  - assert (ALIGN_DOWN (Z.of_nat (S k) + 2048 * m) 2048 = 2048 * m) as ->.
    { unfold align_down. rewrite Z.mul_comm. f_equal. symmetry. apply Z.div_unique with (Z.of_nat (S k)); lia. }
    rewrite (proj2 (Z.eqb_neq _ _)) by lia. f_equal; lia.
Qed.

Lemma walk_lay_out secs : Forall sector_ok secs -> forall rs done k n,
  Forall entry_ok rs -> (k <= 2048)%nat ->
  (length (concat rs) + k + 2048 * length secs <= n)%nat ->
  map snd (walk n (done ++ concat rs ++ replicate k 0 ++ lay_out secs) (Z.of_nat (length done))
             (Z.of_nat (length (concat rs)) + Z.of_nat k + 2048 * Z.of_nat (length secs)))
  = rs ++ concat secs.
Proof.
  intros Hsecs. induction Hsecs as [|s secs Hs Hsecs IHs]; intros rs done k n Hrs Hk.
  all: revert done n; induction Hrs as [|e rs He Hrs IHr]; intros done n Hn; cbn [concat length] in *.
  2, 4: pose proof (en_size _ He); rewrite length_app in *; destruct n as [|n]; [lia|];
    cbn [walk]; rewrite <- (app_assoc e), step_record by (done || lia);
    cbn [map snd app]; f_equal; specialize (IHr (done ++ e) n ltac:(cbn [length] in *; lia));
    rewrite <- app_assoc, length_app in IHr; cbn [length] in *; rewrite <- IHr; do 2 f_equal; lia.
  - cbn [app]. destruct k as [|k]; [by destruct n|]. destruct n as [|n]; [lia|]. cbn [walk].
    replace (Z.of_nat 0 + Z.of_nat (S k) + 2048 * Z.of_nat 0) with (Z.of_nat (S k) + 2048 * 0) by lia.
    by rewrite step_padding by (done || lia).
  - cbn [app]. pose proof Hs as [Hse Hsl].
    assert (lay_out (s :: secs) = concat s ++ replicate (pad_of s) 0 ++ lay_out secs) as Hlay
      by (unfold lay_out, sector_of; cbn [map concat]; by rewrite app_assoc).
    assert (length (concat s) + pad_of s = 2048)%nat as Hp by (unfold pad_of; lia).
    destruct k as [|k].
    + cbn [replicate app]. rewrite Hlay.
      replace (Z.of_nat 0 + Z.of_nat 0 + 2048 * Z.of_nat (S (length secs)))
        with (Z.of_nat (length (concat s)) + Z.of_nat (pad_of s) + 2048 * Z.of_nat (length secs)) by lia.
      apply IHs; [done|unfold pad_of; lia|lia].
    + destruct n as [|n]; [lia|]. cbn [walk].
      replace (Z.of_nat 0 + Z.of_nat (S k) + 2048 * Z.of_nat (S (length secs)))
        with (Z.of_nat (S k) + 2048 * Z.of_nat (S (length secs))) by lia.
      rewrite step_padding; [|lia|rewrite length_lay_out by (by constructor); cbn [length]; lia|lia].
      rewrite (proj2 (Z.eqb_neq _ _)) by lia. rewrite Hlay.
      specialize (IHs s (done ++ replicate (S k) 0) (pad_of s) n Hse ltac:(unfold pad_of; lia) ltac:(lia)).
      rewrite <- app_assoc in IHs. rewrite <- IHs. do 2 f_equal. lia.
Qed.

(** The records of a directory laid out that way are the records put in it. *)
Lemma records_lay_out secs : Forall sector_ok secs -> map snd (records (lay_out secs)) = concat secs.
Proof.
  intros Hs. unfold records. pose proof (length_lay_out secs Hs) as Hl.
  pose proof (walk_lay_out secs Hs [] [] 0 (length (lay_out secs)) ltac:(constructor) ltac:(lia)) as H.
  cbn [concat app replicate length] in H. rewrite <- H by lia. do 2 f_equal. lia.
Qed.

(** * Opening and reading files of an ISO 9660 volume *)
Section Open.
Variable read : Z -> Z -> option (list Z).
Context `{!ByteReader read}.
Variable skip : Z.

(** ** Following records *)
Lemma sector_after_ok buf off :
  Forall is_byte buf -> 0 <= off ->
  exists o, sector_after buf off = Ok o /\
  (forall next, o = Some next -> off < next < Z.of_nat (length buf) /\ exists len, peek buf next = Ok len /\ len <> 0 /\ is_byte len).
Proof.
  intros Hb Ho. unfold sector_after, ISO9660_SECTOR_SIZE. set (next := (off / 2048 + 1) * 2048).
  assert (off < next) by (unfold next; pose proof (Z.div_mod off 2048); pose proof (Z.mod_pos_bound off 2048); lia).
  case_if; [by exists None|]. destruct (peek_ok buf next) as (len & E & Hl); [done|lia|]. rewrite E. cbn [rbind].
  case_if; [by exists None|]. exists (Some next). split; [done|]. intros n [= <-]. split; [lia|]. by exists len.
Qed.

Lemma next_entry_ok buf cur e :
  Forall is_byte buf -> valid_at buf cur e ->
  exists o, iso9660_next_entry buf cur = Ok o /\
  (forall next, o = Some next -> cur < next /\ exists e', valid_at buf next e').
Proof.
  intros Hb Hv. destruct (valid_len buf cur e Hv) as [Hp Hend]. pose proof Hv as (_ & [_ _ Hs] & Ho).
  assert (exists o : option Z, Ok None = Ok o /\ (forall next, o = Some next -> cur < next /\ exists e', valid_at buf next e'))
    as Hnone by (by exists None).
  unfold iso9660_next_entry. rewrite Hp. cbn [rbind]. rewrite (proj2 (Z.eqb_neq _ _)) by lia.
  case_if; [done|]. destruct (peek_ok buf (cur + Z.of_nat (length e))) as (len & E & Hl); [done|lia|]. rewrite E. cbn [rbind].
  assert (exists o, (if len =? 0 then sector_after buf (cur + Z.of_nat (length e)) else Ok (Some (cur + Z.of_nat (length e)))) = Ok o /\
    (forall next, o = Some next -> cur < next < Z.of_nat (length buf))) as (o & -> & Hnx).
  { case_if.
    - destruct (sector_after_ok buf (cur + Z.of_nat (length e))) as (o & -> & Hso); [done|lia|].
      exists o. split; [done|]. intros next Hn. destruct (Hso next Hn). lia.
    - eexists. split; [done|]. intros next [= <-]. lia. }
  cbn [rbind]. destruct o as [next|]; [|done]. destruct (Hnx next eq_refl) as [H1 H2].
  destruct (peek_ok buf next) as (n & En & _); [done|lia|]. rewrite En. cbn [rbind]. unfold sizeof_entry.
  case_if; [done|]. case_if; [done|]. exists (Some next). split; [done|]. intros x [= <-]. split; [done|].
  destruct (valid_entry buf next n) as (e' & He' & _); [done|lia|done|lia|lia|]. by exists e'.
Qed.

(** ** The records of a file

    [sections base off es last]: the records [es] that make up a file, from
    the one at [off] to the one at [last]; all but the last carry the flag and
    each is followed by a record of the same name. *)
Definition multi (e : list Z) : bool := negb (Z.land (e_flags e) ISO9660_FLAG_MULTI_EXTENT =? 0).

Inductive sections (buf base : list Z) : Z -> list (list Z) -> Z -> Prop :=
| SecLast off e : valid_at buf off e -> sections buf base off [e] off
| SecNext off e next es last e' rr :
    valid_at buf off e -> multi e = true -> iso9660_next_entry buf off = Ok (Some next) ->
    entry_at buf next = Ok e' -> (exists name, load_name read 256 e' skip = Ok (rr, name) /\ strcmp base name = Ok 0) ->
    sections buf base next es last -> sections buf base off (e :: es) last.

Definition total (es : list (list Z)) : Z := foldr (fun e t => e_extent_size e + t) 0 es.
Definition gaps (es : list (list Z)) : Z := foldr (fun e t => Z.lor (Z.lor (e_unit e) (e_gap e)) t) 0 es.

Lemma extent_size_range e : Forall is_byte e -> 0 <= e_extent_size e < 2 ^ 32.
Proof. intros H. apply (field_range e 10 4 H). Qed.

Lemma valid_at_inj buf off e e' : valid_at buf off e -> entry_at buf off = Ok e' -> e' = e.
Proof. intros (He & _ & _) E. congruence. Qed.

(** What the first pass returns: the records from [off] on, whose first is [e]. *)
Definition counted (buf base : list Z) (n : nat) (off : Z) (e : list Z) (k t il : Z)
    (r : res (Z * Z * Z * Z)) : Prop :=
  exists last rest, sections buf base off (e :: rest) last /\ (length rest <= n)%nat /\
  r = Ok (last, k + Z.of_nat (length rest), t + total rest, Z.lor il (gaps rest)).

Lemma counted_stop buf base n off e k t il :
  valid_at buf off e -> counted buf base n off e k t il (Ok (off, k, t, il)).
Proof.
  intros Hv. exists off, []. split; [by constructor|]. split; [cbn; lia|].
  cbn. rewrite Z.lor_0_r, !Z.add_0_r. done.
Qed.

Lemma count_extents_spec buf base n : forall off e k t il,
  Forall is_byte buf -> terminated base -> valid_at buf off e -> 0 <= t -> t + 2 ^ 32 * Z.of_nat n < 2 ^ 64 ->
  counted buf base n off e k t il (count_extents read skip n buf base off k t il).
Proof.
  induction n as [|n IH]; intros off e k t il Hb Hbase Hv Ht Hmax; cbn [count_extents]; [by apply counted_stop|].
  pose proof (counted_stop buf base (S n) off e k t il Hv) as Hstop.
  pose proof Hv as (He & Hok & Ho). rewrite He. cbn [rbind].
  destruct (Z.land (e_flags e) ISO9660_FLAG_MULTI_EXTENT =? 0) eqn:Em; [done|].
  destruct (next_entry_ok buf off e Hb Hv) as (o & Hnx & Hnext). rewrite Hnx. cbn [rbind].
  destruct o as [next|]; [|done]. destruct (Hnext next eq_refl) as (_ & e' & Hv').
  pose proof Hv' as (He' & Hok' & _). rewrite He'. cbn [rbind].
  destruct (load_name_ok read e' skip Hok') as (rr & name & Hname & Hterm). rewrite Hname. cbn [rbind].
  assert (exists c, peek base 0 = Ok c) as [c ->].
  { unfold peek, terminated in *. destruct base; [done|]. by eexists. }
  cbn [rbind]. destruct (c =? 0); cbn [rbind]; [done|].
  destruct (str_cmp_total (fun c => c) base name) as [r Hr]; [done..|]. unfold strcmp. rewrite Hr. cbn [rbind].
  destruct (r =? 0) eqn:E0; cbn [negb]; [|done]. bool_hyps. subst r.
  pose proof (extent_size_range e' (en_bytes _ Hok')) as Hsz. rewrite wrap_small by lia.
  destruct (IH next e' (k + 1) (t + e_extent_size e') (Z.lor il (Z.lor (e_unit e') (e_gap e')))) as
    (last & rest & Hsec & Hlen & ->); [done|done|done|lia|lia|].
  exists last, (e' :: rest). split.
  - eapply SecNext; try done; [unfold multi; by apply negb_true_iff, Z.eqb_neq|by exists name].
  - split; [cbn in *; lia|]. cbn [length total gaps foldr].
    fold (total rest) (gaps rest). rewrite Z.add_assoc.
    replace (k + 1 + Z.of_nat (length rest)) with (k + Z.of_nat (S (length rest))) by lia. by rewrite !Z.lor_assoc.
Qed.

Lemma sections_valid buf base off es last : sections buf base off es last -> exists e, valid_at buf last e /\ List.last es [] = e.
Proof.
  induction 1 as [off e Hv|off e next es last e' rr Hv Hm Hn He Hname Hs (x & Hx & Hl)]; [by exists e|].
  exists x. split; [done|]. inversion Hs; subst; done.
Qed.

(** The second pass meets the same records. *)
Lemma fill_extents_sections buf base off es last :
  sections buf base off es last -> fill_extents (length es) buf off = Ok (map extent_of es).
Proof.
  induction 1 as [off e Hv|off e next es last e' rr Hv Hm Hn He Hname Hs IH].
  - cbn. pose proof Hv as (-> & _). done.
  - cbn [length fill_extents map]. pose proof Hv as (-> & _). cbn [rbind].
    assert (exists m, length es = S m) as [m Hlen] by (inversion Hs; by eexists).
    rewrite Hlen in *. rewrite Hn. cbn [rbind]. rewrite IH. done.
Qed.

(** A file as it is opened: its records, the extents they name and their total. *)
Definition file_at (buf : list Z) (off : Z) (f : iso_file) : Prop :=
  exists e base rr es last, entry_at buf off = Ok e /\ load_name read 256 e skip = Ok (rr, base) /\
  sections buf base off (e :: es) last /\ multi (List.last (e :: es) []) = false /\
  gaps (e :: es) = 0 /\ Z.of_nat (length es) < 65536 /\ f = MkIsoFile (total (e :: es)) (map extent_of (e :: es)).

Lemma lor_zero a b : 0 <= a -> 0 <= b -> Z.lor a b = 0 <-> a = 0 /\ b = 0.
Proof. intros. apply Z.lor_eq_0_iff. Qed.

Lemma open_entry_ok buf off e :
  Forall is_byte buf -> valid_at buf off e ->
  exists o, open_entry read skip buf off = Ok o /\ (forall f, o = Some f -> file_at buf off f).
Proof.
  intros Hb Hv. pose proof Hv as (He & Hok & _). unfold open_entry. rewrite He. cbn [rbind].
  destruct (load_name_ok read e skip Hok) as (rr & base & Hname & Hterm). rewrite Hname. cbn [rbind].
  pose proof (extent_size_range e (en_bytes _ Hok)) as Hsz.
  destruct (count_extents_spec buf base (ISO9660_MAX_EXTENT_COUNT - 1) off e 1 (e_extent_size e)
    (Z.lor (e_unit e) (e_gap e))) as (last & es & Hsec & Hlen & ->); [done|done|done|lia|unfold ISO9660_MAX_EXTENT_COUNT; lia|].
  cbn [rbind]. destruct (sections_valid _ _ _ _ _ Hsec) as (el & Hvl & Hl). pose proof Hvl as (-> & _). cbn [rbind].
  rewrite <- Hl. fold (multi (List.last (e :: es) [])).
  case_if; [by exists None|].
  replace (Z.to_nat (1 + Z.of_nat (length es))) with (length (e :: es)) by (cbn; lia).
  rewrite (fill_extents_sections _ _ _ _ _ Hsec). cbn [rbind]. eexists. split; [done|].
  intros f [= <-]. exists e, base, rr, es, last. cbn [gaps total foldr]. fold (gaps es) (total es).
  split_and!; try done. unfold ISO9660_MAX_EXTENT_COUNT in Hlen. lia.
Qed.

(** ** Following a path *)
Variable ci : bool.

Definition too_long : string := "iso9660: Path component exceeds maximum length".

(** The file that the components of a path name, from a directory on; empty
    components are skipped, but nothing is named by a path that ends in one. *)
Fixpoint resolve (dir : list Z) (comps : list (list Z)) : res (option iso_file) :=
  match comps with
  | [] => Ok None
  | name :: rest =>
      match name with
      | [] => match rest with [] => Ok None | _ :: _ => resolve dir rest end
      | _ :: _ =>
          if (254 <? length name)%nat then Panic too_long
          else
            let! o := find_named read ci skip (name ++ [0]) (records dir) in
            match o with
            | None => Ok None
            | Some off =>
                let! e := entry_at dir off in
                match rest with
                | [] => open_entry read skip dir off
                | _ :: _ =>
                    if Z.land (e_flags e) ISO9660_FLAG_DIRECTORY =? 0 then Ok None
                    else if bad_dir_size (e_extent_size e) then Ok None
                    else
                      match read (u32 (e_extent e + e_extended_attribute_length e) * ISO9660_SECTOR_SIZE) (e_extent_size e) with
                      | None => Ok None
                      | Some dir => resolve dir rest
                      end
                end
            end
      end
  end.

Lemma resolve_slash dir s : resolve dir (parts (47 :: s)) = resolve dir (parts s).
Proof. cbn [parts]. change (47 =? 47) with true. cbn iota. cbn [resolve]. by destruct (parts_nonempty s) as (p & ps & ->). Qed.

Lemma skip_slashes_parts u junk :
  Forall (fun c => c <> 0) u ->
  exists k v, u = replicate k 47 ++ v /\ skip_slashes (u ++ 0 :: junk) = Ok (v ++ 0 :: junk) /\ head v <> Some 47 /\
  forall dir, resolve dir (parts u) = resolve dir (parts v).
Proof.
  induction 1 as [|c u Hc Hu (k & v & -> & E & Hv & Hres)]; [exists 0%nat, []; by split_and!|].
  destruct (Z.eqb_spec c 47) as [->|Hne].
  - exists (S k), v. split_and!; [done| |done|].
    + cbn [app skip_slashes]. exact E.
    + intros dir. by rewrite resolve_slash.
  - exists 0%nat, (c :: replicate k 47 ++ v). split_and!; [done| |cbn; congruence|done].
    cbn [app skip_slashes]. by rewrite (proj2 (Z.eqb_neq c 47)).
Qed.

Lemma path_component_spec room name d t :
  (d = 0 \/ d = 47) -> Forall (fun c => c <> 0 /\ c <> 47) name ->
  path_component room (name ++ d :: t) = if (room <? length name)%nat then Panic too_long else Ok (name, d :: t).
Proof.
  intros Hd Hn. revert room. induction Hn as [|c name [Hc0 Hc1] Hn IH]; intros room.
  - destruct Hd as [-> | ->]; by destruct room.
  - destruct room as [|room]; cbn [app path_component length];
      rewrite (proj2 (Z.eqb_neq c 47)), (proj2 (Z.eqb_neq c 0)) by done; cbn [orb]; [done|]. rewrite IH.
    change (S room <? S (length name))%nat with (room <? length name)%nat. by destruct (room <? length name)%nat.
Qed.

Lemma find_dir dir name :
  Forall is_byte dir -> exists o, iso9660_find read ci skip dir (name ++ [0]) = Ok o /\
  find_named read ci skip (name ++ [0]) (records dir) = Ok o /\
  (forall off, o = Some off -> exists e, valid_at dir off e).
Proof.
  intros Hb. destruct (iso9660_find_records read ci skip dir (name ++ [0]) Hb) as (o & Ho & Hn);
    [apply in_app_iff; right; by left|].
  exists o. split; [done|]. split; [done|]. intros off ->.
  apply (find_named_spec read ci skip) in Hn as (pre & e & post & Hl & _). exists e.
  assert (Forall (fun '(o, e) => valid_at dir o e) (records dir)) as Hv by (apply walk_valid; try done; lia).
  rewrite Hl in Hv. apply Forall_app in Hv as [_ Hv]. by apply Forall_cons in Hv as [Hv _].
Qed.

(** One turn of the loop of [iso9660_open]. *)
Lemma iso_open_turn u junk dir :
  Forall (fun c => c <> 0) u -> Forall is_byte dir ->
  (exists msg, open_body read ci skip (u ++ 0 :: junk, dir) = Panic msg /\ resolve dir (parts u) = Panic msg) \/
  (exists r, open_body read ci skip (u ++ 0 :: junk, dir) = Ok (inr r) /\ resolve dir (parts u) = Ok r) \/
  (exists u' dir', open_body read ci skip (u ++ 0 :: junk, dir) = Ok (inl (u' ++ 0 :: junk, dir')) /\
     (length u' < length u)%nat /\ Forall (fun c => c <> 0) u' /\ Forall is_byte dir' /\
     resolve dir (parts u) = resolve dir' (parts u')).
Proof.
  intros Hu Hb. unfold open_body.
  destruct (skip_slashes_parts u junk Hu) as (k & v & -> & -> & Hv & Hres). rewrite Hres. cbn [rbind].
  apply Forall_app in Hu as [_ Hu]. destruct (parts_cases v) as (name & Hname & Hcase).
  destruct v as [|c0 v0]; [right; left; by exists None|].
  assert (peek ((c0 :: v0) ++ 0 :: junk) 0 = Ok c0) as -> by done. cbn [rbind].
  rewrite (proj2 (Z.eqb_neq c0 0)) by (by inversion Hu). remember (c0 :: v0) as v eqn:Ev.
  assert (v <> []) as Hvne by (by rewrite Ev). clear Ev.
  assert (exists d t rest, v ++ 0 :: junk = name ++ d :: t /\ parts v = name :: rest /\
    Forall (fun c => c <> 0 /\ c <> 47) name /\ name <> [] /\
    ((d = 0 /\ rest = []) \/ (d = 47 /\ exists s', v = name ++ 47 :: s' /\ t = s' ++ 0 :: junk /\ rest = parts s')))
    as (d & t & rest & Ht & Hp & Hn & Hne & Hd).
  { destruct Hcase as [[Hvn E]|(s' & Hvs & E)].
    - rewrite <- Hvn in *. exists 0, junk, []. split_and!; try done; [by apply Forall_and|by left].
    - exists 47, (s' ++ 0 :: junk), (parts s'). rewrite Hvs, <- app_assoc in *. apply Forall_app in Hu as [Hu _].
      split_and!; try done; [by apply Forall_and| |right; split; [done|by exists s']].
      intros ->. by destruct Hv. }
  rewrite Ht, Hp. change (Z.to_nat (ROCK_RIDGE_MAX_FILENAME - 1)) with 254%nat.
  rewrite path_component_spec by (done || (destruct Hd as [[-> _]|[-> _]]; auto)).
  destruct name as [|n0 name0]; [done|]. set (name := n0 :: name0) in *. cbn [resolve]. fold name.
  destruct (254 <? length name)%nat; [left; by exists too_long|]. cbn [rbind].
  destruct (find_dir dir name Hb) as (o & -> & -> & Ho). cbn [rbind].
  destruct o as [off|]; [|right; left; by exists None]. destruct (Ho off eq_refl) as (e & Hve).
  pose proof Hve as (-> & Hok & _). cbn [rbind]. change (peek (d :: t) 0) with (Ok d). cbn [rbind].
  destruct Hd as [[-> ->]|(-> & s' & Hvs & -> & ->)].
  - change (0 =? 0) with true. cbn [negb andb]. right. left.
    destruct (open_entry_ok dir off e Hb Hve) as (r & -> & _). by exists r.
  - change (47 =? 0) with false. cbn [negb andb]. destruct (parts_nonempty s') as (p & ps & Eps).
    rewrite Eps. case_if; [right; left; by exists None|]. case_if; [right; left; by exists None|].
    destruct (read _ (e_extent_size e)) as [dir'|] eqn:Er; [|right; left; by exists None].
    right. right. exists s', dir'. split; [done|]. rewrite Hvs in Hu. apply Forall_app in Hu as [_ Hu].
    apply Forall_cons in Hu as [_ Hu]. rewrite Hvs, !length_app. cbn [length].
    split_and!; [lia|done|by eapply read_bytes|by rewrite Eps].
Qed.

(** The loop computes the resolution of the path. *)
Lemma iso_open_loop u junk dir :
  Forall (fun c => c <> 0) u -> Forall is_byte dir ->
  res_post (fun r => resolve dir (parts u) = Ok r) (fun msg => resolve dir (parts u) = Panic msg)
    (loop (open_body read ci skip) (fun '(path, _) => Z.of_nat (length path)) (u ++ 0 :: junk, dir)).
Proof.
  intros Hu Hb.
  apply (loop_spec _ (fun '(path, d) => exists w, path = w ++ 0 :: junk /\ Forall (fun c => c <> 0) w /\
    Forall is_byte d /\ resolve dir (parts u) = resolve d (parts w))); [|by exists u|lia].
  intros [path d] (w & -> & Hw & Hd & Heq). unfold turn_ok.
  destruct (iso_open_turn w junk d Hw Hd) as [(msg & -> & Hr)|[(r & -> & Hr)|(w' & d' & -> & Hlt & Hw' & Hd' & Hr)]]; cbn.
  - congruence.
  - congruence.
  - split; [|rewrite !length_app; cbn [length]; lia]. exists w'. split_and!; try done. congruence.
Qed.
End Open.
