(* ===== verification/IsoProps.v ===== *)
(** * The ISO 9660 driver: what it promises *)

From S2P Require Import Prelude CInt Libc LibcProps Volume Gpt FatChain FatDir FatOpen Iso IsoFacts IsoOpen.

Section Props.
Variable read : Z -> Z -> option (list Z).
Context `{!ByteReader read}.

(** ** The context of a volume *)
Lemma find_PVD_ok n lba : exists o, find_PVD read n lba = Ok o /\ (forall d, o = Some d -> Forall is_byte d /\ length d = 2048%nat).
Proof.
  revert lba. induction n as [|n IH]; intros lba; cbn [find_PVD]; [by exists None|].
  destruct (read _ sizeof_pv) as [d|] eqn:E; [|by exists None].
  unfold sizeof_pv in E. pose proof (read_length _ _ _ E ltac:(lia)) as Hl. pose proof (read_bytes _ _ _ E) as Hb.
  destruct (memcmp_ok (pv_identifier d) (bytes "CD001") 5) as [r ->];
    [unfold pv_identifier; rewrite length_take, length_drop; lia|cbn; lia|]. cbn [rbind].
  case_if; [by exists None|]. case_if.
  - eexists. split; [done|]. intros d'. case_if; [|done]. intros [= <-]. split; [done|lia].
  - case_if; [by exists None|]. apply IH.
Qed.

Lemma bad_dir_size_false n : 0 <= n -> bad_dir_size n = false -> 2048 <= n <= ISO9660_MAX_DIR_SIZE /\ n mod ISO9660_SECTOR_SIZE = 0.
Proof.
  unfold bad_dir_size, ISO9660_SECTOR_SIZE. intros Hn H. bool_hyps. split; [|done]. split; [|done].
  pose proof (Z.div_mod n 2048 ltac:(lia)). lia.
Qed.

Lemma new_context_ok :
  exists o, new_context read = Ok o /\ (forall c, o = Some c -> dir_ok (i_root c) /\ -1 <= i_susp_skip c < 256).
Proof.
  assert (exists o : option iso_context, Ok None = Ok o /\ (forall c, o = Some c -> dir_ok (i_root c) /\ -1 <= i_susp_skip c < 256))
    as Hnone by (by exists None).
  unfold new_context, iso9660_cache_root, iso9660_find_PVD.
  destruct (find_PVD_ok ISO9660_MAX_VOLUME_DESCRIPTORS ISO9660_FIRST_VOLUME_DESCRIPTOR) as (o & -> & Ho). cbn [rbind].
  destruct o as [pv|]; [|done]. destruct (Ho pv eq_refl) as [Hb _]. case_if; [done|]. case_if; [done|]. cbn [rbind].
  destruct (read _ _) as [root|] eqn:E; [|done].
  assert (Forall is_byte (pv_root pv)) as Hrb by (by apply Forall_drop).
  pose proof (extent_size_range (pv_root pv) Hrb) as Hsz.
  apply bad_dir_size_false in Hb1; [|lia]. pose proof (read_length _ _ _ E ltac:(lia)) as Hl.
  assert (dir_ok root) as Hd by (unfold dir_ok; rewrite Hl; split; [by eapply read_bytes|done]).
  destruct (susp_skip_ok read root Hd) as (v & -> & Hv). cbn [rbind]. eexists. split; [done|]. by intros c [= <-].
Qed.

(** Every context in the list is the one its volume would get now. *)
Definition coherent (vol : Z) (contexts : list (Z * iso_context)) : Prop :=
  forall c, find (fun node => fst node =? vol) contexts = Some (vol, c) -> new_context read = Ok (Some c).

Lemma get_context_ok contexts vol :
  coherent vol contexts ->
  exists o contexts', iso9660_get_context read contexts vol = Ok (o, contexts') /\ coherent vol contexts' /\
  new_context read = Ok o.
Proof.
  intros Hc. unfold iso9660_get_context. destruct (find _ contexts) as [[v c]|] eqn:E.
  - pose proof (find_some _ _ E) as [_ Hv]. cbn in Hv. bool_hyps. subst v.
    exists (Some c), contexts. split_and!; [done|done|]. by apply Hc.
  - destruct new_context_ok as (o & Ho & _). rewrite Ho. cbn [rbind]. destruct o as [c|].
    + eexists _, _. split_and!; [done| |done]. intros c'. cbn. rewrite Z.eqb_refl. by intros [= <-].
    + by exists None, contexts.
Qed.

(** ** Opening *)
Definition lookup_path (ci : bool) (path : list Z) : res (option iso_file) :=
  match read (ISO9660_FIRST_VOLUME_DESCRIPTOR * ISO9660_SECTOR_SIZE + 1) 5 with
  | Some b =>
      if bool_decide (b = bytes "CD001") then
        let! c := new_context read in
        match c with
        | None => Ok None
        | Some c => resolve read (i_susp_skip c) ci (i_root c) (parts path)
        end
      else Ok None
  | None => Ok None
  end.

Definition file_ok (f : iso_file) : Prop :=
  f_total_size f = foldr (fun x t => x_size x + t) 0 (f_extents f) /\ (0 < length (f_extents f))%nat /\
  Forall (fun x => 0 <= x_LBA x < 2 ^ 32 /\ 0 <= x_size x) (f_extents f) /\ f_total_size f < 2 ^ 64.

Lemma sections_entries buf base skip off es last : sections read skip buf base off es last -> Forall entry_ok es.
Proof. induction 1 as [off e (_ & He & _)|off e next es last e' rr (_ & He & _) _ _ _ _ _ IH]; by constructor. Qed.

Lemma total_sum es : total es = foldr (fun x t => x_size x + t) 0 (map extent_of es).
Proof. induction es as [|e es IH]; [done|]. unfold total in *. cbn. by rewrite IH. Qed.

Lemma total_bound es : Forall entry_ok es -> 0 <= total es <= 2 ^ 32 * Z.of_nat (length es).
Proof.
  induction 1 as [|e es [He _ _] _ IH]; [cbn; lia|]. pose proof (extent_size_range e He).
  change (total (e :: es)) with (e_extent_size e + total es). cbn [length]. lia.
Qed.

Lemma file_at_ok skip buf off f : file_at read skip buf off f -> file_ok f.
Proof.
  intros (e & base & rr & es & last & _ & _ & Hsec & _ & _ & Hlen & ->). unfold file_ok. cbn [f_extents f_total_size].
  apply sections_entries in Hsec. pose proof (total_bound _ Hsec) as Ht. cbn [length] in Ht.
  split; [apply total_sum|]. split; [cbn; lia|]. split; [|lia]. apply Forall_fmap.
  eapply Forall_impl; [exact Hsec|]. intros x [Hb _ _]. cbn. split; [by apply wrap_range|]. by apply extent_size_range.
Qed.

Lemma resolve_file_ok skip ci comps : forall dir f,
  Forall is_byte dir -> resolve read skip ci dir comps = Ok (Some f) -> file_ok f.
Proof.
  induction comps as [|name rest IH]; intros dir f Hb; cbn [resolve]; [done|].
  destruct name as [|n0 name0]; [destruct rest; [done|by apply IH]|]. set (name := n0 :: name0).
  destruct (254 <? length name)%nat; [done|].
  destruct (find_dir read skip ci dir name Hb) as (o & _ & -> & Ho). cbn [rbind]. destruct o as [off|]; [|done].
  destruct (Ho off eq_refl) as (e & He). pose proof He as (-> & _). cbn [rbind]. destruct rest as [|r rest].
  - destruct (open_entry_ok read skip dir off e Hb He) as (o & -> & Hf). intros [= ->].
    eapply file_at_ok. by apply Hf.
  - case_if; [done|]. case_if; [done|]. destruct (read _ _) as [dir'|] eqn:Er; [|done].
    intros H. apply (IH dir' f); [by eapply read_bytes|done].
Qed.

Lemma str_cmp_eq l1 l2 : Forall is_byte l1 -> length l1 = length l2 -> Forall (fun c => c <> 0) l2 ->
  exists r, strcmp (l1 ++ [0]) (l2 ++ [0]) = Ok r /\ (r = 0 <-> l1 = l2).
Proof.
  unfold strcmp. revert l2. induction l1 as [|c1 l1 IH]; intros [|c2 l2] Hb Hl Hn; try done; [by exists 0|].
  apply Forall_cons in Hb as [_ Hb], Hn as [Hc Hn]. cbn [app str_cmp]. destruct (Z.eqb_spec c1 c2) as [->|Hne]; cbn [negb].
  - rewrite (proj2 (Z.eqb_neq c2 0)) by done. destruct (IH l2 Hb ltac:(cbn in Hl; lia) Hn) as (r & -> & Hr).
    exists r. split; [done|]. rewrite Hr. split; [by intros ->|by intros [= ->]].
  - eexists. split; [done|]. split; [by case_if|by intros [= ? ?]].
Qed.

Lemma signature_test b :
  Forall is_byte b -> length b = 5%nat ->
  exists r, strcmp (b ++ [0]) (cstring "CD001") = Ok r /\ (r = 0 <-> b = bytes "CD001").
Proof. intros Hb Hl. apply str_cmp_eq; [done|done|by repeat constructor]. Qed.

Lemma iso_open_spec ci contexts vol path junk :
  coherent vol contexts -> Forall (fun c => c <> 0) path ->
  res_post (fun r => coherent vol r.2 /\ lookup_path ci path = Ok r.1 /\ (forall f, r.1 = Some f -> file_ok f))
    (fun msg => lookup_path ci path = Panic msg)
    (iso9660_open read contexts vol ci (path ++ 0 :: junk)).
Proof.
  intros Hco Hp. unfold iso9660_open, lookup_path.
  destruct (read _ 5) as [b|] eqn:Er; [|done].
  pose proof (read_length _ _ _ Er ltac:(lia)) as Hl. pose proof (read_bytes _ _ _ Er) as Hb.
  destruct (signature_test b Hb ltac:(lia)) as (r & -> & Hr). cbn [rbind].
  destruct (Z.eqb_spec r 0) as [->|Hne]; cbn [negb]; [rewrite bool_decide_true by (by apply Hr)|
    by rewrite bool_decide_false by (by intros ?%Hr)].
  destruct (get_context_ok contexts vol Hco) as (o & contexts' & -> & Hco' & Hctx). rewrite Hctx. cbn [rbind].
  destruct o as [c|]; [|done]. destruct new_context_ok as (o & Ho & Hok). rewrite Hctx in Ho. injection Ho as <-.
  destruct (Hok c eq_refl) as [(Hrb & _) _].
  destruct (skip_slashes_parts read (i_susp_skip c) ci path junk Hp) as (k & v & -> & -> & _ & Hres). rewrite Hres. cbn [rbind].
  apply Forall_app in Hp as [_ Hv].
  eapply res_post_bind; [eapply res_post_mono; [apply (iso_open_loop read (i_susp_skip c) ci v junk (i_root c) Hv Hrb)|
    intros f Hf; exact Hf|done]|].
  intros f Hf. cbn. split_and!; [done|done|]. intros f' ->. by eapply resolve_file_ok.
Qed.

(** The only panic of the driver on the way to a file. *)
Lemma resolve_panics skip ci comps : forall dir msg,
  Forall is_byte dir -> resolve read skip ci dir comps = Panic msg ->
  msg = too_long /\ Exists (fun name => (254 < length name)%nat) comps.
Proof.
  induction comps as [|name rest IH]; intros dir msg Hb; cbn [resolve]; [done|].
  destruct name as [|n0 name0].
  { destruct rest; [done|]. intros H. apply IH in H as [-> H]; [|done]. split; [done|]. by apply Exists_cons_tl. }
  set (name := n0 :: name0). destruct (254 <? length name)%nat eqn:E; bool_hyps.
  { intros [= <-]. split; [done|]. by apply Exists_cons_hd. }
  destruct (find_dir read skip ci dir name Hb) as (o & _ & -> & Ho). cbn [rbind]. destruct o as [off|]; [|done].
  destruct (Ho off eq_refl) as (e & He). pose proof He as (-> & _). cbn [rbind]. destruct rest as [|r rest].
  - by destruct (open_entry_ok read skip dir off e Hb He) as (o & -> & Hf).
  - case_if; [done|]. case_if; [done|]. destruct (read _ _) as [dir'|] eqn:Er; [|done].
    intros H. apply IH in H as [-> H]; [|by eapply read_bytes]. split; [done|]. by apply Exists_cons_tl.
Qed.

Lemma lookup_panics ci path msg :
  lookup_path ci path = Panic msg -> msg = too_long /\ Exists (fun name => (254 < length name)%nat) (parts path).
Proof.
  unfold lookup_path. destruct (read _ 5) as [b|]; [|done]. case_bool_decide; [|done].
  destruct new_context_ok as (o & -> & Hok). cbn [rbind]. destruct o as [c|]; [|done].
  apply resolve_panics. by destruct (Hok c eq_refl) as [(? & _) _].
Qed.

(** ** Reading *)
Lemma read_extents_spec xs : forall ds start loc count buf,
  Forall2 (fun x d => 0 <= x_LBA x /\ 0 <= x_size x /\ Z.of_nat (length d) = x_size x /\
    (0 < x_size x -> read (x_LBA x * ISO9660_SECTOR_SIZE) (x_size x) = Some d)) xs ds ->
  0 <= start <= loc -> 0 <= count -> loc + count <= start + foldr (fun x t => x_size x + t) 0 xs ->
  start + foldr (fun x t => x_size x + t) 0 xs < 2 ^ 64 ->
  read_extents read xs start loc count buf =
  Ok (buf ++ take (Z.to_nat count) (drop (Z.to_nat (loc - start)) (concat ds))).
Proof.
  induction xs as [|x xs IH]; intros ds start loc count buf H2 Hs Hc Hend Hmax; inversion H2 as [|? d ? ds' (Hlba & Hsz & Hdl & Hr) H2']; subst.
  { cbn [read_extents foldr] in *. rewrite (proj2 (Z.ltb_ge _ _)) by lia. replace count with 0 by lia. cbn. by rewrite app_nil_r. }
  assert (0 <= foldr (fun x t => x_size x + t) 0 xs) as Hrest.
  { clear -H2'. revert H2'. generalize ds'. induction xs as [|y xs IH]; intros l H; inversion H as [|? ? ? ? (_ & ? & _ & _) ?]; subst; cbn; [lia|].
    specialize (IH _ ltac:(eassumption)). lia. }
  cbn [read_extents foldr concat] in *. destruct (Z.ltb_spec 0 count) as [Hc0|Hc0]; cbn [negb].
  2: { replace count with 0 by lia. by rewrite app_nil_r. }
  rewrite (wrap_small 64 (start + x_size x)) by lia.
  destruct (Z.ltb_spec loc (start + x_size x)) as [Hin|Hout].
  - specialize (Hr ltac:(lia)). pose proof (read_bound _ _ _ Hr) as Hbd.
    replace (if start <? loc then loc - start else 0) with (loc - start) by (case_if; lia).
    rewrite (wrap_small 64 (x_size x - (loc - start))) by lia. set (n := if count <? _ then _ else _).
    assert (n = Z.min count (x_size x - (loc - start))) as Hn by (unfold n; case_if; lia).
    rewrite wrap_small by lia. rewrite (read_part read _ _ d (loc - start) n Hr) by lia.
    rewrite wrap_small by lia. rewrite drop_app_le by lia.
    destruct (decide (count <= x_size x - (loc - start))) as [Hlast|Hmore].
    + assert (n = count) as -> by lia. replace (count - count) with 0 by lia.
      rewrite take_app_le by (rewrite length_drop; lia).
      destruct xs as [|y xs]; cbn [read_extents]; [done|]. done.
    + assert (n = x_size x - (loc - start)) as -> by lia.
      rewrite IH with (ds := ds'); [|done|lia|lia|lia|lia].
      rewrite <- app_assoc. f_equal. f_equal. rewrite take_ge by (rewrite length_drop; lia).
      rewrite take_app_ge by (rewrite length_drop; lia). f_equal. rewrite length_drop.
      replace (loc + (x_size x - (loc - start)) - (start + x_size x)) with 0 by lia. rewrite drop_0. f_equal. lia.
  - rewrite IH with (ds := ds'); [|done|lia|lia|lia|lia]. f_equal. f_equal. f_equal.
    rewrite drop_app_ge by lia. f_equal. lia.
Qed.
End Props.

(** ** A small volume: one file in the root directory *)
Definition demo_record (name : list Z) (extent size flags : Z) : list Z :=
  [33 + Z.of_nat (length name); 0] ++ le_bytes 8 extent ++ le_bytes 8 size ++ replicate 7 0 ++ [flags]
  ++ replicate 6 0 ++ [Z.of_nat (length name)] ++ name.

Definition demo_root : list (list Z) :=
  [demo_record [0] 18 2048 2; demo_record [1] 18 2048 2; demo_record (bytes "A.TXT;1") 19 5 0].

Definition demo_pvd : list Z :=
  take 2048 ([1] ++ bytes "CD001" ++ [1] ++ replicate 121 0 ++ le_bytes 4 2048 ++ replicate 24 0
             ++ demo_record [0] 18 2048 2 ++ replicate 2048 0).

Definition demo_cd (a : Z) : Z :=
  if a / 2048 =? 16 then nth (Z.to_nat (a mod 2048)) demo_pvd 0
  else if a / 2048 =? 18 then nth (Z.to_nat (a mod 2048)) (sector_of demo_root) 0
  else if a / 2048 =? 19 then nth (Z.to_nat (a mod 2048)) (bytes "hello") 0
  else 0.

Lemma nth_byte l n : forallb (fun b => (0 <=? b) && (b <? 256)) l = true -> is_byte (nth n l 0).
Proof.
  intros H. rewrite forallb_forall in H. destruct (nth_in_or_default n l 0) as [Hin| ->]; [|unfold is_byte; lia].
  specialize (H _ Hin). bool_hyps. unfold is_byte. lia.
Qed.

#[export] Instance demo_cd_bytes : ByteDisk demo_cd (20 * 2048).
Proof.
  split; [|lia]. intros a. unfold demo_cd.
  repeat (case_if; [apply nth_byte; by vm_compute|]). unfold is_byte. lia.
Qed.

Abbreviation demo_medium := (disk_reader demo_cd 0 (20 * 2048)).
Definition demo_path : list Z := bytes "/a.txt".

Definition opened {A B : Type} (r : res (option A * B)) : option A :=
  match r with Ok (o, _) => o | _ => None end.

Lemma opened_eq {A B} (r : res (option A * B)) f : opened r = Some f -> exists c, r = Ok (Some f, c).
Proof. destruct r as [[[x|] c]| | |]; cbn; try done. intros [= ->]. by exists c. Qed.

Lemma demo_opens : exists c, iso9660_open demo_medium [] 0 false (demo_path ++ 0 :: [])
  = Ok (Some (MkIsoFile 5 [MkExtent 19 5]), c).
Proof. apply opened_eq. vm_compute. reflexivity. Qed.

Lemma entry_ok_check e :
  forallb (fun b => (0 <=? b) && (b <? 256)) e && (e_len e =? Z.of_nat (length e))
  && (33 <=? Z.of_nat (length e)) && (Z.of_nat (length e) <? 256) = true -> entry_ok e.
Proof.
  intros H. bool_hyps. split; [|done|done]. apply Forall_forall. intros b Hb. rewrite forallb_forall in H.
  specialize (H b (proj1 (list_elem_of_In _ _) Hb)). bool_hyps. unfold is_byte. lia.
Qed.

Lemma demo_root_ok : Forall sector_ok [demo_root].
Proof.
  constructor; [|constructor]. split; [|vm_compute; lia].
  constructor; [by apply entry_ok_check|]. constructor; [by apply entry_ok_check|].
  constructor; [by apply entry_ok_check|]. constructor.
Qed.

(** ** The claims *)

(** C18.  Opening a path on any volume, whatever it contains, returns: the driver
    reads outside none of its buffers and every loop ends, also on directories
    and name areas that are damaged or chain back to themselves.  What it opens
    is what the components of the path name one after the other, from the root
    directory of the primary volume descriptor; the list of contexts does not
    change the result; the one panic is a component of more than 254
    characters.  A file it opens has at least one extent, and its size is that
    of its extents together. *)
Theorem iso_open_correct read `{!ByteReader read} ci contexts vol path junk :
  coherent read vol contexts -> Forall (fun c => c <> 0) path ->
  res_post (fun r => coherent read vol r.2 /\ lookup_path read ci path = Ok r.1 /\
                     (forall f, r.1 = Some f -> file_ok f))
    (fun msg => msg = too_long /\ lookup_path read ci path = Panic msg /\
                Exists (fun name => (254 < length name)%nat) (parts path))
    (iso9660_open read contexts vol ci (path ++ 0 :: junk)).
Proof.
  intros Hc Hp. eapply res_post_mono; [by apply iso_open_spec|done|]. intros msg H.
  pose proof (lookup_panics read ci path msg H) as [? ?]. done.
Qed.

Lemma iso_open_correct_witness :
  exists c, iso9660_open demo_medium [] 0 false (demo_path ++ 0 :: []) = Ok (Some (MkIsoFile 5 [MkExtent 19 5]), c) /\
  coherent demo_medium 0 c /\ file_ok (MkIsoFile 5 [MkExtent 19 5]).
Proof.
  destruct demo_opens as [c E]. exists c.
  pose proof (iso_open_correct demo_medium false [] 0 demo_path []) as H. rewrite E in H.
  destruct H as (Hc & _ & Hf).
  - intros x Hx. discriminate Hx.
  - repeat constructor; discriminate.
  - split; [exact E|]. split; [exact Hc|]. apply Hf. reflexivity.
Defined.

Lemma str_cmp_refl fold l : Forall (fun c => c <> 0) l -> str_cmp fold (l ++ [0]) (l ++ [0]) = Ok 0.
Proof.
  induction 1 as [|c l Hc Hl IH]; cbn [app str_cmp]; rewrite Z.eqb_refl; cbn [negb]; [done|].
  by rewrite (proj2 (Z.eqb_neq c 0)).
Qed.

(** C27.  Looking a name up in a directory that is laid out as ECMA-119
    prescribes (records packed into sectors they do not cross, the rest of each
    sector zero, sectors possibly empty) returns, and finds the first record
    with that name other than the directory's own and its parent's, or nothing
    if no record has it; and a record whose system use area holds a name in
    any number of [NM] entries, among entries of other kinds, has that name. *)
Theorem iso_find_in_directory read `{!ByteReader read} ci skip secs filename :
  Forall sector_ok secs -> terminated filename ->
  (exists r, iso9660_find read ci skip (lay_out secs) filename = Ok r /\
   match r with
   | None => Forall (fun e => is_dot_record e = true \/ names_entry read ci skip filename e = Ok false) (concat secs)
   | Some off => exists before e after, concat secs = before ++ e :: after /\
       Forall (fun e => is_dot_record e = true \/ names_entry read ci skip filename e = Ok false) before /\
       is_dot_record e = false /\ names_entry read ci skip filename e = Ok true /\
       entry_at (lay_out secs) off = Ok e
   end) /\
  (forall e pre frags post, entry_ok e -> system_area e skip = Ok (Some (concat pre ++ nm_area frags ++ post)) ->
     Forall other_entry pre -> frags <> [] -> Forall frag_ok frags -> (length (concat frags) < 256)%nat ->
     Forall (fun c => c <> 0) (concat frags) -> names_entry read ci skip (concat frags ++ [0]) e = Ok true).
Proof.
  intros Hs Hf. split.
  - pose proof (lay_out_bytes secs Hs) as Hb.
    destruct (iso9660_find_records read ci skip (lay_out secs) filename Hb Hf) as (r & Hr & Hn).
    exists r. split; [done|]. apply (find_named_spec read ci skip) in Hn.
    rewrite <- (records_lay_out secs Hs). destruct r as [off|].
    + destruct Hn as (pre & e & post & Hl & Hpre & Hd & Hnm). exists (map snd pre), e, (map snd post).
      rewrite Hl, map_app. split_and!; [done| |done|done|].
      * apply Forall_fmap. eapply Forall_impl; [exact Hpre|]. by intros [o x].
      * assert (Forall (fun '(o, e) => valid_at (lay_out secs) o e) (records (lay_out secs))) as Hv
          by (apply walk_valid; try done; lia).
        rewrite Hl in Hv. apply Forall_app in Hv as [_ Hv]. apply Forall_cons in Hv as [(Hv & _) _]. done.
    + apply Forall_fmap. eapply Forall_impl; [exact Hn|]. by intros [o x].
  - intros e pre frags post He Ha Hpre Hne Hok Htot Hnz. unfold names_entry.
    rewrite (load_name_rock_ridge read e skip pre frags post) by done. cbn [rbind].
    destruct (true && negb ci); [unfold strcmp|unfold strcasecmp]; by rewrite str_cmp_refl.
Qed.

Lemma iso_find_in_directory_witness :
  exists r, iso9660_find demo_medium false (-1) (lay_out [demo_root]) (cstring "a.txt") = Ok r /\ r = Some 68.
Proof.
  destruct (iso_find_in_directory demo_medium false (-1) [demo_root] (cstring "a.txt") demo_root_ok) as [(r & Hr & _) _].
  - vm_compute. tauto.
  - exists r. split; [exact Hr|].
    assert (iso9660_find demo_medium false (-1) (lay_out [demo_root]) (cstring "a.txt") = Ok (Some 68)) as E
      by (vm_compute; reflexivity).
    rewrite E in Hr. injection Hr. intros <-. reflexivity.
Defined.

Section Medium.
Variables (disk : Z -> Z) (base size : Z).
Context `{!ByteDisk disk size}.
Abbreviation medium := (disk_reader disk base size).

Definition extent_bytes (x : extent) : list Z := disk_bytes disk (base + x_LBA x * ISO9660_SECTOR_SIZE) (x_size x).

(** C33.  Reading a file that was opened: if its extents lie on the medium,
    every read inside the file's size returns that part of the extents put end
    to end, across extent boundaries and over empty extents, without a
    panic. *)
Theorem iso_read_correct ci contexts vol path junk contexts' f loc count :
  coherent medium vol contexts -> Forall (fun c => c <> 0) path ->
  iso9660_open medium contexts vol ci (path ++ 0 :: junk) = Ok (Some f, contexts') ->
  Forall (fun x => x_LBA x * ISO9660_SECTOR_SIZE + x_size x <= size) (f_extents f) ->
  0 <= loc -> 0 <= count -> loc + count <= f_total_size f ->
  iso9660_read medium f loc count =
    Ok (take (Z.to_nat count) (drop (Z.to_nat loc) (concat (map extent_bytes (f_extents f))))).
Proof.
  intros Hco Hp Ho Hx Hl Hc Hend.
  pose proof (iso_open_spec medium ci contexts vol path junk Hco Hp) as Hs. rewrite Ho in Hs.
  destruct Hs as (_ & _ & Hf). destruct (Hf f eq_refl) as (Htot & _ & Hrng & Ht). cbn in Hrng.
  unfold iso9660_read. rewrite (read_extents_spec medium (f_extents f) (map extent_bytes (f_extents f))); [by rewrite Z.sub_0_r| |lia|lia|lia|lia].
  clear -Hx Hrng. induction Hx as [|x xs Hx Hxs IH]; [constructor|]. apply Forall_cons in Hrng as [[Hlba Hsz] Hrng].
  constructor; [|by apply IH]. split_and!; [lia|lia|unfold extent_bytes; rewrite length_disk_bytes; lia|].
  intros Hpos. unfold disk_reader, ISO9660_SECTOR_SIZE in *.
  rewrite !(proj2 (Z.leb_le _ _)), (proj2 (Z.ltb_lt _ _)) by lia. done.
Qed.
End Medium.

Lemma iso_read_correct_witness :
  iso9660_read demo_medium (MkIsoFile 5 [MkExtent 19 5]) 1 3 = Ok (bytes "ell").
Proof.
  destruct demo_opens as [c E].
  rewrite (iso_read_correct demo_cd 0 (20 * 2048) false [] 0 demo_path [] c (MkIsoFile 5 [MkExtent 19 5]) 1 3).
  - vm_compute. reflexivity.
  - intros x Hx. discriminate Hx.
  - repeat constructor; discriminate.
  - exact E.
  - constructor; [|constructor]. vm_compute. discriminate.
  - lia.
  - lia.
  - vm_compute. discriminate.
Defined.
