(* ===== verification/File.v ===== *)
(** * The file layer: [common/fs/file.s2.c]

    [fopen] tries the filesystem drivers in turn and [fread] checks the range
    of a read before it calls the driver of the handle.  The clients of this
    layer are written against the class [FileSystem]; its laws hold of any
    driver that stores no more than it was asked for, whatever bytes it
    returns, also when the same read returns different bytes each time.
    [Drivers] composes the FAT and ISO 9660 drivers the way [fopen] does. *)

From S2P Require Import Prelude CInt Libc Volume Gpt Mbr Fat Iso.

(** ** The interface

    [D] is the state of the drivers and the devices, [H] a driver's handle.  A
    volume is its entry in the volume index. *)
Record file_meta := MkMeta {
  fm_vol : vol_id;
  fm_path : option (list Z);
  fm_pxe : bool;
  fm_pxe_ip : list Z;
  fm_pxe_port : Z;
}.

Class FileSystem (D H : Type) := {
  volume_index : D -> list vol_id;
  disk_connect_all : D -> bool * D;
  fopen : D -> vol_id -> list Z -> res (option H * D);
  tftp_open : D -> list Z -> list Z -> res (option H * D);
  f_size : H -> Z;
  f_read : D -> H -> Z -> Z -> res (list Z * D);
  f_meta : H -> file_meta;
}.

(** A handle's [read] stores the bytes of the list and returns their number. *)
Definition fread {D H : Type} `{!FileSystem D H} (d : D) (fd : H) (loc count : Z) : res (list Z * D) :=
  if (f_size fd <? loc) || (f_size fd - loc <? count) then Panic "fread: attempted out of bounds read"
  else f_read d fd loc count.

(** What the clients rely on: the driver's state stays valid, the calls return
    or panic, and a read within the file stores bytes, no more than asked. *)
Class FileSystemOk (D H : Type) `{!FileSystem D H} := {
  d_valid : D -> Prop;
  f_valid : H -> Prop;
  connect_valid : forall d, d_valid d -> d_valid (disk_connect_all d).2;
  fopen_valid : forall d v path, d_valid d -> In 0 path -> Z.of_nat (length path) <= 4096 ->
    res_post (fun r => d_valid r.2 /\ forall fd, r.1 = Some fd -> f_valid fd) (fun _ => True) (fopen d v path);
  tftp_valid : forall d root path, d_valid d -> In 0 root -> In 0 path ->
    res_post (fun r => d_valid r.2 /\ forall fd, r.1 = Some fd -> f_valid fd) (fun _ => True) (tftp_open d root path);
  f_path_range : forall fd, f_valid fd -> Z.of_nat (length (default [] (fm_path (f_meta fd)))) < 2 ^ 64;
  f_size_range : forall fd, f_valid fd -> 0 <= f_size fd < 2 ^ 64;
  f_read_valid : forall d fd loc count, d_valid d -> f_valid fd ->
    0 <= loc -> 0 <= count -> loc + count <= f_size fd ->
    res_post (fun r => d_valid r.2 /\ Z.of_nat (length r.1) <= count /\ Forall is_byte r.1) (fun _ => True)
      (f_read d fd loc count);
}.

Section Fread.
Context {D H : Type} `{!FileSystem D H} `{!FileSystemOk D H}.

Lemma fread_valid d fd loc count :
  d_valid d -> f_valid fd -> 0 <= loc -> 0 <= count ->
  res_post (fun r => d_valid r.2 /\ Z.of_nat (length r.1) <= count /\ Forall is_byte r.1) (fun _ => True)
    (fread d fd loc count).
Proof.
  intros Hd Hf Hl Hc. unfold fread. case_if; [done|]. bool_hyps. apply f_read_valid; try done. lia.
Qed.
End Fread.
