(* ===== verification/FileDrivers.v ===== *)
(** * The filesystem drivers behind the file layer

    [Drivers] is [fopen] and [fread] of [common/fs/file.s2.c] over the FAT and
    ISO 9660 drivers; files from the network are already in memory when they are
    opened.  The instance at the end shows that the drivers keep the promises of
    [FileSystemOk], so what is proved of a client holds on real media. *)

From S2P Require Import Prelude CInt Libc LibcProps Volume Gpt Mbr FatChain FatDir FatOpen FatProps.
From S2P Require Import Fat Iso IsoFacts IsoOpen IsoProps File.

(** A volume as its drivers see it. *)
Record volume_view := MkView {
  vv_addr : Z;                                  (** the address of its structure *)
  vv_pxe : bool;
  vv_read : Z -> Z -> option (list Z);          (** [volume_read] on it *)
  vv_sect_count : Z;
}.

Record net_file := MkNet { nf_content : list Z; nf_path : list Z; nf_ip : list Z; nf_port : Z }.

Inductive handle :=
| IsoHandle (v : vol_id) (f : Iso.iso_file) (path : list Z)
| FatHandle (v : vol_id) (f : Fat.file_handle) (path : list Z)
| NetHandle (v : vol_id) (f : net_file).

Module Drivers.
Section Drivers.
Variable size_bits : Z.
Variable case_insensitive_fopen : bool.
Variable stack_lfn : list Z.
Variable view : vol_id -> volume_view.
Variable tftp : vol_id -> list Z -> list Z -> option net_file.

Definition fs_get_label (part : vol_id) : res (option (list Z)) :=
  let v := view part in
  let! ret := Fat.fat32_get_label (vv_read v) (vv_sect_count v) size_bits case_insensitive_fopen stack_lfn in
  match ret with
  | Some l => Ok (Some l)
  | None => Iso.iso9660_get_label (vv_read v)
  end.

(** The name with a slash in front, in a zeroed buffer of its length and two. *)
Definition filename_new (filename : list Z) : res (list Z) :=
  let! n := strlen filename in
  let! c := rd filename 0 in
  if negb (c =? 47) then Ok (47 :: take n filename ++ [0]) else Ok (take n filename ++ [0; 0]).

(** [contexts] is the list of contexts the ISO 9660 driver keeps. *)
Definition fopen (contexts : list (Z * Iso.iso_context)) (part : vol_id) (filename : list Z)
    : res (option handle * list (Z * Iso.iso_context)) :=
  let v := view part in
  let! filename := filename_new filename in
  if vv_pxe v then Ok (NetHandle part <$> tftp part [0] filename, contexts)
  else
    let! (ret, contexts) := Iso.iso9660_open (vv_read v) contexts (vv_addr v) case_insensitive_fopen filename in
    match ret with
    | Some f => Ok (Some (IsoHandle part f filename), contexts)
    | None =>
        let! ret := Fat.fat32_open (vv_read v) (vv_sect_count v) size_bits case_insensitive_fopen stack_lfn filename in
        match ret with
        | Some f => Ok (Some (FatHandle part f filename), contexts)
        | None => Ok (None, contexts)
        end
    end.

Definition size (fd : handle) : Z :=
  match fd with
  | IsoHandle _ f _ => Iso.f_total_size f
  | FatHandle _ f _ => Fat.f_size_bytes f
  | NetHandle _ f => Z.of_nat (length (nf_content f))
  end.

(** The part of [fread] after the range check. *)
Definition read (fd : handle) (loc count : Z) : res (list Z) :=
  match fd with
  | IsoHandle v f _ => Iso.iso9660_read (vv_read (view v)) f loc count
  | FatHandle v f _ => Fat.fat32_read (vv_read (view v)) f loc count
  | NetHandle _ f => Ok (take (Z.to_nat count) (drop (Z.to_nat loc) (nf_content f)))
  end.

Definition meta (fd : handle) : file_meta :=
  match fd with
  | IsoHandle v _ path | FatHandle v _ path => MkMeta v (Some path) false [0; 0; 0; 0] 0
  | NetHandle v f => MkMeta v (Some (nf_path f)) true (nf_ip f) (nf_port f)
  end.
End Drivers.
End Drivers.

Lemma terminated_split path : In 0 path ->
  exists s junk, path = s ++ 0 :: junk /\ Forall (fun c => c <> 0) s /\ strlen path = Ok (length s).
Proof.
  induction path as [|c path IH]; intros H; [done|]. cbn [strlen]. case_if.
  - bool_hyps. subst. exists [], path. by split_and!.
  - bool_hyps. destruct IH as (s & junk & -> & Hs & ->); [destruct H; [lia|done]|]. exists (c :: s), junk.
    split_and!; [done|by constructor|done].
Qed.

Lemma filename_new_ok path : In 0 path -> exists s junk,
  Drivers.filename_new path = Ok (s ++ 0 :: junk) /\ Forall (fun c => c <> 0) s /\
  Z.of_nat (length (s ++ 0 :: junk)) <= Z.of_nat (length path) + 1.
Proof.
  intros H0. destruct (terminated_split path H0) as (s & junk & Hp & Hs & Hl). unfold Drivers.filename_new.
  rewrite Hl, Hp. cbn [rbind]. rewrite take_app_length.
  destruct s as [|c s].
  { exists [47], []. split_and!; [done|by repeat constructor|cbn; lia]. }
  cbn [app rd lookup list_lookup rbind of_option].
  destruct (negb (c =? 47)).
  - exists (47 :: c :: s), []. split_and!; [done|by constructor|]. cbn. rewrite !length_app. cbn. lia.
  - exists (c :: s), [0]. split_and!; [done|done|]. cbn. rewrite !length_app. cbn. lia.
Qed.

(** ** The FAT driver *)
Lemma leading_slashes l : exists k p, l = replicate k 47 ++ p /\ head p <> Some 47.
Proof.
  induction l as [|c l (k & p & -> & Hp)]; [by exists 0%nat, []|].
  destruct (decide (c = 47)) as [->|Hc]; [by exists (S k), p|]. exists 0%nat, (c :: replicate k 47 ++ p). split; [done|].
  cbn. congruence.
Qed.

Section Fat.
Variable read : Z -> Z -> option (list Z).
Context `{!ByteReader read}.
Variables (sect_count size_bits : Z) (ci : bool) (stack_lfn : list Z).
Hypothesis Hsize : 32 <= size_bits <= 64.

Definition fat_valid (f : Fat.file_handle) : Prop :=
  geometry (Fat.f_context f) /\ 0 <= Fat.f_size_bytes f < 2 ^ 32.

Lemma find_item_in name l e : find_item ci name l = Ok (Some (Fat.Entry e)) -> e ∈ map snd l.
Proof.
  induction l as [|[t x] l IH]; cbn [find_item]; [done|].
  destruct (item_names ci name (t, x)) as [[]| | |]; cbn [rbind]; try done; [intros [= <-]; by left|].
  intros H. right. by apply IH.
Qed.

Lemma items_in es : forall tag lfn x c e, e ∈ map snd (items es tag lfn x c) -> e ∈ es.
Proof.
  induction es as [|y es IH]; intros tag lfn x c e; cbn [items]; [done|].
  case_if; [by intros ?%not_elem_of_nil|]. case_if; [intros H; right; by eapply IH|].
  case_if; [destruct (Fat.lfn_step y lfn x c) as [[[? ?] ?] ?]; intros H; right; by eapply IH|].
  cbn. intros [->|H]%elem_of_cons; [by left|]. right. by eapply IH.
Qed.

Lemma open_in_dirent ctx dir name e : geometry ctx -> terminated name ->
  Fat.fat32_open_in read sect_count size_bits ctx ci stack_lfn dir (Some name) = Ok (Some (Fat.Entry e)) -> dirent e.
Proof.
  intros Hg Hn. unfold Fat.fat32_open_in.
  destruct (read_directory_total read sect_count size_bits ctx Hg dir) as (r & -> & Hr). cbn [rbind].
  destruct r as [bs|]; [|done]. pose proof (directory_entries_ok bs (Hr bs eq_refl)) as Hd.
  rewrite (scan_entries_find ci name _ Hn Hd None) by done.
  intros H%find_item_in%items_in. rewrite Forall_forall in Hd. by apply Hd.
Qed.

Lemma resolve_dirent ctx comps : geometry ctx -> forall dir e,
  FatOpen.resolve read sect_count size_bits ctx ci stack_lfn dir comps = Ok (Some e) -> dirent e.
Proof.
  intros Hg. induction comps as [|name rest IH]; intros dir e; cbn [FatOpen.resolve]; [done|].
  case_if; [done|].
  destruct (Fat.fat32_open_in _ _ _ _ _ _ _ _) as [[[x|]|]| | |] eqn:E; cbn [rbind]; try done.
  apply open_in_dirent in E; [|done|apply in_or_app; right; by left].
  destruct rest; [by intros [= <-]|]. case_if; [done|apply IH].
Qed.

Lemma fat_open_valid path : In 0 path -> Z.of_nat (length path) < 2 ^ 32 ->
  exists r, Fat.fat32_open read sect_count size_bits ci stack_lfn path = Ok r /\ forall f, r = Some f -> fat_valid f.
Proof.
  intros H0 Hl. destruct (terminated_split path H0) as (s & junk & -> & Hs & _).
  destruct (leading_slashes s) as (k & p & -> & Hp). rewrite <- app_assoc in *.
  apply Forall_app in Hs as [_ Hs].
  destruct (fat32_open_spec read sect_count size_bits ci stack_lfn k p junk Hsize Hp Hs Hl) as (r & -> & Hr).
  exists r. split; [done|]. intros f ->.
  destruct (init_context_geometry read size_bits Hsize) as (c & Hc & Hgeo). rewrite Hc in Hr. cbn [rbind] in Hr.
  destruct c as [ctx|]; [|done]. specialize (Hgeo ctx eq_refl). unfold resolve_file in Hr.
  destruct (FatOpen.resolve _ _ _ _ _ _ _ _) as [[e|]| | |] eqn:E; cbn [rbind] in Hr; try done.
  apply resolve_dirent in E; [|done]. unfold Fat.open_file in Hr.
  destruct (cache_cluster_chain_spec read sect_count ctx Hgeo
    (if Fat.type ctx =? 32 then Z.lor (Fat.d_cluster_num_low e) (Z.shiftl (Fat.d_cluster_num_high e) 16)
     else Fat.d_cluster_num_low e)) as (ch & Hch & _). rewrite Hch in Hr. cbn [rbind] in Hr.
  destruct (_ <? _) in Hr; [done|]. injection Hr as <-. split; [done|]. cbn. apply (field_range e 28 4). apply E.
Qed.

Lemma fat_read_valid f loc count : fat_valid f -> 0 <= count ->
  res_post (fun bs => Z.of_nat (length bs) <= count /\ Forall is_byte bs) (fun _ => True)
    (Fat.fat32_read read f loc count).
Proof.
  intros [Hg _] Hc. unfold Fat.fat32_read.
  destruct (read_cluster_chain_total read (Fat.f_context f) Hg (Fat.f_chain f) loc count Hc) as (r & -> & Hr).
  cbn [rbind]. destruct r as [bs|]; [|done]. destruct (Hr bs eq_refl) as [? ?]. cbn. split; [lia|done].
Qed.
End Fat.

(** ** The ISO 9660 driver *)
Section Iso.
Variable read : Z -> Z -> option (list Z).
Context `{!ByteReader read}.

Lemma read_extents_valid xs : forall start loc count buf,
  Forall (fun x => 0 <= Iso.x_LBA x < 2 ^ 32 /\ 0 <= Iso.x_size x) xs ->
  0 <= start <= loc -> 0 <= count -> Forall is_byte buf ->
  start + foldr (fun x t => Iso.x_size x + t) 0 xs < 2 ^ 64 ->
  res_post (fun bs => Z.of_nat (length bs) <= Z.of_nat (length buf) + count /\ Forall is_byte bs) (fun _ => True)
    (Iso.read_extents read xs start loc count buf).
Proof.
  induction xs as [|x xs IH]; intros start loc count buf Hx Hs Hc Hb Hmax; cbn [Iso.read_extents foldr] in *.
  { case_if; [done|]. cbn. split; [lia|done]. }
  apply Forall_cons in Hx as [[_ Hsz] Hx].
  assert (0 <= foldr (fun x t => Iso.x_size x + t) 0 xs) as Hrest.
  { clear -Hx. induction Hx as [|y ys [_ Hy] _ IH]; cbn; lia. }
  case_if; [cbn; split; [lia|done]|]. rewrite (wrap_small 64 (start + Iso.x_size x)) by lia. case_if.
  - bool_hyps. replace (if start <? loc then loc - start else 0) with (loc - start) by (case_if; lia).
    rewrite (wrap_small 64 (Iso.x_size x - _)) by lia. set (n := if count <? _ then _ else _).
    assert (n = Z.min count (Iso.x_size x - (loc - start))) as Hn by (unfold n; case_if; lia).
    destruct (read _ n) as [bs|] eqn:Er; [|done]. pose proof (read_length _ _ _ Er ltac:(lia)) as Hl.
    rewrite (wrap_small 64 (loc + n)) by lia.
    destruct (decide (count = n)) as [He|He].
    + replace (count - n) with 0 by lia.
      assert (Forall is_byte (buf ++ bs)) by (apply Forall_app; split; [done|by eapply read_bytes]).
      destruct xs; cbn; rewrite length_app; (split; [lia|done]).
    + eapply res_post_mono; [apply IH; try done; try lia; apply Forall_app; split; [done|by eapply read_bytes]| |done].
      cbn. intros bs'. rewrite length_app. intros [? ?]. split; [lia|done].
  - bool_hyps. apply IH; try done; lia.
Qed.

Lemma iso_read_valid f loc count : file_ok f -> 0 <= loc -> 0 <= count ->
  res_post (fun bs => Z.of_nat (length bs) <= count /\ Forall is_byte bs) (fun _ => True)
    (Iso.iso9660_read read f loc count).
Proof.
  intros (Ht & _ & Hx & Hm) Hl Hc. apply (read_extents_valid (Iso.f_extents f) 0 loc count []); try done; lia.
Qed.

(** Opening adds at most the context of the volume itself. *)
Lemma iso_open_contexts contexts vol ci path r contexts' :
  Iso.iso9660_open read contexts vol ci path = Ok (r, contexts') ->
  contexts' = contexts \/ exists c, contexts' = (vol, c) :: contexts /\ Iso.new_context read = Ok (Some c).
Proof.
  unfold Iso.iso9660_open, Iso.iso9660_get_context. destruct (read _ 5) as [b|]; [|intros [= _ <-]; by left].
  destruct (strcmp _ _) as [s| | |]; cbn [rbind]; try done. case_if; [intros [= _ <-]; by left|].
  destruct (find _ contexts) as [[v c]|]; cbn [rbind snd].
  - destruct (Iso.skip_slashes path) as [q| | |]; cbn [rbind]; try done.
    destruct (loop _ _ _) as [f| | |]; cbn [rbind]; try done. intros [= _ <-]. by left.
  - destruct (Iso.new_context read) as [[c|]| | |] eqn:Hc; cbn [rbind]; try done; [|intros [= _ <-]; by left].
    destruct (Iso.skip_slashes path) as [q| | |]; cbn [rbind]; try done.
    destruct (loop _ _ _) as [f| | |]; cbn [rbind]; try done. intros [= _ <-]. right. by exists c.
Qed.
End Iso.

(** ** The drivers keep the promises of the file layer

    The media are fixed while the boot loader runs; which volumes are in the
    index may change when drives are connected, and the ISO 9660 driver's list
    of contexts grows. *)
Record dstate := MkD { ds_volumes : list vol_id; ds_contexts : list (Z * Iso.iso_context) }.

Section Instance.
Variable size_bits : Z.
Variable ci : bool.
Variable stack_lfn : list Z.
Variable view : vol_id -> volume_view.
Variable tftp : vol_id -> list Z -> list Z -> option net_file.
Variable net_vol : vol_id.
Variable connect : list vol_id -> bool * list vol_id.

#[local] Instance drivers : FileSystem dstate handle := {
  volume_index := ds_volumes;
  disk_connect_all d := let '(b, vs) := connect (ds_volumes d) in (b, MkD vs (ds_contexts d));
  fopen d v path :=
    let! (h, contexts) := Drivers.fopen size_bits ci stack_lfn view tftp (ds_contexts d) v path in
    Ok (h, MkD (ds_volumes d) contexts);
  tftp_open d root path := Ok (NetHandle net_vol <$> tftp net_vol root path, d);
  f_size := Drivers.size;
  f_read d fd loc count := let! bs := Drivers.read view fd loc count in Ok (bs, d);
  f_meta := Drivers.meta;
}.

Hypothesis Hsize : 32 <= size_bits <= 64.
(** What [volume_read] promises of each volume. *)
Hypothesis Hread : forall v, ByteReader (vv_read (view v)).
(** A volume is found by the address of its structure. *)
Hypothesis Hview : forall v v', vv_addr (view v) = vv_addr (view v') -> vv_read (view v) = vv_read (view v').
(** A file that came over the network is in memory. *)
Hypothesis Htftp : forall v root path f, tftp v root path = Some f ->
  Forall is_byte (nf_content f) /\ Z.of_nat (length (nf_content f)) < 2 ^ 64 /\ Z.of_nat (length (nf_path f)) < 2 ^ 64.

Definition contexts_ok (contexts : list (Z * Iso.iso_context)) : Prop :=
  forall v, coherent (vv_read (view v)) (vv_addr (view v)) contexts.

Definition path_ok (path : list Z) : Prop := Z.of_nat (length path) < 2 ^ 64.

Definition handle_ok (fd : handle) : Prop :=
  match fd with
  | IsoHandle _ f path => file_ok f /\ path_ok path
  | FatHandle _ f path => fat_valid f /\ path_ok path
  | NetHandle _ f => Forall is_byte (nf_content f) /\ Z.of_nat (length (nf_content f)) < 2 ^ 64 /\ path_ok (nf_path f)
  end.

Lemma contexts_cons v c contexts : contexts_ok contexts -> Iso.new_context (vv_read (view v)) = Ok (Some c) ->
  contexts_ok ((vv_addr (view v), c) :: contexts).
Proof.
  intros Hc Hn v' c'. cbn [find fst]. destruct (Z.eqb_spec (vv_addr (view v)) (vv_addr (view v'))) as [E|E].
  - intros [= _ <-]. by rewrite <- (Hview v v' E).
  - apply Hc.
Qed.

Lemma drivers_open d v path : contexts_ok (ds_contexts d) -> In 0 path -> Z.of_nat (length path) <= 4096 ->
  res_post (fun r => contexts_ok (ds_contexts r.2) /\ forall fd, r.1 = Some fd -> handle_ok fd) (fun _ => True) (File.fopen d v path).
Proof.
  intros Hd H0 Hl. cbn [File.fopen drivers]. unfold Drivers.fopen.
  destruct (filename_new_ok path H0) as (s & junk & -> & Hs & Hlen). cbn [rbind].
  destruct (vv_pxe (view v)).
  { cbn. split; [done|]. intros fd. destruct (tftp _ _ _) as [f|] eqn:Et; [|done]. cbn. intros [= <-]. by apply Htftp in Et. }
  pose proof (iso_open_spec (vv_read (view v)) ci (ds_contexts d) (vv_addr (view v)) s junk (Hd v) Hs) as Ho.
  destruct (Iso.iso9660_open _ _ _ _ _) as [[o contexts]| | |] eqn:E; cbn [rbind]; try done.
  assert (contexts_ok contexts) as Hc.
  { apply iso_open_contexts in E as [->|(c & -> & Hn)]; [done|by apply contexts_cons]. }
  destruct Ho as (_ & _ & Hf). cbn [fst] in Hf. assert (path_ok (s ++ 0 :: junk)) as Hp by (unfold path_ok; lia).
  destruct o as [f|]; [cbn; split; [done|]; intros fd [= <-]; split; [by apply Hf|done]|].
  destruct (fat_open_valid (vv_read (view v)) (vv_sect_count (view v)) size_bits ci stack_lfn Hsize (s ++ 0 :: junk))
    as (r & -> & Hr); [apply in_or_app; right; by left|lia|].
  cbn [rbind]. destruct r as [f|]; cbn; (split; [done|]); [intros fd [= <-]|done]. split; [by apply Hr|done].
Qed.

Lemma drivers_read d fd loc count : handle_ok fd -> 0 <= loc -> 0 <= count -> loc + count <= Drivers.size fd ->
  res_post (fun r => r.2 = d /\ Z.of_nat (length r.1) <= count /\ Forall is_byte r.1) (fun _ => True) (f_read d fd loc count).
Proof.
  intros Hf Hl Hc Hs. cbn [f_read drivers].
  eapply (res_post_bind (fun bs => Z.of_nat (length bs) <= count /\ Forall is_byte bs)); [|by intros bs [? ?]; cbn].
  destruct fd as [v f path|v f path|v f]; cbn [Drivers.read].
  - apply iso_read_valid; [apply Hread|apply Hf|done|done].
  - apply fat_read_valid; [apply Hread|apply Hf|done].
  - cbn. rewrite length_take. split; [lia|]. apply Forall_take, Forall_drop, Hf.
Qed.

#[local] Program Instance drivers_ok : FileSystemOk dstate handle := {
  d_valid d := contexts_ok (ds_contexts d);
  f_valid := handle_ok;
}.
Next Obligation. intros d Hd. cbn. by destruct (connect _). Qed.
Next Obligation. exact drivers_open. Qed.
Next Obligation.
  intros d root path Hd _ _. cbn. split; [done|]. intros fd. destruct (tftp _ _ _) as [f|] eqn:Et; [|done]. cbn. intros [= <-].
  by apply Htftp in Et.
Qed.
Next Obligation. intros [v f path|v f path|v f] H; cbn; apply H. Qed.
Next Obligation.
  intros [v f path|v f path|v f] H; cbn.
  - destruct H as [(Ht & _ & Hx & Hm) _]. split; [|done]. rewrite Ht. clear -Hx. induction Hx as [|y ys [_ Hy] _ IH]; cbn; lia.
  - destruct H as [[_ ?] _]. lia.
  - destruct H as (_ & ? & _). lia.
Qed.
Next Obligation.
  intros d fd loc count Hd Hf Hl Hc Hs. eapply res_post_mono; [by apply drivers_read| |done].
  by intros [bs d'] (-> & ? & ?).
Qed.
End Instance.
