(* ===== verification/Uri.v ===== *)
(** * URIs: [common/lib/uri.c] and the gzip layer [common/compress/gzip.c]

    A URI [resource(root):/path#hash] names a file.  [uri_resolve] splits it,
    the dispatch functions find the volume and open the file, and [uri_open]
    copies the file into memory of the requested type, verifying its BLAKE2b
    digest and inflating it on the way.  The model is of the 64-bit builds: the
    blocks under [__i386__], which bounce data above 4 GiB, are not part of it.
    Strings are lists of bytes up to and including their terminator.

    The inflater, which is not part of the sources, is the parameter
    [pdgzip_read]: asked for output it may pull input through the callback any
    number of times before it answers. *)

From S2P Require Import Prelude CInt Memmap Pmm Libc Guid Blake2b Volume Gpt Mbr File.

Definition URI_BUF_SIZE : Z := 4096.

(** [URI_ERROR]: goes on only for an optional resource. *)
Definition URI_ERROR (optional_resource : bool) (msg : string) : res unit :=
  if negb optional_resource then Panic msg else Ok tt.

(** ** Splitting a URI *)
Record uri_parts := MkUri {
  u_resource : list Z; u_root : list Z; u_path : list Z; u_hash : option (list Z) }.

(** Searching for the delimiter [pat] of [n] characters: what comes before it,
    terminated, and what follows. *)
Fixpoint scan (pat : list Z) (n : nat) (uri : list Z) : res (option (list Z * list Z)) :=
  let! l := strlen uri in
  if (l <? n)%nat then Ok None
  else
    let! r := strncmp uri pat n in
    if r =? 0 then Ok (Some ([0], drop n uri))
    else match uri with
         | [] => Fault
         | c :: uri => let! r := scan pat n uri in
                       Ok ((fun '(before, after) => (c :: before, after)) <$> r)
         end.

(** The last ['#'] below [i]. *)
Fixpoint find_hash (uri : list Z) (i : nat) : res (option nat) :=
  match i with
  | O => Ok None
  | S i => let! c := rd uri i in if negb (c =? 35) then find_hash uri i else Ok (Some i)
  end.

Definition is_xdigit (c : Z) : bool :=
  ((48 <=? c) && (c <=? 57)) || ((97 <=? c) && (c <=? 102)) || ((65 <=? c) && (c <=? 70)).

Section Uri.
Variable optional_resource : bool.

Fixpoint check_digits (hash : list Z) (n : nat) : res bool :=
  match n with
  | O => Ok true
  | S n => let! c := rd hash 0 in
           if negb (is_xdigit c)
           then let! _ := URI_ERROR optional_resource "Blake2b hash contains invalid character at position %d" in Ok false
           else check_digits (drop 1 hash) n
  end.

(** [None] is a return of false. *)
Definition uri_resolve (uri : list Z) : res (option uri_parts) :=
  let! length := strlen uri in
  if URI_BUF_SIZE <? Z.of_nat length + 1
  then let! _ := URI_ERROR optional_resource "uri_resolve: URI too long (max %u)" in Ok None
  else
    let uri := take (length + 1) uri in
    let! r := scan (cstring "(") 1 uri in
    match r with
    | None => Ok None
    | Some (resource, uri) =>
        let! r := scan (cstring "):/") 3 uri in
        match r with
        | None => Ok None
        | Some (root, uri) =>
            let! c := rd uri 0 in
            if c =? 0 then Ok None
            else
              let! l := strlen uri in
              let! i := find_hash uri l in
              match i with
              | None => Ok (Some (MkUri resource root uri None))
              | Some i =>
                  let hash := drop (S i) uri in
                  let! l := strlen hash in
                  if negb (l =? 128)%nat
                  then let! _ := URI_ERROR optional_resource "Blake2b hash must be 128 characters long" in Ok None
                  else
                    let! ok := check_digits hash 128 in
                    if negb ok then Ok None
                    else Ok (Some (MkUri resource root (take i uri ++ [0]) (Some hash)))
              end
        end
    end.

(** ** Finding the volume *)

(** Up to the first colon, terminated, and what follows it. *)
Fixpoint split_colon (loc : list Z) : res (option (list Z * list Z)) :=
  match loc with
  | [] => Fault
  | c :: loc =>
      if c =? 0 then Ok None
      else if c =? 58 then Ok (Some ([0], loc))
      else let! r := split_colon loc in Ok ((fun '(before, after) => (c :: before, after)) <$> r)
  end.

Definition parse_bios_partition (loc : list Z) : res (option (Z * Z)) :=
  let! r := split_colon loc in
  match r with
  | None => Ok None
  | Some (drive, loc) =>
      let! c := rd drive 0 in
      if c =? 0 then
        let! _ := URI_ERROR optional_resource "Drive number cannot be omitted for hdd():/ and odd():/" in Ok None
      else
        let! (val, _) := strtoui drive 10 in
        if (val <? 1) || (256 <? val) then
          let! _ := URI_ERROR optional_resource "Drive number outside range 1-256" in Ok None
        else
          let drive := val in
          let! (val, _) := strtoui loc 10 in
          if 256 <? val then
            let! _ := URI_ERROR optional_resource "Partition number outside range 0-256" in Ok None
          else Ok (Some (drive, val))
  end.

Section Dispatch.
Context {D H : Type} `{!FileSystem D H}.
(** Whether the build is for UEFI, the volume booted from, and what the
    [struct guid] on the stack holds before it is set. *)
Variable uefi : bool.
Variables (boot_volume : vol_id) (boot_pxe : bool).
Variable stack_guid : guid.

Definition connect_all (d : D) : bool * D := if uefi then disk_connect_all d else (false, d).

(** A search of the volume index, had again after connecting every disk. *)
Definition search_again (find : list vol_id -> res (option vol_id)) (d : D) : res (option vol_id * D) :=
  let! volume := find (volume_index d) in
  match volume with
  | Some v => Ok (Some v, d)
  | None =>
      let '(connected, d) := connect_all d in
      if connected : bool then let! volume := find (volume_index d) in Ok (volume, d) else Ok (None, d)
  end.

Definition volume_by_coord (optical : bool) (drive partition : Z) (d : D) : res (option vol_id * D) :=
  search_again (fun idx => Ok (volume_get_by_coord idx optical drive partition)) d.

Definition open_on (path : list Z) (r : option vol_id * D) : res (option H * D) :=
  match r with
  | (None, d) => Ok (None, d)
  | (Some volume, d) => fopen d volume path
  end.

Definition uri_bios_dispatch (optical : bool) (d : D) (loc path : list Z) : res (option H * D) :=
  let! r := parse_bios_partition loc in
  match r with
  | None => Ok (None, d)
  | Some (drive, partition) => let! r := volume_by_coord optical drive partition d in open_on path r
  end.

Definition uri_hdd_dispatch := uri_bios_dispatch false.
Definition uri_odd_dispatch := uri_bios_dispatch true.

Definition volume_by_guid_str (guid_str : list Z) (idx : list vol_id) : res (option vol_id) :=
  let! g := string_to_guid_mixed stack_guid guid_str in
  match g with
  | None => Ok None
  | Some g =>
      match volume_get_by_guid idx (guid_bytes g) with
      | Some volume => Ok (Some volume)
      | None =>
          let! g := string_to_guid_be g guid_str in
          match g with
          | Some g => Ok (volume_get_by_guid idx (guid_bytes g))
          | None => Ok None
          end
      end
  end.

Definition uri_guid_dispatch (d : D) (guid_str path : list Z) : res (option H * D) :=
  let! r := search_again (volume_by_guid_str guid_str) d in open_on path r.

Definition uri_fslabel_dispatch (d : D) (fslabel path : list Z) : res (option H * D) :=
  let! r := search_again (fun idx => Ok (volume_get_by_fslabel idx fslabel)) d in open_on path r.

Definition uri_tftp_dispatch (d : D) (root path : list Z) : res (option H * D) :=
  let! r := strcmp root (cstring "") in
  let! ok := if r =? 0 then Ok true
             else let! ip := inet_pton root in Ok (match ip with Some _ => true | None => false end) in
  if negb ok then
    let! _ := URI_ERROR optional_resource "tftp: Invalid ipv4 address: %s" in Ok (None, d)
  else tftp_open d root path.

Definition uri_boot_dispatch (d : D) (s_part path : list Z) : res (option H * D) :=
  if boot_pxe then uri_tftp_dispatch d s_part path
  else
    let! c := rd s_part 0 in
    let! partition :=
      if negb (c =? 0) then
        let! (val, _) := strtoui s_part 10 in
        if 256 <? val then
          let! _ := URI_ERROR optional_resource "Partition number outside range 0-256" in Ok None
        else Ok (Some val)
      else Ok (Some (vi_partition boot_volume)) in
    match partition with
    | None => Ok (None, d)
    | Some partition =>
        open_on path (volume_get_by_coord (volume_index d) (vi_optical boot_volume) (vi_index boot_volume) partition, d)
    end.

(** The chain of comparisons of [uri_open]. *)
Definition is_resource (resource : list Z) (name : string) : res bool :=
  let! r := strcmp resource (cstring name) in Ok (r =? 0).

Definition uri_dispatch (d : D) (resource root path : list Z) : res (option H * D) :=
  let! hdd := is_resource resource "hdd" in
  if hdd : bool then uri_hdd_dispatch d root path
  else
    let! odd := is_resource resource "odd" in
    if odd : bool then uri_odd_dispatch d root path
    else
      let! boot := is_resource resource "boot" in
      if boot : bool then uri_boot_dispatch d root path
      else
        let! guid := is_resource resource "guid" in
        if guid : bool then uri_guid_dispatch d root path
        else
          let! uuid := is_resource resource "uuid" in
          if uuid : bool then uri_guid_dispatch d root path
          else
            let! fslabel := is_resource resource "fslabel" in
            if fslabel : bool then uri_fslabel_dispatch d root path
            else
              let! tftp := is_resource resource "tftp" in
              if tftp : bool then uri_tftp_dispatch d root path
              else let! _ := URI_ERROR optional_resource "Resource `%s` not valid." in Ok (None, d).
End Dispatch.
End Uri.
