(* ===== verification/UriText.v ===== *)
(** * The grammar of URIs

    [uri_resolve] accepts exactly the texts [resource(root):/path] with an
    optional [#hash] of 128 hexadecimal digits, and returns their parts. *)

From S2P Require Import Prelude CInt Memmap Pmm Libc LibcProps Guid Blake2b Volume Gpt Mbr File Uri.

Definition text (l : list Z) : Prop := Forall (fun c => 0 < c) l.

Lemma strlen_text l t : text l -> strlen (l ++ 0 :: t) = Ok (length l).
Proof.
  induction 1 as [|c l Hc Hl IH]; [done|]. cbn [app strlen length]. rewrite (proj2 (Z.eqb_neq c 0)) by lia.
  by rewrite IH.
Qed.

Lemma strncmp_prefix l t pat : text l -> text pat ->
  exists r, strncmp (l ++ 0 :: t) (pat ++ [0]) (length pat) = Ok r /\ (r = 0 <-> take (length pat) l = pat).
Proof.
  intros Hl Hp. destruct (string_comparisons l t pat [] (length pat) Hl Hp) as (_ & _ & H & _).
  eexists. split; [exact H|]. rewrite lex_eq. by rewrite (take_ge pat) by lia.
Qed.

(** ** Searching a delimiter *)
Lemma scan_spec pat u : text u -> text pat ->
  exists r, scan (pat ++ [0]) (length pat) (u ++ [0]) = Ok r /\
  match r with
  | Some (b, a) => exists x y, b = x ++ [0] /\ a = y ++ [0] /\ u = x ++ pat ++ y /\
                   forall x' y', u = x' ++ pat ++ y' -> (length x <= length x')%nat
  | None => forall x y, u <> x ++ pat ++ y
  end.
Proof.
  intros Hu Hp. induction Hu as [|c u Hc Hu IH].
  - cbn [app]. destruct pat as [|p pat].
    + eexists. split; [reflexivity|]. exists [], []. split_and!; try done. intros. cbn. lia.
    + eexists. split; [reflexivity|]. intros x y E. symmetry in E. apply app_nil in E as [_ E]. done.
  - assert (text (c :: u)) as Hcu by (by constructor).
    change ((c :: u) ++ [0]) with (c :: (u ++ [0])). cbn [scan].
    change (c :: (u ++ [0])) with ((c :: u) ++ 0 :: []). rewrite strlen_text by done. cbn [rbind].
    destruct (length (c :: u) <? length pat)%nat eqn:El.
    { apply Nat.ltb_lt in El. eexists. split; [reflexivity|]. intros x y E.
      apply (f_equal length) in E. rewrite !length_app in E. lia. }
    apply Nat.ltb_ge in El. destruct (strncmp_prefix (c :: u) [] pat Hcu Hp) as (r & -> & Hr). cbn [rbind].
    destruct (r =? 0) eqn:E; bool_hyps.
    + eexists. split; [reflexivity|]. exists [], (drop (length pat) (c :: u)). split_and!; try done.
      * by rewrite drop_app_le.
      * cbn [app]. rewrite <- (proj1 Hr E) at 1. by rewrite take_drop.
      * intros. cbn. lia.
    + assert (forall y, c :: u <> pat ++ y) as Hno.
      { intros y Ey. apply E, Hr. rewrite Ey. by rewrite take_app_length. }
      change (match (c :: u) ++ [0] with [] => Fault | c0 :: uri => _ end) with
        (let! r := scan (pat ++ [0]) (length pat) (u ++ [0]) in Ok ((fun '(before, after) => (c :: before, after)) <$> r)).
      destruct IH as (r' & -> & Hr'). cbn [rbind]. eexists. split; [reflexivity|].
      destruct r' as [[b a]|]; cbn.
      * destruct Hr' as (x & y & -> & -> & -> & Hmin). exists (c :: x), y. split_and!; try done.
        intros [|c' x'] y' E'; [by destruct (Hno y')|]. cbn in *. injection E' as -> E'. apply Hmin in E'. lia.
      * intros [|c' x'] y' E'; [by destruct (Hno y')|]. cbn in E'. injection E' as -> E'. by apply (Hr' x' y').
Qed.

(** The last hash sign. *)
Lemma find_hash_spec u n : (n <= length u)%nat -> exists r, find_hash (u ++ [0]) n = Ok r /\
  match r with
  | Some i => (i < n)%nat /\ u !! i = Some 35 /\ forall j, (i < j < n)%nat -> u !! j <> Some 35
  | None => forall j, (j < n)%nat -> u !! j <> Some 35
  end.
Proof.
  induction n as [|n IH]; intros Hn; cbn [find_hash]; [exists None; split; [done|]; intros j Hj; lia|].
  destruct (lookup_lt_is_Some_2 u n) as [c Hc]; [lia|].
  rewrite (rd_lookup _ n c) by (by rewrite lookup_app_l by lia). cbn [rbind].
  destruct (c =? 35) eqn:E; bool_hyps; cbn [negb].
  - subst c. eexists. split; [done|]. cbn. split_and!; [lia|done|lia].
  - destruct IH as (r & -> & Hr); [lia|]. eexists. split; [done|].
    assert (u !! n <> Some 35) as Hne by congruence.
    destruct r as [i|]; cbn in *.
    + destruct Hr as (Hi & Hui & Hlast). split_and!; [lia|done|]. intros j Hj.
      destruct (decide (j = n)) as [->|]; [done|apply Hlast; lia].
    + intros j Hj. destruct (decide (j = n)) as [->|]; [done|apply Hr; lia].
Qed.

Lemma check_digits_spec optional_resource h t n : (n <= length h)%nat ->
  res_post (fun ok => ok = true <-> Forall (fun c => is_xdigit c = true) (take n h))
    (fun _ => optional_resource = false /\ ~ Forall (fun c => is_xdigit c = true) (take n h))
    (check_digits optional_resource (h ++ t) n).
Proof.
  revert h. induction n as [|n IH]; intros h Hn; [done|]. destruct h as [|c h]; [cbn in Hn; lia|].
  cbn [check_digits app]. change (rd (c :: h ++ t) 0) with (@Ok Z c). cbn [rbind take drop].
  destruct (is_xdigit c) eqn:E; cbn [negb].
  - cbn in Hn. eapply res_post_mono; [apply (IH h); lia| |].
    + intros ok ->. rewrite Forall_cons. tauto.
    + intros m [? Hno]. split; [done|]. rewrite Forall_cons. tauto.
  - assert (~ Forall (fun c => is_xdigit c = true) (c :: take n h)) as Hno by (rewrite Forall_cons; intros [? _]; congruence).
    unfold URI_ERROR. destruct optional_resource; cbn; [|done]. split; [done|]. intros H. by destruct Hno.
Qed.

(** ** Well-formed URIs *)
Record uri_text := MkText { t_resource : list Z; t_root : list Z; t_path : list Z; t_hash : option (list Z) }.

Definition written (t : uri_text) : list Z :=
  t_resource t ++ bytes "(" ++ t_root t ++ bytes "):/" ++ t_path t ++
  match t_hash t with Some h => 35 :: h | None => [] end.

Record well_formed (t : uri_text) : Prop := {
  wf_resource : 40 ∉ t_resource t;
  wf_root : forall x y, t_root t <> x ++ bytes "):/" ++ y;
  wf_hash : match t_hash t with
            | Some h => length h = 128%nat /\ Forall (fun c => is_xdigit c = true) h
            | None => t_path t <> [] /\ 35 ∉ t_path t
            end;
}.

Definition parts_of (t : uri_text) : uri_parts :=
  MkUri (t_resource t ++ [0]) (t_root t ++ [0]) (t_path t ++ [0]) ((fun h => h ++ [0]) <$> t_hash t).

(** The first delimiter splits at the end of what cannot contain it. *)
Lemma split_at (x y a b : list Z) : x ++ y = a ++ b -> length x = length a -> x = a /\ y = b.
Proof. intros E H. by apply app_inj_1. Qed.

Lemma open_split r rest x y :
  40 ∉ r -> r ++ 40 :: rest = x ++ 40 :: y -> (length x <= length r)%nat -> x = r /\ y = rest.
Proof.
  intros Hr E Hl. destruct (decide (length x = length r)) as [H|H].
  - destruct (split_at _ _ _ _ E ltac:(lia)) as [-> [= ->]]. done.
  - exfalso. apply Hr. assert ((r ++ 40 :: rest) !! length x = Some 40) as Hc
      by (rewrite E, lookup_app_r, Nat.sub_diag by lia; done).
    rewrite lookup_app_l in Hc by lia. by eapply list_elem_of_lookup_2.
Qed.

Lemma close_split r rest x y :
  (forall a b, r <> a ++ bytes "):/" ++ b) -> r ++ bytes "):/" ++ rest = x ++ bytes "):/" ++ y ->
  (length x <= length r)%nat -> x = r /\ y = rest.
Proof.
  intros Hr E Hl. destruct (decide (length x = length r)) as [H|H].
  - destruct (split_at _ _ _ _ E ltac:(lia)) as [-> E']. by injection E' as ->.
  - exfalso. set (u := r ++ bytes "):/" ++ rest) in *.
    assert (forall i c, bytes "):/" !! i = Some c -> u !! (length x + i)%nat = Some c) as Hx.
    { intros i c Hi. rewrite E, lookup_app_r, lookup_app_l by (try apply lookup_lt_Some in Hi; cbn in *; lia).
      rewrite <- Hi. f_equal. lia. }
    assert (u !! length r = Some 41) as Hu by (unfold u; rewrite lookup_app_r, Nat.sub_diag by lia; done).
    pose proof (Hx 0%nat 41 eq_refl) as H0. pose proof (Hx 1%nat 58 eq_refl) as H1. pose proof (Hx 2%nat 47 eq_refl) as H2.
    destruct (decide (length x + 1 = length r)%nat) as [E1|N1]; [rewrite E1, Hu in H1; discriminate|].
    destruct (decide (length x + 2 = length r)%nat) as [E2|N2]; [rewrite E2, Hu in H2; discriminate|].
    unfold u in H0, H1, H2. rewrite lookup_app_l in H0, H1, H2 by lia.
    apply (Hr (take (length x) r) (drop (length x + 3) r)).
    rewrite <- (take_drop (length x) r) at 1. f_equal.
    assert (forall k c, r !! k = Some c -> drop k r = c :: drop (S k) r) as Hd by (intros; by apply drop_S).
    rewrite Nat.add_0_r in H0. rewrite (Hd _ _ H0). replace (S (length x)) with (length x + 1)%nat by lia.
    rewrite (Hd _ _ H1). replace (S (length x + 1)) with (length x + 2)%nat by lia. rewrite (Hd _ _ H2).
    replace (S (length x + 2)) with (length x + 3)%nat by lia. done.
Qed.

Lemma text_app l1 l2 : text (l1 ++ l2) <-> text l1 /\ text l2.
Proof. apply Forall_app. Qed.

Lemma xdigit_not_hash h : Forall (fun c => is_xdigit c = true) h -> 35 ∉ h.
Proof. intros Hh Hin. rewrite Forall_forall in Hh. by apply Hh in Hin. Qed.

Lemma last_hash path h i : 35 ∉ h -> (path ++ 35 :: h) !! i = Some 35 ->
  (forall j, (i < j < length (path ++ 35 :: h)%Z)%nat -> (path ++ 35 :: h) !! j <> Some 35) -> i = length path.
Proof.
  intros Hh Hi Hlast. destruct (Nat.lt_trichotomy i (length path)) as [H|[H|H]]; [|done|].
  - exfalso. apply (Hlast (length path)); [rewrite length_app; cbn; lia|].
    by rewrite lookup_app_r, Nat.sub_diag by lia.
  - exfalso. apply Hh. rewrite lookup_app_r in Hi by lia.
    destruct (i - length path)%nat as [|k] eqn:E; [lia|]. cbn in Hi. by eapply list_elem_of_lookup_2.
Qed.

Section Resolve.
Variable optional_resource : bool.

(** The part after the root. *)
Definition resolve_rest (resource root uri : list Z) : res (option uri_parts) :=
  let! c := rd uri 0 in
  if c =? 0 then Ok None
  else
    let! l := strlen uri in
    let! i := find_hash uri l in
    match i with
    | None => Ok (Some (MkUri resource root uri None))
    | Some i =>
        let hash := drop (S i) uri in
        let! l := strlen hash in
        if negb (l =? 128)%nat
        then let! _ := URI_ERROR optional_resource "Blake2b hash must be 128 characters long" in Ok None
        else
          let! ok := check_digits optional_resource hash 128 in
          if negb ok then Ok None
          else Ok (Some (MkUri resource root (take i uri ++ [0]) (Some hash)))
    end.

Definition rest_ok (u path : list Z) (hash : option (list Z)) : Prop :=
  u = path ++ match hash with Some h => 35 :: h | None => [] end /\
  match hash with
  | Some h => length h = 128%nat /\ Forall (fun c => is_xdigit c = true) h
  | None => path <> [] /\ 35 ∉ path
  end.

Definition rest_parts (resource root path : list Z) (hash : option (list Z)) : uri_parts :=
  MkUri resource root (path ++ [0]) ((fun h => h ++ [0]) <$> hash).

Lemma rest_unique v i path hash :
  v !! i = Some 35 -> (forall j, (i < j < length v)%nat -> v !! j <> Some 35) -> rest_ok v path hash ->
  hash = Some (drop (S i) v) /\ path = take i v.
Proof.
  intros Hi Hlast [E H]. destruct hash as [h|].
  - destruct H as [_ Hh]. subst v. assert (i = length path) as -> by (eapply last_hash; [by apply xdigit_not_hash|done|done]).
    rewrite take_app_length. replace (S (length path)) with (length path + 1)%nat by lia.
    rewrite drop_app_add. done.
  - exfalso. rewrite app_nil_r in E. subst v. apply (proj2 H). by eapply list_elem_of_lookup_2.
Qed.

Lemma resolve_rest_spec resource root u : text u ->
  res_post (fun r => match r with
                     | Some p => exists path hash, rest_ok u path hash /\ p = rest_parts resource root path hash
                     | None => forall path hash, ~ rest_ok u path hash
                     end)
    (fun _ => optional_resource = false /\ forall path hash, ~ rest_ok u path hash)
    (resolve_rest resource root (u ++ [0])).
Proof.
  intros Hu. unfold resolve_rest. destruct u as [|c u].
  { cbn. intros path [h|] [E H]; [by destruct path|]. rewrite app_nil_r in E. by destruct H. }
  change (rd ((c :: u) ++ [0]) 0) with (@Ok Z c). cbn [rbind].
  inversion Hu as [|? ? Hc _]; subst. rewrite (proj2 (Z.eqb_neq c 0)) by lia.
  rewrite strlen_text by done. cbn [rbind]. assert (c :: u <> []) as Hne by done.
  remember (c :: u) as v eqn:Ev. clear Ev Hc c u.
  destruct (find_hash_spec v (length v)) as (r & -> & Hr); [lia|]. cbn [rbind]. destruct r as [i|].
  2: { cbn [res_post]. exists v, None. split; [|by unfold rest_parts]. split; [by rewrite app_nil_r|].
       split; [done|]. intros Hin. apply list_elem_of_lookup_1 in Hin as [j Hj].
       apply (Hr j); [by eapply lookup_lt_Some|done]. }
  destruct Hr as (Hi & Hvi & Hlast). pose proof (fun path hash => rest_unique v i path hash Hvi Hlast) as Huniq.
  assert (v = take i v ++ 35 :: drop (S i) v) as Hsplit by (by rewrite <- (drop_S _ _ _ Hvi), take_drop).
  rewrite (drop_app_le v [0] (S i)), (take_app_le v [0] i) by lia. remember (drop (S i) v) as h eqn:Eh.
  assert (text h) as Hh by (subst h; by apply Forall_drop).
  rewrite strlen_text by done. cbn [rbind]. destruct (length h =? 128)%nat eqn:El; cbn [negb].
  - apply Nat.eqb_eq in El. eapply res_post_bind.
    + eapply res_post_mono; [apply (check_digits_spec optional_resource h [0] 128); lia|intros ok Hok; exact Hok|].
      intros m [Ho Hno]. split; [done|]. rewrite take_ge in Hno by lia. intros path hash Hr.
      destruct (Huniq _ _ Hr) as [-> ->]. by destruct Hr as [_ [_ ?]].
    + intros ok Hok. rewrite take_ge in Hok by lia. destruct ok; cbn [negb res_post].
      * exists (take i v), (Some h). split; [|done]. split; [done|]. split; [done|by apply Hok].
      * intros path hash Hr. destruct (Huniq _ _ Hr) as [-> ->]. destruct Hr as [_ [_ Hx]]. by apply Hok in Hx.
  - apply Nat.eqb_neq in El.
    assert (forall path hash, ~ rest_ok v path hash) as Hno.
    { intros path hash Hr. destruct (Huniq _ _ Hr) as [-> ->]. by destruct Hr as [_ [? _]]. }
    unfold URI_ERROR. by destruct optional_resource.
Qed.

(** ** The whole function *)
Lemma uri_resolve_steps u junk : text u -> Z.of_nat (length u) <= 4095 ->
  uri_resolve optional_resource (u ++ 0 :: junk) =
  let! r := scan (cstring "(") 1 (u ++ [0]) in
  match r with
  | None => Ok None
  | Some (resource, uri) =>
      let! r := scan (cstring "):/") 3 uri in
      match r with
      | None => Ok None
      | Some (root, uri) => resolve_rest resource root uri
      end
  end.
Proof.
  intros Hu Hl. unfold uri_resolve. rewrite strlen_text by done. cbn [rbind].
  rewrite (proj2 (Z.ltb_ge URI_BUF_SIZE (Z.of_nat (length u) + 1))) by (unfold URI_BUF_SIZE; lia).
  rewrite take_app_add. reflexivity.
Qed.

Lemma uri_resolve_spec u junk : text u ->
  res_post (fun r => match r with
                     | Some p => exists t, well_formed t /\ u = written t /\ Z.of_nat (length u) <= 4095 /\ p = parts_of t
                     | None => forall t, well_formed t -> u = written t -> 4095 < Z.of_nat (length u)
                     end)
    (fun _ => optional_resource = false /\ forall t, well_formed t -> u = written t -> 4095 < Z.of_nat (length u))
    (uri_resolve optional_resource (u ++ 0 :: junk)).
Proof.
  intros Hu. destruct (Z_le_dec (Z.of_nat (length u)) 4095) as [Hl|Hl].
  2: { unfold uri_resolve. rewrite strlen_text by done. cbn [rbind].
       rewrite (proj2 (Z.ltb_lt URI_BUF_SIZE (Z.of_nat (length u) + 1))) by (unfold URI_BUF_SIZE; lia).
       unfold URI_ERROR. destruct optional_resource; cbn; [|split; [done|]]; intros; lia. }
  rewrite uri_resolve_steps by done.
  destruct (scan_spec (bytes "(") u Hu ltac:(by repeat constructor)) as (r & Hs & Hr).
  change (scan (cstring "(") 1 (u ++ [0])) with (scan (bytes "(" ++ [0]) (length (bytes "(")) (u ++ [0])).
  rewrite Hs. cbn [rbind].
  destruct r as [[b a]|].
  2: { intros [rs ro pa ha] [H1 H2 H3] ->. by destruct (Hr rs (ro ++ bytes "):/" ++ pa ++ match ha with Some h => 35 :: h | None => [] end)). }
  destruct Hr as (x & y & -> & -> & Eu & Hmin).
  assert (text y) as Hy by (subst u; by apply text_app in Hu as [_ [_ ?]%text_app]).
  destruct (scan_spec (bytes "):/") y Hy ltac:(by repeat constructor)) as (r & Hs2 & Hr2).
  change (scan (cstring "):/") 3 (y ++ [0])) with (scan (bytes "):/" ++ [0]) (length (bytes "):/")) (y ++ [0])).
  rewrite Hs2. cbn [rbind].
  (* a well-formed text splits where the first search split it *)
  assert (forall t, well_formed t -> u = written t -> t_resource t = x /\
            y = t_root t ++ bytes "):/" ++ t_path t ++ match t_hash t with Some h => 35 :: h | None => [] end) as Hfst.
  { intros [rs ro pa ha] [H1 H2 H3] E. cbn in *. pose proof E as E1. apply Hmin in E. rewrite E1 in Eu.
    destruct (open_split _ _ _ _ H1 Eu E) as [-> ->]. done. }
  destruct r as [[b a]|].
  2: { intros t Hwf E. destruct (Hfst t Hwf E) as [_ Hyt]. by destruct (Hr2 _ _ Hyt). }
  destruct Hr2 as (x2 & y2 & -> & -> & Ey & Hmin2).
  assert (text y2) as Hy2 by (subst y; by apply text_app in Hy as [_ [_ ?]%text_app]).
  assert (forall t, well_formed t -> u = written t -> t_resource t = x /\ t_root t = x2 /\ rest_ok y2 (t_path t) (t_hash t)) as Hsnd.
  { intros t Hwf E. destruct (Hfst t Hwf E) as [Hx Hyt]. destruct Hwf as [H1 H2 H3].
    pose proof (Hmin2 _ _ Hyt) as Hlen. rewrite Hyt in Ey. destruct (close_split _ _ _ _ H2 Ey Hlen) as [-> ->].
    by split_and!. }
  eapply res_post_mono; [by apply resolve_rest_spec| |].
  - intros [p|] Hp.
    + destruct Hp as (path & hash & [Hyp Hh] & ->). exists (MkText x x2 path hash). split_and!; try done.
      * split; cbn; [| |done].
        -- intros Hin. apply list_elem_of_split in Hin as (l1 & l2 & ->).
           assert (length (l1 ++ 40 :: l2)%Z <= length l1)%nat as H; [|rewrite length_app in H; cbn in H; lia].
           apply (Hmin l1 (l2 ++ bytes "(" ++ y)). rewrite Eu. by rewrite <- app_assoc.
        -- intros l1 l2 ->. assert (length (l1 ++ bytes "):/" ++ l2) <= length l1)%nat as H;
             [|rewrite !length_app in H; cbn in H; lia].
           apply (Hmin2 l1 (l2 ++ bytes "):/" ++ y2)). rewrite Ey. by rewrite <- !app_assoc.
      * rewrite Eu, Ey, Hyp. unfold written. cbn. by rewrite ?app_assoc.
    + intros t Hwf E. destruct (Hsnd t Hwf E) as (_ & _ & Hr). by destruct (Hp _ _ Hr).
  - intros m [Ho Hp]. split; [done|]. intros t Hwf E. destruct (Hsnd t Hwf E) as (_ & _ & Hr). by destruct (Hp _ _ Hr).
Qed.

(** A text has one reading. *)
Lemma written_inj t t' : well_formed t -> well_formed t' -> written t = written t' -> t = t'.
Proof.
  destruct t as [rs ro pa ha], t' as [rs' ro' pa' ha']. intros [H1 H2 H3] [H1' H2' H3'] E. unfold written in E. cbn in *.
  assert (rs = rs' /\ ro ++ bytes "):/" ++ pa ++ match ha with Some h => 35 :: h | None => [] end =
                     ro' ++ bytes "):/" ++ pa' ++ match ha' with Some h => 35 :: h | None => [] end) as [-> E2].
  { destruct (Nat.le_ge_cases (length rs) (length rs')) as [Hl|Hl].
    - by destruct (open_split _ _ _ _ H1' (eq_sym E) Hl).
    - by destruct (open_split _ _ _ _ H1 E Hl). }
  assert (ro = ro' /\ pa ++ match ha with Some h => 35 :: h | None => [] end =
                     pa' ++ match ha' with Some h => 35 :: h | None => [] end) as [-> E3].
  { destruct (Nat.le_ge_cases (length ro) (length ro')) as [Hl|Hl].
    - by destruct (close_split _ _ _ _ H2' (eq_sym E2) Hl).
    - by destruct (close_split _ _ _ _ H2 E2 Hl). }
  assert (exists v, rest_ok v pa ha /\ rest_ok v pa' ha') as (v & Hr & Hr') by (eexists; by split).
  destruct (find_hash_spec v (length v)) as (r & _ & Hf); [lia|]. destruct r as [i|].
  - destruct Hf as (_ & Hi & Hlast).
    destruct (rest_unique _ _ _ _ Hi Hlast Hr) as [-> ->]. by destruct (rest_unique _ _ _ _ Hi Hlast Hr') as [-> ->].
  - assert (forall p h, ~ rest_ok v p (Some h)) as Hno.
    { intros p h [Ev _]. apply (Hf (length p)); [rewrite Ev, length_app; cbn; lia|].
      by rewrite Ev, lookup_app_r, Nat.sub_diag by lia. }
    destruct ha as [h|]; [by destruct (Hno _ _ Hr)|]. destruct ha' as [h|]; [by destruct (Hno _ _ Hr')|].
    destruct Hr as [E4 _], Hr' as [E5 _]. rewrite app_nil_r in E4, E5. by rewrite <- E4, <- E5.
Qed.

Lemma uri_resolve_written t junk : well_formed t -> text (written t) -> Z.of_nat (length (written t)) <= 4095 ->
  uri_resolve optional_resource (written t ++ 0 :: junk) = Ok (Some (parts_of t)).
Proof.
  intros Hwf Ht Hl. pose proof (uri_resolve_spec (written t) junk Ht) as H.
  destruct (uri_resolve _ _) as [[p|]|m| |]; cbn in H; try done.
  - destruct H as (t' & Hwf' & E & _ & ->). by rewrite (written_inj t t').
  - specialize (H t Hwf eq_refl). lia.
  - destruct H as [_ H]. specialize (H t Hwf eq_refl). lia.
Qed.
End Resolve.

(** * Finding the file of a URI

    The parsing of roots stays inside its strings, so the dispatch returns, or
    panics with a message, for every text. *)
(** A string with its terminator. *)
Definition cstr (s : list Z) : Prop := exists l t, s = l ++ 0 :: t /\ text l.

Lemma cstr_in s : cstr s -> In 0 s.
Proof. intros (l & t & -> & _). apply in_or_app. right. by left. Qed.

Lemma strtoui_loop_total s base n i : In 0 s ->
  exists v k, strtoui_loop s base n i = Ok (v, (i + k)%nat) /\ (k < length s)%nat /\ In 0 (drop k s).
Proof.
  revert n i. induction s as [|c s IH]; intros n i Hin; [done|]. cbn [strtoui_loop].
  destruct (_ || _) eqn:E.
  { exists n, 0%nat. rewrite Nat.add_0_r. split_and!; [done|cbn; lia|done]. }
  assert (In 0 s) as Hs.
  { destruct Hin as [->|]; [|done]. cbn in E. done. }
  destruct (CHECKED_MUL n base) as [m|].
  2: { exists UINT64_MAX, 0%nat. rewrite Nat.add_0_r. split_and!; [done|cbn; lia|done]. }
  destruct (CHECKED_ADD m _) as [m'|].
  2: { exists UINT64_MAX, 0%nat. rewrite Nat.add_0_r. split_and!; [done|cbn; lia|done]. }
  destruct (IH m' (S i) Hs) as (v & k & -> & Hk & Hd). exists v, (S k). split_and!; [do 2 f_equal; lia|cbn; lia|done].
Qed.

Lemma strtoui_total s base : In 0 s -> exists v k, strtoui s base = Ok (v, k) /\ (k < length s)%nat /\ In 0 (drop k s).
Proof. intros H. destruct (strtoui_loop_total s base 0 0 H) as (v & k & E & Hk). by exists v, k. Qed.

Lemma inet_pton_total n s : In 0 s -> exists r, inet_pton_loop n s = Ok r.
Proof.
  revert s. induction n as [|n IH]; intros s Hin; cbn [inet_pton_loop]; [eauto|].
  destruct (strtoui_total s 10 Hin) as (v & k & -> & Hk & Hd). cbn [rbind]. case_if; [eauto|].
  destruct (drop k s) as [|c rest] eqn:Ed; [done|]. change (rd (c :: rest) 0) with (@Ok Z c). cbn [rbind].
  destruct (c =? (if (n =? 0)%nat then 0 else 46)) eqn:E; bool_hyps; cbn [negb]; [|eauto]. case_if; [eauto|].
  destruct n as [|n]; [cbn; eauto|]. change (drop 1 (c :: rest)) with rest. destruct (IH rest) as [r ->]; [|cbn; eauto].
  destruct Hd as [->|]; [|done]. by cbn in E.
Qed.

Lemma split_colon_total s : In 0 s -> exists r, split_colon s = Ok r /\
  forall b a, r = Some (b, a) -> In 0 b /\ In 0 a.
Proof.
  induction s as [|c s IH]; intros Hin; [done|]. cbn [split_colon].
  destruct (c =? 0) eqn:E0; bool_hyps; [by exists None|]. destruct Hin as [?|Hin]; [congruence|].
  case_if; [eexists; split; [done|]; intros b a [= <- <-]; split; [by left|done]|].
  destruct (IH Hin) as (r & -> & Hr). cbn. eexists. split; [done|]. destruct r as [[b a]|]; cbn; [|done].
  intros b' a' [= <- <-]. destruct (Hr b a eq_refl). split; [by right|done].
Qed.

(** ** GUIDs *)
Lemma is_valid_guid_total s : forall i, (i <= 36)%nat -> In 0 s -> exists b, is_valid_guid_from i s = Ok b /\
  (b = true -> (36 - i < length s)%nat).
Proof.
  induction s as [|c s IH]; intros i Hi Hin; [done|]. cbn [is_valid_guid_from].
  assert (c <> 0 -> (i < 36)%nat -> exists b, is_valid_guid_from (S i) s = Ok b /\ (b = true -> (36 - i < length (c :: s))%nat)) as Hnext.
  { intros Hc Hlt. destruct Hin as [?|Hin]; [congruence|]. destruct (IH (S i)) as (b & -> & Hb); [lia|done|].
    exists b. split; [done|]. intros ->. specialize (Hb eq_refl). cbn. lia. }
  destruct ((i =? 8)%nat || (i =? 13)%nat || (i =? 18)%nat || (i =? 23)%nat) eqn:Ed.
  - destruct (c =? 45) eqn:E; bool_hyps; cbn [negb]; [|eexists; split; [done|]; done].
    apply Hnext; [lia|]. rewrite !orb_true_iff, !Nat.eqb_eq in Ed. lia.
  - destruct (i =? 36)%nat eqn:E36; [apply Nat.eqb_eq in E36; eexists; split; [done|]; cbn; lia|].
    apply Nat.eqb_neq in E36. destruct (digit_to_int c =? -1) eqn:E; bool_hyps; [eexists; split; [done|]; done|].
    apply Hnext; [|lia]. intros ->. by apply E.
Qed.

Lemma guid_digits s off n : is_valid_guid s = Ok true -> (36 < length s)%nat -> (off + n <= 36)%nat ->
  (forall i, (i < n)%nat -> dash_at (off + i) = false) ->
  digits_at (drop off s) (fun i => digit_to_int (nth (off + i) s 0)) 0 n.
Proof.
  intros Hv Hl Ho Hd i Hi. apply (is_valid_guid_from_iff 36 0) in Hv as [Hv _]; [|done|done].
  destruct (lookup_lt_is_Some_2 s (off + i)) as [c Hc]; [lia|].
  specialize (Hv (off + i)%nat c ltac:(lia) Hc). unfold guid_char in Hv. cbn [Nat.add] in Hv. rewrite Hd in Hv by lia.
  rewrite (nth_lookup_Some _ _ _ _ Hc). pose proof (digit_to_int_range c). split; [lia|].
  exists c. by rewrite lookup_drop.
Qed.

Section Clusters.
Variable s : list Z.
Hypothesis Hv : is_valid_guid s = Ok true.
Hypothesis Hl : (36 < length s)%nat.

Lemma be_total dest off o n : (o + 2 * n <= 36)%nat -> (forall i, (i < 2 * n)%nat -> dash_at (o + i) = false) ->
  (off + n <= length dest)%nat ->
  exists dest', guid_convert_be_cluster dest off (drop o s) (2 * n) = Ok dest' /\ length dest' = length dest.
Proof.
  intros Ho Hd Hoff. eexists. split; [apply be_cluster_spec; [done|by apply guid_digits]|]. by rewrite length_inserts.
Qed.

Lemma le_total dest off o n : (o + 2 * n <= 36)%nat -> (forall i, (i < 2 * n)%nat -> dash_at (o + i) = false) ->
  (off + n <= length dest)%nat ->
  exists dest', guid_convert_le_cluster dest off (drop o s) (2 * n) = Ok dest' /\ length dest' = length dest.
Proof.
  intros Ho Hd Hoff. eexists. split; [apply le_cluster_spec; [done|by apply guid_digits]|]. by rewrite length_inserts.
Qed.
End Clusters.

(** Converts the cluster of [k] digits at [o]. *)
Ltac cluster total o n :=
  match goal with
  | |- context [rbind (?f ?dest ?off _ ?k) _] =>
      let b := fresh "b" in let E := fresh "E" in let L := fresh "L" in
      destruct (total dest off o n) as (b & E & L);
      [lia | intros i Hi; unfold dash_at; rewrite !(proj2 (Nat.eqb_neq _ _)) by lia; reflexivity | lia | ];
      change (2 * n)%nat with k in E; try change (drop 0 ?s) with s in E; rewrite E; cbn [rbind]; clear E
  end.

Lemma string_to_guid_total g s : length (g_d g) = 8%nat -> In 0 s ->
  (exists r, string_to_guid_mixed g s = Ok r /\ forall g', r = Some g' -> length (g_d g') = 8%nat) /\
  (exists r, string_to_guid_be g s = Ok r).
Proof.
  intros Hg Hin. unfold string_to_guid_mixed, string_to_guid_be.
  destruct (is_valid_guid_total s 0 ltac:(lia) Hin) as (b & Hb & Hlen).
  unfold is_valid_guid. rewrite Hb. cbn [rbind]. destruct b; cbn [negb]; [|split; eexists; done].
  specialize (Hlen eq_refl). pose proof (length_guid_bytes g Hg) as H16.
  pose proof (be_total s Hb ltac:(lia)) as Hbe. pose proof (le_total s Hb ltac:(lia)) as Hle. split.
  - cluster Hle 0%nat 4%nat. cluster Hle 9%nat 2%nat. cluster Hle 14%nat 2%nat. cluster Hbe 19%nat 2%nat.
    cluster Hbe 24%nat 6%nat. eexists. split; [done|]. intros g' [= <-]. cbn. rewrite length_drop. lia.
  - cluster Hbe 0%nat 4%nat. cluster Hbe 9%nat 2%nat. cluster Hbe 14%nat 2%nat. cluster Hbe 19%nat 2%nat.
    cluster Hbe 24%nat 6%nat. eauto.
Qed.

(** ** The dispatch *)
Lemma strcmp_total s name : cstr s -> text (bytes name) -> exists b, is_resource s name = Ok b.
Proof.
  intros (l & t & -> & Hl) Hn. unfold is_resource, cstring.
  destruct (string_comparisons l t (bytes name) [] 0 Hl Hn) as (-> & _). cbn. eauto.
Qed.

Section Dispatch.
Context {D H : Type} `{!FileSystem D H} `{!FileSystemOk D H}.
Variable optional_resource uefi boot_pxe : bool.
Variables (boot_volume : vol_id) (stack_guid : guid).
Hypothesis Hguid : length (g_d stack_guid) = 8%nat.

Definition opened_ok (r : option H * D) : Prop := d_valid r.2 /\ forall fd, r.1 = Some fd -> f_valid fd.

Lemma uri_error_post msg (d : D) : d_valid d ->
  res_post opened_ok (fun _ => True) (let! _ := URI_ERROR optional_resource msg in Ok (None, d)).
Proof. intros Hd. unfold URI_ERROR. by case_if. Qed.

Lemma search_again_post find (d : D) : d_valid d -> (forall idx, exists r, find idx = Ok r) ->
  exists r, search_again uefi find d = Ok r /\ d_valid r.2.
Proof.
  intros Hd Hf. unfold search_again. destruct (Hf (volume_index d)) as [[v|] ->]; cbn [rbind]; [by eexists|].
  unfold connect_all. pose proof (connect_valid d Hd) as Hc.
  destruct uefi; [|by eexists]. destruct (disk_connect_all d) as [[|] d'] eqn:E; cbn in Hc; [|by eexists].
  destruct (Hf (volume_index d')) as [r ->]. by eexists.
Qed.

Lemma open_on_post path r : In 0 path -> Z.of_nat (length path) <= 4096 -> d_valid r.2 ->
  res_post opened_ok (fun _ => True) (open_on path r).
Proof.
  intros Hp Hl Hd. destruct r as [[v|] d]; cbn in *; [by apply fopen_valid|]. by split.
Qed.

Lemma uri_bios_dispatch_post optical d loc path :
  d_valid d -> In 0 loc -> In 0 path -> Z.of_nat (length path) <= 4096 ->
  res_post opened_ok (fun _ => True) (uri_bios_dispatch optional_resource uefi optical d loc path).
Proof.
  intros Hd Hloc Hp Hl. unfold uri_bios_dispatch.
  assert (res_post (fun _ => True) (fun _ => True) (parse_bios_partition optional_resource loc)) as Hparse.
  { unfold parse_bios_partition. destruct (split_colon_total loc Hloc) as (r & -> & Hr). cbn [rbind].
    destruct r as [[b a]|]; [|done]. destruct (Hr b a eq_refl) as [Hb Ha].
    destruct b as [|c b]; [done|]. change (rd (c :: b) 0) with (@Ok Z c). cbn [rbind]. unfold URI_ERROR.
    case_if; [by case_if|]. destruct (strtoui_total (c :: b) 10 Hb) as (v & k & -> & _). cbn [rbind].
    case_if; [by case_if|]. destruct (strtoui_total a 10 Ha) as (v2 & k2 & -> & _). cbn [rbind].
    case_if; [by case_if|done]. }
  eapply res_post_bind; [exact Hparse|]. intros [[drive partition]|] _; [|by split].
  destruct (search_again_post (fun idx => Ok (volume_get_by_coord idx optical drive partition)) d Hd) as (r & E & Hr); [eauto|].
  unfold volume_by_coord. rewrite E. by apply open_on_post.
Qed.

Lemma uri_guid_dispatch_post d s path :
  d_valid d -> In 0 s -> In 0 path -> Z.of_nat (length path) <= 4096 ->
  res_post opened_ok (fun _ => True) (uri_guid_dispatch uefi stack_guid d s path).
Proof.
  intros Hd Hs Hp Hl. unfold uri_guid_dispatch.
  destruct (search_again_post (volume_by_guid_str stack_guid s) d Hd) as (r & -> & Hr); [|by apply open_on_post].
  intros idx. unfold volume_by_guid_str.
  destruct (string_to_guid_total stack_guid s Hguid Hs) as [(r & -> & Hr) _]. cbn [rbind]. destruct r as [g|]; [|eauto].
  destruct (volume_get_by_guid idx _); [eauto|].
  destruct (string_to_guid_total g s (Hr g eq_refl) Hs) as [_ [[g2|] ->]]; cbn; eauto.
Qed.

Lemma uri_tftp_dispatch_post d root path :
  d_valid d -> cstr root -> In 0 path -> res_post opened_ok (fun _ => True) (uri_tftp_dispatch optional_resource d root path).
Proof.
  intros Hd Hr Hp. unfold uri_tftp_dispatch. pose proof (cstr_in _ Hr) as Hin. destruct Hr as (l & t & -> & Hl).
  destruct (string_comparisons l t (bytes "") [] 0 Hl ltac:(constructor)) as (E & _). unfold cstring. rewrite E. cbn [rbind].
  destruct (inet_pton_total 4 _ Hin) as [r Er].
  assert (exists ok, (if lex l (bytes "") =? 0 then Ok true
    else let! ip := inet_pton (l ++ 0 :: t) in Ok (match ip with Some _ => true | None => false end)) = Ok ok) as [ok ->].
  { case_if; [eauto|]. unfold inet_pton. rewrite Er. cbn. eauto. }
  cbn [rbind]. destruct ok; cbn [negb]; [by apply tftp_valid|by apply uri_error_post].
Qed.

Lemma uri_boot_dispatch_post d s path :
  d_valid d -> cstr s -> In 0 path -> Z.of_nat (length path) <= 4096 ->
  res_post opened_ok (fun _ => True) (uri_boot_dispatch optional_resource boot_volume boot_pxe d s path).
Proof.
  intros Hd Hs Hp Hl. unfold uri_boot_dispatch. destruct boot_pxe; [by apply uri_tftp_dispatch_post|].
  pose proof (cstr_in _ Hs) as Hin. destruct s as [|c s]; [done|].
  change (rd (c :: s) 0) with (@Ok Z c). cbn [rbind].
  destruct (strtoui_total (c :: s) 10 Hin) as (v & k & E & _).
  assert (res_post (fun _ => True) (fun _ => True)
    (if negb (c =? 0) then
       let! (val, _) := strtoui (c :: s) 10 in
       if 256 <? val then let! _ := URI_ERROR optional_resource "Partition number outside range 0-256" in Ok None else Ok (Some val)
     else Ok (Some (vi_partition boot_volume)))) as Hpart.
  { rewrite E. cbn [rbind]. unfold URI_ERROR. repeat case_if; done. }
  eapply res_post_bind; [exact Hpart|]. intros [partition|] _; [by apply open_on_post|by split].
Qed.

Lemma uri_dispatch_post d resource root path :
  d_valid d -> cstr resource -> cstr root -> In 0 path -> Z.of_nat (length path) <= 4096 ->
  res_post opened_ok (fun _ => True) (uri_dispatch optional_resource uefi boot_volume boot_pxe stack_guid d resource root path).
Proof.
  intros Hd Hre Hro Hp Hl. unfold uri_dispatch. pose proof (cstr_in _ Hro) as Hin.
  repeat match goal with
  | |- context [is_resource resource ?name] =>
      destruct (strcmp_total resource name Hre ltac:(by repeat constructor)) as [[|] ->]; cbn [rbind]
  end.
  1, 2: by apply uri_bios_dispatch_post.
  - by apply uri_boot_dispatch_post.
  - by apply uri_guid_dispatch_post.
  - by apply uri_guid_dispatch_post.
  - unfold uri_fslabel_dispatch.
    destruct (search_again_post (fun idx => Ok (volume_get_by_fslabel idx root)) d Hd) as (r & E & Hr); [eauto|].
    rewrite E. by apply open_on_post.
  - by apply uri_tftp_dispatch_post.
  - by apply uri_error_post.
Qed.
End Dispatch.
