(* ===== verification/UriOpen.v ===== *)
(** * Loading a file: [uri_open] of [common/lib/uri.c] over the gzip layer

    The compressed image of a file with a digest is copied into a block of its
    own, checked there and inflated from that same copy; an uncompressed file is
    hashed while it is copied.  The buffer for inflated data grows downwards in
    place where the memory below it is free, and moves otherwise.

    The physical memory is that of [Pmm], so the blocks the function takes,
    moves and releases are part of the state.  The handles and buffers that the
    file layer and the filters keep for themselves are not represented. *)

From S2P Require Import Prelude CInt Memmap Pmm Libc Guid Blake2b Volume Gpt Mbr File Uri.

(** ** Bytes in physical memory *)
Definition load_bytes (r : Z -> Z) (a n : Z) : list Z := map r (seqZ a n).

Definition store_bytes (r : Z -> Z) (a : Z) (bs : list Z) : Z -> Z :=
  fun x => if (a <=? x) && (x <? a + Z.of_nat (length bs)) then nth (Z.to_nat (x - a)) bs 0 else r x.

(** ** The inflater

    A call pulls input, each time at most [len] bytes, and ends with output,
    or with [None] when the data is bad. *)
Inductive pull (gz : Type) : Type :=
| Done (out : option (list Z)) (g : gz)
| Pull (len : Z) (k : list Z -> pull gz).
Arguments Done {gz} out g.
Arguments Pull {gz} len k.

Class Inflater (gz : Type) := {
  pdgzip_init : gz;
  pdgzip_read : gz -> Z -> pull gz;
}.

(** The API of the library: at most the bytes asked for. *)
Fixpoint pull_ok {gz : Type} (count : Z) (t : pull gz) : Prop :=
  match t with
  | Done (Some out) _ => Z.of_nat (length out) <= count /\ Forall is_byte out
  | Done None _ => True
  | Pull len k => 0 <= len < 2 ^ 64 /\ forall bs, pull_ok count (k bs)
  end.

Class InflaterOk (gz : Type) `{!Inflater gz} : Prop := {
  pdgzip_read_ok : forall g count, 0 <= count < 2 ^ 64 -> pull_ok count (pdgzip_read g count);
}.

(** The limits of [gzip_read] and [uri_open]. *)
Definition DISCARD : Z := 4096.
Definition CHUNK : Z := 65536.

(** ** The gzip layer *)
Record gzip_handle (gz : Type) := MkGzip { g_gz : gz; src_pos : Z; dec_pos : Z }.
Arguments MkGzip {gz} _ _ _.
Arguments g_gz {gz} _.
Arguments src_pos {gz} _.
Arguments dec_pos {gz} _.

Section Gzip.
Context {D gz : Type} `{!Inflater gz}.
(** The compressed file: its size and [fread] on it. *)
Variable size : Z.
Variable source : D -> Z -> Z -> res (list Z * D).

Definition gz_source_read (d : D) (pos len : Z) : res (list Z * Z * D) :=
  let avail := u64 (size - pos) in
  let len := if avail <? len then avail else len in
  if len =? 0 then Ok ([], pos, d)
  else
    let! (bs, d) := source d pos len in
    Ok (bs, u64 (pos + Z.of_nat (length bs)), d).

(** A call of [pdgzip_read] with its callbacks. *)
Fixpoint run_pull (t : pull gz) (pos : Z) (d : D) : res (option (list Z) * gz * Z * D) :=
  match t with
  | Done out g => Ok (out, g, pos, d)
  | Pull len k => let! (bs, pos, d) := gz_source_read d pos len in run_pull (k bs) pos d
  end.

Definition gz_reset : gzip_handle gz := MkGzip pdgzip_init 0 0.

(** One [pdgzip_read] of at most [limit] bytes out of [left]. *)
Definition gz_pull (limit left : Z) (d : D) (gh : gzip_handle gz) : res (option (list Z) * gzip_handle gz * D) :=
  let chunk := if limit <? left then limit else left in
  let! (out, g, pos, d) := run_pull (pdgzip_read (g_gz gh) chunk) (src_pos gh) d in
  match out with
  | None => Ok (None, MkGzip g pos (dec_pos gh), d)
  | Some bs => Ok (Some bs, MkGzip g pos (u64 (dec_pos gh + Z.of_nat (length bs))), d)
  end.

Definition seek_body (loc : Z) (s : D * gzip_handle gz) : res (D * gzip_handle gz + bool * (D * gzip_handle gz)) :=
  let '(d, gh) := s in
  if negb (dec_pos gh <? loc) then Ok (inr (true, s))
  else
    let! (out, gh, d) := gz_pull DISCARD (loc - dec_pos gh) d gh in
    match out with
    | None => Panic "gzip: decompression error during seek"
    | Some [] => Ok (inr (false, (d, gh)))
    | Some _ => Ok (inl (d, gh))
    end.

Definition inflate_body (s : D * gzip_handle gz * Z * list Z)
    : res (D * gzip_handle gz * Z * list Z + (list Z * D * gzip_handle gz)) :=
  let '(d, gh, remaining, dst) := s in
  if negb (0 <? remaining) then Ok (inr (dst, d, gh))
  else
    let! (out, gh, d) := gz_pull CHUNK remaining d gh in
    match out with
    | None => Panic "gzip: decompression error"
    | Some [] => Ok (inr (dst, d, gh))
    | Some bs => Ok (inl (d, gh, remaining - Z.of_nat (length bs), dst ++ bs))
    end.

(** The bytes stored; their number is the value returned. *)
Definition gzip_read (d : D) (gh : gzip_handle gz) (loc count : Z) : res (list Z * D * gzip_handle gz) :=
  let gh := if loc <? dec_pos gh then gz_reset else gh in
  let! (reached, s) := loop (seek_body loc) (fun '(_, gh) => loc - dec_pos gh) (d, gh) in
  let '(d, gh) := s in
  if negb reached then Ok ([], d, gh)
  else loop inflate_body (fun '(_, _, remaining, _) => remaining) (d, gh, count, []).
End Gzip.

(** ** [uri_open] *)

(** What the inflater reads from: the file itself, or the checked copy of it in
    memory behind a handle of its own. *)
Inductive gz_source (H : Type) : Type :=
| FromFile (fd : H)
| FromMemory (handle addr size : Z).
Arguments FromFile {H} fd.
Arguments FromMemory {H} handle addr size.

(** The handle returned: a file in memory. *)
Record memfile := MkMemfile {
  m_handle : Z;
  m_addr : Z;             (** [fd] and [load_addr_64] *)
  m_size : Z;
  m_vol : vol_id;
  m_path : option Z;
  m_path_len : Z;
  m_pxe : bool;
  m_pxe_ip : list Z;
  m_pxe_port : Z;
}.

(** [struct file_handle] of the 64-bit UEFI builds. *)
Definition sizeof_file_handle : Z := 88.

(** The digest written in hexadecimal. *)
Fixpoint hash_digits (n : nat) (hash : list Z) : res (list Z) :=
  match n with
  | O => Ok []
  | S n =>
      let! hi := rd hash 0 in
      let! lo := rd hash 1 in
      let! rest := hash_digits n (drop 2 hash) in
      Ok (u8 (Z.lor (Z.shiftl (digit_to_int hi) 4) (digit_to_int lo)) :: rest)
  end.

Section UriOpen.
Context {D H gz : Type} `{!FileSystem D H} `{!Inflater gz}.
(** The build: the capacity of the memory map and whether it is for x86. *)
Variable max_entries : nat.
Variable x86 : bool.
Variables (uefi boot_pxe : bool) (boot_volume : vol_id) (stack_guid : guid).
(** The flags of the running system, and what [getchar] answers to the prompt. *)
Variables (optional_resource secure_boot_active hash_mismatch_panic : bool) (key : Z).

(** ** Memory *)
Definition uri_release_range (st : pmm) (addr count : Z) : res pmm :=
  match ALIGN_UP count 4096 with
  | None => Panic "uri: alignment overflow"
  | Some count =>
      let! (_, st) := memmap_alloc_range max_entries st addr count MEMMAP_USABLE 0 false false true in Ok st
  end.

Definition uri_alloc (st : pmm) (count type : Z) (allow_high_mem : bool) : res (Z * pmm) :=
  let! (ret, st) := ext_mem_alloc_type_aligned_mode max_entries x86 false st count type 4096 allow_high_mem in
  let! addr := of_option ret in
  Ok (addr, st).

(** [ext_mem_alloc], which never returns NULL. *)
Definition alloc (st : pmm) (count : Z) : res (Z * pmm) :=
  let! (ret, st) := ext_mem_alloc max_entries x86 false st count in
  let! addr := of_option ret in
  Ok (addr, st).

(** Whether to use the resource anyway; leaving for the menu does not return. *)
Definition uri_hash_mismatch : res bool :=
  if hash_mismatch_panic || optional_resource then
    let! _ := URI_ERROR optional_resource "Blake2b hash for URI `%#` does not match!" in Ok false
  else if negb (key =? 89) && negb (key =? 121) then Panic "menu"
  else Ok true.

(** The copy of the path of the file opened. *)
Definition copy_path (st : pmm) (path : option (list Z)) : res (option Z * pmm) :=
  match path with
  | Some ((_ :: _) as p) =>
      let! (addr, st) := alloc st (Z.of_nat (length p)) in
      Ok (Some addr, with_ram st (store_bytes (ram st) addr p))
  | _ => Ok (None, st)
  end.

Definition path_len (path : option (list Z)) : Z :=
  match path with Some p => Z.of_nat (length p) | None => 0 end.

(** ** The compressed image *)

(** [fread] on what the inflater reads from, and closing it. *)
Definition source_size (src : gz_source H) : Z :=
  match src with FromFile fd => f_size fd | FromMemory _ _ size => size end.

Definition source_read (r : Z -> Z) (src : gz_source H) (d : D) (loc count : Z) : res (list Z * D) :=
  match src with
  | FromFile fd => fread d fd loc count
  | FromMemory _ addr size =>
      if (size <? loc) || (size - loc <? count) then Panic "fread: attempted out of bounds read"
      else Ok (load_bytes r (addr + loc) count, d)
  end.

Definition source_close (st : pmm) (src : gz_source H) : res pmm :=
  match src with
  | FromFile _ => Ok st
  | FromMemory handle addr size =>
      let! st := pmm_free max_entries st (Some addr) size in
      pmm_free max_entries st (Some handle) sizeof_file_handle
  end.

(** Copying the image, and checking it where it lies; [None] when it is refused. *)
Definition check_compressed (st : pmm) (d : D) (raw : H) (hash_buf : list Z) (allow_high_mem : bool)
    : res (option (gz_source H) * pmm * D) :=
  let compressed_size := u64 (f_size raw) in
  if negb (compressed_size =? f_size raw) then
    let! _ := URI_ERROR optional_resource "Resource `%#` is too large to hash" in Ok (None, st, d)
  else
    let! (addr, st) := uri_alloc st compressed_size MEMMAP_BOOTLOADER_RECLAIMABLE allow_high_mem in
    let! (bs, d) := fread d raw 0 compressed_size in
    let st := with_ram st (store_bytes (ram st) addr bs) in
    if negb (Z.of_nat (length bs) =? compressed_size) then Panic "uri: short read of compressed resource"
    else
      let! r := memcmp (blake2b (load_bytes (ram st) addr compressed_size)) hash_buf BLAKE2B_OUT_BYTES in
      let! use := if negb (r =? 0) then uri_hash_mismatch else Ok true in
      if negb use then let! st := uri_release_range st addr compressed_size in Ok (None, st, d)
      else
        let! (top, st) := alloc st sizeof_file_handle in
        Ok (Some (FromMemory top addr compressed_size), st, d).

(** ** The buffer for inflated data *)
Record buffer := MkBuffer { b_addr : Z; b_cap : Z; b_len : Z }.

Definition grown (cap : Z) : Z := if cap <? 0x4000000 then u64 (cap * 2) else u64 (cap + 0x4000000).

Definition grow (type : Z) (allow_high_mem : bool) (st : pmm) (b : buffer) : res (buffer * pmm) :=
  let '(MkBuffer addr cap len) := b in
  let new_cap := grown cap in
  let delta := u64 (new_cap - cap) in
  let! (below, st) :=
    if delta <=? addr then memmap_alloc_range max_entries st (addr - delta) delta type MEMMAP_USABLE false false false
    else Ok (false, st) in
  if below : bool then
    let base := addr - delta in
    Ok (MkBuffer base new_cap len, with_ram st (memmove (ram st) base addr (Z.to_nat len)))
  else
    let! (new_addr, st) := uri_alloc st new_cap type allow_high_mem in
    let st := with_ram st (c_memcpy (ram st) new_addr addr (Z.to_nat len)) in
    let! st := uri_release_range st addr cap in
    Ok (MkBuffer new_addr new_cap len, st).

Definition drain_body (type : Z) (allow_high_mem : bool) (src : gz_source H)
    (s : pmm * D * gzip_handle gz * buffer)
    : res (pmm * D * gzip_handle gz * buffer + pmm * D * gzip_handle gz * buffer) :=
  let '(st, d, gh, b) := s in
  let! (b, st) := if b_len b =? b_cap b then grow type allow_high_mem st b else Ok (b, st) in
  let want := u64 (b_cap b - b_len b) in
  let want := if CHUNK <? want then CHUNK else want in
  let loc := b_len b in
  let! (bs, d, gh) :=
    if (UINT64_MAX <? loc) || (UINT64_MAX - loc <? want) then Panic "fread: attempted out of bounds read"
    else gzip_read (source_size src) (source_read (ram st) src) d gh loc want in
  let st := with_ram st (store_bytes (ram st) (b_addr b + b_len b) bs) in
  match bs with
  | [] => Ok (inr (st, d, gh, b))
  | _ => Ok (inl (st, d, gh, MkBuffer (b_addr b) (b_cap b) (u64 (b_len b + Z.of_nat (length bs)))))
  end.

Definition drain_variant (s : pmm * D * gzip_handle gz * buffer) : Z := 2 ^ 64 - b_len s.2.

(** Inflating everything, and giving the pages past the data back. *)
Definition drain (type : Z) (allow_high_mem : bool) (st : pmm) (d : D) (src : gz_source H)
    : res (Z * Z * pmm * D) :=
  let cap := 0x100000 in
  let! (addr, st) := uri_alloc st cap type allow_high_mem in
  let! (st, d, _, b) := loop (drain_body type allow_high_mem src) drain_variant
                          (st, d, gz_reset, MkBuffer addr cap 0) in
  match ALIGN_UP (b_len b) 4096 with
  | None => Panic "uri: alignment overflow"
  | Some kept =>
      let kept := if kept =? 0 then 4096 else kept in
      let! st := if kept <? b_cap b then uri_release_range st (b_addr b + kept) (u64 (b_cap b - kept)) else Ok st in
      Ok (b_addr b, b_len b, st, d)
  end.

(** ** An uncompressed file

    One copy, through the hashing filter [h] if there is one: what the filter
    is given is what the drivers stored. *)
Definition copy_in (type : Z) (allow_high_mem : bool) (st : pmm) (d : D) (raw : H) (h : option blake2b_handle)
    : res (Z * Z * option blake2b_handle * pmm * D) :=
  let sz := f_size raw in
  let! (addr, st) := uri_alloc st sz type allow_high_mem in
  if negb (0 <? sz) then Ok (addr, sz, h, st, d)
  else
    let! (bs, d) := fread d raw 0 sz in
    let! (bs, h) :=
      match h with
      | Some h => let! (bs, h) := blake2b_read (fun _ _ => Ok bs) h 0 sz in Ok (bs, Some h)
      | None => Ok (bs, None)
      end in
    let st := with_ram st (store_bytes (ram st) addr bs) in
    if negb (Z.of_nat (length bs) =? sz) then Panic "uri: short read from non-gzip stream"
    else Ok (addr, sz, h, st, d).

(** The handle that is returned. *)
Definition uri_result (st : pmm) (d : D) (addr size : Z) (meta : file_meta) (path : option Z)
    : res (option memfile * pmm * D) :=
  let! (out, st) := alloc st sizeof_file_handle in
  Ok (Some (MkMemfile out addr size (fm_vol meta) path
              (match path with Some _ => path_len (fm_path meta) | None => 0 end)
              (fm_pxe meta) (fm_pxe_ip meta) (fm_pxe_port meta)), st, d).

(** Loading a file that was opened, [hash] being its digest in hexadecimal. *)
Definition load_plain (type : Z) (allow_high_mem : bool) (st : pmm) (d : D) (raw : H)
    (hash_buf : option (list Z)) (path : option Z) : res (option memfile * pmm * D) :=
  let! (addr, size, h, st, d) :=
    copy_in type allow_high_mem st d raw (match hash_buf with Some _ => Some blake2b_open | None => None end) in
  let! use :=
    match h, hash_buf with
    | Some h, Some hash_buf =>
        let! (ok, _) := blake2b_check_hash h hash_buf in
        if negb ok then uri_hash_mismatch else Ok true
    | _, _ => Ok true
    end in
  if negb use then
    let! st := uri_release_range st addr size in
    let! st := pmm_free max_entries st path (path_len (fm_path (f_meta raw))) in
    Ok (None, st, d)
  else uri_result st d addr size (f_meta raw) path.

Definition load_compressed (type : Z) (allow_high_mem : bool) (st : pmm) (d : D) (raw : H)
    (hash_buf : option (list Z)) (path : option Z) : res (option memfile * pmm * D) :=
  let! (src, st, d) :=
    match hash_buf with
    | Some hash_buf => check_compressed st d raw hash_buf allow_high_mem
    | None => Ok (Some (FromFile raw), st, d)
    end in
  match src with
  | None => let! st := pmm_free max_entries st path (path_len (fm_path (f_meta raw))) in Ok (None, st, d)
  | Some src =>
      let! (addr, size, st, d) := drain type allow_high_mem st d src in
      let! st := source_close st src in
      uri_result st d addr size (f_meta raw) path
  end.

Definition load_raw (type : Z) (allow_high_mem gz_compressed : bool) (st : pmm) (d : D) (raw : H)
    (hash : option (list Z)) : res (option memfile * pmm * D) :=
  match hash with
  | None =>
      if secure_boot_active then
        let! _ := URI_ERROR optional_resource "Secure Boot is active and URI `%#` has no associated hash!" in
        Ok (None, st, d)
      else
        let! (path, st) := copy_path st (fm_path (f_meta raw)) in
        (if gz_compressed then load_compressed else load_plain) type allow_high_mem st d raw None path
  | Some hash =>
      let! hash_buf := hash_digits BLAKE2B_OUT_BYTES hash in
      let! (path, st) := copy_path st (fm_path (f_meta raw)) in
      (if gz_compressed then load_compressed else load_plain) type allow_high_mem st d raw (Some hash_buf) path
  end.

Definition uri_open (st : pmm) (d : D) (uri : list Z) (type : Z) (allow_high_mem : bool)
    : res (option memfile * pmm * D) :=
  let! parts := uri_resolve optional_resource uri in
  match parts with
  | None => Ok (None, st, d)
  | Some (MkUri resource root path hash) =>
      let! c := rd resource 0 in
      let gz_compressed := c =? 36 in
      let resource := if gz_compressed then drop 1 resource else resource in
      let! (raw, d) := uri_dispatch optional_resource uefi boot_volume boot_pxe stack_guid d resource root path in
      match raw with
      | None => Ok (None, st, d)
      | Some raw => load_raw type allow_high_mem gz_compressed st d raw hash
      end
  end.
End UriOpen.

(** [uri_open_optional]: the same with [optional_resource] set. *)
Definition uri_open_optional {D H gz : Type} `{!FileSystem D H} `{!Inflater gz} (max_entries : nat) (x86 uefi boot_pxe : bool)
    (boot_volume : vol_id) (stack_guid : guid) (secure_boot_active hash_mismatch_panic : bool) (key : Z)
    (st : pmm) (d : D) (uri : list Z) (type : Z) (allow_high_mem : bool) : res (option memfile * pmm * D) :=
  uri_open (gz := gz) max_entries x86 uefi boot_pxe boot_volume stack_guid true secure_boot_active
    hash_mismatch_panic key st d uri type allow_high_mem.
