(* ===== verification/UriLoad.v ===== *)
(** * Blocks of memory that a function takes, keeps and gives back

    The reasoning about [Pmm] that [uri_open] needs: [held] blocks stay out of
    usable memory and keep their contents and type while other blocks are
    taken, released and written. *)

From S2P Require Import Prelude CInt Memmap MemmapSem Separate Sanitise RangeAlloc Pmm PmmFacts Libc LibcProps Guid Blake2b Volume Gpt Mbr.
From S2P Require Import File Uri UriOpen.

(** Any message. *)
Definition any (msg : string) : Prop := True.

(** The messages of an allocator that has nothing left. *)
Definition no_memory (msg : string) : Prop :=
  exhausted msg \/ msg = "ext_mem_alloc: count overflows when aligning"%string \/ oom_msg msg.

Lemma weaken {A} (Q : A -> Prop) E r : res_post Q E r -> res_post Q any r.
Proof. intros H. by eapply res_post_mono. Qed.

Definition blk (p n a : Z) : Prop := inside p (p + n) a.

Lemma align_up_le x n y : 0 <= x <= n -> n mod 4096 = 0 -> ALIGN_UP x 4096 = Some y -> 0 <= y <= n.
Proof.
  intros Hx Hn Hy. apply align_up_Some in Hy as (-> & Hb & _); [|lia..].
  pose proof (Z.div_mod n 4096). pose proof (Z.div_mod (x + 4096 - 1) 4096).
  pose proof (Z.mod_pos_bound (x + 4096 - 1) 4096). nia.
Qed.

(** ** Bytes *)
Lemma length_load_bytes r a n : 0 <= n -> Z.of_nat (length (load_bytes r a n)) = n.
Proof. intros Hn. unfold load_bytes. rewrite length_map, length_seqZ. lia. Qed.

Lemma lookup_load_bytes r a n i : (i < Z.to_nat n)%nat -> load_bytes r a n !! i = Some (r (a + Z.of_nat i)).
Proof. intros Hi. unfold load_bytes. rewrite list_lookup_fmap, lookup_seqZ_lt by lia. done. Qed.

Lemma load_bytes_ext r r' a n : (forall x, blk a n x -> r' x = r x) -> load_bytes r' a n = load_bytes r a n.
Proof.
  intros H. unfold load_bytes. apply map_ext_in. intros x Hx. apply list_elem_of_In, elem_of_seqZ in Hx.
  apply H. unfold blk, inside. lia.
Qed.

Lemma load_bytes_app r a n m : 0 <= n -> 0 <= m ->
  load_bytes r a (n + m) = load_bytes r a n ++ load_bytes r (a + n) m.
Proof. intros Hn Hm. unfold load_bytes. by rewrite seqZ_app, map_app. Qed.

Lemma load_bytes_sub r a n k m : 0 <= k -> 0 <= m -> k + m <= n ->
  load_bytes r (a + k) m = take (Z.to_nat m) (drop (Z.to_nat k) (load_bytes r a n)).
Proof.
  intros Hk Hm Hn. replace n with (k + (m + (n - k - m))) by lia.
  rewrite load_bytes_app, load_bytes_app by lia.
  pose proof (length_load_bytes r a k Hk). pose proof (length_load_bytes r (a + k) m Hm).
  by rewrite drop_app_length', take_app_length' by lia.
Qed.

Lemma load_store_bytes r a bs : load_bytes (store_bytes r a bs) a (Z.of_nat (length bs)) = bs.
Proof.
  apply list_eq. intros i. destruct (decide (i < length bs)%nat) as [Hi|Hi].
  - rewrite lookup_load_bytes by lia. unfold store_bytes. rewrite (proj2 (Z.leb_le _ _)) by lia.
    rewrite (proj2 (Z.ltb_lt _ _)) by lia. cbn [andb]. replace (a + Z.of_nat i - a) with (Z.of_nat i) by lia.
    rewrite Nat2Z.id. destruct (lookup_lt_is_Some_2 bs i Hi) as [x Hx].
    rewrite Hx. f_equal. by apply nth_lookup_Some.
  - pose proof (length_load_bytes (store_bytes r a bs) a (Z.of_nat (length bs)) ltac:(lia)).
    rewrite !lookup_ge_None_2 by lia. done.
Qed.

Lemma store_bytes_other r a bs x : ~ blk a (Z.of_nat (length bs)) x -> store_bytes r a bs x = r x.
Proof. intros H. unfold store_bytes, blk, inside in *. solve_ifs. Qed.

Lemma store_bytes_nil r a x : store_bytes r a [] x = r x.
Proof. apply store_bytes_other. unfold blk, inside. cbn. lia. Qed.

(** ** Frames *)
Section Frame.
Variable max_entries : nat.
Variable x86 : bool.

(** The allocator works, and physical addresses have at most 63 bits. *)
Record alive (st : pmm) : Prop := {
  alive_inv : pmm_inv max_entries st;
  alive_open : allocations_disallowed st = false;
  alive_low : forall a, usable_at (memmap st) a -> a < 2 ^ 63;
}.

Definition taken (st : pmm) (X : Z -> Prop) : Prop := forall a, X a -> ~ usable_at (memmap st) a.

Record keeps (X : Z -> Prop) (st st' : pmm) : Prop := {
  k_alive : alive st';
  k_taken : taken st' X;
  k_ram : forall a, X a -> ram st' a = ram st a;
  k_type : forall t a, X a -> t <> MEMMAP_USABLE -> has_type (memmap st') t a <-> has_type (memmap st) t a;
}.

Lemma keeps_refl X st : alive st -> taken st X -> keeps X st st.
Proof. by split. Qed.

Lemma keeps_trans X st1 st2 st3 : keeps X st1 st2 -> keeps X st2 st3 -> keeps X st1 st3.
Proof.
  intros [A1 T1 R1 Y1] [A2 T2 R2 Y2]. split; try done.
  - intros a Ha. by rewrite R2, R1.
  - intros t a Ha Ht. by rewrite Y2, Y1.
Qed.

Lemma keeps_mono X Y st st' : (forall a, Y a -> X a) -> keeps X st st' -> keeps Y st st'.
Proof. intros H [A T R Z']. split; try done; [intros a Ha; apply T; auto|auto|auto]. Qed.

(** Writing outside. *)
Lemma keeps_ram X st r : alive st -> taken st X -> (forall a, X a -> r a = ram st a) -> keeps X st (with_ram st r).
Proof. intros [A1 A2 A3] T R. split; [by split|done..]. Qed.

(** A block just taken: of [n] bytes, a number of pages. *)
Record block (st' : pmm) (type p n : Z) : Prop := {
  bk_range : 0 <= p /\ 0 < n /\ p + n <= 2 ^ 63;
  bk_pages : p mod 4096 = 0 /\ n mod 4096 = 0;
  bk_taken : taken st' (blk p n);
  bk_type : forall a, blk p n a -> has_type (memmap st') type a;
}.

Lemma block_keeps st st' type p n :
  block st type p n -> type <> MEMMAP_USABLE -> keeps (blk p n) st st' -> block st' type p n.
Proof.
  intros [R P T Y] Hty [A T' _ Y']. split; try done. intros a Ha. apply Y'; auto.
Qed.

(** What a successful allocation gives. *)
Definition alloc_post (st : pmm) (X : Z -> Prop) (count type p : Z) (st' : pmm) : Prop :=
  keeps X st st' /\ exists n, count <= n /\ (forall k, count <= k -> 0 < k -> k mod 4096 = 0 -> n <= k) /\
    block st' type p n /\ forall a, blk p n a -> ~ X a.

Lemma alloc_impl_post st X count type high :
  alive st -> taken st X -> 0 <= count < 2 ^ 64 -> type <> MEMMAP_USABLE ->
  res_post (fun r => exists p, r.1 = Some p /\ alloc_post st X count type p r.2) no_memory
    (ext_mem_alloc_type_aligned_mode max_entries x86 false st count type 4096 high).
Proof.
  intros [Hinv Hdis Hlow] Htk Hc Hty. unfold ext_mem_alloc_type_aligned_mode.
  eapply res_post_mono; [apply ext_mem_alloc_impl_spec; try done; lia| |unfold no_memory; intuition].
  intros [[p|] st']; cbn [fst snd]; [|by intros [? _]].
  intros [Hinv' Hal [Hd _] (n & top & Hn & Hcn & _ & [Hsz Hfresh Hown Hgone Hoth Hus] & Hram)].
  assert (forall a, X a -> ~ inside p top a) as Hout.
  { intros a Ha Hin. by apply (Htk a Ha), Hfresh. }
  assert (forall a, blk p n a -> inside p top a) as Hsub by (unfold blk, inside; intros; lia).
  destruct (round_count_Some count 4096 n Hc ltac:(lia) Hn) as (Hn0 & _ & Hnm).
  exists p. split; [done|]. split.
  - split.
    + split; [done|congruence|]. intros a Hu. apply Hlow. destruct (decide (inside p top a)) as [Hin|Hin];
        [by destruct (Hgone Hty a Hin)|by apply Hus].
    + intros a Ha Hu. apply Hus in Hu; [|by apply Hout]. by apply (Htk a Ha).
    + intros a Ha. rewrite Hram. specialize (Hout a Ha). unfold inside in Hout. cbn [negb andb]. solve_ifs.
    + intros t a Ha Ht. apply Hoth; auto.
  - exists n. split_and!; [done| | |].
    + intros k Hk1 Hk0 Hkm. revert Hn. unfold round_count. rewrite (wrap_small 64) by lia.
      destruct (CHECKED_ADD _ _) as [c|] eqn:Ec; [|done]. intros [= <-]. apply checked_add_Some in Ec as [-> _].
      pose proof (align_down_spec ((if count =? 0 then 1 else count) + (4096 - 1)) 4096 ltac:(lia)) as Hd2.
      pose proof (align_down_mod ((if count =? 0 then 1 else count) + (4096 - 1)) 4096 ltac:(lia)) as Hm2.
      change (ALIGN_DOWN ?x 4096) with (align_down x 4096). remember (align_down _ 4096) as y eqn:Ey in *. clear Ey.
      assert (y < k + 4096) by (destruct (count =? 0) eqn:E0; bool_hyps; lia).
      pose proof (Z.div_mod y 4096). pose proof (Z.div_mod k 4096). nia.
    + assert (p + n - 1 < 2 ^ 63) by (apply Hlow, Hfresh; unfold inside; lia).
      split; [lia|by split| |].
      * intros a Ha. apply Hgone; auto.
      * intros a Ha. apply Hown; auto.
    + intros a Ha HX. by apply (Hout a HX), Hsub.
Qed.

Lemma uri_alloc_post st X count type high :
  alive st -> taken st X -> 0 <= count < 2 ^ 64 -> type <> MEMMAP_USABLE ->
  res_post (fun r => alloc_post st X count type r.1 r.2) no_memory (uri_alloc max_entries x86 st count type high).
Proof.
  intros Ha Ht Hc Hty. unfold uri_alloc. eapply res_post_bind; [by apply alloc_impl_post|].
  intros [q st'] (p & Hq & Hp). cbn in *. by subst q.
Qed.

Lemma alloc_alloc_post st X count :
  alive st -> taken st X -> 0 <= count < 2 ^ 64 ->
  res_post (fun r => alloc_post st X count MEMMAP_BOOTLOADER_RECLAIMABLE r.1 r.2) no_memory (alloc max_entries x86 st count).
Proof.
  intros Ha Ht Hc. unfold alloc, ext_mem_alloc, ext_mem_alloc_type, ext_mem_alloc_type_aligned.
  eapply res_post_bind; [by apply alloc_impl_post|].
  intros [q st'] (p & Hq & Hp). cbn in *. by subst q.
Qed.

(** Giving pages back. *)
Lemma release_post st X p n :
  alive st -> taken st X -> 0 <= p -> 0 <= n -> p + n <= 2 ^ 63 -> (forall a, blk p n a -> ~ X a) ->
  res_post (fun r => keeps X st r.2) any (memmap_alloc_range max_entries st p n MEMMAP_USABLE 0 false false true).
Proof.
  intros [Hinv Hdis Hlow] Htk Hp Hn Htop Hout. unfold memmap_alloc_range.
  destruct (decide (n = 0)) as [->|Hnz]; [cbn; destruct st; by apply keeps_refl|].
  eapply res_post_bind; [eapply res_post_mono; [apply memmap_alloc_range_in_post;
    [by eapply sanitised_wf|lia..]|intros r Hr; exact Hr|done]|].
  intros [b m1] [(_ & Hr & _)|(_ & _ & _ & ? & _)]; [|done]. cbn in Hr |- *. split; cbn.
  - split; [apply (rs_sanitised _ _ _ _ _ _ _ Hr)|done|]. cbn.
    intros a Hu. apply (rs_usable _ _ _ _ _ _ _ Hr) in Hu as [_ [[Hin _]|[_ [Hu _]]]];
      [unfold inside in Hin; lia|by apply Hlow].
  - intros a Ha Hu. apply (rs_usable _ _ _ _ _ _ _ Hr) in Hu as [_ [[Hin _]|[_ [Hu _]]]];
      [by apply (Hout a Hin)|by apply (Htk a Ha)].
  - done.
  - intros t a Ha Ht. cbn. rewrite (rs_other _ _ _ _ _ _ _ Hr) by done. unfold blk in Hout.
    split; [intros [[Hin _]|[_ ?]]; [by destruct (Hout a Hin)|done]|].
    intros H. right. split; [|done]. intros Hin. by destruct (Hout a Hin).
Qed.

Lemma uri_release_range_post st X p n count :
  alive st -> taken st X -> 0 <= p -> p + n <= 2 ^ 63 -> n mod 4096 = 0 -> 0 <= count <= n ->
  (forall a, blk p n a -> ~ X a) ->
  res_post (fun st' => keeps X st st') any (uri_release_range max_entries st p count).
Proof.
  intros Ha Ht Hp Hn Hm Hc Hout. unfold uri_release_range. destruct (ALIGN_UP count 4096) as [c|] eqn:E; [|done].
  pose proof (align_up_le _ _ _ Hc Hm E). eapply res_post_bind.
  - apply (release_post st X p c); try done; try lia. intros a Hin. apply Hout. unfold blk, inside in *. lia.
  - by intros [b st'].
Qed.

Lemma free_post st X p n count :
  alive st -> taken st X -> 0 <= p -> p + n <= 2 ^ 63 -> p mod 4096 = 0 -> 0 < n -> n mod 4096 = 0 -> 0 <= count <= n ->
  (forall a, blk p n a -> ~ X a) ->
  res_post (fun st' => keeps X st st') any (pmm_free max_entries st (Some p) count).
Proof.
  intros [Hinv Hdis Hlow] Ht Hp Hn Hpm Hn0 Hm Hc Hout. unfold pmm_free. rewrite Hpm, Hdis. cbn [Z.eqb negb].
  destruct (ALIGN_UP _ 4096) as [c|] eqn:E; [|done].
  assert (0 <= (if count =? 0 then 1 else count) <= n) as Hc'.
  { destruct (count =? 0); [|lia]. pose proof (Z.div_mod n 4096). lia. }
  pose proof (align_up_le _ _ _ Hc' Hm E). eapply res_post_bind.
  - apply (release_post st X p c); try done; try lia. intros a Hin. apply Hout. unfold blk, inside in *. lia.
  - by intros [b st'].
Qed.

(** Claiming the memory just below a block. *)
Lemma extend_post st X p n type :
  alive st -> taken st X -> 0 <= p -> 0 < n -> p + n <= 2 ^ 63 -> type <> MEMMAP_USABLE ->
  res_post (fun r : bool * pmm => if r.1 then keeps X st r.2 /\ (forall a, blk p n a -> ~ X a) /\ ram r.2 = ram st /\
                       taken r.2 (blk p n) /\ (forall a, blk p n a -> has_type (memmap r.2) type a)
                     else r.2 = st) any
    (memmap_alloc_range max_entries st p n type MEMMAP_USABLE false false false).
Proof.
  intros [Hinv Hdis Hlow] Htk Hp Hn Htop Hty.
  eapply res_post_mono; [apply memmap_alloc_range_post; [done|lia..]| |done].
  intros [b st'] [(Hb & Hav & m1 & Hst & Hr)|(Hb & _ & _)]; [|by injection Hb as -> ->].
  cbn in Hb, Hst |- *. subst b st'.
  assert (forall a, blk p n a -> ~ X a) as Hout
    by (intros a Hin HX; apply (Htk a HX); by eapply available_usable).
  split_and!; try done; cbn.
  - split; cbn.
    + split; [apply (rs_sanitised _ _ _ _ _ _ _ Hr)|done|]. cbn.
      intros a Hu. apply (rs_usable _ _ _ _ _ _ _ Hr) in Hu as [_ [[_ ?]|[_ [Hu _]]]]; [done|by apply Hlow].
    + intros a Ha Hu. apply (rs_usable _ _ _ _ _ _ _ Hr) in Hu as [_ [[_ ?]|[_ [Hu _]]]]; [done|by apply (Htk a Ha)].
    + done.
    + intros t a Ha Ht. rewrite (rs_other _ _ _ _ _ _ _ Hr) by done. unfold blk in Hout.
      split; [intros [[Hin _]|[_ ?]]; [by destruct (Hout a Hin)|done]|].
      intros H. right. split; [|done]. intros Hin. by destruct (Hout a Hin).
  - intros a Hin Hu. apply (rs_usable _ _ _ _ _ _ _ Hr) in Hu as [_ [[_ ?]|[Hno _]]]; [done|by apply Hno].
  - intros a Hin. apply (rs_other _ _ _ _ _ _ _ Hr); [done|]. by left.
Qed.
End Frame.

(** * The gzip layer, read from front to back

    Whatever the inflater does with its input, [gzip_read] returns what a run
    of calls of [pdgzip_read] gave, in order; it returns nothing only when the
    inflater has nothing more to give. *)
Section Gzip.
Context {D gz : Type} `{!Inflater gz}.
Variable size : Z.

(** A run of calls, the bytes it gave, and whether the last call gave none. *)
Inductive pulls (source : D -> Z -> Z -> res (list Z * D)) (d : D) (gh : gzip_handle gz)
    : list Z -> bool -> D -> gzip_handle gz -> Prop :=
| PullsNone : pulls source d gh [] false d gh
| PullsMore out ended d1 gh1 limit left bs d2 gh2 :
    pulls source d gh out ended d1 gh1 -> 0 < limit -> 0 < left ->
    gz_pull size source limit left d1 gh1 = Ok (Some bs, gh2, d2) ->
    pulls source d gh (out ++ bs) (match bs with [] => true | _ => false end) d2 gh2.

Lemma pulls_trans source d gh out1 e1 d1 gh1 out2 e2 d2 gh2 :
  pulls source d gh out1 e1 d1 gh1 -> pulls source d1 gh1 out2 e2 d2 gh2 ->
  exists e, pulls source d gh (out1 ++ out2) e d2 gh2 /\ (e2 = true -> e = true).
Proof.
  intros H1 H2. induction H2 as [|out e d2 gh2 limit left bs d3 gh3 H2 IH Hl1 Hl2 Hp].
  - rewrite app_nil_r. by exists e1.
  - destruct IH as (e' & IH & _). rewrite app_assoc. eexists. split; [eapply PullsMore; [exact IH| | |exact Hp]; done|done].
Qed.

(** The position in the file stays a position. *)
Lemma run_pull_ext s1 s2 (t : pull gz) : forall pos d,
  (forall d loc count, 0 <= loc -> s1 d loc count = s2 d loc count) -> 0 <= pos ->
  run_pull (D := D) size s1 t pos d = run_pull size s2 t pos d.
Proof.
  induction t as [out g|len k IH]; intros pos d Hs Hpos; [done|]. cbn [run_pull]. unfold gz_source_read.
  case_if; cbn [rbind]; [by apply IH|]. rewrite Hs by done.
  destruct (s2 d pos _) as [[bs d']| | |]; cbn [rbind]; try done. apply IH; [done|]. apply wrap_range. lia.
Qed.

Lemma run_pull_pos s (t : pull gz) : forall pos d out g pos' d',
  0 <= pos -> run_pull (D := D) size s t pos d = Ok (out, g, pos', d') -> 0 <= pos'.
Proof.
  induction t as [out g|len k IH]; intros pos d out' g' pos' d' Hpos; cbn [run_pull]; [by intros [= _ _ <- _]|].
  unfold gz_source_read. case_if; cbn [rbind]; [by apply IH|].
  destruct (s d pos _) as [[bs d1]| | |]; cbn [rbind]; try done. apply IH, wrap_range. lia.
Qed.

Lemma pulls_ext s1 s2 d gh out ended d' gh' :
  (forall d loc count, 0 <= loc -> s1 d loc count = s2 d loc count) -> 0 <= src_pos gh ->
  pulls s1 d gh out ended d' gh' -> pulls s2 d gh out ended d' gh' /\ 0 <= src_pos gh'.
Proof.
  intros Hs Hpos. induction 1 as [|out e d1 gh1 limit left bs d2 gh2 _ [IH Hp1] Hl1 Hl2 Hp]; [by split; [constructor|]|].
  assert (gz_pull size s2 limit left d1 gh1 = Ok (Some bs, gh2, d2)) as Hp2
    by (rewrite <- Hp; unfold gz_pull; by rewrite (run_pull_ext s1 s2)).
  split; [eapply PullsMore; [exact IH| | |exact Hp2]; done|].
  revert Hp. unfold gz_pull. destruct (run_pull _ _ _ _ _) as [[[[o g] pos] d3]| | |] eqn:Er; cbn [rbind]; try done.
  apply run_pull_pos in Er; [|done]. destruct o; [|done]. by intros [= _ <- _].
Qed.

Section Source.
Context `{!InflaterOk gz}.
Variable source : D -> Z -> Z -> res (list Z * D).
Variable valid : D -> Prop.
Hypothesis size_range : 0 <= size < 2 ^ 64.
Hypothesis source_post : forall d loc count, valid d -> 0 <= loc -> 0 <= count -> loc + count <= size ->
  res_post (fun r => valid r.2 /\ Z.of_nat (length r.1) <= count) any (source d loc count).

Lemma run_pull_post (t : pull gz) count : forall pos d,
  pull_ok count t -> valid d -> 0 <= pos <= size ->
  res_post (fun '(out, g, pos', d') => valid d' /\ 0 <= pos' <= size /\
              match out with Some bs => Z.of_nat (length bs) <= count /\ Forall is_byte bs | None => True end) any
    (run_pull size source t pos d).
Proof.
  induction t as [out g|len k IH]; intros pos d Hok Hd Hpos; cbn [run_pull pull_ok] in *.
  - split_and!; [done|lia|lia|]. by destruct out.
  - destruct Hok as [Hlen Hk]. unfold gz_source_read. rewrite (wrap_small 64 (size - pos)) by lia.
    remember (if size - pos <? len then size - pos else len) as l eqn:El.
    assert (0 <= l <= size - pos) by (subst l; case_if; bool_hyps; lia).
    destruct (l =? 0); cbn [rbind]; [by apply IH|].
    eapply res_post_bind.
    + eapply res_post_bind; [apply source_post; [done|lia..]|]. intros [bs d'] [Hd' Hl]. cbn in Hd', Hl.
      instantiate (1 := fun r => valid r.2 /\ 0 <= r.1.2 <= size). cbn.
      rewrite wrap_small by lia. split; [done|lia].
    + intros [[bs pos'] d'] [Hd' Hp']. cbn in *. by apply IH.
Qed.

(** The layer's own state: how much was given is where it is. *)
Definition gz_at (gh : gzip_handle gz) (n : Z) : Prop := 0 <= src_pos gh <= size /\ dec_pos gh = n.

Lemma gz_pull_post limit left d gh n :
  0 < limit -> 0 < left -> valid d -> gz_at gh n -> 0 <= n -> n + left < 2 ^ 64 ->
  res_post (fun '(out, gh', d') => valid d' /\
              match out with
              | Some bs => gz_at gh' (n + Z.of_nat (length bs)) /\ Z.of_nat (length bs) <= left /\ Forall is_byte bs
              | None => True
              end) any
    (gz_pull size source limit left d gh).
Proof.
  intros Hlim Hleft Hd [Hs Hn] Hn0 Hmax. unfold gz_pull.
  remember (if limit <? left then limit else left) as chunk eqn:Ec.
  assert (0 <= chunk <= left) by (subst chunk; case_if; bool_hyps; lia).
  eapply res_post_bind.
  - apply (run_pull_post _ chunk); [apply pdgzip_read_ok; lia|done|done].
  - intros [[[out g] pos] d'] (Hd' & Hp & Ho). destruct out as [bs|]; cbn; [|done].
    split; [done|]. destruct Ho as [Hl Hb]. split; [|split; [lia|done]]. split; cbn; [lia|].
    rewrite Hn, wrap_small by lia. done.
Qed.

(** Reading on from where the last read stopped. *)
Lemma gzip_read_post d gh n count :
  valid d -> gz_at gh n -> 0 <= n -> 0 < count -> n + count < 2 ^ 64 ->
  res_post (fun '(bs, d', gh') => valid d' /\ gz_at gh' (n + Z.of_nat (length bs)) /\
              Z.of_nat (length bs) <= count /\ Forall is_byte bs /\
              exists ended, pulls source d gh bs ended d' gh' /\ (bs = [] -> ended = true)) any
    (gzip_read size source d gh n count).
Proof.
  intros Hd [Hs Hn] Hn0 Hc Hmax. unfold gzip_read. rewrite Hn, Z.ltb_irrefl.
  assert (forall mu, mu (d, gh) = 0 -> loop (seek_body size source n) mu (d, gh) = Ok (true, (d, gh))) as Hseek.
  { intros mu Hmu. unfold loop. rewrite Hmu. change (Z.to_pos (0 + 1)) with 1%positive. cbn [iter_pos].
    unfold seek_body. by rewrite Hn, Z.ltb_irrefl. }
  rewrite Hseek by lia. cbn [rbind negb].
  pose (I := fun s : D * gzip_handle gz * Z * list Z =>
    let '(d', gh', remaining, dst) := s in
    valid d' /\ gz_at gh' (n + Z.of_nat (length dst)) /\ remaining = count - Z.of_nat (length dst) /\
    Z.of_nat (length dst) <= count /\ Forall is_byte dst /\
    exists ended, pulls source d gh dst ended d' gh' /\ (dst = [] -> remaining = count)).
  apply (loop_spec _ I).
  - intros [[[d' gh'] remaining] dst] (Hd' & Hat & Hr & Hl & Hb & ended & Hp & He). unfold turn_ok, inflate_body.
    destruct (0 <? remaining) eqn:E0; bool_hyps; cbn [negb res_post].
    + pose proof (gz_pull_post CHUNK remaining d' gh' _ eq_refl E0 Hd' Hat ltac:(lia) ltac:(lia)) as Hg.
      destruct (gz_pull _ _ _ _ _ _) as [[[out gh2] d2]| | |] eqn:Eg; cbn [rbind res_post] in Hg |- *; try done.
      destruct Hg as (Hd2 & Ho). destruct out as [bs|]; [|done]. destruct Ho as (Hat2 & Hl2 & Hb2).
      assert (exists e, pulls source d gh (dst ++ bs) e d2 gh2 /\ (bs = [] -> e = true)) as (e & Hpe & Hee).
      { eexists. split; [eapply PullsMore; [exact Hp| | |exact Eg]; done|by intros ->]. }
      destruct bs as [|b bs]; cbn [res_post].
      * rewrite app_nil_r in Hpe. cbn [length] in Hat2. rewrite Z.add_0_r in Hat2.
        split_and!; try done. exists e. split; [done|auto].
      * unfold I. rewrite length_app, Nat2Z.inj_add. split; [split_and!|cbn [length] in *; lia].
        -- done.
        -- by rewrite Z.add_assoc.
        -- lia.
        -- lia.
        -- by apply Forall_app.
        -- exists e. split; [done|]. intros Hnil. by apply app_nil in Hnil as [_ ?].
    + split_and!; try done. exists ended. split; [done|]. intros ->. cbn in Hr. lia.
  - unfold I. cbn [length]. rewrite Z.add_0_r. split_and!; try done; try lia.
    exists false. split; [constructor|done].
  - lia.
Qed.
End Source.
End Gzip.

(** * The buffer of [uri_open]

    However often the buffer grows or moves, it holds what the inflater gave,
    and the blocks that were taken before stay as they are, the compressed
    image among them. *)
Lemma load_bytes_copy r r' dest src n :
  (forall x, blk dest n x -> r' x = r (src + (x - dest))) -> load_bytes r' dest n = load_bytes r src n.
Proof.
  intros H. apply list_eq. intros i. destruct (decide (i < Z.to_nat n)%nat) as [Hi|Hi].
  - rewrite !lookup_load_bytes by lia. rewrite H by (unfold blk, inside; lia). do 2 f_equal. lia.
  - unfold load_bytes. rewrite !lookup_ge_None_2 by (rewrite length_map, length_seqZ; lia). done.
Qed.

Section Drain.
Variable max_entries : nat.
Variable x86 : bool.

(** The buffer [b], apart from [X], with contents [out]. *)
Record buffer_ok (X : Z -> Prop) (type : Z) (st : pmm) (b : buffer) (out : list Z) : Prop := {
  bo_block : block st type (b_addr b) (b_cap b);
  bo_apart : forall a, blk (b_addr b) (b_cap b) a -> ~ X a;
  bo_len : 0 <= b_len b <= b_cap b;
  bo_data : load_bytes (ram st) (b_addr b) (b_len b) = out;
}.

Lemma grown_spec cap : 0 < cap <= 2 ^ 63 -> cap mod 4096 = 0 ->
  cap < grown cap < 2 ^ 64 /\ grown cap mod 4096 = 0.
Proof.
  intros Hc Hm. unfold grown. case_if; bool_hyps; rewrite wrap_small by lia; split; try lia.
  - rewrite Z.mul_mod, Hm by lia. done.
  - rewrite Z.add_mod, Hm by lia. done.
Qed.

Definition also (X : Z -> Prop) (p n a : Z) : Prop := X a \/ blk p n a.

Lemma taken_also st X p n : taken st X -> taken st (blk p n) -> taken st (also X p n).
Proof. intros H1 H2 a [?|?]; auto. Qed.

Lemma grow_below X type st st1 b out delta :
  alive max_entries st -> taken st X -> buffer_ok X type st b out -> type <> MEMMAP_USABLE ->
  0 < delta -> delta mod 4096 = 0 -> delta <= b_addr b -> grown (b_cap b) = b_cap b + delta ->
  keeps max_entries (also X (b_addr b) (b_cap b)) st st1 ->
  (forall a, blk (b_addr b - delta) delta a -> ~ also X (b_addr b) (b_cap b) a) -> ram st1 = ram st ->
  taken st1 (blk (b_addr b - delta) delta) ->
  (forall a, blk (b_addr b - delta) delta a -> has_type (memmap st1) type a) ->
  let st' := with_ram st1 (memmove (ram st1) (b_addr b - delta) (b_addr b) (Z.to_nat (b_len b))) in
  let b' := MkBuffer (b_addr b - delta) (b_cap b + delta) (b_len b) in
  keeps max_entries X st st' /\ buffer_ok X type st' b' out.
Proof.
  destruct b as [addr cap len]. cbn [b_addr b_cap b_len].
  intros Hal Htk [[Hr Hp Hbt Hby] Hap Hlen Hd] Hty Hd0 Hdm Hda Hg Hk Hout Hram Hnt Hny. cbn [b_addr b_cap b_len] in *.
  destruct (memory_functions (ram st1) (addr - delta) addr 0 (Z.to_nat len)) as (_ & _ & Hmm).
  rewrite Z2Nat.id in Hmm by lia.
  assert (forall a, blk (addr - delta) (cap + delta) a -> blk (addr - delta) delta a \/ blk addr cap a) as Hsplit
    by (unfold blk, inside; intros; lia).
  assert (forall a, X a -> ~ blk (addr - delta) (cap + delta) a) as HX.
  { intros a Ha [Hin|Hin]%Hsplit; [apply (Hout a Hin); by left|by apply (Hap a)]. }
  split.
  - eapply keeps_trans; [eapply keeps_mono; [|exact Hk]; by left|].
    apply keeps_ram; [apply Hk|intros a Ha; apply (k_taken _ _ _ _ Hk); by left|].
    intros a Ha. rewrite Hmm. specialize (HX a Ha). unfold blk, inside in HX. solve_ifs.
  - split; cbn [b_addr b_cap b_len]; [split| | |].
    + lia.
    + split; [by rewrite Zminus_mod, Hdm, (proj1 Hp)|by rewrite Z.add_mod, Hdm, (proj2 Hp)].
    + intros a [Hin|Hin]%Hsplit; [by apply Hnt|]. apply (k_taken _ _ _ _ Hk). by right.
    + intros a [Hin|Hin]%Hsplit; [by apply Hny|]. apply (k_type _ _ _ _ Hk); [by right|done|]. by apply Hby.
    + intros a Hin HXa. by apply (HX a HXa).
    + lia.
    + rewrite <- Hd. apply load_bytes_copy. intros x Hx. cbn [ram with_ram]. rewrite Hmm, Hram.
      unfold blk, inside in Hx. rewrite (proj2 (Z.leb_le _ _)), (proj2 (Z.ltb_lt _ _)) by lia. done.
Qed.

Lemma grow_post X type high st b out :
  alive max_entries st -> taken st X -> buffer_ok X type st b out -> type <> MEMMAP_USABLE ->
  res_post (fun r => keeps max_entries X st r.2 /\ buffer_ok X type r.2 r.1 out /\
              b_len r.1 = b_len b /\ b_cap b < b_cap r.1) any
    (grow max_entries x86 type high st b).
Proof.
  intros Hal Htk Hb Hty. unfold grow.
  pose proof (grown_spec (b_cap b)) as Hg. destruct (bo_block _ _ _ _ _ Hb) as [Hr Hp Hbt Hby].
  specialize (Hg ltac:(lia) (proj2 Hp)) as [Hg Hgm].
  assert (taken st (also X (b_addr b) (b_cap b))) as Htk' by (by apply taken_also).
  destruct b as [addr cap len]. cbn [b_addr b_cap b_len] in *.
  rewrite (wrap_small 64 (grown cap - cap)) by lia. remember (grown cap - cap) as delta eqn:Ed.
  assert (delta mod 4096 = 0) as Hdm by (subst delta; rewrite Zminus_mod, Hgm, (proj2 Hp); done).
  eapply res_post_bind with (Q := fun r : bool * pmm => if r.1 then delta <= addr /\
      keeps max_entries (also X addr cap) st r.2 /\ (forall a, blk (addr - delta) delta a -> ~ also X addr cap a) /\
      ram r.2 = ram st /\ taken r.2 (blk (addr - delta) delta) /\
      (forall a, blk (addr - delta) delta a -> has_type (memmap r.2) type a)
    else r.2 = st).
  { case_if; bool_hyps; [|done]. eapply res_post_mono; [apply (extend_post _ _ (also X addr cap)); try done; lia| |done].
    intros [[|] st1] H; cbn in *; [|done]. by split. }
  intros [[|] st1]; cbn [fst snd].
  - intros (Hda & Hk & Hout & Hram & Hnt & Hny). cbn [res_post fst snd b_len b_cap].
    pose proof (grow_below X type st st1 (MkBuffer addr cap len) out delta) as H.
    cbn [b_addr b_cap b_len] in H. replace (cap + delta) with (grown cap) in H by lia.
    destruct H as [Hk' Hb']; try done; try lia. split_and!; [exact Hk'|exact Hb'|done|lia].
  - intros ->. pose proof (bo_len _ _ _ _ _ Hb) as Hlen. pose proof (bo_data _ _ _ _ _ Hb) as Hdat.
    pose proof (bo_apart _ _ _ _ _ Hb) as Hap. cbn [b_addr b_cap b_len] in *.
    eapply res_post_bind; [apply weaken with no_memory, (uri_alloc_post max_entries x86 st (also X addr cap)); try done; lia|].
    intros [p st2] (Hk & n & Hn & Hmin & Hblk & Hout). cbn [fst snd] in *.
    assert (n = grown cap) as -> by (specialize (Hmin (grown cap) ltac:(lia) ltac:(lia) Hgm); lia).
    destruct (memory_functions (ram st2) p addr 0 (Z.to_nat len)) as (_ & Hcp & _).
    assert (p + Z.of_nat (Z.to_nat len) <= addr \/ addr + Z.of_nat (Z.to_nat len) <= p) as Hdis.
    { rewrite Z2Nat.id by lia. destruct (bk_range _ _ _ _ Hblk).
      destruct (Z_le_gt_dec (p + len) addr) as [?|H1]; [by left|]. destruct (Z_le_gt_dec (addr + len) p) as [?|H2]; [by right|].
      exfalso. apply (Hout (Z.max p addr)); [unfold blk, inside; lia|]. right. unfold blk, inside. lia. }
    specialize (Hcp Hdis). rewrite Z2Nat.id in Hcp by lia.
    set (st3 := with_ram st2 _).
    assert (forall a, also X addr cap a -> ram st3 a = ram st2 a) as Hr3.
    { intros a Ha. cbn. rewrite Hcp. unfold memcpy. specialize (Hout a). unfold blk, inside in Hout. solve_ifs. exfalso. apply Hout; [lia|done]. }
    assert (keeps max_entries (also X addr cap) st st3) as Hk3.
    { eapply keeps_trans; [exact Hk|]. apply keeps_ram; [apply Hk|apply Hk|done]. }
    assert (forall a, blk addr cap a -> ~ also X p (grown cap) a) as Hfree.
    { intros a Ha [HX|Hin]; [by apply (Hap a Ha)|]. apply (Hout a Hin). by right. }
    assert (taken st3 (also X p (grown cap))) as Htk3.
    { apply taken_also; [intros a Ha; apply (k_taken _ _ _ _ Hk3); by left|apply (bk_taken _ _ _ _ Hblk)]. }
    eapply res_post_bind; [apply (uri_release_range_post max_entries st3 (also X p (grown cap)) addr cap cap);
      try done; [apply Hk3|lia|lia|apply Hp|lia]|].
    intros st4 Hk4. cbn [res_post fst snd b_len b_cap].
    split_and!; [|split; cbn [b_addr b_cap b_len]|done|lia].
    + eapply keeps_trans; (eapply keeps_mono; [|eassumption]); by left.
    + eapply (block_keeps max_entries st3 st4 type); [|done|eapply keeps_mono; [|exact Hk4]; by right].
      destruct Hblk as [B1 B2 B3 B4]. by split.
    + intros a Hin HX. apply (Hout a Hin). by left.
    + lia.
    + rewrite (load_bytes_ext (ram st3) (ram st4)).
      * rewrite <- Hdat. rewrite (load_bytes_copy (ram st2) (ram st3) p addr len).
        -- apply load_bytes_ext. intros x Hx. apply (k_ram _ _ _ _ Hk). right. unfold blk, inside in *. lia.
        -- intros x Hx. cbn. rewrite Hcp. unfold memcpy, blk, inside in *.
           rewrite (proj2 (Z.leb_le _ _)), (proj2 (Z.ltb_lt _ _)) by lia. done.
      * intros x Hx. apply (k_ram _ _ _ _ Hk4). right. unfold blk, inside in *. lia.
Qed.

(** Storing what was read after what is there. *)
Lemma store_post X type st b out bs :
  alive max_entries st -> taken st X -> buffer_ok X type st b out -> b_len b + Z.of_nat (length bs) <= b_cap b ->
  let st' := with_ram st (store_bytes (ram st) (b_addr b + b_len b) bs) in
  keeps max_entries X st st' /\
  buffer_ok X type st' (MkBuffer (b_addr b) (b_cap b) (b_len b + Z.of_nat (length bs))) (out ++ bs).
Proof.
  intros Hal Htk [[Hr Hp Hbt Hby] Hap Hlen Hd] Hroom st'.
  split.
  - apply keeps_ram; try done. intros a Ha. apply store_bytes_other. intros Hin.
    apply (Hap a); [|done]. unfold blk, inside in *. lia.
  - split; cbn [b_addr b_cap b_len]; [by split|done|lia|].
    rewrite load_bytes_app by lia. unfold st'. cbn [ram with_ram]. rewrite load_store_bytes. f_equal.
    rewrite <- Hd. apply load_bytes_ext. intros x Hx. apply store_bytes_other. unfold blk, inside in *. lia.
Qed.

(** ** The loop *)
Context {D H gz : Type} `{!FileSystem D H} `{!FileSystemOk D H} `{!Inflater gz} `{!InflaterOk gz}.

Definition source_ok (X : Z -> Prop) (src : gz_source H) : Prop :=
  match src with
  | FromFile fd => f_valid fd
  | FromMemory _ addr size => 0 <= size < 2 ^ 64 /\ forall a, blk addr size a -> X a
  end.

Lemma source_size_range X src : source_ok X src -> 0 <= source_size src < 2 ^ 64.
Proof. destruct src as [fd|h addr size]; cbn; [by apply f_size_range|tauto]. Qed.

Lemma source_read_post X r src d loc count :
  source_ok X src -> d_valid d -> 0 <= loc -> 0 <= count -> loc + count <= source_size src ->
  res_post (fun r => d_valid r.2 /\ Z.of_nat (length r.1) <= count) any (source_read r src d loc count).
Proof.
  intros Hs Hd Hl Hc Hsz. destruct src as [fd|h addr size]; cbn in Hsz |- *.
  - eapply res_post_mono; [by apply fread_valid| |done]. by intros x (? & ? & ?).
  - case_if; [done|]. cbn. split; [done|]. rewrite length_load_bytes by lia. lia.
Qed.

Lemma source_read_ext X r r0 src d loc count :
  source_ok X src -> (forall a, X a -> r a = r0 a) -> 0 <= loc ->
  source_read (D := D) r src d loc count = source_read r0 src d loc count.
Proof.
  intros Hs Hr Hl. destruct src as [fd|h addr size]; [done|]. cbn in Hs |- *. case_if; [done|]. bool_hyps.
  do 2 f_equal. apply load_bytes_ext. intros x Hx. apply Hr, Hs. unfold blk, inside in *. lia.
Qed.

Section Loop.
Variables (X : Z -> Prop) (type : Z) (high : bool) (st0 : pmm) (d0 : D) (src : gz_source H).
Hypothesis Hsrc : source_ok X src.
Hypothesis Hty : type <> MEMMAP_USABLE.

(** What the inflater, reading the file as it was at the start, gave so far. *)
Definition given (out : list Z) (ended : bool) (d : D) (gh : gzip_handle gz) : Prop :=
  pulls (source_size src) (source_read (ram st0) src) d0 gz_reset out ended d gh.

Definition drain_inv (s : pmm * D * gzip_handle gz * buffer) : Prop :=
  let '(st, d, gh, b) := s in
  keeps max_entries X st0 st /\ d_valid d /\ gz_at (source_size src) gh (b_len b) /\
  exists out ended, buffer_ok X type st b out /\ given out ended d gh.

Definition drain_done (s : pmm * D * gzip_handle gz * buffer) : Prop :=
  let '(st, d, gh, b) := s in
  keeps max_entries X st0 st /\ d_valid d /\ exists out, buffer_ok X type st b out /\ given out true d gh.

(** The buffer has room before each read. *)
Lemma room_post st b out :
  alive max_entries st -> taken st X -> buffer_ok X type st b out ->
  res_post (fun r => keeps max_entries X st r.2 /\ buffer_ok X type r.2 r.1 out /\
              b_len r.1 = b_len b /\ b_len r.1 < b_cap r.1) any
    (if b_len b =? b_cap b then grow max_entries x86 type high st b else Ok (b, st)).
Proof.
  intros Hal Htk Hb. pose proof (bo_len _ _ _ _ _ Hb). destruct (b_len b =? b_cap b) eqn:E; bool_hyps.
  - eapply res_post_mono; [by apply (grow_post X type high st b out)| |done].
    intros [b' st'] (? & ? & ? & ?). cbn in *. split_and!; try done; lia.
  - cbn. split_and!; [by apply keeps_refl|done|done|lia].
Qed.

Lemma drain_turn s : drain_inv s ->
  turn_ok (drain_body max_entries x86 type high src) drain_inv drain_variant drain_done any s.
Proof.
  destruct s as [[[st d] gh] b]. intros (Hk & Hd & Hat & out & ended & Hb & Hg). unfold turn_ok, drain_body.
  eapply res_post_bind; [apply (room_post st b out); [apply Hk|apply Hk|done]|].
  intros [b1 st1] (Hk1 & Hb1 & Hlen & Hroom). cbn [fst snd] in *.
  pose proof (bo_len _ _ _ _ _ Hb1) as Hl1. destruct (bk_range _ _ _ _ (bo_block _ _ _ _ _ Hb1)) as (Hp0 & Hc0 & Hp63).
  rewrite (wrap_small 64 (b_cap b1 - b_len b1)) by lia.
  remember (if CHUNK <? b_cap b1 - b_len b1 then CHUNK else b_cap b1 - b_len b1) as want eqn:Ew.
  assert (0 < want <= b_cap b1 - b_len b1) as Hw by (subst want; unfold CHUNK; case_if; bool_hyps; lia).
  rewrite (proj2 (Z.ltb_ge UINT64_MAX (b_len b1))), (proj2 (Z.ltb_ge (UINT64_MAX - b_len b1) want))
    by (unfold UINT64_MAX; lia). cbn [orb].
  rewrite <- Hlen in Hat. assert (keeps max_entries X st0 st1) as Hk01 by (by eapply keeps_trans).
  eapply res_post_bind; [apply (gzip_read_post (source_size src) (source_read (ram st1) src) d_valid)|].
  1: by eapply source_size_range. 1: intros; by eapply source_read_post. 1-4: done || lia. 1: lia.
  intros [[bs d2] gh2] (Hd2 & Hat2 & Hl2 & Hby & e2 & Hp2 & He2).
  destruct (pulls_ext _ _ (source_read (ram st0) src) _ _ _ _ _ _
    ltac:(intros; eapply source_read_ext; [done|apply Hk01|done]) (proj1 (proj1 Hat)) Hp2) as [Hp2' _].
  destruct (pulls_trans _ _ _ _ _ _ _ _ _ _ _ _ Hg Hp2') as (e & Hg2 & He).
  destruct (store_post X type st1 b1 out bs) as [Hks Hbs]; [apply Hk01|apply Hk01|done|lia|].
  assert (keeps max_entries X st0 (with_ram st1 (store_bytes (ram st1) (b_addr b1 + b_len b1) bs))) as Hk02
    by (by eapply keeps_trans).
  destruct bs as [|x bs]; cbn [res_post].
  - split_and!; [done|done|]. exists out. rewrite app_nil_r in Hbs, Hg2. cbn [length] in Hbs. rewrite Z.add_0_r in Hbs.
    split; [by destruct b1|]. unfold given. by rewrite He in Hg2 by auto.
  - rewrite (wrap_small 64) by lia. split.
    + split_and!; [done|done|done|]. by exists (out ++ x :: bs), e.
    + unfold drain_variant. cbn [snd b_len]. rewrite <- Hlen. cbn [length] in *. lia.
Qed.
End Loop.

(** Everything is inflated into a block of the requested type. *)
Lemma drain_post X type high st d src :
  alive max_entries st -> taken st X -> d_valid d -> source_ok X src -> type <> MEMMAP_USABLE ->
  res_post (fun '(addr, len, st', d') => keeps max_entries X st st' /\ d_valid d' /\
      exists n gh, 0 <= len <= n /\ block st' type addr n /\ (forall a, blk addr n a -> ~ X a) /\
        given st d src (load_bytes (ram st') addr len) true d' gh) any
    (drain (gz := gz) max_entries x86 type high st d src).
Proof.
  intros Hal Htk Hd Hsrc Hty. unfold drain.
  eapply res_post_bind; [by apply weaken with no_memory, (uri_alloc_post max_entries x86 st X)|].
  intros [p st1] (Hk & n & Hn & Hmin & Hblk & Hout). cbn [fst snd] in *.
  assert (n = 0x100000) as -> by (specialize (Hmin 0x100000 ltac:(lia) ltac:(lia) eq_refl); lia).
  eapply res_post_bind; [apply (loop_spec _ (drain_inv X type st1 d src) _ (drain_done X type st1 d src))|].
  - intros s Hs. by apply drain_turn.
  - split_and!; [apply keeps_refl; apply Hk|done| |].
    + split; [|done]. cbn. pose proof (source_size_range X src Hsrc). lia.
    + exists [], false. split; [|constructor]. split; cbn; [done|done|lia|done].
  - unfold drain_variant. cbn. lia.
  - intros [[[st2 d2] gh] b] (Hk2 & Hd2 & out & Hb & Hg).
    pose proof (bo_len _ _ _ _ _ Hb) as Hlen. destruct (bo_block _ _ _ _ _ Hb) as [Hr Hp Hbt Hby].
    destruct (ALIGN_UP (b_len b) 4096) as [kept|] eqn:Ek; [|done].
    pose proof (align_up_le _ _ _ Hlen (proj2 Hp) Ek) as Hkept.
    apply align_up_Some in Ek as (_ & Hkb & Hkm & _); [|lia..].
    remember (if kept =? 0 then 4096 else kept) as kept' eqn:Ek'.
    assert (b_len b <= kept' <= b_cap b /\ 0 < kept' /\ kept' mod 4096 = 0) as (Hk1 & Hk0 & Hk1m).
    { subst kept'. destruct (kept =? 0) eqn:E; bool_hyps; [|split_and!; try done; lia].
      split_and!; try done; try lia. pose proof (Z.div_mod (b_cap b) 4096). lia. }
    assert (keeps max_entries X st st2) as Hk02.
    { eapply keeps_trans; [exact Hk|exact Hk2]. }
    assert (given st d src out true d2 gh) as Hg0.
    { unfold given in *. eapply pulls_ext; [| |exact Hg]; [|done]. intros. eapply source_read_ext; [done|apply Hk|done]. }
    eapply res_post_bind with (Q := fun st3 => keeps max_entries (also X (b_addr b) kept') st2 st3).
    + assert (taken st2 (also X (b_addr b) kept')) as Htk2.
      { apply taken_also; [apply Hk2|]. intros a Ha. apply Hbt. unfold blk, inside in *. lia. }
      case_if; bool_hyps.
      * rewrite (wrap_small 64) by lia. apply (uri_release_range_post max_entries st2 _ _ (b_cap b - kept')).
        all: try done; try lia. 1: apply Hk2.
        -- by rewrite Zminus_mod, Hk1m, (proj2 Hp).
        -- intros a Ha [HX|Hin].
           ++ apply (bo_apart _ _ _ _ _ Hb a); [|done]. unfold blk, inside in *. lia.
           ++ unfold blk, inside in *. lia.
      * cbn. apply keeps_refl; [apply Hk2|done].
    + intros st3 Hk3. cbn [res_post]. split_and!; [|done|].
      * eapply keeps_trans; [exact Hk02|]. eapply keeps_mono; [|exact Hk3]. by left.
      * exists kept', gh. split_and!; [lia|lia| | |].
        -- eapply (block_keeps max_entries st2 st3); [|done|eapply keeps_mono; [|exact Hk3]; by right].
           split; [lia|split; [apply Hp|done]|intros a Ha; apply Hbt; unfold blk, inside in *; lia|].
           intros a Ha. apply Hby. unfold blk, inside in *; lia.
        -- intros a Ha. apply (bo_apart _ _ _ _ _ Hb). unfold blk, inside in *; lia.
        -- rewrite (load_bytes_ext (ram st2)); [by rewrite (bo_data _ _ _ _ _ Hb)|].
           intros x Hx. apply (k_ram _ _ _ _ Hk3). right. unfold blk, inside in *; lia.
Qed.
End Drain.

(** * What [uri_open] loads

    The two ways a file gets into memory, checked copy and hashed copy, and the
    properties that [UriProps] states of whole calls. *)
(** ** Inflating a given image *)
Definition image_source {D : Type} (image : list Z) (d : D) (loc count : Z) : res (list Z * D) :=
  if (Z.of_nat (length image) <? loc) || (Z.of_nat (length image) - loc <? count)
  then Panic "fread: attempted out of bounds read"
  else Ok (take (Z.to_nat count) (drop (Z.to_nat loc) image), d).

(** [data] is what the inflater gives for [image], up to where it gives no more. *)
Definition inflates (gz : Type) `{!Inflater gz} (image data : list Z) : Prop :=
  exists gh : gzip_handle gz,
    pulls (D := unit) (Z.of_nat (length image)) (image_source image) tt gz_reset data true tt gh.

Section Image.
Context {D gz : Type} `{!Inflater gz}.
Variable image : list Z.

Lemma run_pull_image (t : pull gz) : forall pos (d : D) out g pos' d',
  run_pull (Z.of_nat (length image)) (image_source image) t pos d = Ok (out, g, pos', d') ->
  d' = d /\ run_pull (Z.of_nat (length image)) (image_source image) t pos tt = Ok (out, g, pos', tt).
Proof.
  induction t as [out g|len k IH]; intros pos d out' g' pos' d'; cbn [run_pull]; [by intros [= <- <- <- <-]|].
  unfold gz_source_read, image_source. case_if; cbn [rbind]; [apply IH|]. case_if; cbn [rbind]; [done|apply IH].
Qed.

Lemma pulls_image (d : D) (gh : gzip_handle gz) out ended d' gh' :
  pulls (Z.of_nat (length image)) (image_source image) d gh out ended d' gh' ->
  d' = d /\ pulls (Z.of_nat (length image)) (image_source image) tt gh out ended tt gh'.
Proof.
  induction 1 as [|out e d1 gh1 limit left bs d2 gh2 _ [-> IH] Hl1 Hl2 Hp]; [split; [done|constructor]|].
  revert Hp. unfold gz_pull. destruct (run_pull _ _ _ _ _) as [[[[o g] pos] d3]| | |] eqn:Er; cbn [rbind]; try done.
  apply run_pull_image in Er as [-> Er]. destruct o as [o|]; [|done]. intros [= <- <- <-]. split; [done|].
  eapply PullsMore; [exact IH|exact Hl1|exact Hl2|]. unfold gz_pull. by rewrite Er.
Qed.

Lemma source_read_image {H} `{!FileSystem D H} r handle addr size (d : D) loc count :
  0 <= size -> 0 <= loc -> load_bytes r addr size = image ->
  source_read (H := H) r (FromMemory handle addr size) d loc count = image_source image d loc count.
Proof.
  intros Hs Hl <-. cbn. unfold image_source. rewrite length_load_bytes by lia. case_if; [done|]. bool_hyps.
  do 2 f_equal. destruct (decide (0 <= count)); [by apply load_bytes_sub; lia|].
  unfold load_bytes. rewrite seqZ_nil by lia. replace (Z.to_nat count) with 0%nat by lia. done.
Qed.
End Image.

Lemma length_blake2b msg : length (blake2b msg) = 64%nat.
Proof. unfold blake2b. exact (length_blake2b_final _). Qed.

#[local] Opaque blake2b.

Section Load.
Context {D H gz : Type} `{!FileSystem D H} `{!FileSystemOk D H} `{!Inflater gz} `{!InflaterOk gz}.
Variable max_entries : nat.
Variable x86 : bool.
Variables (optional_resource hash_mismatch_panic : bool) (key : Z).

(** A mismatch is final. *)
Definition strict : bool := hash_mismatch_panic || optional_resource.

Lemma uri_hash_mismatch_post :
  res_post (fun use => strict = true -> use = false) any (uri_hash_mismatch optional_resource hash_mismatch_panic key).
Proof.
  unfold uri_hash_mismatch. fold strict. destruct strict.
  - unfold URI_ERROR. by case_if.
  - case_if; done.
Qed.

(** The block of the path, next to what was taken before. *)
Record path_ok (X X1 : Z -> Prop) (st : pmm) (p : option (list Z)) (path : option Z) : Prop := {
  po_sub : forall a, X a -> X1 a;
  po_taken : taken st X1;
  po_block : forall q, path = Some q -> exists bytes n, p = Some bytes /\ Z.of_nat (length bytes) <= n /\
    block st MEMMAP_BOOTLOADER_RECLAIMABLE q n /\ (forall a, blk q n a -> X1 a /\ ~ X a) /\
    load_bytes (ram st) q (Z.of_nat (length bytes)) = bytes;
}.

Lemma path_ok_keeps X X1 st st' p path :
  path_ok X X1 st p path -> keeps max_entries X1 st st' -> path_ok X X1 st' p path.
Proof.
  intros [Hs Ht Hb] Hk. split; [done|apply Hk|]. intros q Hq.
  destruct (Hb q Hq) as (bytes & n & Hp & Hn & Hblk & Ha & Hl). exists bytes, n. split_and!; try done.
  - eapply block_keeps; [done|done|]. eapply keeps_mono; [|exact Hk]. intros a Hin. by apply Ha.
  - rewrite <- Hl at 2. apply load_bytes_ext. intros x Hx. apply (k_ram _ _ _ _ Hk), Ha. unfold blk, inside in *. lia.
Qed.

Lemma copy_path_post X st p :
  alive max_entries st -> taken st X -> Z.of_nat (length (default [] p)) < 2 ^ 64 ->
  res_post (fun r => keeps max_entries X st r.2 /\ exists X1, path_ok X X1 r.2 p r.1) no_memory (copy_path max_entries x86 st p).
Proof.
  intros Hal Htk Hlen. unfold copy_path. destruct p as [[|c p]|].
  1, 3: by split; [apply keeps_refl|exists X; split].
  eapply res_post_bind; [apply (alloc_alloc_post max_entries x86 st X); try done; cbn [default] in Hlen; lia|].
  intros [q st1] (Hk & n & Hn & _ & Hblk & Hout). cbn [res_post fst snd] in *.
  destruct (bk_range _ _ _ _ Hblk).
  assert (keeps max_entries X st1 (with_ram st1 (store_bytes (ram st1) q (c :: p)))) as Hk1.
  { apply keeps_ram; [apply Hk|apply Hk|]. intros a Ha. apply store_bytes_other. intros Hin.
    apply (Hout a); [|done]. unfold blk, inside in *. lia. }
  split; [by eapply keeps_trans|]. exists (also X q n). split.
  - by left.
  - apply taken_also; [apply Hk1|apply (bk_taken _ _ _ _ Hblk)].
  - intros q' [= <-]. exists (c :: p), n. split_and!; try done.
    + destruct Hblk as [B1 B2 B3 B4]. by split.
    + intros a Ha. split; [by right|by apply Hout].
    + apply load_store_bytes.
Qed.

Lemma free_path_post X X1 st p path :
  alive max_entries st -> path_ok X X1 st p path ->
  res_post (fun st' => keeps max_entries X st st') any (pmm_free max_entries st path (path_len p)).
Proof.
  intros Hal [Hs Ht Hb]. assert (taken st X) as HtX by (intros a Ha; apply Ht; auto).
  destruct path as [q|]; [|by apply keeps_refl].
  destruct (Hb q eq_refl) as (bytes & n & -> & Hn & Hblk & Ha & _).
  destruct (bk_range _ _ _ _ Hblk). destruct (bk_pages _ _ _ _ Hblk). apply (free_post max_entries st X q n); try done; try lia.
  - cbn. lia.
  - intros a Hin. by apply Ha.
Qed.

(** ** The file in memory *)

(** [m] holds [data] in memory of the requested type, apart from [X]; its path
    and the rest of the description of the file are those of the handle. *)
Record loaded (X : Z -> Prop) (type : Z) (st : pmm) (raw : H) (m : memfile) (data : list Z) : Prop := {
  ld_block : exists n, 0 <= m_size m <= n /\ block st type (m_addr m) n /\ forall a, blk (m_addr m) n a -> ~ X a;
  ld_data : load_bytes (ram st) (m_addr m) (m_size m) = data;
  ld_path : forall q, m_path m = Some q ->
    taken st (blk q (m_path_len m)) /\ fm_path (f_meta raw) = Some (load_bytes (ram st) q (m_path_len m));
  ld_meta : m_vol m = fm_vol (f_meta raw) /\ m_pxe m = fm_pxe (f_meta raw) /\
            m_pxe_ip m = fm_pxe_ip (f_meta raw) /\ m_pxe_port m = fm_pxe_port (f_meta raw);
}.

Lemma uri_result_post X X1 type st (d : D) (raw : H) addr size n path :
  alive max_entries st -> path_ok X X1 st (fm_path (f_meta raw)) path -> type <> MEMMAP_USABLE ->
  0 <= size <= n -> block st type addr n -> (forall a, blk addr n a -> ~ X1 a) ->
  res_post (fun '(m, st', d') => keeps max_entries X st st' /\ d' = d /\
      exists m', m = Some m' /\ m_addr m' = addr /\ m_size m' = size /\
        loaded X type st' raw m' (load_bytes (ram st) addr size)) no_memory
    (uri_result max_entries x86 st d addr size (f_meta raw) path).
Proof.
  intros Hal Hpath Hty Hsz Hblk Hap. unfold uri_result.
  assert (taken st (also X1 addr n)) as Htk by (apply taken_also; [apply Hpath|apply Hblk]).
  eapply res_post_bind; [by apply (alloc_alloc_post max_entries x86 st (also X1 addr n))|].
  intros [out st1] (Hk & _). cbn [res_post fst snd] in *.
  assert (keeps max_entries X1 st st1) as Hk1 by (eapply keeps_mono; [|exact Hk]; by left).
  pose proof (path_ok_keeps _ _ _ _ _ _ Hpath Hk1) as Hpath1.
  split_and!; [eapply keeps_mono; [|exact Hk1]; apply Hpath|done|].
  eexists. split_and!; try reflexivity. split; cbn [m_addr m_size m_path m_path_len m_vol m_pxe m_pxe_ip m_pxe_port].
  - exists n. split_and!; [lia|lia| |intros a Ha HX; apply (Hap a Ha); by apply Hpath].
    eapply block_keeps; [exact Hblk|done|eapply keeps_mono; [|exact Hk]; by right].
  - apply load_bytes_ext. intros x Hx. apply (k_ram _ _ _ _ Hk). right. unfold blk, inside in *. lia.
  - intros q ->. destruct (po_block _ _ _ _ _ Hpath1 q eq_refl) as (bytes & k & Hp & Hkn & Hb & Ha & Hl).
    rewrite Hp in *. cbn [path_len] in *. rewrite Hl. split; [|done].
    intros a Hin. apply (bk_taken _ _ _ _ Hb). unfold blk, inside in *. lia.
  - done.
Qed.

(** ** An uncompressed file *)

(** The filter has hashed [data], if there is one. *)
Definition filtered (h0 h : option blake2b_handle) (data : list Z) : Prop :=
  match h0, h with
  | None, None => True
  | Some _, Some h => exists fr reads, read_all fr blake2b_open reads = Ok (data, h)
  | _, _ => False
  end.

Definition filter_for (hash_buf : option (list Z)) : option blake2b_handle :=
  match hash_buf with Some _ => Some blake2b_open | None => None end.

(** When the drivers store the whole file. *)
Lemma copy_in_result X type high st d raw hash_buf bs d1 :
  alive max_entries st -> taken st X -> f_valid raw -> type <> MEMMAP_USABLE ->
  (0 < f_size raw -> fread d raw 0 (f_size raw) = Ok (bs, d1)) -> Z.of_nat (length bs) = f_size raw ->
  res_post (fun '(addr, size, h, st', d') => keeps max_entries X st st' /\ (d' = d \/ d' = d1) /\ size = f_size raw /\
      exists n, 0 <= size <= n /\ block st' type addr n /\ (forall a, blk addr n a -> ~ X a) /\
        load_bytes (ram st') addr size = bs /\ filtered (filter_for hash_buf) h bs) no_memory
    (copy_in max_entries x86 type high st d raw (filter_for hash_buf)).
Proof.
  intros Hal Htk Hf Hty Hr Hlen. pose proof (f_size_range raw Hf) as Hsz. unfold copy_in.
  eapply res_post_bind; [by apply (uri_alloc_post max_entries x86 st X)|].
  intros [p st1] (Hk & n & Hn & _ & Hblk & Hout). cbn [fst snd] in *.
  destruct (0 <? f_size raw) eqn:E0; bool_hyps; cbn [negb].
  2: { assert (f_size raw = 0) as E by lia. rewrite E in *. assert (bs = []) as -> by (by destruct bs).
       cbn [res_post]. split_and!; [done|by left|done|]. exists n. split_and!; try done.
       destruct hash_buf; cbn; [|done]. by exists (fun _ _ => Fault), []. }
  rewrite Hr by done. cbn [rbind].
  eapply res_post_bind with (Q := fun r => r.1 = bs /\ filtered (filter_for hash_buf) r.2 bs).
  { destruct hash_buf; cbn; [|done]. split; [done|]. exists (fun _ _ => Ok bs), [(0, f_size raw)]. cbn. by rewrite app_nil_r. }
  intros [bs' h] [E Hh]. cbn [fst snd] in E, Hh. subst bs'. rewrite Hlen, Z.eqb_refl. cbn [negb res_post].
  assert (keeps max_entries X st1 (with_ram st1 (store_bytes (ram st1) p bs))) as Hk1.
  { apply keeps_ram; [apply Hk|apply Hk|]. intros a Ha. apply store_bytes_other. intros Hin.
    apply (Hout a); [|done]. unfold blk, inside in *. lia. }
  split_and!; [by eapply keeps_trans|by right|done|]. exists n. split_and!; try done; try lia.
  - destruct Hblk as [B1 B2 B3 B4]. by split.
  - rewrite <- Hlen. apply load_store_bytes.
Qed.

Lemma copy_in_post X type high st d raw hash_buf :
  alive max_entries st -> taken st X -> d_valid d -> f_valid raw -> type <> MEMMAP_USABLE ->
  res_post (fun '(addr, size, h, st', d') => keeps max_entries X st st' /\ d_valid d' /\ size = f_size raw /\
      exists n, 0 <= size <= n /\ block st' type addr n /\ (forall a, blk addr n a -> ~ X a) /\
        filtered (filter_for hash_buf) h (load_bytes (ram st') addr size)) any
    (copy_in max_entries x86 type high st d raw (filter_for hash_buf)).
Proof.
  intros Hal Htk Hd Hf Hty. pose proof (f_size_range raw Hf) as Hsz.
  assert (forall bs d1, d_valid d1 -> (0 < f_size raw -> fread d raw 0 (f_size raw) = Ok (bs, d1)) ->
    Z.of_nat (length bs) = f_size raw -> res_post (fun '(addr, size, h, st', d') =>
      keeps max_entries X st st' /\ d_valid d' /\ size = f_size raw /\
      exists n, 0 <= size <= n /\ block st' type addr n /\ (forall a, blk addr n a -> ~ X a) /\
        filtered (filter_for hash_buf) h (load_bytes (ram st') addr size)) any
    (copy_in max_entries x86 type high st d raw (filter_for hash_buf))) as Hall.
  { intros bs d1 Hd1 Hr Hlen. eapply res_post_mono; [by apply (copy_in_result X type high st d raw hash_buf bs d1)| |done].
    intros [[[[addr size] h] st'] d'] (Hk & Hd' & -> & n & Hn & Hb & Ho & Hl & Hfil). rewrite <- Hl in Hfil.
    split_and!; try done; [by destruct Hd' as [-> | ->]|]. by exists n. }
  destruct (decide (f_size raw = 0)) as [E|E]; [by apply (Hall [] d); [|intros; lia|]|].
  pose proof (fread_valid d raw 0 (f_size raw) Hd Hf ltac:(done) (proj1 Hsz)) as Hr.
  destruct (fread d raw 0 (f_size raw)) as [[bs d1]|m| |] eqn:Ef; cbn in Hr; try done.
  1: destruct (decide (Z.of_nat (length bs) = f_size raw)) as [Hlen|Hlen]; [apply (Hall bs d1); tauto|].
  all: unfold copy_in; eapply res_post_bind; [by apply weaken with no_memory, (uri_alloc_post max_entries x86 st X)|].
  all: intros [p st1] _; rewrite (proj2 (Z.ltb_lt 0 (f_size raw))) by lia; cbn [negb]; rewrite Ef; cbn [rbind]; try done.
  eapply res_post_bind with (Q := fun r => r.1 = bs); [by destruct hash_buf|].
  intros [bs' h] E'. cbn in E'. subst bs'. by rewrite (proj2 (Z.eqb_neq _ _) Hlen).
Qed.

(** The decision whether to use the file. *)
Lemma check_hash_post h hash_buf data :
  filtered (filter_for hash_buf) h data -> (forall b, hash_buf = Some b -> length b = 64%nat) ->
  res_post (fun use => use = true -> strict = true -> forall b, hash_buf = Some b -> blake2b data = b) any
    (match h, hash_buf with
     | Some h, Some hash_buf =>
         let! (ok, _) := blake2b_check_hash h hash_buf in
         if negb ok then uri_hash_mismatch optional_resource hash_mismatch_panic key else Ok true
     | _, _ => Ok true
     end).
Proof.
  intros Hf Hl. destruct hash_buf as [b|], h as [h|]; cbn in Hf; try done.
  destruct Hf as (fr & reads & Hr).
  destruct (blake2b_filter_correct fr reads data h b Hr (Hl b eq_refl)) as (ok & h' & -> & Hok & _).
  cbn [rbind]. destruct ok; cbn [negb].
  - intros _ _ b' [= <-]. by apply Hok.
  - eapply res_post_mono; [apply uri_hash_mismatch_post| |done]. intros use Hs -> Hst. by specialize (Hs Hst).
Qed.

(** What a call promises of a file it returns. *)
Definition load_result (X : Z -> Prop) (type : Z) (st : pmm) (raw : H) (digest : option (list Z)) (gz_compressed : bool)
    (r : option memfile * pmm * D) : Prop :=
  let '(m, st', d') := r in
  keeps max_entries X st st' /\ d_valid d' /\
  forall m', m = Some m' -> exists data, loaded X type st' raw m' data /\
    (strict = true -> forall b, digest = Some b ->
       if gz_compressed then exists image, blake2b image = b /\ inflates gz image data else blake2b data = b).

Lemma load_plain_post X X1 type high st d raw hash_buf path :
  alive max_entries st -> path_ok X X1 st (fm_path (f_meta raw)) path -> d_valid d -> f_valid raw ->
  type <> MEMMAP_USABLE -> (forall b, hash_buf = Some b -> length b = 64%nat) ->
  res_post (load_result X type st raw hash_buf false) any
    (load_plain max_entries x86 optional_resource hash_mismatch_panic key type high st d raw hash_buf path).
Proof.
  intros Hal Hpath Hd Hf Hty Hhash. unfold load_plain. fold (filter_for hash_buf).
  eapply res_post_bind; [apply (copy_in_post X1 type high st d raw hash_buf); try done; apply Hpath|].
  intros [[[[addr size] h] st1] d1] (Hk & Hd1 & Hsz & n & Hn & Hblk & Hout & Hfil).
  pose proof (path_ok_keeps _ _ _ _ _ _ Hpath Hk) as Hpath1.
  assert (keeps max_entries X st st1) as HkX by (eapply keeps_mono; [|exact Hk]; apply Hpath).
  eapply res_post_bind; [by apply (check_hash_post h hash_buf _ Hfil)|].
  intros use Huse. destruct use; cbn [negb].
  - eapply res_post_mono; [by apply (uri_result_post X X1 type st1 d1 raw addr size n path); try apply Hk| |done].
    intros [[m st2] d2] (Hk2 & -> & m' & -> & _ & _ & Hld). split_and!; [by eapply keeps_trans|done|].
    intros m2 [= <-]. eexists. split; [exact Hld|]. by apply Huse.
  - eapply res_post_bind; [apply (uri_release_range_post max_entries st1 X1 addr n size); try done|].
    1: apply Hk. 1: apply Hpath1. 1-2: destruct (bk_range _ _ _ _ Hblk); lia. 1: apply (bk_pages _ _ _ _ Hblk).
    intros st2 Hk2. eapply res_post_bind; [eapply free_path_post; [apply Hk2|by eapply path_ok_keeps]|].
    intros st3 Hk3. cbn [res_post]. split_and!; [|done|done].
    eapply keeps_trans; [exact HkX|]. eapply keeps_trans; [eapply keeps_mono; [|exact Hk2]; apply Hpath|done].
Qed.

(** A file that reads as [content] and has the digest asked for. *)
Lemma load_plain_result X X1 type high st d raw hash_buf path content d1 :
  alive max_entries st -> path_ok X X1 st (fm_path (f_meta raw)) path -> f_valid raw -> type <> MEMMAP_USABLE ->
  (0 < f_size raw -> fread d raw 0 (f_size raw) = Ok (content, d1)) -> Z.of_nat (length content) = f_size raw ->
  (forall b, hash_buf = Some b -> b = blake2b content) ->
  res_post (fun '(m, st', d') => keeps max_entries X st st' /\
              exists m', m = Some m' /\ m_size m' = f_size raw /\ loaded X type st' raw m' content) no_memory
    (load_plain max_entries x86 optional_resource hash_mismatch_panic key type high st d raw hash_buf path).
Proof.
  intros Hal Hpath Hf Hty Hr Hlen Hhash. unfold load_plain. fold (filter_for hash_buf).
  eapply res_post_bind; [apply (copy_in_result X1 type high st d raw hash_buf content d1); try done; apply Hpath|].
  intros [[[[addr size] h] st1] d2] (Hk & Hd2 & -> & n & Hn & Hblk & Hout & Hload & Hfil).
  pose proof (path_ok_keeps _ _ _ _ _ _ Hpath Hk) as Hpath1.
  eapply res_post_bind with (Q := fun use => use = true).
  { destruct hash_buf as [b|], h as [h|]; cbn in Hfil; try done. destruct Hfil as (fr & reads & Hra).
    specialize (Hhash b eq_refl).
    destruct (blake2b_filter_correct fr reads content h b Hra ltac:(rewrite Hhash; apply length_blake2b)) as (ok & h' & -> & Hok & _).
    cbn [rbind]. by rewrite (proj2 Hok (eq_sym Hhash)). }
  intros use ->. cbn [negb].
  eapply res_post_mono; [by apply (uri_result_post X X1 type st1 d2 raw addr (f_size raw) n path); try apply Hk| |done].
  intros [[m st2] d3] (Hk2 & _ & m' & -> & _ & Hsz & Hld). rewrite Hload in Hld.
  split; [|by exists m']. eapply keeps_trans; [eapply keeps_mono; [|exact Hk]; apply Hpath|done].
Qed.

(** ** A compressed file *)
Lemma check_compressed_post X st d raw hash_buf high :
  alive max_entries st -> taken st X -> d_valid d -> f_valid raw -> length hash_buf = 64%nat ->
  res_post (fun '(src, st', d') => keeps max_entries X st st' /\ d_valid d' /\
      forall src', src = Some src' -> exists X2 handle addr size n k,
        src' = FromMemory handle addr size /\ 0 <= size <= n /\ taken st' X2 /\
        (forall a, X2 a <-> X a \/ blk addr n a \/ blk handle k a) /\
        block st' MEMMAP_BOOTLOADER_RECLAIMABLE addr n /\ block st' MEMMAP_BOOTLOADER_RECLAIMABLE handle k /\
        sizeof_file_handle <= k /\ (forall a, blk addr n a -> ~ X a) /\ (forall a, blk handle k a -> ~ X a /\ ~ blk addr n a) /\
        (strict = true -> blake2b (load_bytes (ram st') addr size) = hash_buf)) any
    (check_compressed max_entries x86 optional_resource hash_mismatch_panic key st d raw hash_buf high).
Proof.
  intros Hal Htk Hd Hf Hh. pose proof (f_size_range raw Hf) as Hsz. unfold check_compressed.
  rewrite (wrap_small 64), Z.eqb_refl by lia. cbn [negb].
  eapply res_post_bind; [by apply weaken with no_memory, (uri_alloc_post max_entries x86 st X)|].
  intros [p st1] (Hk & n & Hn & _ & Hblk & Hout). cbn [fst snd] in *.
  eapply res_post_bind; [apply fread_valid; try done; lia|]. intros [bs d1] (Hd1 & Hl & Hb). cbn [fst snd] in *.
  case_if; [done|]. bool_hyps. assert (Z.of_nat (length bs) = f_size raw) as Hlen by lia.
  set (st2 := with_ram st1 _).
  assert (keeps max_entries X st1 st2) as Hk1.
  { apply keeps_ram; [apply Hk|apply Hk|]. intros a Ha. apply store_bytes_other. intros Hin.
    apply (Hout a); [|done]. unfold blk, inside in *. lia. }
  assert (keeps max_entries X st st2) as Hk2 by (by eapply keeps_trans).
  assert (block st2 MEMMAP_BOOTLOADER_RECLAIMABLE p n) as Hblk2 by (destruct Hblk as [B1 B2 B3 B4]; by split).
  destruct (bk_range _ _ _ _ Hblk2) as (Hp0 & Hn0 & Hpn). destruct (bk_pages _ _ _ _ Hblk2) as [Hpm Hnm].
  remember (blake2b (load_bytes (ram st2) p (f_size raw))) as dg eqn:Edg.
  destruct (memcmp_eq 64 dg hash_buf) as (r & Hr & Hiff); [rewrite Edg; apply length_blake2b|exact Hh|].
  change BLAKE2B_OUT_BYTES with 64%nat. rewrite Hr. cbn [rbind].
  eapply res_post_bind with (Q := fun use => use = true -> strict = true -> dg = hash_buf).
  { destruct (r =? 0) eqn:E; bool_hyps; cbn [negb]; [intros _ _; by apply Hiff|].
    eapply res_post_mono; [apply uri_hash_mismatch_post| |done]. intros use Hs -> Hst. by specialize (Hs Hst). }
  intros use Huse. destruct use; cbn [negb].
  - eapply res_post_bind; [apply weaken with no_memory, (alloc_alloc_post max_entries x86 st2 (also X p n)); [apply Hk2| |done]|].
    { apply taken_also; [apply Hk2|apply Hblk2]. }
    intros [q st3] (Hk3 & k & Hkk & _ & Hbq & Hoq). cbn [res_post fst snd] in *.
    split_and!; [|done|].
    + eapply keeps_trans; [exact Hk2|]. eapply keeps_mono; [|exact Hk3]. by left.
    + intros src [= <-]. exists (fun a => also X p n a \/ blk q k a), q, p, (f_size raw), n, k.
      split_and!; [reflexivity|lia|lia| | | |exact Hbq|exact Hkk|exact Hout| |].
      * intros a [Ha|Ha]; [by apply (k_taken _ _ _ _ Hk3)|by apply (bk_taken _ _ _ _ Hbq)].
      * intros a. unfold also. tauto.
      * eapply block_keeps; [exact Hblk2|done|eapply keeps_mono; [|exact Hk3]; by right].
      * intros a Ha. split; intros Hx; apply (Hoq a Ha); [by left|by right].
      * intros Hst. rewrite (load_bytes_ext (ram st2) (ram st3)); [exact (eq_trans (eq_sym Edg) (Huse eq_refl Hst))|].
        intros x Hx. apply (k_ram _ _ _ _ Hk3). right. unfold blk, inside in *. lia.
  - eapply res_post_bind; [apply (uri_release_range_post max_entries st2 X p n (f_size raw)); try done; [apply Hk2|apply Hk2|lia]|].
    intros st3 Hk3. cbn [res_post]. split_and!; [by eapply keeps_trans|done|done].
Qed.

(** Closing the copy in memory gives back its blocks alone. *)
Lemma source_close_post X st handle addr size n k :
  alive max_entries st -> taken st X ->
  block st MEMMAP_BOOTLOADER_RECLAIMABLE addr n -> block st MEMMAP_BOOTLOADER_RECLAIMABLE handle k ->
  0 <= size <= n -> sizeof_file_handle <= k -> (forall a, blk addr n a -> ~ X a) ->
  (forall a, blk handle k a -> ~ X a /\ ~ blk addr n a) ->
  res_post (fun st' => keeps max_entries X st st') any
    (source_close (H := H) max_entries st (FromMemory handle addr size)).
Proof.
  intros Hal Htk Hb1 Hb2 Hsz Hk Ho1 Ho2. cbn [source_close].
  destruct (bk_range _ _ _ _ Hb1) as (? & ? & ?), (bk_pages _ _ _ _ Hb1).
  destruct (bk_range _ _ _ _ Hb2) as (? & ? & ?), (bk_pages _ _ _ _ Hb2).
  eapply res_post_bind.
  - apply (free_post max_entries st (also X handle k) addr n); try done.
    + apply taken_also; [done|apply Hb2].
    + intros a Ha [HX|Hin]; [by apply (Ho1 a)|by apply (Ho2 a Hin)].
  - intros st1 Hk1. eapply res_post_mono; [apply (free_post max_entries st1 X handle k); try done| |done].
    + apply Hk1.
    + intros a Ha. apply (k_taken _ _ _ _ Hk1). by left.
    + intros a Ha. by apply Ho2.
    + intros st2 Hk2. eapply keeps_trans; [eapply keeps_mono; [|exact Hk1]; by left|done].
Qed.

Lemma given_image st (d : D) handle addr size data d' (gh : gzip_handle gz) :
  0 <= size -> given st d (FromMemory (H := H) handle addr size) data true d' gh ->
  inflates gz (load_bytes (ram st) addr size) data.
Proof.
  intros Hs Hg. exists gh. unfold given in Hg. cbn [source_size] in Hg.
  assert (Z.of_nat (length (load_bytes (ram st) addr size)) = size) as El by (by apply length_load_bytes).
  eapply (pulls_image (D := D)). rewrite El. eapply pulls_ext; [| |exact Hg]; [|done].
  intros d1 loc count Hl. by apply source_read_image.
Qed.

(** Inflating from [src], in memory or not, and returning the result. *)
Lemma finish_compressed X X1 type high st d raw (src : gz_source H) path (spec : list Z -> Prop) :
  alive max_entries st -> path_ok X X1 st (fm_path (f_meta raw)) path -> d_valid d -> type <> MEMMAP_USABLE ->
  (exists X2, source_ok X2 src /\ taken st X2 /\ (forall a, X1 a -> X2 a) /\
     (forall data d' gh, given (gz := gz) st d src data true d' gh -> spec data) /\
     forall Y st', keeps max_entries X2 st st' -> taken st' Y -> (forall a, X2 a -> ~ X1 a -> ~ Y a) ->
       res_post (fun st2 => keeps max_entries Y st' st2) any (source_close max_entries st' src)) ->
  res_post (fun '(m, st', d') => keeps max_entries X st st' /\ d_valid d' /\
      forall m', m = Some m' -> exists data, loaded X type st' raw m' data /\ spec data) any
    (let! (addr, size, st, d) := drain (gz := gz) max_entries x86 type high st d src in
     let! st := source_close max_entries st src in
     uri_result max_entries x86 st d addr size (f_meta raw) path).
Proof.
  intros Hal Hpath Hd Hty (X2 & Hsrc & Htk2 & Hsub & Hspec & Hclose).
  eapply res_post_bind; [by apply (drain_post max_entries x86 X2 type high st d src)|].
  intros [[[addr size] st1] d1] (Hk & Hd1 & n & gh & Hn & Hblk & Hout & Hg).
  assert (keeps max_entries X1 st st1) as Hk1 by (eapply keeps_mono; [|exact Hk]; done).
  eapply res_post_bind; [apply (Hclose (also X1 addr n) st1 Hk)|].
  { apply taken_also; [apply Hk1|apply Hblk]. }
  { intros a Ha Hno [HX|Hin]; [done|by apply (Hout a Hin)]. }
  intros st2 Hk2.
  assert (keeps max_entries X1 st st2) as Hk3 by (eapply keeps_trans; [exact Hk1|eapply keeps_mono; [|exact Hk2]; by left]).
  eapply res_post_mono; [apply (uri_result_post X X1 type st2 d1 raw addr size n path); try done| |done].
  - apply Hk2.
  - by eapply path_ok_keeps.
  - eapply block_keeps; [exact Hblk|done|eapply keeps_mono; [|exact Hk2]; by right].
  - intros a Ha HX. by apply (Hout a Ha), Hsub.
  - intros [[m st3] d3] (Hk4 & -> & m' & -> & _ & _ & Hld). split_and!; [|done|].
    + eapply keeps_trans; [eapply keeps_mono; [|exact Hk3]; apply Hpath|done].
    + intros m2 [= <-]. eexists. split; [exact Hld|]. rewrite (load_bytes_ext (ram st1)); [by eapply Hspec|].
      intros x Hx. apply (k_ram _ _ _ _ Hk2). right. unfold blk, inside in *. lia.
Qed.

Lemma load_compressed_post X X1 type high st d raw hash_buf path :
  alive max_entries st -> path_ok X X1 st (fm_path (f_meta raw)) path -> d_valid d -> f_valid raw ->
  type <> MEMMAP_USABLE -> (forall b, hash_buf = Some b -> length b = 64%nat) ->
  res_post (load_result X type st raw hash_buf true) any
    (load_compressed (gz := gz) max_entries x86 optional_resource hash_mismatch_panic key type high st d raw hash_buf path).
Proof.
  intros Hal Hpath Hd Hf Hty Hhash. unfold load_compressed. destruct hash_buf as [b|].
  - eapply res_post_bind; [apply (check_compressed_post X1 st d raw b high); try done; [apply Hpath|by apply Hhash]|].
    intros [[src st1] d1] (Hk & Hd1 & Hsrc). pose proof (path_ok_keeps _ _ _ _ _ _ Hpath Hk) as Hpath1.
    assert (keeps max_entries X st st1) as HkX by (eapply keeps_mono; [|exact Hk]; apply Hpath).
    destruct src as [src|].
    + destruct (Hsrc src eq_refl) as (X2 & handle & addr & size & n & k & -> & Hsz & Htk2 & HX2 & Hb1 & Hb2 & Hkk & Ho1 & Ho2 & Hdig).
      eapply res_post_mono; [eapply (finish_compressed X X1 type high st1 d1 raw _ path (fun data =>
        inflates gz (load_bytes (ram st1) addr size) data)); try done; [apply Hk|]| |done].
      * exists X2. destruct (bk_range _ _ _ _ Hb1). split_and!; try done.
        -- cbn. split; [lia|]. intros a Ha. apply HX2. right. left. unfold blk, inside in *. lia.
        -- intros a Ha. apply HX2. by left.
        -- intros data d' gh. apply given_image; lia.
        -- intros Y st' Hk' HtkY HY. apply (source_close_post Y st' handle addr size n k); try done.
           ++ apply Hk'.
           ++ eapply block_keeps; [exact Hb1|done|]. eapply keeps_mono; [|exact Hk']. intros a Ha. apply HX2. auto.
           ++ eapply block_keeps; [exact Hb2|done|]. eapply keeps_mono; [|exact Hk']. intros a Ha. apply HX2. auto.
           ++ intros a Ha. apply HY; [apply HX2; auto|by apply Ho1].
           ++ intros a Ha. destruct (Ho2 a Ha). split; [|done]. apply HY; [apply HX2; auto|done].
      * intros [[m st2] d2] (Hk2 & Hd2 & Hm). split_and!; [by eapply keeps_trans|done|].
        intros m' Hm'. destruct (Hm m' Hm') as (data & Hld & Hinf). exists data. split; [done|].
        intros Hst b' [= <-]. eexists. split; [by apply Hdig|done].
    + eapply res_post_bind; [eapply free_path_post; [apply Hk|exact Hpath1]|].
      intros st2 Hk2. cbn [res_post]. split_and!; [by eapply keeps_trans|done|done].
  - cbn [rbind]. eapply res_post_mono; [eapply (finish_compressed X X1 type high st d raw _ path (fun _ => True)); try done| |done].
    + exists X1. split_and!; try done; [apply Hpath|]. intros Y st' Hk' HtkY _. cbn. apply keeps_refl; [apply Hk'|done].
    + intros [[m st2] d2] (Hk2 & Hd2 & Hm). split_and!; [done|done|].
      intros m' Hm'. destruct (Hm m' Hm') as (data & Hld & _). by exists data.
Qed.
End Load.
