(* ===== verification/UriProps.v ===== *)
(** * Files are what their URIs say: theorems on [uri_resolve] and [uri_open] *)

From S2P Require Import Prelude CInt Memmap MemmapSem Separate Sanitise RangeAlloc Pmm PmmFacts.
From S2P Require Import PmmProps Libc LibcProps Guid Blake2b Volume Gpt Mbr File Uri UriText UriOpen UriLoad.

(** The digest a hash writes in hexadecimal. *)
Definition digest_bytes (n : nat) (h : list Z) : list Z :=
  map (fun i => 16 * digit_to_int (nth (2 * i) h 0) + digit_to_int (nth (2 * i + 1) h 0)) (seq 0 n).

Lemma xdigit_value c : is_xdigit c = true -> 0 <= digit_to_int c < 16.
Proof. unfold is_xdigit, digit_to_int. repeat (case_if; bool_hyps); rewrite ?orb_true_iff, ?andb_true_iff in *; lia. Qed.

Lemma hash_digits_spec n : forall h t, length h = (2 * n)%nat -> Forall (fun c => is_xdigit c = true) h ->
  hash_digits n (h ++ t) = Ok (digest_bytes n h).
Proof.
  induction n as [|n IH]; intros h t Hl Hx; [done|].
  destruct h as [|a [|b h]]; cbn in Hl; try lia. apply Forall_cons in Hx as [Ha Hx]. apply Forall_cons in Hx as [Hb Hx].
  cbn [hash_digits app]. change (rd (a :: b :: h ++ t) 0) with (@Ok Z a). change (rd (a :: b :: h ++ t) 1) with (@Ok Z b).
  cbn [rbind]. change (drop 2 (a :: b :: h ++ t)) with (h ++ t). rewrite IH by (lia || done). cbn [rbind].
  apply xdigit_value in Ha, Hb. unfold digest_bytes. cbn [seq map]. f_equal. f_equal.
  - cbn. rewrite shiftl_lor_low by lia. rewrite wrap_small by lia. lia.
  - rewrite <- (seq_shift n 0), map_map. apply map_ext. intros i.
    replace (2 * S i)%nat with (S (S (2 * i))) by lia. done.
Qed.

#[local] Opaque blake2b.

Section Open.
Context {D H gz : Type} `{!FileSystem D H} `{!FileSystemOk D H} `{!Inflater gz} `{!InflaterOk gz}.
Variable max_entries : nat.
Variables (x86 uefi boot_pxe : bool) (boot_volume : vol_id) (stack_guid : guid).
Variables (optional_resource secure_boot_active hash_mismatch_panic : bool) (key : Z).
Hypothesis Hguid : length (g_d stack_guid) = 8%nat.

(** The resource is marked as compressed. *)
Definition compressed (t : uri_text) : bool :=
  match t_resource t with c :: _ => c =? 36 | [] => false end.

(** The digest promised of a file, if any. *)
Definition promised (t : uri_text) : option (list Z) := digest_bytes 64 <$> t_hash t.

Lemma load_raw_post X type high t st d raw :
  alive max_entries st -> taken st X -> d_valid d -> f_valid raw -> type <> MEMMAP_USABLE -> well_formed t ->
  res_post (fun r => load_result (gz := gz) max_entries optional_resource hash_mismatch_panic X type st raw (promised t) (compressed t) r /\
              (r.1.1 <> None -> secure_boot_active = true -> t_hash t <> None)) any
    (load_raw (gz := gz) max_entries x86 optional_resource secure_boot_active hash_mismatch_panic key
       type high (compressed t) st d raw ((fun h => h ++ [0]) <$> t_hash t)).
Proof.
  intros Hal Htk Hd Hf Hty [_ _ Hh]. unfold load_raw, promised. pose proof (f_path_range raw Hf) as Hpl.
  assert (forall hash_buf, (forall b, hash_buf = Some b -> length b = 64%nat) ->
    res_post (load_result (gz := gz) max_entries optional_resource hash_mismatch_panic X type st raw hash_buf (compressed t)) any
      (let! (path, st1) := copy_path max_entries x86 st (fm_path (f_meta raw)) in
       (if compressed t then load_compressed (gz := gz) max_entries x86 optional_resource hash_mismatch_panic key
        else load_plain max_entries x86 optional_resource hash_mismatch_panic key) type high st1 d raw hash_buf path)) as Hload.
  { intros hash_buf Hb. eapply res_post_bind; [by apply weaken with no_memory, (copy_path_post max_entries x86 X)|].
    intros [path st1] (Hk & X1 & Hp). cbn [fst snd] in *.
    assert (forall gzc r, load_result (gz := gz) max_entries optional_resource hash_mismatch_panic X type st1 raw hash_buf gzc r ->
      load_result (gz := gz) max_entries optional_resource hash_mismatch_panic X type st raw hash_buf gzc r) as Hweak.
    { intros gzc [[m st2] d2] (Hk2 & Hd2 & Hm). split_and!; [by eapply keeps_trans|done|done]. }
    destruct (compressed t).
    - eapply res_post_mono; [by eapply load_compressed_post; try done; apply Hk|apply Hweak|done].
    - eapply res_post_mono; [by eapply load_plain_post; try done; apply Hk|apply Hweak|done]. }
  destruct (t_hash t) as [h|]; cbn [fmap option_fmap option_map].
  - destruct Hh as [Hl Hx]. change BLAKE2B_OUT_BYTES with 64%nat. rewrite (hash_digits_spec 64 h [0] Hl Hx). cbn [rbind].
    eapply res_post_mono; [apply (Hload (Some (digest_bytes 64 h)))| |done].
    + intros b [= <-]. unfold digest_bytes. by rewrite length_map, length_seq.
    + intros r Hr. by split.
  - destruct secure_boot_active.
    + unfold URI_ERROR. case_if; [exact I|]. cbn [rbind res_post fst snd]. split; [|intros Hn; by destruct Hn].
      split_and!; [by apply keeps_refl|done|]. intros m' Hm. discriminate Hm.
    + eapply res_post_mono; [by apply (Hload None)| |done]. intros r Hr. by split.
Qed.

(** The resource a text names, its mark for compression stripped. *)
Definition resource_of (t : uri_text) : list Z := if compressed t then drop 1 (t_resource t) else t_resource t.

Lemma uri_open_steps t st d junk type high :
  well_formed t -> text (written t) -> Z.of_nat (length (written t)) <= 4095 ->
  uri_open (gz := gz) max_entries x86 uefi boot_pxe boot_volume stack_guid optional_resource
    secure_boot_active hash_mismatch_panic key st d (written t ++ 0 :: junk) type high =
  let! (raw, d) := uri_dispatch optional_resource uefi boot_volume boot_pxe stack_guid d
                     (resource_of t ++ [0]) (t_root t ++ [0]) (t_path t ++ [0]) in
  match raw with
  | None => Ok (None, st, d)
  | Some raw => load_raw (gz := gz) max_entries x86 optional_resource secure_boot_active hash_mismatch_panic key
                  type high (compressed t) st d raw ((fun h => h ++ [0]) <$> t_hash t)
  end.
Proof.
  intros Hwf Ht Hl. unfold uri_open. rewrite (uri_resolve_written optional_resource t junk Hwf Ht Hl). cbn [rbind]. unfold parts_of.
  assert (rd (t_resource t ++ [0]) 0 = Ok (match t_resource t with c :: _ => c | [] => 0 end)) as -> by (by destruct (t_resource t)).
  cbn [rbind].
  assert (((match t_resource t with c :: _ => c | [] => 0 end) =? 36) = compressed t) as -> by (unfold compressed; by destruct (t_resource t)).
  replace (if compressed t then drop 1 (t_resource t ++ [0]) else t_resource t ++ [0]) with (resource_of t ++ [0]); [done|].
  unfold resource_of, compressed. destruct (t_resource t) as [|c r]; [done|]. by case_if.
Qed.

Lemma dispatch_valid t d : well_formed t -> text (written t) -> Z.of_nat (length (written t)) <= 4095 -> d_valid d ->
  res_post opened_ok (fun _ => True)
    (uri_dispatch optional_resource uefi boot_volume boot_pxe stack_guid d
       (resource_of t ++ [0]) (t_root t ++ [0]) (t_path t ++ [0])).
Proof.
  intros Hwf Ht Hl Hd. unfold written in Ht, Hl. rewrite !length_app in Hl.
  apply text_app in Ht as [Hre [_ [Hro _]%text_app]%text_app].
  apply uri_dispatch_post; [done|done| | | |].
  - eexists _, []. split; [done|]. unfold resource_of. case_if; [by apply Forall_drop|done].
  - by eexists _, [].
  - apply in_or_app. right. by left.
  - rewrite length_app. cbn. lia.
Qed.

(** What [uri_open] promises of a file it returns for the text [u]: it is a
    well-formed URI, the file is the one the root and path lead to, it lies in
    memory of the type asked for, and, if a mismatch is final, its bytes are
    vouched for by the digest in the URI. *)
Definition vouched (X : Z -> Prop) (type : Z) (u : list Z) (d : D) (st' : pmm) (m : memfile) : Prop :=
  exists t raw d1 data,
    well_formed t /\ u = written t /\
    uri_dispatch optional_resource uefi boot_volume boot_pxe stack_guid d
      (resource_of t ++ [0]) (t_root t ++ [0]) (t_path t ++ [0]) = Ok (Some raw, d1) /\
    loaded X type st' raw m data /\
    (secure_boot_active = true -> t_hash t <> None) /\
    (hash_mismatch_panic = true \/ optional_resource = true -> forall h, t_hash t = Some h ->
       if compressed t then exists image, blake2b image = digest_bytes 64 h /\ inflates gz image data
       else blake2b data = digest_bytes 64 h).

(** C11.  Verified files.  For any text, on any device - also one that returns
    other bytes each time it is read - and with any inflater, [uri_open] returns
    or panics.  A file it returns lies in memory of the requested type, and
    nothing that was in use before is changed.  Under Secure Boot its URI has a
    digest; and unless the user may accept a mismatch, the bytes in memory have
    that digest, or, for a compressed file, are what the inflater makes of one
    image that has it. *)
Theorem uri_open_authentic st d u junk type high X :
  alive max_entries st -> taken st X -> d_valid d -> text u -> type <> MEMMAP_USABLE ->
  res_post (fun '(m, st', d') => keeps max_entries X st st' /\ d_valid d' /\
              forall m', m = Some m' -> vouched X type u d st' m') any
    (uri_open (gz := gz) max_entries x86 uefi boot_pxe boot_volume stack_guid optional_resource
       secure_boot_active hash_mismatch_panic key st d (u ++ 0 :: junk) type high).
Proof.
  intros Hal Htk Hd Hu Hty.
  pose proof (uri_resolve_spec optional_resource u junk Hu) as Hres.
  destruct (uri_resolve optional_resource (u ++ 0 :: junk)) as [[p|]|m| |] eqn:Er; cbn [res_post] in Hres; try done.
  2: unfold uri_open; rewrite Er; cbn; split_and!; [by apply keeps_refl|done|done].
  2: by unfold uri_open; rewrite Er.
  destruct Hres as (t & Hwf & -> & Hlen & _). rewrite uri_open_steps by done.
  pose proof (dispatch_valid t d Hwf Hu Hlen Hd) as Hdis.
  destruct (uri_dispatch _ _ _ _ _ _ _ _ _) as [[raw d1]| | |] eqn:Edis; cbn [rbind res_post] in Hdis |- *; try done.
  destruct Hdis as [Hd1 Hf]. cbn [fst snd] in *.
  destruct raw as [raw|]; [|cbn; split_and!; [by apply keeps_refl|done|done]].
  eapply res_post_mono; [apply (load_raw_post X type high t st d1 raw); try done; by apply Hf| |done].
  intros [[m st'] d'] [(Hk & Hd' & Hm) Hsec]. cbn [fst snd] in *. split_and!; [done|done|].
  intros m' ->. destruct (Hm m' eq_refl) as (data & Hld & Hdig). exists t, raw, d1, data. split_and!; try done.
  - by apply Hsec.
  - intros Hs h Hh. assert (strict optional_resource hash_mismatch_panic = true) as Hst
      by (unfold strict; destruct Hs as [-> | ->]; [done|apply orb_true_r]).
    apply (Hdig Hst (digest_bytes 64 h)). unfold promised. by rewrite Hh.
Qed.

(** C12.  Files arrive.  When a well-formed URI without a compression mark leads
    to a file that reads as [content], and its digest, if it has one, is that of
    [content] - as it must have under Secure Boot - then [uri_open] returns the
    file with exactly [content] in memory, unless there is no memory for it. *)
Theorem uri_open_loads t st d junk type high X raw d1 content d2 :
  alive max_entries st -> taken st X -> d_valid d -> type <> MEMMAP_USABLE ->
  well_formed t -> text (written t) -> Z.of_nat (length (written t)) <= 4095 -> compressed t = false ->
  uri_dispatch optional_resource uefi boot_volume boot_pxe stack_guid d
    (resource_of t ++ [0]) (t_root t ++ [0]) (t_path t ++ [0]) = Ok (Some raw, d1) ->
  (0 < f_size raw -> f_read d1 raw 0 (f_size raw) = Ok (content, d2)) -> Z.of_nat (length content) = f_size raw ->
  (secure_boot_active = true -> t_hash t <> None) -> (forall h, t_hash t = Some h -> digest_bytes 64 h = blake2b content) ->
  res_post (fun '(m, st', d') => keeps max_entries X st st' /\
              exists m', m = Some m' /\ m_size m' = f_size raw /\ loaded X type st' raw m' content) no_memory
    (uri_open (gz := gz) max_entries x86 uefi boot_pxe boot_volume stack_guid optional_resource
       secure_boot_active hash_mismatch_panic key st d (written t ++ 0 :: junk) type high).
Proof.
  intros Hal Htk Hd Hty Hwf Ht Hl Hc Hdis Hread Hlen Hsec Hdig. rewrite uri_open_steps by done.
  pose proof (dispatch_valid t d Hwf Ht Hl Hd) as Hv. rewrite Hdis in Hv |- *. cbn [rbind res_post] in Hv |- *.
  destruct Hv as [Hd1 Hf]. specialize (Hf raw eq_refl). cbn [fst snd] in *.
  assert (0 < f_size raw -> fread d1 raw 0 (f_size raw) = Ok (content, d2)) as Hfr.
  { intros Hs. unfold fread. rewrite Z.sub_0_r, Z.ltb_irrefl, (proj2 (Z.ltb_ge _ _)) by lia. by apply Hread. }
  assert (forall hash_buf, (forall b, hash_buf = Some b -> b = blake2b content) ->
    res_post (fun '(m, st', d') => keeps max_entries X st st' /\
              exists m', m = Some m' /\ m_size m' = f_size raw /\ loaded X type st' raw m' content) no_memory
      (let! (path, st1) := copy_path max_entries x86 st (fm_path (f_meta raw)) in
       load_plain max_entries x86 optional_resource hash_mismatch_panic key type high st1 d1 raw hash_buf path)) as Hload.
  { intros hash_buf Hb. eapply res_post_bind; [apply (copy_path_post max_entries x86 X); [done|done|by apply f_path_range]|].
    intros [path st1] (Hk & X1 & Hp). cbn [fst snd] in *.
    eapply res_post_mono; [eapply load_plain_result; [apply Hk|exact Hp|done..]| |done].
    intros [[m st2] d3] [Hk2 Hm]. split; [by eapply keeps_trans|done]. }
  unfold load_raw. rewrite Hc. destruct Hwf as [_ _ Hh]. destruct (t_hash t) as [h|]; cbn [fmap option_fmap option_map].
  - change BLAKE2B_OUT_BYTES with 64%nat. rewrite (hash_digits_spec 64 h [0] (proj1 Hh) (proj2 Hh)). cbn [rbind].
    apply Hload. intros b [= <-]. by apply Hdig.
  - destruct secure_boot_active; [by destruct (Hsec eq_refl)|]. by apply Hload.
Qed.
End Open.

(** C28.  The grammar of URIs.  [uri_resolve] accepts a text exactly if it is
    shorter than the 4096-byte buffer and is [resource(root):/path#hash] with a hash
    of 128 hexadecimal digits, or [resource(root):/path] with a path that is not
    empty and has no [#], where the resource has no opening parenthesis and the
    root no [):/]; it returns these parts, and a text has at most one such reading.
    Any other text is declined, or ends in a panic if the resource is not
    optional. *)
Theorem uri_resolve_correct optional_resource u junk :
  text u ->
  let resolved := uri_resolve optional_resource (u ++ 0 :: junk) in
  (forall p, resolved = Ok (Some p) <->
     exists t, well_formed t /\ u = written t /\ Z.of_nat (length u) < URI_BUF_SIZE /\ p = parts_of t) /\
  (forall t t', well_formed t -> well_formed t' -> u = written t -> u = written t' -> t = t') /\
  ((exists p, resolved = Ok (Some p)) \/ resolved = Ok None \/
   optional_resource = false /\ exists message, resolved = Panic message).
Proof.
  intros Hu resolved. pose proof (uri_resolve_spec optional_resource u junk Hu) as H. fold resolved in H. unfold URI_BUF_SIZE. split_and!.
  - intros p. split.
    + intros Hp. rewrite Hp in H. destruct H as (t & Hwf & Hw & Hl & ->). exists t. split_and!; [done|done|lia|done].
    + intros (t & Hwf & Hw & Hl & ->). unfold resolved. subst u. apply uri_resolve_written; [done|done|lia].
  - intros t t' Hwf Hwf' E E'. apply written_inj; congruence.
  - destruct resolved as [[p|]|m| |]; cbn in H; try done; [left; by exists p|by right; left|].
    right. right. split; [apply H|by exists m].
Qed.

(** ** A device with one file, and an inflater of stored data *)
Definition demo_content : list Z := bytes "hello".
Definition demo_hash : list Z := Eval vm_compute in hex_of (blake2b demo_content).

Definition demo_volume : vol_id := MkVolId None None None 1 false 1 0x80.

(** The device counts its reads. *)
#[local] Instance demo_files : FileSystem Z (list Z) := {|
  volume_index _ := [demo_volume];
  disk_connect_all d := (false, d);
  fopen d _ _ := Ok (Some demo_content, d);
  tftp_open d _ _ := Ok (None, d);
  f_size fd := Z.of_nat (length fd);
  f_read d fd loc count := Ok (take (Z.to_nat count) (drop (Z.to_nat loc) fd), d + 1);
  f_meta _ := MkMeta demo_volume (Some (cstring "/a")) false [0; 0; 0; 0] 0;
|}.

#[local] Instance demo_files_ok : FileSystemOk Z (list Z).
Proof.
  refine {| d_valid := fun _ => True; f_valid := fun fd => fd = demo_content |}; cbn [f_size f_read f_meta fopen tftp_open disk_connect_all].
  - done.
  - intros d v path _ _ _. cbn. split; [done|]. by intros fd [= <-].
  - intros d root path _ _ _. cbn. by split.
  - intros fd _. cbn. lia.
  - intros fd ->. cbn. lia.
  - intros d fd loc count _ -> Hl Hc Hs. split; [done|]. cbn [fst]. split.
    + rewrite length_take. lia.
    + apply Forall_take, Forall_drop. repeat constructor; unfold is_byte; lia.
Defined.

#[local] Instance demo_inflater : Inflater unit := {|
  pdgzip_init := tt;
  pdgzip_read _ count := Pull count (fun bs => Done (Some (map u8 (take (Z.to_nat count) bs))) tt);
|}.

#[local] Instance demo_inflater_ok : InflaterOk unit.
Proof.
  constructor. intros g count Hc. split; [done|]. intros bs. split.
  - rewrite length_map, length_take. lia.
  - apply Forall_fmap, Forall_true. intros x. apply (wrap_range 8). lia.
Qed.

Definition demo_memory : pmm := with_memmap demo_pmm [MkEntry 0x100000 0x400000 1].

Lemma demo_memory_alive : alive 512 demo_memory.
Proof.
  split; [apply pmm_inv_check; [by apply map_wf_check|by vm_compute]|done|].
  intros a. cbn [memmap demo_memory with_memmap]. unfold usable_at. rewrite has_type_cons, has_type_nil.
  unfold covers, e_top. cbn. lia.
Qed.

Definition demo_guid : guid := MkGuid 0 0 0 (replicate 8 0).

(** The text of a URI on the boot volume with the digest of the file. *)
Definition demo_uri (resource : string) : uri_text := MkText (bytes resource) [] (bytes "a") (Some demo_hash).

Definition demo_open (resource : string) : res (option memfile * pmm * Z) :=
  uri_open (gz := unit) 512 true true false demo_volume demo_guid false true true 0
    demo_memory 0 (written (demo_uri resource) ++ [0]) MEMMAP_KERNEL_AND_MODULES false.

(** The address and size of the file returned; the state is not evaluated. *)
Definition file_of (r : res (option memfile * pmm * Z)) : option (Z * Z) :=
  match r with Ok (Some m, _, _) => Some (m_addr m, m_size m) | _ => None end.

Example demo_open_compressed : file_of (demo_open "$boot") = Some (0x3fd000, 5).
Proof. vm_compute. reflexivity. Qed.

Lemma demo_text resource : forallb (fun c => 0 <? c) (written (demo_uri resource)) = true -> text (written (demo_uri resource)).
Proof. intros H. apply Forall_forall. intros c Hc. rewrite forallb_forall in H. apply Z.ltb_lt, H. by apply list_elem_of_In. Qed.

Lemma demo_wf resource : existsb (Z.eqb 40) (bytes resource) = false -> well_formed (demo_uri resource).
Proof.
  intros Hr. split; cbn [t_resource t_root t_hash demo_uri].
  - intros Hin. apply list_elem_of_In in Hin. assert (existsb (Z.eqb 40) (bytes resource) = true) as E
      by (apply existsb_exists; by exists 40). congruence.
  - intros x y E. by destruct x.
  - split; [by vm_compute|]. apply Forall_forall. intros c Hc.
    assert (forallb is_xdigit demo_hash = true) as H by (by vm_compute).
    rewrite forallb_forall in H. apply H. by apply list_elem_of_In.
Qed.

Lemma uri_open_authentic_witness :
  exists m st' d', demo_open "$boot" = Ok (Some m, st', d') /\ m_addr m = 0x3fd000 /\
    vouched (gz := unit) true false demo_volume demo_guid false true true (fun _ => False)
      MEMMAP_KERNEL_AND_MODULES (written (demo_uri "$boot")) 0 st' m.
Proof.
  pose proof demo_open_compressed as G.
  pose proof (uri_open_authentic (gz := unit) 512 true true false demo_volume demo_guid false true true 0 eq_refl
    demo_memory 0 (written (demo_uri "$boot")) [] MEMMAP_KERNEL_AND_MODULES false (fun _ => False)
    demo_memory_alive (fun a Ha => False_ind _ Ha) I (demo_text "$boot" eq_refl) ltac:(discriminate)) as H.
  change (uri_open 512 true true false demo_volume demo_guid false true true 0 demo_memory 0
            (written (demo_uri "$boot") ++ [0]) MEMMAP_KERNEL_AND_MODULES false) with (demo_open "$boot") in H.
  destruct (demo_open "$boot") as [[[[m|] st'] d']|msg| |]; cbn [file_of] in G; try discriminate G.
  destruct H as (_ & _ & H). exists m, st', d'. split; [reflexivity|]. split; [by injection G|]. by apply H.
Defined.

Lemma uri_open_loads_witness :
  res_post (fun '(m, st', d') => keeps 512 (fun _ => False) demo_memory st' /\
              exists m', m = Some m' /\ m_size m' = f_size demo_content /\
                loaded (fun _ => False) MEMMAP_KERNEL_AND_MODULES st' demo_content m' demo_content) no_memory
    (demo_open "boot").
Proof.
  unfold demo_open.
  refine (uri_open_loads (gz := unit) 512 true true false demo_volume demo_guid false true true 0 eq_refl
    (demo_uri "boot") demo_memory 0 [] MEMMAP_KERNEL_AND_MODULES false (fun _ => False) demo_content 0 demo_content 1 _ _ _ _ _ _ _ _ _ _ _ _ _).
  - exact demo_memory_alive.
  - intros a Ha. destruct Ha.
  - exact I.
  - discriminate.
  - by apply demo_wf.
  - by apply demo_text.
  - by vm_compute.
  - reflexivity.
  - reflexivity.
  - reflexivity.
  - reflexivity.
  - discriminate.
  - intros h [= <-]. vm_compute. reflexivity.
Defined.

Lemma uri_resolve_correct_witness :
  (exists r, uri_resolve true (cstring "boot():/a#b") = Ok r) /\
  uri_resolve true (written (demo_uri "$boot") ++ [0]) = Ok (Some (parts_of (demo_uri "$boot"))).
Proof.
  split.
  - destruct (uri_resolve_correct true (bytes "boot():/a#b") [] ltac:(repeat constructor)) as (_ & _ & [[p Hp]|[Hp|[? _]]]);
      [by eexists|by eexists|discriminate].
  - apply (uri_resolve_correct true (written (demo_uri "$boot")) [] (demo_text "$boot" eq_refl)).
    exists (demo_uri "$boot"). split; [by apply demo_wf|]. split; [reflexivity|]. split; [by vm_compute|reflexivity].
Defined.
