(* ===== verification/Elf.v ===== *)
(** * The ELF loader

    [common/lib/elf.c]: validation, section tables, the relocation tables of the
    dynamic segment, relocation, and the three ways of loading.  The file is the
    list of its bytes; a structure in it is read where the code points into the
    file, and pointing outside the file is [Fault].  The image is a fresh zeroed
    object of [image_size] bytes whose address the allocator returns.
    [file_size] is passed beside the file as in the code, and [arch] and
    [size_bits] are the build. *)

From S2P Require Import Prelude CInt Libc Gpt.

(** ** Constants *)
Inductive arch := X86 | AARCH64 | RISCV64 | LOONGARCH64.

Definition ET_EXEC : Z := 2.
Definition ET_DYN : Z := 3.
Definition PT_LOAD : Z := 1.
Definition PT_DYNAMIC : Z := 2.

Definition DT_NULL : Z := 0.
Definition DT_NEEDED : Z := 1.
Definition DT_RELA : Z := 7.
Definition DT_RELASZ : Z := 8.
Definition DT_RELAENT : Z := 9.
Definition DT_RELR : Z := 0x24.
Definition DT_RELRSZ : Z := 0x23.
Definition DT_RELRENT : Z := 0x25.
Definition DT_SYMTAB : Z := 6.
Definition DT_SYMENT : Z := 0xb.
Definition DT_STRTAB : Z := 5.
Definition DT_PLTREL : Z := 0x14.
Definition DT_PLTRELSZ : Z := 2.
Definition DT_JMPREL : Z := 0x17.

Definition ARCH_X86_64 : Z := 0x3e.
Definition ARCH_X86_32 : Z := 3.
Definition ARCH_AARCH64 : Z := 0xb7.
Definition ARCH_RISCV : Z := 0xf3.
Definition ARCH_LOONGARCH : Z := 0x102.
Definition BITS_LE : Z := 1.
Definition ELFCLASS32 : Z := 1.
Definition ELFCLASS64 : Z := 2.
Definition SHN_UNDEF : Z := 0.
Definition SHN_ABS : Z := 0xfff1.
Definition SHN_XINDEX : Z := 0xffff.
Definition STB_WEAK : Z := 2.
Definition R_INTERNAL_RELR : Z := 0xfffffff0.
Definition FIXED_HIGHER_HALF_OFFSET_64 : Z := 0xffffffff80000000.
Definition ELF_PF_X : Z := 1.
Definition ELF_PF_W : Z := 2.
Definition ELF_PF_R : Z := 4.
Definition MEM_RANGE_X : Z := 1.
Definition MEM_RANGE_W : Z := 2.
Definition MEM_RANGE_R : Z := 4.

(** The relocation types each build handles. *)
Definition R_RELATIVE (a : arch) : Z :=
  match a with X86 => 8 | AARCH64 => 0x403 | RISCV64 => 3 | LOONGARCH64 => 3 end.
Definition R_SLOTS (a : arch) : list Z :=
  match a with X86 => [6; 7] | AARCH64 => [0x401; 0x402] | RISCV64 => [5] | LOONGARCH64 => [5] end.
Definition R_ABS64 (a : arch) : Z :=
  match a with X86 => 1 | AARCH64 => 0x101 | RISCV64 => 2 | LOONGARCH64 => 2 end.

(** ** Structures in the file *)
Inductive elf_class := ELF32 | ELF64.

Definition width (c : elf_class) : Z := match c with ELF32 => 32 | ELF64 => 64 end.
Definition sizeof_hdr (c : elf_class) : Z := match c with ELF32 => 52 | ELF64 => 64 end.
Definition sizeof_phdr (c : elf_class) : Z := match c with ELF32 => 32 | ELF64 => 56 end.
Definition sizeof_shdr (c : elf_class) : Z := match c with ELF32 => 40 | ELF64 => 64 end.
Definition sizeof_rela : Z := 24.
Definition sizeof_dyn : Z := 16.
Definition sizeof_sym : Z := 24.

Record elf_hdr := MkHdr {
  h_ident : list Z; h_type : Z; h_machine : Z; h_entry : Z; h_phoff : Z; h_shoff : Z;
  h_phdr_size : Z; h_ph_num : Z; h_shdr_size : Z; h_sh_num : Z; h_shstrndx : Z;
}.

Definition hdr_of (c : elf_class) (b : list Z) : elf_hdr :=
  match c with
  | ELF64 => MkHdr (take 16 b) (field b 16 2) (field b 18 2) (field b 24 8) (field b 32 8) (field b 40 8)
                   (field b 54 2) (field b 56 2) (field b 58 2) (field b 60 2) (field b 62 2)
  | ELF32 => MkHdr (take 16 b) (field b 16 2) (field b 18 2) (field b 24 4) (field b 28 4) (field b 32 4)
                   (field b 42 2) (field b 44 2) (field b 46 2) (field b 48 2) (field b 50 2)
  end.

Record elf_phdr := MkPhdr {
  p_type : Z; p_flags : Z; p_offset : Z; p_vaddr : Z; p_paddr : Z; p_filesz : Z; p_memsz : Z; p_align : Z;
}.

Definition phdr_of (c : elf_class) (b : list Z) : elf_phdr :=
  match c with
  | ELF64 => MkPhdr (field b 0 4) (field b 4 4) (field b 8 8) (field b 16 8) (field b 24 8)
                    (field b 32 8) (field b 40 8) (field b 48 8)
  | ELF32 => MkPhdr (field b 0 4) (field b 24 4) (field b 4 4) (field b 8 4) (field b 12 4)
                    (field b 16 4) (field b 20 4) (field b 28 4)
  end.

Record elf_shdr := MkShdr {
  sh_name : Z; sh_addr : Z; sh_offset : Z; sh_size : Z; sh_link : Z;
}.

Definition shdr_of (c : elf_class) (b : list Z) : elf_shdr :=
  match c with
  | ELF64 => MkShdr (field b 0 4) (field b 16 8) (field b 24 8) (field b 32 8) (field b 40 4)
  | ELF32 => MkShdr (field b 0 4) (field b 12 4) (field b 16 4) (field b 20 4) (field b 24 4)
  end.

Record elf64_rela := MkRela { r_addr : Z; r_info : Z; r_symbol : Z; r_addend : Z }.

Definition rela_of (b : list Z) : elf64_rela :=
  MkRela (field b 0 8) (field b 8 4) (field b 12 4) (field b 16 8).

Record elf64_sym := MkSym { st_name : Z; st_info : Z; st_shndx : Z; st_value : Z }.

Definition sym_of (b : list Z) : elf64_sym :=
  MkSym (field b 0 4) (field b 4 1) (field b 6 2) (field b 8 8).

Record mem_range := MkRange { base : Z; length_ : Z; permissions : Z }.

Record elsewhere_range := MkElsewhere { elsewhere : list Z; target : Z; e_length : Z }.

(** [ext_mem_alloc_counted]: zeroed, or a panic on overflow. *)
Definition alloc_counted {A : Type} (count elem_size : Z) (zero : A) : res (list A) :=
  match CHECKED_MUL count elem_size with
  | None => Panic "ext_mem_alloc_counted: allocation size overflow"
  | Some _ => Ok (replicate (Z.to_nat count) zero)
  end.

Section Elf.
Variable arch_ : arch.
Variable size_bits : Z.    (** the width of [size_t] *)
Variable elf : list Z.
Variable file_size : Z.

Definition SIZE_MAX : Z := 2 ^ size_bits - 1.

(** The [n] bytes of the file a structure pointer at [off] accesses. *)
Definition object (off n : Z) : res (list Z) :=
  if (0 <=? off) && (off + n <=? Z.of_nat (length elf))
  then Ok (take (Z.to_nat n) (drop (Z.to_nat off) elf)) else Fault.

Definition header (c : elf_class) : res elf_hdr :=
  let! b := object 0 (sizeof_hdr c) in Ok (hdr_of c b).

(** ** Validation *)
Definition elf_magic (ident : list Z) : res bool :=
  let! r := strncmp ident [127; 69; 76; 70; 0] 4 in Ok (r =? 0).

Definition misaligned (hdr : elf_hdr) (n : Z) : bool :=
  negb (h_phoff hdr mod n =? 0) || negb (h_phdr_size hdr mod n =? 0)
  || negb (h_shoff hdr mod n =? 0) || negb (h_shdr_size hdr mod n =? 0).

Definition elf32_validate (hdr : elf_hdr) : res bool :=
  let! magic := elf_magic (h_ident hdr) in
  if negb magic then Panic "elf: Not a valid ELF file."
  else
    let! data := rd (h_ident hdr) 5 in
    if negb (data =? BITS_LE) then Panic "elf: Not a Little-endian ELF file."
    else
      let! class := rd (h_ident hdr) 4 in
      if negb (h_machine hdr =? ARCH_X86_32) || negb (class =? ELFCLASS32)
      then Panic "elf: Not an IA-32 ELF file."
      else if misaligned hdr 4 then Panic "elf: Header table is not naturally aligned in the file"
      else Ok true.

Definition native_machine : Z * string :=
  match arch_ with
  | X86 => (ARCH_X86_64, "elf: Not an x86-64 ELF file.")
  | AARCH64 => (ARCH_AARCH64, "elf: Not an aarch64 ELF file.")
  | RISCV64 => (ARCH_RISCV, "elf: Not a riscv64 ELF file.")
  | LOONGARCH64 => (ARCH_LOONGARCH, "elf: Not a loongarch64 ELF file.")
  end.

Definition elf64_validate (hdr : elf_hdr) : res bool :=
  let! magic := elf_magic (h_ident hdr) in
  if negb magic then Panic "elf: Not a valid ELF file."
  else
    let! data := rd (h_ident hdr) 5 in
    if negb (data =? BITS_LE) then Panic "elf: Not a Little-endian ELF file."
    else
      let! class := rd (h_ident hdr) 4 in
      if negb (h_machine hdr =? native_machine.1) || negb (class =? ELFCLASS64)
      then Panic native_machine.2
      else if misaligned hdr 8 then Panic "elf: Header table is not naturally aligned in the file"
      else Ok true.

Definition validate (c : elf_class) : elf_hdr -> res bool :=
  match c with ELF32 => elf32_validate | ELF64 => elf64_validate end.

Definition elf_bits : res Z :=
  if file_size <? sizeof_hdr ELF64 then Ok (-1)
  else
    let! hdr := header ELF64 in
    let! magic := elf_magic (h_ident hdr) in
    if negb magic then Ok (-1)
    else
      let! class := rd (h_ident hdr) 4 in
      if negb (class =? ELFCLASS64) && negb (class =? ELFCLASS32) then Ok (-1)
      else
        let bits := if class =? ELFCLASS64 then 64 else 32 in
        let m := h_machine hdr in
        if (m =? ARCH_X86_64) || (m =? ARCH_AARCH64) then Ok (if bits =? 64 then 64 else -1)
        else if (m =? ARCH_RISCV) || (m =? ARCH_LOONGARCH) then Ok bits
        else if m =? ARCH_X86_32 then Ok (if bits =? 32 then 32 else -1)
        else Ok (-1).

(** ** Section tables *)

(** [sh_num] and [shstrndx], or [None] for the return of [false]. *)
Definition section_numbering (c : elf_class) (hdr : elf_hdr) : res (option (Z * Z)) :=
  if (h_shoff hdr =? 0) || (negb (h_sh_num hdr =? 0) && negb (h_shstrndx hdr =? SHN_XINDEX))
  then Ok (Some (h_sh_num hdr, h_shstrndx hdr))
  else if (h_shdr_size hdr <? sizeof_shdr c) || (file_size <? h_shoff hdr)
          || (file_size - h_shoff hdr <? sizeof_shdr c)
  then Ok None
  else
    let! b := object (h_shoff hdr) (sizeof_shdr c) in
    let shdr := shdr_of c b in
    if (h_sh_num hdr =? 0) && (UINT32_MAX <? sh_size shdr) then Ok None
    else Ok (Some (if h_sh_num hdr =? 0 then sh_size shdr else h_sh_num hdr,
                   if h_shstrndx hdr =? SHN_XINDEX then sh_link shdr else h_shstrndx hdr)).

Definition elf64_section_numbering : elf_hdr -> res (option (Z * Z)) := section_numbering ELF64.
Definition elf32_section_numbering : elf_hdr -> res (option (Z * Z)) := section_numbering ELF32.

(** [num], [section_entry_size], [str_section_idx] and [section_offset]; all 0 is
    the empty answer. *)
Definition section_hdr_info (c : elf_class) : res (Z * Z * Z * Z) :=
  let! hdr := header c in
  let! _ := validate c hdr in
  let! numbering := match c with ELF32 => elf32_section_numbering hdr | ELF64 => elf64_section_numbering hdr end in
  match numbering with
  | None => Ok (0, 0, 0, 0)
  | Some (sh_num, shstrndx) =>
      match CHECKED_ADD (u64 (sh_num * h_shdr_size hdr)) (h_shoff hdr) with
      | None => Ok (0, 0, 0, 0)
      | Some table_end =>
          if file_size <? table_end then Ok (0, 0, 0, 0)
          else Ok (sh_num, h_shdr_size hdr, shstrndx, h_shoff hdr)
      end
  end.

Definition elf64_section_hdr_info : res (Z * Z * Z * Z) := section_hdr_info ELF64.
Definition elf32_section_hdr_info : res (Z * Z * Z * Z) := section_hdr_info ELF32.

(** ** Program headers

    With a 16-bit counter [i * hdr->phdr_size] is a product of [int]s, whose
    overflow is undefined; a [size_t] counter has no such limit. *)
Definition phdr_at (c : elf_class) (narrow : bool) (hdr : elf_hdr) (i : Z) : res elf_phdr :=
  if narrow && (2 ^ 31 <=? i * h_phdr_size hdr) then Fault
  else
    let! b := object (wrap (width c) (h_phoff hdr + i * h_phdr_size hdr)) (sizeof_phdr c) in
    Ok (phdr_of c b).

(** A loop over the program headers from [i] on: [inl] goes on, [inr] leaves. *)
Fixpoint phdr_loop {T R : Type} (c : elf_class) (narrow : bool) (hdr : elf_hdr)
    (body : elf_phdr -> T -> res (T + R)) (n : nat) (i : Z) (s : T) : res (T + R) :=
  match n with
  | O => Ok (inl s)
  | S n =>
      let! phdr := phdr_at c narrow hdr i in
      let! o := body phdr s in
      match o with
      | inl s => phdr_loop c narrow hdr body n (i + 1) s
      | inr r => Ok (inr r)
      end
  end.

Definition over_phdrs {T R : Type} (c : elf_class) (narrow : bool) (hdr : elf_hdr)
    (body : elf_phdr -> T -> res (T + R)) (s : T) : res (T + R) :=
  phdr_loop c narrow hdr body (Z.to_nat (h_ph_num hdr)) 0 s.

(** The result of a loop that is never left early. *)
Definition to_end {T R : Type} (o : res (T + R)) : res T :=
  let! o := o in match o with inl s => Ok s | inr _ => Fault end.

Definition loadable (phdr : elf_phdr) : bool :=
  (p_type phdr =? PT_LOAD) && negb (p_memsz phdr =? 0).

Definition phdr_size_check (c : elf_class) (hdr : elf_hdr) : res unit :=
  if h_phdr_size hdr <? sizeof_phdr c then
    Panic (match c with
           | ELF32 => "elf: phdr_size < sizeof(struct elf32_phdr)"
           | ELF64 => "elf: phdr_size < sizeof(struct elf64_phdr)"
           end)
  else Ok tt.

Definition relocatable_body (phdr : elf_phdr) (_ : unit) : res (unit + bool) :=
  if negb (p_type phdr =? PT_DYNAMIC) then Ok (inl tt)
  else if p_filesz phdr =? 0
  then Panic "elf: ELF file type is ET_DYN, but PT_DYNAMIC segment has 0 size"
  else Ok (inr true).

Definition elf64_is_relocatable (hdr : elf_hdr) : res bool :=
  let! _ := phdr_size_check ELF64 hdr in
  if negb (h_type hdr =? ET_DYN) then Ok false
  else
    let! o := over_phdrs ELF64 false hdr relocatable_body tt in
    match o with
    | inl _ => Panic "elf: ELF file type is ET_DYN, but PT_DYNAMIC segment missing"
    | inr r => Ok r
    end.

(** The offset and the rest of the segment, or [None] for the return of [false]. *)
Definition translate_body (offset size_hint : Z) (phdr : elf_phdr) (_ : unit)
    : res (unit + option (Z * Z)) :=
  match CHECKED_ADD (p_vaddr phdr) (p_filesz phdr) with
  | None => Ok (inl tt)
  | Some seg_end =>
      if (p_vaddr phdr <=? offset) && (offset <? seg_end) then
        match CHECKED_ADD (p_offset phdr) (p_filesz phdr) with
        | None => Ok (inr None)
        | Some file_end =>
            if file_size <? file_end then Ok (inr None)
            else
              let seg_size := p_filesz phdr - (offset - p_vaddr phdr) in
              let offset := u64 (offset - p_vaddr phdr + p_offset phdr) in
              match CHECKED_ADD offset size_hint with
              | None => Ok (inr None)
              | Some e => if file_size <? e then Ok (inr None) else Ok (inr (Some (offset, seg_size)))
              end
        end
      else Ok (inl tt)
  end.

Definition elf64_translate_vaddr (hdr : elf_hdr) (offset size_hint : Z) : res (option (Z * Z)) :=
  let! o := over_phdrs ELF64 true hdr (translate_body offset size_hint) tt in
  match o with inl _ => Ok None | inr r => Ok r end.

(** ** Relocation tables *)
Record dyn_info := MkDyn {
  d_symtab_offset : Z; d_symtab_ent : Z; d_strtab_offset : Z;
  d_pltrel : Z; d_pltrelsz : Z; d_jmprel : Z;
  d_relr_offset : Z; d_relr_size : Z; d_relr_ent : Z;
  d_rela_offset : Z; d_rela_size : Z; d_rela_ent : Z;
}.

Definition no_dyn : dyn_info := MkDyn 0 0 0 0 0 0 0 0 0 0 0 0.

(** One entry of the dynamic segment; [inr] ends the walk. *)
Definition dyn_step (d_tag d_un : Z) (d : dyn_info) : res (dyn_info + dyn_info) :=
  let 'MkDyn so se to_ pl pls jr ro rs re ao asz ae := d in
  if d_tag =? DT_RELA then Ok (inl (MkDyn so se to_ pl pls jr ro rs re d_un asz ae))
  else if d_tag =? DT_RELAENT then Ok (inl (MkDyn so se to_ pl pls jr ro rs re ao asz d_un))
  else if d_tag =? DT_RELASZ then Ok (inl (MkDyn so se to_ pl pls jr ro rs re ao d_un ae))
  else if d_tag =? DT_RELR then Ok (inl (MkDyn so se to_ pl pls jr d_un rs re ao asz ae))
  else if d_tag =? DT_RELRENT then Ok (inl (MkDyn so se to_ pl pls jr ro rs d_un ao asz ae))
  else if d_tag =? DT_RELRSZ then Ok (inl (MkDyn so se to_ pl pls jr ro d_un re ao asz ae))
  else if d_tag =? DT_SYMTAB then Ok (inl (MkDyn d_un se to_ pl pls jr ro rs re ao asz ae))
  else if d_tag =? DT_STRTAB then Ok (inl (MkDyn so se d_un pl pls jr ro rs re ao asz ae))
  else if d_tag =? DT_SYMENT then
    if d_un <? sizeof_sym then Panic "elf: symtab_ent < sizeof(struct elf64_sym)"
    else Ok (inl (MkDyn so d_un to_ pl pls jr ro rs re ao asz ae))
  else if d_tag =? DT_PLTREL then Ok (inl (MkDyn so se to_ d_un pls jr ro rs re ao asz ae))
  else if d_tag =? DT_PLTRELSZ then Ok (inl (MkDyn so se to_ pl d_un jr ro rs re ao asz ae))
  else if d_tag =? DT_JMPREL then Ok (inl (MkDyn so se to_ pl pls d_un ro rs re ao asz ae))
  else if d_tag =? DT_NEEDED then Panic "elf: ELF file attempts to load a dynamically linked library"
  else if d_tag =? DT_NULL then Ok (inr d)
  else Ok (inl d).

(** The entries at [off], [n] of them. *)
Fixpoint dyn_walk (n : nat) (off : Z) (d : dyn_info) : res dyn_info :=
  match n with
  | O => Ok d
  | S n =>
      let! b := object off sizeof_dyn in
      let! o := dyn_step (field b 0 8) (field b 8 8) d in
      match o with
      | inl d => dyn_walk n (off + sizeof_dyn) d
      | inr d => Ok d
      end
  end.

Definition dynamic_body (phdr : elf_phdr) (_ : unit) : res (unit + option dyn_info) :=
  if negb (p_type phdr =? PT_DYNAMIC) then Ok (inl tt)
  else
    match CHECKED_ADD (p_offset phdr) (p_filesz phdr) with
    | None => Ok (inr None)
    | Some seg_end =>
        if file_size <? seg_end then Ok (inr None)
        else if negb (p_offset phdr mod 8 =? 0) then Ok (inr None)
        else
          let! d := dyn_walk (Z.to_nat (p_filesz phdr / sizeof_dyn)) (p_offset phdr) no_dyn in
          Ok (inr (Some d))
    end.

(** The dynamic segment, [None] for the return of [false]. *)
Definition read_dynamic (hdr : elf_hdr) : res (option dyn_info) :=
  match CHECKED_MUL (h_ph_num hdr) (h_phdr_size hdr) with
  | None => Ok None
  | Some table_size =>
      match CHECKED_ADD (h_phoff hdr) table_size with
      | None => Ok None
      | Some table_end =>
          if file_size <? table_end then Ok None
          else
            let! o := over_phdrs ELF64 true hdr dynamic_body tt in
            match o with inl _ => Ok (Some no_dyn) | inr r => Ok r end
      end
  end.

(** A table's file offset and the rest of its segment, from its address. *)
Definition table_offset (hdr : elf_hdr) (addr size : Z) (failed missing : string) : res (Z * Z) :=
  if negb (addr =? 0) then
    let! o := elf64_translate_vaddr hdr addr size in
    match o with
    | None => Panic failed
    | Some r => Ok r
    end
  else if negb (size =? 0) then Panic missing
  else Ok (0, 0).

Record tables := MkTables {
  rela_offset : Z; relr_offset : Z; symtab_offset : Z; symtab_size : Z; strtab_offset : Z; strtab_size : Z;
  dt_jmprel : Z;
}.

Definition locate_tables (hdr : elf_hdr) (d : dyn_info) : res tables :=
  if negb (d_rela_ent d =? 0) && (d_rela_ent d <? sizeof_rela)
  then Panic "elf: rela_ent < sizeof(struct elf64_rela)"
  else
    let! (rela_offset, _) := table_offset hdr (d_rela_offset d) (d_rela_size d)
      "elf: RELA vaddr translation failed or out of bounds" "elf: DT_RELASZ without DT_RELA" in
    let! (relr_offset, _) := table_offset hdr (d_relr_offset d) (d_relr_size d)
      "elf: RELR vaddr translation failed or out of bounds" "elf: DT_RELRSZ without DT_RELR" in
    let! (symtab_offset, symtab_size) := table_offset hdr (d_symtab_offset d) 0
      "elf: SYMTAB vaddr translation failed or out of bounds" "" in
    let! (strtab_offset, strtab_size) := table_offset hdr (d_strtab_offset d) 0
      "elf: STRTAB vaddr translation failed or out of bounds" "" in
    let! (dt_jmprel, _) := table_offset hdr (d_jmprel d) (d_pltrelsz d)
      "elf: JMPREL vaddr translation failed or out of bounds" "elf: DT_PLTRELSZ without DT_JMPREL" in
    if negb (rela_offset mod 8 =? 0) || negb (d_rela_ent d mod 8 =? 0) || negb (relr_offset mod 8 =? 0)
       || negb (symtab_offset mod 8 =? 0) || negb (d_symtab_ent d mod 8 =? 0)
       || negb (dt_jmprel mod 8 =? 0)
    then Panic "elf: Dynamic table is not naturally aligned in the file"
    else Ok (MkTables rela_offset relr_offset symtab_offset symtab_size strtab_offset strtab_size dt_jmprel).

Definition elf64_add_relocation_count (count add : Z) : res Z :=
  if SIZE_MAX - count <? add then Panic "elf: relocation count overflow" else Ok (count + add).

(** [__builtin_popcountll] *)
Definition popcountll (x : Z) : Z :=
  Z.of_nat (length (filter (fun i => Z.testbit x i = true) (seqZ 0 64))).

(** The relocations a RELR word encodes, added to the count. *)
Fixpoint relr_count_loop (n : nat) (off count : Z) : res Z :=
  match n with
  | O => Ok count
  | S n =>
      let! b := object off 8 in
      let entry := field b 0 8 in
      let! count := elf64_add_relocation_count count
        (if Z.land entry 1 =? 0 then 1 else popcountll entry - 1) in
      relr_count_loop n (off + 8) count
  end.

(** An element of [relocs]: NULL, [&relr_pool[i]], or a pointer into the file. *)
Inductive reloc_ptr := Null | InPool (i : nat) | InFile (off : Z).

Record elf64_reloc_state := MkRelocState {
  relocs : list reloc_ptr; relr_pool : list elf64_rela;
  st_symtab_offset : Z; st_symtab_ent : Z; st_symtab_size : Z; st_strtab_offset : Z; st_strtab_size : Z;
}.

Definition with_addr (r : elf64_rela) (a : Z) : elf64_rela := MkRela a (r_info r) (r_symbol r) (r_addend r).
Definition with_info (r : elf64_rela) (x : Z) : elf64_rela := MkRela (r_addr r) x (r_symbol r) (r_addend r).
Definition zero_rela : elf64_rela := MkRela 0 0 0 0.

(** [relocs[i]->r_... = ...] through a pointer into the pool. *)
Definition update_reloc (relocs : list reloc_ptr) (pool : list elf64_rela) (i : nat)
    (f : elf64_rela -> elf64_rela) : res (list elf64_rela) :=
  let! p := rd relocs i in
  match p with
  | InPool k => let! r := rd pool k in wr pool k (f r)
  | _ => Fault
  end.

Definition relr_init (relr_count : nat) (relocs : list reloc_ptr) (pool : list elf64_rela)
    : res (list reloc_ptr * list elf64_rela) :=
  for_range relr_count 0 (fun i '(relocs, pool) =>
    let! relocs := wr relocs i (InPool i) in
    let! pool := update_reloc relocs pool i (fun r => with_info r R_INTERNAL_RELR) in
    Ok (relocs, pool)) (relocs, pool).

(** [for (size_t j = 0; (entry >>= 1) != 0; j++)]: at most 63 turns. *)
Fixpoint relr_bitmap (fuel : nat) (relocs : list reloc_ptr) (entry where_ j : Z)
    (s : list elf64_rela * nat) : res (list elf64_rela * nat) :=
  let entry := Z.shiftr entry 1 in
  if entry =? 0 then Ok s
  else match fuel with
  | O => NoFuel
  | S fuel =>
      let '(pool, relr_i) := s in
      let! s :=
        (if negb (Z.land entry 1 =? 0) then
           let! pool := update_reloc relocs pool relr_i (fun r => with_addr r (u64 (where_ + j * 8))) in
           Ok (pool, S relr_i)
         else Ok s) in
      relr_bitmap fuel relocs entry where_ (j + 1) s
  end.

Fixpoint relr_fill (n : nat) (off : Z) (relocs : list reloc_ptr) (where_ : Z)
    (s : list elf64_rela * nat) : res (list elf64_rela * nat) :=
  match n with
  | O => Ok s
  | S n =>
      let! b := object off 8 in
      let entry := field b 0 8 in
      if Z.land entry 1 =? 0 then
        let '(pool, relr_i) := s in
        let! pool := update_reloc relocs pool relr_i (fun r => with_addr r entry) in
        relr_fill n (off + 8) relocs (u64 (entry + 8)) (pool, S relr_i)
      else
        let! s := relr_bitmap 63 relocs entry where_ 0 s in
        relr_fill n (off + 8) relocs (u64 (where_ + 63 * 8)) s
  end.

(** [for (i = start, offset = 0; offset < size; offset += ent)] *)
Definition table_body (table size ent : Z) (s : list reloc_ptr * nat * Z)
    : res (list reloc_ptr * nat * Z + list reloc_ptr) :=
  let '(relocs, i, offset) := s in
  if size <=? offset then Ok (inr relocs)
  else
    let! relocs := wr relocs i (InFile (u64 (table + offset))) in
    Ok (inl (relocs, S i, u64 (offset + ent))).

Definition table_fill (table size ent : Z) (relocs : list reloc_ptr) (start : Z)
    : res (list reloc_ptr) :=
  loop (table_body table size ent) (fun s => Z.max 0 (size - s.2)) (relocs, Z.to_nat start, 0).

(** [relr_count], [jmprel_start] and [relocs_i] *)
Definition count_relocations (d : dyn_info) (t : tables) : res (Z * Z * Z) :=
  let! relr_count :=
    (if negb (d_relr_size d =? 0) then
       if negb (d_relr_ent d =? 8) then Panic "elf: relr_ent != 8"
       else relr_count_loop (Z.to_nat (d_relr_size d / d_relr_ent d)) (relr_offset t) 0
     else Ok 0) in
  let! jmprel_start :=
    (if negb (d_rela_size d =? 0) then
       if d_rela_ent d =? 0 then Panic "elf: rela_size != 0 but rela_ent == 0"
       else if negb (d_rela_size d mod d_rela_ent d =? 0) then Panic "elf: rela_size not a multiple of rela_ent"
       else elf64_add_relocation_count relr_count (d_rela_size d / d_rela_ent d)
     else Ok relr_count) in
  let! relocs_i :=
    (if negb (d_pltrelsz d =? 0) then
       if negb (d_pltrel d =? DT_RELA) then Panic "elf: dt_pltrel != DT_RELA"
       else if negb (d_pltrelsz d mod sizeof_rela =? 0)
       then Panic "elf: dt_pltrelsz not a multiple of sizeof(struct elf64_rela)"
       else elf64_add_relocation_count jmprel_start (d_pltrelsz d / sizeof_rela)
     else Ok jmprel_start) in
  Ok (relr_count, jmprel_start, relocs_i).

Definition fill_relocations (d : dyn_info) (t : tables) (relr_count jmprel_start relocs_i : Z)
    : res (list reloc_ptr * list elf64_rela) :=
  let! relocs := alloc_counted relocs_i (size_bits / 8) Null in
  let! (relocs, pool) :=
    (if negb (d_relr_size d =? 0) then
       let! pool := (if negb (relr_count =? 0) then alloc_counted relr_count sizeof_rela zero_rela
                     else Ok []) in
       let! (relocs, pool) := relr_init (Z.to_nat relr_count) relocs pool in
       let! (pool, _) := relr_fill (Z.to_nat (d_relr_size d / d_relr_ent d)) (relr_offset t) relocs 0 (pool, O) in
       Ok (relocs, pool)
     else Ok (relocs, [])) in
  let! relocs :=
    (if negb (d_rela_size d =? 0)
     then table_fill (rela_offset t) (d_rela_size d) (d_rela_ent d) relocs relr_count
     else Ok relocs) in
  let! relocs :=
    (if negb (d_pltrelsz d =? 0)
     then table_fill (dt_jmprel t) (d_pltrelsz d) sizeof_rela relocs jmprel_start
     else Ok relocs) in
  Ok (relocs, pool).

(** [None] is the return of [false]. *)
Definition elf64_prepare_relocations (hdr : elf_hdr) : res (option elf64_reloc_state) :=
  let! _ := phdr_size_check ELF64 hdr in
  let! dyn := read_dynamic hdr in
  match dyn with
  | None => Ok None
  | Some d =>
      let! t := locate_tables hdr d in
      let! (relr_count, jmprel_start, relocs_i) := count_relocations d t in
      let! (relocs, pool) := fill_relocations d t relr_count jmprel_start relocs_i in
      Ok (Some (MkRelocState relocs pool (symtab_offset t) (d_symtab_ent d) (symtab_size t)
                             (strtab_offset t) (strtab_size t)))
  end.

(** ** Applying relocations *)

(** [s[i] << (i * 8)], byte by byte *)
Fixpoint reloc_load_from (n i : nat) (buf : list Z) (p : nat) (v : Z) : res Z :=
  match n with
  | O => Ok v
  | S n =>
      let! b := rd buf (p + i) in
      reloc_load_from n (S i) buf p (Z.lor v (Z.shiftl b (Z.of_nat i * 8)))
  end.

Definition reloc_load (buf : list Z) (p : nat) : res Z := reloc_load_from 8 0 buf p 0.

Definition reloc_store (buf : list Z) (p : nat) (v : Z) : res (list Z) :=
  for_range 8 0 (fun i buf => wr buf (p + i) (u8 (Z.shiftr v (Z.of_nat i * 8)))) buf.

(** [*relocs[i]] *)
Definition deref (st : elf64_reloc_state) (p : reloc_ptr) : res elf64_rela :=
  match p with
  | Null => Fault
  | InPool k => rd (relr_pool st) k
  | InFile off => let! b := object off sizeof_rela in Ok (rela_of b)
  end.

Definition reloc_symbol (st : elf64_reloc_state) (rel : elf64_rela) : res elf64_sym :=
  if (st_symtab_offset st =? 0) || (st_symtab_ent st =? 0)
  then Panic "elf: Relocation requires symbol table but none present"
  else if st_symtab_size st =? 0 then Panic "elf: Symtab vaddr translation failed"
  else
    match CHECKED_MUL (st_symtab_ent st) (r_symbol rel) with
    | None => Panic "elf: Symbol offset overflow"
    | Some sym_offset =>
        if (st_symtab_size st <? sizeof_sym) || (st_symtab_size st - sizeof_sym <? sym_offset)
        then Panic "elf: Symbol index %u out of bounds"
        else let! b := object (st_symtab_offset st + sym_offset) sizeof_sym in Ok (sym_of b)
    end.

Definition unresolved {A : Type} (st : elf64_reloc_state) (s : elf64_sym) : res A :=
  if st_strtab_size st =? 0 then Panic "elf: Strtab vaddr translation failed"
  else if st_strtab_size st <=? st_name s then Panic "elf: Symbol name offset out of bounds"
  else Panic "elf: Unresolved symbol %S".

Definition weak (s : elf64_sym) : bool := Z.shiftr (st_info s) 4 =? STB_WEAK.

Definition slid_value (s : elf64_sym) (slide : Z) : Z :=
  if st_shndx s =? SHN_ABS then st_value s else u64 (st_value s + slide).

(** One relocation whose target is at [ptr] of the buffer. *)
Definition relocate (st : elf64_reloc_state) (rel : elf64_rela) (slide : Z) (buf : list Z) (ptr : nat)
    : res (list Z) :=
  let info := r_info rel in
  if info =? 0 then Ok buf
  else if info =? R_RELATIVE arch_ then reloc_store buf ptr (u64 (slide + r_addend rel))
  else if info =? R_INTERNAL_RELR then
    let! v := reloc_load buf ptr in reloc_store buf ptr (u64 (v + slide))
  else if bool_decide (info ∈ R_SLOTS arch_) then
    let! s := reloc_symbol st rel in
    if st_shndx s =? SHN_UNDEF then
      if weak s
      then reloc_store buf ptr (match arch_ with AARCH64 => r_addend rel | _ => 0 end)
      else unresolved st s
    else
      let value := slid_value s slide in
      reloc_store buf ptr (match arch_ with AARCH64 => u64 (value + r_addend rel) | _ => value end)
  else if info =? R_ABS64 arch_ then
    let! s := reloc_symbol st rel in
    if st_shndx s =? SHN_UNDEF then
      if weak s then reloc_store buf ptr (r_addend rel) else unresolved st s
    else reloc_store buf ptr (u64 (slid_value s slide + r_addend rel))
  else Panic "elf: Unknown relocation type: %x".

(** The loop over the relocations; [buf] is the object the buffer lies in, at
    [start]. *)
Fixpoint apply_from (st : elf64_reloc_state) (ps : list reloc_ptr) (buf : list Z) (start vaddr size slide : Z)
    : res (list Z) :=
  match ps with
  | [] => Ok buf
  | p :: ps =>
      let! rel := deref st p in
      let! buf :=
        (if r_addr rel <? vaddr then Ok buf
         else if (size <? 8) || (u64 (vaddr + size - 8) <? r_addr rel) then Ok buf
         else relocate st rel slide buf (Z.to_nat (start + (r_addr rel - vaddr)))) in
      apply_from st ps buf start vaddr size slide
  end.

Definition elf64_apply_relocations (st : elf64_reloc_state) (buf : list Z) (start vaddr size slide : Z)
    : res (list Z) :=
  apply_from st (relocs st) buf start vaddr size slide.
End Elf.
