(* ===== verification/ElfLoad.v ===== *)
(** * Loading ELF files

    The rest of [common/lib/elf.c]: copying a section, the memory ranges of an
    executable, loading at a fresh address with an optional random slide, and
    loading for a later move to the physical addresses of the file.  [alloc] is
    the allocator, from a size and an alignment to the address of a zeroed block
    or a panic, and [rand k] the result of the [k]-th call of [safe_rand32]. *)

From S2P Require Import Prelude CInt Libc Gpt Elf.

Section Load.
Variable arch_ : arch.
Variable size_bits : Z.
Variable elf : list Z.
Variable file_size : Z.
Variable alloc : Z -> Z -> res Z.
Variable rand : nat -> Z.

(** [memcpy(buf + off, elf + src, n)] *)
Definition copy_file (buf : list Z) (off src n : Z) : res (list Z) :=
  let! bytes := object elf src n in
  if (0 <=? off) && (off + n <=? Z.of_nat (length buf))
  then Ok (buf_write buf (Z.to_nat off) bytes) else Fault.

(** ** Sections *)
Definition load_found (hdr : elf_hdr) (section : elf_shdr) (buffer : list Z) (limit slide : Z)
    : res (bool * list Z) :=
  if (file_size <=? sh_offset section) || (file_size - sh_offset section <? sh_size section)
  then Ok (false, buffer)
  else
    let '(buffer, limit) :=
      if limit =? 0 then (replicate (Z.to_nat (sh_size section)) 0, sh_size section)
      else (buffer, limit) in
    if limit <? sh_size section then Ok (false, buffer)
    else
      let! buffer := copy_file buffer 0 (sh_offset section) (sh_size section) in
      let! st := elf64_prepare_relocations size_bits elf file_size hdr in
      match st with
      | None => Ok (false, buffer)
      | Some st =>
          let! buffer := elf64_apply_relocations arch_ elf st buffer 0 (sh_addr section) (sh_size section) slide in
          Ok (true, buffer)
      end.

Fixpoint section_loop (n : nat) (i : Z) (hdr : elf_hdr) (shstrtab : elf_shdr) (buffer name : list Z)
    (limit slide : Z) : res (bool * list Z) :=
  match n with
  | O => Ok (false, buffer)
  | S n =>
      let! b := object elf (h_shoff hdr + i * h_shdr_size hdr) (sizeof_shdr ELF64) in
      let section := shdr_of ELF64 b in
      let next := section_loop n (i + 1) hdr shstrtab buffer name limit slide in
      if sh_size shstrtab <=? sh_name section then next
      else
        let sname := drop (Z.to_nat (sh_offset shstrtab + sh_name section)) elf in
        let! nul := memchr sname 0 (Z.to_nat (sh_size shstrtab - sh_name section)) in
        match nul with
        | None => next
        | Some _ =>
            let! r := strcmp sname name in
            if r =? 0 then load_found hdr section buffer limit slide else next
        end
  end.

(** The result and the section's buffer: the caller's, or with [limit] 0 a fresh
    one of the section's size. *)
Definition elf64_load_section (buffer name : list Z) (limit slide : Z) : res (bool * list Z) :=
  let! hdr := header elf ELF64 in
  let! _ := elf64_validate arch_ hdr in
  let! numbering := elf64_section_numbering elf file_size hdr in
  match numbering with
  | None => Ok (false, buffer)
  | Some (sh_num, shstrndx) =>
      if sh_num =? 0 then Ok (false, buffer)
      else if h_shdr_size hdr <? sizeof_shdr ELF64 then Panic "elf: shdr_size < sizeof(struct elf64_shdr)"
      else if (shstrndx =? SHN_UNDEF) || (sh_num <=? shstrndx) then Ok (false, buffer)
      else
        match CHECKED_MUL sh_num (h_shdr_size hdr) with
        | None => Ok (false, buffer)
        | Some table_size =>
            match CHECKED_ADD (h_shoff hdr) table_size with
            | None => Ok (false, buffer)
            | Some shdr_table_end =>
                if file_size <? shdr_table_end then Ok (false, buffer)
                else
                  let! b := object elf (h_shoff hdr + shstrndx * h_shdr_size hdr) (sizeof_shdr ELF64) in
                  let shstrtab := shdr_of ELF64 b in
                  if (file_size <=? sh_offset shstrtab) || (file_size - sh_offset shstrtab <? sh_size shstrtab)
                  then Ok (false, buffer)
                  else section_loop (Z.to_nat sh_num) 0 hdr shstrtab buffer name limit slide
            end
        end
  end.

(** ** Alignment and ranges *)
Definition max_align_body (phdr : elf_phdr) (s : Z * Z) : res (Z * Z + Empty_set) :=
  let '(ret, loadable_) := s in
  if negb (loadable phdr) then Ok (inl s)
  else if (1 <? p_align phdr) && negb (Z.land (p_align phdr) (p_align phdr - 1) =? 0)
  then Panic "elf: p_align is not a power of 2"
  else if (size_bits =? 32) && (SIZE_MAX size_bits <? p_align phdr)
  then Panic "elf: p_align is too large for a 32-bit port"
  else Ok (inl (if ret <? p_align phdr then p_align phdr else ret, loadable_ + 1)).

Definition elf64_max_align (hdr : elf_hdr) : res Z :=
  let! _ := phdr_size_check ELF64 hdr in
  let! (ret, loadable_) := to_end (over_phdrs elf ELF64 true hdr max_align_body (0, 0)) in
  if loadable_ =? 0 then Panic "elf: Executable has no loadable segments"
  else Ok (if ret <? 4096 then 4096 else ret).

Definition ranged (is_reloc : bool) (phdr : elf_phdr) : bool :=
  loadable phdr && negb ((p_vaddr phdr <? FIXED_HIGHER_HALF_OFFSET_64) && negb is_reloc).

Definition count_range_body (is_reloc : bool) (phdr : elf_phdr) (n : Z) : res (Z + Empty_set) :=
  Ok (inl (if ranged is_reloc phdr then n + 1 else n)).

(** The permissions a zeroed range has or-ed in. *)
Definition range_permissions (flags : Z) : Z :=
  let p := 0 in
  let p := if negb (Z.land flags ELF_PF_X =? 0) then Z.lor p MEM_RANGE_X else p in
  let p := if negb (Z.land flags ELF_PF_W =? 0) then Z.lor p MEM_RANGE_W else p in
  if negb (Z.land flags ELF_PF_R =? 0) then Z.lor p MEM_RANGE_R else p.

Definition range_body (is_reloc : bool) (slide : Z) (phdr : elf_phdr) (s : list mem_range * nat)
    : res (list mem_range * nat + Empty_set) :=
  let '(ranges, r) := s in
  if negb (ranged is_reloc phdr) then Ok (inl s)
  else
    let load_addr := u64 (p_vaddr phdr + slide) in
    match CHECKED_ADD load_addr (p_memsz phdr) with
    | None => Panic "elf: p_vaddr + p_memsz overflow in PHDR %u"
    | Some this_top =>
        let base := ALIGN_DOWN load_addr 4096 in
        match ALIGN_UP this_top 4096 with
        | None => Panic "elf: Alignment overflow"
        | Some top =>
            let! ranges := wr ranges r (MkRange base (u64 (top - base)) (range_permissions (p_flags phdr))) in
            Ok (inl (ranges, S r))
        end
    end.

Definition elf64_get_ranges (hdr : elf_hdr) (slide : Z) : res (list mem_range) :=
  let! _ := phdr_size_check ELF64 hdr in
  let! is_reloc := elf64_is_relocatable elf hdr in
  let! ranges_count := to_end (over_phdrs elf ELF64 true hdr (count_range_body is_reloc) 0) in
  if ranges_count =? 0 then Panic "elf: No higher half PHDRs exist"
  else
    let! ranges := alloc_counted ranges_count 24 (MkRange 0 0 0) in
    let! (ranges, _) := to_end (over_phdrs elf ELF64 true hdr (range_body is_reloc slide) (ranges, O)) in
    Ok ranges.

(** ** Loading an executable *)
Record extent := MkExtent {
  lower_to_higher : bool; higher_half : bool; min_vaddr : Z; max_vaddr : Z;
  prev_top : Z; prev_rounded_top : Z; prev_flags : Z;
}.

Definition no_extent : extent := MkExtent false false UINT64_MAX 0 0 0 0.

(** [is_reloc] stands for [is_reloc && *is_reloc], [want_ranges] for
    [ranges != NULL]. *)
Definition extent_body (is_reloc want_ranges : bool) (phdr : elf_phdr) (x : extent)
    : res (extent + Empty_set) :=
  if negb (loadable phdr) then Ok (inl x)
  else
    let low := p_vaddr phdr <? FIXED_HIGHER_HALF_OFFSET_64 in
    if low && negb is_reloc then Panic "elf: Lower half PHDRs are not allowed"
    else if (if low then higher_half x else lower_to_higher x)
    then Panic "elf: Mix of lower and higher half PHDRs in relocatable kernel"
    else
      match CHECKED_ADD (p_vaddr phdr) (p_memsz phdr) with
      | None => Panic "elf: p_vaddr + p_memsz overflow in PHDR %u"
      | Some phdr_end =>
          if p_vaddr phdr <? prev_top x
          then Panic "elf: Attempted to load ELF file with overlapping or out of order PHDRs (%u)"
          else
            let rounded_base := ALIGN_DOWN (p_vaddr phdr) 4096 in
            if want_ranges && (rounded_base <? prev_rounded_top x)
               && negb (Z.land (p_flags phdr) 7 =? prev_flags x)
            then Panic "elf: Attempted to load ELF file with PHDRs with different permissions sharing the same memory page."
            else
              match ALIGN_UP phdr_end 4096 with
              | None => Panic "elf: PHDR alignment overflow"
              | Some rounded_top =>
                  Ok (inl (MkExtent
                    (low || lower_to_higher x) (negb low || higher_half x)
                    (if p_vaddr phdr <? min_vaddr x then p_vaddr phdr else min_vaddr x)
                    (if max_vaddr x <? phdr_end then phdr_end else max_vaddr x)
                    phdr_end rounded_top (Z.land (p_flags phdr) 7)))
              end
      end.

(** [safe_rand32() & ~(max_align - 1)] plus the move to the higher half, until
    the image fits. *)
Definition kaslr_body (max_align lower virtual_base image_size : Z) (try_count : Z) : res (Z + Z) :=
  let slide := u64 (Z.land (rand (Z.to_nat try_count)) (u64 (Z.lnot (max_align - 1))) + lower) in
  if u64 (virtual_base + slide + image_size) <? 0xffffffff80000000 then
    if try_count + 1 =? 0x10000 then Panic "elf: Image wants to load too high" else Ok (inl (try_count + 1))
  else Ok (inr slide).

Definition choose_slide (randomise : bool) (max_align lower virtual_base image_size : Z) : res Z :=
  if randomise
  then loop (kaslr_body max_align lower virtual_base image_size) (fun try_count => 0x10000 - try_count) 0
  else Ok lower.

(** One segment into the image; [bss_size] is the other half of the state. *)
Definition place_body (st : elf64_reloc_state) (physical_base virtual_base max_vaddr slide : Z)
    (phdr : elf_phdr) (s : list Z * Z) : res (list Z * Z + Empty_set) :=
  let '(image, bss_size) := s in
  if negb (loadable phdr) then Ok (inl s)
  else if p_memsz phdr <? p_filesz phdr then Panic "elf: p_filesz > p_memsz"
  else
    match CHECKED_ADD (p_offset phdr) (p_filesz phdr) with
    | None => Panic "elf: p_offset + p_filesz overflow"
    | Some offset_end =>
        if file_size <? offset_end then Panic "elf: p_offset + p_filesz exceeds file size"
        else
          let load_addr := u64 (physical_base + (p_vaddr phdr - virtual_base)) in
          match CHECKED_ADD load_addr (p_memsz phdr) with
          | None => Panic "elf: load_addr + p_memsz overflow"
          | Some _ =>
              let! image := copy_file image (load_addr - physical_base) (p_offset phdr) (p_filesz phdr) in
              let bss_size := if u64 (p_vaddr phdr + p_memsz phdr) =? max_vaddr
                              then p_memsz phdr - p_filesz phdr else bss_size in
              let! image := elf64_apply_relocations arch_ elf st image (load_addr - physical_base)
                              (p_vaddr phdr) (p_memsz phdr) slide in
              Ok (inl (image, bss_size))
          end
    end.

Record loaded := MkLoaded {
  entry_point : Z; l_slide : Z; l_ranges : option (list mem_range); l_physical_base : Z;
  l_virtual_base : Z; l_image_size : Z; image_size_before_bss : Z; is_reloc : bool; image : list Z;
}.

(** [want_reloc], [want_ranges] and [want_count] say which of the result
    pointers [is_reloc], [ranges] and [ranges_count] are not NULL. *)
Definition elf64_load (kaslr want_ranges want_count want_reloc : bool) : res loaded :=
  let! hdr := header elf ELF64 in
  let! _ := elf64_validate arch_ hdr in
  if negb (h_type hdr =? ET_EXEC) && negb (h_type hdr =? ET_DYN)
  then Panic "elf: ELF file not of type ET_EXEC nor ET_DYN"
  else
    let! _ := phdr_size_check ELF64 hdr in
    match CHECKED_MUL (h_ph_num hdr) (h_phdr_size hdr) with
    | None => Panic "elf: Program header table size overflow"
    | Some table_size =>
        match CHECKED_ADD table_size (h_phoff hdr) with
        | None => Panic "elf: Program header table size overflow"
        | Some phdr_table_end =>
            if file_size <? phdr_table_end then Panic "elf: Program header table extends beyond file bounds"
            else
              let! relocatable := elf64_is_relocatable elf hdr in
              let is_reloc := want_reloc && relocatable in
              let! max_align := elf64_max_align hdr in
              let! x := to_end (over_phdrs elf ELF64 true hdr (extent_body is_reloc want_ranges) no_extent) in
              if min_vaddr x =? UINT64_MAX then Panic "elf: No usable PHDRs exist"
              else
                let min_vaddr := ALIGN_DOWN (min_vaddr x) 4096 in
                let lower := if lower_to_higher x then u64 (FIXED_HIGHER_HALF_OFFSET_64 - min_vaddr) else 0 in
                let image_size := u64 (max_vaddr x - min_vaddr) in
                let! physical_base := alloc image_size max_align in
                let virtual_base := min_vaddr in
                let! slide := choose_slide (is_reloc && kaslr) max_align lower virtual_base image_size in
                let! st := elf64_prepare_relocations size_bits elf file_size hdr in
                match st with
                | None => Panic "elf: Failed to apply relocations"
                | Some st =>
                    let! (image, bss_size) :=
                      to_end (over_phdrs elf ELF64 true hdr
                        (place_body st physical_base virtual_base (max_vaddr x) slide)
                        (replicate (Z.to_nat image_size) 0, 0)) in
                    let! ranges :=
                      (if want_count && want_ranges then
                         let! ranges := elf64_get_ranges hdr slide in Ok (Some ranges)
                       else Ok None) in
                    Ok (MkLoaded (u64 (h_entry hdr + slide)) slide ranges physical_base
                          (u64 (virtual_base + slide)) image_size (u64 (image_size - bss_size)) is_reloc image)
                end
        end
    end.

(** ** Loading for a later move *)
Definition paddr_body (phdr : elf_phdr) (s : Z * Z * bool) : res (Z * Z * bool + Empty_set) :=
  let '(min_paddr, max_paddr, has_loadable) := s in
  if negb (loadable phdr) then Ok (inl s)
  else
    match CHECKED_ADD (p_paddr phdr) (p_memsz phdr) with
    | None => Panic "elf: p_paddr + p_memsz overflow"
    | Some top =>
        Ok (inl (if p_paddr phdr <? min_paddr then p_paddr phdr else min_paddr,
                 if max_paddr <? top then top else max_paddr, true))
    end.

Definition elsewhere_body (c : elf_class) (min_paddr : Z) (phdr : elf_phdr) (s : list Z * Z * bool)
    : res (list Z * Z * bool + Empty_set) :=
  let '(elsewhere, entry_point, entry_adjusted) := s in
  if negb (loadable phdr) then Ok (inl s)
  else if p_memsz phdr <? p_filesz phdr then Panic "elf: p_filesz > p_memsz"
  else
    match CHECKED_ADD (p_offset phdr) (p_filesz phdr) with
    | None => Panic "elf: p_offset + p_filesz overflow"
    | Some offset_end =>
        if file_size <? offset_end then Panic "elf: p_offset + p_filesz exceeds file size"
        else
          let! elsewhere := copy_file elsewhere (p_paddr phdr - min_paddr) (p_offset phdr) (p_filesz phdr) in
          if negb entry_adjusted && (p_vaddr phdr <=? entry_point) then
            match checked_add (width c) (p_vaddr phdr) (p_memsz phdr) with
            | None => Ok (inl (elsewhere, entry_point, entry_adjusted))
            | Some top =>
                if entry_point <? top
                then Ok (inl (elsewhere, u64 (entry_point - p_vaddr phdr + p_paddr phdr), true))
                else Ok (inl (elsewhere, entry_point, entry_adjusted))
            end
          else Ok (inl (elsewhere, entry_point, entry_adjusted))
    end.

(** [elf32_load_elsewhere] and [elf64_load_elsewhere]: the entry point and the
    range to move. *)
Definition load_elsewhere (c : elf_class) (max_image_size : Z) : res (Z * elsewhere_range) :=
  let! hdr := header elf c in
  let! _ := validate arch_ c hdr in
  if negb (h_type hdr =? ET_EXEC) && negb (h_type hdr =? ET_DYN)
  then Panic "elf: ELF file not of type ET_EXEC nor ET_DYN"
  else
    let! _ := phdr_size_check c hdr in
    let table_size := u64 (h_ph_num hdr * h_phdr_size hdr) in
    if (file_size <? h_phoff hdr) || (file_size - h_phoff hdr <? table_size)
    then Panic "elf: Program header table extends beyond file bounds"
    else
      let! (min_paddr, max_paddr, has_loadable) :=
        to_end (over_phdrs elf c true hdr paddr_body (UINT64_MAX, 0, false)) in
      if negb has_loadable then Panic "elf: No loadable segments"
      else
        let image_size := u64 (max_paddr - min_paddr) in
        if max_image_size <? image_size then Panic "elf: Image extent exceeds the load limit"
        else if SIZE_MAX size_bits <? image_size then Panic "elf: Image size exceeds address space"
        else
          let! (elsewhere, entry_point, _) :=
            to_end (over_phdrs elf c true hdr (elsewhere_body c min_paddr)
              (replicate (Z.to_nat image_size) 0, h_entry hdr, false)) in
          Ok (entry_point, MkElsewhere elsewhere min_paddr image_size).

Definition elf32_load_elsewhere (max_image_size : Z) : res (Z * elsewhere_range) := load_elsewhere ELF32 max_image_size.
Definition elf64_load_elsewhere (max_image_size : Z) : res (Z * elsewhere_range) := load_elsewhere ELF64 max_image_size.
End Load.
