(* ===== verification/ElfFacts.v ===== *)
(** * The tables of an ELF file

    Reading the file within its bounds: program headers as a list, the
    translation of addresses to file offsets, and the dynamic segment's tables,
    which lie wholly in the file once [locate_tables] has accepted them. *)

From S2P Require Import Prelude CInt Libc Gpt Elf.

(** Any panic is an acceptable answer to a malformed file. *)
Definition any_panic (_ : string) : Prop := True.

Lemma res_post_any {A} (Q : A -> Prop) r k : r = Panic k -> res_post Q any_panic r.
Proof. by intros ->. Qed.

Lemma bind_any {A B} (Q : A -> Prop) (Q' : B -> Prop) r k :
  res_post Q any_panic r -> (forall a, Q a -> res_post Q' any_panic (k a)) ->
  res_post Q' any_panic (rbind r k).
Proof. apply res_post_bind. Qed.

(** ** Loops over a list *)
Fixpoint list_loop {A T R : Type} (body : A -> T -> res (T + R)) (l : list A) (s : T) : res (T + R) :=
  match l with
  | [] => Ok (inl s)
  | x :: l =>
      let! o := body x s in
      match o with
      | inl s => list_loop body l s
      | inr r => Ok (inr r)
      end
  end.

Definition loop_post {T R : Type} (I : T -> Prop) (Q : R -> Prop) (o : T + R) : Prop :=
  match o with inl s => I s | inr r => Q r end.

(** An invariant over the elements done so far. *)
Lemma list_loop_spec {A T R} (I : list A -> T -> Prop) (Q : R -> Prop) E (body : A -> T -> res (T + R)) rest :
  forall done s,
  (forall d x r s, done ++ rest = d ++ x :: r -> I d s ->
     res_post (loop_post (I (d ++ [x])) Q) E (body x s)) ->
  I done s -> res_post (loop_post (I (done ++ rest)) Q) E (list_loop body rest s).
Proof.
  induction rest as [|x rest IH]; intros done s Hb Hs; simpl; [by rewrite app_nil_r|].
  eapply res_post_bind; [by eapply Hb|]. intros [s'|r] H; simpl in H; [|done].
  replace (done ++ x :: rest) with ((done ++ [x]) ++ rest) in * by by rewrite <- app_assoc.
  apply IH; done.
Qed.

Lemma to_end_post {T R} (I : T -> Prop) E (o : res (T + R)) :
  res_post (loop_post I (fun _ => False)) E o -> res_post I E (to_end o).
Proof. unfold to_end. intros H. eapply res_post_bind; [exact H|]. by intros [s|r]. Qed.

(** ** Fields *)
Lemma bytes_check l : forallb (fun b => (0 <=? b) && (b <? 256)) l = true -> Forall is_byte l.
Proof.
  intros H. rewrite forallb_forall in H. apply Forall_forall. intros b Hb%list_elem_of_In%H. unfold is_byte.
  bool_hyps. lia.
Qed.

Lemma field_bound b off n : Forall is_byte b -> 0 <= field b off n < 256 ^ Z.of_nat n.
Proof.
  intros Hb. unfold field. pose proof (le_val_bound (take n (drop off b))) as H.
  assert (Forall is_byte (take n (drop off b))) as Hf by (by apply Forall_take, Forall_drop).
  specialize (H Hf). split; [lia|]. eapply Z.lt_le_trans; [apply H|].
  apply Z.pow_le_mono_r; [lia|]. rewrite length_take. lia.
Qed.

Definition u64_ok (x : Z) : Prop := 0 <= x < 2 ^ 64.

Lemma field_8 b off : Forall is_byte b -> u64_ok (field b off 8).
Proof. apply (field_bound b off 8). Qed.
Lemma field_4 b off : Forall is_byte b -> 0 <= field b off 4 < 2 ^ 32.
Proof. apply (field_bound b off 4). Qed.
Lemma field_2 b off : Forall is_byte b -> 0 <= field b off 2 < 2 ^ 16.
Proof. apply (field_bound b off 2). Qed.
Lemma field_1 b off : Forall is_byte b -> 0 <= field b off 1 < 256.
Proof. apply (field_bound b off 1). Qed.

Record phdr_ok (p : elf_phdr) : Prop := {
  po_flags : 0 <= p_flags p < 2 ^ 32; po_offset : u64_ok (p_offset p); po_vaddr : u64_ok (p_vaddr p);
  po_paddr : u64_ok (p_paddr p); po_filesz : u64_ok (p_filesz p); po_memsz : u64_ok (p_memsz p);
  po_align : u64_ok (p_align p);
}.

Record hdr_ok (h : elf_hdr) : Prop := {
  ho_entry : u64_ok (h_entry h); ho_phoff : u64_ok (h_phoff h); ho_shoff : u64_ok (h_shoff h);
  ho_phdr_size : 0 <= h_phdr_size h < 2 ^ 16; ho_ph_num : 0 <= h_ph_num h < 2 ^ 16;
  ho_shdr_size : 0 <= h_shdr_size h < 2 ^ 16; ho_sh_num : 0 <= h_sh_num h < 2 ^ 16;
  ho_shstrndx : 0 <= h_shstrndx h < 2 ^ 16; ho_ident : length (h_ident h) = 16%nat;
}.

Record shdr_ok (s : elf_shdr) : Prop := {
  so_name : 0 <= sh_name s < 2 ^ 32; so_addr : u64_ok (sh_addr s); so_offset : u64_ok (sh_offset s);
  so_size : u64_ok (sh_size s); so_link : 0 <= sh_link s < 2 ^ 32;
}.

Ltac field_bounds :=
  repeat match goal with
  | H : Forall is_byte ?b |- context [field ?b ?o ?n] =>
      lazymatch n with
      | 8%nat => pose proof (field_8 b o H)
      | 4%nat => pose proof (field_4 b o H)
      | 2%nat => pose proof (field_2 b o H)
      | 1%nat => pose proof (field_1 b o H)
      end;
      generalize dependent (field b o n); intros
  end.

Lemma phdr_of_ok c b : Forall is_byte b -> phdr_ok (phdr_of c b).
Proof. intros Hb. destruct c; constructor; cbn; unfold u64_ok in *; field_bounds; unfold u64_ok in *; lia. Qed.

Lemma hdr_of_ok c b : Forall is_byte b -> Z.of_nat (length b) = sizeof_hdr c -> hdr_ok (hdr_of c b).
Proof.
  intros Hb Hl. destruct c; constructor; cbn -[take]; try (rewrite length_take; cbn in Hl; lia);
    unfold u64_ok in *; field_bounds; unfold u64_ok in *; lia.
Qed.

Lemma shdr_of_ok c b : Forall is_byte b -> shdr_ok (shdr_of c b).
Proof. intros Hb. destruct c; constructor; cbn; unfold u64_ok in *; field_bounds; unfold u64_ok in *; lia. Qed.

(** ** The file *)
Section File.
Variable elf : list Z.
Variable file_size : Z.
Hypothesis elf_bytes : Forall is_byte elf.
Hypothesis elf_size : Z.of_nat (length elf) = file_size.
Hypothesis small_file : file_size < 2 ^ 31.

Definition slice (off n : Z) : list Z := take (Z.to_nat n) (drop (Z.to_nat off) elf).

Lemma slice_bytes off n : Forall is_byte (slice off n).
Proof. by apply Forall_take, Forall_drop. Qed.

Lemma length_slice off n :
  0 <= off -> 0 <= n -> off + n <= file_size -> length (slice off n) = Z.to_nat n.
Proof. intros. unfold slice. rewrite length_take, length_drop. lia. Qed.

Lemma object_ok off n : 0 <= off -> off + n <= file_size -> object elf off n = Ok (slice off n).
Proof.
  intros. unfold object. rewrite (proj2 (Z.leb_le _ _)) by lia.
  by rewrite (proj2 (Z.leb_le _ _)) by lia.
Qed.

Lemma header_ok c :
  sizeof_hdr c <= file_size ->
  exists hdr, header elf c = Ok hdr /\ hdr_ok hdr /\ hdr = hdr_of c (slice 0 (sizeof_hdr c)).
Proof.
  intros Hs. unfold header. rewrite object_ok by (destruct c; cbn in *; lia). simpl.
  eexists. split_and!; [done| |done]. apply hdr_of_ok; [apply slice_bytes|].
  rewrite length_slice by (destruct c; cbn in *; lia). destruct c; cbn; lia.
Qed.

(** The table of program headers, when it lies in the file. *)
Record table_in (c : elf_class) (hdr : elf_hdr) : Prop := {
  ti_size : sizeof_phdr c <= h_phdr_size hdr;
  ti_end : h_phoff hdr + h_ph_num hdr * h_phdr_size hdr <= file_size;
}.

Definition phdr_i (c : elf_class) (hdr : elf_hdr) (i : Z) : elf_phdr :=
  phdr_of c (slice (h_phoff hdr + i * h_phdr_size hdr) (sizeof_phdr c)).

Definition phdrs (c : elf_class) (hdr : elf_hdr) : list elf_phdr :=
  map (phdr_i c hdr) (seqZ 0 (h_ph_num hdr)).

Lemma phdr_i_ok c hdr i : phdr_ok (phdr_i c hdr i).
Proof. apply phdr_of_ok, slice_bytes. Qed.

Lemma phdrs_ok c hdr : Forall phdr_ok (phdrs c hdr).
Proof. apply List.Forall_map, Forall_true. intros i. apply phdr_i_ok. Qed.

Section Table.
Variables (c : elf_class) (hdr : elf_hdr).
Hypothesis hdr_fine : hdr_ok hdr.
Hypothesis table_fine : table_in c hdr.

Lemma phdr_at_ok narrow i : 0 <= i < h_ph_num hdr -> phdr_at elf c narrow hdr i = Ok (phdr_i c hdr i).
Proof.
  intros Hi. destruct hdr_fine, table_fine. unfold phdr_at, u64_ok in *.
  assert (0 < sizeof_phdr c) by (destruct c; cbn; lia).
  assert (i * h_phdr_size hdr + h_phdr_size hdr <= h_ph_num hdr * h_phdr_size hdr) by nia.
  rewrite (proj2 (Z.leb_gt _ _)) by nia. rewrite andb_false_r.
  assert (2 ^ 32 <= 2 ^ width c) by (destruct c; cbn; lia).
  rewrite wrap_small by nia. rewrite object_ok by nia. done.
Qed.

Lemma phdr_loop_list {T R} narrow (body : elf_phdr -> T -> res (T + R)) n : forall i s,
  0 <= i -> i + Z.of_nat n <= h_ph_num hdr ->
  phdr_loop elf c narrow hdr body n i s = list_loop body (map (phdr_i c hdr) (seqZ i (Z.of_nat n))) s.
Proof.
  induction n as [|n IH]; intros i s Hi Hn; [done|]. cbn [phdr_loop].
  rewrite phdr_at_ok by lia. cbn [rbind].
  rewrite (seqZ_cons i) by lia. cbn [map list_loop].
  destruct (body (phdr_i c hdr i) s) as [[s'|r]|m| |]; cbn [rbind]; try done.
  rewrite IH by lia. do 3 f_equal; lia.
Qed.

Lemma over_phdrs_list {T R} narrow (body : elf_phdr -> T -> res (T + R)) s :
  over_phdrs elf c narrow hdr body s = list_loop body (phdrs c hdr) s.
Proof.
  destruct hdr_fine. unfold over_phdrs, phdrs. rewrite phdr_loop_list by lia.
  by rewrite Z2Nat.id by lia.
Qed.

End Table.

(** ** Addresses and the dynamic segment *)

(** What a translation promises: a place in the file, backed by a segment. *)
Definition translated (segs : list elf_phdr) (addr size off seg : Z) : Prop :=
  0 <= off /\ off + size <= file_size /\ 0 < seg /\ off + seg <= file_size /\
  exists ph, ph ∈ segs /\ p_vaddr ph <= addr < p_vaddr ph + p_filesz ph /\
             off = addr - p_vaddr ph + p_offset ph /\ seg = p_filesz ph - (addr - p_vaddr ph).

Lemma translate_body_spec segs addr size ph :
  phdr_ok ph -> ph ∈ segs -> u64_ok addr -> u64_ok size ->
  res_post (loop_post (fun _ => True)
      (fun o => forall off seg, o = Some (off, seg) -> translated segs addr size off seg))
    any_panic (translate_body file_size addr size ph tt).
Proof.
  intros Hok Hin Ha Hsz. destruct Hok. unfold u64_ok in *. unfold translate_body.
  destruct (CHECKED_ADD (p_vaddr ph) _) as [e|] eqn:E; [|done].
  apply checked_add_Some in E as [-> E].
  case_if; [|done]. destruct (CHECKED_ADD (p_offset ph) _) as [e|] eqn:E2; [|done].
  apply checked_add_Some in E2 as [-> E2]. case_if; [done|].
  rewrite (wrap_small 64 (_ - _ + _)) by lia.
  destruct (CHECKED_ADD _ size) as [e|] eqn:E3; [|done].
  apply checked_add_Some in E3 as [-> E3]. case_if; [done|]. cbn [res_post loop_post].
  intros off seg [= <- <-]. unfold translated. split_and!; try lia. exists ph. split_and!; auto; lia.
Qed.

Section Dynamic.
Variable hdr : elf_hdr.
Hypothesis hdr_fine : hdr_ok hdr.
Hypothesis table_fine : table_in ELF64 hdr.

Lemma translate_spec addr size :
  u64_ok addr -> u64_ok size ->
  res_post (fun o => forall off seg, o = Some (off, seg) -> translated (phdrs ELF64 hdr) addr size off seg)
    any_panic (elf64_translate_vaddr elf file_size hdr addr size).
Proof.
  intros Ha Hs. unfold elf64_translate_vaddr. rewrite (over_phdrs_list ELF64 hdr hdr_fine table_fine).
  eapply bind_any.
  - apply (list_loop_spec (fun _ _ => True)
      (fun o => forall off seg, o = Some (off, seg) -> translated (phdrs ELF64 hdr) addr size off seg)
      _ _ _ []); [|done].
    intros d x r [] Hl _. simpl in Hl. apply translate_body_spec; auto.
    + eapply Forall_forall; [apply phdrs_ok|]. rewrite Hl. set_solver.
    + rewrite Hl. set_solver.
  - by intros [[]|o].
Qed.

Record dyn_ok (d : dyn_info) : Prop := {
  dok_symtab : u64_ok (d_symtab_offset d); dok_strtab : u64_ok (d_strtab_offset d);
  dok_syment : u64_ok (d_symtab_ent d) /\ (d_symtab_ent d = 0 \/ sizeof_sym <= d_symtab_ent d);
  dok_pltrelsz : u64_ok (d_pltrelsz d); dok_jmprel : u64_ok (d_jmprel d);
  dok_relr : u64_ok (d_relr_offset d); dok_relrsz : u64_ok (d_relr_size d);
  dok_rela : u64_ok (d_rela_offset d); dok_relasz : u64_ok (d_rela_size d); dok_relaent : u64_ok (d_rela_ent d);
}.

Lemma no_dyn_ok : dyn_ok no_dyn.
Proof. constructor; cbn; unfold u64_ok; lia. Qed.

Lemma dyn_step_spec tag un d :
  u64_ok un -> dyn_ok d -> res_post (loop_post dyn_ok dyn_ok) any_panic (dyn_step tag un d).
Proof.
  intros Hu Hd. destruct d. destruct Hd. cbn in *. unfold dyn_step.
  repeat case_if; try exact I; cbn; constructor; cbn; auto.
Qed.

Lemma dyn_walk_spec n : forall off d,
  0 <= off -> off + Z.of_nat n * sizeof_dyn <= file_size -> dyn_ok d ->
  res_post dyn_ok any_panic (dyn_walk elf n off d).
Proof.
  induction n as [|n IH]; intros off d Ho Hn Hd; [done|]. cbn [dyn_walk]. unfold sizeof_dyn in *.
  rewrite object_ok by lia. cbn [rbind]. eapply bind_any.
  - apply dyn_step_spec; [|done]. apply field_8, slice_bytes.
  - intros [d'|d'] Hd'; [|done]. apply IH; auto; lia.
Qed.

Lemma dynamic_body_spec ph :
  phdr_ok ph ->
  res_post (loop_post (fun _ => True) (fun o => forall d, o = Some d -> dyn_ok d)) any_panic
    (dynamic_body elf file_size ph tt).
Proof.
  intros []. unfold dynamic_body, u64_ok in *. case_if; [done|].
  destruct (CHECKED_ADD _ _) as [e|] eqn:E; [|done]. apply checked_add_Some in E as [-> E].
  case_if; [done|]. case_if; [done|]. eapply bind_any.
  - apply dyn_walk_spec; [lia| |apply no_dyn_ok]. unfold sizeof_dyn.
    pose proof (Z.mul_div_le (p_filesz ph) 16). pose proof (Z.div_pos (p_filesz ph) 16). lia.
  - intros d Hd d' [= <-]. done.
Qed.

Lemma read_dynamic_spec :
  res_post (fun o => forall d, o = Some d -> dyn_ok d) any_panic (read_dynamic elf file_size hdr).
Proof.
  unfold read_dynamic. destruct (CHECKED_MUL _ _); [|done].
  destruct (CHECKED_ADD _ _); [|done]. case_if; [done|].
  rewrite (over_phdrs_list ELF64 hdr hdr_fine table_fine). eapply bind_any.
  - apply (list_loop_spec (fun _ _ => True) (fun o => forall d, o = Some d -> dyn_ok d) _ _ _ []); [|done].
    intros l x r [] Hl _. simpl in Hl. apply dynamic_body_spec.
    eapply Forall_forall; [apply phdrs_ok|]. rewrite Hl. set_solver.
  - intros [[]|o]; [|done]. intros _ d [= <-]. apply no_dyn_ok.
Qed.

Lemma table_offset_spec addr size failed missing :
  u64_ok addr -> u64_ok size ->
  res_post (fun r => (addr = 0 /\ size = 0 /\ r = (0, 0)) \/
                     translated (phdrs ELF64 hdr) addr size r.1 r.2) any_panic
    (table_offset elf file_size hdr addr size failed missing).
Proof.
  intros Ha Hs. unfold table_offset. case_if.
  - eapply bind_any; [by apply translate_spec|].
    intros [[off seg]|] H; [|done]. right. by apply H.
  - case_if; [done|]. left. auto.
Qed.

(** A table of [size] bytes at [off], which is missing only when empty. *)
Definition table_ok (off size : Z) : Prop := 0 <= off /\ off + size <= file_size.

Record tables_ok (d : dyn_info) (t : tables) : Prop := {
  tk_rela : table_ok (rela_offset t) (d_rela_size d);
  tk_relr : table_ok (relr_offset t) (d_relr_size d);
  tk_jmprel : table_ok (dt_jmprel t) (d_pltrelsz d);
  tk_symtab : table_ok (symtab_offset t) (symtab_size t) /\ 0 <= symtab_size t;
  tk_strtab : table_ok (strtab_offset t) (strtab_size t) /\ 0 <= strtab_size t;
  tk_relaent : d_rela_ent d = 0 \/ sizeof_rela <= d_rela_ent d;
}.

Lemma translated_table segs addr size r (file_pos : 0 <= file_size) :
  (addr = 0 /\ size = 0 /\ r = (0, 0)) \/ translated segs addr size r.1 r.2 ->
  table_ok r.1 size /\ table_ok r.1 r.2 /\ 0 <= r.2.
Proof.
  unfold table_ok. intros [(-> & -> & ->)|(? & ? & ? & ? & _)]; cbn; lia.
Qed.

Lemma locate_tables_spec d :
  dyn_ok d -> res_post (tables_ok d) any_panic (locate_tables elf file_size hdr d).
Proof.
  intros []. assert (0 <= file_size) as Hp by lia. unfold locate_tables. case_if; [done|].
  eapply bind_any; [by apply table_offset_spec|]. intros [ro rs] H1.
  eapply bind_any; [by apply table_offset_spec|]. intros [rro rrs] H2.
  eapply bind_any; [apply table_offset_spec; [done|unfold u64_ok; lia]|]. intros [so ss] H3.
  eapply bind_any; [apply table_offset_spec; [done|unfold u64_ok; lia]|]. intros [to_ ts] H4.
  eapply bind_any; [by apply table_offset_spec|]. intros [jo js] H5.
  case_if; [done|]. cbn [res_post].
  apply (translated_table _ _ _ _ Hp) in H1, H2, H3, H4, H5. cbn [fst snd] in *.
  constructor; cbn; try tauto. unfold u64_ok in *. bool_cases; lia.
Qed.
End Dynamic.
End File.

(** * Relocations of an ELF file

    The array [elf64_prepare_relocations] builds, in two passes that must agree
    on the number of RELR relocations, lists the relocations the file's tables
    encode; applying them to a buffer patches exactly the words they name. *)
(** ** Arrays filled in order *)
Lemma buf_write_snoc {A} (l : list A) start xs x :
  (start + length xs < length l)%nat ->
  <[(start + length xs)%nat := x]> (buf_write l start xs) = buf_write l start (xs ++ [x]).
Proof.
  intros H. unfold buf_write. rewrite (app_assoc (take start l) xs).
  assert (length (take start l ++ xs) = (start + length xs)%nat) as Hl
    by (rewrite length_app, length_take; lia).
  rewrite insert_app_r_alt by lia. rewrite Hl, Nat.sub_diag.
  destruct (drop (start + length xs) l) as [|y l'] eqn:E.
  - apply (f_equal length) in E. rewrite length_drop in E. simpl in E. lia.
  - simpl. rewrite <- !app_assoc. simpl. do 3 f_equal. rewrite length_app. simpl.
    replace (start + (length xs + 1))%nat with (S (start + length xs)) by lia.
    replace (S (start + length xs)) with (start + length xs + 1)%nat by lia.
    by rewrite <- drop_drop, E.
Qed.

Lemma buf_write_full {A} (l xs : list A) : length l = length xs -> buf_write l 0 xs = xs.
Proof. intros H. unfold buf_write. simpl. rewrite drop_ge by lia. apply app_nil_r. Qed.

Lemma filter_ext_elem {A} (P Q : A -> Prop) `{!forall x, Decision (P x), !forall x, Decision (Q x)} (l : list A) :
  (forall x, x ∈ l -> P x <-> Q x) -> filter P l = filter Q l.
Proof.
  induction l as [|x l IH]; intros Hl; [done|]. rewrite !filter_cons.
  pose proof (Hl x ltac:(set_solver)) as Hx. rewrite IH by set_solver. clear Hl.
  destruct (decide (P x)), (decide (Q x)); try done; tauto.
Qed.

Lemma filter_none {A} (P : A -> Prop) `{!forall x, Decision (P x)} (l : list A) :
  (forall x, x ∈ l -> ~ P x) -> filter P l = [].
Proof.
  induction l as [|x l IH]; intros Hl; [done|]. rewrite filter_cons, decide_False by set_solver.
  apply IH. set_solver.
Qed.

(** ** RELR *)

(** The addresses a RELR table encodes: an even word names an address, an odd
    one is a bitmap of the 63 words after the last one covered. *)
Fixpoint relr_addrs (where_ : Z) (words : list Z) : list Z :=
  match words with
  | [] => []
  | w :: words =>
      if Z.even w then w :: relr_addrs (u64 (w + 8)) words
      else map (fun j => u64 (where_ + j * 8)) (filter (fun j => Z.testbit w (j + 1) = true) (seqZ 0 63))
           ++ relr_addrs (u64 (where_ + 63 * 8)) words
  end.

Lemma land_1_even x : (Z.land x 1 =? 0) = Z.even x.
Proof.
  change 1 with (Z.ones 1). rewrite Z.land_ones by lia. rewrite Zmod_even.
  by destruct (Z.even x).
Qed.

Lemma filter_map_succ (P : Z -> Prop) `{!forall x, Decision (P x)} n : forall a,
  length (filter P (seqZ (a + 1) (Z.of_nat n))) = length (filter (fun j => P (j + 1)) (seqZ a (Z.of_nat n))).
Proof.
  induction n as [|n IH]; intros a; [done|]. rewrite !(seqZ_cons _ (Z.of_nat (S n))) by lia.
  rewrite !filter_cons. replace (Z.pred (Z.of_nat (S n))) with (Z.of_nat n) by lia.
  specialize (IH (a + 1)). unfold Z.succ.
  repeat case_decide; try done; cbn [length]; lia.
Qed.

Lemma popcount_odd w : Z.even w = false ->
  popcountll w - 1 = Z.of_nat (length (filter (fun j => Z.testbit w (j + 1) = true) (seqZ 0 63))).
Proof.
  intros H. unfold popcountll. rewrite (seqZ_cons 0 64) by lia. rewrite filter_cons.
  rewrite decide_True by (rewrite Z.bit0_odd, <- Z.negb_even, H; done).
  change (Z.pred 64) with (Z.of_nat 63). change (Z.succ 0) with (0 + 1).
  cbn [length]. rewrite filter_map_succ. change (Z.of_nat 63) with 63. lia.
Qed.

Section Relr.
Variable elf : list Z.
Variable file_size : Z.
Hypothesis elf_bytes : Forall is_byte elf.
Hypothesis elf_size : Z.of_nat (length elf) = file_size.
Hypothesis small_file : file_size < 2 ^ 31.

Definition word (off : Z) : Z := field (slice elf off 8) 0 8.

Fixpoint words (n : nat) (off : Z) : list Z :=
  match n with O => [] | S n => word off :: words n (off + 8) end.

Lemma word_ok off : u64_ok (word off).
Proof. apply field_8, slice_bytes, elf_bytes. Qed.

Lemma relr_count_spec size_bits n : forall off count where_,
  0 <= off -> off + Z.of_nat n * 8 <= file_size -> 0 <= count ->
  res_post (fun r => r = count + Z.of_nat (length (relr_addrs where_ (words n off)))) any_panic
    (relr_count_loop size_bits elf n off count).
Proof.
  induction n as [|n IH]; intros off count w Ho Hn Hc; [cbn; lia|].
  cbn [relr_count_loop words relr_addrs]. rewrite (object_ok _ file_size) by (done || lia). cbn [rbind].
  fold (word off). rewrite land_1_even.
  unfold elf64_add_relocation_count. destruct (Z.even (word off)) eqn:He.
  - destruct (_ <? 1); [done|]. cbn [rbind length].
    eapply res_post_mono; [apply (IH (off + 8) (count + 1) (u64 (word off + 8))); lia| |done].
    intros r ->. lia.
  - rewrite popcount_odd by done. destruct (_ <? _); [done|]. cbn [rbind].
    eapply res_post_mono; [eapply (IH (off + 8) _ (u64 (w + 63 * 8))); lia| |done].
    intros r ->. rewrite length_app, length_map. lia.
Qed.

Definition relr_blank : elf64_rela := MkRela 0 R_INTERNAL_RELR 0 0.
Definition relr_rela (a : Z) : elf64_rela := MkRela a R_INTERNAL_RELR 0 0.

(** [relocs] points the first [k] places at the pool. *)
Definition pooled (k : nat) (relocs : list reloc_ptr) : Prop :=
  forall i, (i < k)%nat -> relocs !! i = Some (InPool i).

Definition pool_of (k : nat) (addrs : list Z) : list elf64_rela :=
  map relr_rela addrs ++ replicate (k - length addrs) relr_blank.

Lemma relr_init_spec k n :
  (k <= n)%nat ->
  relr_init k (replicate n Null) (replicate k zero_rela) =
    Ok (map InPool (seq 0 k) ++ replicate (n - k) Null, replicate k relr_blank).
Proof.
  intros Hk. unfold relr_init.
  pose proof (for_range_spec (fun i '(relocs, pool) =>
     relocs = map InPool (seq 0 i) ++ replicate (n - i) Null /\
     pool = replicate i relr_blank ++ replicate (k - i) zero_rela) no_panic
    (fun i '(relocs, pool) =>
      let! relocs := wr relocs i (InPool i) in
      let! pool := update_reloc relocs pool i (fun r => with_info r R_INTERNAL_RELR) in
      Ok (relocs, pool)) k 0 (replicate n Null, replicate k zero_rela)) as H.
  cbn beta in H. apply res_post_total in H as ([relocs pool] & -> & -> & ->).
  - do 2 f_equal. rewrite Nat.sub_diag. apply app_nil_r.
  - intros i [relocs pool] Hi [-> ->]. simpl in Hi.
    assert (length (map InPool (seq 0 i)) = i) as Hl by by rewrite length_map, length_seq.
    assert (<[i := InPool i]> (map InPool (seq 0 i) ++ replicate (n - i) Null)
            = map InPool (seq 0 (S i)) ++ replicate (n - S i) Null) as Hr.
    { rewrite seq_S, map_app, <- app_assoc. rewrite insert_app_r_alt by lia. rewrite Hl, Nat.sub_diag.
      by replace (n - i)%nat with (S (n - S i)) by lia. }
    rewrite wr_lt by (rewrite length_app, Hl, length_replicate; lia). cbn [rbind]. rewrite Hr.
    unfold update_reloc. rewrite (rd_lookup _ _ (InPool i)).
    2: { rewrite seq_S, map_app, <- app_assoc. by apply list_lookup_middle. }
    assert (replicate (k - i) zero_rela = zero_rela :: replicate (k - S i) zero_rela) as ->
      by (by replace (k - i)%nat with (S (k - S i)) by lia).
    cbn [rbind].
    rewrite (rd_lookup _ _ zero_rela).
    2: { apply list_lookup_middle. by rewrite length_replicate. }
    cbn [rbind]. rewrite wr_lt by (rewrite length_app; simpl; rewrite !length_replicate; lia).
    cbn [rbind res_post]. split; [done|]. rewrite insert_app_r_alt by (rewrite length_replicate; lia).
    rewrite length_replicate, Nat.sub_diag, (replicate_S_end i), <- app_assoc. done.
  - split; [by rewrite Nat.sub_0_r|]. by rewrite Nat.sub_0_r.
Qed.

(** Storing the next address. *)
Lemma update_next k relocs addrs a :
  pooled k relocs -> (length addrs < k)%nat ->
  update_reloc relocs (pool_of k addrs) (length addrs) (fun r => with_addr r a) = Ok (pool_of k (addrs ++ [a])).
Proof.
  intros Hp Hl. unfold update_reloc. rewrite (rd_lookup _ _ _ (Hp _ Hl)). cbn [rbind]. unfold pool_of.
  replace (k - length addrs)%nat with (S (k - length (addrs ++ [a]))) by (rewrite length_app; simpl; lia).
  simpl replicate. rewrite (rd_lookup _ _ relr_blank).
  2: { apply list_lookup_middle. by rewrite length_map. }
  cbn [rbind]. rewrite wr_lt by (rewrite length_app, length_map; simpl; lia).
  f_equal. rewrite insert_app_r_alt by (rewrite length_map; lia). rewrite length_map, Nat.sub_diag.
  rewrite map_app, <- app_assoc. done.
Qed.

(** The positions of a bitmap's set bits, the lowest bit aside. *)
Definition bits (entry j : Z) (n : nat) : list Z :=
  filter (fun b => Z.testbit entry (b - j + 1) = true) (seqZ j (Z.of_nat n)).

Lemma bits_zero entry j n : Z.shiftr entry 1 = 0 -> bits entry j n = [].
Proof.
  intros Hz. apply filter_none. intros b Hb%elem_of_seqZ.
  rewrite <- (Z.shiftr_spec entry 1), Hz, Z.bits_0 by lia. done.
Qed.

Lemma bits_S entry j n :
  bits entry j (S n) = (if Z.even (Z.shiftr entry 1) then [] else [j]) ++ bits (Z.shiftr entry 1) (j + 1) n.
Proof.
  unfold bits. rewrite (seqZ_cons j) by lia. rewrite filter_cons.
  replace (Z.pred (Z.of_nat (S n))) with (Z.of_nat n) by lia. unfold Z.succ.
  assert (Z.testbit entry (j - j + 1) = negb (Z.even (Z.shiftr entry 1))) as Ht.
  { rewrite Z.negb_even, <- Z.bit0_odd, Z.shiftr_spec by lia. f_equal. lia. }
  rewrite (filter_ext_elem (fun b => Z.testbit entry (b - j + 1) = true)
             (fun b => Z.testbit (Z.shiftr entry 1) (b - (j + 1) + 1) = true)).
  2: { intros b Hb%elem_of_seqZ. rewrite Z.shiftr_spec by lia.
       by replace (b - (j + 1) + 1 + 1) with (b - j + 1) by lia. }
  case_decide as Hd; rewrite Ht in Hd; destruct (Z.even _); done.
Qed.

Lemma relr_bitmap_spec k relocs where_ fuel : forall entry j addrs,
  pooled k relocs -> 0 <= entry < 2 ^ (Z.of_nat fuel + 1) ->
  (length addrs + length (bits entry j fuel) <= k)%nat ->
  relr_bitmap fuel relocs entry where_ j (pool_of k addrs, length addrs) =
    let addrs' := addrs ++ map (fun b => u64 (where_ + b * 8)) (bits entry j fuel) in
    Ok (pool_of k addrs', length addrs').
Proof.
  assert (forall entry j n addrs, Z.shiftr entry 1 = 0 ->
    (pool_of k addrs, length addrs) =
    let addrs' := addrs ++ map (fun b => u64 (where_ + b * 8)) (bits entry j n) in
    (pool_of k addrs', length addrs')) as Hstop.
  { intros entry j n addrs Hz. rewrite bits_zero by done. simpl. by rewrite app_nil_r. }
  induction fuel as [|fuel IH]; intros entry j addrs Hp He Hk.
  - cbn [relr_bitmap]. assert (Z.shiftr entry 1 = 0) as Hz.
    { rewrite Z.shiftr_div_pow2 by lia. apply Z.div_small. lia. }
    rewrite Hz. simpl Z.eqb. cbn iota. by rewrite (Hstop entry j O).
  - cbn [relr_bitmap]. destruct (Z.shiftr entry 1 =? 0) eqn:Hz; bool_hyps.
    { by rewrite (Hstop entry j (S fuel)). }
    assert (0 <= Z.shiftr entry 1 < 2 ^ (Z.of_nat fuel + 1)) as He'.
    { rewrite Z.shiftr_div_pow2 by lia. replace (2 ^ (Z.of_nat (S fuel) + 1)) with (2 ^ (Z.of_nat fuel + 1) * 2) in He.
      - split; [apply Z.div_pos; lia|apply Z.div_lt_upper_bound; lia].
      - replace (Z.of_nat (S fuel) + 1) with (Z.succ (Z.of_nat fuel + 1)) by lia. rewrite Z.pow_succ_r by lia. lia. }
    rewrite bits_S in *. rewrite land_1_even.
    destruct (Z.even (Z.shiftr entry 1)); cbn [negb app length] in *.
    + cbn [rbind]. by apply IH.
    + rewrite update_next by (done || lia). cbn [rbind].
      replace (S (length addrs)) with (length (addrs ++ [u64 (where_ + j * 8)]))
        by (rewrite length_app; simpl; lia).
      rewrite IH; [|done..|rewrite length_app; simpl; lia].
      cbn zeta. rewrite <- app_assoc. done.
Qed.

Lemma bits_63 w : bits w 0 63 = filter (fun j => Z.testbit w (j + 1) = true) (seqZ 0 63).
Proof. unfold bits. apply filter_ext_elem. intros b _. by replace (b - 0 + 1) with (b + 1) by lia. Qed.

Lemma relr_fill_spec k relocs n : forall off where_ addrs,
  pooled k relocs -> 0 <= off -> off + Z.of_nat n * 8 <= file_size ->
  (length addrs + length (relr_addrs where_ (words n off)) <= k)%nat ->
  relr_fill elf n off relocs where_ (pool_of k addrs, length addrs) =
    let addrs' := addrs ++ relr_addrs where_ (words n off) in Ok (pool_of k addrs', length addrs').
Proof.
  induction n as [|n IH]; intros off w addrs Hp Ho Hn Hk; cbn [relr_fill words relr_addrs] in *.
  { by rewrite app_nil_r. }
  rewrite (object_ok _ file_size) by (done || lia). cbn [rbind]. fold (word off).
  rewrite land_1_even. destruct (Z.even (word off)).
  - cbn [length] in Hk. rewrite update_next by (done || lia). cbn [rbind].
    replace (S (length addrs)) with (length (addrs ++ [word off])) by (rewrite length_app; simpl; lia).
    rewrite IH; [|done|lia..|rewrite length_app; simpl; lia]. cbn zeta. by rewrite <- app_assoc.
  - rewrite length_app, length_map in Hk. rewrite <- bits_63 in *. pose proof (word_ok off) as Hw. unfold u64_ok in Hw.
    rewrite relr_bitmap_spec; [|done|change (2 ^ (Z.of_nat 63 + 1)) with (2 ^ 64); lia|lia]. cbn zeta. cbn [rbind].
    rewrite IH; [|done|lia..|rewrite length_app, length_map; lia]. cbn zeta. by rewrite <- app_assoc.
Qed.

(** ** RELA tables *)
Definition entries (table size ent : Z) : list reloc_ptr :=
  map (fun i => InFile (table + i * ent)) (seqZ 0 (size / ent)).

Lemma length_entries table size ent : length (entries table size ent) = Z.to_nat (size / ent).
Proof. unfold entries. by rewrite length_map, length_seqZ. Qed.

Lemma entries_snoc table ent k :
  0 <= k -> map (fun i => InFile (table + i * ent)) (seqZ 0 (k + 1)) =
            map (fun i => InFile (table + i * ent)) (seqZ 0 k) ++ [InFile (table + k * ent)].
Proof. intros. rewrite seqZ_app by lia. by rewrite map_app. Qed.

Lemma table_fill_spec table size ent relocs start :
  table_ok file_size table size -> 0 <= size -> 0 < ent < 2 ^ 63 -> size mod ent = 0 -> 0 <= start ->
  start + size / ent <= Z.of_nat (length relocs) ->
  table_fill table size ent relocs start = Ok (buf_write relocs (Z.to_nat start) (entries table size ent)).
Proof.
  intros [Ht1 Ht2] Hs He Hm Hst Hl. unfold table_fill.
  assert (size = size / ent * ent) as Hsz by (pose proof (Z.div_mod size ent); lia).
  pose proof (Z.div_pos size ent Hs ltac:(lia)) as Hq. set (q := size / ent) in *.
  destruct (res_post_total (fun r => r = buf_write relocs (Z.to_nat start) (entries table size ent))
    (loop (table_body table size ent) (fun s => Z.max 0 (size - s.2)) (relocs, Z.to_nat start, 0)))
    as (r & -> & ->); [|done].
  apply (loop_spec _ (fun s => exists k, 0 <= k <= q /\
    s = (buf_write relocs (Z.to_nat start) (map (fun i => InFile (table + i * ent)) (seqZ 0 k)),
         (Z.to_nat start + Z.to_nat k)%nat, k * ent))); [|exists 0; split; [lia|]|cbn; lia].
  2: { unfold buf_write. change (seqZ 0 0) with (@nil Z). cbn [map length app].
       rewrite !Nat.add_0_r, take_drop, Z.mul_0_l. done. }
  intros s (k & Hk & ->). unfold turn_ok, table_body. case_if.
  - cbn [res_post]. assert (k = q) as -> by nia. done.
  - assert (k < q) as Hlt by nia.
    assert (0 <= k * ent /\ k * ent + ent <= size) by nia.
    rewrite (wrap_small 64 (table + k * ent)) by lia. rewrite (wrap_small 64 (k * ent + ent)) by lia.
    set (xs := map _ (seqZ 0 k)).
    assert (length xs = Z.to_nat k) as Hxs by (unfold xs; by rewrite length_map, length_seqZ).
    rewrite wr_lt by (rewrite length_buf_write; lia). cbn [rbind res_post].
    replace (Z.to_nat start + Z.to_nat k)%nat with (Z.to_nat start + length xs)%nat by lia.
    rewrite buf_write_snoc by lia. split; [|cbn; lia]. exists (k + 1). split; [lia|].
    rewrite entries_snoc by lia. fold xs. f_equal; [f_equal|]; lia.
Qed.

Definition rela_at (off : Z) : elf64_rela := rela_of (slice elf off sizeof_rela).

(** The relocations the tables encode. *)
Definition relocations (d : dyn_info) (t : tables) : list elf64_rela :=
  map relr_rela (relr_addrs 0 (words (Z.to_nat (d_relr_size d / 8)) (relr_offset t)))
  ++ map (fun i => rela_at (rela_offset t + i * d_rela_ent d)) (seqZ 0 (d_rela_size d / d_rela_ent d))
  ++ map (fun i => rela_at (dt_jmprel t + i * sizeof_rela)) (seqZ 0 (d_pltrelsz d / sizeof_rela)).

(** What the counting pass has established. *)
Record counted (d : dyn_info) (t : tables) (relr_count jmprel_start relocs_i : Z) : Prop := {
  cn_relr : relr_count = Z.of_nat (length (relr_addrs 0 (words (Z.to_nat (d_relr_size d / 8)) (relr_offset t))));
  cn_relr_ent : d_relr_size d = 0 \/ d_relr_ent d = 8;
  cn_rela : jmprel_start = relr_count + d_rela_size d / d_rela_ent d;
  cn_rela_ent : d_rela_size d = 0 \/ (d_rela_ent d <> 0 /\ d_rela_size d mod d_rela_ent d = 0);
  cn_jmprel : relocs_i = jmprel_start + d_pltrelsz d / sizeof_rela;
  cn_plt : d_pltrelsz d mod sizeof_rela = 0;
}.

Lemma relr_words_bound d t :
  dyn_ok d -> tables_ok file_size d t ->
  0 <= relr_offset t /\ relr_offset t + Z.of_nat (Z.to_nat (d_relr_size d / 8)) * 8 <= file_size.
Proof.
  intros [] []. unfold table_ok, u64_ok in *.
  pose proof (Z.mul_div_le (d_relr_size d) 8). pose proof (Z.div_pos (d_relr_size d) 8). lia.
Qed.

Lemma count_relocations_spec size_bits d t :
  dyn_ok d -> tables_ok file_size d t ->
  res_post (fun r => counted d t r.1.1 r.1.2 r.2) any_panic (count_relocations size_bits elf d t).
Proof.
  intros Hd Ht. pose proof (relr_words_bound d t Hd Ht) as Hw. destruct Hd, Ht. unfold u64_ok in *.
  unfold count_relocations.
  eapply bind_any with (Q := fun c =>
    c = Z.of_nat (length (relr_addrs 0 (words (Z.to_nat (d_relr_size d / 8)) (relr_offset t)))) /\
    (d_relr_size d = 0 \/ d_relr_ent d = 8)).
  { case_if; [|cbn; split; [by replace (d_relr_size d) with 0 by lia|by left]].
    case_if; [done|]. assert (d_relr_ent d = 8) as He by lia. rewrite He.
    eapply res_post_mono; [by apply (relr_count_spec size_bits _ _ 0 0); lia|intros r ->; auto|done]. }
  intros rc [Hrc Hre]. eapply bind_any with (Q := fun c =>
    c = rc + d_rela_size d / d_rela_ent d /\
    (d_rela_size d = 0 \/ (d_rela_ent d <> 0 /\ d_rela_size d mod d_rela_ent d = 0))).
  { case_if; [|cbn; replace (d_rela_size d) with 0 by lia; rewrite Zdiv_0_l; auto with lia].
    case_if; [done|]. case_if; [done|]. unfold elf64_add_relocation_count. case_if; [done|]. cbn; auto with lia. }
  intros js [Hjs Hae]. eapply bind_any with (Q := fun c =>
    c = js + d_pltrelsz d / sizeof_rela /\ d_pltrelsz d mod sizeof_rela = 0).
  { case_if; [|cbn [res_post]; replace (d_pltrelsz d) with 0 by lia; rewrite Zdiv_0_l; auto with lia].
    case_if; [done|]. case_if; [done|]. unfold elf64_add_relocation_count. case_if; [done|]. cbn; auto with lia. }
  intros ri [Hri Hpl]. by constructor.
Qed.

Lemma buf_write_tail {A} (xs ys : list A) m (z : A) :
  (length ys <= m)%nat ->
  buf_write (xs ++ replicate m z) (length xs) ys = xs ++ ys ++ replicate (m - length ys) z.
Proof.
  intros H. unfold buf_write. rewrite take_app_length. do 2 f_equal.
  rewrite <- drop_drop, drop_app_length. rewrite drop_replicate. done.
Qed.

(** One table's worth of pointers after the ones already there. *)
Lemma append_table table size ent xs m start :
  table_ok file_size table size -> 0 <= size -> start = Z.of_nat (length xs) ->
  (size = 0 \/ (0 < ent /\ size mod ent = 0)) -> (Z.to_nat (size / ent) <= m)%nat ->
  (if negb (size =? 0) then table_fill table size ent (xs ++ replicate m Null) start
   else Ok (xs ++ replicate m Null)) =
  Ok ((xs ++ entries table size ent) ++ replicate (m - Z.to_nat (size / ent)) Null).
Proof.
  intros Ht Hs -> He Hm. case_if.
  - destruct He as [|[He Hmod]]; [lia|].
    assert (ent <= size) by (destruct (decide (size < ent)); [rewrite Z.mod_small in Hmod|]; lia).
    pose proof Ht as [? ?]. rewrite table_fill_spec; try done; try lia.
    2: { pose proof (Z.div_pos size ent). rewrite length_app, length_replicate. lia. }
    rewrite Nat2Z.id, buf_write_tail by (by rewrite length_entries).
    by rewrite length_entries, <- app_assoc.
  - replace size with 0 by lia. unfold entries. rewrite Zdiv_0_l. cbn.
    by rewrite app_nil_r, Nat.sub_0_r.
Qed.

Lemma relr_fill_all d t rc m :
  dyn_ok d -> tables_ok file_size d t ->
  rc = length (relr_addrs 0 (words (Z.to_nat (d_relr_size d / 8)) (relr_offset t))) ->
  (d_relr_size d = 0 \/ d_relr_ent d = 8) -> (rc <= m)%nat ->
  res_post (fun r => r.1 = map InPool (seq 0 rc) ++ replicate (m - rc) Null /\
                     r.2 = map relr_rela (relr_addrs 0 (words (Z.to_nat (d_relr_size d / 8)) (relr_offset t))))
    any_panic
    (if negb (d_relr_size d =? 0) then
       let! pool := (if negb (Z.of_nat rc =? 0) then alloc_counted (Z.of_nat rc) sizeof_rela zero_rela
                     else Ok []) in
       let! (relocs, pool) := relr_init (Z.to_nat (Z.of_nat rc)) (replicate m Null) pool in
       let! (pool, _) := relr_fill elf (Z.to_nat (d_relr_size d / d_relr_ent d)) (relr_offset t) relocs 0 (pool, O) in
       Ok (relocs, pool)
     else Ok (replicate m Null, [])).
Proof.
  intros Hd Ht Hrc He Hm. pose proof (relr_words_bound d t Hd Ht) as [Hw1 Hw2]. case_if.
  - destruct He as [|He]; [lia|]. rewrite He in *.
    eapply bind_any with (Q := fun pool => pool = replicate rc zero_rela).
    { case_if; [|by replace rc with O by lia].
      unfold alloc_counted. destruct (CHECKED_MUL _ _); [|done]. cbn. by rewrite Nat2Z.id. }
    intros pool ->. rewrite Nat2Z.id, relr_init_spec by lia. cbn [rbind].
    replace (replicate rc relr_blank) with (pool_of rc []) by (unfold pool_of; simpl; by rewrite Nat.sub_0_r).
    change O with (length (@nil Z)). rewrite relr_fill_spec; [|intros j Hj|done|done|simpl; lia].
    2: { rewrite lookup_app_l by (rewrite length_map, length_seq; lia).
         rewrite list_lookup_fmap, lookup_seq_lt by lia. done. }
    cbn. split; [done|]. unfold pool_of. rewrite <- Hrc, Nat.sub_diag. apply app_nil_r.
  - assert (d_relr_size d = 0) as E by lia. rewrite E in Hrc |- *. cbn in *. subst rc.
    by rewrite Nat.sub_0_r.
Qed.

Definition points_to (pool : list elf64_rela) (relocs : list reloc_ptr) (rels : list elf64_rela) : Prop :=
  forall st, relr_pool st = pool -> Forall2 (fun p r => deref elf st p = Ok r) relocs rels.

Lemma points_entries pool table size ent :
  table_ok file_size table size -> 0 <= size ->
  (size = 0 \/ sizeof_rela <= ent) ->
  points_to pool (entries table size ent)
    (map (fun i => rela_at (table + i * ent)) (seqZ 0 (size / ent))).
Proof.
  intros [Ht1 Ht2] Hs He st _. unfold entries. apply Forall2_fmap, Forall2_same_length_lookup.
  split; [done|]. intros n i j Hi Hj. rewrite Hi in Hj. injection Hj as <-.
  apply lookup_seqZ in Hi as [-> Hn]. unfold sizeof_rela in He.
  destruct He as [->|He]; [rewrite Zdiv_0_l in Hn; lia|].
  assert (Z.of_nat n * ent + ent <= size).
  { pose proof (Z.mul_div_le size ent). nia. }
  unfold deref. rewrite (object_ok _ file_size) by (done || unfold sizeof_rela; nia). done.
Qed.

Lemma fill_relocations_spec size_bits d t rc js ri :
  dyn_ok d -> tables_ok file_size d t -> counted d t rc js ri ->
  res_post (fun r => points_to r.2 r.1 (relocations d t)) any_panic
    (fill_relocations size_bits elf d t rc js ri).
Proof.
  intros Hd Ht Hc. unfold fill_relocations. unfold alloc_counted at 1. destruct (CHECKED_MUL _ _); [|done].
  cbn [rbind]. pose proof Hd as Hd'. pose proof Ht as Ht'. destruct Hd, Ht, Hc. unfold u64_ok in *.
  set (rcn := length (relr_addrs 0 (words (Z.to_nat (d_relr_size d / 8)) (relr_offset t)))) in *.
  assert (0 <= d_rela_size d / d_rela_ent d) as Hna.
  { destruct (decide (d_rela_ent d = 0)) as [->|]; [by rewrite Z.div_0_r|apply Z.div_pos; lia]. }
  assert (0 <= d_pltrelsz d / sizeof_rela) as Hnj by (apply Z.div_pos; unfold sizeof_rela; lia).
  rewrite cn_relr0 in *. subst js ri.
  eapply bind_any; [apply (relr_fill_all d t rcn); auto; lia|]. intros [rl pool] [Hrl Hpool].
  cbn [fst snd] in Hrl, Hpool. subst rl pool.
  set (xs := map InPool (seq 0 rcn)). assert (length xs = rcn) as Hxs by (unfold xs; by rewrite length_map, length_seq).
  rewrite append_table; [|auto|lia|lia| |lia].
  2: { destruct cn_rela_ent0 as [|[? ?]]; [by left|right]. unfold sizeof_rela in *. split; [lia|done]. }
  cbn [rbind]. rewrite append_table; [|auto|lia| |right; unfold sizeof_rela; split; [lia|done]|lia].
  2: { rewrite length_app, length_entries. lia. }
  cbn [rbind res_post fst snd].
  match goal with |- context [replicate ?m Null] => replace m with O by lia end.
  rewrite app_nil_r, <- app_assoc. intros st Hst. unfold relocations. apply Forall2_app; [|apply Forall2_app].
  - unfold xs. apply Forall2_fmap_l, Forall2_same_length_lookup.
    split; [by rewrite length_seq, length_map|]. intros n i r Hi Hr. apply lookup_seq in Hi as [-> _].
    simpl in *. rewrite Hst. by apply rd_lookup.
  - eapply points_entries; [apply Ht'|lia| |done]. unfold sizeof_rela in *. lia.
  - eapply points_entries; [apply Ht'|lia| |done]. right. done.
Qed.

(** ** The state [elf64_prepare_relocations] leaves *)
Record rela_ok (r : elf64_rela) : Prop := {
  rk_addr : u64_ok (r_addr r); rk_addend : u64_ok (r_addend r); rk_symbol : 0 <= r_symbol r < 2 ^ 32;
}.

Record prepared (hdr : elf_hdr) (st : elf64_reloc_state) (rels : list elf64_rela) : Prop := {
  pr_tables : exists d t, read_dynamic elf file_size hdr = Ok (Some d) /\ locate_tables elf file_size hdr d = Ok t /\
                rels = relocations d t /\ st_symtab_offset st = symtab_offset t /\
                st_symtab_ent st = d_symtab_ent d /\ st_symtab_size st = symtab_size t;
  pr_points : points_to (relr_pool st) (relocs st) rels;
  pr_rels : Forall rela_ok rels;
  pr_symtab : 0 <= st_symtab_offset st /\ st_symtab_offset st + st_symtab_size st <= file_size;
  pr_syment : 0 <= st_symtab_ent st;
}.

Lemma rela_at_ok off : rela_ok (rela_at off).
Proof.
  assert (Forall is_byte (slice elf off sizeof_rela)) as Hb by by apply slice_bytes.
  constructor; cbn; [by apply field_8|by apply field_8|by apply field_4].
Qed.

Lemma relr_addrs_ok ws : forall w, Forall u64_ok ws -> Forall u64_ok (relr_addrs w ws).
Proof.
  assert (forall z, u64_ok (u64 z)) as Hu by (intros z; apply wrap_range; lia).
  induction ws as [|x ws IH]; intros w Hw; cbn [relr_addrs]; [done|]. inversion_clear Hw.
  destruct (Z.even x); [constructor; auto|]. apply Forall_app. split; [|auto].
  apply List.Forall_map, Forall_true. auto.
Qed.

Lemma words_ok n : forall off, Forall u64_ok (words n off).
Proof. induction n; intros off; constructor; [apply word_ok|auto]. Qed.

Lemma relocations_ok d t : Forall rela_ok (relocations d t).
Proof.
  unfold relocations. apply Forall_app; split; [|apply Forall_app; split].
  - apply List.Forall_map. eapply Forall_impl; [apply relr_addrs_ok, words_ok|].
    intros a Ha. constructor; cbn; [done|unfold u64_ok; lia|lia].
  - apply List.Forall_map, Forall_true. intros i. apply rela_at_ok.
  - apply List.Forall_map, Forall_true. intros i. apply rela_at_ok.
Qed.

Lemma bind_eq {A B} (Q : A -> Prop) (Q' : B -> Prop) r k :
  res_post Q any_panic r -> (forall a, r = Ok a -> Q a -> res_post Q' any_panic (k a)) ->
  res_post Q' any_panic (rbind r k).
Proof. destruct r; simpl; auto; done. Qed.

Lemma phdr_size_check_spec c hdr :
  res_post (fun _ => sizeof_phdr c <= h_phdr_size hdr) any_panic (phdr_size_check c hdr).
Proof. unfold phdr_size_check. case_if; [by destruct c|done]. Qed.

Lemma read_dynamic_table hdr d :
  sizeof_phdr ELF64 <= h_phdr_size hdr -> read_dynamic elf file_size hdr = Ok (Some d) ->
  table_in file_size ELF64 hdr.
Proof.
  intros Hs. unfold read_dynamic. destruct (CHECKED_MUL _ _) as [m|] eqn:E1; [|done].
  destruct (CHECKED_ADD _ _) as [e|] eqn:E2; [|done].
  apply checked_mul_Some in E1 as [-> _]. apply checked_add_Some in E2 as [-> _].
  case_if; [done|]. intros _. by constructor.
Qed.

Lemma read_dynamic_any hdr :
  hdr_ok hdr -> sizeof_phdr ELF64 <= h_phdr_size hdr ->
  res_post (fun o => forall d, o = Some d -> dyn_ok d) any_panic (read_dynamic elf file_size hdr).
Proof.
  intros Hh Hs. destruct (decide (h_phoff hdr + h_ph_num hdr * h_phdr_size hdr <= file_size)).
  - by apply read_dynamic_spec.
  - unfold read_dynamic. destruct (CHECKED_MUL _ _) as [m|] eqn:E1; [|done].
    destruct (CHECKED_ADD _ _) as [e|] eqn:E2; [|done].
    apply checked_mul_Some in E1 as [-> _]. apply checked_add_Some in E2 as [-> _].
    rewrite (proj2 (Z.ltb_lt _ _)) by lia. done.
Qed.

Lemma prepare_spec size_bits hdr :
  hdr_ok hdr ->
  res_post (fun o => forall st, o = Some st -> exists rels, prepared hdr st rels) any_panic
    (elf64_prepare_relocations size_bits elf file_size hdr).
Proof.
  intros Hh. unfold elf64_prepare_relocations.
  eapply bind_any; [apply phdr_size_check_spec|]. intros [] Hs.
  eapply bind_eq; [by apply read_dynamic_any|]. intros [d|] Hrd Hd; [|done]. specialize (Hd d eq_refl).
  pose proof (read_dynamic_table hdr d Hs Hrd) as Hti.
  eapply bind_eq; [by apply locate_tables_spec|]. intros t Hlt Ht.
  eapply bind_any; [by apply count_relocations_spec|]. intros [[rc js] ri] Hc. cbn [fst snd] in Hc.
  eapply bind_any; [by eapply fill_relocations_spec|]. intros [rl pool] Hp. cbn [fst snd] in Hp.
  cbn [res_post]. intros st [= <-]. exists (relocations d t). constructor; cbn.
  - exists d, t. auto 10.
  - done.
  - apply relocations_ok.
  - apply Ht.
  - apply Hd.
Qed.
End Relr.
