(* ===== verification/ElfPatch.v ===== *)
(** * Applying relocations

    [elf64_apply_relocations] against the formulas of the processor supplements:
    with [S] the value of the symbol, [A] the addend and the slide as base, a
    relocation stores [slide + A], [S], [S + A] or the old word plus the slide.
    Everything outside the buffer is left alone. *)

From S2P Require Import Prelude CInt Libc Gpt Elf ElfFacts.

(** ** Words in buffers *)
Lemma le_bytes_snoc n : forall v, le_bytes (S n) v = le_bytes n v ++ [v / 256 ^ Z.of_nat n mod 256].
Proof.
  induction n as [|n IH]; intros v.
  - cbn. by rewrite Z.div_1_r.
  - cbn [le_bytes]. cbn [le_bytes] in IH. rewrite IH. rewrite Z.div_div by lia.
    by rewrite Nat2Z.inj_succ, Z.pow_succ_r by lia.
Qed.

Lemma le_val_snoc l b : le_val (l ++ [b]) = le_val l + 256 ^ Z.of_nat (length l) * b.
Proof.
  induction l as [|x l IH]; [cbn; lia|]. cbn [app le_val length]. rewrite IH.
  rewrite Nat2Z.inj_succ, Z.pow_succ_r by lia. lia.
Qed.

Lemma pow256 n : 256 ^ n = 2 ^ (n * 8).
Proof. change 256 with (2 ^ 8). destruct (decide (0 <= n)); [|by rewrite !Z.pow_neg_r by lia].
  rewrite <- Z.pow_mul_r by lia. f_equal. lia. Qed.

Lemma store_loop_spec size buf p v :
  (p + size <= length buf)%nat ->
  for_range size 0 (fun i buf => wr buf (p + i) (u8 (Z.shiftr v (Z.of_nat i * 8)))) buf = Ok (buf_write buf p (le_bytes size v)).
Proof.
  intros H.
  destruct (res_post_total (fun b => b = buf_write buf p (le_bytes size v))
    (for_range size 0 (fun i buf => wr buf (p + i) (u8 (Z.shiftr v (Z.of_nat i * 8)))) buf)) as (r & -> & ->); [|done].
  apply (for_range_spec (fun i b => b = buf_write buf p (le_bytes i v)) no_panic _ size 0).
  - intros i b Hi ->.
    rewrite wr_lt by (rewrite length_buf_write by (rewrite length_le_bytes; lia); lia). cbn [res_post].
    rewrite le_bytes_snoc, <- buf_write_snoc by (rewrite length_le_bytes; lia).
    rewrite length_le_bytes. f_equal. rewrite Z.shiftr_div_pow2 by lia. by rewrite <- pow256.
  - unfold buf_write. simpl. by rewrite Nat.add_0_r, take_drop.
Qed.

Lemma reloc_store_spec buf p v :
  (p + 8 <= length buf)%nat -> reloc_store buf p v = Ok (buf_write buf p (le_bytes 8 v)).
Proof. apply store_loop_spec. Qed.

Definition word_at (buf : list Z) (p : nat) : Z := le_val (take 8 (drop p buf)).

Lemma reloc_load_from_spec n : forall i buf p,
  Forall is_byte buf -> (p + i + n <= length buf)%nat ->
  reloc_load_from n i buf p (le_val (take i (drop p buf))) = Ok (le_val (take (i + n) (drop p buf))).
Proof.
  induction n as [|n IH]; intros i buf p Hb Hl; cbn [reloc_load_from]; [by rewrite Nat.add_0_r|].
  destruct (lookup_lt_is_Some_2 buf (p + i)) as [b E]; [lia|].
  rewrite (rd_lookup _ _ _ E). cbn [rbind].
  assert (take (S i) (drop p buf) = take i (drop p buf) ++ [b]) as Ht.
  { apply take_S_r. by rewrite lookup_drop. }
  assert (length (take i (drop p buf)) = i) as Hlen by (rewrite length_take, length_drop; lia).
  assert (Forall is_byte (take i (drop p buf))) as Hbi by by apply Forall_take, Forall_drop.
  pose proof (le_val_bound _ Hbi) as Hv. rewrite Hlen, pow256 in Hv.
  replace (i + S n)%nat with (S i + n)%nat by lia. rewrite <- IH by (done || lia).
  f_equal. rewrite Ht, le_val_snoc, Hlen, pow256. rewrite Z.lor_comm, shiftl_lor_low by lia. lia.
Qed.

Lemma reloc_load_spec buf p :
  Forall is_byte buf -> (p + 8 <= length buf)%nat -> reloc_load buf p = Ok (word_at buf p).
Proof. intros. apply (reloc_load_from_spec 8 0); [done|lia]. Qed.

(** Writing inside one part of an object. *)
Lemma buf_write_mid {A} (pre mid post xs : list A) o :
  (o + length xs <= length mid)%nat ->
  buf_write (pre ++ mid ++ post) (length pre + o) xs = pre ++ buf_write mid o xs ++ post.
Proof.
  intros H. unfold buf_write. rewrite take_app_add.
  rewrite <- (Nat.add_assoc (length pre)), drop_app_add.
  rewrite take_app_le, drop_app_le by lia. by rewrite <- !app_assoc.
Qed.

Lemma word_at_mid pre mid post o :
  (o + 8 <= length mid)%nat -> word_at (pre ++ mid ++ post) (length pre + o) = word_at mid o.
Proof.
  intros H. unfold word_at. rewrite drop_app_add, drop_app_le by lia.
  rewrite take_app_le by (rewrite length_drop; lia). done.
Qed.

Lemma buf_write_bytes buf p bs : Forall is_byte buf -> Forall is_byte bs -> Forall is_byte (buf_write buf p bs).
Proof. intros. unfold buf_write. apply Forall_app; split; [by apply Forall_take|]. apply Forall_app; split; [done|by apply Forall_drop]. Qed.

Lemma lookup_buf_write_ne {A} (buf xs : list A) o i :
  (o + length xs <= length buf)%nat -> (i < o \/ o + length xs <= i)%nat -> buf_write buf o xs !! i = buf !! i.
Proof.
  intros Hl Hi. unfold buf_write. destruct Hi.
  - rewrite lookup_app_l by (rewrite length_take; lia). by apply lookup_take_lt.
  - rewrite app_assoc, lookup_app_r by (rewrite length_app, length_take; lia).
    rewrite lookup_drop. f_equal. rewrite length_app, length_take. lia.
Qed.

Lemma word_at_ext l l' o :
  (forall i, (o <= i < o + 8)%nat -> l !! i = l' !! i) -> word_at l o = word_at l' o.
Proof.
  intros H. unfold word_at. f_equal. apply list_eq. intros i. destruct (decide (i < 8)%nat).
  - rewrite !lookup_take_lt, !lookup_drop by done. apply H. lia.
  - by rewrite !lookup_take_ge by lia.
Qed.

Lemma word_at_write buf o v :
  (o + 8 <= length buf)%nat -> word_at (buf_write buf o (le_bytes 8 v)) o = u64 v.
Proof.
  intros H. unfold word_at, buf_write. rewrite drop_app_length' by (rewrite length_take; lia).
  rewrite take_app_length' by (by rewrite length_le_bytes). by rewrite le_val_bytes.
Qed.

Lemma u64_u64_l a b : u64 (u64 a + b) = u64 (a + b).
Proof. unfold wrap. by rewrite Zplus_mod_idemp_l. Qed.

(** ** What a relocation stores *)
Section Patch.
Variable arch_ : arch.
Variable elf : list Z.
Variable file_size : Z.
Hypothesis elf_bytes : Forall is_byte elf.
Hypothesis elf_size : Z.of_nat (length elf) = file_size.
Hypothesis small_file : file_size < 2 ^ 31.

(** The symbol table, as an array of symbols. *)
Definition symbol (symtab syment i : Z) : elf64_sym := sym_of (slice elf (symtab + syment * i) sizeof_sym).

Definition symbol_value (s : elf64_sym) (slide : Z) : Z :=
  if st_shndx s =? SHN_UNDEF then 0
  else if st_shndx s =? SHN_ABS then st_value s
  else st_value s + slide.

(** The word stored over [old], [None] when nothing is. *)
Definition reloc_formula (symtab syment slide : Z) (rel : elf64_rela) (old : Z) : option Z :=
  let S := symbol_value (symbol symtab syment (r_symbol rel)) slide in
  let A := r_addend rel in
  let info := r_info rel in
  if info =? 0 then None
  else if info =? R_RELATIVE arch_ then Some (u64 (slide + A))
  else if info =? R_INTERNAL_RELR then Some (u64 (old + slide))
  else if bool_decide (info ∈ R_SLOTS arch_) then
    Some (u64 (S + match arch_ with AARCH64 => A | _ => 0 end))
  else Some (u64 (S + A)).

Lemma reloc_formula_ok symtab syment slide rel old v :
  reloc_formula symtab syment slide rel old = Some v -> u64_ok v.
Proof.
  assert (forall z, u64_ok (u64 z)) as Hu by (intros z; apply wrap_range; lia).
  unfold reloc_formula. repeat case_if; intros [= <-]; auto.
Qed.

(** The word at [a] lies inside the [n] bytes at [vaddr], which do not wrap
    around the address space. *)
Definition word_inside (vaddr n a : Z) : bool :=
  (vaddr <=? a) && (a + 8 <=? vaddr + n) && (vaddr + n <? 2 ^ 64 + 8).

(** A segment's bytes with one relocation applied where it lies inside. *)
Definition patch (symtab syment slide vaddr : Z) (buf : list Z) (rel : elf64_rela) : list Z :=
  if word_inside vaddr (Z.of_nat (length buf)) (r_addr rel) then
    let o := Z.to_nat (r_addr rel - vaddr) in
    match reloc_formula symtab syment slide rel (word_at buf o) with
    | Some v => buf_write buf o (le_bytes 8 v)
    | None => buf
    end
  else buf.

Definition patched (symtab syment slide vaddr : Z) (buf : list Z) (rels : list elf64_rela) : list Z :=
  foldl (patch symtab syment slide vaddr) buf rels.

Lemma length_patch symtab syment slide vaddr buf rel :
  length (patch symtab syment slide vaddr buf rel) = length buf.
Proof.
  unfold patch, word_inside. case_if; [|done]. destruct (reloc_formula _ _ _ _ _); [|done].
  apply length_buf_write. rewrite length_le_bytes. lia.
Qed.

Lemma patch_bytes symtab syment slide vaddr buf rel :
  Forall is_byte buf -> Forall is_byte (patch symtab syment slide vaddr buf rel).
Proof.
  intros H. unfold patch, word_inside. case_if; [|done]. destruct (reloc_formula _ _ _ _ _); [|done].
  apply buf_write_bytes; [done|apply le_bytes_byte].
Qed.

(** ** Which bytes change, and to what *)
Definition touches (rel : elf64_rela) (a : Z) : Prop := r_addr rel <= a < r_addr rel + 8.

Lemma patch_outside symtab syment slide vaddr buf rel i :
  ~ touches rel (vaddr + Z.of_nat i) -> patch symtab syment slide vaddr buf rel !! i = buf !! i.
Proof.
  unfold touches, patch, word_inside. intros H. case_if; [|done].
  destruct (reloc_formula _ _ _ _ _); [|done]. apply lookup_buf_write_ne; rewrite length_le_bytes; lia.
Qed.

Lemma patched_outside symtab syment slide vaddr rels i : forall buf,
  Forall (fun r => ~ touches r (vaddr + Z.of_nat i)) rels ->
  patched symtab syment slide vaddr buf rels !! i = buf !! i.
Proof.
  unfold patched. induction rels as [|r rels IH]; intros buf H; [done|]. apply Forall_cons in H as [Hr H].
  simpl. rewrite IH by done. by apply patch_outside.
Qed.

Lemma length_patched symtab syment slide vaddr rels : forall buf,
  length (patched symtab syment slide vaddr buf rels) = length buf.
Proof.
  unfold patched. induction rels as [|r rels IH]; intros buf; [done|]. simpl. rewrite IH. apply length_patch.
Qed.

(** The word of a relocation whose target no other relocation touches. *)
Lemma patched_word symtab syment slide vaddr buf l1 r l2 v :
  let o := Z.to_nat (r_addr r - vaddr) in
  word_inside vaddr (Z.of_nat (length buf)) (r_addr r) = true ->
  Forall (fun r' => r_addr r' + 8 <= r_addr r \/ r_addr r + 8 <= r_addr r') (l1 ++ l2) ->
  reloc_formula symtab syment slide r (word_at buf o) = Some v ->
  word_at (patched symtab syment slide vaddr buf (l1 ++ r :: l2)) o = v.
Proof.
  intros o Hin Hne Hv. pose proof (reloc_formula_ok _ _ _ _ _ _ Hv) as Huv. apply Forall_app in Hne as [H1 H2].
  assert (forall l b, Forall (fun r' => r_addr r' + 8 <= r_addr r \/ r_addr r + 8 <= r_addr r') l ->
    word_at (patched symtab syment slide vaddr b l) o = word_at b o) as Hkeep.
  { intros l b Hl. apply word_at_ext. intros i Hi. apply patched_outside.
    eapply Forall_impl; [exact Hl|]. unfold touches, word_inside in *. bool_hyps. intros r' Hr'. lia. }
  unfold patched. rewrite foldl_app. simpl. fold (patched symtab syment slide vaddr buf l1).
  fold (patched symtab syment slide vaddr (patch symtab syment slide vaddr (patched symtab syment slide vaddr buf l1) r) l2).
  rewrite Hkeep by done. unfold patch. rewrite length_patched, Hin. fold o. rewrite Hkeep by done. rewrite Hv.
  unfold word_inside in Hin. bool_hyps.
  rewrite word_at_write by (rewrite length_patched; lia). apply wrap_small. exact Huv.
Qed.

Section State.
Variable st : elf64_reloc_state.
Hypothesis symtab_fine : 0 <= st_symtab_offset st /\ st_symtab_offset st + st_symtab_size st <= file_size.
Hypothesis syment_fine : 0 <= st_symtab_ent st.

Lemma reloc_symbol_spec rel :
  rela_ok rel ->
  res_post (fun s => s = symbol (st_symtab_offset st) (st_symtab_ent st) (r_symbol rel)) any_panic
    (reloc_symbol elf st rel).
Proof.
  intros []. unfold reloc_symbol. case_if; [done|]. case_if; [done|].
  destruct (CHECKED_MUL _ _) as [o|] eqn:E; [|done]. apply checked_mul_Some in E as [-> _].
  case_if; [done|]. rewrite (object_ok _ file_size) by (done || unfold sizeof_sym in *; nia). done.
Qed.

Lemma symbol_ok symtab syment i : u64_ok (st_value (symbol symtab syment i)).
Proof. apply field_8, slice_bytes, elf_bytes. Qed.

(** One relocation, its target inside the object. *)
Lemma relocate_spec rel slide buf p :
  rela_ok rel -> u64_ok slide -> Forall is_byte buf -> (p + 8 <= length buf)%nat ->
  res_post (fun b => b = match reloc_formula (st_symtab_offset st) (st_symtab_ent st) slide rel (word_at buf p) with
                         | Some v => buf_write buf p (le_bytes 8 v)
                         | None => buf
                         end) any_panic
    (relocate arch_ elf st rel slide buf p).
Proof.
  intros Hr Hs Hb Hp. pose proof (rk_addend _ Hr) as Ha. unfold u64_ok in *.
  pose proof (symbol_ok (st_symtab_offset st) (st_symtab_ent st) (r_symbol rel)) as Hv. unfold u64_ok in Hv.
  unfold relocate, reloc_formula. cbn zeta. case_if; [done|].
  case_if; [by rewrite reloc_store_spec|].
  case_if; [rewrite reloc_load_spec by done; cbn [rbind]; by rewrite reloc_store_spec|].
  destruct (bool_decide _).
  - eapply bind_any; [by apply reloc_symbol_spec|]. intros s ->. unfold symbol_value, slid_value.
    destruct (_ =? SHN_UNDEF) eqn:Eu.
    + destruct (weak _).
      * rewrite reloc_store_spec by done. cbn [res_post]. do 2 f_equal.
        destruct arch_; rewrite wrap_small by lia; lia.
      * unfold unresolved. by repeat case_if.
    + rewrite reloc_store_spec by done. cbn [res_post]. do 2 f_equal.
      destruct (_ =? SHN_ABS), arch_; rewrite ?u64_u64_l, ?Z.add_0_r; try done; by rewrite wrap_small by lia.
  - case_if; [|done].
    eapply bind_any; [by apply reloc_symbol_spec|]. intros s ->. unfold symbol_value, slid_value.
    destruct (_ =? SHN_UNDEF) eqn:Eu.
    + destruct (weak _).
      * rewrite reloc_store_spec by done. cbn [res_post]. do 2 f_equal. by rewrite wrap_small by lia.
      * unfold unresolved. by repeat case_if.
    + rewrite reloc_store_spec by done. cbn [res_post]. do 2 f_equal.
      destruct (_ =? SHN_ABS); by rewrite ?u64_u64_l.
Qed.

(** The tests of the code, whose sum may wrap, are [word_inside]. *)
Lemma inside_test a vaddr size :
  u64_ok a -> u64_ok vaddr -> u64_ok size ->
  (if a <? vaddr then false else if (size <? 8) || (u64 (vaddr + size - 8) <? a) then false else true)
  = word_inside vaddr size a.
Proof.
  unfold u64_ok, word_inside. intros Ha Hv Hs.
  destruct (a <? vaddr) eqn:E0; bool_hyps; [rewrite (proj2 (Z.leb_gt _ _)); [done|lia]|].
  rewrite (proj2 (Z.leb_le vaddr a)) by lia.
  destruct (size <? 8) eqn:E1; bool_hyps; cbn [orb andb]; [by rewrite (proj2 (Z.leb_gt _ _)) by lia|].
  destruct (decide (vaddr + size - 8 < 2 ^ 64)).
  - rewrite wrap_small by lia. rewrite (proj2 (Z.ltb_lt (vaddr + size) _)) by lia. rewrite andb_true_r.
    destruct (_ <? _) eqn:E2, (_ <=? _) eqn:E3; bool_hyps; done || lia.
  - replace (u64 (vaddr + size - 8)) with (vaddr + size - 8 - 2 ^ 64).
    2: { unfold wrap. apply (Zmod_unique _ _ 1); lia. }
    rewrite (proj2 (Z.ltb_lt _ _)) by lia. rewrite (proj2 (Z.ltb_ge (vaddr + size) _)) by lia.
    by rewrite andb_false_r.
Qed.

(** All relocations, on the part [mid] of an object. *)
Lemma apply_from_spec ps rels pre post vaddr slide : forall mid,
  Forall2 (fun p r => deref elf st p = Ok r) ps rels -> Forall rela_ok rels ->
  Forall is_byte pre -> Forall is_byte mid -> Forall is_byte post ->
  u64_ok vaddr -> u64_ok slide -> u64_ok (Z.of_nat (length mid)) ->
  res_post (fun b => b = pre ++ patched (st_symtab_offset st) (st_symtab_ent st) slide vaddr mid rels ++ post)
    any_panic
    (apply_from arch_ elf st ps (pre ++ mid ++ post) (Z.of_nat (length pre)) vaddr (Z.of_nat (length mid)) slide).
Proof.
  intros mid HF. revert mid. induction HF as [|p r ps rels Hp Hps IH]; intros mid Hok Hpre Hmid Hpost Hv Hs Hl; [done|].
  apply Forall_cons in Hok as [Hr Hok]. cbn [apply_from]. rewrite Hp. cbn [rbind].
  set (mid' := patch (st_symtab_offset st) (st_symtab_ent st) slide vaddr mid r).
  assert (length mid' = length mid) as Hlen by apply length_patch.
  eapply bind_any with (Q := fun b => b = pre ++ mid' ++ post).
  - pose proof (inside_test (r_addr r) vaddr (Z.of_nat (length mid)) (rk_addr _ Hr) Hv Hl) as Ht.
    unfold mid', patch. destruct (r_addr r <? vaddr); [by rewrite <- Ht|].
    destruct (_ || _); [by rewrite <- Ht|]. rewrite <- Ht. symmetry in Ht. unfold word_inside in Ht. bool_hyps.
    replace (Z.to_nat (Z.of_nat (length pre) + (r_addr r - vaddr)))
      with (length pre + Z.to_nat (r_addr r - vaddr))%nat by lia.
    eapply res_post_mono; [apply relocate_spec; auto| |done].
    + by repeat apply Forall_app_2.
    + rewrite !length_app. lia.
    + intros b ->. rewrite word_at_mid by lia. destruct (reloc_formula _ _ _ _ _); [|done].
      rewrite buf_write_mid by (rewrite length_le_bytes; lia). done.
  - intros b ->. rewrite <- Hlen. apply IH; auto; [by apply patch_bytes|by rewrite Hlen].
Qed.
End State.
End Patch.
