(* ===== verification/ElfProps.v ===== *)
(** * The image of an ELF executable

    What the loops of [elf64_load] and [elf64_get_ranges] establish: the loadable
    segments are in ascending order, the image is the segments in their places
    with zeros between them, and the ranges cover the segments by the page. *)

From S2P Require Import Prelude CInt Libc Gpt Elf ElfLoad ElfFacts ElfPatch LibcProps.

(** ** Pairs of a list that grows at its end *)
Lemma FOP_snoc {A} (R : A -> A -> Prop) l x :
  List.ForallOrdPairs R (l ++ [x]) <-> List.ForallOrdPairs R l /\ Forall (fun a => R a x) l.
Proof.
  induction l as [|y l IH]; simpl.
  - split; [intros _; split; constructor|]. intros _. constructor; constructor.
  - split.
    + intros H. inversion_clear H as [|? ? Hy Hl]. apply Forall_app in Hy as [Hy Hx].
      apply IH in Hl as [Hl Hf]. apply Forall_cons in Hx as [Hx _]. split; [by constructor|by apply Forall_cons].
    + intros [H Hf]. inversion_clear H as [|? ? Hy Hl]. apply Forall_cons in Hf as [Hyx Hf].
      constructor; [apply Forall_app; split; [done|by constructor]|]. by apply IH.
Qed.

(** ** Loops that skip some elements *)
Lemma list_loop_filter {A T R} (P : A -> bool) (body : A -> T -> res (T + R)) l : forall s,
  (forall x s, P x = false -> body x s = Ok (inl s)) ->
  list_loop body l s = list_loop body (filter (fun x => P x = true) l) s.
Proof.
  induction l as [|x l IH]; intros s H; [done|]. rewrite filter_cons. cbn [list_loop].
  case_decide as Hx.
  - cbn [list_loop]. destruct (body x s) as [[s'|r]|m| |]; cbn [rbind]; auto.
  - rewrite H by (by apply not_true_is_false). cbn [rbind]. auto.
Qed.

Lemma loop_end {A T R} (I : list A -> T -> Prop) E (body : A -> T -> res (T + R)) l s :
  (forall d x r s, l = d ++ x :: r -> I d s ->
     res_post (loop_post (I (d ++ [x])) (fun _ => False)) E (body x s)) ->
  I [] s -> res_post (I l) E (to_end (list_loop body l s)).
Proof.
  intros Hb Hs. apply to_end_post. apply (list_loop_spec I (fun _ => False) E body l [] s); [|done].
  intros d x r s' Hl. by apply (Hb d x r).
Qed.

Definition seg_end (s : elf_phdr) : Z := p_vaddr s + p_memsz s.
Definition page_base (s : elf_phdr) : Z := ALIGN_DOWN (p_vaddr s) 4096.
Definition page_top (s : elf_phdr) : Z := (seg_end s + 4095) / 4096 * 4096.
Definition low (s : elf_phdr) : bool := p_vaddr s <? FIXED_HIGHER_HALF_OFFSET_64.
Definition perms (s : elf_phdr) : Z := Z.land (p_flags s) 7.

(** ** Extents *)
Definition before (a b : elf_phdr) : Prop := seg_end a <= p_vaddr b.
Definition page_compatible (a b : elf_phdr) : Prop := page_base b < page_top a -> perms a = perms b.

Record extent_inv (is_reloc want_ranges : bool) (ds : list elf_phdr) (x : extent) : Prop := {
  ei_order : List.ForallOrdPairs before ds;
  ei_ends : Forall (fun s => seg_end s + 4095 < 2 ^ 64) ds;
  ei_half : forall s, s ∈ ds -> low s = lower_to_higher x /\ (low s = true -> is_reloc = true);
  ei_flags : lower_to_higher x = existsb low ds /\ higher_half x = existsb (fun s => negb (low s)) ds;
  ei_pages : want_ranges = true -> List.ForallOrdPairs page_compatible ds;
  ei_first : min_vaddr x = match ds with [] => UINT64_MAX | s :: _ => p_vaddr s end;
  ei_last : match last ds with
            | None => x = no_extent
            | Some l => prev_top x = seg_end l /\ max_vaddr x = seg_end l /\
                        prev_rounded_top x = page_top l /\ prev_flags x = perms l
            end;
}.

Lemma last_pair {A} (R : A -> A -> Prop) ds s l :
  List.ForallOrdPairs R ds -> last ds = Some l -> s ∈ ds -> s = l \/ R s l.
Proof.
  intros Hp Hl Hs. destruct ds as [|y ds _] using rev_ind; [done|].
  rewrite last_snoc in Hl. injection Hl as ->. apply FOP_snoc in Hp as [_ Hf].
  apply elem_of_app in Hs as [Hs|Hs%list_elem_of_singleton]; [|auto].
  rewrite Forall_forall in Hf. right. by apply Hf.
Qed.

Lemma loadable_spec p : loadable p = true -> p_type p = PT_LOAD /\ p_memsz p <> 0.
Proof. unfold loadable. intros. by bool_hyps. Qed.

Lemma page_base_spec s : page_base s <= p_vaddr s < page_base s + 4096 /\ page_base s mod 4096 = 0.
Proof. unfold page_base. split; [apply align_down_spec; lia|apply align_down_mod; lia]. Qed.

Lemma page_top_spec s : seg_end s <= page_top s < seg_end s + 4096 /\ page_top s mod 4096 = 0.
Proof.
  unfold page_top. pose proof (Z.div_mod (seg_end s + 4095) 4096). pose proof (Z.mod_pos_bound (seg_end s + 4095) 4096).
  split; [lia|apply Z.mod_mul; lia].
Qed.

Lemma page_base_mono a b : p_vaddr a <= p_vaddr b -> page_base a <= page_base b.
Proof. intros. unfold page_base, align_down. apply Z.mul_le_mono_nonneg_r; [lia|]. apply Z.div_le_mono; lia. Qed.

Lemma page_top_mono a b : seg_end a <= seg_end b -> page_top a <= page_top b.
Proof. intros. unfold page_top. apply Z.mul_le_mono_nonneg_r; [lia|]. apply Z.div_le_mono; lia. Qed.

Lemma existsb_snoc {A} (f : A -> bool) l x : existsb f (l ++ [x]) = existsb f l || f x.
Proof. rewrite existsb_app. simpl. by rewrite orb_false_r. Qed.

Lemma existsb_const {A} (f : A -> bool) l b x : (forall y, y ∈ l -> f y = b) -> x ∈ l -> existsb f l = b.
Proof.
  intros H Hx. destruct (existsb f l) eqn:E.
  - apply existsb_exists in E as (y & Hy%list_elem_of_In & Hf). rewrite <- Hf. by apply H.
  - rewrite <- (H x Hx). destruct (f x) eqn:Hf; [|done]. rewrite <- E. apply existsb_exists.
    exists x. split; [by apply list_elem_of_In|done].
Qed.

(** Every segment seen is on the side of the current one. *)
Lemma half_step ds x p :
  (forall s, s ∈ ds -> low s = lower_to_higher x) ->
  lower_to_higher x = existsb low ds -> higher_half x = existsb (fun s => negb (low s)) ds ->
  (if low p then higher_half x else lower_to_higher x) = false ->
  forall s, s ∈ ds -> low s = low p.
Proof.
  intros Hs Hlo Hhi Hc s Hin. rewrite (Hs s Hin). destruct (low p) eqn:Ep.
  - assert (forall y, y ∈ ds -> negb (low y) = negb (lower_to_higher x)) as Hn by (intros y Hy; by rewrite Hs).
    rewrite Hhi, (existsb_const _ _ _ s Hn Hin) in Hc. by apply negb_false_iff in Hc.
  - done.
Qed.

Lemma extent_step is_reloc want ds s x :
  phdr_ok s -> loadable s = true -> Forall (fun p => phdr_ok p /\ loadable p = true) ds ->
  extent_inv is_reloc want ds x ->
  res_post (loop_post (extent_inv is_reloc want (ds ++ [s])) (fun _ => False)) any_panic
    (extent_body is_reloc want s x).
Proof.
  intros Hok Hload Hds Hinv. pose proof (loadable_spec _ Hload) as [_ Hm]. destruct Hok. unfold u64_ok in *.
  unfold extent_body. rewrite Hload. cbn [negb]. fold (low s).
  destruct (low s && negb is_reloc) eqn:Elow; [done|].
  destruct (if low s then _ else _) eqn:Ehalf; [done|].
  destruct (CHECKED_ADD _ _) as [e|] eqn:Ee; [|done]. apply checked_add_Some in Ee as [-> Ee]. fold (seg_end s) in *.
  destruct (_ <? prev_top x) eqn:Et; [done|]. fold (page_base s). fold (perms s).
  destruct (want && _ && _) eqn:Epg; [done|]. destruct (ALIGN_UP _ _) as [rt|] eqn:Er; [|done].
  assert (0 <= seg_end s) as Hse by (unfold seg_end; lia).
  assert (seg_end s + 4095 < 2 ^ 64) as Hend.
  { destruct (decide (2 ^ 64 <= seg_end s + 4096 - 1)) as [Hn|]; [|lia].
    apply align_up_None in Hn; [|lia..]. congruence. }
  apply align_up_Some in Er as (Hrt & Hrt2 & _ & Hrt3); [|lia..].
  replace (seg_end s + 4096 - 1) with (seg_end s + 4095) in Hrt by lia. fold (page_top s) in Hrt. subst rt.
  bool_hyps. destruct Hinv as [Hord Hends Hhalf [Hlo Hhi] Hpg Hfirst Hlast]. cbn [res_post loop_post].
  assert (Forall (fun a => 0 < p_memsz a) ds) as Hmem.
  { eapply Forall_impl; [exact Hds|]. intros p [[] Hp]. apply loadable_spec in Hp as [_ ?]. unfold u64_ok in *. lia. }
  assert (forall a, a ∈ ds -> seg_end a <= prev_top x) as Htop.
  { intros a Ha. destruct (last ds) as [l|] eqn:El; [|apply last_None in El; subst; by apply not_elem_of_nil in Ha].
    rewrite (proj1 Hlast). destruct (last_pair before ds a l) as [->|Hb]; auto; [lia|].
    unfold before in Hb. unfold seg_end at 2. apply last_Some_elem_of in El. rewrite Forall_forall in Hmem. specialize (Hmem l El). lia. }
  assert (forall a, a ∈ ds -> low a = low s) as Hsame.
  { eapply half_step; eauto. intros a Ha. by apply Hhalf. }
  constructor; cbn.
  - apply FOP_snoc. split; [done|]. apply Forall_forall. intros a Ha. unfold before. specialize (Htop a Ha). lia.
  - apply Forall_app. split; [done|by constructor].
  - assert (low s || lower_to_higher x = low s) as Hl.
    { rewrite Hlo. destruct ds as [|d ds]; [apply orb_false_r|].
      rewrite (existsb_const low (d :: ds) (low s) d Hsame (list_elem_of_here _ _)). apply orb_diag. }
    rewrite Hl. intros s' Hs'. assert (low s' = low s) as Hls
      by (apply elem_of_app in Hs' as [|Hs'%list_elem_of_singleton]; [by apply Hsame|by subst]).
    rewrite Hls. split; [done|]. intros Hlow. destruct Elow as [|Elow]; [congruence|by apply negb_false_iff in Elow].
  - rewrite !existsb_snoc, <- Hlo, <- Hhi. split; [apply orb_comm|]. apply orb_comm.
  - intros ->. apply FOP_snoc. split; [by apply Hpg|]. apply Forall_forall. intros a Ha Hlt.
    destruct (last ds) as [l|] eqn:El; [|apply last_None in El; subst; by apply not_elem_of_nil in Ha].
    destruct Hlast as (Hpt & _ & Hprt & Hpf). rewrite Hprt, Hpf in Epg. cbn in Epg.
    assert (page_base l <= page_base s) as Hbase.
    { apply page_base_mono. rewrite Forall_forall in Hmem. specialize (Hmem l (last_Some_elem_of _ _ El)).
      unfold seg_end in Hpt. lia. }
    assert (page_top a <= page_top l) as Htops.
    { apply page_top_mono. specialize (Htop a Ha). lia. }
    assert (perms s = perms l) as -> by (bool_cases; lia || done).
    destruct (last_pair page_compatible ds a l (Hpg eq_refl) El Ha) as [->|Hpc]; [done|]. apply Hpc. lia.
  - destruct ds as [|d ds]; cbn.
    + rewrite Hfirst. unfold UINT64_MAX. rewrite (proj2 (Z.ltb_lt _ _)); [done|]. unfold seg_end in Hend. lia.
    + rewrite Hfirst. pose proof (Htop d (list_elem_of_here _ _)) as Hd. apply Forall_cons in Hmem as [Hmd _].
      unfold seg_end in Hd. rewrite (proj2 (Z.ltb_ge _ _)); [done|lia].
  - rewrite last_snoc. split_and!; try done. case_if; [done|].
    destruct (last ds) as [l|] eqn:El; [|subst x; cbn in *; unfold seg_end in *; lia].
    unfold seg_end in *. lia.
Qed.

(** ** The alignment *)
Lemma pow2_test a : 1 < a -> Z.land a (a - 1) = 0 -> a = 2 ^ Z.log2 a.
Proof.
  intros Ha Hl. pose proof (Z.log2_spec a ltac:(lia)) as [H1 H2]. pose proof (Z.log2_nonneg a).
  destruct (decide (a = 2 ^ Z.log2 a)) as [|Hne]; [done|exfalso].
  assert (Z.log2 (a - 1) = Z.log2 a) as Hlog by (apply Z.log2_unique; lia).
  assert (Z.testbit (Z.land a (a - 1)) (Z.log2 a) = true) as Ht.
  { rewrite Z.land_spec, Z.bit_log2 by lia. rewrite <- Hlog at 1. by rewrite Z.bit_log2 by lia. }
  rewrite Hl, Z.bits_0 in Ht. done.
Qed.

Definition page_power (m : Z) : Prop := exists k, 12 <= k < 64 /\ m = 2 ^ k.

Definition align_inv (s : Z * Z) : Prop :=
  0 <= s.1 < 2 ^ 64 /\ (1 < s.1 -> s.1 = 2 ^ Z.log2 s.1) /\ 0 <= s.2.

Lemma max_align_step size_bits p s :
  phdr_ok p -> align_inv s ->
  res_post (loop_post align_inv (fun _ => False)) any_panic (max_align_body size_bits p s).
Proof.
  destruct s as [ret n]. intros [] (Hr & Hp & Hn). unfold max_align_body, align_inv, u64_ok in *. cbn [fst snd] in *.
  destruct (negb (loadable p)); [done|]. case_if; [done|]. case_if; [done|]. cbn. split_and!; try lia.
  - case_if; lia.
  - case_if; lia.
  - case_if; [|done]. intros H1. apply pow2_test; [done|]. bool_cases; lia.
Qed.

Section Segments.
Variable elf : list Z.
Variable file_size : Z.
Hypothesis elf_bytes : Forall is_byte elf.
Hypothesis elf_size : Z.of_nat (length elf) = file_size.
Hypothesis small_file : file_size < 2 ^ 31.
Variable hdr : elf_hdr.

(** The loadable segments, in the order of the table. *)
Definition segments : list elf_phdr := filter (fun p => loadable p = true) (phdrs elf ELF64 hdr).

Lemma segments_ok : Forall (fun p => phdr_ok p /\ loadable p = true) segments.
Proof.
  apply Forall_forall. intros p [Hl Hp]%list_elem_of_filter. split; [|done].
  eapply Forall_forall; [apply phdrs_ok|]; done.
Qed.

Hypothesis hdr_fine : hdr_ok hdr.
Hypothesis table_fine : table_in file_size ELF64 hdr.

Lemma elf64_max_align_spec size_bits :
  res_post page_power any_panic (elf64_max_align size_bits elf hdr).
Proof.
  unfold elf64_max_align. eapply bind_any; [apply phdr_size_check_spec|]. intros [] _.
  rewrite (over_phdrs_list elf file_size elf_size small_file ELF64 hdr hdr_fine table_fine).
  eapply bind_any.
  - apply (loop_end (fun _ => align_inv)); [|split_and!; cbn; lia].
    intros d x r s Hl Hs. apply max_align_step; [|done].
    pose proof (phdrs_ok elf elf_bytes ELF64 hdr) as Hf. rewrite Hl in Hf.
    apply Forall_app in Hf as [_ Hf]. by apply Forall_cons in Hf as [Hf _].
  - intros [ret n] (Hr & Hp & Hn). cbn [fst snd] in *. case_if; [done|]. cbn [res_post].
    case_if; [exists 12; split; [lia|done]|]. exists (Z.log2 ret). split; [|apply Hp; lia].
    split; [|apply Z.log2_lt_pow2; lia]. change 12 with (Z.log2 4096). by apply Z.log2_le_mono.
Qed.

(** A loop over the program headers that skips what is not loadable. *)
Lemma over_segments {T R} (body : elf_phdr -> T -> res (T + R)) s :
  (forall p s, loadable p = false -> body p s = Ok (inl s)) ->
  over_phdrs elf ELF64 true hdr body s = list_loop body segments s.
Proof.
  intros H. rewrite (over_phdrs_list elf file_size elf_size small_file ELF64 hdr hdr_fine table_fine).
  by apply list_loop_filter.
Qed.

(** The invariant rule for such a loop, with what is known of the segments. *)
Lemma segments_loop {T R} (I : list elf_phdr -> T -> Prop) E (body : elf_phdr -> T -> res (T + R)) s :
  (forall p s, loadable p = false -> body p s = Ok (inl s)) ->
  (forall d x r s, segments = d ++ x :: r -> phdr_ok x -> loadable x = true ->
     Forall (fun p => phdr_ok p /\ loadable p = true) d -> I d s ->
     res_post (loop_post (I (d ++ [x])) (fun _ => False)) E (body x s)) ->
  I [] s -> res_post (I segments) E (to_end (over_phdrs elf ELF64 true hdr body s)).
Proof.
  intros Hskip Hb Hs. rewrite over_segments by done. apply loop_end; [|done].
  intros d x r s' Hl Hi. pose proof (segments_ok) as Hf. rewrite Hl in Hf.
  apply Forall_app in Hf as [Hd Hf]. apply Forall_cons in Hf as [[Hx Hlx] _].
  by apply (Hb d x r).
Qed.

Lemma no_extent_inv is_reloc want : extent_inv is_reloc want [] no_extent.
Proof.
  constructor; cbn; try done.
  - constructor.
  - intros s Hs. by apply not_elem_of_nil in Hs.
  - intros _. constructor.
Qed.

Lemma extents_spec is_reloc want :
  res_post (extent_inv is_reloc want segments) any_panic
    (to_end (over_phdrs elf ELF64 true hdr (extent_body is_reloc want) no_extent)).
Proof.
  apply segments_loop; [| |apply no_extent_inv].
  - intros p s Hp. unfold extent_body. by rewrite Hp.
  - intros d x r s _ Hx Hlx Hd Hi. by apply extent_step.
Qed.

(** ** The image *)
Section Image.
Variables (arch_ : arch) (symtab syment slide : Z) (rels : list elf64_rela).

(** A segment's bytes in memory: the file's, zeros, and the relocations. *)
Definition seg_bytes (s : elf_phdr) : list Z :=
  slice elf (p_offset s) (p_filesz s) ++ replicate (Z.to_nat (p_memsz s - p_filesz s)) 0.

Definition seg_image (s : elf_phdr) : list Z :=
  patched arch_ elf symtab syment slide (p_vaddr s) (seg_bytes s) rels.

(** The segments in their places from [base] on, zeros between them. *)
Fixpoint image_of (base : Z) (segs : list elf_phdr) : list Z :=
  match segs with
  | [] => []
  | s :: segs => replicate (Z.to_nat (p_vaddr s - base)) 0 ++ seg_image s ++ image_of (seg_end s) segs
  end.

Definition image_top (base : Z) (segs : list elf_phdr) : Z :=
  match last segs with Some l => seg_end l | None => base end.

Lemma image_of_snoc segs s : forall base,
  image_of base (segs ++ [s]) =
  image_of base segs ++ replicate (Z.to_nat (p_vaddr s - image_top base segs)) 0 ++ seg_image s.
Proof.
  induction segs as [|x segs IH]; intros base.
  - cbn. by rewrite app_nil_r.
  - cbn [app image_of]. rewrite IH, <- !app_assoc. do 3 f_equal.
    unfold image_top. rewrite last_cons. destruct (last segs); done.
Qed.

Lemma length_seg_image s :
  0 <= p_filesz s <= p_memsz s -> 0 <= p_offset s -> p_offset s + p_filesz s <= file_size ->
  length (seg_image s) = Z.to_nat (p_memsz s).
Proof.
  intros. unfold seg_image, seg_bytes. rewrite length_patched, length_app, length_replicate.
  rewrite (length_slice elf file_size) by (done || lia). lia.
Qed.

Definition in_file (s : elf_phdr) : Prop :=
  0 <= p_filesz s <= p_memsz s /\ 0 <= p_offset s /\ p_offset s + p_filesz s <= file_size.

(** Each segment is in the image, at its distance from the base. *)
Lemma image_of_split segs s : forall base,
  List.ForallOrdPairs before segs -> Forall in_file segs -> (forall x, x ∈ segs -> base <= p_vaddr x) -> s ∈ segs ->
  exists pre post, image_of base segs = pre ++ seg_image s ++ post /\ Z.of_nat (length pre) = p_vaddr s - base.
Proof.
  induction segs as [|x segs IH]; intros base Hord Hf Hb Hs; [by apply not_elem_of_nil in Hs|].
  pose proof (Hb x (list_elem_of_here _ _)) as Hx. inversion_clear Hord as [|? ? Hbx Hord']. cbn [image_of].
  apply Forall_cons in Hf as [(Hf1 & Hf2 & Hf3) Hf]. apply elem_of_cons in Hs as [->|Hs].
  - eexists _, _. split; [reflexivity|]. rewrite length_replicate. lia.
  - rewrite Forall_forall in Hbx. destruct (IH (seg_end x)) as (pre & post & -> & Hlen); auto.
    exists (replicate (Z.to_nat (p_vaddr x - base)) 0 ++ seg_image x ++ pre), post.
    split; [by rewrite <- !app_assoc|]. specialize (Hbx s Hs). unfold before in Hbx.
    rewrite !length_app, length_replicate, length_seg_image by done. unfold seg_end in *. lia.
Qed.

Definition bss_of (max : Z) (segs : list elf_phdr) : Z :=
  match last segs with
  | Some l => if seg_end l =? max then p_memsz l - p_filesz l else 0
  | None => 0
  end.

(** After some segments, the rest of the image is still zero. *)
Definition placed (base size max : Z) (ds : list elf_phdr) (s : list Z * Z) : Prop :=
  Forall is_byte (image_of base ds) /\
  Forall (fun p => p_filesz p <= p_memsz p /\ p_offset p + p_filesz p <= file_size) ds /\
  Z.of_nat (length (image_of base ds)) = image_top base ds - base /\
  s.1 = image_of base ds ++ replicate (Z.to_nat (size - (image_top base ds - base))) 0 /\
  s.2 = bss_of max ds.

Lemma seg_bytes_bytes s : Forall is_byte (seg_bytes s).
Proof.
  apply Forall_app. split; [by apply slice_bytes|]. apply Forall_replicate. unfold is_byte. lia.
Qed.

Lemma patched_bytes_all vaddr buf : Forall is_byte buf -> Forall is_byte (patched arch_ elf symtab syment slide vaddr buf rels).
Proof.
  unfold patched. revert buf. induction rels as [|r l IH]; intros buf H; [done|]. simpl.
  apply IH. by apply patch_bytes.
Qed.

Lemma copy_file_mid pre mid post off src n :
  Z.of_nat (length pre) = off -> length mid = Z.to_nat n -> 0 <= n -> 0 <= src -> src + n <= file_size ->
  copy_file elf (pre ++ mid ++ post) off src n = Ok (pre ++ slice elf src n ++ post).
Proof.
  intros Hp Hm Hn Hs Hf. unfold copy_file. rewrite (object_ok elf file_size) by done. cbn [rbind].
  rewrite !length_app. rewrite (proj2 (Z.leb_le 0 off)), (proj2 (Z.leb_le _ _)) by lia. cbn [andb].
  replace (Z.to_nat off) with (length pre + 0)%nat by lia.
  rewrite buf_write_mid by (rewrite (length_slice elf file_size) by done; lia).
  rewrite buf_write_full; [done|]. by rewrite (length_slice elf file_size) by done.
Qed.

Lemma placed_split base size max ds image bss s :
  placed base size max ds (image, bss) -> base <= image_top base ds <= p_vaddr s -> seg_end s <= base + size ->
  0 <= p_filesz s <= p_memsz s ->
  image = (image_of base ds ++ replicate (Z.to_nat (p_vaddr s - image_top base ds)) 0)
          ++ replicate (Z.to_nat (p_filesz s)) 0
          ++ (replicate (Z.to_nat (p_memsz s - p_filesz s)) 0 ++ replicate (Z.to_nat (base + size - seg_end s)) 0)
  /\ Z.of_nat (length (image_of base ds ++ replicate (Z.to_nat (p_vaddr s - image_top base ds)) 0)) = p_vaddr s - base.
Proof.
  intros (_ & _ & Hl & Him & _) Ht He Hf. cbn [fst] in Him. unfold seg_end in *. split.
  - rewrite Him, <- !app_assoc, <- !replicate_add. do 2 f_equal. lia.
  - rewrite length_app, length_replicate. lia.
Qed.

Lemma bss_step max base ds s :
  image_top base ds <= p_vaddr s -> 0 < p_memsz s -> seg_end s <= max ->
  (if seg_end s =? max then p_memsz s - p_filesz s else bss_of max ds) = bss_of max (ds ++ [s]).
Proof.
  intros Ht Hm He. unfold bss_of at 2. rewrite last_snoc. case_if; [done|].
  unfold bss_of, image_top, seg_end in *. destruct (last ds); [|done].
  rewrite (proj2 (Z.eqb_neq _ _)); [done|lia].
Qed.

Variable st : elf64_reloc_state.
Hypothesis st_points : Forall2 (fun p r => deref elf st p = Ok r) (relocs st) rels.
Hypothesis st_rels : Forall rela_ok rels.
Hypothesis st_symtab : 0 <= st_symtab_offset st /\ st_symtab_offset st + st_symtab_size st <= file_size.
Hypothesis st_syment : 0 <= st_symtab_ent st.
Hypothesis symtab_eq : symtab = st_symtab_offset st.
Hypothesis syment_eq : syment = st_symtab_ent st.
Hypothesis slide_ok : u64_ok slide.

Lemma place_step physical base size max ds s image bss :
  phdr_ok s -> loadable s = true -> max = base + size -> 0 <= base -> base + size < 2 ^ 64 ->
  0 <= physical -> physical + size <= 2 ^ 64 ->
  base <= image_top base ds <= p_vaddr s -> seg_end s <= max ->
  placed base size max ds (image, bss) ->
  res_post (loop_post (placed base size max (ds ++ [s])) (fun _ => False)) any_panic
    (place_body arch_ elf file_size st physical base max slide s (image, bss)).
Proof.
  intros Hok Hload -> Hb Hb64 Hp Hp64 Htop Hend Hpl. pose proof (loadable_spec _ Hload) as [_ Hm].
  destruct Hok. unfold u64_ok in *. unfold place_body. rewrite Hload. cbn [negb]. case_if; [done|].
  destruct (CHECKED_ADD (p_offset s) _) as [e|] eqn:E1; [|done]. apply checked_add_Some in E1 as [-> E1].
  case_if; [done|]. unfold seg_end in Hend. rewrite (wrap_small 64 (physical + _)) by lia.
  destruct (CHECKED_ADD _ (p_memsz s)) as [e|] eqn:E2; [|done]. clear E2 e.
  replace (physical + (p_vaddr s - base) - physical) with (p_vaddr s - base) by lia.
  destruct (placed_split base size (base + size) ds image bss s) as [Him Hlen];
    [done|done|unfold seg_end; lia|lia|].
  set (pre := image_of base ds ++ _) in *. rewrite Him at 1.
  rewrite (copy_file_mid pre _ _ _ _ _ Hlen); [|by rewrite length_replicate|lia..]. cbn [rbind].
  rewrite app_assoc with (l := slice _ _ _). fold (seg_bytes s).
  assert (Z.of_nat (length (seg_bytes s)) = p_memsz s) as Hsl.
  { unfold seg_bytes. rewrite length_app, length_replicate, (length_slice elf file_size) by (done || lia). lia. }
  destruct Hpl as (Hbytes & Hfine & Hl & _ & Hbss). cbn [snd] in Hbss.
  eapply bind_any.
  { unfold elf64_apply_relocations. rewrite <- Hlen, <- Hsl at 1.
    apply (apply_from_spec arch_ elf file_size elf_bytes elf_size st st_symtab st_syment (relocs st) rels); auto.
    - apply Forall_app. split; [done|]. apply Forall_replicate. unfold is_byte. lia.
    - apply seg_bytes_bytes.
    - apply Forall_replicate. unfold is_byte. lia.
    - unfold u64_ok. lia. }
  intros b ->. cbn [res_post loop_post].
  assert (image_top base (ds ++ [s]) = seg_end s) as Htop' by (unfold image_top; by rewrite last_snoc).
  unfold placed. rewrite Htop', image_of_snoc, app_assoc. fold pre. cbn [fst snd]. split_and!.
  - apply Forall_app. split; [|by apply patched_bytes_all, seg_bytes_bytes].
    apply Forall_app. split; [done|]. apply Forall_replicate. unfold is_byte. lia.
  - apply Forall_app. split; [done|]. constructor; [lia|done].
  - rewrite length_app, length_seg_image by lia. unfold seg_end. lia.
  - unfold seg_image. rewrite symtab_eq, syment_eq, <- app_assoc. do 4 f_equal. lia.
  - rewrite Hbss, wrap_small by lia. fold (seg_end s). eapply bss_step; [apply Htop|lia|unfold seg_end; lia].
Qed.

Lemma FOP_middle {A} (R : A -> A -> Prop) d x r a :
  List.ForallOrdPairs R (d ++ x :: r) -> a ∈ d -> R a x.
Proof.
  intros H Ha. apply list_elem_of_lookup in Ha as [i Hi].
  apply (ForallOrdPairs_lookup_inv R _ i (length d) a x H).
  - by apply lookup_lt_Some in Hi.
  - by apply lookup_app_l_Some.
  - by apply list_lookup_middle.
Qed.

Lemma place_spec physical base size max :
  List.ForallOrdPairs before segments ->
  (forall s, s ∈ segments -> base <= p_vaddr s /\ seg_end s <= max) ->
  max = base + size -> 0 <= base -> 0 <= size -> base + size < 2 ^ 64 -> 0 <= physical -> physical + size <= 2 ^ 64 ->
  res_post (placed base size max segments) any_panic
    (to_end (over_phdrs elf ELF64 true hdr (place_body arch_ elf file_size st physical base max slide)
       (replicate (Z.to_nat size) 0, 0))).
Proof.
  intros Hord Hin -> Hb Hsz Hb64 Hp Hp64. apply segments_loop.
  - intros p [image bss] Hp'. unfold place_body. by rewrite Hp'.
  - intros d x r [image bss] Hl Hx Hlx Hd Hpl. rewrite Hl in Hord.
    assert (x ∈ segments) as Hxs by (rewrite Hl; apply elem_of_app; right; apply list_elem_of_here).
    apply place_step; auto; [|by apply Hin]. unfold image_top. destruct (last d) as [l|] eqn:El.
    + apply last_Some_elem_of in El. pose proof (FOP_middle before d x r l Hord El) as Hbx.
      assert (l ∈ segments) as Hls by (rewrite Hl; apply elem_of_app; by left).
      rewrite Forall_forall in Hd. destruct (Hd l El) as [[] _]. unfold u64_ok in *.
      pose proof (proj1 (Hin l Hls)). unfold before, seg_end in *. lia.
    + split; [lia|by apply Hin].
  - unfold placed, image_top, bss_of. cbn. split_and!; try done; [lia|]. f_equal. lia.
Qed.
End Image.

(** ** Ranges *)
Lemma range_permissions_land flags : 0 <= flags -> range_permissions flags = Z.land flags 7.
Proof.
  intros Hf. unfold range_permissions, ELF_PF_X, ELF_PF_W, ELF_PF_R, MEM_RANGE_X, MEM_RANGE_W, MEM_RANGE_R.
  assert (forall k, Z.land flags (2 ^ k) = Z.land (Z.land flags 7) (2 ^ k) \/ ~ (0 <= k < 3)) as Hk.
  { intros k. destruct (decide (0 <= k < 3)) as [Hk|]; [left|by right].
    rewrite <- Z.land_assoc. f_equal. assert (k = 0 \/ k = 1 \/ k = 2) as [->|[->| ->]] by lia; done. }
  pose proof (Hk 0) as H0. pose proof (Hk 1) as H1. pose proof (Hk 2) as H2.
  change (2 ^ 0) with 1 in H0. change (2 ^ 1) with 2 in H1. change (2 ^ 2) with 4 in H2.
  destruct H0 as [->|]; [|lia]. destruct H1 as [->|]; [|lia]. destruct H2 as [->|]; [|lia].
  change 7 with (Z.ones 3). rewrite Z.land_ones by lia. pose proof (Z.mod_pos_bound flags (2 ^ 3) ltac:(lia)).
  change (2 ^ 3) with 8 in *. set (m := flags mod 8) in *. clearbody m.
  assert (m = 0 \/ m = 1 \/ m = 2 \/ m = 3 \/ m = 4 \/ m = 5 \/ m = 6 \/ m = 7) as Hm by lia.
  by destruct Hm as [->|[->|[->|[->|[->|[->|[->| ->]]]]]]].
Qed.

(** The pages a segment occupies once it is moved by the slide. *)
Definition range_of (slide : Z) (s : elf_phdr) (r : mem_range) : Prop :=
  let load := u64 (p_vaddr s + slide) in
  base r = ALIGN_DOWN load 4096 /\ load + p_memsz s <= base r + length_ r < load + p_memsz s + 4096 /\
  (base r + length_ r) mod 4096 = 0 /\ base r + length_ r < 2 ^ 64 /\ permissions r = perms s.

Definition ranges_inv (slide : Z) (n : nat) (ds : list elf_phdr) (s : list mem_range * nat) : Prop :=
  s.2 = length ds /\ exists rs, Forall2 (range_of slide) ds rs /\ s.1 = rs ++ replicate (n - length ds) (MkRange 0 0 0).

Lemma range_step is_reloc slide n ds s x :
  phdr_ok s -> loadable s = true -> (low s = true -> is_reloc = true) -> (length ds < n)%nat ->
  ranges_inv slide n ds x ->
  res_post (loop_post (ranges_inv slide n (ds ++ [s])) (fun _ => False)) any_panic (range_body is_reloc slide s x).
Proof.
  destruct x as [rs0 k]. intros [] Hload Hlow Hn (Hk & rs & Hrs & Hr0). cbn [fst snd] in *. subst k rs0. unfold u64_ok in *.
  unfold range_body, ranged. fold (low s). rewrite Hload. cbn [andb].
  replace (low s && negb is_reloc) with false by (destruct (low s); [by rewrite Hlow|done]). cbn [negb].
  pose proof (wrap_range 64 (p_vaddr s + slide) ltac:(lia)) as Hw.
  destruct (CHECKED_ADD _ _) as [e|] eqn:E1; [|done]. apply checked_add_Some in E1 as [-> E1].
  destruct (ALIGN_UP _ _) as [top|] eqn:E2; [|done]. apply align_up_Some in E2 as (_ & Ht & Htm & Ht64); [|lia..].
  pose proof (align_down_spec (u64 (p_vaddr s + slide)) 4096 ltac:(lia)) as Hb.
  pose proof (align_down_nonneg (u64 (p_vaddr s + slide)) 4096 ltac:(lia) ltac:(lia)) as Hb0.
  rewrite (wrap_small 64 (top - _)) by lia.
  pose proof (Forall2_length _ _ _ Hrs) as Hlen.
  rewrite wr_lt by (rewrite length_app, length_replicate; lia). cbn [rbind res_post loop_post].
  set (b := ALIGN_DOWN _ 4096) in *. set (r := MkRange b (top - b) _).
  split; [cbn; rewrite length_app; simpl; lia|]. exists (rs ++ [r]). split.
  - apply Forall2_app; [exact Hrs|]. constructor; [|constructor]. unfold range_of, r. cbn [base length_ permissions].
    rewrite Z.add_sub_assoc, Z.add_simpl_l. split_and!; try done; try lia. apply range_permissions_land. lia.
  - cbn [fst]. rewrite insert_app_r_alt by lia. rewrite Hlen, Nat.sub_diag, <- app_assoc, length_app. simpl length.
    replace (n - length rs)%nat with (S (n - (length rs + 1))) by lia. by rewrite Hlen.
Qed.

Lemma is_relocatable_spec :
  res_post (fun _ => True) any_panic (elf64_is_relocatable elf hdr).
Proof.
  unfold elf64_is_relocatable. eapply bind_any; [apply phdr_size_check_spec|]. intros [] _. case_if; [done|].
  rewrite (over_phdrs_list elf file_size elf_size small_file ELF64 hdr hdr_fine table_fine).
  eapply bind_any; [apply (list_loop_spec (fun _ _ => True) (fun _ => True) any_panic _ _ []); [|done]|by intros [[]|[]]].
  intros d x r [] _ _. unfold relocatable_body. repeat case_if; done.
Qed.

(** The ranges are those of the segments, one each and in order. *)
Lemma get_ranges_spec slide is_reloc :
  elf64_is_relocatable elf hdr = Ok is_reloc ->
  (forall s, s ∈ segments -> low s = true -> is_reloc = true) ->
  res_post (Forall2 (range_of slide) segments) any_panic (elf64_get_ranges elf hdr slide).
Proof.
  intros Hrel Hlow. unfold elf64_get_ranges. eapply bind_any; [apply phdr_size_check_spec|]. intros [] _.
  rewrite Hrel. cbn [rbind].
  eapply bind_any; [apply (segments_loop (fun d n => n = Z.of_nat (length d)))|].
  - intros p s Hp. unfold count_range_body, ranged. by rewrite Hp.
  - intros d x r s Hl Hx Hlx _ ->. unfold count_range_body, ranged. fold (low x). rewrite Hlx.
    assert (x ∈ segments) as Hin by (rewrite Hl; apply elem_of_app; right; apply list_elem_of_here).
    replace (low x && negb is_reloc) with false by (destruct (low x) eqn:E; [by rewrite (Hlow x Hin E)|done]).
    cbn. rewrite length_app. simpl. lia.
  - done.
  - intros n ->. cbn beta. case_if; [done|].
    eapply bind_any with (Q := fun rs => rs = replicate (length segments) (MkRange 0 0 0)).
    { unfold alloc_counted. destruct (CHECKED_MUL _ _); [|done]. cbn. by rewrite Nat2Z.id. }
    intros rs ->. eapply bind_any; [apply (segments_loop (ranges_inv slide (length segments)))|].
    + intros p [rs k] Hp. unfold range_body, ranged. by rewrite Hp.
    + intros d x r s Hl Hx Hlx _ Hi. apply range_step; auto.
      * apply Hlow. rewrite Hl. apply elem_of_app. right. apply list_elem_of_here.
      * rewrite Hl, length_app. simpl. lia.
    + split; [done|]. exists []. split; [constructor|]. cbn. by rewrite Nat.sub_0_r.
    + intros [rs k] (_ & rs' & Hrs & Heq). cbn in Heq. subst rs. cbn. rewrite Nat.sub_diag. by rewrite app_nil_r.
Qed.
End Segments.

(** ** The slide *)
Lemma mask_multiple r m : page_power m -> 0 <= r < 2 ^ 32 ->
  0 <= Z.land r (u64 (Z.lnot (m - 1))) < 2 ^ 32 /\ Z.land r (u64 (Z.lnot (m - 1))) mod 4096 = 0.
Proof.
  intros (k & Hk & ->) Hr. set (u := u64 _). split.
  - assert (Z.land r u = Z.land r u mod 2 ^ 32) as ->; [|by apply Z.mod_pos_bound].
    rewrite <- Z.land_ones, <- Z.land_assoc, (Z.land_comm u), Z.land_assoc, Z.land_ones by lia.
    by rewrite (Z.mod_small r) by lia.
  - change 4096 with (2 ^ 12). rewrite <- Z.land_ones, <- Z.land_assoc, Z.land_ones by lia.
    assert (u mod 2 ^ 12 = 0) as ->; [|apply Z.land_0_r].
    unfold u, wrap. replace (Z.lnot (2 ^ k - 1)) with (- 2 ^ (k - 12) * 2 ^ 12).
    + rewrite Z.mod_mod_divide by (by exists (2 ^ 52)). apply Z.mod_mul. lia.
    + replace k with (k - 12 + 12) at 2 by lia. rewrite Z.pow_add_r by lia. unfold Z.lnot. lia.
Qed.

Definition randomised (rand : nat -> Z) (m lower slide : Z) : Prop :=
  exists t : Z, 0 <= t < 0x10000 /\ slide = u64 (Z.land (rand (Z.to_nat t)) (u64 (Z.lnot (m - 1))) + lower).

Lemma choose_slide_spec rand (randomise : bool) m lower base size :
  u64_ok lower ->
  res_post (fun slide : Z => u64_ok slide /\
      if randomise then randomised rand m lower slide /\ FIXED_HIGHER_HALF_OFFSET_64 <= u64 (base + slide + size)
      else slide = lower) any_panic
    (choose_slide rand randomise m lower base size).
Proof.
  intros Hl. unfold choose_slide. destruct randomise; [|done].
  apply (loop_spec _ (fun t : Z => 0 <= t < 0x10000)); [|lia..].
  intros t Ht. unfold turn_ok, kaslr_body. case_if.
  - case_if; [done|]. cbn [res_post]. lia.
  - cbn [res_post]. unfold FIXED_HIGHER_HALF_OFFSET_64. split; [apply wrap_range; lia|]. split; [|lia].
    exists t. split; [lia|done].
Qed.

(** * The ELF loader: what it promises

    For every file, [elf64_load] either panics or returns the image its program
    headers and relocation tables describe; it never reads outside the file or
    writes outside the image.  The ranges it reports give one page one set of
    permissions.  Loading for a later move and copying a section are safe in the
    same sense. *)
(** ** The allocator *)

(** What the loader relies on: a block inside the address space, or a panic. *)
Class ImageAllocator (alloc : Z -> Z -> res Z) : Prop := {
  alloc_block : forall count align, u64_ok count -> page_power align ->
    res_post (fun p => 0 <= p /\ p + count <= 2 ^ 64) any_panic (alloc count align);
}.

(** ** Validation and headers *)
Lemma elf_magic_ok ident : length ident = 16%nat -> exists b, elf_magic ident = Ok b.
Proof.
  intros H. do 16 (destruct ident as [|? ident]; [discriminate H|]). destruct ident; [|discriminate H].
  unfold elf_magic, strncmp. cbn [strn_cmp]. repeat (case_if; cbn [rbind]; eauto).
Qed.

Lemma validate_spec arch_ c hdr :
  hdr_ok hdr -> res_post (fun _ => True) any_panic (validate arch_ c hdr).
Proof.
  intros []. destruct (elf_magic_ok _ ho_ident) as [m Hm].
  destruct (lookup_lt_is_Some_2 (h_ident hdr) 5) as [x5 H5]; [lia|].
  destruct (lookup_lt_is_Some_2 (h_ident hdr) 4) as [x4 H4]; [lia|].
  destruct c; cbn [validate]; unfold elf32_validate, elf64_validate; rewrite Hm; cbn [rbind]; (case_if; [done|]);
    rewrite (rd_lookup _ _ _ H5); cbn [rbind]; (case_if; [done|]);
    rewrite (rd_lookup _ _ _ H4); cbn [rbind]; repeat case_if; done.
Qed.

(** ** What is loaded *)

(** The relocations of the file and where its symbol table is. *)
Definition file_relocations (elf : list Z) (file_size : Z) (hdr : elf_hdr) (symtab syment : Z)
    (rels : list elf64_rela) : Prop :=
  exists d t, read_dynamic elf file_size hdr = Ok (Some d) /\ locate_tables elf file_size hdr d = Ok t /\
    symtab = symtab_offset t /\ syment = d_symtab_ent d /\ rels = relocations elf d t.

Definition elf_header (elf : list Z) : elf_hdr := hdr_of ELF64 (slice elf 0 64).

(** The address of the image before the slide, and its end. *)
Definition image_base (segs : list elf_phdr) : Z :=
  match segs with [] => 0 | s :: _ => page_base s end.

Record loaded_image (arch_ : arch) (elf : list Z) (file_size : Z) (L : loaded) : Prop := {
  li_order : segments elf (elf_header elf) <> [] /\ List.ForallOrdPairs before (segments elf (elf_header elf));
  li_file : Forall (fun s => p_filesz s <= p_memsz s /\ p_offset s + p_filesz s <= file_size)
              (segments elf (elf_header elf));
  li_size : l_image_size L = image_top 0 (segments elf (elf_header elf)) - image_base (segments elf (elf_header elf));
  li_image : exists symtab syment rels, file_relocations elf file_size (elf_header elf) symtab syment rels /\
    image L = image_of elf arch_ symtab syment (l_slide L) rels
                (image_base (segments elf (elf_header elf))) (segments elf (elf_header elf));
  li_bss : exists l, last (segments elf (elf_header elf)) = Some l /\
    image_size_before_bss L = l_image_size L - (p_memsz l - p_filesz l);
  li_physical : 0 <= l_physical_base L /\ l_physical_base L + l_image_size L <= 2 ^ 64;
  li_virtual : l_virtual_base L = u64 (image_base (segments elf (elf_header elf)) + l_slide L);
  li_entry : entry_point L = u64 (h_entry (elf_header elf) + l_slide L);
}.

Record loaded_place (elf : list Z) (rand : nat -> Z) (kaslr want_ranges want_count : bool) (L : loaded) : Prop := {
  lp_slide : u64_ok (l_slide L);
  lp_slide_page : (forall k, 0 <= rand k < 2 ^ 32) -> l_slide L mod 4096 = 0;
  lp_half : forall s, s ∈ segments elf (elf_header elf) -> low s = true -> is_reloc L = true;
  lp_reloc : is_reloc L = true -> elf64_is_relocatable elf (elf_header elf) = Ok true;
  lp_fixed : is_reloc L = false -> l_slide L = 0;
  lp_kaslr : is_reloc L && kaslr = true -> (forall k, 0 <= rand k < 2 ^ 32) -> l_image_size L < 2 ^ 64 - 2 ^ 33 ->
    FIXED_HIGHER_HALF_OFFSET_64 <= l_virtual_base L /\ l_virtual_base L + l_image_size L < 2 ^ 64;
  lp_ends : Forall (fun s => seg_end s + 4095 < 2 ^ 64) (segments elf (elf_header elf));
  lp_pages : want_ranges = true -> List.ForallOrdPairs page_compatible (segments elf (elf_header elf));
  lp_ranges : if want_count && want_ranges
              then exists rs, l_ranges L = Some rs /\
                     Forall2 (range_of (l_slide L)) (segments elf (elf_header elf)) rs
              else l_ranges L = None;
}.

Lemma u64_cases z : 0 <= z < 2 * 2 ^ 64 ->
  (z < 2 ^ 64 /\ u64 z = z) \/ (2 ^ 64 <= z /\ u64 z = z - 2 ^ 64).
Proof.
  intros H. destruct (decide (z < 2 ^ 64)); [left|right]; (split; [lia|]).
  - apply wrap_small. lia.
  - unfold wrap. symmetry. apply (Zmod_unique _ _ 1); lia.
Qed.

(** An accepted random slide leaves the image in the top 2 GiB. *)
Lemma kaslr_top base size lower r slide (is_low : bool) :
  0 <= base -> base + size < 2 ^ 64 -> 0 <= size < 2 ^ 64 - 2 ^ 33 -> 0 <= r < 2 ^ 32 ->
  lower = (if is_low then FIXED_HIGHER_HALF_OFFSET_64 - base else 0) ->
  (if is_low then base < FIXED_HIGHER_HALF_OFFSET_64 else FIXED_HIGHER_HALF_OFFSET_64 <= base) ->
  slide = u64 (r + lower) -> FIXED_HIGHER_HALF_OFFSET_64 <= u64 (base + slide + size) ->
  FIXED_HIGHER_HALF_OFFSET_64 <= u64 (base + slide) /\ u64 (base + slide) + size < 2 ^ 64.
Proof.
  unfold FIXED_HIGHER_HALF_OFFSET_64. intros Hb Hbs Hsz Hr -> Hlow -> Hacc.
  assert (u64 (base + u64 (r + (if is_low then 18446744071562067968 - base else 0)) + size) =
          u64 (u64 (base + (r + (if is_low then 18446744071562067968 - base else 0))) + size)) as E.
  { unfold wrap. rewrite Zplus_mod_idemp_l. rewrite <- (Zplus_mod_idemp_l (base + _ mod _)), Zplus_mod_idemp_r.
    by rewrite Zplus_mod_idemp_l. }
  rewrite E in Hacc. clear E.
  assert (u64 (base + u64 (r + (if is_low then 18446744071562067968 - base else 0))) =
          u64 (base + (r + (if is_low then 18446744071562067968 - base else 0)))) as E.
  { unfold wrap. by rewrite Zplus_mod_idemp_r. }
  rewrite E. clear E. set (v := u64 (base + _)) in *.
  assert (0 <= v < 2 ^ 64) as Hv by (apply wrap_range; lia).
  destruct (u64_cases (base + (r + (if is_low then 18446744071562067968 - base else 0)))) as [[? Ev]|[? Ev]];
    [destruct is_low; lia| |]; fold v in Ev;
    destruct (u64_cases (v + size)) as [[? Es]|[? Es]]; try lia; rewrite Es in Hacc; destruct is_low; lia.
Qed.

Lemma lower_page base (is_low : bool) :
  base mod 4096 = 0 -> (if is_low then FIXED_HIGHER_HALF_OFFSET_64 - base else 0) mod 4096 = 0.
Proof.
  intros H. destruct is_low; [|done]. rewrite Zminus_mod, H. done.
Qed.

Lemma slide_page rand m lower slide (randomise : bool) :
  page_power m -> (forall k, 0 <= rand k < 2 ^ 32) -> lower mod 4096 = 0 ->
  (if randomise then randomised rand m lower slide else slide = lower) -> slide mod 4096 = 0.
Proof.
  intros Hm Hr Hl Hs. destruct randomise; [|by subst]. destruct Hs as (t & _ & ->).
  destruct (mask_multiple (rand (Z.to_nat t)) m Hm (Hr _)) as [_ H].
  revert H. generalize (Z.land (rand (Z.to_nat t)) (u64 (Z.lnot (m - 1)))). intros x H.
  unfold wrap. rewrite Z.mod_mod_divide by (by exists (2 ^ 52)). by rewrite Zplus_mod, H, Hl.
Qed.

(** The base of a segment's page is in the segment's half. *)
Lemma base_half s :
  if low s then image_base [s] < FIXED_HIGHER_HALF_OFFSET_64 else FIXED_HIGHER_HALF_OFFSET_64 <= image_base [s].
Proof.
  pose proof (page_base_spec s) as [Hp _]. unfold low, FIXED_HIGHER_HALF_OFFSET_64. cbn [image_base].
  case_if; [lia|]. unfold page_base, align_down.
  apply (Z.div_le_mono 18446744071562067968 (p_vaddr s) 4096) in Hb; [|lia].
  change (18446744071562067968 / 4096) with 4503599626846208 in Hb. lia.
Qed.

Section Load.
Variables (arch_ : arch) (size_bits : Z) (elf : list Z) (file_size : Z).
Hypothesis elf_bytes : Forall is_byte elf.
Hypothesis elf_size : Z.of_nat (length elf) = file_size.
Hypothesis small_file : file_size < 2 ^ 31.

Let hdr := elf_header elf.
Let segs := segments elf hdr.

(** What the extents say once there is a segment. *)
Lemma extent_facts is_reloc want x :
  extent_inv is_reloc want segs x -> min_vaddr x <> UINT64_MAX ->
  exists s l rest, segs = s :: rest /\ last segs = Some l /\
    min_vaddr x = p_vaddr s /\ max_vaddr x = seg_end l /\ lower_to_higher x = low s /\
    ALIGN_DOWN (min_vaddr x) 4096 = image_base segs /\ 0 <= image_base segs <= p_vaddr s /\
    p_vaddr s < seg_end l /\ seg_end l + 4095 < 2 ^ 64 /\
    forall p, p ∈ segs -> image_base segs <= p_vaddr p /\ seg_end p <= seg_end l.
Proof.
  intros [Hord Hends Hhalf [Hlo Hhi] Hpg Hfirst Hlast] Hmin. pose proof (segments_ok elf elf_bytes hdr) as Hok.
  fold segs in Hok. destruct segs as [|s rest] eqn:Es; [done|].
  destruct (last (s :: rest)) as [l|] eqn:El; [|by apply last_None in El].
  destruct Hlast as (_ & Hmax & _ & _). pose proof (last_Some_elem_of _ _ El) as Hl.
  pose proof (page_base_spec s) as [Hpb _]. pose proof (proj1 (Forall_forall _ _) Hok) as Hok'. cbn beta in Hok'.
  assert (forall p, p ∈ s :: rest -> p_vaddr s <= p_vaddr p /\ 0 < p_memsz p) as Hfirst_least.
  { intros p Hp. destruct (Hok' p Hp) as [[] Hlp]. apply loadable_spec in Hlp as [_ Hm]. unfold u64_ok in *.
    split; [|lia]. apply elem_of_cons in Hp as [->|Hp]; [lia|]. inversion_clear Hord as [|? ? Hb _].
    rewrite Forall_forall in Hb. specialize (Hb p Hp). unfold before, seg_end in Hb.
    destruct (Hok' s (list_elem_of_here _ _)) as [[] _]. unfold u64_ok in *. lia. }
  assert (0 <= p_vaddr s) as Hs0.
  { destruct (Hok' s (list_elem_of_here _ _)) as [[] _]. unfold u64_ok in *. lia. }
  exists s, l, rest. cbn [image_base].
  split_and!; auto; try lia.
  - symmetry. apply (proj1 (Hhalf s (list_elem_of_here _ _))).
  - by rewrite Hfirst.
  - unfold page_base. apply align_down_nonneg; lia.
  - destruct (Hfirst_least l Hl). unfold seg_end. lia.
  - rewrite Forall_forall in Hends. by apply Hends.
  - intros p Hp. split; [destruct (Hfirst_least p Hp); lia|].
    destruct (last_pair before (s :: rest) p l Hord El Hp) as [->|Hb]; [lia|].
    destruct (Hfirst_least l Hl). unfold before, seg_end in *. lia.
Qed.

Variables (alloc : Z -> Z -> res Z) (rand : nat -> Z).
Context `{!ImageAllocator alloc}.
Hypothesis has_header : 64 <= file_size.

Lemma elf_header_ok : header elf ELF64 = Ok hdr /\ hdr_ok hdr.
Proof. destruct (header_ok elf file_size elf_bytes elf_size ELF64 has_header) as (h & -> & Hh & ->). done. Qed.

(** Where the image goes: slide, halves, ranges. *)
Lemma tail_place is_reloc0 max_align x (kaslr want_ranges want_count : bool) s rest l lower slide entry ranges phys before_bss img :
  page_power max_align ->
  (exists r, elf64_is_relocatable elf hdr = Ok r /\ (is_reloc0 = true -> r = true)) ->
  extent_inv is_reloc0 want_ranges segs x -> segs = s :: rest ->
  0 <= image_base segs <= p_vaddr s -> p_vaddr s < seg_end l -> seg_end l + 4095 < 2 ^ 64 ->
  lower = (if low s then FIXED_HIGHER_HALF_OFFSET_64 - image_base segs else 0) -> u64_ok slide ->
  (if is_reloc0 && kaslr
   then randomised rand max_align lower slide /\
        FIXED_HIGHER_HALF_OFFSET_64 <= u64 (image_base segs + slide + (seg_end l - image_base segs))
   else slide = lower) ->
  (if want_count && want_ranges
   then exists rs, ranges = Some rs /\ Forall2 (range_of slide) segs rs else ranges = None) ->
  loaded_place elf rand kaslr want_ranges want_count
    (MkLoaded entry slide ranges phys (u64 (image_base segs + slide)) (seg_end l - image_base segs) before_bss is_reloc0 img).
Proof.
  intros Hpow (r & Hrel & Hrel') Hext Hsegs Hbase Hsl Hend Hlower Hslide Hrand Hranges.
  constructor; cbn [l_slide is_reloc l_image_size l_virtual_base l_ranges]; fold hdr segs; auto.
  - intros Hr. apply (slide_page rand max_align lower slide (is_reloc0 && kaslr)); auto.
    + rewrite Hlower. apply lower_page. rewrite Hsegs. apply page_base_spec.
    + destruct (is_reloc0 && kaslr); [apply Hrand|done].
  - intros p Hp. apply (ei_half _ _ _ _ Hext p Hp).
  - intros Hr. by rewrite (Hrel' Hr) in Hrel.
  - intros ->. rewrite Hrand, Hlower. destruct (low s) eqn:Els; [|done].
    assert (s ∈ segs) as Hs by (rewrite Hsegs; apply list_elem_of_here).
    by pose proof (proj2 (ei_half _ _ _ _ Hext s Hs) Els).
  - intros Hk Hr Hsz. rewrite Hk in Hrand. destruct Hrand as [(k & _ & Hk') Hacc].
    pose proof (proj1 (mask_multiple (rand (Z.to_nat k)) max_align Hpow (Hr _))) as Hmask.
    apply (kaslr_top (image_base segs) (seg_end l - image_base segs) lower _ slide (low s)
      ltac:(lia) ltac:(lia) ltac:(lia) Hmask Hlower); [|done|done].
    rewrite Hsegs. apply base_half.
  - apply Hext.
  - apply Hext.
Qed.

(** The image from the extents on: placing the segments. *)
Lemma load_tail is_reloc0 max_align x (kaslr want_ranges want_count : bool) :
  table_in file_size ELF64 hdr -> page_power max_align ->
  (exists r, elf64_is_relocatable elf hdr = Ok r /\ (is_reloc0 = true -> r = true)) ->
  extent_inv is_reloc0 want_ranges segs x -> min_vaddr x <> UINT64_MAX ->
  res_post (fun L => loaded_image arch_ elf file_size L /\ loaded_place elf rand kaslr want_ranges want_count L)
    any_panic
    (let min_vaddr := ALIGN_DOWN (min_vaddr x) 4096 in
     let lower := if lower_to_higher x then u64 (FIXED_HIGHER_HALF_OFFSET_64 - min_vaddr) else 0 in
     let image_size := u64 (max_vaddr x - min_vaddr) in
     let! physical_base := alloc image_size max_align in
     let virtual_base := min_vaddr in
     let! slide := choose_slide rand (is_reloc0 && kaslr) max_align lower virtual_base image_size in
     let! st := elf64_prepare_relocations size_bits elf file_size hdr in
     match st with
     | None => Panic "elf: Failed to apply relocations"
     | Some st =>
         let! (image, bss_size) :=
           to_end (over_phdrs elf ELF64 true hdr
             (place_body arch_ elf file_size st physical_base virtual_base (max_vaddr x) slide)
             (replicate (Z.to_nat image_size) 0, 0)) in
         let! ranges :=
           (if want_count && want_ranges then
              let! ranges := elf64_get_ranges elf hdr slide in Ok (Some ranges)
            else Ok None) in
         Ok (MkLoaded (u64 (h_entry hdr + slide)) slide ranges physical_base
               (u64 (virtual_base + slide)) image_size (u64 (image_size - bss_size)) is_reloc0 image)
     end).
Proof.
  intros Htab Hpow (r & Hrel & Hrel') Hext Hmin. cbn zeta. destruct elf_header_ok as [_ Hhdr].
  destruct (extent_facts _ _ _ Hext Hmin) as (s & l & rest & Hsegs & Hlast & _ & Hmax & Hlow & -> & Hbase & Hsl & Hend & Hin).
  set (base := image_base segs) in *. rewrite Hmax, Hlow.
  rewrite (wrap_small 64 (seg_end l - base)) by lia. set (size := seg_end l - base) in *.
  set (lower := if low s then u64 _ else 0).
  assert (lower = if low s then FIXED_HIGHER_HALF_OFFSET_64 - base else 0) as Hlower.
  { unfold lower, low. case_if; [|done]. unfold FIXED_HIGHER_HALF_OFFSET_64 in *. rewrite wrap_small; lia. }
  assert (u64_ok lower) as Hlo_ok.
  { unfold lower, u64_ok. destruct (low s); [apply wrap_range; lia|lia]. }
  eapply bind_any; [apply alloc_block; [unfold u64_ok; lia|done]|]. intros phys [Hp1 Hp2].
  eapply bind_any; [by apply choose_slide_spec|]. intros slide [Hslide Hrand].
  eapply bind_any; [by apply prepare_spec|]. intros [st|] Hst; [|done].
  destruct (Hst st eq_refl) as [rels Hprep]. clear Hst.
  destruct Hprep as [(d & t & Hrd & Hlt & Hrels & Hst1 & Hst2 & _) Hpts Hrok Hsym Hent].
  eapply bind_any.
  { apply (place_spec elf file_size elf_bytes elf_size small_file hdr Hhdr Htab arch_
      (st_symtab_offset st) (st_symtab_ent st) slide rels st); auto; try lia; apply Hext. }
  intros [img bss] (Hby & Hfile & Hlen & Himg & Hbss). cbn [fst snd] in *.
  fold segs in Hfile, Himg, Hlen, Hbss.
  assert (image_top base segs = seg_end l /\ image_top 0 segs = seg_end l) as [Htop Htop0]
    by (unfold image_top; by rewrite Hlast).
  rewrite Htop in Himg, Hlen. replace (size - (seg_end l - base)) with 0 in Himg by lia.
  cbn [Z.to_nat replicate] in Himg. rewrite app_nil_r in Himg.
  assert (bss = p_memsz l - p_filesz l) as Hbss'.
  { rewrite Hbss. unfold bss_of. rewrite Hlast, Z.eqb_refl. done. }
  assert (0 <= p_filesz l <= p_memsz l /\ p_memsz l <= size) as Hlm.
  { pose proof (last_Some_elem_of _ _ Hlast) as Hl. pose proof (proj1 (Forall_forall _ _) Hfile l Hl) as [Hf _].
    pose proof (proj1 (Forall_forall _ _) (segments_ok elf elf_bytes hdr) l Hl) as [[] _].
    pose proof (proj1 (Hin l Hl)). unfold u64_ok, size, seg_end in *. lia. }
  eapply bind_any with (Q := fun o => if want_count && want_ranges
    then exists rs, o = Some rs /\ Forall2 (range_of slide) segs rs else o = None).
  { destruct (want_count && want_ranges); [|done]. eapply bind_any.
    - apply (get_ranges_spec elf file_size elf_bytes elf_size small_file hdr Hhdr Htab slide r Hrel).
      intros p Hp Hlp. apply Hrel'. by apply (proj2 (ei_half _ _ _ _ Hext p Hp)).
    - intros rs Hrs. exists rs. done. }
  intros ranges Hranges. cbn [res_post]. split.
  - constructor; cbn [l_image_size image l_slide image_size_before_bss l_physical_base l_virtual_base entry_point];
      fold hdr segs base.
    + split; [by rewrite Hsegs|apply Hext].
    + done.
    + by rewrite Htop0.
    + exists (st_symtab_offset st), (st_symtab_ent st), rels. split; [|done]. exists d, t. auto.
    + exists l. split; [done|]. rewrite Hbss', wrap_small by lia. done.
    + lia.
    + done.
    + done.
  - by apply (tail_place is_reloc0 max_align x kaslr want_ranges want_count s rest l lower); auto; exists r.
Qed.

Lemma elf64_load_spec kaslr want_ranges want_count want_reloc :
  res_post (fun L => loaded_image arch_ elf file_size L /\ loaded_place elf rand kaslr want_ranges want_count L)
    any_panic (elf64_load arch_ size_bits elf file_size alloc rand kaslr want_ranges want_count want_reloc).
Proof.
  destruct elf_header_ok as [Hh Hhdr]. unfold elf64_load. rewrite Hh. cbn [rbind].
  eapply bind_any; [by apply (validate_spec arch_ ELF64)|]. intros ok _. case_if; [done|].
  eapply bind_any; [apply phdr_size_check_spec|]. intros [] Hsz.
  destruct (CHECKED_MUL _ _) as [m|] eqn:E1; [|done]. apply checked_mul_Some in E1 as [-> _].
  destruct (CHECKED_ADD _ _) as [e|] eqn:E2; [|done]. apply checked_add_Some in E2 as [-> _].
  case_if; [done|]. assert (table_in file_size ELF64 hdr) as Htab by (constructor; [done|lia]).
  eapply bind_eq; [by eapply is_relocatable_spec|]. intros r Hrel _.
  eapply bind_any; [by eapply elf64_max_align_spec|]. intros max_align Hpow.
  eapply bind_any; [by apply (extents_spec elf file_size elf_bytes elf_size small_file hdr Hhdr Htab)|].
  intros x Hext. case_if; [done|]. apply load_tail; auto. exists r. split; [done|].
  intros Hr. apply andb_true_iff in Hr. apply Hr.
Qed.
End Load.
