(* ===== verification/ElfElsewhere.v ===== *)
(** * Loading for a later move, sections and section tables

    [elf32_load_elsewhere] and [elf64_load_elsewhere] collect the segments at
    their physical addresses in a buffer; [elf64_load_section] copies and
    relocates the first section of a name. *)

From S2P Require Import Prelude CInt Libc LibcProps Gpt Elf ElfLoad ElfFacts ElfPatch ElfProps.

(** ** What is copied where *)

(** The segment's file bytes cover the physical address [a]. *)
Definition covers (a : Z) (s : elf_phdr) : bool := (p_paddr s <=? a) && (a <? p_paddr s + p_filesz s).

(** The byte at [a]: of the last segment in the table that covers it. *)
Definition byte_at (elf : list Z) (segs : list elf_phdr) (a : Z) : Z :=
  match last (filter (fun s => covers a s = true) segs) with
  | Some s => nth (Z.to_nat (p_offset s + (a - p_paddr s))) elf 0
  | None => 0
  end.

Definition bytes_from (elf : list Z) (segs : list elf_phdr) (base : Z) (n : nat) : list Z :=
  map (fun i => byte_at elf segs (base + Z.of_nat i)) (seq 0 n).

(** The entry point, moved with the first segment whose addresses hold it. *)
Definition holds_entry (w entry : Z) (s : elf_phdr) : bool :=
  (p_vaddr s <=? entry) && (entry <? p_vaddr s + p_memsz s) && (p_vaddr s + p_memsz s <? 2 ^ w).

Definition moved_entry (w entry : Z) (segs : list elf_phdr) : Z :=
  match List.find (holds_entry w entry) segs with
  | Some s => u64 (entry - p_vaddr s + p_paddr s)
  | None => entry
  end.

Definition min_paddr (segs : list elf_phdr) : Z := foldl (fun m s => Z.min m (p_paddr s)) UINT64_MAX segs.
Definition max_ptop (segs : list elf_phdr) : Z := foldl (fun m s => Z.max m (p_paddr s + p_memsz s)) 0 segs.

Lemma min_paddr_le segs s : s ∈ segs -> min_paddr segs <= p_paddr s.
Proof.
  unfold min_paddr. induction segs as [|x segs IH] using rev_ind; intros Hs; [by apply not_elem_of_nil in Hs|].
  rewrite foldl_app. simpl. apply elem_of_app in Hs as [Hs|Hs%list_elem_of_singleton]; [specialize (IH Hs)|subst]; lia.
Qed.

Lemma max_ptop_ge segs s : s ∈ segs -> p_paddr s + p_memsz s <= max_ptop segs.
Proof.
  unfold max_ptop. induction segs as [|x segs IH] using rev_ind; intros Hs; [by apply not_elem_of_nil in Hs|].
  rewrite foldl_app. simpl. apply elem_of_app in Hs as [Hs|Hs%list_elem_of_singleton]; [specialize (IH Hs)|subst]; lia.
Qed.

Lemma min_paddr_snoc segs s : min_paddr (segs ++ [s]) = Z.min (min_paddr segs) (p_paddr s).
Proof. unfold min_paddr. by rewrite foldl_app. Qed.

Lemma max_ptop_snoc segs s : max_ptop (segs ++ [s]) = Z.max (max_ptop segs) (p_paddr s + p_memsz s).
Proof. unfold max_ptop. by rewrite foldl_app. Qed.

Lemma paddr_bounds segs :
  segs <> [] -> Forall (fun s => 0 <= p_paddr s /\ 0 <= p_memsz s /\ p_paddr s + p_memsz s < 2 ^ 64) segs ->
  0 <= min_paddr segs <= max_ptop segs /\ max_ptop segs < 2 ^ 64.
Proof.
  intros Hne Hf. assert (0 <= min_paddr segs /\ max_ptop segs < 2 ^ 64) as [H1 H2].
  { clear Hne. induction segs as [|x segs IH] using rev_ind; [split; done|].
    apply Forall_app in Hf as [Hf Hx]. apply Forall_cons in Hx as [Hx _]. specialize (IH Hf).
    rewrite min_paddr_snoc, max_ptop_snoc. lia. }
  destruct segs as [|s segs]; [done|]. apply Forall_cons in Hf as [Hs _].
  pose proof (min_paddr_le (s :: segs) s (list_elem_of_here _ _)).
  pose proof (max_ptop_ge (s :: segs) s (list_elem_of_here _ _)). lia.
Qed.

Lemma moved_entry_snoc w entry segs s :
  moved_entry w entry (segs ++ [s]) =
  if existsb (holds_entry w entry) segs then moved_entry w entry segs
  else if holds_entry w entry s then u64 (entry - p_vaddr s + p_paddr s) else entry.
Proof.
  unfold moved_entry. induction segs as [|x segs IH]; simpl; [by destruct (holds_entry w entry s)|].
  destruct (holds_entry w entry x); [done|]. cbn [orb]. apply IH.
Qed.

Lemma moved_entry_none w entry segs : existsb (holds_entry w entry) segs = false -> moved_entry w entry segs = entry.
Proof.
  unfold moved_entry. induction segs as [|x segs IH]; simpl; [done|].
  destruct (holds_entry w entry x); [done|]. apply IH.
Qed.

Lemma bytes_from_nil elf base n : bytes_from elf [] base n = replicate n 0.
Proof.
  apply list_eq. intros i. unfold bytes_from. rewrite list_lookup_fmap. destruct (decide (i < n)%nat).
  - rewrite lookup_seq_lt, lookup_replicate_2 by done. done.
  - rewrite !lookup_ge_None_2; [done|rewrite length_replicate; lia|rewrite length_seq; lia].
Qed.

(** Copying one more segment. *)
Lemma bytes_from_snoc elf segs s base n :
  base <= p_paddr s -> 0 <= p_filesz s -> p_paddr s + p_filesz s <= base + Z.of_nat n ->
  0 <= p_offset s -> p_offset s + p_filesz s <= Z.of_nat (length elf) ->
  buf_write (bytes_from elf segs base n) (Z.to_nat (p_paddr s - base)) (slice elf (p_offset s) (p_filesz s))
  = bytes_from elf (segs ++ [s]) base n.
Proof.
  intros Hb Hf Hn Ho He. set (sl := slice _ _ _).
  assert (length sl = Z.to_nat (p_filesz s)) as Hsl by (by apply (length_slice elf (Z.of_nat (length elf)))).
  assert (length (bytes_from elf segs base n) = n) as Hl by (unfold bytes_from; by rewrite length_map, length_seq).
  apply list_eq. intros i. unfold bytes_from at 2. rewrite list_lookup_fmap.
  destruct (decide (i < n)%nat) as [Hi|Hi].
  2: { rewrite !lookup_ge_None_2; [done|rewrite length_seq; lia|rewrite length_buf_write; lia]. }
  rewrite lookup_seq_lt by done. simpl. unfold byte_at. rewrite filter_app, filter_cons, filter_nil.
  destruct (covers (base + Z.of_nat i) s) eqn:Ec; unfold covers in Ec; bool_cases.
  - rewrite decide_True by done. rewrite last_snoc. unfold buf_write.
    rewrite lookup_app_r by (rewrite length_take; lia). rewrite length_take, Hl, Nat.min_l by lia.
    rewrite lookup_app_l by lia. unfold sl, slice. rewrite lookup_take_lt, lookup_drop by lia.
    replace (Z.to_nat (p_offset s) + (i - Z.to_nat (p_paddr s - base)))%nat
      with (Z.to_nat (p_offset s + (base + Z.of_nat i - p_paddr s))) by lia.
    destruct (nth_lookup_or_length elf (Z.to_nat (p_offset s + (base + Z.of_nat i - p_paddr s))) 0); [done|lia].
  - rewrite decide_False by done. rewrite app_nil_r. rewrite lookup_buf_write_ne by lia.
    unfold bytes_from. rewrite list_lookup_fmap, lookup_seq_lt by done. done.
  - rewrite decide_False by done. rewrite app_nil_r. rewrite lookup_buf_write_ne by lia.
    unfold bytes_from. rewrite list_lookup_fmap, lookup_seq_lt by done. done.
Qed.

Section Elsewhere.
Variables (arch_ : arch) (size_bits : Z) (elf : list Z) (file_size : Z).
Hypothesis elf_bytes : Forall is_byte elf.
Hypothesis elf_size : Z.of_nat (length elf) = file_size.
Hypothesis small_file : file_size < 2 ^ 31.

(** The loadable segments of a file of either class. *)
Definition loadables (c : elf_class) (hdr : elf_hdr) : list elf_phdr :=
  filter (fun p => loadable p = true) (phdrs elf c hdr).

Section Loops.
Variables (c : elf_class) (hdr : elf_hdr).
Hypothesis hdr_fine : hdr_ok hdr.
Hypothesis table_fine : table_in file_size c hdr.

Lemma loadables_loop {T R} (I : list elf_phdr -> T -> Prop) (body : elf_phdr -> T -> res (T + R)) s :
  (forall p s, loadable p = false -> body p s = Ok (inl s)) ->
  (forall d x r s, loadables c hdr = d ++ x :: r -> phdr_ok x -> loadable x = true -> x ∈ loadables c hdr -> I d s ->
     res_post (loop_post (I (d ++ [x])) (fun _ => False)) any_panic (body x s)) ->
  I [] s -> res_post (I (loadables c hdr)) any_panic (to_end (over_phdrs elf c true hdr body s)).
Proof.
  intros Hskip Hb Hs. rewrite (over_phdrs_list elf file_size elf_size small_file c hdr hdr_fine table_fine).
  rewrite (list_loop_filter loadable) by done. apply loop_end; [|done]. intros d x r s' Hl Hi.
  assert (x ∈ loadables c hdr) as Hx by (unfold loadables; rewrite Hl; apply elem_of_app; right; apply list_elem_of_here).
  pose proof Hx as [Hlx Hxp]%list_elem_of_filter.
  apply (Hb d x r); auto. eapply Forall_forall; [by apply phdrs_ok|]; done.
Qed.

Definition paddr_inv (ds : list elf_phdr) (s : Z * Z * bool) : Prop :=
  s = (min_paddr ds, max_ptop ds, negb (bool_decide (ds = []))) /\
  Forall (fun p => p_paddr p + p_memsz p < 2 ^ 64) ds.

Lemma paddr_spec :
  res_post (paddr_inv (loadables c hdr)) any_panic
    (to_end (over_phdrs elf c true hdr paddr_body (UINT64_MAX, 0, false))).
Proof.
  apply loadables_loop; [| |by split].
  - intros p [[mn mx] h] Hp. unfold paddr_body. by rewrite Hp.
  - intros d x r s _ [] Hlx _ [-> Hf]. unfold paddr_body. rewrite Hlx. cbn [negb].
    destruct (CHECKED_ADD _ _) as [top|] eqn:E; [|done]. apply checked_add_Some in E as [-> E].
    cbn [res_post loop_post]. split.
    + rewrite min_paddr_snoc, max_ptop_snoc. f_equal; [f_equal; case_if; lia|].
      destruct d; done.
    + apply Forall_app. split; [done|by constructor].
Qed.

Definition else_inv (base : Z) (n : nat) (entry : Z) (ds : list elf_phdr) (s : list Z * Z * bool) : Prop :=
  s = (bytes_from elf ds base n, moved_entry (width c) entry ds, existsb (holds_entry (width c) entry) ds).

Lemma else_step base n entry ds s x :
  phdr_ok s -> loadable s = true -> base <= p_paddr s -> p_paddr s + p_memsz s <= base + Z.of_nat n ->
  else_inv base n entry ds x ->
  res_post (loop_post (else_inv base n entry (ds ++ [s])) (fun _ => False)) any_panic
    (elsewhere_body elf file_size c base s x).
Proof.
  intros [] Hload Hb Hn ->. unfold u64_ok in *. unfold elsewhere_body. rewrite Hload. cbn [negb]. case_if; [done|].
  destruct (CHECKED_ADD _ _) as [e|] eqn:E; [|done]. apply checked_add_Some in E as [-> E]. case_if; [done|].
  assert (copy_file elf (bytes_from elf ds base n) (p_paddr s - base) (p_offset s) (p_filesz s)
          = Ok (bytes_from elf (ds ++ [s]) base n)) as ->.
  { unfold copy_file. rewrite (object_ok elf file_size) by (done || lia). cbn [rbind].
    assert (length (bytes_from elf ds base n) = n) as -> by (unfold bytes_from; by rewrite length_map, length_seq).
    rewrite (proj2 (Z.leb_le 0 _)), (proj2 (Z.leb_le _ _)) by lia. cbn [andb].
    rewrite bytes_from_snoc by lia. done. }
  cbn [rbind]. unfold else_inv. rewrite moved_entry_snoc, existsb_snoc.
  destruct (existsb _ ds) eqn:Ex; cbn [negb andb orb]; [done|]. rewrite (moved_entry_none _ _ _ Ex).
  unfold holds_entry. destruct (p_vaddr s <=? entry); cbn [andb]; [|done].
  unfold checked_add. destruct (p_vaddr s + p_memsz s <? 2 ^ width c); [|by rewrite andb_false_r].
  rewrite andb_true_r. by destruct (entry <? _).
Qed.

Lemma elsewhere_spec base n entry :
  (forall s, s ∈ loadables c hdr -> base <= p_paddr s /\ p_paddr s + p_memsz s <= base + Z.of_nat n) ->
  res_post (else_inv base n entry (loadables c hdr)) any_panic
    (to_end (over_phdrs elf c true hdr (elsewhere_body elf file_size c base) (replicate n 0, entry, false))).
Proof.
  intros Hin. apply loadables_loop.
  - intros p [[b e] a] Hp. unfold elsewhere_body. by rewrite Hp.
  - intros d x r s _ Hx Hlx Hin' Hi. apply else_step; auto; by apply Hin.
  - unfold else_inv. by rewrite bytes_from_nil.
Qed.
End Loops.

(** What [load_elsewhere] returns. *)
Definition else_header (c : elf_class) : elf_hdr := hdr_of c (slice elf 0 (sizeof_hdr c)).

Definition loaded_elsewhere (c : elf_class) (max_image_size : Z) (r : Z * elsewhere_range) : Prop :=
  let segs := loadables c (else_header c) in
  segs <> [] /\ target r.2 = min_paddr segs /\ e_length r.2 = max_ptop segs - min_paddr segs /\
  e_length r.2 <= max_image_size /\ Z.of_nat (length (elsewhere r.2)) = e_length r.2 /\
  elsewhere r.2 = bytes_from elf segs (target r.2) (length (elsewhere r.2)) /\
  r.1 = moved_entry (width c) (h_entry (else_header c)) segs.

Lemma load_elsewhere_spec c max_image_size :
  sizeof_hdr c <= file_size ->
  res_post (loaded_elsewhere c max_image_size) any_panic
    (load_elsewhere arch_ size_bits elf file_size c max_image_size).
Proof.
  intros Hsz. destruct (header_ok elf file_size elf_bytes elf_size c Hsz) as (h & Hh & Hok & Heq).
  unfold load_elsewhere. rewrite Hh. cbn [rbind]. fold (else_header c) in Heq. subst h.
  set (hdr := else_header c) in *. eapply bind_any; [by apply validate_spec|]. intros ok _. case_if; [done|].
  eapply bind_any; [apply phdr_size_check_spec|]. intros [] Hps. cbn zeta. pose proof Hok as [].
  rewrite (wrap_small 64 (_ * _)) by nia. case_if; [done|].
  assert (table_in file_size c hdr) as Htab by (constructor; [done|lia]).
  eapply bind_any; [by apply paddr_spec|]. intros [[mn mx] has] [[= -> -> ->] Hf].
  destruct (decide (loadables c hdr = [])) as [E|Hne]; [by rewrite bool_decide_true|].
  rewrite bool_decide_false by done. cbn [negb].
  destruct (paddr_bounds (loadables c hdr) Hne) as [Hmm Hmx].
  { apply Forall_forall. intros p Hp. rewrite Forall_forall in Hf. specialize (Hf p Hp).
    apply list_elem_of_filter in Hp as [_ Hp].
    pose proof (proj1 (Forall_forall _ _) (phdrs_ok elf elf_bytes c hdr) p Hp) as []. unfold u64_ok in *. lia. }
  rewrite (wrap_small 64 (_ - _)) by lia. case_if; [done|]. case_if; [done|].
  eapply bind_any; [apply elsewhere_spec; try done|].
  - intros s Hs. split; [by apply min_paddr_le|]. pose proof (max_ptop_ge _ s Hs). lia.
  - intros [[b e] a] [= -> -> ->]. unfold loaded_elsewhere. fold hdr. cbn [res_post fst snd target e_length elsewhere].
    assert (forall n, length (bytes_from elf (loadables c hdr) (min_paddr (loadables c hdr)) n) = n) as Hl
      by (intros n; unfold bytes_from; by rewrite length_map, length_seq).
    rewrite Hl. split_and!; auto; lia.
Qed.
End Elsewhere.

(** * Section tables and copying a section

    [elf64_load_section] finds the section of a name and leaves its relocated
    bytes in the buffer; the section table it and the boot protocols walk lies
    in the file. *)
Lemma memchr_nul n : forall p,
  (n <= length p)%nat -> Forall is_byte p ->
  exists o, memchr p 0 n = Ok o /\
    (o <> None -> exists l t, p = l ++ 0 :: t /\ Forall (fun c => 0 < c) l).
Proof.
  induction n as [|n IH]; intros [|c p] Hn Hb; simpl in *; try lia; eauto.
  - exists None. done.
  - exists None. done.
  - apply Forall_cons in Hb as [Hc Hb]. destruct (c =? 0) eqn:E; bool_hyps.
    + subst c. exists (Some 0%nat). split; [done|]. intros _. by exists [], p.
    + destruct (IH p ltac:(lia) Hb) as (o & -> & Ho). exists (S <$> o). split; [done|].
      intros Hne. destruct o as [k|]; [|done]. destruct Ho as (l & t & -> & Hl); [done|].
      exists (c :: l), t. split; [done|]. constructor; [unfold is_byte in Hc; lia|done].
Qed.

Section Sections.
Variables (arch_ : arch) (size_bits : Z) (elf : list Z) (file_size : Z).
Hypothesis elf_bytes : Forall is_byte elf.
Hypothesis elf_size : Z.of_nat (length elf) = file_size.
Hypothesis small_file : file_size < 2 ^ 31.

Lemma section_numbering_spec c hdr :
  hdr_ok hdr ->
  res_post (fun o => forall n i, o = Some (n, i) -> 0 <= n < 2 ^ 32 /\ 0 <= i < 2 ^ 32) any_panic
    (section_numbering elf file_size c hdr).
Proof.
  intros []. unfold u64_ok in *. unfold section_numbering. case_if; [cbn; intros n i [= <- <-]; lia|].
  case_if; [done|]. rewrite (object_ok elf file_size) by (done || lia). cbn [rbind].
  pose proof (shdr_of_ok c (slice elf (h_shoff hdr) (sizeof_shdr c)) (slice_bytes elf elf_bytes _ _)) as [].
  unfold u64_ok, UINT32_MAX in *. case_if; [done|]. cbn. intros n i [= <- <-].
  split; [|case_if; lia]. destruct (h_sh_num hdr =? 0); bool_cases; lia.
Qed.

(** The table described by a header information lies in the file. *)
Lemma section_hdr_info_spec c :
  sizeof_hdr c <= file_size ->
  res_post (fun '(num, entry_size, _, offset) => 0 <= num /\ 0 <= entry_size /\ 0 <= offset /\
              offset + num * entry_size <= file_size) any_panic
    (section_hdr_info arch_ elf file_size c).
Proof.
  intros Hsz. destruct (header_ok elf file_size elf_bytes elf_size c Hsz) as (hdr & Hh & Hok & _).
  unfold section_hdr_info. rewrite Hh. cbn [rbind]. eapply bind_any; [by apply validate_spec|]. intros _ _.
  eapply bind_any; [destruct c; by apply section_numbering_spec|]. destruct Hok. unfold u64_ok in *.
  assert (0 <= file_size) by lia. intros [[n i]|] Hn; [|cbn; lia].
  destruct (Hn n i eq_refl) as [H1 H2]. rewrite (wrap_small 64 (_ * _)) by nia.
  destruct (CHECKED_ADD _ _) as [e|] eqn:E; [|cbn; lia]. apply checked_add_Some in E as [-> _].
  case_if; cbn; lia.
Qed.

Lemma elf_bits_spec :
  exists b, elf_bits elf file_size = Ok b /\ (b = -1 \/ b = 32 \/ b = 64).
Proof.
  unfold elf_bits. case_if; [eauto|].
  destruct (header_ok elf file_size elf_bytes elf_size ELF64) as (hdr & -> & [] & _); [done|]. cbn [rbind].
  destruct (elf_magic_ok _ ho_ident) as [m ->]. cbn [rbind].
  destruct (lookup_lt_is_Some_2 (h_ident hdr) 4) as [x4 H4]; [lia|]. rewrite (rd_lookup _ _ _ H4). cbn [rbind].
  repeat (case_if; eauto).
Qed.

(** ** Copying a section *)
Definition section_at (hdr : elf_hdr) (i : Z) : elf_shdr :=
  shdr_of ELF64 (slice elf (h_shoff hdr + i * h_shdr_size hdr) (sizeof_shdr ELF64)).

(** The name of a section, which is terminated in the file. *)
Definition section_named (strtab : elf_shdr) (s : elf_shdr) (name : list Z) : Prop :=
  exists t, drop (Z.to_nat (sh_offset strtab + sh_name s)) elf = name ++ 0 :: t.

(** The buffer after a section was copied into it and relocated. *)
Definition section_loaded (hdr : elf_hdr) (name buffer : list Z) (limit slide : Z) (r : list Z) : Prop :=
  exists i j symtab syment rels,
    let s := section_at hdr i in
    section_named (section_at hdr j) s name /\ file_relocations elf file_size hdr symtab syment rels /\
    sh_offset s + sh_size s <= file_size /\
    r = patched arch_ elf symtab syment slide (sh_addr s) (slice elf (sh_offset s) (sh_size s)) rels
        ++ drop (Z.to_nat (sh_size s)) (if limit =? 0 then [] else buffer).

Lemma load_found_spec hdr s buffer limit slide :
  hdr_ok hdr -> shdr_ok s -> Forall is_byte buffer -> u64_ok slide -> 0 <= limit <= Z.of_nat (length buffer) ->
  res_post (fun r => r.1 = true -> exists symtab syment rels,
      file_relocations elf file_size hdr symtab syment rels /\ sh_offset s + sh_size s <= file_size /\
      r.2 = patched arch_ elf symtab syment slide (sh_addr s) (slice elf (sh_offset s) (sh_size s)) rels
            ++ drop (Z.to_nat (sh_size s)) (if limit =? 0 then [] else buffer)) any_panic
    (load_found arch_ size_bits elf file_size hdr s buffer limit slide).
Proof.
  intros Hh [] Hbuf Hslide Hlim. unfold u64_ok in so_addr, so_offset, so_size. unfold load_found.
  destruct ((file_size <=? _) || _) eqn:Hb; [done|]. bool_hyps.
  set (buf := if limit =? 0 then replicate (Z.to_nat (sh_size s)) 0 else buffer).
  set (lim := if limit =? 0 then sh_size s else limit).
  replace (if limit =? 0 then (replicate (Z.to_nat (sh_size s)) 0, sh_size s) else (buffer, limit))
    with (buf, lim) by (unfold buf, lim; by destruct (limit =? 0)).
  destruct (lim <? _) eqn:Hb'; [done|]. bool_hyps. assert (sh_size s <= Z.of_nat (length buf)) as Hfit.
  { unfold buf, lim in *. destruct (limit =? 0); [rewrite length_replicate|]; lia. }
  pose proof (copy_file_mid elf file_size elf_size [] (take (Z.to_nat (sh_size s)) buf)
    (drop (Z.to_nat (sh_size s)) buf) 0 (sh_offset s) (sh_size s)) as Hcp.
  cbn [app] in Hcp. rewrite take_drop in Hcp. rewrite Hcp; [|done|rewrite length_take; lia|lia..]. cbn [rbind].
  eapply bind_any; [by apply prepare_spec|]. intros [st|] Hst; [|done].
  destruct (Hst st eq_refl) as [rels Hprep]. destruct Hprep as [(d & t & Hrd & Hlt & Hrels & Hs1 & Hs2 & _) Hpts Hrok Hsym Hent].
  set (post := drop _ buf). assert (Forall is_byte post) as Hpost.
  { apply Forall_drop. unfold buf. destruct (limit =? 0); [|done]. apply Forall_replicate. unfold is_byte. lia. }
  assert (Z.of_nat (length (slice elf (sh_offset s) (sh_size s))) = sh_size s) as Hsl
    by (rewrite (length_slice elf file_size) by (done || lia); lia).
  pose proof (apply_from_spec arch_ elf file_size elf_bytes elf_size st Hsym Hent (relocs st) rels [] post
    (sh_addr s) slide (slice elf (sh_offset s) (sh_size s))) as Hap. rewrite Hsl in Hap. cbn [app length] in Hap.
  eapply bind_any; [apply Hap; auto; unfold u64_ok; try lia; by apply slice_bytes|].
  intros b ->. cbn [res_post snd app]. intros _.
  exists (st_symtab_offset st), (st_symtab_ent st), rels. split_and!; [|lia|].
  - exists d, t. auto.
  - f_equal. unfold post, buf. destruct (limit =? 0); [|done]. rewrite drop_replicate, Nat.sub_diag, drop_nil. done.
Qed.

Lemma section_at_ok hdr i : shdr_ok (section_at hdr i).
Proof. apply shdr_of_ok, slice_bytes, elf_bytes. Qed.

Lemma section_object hdr n i :
  hdr_ok hdr -> sizeof_shdr ELF64 <= h_shdr_size hdr -> h_shoff hdr + n * h_shdr_size hdr <= file_size ->
  0 <= i < n ->
  object elf (h_shoff hdr + i * h_shdr_size hdr) (sizeof_shdr ELF64)
  = Ok (slice elf (h_shoff hdr + i * h_shdr_size hdr) (sizeof_shdr ELF64)).
Proof. intros [] Hs He Hi. unfold u64_ok in *. cbn in Hs. apply (object_ok elf file_size); cbn; [done|nia|nia]. Qed.

Section Loop.
Variables (hdr : elf_hdr) (name buffer : list Z) (limit slide sh_num j : Z).
Hypothesis hdr_fine : hdr_ok hdr.
Hypothesis shdr_big : sizeof_shdr ELF64 <= h_shdr_size hdr.
Hypothesis table_end : h_shoff hdr + sh_num * h_shdr_size hdr <= file_size.
Hypothesis name_fine : Forall (fun c => 0 < c) name.
Hypothesis buffer_bytes : Forall is_byte buffer.
Hypothesis slide_fine : u64_ok slide.
Hypothesis limit_fine : 0 <= limit <= Z.of_nat (length buffer).

Let strtab := section_at hdr j.
Hypothesis strtab_fine : sh_offset strtab + sh_size strtab <= file_size.

Lemma section_loop_spec n : forall i,
  0 <= i -> i + Z.of_nat n <= sh_num ->
  res_post (fun r => r.1 = true -> section_loaded hdr name buffer limit slide r.2) any_panic
    (section_loop arch_ size_bits elf file_size n i hdr strtab buffer (name ++ [0]) limit slide).
Proof.
  induction n as [|n IH]; intros i Hi Hn; cbn [section_loop]; [done|].
  rewrite (section_object hdr sh_num) by (done || lia). cbn [rbind]. fold (section_at hdr i).
  specialize (IH (i + 1) ltac:(lia) ltac:(lia)).
  pose proof (section_at_ok hdr i) as Hs. pose proof (section_at_ok hdr j) as Hj. fold strtab in Hj.
  destruct (sh_size strtab <=? _) eqn:Hsz; [exact IH|]. bool_hyps.
  set (sname := drop _ elf). pose proof (so_name _ Hs). pose proof (so_offset _ Hj) as [Ho _].
  destruct (memchr_nul (Z.to_nat (sh_size strtab - sh_name (section_at hdr i))) sname) as (o & -> & Ho').
  { unfold sname. rewrite length_drop. lia. }
  { by apply Forall_drop. }
  cbn [rbind]. destruct o as [k|]; [|exact IH]. destruct Ho' as (l & t & Hl & Hpos); [done|].
  rewrite Hl. unfold strcmp. rewrite (str_cmp_lex (fun c => c)) by done. rewrite !List.map_id. cbn [rbind].
  destruct (lex l name =? 0) eqn:Hlex; [|exact IH]. apply Z.eqb_eq, lex_eq in Hlex. subst l.
  eapply res_post_mono; [by apply load_found_spec| |done].
  intros r Hr Ht. destruct (Hr Ht) as (symtab & syment & rels & Hrel & Hfit & Heq).
  exists i, j, symtab, syment, rels. cbn zeta. split_and!; try done. by exists t.
Qed.
End Loop.

Lemma load_section_spec name buffer limit slide :
  64 <= file_size -> Forall (fun c => 0 < c) name -> Forall is_byte buffer -> u64_ok slide ->
  0 <= limit <= Z.of_nat (length buffer) ->
  res_post (fun r => r.1 = true -> section_loaded (elf_header elf) name buffer limit slide r.2) any_panic
    (elf64_load_section arch_ size_bits elf file_size buffer (name ++ [0]) limit slide).
Proof.
  intros Hsz Hname Hbuf Hslide Hlim. destruct (elf_header_ok elf file_size elf_bytes elf_size Hsz) as [Hh Hok].
  set (hdr := elf_header elf) in *. unfold elf64_load_section. rewrite Hh. cbn [rbind].
  eapply bind_any; [by apply (validate_spec arch_ ELF64)|]. intros ok _.
  eapply bind_any; [by apply section_numbering_spec|]. intros [[n j]|] Hn; [|done].
  destruct (Hn n j eq_refl) as [Hn1 Hn2]. destruct (n =? 0) eqn:E0; [done|]. bool_hyps.
  destruct (h_shdr_size hdr <? _) eqn:E1; [done|]. bool_hyps.
  destruct ((j =? SHN_UNDEF) || _) eqn:E2; [done|]. bool_hyps.
  destruct (CHECKED_MUL _ _) as [m|] eqn:E3; [|done]. apply checked_mul_Some in E3 as [-> _].
  destruct (CHECKED_ADD _ _) as [e|] eqn:E4; [|done]. apply checked_add_Some in E4 as [-> _].
  destruct (file_size <? _) eqn:E5; [done|]. bool_hyps.
  rewrite (section_object hdr n) by (done || lia). cbn [rbind]. fold (section_at hdr j).
  destruct ((file_size <=? _) || _) eqn:E6; [done|]. bool_hyps.
  apply (section_loop_spec hdr name buffer limit slide n); auto; lia.
Qed.
End Sections.
