(* ===== verification/ElfCorrect.v ===== *)
(** * Theorems on the ELF loader

    The loader on the physical allocator, and the statements the boot protocols
    rely on. *)

From S2P Require Import Prelude CInt Libc Gpt Memmap MemmapSem Pmm PmmFacts PmmProps.
From S2P Require Import Elf ElfLoad ElfFacts ElfPatch ElfProps ElfElsewhere.

(** ** The physical allocator is an image allocator *)
Definition image_alloc (max_entries : nat) (x86 i386 : bool) (st : pmm) (type count align : Z) : res Z :=
  let! (p, _) := ext_mem_alloc_type_aligned max_entries x86 i386 st count type align in of_option p.

(** The state of an allocator that can be used. *)
Class PmmReady (max_entries : nat) (st : pmm) : Prop := {
  ready_inv : pmm_inv max_entries st;
  ready_allowed : allocations_disallowed st = false;
}.

#[export] Instance image_alloc_ok max_entries x86 i386 st type `{!PmmReady max_entries st} :
  ImageAllocator (image_alloc max_entries x86 i386 st type).
Proof.
  constructor. intros count align Hc (k & Hk & ->). unfold image_alloc, ext_mem_alloc_type_aligned,
    ext_mem_alloc_type_aligned_mode.
  assert (0 < 2 ^ k < 2 ^ 64) as Hp by (split; [lia|apply Z.pow_lt_mono_r; lia]).
  eapply bind_any.
  - eapply res_post_mono; [apply (ext_mem_alloc_impl_spec max_entries x86 i386 st count type (2 ^ k) false true
      ready_inv ready_allowed Hc Hp)|intros r H; exact H|done].
  - intros [[p|] st'] H; cbn [fst snd] in H; [|by destruct H].
    destruct H as [_ _ _ (n & top & _ & Hn & _ & Hal & _)]. destruct (al_size _ _ _ _ _ _ Hal).
    cbn. lia.
Qed.

#[export] Instance demo_ready : PmmReady 512 demo_pmm.
Proof. constructor; [apply demo_pmm_inv|reflexivity]. Qed.

(** ** A small position-independent executable

    Two segments at 0 and 0x1000, one relative relocation of the first word of
    the second segment and one RELR relocation of its second word. *)
Definition demo_elf : list Z :=
  [
   127; 69; 76; 70; 2; 1; 1; 0; 0; 0; 0; 0; 0; 0; 0; 0; 3; 0; 62; 0; 1; 0; 0; 0; 0; 1; 0; 0;
   0; 0; 0; 0; 64; 0; 0; 0; 0; 0; 0; 0; 0; 0; 0; 0; 0; 0; 0; 0; 0; 0; 0; 0; 64; 0; 56; 0;
   3; 0; 64; 0; 0; 0; 0; 0; 1; 0; 0; 0; 5; 0; 0; 0; 0; 0; 0; 0; 0; 0; 0; 0; 0; 0; 0; 0;
   0; 0; 0; 0; 0; 0; 0; 0; 0; 0; 0; 0; 120; 1; 0; 0; 0; 0; 0; 0; 120; 1; 0; 0; 0; 0; 0; 0;
   0; 16; 0; 0; 0; 0; 0; 0; 1; 0; 0; 0; 6; 0; 0; 0; 120; 1; 0; 0; 0; 0; 0; 0; 0; 16; 0; 0;
   0; 0; 0; 0; 0; 16; 0; 0; 0; 0; 0; 0; 16; 0; 0; 0; 0; 0; 0; 0; 32; 0; 0; 0; 0; 0; 0; 0;
   0; 16; 0; 0; 0; 0; 0; 0; 2; 0; 0; 0; 4; 0; 0; 0; 232; 0; 0; 0; 0; 0; 0; 0; 232; 0; 0; 0;
   0; 0; 0; 0; 232; 0; 0; 0; 0; 0; 0; 0; 112; 0; 0; 0; 0; 0; 0; 0; 112; 0; 0; 0; 0; 0; 0; 0;
   8; 0; 0; 0; 0; 0; 0; 0; 7; 0; 0; 0; 0; 0; 0; 0; 88; 1; 0; 0; 0; 0; 0; 0; 8; 0; 0; 0;
   0; 0; 0; 0; 24; 0; 0; 0; 0; 0; 0; 0; 9; 0; 0; 0; 0; 0; 0; 0; 24; 0; 0; 0; 0; 0; 0; 0;
   36; 0; 0; 0; 0; 0; 0; 0; 112; 1; 0; 0; 0; 0; 0; 0; 35; 0; 0; 0; 0; 0; 0; 0; 8; 0; 0; 0;
   0; 0; 0; 0; 37; 0; 0; 0; 0; 0; 0; 0; 8; 0; 0; 0; 0; 0; 0; 0; 0; 0; 0; 0; 0; 0; 0; 0;
   0; 0; 0; 0; 0; 0; 0; 0; 0; 16; 0; 0; 0; 0; 0; 0; 8; 0; 0; 0; 0; 0; 0; 0; 16; 0; 0; 0;
   0; 0; 0; 0; 8; 16; 0; 0; 0; 0; 0; 0; 0; 0; 0; 0; 0; 0; 0; 0; 32; 0; 0; 0; 0; 0; 0; 0].

Definition demo_load (kaslr : bool) : res loaded :=
  elf64_load X86 64 demo_elf 392 (image_alloc 512 true false demo_pmm 0x1000) (fun _ => 0x12345678) kaslr true true true.

Lemma demo_elf_bytes : Forall is_byte demo_elf.
Proof. by apply bytes_check; vm_compute. Qed.

Definition returned {A} (r : res A) : bool := match r with Ok _ => true | _ => false end.

(** Two multiples of [n] less than [n] apart are equal. *)
Lemma same_page x y n : 0 < n -> x mod n = 0 -> y mod n = 0 -> -n < x - y < n -> x = y.
Proof.
  intros Hn Hx Hy Hd. pose proof (Z.div_mod x n). pose proof (Z.div_mod y n).
  assert (x / n = y / n) by nia. lia.
Qed.

Lemma image_base_least segs :
  List.ForallOrdPairs before segs -> (forall x, x ∈ segs -> 0 < p_memsz x) ->
  forall x, x ∈ segs -> image_base segs <= p_vaddr x /\ segs <> [].
Proof.
  intros Hord Hm x Hx. destruct segs as [|s segs]; [by apply not_elem_of_nil in Hx|]. split; [|done].
  pose proof (page_base_spec s) as [? _]. cbn [image_base]. apply elem_of_cons in Hx as [->|Hx]; [lia|].
  inversion_clear Hord as [|? ? Hb _]. rewrite Forall_forall in Hb. specialize (Hb x Hx).
  specialize (Hm s (list_elem_of_here _ _)). unfold before, seg_end in Hb. lia.
Qed.

(** ** The theorems *)

(** C6.  Loading an ELF file of less than 2 GiB, however malformed, with any
    allocator and any random numbers.  A file shorter than an ELF64 header, which
    [elf64_load] itself would not notice, is refused by [elf_bits], which its caller
    asks first.  On any other, [elf64_load] panics or returns, and never reads
    outside the file or writes outside the image.  What it returns is the image the
    file describes: the loadable segments, in ascending order, at their distance
    from the page of the first one, each with its file bytes, zeros up to its
    memory size and the file's relocations applied for the slide, and zeros between
    them.  The sizes, the addresses and the entry point are those of that image. *)
Theorem elf64_load_correct arch_ size_bits elf file_size alloc rand kaslr want_ranges want_count want_reloc
    `{!ImageAllocator alloc} :
  Forall is_byte elf -> Z.of_nat (length elf) = file_size -> file_size < 2 ^ 31 ->
  (file_size < 64 -> elf_bits elf file_size = Ok (-1)) /\
  (64 <= file_size ->
   res_post (loaded_image arch_ elf file_size) any_panic
     (elf64_load arch_ size_bits elf file_size alloc rand kaslr want_ranges want_count want_reloc)).
Proof.
  intros Hb Hl Hs. split.
  - intros Hlt. unfold elf_bits. by rewrite (proj2 (Z.ltb_lt _ _)) by (cbn; lia).
  - intros H64. eapply res_post_mono; [by apply elf64_load_spec; try lia| |done]. by intros L [H _].
Qed.

Lemma elf64_load_correct_witness :
  exists L, demo_load false = Ok L /\ loaded_image X86 demo_elf 392 L.
Proof.
  pose proof (elf64_load_correct X86 64 demo_elf 392 (image_alloc 512 true false demo_pmm 0x1000)
    (fun _ => 0x12345678) false true true true demo_elf_bytes eq_refl ltac:(lia)) as [_ H]. specialize (H ltac:(lia)).
  assert (returned (demo_load false) = true) as G by (vm_compute; reflexivity).
  fold (demo_load false) in H. destruct (demo_load false) as [L|m| |]; try discriminate G. by exists L.
Defined.

(** Two ranges have an address in common. *)
Definition overlap (a b : mem_range) : Prop := base a < base b + length_ b /\ base b < base a + length_ a.

Lemma range_of_pages slide s r :
  slide mod 4096 = 0 -> u64_ok slide -> phdr_ok s -> range_of slide s r ->
  exists c, (c = 0 \/ c = 1) /\ u64 (p_vaddr s + slide) = p_vaddr s + slide - c * 2 ^ 64 /\
    base r = page_base s + slide - c * 2 ^ 64 /\ base r + length_ r = page_top s + slide - c * 2 ^ 64.
Proof.
  intros Hs Hu [] (Hb & Ht & Htm & _ & _). unfold u64_ok in *.
  pose proof (page_base_spec s) as [Hpb Hpbm]. pose proof (page_top_spec s) as [Hpt Hptm]. unfold seg_end in *.
  assert (exists c, (c = 0 \/ c = 1) /\ u64 (p_vaddr s + slide) = p_vaddr s + slide - c * 2 ^ 64) as (c & Hc & Hw).
  { destruct (u64_cases (p_vaddr s + slide)) as [[_ ->]|[_ ->]]; [lia|exists 0|exists 1]; lia. }
  exists c. rewrite Hw in *. split_and!; [done|done| |].
  - rewrite Hb. pose proof (align_down_spec (p_vaddr s + slide - c * 2 ^ 64) 4096 ltac:(lia)).
    apply (same_page _ _ 4096); [lia|apply align_down_mod; lia| |lia].
    rewrite Zminus_mod, Zplus_mod, Hpbm, Hs. by destruct Hc as [->| ->].
  - apply (same_page _ _ 4096); [lia|done| |lia]. rewrite Zminus_mod, Zplus_mod, Hptm, Hs. by destruct Hc as [->| ->].
Qed.

(** Segments that may share a page only with equal permissions keep this as
    ranges, wherever the slide takes them. *)
Lemma ranges_compatible slide segs : forall rs,
  slide mod 4096 = 0 -> u64_ok slide -> Forall phdr_ok segs ->
  List.ForallOrdPairs before segs -> List.ForallOrdPairs page_compatible segs ->
  Forall (fun s => 0 <= p_vaddr s /\ page_top s <= 2 ^ 64) segs ->
  Forall2 (range_of slide) segs rs ->
  List.ForallOrdPairs (fun a b => overlap a b -> permissions a = permissions b) rs.
Proof.
  intros rs Hs Hu Hok Hord Hpg Htop HF. revert Hok Hord Hpg Htop.
  induction HF as [|s r segs rs Hr HF IH]; intros Hok Hord Hpg Htop; constructor.
  - apply Forall_forall. intros r' Hr' [H1 H2]. apply list_elem_of_lookup in Hr' as [i Hi].
    destruct (Forall2_lookup_r _ _ _ _ _ HF Hi) as (s' & Hs' & Hr'). apply list_elem_of_lookup_2 in Hs'.
    apply Forall_cons in Hok as [Hoks Hok]. apply Forall_cons in Htop as [[Ht0 Ht1] Htop].
    inversion_clear Hord as [|? ? Hb _]. inversion_clear Hpg as [|? ? Hp _].
    rewrite Forall_forall in Hb, Hp, Hok, Htop. specialize (Hb s' Hs'). specialize (Hp s' Hs').
    destruct (Htop s' Hs') as [Ht0' Ht1'].
    destruct (range_of_pages slide s r Hs Hu Hoks Hr) as (c & Hc & Hw & Hbase & Hend).
    destruct (range_of_pages slide s' r' Hs Hu (Hok s' Hs') Hr') as (c' & Hc' & Hw' & Hbase' & Hend').
    destruct Hr as (_ & _ & _ & _ & ->), Hr' as (_ & _ & _ & _ & ->). apply Hp.
    destruct Hoks. unfold before, seg_end, u64_ok in *.
    pose proof (page_base_spec s) as [? _]. pose proof (page_base_spec s') as [? _].
    pose proof (wrap_range 64 (p_vaddr s + slide) ltac:(lia)). pose proof (wrap_range 64 (p_vaddr s' + slide) ltac:(lia)).
    pose proof (align_down_nonneg (p_vaddr s) 4096 ltac:(lia) ltac:(lia)).
    fold (page_base s) in *. destruct Hc as [->| ->], Hc' as [->| ->]; lia.
  - apply Forall_cons in Hok as [_ Hok]. apply Forall_cons in Htop as [_ Htop].
    inversion_clear Hord. inversion_clear Hpg. by apply IH.
Qed.

(** C20.  The memory ranges [elf64_load] reports, from which the page tables of
    the kernel are built: one for each segment, in whole pages around the place
    the slide moves the segment to, with the segment's permissions; ranges that
    share a page have the same permissions, so no page is both what one segment
    wants and what another forbids.  A file that is not relocatable is not moved,
    and a random slide leaves the whole image in the top 2 GiB, unless the image
    itself is nearly as large as the address space.  (For files of at least a
    header and less than 2 GiB.) *)
Theorem elf64_load_ranges arch_ size_bits elf file_size alloc rand kaslr want_reloc `{!ImageAllocator alloc} :
  Forall is_byte elf -> Z.of_nat (length elf) = file_size -> 64 <= file_size < 2 ^ 31 ->
  (forall k, 0 <= rand k < 2 ^ 32) ->
  res_post (fun L =>
      (exists rs, l_ranges L = Some rs /\
         Forall2 (range_of (l_slide L)) (segments elf (elf_header elf)) rs /\
         List.ForallOrdPairs (fun a b => overlap a b -> permissions a = permissions b) rs) /\
      l_slide L mod 4096 = 0 /\ (is_reloc L = false -> l_slide L = 0) /\
      (is_reloc L && kaslr = true -> l_image_size L < 2 ^ 64 - 2 ^ 33 ->
       FIXED_HIGHER_HALF_OFFSET_64 <= l_virtual_base L /\ l_virtual_base L + l_image_size L < 2 ^ 64)) any_panic
    (elf64_load arch_ size_bits elf file_size alloc rand kaslr true true want_reloc).
Proof.
  intros Hb Hl Hs Hr. eapply res_post_mono; [by apply elf64_load_spec; try lia| |done].
  intros L [Hi Hp]. destruct Hp as [Hsl Hpage _ _ Hfix Hk Hends Hcompat (rs & Hrs & HF)].
  split_and!; auto. exists rs. split_and!; [done|done|].
  pose proof (segments_ok elf Hb (elf_header elf)) as Hok.
  apply (ranges_compatible (l_slide L) (segments elf (elf_header elf))); auto.
  - eapply Forall_impl; [exact Hok|]. by intros s [].
  - apply Hi.
  - apply Forall_forall. intros s Hin. rewrite Forall_forall in Hok, Hends.
    destruct (Hok s Hin) as [[] _]. specialize (Hends s Hin). unfold u64_ok in *.
    pose proof (page_top_spec s) as [? Hm]. split; [lia|]. pose proof (Z.div_mod (page_top s) 4096). lia.
Qed.

Lemma elf64_load_ranges_witness :
  exists L rs, demo_load true = Ok L /\ l_ranges L = Some rs /\ is_reloc L = true /\
    Forall2 (range_of (l_slide L)) (segments demo_elf (elf_header demo_elf)) rs.
Proof.
  pose proof (elf64_load_ranges X86 64 demo_elf 392 (image_alloc 512 true false demo_pmm 0x1000)
    (fun _ => 0x12345678) true true demo_elf_bytes eq_refl ltac:(lia) ltac:(intros; lia)) as H.
  assert (match demo_load true with Ok L => is_reloc L | _ => false end = true) as G by (vm_compute; reflexivity).
  fold (demo_load true) in H. destruct (demo_load true) as [L|m| |]; try discriminate G.
  destruct H as [(rs & Hrs & HF & _) _]. by exists L, rs.
Defined.

(** C21.  Relocation, word by word.  In a segment of an image [elf64_load]
    returned, a byte no relocation of the file touches is the file's byte or
    zero, and the word of a relocation that no other one touches holds what the
    processor supplement says: [slide + A] for a relative relocation, the old
    word plus the slide for RELR, and [S] or [S + A] for one of a symbol.  (For
    files of at least a header and less than 2 GiB.) *)
Theorem elf64_load_relocated arch_ size_bits elf file_size alloc rand kaslr want_ranges want_count want_reloc
    `{!ImageAllocator alloc} :
  Forall is_byte elf -> Z.of_nat (length elf) = file_size -> 64 <= file_size < 2 ^ 31 ->
  res_post (fun L => exists symtab syment rels,
      file_relocations elf file_size (elf_header elf) symtab syment rels /\
      forall s, s ∈ segments elf (elf_header elf) ->
      exists pre post, image L = pre ++ seg_image elf arch_ symtab syment (l_slide L) rels s ++ post /\
        u64 (l_virtual_base L + Z.of_nat (length pre)) = u64 (p_vaddr s + l_slide L) /\
        (forall i, Forall (fun r => ~ touches r (p_vaddr s + Z.of_nat i)) rels ->
           seg_image elf arch_ symtab syment (l_slide L) rels s !! i = seg_bytes elf s !! i) /\
        (forall l1 r l2 v, rels = l1 ++ r :: l2 -> p_vaddr s <= r_addr r -> r_addr r + 8 <= seg_end s ->
           Forall (fun r' => r_addr r' + 8 <= r_addr r \/ r_addr r + 8 <= r_addr r') (l1 ++ l2) ->
           reloc_formula arch_ elf symtab syment (l_slide L) r
             (word_at (seg_bytes elf s) (Z.to_nat (r_addr r - p_vaddr s))) = Some v ->
           word_at (seg_image elf arch_ symtab syment (l_slide L) rels s) (Z.to_nat (r_addr r - p_vaddr s)) = v))
    any_panic
    (elf64_load arch_ size_bits elf file_size alloc rand kaslr want_ranges want_count want_reloc).
Proof.
  intros Hb Hl Hs. eapply res_post_mono; [by apply elf64_load_spec; try lia| |done].
  intros L [[[Hne Hord] Hfile _ (symtab & syment & rels & Hrel & Himg) _ _ Hvirt _] Hp].
  exists symtab, syment, rels. split; [done|]. intros s Hin.
  pose proof (segments_ok elf Hb (elf_header elf)) as Hok. rewrite Forall_forall in Hok.
  assert (Forall (in_file file_size) (segments elf (elf_header elf))) as Hfin.
  { apply Forall_forall. intros x Hx. rewrite Forall_forall in Hfile. specialize (Hfile x Hx).
    destruct (Hok x Hx) as [[] _]. unfold in_file, u64_ok in *. lia. }
  destruct (image_of_split elf file_size Hl arch_ symtab syment (l_slide L) rels _ s
    (image_base (segments elf (elf_header elf))) Hord Hfin) as (pre & post & Hsplit & Hlen); [|done|].
  { intros x Hx. destruct (image_base_least _ Hord) with x as [? _]; auto.
    intros y Hy. destruct (Hok y Hy) as [[] Hly]. apply loadable_spec in Hly as [_ ?]. unfold u64_ok in *. lia. }
  rewrite Hsplit in Himg. exists pre, post. split_and!; [done| | |].
  - rewrite Hvirt, Hlen, u64_u64_l. f_equal. lia.
  - intros i Hi. by apply patched_outside.
  - intros l1 r l2 v -> Hr1 Hr2 Hdis Hv. apply patched_word; [|done|done].
    rewrite Forall_forall in Hfin. destruct (Hfin s Hin) as (? & ? & ?).
    pose proof (proj1 (Forall_forall _ _) (lp_ends _ _ _ _ _ _ Hp) s Hin) as Hse. cbn beta in Hse.
    unfold word_inside, seg_bytes. rewrite length_app, length_replicate, (length_slice elf file_size) by (done || lia).
    unfold seg_end in *. rewrite !andb_true_iff, !Z.leb_le, Z.ltb_lt. lia.
Qed.

Lemma elf64_load_relocated_witness :
  exists L symtab syment rels, demo_load true = Ok L /\
    file_relocations demo_elf 392 (elf_header demo_elf) symtab syment rels /\ word_at (image L) 4096 = u64 (l_slide L + 0x10) /\
    word_at (image L) 4104 = u64 (l_slide L + 0x20).
Proof.
  pose proof (elf64_load_relocated X86 64 demo_elf 392 (image_alloc 512 true false demo_pmm 0x1000)
    (fun _ => 0x12345678) true true true true demo_elf_bytes eq_refl ltac:(lia)) as H.
  assert (match demo_load true with
          | Ok L => (word_at (image L) 4096 =? u64 (l_slide L + 0x10)) && (word_at (image L) 4104 =? u64 (l_slide L + 0x20))
          | _ => false end = true) as G by (vm_compute; reflexivity).
  fold (demo_load true) in H. destruct (demo_load true) as [L|m| |]; try discriminate G. bool_hyps.
  destruct H as (symtab & syment & rels & Hrel & _). by exists L, symtab, syment, rels.
Defined.

(** Loading for a later move ([elf32_load_elsewhere] and
    [elf64_load_elsewhere]), on any file: it panics or returns one range from the lowest physical address of the
    loadable segments to the highest, no larger than the caller's limit.  Each
    byte of it is the one of the last segment of the table whose file bytes cover
    its address, or zero, and the entry point has moved with the first segment
    whose virtual addresses hold it. *)
Theorem load_elsewhere_correct arch_ size_bits elf file_size c max_image_size :
  Forall is_byte elf -> Z.of_nat (length elf) = file_size -> sizeof_hdr c <= file_size < 2 ^ 31 ->
  res_post (loaded_elsewhere elf c max_image_size) any_panic
    (match c with
     | ELF32 => elf32_load_elsewhere arch_ size_bits elf file_size max_image_size
     | ELF64 => elf64_load_elsewhere arch_ size_bits elf file_size max_image_size
     end).
Proof. intros Hb Hl Hs. destruct c; apply load_elsewhere_spec; auto; lia. Qed.

Lemma load_elsewhere_correct_witness :
  exists r, elf64_load_elsewhere X86 64 demo_elf 392 0xffffffff = Ok r /\
    loaded_elsewhere demo_elf ELF64 0xffffffff r /\ target r.2 = 0 /\ r.1 = 0x100.
Proof.
  pose proof (load_elsewhere_correct X86 64 demo_elf 392 ELF64 0xffffffff demo_elf_bytes eq_refl ltac:(cbn; lia)) as H.
  assert (match elf64_load_elsewhere X86 64 demo_elf 392 0xffffffff with
          | Ok (e, r) => (target r =? 0) && (e =? 0x100) | _ => false end = true) as G by (vm_compute; reflexivity).
  destruct (elf64_load_elsewhere _ _ _ _ _) as [[e r]|m| |]; try discriminate G. bool_hyps. by exists (e, r).
Defined.

(** Sections, on any file: the table [elf64_section_hdr_info] and
    [elf32_section_hdr_info] describe lies in the file, and
    [elf64_load_section] returns without touching anything outside the file and
    the buffer; when it reports success the buffer starts with the bytes of a
    section of the name asked for, relocated for the slide, and is otherwise
    unchanged. *)
Theorem elf_sections_correct arch_ size_bits elf file_size name buffer limit slide :
  Forall is_byte elf -> Z.of_nat (length elf) = file_size -> 64 <= file_size < 2 ^ 31 ->
  Forall (fun c => 0 < c) name -> Forall is_byte buffer -> u64_ok slide -> 0 <= limit <= Z.of_nat (length buffer) ->
  res_post (fun r => r.1 = true -> section_loaded arch_ elf file_size (elf_header elf) name buffer limit slide r.2)
    any_panic (elf64_load_section arch_ size_bits elf file_size buffer (name ++ [0]) limit slide) /\
  forall c, res_post (fun '(num, entry_size, _, offset) => 0 <= num /\ 0 <= entry_size /\ 0 <= offset /\
                        offset + num * entry_size <= file_size) any_panic
              (match c with
               | ELF32 => elf32_section_hdr_info arch_ elf file_size
               | ELF64 => elf64_section_hdr_info arch_ elf file_size
               end).
Proof.
  intros Hb Hl Hs Hn Hbuf Hsl Hlim. split; [apply load_section_spec; auto; lia|].
  intros c. destruct c; apply section_hdr_info_spec; auto; cbn; lia.
Qed.

(** A file with one named section of 8 bytes. *)
Definition demo_sections : list Z :=
  [
   127; 69; 76; 70; 2; 1; 1; 0; 0; 0; 0; 0; 0; 0; 0; 0; 2; 0; 62; 0; 1; 0; 0; 0; 0; 0; 0; 0;
   0; 0; 0; 0; 64; 0; 0; 0; 0; 0; 0; 0; 96; 0; 0; 0; 0; 0; 0; 0; 0; 0; 0; 0; 64; 0; 56; 0;
   0; 0; 64; 0; 3; 0; 2; 0; 136; 119; 102; 85; 68; 51; 34; 17; 0; 46; 114; 101; 113; 115; 0; 46; 115; 104; 115; 116;
   114; 116; 97; 98; 0; 0; 0; 0; 0; 0; 0; 0; 0; 0; 0; 0; 0; 0; 0; 0; 0; 0; 0; 0; 0; 0; 0; 0;
   0; 0; 0; 0; 0; 0; 0; 0; 0; 0; 0; 0; 0; 0; 0; 0; 0; 0; 0; 0; 0; 0; 0; 0; 0; 0; 0; 0;
   0; 0; 0; 0; 0; 0; 0; 0; 0; 0; 0; 0; 0; 0; 0; 0; 0; 0; 0; 0; 1; 0; 0; 0; 1; 0; 0; 0;
   0; 0; 0; 0; 0; 0; 0; 0; 0; 16; 0; 0; 0; 0; 0; 0; 64; 0; 0; 0; 0; 0; 0; 0; 8; 0; 0; 0;
   0; 0; 0; 0; 0; 0; 0; 0; 0; 0; 0; 0; 1; 0; 0; 0; 0; 0; 0; 0; 0; 0; 0; 0; 0; 0; 0; 0;
   7; 0; 0; 0; 3; 0; 0; 0; 0; 0; 0; 0; 0; 0; 0; 0; 0; 0; 0; 0; 0; 0; 0; 0; 72; 0; 0; 0;
   0; 0; 0; 0; 17; 0; 0; 0; 0; 0; 0; 0; 0; 0; 0; 0; 0; 0; 0; 0; 1; 0; 0; 0; 0; 0; 0; 0;
   0; 0; 0; 0; 0; 0; 0; 0].

Lemma elf_sections_correct_witness :
  exists r, elf64_load_section X86 64 demo_sections 288 (repeat 7 10) (cstring ".reqs") 10 0 = Ok (true, r) /\
    section_loaded X86 demo_sections 288 (elf_header demo_sections) (bytes ".reqs") (repeat 7 10) 10 0 r.
Proof.
  pose proof (elf_sections_correct X86 64 demo_sections 288 (bytes ".reqs") (repeat 7 10) 10 0) as H.
  assert (match elf64_load_section X86 64 demo_sections 288 (repeat 7 10) (cstring ".reqs") 10 0 with
          | Ok (true, r) => true | _ => false end = true) as G by (vm_compute; reflexivity).
  destruct H as [H _].
  - by apply bytes_check; vm_compute.
  - reflexivity.
  - lia.
  - repeat constructor; lia.
  - unfold is_byte. repeat constructor; lia.
  - unfold u64_ok. lia.
  - cbn. lia.
  - change (bytes ".reqs" ++ [0]) with (cstring ".reqs") in H.
    destruct (elf64_load_section _ _ _ _ _ _ _ _) as [[[] r]|m| |]; try discriminate G. exists r. auto.
Defined.
