(* ===== verification/ElfStatic.v ===== *)
(** * Static executables load

    A well-formed executable without a dynamic segment, linked in the higher
    half, is loaded: none of the loader's panics is reached, and the image is the
    segments as they are in the file. *)

From S2P Require Import Prelude CInt Libc Gpt Elf ElfLoad ElfFacts ElfPatch ElfProps.

(** ** Results that are not panics *)
Definition not_panic {A : Type} (r : res A) : Prop := forall m, r <> Panic m.

Lemma not_panic_post {A} (Q : A -> Prop) r : res_post Q any_panic r -> not_panic r -> res_post Q no_panic r.
Proof. destruct r as [a|m| |]; intros H Hn; try done. by destruct (Hn m). Qed.

Lemma not_panic_ok {A} (a : A) : not_panic (Ok a).
Proof. by intros m. Qed.

Lemma not_panic_bind {A B} (r : res A) (k : A -> res B) :
  not_panic r -> (forall a, r = Ok a -> not_panic (k a)) -> not_panic (rbind r k).
Proof. intros Hr Hk. destruct r as [a|m| |]; simpl; [by apply Hk|by destruct (Hr m)|by intros m|by intros m]. Qed.

Lemma copy_file_not_panic elf buf off src n : not_panic (copy_file elf buf off src n).
Proof. unfold copy_file, object. destruct (_ && _); simpl; [destruct (_ && _)|]; by intros m. Qed.

(** ** Well-formed static executables *)
Record static_executable (arch_ : arch) (size_bits : Z) (elf : list Z) (file_size : Z) : Prop := {
  se_valid : elf64_validate arch_ (elf_header elf) = Ok true;
  se_type : h_type (elf_header elf) = ET_EXEC;
  se_table : table_in file_size ELF64 (elf_header elf);
  se_static : Forall (fun p => p_type p <> PT_DYNAMIC) (phdrs elf ELF64 (elf_header elf));
  se_some : segments elf (elf_header elf) <> [];
  se_order : List.ForallOrdPairs before (segments elf (elf_header elf));
  se_pages : List.ForallOrdPairs page_compatible (segments elf (elf_header elf));
  se_segments : Forall (fun s => low s = false /\ seg_end s + 4095 < 2 ^ 64 /\
      p_filesz s <= p_memsz s /\ p_offset s + p_filesz s <= file_size /\
      (1 < p_align s -> Z.land (p_align s) (p_align s - 1) = 0) /\ p_align s < 2 ^ size_bits)
    (segments elf (elf_header elf));
}.

(** ** No relocations *)
Section NoDynamic.
Variables (size_bits : Z) (elf : list Z) (file_size : Z) (hdr : elf_hdr).
Hypothesis elf_size : Z.of_nat (length elf) = file_size.
Hypothesis small_file : file_size < 2 ^ 31.
Hypothesis hdr_fine : hdr_ok hdr.
Hypothesis table_fine : table_in file_size ELF64 hdr.
Hypothesis no_dynamic : Forall (fun p => p_type p <> PT_DYNAMIC) (phdrs elf ELF64 hdr).

Lemma read_dynamic_none : read_dynamic elf file_size hdr = Ok (Some no_dyn).
Proof.
  destruct hdr_fine, table_fine. unfold u64_ok in *. unfold read_dynamic.
  unfold checked_mul. rewrite (proj2 (Z.ltb_lt _ _)) by nia. unfold checked_add. rewrite (proj2 (Z.ltb_lt _ _)) by lia.
  rewrite (proj2 (Z.ltb_ge _ _)) by lia.
  rewrite (over_phdrs_list elf file_size elf_size small_file ELF64 hdr hdr_fine table_fine).
  assert (forall l, Forall (fun p => p_type p <> PT_DYNAMIC) l ->
    list_loop (dynamic_body elf file_size) l tt = Ok (inl tt)) as ->; [|done|done].
  induction 1 as [|p l Hp Hl IH]; [done|]. cbn [list_loop]. unfold dynamic_body at 1.
  rewrite (proj2 (Z.eqb_neq _ _) Hp). cbn [negb rbind]. exact IH.
Qed.

Definition no_relocs : elf64_reloc_state := MkRelocState [] [] 0 0 0 0 0.

Lemma prepare_none : elf64_prepare_relocations size_bits elf file_size hdr = Ok (Some no_relocs).
Proof.
  unfold elf64_prepare_relocations, phdr_size_check. destruct table_fine as [Hs _].
  rewrite (proj2 (Z.ltb_ge _ _)) by done. cbn [rbind]. rewrite read_dynamic_none. cbn [rbind].
  unfold locate_tables, table_offset, count_relocations, fill_relocations, alloc_counted, checked_mul. cbn.
  done.
Qed.
End NoDynamic.

(** ** The loops *)

(** What the record says of one segment, and of it after others. *)
Definition segment_fine (size_bits file_size : Z) (s : elf_phdr) : Prop :=
  low s = false /\ seg_end s + 4095 < 2 ^ 64 /\ p_filesz s <= p_memsz s /\ p_offset s + p_filesz s <= file_size /\
  (1 < p_align s -> Z.land (p_align s) (p_align s - 1) = 0) /\ p_align s < 2 ^ size_bits.

Lemma align_up_fits x : 0 <= x -> x + 4095 < 2 ^ 64 -> exists y, ALIGN_UP x 4096 = Some y.
Proof.
  intros Hx Hb. destruct (ALIGN_UP x 4096) as [y|] eqn:E; [eauto|].
  apply align_up_None in E; lia.
Qed.

Lemma extent_not_panic size_bits file_size is_reloc want ds s x :
  phdr_ok s -> loadable s = true -> segment_fine size_bits file_size s ->
  Forall (fun p => before p s /\ page_compatible p s /\ low p = false) ds ->
  extent_inv is_reloc want ds x -> not_panic (extent_body is_reloc want s x).
Proof.
  intros [] Hload (Hlow & Hend & _) Hds Hinv. unfold u64_ok in *. unfold extent_body. rewrite Hload. cbn [negb].
  fold (low s). rewrite Hlow. cbn [andb]. destruct Hinv as [_ _ _ [Hlo _] _ _ Hlast].
  assert (lower_to_higher x = false) as ->.
  { rewrite Hlo. clear - Hds. induction Hds as [|p ds (_ & _ & Hp) Hds IH]; [done|]. simpl. by rewrite Hp. }
  unfold seg_end in Hend. unfold checked_add. rewrite (proj2 (Z.ltb_lt _ _)) by lia.
  destruct (align_up_fits (p_vaddr s + p_memsz s)) as [rt ->]; [lia|lia|].
  fold (page_base s) (perms s).
  assert (0 <= page_base s) as Hpb by (apply align_down_nonneg; lia).
  destruct (last ds) as [l|] eqn:El.
  - destruct Hlast as (Hpt & _ & Hprt & Hpf). apply last_Some_elem_of in El. rewrite Forall_forall in Hds.
    destruct (Hds l El) as (Hb & Hpc & _). unfold before in Hb.
    rewrite Hpt, (proj2 (Z.ltb_ge _ _)) by lia. rewrite Hprt, Hpf.
    destruct (page_base s <? page_top l) eqn:Ep; bool_hyps.
    + rewrite (Hpc Ep), Z.eqb_refl, andb_false_r. apply not_panic_ok.
    + rewrite andb_false_r. apply not_panic_ok.
  - subst x. cbn [prev_top prev_rounded_top prev_flags no_extent].
    rewrite (proj2 (Z.ltb_ge (p_vaddr s) 0)), (proj2 (Z.ltb_ge (page_base s) 0)) by lia.
    rewrite andb_false_r. apply not_panic_ok.
Qed.

Lemma max_align_not_panic size_bits file_size p s :
  (loadable p = true -> segment_fine size_bits file_size p) -> not_panic (max_align_body size_bits p s).
Proof.
  intros Hf. unfold max_align_body. destruct s as [ret n]. destruct (loadable p); [|apply not_panic_ok].
  destruct (Hf eq_refl) as (_ & _ & _ & _ & Hp & Hb). cbn [negb]. unfold SIZE_MAX.
  destruct (1 <? p_align p) eqn:E; bool_hyps; cbn [andb].
  - rewrite (Hp E). cbn [Z.eqb negb]. rewrite (proj2 (Z.ltb_ge _ (p_align p))), andb_false_r by lia. apply not_panic_ok.
  - rewrite (proj2 (Z.ltb_ge _ (p_align p))), andb_false_r by lia. apply not_panic_ok.
Qed.

Lemma place_not_panic arch_ size_bits elf file_size physical base max slide s image bss :
  phdr_ok s -> loadable s = true -> segment_fine size_bits file_size s -> file_size < 2 ^ 31 ->
  0 <= physical -> base <= p_vaddr s -> seg_end s <= max -> physical + (max - base) < 2 ^ 64 ->
  not_panic (place_body arch_ elf file_size no_relocs physical base max slide s (image, bss)).
Proof.
  intros [] Hload (_ & _ & Hf & Ho & _) Hsmall Hp Hb He Hfit. unfold u64_ok, seg_end in *. unfold place_body.
  rewrite Hload. cbn [negb]. rewrite (proj2 (Z.ltb_ge _ _)) by lia.
  unfold checked_add. rewrite (proj2 (Z.ltb_lt (p_offset s + _) _)) by lia. rewrite (proj2 (Z.ltb_ge _ _)) by lia.
  rewrite wrap_small by lia. rewrite (proj2 (Z.ltb_lt (_ + p_memsz s) _)) by lia.
  apply not_panic_bind; [apply copy_file_not_panic|]. intros b _. apply not_panic_ok.
Qed.

Lemma range_not_panic size_bits file_size is_reloc s x :
  phdr_ok s -> segment_fine size_bits file_size s -> not_panic (range_body is_reloc 0 s x).
Proof.
  intros [] (_ & Hend & _). unfold u64_ok, seg_end in *. unfold range_body. destruct x as [rs n].
  destruct (negb _); [apply not_panic_ok|]. rewrite Z.add_0_r, wrap_small by lia.
  unfold checked_add. rewrite (proj2 (Z.ltb_lt _ _)) by lia.
  destruct (align_up_fits (p_vaddr s + p_memsz s)) as [t ->]; [lia|lia|].
  apply not_panic_bind; [|intros a _; apply not_panic_ok]. unfold wr. destruct (_ <? _)%nat; by intros m.
Qed.

Lemma no_panic_not {A} (Q : A -> Prop) r : res_post Q no_panic r -> not_panic r.
Proof. intros H m ->. exact H. Qed.

(** Continue with the value and what is known of it. *)
Lemma not_panic_step {A B} (Q : A -> Prop) (r : res A) (k : A -> res B) :
  res_post Q no_panic r -> (forall a, Q a -> not_panic (k a)) -> not_panic (rbind r k).
Proof. intros Hr Hk. destruct r as [a|m| |]; simpl in *; try done. by apply Hk. Qed.

(** The alignment the loader asks for. *)
Definition max_p_align (segs : list elf_phdr) : Z := foldl (fun m p => Z.max m (p_align p)) 0 segs.
Definition file_align (segs : list elf_phdr) : Z := Z.max 4096 (max_p_align segs).

Section Static.
Variables (arch_ : arch) (size_bits : Z) (elf : list Z) (file_size : Z).
Hypothesis elf_bytes : Forall is_byte elf.
Hypothesis elf_size : Z.of_nat (length elf) = file_size.
Hypothesis small_file : file_size < 2 ^ 31.
Hypothesis has_header : 64 <= file_size.
Hypothesis static : static_executable arch_ size_bits elf file_size.

Let hdr := elf_header elf.
Let segs := segments elf hdr.

Lemma static_hdr : header elf ELF64 = Ok hdr /\ hdr_ok hdr.
Proof. exact (elf_header_ok elf file_size elf_bytes elf_size has_header). Qed.

Lemma static_segment s : s ∈ segs -> phdr_ok s /\ loadable s = true /\ segment_fine size_bits file_size s.
Proof.
  intros Hs. pose proof (proj1 (Forall_forall _ _) (segments_ok elf elf_bytes hdr) s Hs) as [H1 H2].
  pose proof (proj1 (Forall_forall _ _) (se_segments _ _ _ _ static) s Hs). auto.
Qed.

Lemma static_max_align :
  res_post (fun m => page_power m /\ m = file_align segs) no_panic (elf64_max_align size_bits elf hdr).
Proof.
  destruct static_hdr as [_ Hok]. pose proof (se_table _ _ _ _ static) as Htab.
  assert (res_post page_power any_panic (elf64_max_align size_bits elf hdr)) as Hpow by (by eapply elf64_max_align_spec).
  assert (res_post (fun m => m = file_align segs) no_panic (elf64_max_align size_bits elf hdr)) as Hval.
  2: { destruct (elf64_max_align size_bits elf hdr); done. }
  unfold elf64_max_align, phdr_size_check. rewrite (proj2 (Z.ltb_ge _ _)) by apply Htab. cbn [rbind].
  eapply (res_post_bind (fun s => s = (max_p_align segs, Z.of_nat (length segs)))).
  - apply (segments_loop elf file_size elf_bytes elf_size small_file hdr Hok Htab
      (fun d s => s = (max_p_align d, Z.of_nat (length d)))).
    + intros p [ret n] Hp. unfold max_align_body. by rewrite Hp.
    + intros d x r s Hl Hpo Hlx _ ->.
      assert (x ∈ segs) as Hx by (unfold segs; rewrite Hl; apply elem_of_app; right; apply list_elem_of_here).
      destruct (static_segment x Hx) as (_ & _ & Hf).
      pose proof (max_align_not_panic size_bits file_size x (max_p_align d, Z.of_nat (length d)) (fun _ => Hf)) as Hnp.
      revert Hnp. unfold max_align_body. rewrite Hlx. cbn [negb]. rewrite length_app.
      destruct (_ && _); [intros Hnp; by destruct (Hnp _ eq_refl)|].
      destruct (_ && _); [intros Hnp; by destruct (Hnp _ eq_refl)|]. intros _. cbn [res_post loop_post].
      unfold max_p_align. rewrite foldl_app. simpl. f_equal; [case_if; lia|lia].
    + done.
  - intros [ret n] [= -> ->]. assert (segs <> []) as Hne by apply static.
    rewrite (proj2 (Z.eqb_neq _ _)) by (destruct segs; [done|simpl; lia]). cbn [res_post].
    unfold file_align. case_if; lia.
Qed.

Lemma static_extents is_reloc want :
  res_post (extent_inv is_reloc want segs) no_panic
    (to_end (over_phdrs elf ELF64 true hdr (extent_body is_reloc want) no_extent)).
Proof.
  destruct static_hdr as [_ Hok]. pose proof (se_table _ _ _ _ static) as Htab.
  apply (segments_loop elf file_size elf_bytes elf_size small_file hdr Hok Htab); [| |apply no_extent_inv].
  - intros p s Hp. unfold extent_body. by rewrite Hp.
  - intros d x r s Hl Hpo Hlx Hd Hi. apply not_panic_post; [by apply extent_step|].
    assert (forall y, y ∈ d \/ y = x -> y ∈ segs) as Hin.
    { intros y Hy. unfold segs. rewrite Hl. destruct Hy as [| ->]; apply elem_of_app; [by left|right; apply list_elem_of_here]. }
    apply (extent_not_panic size_bits file_size is_reloc want d); auto; [by apply static_segment, Hin; right|].
    pose proof (se_order _ _ _ _ static) as Ho. pose proof (se_pages _ _ _ _ static) as Hp.
    fold hdr in Ho, Hp. rewrite Hl in Ho, Hp. apply Forall_forall. intros y Hy.
    split_and!; [by eapply (FOP_middle before)|by eapply (FOP_middle page_compatible)|].
    destruct (static_segment y) as (_ & _ & Hf); [by apply Hin; left|]. apply Hf.
Qed.

Lemma static_not_relocatable : elf64_is_relocatable elf hdr = Ok false.
Proof.
  pose proof (se_table _ _ _ _ static) as [Hs _]. unfold elf64_is_relocatable, phdr_size_check.
  rewrite (proj2 (Z.ltb_ge _ _)) by done. cbn [rbind]. fold hdr.
  pose proof (se_type _ _ _ _ static) as Ht. fold hdr in Ht. by rewrite Ht.
Qed.

Lemma static_ranges : not_panic (elf64_get_ranges elf hdr 0).
Proof.
  destruct static_hdr as [_ Hok]. pose proof (se_table _ _ _ _ static) as Htab.
  unfold elf64_get_ranges, phdr_size_check. rewrite (proj2 (Z.ltb_ge _ _)) by apply Htab. cbn [rbind].
  rewrite static_not_relocatable. cbn [rbind].
  assert (forall s, s ∈ segs -> ranged false s = true) as Hr.
  { intros s Hs. destruct (static_segment s Hs) as (_ & Hls & Hf & _). unfold ranged. rewrite Hls. fold (low s).
    by rewrite Hf. }
  apply (not_panic_step (fun n => n = Z.of_nat (length segs))).
  { apply (segments_loop elf file_size elf_bytes elf_size small_file hdr Hok Htab (fun d n => n = Z.of_nat (length d))).
    - intros p s Hp. unfold count_range_body, ranged. by rewrite Hp.
    - intros d x r s Hl _ _ _ ->. unfold count_range_body. fold segs in Hl.
      rewrite Hr by (rewrite Hl; apply elem_of_app; right; apply list_elem_of_here).
      cbn. rewrite length_app. simpl. lia.
    - done. }
  intros n ->. assert (segs <> []) as Hne by apply static. rewrite (proj2 (Z.eqb_neq _ _)).
  2: { destruct segs; [done|]. simpl. lia. }
  assert (Z.of_nat (length segs) < 2 ^ 16) as Hlen.
  { unfold segs, segments. pose proof (length_filter (fun p => loadable p = true) (phdrs elf ELF64 hdr)) as Hf.
    unfold phdrs in Hf at 2. rewrite length_map, length_seqZ in Hf. destruct Hok. lia. }
  unfold alloc_counted, checked_mul. rewrite (proj2 (Z.ltb_lt _ _)) by lia. cbn [rbind]. rewrite Nat2Z.id.
  apply (not_panic_step (ranges_inv 0 (length segs) segs)); [|intros [rs k] _; apply not_panic_ok].
  apply (segments_loop elf file_size elf_bytes elf_size small_file hdr Hok Htab (ranges_inv 0 (length segs))).
  - intros p [rs k] Hp. unfold range_body, ranged. by rewrite Hp.
  - intros d x r s Hl Hpo Hlx _ Hi. fold segs in Hl.
    assert (x ∈ segs) as Hx by (rewrite Hl; apply elem_of_app; right; apply list_elem_of_here).
    destruct (static_segment x Hx) as (_ & _ & Hf). apply not_panic_post; [|by eapply range_not_panic].
    apply range_step; auto; [destruct Hf as [-> _]; done|]. rewrite Hl, length_app. simpl. lia.
  - split; [done|]. exists []. split; [constructor|]. cbn. by rewrite Nat.sub_0_r.
Qed.

Lemma static_place physical base max :
  0 <= physical -> 0 <= base -> base <= max -> max < 2 ^ 64 -> physical + (max - base) < 2 ^ 64 ->
  (forall s, s ∈ segs -> base <= p_vaddr s /\ seg_end s <= max) ->
  not_panic (to_end (over_phdrs elf ELF64 true hdr (place_body arch_ elf file_size no_relocs physical base max 0)
       (replicate (Z.to_nat (max - base)) 0, 0))).
Proof.
  intros Hp Hb Hbm Hm Hfit Hin. destruct static_hdr as [_ Hok]. pose proof (se_table _ _ _ _ static) as Htab.
  apply (no_panic_not (placed elf file_size arch_ 0 0 0 [] base (max - base) max segs)).
  apply (segments_loop elf file_size elf_bytes elf_size small_file hdr Hok Htab).
  - intros p [image bss] Hp'. unfold place_body. by rewrite Hp'.
  - intros d x r [image bss] Hl Hpo Hlx Hd Hpl. fold segs in Hl.
    assert (x ∈ segs) as Hx by (rewrite Hl; apply elem_of_app; right; apply list_elem_of_here).
    destruct (static_segment x Hx) as (_ & _ & Hf).
    apply not_panic_post; [|eapply place_not_panic; eauto; by apply Hin].
    apply (place_step elf file_size elf_bytes elf_size arch_ 0 0 0 [] no_relocs); auto; try lia; cbn; try lia.
    + unfold u64_ok. lia.
    + unfold image_top. destruct (last d) as [l|] eqn:El; [|split; [lia|by apply Hin]].
      apply last_Some_elem_of in El. pose proof (se_order _ _ _ _ static) as Ho. fold hdr segs in Ho. rewrite Hl in Ho.
      pose proof (FOP_middle before d x r l Ho El) as Hbx. unfold before in Hbx.
      assert (l ∈ segs) as Hls by (rewrite Hl; apply elem_of_app; by left).
      destruct (static_segment l Hls) as ([] & _). pose proof (proj1 (Hin l Hls)). unfold u64_ok, seg_end in *. lia.
    + by apply Hin.
  - unfold placed, image_top, bss_of. cbn. split_and!; try done; [lia|]. f_equal. lia.
Qed.

Variables (alloc : Z -> Z -> res Z) (rand : nat -> Z).

(** The loader's request for memory is granted. *)
Definition granted : Prop :=
  exists p, alloc (image_top 0 segs - image_base segs) (file_align segs) = Ok p /\
            0 <= p /\ p + (image_top 0 segs - image_base segs) < 2 ^ 64.

Lemma static_load_not_panic kaslr want_ranges want_count want_reloc :
  granted ->
  not_panic (elf64_load arch_ size_bits elf file_size alloc rand kaslr want_ranges want_count want_reloc).
Proof.
  intros Halloc. destruct static_hdr as [Hh Hok]. pose proof (se_table _ _ _ _ static) as Htab.
  unfold elf64_load. rewrite Hh. cbn [rbind]. fold hdr.
  pose proof (se_valid _ _ _ _ static) as Hv. pose proof (se_type _ _ _ _ static) as Ht. fold hdr in Hv, Ht, Htab.
  rewrite Hv. cbn [rbind]. rewrite Ht. change (negb (ET_EXEC =? ET_EXEC) && negb (ET_EXEC =? ET_DYN)) with false. cbn iota.
  unfold phdr_size_check. destruct Htab as [Hsz Hend] eqn:Etab. rewrite (proj2 (Z.ltb_ge _ _)) by done. cbn [rbind].
  pose proof Hok as []. unfold u64_ok in *. unfold checked_mul. rewrite (proj2 (Z.ltb_lt _ _)) by nia.
  unfold checked_add. rewrite (proj2 (Z.ltb_lt _ _)) by lia. rewrite (proj2 (Z.ltb_ge _ _)) by lia.
  rewrite static_not_relocatable. cbn [rbind]. rewrite andb_false_r.
  eapply not_panic_step; [apply static_max_align|]. intros m [Hm ->].
  eapply not_panic_step; [apply static_extents|]. intros x Hext.
  assert (min_vaddr x <> UINT64_MAX) as Hmin.
  { rewrite (ei_first _ _ _ _ Hext). pose proof (se_some _ _ _ _ static) as Hne. fold hdr segs in Hne.
    destruct segs as [|s rest] eqn:Es; [done|]. destruct (static_segment s) as ([] & _ & _ & He & _).
    - rewrite Es. apply list_elem_of_here.
    - unfold UINT64_MAX, seg_end, u64_ok in *. lia. }
  rewrite (proj2 (Z.eqb_neq _ _) Hmin). cbn zeta.
  destruct (extent_facts elf elf_bytes _ _ _ Hext Hmin)
    as (s & l & rest & Hsegs & Hlast & _ & Hmax & Hlow & -> & Hbase & Hsl & Hend' & Hin).
  fold hdr in Hsegs, Hlast, Hbase, Hin |- *. fold segs in Hsegs, Hlast, Hbase, Hin |- *.
  assert (low s = false) as Hls.
  { destruct (static_segment s) as (_ & _ & Hf & _); [rewrite Hsegs; apply list_elem_of_here|done]. }
  rewrite Hlow, Hls, Hmax. cbn [andb]. rewrite (wrap_small 64 (_ - _)) by lia.
  assert (image_top 0 segs = seg_end l) as Htop by (unfold image_top; by rewrite Hlast).
  destruct Halloc as (p & Hp & Hp0 & Hp1). rewrite Htop in Hp, Hp1. rewrite Hp. cbn [rbind choose_slide].
  rewrite (prepare_none size_bits elf file_size hdr elf_size small_file Hok (se_table _ _ _ _ static) (se_static _ _ _ _ static)).
  cbn [rbind]. apply not_panic_bind; [apply static_place; auto; lia|]. intros [img bss] _.
  apply not_panic_bind; [|intros a _; apply not_panic_ok].
  destruct (want_count && want_ranges); [|apply not_panic_ok].
  apply not_panic_bind; [apply static_ranges|]. intros a _. apply not_panic_ok.
Qed.
End Static.

(** C22.  A well-formed static executable is loaded, whatever is asked of the
    loader: when the memory it asks for is granted it returns, with the file's
    entry point, no slide, and as its image exactly the segments, file bytes and
    zeros, each at its address. *)
Theorem static_executable_loads arch_ size_bits elf file_size alloc rand kaslr want_ranges want_count want_reloc
    `{!ImageAllocator alloc} :
  Forall is_byte elf -> Z.of_nat (length elf) = file_size -> 64 <= file_size < 2 ^ 31 ->
  static_executable arch_ size_bits elf file_size -> granted elf alloc ->
  exists L, elf64_load arch_ size_bits elf file_size alloc rand kaslr want_ranges want_count want_reloc = Ok L /\
    entry_point L = h_entry (elf_header elf) /\ l_slide L = 0 /\ is_reloc L = false /\
    l_virtual_base L = image_base (segments elf (elf_header elf)) /\
    image L = image_of elf arch_ 0 0 0 [] (image_base (segments elf (elf_header elf))) (segments elf (elf_header elf)).
Proof.
  intros Hb Hl Hs Hst Hg.
  pose proof (elf64_load_spec arch_ size_bits elf file_size Hb Hl ltac:(lia) alloc rand ltac:(lia)
    kaslr want_ranges want_count want_reloc) as H.
  apply not_panic_post in H; [|by apply static_load_not_panic; try lia].
  destruct (elf64_load _ _ _ _ _ _ _ _ _ _) as [L|m| |] eqn:E; try done. exists L. split; [done|].
  destruct H as [Hi Hp].
  assert (is_reloc L = false) as Hr.
  { destruct (is_reloc L) eqn:Er; [|done]. apply (lp_reloc _ _ _ _ _ _ Hp) in Er.
    by rewrite (static_not_relocatable arch_ size_bits elf file_size Hst) in Er. }
  pose proof (lp_fixed _ _ _ _ _ _ Hp Hr) as Hslide.
  destruct (elf_header_ok elf file_size Hb Hl ltac:(lia)) as [_ Hok].
  pose proof (ho_entry _ Hok) as He. unfold u64_ok in He.
  destruct Hi as [[Hne _] _ _ (symtab & syment & rels & Hrel & Himg) _ _ Hvirt Hent]. rewrite Hslide, Z.add_0_r in Hent, Hvirt.
  rewrite Hslide in Himg. destruct Hrel as (d & t & Hd & Ht & -> & -> & ->).
  rewrite (read_dynamic_none elf file_size (elf_header elf) Hl ltac:(lia) Hok (se_table _ _ _ _ Hst) (se_static _ _ _ _ Hst)) in Hd.
  injection Hd as <-. cbn in Ht. injection Ht as <-.
  split_and!; [by rewrite Hent, wrap_small|done|done| |done].
  rewrite Hvirt. apply wrap_small. destruct (segments elf (elf_header elf)) as [|s rest] eqn:Es; [done|].
  assert (s ∈ segments elf (elf_header elf)) as Hin by (rewrite Es; apply list_elem_of_here).
  destruct (proj1 (Forall_forall _ _) (segments_ok elf Hb (elf_header elf)) s Hin) as [[] _]. unfold u64_ok in *.
  pose proof (page_base_spec s) as [? _]. pose proof (align_down_nonneg (p_vaddr s) 4096). cbn [image_base].
  unfold page_base in *. lia.
Qed.

(** Two segments in the higher half, code and data with a zeroed tail. *)
Definition demo_static : list Z :=
  [
   127; 69; 76; 70; 2; 1; 1; 0; 0; 0; 0; 0; 0; 0; 0; 0; 2; 0; 62; 0; 1; 0; 0; 0; 120; 0; 0; 128;
   255; 255; 255; 255; 64; 0; 0; 0; 0; 0; 0; 0; 0; 0; 0; 0; 0; 0; 0; 0; 0; 0; 0; 0; 64; 0; 56; 0;
   2; 0; 64; 0; 0; 0; 0; 0; 1; 0; 0; 0; 5; 0; 0; 0; 0; 0; 0; 0; 0; 0; 0; 0; 0; 0; 0; 128;
   255; 255; 255; 255; 0; 0; 0; 128; 255; 255; 255; 255; 176; 0; 0; 0; 0; 0; 0; 0; 176; 0; 0; 0; 0; 0; 0; 0;
   0; 16; 0; 0; 0; 0; 0; 0; 1; 0; 0; 0; 6; 0; 0; 0; 176; 0; 0; 0; 0; 0; 0; 0; 0; 16; 0; 128;
   255; 255; 255; 255; 0; 16; 0; 128; 255; 255; 255; 255; 8; 0; 0; 0; 0; 0; 0; 0; 16; 0; 0; 0; 0; 0; 0; 0;
   0; 16; 0; 0; 0; 0; 0; 0; 136; 119; 102; 85; 68; 51; 34; 17].

Lemma demo_static_ok : static_executable X86 64 demo_static 184.
Proof.
  assert (segments demo_static (elf_header demo_static) =
    [MkPhdr 1 5 0 0xffffffff80000000 0xffffffff80000000 176 176 4096;
     MkPhdr 1 6 176 0xffffffff80001000 0xffffffff80001000 8 16 4096]) as Hs by (vm_compute; reflexivity).
  constructor; try rewrite Hs.
  - vm_compute. reflexivity.
  - vm_compute. reflexivity.
  - constructor; vm_compute; discriminate.
  - vm_compute. repeat constructor; discriminate.
  - discriminate.
  - repeat constructor. vm_compute. discriminate.
  - repeat constructor. vm_compute. discriminate.
  - repeat constructor; vm_compute; discriminate.
Qed.

Definition demo_alloc (count align : Z) : res Z := if count <=? 0x10000000 then Ok 0x1000000 else Panic "out of memory".

#[export] Instance demo_alloc_ok : ImageAllocator demo_alloc.
Proof. constructor. intros count align Hc _. unfold demo_alloc, u64_ok in *. case_if; cbn; [lia|done]. Qed.

Lemma static_executable_loads_witness :
  exists L, elf64_load X86 64 demo_static 184 demo_alloc (fun _ => 0) true true true true = Ok L /\
    entry_point L = 0xffffffff80000078 /\ l_slide L = 0.
Proof.
  destruct (static_executable_loads X86 64 demo_static 184 demo_alloc (fun _ => 0) true true true true)
    as (L & HL & He & Hs & _).
  - by apply bytes_check; vm_compute.
  - reflexivity.
  - lia.
  - apply demo_static_ok.
  - exists 0x1000000. vm_compute. split_and!; [reflexivity|discriminate|reflexivity].
  - exists L. split; [exact HL|]. split; [rewrite He; vm_compute; reflexivity|exact Hs].
Defined.
