(* ===== verification/Pe.v ===== *)
(** * The PE loader

    [common/lib/pe.c]: validating a PE32+ file, copying its headers and sections
    to a fresh block of memory, the random slide, base relocations, and the
    ranges the kernel's page tables are built from.  A pointer into the file or
    the image is its offset; the block of the image is the list of its
    [SizeOfImage] bytes.  [alloc] and [rand] are as in [ElfLoad]. *)

From S2P Require Import Prelude CInt Libc Gpt Elf.

Definition IMAGE_DOS_SIGNATURE : Z := 0x5a4d.
Definition IMAGE_FILE_MACHINE_I386 : Z := 0x14c.
Definition IMAGE_FILE_MACHINE_AMD64 : Z := 0x8664.
Definition IMAGE_FILE_MACHINE_ARM64 : Z := 0xaa64.
Definition IMAGE_FILE_MACHINE_RISCV64 : Z := 0x5064.
Definition IMAGE_FILE_MACHINE_LOONGARCH64 : Z := 0x6264.
Definition IMAGE_FILE_RELOCS_STRIPPED : Z := 1.
Definition IMAGE_NT_OPTIONAL_HDR64_MAGIC : Z := 0x20b.
Definition IMAGE_DIRECTORY_ENTRY_IMPORT : nat := 1.
Definition IMAGE_DIRECTORY_ENTRY_BASERELOC : nat := 5.
Definition IMAGE_NT_SIGNATURE : Z := 0x4550.
Definition IMAGE_SCN_MEM_EXECUTE : Z := 0x20000000.
Definition IMAGE_SCN_MEM_READ : Z := 0x40000000.
Definition IMAGE_SCN_MEM_WRITE : Z := 0x80000000.
Definition IMAGE_REL_BASED_ABSOLUTE : Z := 0.
Definition IMAGE_REL_BASED_HIGHLOW : Z := 3.
Definition IMAGE_REL_BASED_DIR64 : Z := 10.

(** ** Structures of the file *)
Definition sizeof_dos : Z := 64.
Definition e_magic (b : list Z) : Z := field b 0 2.
Definition e_lfanew (b : list Z) : Z := field b 60 4.

(** [IMAGE_NT_HEADERS64]; the optional header is at offset 24 and its directories
    are at offset 112 of it. *)
Definition sizeof_nt : Z := 264.
Definition sizeof_file_header : Z := 20.
Definition offsetof_DataDirectory : Z := 112.
Record nt_headers := MkNt {
  Signature : Z;
  Machine : Z; NumberOfSections : Z; SizeOfOptionalHeader : Z; Characteristics : Z;
  Magic : Z; AddressOfEntryPoint : Z; ImageBase : Z; SectionAlignment : Z; SizeOfImage : Z; SizeOfHeaders : Z;
  NumberOfRvaAndSizes : Z; DataDirectory : list (Z * Z);
}.

Definition directory_of (b : list Z) (k : nat) : Z * Z := (field b (136 + 8 * k) 4, field b (140 + 8 * k) 4).

Definition nt_of (b : list Z) : nt_headers :=
  MkNt (field b 0 4) (field b 4 2) (field b 6 2) (field b 20 2) (field b 22 2)
    (field b 24 2) (field b 40 4) (field b 48 8) (field b 56 4) (field b 80 4) (field b 84 4)
    (field b 132 4) (map (directory_of b) (seq 0 16)).

Definition sizeof_section : Z := 40.
Record section := MkSection {
  VirtualSize : Z; VirtualAddress : Z; SizeOfRawData : Z; PointerToRawData : Z; s_Characteristics : Z;
}.

Definition section_of (b : list Z) : section :=
  MkSection (field b 8 4) (field b 12 4) (field b 16 4) (field b 20 4) (field b 36 4).

Definition sizeof_import : Z := 20.
Definition import_name (b : list Z) : Z := field b 12 4.
Definition sizeof_block : Z := 8.

(** ** Reading and writing *)
Definition check (bad : bool) (msg : string) : res unit := if bad then Panic msg else Ok tt.

(** The [n] bytes an access at [off] of [obj] touches. *)
Definition bytes_at (obj : list Z) (off n : Z) : res (list Z) :=
  if (0 <=? off) && (off + n <=? Z.of_nat (length obj))
  then Ok (take (Z.to_nat n) (drop (Z.to_nat off) obj)) else Fault.

(** [memcpy(image + off, bytes, n)] *)
Definition copy_to (image : list Z) (off : Z) (bytes : list Z) : res (list Z) :=
  if (0 <=? off) && (off + Z.of_nat (length bytes) <=? Z.of_nat (length image))
  then Ok (buf_write image (Z.to_nat off) bytes) else Fault.

Definition reloc_load (image : list Z) (p size : nat) : res Z := reloc_load_from size 0 image p 0.

Definition reloc_store (image : list Z) (p : nat) (v : Z) (size : nat) : res (list Z) :=
  for_range size 0 (fun i image => wr image (p + i) (u8 (Z.shiftr v (Z.of_nat i * 8)))) image.

Definition pe_section_virtual_size (s : section) : Z :=
  if VirtualSize s =? 0 then SizeOfRawData s else VirtualSize s.

Definition pe64_data_directory (nt : nt_headers) (index : nat) : option (Z * Z) :=
  if NumberOfRvaAndSizes nt <=? Z.of_nat index then None else DataDirectory nt !! index.

Section Pe.
Variable arch_ : arch.
Variable file : list Z.
Variable file_size : Z.

(** ** Validation *)
Definition native : Z * string :=
  match arch_ with
  | X86 => (IMAGE_FILE_MACHINE_AMD64, "pe: Not an x86-64 PE file")
  | AARCH64 => (IMAGE_FILE_MACHINE_ARM64, "pe: Not an ARM64 PE file")
  | RISCV64 => (IMAGE_FILE_MACHINE_RISCV64, "pe: Not a RISC-V PE file")
  | LOONGARCH64 => (IMAGE_FILE_MACHINE_LOONGARCH64, "pe: Not a loongarch64 PE file")
  end.

Definition nt_at (lfanew : Z) : res nt_headers := let! b := bytes_at file lfanew sizeof_nt in Ok (nt_of b).

(** The headers that were found valid, with their offset. *)
Definition pe64_validate : res (Z * nt_headers) :=
  let! _ := check (file_size <? sizeof_dos) "pe: File too small for DOS header" in
  let! dos := bytes_at file 0 sizeof_dos in
  let! _ := check (negb (e_magic dos =? IMAGE_DOS_SIGNATURE)) "pe: Not a valid PE file" in
  let! _ := check (file_size <? sizeof_nt) "pe: File too small for NT headers" in
  let! _ := check (file_size - sizeof_nt <? e_lfanew dos) "pe: e_lfanew offset out of bounds" in
  let! _ := check (negb (e_lfanew dos mod 8 =? 0)) "pe: NT headers are not aligned in the file" in
  let! nt := nt_at (e_lfanew dos) in
  let! _ := check (negb (Signature nt =? IMAGE_NT_SIGNATURE)) "pe: Not a valid PE file" in
  let! _ := check (negb (Magic nt =? IMAGE_NT_OPTIONAL_HDR64_MAGIC)) "pe: Not a valid PE32+ file" in
  let directory_count := MIN (NumberOfRvaAndSizes nt) 16 in
  let directories_size := directory_count * 8 in
  let! _ := check (SizeOfOptionalHeader nt <? offsetof_DataDirectory + directories_size)
              "pe: SizeOfOptionalHeader too small" in
  let! _ := check (negb (Machine nt =? fst native)) (snd native) in
  Ok (e_lfanew dos, nt).

Definition pe_bits : res Z :=
  if file_size <? sizeof_dos then Ok (-1)
  else
    let! dos := bytes_at file 0 sizeof_dos in
    if negb (e_magic dos =? IMAGE_DOS_SIGNATURE) then Ok (-1)
    else if file_size <? sizeof_nt then Ok (-1)
    else if file_size - sizeof_nt <? e_lfanew dos then Ok (-1)
    else if negb (e_lfanew dos mod 8 =? 0) then Ok (-1)
    else
      let! nt := nt_at (e_lfanew dos) in
      if negb (Signature nt =? IMAGE_NT_SIGNATURE) then Ok (-1)
      else if Machine nt =? IMAGE_FILE_MACHINE_I386 then Ok 32
      else if bool_decide (Machine nt ∈ [IMAGE_FILE_MACHINE_AMD64; IMAGE_FILE_MACHINE_ARM64;
                                         IMAGE_FILE_MACHINE_RISCV64; IMAGE_FILE_MACHINE_LOONGARCH64]) then Ok 64
      else Ok (-1).

(** The array of section headers. *)
Fixpoint sections_at (n : nat) (off : Z) : res (list section) :=
  match n with
  | O => Ok []
  | S n =>
      let! b := bytes_at file off sizeof_section in
      let! rest := sections_at n (off + sizeof_section) in
      Ok (section_of b :: rest)
  end.

(** ** Sections into the image

    [prev_top] is where the section before ends. *)
Fixpoint place_sections (alignment image_size : Z) (sections : list section) (prev_top : Z) (image : list Z)
    : res (list Z) :=
  match sections with
  | [] => Ok image
  | s :: sections =>
      let section_size := pe_section_virtual_size s in
      let section_raw_size := if section_size <? SizeOfRawData s then section_size else SizeOfRawData s in
      let! _ := check (image_size <? VirtualAddress s + section_raw_size) "pe: Section %U exceeds image bounds" in
      let! _ := check (image_size <? VirtualAddress s + section_size) "pe: Section %U virtual size exceeds image bounds" in
      let! _ := check (VirtualAddress s <? prev_top) "pe: Section %U overlaps or is out of order" in
      let prev_top := VirtualAddress s + section_size in
      let! _ := check (negb (VirtualAddress s mod alignment =? 0)) "pe: Section %U is not aligned to SectionAlignment" in
      let! _ := check (file_size <? PointerToRawData s + section_raw_size) "pe: Section %U data extends beyond file bounds" in
      let! bytes := bytes_at file (PointerToRawData s) section_raw_size in
      let! image := copy_to image (VirtualAddress s) bytes in
      place_sections alignment image_size sections prev_top image
  end.

(** ** The slide *)
Variable rand : nat -> Z.

Definition kaslr_body (alignment lower virtual_base image_size try_count : Z) : res (Z + Z) :=
  let slide := u64 (Z.land (rand (Z.to_nat try_count)) (u64 (Z.lnot (alignment - 1))) + lower) in
  if u64 (virtual_base + slide + image_size) <? 0xffffffff80000000 then
    if try_count + 1 =? 0x10000 then Panic "pe: Image wants to load too high" else Ok (inl (try_count + 1))
  else Ok (inr slide).

Definition choose_slide (randomise : bool) (alignment lower virtual_base image_size : Z) : res Z :=
  if randomise
  then loop (kaslr_body alignment lower virtual_base image_size) (fun try_count => 0x10000 - try_count) 0
  else Ok lower.
End Pe.

(** ** Relocations *)
Section Relocations.
Variable image_size : Z.
Variable lower_to_higher : bool.
Variable slide : Z.

(** How many bytes a relocation of this type changes. *)
Definition write_size (type : Z) : res Z :=
  if type =? IMAGE_REL_BASED_HIGHLOW then
    if lower_to_higher then Panic "pe: 32-bit relocations are incompatible with higher-half loading" else Ok 4
  else if type =? IMAGE_REL_BASED_DIR64 then Ok 8
  else Panic "pe: Unsupported relocation type %u".

(** The entries of a block, which start at [relocs]. *)
Fixpoint apply_entries (n : nat) (relocs block_va : Z) (image : list Z) : res (list Z) :=
  match n with
  | O => Ok image
  | S n =>
      let! entry := bytes_at image relocs 2 in
      let type := Z.shiftr (field entry 0 2) 12 in
      let offset := Z.land (field entry 0 2) 0xfff in
      if type =? IMAGE_REL_BASED_ABSOLUTE then apply_entries n (relocs + 2) block_va image
      else
        let! size := write_size type in
        let! _ := check (image_size <? block_va + offset + size) "pe: Relocation offset out of bounds" in
        let ptr := Z.to_nat (block_va + offset) in
        let! v := reloc_load image ptr (Z.to_nat size) in
        let! image := reloc_store image ptr (u64 (v + slide)) (Z.to_nat size) in
        apply_entries n (relocs + 2) block_va image
  end.

(** One block of the directory of [size] bytes at [va]. *)
Definition block_body (va size : Z) (s : Z * list Z) : res (Z * list Z + list Z) :=
  let '(reloc_block_offset, image) := s in
  if size - reloc_block_offset <? sizeof_block then Ok (inr image)
  else
    let! _ := check (negb ((va + reloc_block_offset) mod 4 =? 0)) "pe: Relocation block is not aligned in the image" in
    let! block := bytes_at image (va + reloc_block_offset) sizeof_block in
    let block_va := field block 0 4 in
    let block_size := field block 4 4 in
    let! _ := check (block_size <? sizeof_block) "pe: Invalid relocation block size" in
    let! _ := check (size - reloc_block_offset <? block_size) "pe: Relocation block size exceeds directory" in
    let! _ := check (image_size <=? block_va) "pe: Relocation block VirtualAddress out of bounds" in
    let entries := (block_size - sizeof_block) / 2 in
    let! image := apply_entries (Z.to_nat entries) (va + reloc_block_offset + sizeof_block) block_va image in
    Ok (inl (reloc_block_offset + block_size, image)).

Definition apply_relocations (reloc_dir : option (Z * Z)) (image : list Z) : res (list Z) :=
  match reloc_dir with
  | None => Ok image
  | Some (va, size) =>
      if va =? 0 then Ok image
      else
        let! _ := check ((image_size <=? va) || (image_size - va <? size))
                    "pe: Relocation directory VirtualAddress out of bounds" in
        loop (block_body va size) (fun '(offset, _) => size - offset) (0, image)
  end.

Definition check_imports (import_dir : option (Z * Z)) (image : list Z) : res unit :=
  match import_dir with
  | None => Ok tt
  | Some (va, size) =>
      if size =? 0 then Ok tt
      else
        let! _ := check ((image_size <=? va) || (image_size - va <? sizeof_import))
                    "pe: Import directory VirtualAddress out of bounds" in
        let! _ := check (negb (va mod 4 =? 0)) "pe: Import directory is not aligned in the image" in
        let! desc := bytes_at image va sizeof_import in
        check (negb (import_name desc =? 0)) "pe: Kernel must not have any imports"
  end.
End Relocations.

(** ** The ranges *)
Definition unwrap {A : Type} (msg : string) (o : option A) : res A :=
  match o with Some a => Ok a | None => Panic msg end.

Definition section_permissions (characteristics : Z) : Z :=
  let p := if negb (Z.land characteristics IMAGE_SCN_MEM_EXECUTE =? 0) then MEM_RANGE_X else 0 in
  let p := if negb (Z.land characteristics IMAGE_SCN_MEM_WRITE =? 0) then Z.lor p MEM_RANGE_W else p in
  if negb (Z.land characteristics IMAGE_SCN_MEM_READ =? 0) then Z.lor p MEM_RANGE_R else p.

(** A range of at most what is left of the image. *)
Definition clamped (image_top base length permissions : Z) : mem_range :=
  MkRange base (if u64 (image_top - base) <? length then u64 (image_top - base) else length) permissions.

Fixpoint section_ranges (alignment virtual_base image_top : Z) (sections : list section) : res (list mem_range) :=
  match sections with
  | [] => Ok []
  | s :: sections =>
      let! length := unwrap "pe: Alignment overflow" (ALIGN_UP (pe_section_virtual_size s) alignment) in
      let! rest := section_ranges alignment virtual_base image_top sections in
      Ok (clamped image_top (u64 (virtual_base + VirtualAddress s)) length
            (section_permissions (s_Characteristics s)) :: rest)
  end.

(** [SizeOfHeaders] is 32 bits wide, and rounded at this width. *)
Definition pe_ranges (nt : nt_headers) (sections : list section) (virtual_base : Z) : res (list mem_range) :=
  let headers_within_section := existsb (fun s => VirtualAddress s =? 0) sections in
  let! image_extent := unwrap "pe: Alignment overflow" (ALIGN_UP (SizeOfImage nt) 0x1000) in
  let! image_top := unwrap "pe: Image extends past the address space" (CHECKED_ADD virtual_base image_extent) in
  let! headers :=
    (if headers_within_section then Ok []
     else
       let! length := unwrap "pe: Alignment overflow" (align_up 32 (SizeOfHeaders nt) 0x1000) in
       Ok [clamped image_top virtual_base length MEM_RANGE_R]) in
  let! ranges := section_ranges (SectionAlignment nt) virtual_base image_top sections in
  Ok (headers ++ ranges).

(** ** Loading *)
Record pe_loaded := MkPe {
  pe_entry : Z; pe_slide : Z; pe_ranges_ : option (list mem_range); pe_physical_base : Z; pe_virtual_base : Z;
  pe_image_size : Z; pe_is_reloc : bool; pe_image : list Z;
}.

Section Load.
Variable arch_ : arch.
Variable file : list Z.
Variable file_size : Z.
Variable alloc : Z -> Z -> res Z.
Variable rand : nat -> Z.

(** The headers' pages have to end before the first section. *)
Definition check_headers (nt : nt_headers) (first : section) : res unit :=
  if negb (VirtualAddress first =? 0) then
    let! headers_top := unwrap "pe: Alignment overflow" (ALIGN_UP (SizeOfHeaders nt) 0x1000) in
    check (VirtualAddress first <? headers_top) "pe: Headers overlap the first section"
  else Ok tt.

(** What is checked of the headers before memory is allocated. *)
Definition pe_header : res (nt_headers * list section) :=
  let! (lfanew, nt) := pe64_validate arch_ file file_size in
  let sections_offset := lfanew + 4 + sizeof_file_header + SizeOfOptionalHeader nt in
  let sections_end := sections_offset + NumberOfSections nt * sizeof_section in
  let! _ := check (file_size <? sections_end) "pe: Section headers extend beyond file bounds" in
  let! _ := check (negb (sections_offset mod 4 =? 0)) "pe: Section headers are not aligned in the file" in
  let! _ := check (NumberOfSections nt =? 0) "pe: Executable has no sections" in
  let! sections := sections_at file (Z.to_nat (NumberOfSections nt)) sections_offset in
  let alignment := SectionAlignment nt in
  let! _ := check (alignment =? 0) "pe: SectionAlignment is zero" in
  let! _ := check ((1 <? alignment) && negb (Z.land alignment (alignment - 1) =? 0))
              "pe: SectionAlignment is not a power of 2" in
  let! _ := check (alignment <? 0x1000) "pe: SectionAlignment is below the page size" in
  Ok (nt, sections).

Definition is_relocatable (nt : nt_headers) : bool :=
  Z.land (Characteristics nt) IMAGE_FILE_RELOCS_STRIPPED =? 0.

Definition pe64_load (kaslr want_ranges : bool) : res pe_loaded :=
  let! (nt, sections) := pe_header in
  let is_reloc := is_relocatable nt in
  let image_base := ImageBase nt in
  let image_size := SizeOfImage nt in
  let alignment := SectionAlignment nt in
  let lower_to_higher := image_base <? FIXED_HIGHER_HALF_OFFSET_64 in
  let! _ := check (lower_to_higher && negb is_reloc) "pe: Lower half images are not allowed" in
  let lower := if lower_to_higher then u64 (FIXED_HIGHER_HALF_OFFSET_64 - image_base) else 0 in
  let! physical_base := alloc image_size alignment in
  let image := replicate (Z.to_nat image_size) 0 in
  let! _ := check ((file_size <? SizeOfHeaders nt) || (image_size <? SizeOfHeaders nt))
              "pe: SizeOfHeaders exceeds file or image size" in
  let! headers := bytes_at file 0 (SizeOfHeaders nt) in
  let! image := copy_to image 0 headers in
  let! slide := choose_slide rand (is_reloc && kaslr) alignment lower image_base image_size in
  let! image := place_sections file file_size alignment image_size sections 0 image in
  let! first := rd sections 0 in
  let! _ := check_headers nt first in
  let! _ := check_imports image_size (pe64_data_directory nt IMAGE_DIRECTORY_ENTRY_IMPORT) image in
  let! image := apply_relocations image_size lower_to_higher slide
                  (pe64_data_directory nt IMAGE_DIRECTORY_ENTRY_BASERELOC) image in
  let virtual_base := u64 (image_base + slide) in
  let! ranges := (if want_ranges then let! r := pe_ranges nt sections virtual_base in Ok (Some r) else Ok None) in
  Ok (MkPe (u64 (virtual_base + AddressOfEntryPoint nt)) slide ranges physical_base virtual_base image_size is_reloc image).
End Load.
