(* ===== verification/PeProps.v ===== *)
(** * The PE loader: what it promises *)

From S2P Require Import Prelude CInt Libc Gpt FatChain Elf ElfFacts ElfPatch ElfProps Pe.

(** ** Steps of the loader *)
Lemma check_post {B} (Q : B -> Prop) bad msg k :
  (bad = false -> res_post Q any_panic (k tt)) -> res_post Q any_panic (rbind (check bad msg) k).
Proof. unfold check. destruct bad; cbn; auto. done. Qed.

Lemma unwrap_post {A B} (Q : B -> Prop) msg (o : option A) k :
  (forall a, o = Some a -> res_post Q any_panic (k a)) -> res_post Q any_panic (rbind (unwrap msg o) k).
Proof. destruct o; cbn; auto. done. Qed.

Definition slice_of (obj : list Z) (off n : Z) : list Z := take (Z.to_nat n) (drop (Z.to_nat off) obj).

Lemma bytes_at_ok obj off n : 0 <= off -> off + n <= Z.of_nat (length obj) -> bytes_at obj off n = Ok (slice_of obj off n).
Proof. intros. unfold bytes_at. by rewrite !(proj2 (Z.leb_le _ _)) by lia. Qed.

Lemma length_slice_of obj off n : 0 <= off -> 0 <= n -> off + n <= Z.of_nat (length obj) ->
  Z.of_nat (length (slice_of obj off n)) = n.
Proof. intros. unfold slice_of. rewrite length_take, length_drop. lia. Qed.

Lemma slice_of_bytes obj off n : Forall is_byte obj -> Forall is_byte (slice_of obj off n).
Proof. intros. by apply Forall_take, Forall_drop. Qed.

Lemma lookup_slice_of obj off n i : (i < Z.to_nat n)%nat -> slice_of obj off n !! i = obj !! (Z.to_nat off + i)%nat.
Proof. intros. unfold slice_of. by rewrite lookup_take_lt, lookup_drop. Qed.

Lemma copy_to_ok image off bs : 0 <= off -> off + Z.of_nat (length bs) <= Z.of_nat (length image) ->
  copy_to image off bs = Ok (buf_write image (Z.to_nat off) bs).
Proof. intros. unfold copy_to. by rewrite !(proj2 (Z.leb_le _ _)) by lia. Qed.

Lemma lookup_buf_write_in {A} (buf xs : list A) o i :
  (o <= length buf)%nat -> (o <= i < o + length xs)%nat -> buf_write buf o xs !! i = xs !! (i - o)%nat.
Proof.
  intros Hl Hi. unfold buf_write. rewrite lookup_app_r by (rewrite length_take; lia).
  rewrite length_take, lookup_app_l by lia. f_equal. lia.
Qed.

(** ** The headers *)
Record nt_ok (nt : nt_headers) : Prop := {
  nt_sections : 0 <= NumberOfSections nt < 2 ^ 16;
  nt_opt_size : 0 <= SizeOfOptionalHeader nt < 2 ^ 16;
  nt_base : 0 <= ImageBase nt < 2 ^ 64;
  nt_align : 0 <= SectionAlignment nt < 2 ^ 32;
  nt_size : 0 <= SizeOfImage nt < 2 ^ 32;
  nt_headers_size : 0 <= SizeOfHeaders nt < 2 ^ 32;
  nt_directories : forall k va size, DataDirectory nt !! k = Some (va, size) -> 0 <= va < 2 ^ 32 /\ 0 <= size < 2 ^ 32;
  nt_directory_count : length (DataDirectory nt) = 16%nat;
}.

Record section_ok (s : section) : Prop := {
  sec_vsize : 0 <= VirtualSize s < 2 ^ 32;
  sec_va : 0 <= VirtualAddress s < 2 ^ 32;
  sec_raw : 0 <= SizeOfRawData s < 2 ^ 32;
  sec_ptr : 0 <= PointerToRawData s < 2 ^ 32;
}.

Lemma nt_of_ok b : Forall is_byte b -> nt_ok (nt_of b).
Proof.
  intros Hb. assert (forall off n, 0 <= field b off n < 256 ^ Z.of_nat n) as Hf by (intros; by apply field_range).
  split; cbn [NumberOfSections SizeOfOptionalHeader ImageBase SectionAlignment SizeOfImage SizeOfHeaders DataDirectory nt_of];
    try apply Hf; [|by rewrite length_map].
  intros k va size H. apply list_lookup_fmap_Some in H as (i & [= -> ->] & _). split; apply Hf.
Qed.

Lemma section_of_ok b : Forall is_byte b -> section_ok (section_of b).
Proof.
  intros Hb. assert (forall off n, 0 <= field b off n < 256 ^ Z.of_nat n) as Hf by (intros; by apply field_range).
  split; apply Hf.
Qed.

(** How much of a section is in memory, and how much of it comes from the file. *)
Abbreviation vsize := pe_section_virtual_size.
Definition raw_size (s : section) : Z := Z.min (vsize s) (SizeOfRawData s).

Lemma vsize_range s : section_ok s -> 0 <= vsize s < 2 ^ 32 /\ 0 <= raw_size s <= vsize s.
Proof. intros []. unfold raw_size, pe_section_virtual_size. case_if; lia. Qed.

(** What the file says: its headers, its sections, and the image they describe
    before relocation. *)
Section File.
Variable file : list Z.

Definition file_lfanew : Z := e_lfanew (slice_of file 0 sizeof_dos).
Definition file_nt : nt_headers := nt_of (slice_of file file_lfanew sizeof_nt).
Definition table_offset : Z := file_lfanew + 4 + sizeof_file_header + SizeOfOptionalHeader file_nt.
Definition file_section (k : nat) : section :=
  section_of (slice_of file (table_offset + Z.of_nat k * sizeof_section) sizeof_section).
Definition file_sections : list section := map file_section (seq 0 (Z.to_nat (NumberOfSections file_nt))).

Definition covers (i : Z) (s : section) : bool :=
  (VirtualAddress s <=? i) && (i <? VirtualAddress s + raw_size s).

Definition layout_byte (i : Z) : Z :=
  match find (covers i) file_sections with
  | Some s => nth (Z.to_nat (PointerToRawData s + (i - VirtualAddress s))) file 0
  | None => if i <? SizeOfHeaders file_nt then nth (Z.to_nat i) file 0 else 0
  end.

Definition layout : list Z := map layout_byte (seqZ 0 (SizeOfImage file_nt)).

Variable file_size : Z.
Hypothesis Hbytes : Forall is_byte file.
Hypothesis Hsize : Z.of_nat (length file) = file_size.

Lemma validate_post arch_ :
  res_post (fun r => r = (file_lfanew, file_nt) /\ 0 <= file_lfanew /\ file_lfanew + sizeof_nt <= file_size)
    any_panic (pe64_validate arch_ file file_size).
Proof.
  unfold pe64_validate. apply check_post. intros H0. bool_hyps. unfold sizeof_dos in *.
  rewrite bytes_at_ok by lia. cbn [rbind]. apply check_post. intros _. apply check_post. intros H1.
  apply check_post. intros H2. bool_hyps.
  assert (0 <= file_lfanew) as Hl by (apply field_range, slice_of_bytes, Hbytes). fold sizeof_dos in *. fold file_lfanew in *.
  apply check_post. intros _. unfold nt_at. rewrite bytes_at_ok by lia. cbn [rbind].
  do 4 (apply check_post; intros _). cbn. split_and!; [done|lia|lia].
Qed.

Lemma sections_at_ok n : forall k, 0 <= table_offset ->
  table_offset + (Z.of_nat k + Z.of_nat n) * sizeof_section <= file_size ->
  sections_at file n (table_offset + Z.of_nat k * sizeof_section) = Ok (map file_section (seq k n)).
Proof.
  unfold sizeof_section. induction n as [|n IH]; intros k Ht Hn; cbn [sections_at seq map]; [done|].
  unfold sizeof_section. rewrite bytes_at_ok by lia. cbn [rbind].
  replace (table_offset + Z.of_nat k * 40 + 40) with (table_offset + Z.of_nat (S k) * 40) by lia.
  rewrite IH by lia. done.
Qed.

Lemma file_nt_ok : nt_ok file_nt.
Proof. apply nt_of_ok, slice_of_bytes, Hbytes. Qed.

Lemma file_sections_ok : Forall section_ok file_sections.
Proof. apply Forall_fmap, Forall_true. intros k. apply section_of_ok, slice_of_bytes, Hbytes. Qed.

Lemma header_post arch_ :
  res_post (fun r => r = (file_nt, file_sections) /\ file_sections <> [] /\ page_power (SectionAlignment file_nt))
    any_panic (pe_header arch_ file file_size).
Proof.
  unfold pe_header. eapply bind_any; [apply validate_post|]. intros r (-> & Hl & Hl').
  pose proof file_nt_ok as [].
  apply check_post. intros H1. apply check_post. intros _. apply check_post. intros H2. bool_hyps.
  fold table_offset in *. unfold table_offset, sizeof_file_header in *. fold table_offset in *.
  replace (file_lfanew + 4 + 20 + SizeOfOptionalHeader file_nt) with (table_offset + Z.of_nat 0 * sizeof_section)
    by (unfold table_offset, sizeof_file_header; lia).
  rewrite sections_at_ok by (unfold table_offset, sizeof_file_header, sizeof_section in *; lia). cbn [rbind].
  apply check_post. intros H3. apply check_post. intros H4. apply check_post. intros H5. bool_hyps.
  cbn. split; [done|]. split.
  - unfold file_sections. destruct (Z.to_nat (NumberOfSections file_nt)) eqn:E; [lia|done].
  - destruct H4; bool_hyps; [lia|]. exists (Z.log2 (SectionAlignment file_nt)).
    split; [|apply pow2_test; lia].
    split; [change 12 with (Z.log2 4096); by apply Z.log2_le_mono|apply Z.log2_lt_pow2; lia].
Qed.

(** ** Sections into the image *)
Fixpoint placed (alignment image_size prev_top : Z) (sections : list section) : Prop :=
  match sections with
  | [] => True
  | s :: rest =>
      prev_top <= VirtualAddress s /\ VirtualAddress s mod alignment = 0 /\
      VirtualAddress s + vsize s <= image_size /\ PointerToRawData s + raw_size s <= file_size /\
      placed alignment image_size (VirtualAddress s + vsize s) rest
  end.

Lemma placed_in alignment image_size sections : forall prev_top s,
  placed alignment image_size prev_top sections -> s ∈ sections ->
  VirtualAddress s mod alignment = 0 /\ PointerToRawData s + raw_size s <= file_size.
Proof.
  induction sections as [|s sections IH]; intros prev_top s' Hp Hin; [by apply not_elem_of_nil in Hin|].
  destruct Hp as (_ & ? & _ & ? & Hp). apply elem_of_cons in Hin as [->|Hin]; [done|by eapply IH].
Qed.

Lemma placed_above alignment image_size sections : forall prev_top s,
  Forall section_ok sections -> placed alignment image_size prev_top sections -> s ∈ sections ->
  prev_top <= VirtualAddress s /\ VirtualAddress s + vsize s <= image_size.
Proof.
  clear Hbytes Hsize. induction sections as [|s sections IH]; intros prev_top s' Hok Hp Hin; [by apply not_elem_of_nil in Hin|].
  apply Forall_cons in Hok as [Hs Hok]. destruct Hp as (? & _ & ? & _ & Hp).
  apply elem_of_cons in Hin as [->|Hin]; [done|].
  pose proof (vsize_range s Hs). destruct (IH _ s' Hok Hp Hin). lia.
Qed.

Lemma find_covers_above alignment image_size sections prev_top i s :
  Forall section_ok sections -> placed alignment image_size prev_top sections ->
  find (covers i) sections = Some s -> prev_top <= i < image_size.
Proof.
  clear Hbytes Hsize. intros Hok Hp Hf. apply find_some in Hf as [Hin Hc]. apply list_elem_of_In in Hin.
  pose proof (proj1 (Forall_forall _ _) Hok s Hin) as Hs. pose proof (vsize_range s Hs).
  destruct (placed_above _ _ _ _ _ Hok Hp Hin). unfold covers in Hc. bool_hyps. lia.
Qed.

Lemma place_sections_post alignment image_size sections : forall prev_top image,
  Forall section_ok sections -> Z.of_nat (length image) = image_size ->
  res_post (fun image' => placed alignment image_size prev_top sections /\ Z.of_nat (length image') = image_size /\
      forall i, image' !! i = match find (covers (Z.of_nat i)) sections with
                              | Some s => file !! Z.to_nat (PointerToRawData s + (Z.of_nat i - VirtualAddress s))
                              | None => image !! i
                              end) any_panic
    (place_sections file file_size alignment image_size sections prev_top image).
Proof.
  induction sections as [|s sections IH]; intros prev_top image Hok Hl; cbn [place_sections]; [done|].
  apply Forall_cons in Hok as [Hs Hok]. pose proof (vsize_range s Hs) as [Hv Hr].
  replace (if vsize s <? SizeOfRawData s then vsize s else SizeOfRawData s) with (raw_size s)
    by (unfold raw_size; case_if; lia).
  destruct Hs as [_ Hva _ Hptr].
  do 5 (apply check_post; let H := fresh "Hc" in intros H; bool_hyps).
  rewrite bytes_at_ok by lia. cbn [rbind]. pose proof (length_slice_of file (PointerToRawData s) (raw_size s)) as Hsl.
  rewrite copy_to_ok by lia. cbn [rbind].
  eapply res_post_mono; [apply IH; [done|rewrite length_buf_write by lia; done]| |done].
  intros image' (Hp & Hl' & Hi). cbn [placed]. split_and!; try done; [lia..|]. intros i. rewrite Hi. cbn [find].
  destruct (find (covers (Z.of_nat i)) sections) as [s'|] eqn:Ef.
  - assert (covers (Z.of_nat i) s = false) as ->; [|done].
    apply (find_covers_above alignment image_size _ _ _ _ Hok Hp) in Ef. unfold covers.
    rewrite (proj2 (Z.ltb_ge _ _)) by lia. apply andb_false_r.
  - destruct (covers (Z.of_nat i) s) eqn:Ec; unfold covers in Ec; bool_cases.
    + rewrite lookup_buf_write_in by lia. rewrite lookup_slice_of by lia. f_equal. lia.
    + rewrite lookup_buf_write_ne; [done|lia|lia].
    + rewrite lookup_buf_write_ne; [done|lia|lia].
Qed.

Lemma layout_lookup i : (i < Z.to_nat (SizeOfImage file_nt))%nat -> layout !! i = Some (layout_byte (Z.of_nat i)).
Proof.
  intros Hi. unfold layout. rewrite list_lookup_fmap, lookup_seqZ_lt by lia. cbn. by rewrite Z.add_0_l.
Qed.

Lemma length_layout : length layout = Z.to_nat (SizeOfImage file_nt).
Proof. unfold layout. rewrite length_map, length_seqZ. done. Qed.

Lemma nth_byte_of l i : Forall is_byte l -> is_byte (nth i l 0).
Proof.
  intros H. destruct (nth_in_or_default i l 0) as [Hin| ->]; [|unfold is_byte; lia].
  rewrite Forall_forall in H. by apply H, list_elem_of_In.
Qed.

Lemma layout_bytes : Forall is_byte layout.
Proof.
  apply Forall_fmap, Forall_true. intros i. cbn. unfold layout_byte.
  destruct (find _ _); [by apply nth_byte_of|]. case_if; [by apply nth_byte_of|unfold is_byte; lia].
Qed.

Lemma lookup_nth l i : (i < length l)%nat -> l !! i = Some (nth i l 0).
Proof. intros H. destruct (lookup_lt_is_Some_2 l i H) as [x Hx]. by rewrite (nth_lookup_Some _ _ _ _ Hx). Qed.

(** The headers and then the sections give the image the file describes. *)
Lemma copied_layout alignment image' :
  SizeOfHeaders file_nt <= file_size -> SizeOfHeaders file_nt <= SizeOfImage file_nt ->
  placed alignment (SizeOfImage file_nt) 0 file_sections -> Z.of_nat (length image') = SizeOfImage file_nt ->
  (forall i, image' !! i = match find (covers (Z.of_nat i)) file_sections with
     | Some s => file !! Z.to_nat (PointerToRawData s + (Z.of_nat i - VirtualAddress s))
     | None => buf_write (replicate (Z.to_nat (SizeOfImage file_nt)) 0) 0 (slice_of file 0 (SizeOfHeaders file_nt)) !! i
     end) -> image' = layout.
Proof.
  intros Hf Hi Hp Hl H. pose proof file_nt_ok as []. pose proof file_sections_ok as Hok.
  pose proof (length_slice_of file 0 (SizeOfHeaders file_nt)) as Hsl.
  apply (list_eq_same_length _ _ (Z.to_nat (SizeOfImage file_nt))); [apply length_layout|lia|].
  intros i x y Hlt. rewrite H, layout_lookup by done. intros Hx [= <-]. revert Hx. unfold layout_byte.
  destruct (find _ file_sections) as [s|] eqn:Ef.
  - apply find_some in Ef as [Hin Hc]. apply list_elem_of_In in Hin. unfold covers in Hc. bool_hyps.
    pose proof (proj1 (Forall_forall _ _) Hok s Hin) as Hs. destruct Hs.
    destruct (placed_in _ _ _ _ _ Hp Hin) as [_ Hr].
    rewrite lookup_nth by lia. by intros [= <-].
  - destruct (Z.ltb_spec (Z.of_nat i) (SizeOfHeaders file_nt)).
    + rewrite lookup_buf_write_in by (rewrite ?length_replicate; lia). rewrite lookup_slice_of by lia.
      rewrite lookup_nth by lia. intros [= <-]. f_equal. lia.
    + rewrite lookup_buf_write_ne by (rewrite ?length_replicate; lia). rewrite lookup_replicate_2 by lia. by intros [= ->].
Qed.
End File.

(** ** Relocations

    The words a relocation directory names, as offset and size; the block
    headers and entries are read from the bytes of the directory. *)
Definition entry_target (block_va entry : Z) : list (nat * nat) :=
  let type := Z.shiftr entry 12 in
  let offset := Z.land entry 0xfff in
  if type =? IMAGE_REL_BASED_ABSOLUTE then []
  else [(Z.to_nat (block_va + offset), if type =? IMAGE_REL_BASED_HIGHLOW then 4%nat else 8%nat)].

Fixpoint entry_targets (n : nat) (block_va : Z) (bs : list Z) : list (nat * nat) :=
  match n with
  | O => []
  | S n => entry_target block_va (field bs 0 2) ++ entry_targets n block_va (drop 2 bs)
  end.

Fixpoint dir_targets (fuel : nat) (dir : list Z) : list (nat * nat) :=
  match fuel with
  | O => []
  | S fuel =>
      let size := field dir 4 4 in
      if (Z.of_nat (length dir) <? sizeof_block) || (size <? sizeof_block) then []
      else entry_targets (Z.to_nat ((size - sizeof_block) / 2)) (field dir 0 4) (drop 8 dir)
           ++ dir_targets fuel (drop (Z.to_nat size) dir)
  end.

Definition targets_of (dir : list Z) : list (nat * nat) := dir_targets (length dir) dir.

Lemma dir_targets_fuel n : forall m dir, (length dir <= n)%nat -> (length dir <= m)%nat -> dir_targets n dir = dir_targets m dir.
Proof.
  induction n as [|n IH]; intros m dir Hn Hm; destruct m as [|m]; cbn [dir_targets]; try done.
  - rewrite (proj2 (Z.ltb_lt _ _)) by (unfold sizeof_block; lia). done.
  - rewrite (proj2 (Z.ltb_lt _ _)) by (unfold sizeof_block; lia). done.
  - destruct (_ || _) eqn:E; [done|]. bool_hyps. unfold sizeof_block in *. f_equal.
    apply IH; rewrite length_drop; lia.
Qed.

Lemma targets_of_block dir : sizeof_block <= Z.of_nat (length dir) -> sizeof_block <= field dir 4 4 ->
  targets_of dir = entry_targets (Z.to_nat ((field dir 4 4 - sizeof_block) / 2)) (field dir 0 4) (drop 8 dir)
                   ++ targets_of (drop (Z.to_nat (field dir 4 4)) dir).
Proof.
  intros H1 H2. unfold targets_of. destruct (length dir) as [|n] eqn:E; [unfold sizeof_block in H1; lia|].
  cbn [dir_targets]. rewrite E. rewrite !(proj2 (Z.ltb_ge _ _)) by lia. cbn. f_equal.
  unfold sizeof_block in *. apply dir_targets_fuel; rewrite length_drop; lia.
Qed.

(** Adding the slide to a word, and to all of them in order. *)
Definition word (image : list Z) (t : nat * nat) : Z := le_val (take t.2 (drop t.1 image)).
Definition rebase (slide : Z) (image : list Z) (t : nat * nat) : list Z :=
  buf_write image t.1 (le_bytes t.2 (u64 (word image t + slide))).
Definition rebase_all (slide : Z) (image : list Z) (ts : list (nat * nat)) : list Z := foldl (rebase slide) image ts.

Definition target_ok (size : Z) (t : nat * nat) : Prop :=
  (t.2 = 4 \/ t.2 = 8)%nat /\ Z.of_nat t.1 + Z.of_nat t.2 <= size.

(** The word is not in the range of [n] bytes at [off]. *)
Definition avoids (off n : Z) (t : nat * nat) : Prop :=
  Z.of_nat t.1 + Z.of_nat t.2 <= off \/ off + n <= Z.of_nat t.1.

Lemma length_rebase slide image t : target_ok (Z.of_nat (length image)) t -> length (rebase slide image t) = length image.
Proof. intros [_ H]. unfold rebase. rewrite length_buf_write; [done|]. rewrite length_le_bytes. lia. Qed.

Lemma rebase_bytes slide image t : Forall is_byte image -> Forall is_byte (rebase slide image t).
Proof. intros H. apply buf_write_bytes; [done|apply le_bytes_byte]. Qed.

Lemma rebase_outside slide image t i :
  target_ok (Z.of_nat (length image)) t -> avoids (Z.of_nat i) 1 t -> rebase slide image t !! i = image !! i.
Proof.
  intros [_ H] Ha. unfold rebase. rewrite lookup_buf_write_ne; [done|rewrite length_le_bytes; lia|].
  rewrite length_le_bytes. unfold avoids in Ha. lia.
Qed.

Lemma slice_ext l l' off n : 0 <= off ->
  (forall i, off <= Z.of_nat i < off + n -> l !! i = l' !! i) -> slice_of l off n = slice_of l' off n.
Proof.
  intros Ho H. unfold slice_of. apply list_eq. intros i. destruct (decide (i < Z.to_nat n)%nat).
  - rewrite !lookup_take_lt, !lookup_drop by done. apply H. lia.
  - by rewrite !lookup_take_ge by lia.
Qed.

Lemma rebase_slice slide image t off n : 0 <= off ->
  target_ok (Z.of_nat (length image)) t -> avoids off n t -> slice_of (rebase slide image t) off n = slice_of image off n.
Proof.
  intros Ho Ht Ha. apply slice_ext; [done|]. intros i Hi. apply rebase_outside; [done|]. unfold avoids in *. lia.
Qed.

Lemma rebase_all_ok slide ts : forall image, Forall is_byte image -> Forall (target_ok (Z.of_nat (length image))) ts ->
  Forall is_byte (rebase_all slide image ts) /\ length (rebase_all slide image ts) = length image.
Proof.
  induction ts as [|t ts IH]; intros image Hb Hts; [done|]. apply Forall_cons in Hts as [Ht Hts].
  cbn. pose proof (length_rebase slide image t Ht) as Hl. destruct (IH (rebase slide image t)) as [? Hlen].
  - by apply rebase_bytes.
  - by rewrite Hl.
  - unfold rebase_all in *. by rewrite Hlen.
Qed.

Lemma slice_sub image va size k n : 0 <= va -> 0 <= k -> 0 <= n -> k + n <= size ->
  take (Z.to_nat n) (drop (Z.to_nat k) (slice_of image va size)) = slice_of image (va + k) n.
Proof.
  intros. apply list_eq. intros i. destruct (decide (i < Z.to_nat n)%nat).
  - rewrite lookup_take_lt, lookup_drop, !lookup_slice_of by lia. f_equal. lia.
  - unfold slice_of. by rewrite !lookup_take_ge by lia.
Qed.

Lemma load_word image p n : Forall is_byte image -> (p + n <= length image)%nat ->
  reloc_load image p n = Ok (le_val (take n (drop p image))).
Proof. intros. apply (reloc_load_from_spec n 0); [done|lia]. Qed.

Section Relocate.
Variables (image_size slide va size : Z) (lower_to_higher : bool).
Hypothesis Hva : 0 <= va.
Hypothesis Hdir : va + size <= image_size.

(** What the loader knows while it relocates: the image is the one of [image0]
    with the words [ts] moved, and these are the ones the directory names if
    none of the words it names is in the directory itself. *)
Lemma apply_entries_post n : forall relocs block_va image,
  Forall is_byte image -> Z.of_nat (length image) = image_size -> 0 <= block_va ->
  va <= relocs -> relocs + 2 * Z.of_nat n <= va + size ->
  res_post (fun image' => exists ts, image' = rebase_all slide image ts /\ Forall (target_ok image_size) ts /\
      let named := entry_targets n block_va (drop (Z.to_nat (relocs - va)) (slice_of image va size)) in
      (Forall (avoids va size) named -> ts = named)) any_panic
    (apply_entries image_size lower_to_higher slide n relocs block_va image).
Proof.
  induction n as [|n IH]; intros relocs block_va image Hb Hl Hbva Hr Hn; cbn [apply_entries entry_targets].
  { exists []. by split_and!. }
  rewrite bytes_at_ok by lia. cbn [rbind]. set (D := slice_of image va size).
  assert (field (slice_of image relocs 2) 0 2 = field (drop (Z.to_nat (relocs - va)) D) 0 2) as ->.
  { unfold field. rewrite !drop_0. change 2%nat with (Z.to_nat 2). unfold D. rewrite slice_sub by lia.
    rewrite take_ge by (pose proof (length_slice_of image relocs 2); lia). f_equal. f_equal. lia. }
  set (e := field _ 0 2).
  assert (0 <= Z.land e 0xfff < 4096) as Hoff.
  { change 0xfff with (Z.ones 12). rewrite Z.land_ones by lia. apply Z.mod_pos_bound. lia. }
  rewrite drop_drop. replace (Z.to_nat (relocs - va) + 2)%nat with (Z.to_nat (relocs + 2 - va)) by lia.
  unfold entry_target. destruct (Z.shiftr e 12 =? IMAGE_REL_BASED_ABSOLUTE); [by apply IH; try lia|].
  set (t := (Z.to_nat (block_va + Z.land e 0xfff), if Z.shiftr e 12 =? IMAGE_REL_BASED_HIGHLOW then 4%nat else 8%nat)).
  eapply (bind_any (fun k => k = Z.of_nat t.2 /\ (t.2 = 4 \/ t.2 = 8)%nat)).
  { unfold write_size, t. cbn [snd]. case_if; [case_if; [done|cbn; lia]|]. case_if; [cbn; lia|done]. }
  intros k [-> Hk]. apply check_post. intros Hin. bool_hyps.
  assert (target_ok image_size t) as Ht by (split; [done|unfold t in *; cbn [fst] in *; lia]).
  replace (Z.to_nat (block_va + Z.land e 0xfff)) with t.1 by done. rewrite Nat2Z.id.
  rewrite load_word by (done || destruct Ht; lia). cbn [rbind].
  unfold reloc_store. rewrite store_loop_spec by (destruct Ht; lia). cbn [rbind].
  change (buf_write image t.1 (le_bytes t.2 (u64 (le_val (take t.2 (drop t.1 image)) + slide)))) with (rebase slide image t).
  assert (target_ok (Z.of_nat (length image)) t) as Ht' by (by rewrite Hl).
  eapply res_post_mono; [apply IH; [by apply rebase_bytes|by rewrite length_rebase|lia|lia|lia]| |done].
  intros image' (ts & -> & Hts & Hnamed). exists (t :: ts). split; [done|]. split; [by constructor|].
  cbn. intros Ha. apply Forall_cons in Ha as [Ha Has]. f_equal. rewrite rebase_slice in Hnamed by done.
  by apply Hnamed.
Qed.

Lemma rebase_all_slice ts : forall image, Forall (target_ok (Z.of_nat (length image))) ts -> Forall (avoids va size) ts ->
  slice_of (rebase_all slide image ts) va size = slice_of image va size.
Proof.
  induction ts as [|t ts IH]; intros image Hts Ha; [done|]. apply Forall_cons in Hts as [Ht Hts], Ha as [Ha Has].
  cbn. unfold rebase_all in IH. rewrite IH; [by apply rebase_slice| |done]. by rewrite length_rebase.
Qed.

Lemma field_sub image off k n : 0 <= off -> off + sizeof_block <= size -> (k + n <= 8)%nat ->
  field (slice_of image (va + off) sizeof_block) k n = field (drop (Z.to_nat off) (slice_of image va size)) k n.
Proof.
  unfold sizeof_block. intros Ho Hs Hk. unfold field. f_equal. apply list_eq. intros i. destruct (decide (i < n)%nat).
  - rewrite !lookup_take_lt, !lookup_drop, !lookup_slice_of by lia. f_equal. lia.
  - by rewrite !lookup_take_ge by lia.
Qed.

Section Blocks.
Variable image0 : list Z.
Hypothesis Hbytes0 : Forall is_byte image0.
Hypothesis Hlength0 : Z.of_nat (length image0) = image_size.
Hypothesis Hsize : 0 <= size.
Let dir := slice_of image0 va size.
Let named := targets_of dir.

Definition reloc_inv (s : Z * list Z) : Prop :=
  0 <= s.1 <= size /\ exists ts, s.2 = rebase_all slide image0 ts /\ Forall (target_ok image_size) ts /\
    (Forall (avoids va size) named -> named = ts ++ targets_of (drop (Z.to_nat s.1) dir)).

Definition relocated (image : list Z) : Prop :=
  exists ts, image = rebase_all slide image0 ts /\ Forall (target_ok image_size) ts /\
    (Forall (avoids va size) named -> ts = named).

Lemma short_directory d : Z.of_nat (length d) < sizeof_block -> targets_of d = [].
Proof.
  intros H. unfold targets_of. destruct (length d) as [|n] eqn:E; [done|]. cbn [dir_targets].
  by rewrite E, (proj2 (Z.ltb_lt _ _)) by done.
Qed.

Lemma length_dir off : 0 <= off <= size -> Z.of_nat (length (drop (Z.to_nat off) dir)) = size - off.
Proof. intros H. rewrite length_drop. pose proof (length_slice_of image0 va size). unfold dir. lia. Qed.

Lemma block_turn s : reloc_inv s ->
  turn_ok (block_body image_size lower_to_higher slide va size) reloc_inv (fun '(offset, _) => size - offset)
    relocated any_panic s.
Proof.
  destruct s as [off image]. intros (Ho & ts & Him & Hts & Hn). cbn [fst snd] in *. subst image.
  unfold turn_ok, block_body. destruct (rebase_all_ok slide ts image0 Hbytes0) as [Hb Hl]; [by rewrite Hlength0|].
  set (image := rebase_all slide image0 ts) in *.
  destruct (Z.ltb_spec (size - off) sizeof_block) as [Hend|Hmore].
  { cbn. exists ts. split_and!; [done|done|]. intros Ha. rewrite (Hn Ha).
    rewrite short_directory; [by rewrite app_nil_r|]. by rewrite length_dir. }
  apply check_post. intros _. rewrite bytes_at_ok by (unfold sizeof_block in *; lia). cbn [rbind].
  set (bva := field _ 0 4). set (bsize := field _ 4 4).
  assert (0 <= bva) as Hbva by (apply field_range, slice_of_bytes, Hb).
  apply check_post. intros H1. apply check_post. intros H2. apply check_post. intros H3. bool_hyps.
  unfold sizeof_block in *.
  assert (2 * ((bsize - 8) / 2) <= bsize - 8) as Hdiv by (apply Z.mul_div_le; lia).
  assert (0 <= (bsize - 8) / 2) as Hdiv0 by (apply Z.div_pos; lia).
  eapply bind_any; [apply apply_entries_post; [done|lia|done|lia|lia]|].
  intros image' (ts2 & -> & Hts2 & Hn2). cbn. split; [|lia]. split; [cbn; lia|]. exists (ts ++ ts2). cbn [fst snd].
  split; [unfold rebase_all; by rewrite foldl_app|]. split; [by apply Forall_app|]. intros Ha.
  specialize (Hn Ha). rewrite Hn, <- app_assoc. f_equal.
  assert (Forall (avoids va size) ts) as Hts' by (rewrite Hn in Ha; by apply Forall_app in Ha as [? _]).
  assert (slice_of image va size = dir) as Hsl by (apply rebase_all_slice; [by rewrite Hlength0|done]).
  assert (bva = field (drop (Z.to_nat off) dir) 0 4 /\ bsize = field (drop (Z.to_nat off) dir) 4 4) as [Eva Esz].
  { unfold bva, bsize. rewrite !field_sub by (unfold sizeof_block; lia). by rewrite Hsl. }
  rewrite Hsl in Hn2. rewrite targets_of_block in Hn |- * by (rewrite <- ?Esz, ?length_dir; unfold sizeof_block; lia).
  rewrite <- Eva, <- Esz in Hn |- *. rewrite drop_drop in Hn |- *. rewrite drop_drop in Hn |- *.
  replace (Z.to_nat (va + off + 8 - va)) with (Z.to_nat off + 8)%nat in Hn2 by lia. unfold sizeof_block in Hn |- *.
  rewrite Hn2; [|rewrite Hn in Ha; apply Forall_app in Ha as [_ Ha]; by apply Forall_app in Ha as [? _]].
  do 3 f_equal. lia.
Qed.
End Blocks.
End Relocate.

(** * The PE loader: the slide, the ranges, and loading as a whole *)
(** ** The relocation directory and the imports *)
Section Directory.
Variables (image_size slide : Z) (lower_to_higher : bool) (image0 : list Z).
Hypothesis Hbytes0 : Forall is_byte image0.
Hypothesis Hlength0 : Z.of_nat (length image0) = image_size.

(** The directory that is applied, as its place in the image. *)
Definition applied (dir : option (Z * Z)) : Z * Z :=
  match dir with Some (va, size) => if va =? 0 then (0, 0) else (va, size) | None => (0, 0) end.

Definition named_in (dir : option (Z * Z)) : list (nat * nat) :=
  targets_of (slice_of image0 (applied dir).1 (applied dir).2).

Lemma apply_relocations_post dir :
  (forall va size, dir = Some (va, size) -> 0 <= va /\ 0 <= size) ->
  res_post (fun image => exists ts, image = rebase_all slide image0 ts /\ Forall (target_ok image_size) ts /\
      (Forall (avoids (applied dir).1 (applied dir).2) (named_in dir) -> ts = named_in dir)) any_panic
    (apply_relocations image_size lower_to_higher slide dir image0).
Proof.
  intros Hd. unfold named_in, apply_relocations, applied.
  assert (forall image, image = image0 -> exists ts, image = rebase_all slide image0 ts /\ Forall (target_ok image_size) ts /\
    (Forall (avoids 0 0) (targets_of (slice_of image0 0 0)) -> ts = targets_of (slice_of image0 0 0))) as Hnone.
  { intros image ->. exists []. split_and!; try done. }
  destruct dir as [[va size]|]; [|by apply Hnone]. destruct (Hd va size eq_refl).
  destruct (Z.eqb_spec va 0) as [->|Hne]; [by apply Hnone|].
  apply check_post. intros Hc. bool_hyps.
  apply (loop_spec _ (reloc_inv image_size slide va size image0)); [|split; [cbn; lia|]|lia].
  - intros s Hs. apply block_turn; try done; lia.
  - exists []. split_and!; done.
Qed.

Lemma check_imports_post dir :
  (forall va size, dir = Some (va, size) -> 0 <= va /\ 0 <= size) ->
  res_post (fun _ => True) any_panic (check_imports image_size dir image0).
Proof.
  intros Hd. unfold check_imports. destruct dir as [[va size]|]; [|done]. destruct (Hd va size eq_refl).
  case_if; [done|]. apply check_post. intros Hc. apply check_post. intros _. bool_hyps.
  rewrite bytes_at_ok by lia. cbn [rbind]. unfold check. by case_if.
Qed.
End Directory.

(** A word that no other relocation touches moves by the slide, and what no
    relocation touches stays. *)
Lemma rebase_all_outside slide ts i : forall image,
  Forall (target_ok (Z.of_nat (length image))) ts -> Forall (avoids (Z.of_nat i) 1) ts ->
  rebase_all slide image ts !! i = image !! i.
Proof.
  induction ts as [|t ts IH]; intros image Hts Ha; [done|]. apply Forall_cons in Hts as [Ht Hts], Ha as [Ha Has].
  cbn. unfold rebase_all in IH. rewrite IH; [by apply rebase_outside| |done]. by rewrite length_rebase.
Qed.

Lemma word_ext image image' t :
  (forall i, (t.1 <= i < t.1 + t.2)%nat -> image !! i = image' !! i) -> word image t = word image' t.
Proof.
  intros H. unfold word. f_equal. apply list_eq. intros i. destruct (decide (i < t.2)%nat).
  - rewrite !lookup_take_lt, !lookup_drop by done. apply H. lia.
  - by rewrite !lookup_take_ge by lia.
Qed.

Lemma word_kept slide ts t image :
  Forall (target_ok (Z.of_nat (length image))) ts -> Forall (avoids (Z.of_nat t.1) (Z.of_nat t.2)) ts ->
  word (rebase_all slide image ts) t = word image t.
Proof.
  intros Hts Ha. apply word_ext. intros i Hi. apply rebase_all_outside; [done|].
  eapply Forall_impl; [exact Ha|]. intros t' H. unfold avoids in *. lia.
Qed.

Lemma word_rebased slide image l1 t l2 :
  Forall is_byte image -> Forall (target_ok (Z.of_nat (length image))) (l1 ++ t :: l2) ->
  Forall (avoids (Z.of_nat t.1) (Z.of_nat t.2)) (l1 ++ l2) ->
  word (rebase_all slide image (l1 ++ t :: l2)) t = (word image t + slide) mod 256 ^ Z.of_nat t.2.
Proof.
  intros Hb Hts Ha. apply Forall_app in Hts as [H1 H2], Ha as [Ha1 Ha2]. apply Forall_cons in H2 as [Ht H2].
  unfold rebase_all. rewrite foldl_app. cbn [foldl]. fold (rebase_all slide image l1).
  destruct (rebase_all_ok slide l1 image Hb H1) as [Hb1 Hl1].
  set (im := rebase_all slide image l1) in *. change (foldl (rebase slide) ?a l2) with (rebase_all slide a l2).
  assert (target_ok (Z.of_nat (length im)) t) as Ht' by (by rewrite Hl1).
  rewrite word_kept; [|rewrite length_rebase, Hl1; done|done].
  assert (word im t = word image t) as <- by (by apply word_kept).
  destruct Ht' as [Hsz Hend]. unfold word at 1, rebase, buf_write.
  rewrite drop_app_length' by (rewrite length_take; lia). rewrite take_app_length' by (by rewrite length_le_bytes).
  rewrite le_val_bytes. unfold wrap. rewrite Z.mod_mod_divide; [done|].
  destruct Hsz as [-> | ->]; [by exists (2 ^ 32)|by exists 1].
Qed.

(** ** The slide *)
Lemma pe_slide_post rand (randomise : bool) m lower base size :
  u64_ok lower ->
  res_post (fun slide : Z => u64_ok slide /\
      if randomise then randomised rand m lower slide /\ FIXED_HIGHER_HALF_OFFSET_64 <= u64 (base + slide + size)
      else slide = lower) any_panic
    (choose_slide rand randomise m lower base size).
Proof.
  intros Hl. unfold choose_slide. destruct randomise; [|done].
  apply (loop_spec _ (fun t : Z => 0 <= t < 0x10000)); [|lia..].
  intros t Ht. unfold turn_ok, kaslr_body. case_if; [case_if; [done|cbn; lia]|].
  cbn. unfold FIXED_HIGHER_HALF_OFFSET_64. split; [apply wrap_range; lia|]. split; [|lia]. by exists t.
Qed.

(** Where the image comes to lie: [r] is what the random number leaves. *)
Lemma slid_base base size r : 0 <= base < 2 ^ 64 -> 0 <= size < 2 ^ 32 -> 0 <= r < 2 ^ 32 ->
  let lower := if base <? FIXED_HIGHER_HALF_OFFSET_64 then u64 (FIXED_HIGHER_HALF_OFFSET_64 - base) else 0 in
  let slide := u64 (r + lower) in
  FIXED_HIGHER_HALF_OFFSET_64 <= u64 (base + slide + size) ->
  FIXED_HIGHER_HALF_OFFSET_64 <= u64 (base + slide) /\ u64 (base + slide) + size < 2 ^ 64.
Proof.
  unfold FIXED_HIGHER_HALF_OFFSET_64. intros Hb Hs Hr. cbn zeta. case_if; bool_hyps.
  - rewrite (wrap_small 64 (18446744071562067968 - base)) by lia.
    destruct (decide (r + (18446744071562067968 - base) < 2 ^ 64)).
    + rewrite (wrap_small 64 (r + _)) by lia.
      replace (base + (r + (18446744071562067968 - base))) with (18446744071562067968 + r) by lia.
      destruct (u64_cases (18446744071562067968 + r)) as [[? ->]|[? ->]]; [lia| |];
        destruct (u64_cases (18446744071562067968 + r + size)) as [[? ->]|[? ->]]; lia.
    + destruct (u64_cases (r + (18446744071562067968 - base))) as [[? ->]|[? ->]]; [lia|lia|].
      destruct (u64_cases (base + (r + (18446744071562067968 - base) - 2 ^ 64) + size)) as [[? ->]|[? ->]]; lia.
  - rewrite Z.add_0_r, (wrap_small 64 r) by lia.
    destruct (u64_cases (base + r + size)) as [[? ->]|[? ->]]; [lia| |lia]. intros _.
    destruct (u64_cases (base + r)) as [[? ->]|[? ->]]; lia.
Qed.

(** ** The ranges *)

(** The range of a section of an image at [vb] that is [extent] bytes long. *)
Record range_of_section (vb alignment extent : Z) (s : section) (r : mem_range) : Prop := {
  rs_base : base r = vb + VirtualAddress s;
  rs_covers : vsize s <= length_ r;
  rs_inside : base r + length_ r <= vb + extent;
  rs_pages : length_ r mod 4096 = 0;
  (** it ends before the next place a section may start at *)
  rs_next : forall va, va mod alignment = 0 -> VirtualAddress s + vsize s <= va <= extent -> VirtualAddress s + length_ r <= va;
  rs_permissions : permissions r = section_permissions (s_Characteristics s);
}.

Lemma page_power_pages a : page_power a -> (4096 | a) /\ 4096 <= a < 2 ^ 64.
Proof.
  intros (k & Hk & ->). split; [|split; [change 4096 with (2 ^ 12)|]; [apply Z.pow_le_mono_r|apply Z.pow_lt_mono_r]; lia].
  exists (2 ^ (k - 12)). change 4096 with (2 ^ 12). rewrite <- Z.pow_add_r by lia. f_equal. lia.
Qed.

Section Ranges.
Variables (vb alignment extent image_size file_size : Z).
Hypothesis Hvb : 0 <= vb.
Hypothesis Hpow : page_power alignment.
Hypothesis Hal : alignment < 2 ^ 32.
Hypothesis Hext : image_size <= extent.
Hypothesis Hpages : extent mod 4096 = 0.
Hypothesis Htop : vb + extent < 2 ^ 64.

Lemma clamped_range s len : section_ok s -> VirtualAddress s mod alignment = 0 -> VirtualAddress s + vsize s <= image_size ->
  ALIGN_UP (vsize s) alignment = Some len ->
  range_of_section vb alignment extent s
    (clamped (vb + extent) (u64 (vb + VirtualAddress s)) len (section_permissions (s_Characteristics s))).
Proof.
  intros Hs Hm Hend Hlen. pose proof (vsize_range s Hs) as [Hv _]. destruct Hs as [_ Hva _ _].
  destruct (page_power_pages alignment Hpow) as [[q Hq] Ha].
  apply align_up_Some in Hlen as (_ & Hlen & Hmod & _); [|lia..].
  assert (len mod 4096 = 0) as Hp.
  { apply Z.mod_divide in Hmod as [j ->]; [|lia]. rewrite Hq, Z.mul_assoc. by apply Z.mod_mul. }
  assert ((extent - VirtualAddress s) mod 4096 = 0) as Hp'.
  { apply Z.mod_divide in Hm as [j Hj]; [|lia]. rewrite Hj, Zminus_mod, Hpages, Hq, Z.mul_assoc, Z.mod_mul by lia. done. }
  unfold clamped. rewrite (wrap_small 64 (vb + VirtualAddress s)) by lia. rewrite wrap_small by lia.
  replace (vb + extent - (vb + VirtualAddress s)) with (extent - VirtualAddress s) by lia.
  assert (forall va, va mod alignment = 0 -> VirtualAddress s + vsize s <= va -> VirtualAddress s + len <= va) as Hnext.
  { intros va Hva' Hge. assert (alignment <> 0) as Hne by lia.
    apply (Z.mod_divide _ _ Hne) in Hm as [a Hma], Hva' as [b Hmb], Hmod as [c Hc].
    assert (c < b - a + 1) by nia. nia. }
  case_if; bool_hyps; split; cbn; try done; try lia; intros va Hva' Hge; specialize (Hnext va Hva'); lia.
Qed.

Lemma section_ranges_post sections : forall prev_top, Forall section_ok sections -> placed file_size alignment image_size prev_top sections ->
  res_post (Forall2 (range_of_section vb alignment extent) sections) any_panic
    (section_ranges alignment vb (vb + extent) sections).
Proof.
  induction sections as [|s sections IH]; intros prev_top Hok Hp; cbn [section_ranges]; [constructor|].
  apply Forall_cons in Hok as [Hs Hok]. destruct Hp as (_ & Hm & Hend & _ & Hp).
  apply unwrap_post. intros len Hlen. eapply bind_any; [by eapply IH|]. intros rs Hrs. cbn. constructor; [|done].
  by apply clamped_range.
Qed.

Definition before (a b : mem_range) : Prop := base a + length_ a <= base b.

(** Sections start on multiples of the alignment, so their ranges are apart. *)
Lemma ranges_apart sections rs : Forall2 (range_of_section vb alignment extent) sections rs ->
  forall prev_top, Forall section_ok sections -> placed file_size alignment image_size prev_top sections ->
  Forall (fun r => vb + prev_top <= base r) rs /\ List.ForallOrdPairs before rs.
Proof.
  destruct (page_power_pages alignment Hpow) as [_ Ha].
  induction 1 as [|s r sections rs Hr HF IH]; intros prev_top Hok Hp; [split; constructor|].
  apply Forall_cons in Hok as [Hs Hok]. pose proof (vsize_range s Hs) as [Hv _].
  destruct Hp as (Hprev & Hm & Hend & _ & Hp). destruct (IH _ Hok Hp) as [Hlow Hord]. destruct Hr.
  split; constructor; try done; [lia| |].
  - eapply Forall_impl; [exact Hlow|]. cbn. intros; lia.
  - apply Forall_forall. intros r' Hr'. apply list_elem_of_lookup in Hr' as [i Hi].
    destruct (Forall2_lookup_r _ _ _ _ _ HF Hi) as (s' & Hs' & Hr').
    pose proof (Forall_lookup_1 _ _ _ _ Hok Hs') as Hok'. pose proof (vsize_range s' Hok') as [Hv' _].
    pose proof (list_elem_of_lookup_2 _ _ _ Hs') as Hin.
    destruct (placed_above file_size _ _ _ _ s' Hok Hp Hin) as [Habove Hin'].
    destruct (placed_in file_size _ _ _ _ s' Hp Hin) as [Hm' _].
    destruct Hr'. unfold before. specialize (rs_next0 (VirtualAddress s') Hm' ltac:(lia)). lia.
Qed.
End Ranges.

Lemma placed_zero file_size alignment image_size sections : forall prev_top, Forall section_ok sections ->
  placed file_size alignment image_size prev_top sections -> 0 < prev_top -> existsb (fun s => VirtualAddress s =? 0) sections = false.
Proof.
  induction sections as [|s sections IH]; intros prev_top Hok Hp H0; cbn; [done|].
  apply Forall_cons in Hok as [Hs Hok]. destruct Hp as (Hprev & _ & _ & _ & Hp). pose proof (vsize_range s Hs) as [Hv _].
  rewrite (proj2 (Z.eqb_neq _ _)) by lia. cbn. apply (IH _ Hok Hp). lia.
Qed.

(** ** Loading *)
Definition pages (n : Z) : Z := (n + 0x1000 - 1) / 0x1000 * 0x1000.

Lemma pages_spec n : n <= pages n < n + 4096 /\ pages n mod 4096 = 0.
Proof.
  unfold pages. pose proof (Z.div_mod (n + 0x1000 - 1) 0x1000 ltac:(lia)).
  pose proof (Z.mod_pos_bound (n + 0x1000 - 1) 0x1000 ltac:(lia)). split; [lia|]. by apply Z.mod_mul.
Qed.

Lemma align_up_pages w n y : 12 < w -> 0 <= n -> align_up w n 0x1000 = Some y -> y = pages n.
Proof.
  intros Hw Hn H. assert (2 ^ 12 < 2 ^ w) by (apply Z.pow_lt_mono_r; lia).
  apply align_up_Some in H as [-> _]; [done|lia|lia|lia].
Qed.

Section Correct.
Variable arch_ : arch.
Variable file : list Z.
Variable file_size : Z.
Variable alloc : Z -> Z -> res Z.
Context `{!ImageAllocator alloc}.
Variable rand : nat -> Z.
Hypothesis Hbytes : Forall is_byte file.
Hypothesis Hsize : Z.of_nat (length file) = file_size.
Abbreviation nt := (file_nt file).
Abbreviation sections := (file_sections file).
Abbreviation reloc_dir := (pe64_data_directory nt IMAGE_DIRECTORY_ENTRY_BASERELOC).

(** The image is the one the file describes, moved by the slide. *)
Record image_loaded (L : pe_loaded) : Prop := {
  il_size : pe_image_size L = SizeOfImage nt;
  il_base : pe_virtual_base L = u64 (ImageBase nt + pe_slide L);
  il_entry : pe_entry L = u64 (pe_virtual_base L + AddressOfEntryPoint nt);
  il_placed : placed file_size (SectionAlignment nt) (SizeOfImage nt) 0 sections;
  il_image : exists ts, pe_image L = rebase_all (pe_slide L) (layout file) ts /\ Forall (target_ok (SizeOfImage nt)) ts /\
    (Forall (avoids (applied reloc_dir).1 (applied reloc_dir).2) (named_in (layout file) reloc_dir) ->
     ts = named_in (layout file) reloc_dir) /\
    (forall i, (i < Z.to_nat (SizeOfImage nt))%nat -> Forall (avoids (Z.of_nat i) 1) ts ->
     pe_image L !! i = Some (layout_byte file (Z.of_nat i))) /\
    (forall l1 t l2, ts = l1 ++ t :: l2 -> Forall (avoids (Z.of_nat t.1) (Z.of_nat t.2)) (l1 ++ l2) ->
     word (pe_image L) t = (word (layout file) t + pe_slide L) mod 256 ^ Z.of_nat t.2);
}.

Definition headers_range (vb : Z) (r : mem_range) : Prop :=
  base r = vb /\ length_ r = pages (SizeOfHeaders nt) /\ permissions r = MEM_RANGE_R.

Record ranges_loaded (vb : Z) (rs : list mem_range) : Prop := {
  rl_sections : exists hs rs', rs = hs ++ rs' /\
    Forall2 (range_of_section vb (SectionAlignment nt) (pages (SizeOfImage nt))) sections rs' /\
    (if existsb (fun s => VirtualAddress s =? 0) sections then hs = []
     else exists h, hs = [h] /\ headers_range vb h);
  rl_apart : List.ForallOrdPairs before rs;
  rl_inside : Forall (fun r => vb <= base r /\ base r + length_ r <= vb + pages (SizeOfImage nt) /\
                               (base r - vb) mod 4096 = 0 /\ length_ r mod 4096 = 0) rs;
  rl_space : vb + pages (SizeOfImage nt) < 2 ^ 64;
}.

Record slide_chosen (kaslr : bool) (L : pe_loaded) : Prop := {
  sc_reloc : pe_is_reloc L = is_relocatable nt;
  sc_fixed : pe_is_reloc L = false -> pe_slide L = 0 /\ FIXED_HIGHER_HALF_OFFSET_64 <= ImageBase nt;
  sc_pages : (forall k, 0 <= rand k < 2 ^ 32) -> (FIXED_HIGHER_HALF_OFFSET_64 <= ImageBase nt -> ImageBase nt mod 4096 = 0) ->
    pe_virtual_base L mod 4096 = 0;
  sc_random : (forall k, 0 <= rand k < 2 ^ 32) -> pe_is_reloc L && kaslr = true ->
    FIXED_HIGHER_HALF_OFFSET_64 <= pe_virtual_base L /\ pe_virtual_base L + pe_image_size L < 2 ^ 64;
}.

Lemma headers_before first rest : sections = first :: rest ->
  placed file_size (SectionAlignment nt) (SizeOfImage nt) 0 sections ->
  if existsb (fun s => VirtualAddress s =? 0) sections then VirtualAddress first = 0 else 0 < VirtualAddress first.
Proof.
  intros E Hp. pose proof (file_sections_ok file Hbytes) as Hok. rewrite E in *. cbn [existsb].
  apply Forall_cons in Hok as [Hs Hok]. destruct Hp as (Hprev & _ & _ & _ & Hp). pose proof (vsize_range first Hs) as [Hv _].
  destruct (Z.eqb_spec (VirtualAddress first) 0) as [->|Hne]; cbn; [done|].
  rewrite (placed_zero _ _ _ _ _ Hok Hp) by lia. lia.
Qed.

Lemma ranges_post first rest vb : 0 <= vb ->
  page_power (SectionAlignment nt) -> sections = first :: rest -> SizeOfHeaders nt <= SizeOfImage nt ->
  (VirtualAddress first <> 0 -> pages (SizeOfHeaders nt) <= VirtualAddress first) ->
  placed file_size (SectionAlignment nt) (SizeOfImage nt) 0 sections ->
  res_post (ranges_loaded vb) any_panic (pe_ranges nt sections vb).
Proof.
  intros Hvb Hpow Hfirst Hhdr Habove Hp. pose proof (file_nt_ok file Hbytes) as Hnt. pose proof (file_sections_ok file Hbytes) as Hok.
  destruct Hnt as [_ _ _ Hal Hsz Hh _ _]. pose proof (pages_spec (SizeOfImage nt)) as [Hpg Hpm].
  pose proof (pages_spec (SizeOfHeaders nt)) as [Hhg Hhm].
  assert (pages (SizeOfHeaders nt) <= pages (SizeOfImage nt)) as Hle
    by (unfold pages; apply Z.mul_le_mono_nonneg_r; [lia|]; apply Z.div_le_mono; lia).
  unfold pe_ranges. apply unwrap_post. intros extent He. apply align_up_pages in He as ->; [|lia..].
  apply unwrap_post. intros top Ht. apply checked_add_Some in Ht as [-> Htop].
  eapply (bind_any (fun hs => if existsb (fun s => VirtualAddress s =? 0) sections then hs = []
                              else exists h, hs = [h] /\ headers_range vb h)).
  { case_if; [done|]. apply unwrap_post. intros len Hlen. apply align_up_pages in Hlen as ->; [|lia..]. cbn [res_post].
    eexists. split; [done|]. unfold clamped. replace (vb + pages (SizeOfImage nt) - vb) with (pages (SizeOfImage nt)) by lia.
    rewrite wrap_small by lia. rewrite (proj2 (Z.ltb_ge _ _)) by lia. done. }
  intros hs Hhs. eapply bind_any; [apply (section_ranges_post vb _ _ (SizeOfImage nt) file_size Hvb Hpow) with (prev_top := 0); try done; lia|].
  intros rs Hrs. cbn [res_post].
  destruct (ranges_apart vb (SectionAlignment nt) (pages (SizeOfImage nt)) (SizeOfImage nt) file_size Hpow ltac:(lia) _ _ Hrs
    0 Hok Hp) as [Hlow Hord].
  destruct (page_power_pages _ Hpow) as [[q Hq] Ha].
  assert (Forall (fun r => vb + VirtualAddress first <= base r /\ base r + length_ r <= vb + pages (SizeOfImage nt) /\
                           (base r - vb) mod 4096 = 0 /\ length_ r mod 4096 = 0) rs) as Hin.
  { apply Forall_forall. intros r Hr. apply list_elem_of_lookup in Hr as [i Hi].
    destruct (Forall2_lookup_r _ _ _ _ _ Hrs Hi) as (s & Hs & []). apply list_elem_of_lookup_2 in Hs.
    destruct (placed_in file_size _ _ _ _ s Hp Hs) as [Hm _]. rewrite rs_base0 in *.
    split_and!; [|done| |done].
    - rewrite Hfirst in Hs, Hp, Hok. destruct Hp as (_ & _ & _ & _ & Hp). apply Forall_cons in Hok as [Hf Hok].
      pose proof (vsize_range first Hf). apply elem_of_cons in Hs as [->|Hs]; [lia|].
      destruct (placed_above file_size _ _ _ _ s Hok Hp Hs). lia.
    - replace (vb + VirtualAddress s - vb) with (VirtualAddress s) by lia.
      apply Z.mod_divide in Hm as [j ->]; [|lia]. rewrite Hq, Z.mul_assoc. by apply Z.mod_mul. }
  assert (0 <= VirtualAddress first) as Hf0.
  { rewrite Hfirst in Hok. apply Forall_cons in Hok as [[_ ? _ _] _]. lia. }
  split; [by exists hs, rs| | |done].
  - pose proof (headers_before first rest Hfirst Hp) as Hb. destruct (existsb _ _); [by subst hs|].
    destruct Hhs as (h & -> & Hbase & Hlen & _). constructor; [|done]. eapply Forall_impl; [exact Hin|].
    intros r [Hr _]. unfold before. rewrite Hbase, Hlen. specialize (Habove ltac:(lia)). lia.
  - assert (Forall (fun r => vb <= base r /\ base r + length_ r <= vb + pages (SizeOfImage nt) /\
                             (base r - vb) mod 4096 = 0 /\ length_ r mod 4096 = 0) rs) as Hin'.
    { eapply Forall_impl; [exact Hin|]. cbn. intros r (? & ? & ? & ?). split_and!; [lia|done|done|done]. }
    destruct (existsb _ _); [by subst hs|]. destruct Hhs as (h & -> & Hbase & Hlen & _). constructor; [|done].
    rewrite Hbase, Hlen. split_and!; [lia|lia| |done]. by rewrite Z.sub_diag.
Qed.

Lemma lower_u64 b : u64_ok (if b <? FIXED_HIGHER_HALF_OFFSET_64 then u64 (FIXED_HIGHER_HALF_OFFSET_64 - b) else 0).
Proof. unfold u64_ok. case_if; [apply wrap_range; lia|lia]. Qed.

Lemma slide_post kaslr L :
  page_power (SectionAlignment nt) ->
  pe_is_reloc L = is_relocatable nt -> pe_image_size L = SizeOfImage nt ->
  pe_virtual_base L = u64 (ImageBase nt + pe_slide L) ->
  (ImageBase nt <? FIXED_HIGHER_HALF_OFFSET_64) && negb (is_relocatable nt) = false ->
  let lower := if ImageBase nt <? FIXED_HIGHER_HALF_OFFSET_64 then u64 (FIXED_HIGHER_HALF_OFFSET_64 - ImageBase nt) else 0 in
  (if is_relocatable nt && kaslr
   then randomised rand (SectionAlignment nt) lower (pe_slide L) /\
        FIXED_HIGHER_HALF_OFFSET_64 <= u64 (ImageBase nt + pe_slide L + SizeOfImage nt)
   else pe_slide L = lower) ->
  slide_chosen kaslr L.
Proof.
  intros Hpow Hr Hsz Hvb Hlow lower Hslide. pose proof (file_nt_ok file Hbytes) as [_ _ Hb _ Hs _ _ _].
  split; [done| | |].
  - rewrite Hr. intros E. rewrite E in *. cbn in Hslide. subst lower. rewrite Hslide.
    destruct (Z.ltb_spec (ImageBase nt) FIXED_HIGHER_HALF_OFFSET_64); [done|]. split; [done|lia].
  - intros Hrand Hal. rewrite Hvb.
    assert (exists r, r mod 4096 = 0 /\ pe_slide L = u64 (r + lower)) as (r & Hr0 & ->).
    { pose proof (lower_u64 (ImageBase nt)) as Hu. fold lower in Hu. unfold u64_ok in Hu.
      destruct (is_relocatable nt && kaslr).
      - destruct Hslide as [(t & _ & ->) _]. eexists. split; [|done]. by apply mask_multiple.
      - exists 0. split; [done|]. rewrite Z.add_0_l, wrap_small by lia. done. }
    unfold lower, wrap. rewrite Zplus_mod_idemp_r. rewrite Z.mod_mod_divide by (by exists (2 ^ 52)).
    destruct (Z.ltb_spec (ImageBase nt) FIXED_HIGHER_HALF_OFFSET_64) as [Hl|Hh].
    + rewrite (Z.mod_small (FIXED_HIGHER_HALF_OFFSET_64 - ImageBase nt) (2 ^ 64)) by (unfold FIXED_HIGHER_HALF_OFFSET_64 in *; lia).
      replace (ImageBase nt + _) with (r + FIXED_HIGHER_HALF_OFFSET_64) by lia. by rewrite Zplus_mod, Hr0.
    + rewrite Z.add_0_r, Zplus_mod, Hr0, (Hal Hh). done.
  - intros Hrand E. rewrite Hr in E. rewrite E in Hslide. destruct Hslide as [(t & _ & Hsl) Hin].
    rewrite Hvb, Hsz, Hsl in *. apply slid_base; [done|done| |done]. by apply mask_multiple.
Qed.

Lemma pe64_load_post (kaslr want_ranges : bool) :
  res_post (fun L => image_loaded L /\ slide_chosen kaslr L /\
      if want_ranges then exists rs, pe_ranges_ L = Some rs /\ ranges_loaded (pe_virtual_base L) rs else pe_ranges_ L = None)
    any_panic (pe64_load arch_ file file_size alloc rand kaslr want_ranges).
Proof.
  pose proof (file_nt_ok file Hbytes) as Hnt. pose proof (file_sections_ok file Hbytes) as Hok.
  unfold pe64_load. eapply bind_any; [by apply header_post|]. intros r (-> & Hne & Hpow).
  destruct sections as [|first rest] eqn:Hfirst; [done|]. rewrite <- Hfirst in *. clear Hne.
  apply check_post. intros Hlow.
  eapply bind_any; [apply alloc_block; [destruct Hnt; unfold u64_ok; lia|done]|]. intros phys _.
  apply check_post. intros [Hh1%Z.ltb_ge Hh2%Z.ltb_ge]%orb_false_iff.
  assert (forall k va size, pe64_data_directory nt k = Some (va, size) -> 0 <= va /\ 0 <= size) as Hdirs.
  { intros k va size. unfold pe64_data_directory. case_if; [done|]. intros H'%(nt_directories _ Hnt). lia. }
  pose proof (nt_headers_size _ Hnt) as Hhs. pose proof (nt_size _ Hnt) as Hisz.
  pose proof (length_slice_of file 0 (SizeOfHeaders nt)) as Hsl.
  rewrite bytes_at_ok by lia. cbn [rbind]. rewrite copy_to_ok by (rewrite ?length_replicate; lia). cbn [rbind].
  eapply bind_any; [apply pe_slide_post, lower_u64|]. intros slide [_ Hslide].
  eapply bind_any; [apply (place_sections_post file file_size Hsize); [done|]|].
  { rewrite length_buf_write by (rewrite ?length_replicate; lia). rewrite length_replicate. lia. }
  intros image (Hp & Hl & Hi).
  assert (image = layout file) as -> by (by apply (copied_layout file file_size Hbytes Hsize (SectionAlignment nt))).
  rewrite (rd_lookup sections 0 first) by (by rewrite Hfirst). cbn [rbind].
  eapply (bind_any (fun _ => VirtualAddress first <> 0 -> pages (SizeOfHeaders nt) <= VirtualAddress first)).
  { unfold check_headers. destruct (Z.eqb_spec (VirtualAddress first) 0) as [E|E]; cbn [negb]; [by intros ?|].
    apply unwrap_post. intros top Ht. apply align_up_pages in Ht as ->; [|lia..]. unfold check. case_if; [done|]. bool_hyps. by intros _. }
  intros _ Habove. eapply bind_any; [apply check_imports_post; [done|by apply Hdirs]|]. intros _ _.
  eapply bind_any; [apply apply_relocations_post; [by apply layout_bytes|done|by apply Hdirs]|].
  intros image' (ts & -> & Hts & Hnamed).
  eapply (bind_any (fun o => if want_ranges then exists rs, o = Some rs /\ ranges_loaded (u64 (ImageBase nt + slide)) rs else o = None)).
  { destruct want_ranges; [|done]. eapply bind_any; [apply (ranges_post first rest); try done|by intros rs ?; exists rs].
    apply wrap_range. lia. }
  intros o Ho. cbn [res_post pe_ranges_ pe_virtual_base]. split; [|split; [by apply slide_post|done]].
  rewrite <- Hl in Hts. split; try done. cbn [pe_image pe_slide]. exists ts.
  split_and!; [done|by rewrite <- Hl|done| |].
  - intros i Hlt Ha. rewrite rebase_all_outside by done. by apply layout_lookup.
  - intros l1 t l2 -> Ha. by apply word_rebased; [apply layout_bytes| |].
Qed.
End Correct.
