(* ===== verification/PeCorrect.v ===== *)
(** * Theorems on the PE loader *)

From S2P Require Import Prelude CInt Libc Gpt FatChain Memmap Pmm PmmFacts PmmProps Elf ElfFacts ElfPatch ElfProps ElfCorrect Pe PeProps.

(** ** A small executable: a page with one pointer and its relocation *)
Definition demo_nt : list Z :=
  le_bytes 4 IMAGE_NT_SIGNATURE
  ++ le_bytes 2 IMAGE_FILE_MACHINE_AMD64 ++ le_bytes 2 2 ++ replicate 12 0 ++ le_bytes 2 240 ++ le_bytes 2 2
  ++ le_bytes 2 IMAGE_NT_OPTIONAL_HDR64_MAGIC ++ replicate 14 0 ++ le_bytes 4 0x1000 ++ replicate 4 0
  ++ le_bytes 8 0x140000000 ++ le_bytes 4 0x1000 ++ le_bytes 4 0x200 ++ replicate 16 0
  ++ le_bytes 4 0x3000 ++ le_bytes 4 408 ++ replicate 44 0 ++ le_bytes 4 16
  ++ replicate 40 0 ++ le_bytes 4 0x2000 ++ le_bytes 4 12 ++ replicate 80 0.

Definition demo_section (vsize va raw ptr characteristics : Z) : list Z :=
  replicate 8 0 ++ le_bytes 4 vsize ++ le_bytes 4 va ++ le_bytes 4 raw ++ le_bytes 4 ptr ++ replicate 12 0 ++ le_bytes 4 characteristics.

Definition demo_pe : list Z :=
  le_bytes 2 IMAGE_DOS_SIGNATURE ++ replicate 58 0 ++ le_bytes 4 64 ++ demo_nt
  ++ demo_section 8 0x1000 8 408 IMAGE_SCN_MEM_EXECUTE ++ demo_section 12 0x2000 12 416 IMAGE_SCN_MEM_READ
  ++ le_bytes 8 0x140001000 ++ le_bytes 4 0x1000 ++ le_bytes 4 12 ++ le_bytes 2 0xa000 ++ le_bytes 2 0.

Lemma demo_pe_bytes : Forall is_byte demo_pe.
Proof.
  apply Forall_forall. intros b Hb. assert (forallb (fun b => (0 <=? b) && (b <? 256)) demo_pe = true) as H by (by vm_compute).
  rewrite forallb_forall in H. specialize (H b (proj1 (list_elem_of_In _ _) Hb)). bool_hyps. unfold is_byte. lia.
Qed.

Definition demo_pe_load (kaslr : bool) : res pe_loaded :=
  pe64_load X86 demo_pe 428 (image_alloc 512 true false demo_pmm 0x1000) (fun _ => 0x12345678) kaslr true.

(** C23.  [pe64_load] on any file, however malformed, with any allocator and any
    random numbers: it panics or returns, and never reads outside the file or
    touches memory outside the image.  What it returns is the image the file
    describes: the headers, over them the sections at their addresses, each with
    its raw data as far as its virtual size goes, zeros elsewhere, and then the
    words of the relocation directory moved by the slide.  If no word the
    directory names lies in the directory itself, exactly the words it names are
    moved; a word no other relocation touches holds the old value plus the slide
    modulo its width, and what no relocation touches is the file's byte. *)
Theorem pe64_load_correct arch_ file file_size alloc rand kaslr want_ranges `{!ImageAllocator alloc} :
  Forall is_byte file -> Z.of_nat (length file) = file_size ->
  res_post (image_loaded file file_size) any_panic
    (pe64_load arch_ file file_size alloc rand kaslr want_ranges).
Proof.
  intros Hb Hl. eapply res_post_mono; [by apply pe64_load_post| |done]. by intros L [H _].
Qed.

Lemma pe64_load_correct_witness :
  exists L, demo_pe_load true = Ok L /\ image_loaded demo_pe 428 L /\
    slice_of (pe_image L) 0x1000 8 = le_bytes 8 0xffffffff92346000.
Proof.
  pose proof (pe64_load_correct X86 demo_pe 428 (image_alloc 512 true false demo_pmm 0x1000)
    (fun _ => 0x12345678) true true demo_pe_bytes eq_refl : res_post _ _ (demo_pe_load true)) as H.
  assert (match demo_pe_load true with Ok L => bool_decide (slice_of (pe_image L) 0x1000 8 = le_bytes 8 0xffffffff92346000)
          | _ => false end = true) as G by (vm_compute; reflexivity).
  destruct (demo_pe_load true) as [L|m| |]; try discriminate G.
  exists L. split; [reflexivity|]. split; [exact H|]. exact (bool_decide_eq_true_1 _ G).
Defined.

(** C24.  The ranges [pe64_load] reports: first one for the headers, read-only, if
    no section starts where they are, and then one for each section, in whole
    pages from the place the slide moves it to, over its whole virtual size, with
    its permissions.  No two ranges overlap, so no page has the permissions of two
    sections; all of them lie in the pages of the image, which do not wrap around
    the address space.  A file without relocations is not moved, the image starts
    on a page unless the file asks for something else, and a random slide leaves
    the whole image in the top 2 GiB. *)
Theorem pe64_load_ranges arch_ file file_size alloc rand kaslr `{!ImageAllocator alloc} :
  Forall is_byte file -> Z.of_nat (length file) = file_size ->
  res_post (fun L => slide_chosen file rand kaslr L /\
      exists rs, pe_ranges_ L = Some rs /\ ranges_loaded file (pe_virtual_base L) rs) any_panic
    (pe64_load arch_ file file_size alloc rand kaslr true).
Proof.
  intros Hb Hl. eapply res_post_mono; [by apply (pe64_load_post arch_ file file_size alloc rand Hb Hl kaslr true)| |done].
  by intros L (_ & ? & ?).
Qed.

Lemma pe64_load_ranges_witness :
  exists L rs, demo_pe_load true = Ok L /\ pe_ranges_ L = Some rs /\ length rs = 3%nat /\
    ranges_loaded demo_pe (pe_virtual_base L) rs.
Proof.
  pose proof (pe64_load_ranges X86 demo_pe 428 (image_alloc 512 true false demo_pmm 0x1000)
    (fun _ => 0x12345678) true demo_pe_bytes eq_refl : res_post _ _ (demo_pe_load true)) as H.
  assert (match demo_pe_load true with Ok L => bool_decide (length <$> pe_ranges_ L = Some 3%nat) | _ => false end = true)
    as G by (vm_compute; reflexivity).
  destruct (demo_pe_load true) as [L|m| |]; try discriminate G.
  destruct H as [_ (rs & Hrs & Hok)]. apply bool_decide_eq_true_1 in G. rewrite Hrs in G. injection G as G.
  exists L, rs. by split_and!.
Defined.
