(* ===== verification/Pagemap.v ===== *)
(** * The address space a kernel starts in

    [build_pagemap] of [common/protos/limine.c], as built for x86-64: the ranges
    of the executable, the direct map of physical memory and the framebuffers,
    written with [map_pages] into tables that the allocator provides.  The copy
    of the memory map is kept as a list; copying more entries than its block has
    room for is a fault. *)

From S2P Require Import Prelude CInt Elf Memmap Pmm Vmm VmmPmm.

Section Pagemap.
(** The build: capacity of the memory map, 32-bit x86; the processor. *)
Variable max_entries : nat.
Variable i386 : bool.
Variables pat gib : bool.
#[local] Existing Instance pmm_tables.

Definition sizeof_memmap_entry : Z := 24.

Section Map.
Variable pm : pagemap.

Abbreviation tables := (pmm_tables max_entries i386).
Definition map_to (st : pmm) (virt phys flags count : Z) : res pmm :=
  map_pages (H := tables) pat gib pm st virt phys flags count.

(** ** The executable *)
Definition range_flags (nx : bool) (permissions : Z) : Z :=
  Z.lor (if negb (Z.land permissions MEM_RANGE_X =? 0) then 0 else if nx then VMM_FLAG_NOEXEC else 0)
        (if negb (Z.land permissions MEM_RANGE_W =? 0) then VMM_FLAG_WRITE else 0).

Fixpoint map_ranges (nx : bool) (physical_base virtual_base : Z) (ranges : list mem_range) (st : pmm) : res pmm :=
  match ranges with
  | [] => Ok st
  | r :: ranges =>
      let virt := base r in
      if negb (Z.land virt (Z.shiftl 1 63) =? 0) then
        let phys := u64 (physical_base + (virt - virtual_base)) in
        let! st := map_to st virt phys (range_flags nx (permissions r)) (length_ r) in
        map_ranges nx physical_base virtual_base ranges st
      else Panic "limine: Virtual address of a PHDR in lower half"
  end.

(** ** The direct map *)
Variable base_revision : Z.
Variable direct_map_offset : Z.

(** The map at an address of its own and, for base revision 0, at its place. *)
Definition map_direct (st : pmm) (phys flags count : Z) : res pmm :=
  let! st := (if base_revision =? 0 then map_to st phys phys flags count else Ok st) in
  map_to st (u64 (direct_map_offset + phys)) phys flags count.

(** What an entry asks for: to be passed over, the end of the current run, or a
    run of pages. *)
Inductive step := Continue | Flush | Run (aligned_base aligned_top : Z).

Definition left_out (type : Z) : bool :=
  (((1 <=? base_revision) && (base_revision <? 3)) || (4 <=? base_revision))
    && ((type =? MEMMAP_RESERVED) || (type =? MEMMAP_BAD_MEMORY))
  || (base_revision =? 3)
    && negb (type =? MEMMAP_USABLE) && negb (type =? MEMMAP_BOOTLOADER_RECLAIMABLE)
    && negb (type =? MEMMAP_KERNEL_AND_MODULES) && negb (type =? MEMMAP_FRAMEBUFFER)
    && negb (type =? MEMMAP_EFI_RECLAIMABLE).

Definition entry_step (e : memmap_entry) : step :=
  if left_out (e_type e) then Flush
  else
    match CHECKED_ADD (e_base e) (e_length e) with
    | None => Flush
    | Some top =>
        let base := if (base_revision <? 3) && (e_base e <? 0x100000000) then 0x100000000 else e_base e in
        if top <=? base then Flush
        else
          match ALIGN_UP top 0x1000 with
          | None => Continue
          | Some aligned_top => Run (ALIGN_DOWN base 0x1000) aligned_top
          end
    end.

Definition flush (st : pmm) (pending_base pending_top : Z) : res pmm :=
  if pending_base <? pending_top
  then map_direct st pending_base VMM_FLAG_WRITE (pending_top - pending_base)
  else Ok st.

(** Runs that touch are joined before they are mapped. *)
Fixpoint direct_loop (entries : list memmap_entry) (st : pmm) (pending_base pending_top : Z) : res pmm :=
  match entries with
  | [] => flush st pending_base pending_top
  | e :: entries =>
      match entry_step e with
      | Continue => direct_loop entries st pending_base pending_top
      | Flush =>
          let! st := flush st pending_base pending_top in direct_loop entries st 0 0
      | Run aligned_base aligned_top =>
          if (aligned_base =? pending_top) && negb (pending_top =? 0)
          then direct_loop entries st pending_base aligned_top
          else let! st := flush st pending_base pending_top in direct_loop entries st aligned_base aligned_top
      end
  end.

Fixpoint framebuffer_loop (entries : list memmap_entry) (st : pmm) : res pmm :=
  match entries with
  | [] => Ok st
  | e :: entries =>
      if negb (e_type e =? MEMMAP_FRAMEBUFFER) then framebuffer_loop entries st
      else
        match CHECKED_ADD (e_base e) (e_length e) with
        | None => framebuffer_loop entries st
        | Some top =>
            let aligned_base := ALIGN_DOWN (e_base e) 0x1000 in
            match ALIGN_UP top 0x1000 with
            | None => framebuffer_loop entries st
            | Some aligned_top =>
                let! st := map_direct st aligned_base (Z.lor VMM_FLAG_WRITE VMM_FLAG_FB) (aligned_top - aligned_base) in
                framebuffer_loop entries st
            end
        end
  end.
End Map.

(** The copy of the memory map, made after its block was allocated. *)
Definition snapshot (st : pmm) : res (list memmap_entry * pmm) :=
  let room := (length (memmap st) + 2)%nat in
  let! (_, st) := ext_mem_alloc_counted max_entries true i386 st (Z.of_nat room) sizeof_memmap_entry in
  if (length (memmap st) <=? room)%nat then Ok (memmap st, st) else Fault.

Definition build_pagemap (st : pmm) (five_level : bool) (base_revision : Z) (nx : bool) (ranges : list mem_range)
    (physical_base virtual_base direct_map_offset : Z) : res (pagemap * pmm) :=
  let! (pm, st) := new_pagemap (H := pmm_tables max_entries i386) st five_level in
  if (length ranges =? 0)%nat then Panic "limine: ranges_count == 0"
  else
    let! st := map_ranges pm nx physical_base virtual_base ranges st in
    let! st := (if base_revision =? 0 then map_to pm st 0x1000 0x1000 VMM_FLAG_WRITE (0x100000000 - 0x1000) else Ok st) in
    let! st := (if base_revision <? 3 then map_to pm st direct_map_offset 0 VMM_FLAG_WRITE 0x100000000 else Ok st) in
    let! (entries, st) := snapshot st in
    let! st := direct_loop pm base_revision direct_map_offset entries st 0 0 in
    let! st := framebuffer_loop pm base_revision direct_map_offset entries st in
    let! st := (if 1 <=? base_revision then map_to pm st 0 0 VMM_FLAG_WRITE 0x100000000 else Ok st) in
    Ok (pm, st).
End Pagemap.
