(* ===== verification/PagemapFacts.v ===== *)
(** * The address space a kernel starts in: lemmas

    While the tables are built, the allocator takes usable memory for them and
    for the copy of the memory map; everything else in the map stays as it was.
    What the tables translate is the overlay of the regions mapped so far. *)

From S2P Require Import Prelude CInt Elf Memmap MemmapSem Separate Sanitise RangeAlloc Pmm PmmFacts PmmProps Vmm VmmProps VmmPmm ElfFacts Pagemap.

(** ** What happens to the memory map *)

(** Usable memory may have become the boot loader's; nothing else changed. *)
Record drifted (m m' : list memmap_entry) : Prop := {
  dr_other : forall t a, t <> MEMMAP_USABLE -> t <> MEMMAP_BOOTLOADER_RECLAIMABLE -> has_type m' t a <-> has_type m t a;
  dr_ours : forall a, usable_at m' a \/ has_type m' MEMMAP_BOOTLOADER_RECLAIMABLE a <->
                      usable_at m a \/ has_type m MEMMAP_BOOTLOADER_RECLAIMABLE a;
}.

Lemma drifted_refl m : drifted m m.
Proof. by split. Qed.

Lemma drifted_trans m1 m2 m3 : drifted m1 m2 -> drifted m2 m3 -> drifted m1 m3.
Proof.
  intros [A B] [C D]. split; [intros t a H1 H2; by rewrite C, A|]. intros a. by rewrite D, B.
Qed.

Section Growth.
Variable max_entries : nat.
Variables x86 i386 : bool.

Lemma allocated_drifted st st' p n top : pmm_inv max_entries st ->
  allocated st st' p n top MEMMAP_BOOTLOADER_RECLAIMABLE -> drifted (memmap st) (memmap st').
Proof.
  intros Hinv [Hsz Hf Ho Hg Hot Hu]. pose proof (sn_clean _ _ _ _ Hinv) as Hcl.
  assert (forall t a, t <> MEMMAP_USABLE -> inside p top a -> ~ has_type (memmap st) t a) as Hno.
  { intros t a Ht Hin Hh. apply (clean_free max_entries false (memmap st) a Hcl); [by apply Hf|]. by exists t. }
  split.
  - intros t a Ht Hb. destruct (decide (p <= a < top)) as [Hin|Hout]; [|by apply Hot].
    rewrite Ho by done. split; [done|]. intros Hh. by destruct (Hno t a Ht Hin).
  - intros a. destruct (decide (p <= a < top)) as [Hin|Hout].
    + split; intros _; [left; by apply Hf|right]. by apply Ho.
    + by rewrite Hu, Hot.
Qed.

Lemma tidy_sanitised keep m t a : sanitised max_entries keep false m -> has_type m t a -> tidy m.
Proof.
  intros Hsn Hh. pose proof (sn_clean _ _ _ _ Hsn) as Hcl. split; [apply Hcl|apply Hsn|].
  destruct (decide (2 <= length m)%nat) as [H2|H2]; [by apply (cl_sound _ _ _ Hcl)|].
  destruct Hh as (x & Hx & Hok & _). destruct m as [|e [|]]; [constructor| |cbn in H2; lia].
  apply list_elem_of_singleton in Hx as ->. constructor; [done|constructor].
Qed.

(** An allocation adds at most two entries to the map. *)
Lemma alloc_growth st count type alignment allow_high do_panic r st' :
  pmm_inv max_entries st -> allocations_disallowed st = false -> 0 <= count < 2 ^ 64 -> 0 < alignment < 2 ^ 64 ->
  type <> MEMMAP_USABLE ->
  ext_mem_alloc_impl max_entries x86 i386 st count type alignment allow_high do_panic = Ok (r, st') ->
  (length (memmap st') <= length (memmap st) + 2)%nat.
Proof.
  intros Hinv Hdis Hc Ha Hty. unfold ext_mem_alloc_impl. destruct (round_count count alignment) as [n|] eqn:Hn; [|done].
  destruct (round_count_Some _ _ _ Hc Ha Hn) as (Hn0 & _ & _). rewrite Hdis.
  change (match first_some _ _ with Some r => Some r | None => _ end) with (choose x86 (memmap st) n alignment allow_high).
  destruct (choose x86 (memmap st) n alignment allow_high) as [[b t]|] eqn:Hch; [|destruct (negb do_panic); [|done]; intros [= _ <-]; lia].
  destruct (choose_Some max_entries x86 (memmap st) n alignment allow_high b t) as
    (e & He & Hte & Hok & Heb & Hbt & _ & Het & _); try done; [by eapply sanitised_wf|lia|].
  assert (t < 2 ^ 64) as Ht64 by (unfold entry_ok in Hok; lia). rewrite (wrap_small 64 (t - b)) by lia.
  assert (forall a, inside b t a -> usable_at (memmap st) a) as Hus.
  { intros a Hin. exists e. split_and!; try done. unfold covers, inside in *. lia. }
  unfold memmap_alloc_range, memmap_alloc_range_in. rewrite (proj2 (Z.eqb_neq (t - b) 0)) by lia. cbn [andb negb].
  assert (CHECKED_ADD b (t - b) = Some (b + (t - b))) as -> by (apply checked_add_Some; lia).
  replace (b + (t - b)) with t by lia.
  rewrite (proj2 (existsb_available (memmap st) MEMMAP_USABLE b t ltac:(lia))) by (exists e; split_and!; [done|by right|done|lia|done]).
  pose proof (pmm_new_entry_post max_entries (memmap st) b (t - b) type (sanitised_wf _ _ _ _ Hinv) ltac:(lia) ltac:(lia) ltac:(lia)) as Hne.
  pose proof (reserve_growth max_entries (pmm_sanitiser_keep_first_page st) (memmap st) b (t - b) type) as Hgrow.
  destruct (pmm_new_entry _ _ _ _ _) as [m1| | |]; cbn [rbind] in *; try done. destruct Hne as [Hwf1 Hre].
  pose proof (pmm_sanitise_entries_spec max_entries (pmm_sanitiser_keep_first_page st) false m1 Hwf1) as Hsan.
  destruct (pmm_sanitise_entries _ _ m1 false) as [m2| | |]; cbn [rbind] in *; try done. destruct Hsan as [Hsn Hsame].
  specialize (Hgrow m2 Hinv ltac:(lia) ltac:(lia) ltac:(lia)). replace (b + (t - b)) with t in Hgrow by lia.
  specialize (Hgrow Hus Hty eq_refl).
  assert (has_type m2 type b) as Hh2.
  { apply (sm_other _ _ _ _ Hsame); [done|]. apply Hre. left. unfold inside. split; [lia|done]. }
  set (f := fun s => if i386 && allow_high then s else with_ram s (memset (ram s) b 0 n)).
  assert (forall s, memmap (f s) = memmap s /\ pmm_sanitiser_keep_first_page (f s) = pmm_sanitiser_keep_first_page s) as Hf
    by (intros s; unfold f; by case_if).
  unfold sanitise. change (if i386 && allow_high then _ else _) with (f (with_memmap st m2)).
  destruct (Hf (with_memmap st m2)) as [-> ->]. cbn [memmap pmm_sanitiser_keep_first_page with_memmap].
  destruct (pmm_sanitise_entries _ _ m2 false) as [m3| | |] eqn:E3; cbn [rbind]; try done. intros [= _ <-].
  apply sanitise_returns in E3; [cbn; lia|by eapply tidy_sanitised|]. by apply (sanitised_wf _ _ _ _ Hsn).
Qed.
End Growth.

(** ** The tables, with what is known of the memory map *)
Section Tables.
Variable max_entries : nat.
Variable i386 : bool.
Variable m0 : list memmap_entry.

#[local] Instance tables : TableMemory pmm := pmm_tables max_entries i386.

Definition space_ok (st : pmm) : Prop := VmmPmm.tables_ok max_entries st /\ drifted m0 (memmap st).

(** What any allocation of the boot loader's memory keeps. *)
Lemma alloc_keeps st count r st' :
  space_ok st -> 0 <= count < 2 ^ 64 -> ext_mem_alloc max_entries true i386 st count = Ok (r, st') ->
  space_ok st' /\ (length (memmap st') <= length (memmap st) + 2)%nat /\
  exists p, ~ owned_page_of st p /\ owned_page_of st' p /\
    forall q, owned_page_of st q -> owned_page_of st' q /\
      forall i, slot_ok i -> pt_read st' (q + 8 * i) = pt_read st (q + 8 * i).
Proof.
  intros [[Hinv Hdis] Hd] Hc E.
  pose proof (alloc_growth max_entries true i386 st count MEMMAP_BOOTLOADER_RECLAIMABLE 4096 false true r st' Hinv Hdis Hc
    ltac:(lia) ltac:(done) E) as Hg.
  pose proof (ext_mem_alloc_impl_spec max_entries true i386 st count MEMMAP_BOOTLOADER_RECLAIMABLE 4096 false true Hinv Hdis Hc
    ltac:(lia)) as Hs.
  change (ext_mem_alloc_impl _ _ _ _ _ _ _ _ _) with (ext_mem_alloc max_entries true i386 st count) in Hs. rewrite E in Hs.
  cbn [res_post fst snd] in Hs. destruct r as [p|]; [|by destruct Hs].
  destruct Hs as [Hinv' Hmod [Hdis' _] (n & t & Hn & Hcn & Hlim & Hal & Hram)].
  pose proof (al_size _ _ _ _ _ _ Hal) as Hsz. cbn [alloc_limit negb andb] in Hlim.
  assert (n mod 4096 = 0) as Hnm by (destruct (round_count_Some count 4096 n Hc ltac:(lia) Hn) as (_ & _ & ?); done).
  assert (4096 <= n) as Hn1 by dlia.
  assert (forall a, p <= a < t -> usable_at (memmap st) a) as Hfr by (intros a Ha; apply (al_fresh _ _ _ _ _ _ Hal); unfold inside; lia).
  split_and!; [|done|].
  - split; [split; [done|by rewrite Hdis']|]. eapply drifted_trans; [exact Hd|]. by eapply allocated_drifted.
  - exists p. split_and!.
    + intros [_ Ho]. apply (Ho p); [lia|apply Hfr; lia].
    + split; [split; [lia|done]|]. intros a Ha. apply (al_gone _ _ _ _ _ _ Hal); [done|unfold inside; lia].
    + intros q [Hq Ho]. split.
      * split; [done|]. intros a Ha. destruct (decide (inside p t a)); [by apply (al_gone _ _ _ _ _ _ Hal)|].
        rewrite (al_usable _ _ _ _ _ _ Hal) by done. by apply Ho.
      * intros i Hi. apply read64_ext. intros x Hx. unfold slot_ok in Hi. rewrite Hram. case_if; [|done].
        exfalso. bool_hyps. apply (Ho x); [lia|apply Hfr; lia].
Qed.

#[local] Instance laws : TableLaws pmm.
Proof.
  apply (Build_TableLaws _ _ space_ok owned_page_of alloc_table_msg).
  - by intros s p [? _].
  - intros s p i v [? ?] Ho Hi Hv. done.
  - intros s p i v q j [Hm _]. apply (pt_read_write (TableLaws := pmm_table_laws max_entries i386)). exact Hm.
  - intros s Hs. pose proof (alloc_table_ok max_entries i386 s (proj1 Hs)) as Ha.
    change (@pt_alloc _ tables s) with (alloc_table max_entries i386 s). unfold alloc_table in *.
    destruct (ext_mem_alloc max_entries true i386 s PT_SIZE) as [[[p|] s']| | |] eqn:E; cbn [rbind] in *; try done.
    destruct (alloc_keeps s PT_SIZE (Some p) s' Hs ltac:(unfold PT_SIZE; lia) E) as [Hs' _]. cbn in *. by destruct Ha as (_ & ?).
Defined.

Variables pat gib : bool.
Variable pm : pagemap.
Abbreviation L := (pm_level pm).
Abbreviation top := (top_level pm).
Abbreviation space := (2 ^ shift_of (S L)).

(** ** Regions *)
Record region := MkRegion { rg_virt : Z; rg_phys : Z; rg_len : Z; rg_attrs : attrs }.

Definition within (r : region) (v : Z) : Prop := rg_virt r <= v < rg_virt r + rg_len r.
#[local] Instance within_dec r v : Decision (within r v).
Proof. unfold within. apply _. Defined.

Definition place (v : Z) (acc : option (Z * attrs)) (r : region) : option (Z * attrs) :=
  if decide (within r v) then Some (rg_phys r + (v - rg_virt r), rg_attrs r) else acc.

Definition overlay (rs : list region) (v : Z) (acc : option (Z * attrs)) : option (Z * attrs) := foldl (place v) acc rs.

Lemma overlay_app rs rs' v acc : overlay (rs ++ rs') v acc = overlay rs' v (overlay rs v acc).
Proof. apply foldl_app. Qed.

Lemma overlay_none rs v acc : Forall (fun r => ~ within r v) rs -> overlay rs v acc = acc.
Proof.
  unfold overlay. revert acc. induction rs as [|r rs IH]; intros acc H; [done|]. apply Forall_cons in H as [Hr H]. cbn.
  unfold place at 2. rewrite decide_False by done. by apply IH.
Qed.

(** If the regions around an address agree on it, it does not matter which is
    the last. *)
Lemma overlay_agree rs v acc x :
  Forall (fun r => within r v -> Some (rg_phys r + (v - rg_virt r), rg_attrs r) = x) rs ->
  overlay rs v acc = (if decide (Exists (fun r => within r v) rs) then x else acc).
Proof.
  unfold overlay. revert acc. induction rs as [|r rs IH]; intros acc H; cbn [foldl].
  - rewrite decide_False; [done|]. by intros ?%Exists_nil.
  - apply Forall_cons in H as [Hr H]. rewrite IH by done. unfold place.
    destruct (decide (within r v)) as [Hw|Hw].
    + rewrite (decide_True (P := Exists _ (r :: rs))) by (by constructor). rewrite Hr by done. by case_decide.
    + destruct (decide (Exists (fun r => within r v) rs)) as [He|He].
      * by rewrite decide_True by (by apply Exists_cons_tl).
      * rewrite decide_False; [done|]. intros [?|?]%Exists_cons; done.
Qed.

Definition maps (rs : list region) (st st' : pmm) : Prop :=
  WF L top st' /\ forall v, translate st' L top v = overlay rs (vn L v) (translate st L top v).

Lemma maps_nil st : WF L top st -> maps [] st st.
Proof. by split. Qed.

Lemma maps_app rs rs' st st1 st2 : maps rs st st1 -> maps rs' st1 st2 -> maps (rs ++ rs') st st2.
Proof. intros [_ H1] [H2 H3]. split; [done|]. intros v. by rewrite H3, H1, overlay_app. Qed.

Lemma map_to_post st virt phys w nx fb count :
  WF L top st -> 0 <= virt < 2 ^ 64 -> 0 <= phys -> 0 <= count -> phys + count <= 2 ^ 48 -> vn L virt + count <= space ->
  res_post (maps [MkRegion (vn L virt) phys count (MkAttrs w nx (fb && pat) (fb && pat))] st) any_panic
    (map_to max_entries i386 pat gib pm st virt phys (vmm_flags w nx fb) count).
Proof.
  intros Hwf Hv Hp Hc Hpt Hvt.
  destruct (decide (virt mod 4096 = 0 /\ phys mod 4096 = 0 /\ count mod 4096 = 0)) as [(A1 & A2 & A3)|Hbad].
  - eapply res_post_mono; [by apply map_pages_mapped| |done]. intros st' [H1 _ _ H4]. split; [done|]. exact H4.
  - unfold map_to, map_pages. rewrite (proj2 (orb_true_iff _ _)); [done|]. rewrite orb_true_iff, !negb_true_iff, !Z.eqb_neq. 
    destruct (decide (virt mod 4096 = 0)), (decide (phys mod 4096 = 0)); tauto.
Qed.
End Tables.

(** * The address space a kernel starts in: the theorem *)
Definition writable (r : mem_range) : bool := negb (Z.land (permissions r) MEM_RANGE_W =? 0).
Definition executable (r : mem_range) : bool := negb (Z.land (permissions r) MEM_RANGE_X =? 0).

Lemma range_flags_spec nx r : range_flags nx (permissions r) = vmm_flags (writable r) (nx && negb (executable r)) false.
Proof. unfold range_flags, writable, executable. by destruct (Z.land _ MEM_RANGE_X =? 0), (Z.land _ MEM_RANGE_W =? 0), nx. Qed.

(** ** Runs of pages, as the loop over the entries joins them *)
Section Runs.
Variable base_revision : Z.

Definition emit (b t : Z) : list (Z * Z) := if b <? t then [(b, t)] else [].

Fixpoint runs (entries : list memmap_entry) (b t : Z) : list (Z * Z) :=
  match entries with
  | [] => emit b t
  | e :: entries =>
      match entry_step base_revision e with
      | Continue => runs entries b t
      | Flush => emit b t ++ runs entries 0 0
      | Run b' t' => if (b' =? t) && negb (t =? 0) then runs entries b t' else emit b t ++ runs entries b' t'
      end
  end.

Definition in_run (a : Z) (run : Z * Z) : Prop := run.1 <= a < run.2.

(** What an entry asks for. *)
Definition asked (a : Z) (e : memmap_entry) : Prop :=
  match entry_step base_revision e with Run b t => b <= a < t | _ => False end.

Lemma emit_spec a b t : Exists (in_run a) (emit b t) <-> b <= a < t.
Proof.
  unfold emit. case_if; rewrite ?Exists_cons, ?Exists_nil; unfold in_run; cbn; [|lia]. split; [by intros [?|?]|by left].
Qed.

(** A run that starts where another ends; runs are not empty. *)
Lemma entry_step_run e b t : entry_step base_revision e = Run b t -> 0 <= e_base e -> b < t.
Proof.
  unfold entry_step. case_if; [done|]. destruct (CHECKED_ADD _ _) as [top|] eqn:E; [|done].
  apply checked_add_Some in E as [-> Ht]. case_if; [done|]. destruct (ALIGN_UP _ _) as [at_|] eqn:Ea; [|done].
  intros [= <- <-] Hb0'. set (base := if (base_revision <? 3) && _ then _ else _) in *.
  assert (0 <= base) by (unfold base; case_if; lia).
  apply align_up_Some in Ea as (_ & ? & _); [|lia..]. pose proof (align_down_spec base 4096 ltac:(lia)). lia.
Qed.

Lemma runs_spec entries : forall b t a, Forall (fun e => 0 <= e_base e) entries ->
  (t = 0 \/ b <= t) ->
  Exists (in_run a) (runs entries b t) <-> b <= a < t \/ Exists (asked a) entries.
Proof.
  induction entries as [|e entries IH]; intros b t a He Hbt; cbn [runs].
  - rewrite emit_spec, Exists_nil. tauto.
  - apply Forall_cons in He as [He0 He]. rewrite Exists_cons. unfold asked at 1.
    destruct (entry_step base_revision e) as [| |b' t'] eqn:Es.
    + rewrite IH by done. tauto.
    + rewrite Exists_app, emit_spec, IH by (done || by left). intuition lia.
    + apply entry_step_run in Es; [|done]. case_if.
      * bool_hyps. subst b'. rewrite IH by (done || right; lia). intuition lia.
      * rewrite Exists_app, emit_spec, IH by (done || right; lia). tauto.
Qed.
End Runs.

(** A range of the executable that fits: in the upper half, above the direct
    map, its memory where a page table can point. *)
Record kernel_ok (L : nat) (dmo limit physical_base virtual_base : Z) (r : mem_range) : Prop := {
  ko_len : 0 <= length_ r;
  ko_base : virtual_base <= base r;
  ko_half : 2 ^ 64 - 2 ^ shift_of (S L) <= base r < 2 ^ 64;
  ko_top : base r + length_ r <= 2 ^ 64;
  ko_phys : physical_base + (base r + length_ r - virtual_base) <= 2 ^ 48;
  ko_above : vn L dmo + limit <= vn L (base r);
}.

(** ** The calls, one by one *)
Section Space.
Variable max_entries : nat.
Variable i386 : bool.
Variable m0 : list memmap_entry.
Variables pat gib : bool.
Variable pm : pagemap.
#[local] Existing Instance PagemapFacts.tables.
#[local] Existing Instance laws.
Abbreviation L := (pm_level pm).
Abbreviation top := (top_level pm).
Abbreviation space := (2 ^ shift_of (S L)).
Abbreviation maps := (maps max_entries i386 m0 pm).
Abbreviation ok st := (@WF pmm (PagemapFacts.tables max_entries i386) (laws max_entries i386 m0) L top st).

Variable base_revision : Z.
Variables (dmo limit : Z).
Hypothesis Hdmo : 0 <= dmo < 2 ^ 64.
Hypothesis Hlimit : 0x100000000 <= limit <= 2 ^ 48.
Hypothesis Hpages : limit mod 4096 = 0.
Hypothesis Hwindow : limit <= vn L dmo.
Hypothesis Hspace : vn L dmo + limit <= space.

Definition plain : attrs := MkAttrs true false false false.
Definition fb_attrs : attrs := MkAttrs true false pat pat.

Lemma space_divides : (space | 2 ^ 64).
Proof. unfold pm_level. case_if; [by exists (2 ^ 7)|by exists (2 ^ 16)]. Qed.

Lemma vn_direct p : 0 <= p < limit -> vn L (u64 (dmo + p)) = vn L dmo + p.
Proof.
  intros Hp. assert (0 < space) as Hs by (apply Z.pow_pos_nonneg; unfold shift_of; lia).
  unfold vn, wrap. rewrite Z.mod_mod_divide by apply space_divides.
  rewrite <- Zplus_mod_idemp_l. apply Z.mod_small.
  pose proof (Z.mod_pos_bound dmo space Hs). unfold vn in Hspace. lia.
Qed.

Lemma vn_low p : 0 <= p <= limit -> p < space -> vn L p = p.
Proof. intros. apply Z.mod_small. lia. Qed.

Lemma limit_space : limit < space \/ limit = 0.
Proof. assert (0 <= vn L dmo) by (apply Z.mod_pos_bound, Z.pow_pos_nonneg; unfold shift_of; lia). lia. Qed.

(** The regions of a call of [map_direct]. *)
Definition direct_regions (a : attrs) (run : Z * Z) : list region :=
  (if base_revision =? 0 then [MkRegion run.1 run.1 (run.2 - run.1) a] else [])
  ++ [MkRegion (vn L dmo + run.1) run.1 (run.2 - run.1) a].

Lemma map_direct_post st b t fb :
  ok st -> 0 <= b < t -> t <= limit ->
  res_post (maps (direct_regions (MkAttrs true false (fb && pat) (fb && pat)) (b, t)) st) any_panic
    (map_direct max_entries i386 pat gib pm base_revision dmo st b (vmm_flags true false fb) (t - b)).
Proof.
  intros Hwf Hb Ht. pose proof limit_space as Hls. unfold map_direct, direct_regions. cbn [fst snd].
  eapply (bind_any (maps (if base_revision =? 0 then [MkRegion b b (t - b) (MkAttrs true false (fb && pat) (fb && pat))] else []) st)).
  { case_if; [|by apply maps_nil]. eapply res_post_mono; [apply map_to_post; try done; try lia|by rewrite vn_low by lia|done].
    rewrite vn_low by lia. lia. }
  intros st1 H1. eapply res_post_mono; [apply map_to_post; [by destruct H1|apply wrap_range; lia|lia|lia|lia|]| |done].
  { rewrite vn_direct by lia. lia. }
  intros st2 H2. rewrite vn_direct in H2 by lia. by eapply maps_app.
Qed.

Definition run_ok (run : Z * Z) : Prop := 0 <= run.1 < run.2 /\ run.2 <= limit.

Lemma direct_loop_post entries : forall st b t, ok st -> Forall run_ok (runs base_revision entries b t) ->
  res_post (maps (concat (map (direct_regions plain) (runs base_revision entries b t))) st) any_panic
    (direct_loop max_entries i386 pat gib pm base_revision dmo entries st b t).
Proof.
  assert (forall st b t, ok st -> Forall run_ok (emit b t) ->
    res_post (maps (concat (map (direct_regions plain) (emit b t))) st) any_panic
      (flush max_entries i386 pat gib pm base_revision dmo st b t)) as Hflush.
  { intros st b t Hwf Hr. unfold flush, emit in *. destruct (b <? t); [|by apply maps_nil].
    apply Forall_cons in Hr as [[H1 H2] _]. cbn [fst snd] in *. cbn [map concat]. rewrite app_nil_r.
    by apply (map_direct_post st b t false). }
  induction entries as [|e entries IH]; intros st b t Hwf Hr; cbn [direct_loop runs] in *; [by apply Hflush|].
  assert (forall b' t', Forall run_ok (emit b t ++ runs base_revision entries b' t') ->
    res_post (maps (concat (map (direct_regions plain) (emit b t ++ runs base_revision entries b' t'))) st) any_panic
      (let! st := flush max_entries i386 pat gib pm base_revision dmo st b t in
       direct_loop max_entries i386 pat gib pm base_revision dmo entries st b' t')) as Hthen.
  { intros b' t' [H1 H2]%Forall_app. eapply bind_any; [by apply Hflush|]. intros st1 Hm.
    eapply res_post_mono; [apply IH; [by destruct Hm|done]| |done]. intros st2 Hm2.
    rewrite map_app, concat_app. by eapply maps_app. }
  destruct (entry_step base_revision e) as [| |b' t']; [by apply IH|by apply Hthen|].
  destruct ((b' =? t) && negb (t =? 0)); [by apply IH|by apply Hthen].
Qed.

(** The pages of the framebuffers. *)
Definition fb_run (e : memmap_entry) : option (Z * Z) :=
  if negb (e_type e =? MEMMAP_FRAMEBUFFER) then None
  else t ← CHECKED_ADD (e_base e) (e_length e); at_ ← ALIGN_UP t 0x1000; Some (ALIGN_DOWN (e_base e) 0x1000, at_).

Lemma framebuffer_loop_post entries : forall st, ok st -> Forall run_ok (omap fb_run entries) ->
  res_post (maps (concat (map (direct_regions fb_attrs) (omap fb_run entries))) st) any_panic
    (framebuffer_loop max_entries i386 pat gib pm base_revision dmo entries st).
Proof.
  induction entries as [|e entries IH]; intros st Hwf Hr; [by apply maps_nil|]. cbn [framebuffer_loop].
  cbn [omap list_omap] in *. unfold fb_run in *. case_if; [by apply IH|].
  destruct (CHECKED_ADD _ _) as [t|]; cbn [mbind option_bind] in *; [|by apply IH].
  destruct (ALIGN_UP t 0x1000) as [at_|]; cbn [mbind option_bind] in *; [|by apply IH].
  apply Forall_cons in Hr as [[H1 H2] Hr]. cbn [fst snd] in *.
  eapply bind_any; [by apply (map_direct_post st _ _ true)|]. intros st1 Hm.
  eapply res_post_mono; [apply IH; [by destruct Hm|done]| |done]. intros st2 Hm2. cbn [map concat]. by eapply maps_app.
Qed.

(** The executable. *)
Variables physical_base virtual_base : Z.

Hypothesis Hphys : 0 <= physical_base.
Hypothesis Hvirt : 0 <= virtual_base.

Definition kernel_region (nx : bool) (r : mem_range) : region :=
  MkRegion (vn L (base r)) (physical_base + (base r - virtual_base)) (length_ r)
    (MkAttrs (writable r) (nx && negb (executable r)) false false).

(** In the upper half an address is known by what the tables see of it. *)
Lemma vn_upper v : 2 ^ 64 - space <= v < 2 ^ 64 -> vn L v = v - (2 ^ 64 - space).
Proof.
  intros Hv. destruct space_divides as [k Hk]. assert (0 < space) as Hs by (apply Z.pow_pos_nonneg; unfold shift_of; lia).
  unfold vn. symmetry. apply (Z.mod_unique_pos _ _ (k - 1)); nia.
Qed.

Lemma map_ranges_post nx ranges : forall st, ok st -> Forall (kernel_ok L dmo limit physical_base virtual_base) ranges ->
  res_post (maps (map (kernel_region nx) ranges) st) any_panic
    (map_ranges max_entries i386 pat gib pm nx physical_base virtual_base ranges st).
Proof.
  induction ranges as [|r ranges IH]; intros st Hwf Hok; cbn [map_ranges map]; [by apply maps_nil|].
  apply Forall_cons in Hok as [[] Hok]. case_if; [|done]. rewrite range_flags_spec.
  pose proof (vn_upper (base r) ko_half0) as Hvn.
  rewrite (wrap_small 64 (physical_base + _)) by lia.
  eapply bind_any; [apply map_to_post; try done; lia|]. intros st1 Hm.
  eapply res_post_mono; [apply IH; [by destruct Hm|done]| |done]. intros st2 Hm2.
  change (kernel_region nx r :: map (kernel_region nx) ranges) with ([kernel_region nx r] ++ map (kernel_region nx) ranges).
  by eapply maps_app.
Qed.

(** The copy of the memory map. *)
Lemma snapshot_post st : ok st ->
  res_post (fun '(entries, st') => maps [] st st' /\ entries = memmap st' /\ space_ok max_entries m0 st') any_panic
    (snapshot max_entries i386 st).
Proof.
  intros Hwf. unfold snapshot, ext_mem_alloc_counted. destruct (CHECKED_MUL _ _) as [n|] eqn:En; [|done].
  apply checked_mul_Some in En as [-> Hn]. pose proof (wf_mem _ _ _ Hwf) as Hmem.
  destruct (ext_mem_alloc _ _ _ _ _) as [[r st']| | |] eqn:Ea; cbn [rbind]; try done.
  - apply (alloc_keeps max_entries i386 m0) in Ea as (Hok' & Hlen & p & Hno & Ho & Hold); [|done|unfold sizeof_memmap_entry in *; lia].
    rewrite (proj2 (Nat.leb_le _ _)) by done. cbn. split_and!; [|done|done].
    destruct (alloc_grown L top st p st' Hwf Hok' Hno Ho Hold) as (Hwf' & _ & _ & _ & Htr & _). split; [done|]. exact Htr.
  - destruct Hmem as [[Hinv Hdis] _].
    pose proof (ext_mem_alloc_impl_spec max_entries true i386 st (Z.of_nat (length (memmap st) + 2) * sizeof_memmap_entry)
      MEMMAP_BOOTLOADER_RECLAIMABLE 4096 false true Hinv Hdis ltac:(unfold sizeof_memmap_entry in *; lia) ltac:(lia)) as Hs.
    change (ext_mem_alloc_impl _ _ _ _ _ _ _ _ _) with
      (ext_mem_alloc max_entries true i386 st (Z.of_nat (length (memmap st) + 2) * sizeof_memmap_entry)) in Hs. by rewrite Ea in Hs.
  - destruct Hmem as [[Hinv Hdis] _].
    pose proof (ext_mem_alloc_impl_spec max_entries true i386 st (Z.of_nat (length (memmap st) + 2) * sizeof_memmap_entry)
      MEMMAP_BOOTLOADER_RECLAIMABLE 4096 false true Hinv Hdis ltac:(unfold sizeof_memmap_entry in *; lia) ltac:(lia)) as Hs.
    change (ext_mem_alloc_impl _ _ _ _ _ _ _ _ _) with
      (ext_mem_alloc max_entries true i386 st (Z.of_nat (length (memmap st) + 2) * sizeof_memmap_entry)) in Hs. by rewrite Ea in Hs.
Qed.
End Space.
