(* ===== verification/PagemapCorrect.v ===== *)
(** * The address space a kernel starts in: correctness

    The tables [build_pagemap] returns, given as what they translate: the
    executable where it was linked, physical memory in the direct map, the
    framebuffers there with their own memory type, the first 4 GiB at their
    own addresses, and nothing else. *)

From S2P Require Import Prelude CInt Elf Memmap MemmapSem Separate Sanitise RangeAlloc Pmm PmmFacts PmmProps Vmm VmmProps VmmPmm ElfFacts Pagemap PagemapFacts.

(** ** What the memory map asks for *)
Definition same_page (a a' : Z) : Prop := a / 4096 = a' / 4096.

(** The types of memory a base revision maps: revision 3 only what the kernel owns and
    the framebuffers, revision 0 everything, the others all but reserved and bad memory. *)
Definition maps_type (base_revision t : Z) : Prop :=
  (base_revision = 3 ->
   t ∈ [MEMMAP_USABLE; MEMMAP_BOOTLOADER_RECLAIMABLE; MEMMAP_KERNEL_AND_MODULES; MEMMAP_FRAMEBUFFER; MEMMAP_EFI_RECLAIMABLE]) /\
  (1 <= base_revision -> base_revision <> 3 -> t <> MEMMAP_RESERVED /\ t <> MEMMAP_BAD_MEMORY).

Lemma left_out_maps base_revision t : left_out base_revision t = false <-> maps_type base_revision t.
Proof.
  unfold left_out, maps_type. rewrite !elem_of_cons, elem_of_nil.
  destruct (Z.leb_spec 1 base_revision), (Z.ltb_spec base_revision 3), (Z.leb_spec 4 base_revision), (Z.eqb_spec base_revision 3); try lia;
    destruct (Z.eqb_spec t MEMMAP_RESERVED), (Z.eqb_spec t MEMMAP_BAD_MEMORY); cbn [andb orb negb]; try (split; [intros ?; split; intros; (done || lia || tauto)|tauto]); try tauto.
  all: destruct (Z.eqb_spec t MEMMAP_USABLE), (Z.eqb_spec t MEMMAP_BOOTLOADER_RECLAIMABLE), (Z.eqb_spec t MEMMAP_KERNEL_AND_MODULES), (Z.eqb_spec t MEMMAP_FRAMEBUFFER), (Z.eqb_spec t MEMMAP_EFI_RECLAIMABLE); cbn [andb negb]; (split; [intros ?; split; intros; (done || tauto)|intros [Hin _]; specialize (Hin ltac:(done)); tauto]).
Qed.

Section Wanted.
Variable base_revision : Z.

(** The page of [a] holds an address of a type that is mapped; for the base
    revisions that map the first 4 GiB anyway, one above them. *)
Definition wanted (m : list memmap_entry) (a : Z) : Prop :=
  exists t a', maps_type base_revision t /\ has_type m t a' /\ same_page a a' /\ (base_revision < 3 -> 0x100000000 <= a').

Definition on_framebuffer (m : list memmap_entry) (a : Z) : Prop :=
  exists a', has_type m MEMMAP_FRAMEBUFFER a' /\ same_page a a'.

(** What the direct map covers. *)
Definition covered (m : list memmap_entry) (a : Z) : Prop := base_revision < 3 /\ 0 <= a < 0x100000000 \/ wanted m a.

Lemma left_out_ours t : t = MEMMAP_USABLE \/ t = MEMMAP_BOOTLOADER_RECLAIMABLE \/ t = MEMMAP_FRAMEBUFFER -> maps_type base_revision t.
Proof. intros H. split; [rewrite !elem_of_cons; tauto|]. by destruct H as [->|[->| ->]]. Qed.

Lemma drifted_has m m' t a : drifted m m' -> maps_type base_revision t -> has_type m' t a ->
  exists t', maps_type base_revision t' /\ has_type m t' a.
Proof.
  intros [Ho Hu] Hl Hh. destruct (decide (t = MEMMAP_USABLE \/ t = MEMMAP_BOOTLOADER_RECLAIMABLE)) as [Ht|Ht].
  - destruct (proj1 (Hu a)) as [H|H]; [by destruct Ht as [->| ->]; [left|right]|..]; eexists; (split; [|exact H]); apply left_out_ours; tauto.
  - exists t. split; [done|]. apply Ho; tauto.
Qed.

Lemma drifted_sym m m' : drifted m m' -> drifted m' m.
Proof. intros [Ho Hu]. split; intros; symmetry; auto. Qed.

Lemma wanted_drifted m m' a : drifted m m' -> wanted m' a <-> wanted m a.
Proof.
  assert (forall m m', drifted m m' -> wanted m' a -> wanted m a) as H.
  { intros n n' Hd (t & a' & Hl & Hh & Hs). destruct (drifted_has n n' t a' Hd Hl Hh) as (t' & ? & ?). by exists t', a'. }
  intros Hd. split; [by apply H|by apply H, drifted_sym].
Qed.

Lemma on_framebuffer_drifted m m' a : drifted m m' -> on_framebuffer m' a <-> on_framebuffer m a.
Proof. intros [Ho _]. unfold on_framebuffer. by setoid_rewrite Ho. Qed.

(** ** The runs of the two loops are the pages asked for *)
Variable limit : Z.
Hypothesis Hlimit : 0x100000000 <= limit <= 2 ^ 48.
Hypothesis Hpages : limit mod 4096 = 0.

Definition bounded (m : list memmap_entry) : Prop := forall t a, maps_type base_revision t -> has_type m t a -> a < limit.

Lemma bounded_drifted m m' : drifted m m' -> bounded m -> bounded m'.
Proof. intros Hd Hb t a Hl Hh. destruct (drifted_has m m' t a Hd Hl Hh) as (t' & ? & ?). by eapply Hb. Qed.

Definition entry_sound (e : memmap_entry) : Prop := 0 <= e_base e /\ 0 < e_length e.

Lemma asked_spec e a : entry_sound e -> (maps_type base_revision (e_type e) -> entry_ok e -> e_top e <= limit) ->
  asked base_revision a e <-> maps_type base_revision (e_type e) /\ entry_ok e /\
    exists a', covers e a' /\ same_page a a' /\ (base_revision < 3 -> 0x100000000 <= a').
Proof.
  intros [Hb Hl] Hlim. unfold asked, entry_step, same_page, covers, entry_ok, e_top in *.
  rewrite <- left_out_maps in *. destruct (left_out _ _); [by split; [|intros [? _]]|].
  destruct (CHECKED_ADD _ _) as [t|] eqn:E.
  2: { apply checked_add_None in E. split; [done|]. intros (_ & ? & _). lia. }
  apply checked_add_Some in E as [-> Ht]. specialize (Hlim eq_refl ltac:(lia)).
  assert (exists n, (if (base_revision <? 3) && (e_base e <? 0x100000000) then 0x100000000 else e_base e) = n /\
    (forall x, n <= x <-> e_base e <= x /\ (base_revision < 3 -> 0x100000000 <= x))) as (n & -> & Hn).
  { eexists. split; [reflexivity|]. intros x. destruct (Z.ltb_spec base_revision 3), (Z.ltb_spec (e_base e) 0x100000000); cbn [andb]; lia. }
  assert (e_base e <= n) by (apply Hn; lia).
  case_if.
  { split; [done|]. intros (_ & _ & x & H1 & _ & H2). pose proof (proj2 (Hn x) ltac:(lia)). lia. }
  destruct (ALIGN_UP _ _) as [at_|] eqn:Ea; [|apply align_up_None in Ea; lia].
  apply align_up_Some in Ea as (_ & Hat & Hm & _); [|lia..].
  pose proof (align_down_spec n 4096 ltac:(lia)). pose proof (align_down_mod n 4096 ltac:(lia)).
  change (align_down n 4096) with (ALIGN_DOWN n 0x1000) in *.
  split.
  - intros Ha. split_and!; [done|lia|].
    exists (if a <? n then n else if a <? e_base e + e_length e then a else e_base e + e_length e - 1).
    assert (forall x, n <= x < e_base e + e_length e -> a / 4096 = x / 4096 ->
      e_base e <= x < e_base e + e_length e /\ a / 4096 = x / 4096 /\ (base_revision < 3 -> 0x100000000 <= x)) as Hgo.
    { intros x Hx Hs. pose proof (proj1 (Hn x) ltac:(lia)). tauto. }
    apply Hgo; repeat case_if; try lia; dlia.
  - intros (_ & _ & x & Hx & Hp & Hr). pose proof (proj2 (Hn x) ltac:(lia)). dlia.
Qed.

Lemma top_bounded m e : bounded m -> e ∈ m -> entry_sound e ->
  maps_type base_revision (e_type e) -> entry_ok e -> e_top e <= limit.
Proof.
  intros Hb He [Hs1 Hs2] Hl Hok. assert (e_top e - 1 < limit); [|lia]. apply (Hb (e_type e)); [done|]. exists e.
  unfold covers, e_top. split_and!; try done; lia.
Qed.

Lemma asked_wanted m a : Forall entry_sound m -> bounded m -> Exists (asked base_revision a) m <-> wanted m a.
Proof.
  intros Hs Hb. rewrite Exists_exists. unfold wanted, has_type. rewrite Forall_forall in Hs. split.
  - intros (e & He & Ha). apply asked_spec in Ha as (H1 & H2 & x & H3 & H4); [|by apply Hs|apply (top_bounded m); auto].
    exists (e_type e), x. split_and!; try tauto. by exists e.
  - intros (t & x & Hl & (e & He & Hok & <- & Hc) & Hp). exists e. split; [done|].
    apply asked_spec; [by apply Hs|apply (top_bounded m); auto|]. split_and!; try done. by exists x.
Qed.

Lemma wanted_bounded m a : Forall entry_sound m -> bounded m -> wanted m a -> 0 <= a < limit.
Proof.
  intros Hs Hb (t & x & Hl & Hh & Hp & _). pose proof (Hb t x Hl Hh). destruct Hh as (e & He & _ & _ & Hc).
  rewrite Forall_forall in Hs. destruct (Hs e He). unfold covers, same_page in *. dlia.
Qed.

Lemma runs_nonempty entries : forall b t, Forall (fun r => r.1 < r.2) (runs base_revision entries b t).
Proof.
  assert (forall b t, Forall (fun r => r.1 < r.2) (emit b t)) as He
    by (intros; unfold emit; case_if; repeat constructor; cbn; lia).
  induction entries as [|e entries IH]; intros b t; cbn [runs]; [done|].
  destruct (entry_step _ _); [done|by apply Forall_app|]. case_if; [done|by apply Forall_app].
Qed.

Lemma in_runs m a : Forall entry_sound m -> bounded m ->
  Exists (in_run a) (runs base_revision m 0 0) <-> wanted m a.
Proof.
  intros Hs Hb. assert (Forall (fun e => 0 <= e_base e) m) by (eapply Forall_impl; [exact Hs|]; by intros e [? _]).
  rewrite runs_spec; [|done|by left]. rewrite asked_wanted by done. split; [intros [?|?]; [lia|done]|by right].
Qed.

Lemma runs_ok m : Forall entry_sound m -> bounded m -> Forall (run_ok limit) (runs base_revision m 0 0).
Proof.
  intros Hs Hb. pose proof (runs_nonempty m 0 0) as Hne. rewrite Forall_forall in Hne. apply Forall_forall. intros [b t] Hr.
  specialize (Hne _ Hr). cbn in Hne.
  assert (forall a, b <= a < t -> 0 <= a < limit) as Hw.
  { intros a Ha. apply (wanted_bounded m); [done..|]. apply in_runs; [done..|].
    apply Exists_exists. by exists (b, t). }
  unfold run_ok. cbn [fst snd]. pose proof (Hw b ltac:(lia)). pose proof (Hw (t - 1) ltac:(lia)). lia.
Qed.

Lemma fb_run_spec m e : bounded m -> e ∈ m -> entry_sound e ->
  match fb_run e with
  | Some run => run_ok limit run /\ e_type e = MEMMAP_FRAMEBUFFER /\ entry_ok e /\
                forall a, in_run a run <-> exists a', covers e a' /\ same_page a a'
  | None => e_type e = MEMMAP_FRAMEBUFFER -> ~ entry_ok e
  end.
Proof.
  intros Hb He Hs. pose proof (top_bounded m e Hb He Hs) as Hl. destruct Hs as [Hs1 Hs2].
  unfold fb_run. case_if; bool_hyps; [done|].
  specialize (Hl ltac:(apply left_out_ours; tauto)). unfold entry_ok, e_top, run_ok, in_run, covers, same_page in *.
  destruct (CHECKED_ADD _ _) as [t|] eqn:E; cbn [mbind option_bind]; [|apply checked_add_None in E; intros _; lia].
  apply checked_add_Some in E as [-> Ht].
  destruct (ALIGN_UP _ _) as [at_|] eqn:Ea; cbn [mbind option_bind]; [|apply align_up_None in Ea; lia].
  apply align_up_Some in Ea as (_ & Hat & Hm & _); [|lia..].
  pose proof (align_down_spec (e_base e) 4096 ltac:(lia)). pose proof (align_down_mod (e_base e) 4096 ltac:(lia)).
  pose proof (align_down_nonneg (e_base e) 4096 ltac:(lia) Hs1).
  unfold e_top in *. change (align_down (e_base e) 4096) with (ALIGN_DOWN (e_base e) 0x1000) in *. cbn [fst snd].
  split_and!; [lia|lia|dlia|done|lia|]. intros a. split.
  - intros Ha. exists (if a <? e_base e then e_base e else if a <? e_base e + e_length e then a else e_base e + e_length e - 1).
    repeat case_if; split; try lia; dlia.
  - intros (x & Hx & Hp). dlia.
Qed.

Lemma fb_runs_ok m : Forall entry_sound m -> bounded m ->
  Forall (run_ok limit) (omap fb_run m) /\ forall a, Exists (in_run a) (omap fb_run m) <-> on_framebuffer m a.
Proof.
  intros Hs Hb. rewrite Forall_forall in Hs. split.
  - apply Forall_forall. intros r (e & He & Hr)%list_elem_of_omap.
    pose proof (fb_run_spec m e Hb He (Hs e He)) as H. rewrite Hr in H. tauto.
  - intros a. rewrite Exists_exists. unfold on_framebuffer, has_type. split.
    + intros (r & (e & He & Hr)%list_elem_of_omap & Ha). pose proof (fb_run_spec m e Hb He (Hs e He)) as H. rewrite Hr in H.
      destruct H as (_ & Hty & Hok & Hi). apply Hi in Ha as (x & ? & ?). exists x. split; [|done]. by exists e.
    + intros (x & (e & He & Hok & Hty & Hc) & Hp). pose proof (fb_run_spec m e Hb He (Hs e He)) as H.
      destruct (fb_run e) as [r|] eqn:Hr; [|by destruct H]. destruct H as (_ & _ & _ & Hi).
      exists r. split; [apply list_elem_of_omap; by exists e|]. apply Hi. by exists x.
Qed.
End Wanted.

(** ** What the tables translate *)
Definition level_of (five_level : bool) : nat := if five_level then 4 else 3.

(** What the tables translate: [tr] gives the physical address and the
    attributes of a virtual one. *)
Record address_space (pat nx : bool) (L : nat) (m0 : list memmap_entry) (base_revision physical_base virtual_base dmo : Z)
    (ranges : list mem_range) (tr : Z -> option (Z * attrs)) : Prop := {
  as_kernel : forall r v, r ∈ ranges -> base r <= v < base r + length_ r ->
    (forall r', r' ∈ ranges -> base r' <= v < base r' + length_ r' -> permissions r' = permissions r) ->
    tr v = Some (physical_base + (v - virtual_base), MkAttrs (writable r) (nx && negb (executable r)) false false);
  as_direct : forall a, covered base_revision m0 a -> ~ on_framebuffer m0 a -> tr (u64 (dmo + a)) = Some (a, plain);
  as_framebuffer : forall a, on_framebuffer m0 a -> tr (u64 (dmo + a)) = Some (a, fb_attrs pat);
  as_identity : forall a, 1 <= base_revision -> 0 <= a < 0x100000000 -> tr a = Some (a, plain);
  as_identity0 : forall a, base_revision = 0 -> 0x1000 <= a < 0x100000000 \/ wanted 0 m0 a -> ~ on_framebuffer m0 a ->
    tr a = Some (a, plain);
  as_identity0_framebuffer : forall a, base_revision = 0 -> on_framebuffer m0 a -> tr a = Some (a, fb_attrs pat);
  as_nothing_else : forall v, tr v <> None ->
    (exists r, r ∈ ranges /\ vn L (base r) <= vn L v < vn L (base r) + length_ r) \/
    (exists a, (covered base_revision m0 a \/ on_framebuffer m0 a) /\ vn L v = vn L dmo + a) \/
    1 <= base_revision /\ 0 <= vn L v < 0x100000000 \/
    base_revision = 0 /\ (0x1000 <= vn L v < 0x100000000 \/ wanted 0 m0 (vn L v) \/ on_framebuffer m0 (vn L v));
}.

(** ** The address space *)
Section Space.
Variable max_entries : nat.
Variable i386 : bool.
Variable m0 : list memmap_entry.
Variables pat gib : bool.
Variable pm : pagemap.
#[local] Existing Instance PagemapFacts.tables.
#[local] Existing Instance laws.
Abbreviation L := (pm_level pm).
Abbreviation top := (top_level pm).
Abbreviation space := (2 ^ shift_of (S L)).
Abbreviation ok st := (@WF pmm (PagemapFacts.tables max_entries i386) (laws max_entries i386 m0) L top st).

Variable base_revision : Z.
Variables (dmo limit : Z).
Hypothesis Hrev : 0 <= base_revision.
Hypothesis Hdmo : 0 <= dmo < 2 ^ 64.
Hypothesis Hlimit : 0x100000000 <= limit <= 2 ^ 48.
Hypothesis Hpages : limit mod 4096 = 0.
Hypothesis Hwindow : limit <= vn L dmo.
Hypothesis Hspace : vn L dmo + limit <= space.
Variable nx : bool.
Variables physical_base virtual_base : Z.
Hypothesis Hphys : 0 <= physical_base.
Hypothesis Hvirt : 0 <= virtual_base.
Variable ranges : list mem_range.
Hypothesis Hranges : Forall (kernel_ok L dmo limit physical_base virtual_base) ranges.
Hypothesis Hbounded : bounded base_revision limit m0.

Definition first_4g (cond : bool) (v : Z) : list region := if cond then [MkRegion v 0 0x100000000 plain] else [].

Definition low_map : list region :=
  if base_revision =? 0 then [MkRegion 0x1000 0x1000 (0x100000000 - 0x1000) plain] else [].

Definition plain_regions (m : list memmap_entry) : list region :=
  low_map ++ first_4g (base_revision <? 3) (vn L dmo)
  ++ concat (map (direct_regions pm base_revision dmo plain) (runs base_revision m 0 0)).

Definition fb_regions (m : list memmap_entry) : list region :=
  concat (map (direct_regions pm base_revision dmo (fb_attrs pat)) (omap fb_run m)).

Definition regions (m : list memmap_entry) : list region :=
  map (kernel_region pm physical_base virtual_base nx) ranges ++ plain_regions m ++ fb_regions m
  ++ first_4g (1 <=? base_revision) 0.

(** *** What the regions say of an address *)
Definition back (x : Z) : Z := if x <? vn L dmo then x else x - vn L dmo.

Definition linear (a : attrs) (r : region) : Prop :=
  rg_attrs r = a /\ forall x, within r x -> rg_phys r + (x - rg_virt r) = back x /\ 0 <= x < vn L dmo + limit.

Lemma linear_overlay a rs x acc : Forall (linear a) rs ->
  overlay rs x acc = (if decide (Exists (fun r => within r x) rs) then Some (back x, a) else acc).
Proof.
  intros Hl. apply overlay_agree. eapply Forall_impl; [exact Hl|]. intros r [<- Hr] Hw. by destruct (Hr x Hw) as [-> _].
Qed.

#[local] Ltac solve_within :=
  intros x; unfold within, back; cbn [rg_virt rg_phys rg_len rg_attrs]; intros; case_if; lia.

Lemma linear_direct a run : run_ok limit run -> Forall (linear a) (direct_regions pm base_revision dmo a run).
Proof.
  intros [H1 H2]. apply Forall_app. split; [case_if; [|done]|]; apply Forall_singleton; (split; [done|]); solve_within.
Qed.

Lemma linear_runs a rs : Forall (run_ok limit) rs -> Forall (linear a) (concat (map (direct_regions pm base_revision dmo a) rs)).
Proof.
  intros Hr. apply Forall_concat, Forall_fmap. eapply Forall_impl; [exact Hr|]. intros run. apply linear_direct.
Qed.

Lemma linear_4g cond v : v = vn L dmo \/ v = 0 -> Forall (linear plain) (first_4g cond v).
Proof.
  intros Hv. unfold first_4g. destruct cond; [|done]. apply Forall_singleton. split; [done|]. solve_within.
Qed.

Lemma linear_low : Forall (linear plain) low_map.
Proof. unfold low_map. case_if; [|done]. apply Forall_singleton. split; [done|]. solve_within. Qed.

Lemma within_direct a run x : run_ok limit run -> 
  Exists (fun r => within r x) (direct_regions pm base_revision dmo a run) <->
  in_run (back x) run /\ (base_revision = 0 \/ vn L dmo <= x).
Proof.
  intros [H1 H2]. unfold direct_regions, in_run, back. rewrite Exists_app, Exists_cons, Exists_nil. unfold within at 2. cbn [rg_virt rg_len].
  destruct (base_revision =? 0) eqn:E; bool_hyps; rewrite ?Exists_cons, ?Exists_nil; unfold within; cbn [rg_virt rg_len];
    case_if; lia.
Qed.

Lemma within_runs a rs x : Forall (run_ok limit) rs ->
  Exists (fun r => within r x) (concat (map (direct_regions pm base_revision dmo a) rs)) <->
  Exists (in_run (back x)) rs /\ (base_revision = 0 \/ vn L dmo <= x).
Proof.
  induction rs as [|run rs IH]; intros Hr; cbn [map concat]; [rewrite !Exists_nil; tauto|].
  apply Forall_cons in Hr as [H1 Hr]. rewrite Exists_app, Exists_cons, within_direct, IH by done. tauto.
Qed.

(** Where the memory of the map goes. *)
Definition low (a : Z) : Prop := 1 <= base_revision /\ 0 <= a < 0x100000000.

Definition plain_at (x : Z) : Prop :=
  vn L dmo <= x /\ covered base_revision m0 (x - vn L dmo) \/
  base_revision = 0 /\ (0x1000 <= x < 0x100000000 \/ x < vn L dmo /\ wanted base_revision m0 x).

Definition fb_at (x : Z) : Prop := on_framebuffer m0 (back x) /\ (base_revision = 0 \/ vn L dmo <= x).

Lemma first_4g_within cond v x : Exists (fun r => within r x) (first_4g cond v) <-> cond = true /\ v <= x < v + 0x100000000.
Proof.
  unfold first_4g. destruct cond; rewrite ?Exists_cons, Exists_nil; unfold within; cbn [rg_virt rg_len]; [|by split; [|intros []]].
  split; [by intros [?|]|by left; tauto].
Qed.

Lemma plain_within m x : Forall entry_sound m -> drifted m0 m -> Exists (fun r => within r x) (plain_regions m) <-> plain_at x.
Proof.
  intros Hs Hd. pose proof (bounded_drifted base_revision limit m0 m Hd Hbounded) as Hb.
  unfold plain_regions, low_map, plain_at, covered. rewrite !Exists_app, first_4g_within, within_runs by (by apply runs_ok).
  rewrite (in_runs base_revision limit) by done. rewrite (wanted_drifted base_revision m0 m) by done. unfold back.
  assert (forall a, wanted base_revision m0 a -> 0 <= a < limit) as Hw.
  { intros a Ha. apply (wanted_bounded base_revision limit Hpages m); [done..|]. by apply (wanted_drifted base_revision m0 m). }
  destruct (Z.eqb_spec base_revision 0), (Z.ltb_spec base_revision 3); rewrite ?Exists_cons, Exists_nil; unfold within; cbn [rg_virt rg_len];
    case_if; bool_hyps; try (split; intros; [|]; intuition lia).
Qed.

Lemma fb_within m x : Forall entry_sound m -> drifted m0 m -> Exists (fun r => within r x) (fb_regions m) <-> fb_at x.
Proof.
  intros Hs Hd. pose proof (bounded_drifted base_revision limit m0 m Hd Hbounded) as Hb.
  destruct (fb_runs_ok base_revision limit Hlimit Hpages m Hs Hb) as [Hr Hi].
  unfold fb_regions, fb_at. by rewrite within_runs, Hi, (on_framebuffer_drifted m0 m).
Qed.

(** The ranges of the executable lie above everything else. *)
Lemma kernel_within x :
  Exists (fun r => within r x) (map (kernel_region pm physical_base virtual_base nx) ranges) <->
  exists r, r ∈ ranges /\ vn L (base r) <= x < vn L (base r) + length_ r.
Proof. rewrite Exists_exists. setoid_rewrite list_elem_of_fmap. unfold within. split.
  - intros (_ & (r & -> & Hr) & Hx). by exists r.
  - intros (r & Hr & Hx). eexists. split; [by exists r|]. done.
Qed.

Lemma kernel_above x r : r ∈ ranges -> vn L (base r) <= x < vn L (base r) + length_ r -> vn L dmo + limit <= x.
Proof. rewrite Forall_forall in Hranges. intros Hr Hx. destruct (Hranges r Hr). lia. Qed.

Lemma linear_plain m : Forall entry_sound m -> bounded base_revision limit m -> Forall (linear plain) (plain_regions m).
Proof.
  intros Hs Hb. unfold plain_regions. rewrite !Forall_app.
  split_and!; [apply linear_low|apply linear_4g; by left|]. by apply linear_runs, runs_ok.
Qed.

Lemma linear_fb m : Forall entry_sound m -> bounded base_revision limit m -> Forall (linear (fb_attrs pat)) (fb_regions m).
Proof. intros Hs Hb. apply linear_runs. by apply (fb_runs_ok base_revision limit Hlimit Hpages m Hs Hb). Qed.

Lemma overlay_above m x acc : Forall entry_sound m -> drifted m0 m -> vn L dmo + limit <= x ->
  overlay (regions m) x acc = overlay (map (kernel_region pm physical_base virtual_base nx) ranges) x acc.
Proof.
  intros Hs Hd Hx. pose proof (bounded_drifted base_revision limit m0 m Hd Hbounded) as Hb. unfold regions. rewrite overlay_app. apply overlay_none.
  assert (forall a rs, Forall (linear a) rs -> Forall (fun r => ~ within r x) rs) as Hgo.
  { intros a rs Hl. eapply Forall_impl; [exact Hl|]. intros r [_ Hr] Hw. destruct (Hr x Hw) as [_ ?]. lia. }
  rewrite !Forall_app. split_and!.
  - by apply (Hgo plain), linear_plain.
  - by eapply Hgo, linear_fb.
  - apply (Hgo plain), linear_4g. by right.
Qed.

Lemma overlay_below m x : Forall entry_sound m -> drifted m0 m -> x < vn L dmo + limit ->
  (low x -> overlay (regions m) x None = Some (x, plain)) /\
  (~ low x -> fb_at x -> overlay (regions m) x None = Some (back x, fb_attrs pat)) /\
  (~ low x -> ~ fb_at x -> plain_at x -> overlay (regions m) x None = Some (back x, plain)) /\
  (overlay (regions m) x None <> None -> low x \/ fb_at x \/ plain_at x).
Proof.
  intros Hs Hd Hx. pose proof (bounded_drifted base_revision limit m0 m Hd Hbounded) as Hb. unfold regions.
  rewrite overlay_app, (overlay_none (map _ _)).
  2: { apply not_Exists_Forall. 2: rewrite kernel_within. 2: intros (r & Hr & Hi); pose proof (kernel_above x r Hr Hi); lia.
       intros r. destruct (decide (rg_virt r <= x < rg_virt r + rg_len r)) as [H|H]; [by left|by right]. }
  rewrite !overlay_app.
  rewrite (linear_overlay plain (plain_regions m)), (linear_overlay (fb_attrs pat) (fb_regions m)), (linear_overlay plain (first_4g _ _))
    by first [by apply linear_plain|by apply linear_fb|apply linear_4g; by right].
  assert (low x -> back x = x) as Hback by (unfold low, back; intros []; case_if; lia).
  destruct (decide (Exists _ (first_4g _ _))) as [Hl|Hl]; rewrite first_4g_within, Z.leb_le in Hl.
  { assert (low x) as Hlow by (unfold low; lia). rewrite Hback by done. tauto. }
  assert (~ low x) as Hlow by (unfold low; lia).
  destruct (decide (Exists _ (fb_regions m))) as [Hf|Hf]; rewrite fb_within in Hf by done; [tauto|].
  destruct (decide (Exists _ (plain_regions m))) as [Hp|Hp]; rewrite plain_within in Hp by done; tauto.
Qed.

(** *** The calls, in order *)
Lemma build_post st : ok st ->
  res_post (fun r => r.1 = pm /\ exists m, Forall entry_sound m /\ drifted m0 m /\ maps max_entries i386 m0 pm (regions m) st r.2) any_panic
    (let! st := map_ranges max_entries i386 pat gib pm nx physical_base virtual_base ranges st in
     let! st := (if base_revision =? 0 then map_to max_entries i386 pat gib pm st 0x1000 0x1000 VMM_FLAG_WRITE (0x100000000 - 0x1000) else Ok st) in
     let! st := (if base_revision <? 3 then map_to max_entries i386 pat gib pm st dmo 0 VMM_FLAG_WRITE 0x100000000 else Ok st) in
     let! (entries, st) := snapshot max_entries i386 st in
     let! st := direct_loop max_entries i386 pat gib pm base_revision dmo entries st 0 0 in
     let! st := framebuffer_loop max_entries i386 pat gib pm base_revision dmo entries st in
     let! st := (if 1 <=? base_revision then map_to max_entries i386 pat gib pm st 0 0 VMM_FLAG_WRITE 0x100000000 else Ok st) in
     Ok (pm, st)).
Proof.
  intros Hwf. assert (limit < space) as Hls by lia. assert (forall p, 0 <= p <= limit -> vn L p = p) as Hlow by (intros; apply Z.mod_small; lia).
  eapply bind_any; [by apply (map_ranges_post max_entries i386 m0 pat gib pm dmo limit)|]. intros st1 M1.
  eapply (bind_any (maps max_entries i386 m0 pm low_map st1)).
  { unfold low_map. case_if; [|apply maps_nil; by destruct M1].
    eapply res_post_mono; [apply (map_to_post max_entries i386 m0 pat gib pm st1 0x1000 0x1000 true false false); [by destruct M1|lia..|]| |done];
      rewrite Hlow by lia; [lia|done]. }
  intros st2 M2.
  eapply (bind_any (maps max_entries i386 m0 pm (first_4g (base_revision <? 3) (vn L dmo)) st2)).
  { unfold first_4g. case_if; [|apply maps_nil; by destruct M2].
    apply (map_to_post max_entries i386 m0 pat gib pm st2 dmo 0 true false false); [by destruct M2|lia..]. }
  intros st3 M3. eapply bind_any; [apply (snapshot_post max_entries i386 m0 pm); by destruct M3|].
  intros [m st4] (M4 & -> & [[Hinv _] Hd]).
  assert (Forall entry_sound (memmap st4)) as Hs.
  { pose proof (sn_pos _ _ _ _ Hinv) as Hp. pose proof (proj2 (sanitised_wf _ _ _ _ Hinv)) as Hw.
    rewrite Forall_forall in Hp, Hw. apply Forall_forall. intros e He. split; [apply (Hw e He)|by apply Hp]. }
  pose proof (bounded_drifted base_revision limit m0 _ Hd Hbounded) as Hb.
  eapply bind_any; [apply (direct_loop_post max_entries i386 m0 pat gib pm base_revision dmo limit); try done; [by destruct M4|by apply runs_ok]|].
  intros st5 M5. eapply bind_any.
  { apply (framebuffer_loop_post max_entries i386 m0 pat gib pm base_revision dmo limit); try done; [by destruct M5|].
    by apply (fb_runs_ok base_revision limit Hlimit Hpages). }
  intros st6 M6.
  eapply (bind_any (maps max_entries i386 m0 pm (first_4g (1 <=? base_revision) 0) st6)).
  { unfold first_4g. case_if; [|apply maps_nil; by destruct M6].
    eapply res_post_mono; [apply (map_to_post max_entries i386 m0 pat gib pm st6 0 0 true false false); [by destruct M6|lia..|]| |done];
      rewrite Hlow by lia; [lia|done]. }
  intros st7 M7. cbn [res_post fst snd]. split; [done|]. exists (memmap st4). split_and!; [done..|].
  unfold regions, plain_regions, fb_regions. rewrite <- !app_assoc.
  eapply maps_app; [exact M1|]. eapply maps_app; [exact M2|]. eapply maps_app; [exact M3|].
  change (concat (map (direct_regions pm base_revision dmo plain) ?x) ++ ?y) with ([] ++ concat (map (direct_regions pm base_revision dmo plain) x) ++ y).
  eapply maps_app; [exact M4|]. eapply maps_app; [exact M5|]. eapply maps_app; [exact M6|exact M7].
Qed.

(** *** What the regions amount to *)
Lemma found_bounded m a : Forall entry_sound m -> drifted m0 m -> covered base_revision m0 a \/ on_framebuffer m0 a -> 0 <= a < limit.
Proof.
  intros Hs Hd [[?|Hw]|Hf]; [lia|..].
  - apply (wanted_bounded base_revision limit Hpages m); [done|by eapply bounded_drifted|]. by apply (wanted_drifted base_revision m0 m).
  - destruct Hf as (x & Hh & Hp). pose proof (Hbounded MEMMAP_FRAMEBUFFER x ltac:(apply left_out_ours; tauto) Hh) as Hx.
    apply (dr_other m0 m Hd) in Hh as (e & He & _ & _ & Hc); [|done..].
    rewrite Forall_forall in Hs. destruct (Hs e He). unfold covers, same_page in *. dlia.
Qed.

Lemma kernel_translated m r v : Forall entry_sound m -> drifted m0 m -> r ∈ ranges -> base r <= v < base r + length_ r ->
  (forall r', r' ∈ ranges -> base r' <= v < base r' + length_ r' -> permissions r' = permissions r) ->
  overlay (regions m) (vn L v) None = Some (physical_base + (v - virtual_base), MkAttrs (writable r) (nx && negb (executable r)) false false).
Proof.
  intros Hs Hd Hr Hv Hagree. pose proof Hranges as Hrs. rewrite Forall_forall in Hrs. destruct (Hrs r Hr) as [_ _ Hhalf Htop _ Habove].
  pose proof (vn_upper pm (base r) Hhalf) as E1. pose proof (vn_upper pm v ltac:(lia)) as E2.
  rewrite overlay_above by (done || lia). rewrite (overlay_agree _ _ _ (Some (physical_base + (v - virtual_base),
    MkAttrs (writable r) (nx && negb (executable r)) false false))).
  - apply decide_True. apply kernel_within. exists r. split; [done|lia].
  - apply Forall_fmap, Forall_forall. intros r' Hr' Hw. unfold within in Hw. cbn [kernel_region rg_virt rg_phys rg_len rg_attrs compose] in *.
    destruct (Hrs r' Hr') as [_ _ Hh' _ _ _]. pose proof (vn_upper pm (base r') Hh') as E3.
    pose proof (Hagree r' Hr' ltac:(lia)) as Hp. unfold writable, executable. rewrite Hp.
    by replace (physical_base + (base r' - virtual_base) + (vn L v - vn L (base r'))) with (physical_base + (v - virtual_base)) by lia.
Qed.

Lemma space_of m tr : Forall entry_sound m -> drifted m0 m -> (forall v, tr v = overlay (regions m) (vn L v) None) ->
  address_space pat nx L m0 base_revision physical_base virtual_base dmo ranges tr.
Proof.
  intros Hs Hd Htr. pose proof (fun a => found_bounded m a Hs Hd) as Hin.
  assert (limit < space) as Hls by lia.
  assert (forall a, 0 <= a < limit -> vn L a = a) as Hlow by (intros; apply Z.mod_small; lia).
  assert (forall a, 0 <= a < limit -> vn L (u64 (dmo + a)) = vn L dmo + a) as Hdir by (intros; by apply (vn_direct pm dmo limit)).
  assert (forall a, 0 <= a < limit -> back a = a) as Hbl by (intros; unfold back; case_if; lia).
  assert (forall a, 0 <= a < limit -> back (vn L dmo + a) = a) as Hbd by (intros; unfold back; case_if; lia).
  split.
  - intros. rewrite Htr. by apply kernel_translated.
  - intros a Hc Hf. pose proof (Hin a ltac:(by left)). rewrite Htr, Hdir by done.
    destruct (overlay_below m (vn L dmo + a) Hs Hd ltac:(lia)) as (_ & _ & H3 & _). rewrite H3, Hbd; [done..| | |].
    + unfold low. lia.
    + unfold fb_at. rewrite Hbd by done. tauto.
    + left. replace (vn L dmo + a - vn L dmo) with a by lia. split; [lia|done].
  - intros a Hf. pose proof (Hin a ltac:(by right)). rewrite Htr, Hdir by done.
    destruct (overlay_below m (vn L dmo + a) Hs Hd ltac:(lia)) as (_ & H2 & _). rewrite H2, Hbd; [done..| |].
    + unfold low. lia.
    + split; [by rewrite Hbd|right; lia].
  - intros a Hr Ha. rewrite Htr, Hlow by lia. by apply overlay_below; [..|lia|split].
  - intros a Hr Hc Hf. assert (0 <= a < limit) as Hb by (destruct Hc; [lia|apply Hin; left; right; by rewrite Hr]).
    rewrite Htr, Hlow by lia. destruct (overlay_below m a Hs Hd ltac:(lia)) as (_ & _ & H3 & _). rewrite H3, Hbl; [done..| | |].
    + unfold low. lia.
    + unfold fb_at. rewrite Hbl by done. tauto.
    + right. split; [done|]. destruct Hc; [by left|right]. rewrite Hr. split; [lia|done].
  - intros a Hr Hf. pose proof (Hin a ltac:(by right)). rewrite Htr, Hlow by done.
    destruct (overlay_below m a Hs Hd ltac:(lia)) as (_ & H2 & _). rewrite H2, Hbl; [done..| |].
    + unfold low. lia.
    + split; [by rewrite Hbl|by left].
  - intros v Hv. rewrite Htr in Hv. set (x := vn L v) in *.
    destruct (decide (vn L dmo + limit <= x)) as [Hx|Hx].
    + left. apply kernel_within. destruct (decide (Exists (fun r => within r x) (map (kernel_region pm physical_base virtual_base nx) ranges)))
        as [?|Hno]; [done|]. rewrite overlay_above in Hv by done. destruct Hv. apply overlay_none. by apply Forall_Exists_neg.
    + right. apply (overlay_below m x Hs Hd ltac:(lia)) in Hv. destruct Hv as [Hv|[[Hf Hr]|[[Hx' Hc]|[Hr Hc]]]].
      * right. by left.
      * unfold back in Hf. destruct (Z.ltb_spec x (vn L dmo)); [right; right; destruct Hr; [tauto|lia]|]. left. exists (x - vn L dmo). split; [tauto|lia].
      * left. exists (x - vn L dmo). split; [tauto|lia].
      * right. right. split; [done|]. rewrite Hr in Hc. tauto.
Qed.
End Space.

(** ** The theorem *)

(** C8.  The address space of a kernel.  For every memory map the allocator keeps
    whose mapped memory ends below a limit of 4 GiB to 256 TiB, a direct map
    that starts above that limit and has room for it in the address space, either
    page-table depth, every base revision, and an executable whose ranges lie
    in the upper half above the direct map, the tables [build_pagemap] returns
    translate exactly this.  An address of a range goes to the image in physical
    memory, writable and executable as the range says.  The address of physical
    memory in the direct map goes to that memory, for every page that holds
    memory of a type the base revision maps (for revisions below 3 also for the
    first 4 GiB), with the framebuffers' memory type on exactly their pages.  From
    revision 1 on the first 4 GiB are mapped at their own addresses, and nothing
    else is mapped; in revision 0 it is the first 4 GiB without the first page, and
    what the direct map holds above 4 GiB and the framebuffers are mapped at their
    own addresses too.  The memory map may be changed on the way by the allocation
    of the tables.  The routine returns such tables or stops with a message; its
    copy of the map never outgrows the block allocated for it. *)
Theorem build_pagemap_correct (max_entries : nat) (i386 pat gib five_level nx : bool) st base_revision ranges
    physical_base virtual_base dmo limit :
  pmm_inv max_entries st -> allocations_disallowed st = false ->
  0 <= base_revision -> 0 <= dmo < 2 ^ 64 -> 0 <= physical_base -> 0 <= virtual_base ->
  0x100000000 <= limit <= 2 ^ 48 -> limit mod 4096 = 0 ->
  bounded base_revision limit (memmap st) ->
  limit <= vn (level_of five_level) dmo -> vn (level_of five_level) dmo + limit <= 2 ^ shift_of (S (level_of five_level)) ->
  Forall (kernel_ok (level_of five_level) dmo limit physical_base virtual_base) ranges ->
  res_post (fun '(pm, st') =>
      pmm_inv max_entries st' /\ pm_level pm = level_of five_level /\
      address_space pat nx (level_of five_level) (memmap st) base_revision physical_base virtual_base dmo ranges
        (@translate pmm (pmm_tables max_entries i386) st' (level_of five_level) (top_level pm))) any_panic
    (build_pagemap max_entries i386 pat gib st five_level base_revision nx ranges physical_base virtual_base dmo).
Proof.
  intros Hinv Hdis Hrev Hdmo Hph Hvb Hlim Hmod Hb Hw1 Hw2 Hk. unfold build_pagemap.
  eapply bind_any.
  { eapply res_post_mono; [|intros r H; exact H|done].
    apply (new_pagemap_spec (H := PagemapFacts.tables max_entries i386) (H0 := laws max_entries i386 (memmap st)) st five_level).
    split; [by split|apply drifted_refl]. }
  intros [pm st1] (Hlev & Hwf & Hempty).
  assert (pm_level pm = level_of five_level) as HL by (unfold pm_level; rewrite Hlev; by destruct five_level).
  case_if; [done|]. rewrite <- HL in *.
  eapply res_post_mono; [by apply (build_post max_entries i386 (memmap st) pat gib pm base_revision dmo limit)| |done].
  intros [pm' st'] [Hpm (m & Hs & Hd & [Hwf' Htr])]. cbn [fst snd] in *. subst pm'.
  split_and!; [exact (proj1 (proj1 (wf_mem _ _ _ Hwf')))|done|].
  eapply (space_of (memmap st) pat pm base_revision dmo limit); try done.
  intros v. etransitivity; [exact (Htr v)|]. f_equal. exact (Hempty v).
Qed.

Definition demo_range : mem_range := MkRange 0xffffffff80000000 0x2000 MEM_RANGE_X.

Lemma build_pagemap_correct_witness :
  exists pm st', build_pagemap 512 false true true demo_pmm false 4 true [demo_range] 0x200000 0xffffffff80000000 0xffff800000000000 = Ok (pm, st') /\
    let tr := @translate pmm (pmm_tables 512 false) st' 3 (top_level pm) in
    tr 0xffffffff80001234 = Some (0x201234, MkAttrs false false false false) /\
    tr 0xffff800000123456 = Some (0x123456, plain) /\ tr 0x123456 = Some (0x123456, plain).
Proof.
  assert (bounded 4 0x100000000 (memmap demo_pmm)) as Hb.
  { intros t a _ (e & He & _ & _ & Hc). revert Hc.
    assert (Forall (fun e => e_top e <= 0x100000000) (memmap demo_pmm)) as Hall by (eapply bool_decide_unpack; by vm_compute).
    rewrite Forall_forall in Hall. specialize (Hall e He). unfold covers. lia. }
  assert (Forall (kernel_ok 3 0xffff800000000000 0x100000000 0x200000 0xffffffff80000000) [demo_range]) as Hk
    by (apply Forall_singleton; by split).
  pose proof (build_pagemap_correct 512 false true true false true demo_pmm 4 [demo_range] 0x200000 0xffffffff80000000 0xffff800000000000 0x100000000
    demo_pmm_inv eq_refl ltac:(lia) ltac:(lia) ltac:(lia) ltac:(lia) ltac:(lia) eq_refl Hb ltac:(done) ltac:(done) Hk) as H.
  assert (match build_pagemap 512 false true true demo_pmm false 4 true [demo_range] 0x200000 0xffffffff80000000 0xffff800000000000
          with Ok _ => true | _ => false end = true) as He by vm_cast_no_check (eq_refl true).
  destruct (build_pagemap _ _ _ _ _ _ _ _ _ _ _ _) as [[pm st']| | |]; try discriminate He.
  exists pm, st'. split; [done|]. destruct H as (_ & _ & [Hker Hdir _ Hid _ _ _]). cbn [level_of] in *. split_and!.
  - apply (Hker demo_range 0xffffffff80001234); [by apply list_elem_of_singleton|done|].
    by intros r' ->%list_elem_of_singleton.
  - apply (Hdir 0x123456).
    { right. exists MEMMAP_USABLE, 0x123456. split_and!; [done| |done|lia].
      exists (MkEntry 0x100000 0x100000 1). split_and!; [apply list_elem_of_further, list_elem_of_here|done..]. }
    intros (a & (e & He' & _ & Ht & _) & _). revert Ht.
    assert (Forall (fun e => e_type e <> MEMMAP_FRAMEBUFFER) (memmap demo_pmm)) as Hall by (eapply bool_decide_unpack; by vm_compute).
    rewrite Forall_forall in Hall. by apply Hall.
  - apply (Hid 0x123456); lia.
Defined.
