(* ===== verification/HostDevice.v ===== *)
(** * The host tool: the device

    [host/limine.c], the part under [bios-install]: a write-back cache of one
    block over the device file, with a journal of everything that is
    overwritten, from which a failed installation is undone and an installation
    is uninstalled later.  [io_ok n] says whether the [n]-th transfer of the
    host succeeds; a transfer beyond the end of the file fails in any case.
    Allocations succeed, and multi-byte fields are little-endian, which is what
    [ENDSWAP] makes of them on any host. *)

From S2P Require Import Prelude CInt.

Record device := MkDev {
  medium : Z -> Z; size : Z;
  block_size : Z; cache : Z -> Z; cached_block : Z; dirty : bool;
  uninstall_data : list (Z * list Z); uninstalling : bool;
  io_ok : nat -> bool; ops : nat; ferror : bool;
}.

(** A computation that leaves the function through its error path, or returns. *)
Definition M (A : Type) : Type := device -> option A * device.

Definition ret {A : Type} (a : A) : M A := fun d => (Some a, d).
Definition fail {A : Type} : M A := fun d => (None, d).
Definition bind {A B : Type} (m : M A) (k : A -> M B) : M B :=
  fun d => let '(r, d) := m d in match r with Some a => k a d | None => (None, d) end.

(** The call as a condition: failure is a value. *)
Definition attempt {A : Type} (m : M A) : M (option A) := fun d => let '(r, d) := m d in (Some r, d).

Declare Scope host_scope.
Delimit Scope host_scope with host.
Notation "'let*' x ':=' c 'in' k" := (bind c (fun x => k))
  (at level 10, x pattern, c at level 200, k at level 200) : host_scope.
#[global] Open Scope host_scope.

Lemma bind_some {A B} (m : M A) (k : A -> M B) d a d' : m d = (Some a, d') -> bind m k d = k a d'.
Proof. unfold bind. by intros ->. Qed.

Lemma bind_none {A B} (m : M A) (k : A -> M B) d d' : m d = (None, d') -> bind m k d = (None, d').
Proof. unfold bind. by intros ->. Qed.

Lemma attempt_eq {A} (m : M A) d r d' : m d = (r, d') -> attempt m d = (Some r, d').
Proof. unfold attempt. by intros ->. Qed.

Definition modify (f : device -> device) : M unit := fun d => (Some tt, f d).
Definition gets {A : Type} (f : device -> A) : M A := fun d => (Some (f d), d).
Definition require (b : bool) : M unit := if b then ret tt else fail.

Definition set_cache (f : Z -> Z) (d : device) : device :=
  MkDev (medium d) (size d) (block_size d) f (cached_block d) (dirty d) (uninstall_data d) (uninstalling d) (io_ok d) (ops d) (ferror d).
Definition set_cached_block (b : Z) (d : device) : device :=
  MkDev (medium d) (size d) (block_size d) (cache d) b (dirty d) (uninstall_data d) (uninstalling d) (io_ok d) (ops d) (ferror d).
Definition set_dirty (b : bool) (d : device) : device :=
  MkDev (medium d) (size d) (block_size d) (cache d) (cached_block d) b (uninstall_data d) (uninstalling d) (io_ok d) (ops d) (ferror d).
Definition set_medium (f : Z -> Z) (d : device) : device :=
  MkDev f (size d) (block_size d) (cache d) (cached_block d) (dirty d) (uninstall_data d) (uninstalling d) (io_ok d) (ops d) (ferror d).
Definition set_uninstall_data (l : list (Z * list Z)) (d : device) : device :=
  MkDev (medium d) (size d) (block_size d) (cache d) (cached_block d) (dirty d) l (uninstalling d) (io_ok d) (ops d) (ferror d).
Definition set_uninstalling (b : bool) (d : device) : device :=
  MkDev (medium d) (size d) (block_size d) (cache d) (cached_block d) (dirty d) (uninstall_data d) b (io_ok d) (ops d) (ferror d).
Definition set_block_size (n : Z) (d : device) : device :=
  MkDev (medium d) (size d) n (cache d) (cached_block d) (dirty d) (uninstall_data d) (uninstalling d) (io_ok d) (ops d) (ferror d).
Definition set_ferror (b : bool) (d : device) : device :=
  MkDev (medium d) (size d) (block_size d) (cache d) (cached_block d) (dirty d) (uninstall_data d) (uninstalling d) (io_ok d) (ops d) b.

(** One transfer: whether it went through.  A failure sets the error indicator;
    the end of the file does not. *)
Definition transfer : M bool := fun d =>
  let ok := io_ok d (ops d) in
  (Some ok, MkDev (medium d) (size d) (block_size d) (cache d) (cached_block d) (dirty d) (uninstall_data d) (uninstalling d)
              (io_ok d) (S (ops d)) (ferror d || negb ok)).

(** [set_pos]: a position is a [long] of 64 bits. *)
Definition set_pos (pos : Z) : M unit := require (pos <? 2 ^ 63).

(** [fread(cache, n, 1, device)] at [pos]: what could be read is copied. *)
Definition fread_cache (pos n : Z) : M unit :=
  let* ok := transfer in
  if ok then
    let* _ := modify (fun d => set_cache (fun i => if (0 <=? i) && (i <? n) && (pos + i <? size d) then medium d (pos + i) else cache d i) d) in
    let* fits := gets (fun d => pos + n <=? size d) in
    require fits
  else fail.

(** [fwrite] and [fflush] of the cached block: all of it or nothing. *)
Definition fwrite_cache (pos : Z) : M unit :=
  let* ok := transfer in
  if ok then
    modify (fun d => set_medium (fun a => if (pos <=? a) && (a <? pos + block_size d) then cache d (a - pos) else medium d a) d)
  else fail.

Definition NO_BLOCK : Z := 2 ^ 64 - 1.

Fixpoint device_init_guesses (guesses : list Z) : M unit :=
  match guesses with
  | [] => fail
  | n :: guesses =>
      let* r := attempt (fread_cache 0 n) in
      match r with
      | None => device_init_guesses guesses
      | Some _ =>
          let* _ := modify (set_block_size n) in
          let* _ := modify (set_dirty false) in
          modify (set_cached_block 0)
      end
  end.

Definition device_init : M unit := device_init_guesses [512; 2048; 4096].

Definition device_flush_cache : M unit :=
  let* d := gets id in
  if negb (dirty d) then ret tt
  else
    let* _ := set_pos (u64 (cached_block d * block_size d)) in
    let* _ := fwrite_cache (u64 (cached_block d * block_size d)) in
    modify (set_dirty false).

Definition device_cache_block (block : Z) : M unit :=
  let* d := gets id in
  if cached_block d =? block then ret tt
  else
    let* _ := (if dirty d then device_flush_cache else ret tt) in
    let* _ := set_pos (u64 (block * block_size d)) in
    let* _ := modify (set_cached_block NO_BLOCK) in
    let* _ := fread_cache (u64 (block * block_size d)) (block_size d) in
    modify (set_cached_block block).

(** The part of a transfer of [count] bytes at [loc] that lies in one block:
    the offset in the block and the length. *)
Definition chunk_of (bs loc count progress : Z) : Z * Z :=
  let offset := u64 (loc + progress) mod bs in
  (offset, if bs - offset <? count - progress then bs - offset else count - progress).

(** Every turn moves at least one byte, so [count] turns are enough. *)
Fixpoint read_loop (fuel : nat) (loc count progress : Z) : M (list Z) :=
  if count <=? progress then ret []
  else
    match fuel with
    | O => fail
    | S fuel =>
        let* bs := gets block_size in
        let* _ := device_cache_block (u64 (loc + progress) / bs) in
        let '(offset, chunk) := chunk_of bs loc count progress in
        let* bytes := gets (fun d => map (cache d) (seqZ offset chunk)) in
        let* rest := read_loop fuel loc count (progress + chunk) in
        ret (bytes ++ rest)
    end.

Definition device_read_raw (loc count : Z) : M (list Z) := read_loop (Z.to_nat count) loc count 0.

Definition put_bytes (f : Z -> Z) (off : Z) (bytes : list Z) : Z -> Z :=
  fun i => if (off <=? i) && (i <? off + Z.of_nat (length bytes)) then nth (Z.to_nat (i - off)) bytes 0 else f i.

Fixpoint write_loop (fuel : nat) (buffer : list Z) (loc count progress : Z) : M unit :=
  if count <=? progress then ret tt
  else
    match fuel with
    | O => fail
    | S fuel =>
        let* bs := gets block_size in
        let* _ := device_cache_block (u64 (loc + progress) / bs) in
        let '(offset, chunk) := chunk_of bs loc count progress in
        let* _ := modify (fun d => set_cache (put_bytes (cache d) offset (take (Z.to_nat chunk) (drop (Z.to_nat progress) buffer))) d) in
        let* _ := modify (set_dirty true) in
        write_loop fuel buffer loc count (progress + chunk)
    end.

Definition UNINSTALL_DATA_MAX : nat := 256.

Definition device_write_raw (buffer : list Z) (loc : Z) : M unit :=
  let count := Z.of_nat (length buffer) in
  let* u := gets uninstalling in
  if u then write_loop (Z.to_nat count) buffer loc count 0
  else
    let* n := gets (fun d => length (uninstall_data d)) in
    let* _ := require (negb (UNINSTALL_DATA_MAX <=? n)%nat) in
    let* data := device_read_raw loc count in
    let* _ := write_loop (Z.to_nat count) buffer loc count 0 in
    modify (fun d => set_uninstall_data (uninstall_data d ++ [(loc, data)]) d).

(** ** Undoing

    One entry, with one retry.  The flags say whether a write and whether a
    flush failed. *)
Definition undo_entry (entry : Z * list Z) (flags : bool * bool) : M (bool * bool) :=
  let '(write_fail, flush_fail) := flags in
  let* r := attempt (device_write_raw (snd entry) (fst entry)) in
  match r with
  | Some _ => ret (write_fail, flush_fail)
  | None =>
      let* f := attempt device_flush_cache in
      let flush_fail := flush_fail || match f with Some _ => false | None => true end in
      let* _ := modify (set_dirty false) in
      let* _ := modify (set_cached_block NO_BLOCK) in
      let* r := attempt (device_write_raw (snd entry) (fst entry)) in
      ret (write_fail || match r with Some _ => false | None => true end, flush_fail)
  end.

Fixpoint undo_entries (entries : list (Z * list Z)) (flags : bool * bool) : M (bool * bool) :=
  match entries with
  | [] => ret flags
  | e :: entries => let* flags := undo_entry e flags in undo_entries entries flags
  end.

(** [uninstall]: whether everything was restored. *)
Definition uninstall : M bool :=
  let* _ := modify (set_uninstalling true) in
  let* _ := modify (set_dirty false) in
  let* _ := modify (set_cached_block NO_BLOCK) in
  let* entries := gets uninstall_data in
  let* flags := undo_entries entries (false, false) in
  let* f := attempt device_flush_cache in
  let flush_fail := snd flags || match f with Some _ => false | None => true end in
  ret (negb (fst flags) && negb flush_fail).

Definition reverse_uninstall_data : M unit := modify (fun d => set_uninstall_data (rev (uninstall_data d)) d).

(** ** The journal as a file *)
Definition store_entry (e : Z * list Z) : option (list Z) :=
  if (length (snd e) =? 0)%nat then None
  else Some (le_bytes 8 (fst e) ++ le_bytes 8 (Z.of_nat (length (snd e))) ++ snd e).

Fixpoint store_entries (l : list (Z * list Z)) : option (list Z) :=
  match l with
  | [] => Some []
  | e :: l => b ← store_entry e; rest ← store_entries l; Some (b ++ rest)
  end.

(** [fwrite] of no bytes is taken for an error. *)
Definition store_uninstall_data (l : list (Z * list Z)) : option (list Z) :=
  rest ← store_entries l; Some (le_bytes 8 (Z.of_nat (length l)) ++ rest).

Definition take_exact (n : Z) (file : list Z) : option (list Z * list Z) :=
  if Z.of_nat (length file) <? n then None else Some (take (Z.to_nat n) file, drop (Z.to_nat n) file).

Fixpoint load_entries (n : nat) (file : list Z) : option (list (Z * list Z)) :=
  match n with
  | O => Some []
  | S n =>
      '(loc, file) ← take_exact 8 file;
      '(count, file) ← take_exact 8 file;
      if le_val count =? 0 then None
      else
        '(data, file) ← take_exact (le_val count) file;
        rest ← load_entries n file;
        Some ((le_val loc, data) :: rest)
  end.

Definition load_uninstall_data (file : list Z) : option (list (Z * list Z)) :=
  '(count, file) ← take_exact 8 file;
  if Z.of_nat UNINSTALL_DATA_MAX <? le_val count then None else load_entries (Z.to_nat (le_val count)) file.
