(* ===== verification/HostGpt.v ===== *)
(** * The host tool: finding the GUID partition table

    The checks of [host/limine.c] on a GPT header and the search for it, on the
    device of [HostDevice].  The offsets of the fields are those of [Gpt]. *)

From S2P Require Import Prelude CInt Libc Gpt HostDevice.

(** Checked arithmetic of the tool: the result if it did not overflow. *)
Definition mul_u64 (a b : Z) : option Z := if negb (a =? 0) && ((2 ^ 64 - 1) / a <? b) then None else Some (u64 (a * b)).
Definition add_u64 (a b : Z) : option Z := if (2 ^ 64 - 1) - b <? a then None else Some (u64 (a + b)).

(** The structure is padded to a multiple of eight bytes. *)
Definition sizeof_table_header : Z := 96.
Definition GPT_HEADER_SIZE : Z := 92.
Definition GPT_HEADER_CRC_OFFSET : Z := 16.

(** The bytes of the header from [done] on, the field of the CRC zeroed. *)
Definition blank_crc (done : Z) (chunk : list Z) : list Z :=
  imap (fun i b => if (GPT_HEADER_CRC_OFFSET <=? done + Z.of_nat i) && (done + Z.of_nat i <? GPT_HEADER_CRC_OFFSET + 4) then 0 else b) chunk.

Fixpoint header_crc_loop (fuel : nat) (loc header_size done crc : Z) : M Z :=
  if header_size <=? done then ret (NOT32 crc)
  else
    match fuel with
    | O => fail
    | S fuel =>
        let step := if 512 <? header_size - done then 512 else header_size - done in
        let* chunk := device_read_raw (u64 (loc + done)) step in
        header_crc_loop fuel loc header_size (done + step) (crc32_update crc (blank_crc done chunk))
    end.

Definition gpt_header_crc (loc header_size : Z) : M Z := header_crc_loop (Z.to_nat header_size) loc header_size 0 0xffffffff.

Fixpoint array_crc_loop (fuel : nat) (loc size crc : Z) : M Z :=
  if size <=? 0 then ret (NOT32 crc)
  else
    match fuel with
    | O => fail
    | S fuel =>
        let step := if size <? 512 then size else 512 in
        let* chunk := device_read_raw loc step in
        array_crc_loop fuel (u64 (loc + step)) (size - step) (crc32_update crc chunk)
    end.

Definition gpt_entry_array_crc (loc size : Z) : M Z := array_crc_loop (Z.to_nat size) loc size 0xffffffff.

(** Whether a CRC could be computed and is the one expected. *)
Definition crc_matches (m : M Z) (expected : Z) : M bool :=
  let* r := attempt m in ret (match r with Some crc => crc =? expected | None => false end).

(** What is left to check once the header's own CRC has matched: where the array
    is, if it is where one may be. *)
Definition array_place (h : list Z) (header_lba lb_size device_blocks budget : Z) : option (Z * Z) :=
  let entry_size := h_size_of_entry h in
  if (entry_size <? sizeof_entry) || negb (Z.land entry_size (entry_size - 1) =? 0) then None
  else
    array_size ← mul_u64 (h_number_of_entries h) entry_size;
    if (array_size =? 0) || (GPT_MAX_ARRAY_SIZE <? array_size) || (budget <? array_size) then None
    else
      let array_lba := h_partition_entry_lba h in
      let array_blocks := (array_size + lb_size - 1) / lb_size in
      array_end ← add_u64 array_lba array_blocks;
      let first_usable := h_first_usable_lba h in
      let last_usable := h_last_usable_lba h in
      if last_usable <? first_usable then None
      else if (if array_lba <? first_usable then first_usable <? array_end
               else (array_lba <=? last_usable) || (header_lba <? array_end)) then None
      else if negb (device_blocks =? 0) && (device_blocks <? array_end) then None
      else array_loc ← mul_u64 array_lba lb_size; Some (array_loc, array_size).

Definition gpt_verify_header (h : list Z) (header_lba lb_size device_blocks budget : Z) : M (bool * Z) :=
  if negb (signature_ok h) then ret (false, budget)
  else if negb (h_revision h =? 0x00010000) then ret (false, budget)
  else if (h_header_size h <? GPT_HEADER_SIZE) || (lb_size <? h_header_size h) then ret (false, budget)
  else if negb (h_my_lba h =? header_lba) then ret (false, budget)
  else
    match mul_u64 header_lba lb_size with
    | None => ret (false, budget)
    | Some header_loc =>
        let* ok := crc_matches (gpt_header_crc header_loc (h_header_size h)) (h_crc32 h) in
        if negb ok then ret (false, budget)
        else
          match array_place h header_lba lb_size device_blocks budget with
          | None => ret (false, budget)
          | Some (array_loc, array_size) =>
              let* ok := crc_matches (gpt_entry_array_crc array_loc array_size) (h_array_crc32 h) in
              ret (ok, budget - array_size)
          end
    end.

(** ** The end of the medium *)
Definition device_block_present (block lb_size : Z) : M bool :=
  match (loc ← mul_u64 block lb_size; add_u64 loc (lb_size - 1)) with
  | None => ret false
  | Some loc =>
      if negb (loc <? 2 ^ 63) then ret false
      else
        let* ok := transfer in
        if ok then gets (fun d => loc <? size d) else ret false
  end.

(** [hi] doubles until it is out of the medium. *)
Fixpoint double_loop (fuel : nat) (lb_size lo hi : Z) : M (option (Z * Z)) :=
  match fuel with
  | O => ret None
  | S fuel =>
      let* present := device_block_present hi lb_size in
      if negb present then ret (Some (lo, hi))
      else if (2 ^ 64 - 1) / 2 <? hi then ret None
      else double_loop fuel lb_size hi (hi * 2)
  end.

Fixpoint bisect_loop (fuel : nat) (lb_size lo hi : Z) : M Z :=
  match fuel with
  | O => ret lo
  | S fuel =>
      if lo + 1 <? hi then
        let mid := lo + (hi - lo) / 2 in
        let* present := device_block_present mid lb_size in
        if present then bisect_loop fuel lb_size mid hi else bisect_loop fuel lb_size lo mid
      else ret lo
  end.

Definition device_last_block (lb_size : Z) : M (option Z) :=
  let* present := device_block_present 0 lb_size in
  if negb present then ret None
  else
    let* r := double_loop 65 lb_size 0 1 in
    match r with
    | None => ret None
    | Some (lo, hi) => let* last := bisect_loop 64 lb_size lo hi in ret (Some last)
    end.

(** ** The search *)
Fixpoint protective_loop (slots : list Z) : M bool :=
  match slots with
  | [] => ret false
  | i :: slots =>
      let* r := attempt (device_read_raw (0x1be + 16 * i + 4) 1) in
      match r with
      | None => ret false
      | Some b => if nth 0 b 0 =? 0xee then ret true else protective_loop slots
      end
  end.

Definition gpt_protective_mbr : M bool := protective_loop [0; 1; 2; 3].

(** The blocks tried after the primary header: the last one, then the one the
    primary names. *)
Definition alternate_candidates (primary : option (list Z)) (last : option Z) : list Z :=
  let claimed :=
    match primary, last with
    | Some h, Some last =>
        if signature_ok h && (1 <? h_alternate_lba h) && (h_alternate_lba h <=? last) then [h_alternate_lba h] else []
    | _, _ => []
    end in
  match last with
  | Some last =>
      if 1 <=? last then last :: (if bool_decide (claimed = [last]) then [] else claimed) else claimed
  | None => claimed
  end.

Fixpoint try_candidates (candidates : list Z) (lb_size device_blocks budget : Z) : M (option (list Z * Z) * Z) :=
  match candidates with
  | [] => ret (None, budget)
  | lba :: candidates =>
      match mul_u64 lba lb_size with
      | None => try_candidates candidates lb_size device_blocks budget
      | Some loc =>
          let* r := attempt (device_read_raw loc sizeof_table_header) in
          match r with
          | None => try_candidates candidates lb_size device_blocks budget
          | Some h =>
              let* (ok, budget) := gpt_verify_header h lba lb_size device_blocks budget in
              if ok then ret (Some (h, lba), budget) else try_candidates candidates lb_size device_blocks budget
          end
      end
  end.

(** The header that verified, the block size it was written for, its block. *)
Fixpoint locate_sizes (guesses : list Z) (budget : Z) : M (option (list Z * Z * Z)) :=
  match guesses with
  | [] => ret None
  | lb_size :: guesses =>
      let* last := device_last_block lb_size in
      let device_blocks := match last with Some l => l + 1 | None => 0 end in
      let* primary := attempt (device_read_raw lb_size sizeof_table_header) in
      let* (ok, budget) :=
        match primary with
        | Some h => gpt_verify_header h 1 lb_size device_blocks budget
        | None => ret (false, budget)
        end in
      match (if ok then primary else None) with
      | Some h => ret (Some (h, lb_size, 1))
      | None =>
          let* (r, budget) := try_candidates (alternate_candidates primary last) lb_size device_blocks budget in
          match r with Some (h, lba) => ret (Some (h, lb_size, lba)) | None => locate_sizes guesses budget end
      end
  end.

Definition gpt_locate_header : M (option (list Z * Z * Z)) :=
  let* protective := gpt_protective_mbr in
  if negb protective then ret None else locate_sizes [512; 2048; 4096] (GPT_MAX_ARRAY_SIZE * 2).
