(* ===== verification/Host.v ===== *)
(** * The host tool: installing the BIOS stages

    [bios_install] of [host/limine.c] after its arguments have been read: the
    conversion of an ISO hybrid's GPT into an MBR table, the checks on the MBR,
    the choice of the partition for stage 2, the writes, and the clean-up that
    undoes them when something fails. *)

From S2P Require Import Prelude CInt Libc Gpt HostDevice HostGpt.

Definition MAX_GPT_PARTITIONS : Z := 256.

Definition gpt2mbr_type_conv_table : list (Z * Z * Z) :=
  [(0x11d2f81fc12a7328, 0x3bc93ec9a0004bba, 0xef); (0x4433b9e5ebd0a0a2, 0xc79926b7b668c087, 0x07); (0x11aa000048465300, 0xacec4365300011aa, 0xaf)].

Definition gpt2mbr_type (gpt_type1 gpt_type2 : Z) : Z :=
  match find (fun '(t1, t2, _) => (t1 =? gpt_type1) && (t2 =? gpt_type2)) gpt2mbr_type_conv_table with
  | Some (_, _, t) => t
  | None => -1
  end.

Definition lba2chs (lba : Z) : list Z :=
  let too_big := [0xfe; 0xff; 0xff] in
  if 63 * 255 * 1024 <? lba then too_big
  else
    let cylinder := lba / (255 * 63) in
    if 1024 <=? cylinder then too_big
    else
      let head := (lba / 63) mod 255 in
      let sector := lba mod 63 + 1 in
      [u8 head; u8 (Z.lor (Z.land (Z.shiftr cylinder 2) 0xc0) (Z.land sector 0x3f)); u8 cylinder].

(** ** File systems that must not be overwritten *)
Definition bytes_are (b : list Z) (text : string) : bool := bool_decide (b = bytes text).

(** A signature of [test] bytes at [loc]: absent, or, if forced, erased. *)
Definition erase_hint (force : bool) (loc test wipe : Z) (text : string) : M bool :=
  let* hint := device_read_raw loc test in
  if bytes_are hint text then
    if force then let* _ := device_write_raw (replicate (Z.to_nat wipe) 0) loc in ret true else ret false
  else ret true.

Definition validate_or_force (offset : Z) (force : bool) : M bool :=
  let* ok := erase_hint force (u64 (offset + 3)) 4 4 "NTFS" in
  if negb ok then ret false
  else
    let* ok := erase_hint force (u64 (offset + 54)) 3 5 "FAT" in
    if negb ok then ret false
    else
      let* ok := erase_hint force (u64 (offset + 82)) 3 5 "FAT" in
      if negb ok then ret false
      else
        let* ok := erase_hint force (u64 (offset + 3)) 5 5 "FAT32" in
        if negb ok then ret false
        else
          let* hint16 := device_read_raw (u64 (offset + 1080)) 2 in
          if le_val hint16 =? 0xef53 then
            if force then let* _ := device_write_raw [0; 0] (u64 (offset + 1080)) in ret true else ret false
          else ret true.

Fixpoint pvd_loop (n : nat) (lba : Z) : M bool :=
  match n with
  | O => ret false
  | S n =>
      let* r := attempt (device_read_raw (lba * 2048) 2048) in
      match r with
      | None => ret false
      | Some desc =>
          if negb (bytes_are (take 5 (drop 1 desc)) "CD001") then ret false
          else if nth 0 desc 0 =? 1 then ret (nth 6 desc 0 =? 1)
          else if nth 0 desc 0 =? 255 then ret false
          else pvd_loop n (lba + 1)
      end
  end.

Definition iso9660_has_pvd : M bool := pvd_loop 256 16.

(** ** Conversion of the GPT of an ISO hybrid *)
Record part_to_conv := MkConv { lba_start : Z; lba_end : Z; conv_type : Z }.

Definition type_guid_empty (e : list Z) : bool := (field e 0 8 =? 0) && (field e 8 8 =? 0).

(** An entry that is in use, as an MBR entry; [None] if it cannot be one. *)
Definition convert_entry (h e : list Z) (lb_size last_block : Z) : option part_to_conv :=
  let start_lba := e_starting_lba e in
  let end_lba := e_ending_lba e in
  if end_lba <? start_lba then None
  else if (start_lba <? h_first_usable_lba h) || (h_last_usable_lba h <? end_lba) then None
  else if last_block <? end_lba then None
  else
    start_sect ← mul_u64 start_lba (lb_size / 512);
    if 2 ^ 32 - 1 <? start_sect then None
    else
      sect_count ← mul_u64 (u64 (end_lba - start_lba + 1)) (lb_size / 512);
      if (2 ^ 32 - 1 <? sect_count) || (2 ^ 32 - 1 <? u64 (start_sect + sect_count - 1)) then None
      else
        let type := gpt2mbr_type (field e 0 8) (field e 8 8) in
        if type =? -1 then None else Some (MkConv start_sect (u64 (start_sect + sect_count - 1)) type).

Fixpoint gather (n : nat) (i : Z) (h : list Z) (lb_size base last_block : Z) (parts : list part_to_conv) : M (option (list part_to_conv)) :=
  match n with
  | O => ret (Some parts)
  | S n =>
      match add_u64 base (i * h_size_of_entry h) with
      | None => ret None
      | Some off =>
          let* e := device_read_raw off sizeof_entry in
          if type_guid_empty e then gather n (i + 1) h lb_size base last_block parts
          else if (length parts =? 4)%nat then ret None
          else
            match convert_entry h e lb_size last_block with
            | None => ret None
            | Some p => gather n (i + 1) h lb_size base last_block (parts ++ [p])
            end
      end
  end.

Definition array_reserve (lb_size : Z) : Z := (16384 + lb_size - 1) / lb_size.

(** The blocks where an alternate header is looked for. *)
Definition alternates (h : list Z) (header_lba lb_size : Z) (last : option Z) : list Z :=
  let alt_reserve := 1 + array_reserve lb_size in
  let named := if negb (header_lba =? 1) then header_lba else h_alternate_lba h in
  let first := if alt_reserve <=? named then [named] else [] in
  match last with
  | Some last => if (alt_reserve <=? last) && negb (bool_decide (first = [last])) then first ++ [last] else first
  | None => first
  end.

(** The ranges of blocks to erase, settled before anything is written. *)
Fixpoint settle (alts : list Z) (h : list Z) (lb_size : Z) : M (list (Z * Z)) :=
  match alts with
  | [] => ret []
  | alt :: alts =>
      let* probe :=
        match mul_u64 alt lb_size with
        | None => ret None
        | Some loc => attempt (device_read_raw loc sizeof_table_header)
        end in
      if negb (match probe with Some p => signature_ok p | None => false end) then settle alts h lb_size
      else
        let last_usable := h_last_usable_lba h in
        let first := alt - array_reserve lb_size in
        let* _ := require (negb (alt <=? last_usable)) in
        let first := if first <=? last_usable then last_usable + 1 else first in
        let* rest := settle alts h lb_size in
        ret ((first, alt) :: rest)
  end.

(** Blocks [lba], ..., [lba + n - 1]. *)
Fixpoint erase_blocks (n : nat) (lba lb_size : Z) : M unit :=
  match n with
  | O => ret tt
  | S n =>
      match mul_u64 lba lb_size with
      | None => fail
      | Some loc =>
          let* _ := device_write_raw (replicate (Z.to_nat lb_size) 0) loc in
          erase_blocks n (lba + 1) lb_size
      end
  end.

Fixpoint erase_ranges (ranges : list (Z * Z)) (lb_size : Z) : M unit :=
  match ranges with
  | [] => ret tt
  | (first, alt) :: ranges =>
      let* _ := erase_blocks (Z.to_nat (alt - first + 1)) first lb_size in
      erase_ranges ranges lb_size
  end.

Definition disk_id_of (guid : list Z) : Z :=
  let id := foldl (fun id b => u32 (Z.lxor id b * 16777619)) 2166136261 guid in
  if id =? 0 then 1 else id.

Fixpoint write_each (bytes : list Z) (loc : Z) : M unit :=
  match bytes with
  | [] => ret tt
  | b :: bytes => let* _ := device_write_raw [b] loc in write_each bytes (loc + 1)
  end.

Fixpoint write_entries (parts : list part_to_conv) (i : Z) : M unit :=
  match parts with
  | [] => ret tt
  | p :: parts =>
      let at_ := 0x1be + i * 16 in
      let* _ := device_write_raw [u8 (conv_type p)] (at_ + 0x04) in
      let* _ := device_write_raw (le_bytes 4 (u32 (lba_start p))) (at_ + 0x08) in
      let* _ := device_write_raw (le_bytes 4 (u32 (lba_end p - lba_start p + 1))) (at_ + 0x0c) in
      let* _ := device_write_raw (lba2chs (lba_start p)) (at_ + 1) in
      let* _ := device_write_raw (lba2chs (lba_end p)) (at_ + 5) in
      write_entries parts (i + 1)
  end.

(** The writes of the conversion. *)
Definition commit_conversion (h : list Z) (header_lba lb_size : Z) (parts : list part_to_conv) : M unit :=
  let* last := device_last_block lb_size in
  let* ranges := settle (alternates h header_lba lb_size last) h lb_size in
  let first_usable := h_first_usable_lba h in
  let reserve_max := 2 + array_reserve lb_size in
  let reserve := if first_usable <? reserve_max then first_usable else reserve_max in
  let reserve := if reserve <? 2 then 2 else reserve in
  let* _ := erase_blocks (Z.to_nat reserve) 0 lb_size in
  let* _ := erase_ranges ranges lb_size in
  let* _ := write_each (le_bytes 4 (disk_id_of (h_disk_guid h))) 0x1b8 in
  let* _ := write_entries parts 0 in
  device_write_raw [0x55; 0xaa] 510.

(** Whether the GPT was converted. *)
Definition convert_gpt (h : list Z) (lb_size header_lba : Z) : M bool :=
  let* _ := modify (set_ferror false) in
  let* iso := iso9660_has_pvd in
  if negb iso then
    let* err := gets ferror in
    if err then fail else ret false
  else if MAX_GPT_PARTITIONS <? h_number_of_entries h then ret false
  else
    match mul_u64 (h_partition_entry_lba h) lb_size with
    | None => ret false
    | Some base =>
        let* last := device_last_block lb_size in
        match last with
        | None => ret false
        | Some last_block =>
            let* parts := gather (Z.to_nat (h_number_of_entries h)) 0 h lb_size base last_block [] in
            match parts with
            | None => ret false
            | Some parts =>
                if existsb (fun p => lba_start p <? 63) parts then fail
                else let* _ := commit_conversion h header_lba lb_size parts in ret true
            end
        end
    end.

(** ** Checks on the MBR *)
Definition mbr_slot (force : bool) (slot : Z) (s : bool * bool) : M (bool * bool) :=
  let '(mbr, any_active) := s in
  let* b := device_read_raw slot 1 in
  let hint8 := nth 0 b 0 in
  let bad := negb (hint8 =? 0) && negb (hint8 =? 0x80) in
  let* hint8 :=
    (if bad && force then let* _ := device_write_raw [Z.land hint8 0x80] slot in ret (Z.land hint8 0x80) else ret hint8) in
  let mbr := mbr && negb (bad && negb force) in
  let any_active := any_active || negb (Z.land hint8 0x80 =? 0) in
  let* t := device_read_raw (slot + 4) 1 in
  if nth 0 t 0 =? 0 then ret (mbr, any_active)
  else
    let* start := device_read_raw (slot + 8) 4 in
    let* _ := require (negb (le_val start <? 63)) in
    ret (mbr, any_active).

Fixpoint mbr_slots (force : bool) (slots : list Z) (s : bool * bool) : M (bool * bool) :=
  match slots with
  | [] => ret s
  | slot :: slots => let* s := mbr_slot force slot s in mbr_slots force slots s
  end.

Definition check_mbr (force : bool) : M bool :=
  let* sig := device_read_raw 510 2 in
  let bad := negb (le_val sig =? 0xaa55) in
  let* _ := (if bad && force then device_write_raw [0x55; 0xaa] 510 else ret tt) in
  let* (mbr, any_active) := mbr_slots force [446; 462; 478; 494] (negb (bad && negb force), false) in
  let* mbr := (if mbr then validate_or_force 0 force else ret false) in
  if mbr && negb any_active then let* _ := device_write_raw [0x80] 446 in ret mbr else ret mbr.

(** ** The partition for stage 2 *)
Definition BIOS_BOOT : string := "Hah!IdontNeedEFI".

Definition is_bios_boot (e : list Z) : bool := bytes_are (take 16 e) BIOS_BOOT.

Definition digits_value (s : list Z) : Z := foldl (fun v c => v * 10 + (c - 48)) 0 s.

(** A whole number from 1 to [UINT32_MAX] in decimal, less one. *)
Definition parse_index (s : list Z) : option Z :=
  if (length s =? 0)%nat || negb (forallb (fun c => (48 <=? c) && (c <=? 57)) s) then None
  else if (digits_value s =? 0) || (2 ^ 32 - 1 <? digits_value s) then None
  else Some (digits_value s - 1).

Definition entry_at (h : list Z) (base i : Z) : M (list Z) :=
  match add_u64 base (i * h_size_of_entry h) with
  | None => fail
  | Some off => device_read_raw off sizeof_entry
  end.

Fixpoint autodetect (n : nat) (i : Z) (h : list Z) (base : Z) : M (Z * list Z) :=
  match n with
  | O => fail
  | S n =>
      let* e := entry_at h base i in
      if is_bios_boot e then ret (i, e) else autodetect n (i + 1) h base
  end.

(** The number of the chosen entry and the entry. *)
Definition choose_entry (force : bool) (part_ndx : option (list Z)) (h : list Z) (base : Z) : M (Z * list Z) :=
  let gpt_entry_count := if MAX_GPT_PARTITIONS <? h_number_of_entries h then MAX_GPT_PARTITIONS else h_number_of_entries h in
  match part_ndx with
  | Some text =>
      match parse_index text with
      | None => fail
      | Some partition_num =>
          let* _ := require (negb (gpt_entry_count <=? partition_num)) in
          let* e := entry_at h base partition_num in
          let* _ := require (negb (type_guid_empty e)) in
          let* _ := require (force || is_bios_boot e) in
          ret (partition_num, e)
      end
  | None => autodetect (Z.to_nat gpt_entry_count) 0 h base
  end.

(** No other partition overlaps. *)
Fixpoint check_neighbours (n : nat) (i : Z) (h : list Z) (base partition_num starting_lba ending_lba : Z) : M unit :=
  match n with
  | O => ret tt
  | S n =>
      let* _ :=
        (if i =? partition_num then ret tt
         else
           let* other := entry_at h base i in
           if type_guid_empty other then ret tt
           else require (negb ((starting_lba <=? e_ending_lba other) && (e_starting_lba other <=? ending_lba)))) in
      check_neighbours n (i + 1) h base partition_num starting_lba ending_lba
  end.

(** Where stage 2 goes on a GPT disk, and the room there is. *)
Definition place_gpt (force : bool) (part_ndx : option (list Z)) (h : list Z) (lb_size : Z) : M (Z * Z) :=
  match mul_u64 (h_partition_entry_lba h) lb_size with
  | None => fail
  | Some base =>
      let* (partition_num, e) := choose_entry force part_ndx h base in
      let starting_lba := e_starting_lba e in
      let ending_lba := e_ending_lba e in
      let* _ := require (negb (ending_lba <? starting_lba)) in
      let* _ := require (negb (starting_lba <? 2 + array_reserve lb_size)) in
      let* _ := require (negb ((starting_lba <? h_first_usable_lba h) || (h_last_usable_lba h <? ending_lba))) in
      let* last := device_last_block lb_size in
      match last with
      | None => fail
      | Some last_block =>
          let* _ := require (negb ((last_block <? 1 + array_reserve lb_size) || (last_block - 1 - array_reserve lb_size <? ending_lba))) in
          let* _ := check_neighbours (Z.to_nat (h_number_of_entries h)) 0 h base partition_num starting_lba ending_lba in
          match mul_u64 (u64 (ending_lba - starting_lba + 1)) lb_size with
          | None => fail
          | Some part_size =>
              let* _ := require (negb (part_size <? 32768)) in
              match mul_u64 starting_lba lb_size with
              | None => fail
              | Some stage2_loc =>
                  let* valid := validate_or_force stage2_loc force in
                  let* _ := require valid in
                  ret (stage2_loc, part_size)
              end
          end
      end
  end.

(** ** Installing *)
Record options := MkOptions {
  o_force : bool; o_gpt2mbr_allowed : bool; o_part_ndx : option (list Z); o_uninstall_file : bool;
}.

Section Install.
(** The image of the boot loader, generated when the program is built, and
    whether the host can store the uninstall data. *)
Variable bootloader_img : list Z.
Variable can_store : bool.

(** The checks, up to the place of stage 2. *)
Definition prepare (o : options) : M (Z * Z) :=
  let* located := gpt_locate_header in
  let* gpt :=
    match located with
    | Some (h, lb_size, header_lba) =>
        if o_gpt2mbr_allowed o then
          let* converted := convert_gpt h lb_size header_lba in
          ret (if converted then None else Some (h, lb_size))
        else ret (Some (h, lb_size))
    | None => ret None
    end in
  match gpt with
  | Some (h, lb_size) => place_gpt (o_force o) (o_part_ndx o) h lb_size
  | None =>
      let* mbr := check_mbr (o_force o) in
      let* _ := require mbr in
      ret (4096, 63 * 512 - 4096)
  end.

Definition write_stages (stage2_loc : Z) (stage2_max : Z) : M unit :=
  let* timestamp := device_read_raw 218 6 in
  let* orig_mbr := device_read_raw 440 70 in
  let* _ := require (negb (stage2_max <? u64 (Z.of_nat (length bootloader_img) - 512))) in
  let* _ := device_write_raw (take 512 bootloader_img) 0 in
  let* _ := device_write_raw (drop 512 bootloader_img) stage2_loc in
  let* _ := device_write_raw (le_bytes 8 stage2_loc) 0x1a4 in
  let* _ := device_write_raw timestamp 218 in
  let* _ := device_write_raw orig_mbr 440 in
  device_flush_cache.

Definition install (o : options) : M unit :=
  let* (stage2_loc, stage2_max) := prepare o in
  write_stages stage2_loc stage2_max.

(** [bios_install]: whether it succeeded, and the file of uninstall data it
    left.  [None] is an unusable device. *)
Definition bios_install (o : options) : M (bool * option (list Z)) :=
  let* _ := device_init in
  let* r := attempt (install o) in
  let* _ := reverse_uninstall_data in
  let* data := gets uninstall_data in
  let file := if can_store then store_uninstall_data data else None in
  let failed := match r with None => true | Some _ => o_uninstall_file o && match file with None => true | Some _ => false end end in
  if failed then let* _ := uninstall in ret (false, None)
  else ret (true, if o_uninstall_file o then file else None).

(** [bios_install --uninstall] with the contents of the data file. *)
Definition bios_uninstall (file : list Z) : M bool :=
  let* _ := device_init in
  match load_uninstall_data file with
  | None => fail
  | Some data => let* _ := modify (set_uninstall_data data) in uninstall
  end.
End Install.
