(* ===== verification/HostJournal.v ===== *)
(** * The host tool: the cache is transparent

    With a host whose transfers succeed, the device and its cache together hold
    one sequence of bytes, [view]: reading returns it, writing changes it, and
    nothing else does. *)

From S2P Require Import Prelude CInt HostDevice Libc Gpt HostGpt Host.

(** ** What the device holds *)
Definition in_cache (d : device) (a : Z) : bool :=
  negb (cached_block d =? NO_BLOCK) && (cached_block d * block_size d <=? a) && (a <? cached_block d * block_size d + block_size d).

Definition view (d : device) (a : Z) : Z := if in_cache d a then cache d (a - cached_block d * block_size d) else medium d a.

Record sound (d : device) : Prop := {
  so_block : block_size d = 512 \/ block_size d = 2048 \/ block_size d = 4096;
  so_size : 0 <= size d < 2 ^ 63;
  so_io : forall n, io_ok d n = true;
  so_cache : cached_block d = NO_BLOCK /\ dirty d = false \/
             0 <= cached_block d /\ cached_block d * block_size d + block_size d <= size d /\
             (dirty d = false -> forall i, 0 <= i < block_size d -> cache d i = medium d (cached_block d * block_size d + i));
}.

Definition present (d : device) (block : Z) : Prop := block * block_size d + block_size d <= size d.

(** All blocks of a range are on the medium. *)
Definition readable (d : device) (loc count : Z) : Prop := count <= 0 \/ present d ((loc + count - 1) / block_size d).

(** From [d] to [d'] nothing but the bytes in [P] may have changed; elsewhere the
    medium holds what it held or what the cache held for it. *)
Record moved (P : Z -> Prop) (d d' : device) : Prop := {
  mv_sound : sound d';
  mv_size : size d' = size d;
  mv_block : block_size d' = block_size d;
  mv_mode : uninstalling d' = uninstalling d;
  mv_data : uninstall_data d' = uninstall_data d;
  mv_view : forall a, ~ P a -> view d' a = view d a;
  mv_medium : forall a, ~ P a -> medium d' a = medium d a \/ medium d' a = view d a;
}.

Definition nowhere (a : Z) : Prop := False.

Lemma moved_refl P d : sound d -> moved P d d.
Proof. intros H. split; auto. Qed.

Lemma moved_trans P d1 d2 d3 : moved P d1 d2 -> moved P d2 d3 -> moved P d1 d3.
Proof.
  intros [A1 A2 A3 A4 A5 A6 A7] [B1 B2 B3 B4 B5 B6 B7]. split; try congruence.
  - intros a Ha. by rewrite B6, A6.
  - intros a Ha. destruct (B7 a Ha) as [->| ->]; [auto|]. right. by apply A6.
Qed.

Lemma moved_weaken (P Q : Z -> Prop) d d' : (forall a, P a -> Q a) -> moved P d d' -> moved Q d d'.
Proof. intros H [A1 A2 A3 A4 A5 A6 A7]. split; auto. Qed.

Lemma clean_view d a : sound d -> dirty d = false -> view d a = medium d a.
Proof.
  intros [_ _ _ Hc] Hd. unfold view, in_cache. destruct Hc as [[-> _]|(H0 & H1 & H2)]; [done|]. case_if; [|done].
  rewrite H2 by (done || lia). f_equal. lia.
Qed.

(** A change of the counters only. *)
Definition counters (d d' : device) : Prop :=
  medium d' = medium d /\ size d' = size d /\ block_size d' = block_size d /\ cache d' = cache d /\ cached_block d' = cached_block d /\
  dirty d' = dirty d /\ uninstall_data d' = uninstall_data d /\ uninstalling d' = uninstalling d /\ io_ok d' = io_ok d.

Lemma counters_moved d d' : sound d -> counters d d' -> moved nowhere d d'.
Proof.
  intros [A B C D] (E1 & E2 & E3 & E4 & E5 & E6 & E7 & E8 & E9). split; try done.
  - split; rewrite ?E1, ?E2, ?E3, ?E4, ?E5, ?E6, ?E9; auto.
  - intros a _. unfold view, in_cache. by rewrite E1, E3, E4, E5.
  - intros a _. left. by rewrite E1.
Qed.

(** ** The transfers *)
Lemma transfer_ok d : sound d -> exists d', transfer d = (Some true, d') /\ counters d d'.
Proof. intros H. unfold transfer. rewrite (so_io d H). eexists. split; [reflexivity|]. by repeat split. Qed.

Lemma block_bounds d : sound d -> 512 <= block_size d <= 4096.
Proof. intros [Hb _ _ _]. lia. Qed.

Lemma set_pos_ok pos d : pos < 2 ^ 63 -> set_pos pos d = (Some tt, d).
Proof. intros H. unfold set_pos, require. by rewrite (proj2 (Z.ltb_lt _ _)). Qed.

Lemma set_pos_fails pos d : 2 ^ 63 <= pos -> set_pos pos d = (None, d).
Proof. intros H. unfold set_pos, require. by rewrite (proj2 (Z.ltb_ge _ _)). Qed.

Lemma in_cache_iff d a : 0 <= cached_block d -> present d (cached_block d) -> sound d ->
  in_cache d a = (cached_block d * block_size d <=? a) && (a <? cached_block d * block_size d + block_size d).
Proof.
  intros H0 Hp H. unfold in_cache. destruct (Z.eqb_spec (cached_block d) NO_BLOCK) as [Hc|_]; [|done]. exfalso.
  pose proof (so_size d H). pose proof (block_bounds d H). unfold present, NO_BLOCK in *. nia.
Qed.

Lemma flush_spec d : sound d ->
  exists d', device_flush_cache d = (Some tt, d') /\ moved nowhere d d' /\ dirty d' = false /\ cached_block d' = cached_block d.
Proof.
  intros H. unfold device_flush_cache. erewrite bind_some by reflexivity. unfold id. destruct (dirty d) eqn:Hd; cbn [negb].
  2: { exists d. split_and!; [done|by apply moved_refl|done..]. }
  destruct (so_cache d H) as [[_ ?]|(H0 & H1 & _)]; [congruence|]. pose proof (so_size d H) as Hs. pose proof (block_bounds d H) as Hbs.
  rewrite wrap_small by nia. erewrite bind_some by (apply set_pos_ok; lia).
  destruct (transfer_ok d H) as (d1 & Ht & (E1 & E2 & E3 & E4 & E5 & E6 & E7 & E8 & E9)).
  unfold fwrite_cache. erewrite bind_some; [|erewrite bind_some by exact Ht; reflexivity].
  eexists. split_and!; [reflexivity| |done|done].
  assert (forall a, (if (cached_block d * block_size d <=? a) && (a <? cached_block d * block_size d + block_size d)
     then cache d (a - cached_block d * block_size d) else medium d a) = view d a) as Hv.
  { intros a. unfold view. by rewrite in_cache_iff by done. }
  split; cbn; rewrite ?E2, ?E3, ?E5, ?E7, ?E8; try done.
  - split; cbn; rewrite ?E1, ?E2, ?E3, ?E4, ?E5, ?E9; [apply H..|]. right. split_and!; [done..|]. intros _ i Hi. rewrite Hv. unfold view.
    rewrite in_cache_iff by done. rewrite (proj2 (Z.leb_le _ _)), (proj2 (Z.ltb_lt _ _)) by lia. cbn. f_equal. lia.
  - intros a _. unfold view at 1, in_cache. cbn. rewrite E1, E3, E4, E5, Hv. unfold view, in_cache. by case_if.
  - intros a _. right. rewrite E1, E4. apply Hv.
Qed.

(** Reading a block into a clean cache that is marked as holding nothing. *)
Lemma fread_cache_spec d pos : sound d -> cached_block d = NO_BLOCK -> dirty d = false ->
  exists d', fread_cache pos (block_size d) d = ((if pos + block_size d <=? size d then Some tt else None), d') /\
    moved nowhere d d' /\ cached_block d' = NO_BLOCK /\ dirty d' = false /\ medium d' = medium d /\ io_ok d' = io_ok d /\
    (pos + block_size d <= size d -> forall i, 0 <= i < block_size d -> cache d' i = medium d (pos + i)).
Proof.
  intros H Hc Hd. destruct (transfer_ok d H) as (d1 & Ht & (E1 & E2 & E3 & E4 & E5 & E6 & E7 & E8 & E9)).
  unfold fread_cache. erewrite bind_some by exact Ht. cbv iota beta. erewrite bind_some by reflexivity. erewrite bind_some by reflexivity.
  cbn [size set_cache]. unfold require. rewrite E2. eexists. split; [by destruct (pos + block_size d <=? size d)|].
  split_and!; cbn [cached_block set_cache dirty medium cache io_ok]; try congruence.
  - split; cbn; try congruence.
    + split; cbn; rewrite ?E2, ?E3, ?E9; [apply H..|]. left. split; congruence.
    + intros a _. unfold view, in_cache. cbn. by rewrite E5, Hc, E1.
    + intros a _. left. by rewrite E1.
  - intros Hp i Hi. rewrite (proj2 (Z.leb_le 0 i)), !(proj2 (Z.ltb_lt _ _)) by lia. cbn. by rewrite E1.
Qed.

Lemma host_cache_block_spec d block : sound d -> 0 <= block -> block * block_size d < 2 ^ 64 ->
  exists r d', device_cache_block block d = (r, d') /\ moved nowhere d d' /\
    match r with Some _ => present d block /\ cached_block d' = block | None => ~ present d block end.
Proof.
  intros H Hb0 Hb. pose proof (block_bounds d H) as Hbs. unfold device_cache_block. erewrite bind_some by reflexivity. unfold id.
  destruct (Z.eqb_spec (cached_block d) block) as [Hc|Hc].
  { exists (Some tt), d. split_and!; [done|by apply moved_refl| |done].
    destruct (so_cache d H) as [[Hn _]|(_ & ? & _)]; [unfold NO_BLOCK in Hn; nia|]. unfold present. by rewrite <- Hc. }
  assert (exists d1, (if dirty d then device_flush_cache else ret tt) d = (Some tt, d1) /\ moved nowhere d d1 /\ dirty d1 = false) as (d1 & E1 & M1 & Hd1).
  { destruct (dirty d) eqn:Hd; [destruct (flush_spec d H) as (d1 & ? & ? & ? & _); by exists d1|].
    exists d. split_and!; [done|by apply moved_refl|done]. }
  erewrite bind_some by exact E1. rewrite (wrap_small 64) by nia.
  assert (2 ^ 63 <= block * block_size d -> ~ present d block) as Hhigh by (unfold present; pose proof (so_size d H); lia).
  destruct (decide (2 ^ 63 <= block * block_size d)) as [Hp|Hp].
  { erewrite bind_none by (apply set_pos_fails; done). exists None, d1. split_and!; [done|done|auto]. }
  erewrite bind_some by (apply set_pos_ok; lia). erewrite bind_some by reflexivity.
  set (d2 := set_cached_block NO_BLOCK d1). destruct M1 as [S1 Z1 B1 U1 L1 V1 W1].
  assert (sound d2) as S2 by (destruct S1 as [a b c _]; split; cbn; try done; left; split; [done|exact Hd1]).
  assert (forall a, view d2 a = view d a) as V2.
  { intros a. rewrite <- V1 by auto. rewrite (clean_view d1 a S1 Hd1). by rewrite (clean_view d2 a S2 Hd1). }
  assert (moved nowhere d d2) as M2.
  { split; cbn; auto. }
  destruct (fread_cache_spec d2 (block * block_size d) S2 eq_refl Hd1) as (d3 & E3 & M3 & C3 & D3 & Y3 & I3 & F3).
  change (block_size d2) with (block_size d1) in *. change (size d2) with (size d1) in *. rewrite B1, Z1 in *.
  destruct (Z.leb_spec (block * block_size d + block_size d) (size d)) as [Hfit|Hfit].
  2: { erewrite bind_none by exact E3. exists None, d3. split_and!; [done|by eapply moved_trans|unfold present; lia]. }
  erewrite bind_some by exact E3. exists (Some tt), (set_cached_block block d3). split_and!; [done| |exact Hfit|done].
  eapply moved_trans; [exact M2|]. destruct M3 as [S3 Z3 B3 U3 L3 V3 W3].
  assert (size d3 = size d /\ block_size d3 = block_size d) as [Z3' B3'] by (cbn in Z3, B3; split; congruence).
  assert (medium d3 = medium d1) as Y3' by exact Y3.
  assert (sound (set_cached_block block d3)) as S4.
  { destruct S3 as [a b c _]. split; cbn; try done. right. rewrite B3', Z3', Y3'. split_and!; [done..|]. intros _ i Hi. by apply F3. }
  split; cbn; auto.
  intros a _. rewrite (clean_view _ a S4 D3). cbn. rewrite Y3'. symmetry. by rewrite (clean_view d2 a S2 Hd1).
Qed.

(** ** Reading *)
Lemma block_of_loc d x : sound d -> 0 <= x < 2 ^ 64 -> 0 <= x / block_size d /\ x / block_size d * block_size d < 2 ^ 64 /\
  x / block_size d * block_size d <= x < x / block_size d * block_size d + block_size d.
Proof. intros H Hx. pose proof (block_bounds d H). pose proof (Z.div_mod x (block_size d)). pose proof (Z.mod_pos_bound x (block_size d)). nia. Qed.

Lemma present_mono d x y : sound d -> 0 <= x <= y -> present d (y / block_size d) -> present d (x / block_size d).
Proof.
  intros H Hx Hp. pose proof (block_bounds d H). unfold present in *.
  pose proof (Z.div_le_mono x y (block_size d) ltac:(lia) ltac:(lia)). nia.
Qed.

Lemma map_view_cache d d' x n : sound d' -> (forall a, view d' a = view d a) -> block_size d' = block_size d ->
  cached_block d' = x / block_size d -> 0 <= x < 2 ^ 63 -> 0 <= n -> x mod block_size d + n <= block_size d ->
  map (cache d') (seqZ (x mod block_size d) n) = map (view d) (seqZ x n).
Proof.
  intros H Hv Hb Hc Hx Hn Hfit. assert (0 < block_size d) by (pose proof (block_bounds d' H); lia). unfold seqZ. rewrite <- !list_fmap_compose. apply list_fmap_ext. intros i j Hj. cbn.
  apply lookup_seq in Hj as [-> Hj]. cbn in *. rewrite <- Hv. unfold view, in_cache. rewrite Hb, Hc.
  pose proof (Z.div_mod x (block_size d)). pose proof (Z.mod_pos_bound x (block_size d)).
  destruct (Z.eqb_spec (x / block_size d) NO_BLOCK) as [E|_]; [exfalso; unfold NO_BLOCK in E; nia|].
  rewrite (proj2 (Z.leb_le _ _)), (proj2 (Z.ltb_lt _ _)) by lia. cbn. f_equal. lia.
Qed.

Lemma chunk_spec bs loc count progress offset chunk : 0 < bs -> u64 (loc + progress) = loc + progress -> progress < count ->
  chunk_of bs loc count progress = (offset, chunk) ->
  offset = (loc + progress) mod bs /\ 0 < chunk <= count - progress /\ offset + chunk <= bs.
Proof.
  intros Hbs Hw Hp. unfold chunk_of. rewrite Hw. intros [= <- <-]. pose proof (Z.mod_pos_bound (loc + progress) bs Hbs).
  split; [done|]. case_if; lia.
Qed.

Lemma present_moved P d d' b : moved P d d' -> present d' b <-> present d b.
Proof. intros M. unfold present. by rewrite (mv_size _ _ _ M), (mv_block _ _ _ M). Qed.

Lemma readable_moved P d d' loc count : moved P d d' -> readable d' loc count <-> readable d loc count.
Proof. intros M. unfold readable. rewrite (mv_block _ _ _ M). by rewrite (present_moved P d d'). Qed.

(** The state both loops keep: positions do not wrap. *)
Definition at_progress (d : device) (loc progress : Z) : Prop :=
  0 <= progress /\ 0 <= loc /\ (progress = 0 /\ loc < 2 ^ 64 \/ loc + progress <= size d).

Lemma at_progress_wrap d loc progress : sound d -> at_progress d loc progress -> u64 (loc + progress) = loc + progress /\ 0 <= loc + progress < 2 ^ 64.
Proof. intros H (H0 & H1 & H2). pose proof (so_size d H). rewrite wrap_small by lia. lia. Qed.

(** One turn: the block is there and cached, or the range is not readable. *)
Lemma turn_spec d loc count progress : sound d -> at_progress d loc progress -> progress < count ->
  exists r d', device_cache_block (u64 (loc + progress) / block_size d) d = (r, d') /\ moved nowhere d d' /\
    match r with
    | Some _ => cached_block d' = (loc + progress) / block_size d /\
        forall offset chunk, chunk_of (block_size d) loc count progress = (offset, chunk) ->
          offset = (loc + progress) mod block_size d /\ 0 < chunk <= count - progress /\ offset + chunk <= block_size d /\
          loc + progress < 2 ^ 63 /\ loc + (progress + chunk) <= size d /\ present d ((loc + progress + chunk - 1) / block_size d)
    | None => ~ readable d loc count
    end.
Proof.
  intros H Hat Hp. destruct (at_progress_wrap d loc progress H Hat) as [Hw Hx]. rewrite Hw.
  destruct (block_of_loc d _ H Hx) as (B0 & B1 & B2). pose proof (block_bounds d H) as Hbs. pose proof (so_size d H) as Hsz.
  destruct (host_cache_block_spec d _ H B0 B1) as (r & d' & E & Mv & Hr). exists r, d'. split_and!; [done|done|].
  destruct r as [[]|].
  - destruct Hr as [Hpres Hc]. split; [done|]. intros offset chunk Hch.
    destruct (chunk_spec (block_size d) loc count progress offset chunk ltac:(lia) Hw Hp Hch) as (-> & Hn & Hfit).
    unfold present in *. pose proof (Z.div_mod (loc + progress) (block_size d) ltac:(lia)).
    split_and!; try done; try lia.
    replace ((loc + progress + chunk - 1) / block_size d) with ((loc + progress) / block_size d); [done|].
    apply (Z.div_unique_pos _ _ _ ((loc + progress) mod block_size d + chunk - 1)); [|lia].
    pose proof (Z.mod_pos_bound (loc + progress) (block_size d)). lia.
  - intros [?|Hre]; [destruct Hat; lia|]. apply Hr. eapply present_mono; [done| |exact Hre]. lia.
Qed.

Lemma read_loop_spec fuel : forall d loc count progress,
  sound d -> at_progress d loc progress -> progress <= count -> (Z.to_nat (count - progress) <= fuel)%nat ->
  exists r d', read_loop fuel loc count progress d = (r, d') /\ moved nowhere d d' /\
    match r with
    | Some bytes => bytes = map (view d) (seqZ (loc + progress) (count - progress)) /\ (progress < count -> readable d loc count)
    | None => ~ readable d loc count
    end.
Proof.
  induction fuel as [|fuel IH]; intros d loc count progress H Hat Hpc Hf.
  - cbn [read_loop]. rewrite (proj2 (Z.leb_le _ _)) by lia. exists (Some []), d. split_and!; [done|by apply moved_refl| |lia].
    by replace (count - progress) with 0 by lia.
  - cbn [read_loop]. destruct (Z.leb_spec count progress) as [Hle|Hlt].
    { exists (Some []), d. split_and!; [done|by apply moved_refl| |lia]. by replace (count - progress) with 0 by lia. }
    erewrite bind_some by reflexivity. destruct (turn_spec d loc count progress H Hat Hlt) as (r & d1 & E1 & M1 & Hr).
    destruct r as [[]|].
    2: { erewrite bind_none by exact E1. by exists None, d1. }
    erewrite bind_some by exact E1. destruct (chunk_of _ _ _ _) as [offset chunk] eqn:Hch.
    destruct Hr as [Hc Hr]. destruct (Hr _ _ eq_refl) as (-> & Hn & Hfit & Hx & Hend & Hpres).
    erewrite bind_some by reflexivity. pose proof (mv_sound _ _ _ M1) as S1.
    destruct (IH d1 loc count (progress + chunk)) as (r & d2 & E2 & M2 & Hr2); [done| |lia|lia|].
    { destruct Hat as (? & ? & _). split_and!; [lia|lia|]. right. by rewrite (mv_size _ _ _ M1). }
    assert (moved nowhere d d2) as M12 by (by eapply moved_trans). destruct r as [rest|].
    + erewrite bind_some by exact E2. eexists (Some _), d2. split_and!; [reflexivity|done| |].
      * destruct Hr2 as [-> _]. rewrite (map_view_cache d d1); [|done|intros a; apply (mv_view _ _ _ M1); auto|apply M1|done|destruct Hat; lia|lia|done].
        rewrite (list_fmap_ext (view d1) (view d)) by (intros; apply (mv_view _ _ _ M1); auto). rewrite <- fmap_app. f_equal.
        replace (loc + (progress + chunk)) with ((loc + progress) + chunk) by lia. rewrite <- seqZ_app by lia. f_equal. lia.
      * intros _. right. destruct (Z.eq_dec (progress + chunk) count) as [<-|Hne].
        -- by replace (loc + (progress + chunk) - 1) with (loc + progress + chunk - 1) by lia.
        -- destruct Hr2 as [_ Hr2]. specialize (Hr2 ltac:(lia)). apply (readable_moved _ _ _ _ _ M1) in Hr2. destruct Hr2; [destruct Hat; lia|done].
    + erewrite bind_none by exact E2. exists None, d2. split_and!; [done|done|]. by rewrite (readable_moved _ _ _ _ _ M1) in Hr2.
Qed.

Lemma read_spec d loc count : sound d -> 0 <= loc < 2 ^ 64 -> 0 <= count ->
  exists r d', device_read_raw loc count d = (r, d') /\ moved nowhere d d' /\
    match r with
    | Some bytes => bytes = map (view d) (seqZ loc count) /\ readable d loc count
    | None => ~ readable d loc count
    end.
Proof.
  intros H Hl Hc. destruct (read_loop_spec (Z.to_nat count) d loc count 0) as (r & d' & E & Mv & Hr); [done| |lia|lia|].
  { split_and!; [lia|lia|]. left. lia. }
  exists r, d'. split_and!; [done|done|]. destruct r as [b|]; [|done]. rewrite Z.add_0_r, Z.sub_0_r in Hr. destruct Hr as [-> Hr].
  split; [done|]. destruct (Z.eq_dec count 0) as [->|]; [by left|apply Hr; lia].
Qed.

(** ** Writing *)
Definition inside (loc count a : Z) : Prop := loc <= a < loc + count.

Lemma put_bytes_in f off bs i : inside off (Z.of_nat (length bs)) i -> put_bytes f off bs i = nth (Z.to_nat (i - off)) bs 0.
Proof. unfold put_bytes, inside. intros. by rewrite (proj2 (Z.leb_le _ _)), (proj2 (Z.ltb_lt _ _)) by lia. Qed.

Lemma put_bytes_out f off bs i : ~ inside off (Z.of_nat (length bs)) i -> put_bytes f off bs i = f i.
Proof. unfold put_bytes, inside. intros. case_if; [lia|done]. Qed.

Lemma put_bytes_app f off a b i : put_bytes (put_bytes f off a) (off + Z.of_nat (length a)) b i = put_bytes f off (a ++ b) i.
Proof.
  destruct (decide (inside off (Z.of_nat (length a)) i)) as [Ha|Ha].
  - rewrite put_bytes_out by (unfold inside in *; lia). rewrite !put_bytes_in by (rewrite ?length_app; unfold inside in *; lia).
    rewrite app_nth1; [done|unfold inside in *; lia].
  - destruct (decide (inside (off + Z.of_nat (length a)) (Z.of_nat (length b)) i)) as [Hb|Hb].
    + rewrite !put_bytes_in by (rewrite ?length_app; unfold inside in *; lia). rewrite app_nth2 by (unfold inside in *; lia).
      f_equal. lia.
    + rewrite !put_bytes_out by (rewrite ?length_app; unfold inside in *; lia). done.
Qed.

Lemma put_bytes_ext f g off bs i : (~ inside off (Z.of_nat (length bs)) i -> f i = g i) -> put_bytes f off bs i = put_bytes g off bs i.
Proof. intros H. unfold put_bytes. case_if; [done|]. apply H. unfold inside. bool_cases; lia. Qed.

(** The cached block with some of its bytes replaced. *)
Lemma patch_spec d x bs : sound d -> 0 <= x < 2 ^ 63 -> cached_block d = x / block_size d -> present d (x / block_size d) ->
  x mod block_size d + Z.of_nat (length bs) <= block_size d ->
  let d' := set_dirty true (set_cache (put_bytes (cache d) (x mod block_size d) bs) d) in
  moved (inside x (Z.of_nat (length bs))) d d' /\ forall a, view d' a = put_bytes (view d) x bs a.
Proof.
  intros H Hx Hc Hp Hfit d'. pose proof (block_bounds d H) as Hbs. pose proof (so_size d H) as Hs.
  pose proof (Z.div_mod x (block_size d) ltac:(lia)) as Hdm. pose proof (Z.mod_pos_bound x (block_size d) ltac:(lia)) as Hmb.
  assert (0 <= x / block_size d) by (apply Z.div_pos; lia).
  assert (forall a, view d' a = put_bytes (view d) x bs a) as Hv.
  { intros a. unfold view at 1. change (in_cache d' a) with (in_cache d a). rewrite in_cache_iff by (done || rewrite Hc; done).
    change (cached_block d') with (cached_block d). change (block_size d') with (block_size d). rewrite Hc.
    destruct (decide (inside x (Z.of_nat (length bs)) a)) as [Hi|Hi].
    - rewrite (put_bytes_in (view d)) by done. unfold inside in Hi. rewrite (proj2 (Z.leb_le _ _)), (proj2 (Z.ltb_lt _ _)) by lia. cbn [andb cache d' set_dirty set_cache].
      rewrite put_bytes_in by (unfold inside; lia). f_equal. lia.
    - rewrite (put_bytes_out (view d)) by done. unfold view. rewrite in_cache_iff by (done || rewrite Hc; done). rewrite Hc.
      case_if; [|done]. cbn [cache d' set_dirty set_cache]. apply put_bytes_out. unfold inside in *. lia. }
  split; [|done]. split; try done.
  - split; cbn; [apply H..|]. right. rewrite Hc. split_and!; [done..|]. done.
  - intros a Ha. rewrite Hv. by apply put_bytes_out.
  - intros a Ha. by left.
Qed.

Lemma write_loop_spec fuel : forall d buffer loc progress,
  let count := Z.of_nat (length buffer) in
  sound d -> at_progress d loc progress -> progress <= count -> (Z.to_nat (count - progress) <= fuel)%nat ->
  exists r d', write_loop fuel buffer loc count progress d = (r, d') /\ moved (inside (loc + progress) (count - progress)) d d' /\
    match r with
    | Some _ => forall a, view d' a = put_bytes (view d) (loc + progress) (drop (Z.to_nat progress) buffer) a
    | None => ~ readable d loc count
    end.
Proof.
  induction fuel as [|fuel IH]; intros d buffer loc progress count H Hat Hpc Hf.
  - cbn [write_loop]. rewrite (proj2 (Z.leb_le _ _)) by lia. exists (Some tt), d. split_and!; [done|by apply moved_refl|].
    intros a. rewrite put_bytes_out; [done|]. rewrite drop_ge by lia. unfold inside. cbn. lia.
  - cbn [write_loop]. destruct (Z.leb_spec count progress) as [Hle|Hlt].
    { exists (Some tt), d. split_and!; [done|by apply moved_refl|]. intros a. rewrite put_bytes_out; [done|].
      rewrite drop_ge by lia. unfold inside. cbn. lia. }
    erewrite bind_some by reflexivity. destruct (turn_spec d loc count progress H Hat Hlt) as (r & d1 & E1 & M1 & Hr).
    destruct r as [[]|].
    2: { erewrite bind_none by exact E1. exists None, d1. split_and!; [done| |done]. eapply moved_weaken; [|exact M1]. by intros ? []. }
    erewrite bind_some by exact E1. destruct (chunk_of _ _ _ _) as [offset chunk] eqn:Hch.
    destruct Hr as [Hc Hr]. destruct (Hr _ _ eq_refl) as (-> & Hn & Hfit & Hx & Hend & Hpres).
    erewrite bind_some by reflexivity. erewrite bind_some by reflexivity. pose proof (mv_sound _ _ _ M1) as S1.
    set (bs := take (Z.to_nat chunk) (drop (Z.to_nat progress) buffer)).
    assert (Z.of_nat (length bs) = chunk) as Hbs by (unfold bs; rewrite length_take, length_drop; destruct Hat; lia).
    pose proof (mv_block _ _ _ M1) as B1. pose proof (mv_size _ _ _ M1) as Z1.
    destruct (patch_spec d1 (loc + progress) bs S1) as [M2 V2].
    { destruct Hat. lia. }
    { by rewrite B1. }
    { rewrite B1. apply (present_moved _ _ _ _ M1). eapply (present_mono d); [done| |exact Hpres]. destruct Hat. lia. }
    { rewrite B1. lia. }
    rewrite B1, Hbs in *. set (d2 := set_dirty true _) in *.
    destruct (IH d2 buffer loc (progress + chunk)) as (r & d3 & E3 & M3 & Hr3); [by apply M2| |lia|lia|].
    { destruct Hat as (? & ? & _). split_and!; [lia|lia|]. right. by rewrite (mv_size _ _ _ M2), Z1. }
    change (modify _ d1) with (Some tt, d2) in *.
    assert (moved (inside (loc + progress) (count - progress)) d d3) as M13.
    { eapply moved_trans; [eapply moved_weaken; [|exact M1]; by intros ? []|].
      eapply moved_trans; [eapply moved_weaken; [|exact M2]; unfold inside; intros; lia|].
      eapply moved_weaken; [|exact M3]. unfold inside. intros. lia. }
    exists r, d3. split_and!; [exact E3|done|]. destruct r as [[]|].
    + intros a. rewrite Hr3.
      rewrite (put_bytes_ext (view d2) (put_bytes (view d) (loc + progress) bs)).
      2: { intros _. rewrite V2. apply put_bytes_ext. intros _. apply (mv_view _ _ _ M1). auto. }
      replace (loc + (progress + chunk)) with (loc + progress + Z.of_nat (length bs)) by lia. rewrite put_bytes_app. f_equal.
      unfold bs. rewrite <- (take_drop (Z.to_nat chunk) (drop (Z.to_nat progress) buffer)) at 2. f_equal. rewrite drop_drop. f_equal. destruct Hat. lia.
    + by rewrite (readable_moved _ _ _ _ _ M2), (readable_moved _ _ _ _ _ M1) in Hr3.
Qed.

(** * The host tool: the journal

    Everything the installer does to the device is recorded so that undoing the
    record, newest entry first, restores the device, whatever became of the
    cache in between.  [journal d0] is this invariant, for the device
    [d0] at the start; every operation of the installer keeps it, whether it succeeds or not. *)
(** ** Writing with and without the journal *)
Lemma raw_write_spec d buffer loc : sound d -> uninstalling d = true -> 0 <= loc < 2 ^ 64 ->
  readable d loc (Z.of_nat (length buffer)) ->
  exists d', device_write_raw buffer loc d = (Some tt, d') /\ moved (inside loc (Z.of_nat (length buffer))) d d' /\
    forall a, view d' a = put_bytes (view d) loc buffer a.
Proof.
  intros H Hu Hl Hr. unfold device_write_raw. erewrite bind_some by reflexivity. rewrite Hu.
  destruct (write_loop_spec (Z.to_nat (Z.of_nat (length buffer))) d buffer loc 0 H) as (r & d' & E & Mv & Hv); [split_and!; [lia|lia|left; lia]|lia|lia|].
  rewrite Z.add_0_r, Z.sub_0_r in *. destruct r as [[]|]; [|done]. by exists d'.
Qed.

(** What a logged write does: it goes through and is logged, or changes nothing. *)
Lemma logged_write_spec d buffer loc : sound d -> uninstalling d = false -> 0 <= loc < 2 ^ 64 ->
  exists r d', device_write_raw buffer loc d = (r, d') /\
    match r with
    | Some _ => readable d loc (Z.of_nat (length buffer)) /\ (length (uninstall_data d) < UNINSTALL_DATA_MAX)%nat /\
        (exists d1, moved (inside loc (Z.of_nat (length buffer))) d d1 /\
          d' = set_uninstall_data (uninstall_data d ++ [(loc, map (view d) (seqZ loc (Z.of_nat (length buffer))))]) d1) /\
        forall a, view d' a = put_bytes (view d) loc buffer a
    | None => moved nowhere d d' /\ (~ readable d loc (Z.of_nat (length buffer)) \/ (UNINSTALL_DATA_MAX <= length (uninstall_data d))%nat)
    end.
Proof.
  intros H Hu Hl. unfold device_write_raw. erewrite bind_some by reflexivity. rewrite Hu. erewrite bind_some by reflexivity.
  destruct (UNINSTALL_DATA_MAX <=? length (uninstall_data d))%nat eqn:Hm; bool_hyps.
  { exists None, d. split; [done|]. split; [by apply moved_refl|by right]. }
  erewrite bind_some by reflexivity.
  destruct (read_spec d loc (Z.of_nat (length buffer)) H Hl ltac:(lia)) as (r & d1 & E1 & M1 & Hr). destruct r as [old|].
  2: { erewrite bind_none by exact E1. exists None, d1. split; [done|]. split; [done|by left]. }
  destruct Hr as [-> Hr]. erewrite bind_some by exact E1.
  destruct (write_loop_spec (Z.to_nat (Z.of_nat (length buffer))) d1 buffer loc 0 (mv_sound _ _ _ M1)) as (r & d2 & E2 & M2 & Hv);
    [split_and!; [lia|lia|left; lia]|lia|lia|].
  rewrite Z.add_0_r, Z.sub_0_r in *. destruct r as [[]|].
  2: { destruct Hv. by apply (readable_moved _ _ _ _ _ M1). }
  erewrite bind_some by exact E2. exists (Some tt), (set_uninstall_data (uninstall_data d ++ [(loc, map (view d) (seqZ loc (Z.of_nat (length buffer))))]) d2).
  assert (moved (inside loc (Z.of_nat (length buffer))) d d2) as M12.
  { eapply moved_trans; [|exact M2]. eapply moved_weaken; [|exact M1]. by intros ? []. }
  split; [unfold modify; by rewrite (mv_data _ _ _ M12)|]. split_and!; [done|done|by exists d2|].
  intros a. change (view (set_uninstall_data _ d2) a) with (view d2 a). rewrite Hv. apply put_bytes_ext. intros _. apply (mv_view _ _ _ M1). auto.
Qed.

(** ** The invariant *)
Definition entry_range (e : Z * list Z) : Z -> Prop := inside (fst e) (Z.of_nat (length (snd e))).
Definition covered (l : list (Z * list Z)) (a : Z) : Prop := Exists (fun e => entry_range e a) l.

(** The entries written back, the last one first. *)
Definition undo (l : list (Z * list Z)) (f : Z -> Z) : Z -> Z := foldr (fun e f => put_bytes f (fst e) (snd e)) f l.

Definition entry_fits (d : device) (e : Z * list Z) : Prop :=
  0 <= fst e < 2 ^ 64 /\ readable d (fst e) (Z.of_nat (length (snd e))).

Record journal (d0 : device) (d : device) : Prop := {
  jn_sound : sound d;
  jn_size : size d = size d0;
  jn_block : block_size d = block_size d0;
  jn_mode : uninstalling d = false;
  jn_fits : Forall (entry_fits d) (uninstall_data d);
  jn_count : (length (uninstall_data d) <= UNINSTALL_DATA_MAX)%nat;
  jn_undo : forall a f, covered (uninstall_data d) a \/ f a = medium d0 a -> undo (uninstall_data d) f a = medium d0 a;
  jn_rest : forall a, ~ covered (uninstall_data d) a -> view d a = medium d0 a /\ medium d a = medium d0 a;
}.

#[local] Instance entry_range_dec e a : Decision (entry_range e a).
Proof. unfold entry_range, inside. apply _. Defined.
#[local] Instance covered_dec l a : Decision (covered l a).
Proof. unfold covered. apply _. Defined.

Lemma undo_app l l' f a : undo (l ++ l') f a = undo l (undo l' f) a.
Proof. unfold undo. by rewrite foldr_app. Qed.

Lemma entry_fits_moved P d d' e : moved P d d' -> entry_fits d e -> entry_fits d' e.
Proof. intros Mv [? ?]. split; [done|]. by apply (readable_moved _ _ _ _ _ Mv). Qed.

Lemma journal_moved d0 d d' : journal d0 d -> moved nowhere d d' -> journal d0 d'.
Proof.
  intros [A A1 A2 B C D E F] Mv. pose proof (mv_data _ _ _ Mv) as Hd. split.
  - apply Mv.
  - by rewrite (mv_size _ _ _ Mv).
  - by rewrite (mv_block _ _ _ Mv).
  - by rewrite (mv_mode _ _ _ Mv).
  - rewrite Hd. eapply Forall_impl; [exact C|]. intros e. by apply entry_fits_moved with nowhere.
  - by rewrite Hd.
  - by rewrite Hd.
  - rewrite Hd. intros a Ha. destruct (F a Ha) as [Fv Fm]. split; [by rewrite (mv_view _ _ _ Mv) by auto|].
    destruct (mv_medium _ _ _ Mv a) as [->| ->]; auto.
Qed.

Lemma journal_write d0 d (buffer : list Z) loc d1 :
  journal d0 d -> 0 <= loc < 2 ^ 64 -> readable d loc (Z.of_nat (length buffer)) -> (length (uninstall_data d) < UNINSTALL_DATA_MAX)%nat ->
  moved (inside loc (Z.of_nat (length buffer))) d d1 ->
  journal d0 (set_uninstall_data (uninstall_data d ++ [(loc, map (view d) (seqZ loc (Z.of_nat (length buffer))))]) d1).
Proof.
  intros [A A1 A2 B C D E F] Hl Hr Hm Mv. set (old := map (view d) (seqZ loc (Z.of_nat (length buffer)))).
  assert (Z.of_nat (length old) = Z.of_nat (length buffer)) as Hlen by (unfold old; rewrite length_fmap, length_seqZ; lia).
  assert (forall f a, inside loc (Z.of_nat (length buffer)) a -> put_bytes f loc old a = view d a) as Hold.
  { intros f a Ha. rewrite put_bytes_in by (by rewrite Hlen). apply nth_lookup_Some. unfold old. rewrite list_lookup_fmap.
    rewrite lookup_seqZ_lt by (unfold inside in Ha; lia). cbn. do 2 f_equal. unfold inside in Ha. lia. }
  split; cbn [uninstall_data set_uninstall_data uninstalling].
  - by destruct (mv_sound _ _ _ Mv) as [S1 S2 S3 S4]; split.
  - cbn. by rewrite (mv_size _ _ _ Mv).
  - cbn. by rewrite (mv_block _ _ _ Mv).
  - by rewrite (mv_mode _ _ _ Mv).
  - apply Forall_app. split.
    + eapply Forall_impl; [exact C|]. intros e He. by apply (entry_fits_moved _ _ _ _ Mv) in He.
    + apply Forall_singleton. split; [done|]. cbn [snd fst]. rewrite Hlen. by apply (readable_moved _ _ _ _ _ Mv) in Hr.
  - rewrite length_app. cbn. lia.
  - intros a f Ha. rewrite undo_app. apply E. cbn [undo foldr fst snd].
    destruct (decide (covered (uninstall_data d) a)) as [Hc|Hc]; [by left|]. right.
    destruct (decide (inside loc (Z.of_nat (length buffer)) a)) as [Hi|Hi]; [rewrite Hold by done; by apply F|].
    rewrite put_bytes_out by (by rewrite Hlen). destruct Ha as [Ha|Ha]; [|done].
    apply Exists_app in Ha as [Ha|Ha]; [done|]. apply Exists_cons in Ha as [Ha|Ha]; [|by apply Exists_nil in Ha].
    unfold entry_range in Ha. cbn in Ha. by rewrite Hlen in Ha.
  - intros a Ha. unfold covered in Ha. rewrite Exists_app, Exists_cons in Ha.
    assert (~ inside loc (Z.of_nat (length buffer)) a) as Hi by (intros Hi; apply Ha; right; left; unfold entry_range; cbn; by rewrite Hlen).
    assert (~ covered (uninstall_data d) a) as Hc by (intros Hc; apply Ha; by left).
    destruct (F a Hc) as [Fv Fm]. change (view (set_uninstall_data _ d1) a) with (view d1 a). rewrite (mv_view _ _ _ Mv) by done. split; [done|].
    cbn. destruct (mv_medium _ _ _ Mv a Hi) as [->| ->]; done.
Qed.

(** ** What keeps an invariant

    Reading keeps any invariant that does not look at the cache. *)
Definition keeps (I : device -> Prop) {A : Type} (m : M A) : Prop := forall d, I d -> I (m d).2.

Class Inv (I : device -> Prop) : Prop := {
  inv_sound : forall d, I d -> sound d;
  inv_moved : forall d d', I d -> moved nowhere d d' -> I d';
}.

Section Keeps.
Context (I : device -> Prop) `{!Inv I}.

Lemma keeps_ret {A} (a : A) : keeps I (ret a).
Proof. by intros d H. Qed.
Lemma keeps_fail {A} : keeps I (@fail A).
Proof. by intros d H. Qed.
Lemma keeps_gets {A} (f : device -> A) : keeps I (gets f).
Proof. by intros d H. Qed.
Lemma keeps_require b : keeps I (require b).
Proof. by destruct b; intros d H. Qed.
Lemma keeps_bind {A B} (m : M A) (k : A -> M B) : keeps I m -> (forall a, keeps I (k a)) -> keeps I (bind m k).
Proof.
  intros Hm Hk d H. specialize (Hm d H). unfold bind. destruct (m d) as [[a|] d']; cbn in *; [by apply Hk|done].
Qed.
Lemma keeps_attempt {A} (m : M A) : keeps I m -> keeps I (attempt m).
Proof. intros Hm d H. specialize (Hm d H). unfold attempt. by destruct (m d). Qed.
Lemma keeps_transfer : keeps I transfer.
Proof.
  intros d H. destruct (transfer_ok d (inv_sound _ H)) as (d' & -> & Hc). cbn.
  apply (inv_moved d); [done|]. by apply counters_moved; [apply inv_sound|].
Qed.
Lemma keeps_set_ferror b : keeps I (modify (set_ferror b)).
Proof. intros d H. apply (inv_moved d); [done|]. apply counters_moved; [by apply inv_sound|]. by repeat split. Qed.
Lemma keeps_flush : keeps I device_flush_cache.
Proof. intros d H. destruct (flush_spec d (inv_sound _ H)) as (d' & -> & Mv & _). by apply (inv_moved d). Qed.

Lemma keeps_cache_block x : keeps I (let* bs := gets block_size in device_cache_block (u64 x / bs)).
Proof.
  intros d H. erewrite bind_some by reflexivity. pose proof (wrap_range 64 x ltac:(lia)) as Hx.
  destruct (block_of_loc d _ (inv_sound _ H) Hx) as (B0 & B1 & _).
  destruct (host_cache_block_spec d _ (inv_sound _ H) B0 B1) as (r & d' & -> & Mv & _). by apply (inv_moved d).
Qed.

Lemma keeps_read_loop fuel : forall loc count progress, keeps I (read_loop fuel loc count progress).
Proof.
  induction fuel as [|fuel IH]; intros loc count progress; cbn [read_loop]; case_if; try apply keeps_ret; [apply keeps_fail|].
  intros d H. erewrite bind_some by reflexivity. pose proof (keeps_cache_block (loc + progress) d H) as Hk.
  erewrite bind_some in Hk by reflexivity. destruct (device_cache_block _ d) as [[[]|] d1] eqn:E1.
  2: { erewrite bind_none by exact E1. exact Hk. }
  erewrite bind_some by exact E1. destruct (chunk_of _ _ _ _) as [offset chunk]. erewrite bind_some by reflexivity.
  apply keeps_bind; [apply IH|intros; apply keeps_ret|exact Hk].
Qed.

Lemma keeps_read loc count : keeps I (device_read_raw loc count).
Proof. apply keeps_read_loop. Qed.
End Keeps.

#[export] Instance journal_inv d0 : Inv (journal d0).
Proof. split; [by intros d []|by apply journal_moved]. Qed.

Lemma journal_keeps_write d0 buffer loc : 0 <= loc < 2 ^ 64 -> keeps (journal d0) (device_write_raw buffer loc).
Proof.
  intros Hl d H. destruct (logged_write_spec d buffer loc (jn_sound _ _ H) (jn_mode _ _ H) Hl) as (r & d' & -> & Hr). cbn.
  destruct r as [[]|]; [|by apply (journal_moved d0 d), Hr]. destruct Hr as (Hre & Hm & (d1 & Mv & ->) & _). by apply journal_write.
Qed.

(** An invariant that writing keeps too. *)
Class WriteInv (I : device -> Prop) : Prop := {
  write_inv : Inv I;
  keeps_write : forall buffer loc, 0 <= loc < 2 ^ 64 -> keeps I (device_write_raw buffer loc);
}.
#[export] Existing Instance write_inv.

#[export] Instance journal_write_inv d0 : WriteInv (journal d0).
Proof. split; [apply _|intros; by apply journal_keeps_write]. Qed.

Create HintDb host.
#[export] Hint Resolve keeps_ret keeps_fail keeps_gets keeps_require keeps_attempt keeps_transfer keeps_set_ferror keeps_flush keeps_read keeps_write : host.

#[export] Hint Extern 0 (Inv _) => apply _ : host.
#[export] Hint Extern 0 (WriteInv _) => apply _ : host.

Ltac keep :=
  intros; repeat first
    [ match goal with |- keeps _ (bind _ _) => apply keeps_bind; [|intros ?] end
    | progress cbn beta iota
    | match goal with |- keeps _ (match ?x with _ => _ end) => destruct x end
    | solve [eauto with host] ].

(** * The host tool: installing keeps the journal, and the journal restores *)
Lemma mul_u64_range a b c : mul_u64 a b = Some c -> 0 <= c < 2 ^ 64.
Proof. unfold mul_u64. case_if; [done|]. intros [= <-]. apply wrap_range. lia. Qed.

(** ** What only reads *)
Section Readers.
Context (I : device -> Prop) `{!Inv I}.

Lemma keeps_header_crc fuel : forall loc size done crc, keeps I (header_crc_loop fuel loc size done crc).
Proof. induction fuel as [|fuel IH]; intros; cbn [header_crc_loop]; keep; apply IH. Qed.

Lemma keeps_array_crc fuel : forall loc size crc, keeps I (array_crc_loop fuel loc size crc).
Proof. induction fuel as [|fuel IH]; intros; cbn [array_crc_loop]; keep; apply IH. Qed.

Lemma keeps_crc_matches m n : keeps I m -> keeps I (crc_matches m n).
Proof. unfold crc_matches. keep. Qed.

Lemma keeps_verify h lba lb n budget : keeps I (gpt_verify_header h lba lb n budget).
Proof.
  unfold gpt_verify_header. keep; apply keeps_crc_matches; [apply keeps_header_crc|apply keeps_array_crc].
Qed.

Lemma keeps_block_present b lb : keeps I (device_block_present b lb).
Proof. unfold device_block_present. keep. Qed.

#[local] Hint Resolve keeps_verify keeps_block_present : host.

Lemma keeps_double fuel : forall lb lo hi, keeps I (double_loop fuel lb lo hi).
Proof. induction fuel as [|fuel IH]; intros; cbn [double_loop]; keep; apply IH. Qed.

Lemma keeps_bisect fuel : forall lb lo hi, keeps I (bisect_loop fuel lb lo hi).
Proof. induction fuel as [|fuel IH]; intros; cbn [bisect_loop]; keep; apply IH. Qed.

#[local] Hint Resolve keeps_double keeps_bisect : host.

Lemma keeps_last_block lb : keeps I (device_last_block lb).
Proof. unfold device_last_block. keep. Qed.

#[local] Hint Resolve keeps_last_block : host.

Lemma keeps_protective slots : keeps I (protective_loop slots).
Proof. induction slots; cbn [protective_loop]; keep. Qed.

Lemma keeps_candidates l : forall lb n budget, keeps I (try_candidates l lb n budget).
Proof. induction l as [|x l IH]; intros; cbn [try_candidates]; keep. Qed.

#[local] Hint Resolve keeps_candidates : host.

Lemma keeps_locate_sizes l : forall budget, keeps I (locate_sizes l budget).
Proof. induction l as [|x l IH]; intros; cbn [locate_sizes]; keep. Qed.

Lemma keeps_locate : keeps I gpt_locate_header.
Proof. unfold gpt_locate_header, gpt_protective_mbr. keep; [apply keeps_protective|apply keeps_locate_sizes]. Qed.

Lemma keeps_pvd n : forall lba, keeps I (pvd_loop n lba).
Proof. induction n as [|n IH]; intros; cbn [pvd_loop]; keep. Qed.

Lemma keeps_gather n : forall i h lb base last parts, keeps I (gather n i h lb base last parts).
Proof. induction n as [|n IH]; intros; cbn [gather]; keep. Qed.

Lemma keeps_settle l : forall h lb, keeps I (settle l h lb).
Proof. induction l as [|x l IH]; intros; cbn [settle]; keep. Qed.

Lemma keeps_entry_at h base i : keeps I (entry_at h base i).
Proof. unfold entry_at. keep. Qed.

#[local] Hint Resolve keeps_entry_at : host.

Lemma keeps_autodetect n : forall i h base, keeps I (autodetect n i h base).
Proof. induction n as [|n IH]; intros; cbn [autodetect]; keep. Qed.

#[local] Hint Resolve keeps_autodetect : host.

Lemma keeps_choose force ndx h base : keeps I (choose_entry force ndx h base).
Proof. unfold choose_entry. keep. Qed.

Lemma keeps_neighbours n : forall i h base k s e, keeps I (check_neighbours n i h base k s e).
Proof. induction n as [|n IH]; intros; cbn [check_neighbours]; keep. Qed.

#[local] Hint Resolve keeps_choose keeps_neighbours : host.

Lemma keeps_iso : keeps I iso9660_has_pvd.
Proof. unfold iso9660_has_pvd. apply keeps_pvd. Qed.

(** Without [--force] nothing is erased. *)
Lemma keeps_validate_quiet offset : keeps I (validate_or_force offset false).
Proof. unfold validate_or_force, erase_hint. keep. Qed.

Lemma keeps_place_gpt force ndx h lb : (forall off, keeps I (validate_or_force off force)) -> keeps I (place_gpt force ndx h lb).
Proof. intros Hv. unfold place_gpt. keep. Qed.
End Readers.
#[export] Hint Resolve keeps_verify keeps_block_present keeps_last_block keeps_locate keeps_pvd keeps_iso keeps_gather keeps_settle keeps_entry_at keeps_choose keeps_neighbours keeps_validate_quiet keeps_place_gpt : host.

Lemma gather_length n : forall i h lb base last parts d parts' d', (length parts <= 4)%nat ->
  gather n i h lb base last parts d = (Some (Some parts'), d') -> (length parts' <= 4)%nat.
Proof.
  induction n as [|n IH]; intros i h lb base last parts d parts' d' Hp E; cbn [gather] in E; [by injection E as <- _|].
  destruct (add_u64 _ _); [|done]. unfold bind in E. destruct (device_read_raw _ _ d) as [[e|] d1]; [|done].
  destruct (type_guid_empty e); [by eapply IH|]. destruct (length parts =? 4)%nat eqn:Hl; [done|]. bool_hyps.
  destruct (convert_entry _ _ _ _); [|done]. eapply IH; [|exact E]. rewrite length_app. cbn. lia.
Qed.

(** ** Everything the installer does keeps what writing keeps *)
Section Writers.
Context (I : device -> Prop) `{!WriteInv I}.

Lemma keeps_erase_hint force loc test wipe text : 0 <= loc < 2 ^ 64 -> keeps I (erase_hint force loc test wipe text).
Proof. unfold erase_hint. keep. Qed.

Lemma keeps_validate offset force : keeps I (validate_or_force offset force).
Proof.
  unfold validate_or_force. keep; try (apply keeps_erase_hint, wrap_range; lia). apply keeps_write, wrap_range. lia.
Qed.

#[local] Hint Resolve keeps_validate : host.

Lemma keeps_erase_blocks n : forall lba lb, keeps I (erase_blocks n lba lb).
Proof.
  induction n as [|n IH]; intros; cbn [erase_blocks]; [keep|]. destruct (mul_u64 lba lb) as [loc|] eqn:E; keep.
  by apply keeps_write, (mul_u64_range lba lb).
Qed.

#[local] Hint Resolve keeps_erase_blocks : host.

Lemma keeps_erase_ranges l : forall lb, keeps I (erase_ranges l lb).
Proof. induction l as [|x l IH]; intros; cbn [erase_ranges]; keep. Qed.

Lemma keeps_write_each bs : forall loc, 0 <= loc -> loc + Z.of_nat (length bs) <= 2 ^ 64 -> keeps I (write_each bs loc).
Proof.
  induction bs as [|b bs IH]; intros loc H0 H1; cbn [write_each]; [keep|]. cbn [length] in H1. apply keeps_bind; [apply keeps_write; lia|].
  intros _. apply IH; lia.
Qed.

Lemma keeps_write_entries ps : forall i, 0 <= i -> i + Z.of_nat (length ps) <= 2 ^ 32 -> keeps I (write_entries ps i).
Proof.
  induction ps as [|p ps IH]; intros i H0 H1; cbn [write_entries]; [keep|]. cbn [length] in H1.
  do 5 (apply keeps_bind; [apply keeps_write; lia|intros _]). apply IH; lia.
Qed.

Lemma keeps_convert h lb lba : keeps I (convert_gpt h lb lba).
Proof.
  unfold convert_gpt. apply keeps_bind; [keep|intros _]. apply keeps_bind; [by keep|intros iso].
  destruct iso; cbn [negb]; [|by keep]. case_if; [by keep|]. destruct (mul_u64 _ _) as [base|]; [|by keep].
  apply keeps_bind; [by keep|intros [last|]]; [|by keep]. intros d H. pose proof (keeps_gather I (Z.to_nat (h_number_of_entries h)) 0 h lb base last [] d H) as Hg.
  destruct (gather _ _ _ _ _ _ _ d) as [[[parts|]|] d1] eqn:Eg; [erewrite bind_some by exact Eg..|by erewrite bind_none by exact Eg].
  2: done.
  apply gather_length in Eg; [|cbn; lia]. cbn [snd] in Hg.
  cut (keeps I (if existsb (fun p => lba_start p <? 63) parts then fail else let* _ := commit_conversion h lba lb parts in ret true)); [intros K; by apply K|].
  case_if; [by keep|]. unfold commit_conversion. keep; try apply keeps_erase_ranges; try (apply keeps_write; lia).
  - apply keeps_write_each; [lia|]. rewrite length_le_bytes. lia.
  - apply keeps_write_entries; lia.
Qed.

#[local] Hint Resolve keeps_convert : host.

Lemma keeps_mbr_slots force l : forall s, Forall (fun o => 0 <= o < 512) l -> keeps I (mbr_slots force l s).
Proof.
  induction l as [|o l IH]; intros s Ho; cbn [mbr_slots]; [keep|]. apply Forall_cons in Ho as [Ho Hl].
  apply keeps_bind; [|intros; by apply IH]. unfold mbr_slot. keep. apply keeps_write. lia.
Qed.

Lemma keeps_check_mbr force : keeps I (check_mbr force).
Proof.
  unfold check_mbr. keep; try (apply keeps_write; lia). apply keeps_mbr_slots. repeat constructor; lia.
Qed.

#[local] Hint Resolve keeps_check_mbr : host.

Lemma keeps_prepare o : keeps I (prepare o).
Proof. unfold prepare. keep. Qed.
End Writers.

(** ** Undoing *)
Definition replay (entries : list (Z * list Z)) (f : Z -> Z) : Z -> Z := foldl (fun f e => put_bytes f (fst e) (snd e)) f entries.

Lemma replay_ext entries : forall f g a, f a = g a -> replay entries f a = replay entries g a.
Proof. induction entries as [|e l IH]; intros f g a H; [done|]. cbn. apply IH. by apply put_bytes_ext. Qed.

Lemma replay_rev l f : replay (rev l) f = undo l f.
Proof. induction l as [|e l IH]; [done|]. cbn [rev]. unfold replay in *. rewrite foldl_app, IH. done. Qed.

Lemma undo_entries_spec entries : forall d flags, sound d -> uninstalling d = true -> Forall (entry_fits d) entries ->
  exists d', undo_entries entries flags d = (Some flags, d') /\ moved (fun _ => True) d d' /\ forall a, view d' a = replay entries (view d) a.
Proof.
  induction entries as [|e l IH]; intros d flags H Hu Hf; cbn [undo_entries].
  - exists d. split_and!; [done|by apply moved_refl|done].
  - apply Forall_cons in Hf as [[Hl Hr] Hf]. destruct (raw_write_spec d (snd e) (fst e) H Hu Hl Hr) as (d1 & E1 & M1 & V1).
    assert (undo_entry e flags d = (Some flags, d1)) as E.
    { unfold undo_entry. destruct flags as [x y]. by erewrite bind_some by (by apply attempt_eq). }
    erewrite bind_some by exact E.
    destruct (IH d1 flags) as (d2 & E2 & M2 & V2); [apply M1|by rewrite (mv_mode _ _ _ M1)| |].
    { eapply Forall_impl; [exact Hf|]. intros x Hx. by apply (entry_fits_moved _ _ _ _ M1) in Hx. }
    exists d2. split_and!; [done| |].
    + eapply moved_trans; [eapply moved_weaken; [|exact M1]; done|done].
    + intros a. rewrite V2. cbn [replay foldl]. apply (replay_ext l). apply V1.
Qed.

(** Only what the medium holds matters: the cache is thrown away. *)
Lemma uninstall_spec d : sound d -> Forall (entry_fits d) (uninstall_data d) ->
  exists d', uninstall d = (Some true, d') /\ size d' = size d /\ forall a, medium d' a = replay (uninstall_data d) (medium d) a.
Proof.
  intros H Hf. unfold uninstall. do 3 (erewrite bind_some by reflexivity). erewrite bind_some by reflexivity.
  set (d1 := set_cached_block NO_BLOCK (set_dirty false (set_uninstalling true d))).
  assert (sound d1) as S1 by (destruct H as [a b c _]; split; cbn; try done; by left).
  destruct (undo_entries_spec (uninstall_data d1) d1 (false, false) S1 eq_refl) as (d2 & E2 & M2 & V2).
  { eapply Forall_impl; [exact Hf|]. by intros e. }
  erewrite bind_some by exact E2. destruct (flush_spec d2 (mv_sound _ _ _ M2)) as (d3 & E3 & M3 & D3 & _).
  erewrite bind_some by (by apply attempt_eq). exists d3. split_and!; [done| |].
  - by rewrite (mv_size _ _ _ M3), (mv_size _ _ _ M2).
  - intros a. rewrite <- (clean_view d3 a) by (done || apply M3). rewrite (mv_view _ _ _ M3) by auto. rewrite V2.
    apply replay_ext. by rewrite (clean_view d1 a S1 eq_refl).
Qed.

(** ** Starting and ending *)
Record fresh (d : device) : Prop := {
  fr_size : 0 <= size d < 2 ^ 63;
  fr_io : forall n, io_ok d n = true;
  fr_mode : uninstalling d = false;
  fr_data : uninstall_data d = [];
}.

Lemma guess_spec d pos n : (forall k, io_ok d k = true) -> exists d', fread_cache pos n d = ((if pos + n <=? size d then Some tt else None), d') /\
  medium d' = medium d /\ size d' = size d /\ io_ok d' = io_ok d /\ uninstalling d' = uninstalling d /\ uninstall_data d' = uninstall_data d /\
  (pos + n <= size d -> forall i, 0 <= i < n -> cache d' i = medium d (pos + i)).
Proof.
  intros Hio. unfold fread_cache. erewrite bind_some; [|unfold transfer; by rewrite Hio]. cbv iota beta.
  do 2 (erewrite bind_some by reflexivity). cbn [size set_cache]. unfold require. eexists. split; [by destruct (pos + n <=? size d)|].
  cbn. split_and!; try done. intros Hp i Hi. by rewrite (proj2 (Z.leb_le 0 i)), !(proj2 (Z.ltb_lt _ _)) by lia.
Qed.

Definition started (d d1 : device) : Prop :=
  journal d1 d1 /\ dirty d1 = false /\ size d1 = size d /\ medium d1 = medium d /\ uninstall_data d1 = [].

Lemma init_guesses_spec l : forall d, fresh d -> Forall (fun n => n = 512 \/ n = 2048 \/ n = 4096) l ->
  match device_init_guesses l d with
  | (Some _, d1) => started d d1
  | (None, d1) => medium d1 = medium d
  end.
Proof.
  induction l as [|n l IH]; intros d [F1 F2 F3 F4] Hl; cbn [device_init_guesses]; [done|]. apply Forall_cons in Hl as [Hn Hl].
  destruct (guess_spec d 0 n F2) as (d1 & E1 & Em & Es & Ei & Eu & Ed & Ec).
  erewrite bind_some by (apply attempt_eq; exact E1). destruct (Z.leb_spec (0 + n) (size d)) as [Hfit|Hfit].
  - do 2 (erewrite bind_some by reflexivity). cbn. split_and!; cbn; try congruence.
    assert (sound (set_cached_block 0 (set_dirty false (set_block_size n d1)))) as S1.
    { split; cbn; rewrite ?Es, ?Ei, ?Em; try done. right. split_and!; [lia|lia|]. intros _ i Hi. apply (Ec Hfit i). lia. }
    split; cbn; rewrite ?Ed, ?F4; [done|done|done|congruence|done|cbn; lia| |].
    + intros a f [Hc|Hc]; [by apply Exists_nil in Hc|done].
    + intros a _. rewrite (clean_view _ a S1 eq_refl). done.
  - specialize (IH d1 ltac:(split; congruence) Hl). unfold started in *. rewrite Em, Es in IH.
    by destruct (device_init_guesses l d1) as [[?|] d2].
Qed.

Lemma init_spec d : fresh d ->
  match device_init d with (Some _, d1) => started d d1 | (None, d1) => medium d1 = medium d end.
Proof. intros H. apply init_guesses_spec; [done|]. repeat constructor; lia. Qed.

(** The block size depends on the size only. *)
Lemma init_block d d1 : fresh d -> device_init d = (Some tt, d1) -> 512 <= size d /\ block_size d1 = 512.
Proof.
  intros [F1 F2 F3 F4]. unfold device_init. cbn [device_init_guesses].
  destruct (guess_spec d 0 512 F2) as (d2 & E2 & _ & Es2 & Ei2 & _). erewrite bind_some by (apply attempt_eq; exact E2).
  destruct (Z.leb_spec (0 + 512) (size d)) as [Hfit|Hfit]; [do 2 (erewrite bind_some by reflexivity); intros [= <-]; by split|].
  rewrite <- Ei2 in F2. destruct (guess_spec d2 0 2048 F2) as (d3 & E3 & _ & Es3 & Ei3 & _). erewrite bind_some by (apply attempt_eq; exact E3).
  destruct (Z.leb_spec (0 + 2048) (size d2)) as [?|_]; [lia|].
  rewrite <- Ei3 in F2. destruct (guess_spec d3 0 4096 F2) as (d4 & E4 & _). erewrite bind_some by (apply attempt_eq; exact E4).
  destruct (Z.leb_spec (0 + 4096) (size d3)) as [?|_]; [lia|done].
Qed.

Lemma prepare_range o d loc max d' : prepare o d = (Some (loc, max), d') -> 0 <= loc < 2 ^ 64.
Proof.
  unfold prepare, bind. destruct (gpt_locate_header d) as [[located|] d1]; [|done].
  assert (forall h lb d1 d', place_gpt (o_force o) (o_part_ndx o) h lb d1 = (Some (loc, max), d') -> 0 <= loc < 2 ^ 64) as Hp.
  { clear. intros h lb d1 d'. unfold place_gpt. destruct (mul_u64 _ _); [|done]. unfold bind, require, ret, fail.
    intros E. repeat (case_match; simplify_eq/=; try done). by eapply mul_u64_range. }
  assert (forall d1 d', (let* mbr := check_mbr (o_force o) in let* _ := require mbr in ret (4096, 63 * 512 - 4096)) d1 = (Some (loc, max), d') -> 0 <= loc < 2 ^ 64) as Hm.
  { clear. intros d1 d'. unfold bind, require, ret, fail. intros E. repeat (case_match; simplify_eq/=; try done). }
  destruct located as [[[h lb] lba]|].
  - destruct (o_gpt2mbr_allowed o).
    + destruct (convert_gpt h lb lba d1) as [[[]|] d2]; [by apply Hm|by apply Hp|done].
    + by apply Hp.
  - by apply Hm.
Qed.

Lemma keeps_stages I `{!WriteInv I} img loc max : 0 <= loc < 2 ^ 64 -> keeps I (write_stages img loc max).
Proof. intros Hl. unfold write_stages. keep; apply keeps_write; lia. Qed.

Lemma keeps_install I `{!WriteInv I} img o : keeps I (install img o).
Proof.
  intros d H. unfold install. pose proof (keeps_prepare I o d H) as Hp. destruct (prepare o d) as [[[loc max]|] d1] eqn:E.
  - erewrite bind_some by exact E. apply (keeps_stages I); [by eapply prepare_range|done].
  - by erewrite bind_none by exact E.
Qed.
