(* ===== verification/HostUndo.v ===== *)
(** * The host tool: a failed installation leaves no trace, and an installation
      can be taken back *)

From S2P Require Import Prelude CInt Libc Gpt HostDevice HostGpt Host HostJournal.

(** ** The data file *)
Definition storable (e : Z * list Z) : Prop := 0 <= fst e < 2 ^ 64 /\ Z.of_nat (length (snd e)) < 2 ^ 64.

Lemma take_exact_app n (b rest : list Z) : Z.of_nat (length b) = n -> take_exact n (b ++ rest) = Some (b, rest).
Proof.
  intros Hn. unfold take_exact. rewrite length_app. case_if; [lia|]. rewrite <- Hn, Nat2Z.id.
  by rewrite take_app_length, drop_app_length.
Qed.

Lemma le_val_u64 z : 0 <= z < 2 ^ 64 -> le_val (le_bytes 8 z) = z.
Proof. intros H. rewrite le_val_bytes. apply Z.mod_small. by change (256 ^ Z.of_nat 8) with (2 ^ 64). Qed.

Lemma load_store_entries l : forall file rest, Forall storable l -> store_entries l = Some file ->
  load_entries (length l) (file ++ rest) = Some l.
Proof.
  induction l as [|e l IH]; intros file rest Hs; cbn [store_entries load_entries length]; [done|].
  apply Forall_cons in Hs as [[H1 H2] Hs]. unfold store_entry. destruct (length (snd e) =? 0)%nat eqn:E0; [done|]. bool_hyps. cbn [mbind option_bind].
  destruct (store_entries l) as [f|] eqn:Ef; [|done]. cbn [mbind option_bind]. intros Hq. apply (inj Some) in Hq as <-. rewrite <- !app_assoc.
  rewrite take_exact_app by (by rewrite length_le_bytes). cbn [mbind option_bind].
  rewrite take_exact_app by (by rewrite length_le_bytes). cbn [mbind option_bind].
  rewrite !le_val_u64 by lia. case_if; [lia|]. rewrite take_exact_app by done. cbn [mbind option_bind].
  rewrite IH by done. cbn [mbind option_bind]. by destruct e.
Qed.

Lemma host_load_store l file : (length l <= UNINSTALL_DATA_MAX)%nat -> Forall storable l -> store_uninstall_data l = Some file ->
  load_uninstall_data file = Some l.
Proof.
  intros Hn Hs. unfold store_uninstall_data. destruct (store_entries l) as [f|] eqn:Ef; [|done]. cbn [mbind option_bind]. intros Hq. apply (inj Some) in Hq as <-.
  unfold load_uninstall_data. rewrite take_exact_app by (by rewrite length_le_bytes). cbn [mbind option_bind].
  assert (0 <= Z.of_nat (length l) < 2 ^ 64) by (unfold UNINSTALL_DATA_MAX in Hn; lia). rewrite le_val_u64 by done.
  case_if; [lia|]. rewrite Nat2Z.id. rewrite <- (app_nil_r f). by apply load_store_entries.
Qed.

Lemma fits_storable d e : sound d -> entry_fits d e -> storable e.
Proof.
  intros H [Hl Hr]. split; [done|]. destruct Hr as [?|Hp]; [lia|]. pose proof (so_size d H). pose proof (block_bounds d H).
  unfold present in Hp. pose proof (Z.div_mod (fst e + Z.of_nat (length (snd e)) - 1) (block_size d)).
  pose proof (Z.mod_pos_bound (fst e + Z.of_nat (length (snd e)) - 1) (block_size d)). lia.
Qed.

(** ** The whole command *)
Lemma undo_restores d0 d f : journal d0 d -> (forall a, ~ covered (uninstall_data d) a -> f a = medium d0 a) ->
  forall a, replay (rev (uninstall_data d)) f a = medium d0 a.
Proof.
  intros H Hf a. rewrite replay_rev. apply (jn_undo _ _ H).
  destruct (decide (covered (uninstall_data d) a)) as [Hc|Hc]; [by left|right; by apply Hf].
Qed.

(** What the command has done when it returns, with the state before the
    clean-up. *)
Lemma bios_install_cases img can_store o d : fresh d ->
  match bios_install img can_store o d with
  | (None, d') => forall a, medium d' a = medium d a
  | (Some (false, _), d') => forall a, medium d' a = medium d a
  | (Some (true, file), d') =>
      exists d1 d2, device_init d = (Some tt, d1) /\ started d d1 /\ install img o d1 = (Some tt, d2) /\ journal d1 d2 /\
        medium d' = medium d2 /\ size d' = size d2 /\
        file = (if o_uninstall_file o then (if can_store then store_uninstall_data (rev (uninstall_data d2)) else None) else None) /\
        (o_uninstall_file o = true -> is_Some file)
  end.
Proof.
  intros Hf. pose proof (init_spec d Hf) as Hi. unfold bios_install. destruct (device_init d) as [[[]|] d1] eqn:Ei.
  2: { erewrite bind_none by exact Ei. by rewrite Hi. }
  pose proof Hi as (J1 & _ & _ & Em & _). erewrite bind_some by exact Ei. pose proof (keeps_install (journal d1) img o d1 J1) as J2.
  destruct (install img o d1) as [r d2] eqn:E2. cbn [snd] in J2. erewrite bind_some by (apply attempt_eq; exact E2).
  do 2 (erewrite bind_some by reflexivity). set (d3 := set_uninstall_data (rev (uninstall_data d2)) d2).
  change (uninstall_data d3) with (rev (uninstall_data d2)).
  assert (exists d4, (let* _ := uninstall in ret (false, @None (list Z))) d3 = (Some (false, None), d4) /\ forall a, medium d4 a = medium d a) as (d4 & E4 & V4).
  { assert (sound d3) as S3 by (destruct (jn_sound _ _ J2) as [a b c e]; by split).
    destruct (uninstall_spec d3 S3) as (d4 & E4 & _ & V4).
    { apply Forall_rev. eapply Forall_impl; [exact (jn_fits _ _ J2)|]. by intros e. }
    erewrite bind_some by exact E4. exists d4. split; [done|]. intros a. rewrite V4, <- Em. apply (undo_restores d1 d2 (medium d2) J2).
    intros b Hb. by apply (jn_rest _ _ J2). }
  destruct r as [[]|]; [|by rewrite E4].
  set (file := if can_store then store_uninstall_data (rev (uninstall_data d2)) else None).
  destruct (o_uninstall_file o) eqn:Eo; cbn [andb].
  - destruct file as [f|] eqn:Efile; [|by rewrite E4]. cbn. exists d1, d2. by split_and!.
  - cbn. exists d1, d2. by split_and!.
Qed.

(** C13.  A failed installation leaves no trace.  On any device, with any options and
    any boot loader image, if [bios-install] fails, for whatever reason it finds
    to refuse the device, at whatever point, in the middle of its writes or when
    the uninstall data cannot be stored, then every byte of the device is again
    what it was before the command, also where the write-back cache held changes
    that had not reached the device.  Transfers of the host are taken to succeed
    within the device and to fail beyond its end. *)
Theorem bios_install_atomic img can_store o d : fresh d ->
  match bios_install img can_store o d with
  | (Some (true, _), _) => True
  | (_, d') => forall a, medium d' a = medium d a
  end.
Proof.
  intros Hf. pose proof (bios_install_cases img can_store o d Hf) as H.
  by destruct (bios_install img can_store o d) as [[[[] file]|] d'].
Qed.

(** C16.  An installation can be taken back.  If [bios-install] succeeds with
    [--uninstall-data-file], it leaves a file, and a later run with [--uninstall]
    on this file and the device as the installation left it succeeds and puts
    back every byte the device had before the installation. *)
Theorem bios_uninstall_restores img can_store o d d' e file : fresh d -> o_uninstall_file o = true ->
  bios_install img can_store o d = (Some (true, file), d') ->
  fresh e -> (forall a, medium e a = medium d' a) -> size e = size d' ->
  exists f e', file = Some f /\ bios_uninstall f e = (Some true, e') /\ forall a, medium e' a = medium d a.
Proof.
  intros Hf Ho E Hfe Hm Hs. pose proof (bios_install_cases img can_store o d Hf) as H. rewrite E, Ho in H.
  destruct H as (d1 & d2 & Ei & (_ & _ & Hsz & Hmd & _) & E2 & J & Em & Es & Hfile & [f ->]); [done|]. exists f.
  destruct can_store; [|done]. symmetry in Hfile. destruct (init_block d d1 Hf Ei) as [H512 Hb1].
  pose proof (init_spec e Hfe) as Hie. unfold bios_uninstall. destruct (device_init e) as [[[]|] e1] eqn:Ee.
  2: { exfalso. unfold device_init in Ee. cbn [device_init_guesses] in Ee. destruct (guess_spec e 0 512 (fr_io e Hfe)) as (e2 & Ee2 & _).
       erewrite bind_some in Ee by (apply attempt_eq; exact Ee2). rewrite (proj2 (Z.leb_le _ _)) in Ee; [done|]. rewrite Hs, Es, (jn_size _ _ J). lia. }
  destruct Hie as (Je & _ & Hsze & Hme & _). destruct (init_block e e1 Hfe Ee) as [_ Hbe]. erewrite bind_some by exact Ee.
  assert (Forall (entry_fits d2) (rev (uninstall_data d2))) as Hfits by (apply Forall_rev, (jn_fits _ _ J)).
  rewrite (host_load_store (rev (uninstall_data d2)) f); [|rewrite length_rev; by apply (jn_count _ _ J)| |done].
  2: { eapply Forall_impl; [exact Hfits|]. intros x. apply fits_storable. by apply (jn_sound _ _ J). }
  erewrite bind_some by reflexivity. set (e2 := set_uninstall_data (rev (uninstall_data d2)) e1).
  destruct (uninstall_spec e2) as (e3 & E3 & _ & V3).
  - destruct (jn_sound _ _ Je) as [a b c x]. by split.
  - eapply Forall_impl; [exact Hfits|]. intros x [Hx Hr]. split; [done|]. unfold readable, present in *. cbn.
    by rewrite Hbe, Hsze, Hs, Es, (jn_size _ _ J) in *; rewrite <- Hb1, <- (jn_block _ _ J).
  - exists e3. split_and!; [done..|]. intros a. rewrite V3. cbn. rewrite <- Hmd. apply (undo_restores d1 d2 (medium e1) J).
    intros b Hb. rewrite Hme, Hm, Em. by apply (jn_rest _ _ J).
Qed.

(** *** A small disk: one partition from sector 63 on, none active *)
Definition demo_disk (a : Z) : Z :=
  if a =? 510 then 0x55 else if a =? 511 then 0xaa else if a =? 450 then 0x83 else if a =? 454 then 63 else if a =? 458 then 1 else 0.

Definition device_of (disk : Z -> Z) (size : Z) (io_ok : nat -> bool) : device := MkDev disk size 0 (fun _ => 0) 0 false [] false io_ok 0 false.

Definition demo_device : device := device_of demo_disk (64 * 512) (fun _ => true).
Definition demo_img (n : Z) : list Z := map (fun i => i mod 251) (seqZ 0 n).
Definition demo_options : options := MkOptions false true None true.

Lemma device_of_fresh disk size : 0 <= size < 2 ^ 63 -> fresh (device_of disk size (fun _ => true)).
Proof. by split. Qed.

(** The image does not fit; by then the first partition has been marked active. *)
Lemma bios_install_atomic_witness :
  exists d', bios_install (replicate (Z.to_nat 29000) 0) true demo_options demo_device = (Some (false, None), d') /\ forall a, medium d' a = demo_disk a.
Proof.
  pose proof (bios_install_atomic (replicate (Z.to_nat 29000) 0) true demo_options demo_device (device_of_fresh demo_disk (64 * 512) ltac:(lia))) as H.
  assert (match fst (bios_install (replicate (Z.to_nat 29000) 0) true demo_options demo_device) with Some (false, None) => true | _ => false end = true) as G
    by (vm_compute; reflexivity).
  destruct (bios_install _ _ _ _) as [[[[] [f|]]|] d']; try discriminate G. exists d'. split; [reflexivity|exact H].
Defined.

Lemma bios_uninstall_restores_witness :
  exists f d' e', bios_install (demo_img 1536) true demo_options demo_device = (Some (true, Some f), d') /\ medium d' 4096 = 10 /\
    bios_uninstall f (device_of (medium d') (size d') (fun _ => true)) = (Some true, e') /\ forall a, medium e' a = demo_disk a.
Proof.
  assert (match bios_install (demo_img 1536) true demo_options demo_device with
          | (Some (true, Some _), d') => (medium d' 4096 =? 10) && (size d' =? 64 * 512) | _ => false end = true) as G by (vm_compute; reflexivity).
  destruct (bios_install _ _ _ _) as [[[[] [f|]]|] d'] eqn:E; try discriminate G. apply andb_true_iff in G as [G1 G2].
  apply Z.eqb_eq in G1, G2.
  destruct (bios_uninstall_restores (demo_img 1536) true demo_options demo_device d' (device_of (medium d') (size d') (fun _ => true)) (Some f)
    (device_of_fresh demo_disk (64 * 512) ltac:(lia)) eq_refl E (device_of_fresh (medium d') (size d') ltac:(rewrite G2; lia)) (fun a => eq_refl) eq_refl) as (f' & e' & [= <-] & Eu & Hm).
  exists f, d', e'. split_and!; [reflexivity|exact G1|exact Eu|exact Hm].
Defined.

(** What undoing misses, on an example.  Stage 2 is a write of several blocks; here the
    tenth transfer of the host fails in the middle of it, when its first block has
    reached the device.  The write has no entry in the journal then: the command
    reports the failure after a clean-up in which nothing went wrong, and that
    block is not put back. *)
Example interrupted_write_not_undone :
  match bios_install (demo_img 2048) true demo_options (device_of demo_disk (64 * 512) (fun n => negb (n =? 9)%nat)) with
  | (Some (false, None), d') => medium d' 4101 = nth (Z.to_nat (512 + 5)) (demo_img 2048) 0 /\ medium d' 4101 <> demo_disk 4101
  | _ => False
  end.
Proof. vm_compute. split; [reflexivity|discriminate]. Qed.
