(* ===== verification/HostCorrect.v ===== *)
(** * The host tool: what an installation changes *)

From S2P Require Import Prelude CInt Libc Gpt HostDevice HostGpt Host HostJournal HostUndo.

(** ** Frames

    Since [d1], only bytes in [P] have changed. *)
Record frame (d1 : device) (P : Z -> Prop) (d : device) : Prop := {
  fm_sound : sound d;
  fm_mode : uninstalling d = false;
  fm_size : size d = size d1;
  fm_view : forall a, ~ P a -> view d a = view d1 a;
}.

#[export] Instance frame_inv d1 P : Inv (frame d1 P).
Proof.
  split; [by intros d []|]. intros d d' [A B C D] Mv. split; [apply Mv|by rewrite (mv_mode _ _ _ Mv)|by rewrite (mv_size _ _ _ Mv)|].
  intros a Ha. rewrite (mv_view _ _ _ Mv) by auto. by apply D.
Qed.

Lemma frame_write d1 P buffer loc : 0 <= loc < 2 ^ 64 -> (forall a, inside loc (Z.of_nat (length buffer)) a -> P a) ->
  keeps (frame d1 P) (device_write_raw buffer loc).
Proof.
  intros Hl HP d [A B C D]. destruct (logged_write_spec d buffer loc A B Hl) as (r & d' & -> & Hr). cbn. destruct r as [[]|].
  - destruct Hr as (_ & _ & (d2 & Mv & ->) & Hv). split.
    + destruct (mv_sound _ _ _ Mv) as [S1 S2 S3 S4]. by split.
    + cbn. by rewrite (mv_mode _ _ _ Mv).
    + cbn. by rewrite (mv_size _ _ _ Mv).
    + intros a Ha. rewrite Hv, put_bytes_out by auto. by apply D.
  - by apply (inv_moved (I := frame d1 P) d); [|apply Hr].
Qed.

Lemma frame_weaken d1 (P Q : Z -> Prop) d : (forall a, P a -> Q a) -> frame d1 P d -> frame d1 Q d.
Proof. intros H [A B C D]. split; auto. Qed.

(** A successful write. *)
Lemma wrote d1 P buffer loc d d' : frame d1 P d -> 0 <= loc < 2 ^ 64 -> device_write_raw buffer loc d = (Some tt, d') ->
  frame d1 (fun a => P a \/ inside loc (Z.of_nat (length buffer)) a) d' /\ loc + Z.of_nat (length buffer) <= Z.max loc (size d1) /\
  forall a, view d' a = put_bytes (view d) loc buffer a.
Proof.
  intros Hf Hl E. pose proof (frame_write d1 (fun a => P a \/ inside loc (Z.of_nat (length buffer)) a) buffer loc Hl ltac:(tauto) d) as Hk.
  rewrite E in Hk. split_and!; [apply Hk; eapply frame_weaken; [|exact Hf]; tauto|..];
    destruct (logged_write_spec d buffer loc (fm_sound _ _ _ Hf) (fm_mode _ _ _ Hf) Hl) as (r & d2 & E2 & Hr); rewrite E in E2;
    injection E2 as <- <-; destruct Hr as (Hre & _ & _ & Hv); [|exact Hv].
  destruct Hre as [?|Hp]; [lia|]. unfold present in Hp. rewrite (fm_size _ _ _ Hf) in Hp.
  pose proof (block_bounds d (fm_sound _ _ _ Hf)). pose proof (Z.div_mod (loc + Z.of_nat (length buffer) - 1) (block_size d) ltac:(lia)).
  pose proof (Z.mod_pos_bound (loc + Z.of_nat (length buffer) - 1) (block_size d) ltac:(lia)). lia.
Qed.

(** A successful read, of bytes that have not changed. *)
Lemma read_bytes d1 P loc count d b d' : frame d1 P d -> 0 <= loc < 2 ^ 64 -> 0 <= count -> (forall a, inside loc count a -> ~ P a) ->
  device_read_raw loc count d = (Some b, d') -> b = map (view d1) (seqZ loc count) /\ frame d1 P d'.
Proof.
  intros Hf Hl Hc HP E. pose proof (keeps_read (frame d1 P) loc count d Hf) as Hk. rewrite E in Hk. split; [|exact Hk].
  destruct (read_spec d loc count (fm_sound _ _ _ Hf) Hl Hc) as (r & d2 & E2 & _ & Hr). rewrite E in E2. injection E2 as <- <-.
  destruct Hr as [-> _]. apply map_ext_in. intros a Ha. apply list_elem_of_In, elem_of_seqZ in Ha. apply (fm_view _ _ _ Hf). apply HP. unfold inside. lia.
Qed.

(** Following a computation that has succeeded. *)
Lemma bind_inv {A B} (m : M A) (k : A -> M B) d r d' : bind m k d = (Some r, d') -> exists a d1, m d = (Some a, d1) /\ k a d1 = (Some r, d').
Proof. unfold bind. destruct (m d) as [[a|] d1]; [|done]. by exists a, d1. Qed.

Lemma require_inv b d r d' : require b d = (Some r, d') -> b = true /\ d' = d.
Proof. destruct b; [|done]. by intros [= _ <-]. Qed.

Lemma attempt_inv {A} (m : M A) d r d' : attempt m d = (Some r, d') -> m d = (r, d').
Proof. unfold attempt. destruct (m d). by intros [= -> ->]. Qed.

Ltac step E x d H := apply bind_inv in E as (x & d & H & E).

(** ** The writes of the stages *)
Lemma nth_take_lt (l : list Z) n i : (i < n)%nat -> nth i (take n l) 0 = nth i l 0.
Proof. revert n i. induction l as [|x l IH]; intros [|n] [|i] H; try done; try lia. cbn. apply IH. lia. Qed.

Lemma nth_drop_add (l : list Z) n i : nth i (drop n l) 0 = nth (n + i) l 0.
Proof. revert n. induction l as [|x l IH]; intros [|n]; try done; [by destruct i|]. cbn. apply IH. Qed.

Section Stages.
Variable img : list Z.
Hypothesis Himg : 512 <= Z.of_nat (length img).

Definition stage2_size : Z := Z.of_nat (length img) - 512.

(** The boot sector that is written: the image's, with the place of stage 2, the
    time stamp and the partition table of the device. *)
Definition boot_sector (v : Z -> Z) (loc a : Z) : Z :=
  if (218 <=? a) && (a <? 224) || (440 <=? a) && (a <? 510) then v a
  else if (420 <=? a) && (a <? 428) then nth (Z.to_nat (a - 420)) (le_bytes 8 loc) 0
  else nth (Z.to_nat a) img 0.

Lemma put_slice f v off n a : 0 <= n -> (forall a, inside off n a -> v a = f a) ->
  forall g, put_bytes g off (map v (seqZ off n)) a = if decide (inside off n a) then f a else g a.
Proof.
  intros Hn Hv g. assert (Z.of_nat (length (map v (seqZ off n))) = n) as Hl by (rewrite length_fmap, length_seqZ; lia).
  case_decide as Hi; [|apply put_bytes_out; by rewrite Hl]. rewrite put_bytes_in by (by rewrite Hl). apply nth_lookup_Some.
  rewrite list_lookup_fmap, lookup_seqZ_lt by (unfold inside in Hi; lia). cbn. rewrite <- Hv by done. do 2 f_equal. unfold inside in Hi. lia.
Qed.

Lemma stages_written loc max d d' : frame d nowhere d -> 512 <= loc < 2 ^ 64 -> write_stages img loc max d = (Some tt, d') ->
  stage2_size <= max /\ size d' = size d /\ loc + stage2_size <= Z.max loc (size d) /\
  forall a, 0 <= a -> medium d' a = (if a <? 512 then boot_sector (view d) loc a
                          else if (loc <=? a) && (a <? loc + stage2_size) then nth (Z.to_nat (512 + (a - loc))) img 0 else view d a).
Proof.
  intros Hf Hl E. unfold write_stages in E. step E ts d1 E1. apply (read_bytes d nowhere) in E1 as [-> F1]; [|done|lia|lia|auto].
  step E mbr d2 E2. apply (read_bytes d nowhere) in E2 as [-> F2]; [|done|lia|lia|auto].
  step E x d3 E3. apply require_inv in E3 as [Hmax ->]. bool_hyps.
  assert (length (take 512 img) = 512%nat) as L1 by (rewrite length_take; lia).
  assert (Z.of_nat (length (drop 512 img)) = stage2_size) as L2 by (rewrite length_drop; unfold stage2_size; lia).
  step E x4 d4 E4. destruct x4. apply (wrote d nowhere) in E4 as (F4 & _ & V4); [|done|lia].
  step E x5 d5 E5. destruct x5. eapply wrote in E5 as (F5 & B5 & V5); [|exact F4|lia].
  step E x6 d6 E6. destruct x6. eapply wrote in E6 as (F6 & _ & V6); [|exact F5|lia].
  step E x7 d7 E7. destruct x7. eapply wrote in E7 as (F7 & _ & V7); [|exact F6|lia].
  step E x8 d8 E8. destruct x8. eapply wrote in E8 as (F8 & _ & V8); [|exact F7|lia].
  destruct (flush_spec d8 (fm_sound _ _ _ F8)) as (d9 & E9 & M9 & D9 & _). rewrite E in E9. injection E9 as <-.
  assert (loc + stage2_size <= Z.max loc (size d)) as Hend by (by rewrite <- L2). pose proof (so_size d (fm_sound _ _ _ Hf)) as Hsz.
  rewrite wrap_small in * by (unfold stage2_size in Hend; lia).
  split_and!; [unfold stage2_size; lia|by rewrite (mv_size _ _ _ M9), (fm_size _ _ _ F8)|done|].
  intros a Ha. rewrite <- (clean_view d' a) by (done || apply M9). rewrite (mv_view _ _ _ M9) by auto.
  rewrite V8, (put_slice (view d)) by (done || lia). rewrite V7, (put_slice (view d)) by (done || lia).
  rewrite V6. unfold put_bytes at 1. rewrite length_le_bytes. rewrite V5. unfold put_bytes at 1. rewrite L2. rewrite V4. unfold put_bytes. rewrite L1.
  rewrite (fm_view _ _ _ F2 a) by auto. unfold boot_sector, inside.
  assert (a < 512 -> nth (Z.to_nat (a - 0)) (take 512 img) 0 = nth (Z.to_nat a) img 0) as Ht by (intros; rewrite nth_take_lt by lia; f_equal; lia).
  assert (loc <= a -> nth (Z.to_nat (a - loc)) (drop 512 img) 0 = nth (Z.to_nat (512 + (a - loc))) img 0) as Hd by (intros; rewrite nth_drop_add; f_equal; lia).
  repeat case_decide; repeat (case_if; bool_cases; try lia); auto.
Qed.
End Stages.

(** * The host tool: where stage 2 goes, and what is left alone *)
Lemma mul_u64_exact a b c : 0 <= a -> 0 <= b -> mul_u64 a b = Some c -> c = a * b /\ 0 <= c < 2 ^ 64.
Proof.
  intros Ha Hb. unfold mul_u64. destruct (Z.eqb_spec a 0) as [->|Hne]; cbn [negb andb]; [intros [= <-]; by rewrite wrap_small by lia|].
  case_if; [done|]. intros [= <-]. pose proof (Z.mul_div_le (2 ^ 64 - 1) a ltac:(lia)). assert (0 <= a * b < 2 ^ 64) by nia.
  by rewrite wrap_small by lia.
Qed.

Lemma add_u64_exact a b c : 0 <= a -> 0 <= b -> add_u64 a b = Some c -> c = a + b /\ 0 <= c < 2 ^ 64.
Proof. intros Ha Hb. unfold add_u64. case_if; [done|]. intros [= <-]. rewrite wrap_small by lia. lia. Qed.

(** ** The partitions of a device that holds [v] *)
Definition slice (v : Z -> Z) (loc count : Z) : list Z := map v (seqZ loc count).

Definition entry_of (v : Z -> Z) (h : list Z) (lb_size i : Z) : list Z :=
  slice v (h_partition_entry_lba h * lb_size + i * h_size_of_entry h) sizeof_entry.

(** Address [a] lies in partition [i] of the GPT of header [h]. *)
Definition in_gpt_partition (v : Z -> Z) (h : list Z) (lb_size i a : Z) : Prop :=
  0 <= i < h_number_of_entries h /\ type_guid_empty (entry_of v h lb_size i) = false /\
  e_starting_lba (entry_of v h lb_size i) * lb_size <= a < (e_ending_lba (entry_of v h lb_size i) + 1) * lb_size.

Definition mbr_start (v : Z -> Z) (slot : Z) : Z := le_val (slice v (slot + 8) 4).
Definition mbr_count (v : Z -> Z) (slot : Z) : Z := le_val (slice v (slot + 12) 4).

Definition in_mbr_partition (v : Z -> Z) (a : Z) : Prop :=
  exists slot, slot ∈ [446; 462; 478; 494] /\ v (slot + 4) <> 0 /\
    mbr_start v slot * 512 <= a < (mbr_start v slot + mbr_count v slot) * 512.

Section Place.
Variable d1 : device.
Abbreviation v := (view d1).
Hypothesis Hbytes : forall a, is_byte (v a).

Lemma host_slice_bytes loc count : Forall is_byte (slice v loc count).
Proof. unfold slice. apply Forall_fmap, Forall_forall. intros a _. apply Hbytes. Qed.

Abbreviation quiet := (frame d1 nowhere).

Lemma read_slice loc count d b d' : quiet d -> 0 <= loc < 2 ^ 64 -> 0 <= count ->
  device_read_raw loc count d = (Some b, d') -> b = slice v loc count /\ quiet d'.
Proof. intros Hf Hl Hc. apply read_bytes; auto. Qed.

(** Whatever a reading operation returns, the device is as it was. *)
Lemma quiet_after {A} (m : M A) d r d' : keeps quiet m -> quiet d -> m d = (r, d') -> quiet d'.
Proof. intros Hk Hf E. specialize (Hk d Hf). by rewrite E in Hk. Qed.

(** *** The header *)
Lemma candidates_header l : forall lb n budget d h lba budget' d', 0 <= lb -> Forall (fun x => 0 <= x) l -> quiet d ->
  try_candidates l lb n budget d = (Some (Some (h, lba), budget'), d') -> Forall is_byte h.
Proof.
  induction l as [|x l IH]; intros lb n budget d h lba budget' d' Hlb Hl Hf E; cbn [try_candidates] in E; [done|].
  apply Forall_cons in Hl as [Hx Hl]. destruct (mul_u64 x lb) as [loc|] eqn:Em; [|exact (IH _ _ _ _ _ _ _ _ Hlb Hl Hf E)].
  apply mul_u64_exact in Em as [_ Hloc]; [|lia|lia]. step E r d2 E2. apply attempt_inv in E2. destruct r as [h2|].
  2: { assert (quiet d2) by (by eapply quiet_after; [apply (keeps_read quiet)|exact Hf|exact E2]). exact (IH _ _ _ _ _ _ _ _ Hlb Hl ltac:(eassumption) E). }
  apply read_slice in E2 as [-> F2]; [|done|done|done]. step E x3 d3 E3. destruct x3 as [ok b3].
  assert (quiet d3) as F3 by (by eapply quiet_after; [apply (keeps_verify quiet)|exact F2|exact E3]).
  destruct ok; [|exact (IH _ _ _ _ _ _ _ _ Hlb Hl F3 E)]. injection E as <- _ _ _. apply host_slice_bytes.
Qed.

Lemma host_field_bound h off n : Forall is_byte h -> 0 <= field h off n < 256 ^ Z.of_nat n.
Proof.
  intros H. unfold field. assert (Forall is_byte (take n (drop off h))) as Hb by (by apply Forall_take, Forall_drop).
  pose proof (le_val_bound _ Hb). assert (length (take n (drop off h)) <= n)%nat by (rewrite length_take; lia).
  assert (256 ^ Z.of_nat (length (take n (drop off h))) <= 256 ^ Z.of_nat n) by (apply Z.pow_le_mono_r; lia). lia.
Qed.

Lemma double_nonneg fuel : forall lb lo hi d p d', 0 <= lo <= hi -> double_loop fuel lb lo hi d = (Some (Some p), d') -> 0 <= p.1 <= p.2.
Proof.
  induction fuel as [|fuel IH]; intros lb lo hi d p d' H E; cbn [double_loop] in E; [done|]. step E x d2 E2.
  destruct x; cbn [negb] in E; [|by injection E as <- _]. destruct (_ <? hi); [done|]. eapply IH; [|exact E]. lia.
Qed.

Lemma bisect_nonneg fuel : forall lb lo hi d r d', 0 <= lo <= hi -> bisect_loop fuel lb lo hi d = (Some r, d') -> 0 <= r.
Proof.
  induction fuel as [|fuel IH]; intros lb lo hi d r d' H E; cbn [bisect_loop] in E; [injection E as <- _; lia|].
  destruct (Z.ltb_spec (lo + 1) hi); [|injection E as <- _; lia]. step E x d2 E2.
  assert (lo <= lo + (hi - lo) / 2 <= hi) by (pose proof (Z.div_pos (hi - lo) 2); pose proof (Z.div_le_upper_bound (hi - lo) 2 (hi - lo)); lia).
  destruct x; (eapply IH; [|exact E]); lia.
Qed.

Lemma last_block_nonneg lb d r d' : device_last_block lb d = (Some (Some r), d') -> 0 <= r.
Proof.
  unfold device_last_block. intros E. step E x d2 E2. destruct x; [|done]. cbn [negb] in E. step E y d3 E3. destruct y as [[lo hi]|]; [|done].
  apply double_nonneg in E3; [|lia]. step E z d4 E4. injection E as -> _. by eapply bisect_nonneg in E4.
Qed.

Lemma alternate_nonneg (h : option (list Z)) last : (forall x, h = Some x -> Forall is_byte x) -> (forall x, last = Some x -> 0 <= x) ->
  Forall (fun x => 0 <= x) (alternate_candidates h last).
Proof.
  intros Hh Hl. unfold alternate_candidates.
  set (claimed := match h, last with Some _, Some _ => _ | _, _ => _ end).
  assert (Forall (fun x => 0 <= x) claimed) as Hc.
  { unfold claimed. destruct h as [h|], last as [l|]; try done. case_if; [|done]. apply Forall_singleton. apply host_field_bound. by apply Hh. }
  destruct last as [l|]; [|done]. case_if; [|done]. constructor; [by apply Hl|]. by case_if.
Qed.

Lemma locate_sizes_header l : forall budget d h lb lba d', Forall (fun x => x = 512 \/ x = 2048 \/ x = 4096) l -> quiet d ->
  locate_sizes l budget d = (Some (Some (h, lb, lba)), d') -> (lb = 512 \/ lb = 2048 \/ lb = 4096) /\ Forall is_byte h.
Proof.
  induction l as [|x l IH]; intros budget d h lb lba d' Hl Hf E; cbn [locate_sizes] in E; [done|]. apply Forall_cons in Hl as [Hx Hl].
  step E lst d2 E2. assert (quiet d2) as F2 by (by eapply quiet_after; [apply (keeps_last_block quiet)|exact Hf|exact E2]).
  assert (forall y, lst = Some y -> 0 <= y) as Hlast by (intros y ->; by eapply last_block_nonneg).
  step E prim d3 E3. apply attempt_inv in E3.
  assert (quiet d3 /\ forall y, prim = Some y -> Forall is_byte y) as [F3 Hp].
  { split; [by eapply quiet_after; [apply (keeps_read quiet)|exact F2|exact E3]|]. intros y ->.
    apply read_slice in E3 as [-> _]; [apply host_slice_bytes|done|lia|done]. }
  step E y d4 E4. destruct y as [ok b4]. assert (quiet d4) as F4.
  { destruct prim; [by eapply quiet_after; [apply (keeps_verify quiet)|exact F3|exact E4]|by injection E4 as _ _ <-]. }
  destruct (if ok then prim else None) as [h2|] eqn:Eh.
  { injection E as <- <- _ _. split; [done|]. apply Hp. by destruct ok. }
  step E z d5 E5. destruct z as [r b5]. assert (quiet d5) as F5 by (by eapply quiet_after; [apply (keeps_candidates quiet)|exact F4|exact E5]).
  destruct r as [[h3 lba3]|]; [|exact (IH _ _ _ _ _ _ Hl F5 E)]. injection E as <- <- _ _. split; [done|].
  eapply candidates_header; [| |exact F4|exact E5]; [lia|by apply alternate_nonneg].
Qed.

Lemma locate_header d h lb lba d' : quiet d -> gpt_locate_header d = (Some (Some (h, lb, lba)), d') ->
  (lb = 512 \/ lb = 2048 \/ lb = 4096) /\ Forall is_byte h.
Proof.
  intros Hf E. unfold gpt_locate_header in E. step E x d2 E2.
  assert (quiet d2) as F2 by (eapply quiet_after; [apply (keeps_protective quiet)|exact Hf|exact E2]).
  destruct x; [|done]. cbn [negb] in E. eapply locate_sizes_header; [|exact F2|exact E]. repeat constructor; lia.
Qed.

(** *** The partition chosen on a GPT disk *)
Section Gpt.
Variable h : list Z.
Variable lb : Z.
Hypothesis Hh : Forall is_byte h.
Hypothesis Hlb : lb = 512 \/ lb = 2048 \/ lb = 4096.

Lemma entry_at_spec base i d e d' : quiet d -> base = h_partition_entry_lba h * lb -> 0 <= i -> entry_at h base i d = (Some e, d') ->
  e = entry_of v h lb i /\ quiet d'.
Proof.
  intros Hf -> Hi E. unfold entry_at in E. pose proof (host_field_bound h 72 8 Hh). pose proof (host_field_bound h 84 4 Hh).
  destruct (add_u64 _ _) as [off|] eqn:Eo; [|done]. apply add_u64_exact in Eo as [-> Ho]; [|unfold h_partition_entry_lba; nia|unfold h_size_of_entry; nia].
  by apply read_slice in E.
Qed.

Lemma entry_bytes i : Forall is_byte (entry_of v h lb i).
Proof. apply host_slice_bytes. Qed.

Lemma autodetect_spec n : forall base i d k e d', quiet d -> base = h_partition_entry_lba h * lb -> 0 <= i ->
  autodetect n i h base d = (Some (k, e), d') ->
  i <= k < i + Z.of_nat n /\ e = entry_of v h lb k /\ is_bios_boot e = true /\ quiet d'.
Proof.
  induction n as [|n IH]; intros base i d k e d' Hf Hb Hi E; cbn [autodetect] in E; [done|]. step E x d2 E2.
  apply entry_at_spec in E2 as [-> F2]; [|done|done|done]. destruct (is_bios_boot (entry_of v h lb i)) eqn:Ebb.
  - injection E as <- <- <-. split_and!; try done; lia.
  - apply IH in E as (? & ? & ? & ?); [|done|done|lia]. split_and!; try done; lia.
Qed.

Lemma choose_spec ndx base d k e d' : quiet d -> base = h_partition_entry_lba h * lb ->
  choose_entry false ndx h base d = (Some (k, e), d') ->
  0 <= k < h_number_of_entries h /\ e = entry_of v h lb k /\ is_bios_boot e = true /\ quiet d'.
Proof.
  intros Hf Hb E. pose proof (host_field_bound h 80 4 Hh : 0 <= h_number_of_entries h < _). unfold choose_entry in E. set (count := if _ <? h_number_of_entries h then MAX_GPT_PARTITIONS else h_number_of_entries h) in E.
  assert (0 <= count <= h_number_of_entries h) as Hc by (unfold count, MAX_GPT_PARTITIONS; case_if; lia).
  destruct ndx as [text|].
  - destruct (parse_index text) as [num|] eqn:Ep; [|done].
    assert (0 <= num) as Hn.
    { unfold parse_index in Ep. destruct (_ || negb _) eqn:E1; [done|]. apply orb_false_iff in E1 as [_ Hfb%negb_false_iff].
      destruct (_ || _) eqn:E2 in Ep; [done|]. apply orb_false_iff in E2 as [Hz%Z.eqb_neq _]. injection Ep as <-.
      assert (forall (l : list Z) x, 0 <= x -> Forall (fun c => 48 <= c) l -> 0 <= foldl (fun n c => n * 10 + (c - 48)) x l) as Hd.
      { clear. induction l as [|c l IH]; intros x Hx Hl; [done|]. apply Forall_cons in Hl as [? Hl]. cbn. apply IH; [lia|done]. }
      assert (0 <= digits_value text); [|lia]. apply Hd; [lia|]. apply Forall_forall. intros c Hc'.
      rewrite forallb_forall in Hfb. specialize (Hfb c (proj1 (list_elem_of_In _ _) Hc')). bool_hyps. lia. }
    step E x d2 E2. apply require_inv in E2 as [Hlt ->]. bool_hyps. step E e2 d3 E3. apply entry_at_spec in E3 as [-> F3]; [|done|done|done].
    step E y d4 E4. apply require_inv in E4 as [_ ->]. step E z d5 E5. apply require_inv in E5 as [Hbb ->]. injection E as <- <- <-.
    split_and!; try done; lia.
  - apply autodetect_spec in E as (Hk & -> & Hbb & F); [|done|done|lia]. split_and!; try done; lia.
Qed.

Lemma neighbours_spec n : forall base i k s e d d', quiet d -> base = h_partition_entry_lba h * lb -> 0 <= i ->
  check_neighbours n i h base k s e d = (Some tt, d') ->
  quiet d' /\ forall j, i <= j < i + Z.of_nat n -> j <> k -> type_guid_empty (entry_of v h lb j) = false ->
    e_ending_lba (entry_of v h lb j) < s \/ e < e_starting_lba (entry_of v h lb j).
Proof.
  induction n as [|n IH]; intros base i k s e d d' Hf Hb Hi E; cbn [check_neighbours] in E.
  { injection E as <-. split; [done|]. intros. lia. }
  step E x d2 E2.
  assert (quiet d2 /\ (i <> k -> type_guid_empty (entry_of v h lb i) = false -> e_ending_lba (entry_of v h lb i) < s \/ e < e_starting_lba (entry_of v h lb i))) as [F2 Hdis].
  { destruct (Z.eqb_spec i k) as [->|Hne]; [by injection E2 as _ <-|]. step E2 o d3 E3. apply entry_at_spec in E3 as [-> F3]; [|done|done|done].
    destruct (type_guid_empty (entry_of v h lb i)); [by injection E2 as _ <-|]. apply require_inv in E2 as [Hr ->]. split; [done|]. intros _ _. bool_cases; lia. }
  apply IH in E as [F' Hrest]; [|done|done|lia]. split; [done|]. intros j Hj Hk He.
  destruct (Z.eq_dec j i) as [->|]; [by apply Hdis|]. apply Hrest; [lia|done|done].
Qed.

(** The chosen partition is of the BIOS boot type, clear of the GPT's own blocks
    and of every other partition; stage 2 starts where it starts. *)
Record chosen (k loc max : Z) : Prop := {
  ch_index : 0 <= k < h_number_of_entries h;
  ch_type : is_bios_boot (entry_of v h lb k) = true;
  ch_order : e_starting_lba (entry_of v h lb k) <= e_ending_lba (entry_of v h lb k);
  ch_low : 2 + array_reserve lb <= e_starting_lba (entry_of v h lb k);
  ch_loc : loc = e_starting_lba (entry_of v h lb k) * lb;
  ch_max : loc + max = (e_ending_lba (entry_of v h lb k) + 1) * lb;
  ch_apart : forall j, 0 <= j < h_number_of_entries h -> j <> k -> type_guid_empty (entry_of v h lb j) = false ->
    e_ending_lba (entry_of v h lb j) < e_starting_lba (entry_of v h lb k) \/
    e_ending_lba (entry_of v h lb k) < e_starting_lba (entry_of v h lb j);
}.

Lemma place_gpt_spec ndx d loc max d' : quiet d -> place_gpt false ndx h lb d = (Some (loc, max), d') ->
  (exists k, chosen k loc max) /\ quiet d'.
Proof.
  intros Hf E. assert (quiet d') as F' by (eapply quiet_after; [apply (keeps_place_gpt quiet); apply (keeps_validate_quiet quiet)|exact Hf|exact E]).
  split; [|done]. unfold place_gpt in E. pose proof (host_field_bound h 72 8 Hh : 0 <= h_partition_entry_lba h < _).
  pose proof (host_field_bound h 80 4 Hh : 0 <= h_number_of_entries h < _).
  destruct (mul_u64 _ _) as [base|] eqn:Eb; [|done]. apply mul_u64_exact in Eb as [Eb _]; [|lia|lia].
  step E x d2 E2. destruct x as [k e]. apply choose_spec in E2 as (Hk & -> & Hbb & F2); [|done|done].
  pose proof (host_field_bound _ 32 8 (entry_bytes k) : 0 <= e_starting_lba (entry_of v h lb k) < _) as Hs.
  pose proof (host_field_bound _ 40 8 (entry_bytes k) : 0 <= e_ending_lba (entry_of v h lb k) < _) as He.
  change (256 ^ Z.of_nat 8) with (2 ^ 64) in *.
  step E y d3 E3. apply require_inv in E3 as [Hord ->]. step E y4 d4 E4. apply require_inv in E4 as [Hlow ->].
  step E y5 d5 E5. apply require_inv in E5 as [Hus ->]. step E lst d6 E6.
  assert (quiet d6) as F6 by (by eapply quiet_after; [apply (keeps_last_block quiet)|exact F2|exact E6]).
  destruct lst as [last_block|]; [|done]. step E y7 d7 E7. apply require_inv in E7 as [Hend ->]. step E y8 d8 E8. destruct y8.
  apply neighbours_spec in E8 as [F8 Hap]; [|done|done|lia]. bool_cases.
  destruct (mul_u64 (u64 _) lb) as [part_size|] eqn:Eps; [|done].
  step E y9 d9 E9. apply require_inv in E9 as [Hsz ->]. destruct (mul_u64 (e_starting_lba _) lb) as [stage2_loc|] eqn:Esl; [|done].
  step E valid d10 E10. step E y11 d11 E11. injection E as <- <- _.
  apply mul_u64_exact in Esl as [-> Hloc]; [|lia|lia].
  assert (e_ending_lba (entry_of v h lb k) - e_starting_lba (entry_of v h lb k) + 1 < 2 ^ 64) as Hno.
  { unfold array_reserve in *. assert (0 <= (16384 + lb - 1) / lb) by (apply Z.div_pos; lia). lia. }
  rewrite wrap_small in Eps by lia. apply mul_u64_exact in Eps as [-> _]; [|lia|lia].
  exists k. split; try done; try lia. intros j Hj Hjk He'. apply Hap; [lia|done|done].
Qed.
End Gpt.
End Place.

(** * The host tool: an installation is correct *)
Section Prepare.
Variable d1 : device.
Abbreviation v := (view d1).
Hypothesis Hbytes : forall a, is_byte (v a).
Abbreviation quiet := (frame d1 nowhere).

(** ** The MBR *)
Lemma mbr_slots_spec l : forall s d s' d', Forall (fun o => 0 <= o < 512) l -> quiet d -> mbr_slots false l s d = (Some s', d') ->
  quiet d' /\ Forall (fun slot => v (slot + 4) <> 0 -> 63 <= mbr_start v slot) l.
Proof.
  induction l as [|o l IH]; intros s d s' d' Ho Hf E; cbn [mbr_slots] in E; [by injection E as _ <-|].
  apply Forall_cons in Ho as [Ho Hl]. step E s2 d2 E2.
  assert (quiet d2 /\ (v (o + 4) <> 0 -> 63 <= mbr_start v o)) as [F2 Hs].
  { unfold mbr_slot in E2. destruct s as [m a]. step E2 b d3 E3. apply (read_slice d1) in E3 as [-> F3]; [|done|lia|lia].
    rewrite andb_false_r in E2. step E2 x d4 E4. injection E4 as _ <-. step E2 t d5 E5. apply (read_slice d1) in E5 as [-> F5]; [|done|lia|lia].
    change (nth 0 (slice v (o + 4) 1) 0) with (v (o + 4)) in E2.
    destruct (Z.eqb_spec (v (o + 4)) 0) as [Hz|Hz]; [by injection E2 as _ <-|].
    step E2 st d6 E6. apply (read_slice d1) in E6 as [-> F6]; [|done|lia|lia]. step E2 y d7 E7. apply require_inv in E7 as [Hr ->].
    injection E2 as _ <-. split; [done|]. intros _. bool_hyps. unfold mbr_start. lia. }
  apply IH in E as [F' Hrest]; [|done|done]. split; [done|]. by constructor.
Qed.

Lemma check_mbr_spec d mbr d' : quiet d -> check_mbr false d = (Some mbr, d') ->
  frame d1 (fun a => a = 446) d' /\ (view d' 446 = v 446 \/ view d' 446 = 0x80) /\
  Forall (fun slot => v (slot + 4) <> 0 -> 63 <= mbr_start v slot) [446; 462; 478; 494].
Proof.
  intros Hf E. unfold check_mbr in E. step E sg d2 E2. apply (read_slice d1) in E2 as [-> F2]; [|done|lia|lia].
  rewrite andb_false_r in E. step E x d3 E3. injection E3 as _ <-. step E s d4 E4. destruct s as [m any].
  apply mbr_slots_spec in E4 as [F4 Hs]; [|repeat constructor; lia|done]. step E ok d5 E5.
  assert (quiet d5) as F5.
  { destruct m; [|by injection E5 as _ <-]. by eapply quiet_after; [apply (keeps_validate_quiet quiet)|exact F4|exact E5]. }
  destruct (ok && negb any).
  - step E x6 d6 E6. injection E as _ <-. destruct x6. apply (wrote d1 nowhere) in E6 as (F6 & _ & V6); [|done|lia].
    split_and!; [|right; by rewrite V6|done]. eapply frame_weaken; [|exact F6]. unfold inside. cbn. intros a [[]|?]. lia.
  - injection E as _ <-. split_and!; [|left; by apply F5; auto|done]. eapply frame_weaken; [|exact F5]. by intros a [].
Qed.

(** On a device that has been converted. *)
Lemma keeps_check_mbr_frame P : P 446 -> keeps (frame d1 P) (check_mbr false).
Proof.
  intros HP. unfold check_mbr. apply keeps_bind; [by keep|intros sig]. rewrite andb_false_r. apply keeps_bind; [by keep|intros _].
  apply keeps_bind.
  { generalize [446; 462; 478; 494] (negb (negb (le_val sig =? 0xaa55) && negb false), false). intros l. induction l as [|o l IH]; intros s; cbn [mbr_slots]; [by keep|].
    apply keeps_bind; [|intros; apply IH]. unfold mbr_slot. destruct s. apply keeps_bind; [by keep|intros ?]. rewrite andb_false_r. by keep. }
  intros [m any]. apply keeps_bind; [by keep|intros ok]. destruct (ok && negb any); [|by keep]. apply keeps_bind; [|by keep].
  apply frame_write; [lia|]. unfold inside. cbn. intros a Ha. by replace a with 446 by lia.
Qed.

(** ** The conversion *)
#[local] Opaque iso9660_has_pvd pvd_loop device_last_block gather device_read_raw.
Section Convert.
Variable h : list Z.
Variable lb : Z.
Hypothesis Hh : Forall is_byte h.
Hypothesis Hlb : lb = 512 \/ lb = 2048 \/ lb = 4096.
Abbreviation entry := (entry_of v h lb).

Record convertible (e : list Z) : Prop := {
  co_order : e_starting_lba e <= e_ending_lba e;
  co_first : h_first_usable_lba h <= e_starting_lba e;
  co_last : e_ending_lba e <= h_last_usable_lba h;
}.

Lemma convert_entry_spec e last_block p : Forall is_byte e -> convert_entry h e lb last_block = Some p ->
  convertible e /\ lba_start p * 512 = e_starting_lba e * lb.
Proof.
  intros He. unfold convert_entry. pose proof (host_field_bound e 32 8 He : 0 <= e_starting_lba e < _).
  case_if; [done|]. case_if; [done|]. case_if; [done|]. destruct (mul_u64 (e_starting_lba e) _) as [ss|] eqn:Es; [|done]. cbn [mbind option_bind].
  case_if; [done|]. destruct (mul_u64 (u64 _) _) as [sc|]; [|done]. cbn [mbind option_bind]. case_if; [done|]. case_if; [done|]. intros [= <-]. cbn [lba_start].
  assert (0 <= lb / 512 /\ lb / 512 * 512 = lb) as [? Hdiv] by (destruct Hlb as [->|[->| ->]]; done).
  apply mul_u64_exact in Es as [-> _]; [|lia|lia]. split; [split; lia|]. rewrite <- Z.mul_assoc. by rewrite Hdiv.
Qed.

Lemma gather_spec n : forall i base last_block parts d ps d', quiet d -> base = h_partition_entry_lba h * lb -> 0 <= i ->
  gather n i h lb base last_block parts d = (Some (Some ps), d') ->
  quiet d' /\ (forall p, p ∈ parts -> p ∈ ps) /\
  forall j, i <= j < i + Z.of_nat n -> type_guid_empty (entry j) = false -> exists p, convert_entry h (entry j) lb last_block = Some p /\ p ∈ ps.
Proof.
  induction n as [|n IH]; intros i base last_block parts d ps d' Hf Hb Hi E; cbn [gather] in E.
  { injection E as <- <-. split_and!; [done..|]. intros. lia. }
  destruct (add_u64 _ _) as [off|] eqn:Eo; [|done]. pose proof (host_field_bound h 72 8 Hh). pose proof (host_field_bound h 84 4 Hh).
  apply add_u64_exact in Eo as [-> Ho]; [|rewrite Hb; unfold h_partition_entry_lba; nia|unfold h_size_of_entry; nia].
  step E e d2 E2. apply (read_slice d1) in E2 as [-> F2]; [|done|done|done].
  assert (slice v (base + i * h_size_of_entry h) sizeof_entry = entry i) as He by (unfold entry_of; by rewrite Hb).
  rewrite He in E.
  destruct (type_guid_empty (entry i)) eqn:Et.
  - apply IH in E as (F' & Hsub & Hall); [|done|done|lia]. split_and!; [done|done|]. intros j Hj Hte.
    destruct (Z.eq_dec j i) as [->|]; [congruence|]. apply Hall; [lia|done].
  - destruct (length parts =? 4)%nat; [done|]. destruct (convert_entry h (entry i) lb last_block) as [p|] eqn:Ec; [|done].
    apply IH in E as (F' & Hsub & Hall); [|done|done|lia]. split_and!; [done| |].
    + intros q Hq. apply Hsub. apply elem_of_app. by left.
    + intros j Hj Hte. destruct (Z.eq_dec j i) as [->|]; [|apply Hall; [lia|done]]. exists p. split; [done|]. apply Hsub, elem_of_app. right. by apply list_elem_of_singleton.
Qed.

Definition reserve : Z :=
  let reserve_max := 2 + array_reserve lb in
  let r := if h_first_usable_lba h <? reserve_max then h_first_usable_lba h else reserve_max in
  if r <? 2 then 2 else r.

(** What the conversion may overwrite. *)
Definition erased (a : Z) : Prop := a < reserve * lb \/ (h_last_usable_lba h + 1) * lb <= a.

Lemma reserve_low : 2 <= reserve.
Proof. unfold reserve. cbv zeta. case_if; lia. Qed.

Lemma reserve_high : reserve = 2 \/ reserve <= h_first_usable_lba h.
Proof. unfold reserve. cbv zeta. repeat case_if; lia. Qed.

Lemma keeps_erase_blocks_frame P n : forall lba, 0 <= lba -> (forall a, inside (lba * lb) (Z.of_nat n * lb) a -> P a) ->
  keeps (frame d1 P) (erase_blocks n lba lb).
Proof.
  induction n as [|n IH]; intros lba H0 HP; cbn [erase_blocks]; [by keep|]. destruct (mul_u64 lba lb) as [loc|] eqn:Em; [|by keep].
  apply mul_u64_exact in Em as [-> Hr]; [|lia|lia]. apply keeps_bind.
  - apply frame_write; [done|]. rewrite length_replicate. intros a Ha. apply HP. unfold inside in *. nia.
  - intros _. apply IH; [lia|]. intros a Ha. apply HP. unfold inside in *. nia.
Qed.

Lemma keeps_erase_ranges_frame P rs : Forall (fun r => 0 <= r.1 /\ forall a, r.1 * lb <= a < (r.2 + 1) * lb -> P a) rs ->
  keeps (frame d1 P) (erase_ranges rs lb).
Proof.
  induction 1 as [|[first alt] rs [H0 HP] Hrs IH]; cbn [erase_ranges]; [by keep|]. apply keeps_bind; [|by intros _].
  apply keeps_erase_blocks_frame; [done|]. intros a Ha. apply HP. unfold inside in Ha. cbn in *. nia.
Qed.

Lemma settle_spec alts : forall d rs d', settle alts h lb d = (Some rs, d') -> Forall (fun r => h_last_usable_lba h < r.1) rs.
Proof.
  induction alts as [|alt alts IH]; intros d rs d' E; cbn [settle] in E; [by injection E as <- _|]. step E probe d2 E2.
  destruct (negb _) in E; [by eapply IH|]. step E x d3 E3. apply require_inv in E3 as [Hr ->]. bool_hyps. step E rest d4 E4.
  injection E as <- _. constructor; [|by eapply IH]. cbn. case_if; lia.
Qed.

Lemma keeps_mbr_area P : (forall a, 0 <= a < 512 -> P a) -> forall buffer loc, 0 <= loc -> loc + Z.of_nat (length buffer) <= 512 ->
  keeps (frame d1 P) (device_write_raw buffer loc).
Proof. intros HP buffer loc H0 H1. apply frame_write; [lia|]. intros a Ha. apply HP. unfold inside in Ha. lia. Qed.

Lemma length_lba2chs x : length (lba2chs x) = 3%nat.
Proof. unfold lba2chs. by repeat case_if. Qed.

Lemma keeps_entries_frame P ps : (forall a, 0 <= a < 512 -> P a) -> forall i, 0 <= i -> i + Z.of_nat (length ps) <= 4 ->
  keeps (frame d1 P) (write_entries ps i).
Proof.
  intros HP. induction ps as [|p ps IH]; intros i H0 H1; cbn [write_entries]; [by keep|]. cbn [length] in H1.
  do 5 (apply keeps_bind; [apply (keeps_mbr_area P HP); rewrite ?length_le_bytes, ?length_lba2chs; cbn [length]; lia|intros _]). apply IH; lia.
Qed.

Lemma keeps_each_frame P bs : (forall a, 0 <= a < 512 -> P a) -> forall loc, 0 <= loc -> loc + Z.of_nat (length bs) <= 512 ->
  keeps (frame d1 P) (write_each bs loc).
Proof.
  intros HP. induction bs as [|b bs IH]; intros loc H0 H1; cbn [write_each]; [by keep|]. cbn [length] in H1.
  apply keeps_bind; [apply (keeps_mbr_area P HP); cbn [length]; lia|intros _]. apply IH; lia.
Qed.

Lemma commit_spec header_lba ps d x d' : (length ps <= 4)%nat -> quiet d -> commit_conversion h header_lba lb ps d = (Some x, d') ->
  frame d1 erased d'.
Proof.
  intros Hps Hf E. unfold commit_conversion in E. step E lst d2 E2.
  assert (quiet d2) as F2 by (by eapply quiet_after; [apply (keeps_last_block quiet)|exact Hf|exact E2]).
  step E rs d3 E3. assert (quiet d3) as F3 by (by eapply quiet_after; [apply (keeps_settle quiet)|exact F2|exact E3]).
  apply settle_spec in E3. fold reserve in E. apply (frame_weaken d1 nowhere erased) in F3; [|by intros a []].
  pose proof reserve_low as Hr2. assert (forall a, 0 <= a < 512 -> erased a) as Hlow by (intros a Ha; left; nia).
  pose proof (host_field_bound h 48 8 Hh : 0 <= h_last_usable_lba h < _) as Hlu.
  match type of E with ?m d3 = _ => assert (keeps (frame d1 erased) m) as Hk end; [|specialize (Hk d3 F3); by rewrite E in Hk].
  apply keeps_bind; [|intros _; apply keeps_bind; [|intros _; apply keeps_bind; [|intros _; apply keeps_bind; [|intros _]]]].
  - apply keeps_erase_blocks_frame; [lia|]. intros a Ha. left. unfold inside in Ha. fold reserve in Ha. nia.
  - apply keeps_erase_ranges_frame. eapply Forall_impl; [exact E3|]. intros r Hr. cbn beta in Hr. split; [lia|]. intros a Ha. right. nia.
  - apply keeps_each_frame; [done|lia|]. rewrite length_le_bytes. lia.
  - apply keeps_entries_frame; [done|lia|lia].
  - apply keeps_mbr_area; [done|lia|cbn; lia].
Qed.

Lemma spared e a : convertible e -> 63 * 512 <= e_starting_lba e * lb -> e_starting_lba e * lb <= a < (e_ending_lba e + 1) * lb ->
  63 * 512 <= a /\ ~ erased a.
Proof.
  intros [C1 C2 C3] H63 Ha. split; [lia|]. intros [Hl|Hl].
  - destruct reserve_high as [Hr|Hr]; [rewrite Hr in Hl; lia|]. assert (reserve * lb <= e_starting_lba e * lb) by (apply Z.mul_le_mono_nonneg_r; lia). lia.
  - assert ((e_ending_lba e + 1) * lb <= (h_last_usable_lba h + 1) * lb) by (apply Z.mul_le_mono_nonneg_r; lia). lia.
Qed.

(** After the conversion every partition is still what it was: none reaches into
    the first 63 sectors or into what was erased. *)
Lemma convert_spec header_lba d d' : quiet d -> convert_gpt h lb header_lba d = (Some true, d') ->
  frame d1 erased d' /\ forall i a, in_gpt_partition v h lb i a -> 63 * 512 <= a /\ ~ erased a.
Proof.
  intros Hf E. unfold convert_gpt in E. step E x d2 E2. assert (quiet d2) as F2 by (by eapply quiet_after; [apply (keeps_set_ferror quiet)|exact Hf|exact E2]).
  step E iso d3 E3. assert (quiet d3) as F3 by (by eapply quiet_after; [apply (keeps_iso quiet)|exact F2|exact E3]).
  destruct iso; cbn [negb] in E; [|by step E err d4 E4; destruct err]. case_match; [done|].
  pose proof (host_field_bound h 72 8 Hh : 0 <= h_partition_entry_lba h < _). pose proof (host_field_bound h 80 4 Hh : 0 <= h_number_of_entries h < _).
  pose proof (host_field_bound h 48 8 Hh : 0 <= h_last_usable_lba h < _). pose proof (host_field_bound h 40 8 Hh : 0 <= h_first_usable_lba h < _).
  destruct (mul_u64 _ _) as [base|] eqn:Eb; [|done]. apply mul_u64_exact in Eb as [Eb _]; [|lia|lia].
  step E lst d5 E5. assert (quiet d5) as F5 by (by eapply quiet_after; [apply (keeps_last_block quiet)|exact F3|exact E5]).
  destruct lst as [last_block|]; [|done]. step E ps d6 E6. destruct ps as [ps|]; [|done].
  pose proof E6 as Hlen. apply gather_length in Hlen; [|cbn; lia]. apply gather_spec in E6 as (F6 & _ & Hall); [|done|done|lia].
  destruct (existsb _ ps) eqn:Eex; [done|]. step E y d7 E7. injection E as <-. apply commit_spec in E7; [|done|done]. split; [done|].
  intros i a (Hi & Hte & Ha). destruct (Hall i ltac:(lia) Hte) as (p & Hc & Hp).
  apply convert_entry_spec in Hc as [[C1 C2 C3] Hst]; [|apply (entry_bytes d1 Hbytes)].
  assert (63 <= lba_start p) as H63.
  { apply Z.nlt_ge. intros Hlt. apply not_true_iff_false in Eex. apply Eex, existsb_exists. exists p. split; [by apply list_elem_of_In|by apply Z.ltb_lt]. }
  apply (spared (entry i)); [by split|lia|done].
Qed.

(** A GPT that is not converted is left alone. *)
Lemma convert_declined header_lba d d' : quiet d -> convert_gpt h lb header_lba d = (Some false, d') -> quiet d'.
Proof.
  intros Hf E. unfold convert_gpt in E. step E x d2 E2. assert (quiet d2) as F2 by (by eapply quiet_after; [apply (keeps_set_ferror quiet)|exact Hf|exact E2]).
  step E iso d3 E3. assert (quiet d3) as F3 by (by eapply quiet_after; [apply (keeps_iso quiet)|exact F2|exact E3]).
  destruct iso; cbn [negb] in E.
  2: { step E err d4 E4. injection E4 as _ <-. destruct err; [done|]. by injection E as <-. }
  case_match; [by injection E as <-|]. destruct (mul_u64 _ _) as [base|]; [|by injection E as <-].
  step E lst d5 E5. assert (quiet d5) as F5 by (by eapply quiet_after; [apply (keeps_last_block quiet)|exact F3|exact E5]).
  destruct lst as [last_block|]; [|by injection E as <-]. step E ps d6 E6.
  assert (quiet d6) as F6 by (by eapply quiet_after; [apply (keeps_gather quiet)|exact F5|exact E6]).
  destruct ps as [ps|]; [|by injection E as <-]. case_match; [done|]. by step E y d7 E7.
Qed.
End Convert.
End Prepare.
