(* ===== verification/HostProps.v ===== *)
(** * Theorems on the host tool *)

From S2P Require Import Prelude CInt Libc Gpt HostDevice HostGpt Host HostJournal HostUndo HostCorrect.

(** ** What preparing has found *)

(** The options ask for a conversion and, from the state [d2], it is carried out. *)
Definition converts (o : options) (h : list Z) (lb lba : Z) (d2 : device) : Prop :=
  o_gpt2mbr_allowed o = true /\ exists d', convert_gpt h lb lba d2 = (Some true, d').

Inductive prepared (o : options) (d1 d2 : device) : option (list Z * Z * Z) -> Z -> Z -> device -> Prop :=
| PrepGpt h lb lba k loc max d : chosen d1 h lb k loc max -> frame d1 nowhere d -> ~ converts o h lb lba d2 -> prepared o d1 d2 (Some (h, lb, lba)) loc max d
| PrepConverted h lb lba d : converts o h lb lba d2 -> frame d1 (erased h lb) d ->
    (forall i a, in_gpt_partition (view d1) h lb i a -> 63 * 512 <= a /\ ~ erased h lb a) ->
    prepared o d1 d2 (Some (h, lb, lba)) 4096 (63 * 512 - 4096) d
| PrepMbr d : frame d1 (fun a => a = 446) d -> view d 446 = view d1 446 \/ view d 446 = 0x80 ->
    Forall (fun slot => view d1 (slot + 4) <> 0 -> 63 <= mbr_start (view d1) slot) [446; 462; 478; 494] ->
    prepared o d1 d2 None 4096 (63 * 512 - 4096) d.

Lemma mbr_place_inv o d loc max d' :
  (let* mbr := check_mbr (o_force o) in let* _ := require mbr in ret (4096, 63 * 512 - 4096)) d = (Some (loc, max), d') ->
  exists mbr, check_mbr (o_force o) d = (Some mbr, d') /\ loc = 4096 /\ max = 63 * 512 - 4096.
Proof.
  intros E. step E mbr d2 E2. step E x d3 E3. apply require_inv in E3 as [_ ->]. injection E as <- <- <-. by exists mbr.
Qed.

Lemma host_prepare_spec d1 o loc max d3 : frame d1 nowhere d1 -> (forall a, is_byte (view d1 a)) -> o_force o = false ->
  prepare o d1 = (Some (loc, max), d3) ->
  exists located d2, gpt_locate_header d1 = (Some located, d2) /\ prepared o d1 d2 located loc max d3.
Proof.
  intros Hf Hb Ho E. unfold prepare in E. step E located d2 E2. exists located, d2. split; [done|].
  assert (frame d1 nowhere d2) as F2 by (by eapply quiet_after; [apply (keeps_locate (frame d1 nowhere))|exact Hf|exact E2]).
  destruct located as [[[h lb] lba]|].
  - apply (locate_header d1 Hb) in E2 as [Hlb Hh]; [|done].
    assert (forall d, frame d1 nowhere d -> ~ converts o h lb lba d2 -> place_gpt (o_force o) (o_part_ndx o) h lb d = (Some (loc, max), d3) ->
      prepared o d1 d2 (Some (h, lb, lba)) loc max d3) as Hplace.
    { intros d Fd Hc Ed. rewrite Ho in Ed. apply (place_gpt_spec d1 Hb h lb Hh Hlb) in Ed as [[k Hk] F3]; [|done]. by econstructor. }
    destruct (o_gpt2mbr_allowed o) eqn:Eallow.
    + step E gpt d4 E4. step E4 converted d5 E5. injection E4 as <- <-. destruct converted.
      * assert (converts o h lb lba d2) as Hc by (split; [done|by exists d5]). apply (convert_spec d1 Hb h lb Hh Hlb) in E5 as [F5 Hpart]; [|done].
        apply mbr_place_inv in E as (mbr & Em & -> & ->). rewrite Ho in Em. apply PrepConverted; [done| |done].
        assert (erased h lb 446) as H446 by (left; pose proof (reserve_low h lb); nia).
        pose proof (keeps_check_mbr_frame d1 (erased h lb) H446 d5 F5) as Hk. by rewrite Em in Hk.
      * apply (Hplace d5); [|intros (_ & d' & Ec); by rewrite E5 in Ec|done]. by apply (convert_declined d1 h lb) in E5.
    + step E gpt d4 E4. injection E4 as <- <-. apply (Hplace d2); [done| |done]. intros [Ht _]. by rewrite Eallow in Ht.
  - step E gpt d4 E4. injection E4 as <- <-. apply mbr_place_inv in E as (mbr & Em & -> & ->). rewrite Ho in Em.
    apply (check_mbr_spec d1) in Em as (F3 & H446 & Hs); [|done]. by apply PrepMbr.
Qed.

(** A device at the start: what it holds is what is on the medium. *)
Lemma started_frame d d1 : started d d1 -> frame d1 nowhere d1 /\ (forall a, view d1 a = medium d a) /\ size d1 = size d.
Proof.
  intros (J & Hd & Hs & Hm & _). split_and!; [|intros a; rewrite (clean_view d1 a) by (done || apply J); by rewrite Hm|done].
  split; [apply J|apply J|done|done].
Qed.

Lemma chosen_low d1 h lb k loc max : (lb = 512 \/ lb = 2048 \/ lb = 4096) -> chosen d1 h lb k loc max -> 512 <= loc.
Proof.
  intros Hlb [_ _ _ Hl -> _ _]. unfold array_reserve in Hl. assert (0 <= (16384 + lb - 1) / lb) by (apply Z.div_pos; lia). nia.
Qed.

(** Everything an installation without [--force] has done. *)
Lemma installed img can_store o d file d' : 512 <= Z.of_nat (length img) -> fresh d -> (forall a, is_byte (medium d a)) -> o_force o = false ->
  bios_install img can_store o d = (Some (true, file), d') ->
  exists d1 located d2 loc max d3, device_init d = (Some tt, d1) /\ (forall a, view d1 a = medium d a) /\ size d1 = size d /\
    gpt_locate_header d1 = (Some located, d2) /\ prepared o d1 d2 located loc max d3 /\
    match located with Some (_, lb, _) => lb = 512 \/ lb = 2048 \/ lb = 4096 | None => True end /\
    512 <= loc /\ loc + stage2_size img <= loc + max /\ size d' = size d /\ loc + stage2_size img <= Z.max loc (size d) /\
    forall a, 0 <= a -> medium d' a = (if a <? 512 then boot_sector img (view d3) loc a
       else if (loc <=? a) && (a <? loc + stage2_size img) then nth (Z.to_nat (512 + (a - loc))) img 0 else view d3 a).
Proof.
  intros Himg Hf Hb Ho E. pose proof (bios_install_cases img can_store o d Hf) as H. rewrite E in H.
  destruct H as (d1 & d4 & Ei & Hst & E2 & J & Em & Es & _). destruct (started_frame d d1 Hst) as (F1 & V1 & S1).
  unfold install in E2. step E2 x d3 E3. destruct x as [loc max]. pose proof (prepare_range _ _ _ _ _ E3) as Hr.
  destruct (host_prepare_spec d1 o loc max d3 F1 ltac:(intros a; rewrite V1; apply Hb) Ho E3) as (located & d2 & El & Hp).
  assert (match located with Some (_, lb, _) => lb = 512 \/ lb = 2048 \/ lb = 4096 | None => True end) as Hlb.
  { destruct located as [[[h lb] lba]|]; [|done]. apply (locate_header d1) in El as [? _]; [done| |done]. intros a. rewrite V1. apply Hb. }
  assert (exists P, frame d1 P d3 /\ 512 <= loc) as (P & F3 & Hloc).
  { destruct Hp as [h lb lba k loc max d3 Hc F3 _|h lb lba d3 _ F3 _|d3 F3 _ _]; eexists; (split; [exact F3|]); [by eapply chosen_low|lia|lia]. }
  assert (frame d3 nowhere d3) as F33 by (by split; [apply F3|apply F3|..]).
  apply (stages_written img Himg) in E2 as (Hmax & Hsz & Hfit & Hmed); [|done|lia].
  rewrite (fm_size _ _ _ F3), S1 in *. exists d1, located, d2, loc, max, d3. rewrite Em, Es. split_and!; try done. lia.
Qed.

(** Entry [k] of the partition array of the header [h], with blocks of [lb] bytes, is a
    partition of the BIOS boot type, and [a] lies in it. *)
Definition boot_partition (v : Z -> Z) (h : list Z) (lb k : Z) : Prop :=
  0 <= k < h_number_of_entries h /\ is_bios_boot (entry_of v h lb k) = true /\
  e_starting_lba (entry_of v h lb k) <= e_ending_lba (entry_of v h lb k).

Definition in_entry (v : Z -> Z) (h : list Z) (lb k a : Z) : Prop :=
  e_starting_lba (entry_of v h lb k) * lb <= a < (e_ending_lba (entry_of v h lb k) + 1) * lb.

(** C14.  An installation spares the partitions.  Suppose [bios-install] without [--force]
    succeeds.  If the device has a GPT that is not converted, one partition of the
    BIOS boot type was chosen: no other partition lost a byte, and outside the
    chosen one nothing behind the boot sector changed at all.  If the GPT of an ISO
    image was converted, every byte of every partition is what it was.  (Of a GPT
    partition that is declared to contain the boot sector, the bytes after it.)
    On a device without a GPT, every byte of its primary MBR partitions is what it
    was. *)
Theorem bios_install_spares_partitions img can_store o d file d' :
  512 <= Z.of_nat (length img) -> fresh d -> (forall a, is_byte (medium d a)) -> o_force o = false ->
  bios_install img can_store o d = (Some (true, file), d') ->
  exists d1 d2 located, device_init d = (Some tt, d1) /\ gpt_locate_header d1 = (Some located, d2) /\
    match located with
    | Some (h, lb, lba) =>
        (converts o h lb lba d2 -> forall i a, in_gpt_partition (medium d) h lb i a -> 512 <= a -> medium d' a = medium d a) /\
        (~ converts o h lb lba d2 -> exists k, boot_partition (medium d) h lb k /\
           (forall i a, i <> k -> in_gpt_partition (medium d) h lb i a -> 512 <= a -> medium d' a = medium d a) /\
           (forall a, 512 <= a -> ~ in_entry (medium d) h lb k a -> medium d' a = medium d a))
    | None => forall a, in_mbr_partition (medium d) a -> medium d' a = medium d a
    end.
Proof.
  intros Himg Hf Hb Ho E. destruct (installed img can_store o d file d' Himg Hf Hb Ho E) as
    (d1 & located & d2 & loc & max & d3 & Ei & V1 & _ & El & Hp & Hlb & Hloc & Hmax & _ & _ & Hmed).
  exists d1, d2, located. split_and!; [done|done|].
  assert (forall h lb i, entry_of (view d1) h lb i = entry_of (medium d) h lb i) as Hent by (intros; unfold entry_of, slice; by apply list_fmap_ext).
  assert (forall a, 512 <= a -> ~ (loc <= a < loc + stage2_size img) -> medium d' a = view d3 a) as Hout.
  { intros a Ha Hs. rewrite Hmed by lia. rewrite (proj2 (Z.ltb_ge a 512)) by lia. case_if; [lia|done]. }
  destruct Hp as [h lb lba k loc max d3 [Hk Hbt Hord Hlow Hst Hmx Hap] F3 Hnc|h lb lba d3 Hc F3 Hpart|d3 F3 _ Hslots].
  - split; [done|]. intros _. exists k. rewrite !Hent in Hbt, Hord, Hst, Hmx.
    assert (forall a, 512 <= a -> ~ in_entry (medium d) h lb k a -> medium d' a = medium d a) as Hother.
    { intros a H512 Hna. unfold in_entry in Hna. rewrite Hout, (fm_view _ _ _ F3), V1; [done|auto|done|lia]. }
    split_and!; [exact (conj Hk (conj Hbt Hord))| |done]. intros i a Hne (Hi & Hte & Ha) H512. apply Hother; [done|]. unfold in_entry.
    specialize (Hap i Hi Hne). rewrite !Hent in Hap. destruct (Hap Hte) as [Hd|Hd].
    + assert ((e_ending_lba (entry_of (medium d) h lb i) + 1) * lb <= e_starting_lba (entry_of (medium d) h lb k) * lb) by (apply Z.mul_le_mono_nonneg_r; lia). lia.
    + assert ((e_ending_lba (entry_of (medium d) h lb k) + 1) * lb <= e_starting_lba (entry_of (medium d) h lb i) * lb) by (apply Z.mul_le_mono_nonneg_r; lia). lia.
  - split; [|done]. intros _ i a Hin H512. destruct (Hpart i a) as [H63 Her]; [unfold in_gpt_partition in *; by rewrite !Hent|].
    rewrite Hout, (fm_view _ _ _ F3), V1; [done..|]. lia.
  - intros a (slot & Hs & Ht & Ha). rewrite Forall_forall in Hslots. specialize (Hslots slot Hs).
    assert (mbr_start (view d1) slot = mbr_start (medium d) slot) as Est by (unfold mbr_start, slice; f_equal; by apply list_fmap_ext).
    rewrite V1, Est in Hslots. specialize (Hslots Ht). rewrite Hout, (fm_view _ _ _ F3), V1; [done|lia|lia|lia].
Qed.

(** C15.  What an installation leaves on the device.  If [bios-install] without
    [--force] succeeds, stage 2 is on the device, whole, at the place the boot
    sector names: from the start of a BIOS boot partition of the GPT that was found
    on the device, in blocks of the size it was found with, and within the bounds
    of the partition, or, without a GPT or after its conversion, from byte 4096 on
    and below sector 63.  The boot sector is the image's, but for this place,
    the time stamp and the disk signature with the partition table.  If the GPT
    is not to be converted, time stamp, disk signature and partition table are
    those the device had, but for the active flag of the first MBR entry, which
    may have been set, and every byte after the boot sector and outside stage 2
    is what it was. *)
Theorem bios_install_places_stages img can_store o d file d' :
  512 <= Z.of_nat (length img) -> fresh d -> (forall a, is_byte (medium d a)) -> o_force o = false ->
  bios_install img can_store o d = (Some (true, file), d') ->
  exists loc, let n := stage2_size img in
    (forall i, 0 <= i < n -> medium d' (loc + i) = nth (Z.to_nat (512 + i)) img 0) /\ loc + n <= Z.max loc (size d) /\
    (forall a, 0 <= a < 512 -> ~ (218 <= a < 224) -> ~ (440 <= a < 510) ->
       medium d' a = if (420 <=? a) && (a <? 428) then nth (Z.to_nat (a - 420)) (le_bytes 8 loc) 0 else nth (Z.to_nat a) img 0) /\
    (exists d1 d2 located, device_init d = (Some tt, d1) /\ gpt_locate_header d1 = (Some located, d2) /\
       (match located with
        | Some (h, lb, lba) =>
            ~ converts o h lb lba d2 /\
            exists k, boot_partition (medium d) h lb k /\ loc = e_starting_lba (entry_of (medium d) h lb k) * lb /\
              loc + n <= (e_ending_lba (entry_of (medium d) h lb k) + 1) * lb
        | None => False
        end \/
        match located with Some (h, lb, lba) => converts o h lb lba d2 | None => True end /\ loc = 4096 /\ loc + n <= 63 * 512)) /\
    (o_gpt2mbr_allowed o = false ->
       (forall a, 218 <= a < 224 \/ 440 <= a < 510 /\ a <> 446 \/ 512 <= a /\ ~ (loc <= a < loc + n) -> medium d' a = medium d a) /\
       (medium d' 446 = medium d 446 \/ medium d' 446 = 0x80)).
Proof.
  intros Himg Hf Hb Ho E. destruct (installed img can_store o d file d' Himg Hf Hb Ho E) as
    (d1 & located & d2 & loc & max & d3 & Ei & V1 & _ & El & Hp & Hlb & Hloc & Hmax & _ & Hfit & Hmed).
  exists loc. cbv zeta. assert (0 <= stage2_size img) by (unfold stage2_size; lia).
  assert (forall h lb i, entry_of (view d1) h lb i = entry_of (medium d) h lb i) as Hent by (intros; unfold entry_of, slice; by apply list_fmap_ext).
  split_and!; [|done| | |].
  - intros i Hi. rewrite Hmed by lia. rewrite (proj2 (Z.ltb_ge _ _)), (proj2 (Z.leb_le _ _)), (proj2 (Z.ltb_lt _ _)) by lia. cbn. do 2 f_equal. lia.
  - intros a Ha H1 H2. rewrite Hmed by lia. rewrite (proj2 (Z.ltb_lt _ _)) by lia. unfold boot_sector.
    destruct (((218 <=? a) && (a <? 224)) || ((440 <=? a) && (a <? 510))) eqn:Ht; [|done]. bool_cases; lia.
  - exists d1, d2, located. split_and!; [done|done|].
    destruct Hp as [h lb lba k loc max d3 [Hk Hbt Hord Hlow Hst Hmx Hap] F3 Hnc|h lb lba d3 Hc F3 _|d3 F3 _ _].
    + left. split; [done|]. exists k. rewrite !Hent in Hbt, Hord, Hst, Hmx. split_and!; [exact (conj Hk (conj Hbt Hord))|done|lia].
    + right. split_and!; [done|lia|lia].
    + right. split_and!; [done|lia|lia].
  - intros Hno.
    assert (forall a, 0 <= a -> 218 <= a < 224 \/ 440 <= a < 510 \/ 512 <= a /\ ~ (loc <= a < loc + stage2_size img) -> medium d' a = view d3 a) as Hkeep.
    { intros a Ha Hc. rewrite Hmed by lia. destruct (Z.ltb_spec a 512).
      - unfold boot_sector. destruct (((218 <=? a) && (a <? 224)) || ((440 <=? a) && (a <? 510))) eqn:Ht; [done|]. bool_cases; lia.
      - case_if; [lia|done]. }
    rewrite <- !V1. destruct Hp as [h lb lba k loc max d3 _ F3 _|h lb lba d3 [Hyes _] _ _|d3 F3 H446 _]; [|congruence|].
    + split; [|left; rewrite Hkeep by lia; by apply F3; auto]. intros a Ha. rewrite <- V1, Hkeep by lia. apply F3. auto.
    + split; [|rewrite Hkeep by lia; done]. intros a Ha. rewrite <- V1, Hkeep by lia. apply F3. lia.
Qed.

Lemma demo_disk_bytes a : is_byte (demo_disk a).
Proof. unfold demo_disk, is_byte. repeat case_if; lia. Qed.

(** The disk of [HostUndo]: its partition is sector 63. *)
Lemma bios_install_spares_partitions_witness :
  exists f d', bios_install (demo_img 1536) true demo_options demo_device = (Some (true, f), d') /\
    forall a, 63 * 512 <= a < 64 * 512 -> medium d' a = demo_disk a.
Proof.
  assert (match fst (bios_install (demo_img 1536) true demo_options demo_device) with Some (true, _) => true | _ => false end = true) as G
    by (vm_compute; reflexivity).
  assert (match device_init demo_device with
          | (Some _, d1) => match fst (gpt_locate_header d1) with Some None => true | _ => false end | _ => false end = true) as G2 by (vm_compute; reflexivity).
  destruct (bios_install _ _ _ _) as [[[[] f]|] d'] eqn:E; try discriminate G. exists f, d'. split; [reflexivity|].
  destruct (bios_install_spares_partitions (demo_img 1536) true demo_options demo_device f d' ltac:(vm_compute; discriminate)
    (device_of_fresh demo_disk (64 * 512) ltac:(lia)) demo_disk_bytes eq_refl E) as (d1 & d2 & located & Ei & El & Hsp).
  rewrite Ei, El in G2. destruct located as [[[h lb] lba]|]; [discriminate G2|].
  intros a Ha. apply Hsp. exists 446. split; [apply list_elem_of_here|]. split; [discriminate|]. exact Ha.
Defined.

Lemma bios_install_places_stages_witness :
  exists f d' loc, bios_install (demo_img 1536) true (MkOptions false false None false) demo_device = (Some (true, f), d') /\
    (forall i, 0 <= i < 1024 -> medium d' (loc + i) = nth (Z.to_nat (512 + i)) (demo_img 1536) 0) /\ medium d' 450 = 0x83.
Proof.
  assert (match fst (bios_install (demo_img 1536) true (MkOptions false false None false) demo_device) with Some (true, _) => true | _ => false end = true) as G
    by (vm_compute; reflexivity).
  destruct (bios_install _ _ _ _) as [[[[] f]|] d'] eqn:E; try discriminate G. exists f, d'.
  destruct (bios_install_places_stages (demo_img 1536) true (MkOptions false false None false) demo_device f d' ltac:(vm_compute; discriminate)
    (device_of_fresh demo_disk (64 * 512) ltac:(lia)) demo_disk_bytes eq_refl E) as (loc & Hs & _ & _ & _ & Hk).
  exists loc. split_and!; [reflexivity|exact Hs|]. destruct (Hk eq_refl) as [Hkeep _]. apply (Hkeep 450). lia.
Defined.

(** * The host tool: an installation that has nothing to object to succeeds *)
(** A device of 512-byte blocks that holds [v] in its first 63 sectors and has
    [n] entries in its journal. *)
Record steady (v : Z -> Z) (n : nat) (d : device) : Prop := {
  st_sound : sound d;
  st_mode : uninstalling d = false;
  st_block : block_size d = 512;
  st_size : 63 * 512 <= size d;
  st_view : forall a, view d a = v a;
  st_log : length (uninstall_data d) = n;
  st_data : Forall (fun e => snd e <> []) (uninstall_data d);
}.

Lemma steady_moved v n d d' : steady v n d -> moved nowhere d d' -> steady v n d'.
Proof.
  intros [A B C D E F G] Mv. split; [apply Mv|by rewrite (mv_mode _ _ _ Mv)|by rewrite (mv_block _ _ _ Mv)|by rewrite (mv_size _ _ _ Mv)| |by rewrite (mv_data _ _ _ Mv)..].
  intros a. by rewrite (mv_view _ _ _ Mv) by auto.
Qed.

Lemma steady_readable v n d loc count : steady v n d -> 0 <= loc -> 0 <= count -> loc + count <= 63 * 512 -> readable d loc count.
Proof.
  intros [A B C D E F G] Hl Hc Hle. destruct (Z.eq_dec count 0) as [->|]; [by left|]. right. unfold present. rewrite C.
  pose proof (Z.div_mod (loc + count - 1) 512 ltac:(lia)). pose proof (Z.mod_pos_bound (loc + count - 1) 512 ltac:(lia)). lia.
Qed.

Lemma steady_read v n d loc count : steady v n d -> 0 <= loc -> 0 <= count -> loc + count <= 63 * 512 ->
  exists d', device_read_raw loc count d = (Some (slice v loc count), d') /\ steady v n d'.
Proof.
  intros H Hl Hc Hle. destruct (read_spec d loc count (st_sound _ _ _ H) ltac:(lia) Hc) as (r & d' & E & Mv & Hr).
  pose proof (steady_readable v n d loc count H Hl Hc Hle). destruct r as [b|]; [|done]. destruct Hr as [-> _]. exists d'.
  split; [|by eapply steady_moved]. rewrite E. do 2 f_equal. apply list_fmap_ext. intros. apply H.
Qed.

Lemma steady_write v n d buffer loc : steady v n d -> (n < UNINSTALL_DATA_MAX)%nat -> buffer <> [] -> 0 <= loc -> loc + Z.of_nat (length buffer) <= 63 * 512 ->
  exists d', device_write_raw buffer loc d = (Some tt, d') /\ steady (put_bytes v loc buffer) (S n) d'.
Proof.
  intros H Hn Hne Hl Hle. pose proof (steady_readable v n d loc (Z.of_nat (length buffer)) H Hl ltac:(lia) Hle) as Hre. pose proof H as [A B C D E F G].
  destruct (logged_write_spec d buffer loc A B ltac:(lia)) as (r & d' & Ew & Hr). destruct r as [[]|].
  2: { destruct Hr as [_ [?|?]]; [done|lia]. }
  destruct Hr as (_ & _ & (d2 & Mv & ->) & Hv). eexists. split; [exact Ew|]. split; cbn [uninstall_data set_uninstall_data].
  - destruct (mv_sound _ _ _ Mv) as [S1 S2 S3 S4]. by split.
  - cbn. by rewrite (mv_mode _ _ _ Mv).
  - cbn. by rewrite (mv_block _ _ _ Mv).
  - cbn. by rewrite (mv_size _ _ _ Mv).
  - intros a. rewrite Hv. by apply put_bytes_ext.
  - rewrite length_app. cbn. lia.
  - apply Forall_app. split; [done|]. apply Forall_singleton. cbn. intros Hnil. apply (f_equal length) in Hnil.
    rewrite length_fmap, length_seqZ in Hnil. apply Hne, nil_length_inv. cbn in Hnil. lia.
Qed.

(** ** A disk with nothing to object to *)
Record plain_mbr (v : Z -> Z) : Prop := {
  pm_signature : v 510 = 0x55 /\ v 511 = 0xaa;
  pm_slots : Forall (fun slot => (v slot = 0 \/ v slot = 0x80) /\ v (slot + 4) <> 0xee /\ (v (slot + 4) <> 0 -> 63 <= mbr_start v slot)) [446; 462; 478; 494];
  pm_ntfs : slice v 3 4 <> bytes "NTFS";
  pm_fat12 : slice v 54 3 <> bytes "FAT";
  pm_fat16 : slice v 82 3 <> bytes "FAT";
  pm_fat32 : slice v 3 5 <> bytes "FAT32";
  pm_ext : le_val (slice v 1080 2) <> 0xef53;
}.

Section Live.
Variable v : Z -> Z.
Hypothesis Hv : plain_mbr v.

Lemma protective_live slots : forall n d, Forall (fun i => 0 <= i < 4 /\ v (0x1be + 16 * i + 4) <> 0xee) slots -> steady v n d ->
  exists d', protective_loop slots d = (Some false, d') /\ steady v n d'.
Proof.
  induction slots as [|i slots IH]; intros n d Hs H; cbn [protective_loop]; [by exists d|]. apply Forall_cons in Hs as [[Hi Ht] Hs].
  destruct (steady_read v n d (0x1be + 16 * i + 4) 1 H ltac:(lia) ltac:(lia) ltac:(lia)) as (d2 & E2 & H2).
  erewrite bind_some by (apply attempt_eq; exact E2). cbv iota beta. change (nth 0 (slice v (0x1be + 16 * i + 4) 1) 0) with (v (0x1be + 16 * i + 4)).
  rewrite (proj2 (Z.eqb_neq _ _)) by done. by apply IH.
Qed.

Lemma locate_live n d : steady v n d -> exists d', gpt_locate_header d = (Some None, d') /\ steady v n d'.
Proof.
  intros H. pose proof (pm_slots v Hv) as Hs. rewrite !Forall_cons in Hs. destruct Hs as ((_ & S1 & _) & (_ & S2 & _) & (_ & S3 & _) & (_ & S4 & _) & _).
  destruct (protective_live [0; 1; 2; 3] n d) as (d2 & E2 & H2); [by repeat constructor|done|]. exists d2. split; [|done].
  unfold gpt_locate_header, gpt_protective_mbr. by erewrite bind_some by exact E2.
Qed.

Lemma hint_live n d loc test wipe text : steady v n d -> 0 <= loc -> 0 <= test -> loc + test <= 63 * 512 -> slice v loc test <> bytes text ->
  exists d', erase_hint false loc test wipe text d = (Some true, d') /\ steady v n d'.
Proof.
  intros H H0 H1 H2 Hne. unfold erase_hint. destruct (steady_read v n d loc test H H0 H1 H2) as (d2 & E2 & S2). erewrite bind_some by exact E2.
  unfold bytes_are. rewrite bool_decide_eq_false_2 by done. by exists d2.
Qed.

Lemma validate_live n d : steady v n d -> exists d', validate_or_force 0 false d = (Some true, d') /\ steady v n d'.
Proof.
  intros H. unfold validate_or_force. destruct Hv as [_ _ P1 P2 P3 P4 P5]. rewrite !(wrap_small 64) by lia. rewrite !Z.add_0_l.
  destruct (hint_live n d 3 4 4 "NTFS" H) as (d2 & E2 & S2); [lia|lia|lia|done|]. erewrite bind_some by exact E2. cbn [negb].
  destruct (hint_live n d2 54 3 5 "FAT" S2) as (d3 & E3 & S3); [lia|lia|lia|done|]. erewrite bind_some by exact E3. cbn [negb].
  destruct (hint_live n d3 82 3 5 "FAT" S3) as (d4 & E4 & S4); [lia|lia|lia|done|]. erewrite bind_some by exact E4. cbn [negb].
  destruct (hint_live n d4 3 5 5 "FAT32" S4) as (d5 & E5 & S5); [lia|lia|lia|done|]. erewrite bind_some by exact E5. cbn [negb].
  destruct (steady_read v n d5 1080 2 S5) as (d6 & E6 & S6); [lia|lia|lia|]. erewrite bind_some by exact E6.
  rewrite (proj2 (Z.eqb_neq _ _)) by done. by exists d6.
Qed.

Lemma slot_live n d slot any : steady v n d -> 0 <= slot <= 500 ->
  (v slot = 0 \/ v slot = 0x80) /\ v (slot + 4) <> 0xee /\ (v (slot + 4) <> 0 -> 63 <= mbr_start v slot) ->
  exists any' d', mbr_slot false slot (true, any) d = (Some (true, any'), d') /\ steady v n d'.
Proof.
  intros H Hs (Hf & _ & Hst). unfold mbr_slot. destruct (steady_read v n d slot 1 H) as (d2 & E2 & S2); [lia|lia|lia|].
  erewrite bind_some by exact E2. change (nth 0 (slice v slot 1) 0) with (v slot).
  assert (negb (v slot =? 0) && negb (v slot =? 0x80) = false) as Hb by (by destruct Hf as [->| ->]).
  rewrite Hb. cbn [andb negb]. erewrite bind_some by reflexivity.
  destruct (steady_read v n d2 (slot + 4) 1 S2) as (d3 & E3 & S3); [lia|lia|lia|]. erewrite bind_some by exact E3.
  change (nth 0 (slice v (slot + 4) 1) 0) with (v (slot + 4)). destruct (Z.eqb_spec (v (slot + 4)) 0) as [Hz|Hz].
  { eexists _, d3. split; [reflexivity|done]. }
  destruct (steady_read v n d3 (slot + 8) 4 S3) as (d4 & E4 & S4); [lia|lia|lia|]. erewrite bind_some by exact E4.
  specialize (Hst Hz). unfold mbr_start in Hst. unfold require. rewrite (proj2 (Z.ltb_ge _ _)) by lia. cbn [negb].
  erewrite bind_some by reflexivity. eexists _, d4. split; [reflexivity|done].
Qed.

Lemma slots_live l : forall n d any, steady v n d -> Forall (fun slot => 0 <= slot <= 500) l ->
  Forall (fun slot => (v slot = 0 \/ v slot = 0x80) /\ v (slot + 4) <> 0xee /\ (v (slot + 4) <> 0 -> 63 <= mbr_start v slot)) l ->
  exists any' d', mbr_slots false l (true, any) d = (Some (true, any'), d') /\ steady v n d'.
Proof.
  induction l as [|o l IH]; intros n d any H Hl Hs; cbn [mbr_slots]; [by exists any, d|]. apply Forall_cons in Hl as [Ho Hl], Hs as [Hso Hs].
  destruct (slot_live n d o any H Ho Hso) as (any2 & d2 & E2 & S2). erewrite bind_some by exact E2. by apply IH.
Qed.

(** The checks pass; the first partition is marked active if none was. *)
Lemma check_mbr_live d : steady v 0 d -> exists w n d', check_mbr false d = (Some true, d') /\ (n <= 1)%nat /\ steady w n d'.
Proof.
  intros H. unfold check_mbr. destruct (steady_read v 0 d 510 2 H) as (d2 & E2 & S2); [lia|lia|lia|]. erewrite bind_some by exact E2.
  assert (le_val (slice v 510 2) = 0xaa55) as Hsig.
  { change (slice v 510 2) with [v 510; v 511]. destruct (pm_signature v Hv) as [-> ->]. done. }
  rewrite Hsig. cbn [negb andb Z.eqb Pos.eqb]. erewrite bind_some by reflexivity.
  destruct (slots_live [446; 462; 478; 494] 0 d2 false S2) as (any & d3 & E3 & S3); [repeat constructor; lia|apply Hv|].
  erewrite bind_some by exact E3. cbn iota beta.
  destruct (validate_live 0 d3 S3) as (d4 & E4 & S4). erewrite bind_some by exact E4. destruct any; cbn [andb negb].
  - exists v, 0%nat, d4. split_and!; [done|lia|done].
  - destruct (steady_write v 0 d4 [0x80] 446 S4) as (d5 & E5 & S5); [unfold UNINSTALL_DATA_MAX; lia|done|lia|cbn; lia|].
    erewrite bind_some by exact E5. eexists _, 1%nat, d5. split_and!; [done|lia|exact S5].
Qed.
End Live.

Lemma not_nil (l : list Z) : (0 < length l)%nat -> l <> [].
Proof. by destruct l; cbn; [lia|]. Qed.

Lemma stages_live img w n d : 512 < Z.of_nat (length img) -> Z.of_nat (length img) - 512 <= 63 * 512 - 4096 -> (n <= 1)%nat -> steady w n d ->
  exists w' n' d', write_stages img 4096 (63 * 512 - 4096) d = (Some tt, d') /\ steady w' n' d'.
Proof.
  intros H0 H1 Hn H. unfold write_stages. destruct (steady_read w n d 218 6 H) as (d2 & E2 & S2); [lia|lia|lia|]. erewrite bind_some by exact E2.
  destruct (steady_read w n d2 440 70 S2) as (d3 & E3 & S3); [lia|lia|lia|]. erewrite bind_some by exact E3.
  unfold require. rewrite wrap_small by lia. rewrite (proj2 (Z.ltb_ge _ _)) by lia. cbn [negb]. erewrite bind_some by reflexivity.
  assert (forall loc count, 0 < count -> slice w loc count <> [] /\ Z.of_nat (length (slice w loc count)) = count) as Hsl.
  { intros loc count Hc. assert (Z.of_nat (length (slice w loc count)) = count) by (unfold slice; rewrite length_fmap, length_seqZ; lia).
    split; [apply not_nil; lia|done]. }
  destruct (Hsl 218 6 ltac:(lia)) as [N1 L1]. destruct (Hsl 440 70 ltac:(lia)) as [N2 L2].
  eapply (steady_write _ _ _ (take 512 img) 0) in S3 as (d4 & E4 & S4);
    [|unfold UNINSTALL_DATA_MAX; lia|apply not_nil; rewrite length_take; lia|lia|rewrite length_take; lia]. erewrite bind_some by exact E4.
  eapply (steady_write _ _ _ (drop 512 img) 4096) in S4 as (d5 & E5 & S5);
    [|unfold UNINSTALL_DATA_MAX; lia|apply not_nil; rewrite length_drop; lia|lia|rewrite length_drop; lia]. erewrite bind_some by exact E5.
  eapply (steady_write _ _ _ (le_bytes 8 4096) 0x1a4) in S5 as (d6 & E6 & S6);
    [|unfold UNINSTALL_DATA_MAX; lia|done|lia|rewrite length_le_bytes; lia]. erewrite bind_some by exact E6.
  eapply (steady_write _ _ _ (slice w 218 6) 218) in S6 as (d7 & E7 & S7); [|unfold UNINSTALL_DATA_MAX; lia|done|lia|lia]. erewrite bind_some by exact E7.
  eapply (steady_write _ _ _ (slice w 440 70) 440) in S7 as (d8 & E8 & S8); [|unfold UNINSTALL_DATA_MAX; lia|done|lia|lia]. erewrite bind_some by exact E8.
  destruct (flush_spec d8 (st_sound _ _ _ S8)) as (d9 & E9 & M9 & _). eexists _, _, d9. split; [done|]. by eapply steady_moved.
Qed.

Lemma store_live l : Forall (fun e => snd e <> []) l -> is_Some (store_entries l).
Proof.
  induction 1 as [|[loc data] l Hne Hl [f IH]]; cbn [store_entries]; [done|]. unfold store_entry. cbn [snd fst] in *.
  destruct (length data =? 0)%nat eqn:E; bool_hyps; [destruct Hne; by apply nil_length_inv|]. cbn [mbind option_bind]. rewrite IH. by eexists.
Qed.

(** C19.  An installation that has nothing to object to succeeds.  On a device of at
    least 63 sectors with a boot signature and no protective entry, whose MBR
    entries have valid flags and start at sector 63 or above, and whose boot
    sector names none of the file systems the tool recognises, [bios-install]
    with an image that fits below sector 63 returns success, and leaves the
    uninstall data if it was asked for and the host can store it. *)
Theorem bios_install_succeeds img can_store o d :
  fresh d -> 63 * 512 <= size d -> plain_mbr (medium d) -> o_force o = false ->
  512 < Z.of_nat (length img) -> Z.of_nat (length img) - 512 <= 63 * 512 - 4096 ->
  (o_uninstall_file o = true -> can_store = true) ->
  exists file d', bios_install img can_store o d = (Some (true, file), d') /\ (o_uninstall_file o = true -> is_Some file).
Proof.
  intros Hf Hsz Hv Ho Hi1 Hi2 Hcs. unfold bios_install. pose proof (init_spec d Hf) as Hi.
  destruct (device_init d) as [[[]|] d1] eqn:Ei.
  2: { exfalso. unfold device_init in Ei. cbn [device_init_guesses] in Ei. destruct (guess_spec d 0 512 (fr_io d Hf)) as (e2 & Ee2 & _).
       erewrite bind_some in Ei by (apply attempt_eq; exact Ee2). rewrite (proj2 (Z.leb_le _ _)) in Ei; [done|lia]. }
  erewrite bind_some by exact Ei. destruct (init_block d d1 Hf Ei) as [_ Hblk]. destruct Hi as (J & Hd & Hs & Hm & Hlog).
  assert (steady (medium d) 0 d1) as S1.
  { split; [apply J|apply J|done|lia| |by rewrite Hlog|by rewrite Hlog]. intros a. rewrite clean_view by (done || apply J). by rewrite Hm. }
  destruct (locate_live (medium d) Hv 0 d1 S1) as (d2 & E2 & S2). destruct (check_mbr_live (medium d) Hv d2 S2) as (w & n & d3 & E3 & Hn & S3).
  destruct (stages_live img w n d3 Hi1 Hi2 Hn S3) as (w' & n' & d4 & E4 & S4).
  assert (install img o d1 = (Some tt, d4)) as E.
  { assert (prepare o d1 = (Some (4096, 63 * 512 - 4096), d3)) as Ep.
    { unfold prepare. erewrite bind_some by exact E2. cbv iota beta. erewrite bind_some by reflexivity. cbv iota beta. rewrite Ho.
      erewrite bind_some by exact E3. by erewrite bind_some by reflexivity. }
    unfold install. erewrite bind_some by exact Ep. exact E4. }
  erewrite bind_some by (apply attempt_eq; exact E). do 2 (erewrite bind_some by reflexivity). cbn [uninstall_data set_uninstall_data].
  destruct (store_live (rev (uninstall_data d4))) as [f Hst]; [apply Forall_rev, S4|].
  destruct (o_uninstall_file o); cbn [andb].
  - rewrite Hcs by done. unfold store_uninstall_data. rewrite Hst. cbn [mbind option_bind]. eexists _, _. split; [reflexivity|done].
  - eexists _, _. split; [reflexivity|done].
Qed.

Lemma demo_plain : plain_mbr demo_disk.
Proof.
  split; try by vm_compute. repeat (apply Forall_cons; split; [split_and!; [by left|by vm_compute|by vm_compute]|]). apply Forall_nil. done.
Qed.

Lemma bios_install_succeeds_witness :
  exists file d', bios_install (demo_img 1536) true demo_options demo_device = (Some (true, file), d') /\ (true = true -> is_Some file).
Proof.
  apply (bios_install_succeeds (demo_img 1536) true demo_options demo_device (device_of_fresh demo_disk (64 * 512) ltac:(lia)));
    [vm_compute; discriminate|exact demo_plain|reflexivity|vm_compute; reflexivity|vm_compute; discriminate|reflexivity].
Defined.
