(* ===== verification/HostEnroll.v ===== *)
(** * The host tool: enrolling the checksum of the configuration

    [enroll_config] of [host/limine.c]: the executable of the boot loader holds a
    marker followed by 128 characters, which the tool replaces.  The loop is the
    source's search, which goes back when a partial match fails. *)

From S2P Require Import Prelude CInt Libc.

Definition CONFIG_B2SUM_SIGNATURE : list Z := bytes "++CONFIG_B2SUM_SIGNATURE++".

Definition is_hex (c : Z) : bool :=
  ((48 <=? c) && (c <=? 57)) || ((97 <=? c) && (c <=? 102)) || ((65 <=? c) && (c <=? 70)).

(** One turn of the search; the state is the index and the characters matched. *)
Definition search_body (bootloader : list Z) (s : nat * nat) : res (nat * nat + option nat) :=
  let '(i, checked_count) := s in
  if (i + 128 <? length bootloader)%nat then
    let! c := rd bootloader i in
    let! m := rd CONFIG_B2SUM_SIGNATURE checked_count in
    if negb (c =? m) then
      Ok (inl (if (0 <? checked_count)%nat then (i - checked_count + 1, 0) else (i + 1, checked_count))%nat)
    else if (checked_count + 1 =? length CONFIG_B2SUM_SIGNATURE)%nat then Ok (inr (Some (i + 1)%nat))
    else Ok (inl (i + 1, checked_count + 1)%nat)
  else Ok (inr None).

Definition search_variant (bootloader : list Z) (s : nat * nat) : Z :=
  let '(i, checked_count) := s in
  (Z.of_nat (length bootloader) - (Z.of_nat i - Z.of_nat checked_count)) * 27 - Z.of_nat checked_count.

Definition search (bootloader : list Z) : res (option nat) := loop (search_body bootloader) (search_variant bootloader) (0, 0)%nat.

(** The new contents of the executable; [None] is [--reset], a failure leaves
    the file as it is. *)
Definition enroll_config (hash : option (list Z)) (bootloader : list Z) : res (option (list Z)) :=
  if match hash with Some h => negb (length h =? 128)%nat || negb (forallb is_hex h) | None => false end then Ok None
  else if (length bootloader <? length CONFIG_B2SUM_SIGNATURE + 128)%nat then Ok None
  else
    let! loc := search bootloader in
    match loc with
    | None => Ok None
    | Some loc => Ok (Some (buf_write bootloader loc (match hash with Some h => h | None => replicate 128 48 end)))
    end.

(** ** What the search finds *)
Definition marker_at (file : list Z) (s : nat) : Prop :=
  take 26 (drop s file) = CONFIG_B2SUM_SIGNATURE /\ (s + 26 + 128 <= length file)%nat.

(** The first marker with room for a checksum. *)
Definition first_marker (file : list Z) (s : nat) : Prop := marker_at file s /\ forall s', (s' < s)%nat -> ~ marker_at file s'.

Record searching (file : list Z) (st : nat * nat) : Prop := {
  se_pos : (st.2 <= st.1)%nat;
  se_short : (st.2 < 26)%nat;
  se_prefix : forall k, (k < st.2)%nat -> file !! (st.1 - st.2 + k)%nat = CONFIG_B2SUM_SIGNATURE !! k;
  se_none : forall s, (s < st.1 - st.2)%nat -> ~ marker_at file s;
  se_bound : (st.1 - st.2 <= length file)%nat;
}.

Lemma marker_lookup file s k : marker_at file s -> (k < 26)%nat -> file !! (s + k)%nat = CONFIG_B2SUM_SIGNATURE !! k.
Proof. intros [Hm _] Hk. rewrite <- Hm, lookup_take_lt, lookup_drop by done. done. Qed.

Lemma marker_intro file s : (forall k, (k < 26)%nat -> file !! (s + k)%nat = CONFIG_B2SUM_SIGNATURE !! k) -> (s + 26 + 128 <= length file)%nat -> marker_at file s.
Proof.
  intros Hk Hl. split; [|done]. apply list_eq. intros k. destruct (decide (k < 26)%nat) as [Hlt|Hge].
  - rewrite lookup_take_lt, lookup_drop by done. by apply Hk.
  - rewrite !lookup_ge_None_2; [done|change (length CONFIG_B2SUM_SIGNATURE) with 26%nat; lia|rewrite length_take; lia].
Qed.

Lemma search_turn file st : searching file st ->
  turn_ok (search_body file) (searching file) (search_variant file)
    (fun r => match r with Some loc => (26 <= loc)%nat /\ first_marker file (loc - 26) | None => forall s, ~ marker_at file s end) no_panic st.
Proof.
  destruct st as [i c]. intros [H1 H2 H3 H4 H5]. cbn [fst snd] in *. unfold turn_ok, search_body.
  destruct (i + 128 <? length file)%nat eqn:Hb; bool_hyps.
  2: { cbn. intros s Hm. destruct (decide (s < i - c)%nat); [by apply (H4 s)|]. destruct Hm as [_ Hl]. lia. }
  destruct (lookup_lt_is_Some_2 file i ltac:(lia)) as [x Hx]. rewrite (rd_lookup _ _ _ Hx).
  destruct (lookup_lt_is_Some_2 CONFIG_B2SUM_SIGNATURE c ltac:(exact H2)) as [m Hm]. rewrite (rd_lookup _ _ _ Hm). cbn [rbind].
  assert (x <> m -> forall s, (s < i - c + 1)%nat -> ~ marker_at file s) as Hnext.
  { intros Hne s Hs Hma. destruct (decide (s < i - c)%nat); [by apply (H4 s)|]. assert (s = i - c)%nat as -> by lia.
    pose proof (marker_lookup file (i - c) c Hma H2) as Hk. replace (i - c + c)%nat with i in Hk by lia. congruence. }
  destruct (Z.eqb_spec x m) as [->|Hne]; cbn [negb].
  - assert (forall k, (k < c + 1)%nat -> file !! (i - c + k)%nat = CONFIG_B2SUM_SIGNATURE !! k) as Hpre.
    { intros k Hk. destruct (decide (k < c)%nat); [by apply H3|]. assert (k = c) as -> by lia. replace (i - c + c)%nat with i by lia. congruence. }
    change (length CONFIG_B2SUM_SIGNATURE) with 26%nat. destruct (c + 1 =? 26)%nat eqn:Hc; bool_hyps; cbn.
    + split; [lia|]. replace (i + 1 - 26)%nat with (i - c)%nat by lia. split; [|done]. apply marker_intro; [|lia]. intros k Hk. apply Hpre. lia.
    + split; [|lia]. split; cbn; [lia|lia| | |lia].
      * intros k Hk. replace (i + 1 - (c + 1))%nat with (i - c)%nat by lia. by apply Hpre.
      * replace (i + 1 - (c + 1))%nat with (i - c)%nat by lia. done.
  - destruct (0 <? c)%nat eqn:Hc; bool_hyps; cbn.
    + split; [|lia]. split; cbn; [lia|lia|intros; lia| |lia]. rewrite Nat.sub_0_r. by apply Hnext.
    + assert (c = 0)%nat as -> by lia. split; [|lia]. split; cbn; [lia|lia|intros; lia| |lia]. rewrite Nat.sub_0_r in *. by apply Hnext.
Qed.

Lemma host_search_spec file :
  res_post (fun r => match r with Some loc => (26 <= loc)%nat /\ first_marker file (loc - 26) | None => forall s, ~ marker_at file s end) no_panic (search file).
Proof.
  unfold search. eapply (loop_spec _ (searching file)); [apply search_turn| |cbn; lia].
  split; cbn; [lia|lia|intros; lia|intros; lia|lia].
Qed.

(** Replacing the checksum does not move the marker. *)
Lemma marker_stays file s text : length text = 128%nat -> first_marker file s -> first_marker (buf_write file (s + 26) text) s.
Proof.
  intros Ht [Hm Hno]. assert (s + 26 + 128 <= length file)%nat as Hl by apply Hm.
  assert (length (buf_write file (s + 26) text) = length file) as Hlen by (apply length_buf_write; lia).
  assert (forall k, (k < s + 26)%nat -> buf_write file (s + 26) text !! k = file !! k) as Hk.
  { intros k Hk. unfold buf_write. rewrite lookup_app_l by (rewrite length_take; lia). by apply lookup_take_lt. }
  split.
  - apply marker_intro; [|lia]. intros k Hlt. rewrite Hk by lia. by apply marker_lookup.
  - intros s' Hs' Hm'. apply (Hno s' Hs'). apply marker_intro; [|lia]. intros k Hlt. rewrite <- Hk by lia. by apply marker_lookup.
Qed.

(** C31.  Enrolling a checksum.  [enroll_config] terminates on every file and never
    reads outside it.  It changes the file if and only if the checksum consists
    of 128 hexadecimal digits (or is to be reset) and the file contains the
    marker with room for a checksum after it; then exactly the 128 characters
    after the first such marker are replaced, by the checksum or by zeros, and a
    second enrolment finds the same place, so the last checksum enrolled is the
    one in the file. *)
Theorem enroll_config_correct hash file :
  let valid := match hash with Some h => length h = 128%nat /\ Forall (fun c => is_hex c = true) h | None => True end in
  let text := match hash with Some h => h | None => replicate 128 48 end in
  exists r, enroll_config hash file = Ok r /\
    match r with
    | Some file' => valid /\ exists s, first_marker file s /\ file' = buf_write file (s + 26) text /\ first_marker file' s
    | None => ~ (valid /\ exists s, marker_at file s)
    end.
Proof.
  cbv zeta. unfold enroll_config.
  destruct (match hash with Some h => negb (length h =? 128)%nat || negb (forallb is_hex h) | None => false end) eqn:Hh.
  { exists None. split; [done|]. intros [Hv _]. destruct hash as [h|]; [|done]. destruct Hv as [Hl Hf]. rewrite Hl in Hh. cbn in Hh.
    apply negb_true_iff, not_true_iff_false in Hh. apply Hh. apply forallb_forall. rewrite Forall_forall in Hf. intros x Hx. by apply Hf, list_elem_of_In. }
  assert (match hash with Some h => length h = 128%nat /\ Forall (fun c => is_hex c = true) h | None => True end) as Hvalid.
  { destruct hash as [h|]; [|done]. bool_hyps. split; [done|]. apply Forall_forall. intros x Hx. rewrite forallb_forall in *. 
    match goal with H : forall x, _ -> is_hex x = true |- _ => by apply H, list_elem_of_In end. }
  change (length CONFIG_B2SUM_SIGNATURE) with 26%nat. destruct (length file <? 26 + 128)%nat eqn:Hl; bool_hyps.
  { exists None. split; [done|]. intros [_ (s & _ & Hs)]. lia. }
  pose proof (host_search_spec file) as Hs. destruct (search file) as [[loc|]| | |]; cbn in Hs; try done; cbn [rbind].
  - eexists. split; [reflexivity|]. split; [done|]. destruct Hs as [Hge Hs]. exists (loc - 26)%nat.
    replace (loc - 26 + 26)%nat with loc by lia. split_and!; [done|done|]. replace loc with (loc - 26 + 26)%nat at 1 by lia.
    apply marker_stays; [|done]. destruct hash; [apply Hvalid|done].
  - exists None. split; [done|]. intros [_ [s Hm]]. by apply (Hs s).
Qed.
