(* ===== verification/Mtrr.v ===== *)
(** * Memory type range registers

    [common/mm/mtrr.c]: saving and restoring the MTRRs, and marking a
    framebuffer as write-combining with free variable-range registers.  The
    model-specific registers are a function from their number; writing one
    stores the value.  Cache and TLB flushes and the caching bits of [cr0], which
    the code sets around its writes, do not show in the registers. *)

From S2P Require Import Prelude CInt.

Record cpu := MkCpu { msr : Z -> Z; saved_mtrrs : option (list Z) }.

Definition wrmsr (r x : Z) (m : Z -> Z) : Z -> Z := fun n => if n =? r then x else m n.

Definition FIXED : list Z := [0x250; 0x258; 0x259; 0x268; 0x269; 0x26a; 0x26b; 0x26c; 0x26d; 0x26e; 0x26f].

Definition var_reg_count (m : Z -> Z) : Z := Z.land (m 0xfe) 0xff.
Definition fix_supported (m : Z -> Z) : bool := Z.testbit (m 0xfe) 8.

(** [cpuid]: whether there are MTRRs, and [eax] of leaf [0x80000008]. *)
Section Mtrr.
Variable mtrr_supported : bool.
Variable cpuid_sizes : option Z.

Definition mtrr_save (s : cpu) : cpu :=
  match saved_mtrrs s with
  | Some _ => s
  | None =>
      if negb mtrr_supported then s
      else
        let n := var_reg_count (msr s) in
        let variable := map (fun i => msr s (0x200 + i)) (seqZ 0 (2 * n)) in
        let fixed := if fix_supported (msr s) then map (msr s) FIXED else replicate 11 0 in
        MkCpu (msr s) (Some (variable ++ fixed ++ [msr s 0x2ff]))
  end.

(** [wrmsr] of consecutive entries of the saved array. *)
Fixpoint restore_regs (regs : list Z) (saved : list Z) (i : nat) (m : Z -> Z) : res (Z -> Z) :=
  match regs with
  | [] => Ok m
  | r :: regs => let! x := rd saved i in restore_regs regs saved (S i) (wrmsr r x m)
  end.

Definition mtrr_restore (s : cpu) : res cpu :=
  if negb mtrr_supported then Ok s
  else
    let n := var_reg_count (msr s) in
    let fix_ := fix_supported (msr s) in
    match saved_mtrrs s with
    | None => Ok s
    | Some saved =>
        let m := wrmsr 0x2ff (Z.ldiff (msr s 0x2ff) (Z.shiftl 1 11)) (msr s) in
        let! m := restore_regs (map (fun i => 0x200 + i) (seqZ 0 (2 * n))) saved 0 m in
        let! m := (if fix_ then restore_regs FIXED saved (Z.to_nat (2 * n)) m else Ok m) in
        let! m := restore_regs [0x2ff] saved (Z.to_nat (2 * n) + 11) m in
        Ok (MkCpu m (Some saved))
    end.

(** ** Write combining *)
Definition MTRR_TYPE_WC : Z := 1.

Definition enabled (m : Z -> Z) (i : Z) : bool := Z.testbit (m (0x200 + i * 2 + 1)) 11.

Fixpoint free_slot (n : nat) (i : Z) (m : Z -> Z) : option Z :=
  match n with
  | O => None
  | S n => if negb (enabled m i) then Some i else free_slot n (i + 1) m
  end.

Definition wc_add_mtrr (base size type maxphysaddr count : Z) (m : Z -> Z) : option (Z -> Z) :=
  match free_slot (Z.to_nat count) 0 m with
  | None => None
  | Some slot =>
      let mask := Z.land (Z.shiftl 1 maxphysaddr - 1) (u64 (Z.lnot (size - 1))) in
      Some (wrmsr (0x200 + slot * 2 + 1) (Z.lor mask (Z.shiftl 1 11)) (wrmsr (0x200 + slot * 2) (Z.lor base type) m))
  end.

Fixpoint ctz_pos (p : positive) : Z := match p with xO p => 1 + ctz_pos p | _ => 0 end.
Definition ctzll (x : Z) : Z := match x with Zpos p => ctz_pos p | _ => 0 end.

(** The size of the next block: as aligned as [base] is, at most [span]. *)
Definition chunk_size (base span : Z) : Z :=
  let align_k := if negb (base =? 0) then Z.shiftl 1 (ctzll base) else span in
  let size_k := Z.shiftl 1 (Z.log2 span) in
  if align_k <? size_k then align_k else size_k.

Definition chunks_body (type maxphysaddr count : Z) (s : Z * Z * (Z -> Z)) : res (Z * Z * (Z -> Z) + bool * (Z -> Z)) :=
  let '(base, span, m) := s in
  if span <=? 0 then Ok (inr (true, m))
  else
    let k := chunk_size base span in
    match wc_add_mtrr base k type maxphysaddr count m with
    | None => Ok (inr (false, m))
    | Some m => Ok (inl (u64 (base + k), span - k, m))
    end.

Definition wc_add_chunks (base span type maxphysaddr count : Z) (m : Z -> Z) : res (bool * (Z -> Z)) :=
  loop (chunks_body type maxphysaddr count) (fun '(_, span, _) => span) (base, span, m).

(** Some page from [base] to [end_] is already in a range that is in use. *)
Definition range_taken (base end_ : Z) (m : Z -> Z) (i : Z) : bool :=
  enabled m i &&
  let exist_mask := Z.ldiff (m (0x200 + i * 2 + 1)) 0xfff in
  let exist_base := Z.ldiff (m (0x200 + i * 2)) 0xfff in
  existsb (fun k => Z.land (base + k * 0x1000) exist_mask =? Z.land exist_base exist_mask) (seqZ 0 ((end_ - base) / 0x1000)).

Definition mtrr_wc_add_fb_range (base size : Z) (s : cpu) : res (bool * cpu) :=
  if (size =? 0) || negb mtrr_supported then Ok (false, s)
  else if negb (Z.testbit (msr s 0xfe) 10) then Ok (false, s)
  else
    let count := var_reg_count (msr s) in
    match cpuid_sizes with
    | None => Ok (false, s)
    | Some eax =>
        let maxphysaddr := Z.land eax 0xff in
        if (maxphysaddr <? 32) || (52 <? maxphysaddr) then Ok (false, s)
        else
          match (top ← CHECKED_ADD base size; ALIGN_UP top 0x1000) with
          | None => Ok (false, s)
          | Some end_ =>
              let base := Z.ldiff base 0xfff in
              let size := end_ - base in
              if existsb (range_taken base end_ (msr s)) (seqZ 0 count) then Ok (false, s)
              else
                let s := mtrr_save s in
                let mtrr_def := msr s 0x2ff in
                let m := wrmsr 0x2ff (Z.ldiff mtrr_def (Z.shiftl 1 11)) (msr s) in
                let! (ok, m) := wc_add_chunks base size MTRR_TYPE_WC maxphysaddr count m in
                Ok (ok, MkCpu (wrmsr 0x2ff mtrr_def m) (saved_mtrrs s))
          end
    end.

(** [common/lib/fb.c], [fb_init], where MTRRs are in charge of the caching of
    the framebuffers (their addresses, pitches and heights): write combining on
    for the time it takes to clear them, or, with [keep_wc], left on. *)
Fixpoint fb_map_wc (fbs : list (Z * Z * Z)) (s : cpu) : res cpu :=
  match fbs with
  | [] => Ok s
  | (addr, pitch, height) :: fbs =>
      match CHECKED_MUL pitch height with
      | None => fb_map_wc fbs s
      | Some fb_size =>
          if fb_size =? 0 then fb_map_wc fbs s
          else let! (_, s) := mtrr_wc_add_fb_range addr fb_size s in fb_map_wc fbs s
      end
  end.

Definition fb_init_caching (keep_wc preserve_screen : bool) (fbs : list (Z * Z * Z)) (s : cpu) : res cpu :=
  let want_wc := keep_wc || negb preserve_screen in
  let! s := (if want_wc then fb_map_wc fbs s else Ok s) in
  if want_wc && negb keep_wc then mtrr_restore s else Ok s.
End Mtrr.
