(* ===== verification/MtrrProps.v ===== *)
(** * Theorems on the memory type range registers *)

From S2P Require Import Prelude CInt Mtrr.

(** ** What the processor makes of the variable-range registers

    A register that is enabled gives its type to the physical addresses that
    agree with its base under its mask (Intel SDM volume 3, section 13.11.2.3). *)
Definition mask_of (m : Z -> Z) (i : Z) : Z := Z.ldiff (m (0x200 + i * 2 + 1)) 0xfff.

Definition hit (m : Z -> Z) (i a : Z) : Prop := enabled m i = true /\ Z.land a (mask_of m i) = Z.land (m (0x200 + i * 2)) (mask_of m i).

(** The types the variable-range registers give to [a]. *)
Definition has_memory_type (m : Z -> Z) (a t : Z) : Prop :=
  exists i, 0 <= i < var_reg_count m /\ hit m i a /\ t = Z.land (m (0x200 + i * 2)) 0xff.

(** ** The blocks *)
Lemma ctz_pos_spec p : exists q, 0 <= q /\ Zpos p = 2 ^ ctz_pos p * (2 * q + 1) /\ 0 <= ctz_pos p.
Proof.
  induction p as [p IH|p IH|]; cbn [ctz_pos].
  - exists (Zpos p). lia.
  - destruct IH as (q & Hq & E & Hc). exists q. split_and!; [done| |lia]. rewrite Z.pow_add_r by lia. lia.
  - exists 0. lia.
Qed.

Lemma ctz_spec x : 0 < x -> (2 ^ ctzll x | x) /\ 0 <= ctzll x /\ forall n, 0 <= n -> (2 ^ n | x) -> n <= ctzll x.
Proof.
  intros Hx. destruct x as [|p|p]; try lia. cbn [ctzll]. destruct (ctz_pos_spec p) as (q & Hq & E & Hc). split_and!; [rewrite E; by eexists; rewrite Z.mul_comm|done|].
  intros n Hn [c Hd]. apply Z.nlt_ge. intros Hlt. rewrite E in Hd.
  replace (2 ^ n) with (2 ^ ctz_pos p * 2 * 2 ^ (n - ctz_pos p - 1)) in Hd.
  2: { replace n with (ctz_pos p + (1 + (n - ctz_pos p - 1))) at 2 by lia. rewrite !Z.pow_add_r by lia. lia. }
  assert (0 < 2 ^ ctz_pos p) as Hpos by (apply Z.pow_pos_nonneg; lia). set (y := 2 ^ (n - ctz_pos p - 1)) in *.
  assert (2 * q + 1 = 2 * (c * y)) by (apply (Z.mul_reg_l _ _ (2 ^ ctz_pos p)); [lia|rewrite Hd; ring]). lia.
Qed.

(** A block is a power of two of at least a page, aligned and within the span. *)
Lemma chunk_size_spec base span : 0 <= base -> 0 < span -> base mod 4096 = 0 -> span mod 4096 = 0 ->
  exists e, 12 <= e /\ chunk_size base span = 2 ^ e /\ (2 ^ e | base) /\ 2 ^ e <= span.
Proof.
  intros Hb Hs Hbm Hsm. pose proof (Z.log2_spec span Hs) as [Hl1 Hl2]. pose proof (Z.log2_nonneg span).
  assert (4096 <= span) as Hs4 by (pose proof (Z.div_mod span 4096 ltac:(lia)); nia).
  assert (12 <= Z.log2 span) as Hl by (apply Z.log2_le_pow2; lia).
  unfold chunk_size. destruct (Z.eqb_spec base 0) as [->|Hne]; cbn [negb].
  - rewrite Z.shiftl_1_l. rewrite (proj2 (Z.ltb_ge _ _)) by lia. exists (Z.log2 span). split_and!; [done|done|apply Z.divide_0_r|done].
  - destruct (ctz_spec base ltac:(lia)) as (Hd & Hc & Hmax).
    assert (12 <= ctzll base) as Hc12 by (apply Hmax; [lia|]; by apply Z.mod_divide).
    rewrite !Z.shiftl_1_l. destruct (Z.ltb_spec (2 ^ ctzll base) (2 ^ Z.log2 span)) as [Hlt|Hge].
    + exists (ctzll base). split_and!; [done|done|done|lia].
    + exists (Z.log2 span). split_and!; [done|done| |done]. apply Z.pow_le_mono_r_iff in Hge; [|lia|lia].
      eapply Z.divide_trans; [|exact Hd]. exists (2 ^ (ctzll base - Z.log2 span)). rewrite <- Z.pow_add_r by lia. f_equal. lia.
Qed.

(** ** One register *)
Definition new_mask (k mpa : Z) : Z := Z.lor (Z.land (Z.shiftl 1 mpa - 1) (u64 (Z.lnot (k - 1)))) (Z.shiftl 1 11).

Lemma ones_sub n : 0 <= n -> Z.shiftl 1 n - 1 = Z.ones n.
Proof. intros. rewrite Z.shiftl_1_l, Z.ones_equiv. lia. Qed.

Lemma new_mask_bits e mpa : 12 <= e -> 0 <= mpa <= 52 ->
  Z.ldiff (new_mask (2 ^ e) mpa) 0xfff = Z.ldiff (Z.ones mpa) (Z.ones e).
Proof.
  intros He Hm. unfold new_mask, wrap. change 0xfff with (Z.ones 12). rewrite ones_sub by lia.
  replace (2 ^ e - 1) with (Z.ones e) by (rewrite Z.ones_equiv; lia). rewrite <- Z.land_ones by lia.
  apply Z.bits_inj'. intros n Hn. rewrite !Z.ldiff_spec, Z.lor_spec, !Z.land_spec, Z.lnot_spec by lia.
  rewrite !Z.testbit_ones_nonneg by lia. rewrite Z.shiftl_1_l, Z.pow2_bits_eqb by lia.
  destruct (Z.ltb_spec n mpa), (Z.ltb_spec n e), (Z.ltb_spec n 64), (Z.ltb_spec n 12); cbn [negb andb orb]; rewrite ?andb_false_r, ?andb_true_r, ?orb_false_r; try done; try lia.
  all: destruct (Z.eqb_spec 11 n); try lia; try done.
Qed.

(** Under such a mask an address shows which block it is in. *)
Lemma land_block e mpa x : 12 <= e -> 0 <= mpa -> 0 <= x < 2 ^ mpa -> Z.land x (Z.ldiff (Z.ones mpa) (Z.ones e)) = x / 2 ^ e * 2 ^ e.
Proof.
  intros He Hm Hx. rewrite <- Z.shiftl_mul_pow2, <- Z.shiftr_div_pow2, <- Z.ldiff_ones_r by lia.
  apply Z.bits_inj'. intros n Hn. rewrite Z.land_spec, !Z.ldiff_spec, !Z.testbit_ones_nonneg by lia.
  destruct (Z.ltb_spec n mpa) as [|Hge]; cbn [andb]; [done|]. rewrite andb_false_r. symmetry. apply andb_false_iff. left.
  rewrite <- (Z.mod_small x (2 ^ mpa)) by done. by apply Z.mod_pow2_bits_high.
Qed.

Lemma hit_block m i e mpa c : 12 <= e -> 0 <= mpa <= 52 -> 0 <= c -> (2 ^ e | c) -> c + 2 ^ e <= 2 ^ mpa ->
  m (0x200 + i * 2) = Z.lor c MTRR_TYPE_WC -> m (0x200 + i * 2 + 1) = new_mask (2 ^ e) mpa ->
  enabled m i = true /\ Z.land (m (0x200 + i * 2)) 0xff = MTRR_TYPE_WC /\ forall a, 0 <= a < 2 ^ mpa -> hit m i a <-> c <= a < c + 2 ^ e.
Proof.
  intros He Hm Hc Hd Hfit Hb Hk. assert (0 < 2 ^ e) as Hpe by (apply Z.pow_pos_nonneg; lia).
  assert (exists j, c = j * 4096 /\ 0 <= j) as (j & Hj & Hj0).
  { destruct Hd as [q Hq]. exists (q * 2 ^ (e - 12)). replace (2 ^ e) with (2 ^ (e - 12) * 2 ^ 12) in Hq by (rewrite <- Z.pow_add_r by lia; f_equal; lia). 
    assert (0 < 2 ^ (e - 12)) by (apply Z.pow_pos_nonneg; lia). split; [rewrite Hq; change (2 ^ 12) with 4096; ring|nia]. }
  assert (Z.lor c MTRR_TYPE_WC = c + 1) as Hlor.
  { unfold MTRR_TYPE_WC. rewrite <- Z.add_lor_land. 
    assert (Z.land c 1 = 0) as ->; [|lia]. change 1 with (Z.ones 1). rewrite Z.land_ones by lia. rewrite Hj. apply Z.mod_divide; [lia|]. exists (j * 2048). lia. }
  assert (enabled m i = true) as Hen.
  { unfold enabled. rewrite Hk. unfold new_mask. rewrite Z.lor_spec, (Z.shiftl_1_l 11), Z.pow2_bits_true by lia. apply orb_true_r. }
  split_and!; [done| |].
  - rewrite Hb, Hlor. change 0xff with (Z.ones 8). rewrite Z.land_ones by lia. rewrite Hj. replace (j * 4096 + 1) with (1 + (j * 16) * 2 ^ 8) by lia.
    rewrite Z.mod_add by lia. done.
  - intros a Ha. unfold hit, mask_of. rewrite Hk, Hb, new_mask_bits by lia. rewrite Hlor. 
    assert (4096 <= 2 ^ e) by (change 4096 with (2 ^ 12); apply Z.pow_le_mono_r; lia).
    rewrite !land_block by lia.
    assert ((c + 1) / 2 ^ e * 2 ^ e = c) as ->.
    { destruct Hd as [q ->]. f_equal. symmetry. apply (Z.div_unique_pos _ _ _ 1); lia. }
    pose proof (Z.div_mod a (2 ^ e) ltac:(lia)). pose proof (Z.mod_pos_bound a (2 ^ e) Hpe). split; [intros [_ Hq]; lia|].
    intros Hr. split; [done|]. destruct Hd as [q Hq]. assert (a / 2 ^ e = q); [|congruence].
    symmetry. apply (Z.div_unique_pos _ _ _ (a - c)); lia.
Qed.

(** ** All the blocks *)
Section Add.
Variables mpa count : Z.
Hypothesis Hmpa : 0 <= mpa <= 52.

Lemma free_slot_spec n : forall i m s, free_slot n i m = Some s -> i <= s < i + Z.of_nat n /\ enabled m s = false.
Proof.
  induction n as [|n IH]; intros i m s; cbn [free_slot]; [done|]. destruct (enabled m i) eqn:E; cbn [negb]; intros H.
  - apply IH in H as [? ?]. split; [lia|done].
  - injection H as <-. split; [lia|done].
Qed.

(** Register [i], free in [m], now holds a block of [lo, hi). *)
Definition holds_block (m : Z -> Z) (lo hi i c e : Z) : Prop :=
  12 <= e /\ lo <= c /\ c + 2 ^ e <= hi /\ (2 ^ e | c) /\ m (0x200 + i * 2) = Z.lor c MTRR_TYPE_WC /\ m (0x200 + i * 2 + 1) = new_mask (2 ^ e) mpa.

Record added (m m' : Z -> Z) (lo hi : Z) : Prop := {
  ad_other : forall r, ~ (0x200 <= r < 0x200 + 2 * count) -> m' r = m r;
  ad_slots : forall i, 0 <= i < count ->
    (m' (0x200 + i * 2) = m (0x200 + i * 2) /\ m' (0x200 + i * 2 + 1) = m (0x200 + i * 2 + 1)) \/
    enabled m i = false /\ exists c e, holds_block m' lo hi i c e;
  ad_cover : forall a, lo <= a < hi -> exists i c e, 0 <= i < count /\ enabled m i = false /\ holds_block m' lo hi i c e /\ c <= a < c + 2 ^ e;
}.

Lemma added_refl m lo : added m m lo lo.
Proof. split; [done|intros; by left|intros; lia]. Qed.

Lemma added_step m m1 lo mid e m2 : 0 <= lo <= mid -> added m m1 lo mid -> 12 <= e -> (2 ^ e | mid) -> mid + 2 ^ e <= 2 ^ mpa ->
  wc_add_mtrr mid (2 ^ e) MTRR_TYPE_WC mpa count m1 = Some m2 -> added m m2 lo (mid + 2 ^ e).
Proof.
  intros Hlo [A B C] He Hd Hfit. unfold wc_add_mtrr. destruct (free_slot _ 0 m1) as [s|] eqn:Es; [|done]. intros [= <-].
  apply free_slot_spec in Es as [Hs Hen]. change (Z.lor (Z.land _ _) (Z.shiftl 1 11)) with (new_mask (2 ^ e) mpa).
  set (m2 := wrmsr _ _ _). assert (0 < 2 ^ e) as Hpe by (apply Z.pow_pos_nonneg; lia).
  assert (forall r, r <> 0x200 + s * 2 -> r <> 0x200 + s * 2 + 1 -> m2 r = m1 r) as Hother.
  { intros r H1 H2. unfold m2, wrmsr. by rewrite !(proj2 (Z.eqb_neq _ _)). }
  assert (holds_block m2 lo (mid + 2 ^ e) s mid e) as Hnew.
  { unfold holds_block, m2, wrmsr. split_and!; try done; try lia.
    - rewrite (proj2 (Z.eqb_neq (0x200 + s * 2) _)) by lia. by rewrite Z.eqb_refl.
    - by rewrite Z.eqb_refl. }
  assert (forall i c e', i <> s -> holds_block m1 lo mid i c e' -> holds_block m2 lo (mid + 2 ^ e) i c e') as Hkeep.
  { intros i c e' Hi (H1 & H2 & H3 & H4 & H5 & H6). unfold holds_block. rewrite !Hother by lia. split_and!; try done; lia. }
  assert (0 <= s < count) as Hsc by lia.
  assert (enabled m s = false) as Hfree.
  { destruct (B s Hsc) as [[_ E]|[E _]]; [|done]. unfold enabled in *. by rewrite <- E. }
  assert (forall i c e', 0 <= i < count -> holds_block m1 lo mid i c e' -> i <> s) as Hne.
  { intros i c e' Hi (_ & _ & _ & _ & _ & Hm) ->. unfold enabled in Hen. rewrite Hm in Hen. unfold new_mask in Hen.
    rewrite Z.lor_spec, (Z.shiftl_1_l 11), Z.pow2_bits_true in Hen by lia. by rewrite orb_true_r in Hen. }
  split.
  - intros r Hr. rewrite Hother by lia. by apply A.
  - intros i Hi. destruct (Z.eq_dec i s) as [->|Hns]; [right; split; [done|by exists mid, e]|].
    destruct (B i Hi) as [[E1 E2]|[E (c & e' & Hh)]]; [left; rewrite !Hother by lia; by split|right]. split; [done|]. exists c, e'. by apply Hkeep.
  - intros a Ha. destruct (decide (a < mid)) as [Hlt|Hge].
    + destruct (C a ltac:(lia)) as (i & c & e' & Hi & Hf & Hh & Hc). exists i, c, e'. split_and!; try done; try lia. apply Hkeep; [by eapply Hne|done].
    + exists s, mid, e. split_and!; try done; lia.
Qed.

Lemma chunks_spec m base span : 0 <= base -> 0 <= span -> base mod 4096 = 0 -> span mod 4096 = 0 -> base + span <= 2 ^ mpa ->
  res_post (fun '(ok, m') => exists hi, base <= hi <= base + span /\ added m m' base hi /\ (ok = true -> hi = base + span)) no_panic
    (wc_add_chunks base span MTRR_TYPE_WC mpa count m).
Proof.
  intros Hb Hs Hbm Hsm Hfit. unfold wc_add_chunks.
  assert (2 ^ mpa <= 2 ^ 52) by (apply Z.pow_le_mono_r; lia).
  apply (loop_spec _ (fun '(b, s, m1) => base <= b /\ 0 <= s /\ b + s = base + span /\ b mod 4096 = 0 /\ s mod 4096 = 0 /\ added m m1 base b)).
  - intros [[b s] m1] (H1 & H2 & H3 & H4 & H5 & H6). unfold turn_ok, chunks_body. destruct (Z.leb_spec s 0) as [Hz|Hz].
    { cbn. exists b. split_and!; [lia|lia|done|intros _; lia]. }
    destruct (chunk_size_spec b s ltac:(lia) Hz H4 H5) as (e & He & -> & Hd & Hle).
    destruct (wc_add_mtrr _ _ _ _ _ m1) as [m2|] eqn:Ew; [|cbn; exists b; split_and!; [lia|lia|done|done]].
    cbn [res_post]. assert (0 < 2 ^ e) by (apply Z.pow_pos_nonneg; lia). rewrite wrap_small by lia.
    assert (2 ^ e mod 4096 = 0) as Hem by (apply Z.mod_divide; [lia|]; exists (2 ^ (e - 12)); change 4096 with (2 ^ 12); rewrite <- Z.pow_add_r by lia; f_equal; lia).
    split; [|lia]. split_and!; try lia.
    + rewrite Z.add_mod, H4, Hem by lia. done.
    + rewrite Zminus_mod, H5, Hem. done.
    + eapply added_step; [lia|exact H6|done|done|lia|done].
  - split_and!; try done; try lia. apply added_refl.
  - done.
Qed.
End Add.

(** ** The whole operation *)
Definition phys_limit (cpuid_sizes : option Z) : Z := match cpuid_sizes with Some eax => 2 ^ Z.land eax 0xff | None => 2 ^ 52 end.
Definition page_floor (a : Z) : Z := a / 0x1000 * 0x1000.
Definition page_ceil (a : Z) : Z := (a + 0xfff) / 0x1000 * 0x1000.

Lemma var_reg_count_eq m m' : m' 0xfe = m 0xfe -> var_reg_count m' = var_reg_count m.
Proof. unfold var_reg_count. by intros ->. Qed.

Lemma var_reg_count_nonneg m : 0 <= var_reg_count m.
Proof. unfold var_reg_count. apply Z.land_nonneg. lia. Qed.

Lemma hit_ext m m' i a : m' (0x200 + i * 2) = m (0x200 + i * 2) -> m' (0x200 + i * 2 + 1) = m (0x200 + i * 2 + 1) -> hit m' i a <-> hit m i a.
Proof. unfold hit, enabled, mask_of. by intros -> ->. Qed.

Lemma ldiff_page a : Z.ldiff a 0xfff = page_floor a.
Proof. change 0xfff with (Z.ones 12). rewrite Z.ldiff_ones_r, Z.shiftl_mul_pow2, Z.shiftr_div_pow2 by lia. done. Qed.

(** The test of every page finds every register that has a say in the range. *)
Lemma land_page a x : Z.land a (Z.ldiff x 0xfff) = Z.land (page_floor a) (Z.ldiff x 0xfff).
Proof.
  rewrite <- ldiff_page. apply Z.bits_inj'. intros n Hn. rewrite !Z.land_spec, !Z.ldiff_spec.
  by destruct (Z.testbit a n), (Z.testbit x n), (Z.testbit 0xfff n).
Qed.

Lemma range_taken_spec lo hi m i a : lo mod 4096 = 0 -> hi mod 4096 = 0 -> range_taken lo hi m i = false -> lo <= a < hi -> ~ hit m i a.
Proof.
  intros Hlo Hhi Ht Ha [Hen Hm]. unfold range_taken in Ht. rewrite Hen in Ht. cbn [andb] in Ht.
  apply not_true_iff_false in Ht. apply Ht, existsb_exists. exists ((page_floor a - lo) / 0x1000).
  unfold page_floor. set (p := a / 0x1000). pose proof (Z.div_mod a 4096 ltac:(lia)). pose proof (Z.mod_pos_bound a 4096 ltac:(lia)).
  pose proof (Z.div_mod lo 4096 ltac:(lia)). pose proof (Z.div_mod hi 4096 ltac:(lia)). rewrite Hlo in *. rewrite Hhi in *.
  change 0x1000 with 4096 in *. fold p in H.
  assert ((p * 4096 - lo) / 4096 = p - lo / 4096) as -> by (symmetry; apply (Z.div_unique_pos _ _ _ 0); lia).
  assert ((hi - lo) / 4096 = hi / 4096 - lo / 4096) as -> by (symmetry; apply (Z.div_unique_pos _ _ _ 0); lia).
  split; [apply list_elem_of_In, elem_of_seqZ; lia|]. apply Z.eqb_eq.
  replace (lo + (p - lo / 4096) * 4096) with (page_floor a) by (unfold page_floor; fold p; lia).
  rewrite <- land_page. unfold mask_of in Hm. rewrite Hm, (ldiff_page (m (0x200 + i * 2))). apply land_page.
Qed.

(** What adding blocks means for the types of memory. *)
Section Types.
Variables (mpa count lo hi : Z) (m m' : Z -> Z).
Hypotheses (Hmpa : 0 <= mpa <= 52) (Hlo : 0 <= lo) (Hhi : hi <= 2 ^ mpa) (Hadd : added mpa count m m' lo hi).
Hypotheses (Hc : var_reg_count m = count) (Hc' : var_reg_count m' = count).

Lemma added_hit i c e : holds_block mpa m' lo hi i c e ->
  Z.land (m' (0x200 + i * 2)) 0xff = MTRR_TYPE_WC /\ forall a, 0 <= a < 2 ^ mpa -> hit m' i a <-> c <= a < c + 2 ^ e.
Proof. intros (H1 & H2 & H3 & H4 & H5 & H6). by destruct (hit_block m' i e mpa c) as (? & ? & ?); try lia. Qed.

Lemma added_keeps a t : has_memory_type m a t -> has_memory_type m' a t.
Proof.
  intros (i & Hi & Hh & ->). rewrite Hc in Hi. exists i. rewrite Hc'. split; [done|].
  destruct (ad_slots _ _ _ _ _ _ Hadd i Hi) as [[E1 E2]|[E _]]; [|by destruct Hh; congruence].
  rewrite hit_ext by done. by rewrite E1.
Qed.

Lemma added_new a t : 0 <= a < 2 ^ mpa -> has_memory_type m' a t -> has_memory_type m a t \/ lo <= a < hi /\ t = MTRR_TYPE_WC.
Proof.
  intros Ha (i & Hi & Hh & ->). rewrite Hc' in Hi. destruct (ad_slots _ _ _ _ _ _ Hadd i Hi) as [[E1 E2]|[_ (c & e & Hb)]].
  - left. exists i. rewrite Hc. split; [done|]. rewrite <- (hit_ext m m') by done. by rewrite E1.
  - right. destruct (added_hit _ _ _ Hb) as [Ht Hr]. apply Hr in Hh; [|done]. destruct Hb as (_ & ? & ? & _). split; [lia|done].
Qed.

Lemma added_covers a : lo <= a < hi -> has_memory_type m' a MTRR_TYPE_WC.
Proof.
  intros Ha. destruct (ad_cover _ _ _ _ _ _ Hadd a Ha) as (i & c & e & Hi & _ & Hb & Hca).
  exists i. rewrite Hc'. split; [done|]. destruct (added_hit _ _ _ Hb) as [Ht Hr]. split; [apply Hr; [lia|done]|done].
Qed.
End Types.

Lemma wrmsr_ne r x m n : n <> r -> wrmsr r x m n = m n.
Proof. intros H. unfold wrmsr. by rewrite (proj2 (Z.eqb_neq _ _)). Qed.

Lemma added_frame mpa count m m1 lo hi r x : 0x200 + 2 * count <= r -> added mpa count (wrmsr r x m) m1 lo hi -> added mpa count m (wrmsr r (m r) m1) lo hi.
Proof.
  intros Hr [A B C].
  assert (forall i c e, 0 <= i < count -> holds_block mpa m1 lo hi i c e -> holds_block mpa (wrmsr r (m r) m1) lo hi i c e) as Hh.
  { intros i c e Hi (? & ? & ? & ? & ? & ?). unfold holds_block. rewrite !wrmsr_ne by lia. by split_and!. }
  assert (forall i, 0 <= i < count -> enabled (wrmsr r x m) i = enabled m i) as He.
  { intros i Hi. unfold enabled. by rewrite wrmsr_ne by lia. }
  split.
  - intros n Hn. destruct (Z.eq_dec n r) as [->|Hne]; [unfold wrmsr; by rewrite Z.eqb_refl|]. rewrite wrmsr_ne, A by done. by apply wrmsr_ne.
  - intros i Hi. destruct (B i Hi) as [[E1 E2]|[E (c & e & Hb)]].
    + left. rewrite !wrmsr_ne in * by lia. by split.
    + right. rewrite He in E by done. split; [done|]. exists c, e. by apply Hh.
  - intros a Ha. destruct (C a Ha) as (i & c & e & Hi & E & Hb & Hc). exists i, c, e. rewrite He in E by done. split_and!; try done; try lia. by apply Hh.
Qed.

(** Nothing happens, or blocks that cover a beginning of the range are added,
    the whole range when the result is [true]. *)
Definition wc_outcome (mtrr_supported : bool) (cpuid_sizes : option Z) (base size : Z) (s : cpu) (ok : bool) (s' : cpu) : Prop :=
  (ok = false /\ s' = s) \/
  exists mpa hi, mtrr_supported = true /\ 32 <= mpa <= 52 /\ phys_limit cpuid_sizes = 2 ^ mpa /\
    page_floor base <= hi <= page_ceil (base + size) /\ page_ceil (base + size) <= 2 ^ mpa /\
    added mpa (var_reg_count (msr s)) (msr s) (msr s') (page_floor base) hi /\
    (ok = true -> hi = page_ceil (base + size)) /\
    (forall i a, 0 <= i < var_reg_count (msr s) -> page_floor base <= a < page_ceil (base + size) -> ~ hit (msr s) i a) /\
    saved_mtrrs s' = saved_mtrrs (mtrr_save true s).

Lemma msr_mtrr_save b s : msr (mtrr_save b s) = msr s.
Proof. unfold mtrr_save. destruct (saved_mtrrs s); [done|]. by destruct b. Qed.

Lemma wc_add_outcome mtrr_supported cpuid_sizes base size s :
  0 <= base -> 0 <= size -> base + size <= phys_limit cpuid_sizes -> var_reg_count (msr s) <= 40 ->
  res_post (fun '(ok, s') => wc_outcome mtrr_supported cpuid_sizes base size s ok s') no_panic
    (mtrr_wc_add_fb_range mtrr_supported cpuid_sizes base size s).
Proof.
  intros Hb Hs Hfit Hn. unfold mtrr_wc_add_fb_range.
  destruct (Z.eqb_spec size 0) as [->|Hs0]; cbn [orb]; [by left|]. destruct mtrr_supported; cbn [negb]; [|by left].
  destruct (Z.testbit (msr s 0xfe) 10); cbn [negb]; [|by left]. destruct cpuid_sizes as [eax|]; [|by left].
  cbn [phys_limit] in Hfit. set (mpa := Z.land eax 0xff) in *.
  destruct (Z.ltb_spec mpa 32); cbn [orb]; [by left|]. destruct (Z.ltb_spec 52 mpa); [by left|].
  destruct (CHECKED_ADD base size) as [top|] eqn:Et; cbn [mbind option_bind]; [|by left]. apply checked_add_Some in Et as [-> Ht].
  destruct (ALIGN_UP _ _) as [hi|] eqn:Eh; [|by left]. apply align_up_Some in Eh as (Ehi & Hhi & Hhm & Hh64); [|lia..].
  assert (hi = page_ceil (base + size)) as -> by (rewrite Ehi; unfold page_ceil; f_equal; f_equal; lia). clear Ehi.
  rewrite ldiff_page. destruct (existsb _ _) eqn:Ex; [by left|]. rewrite msr_mtrr_save.
  assert (page_floor base mod 4096 = 0) as Hfm by (by apply Z.mod_mul).
  assert (0 <= page_floor base <= base) as Hfl by (unfold page_floor; pose proof (Z.div_mod base 4096 ltac:(lia)); pose proof (Z.mod_pos_bound base 4096 ltac:(lia)); lia).
  assert (page_ceil (base + size) <= 2 ^ mpa) as Hce.
  { replace (2 ^ mpa) with (2 ^ (mpa - 12) * 4096) in * by (change 4096 with (2 ^ 12); rewrite <- Z.pow_add_r by lia; f_equal; lia).
    unfold page_ceil. apply Z.mul_le_mono_nonneg_r; [lia|]. apply Z.lt_succ_r, Z.div_lt_upper_bound; lia. }
  eapply res_post_bind; [apply chunks_spec; try lia|].
  { rewrite Zminus_mod, Hhm, Hfm. done. }
  intros [ok m1] (h & Hh & Hadd & Hok). cbn [res_post]. right. exists mpa, h. cbn [msr saved_mtrrs].
  split_and!; try done; try lia.
  - eapply added_frame; [|exact Hadd]. lia.
  - intros Hk. specialize (Hok Hk). lia.
  - intros i a Hi Ha. eapply range_taken_spec; [exact Hfm|exact Hhm| |exact Ha].
    apply not_true_iff_false. intros Htk. apply not_true_iff_false in Ex. apply Ex, existsb_exists. exists i. split; [|done].
    apply list_elem_of_In, elem_of_seqZ. lia.
Qed.

(** ** Marking a framebuffer *)

(** C29.  Write combining for a framebuffer (within the physical addresses of the
    processor, which has at most 40 variable ranges).  The call always returns.
    Registers other than the variable ranges keep their values.  An address
    outside the pages of the framebuffer keeps the memory types it had, and
    inside them no type is taken away and none but write-combining added.  When
    it returns [true], every address of every page of the framebuffer is
    write-combining and nothing else; the sizes of the blocks and their masks
    cover the range exactly. *)
Theorem mtrr_wc_add_fb_range_correct (mtrr_supported : bool) (cpuid_sizes : option Z) (base size : Z) (s : cpu)
    (Hbase : 0 <= base) (Hsize : 0 <= size) (Hfit : base + size <= phys_limit cpuid_sizes) (Hregs : var_reg_count (msr s) <= 40) :
  exists ok s', mtrr_wc_add_fb_range mtrr_supported cpuid_sizes base size s = Ok (ok, s') /\
    (forall r, ~ (0x200 <= r < 0x200 + 2 * var_reg_count (msr s)) -> msr s' r = msr s r) /\
    (forall a t, 0 <= a < phys_limit cpuid_sizes -> ~ (page_floor base <= a < page_ceil (base + size)) ->
       has_memory_type (msr s') a t <-> has_memory_type (msr s) a t) /\
    (forall a t, 0 <= a < phys_limit cpuid_sizes -> page_floor base <= a < page_ceil (base + size) ->
       (has_memory_type (msr s) a t -> has_memory_type (msr s') a t) /\
       (has_memory_type (msr s') a t -> has_memory_type (msr s) a t \/ t = MTRR_TYPE_WC)) /\
    (ok = true -> forall a t, page_floor base <= a < page_ceil (base + size) -> has_memory_type (msr s') a t <-> t = MTRR_TYPE_WC).
Proof.
  destruct (res_post_total _ _ (wc_add_outcome mtrr_supported cpuid_sizes base size s Hbase Hsize Hfit Hregs)) as ([ok s'] & E & Ho).
  exists ok, s'. split; [done|]. destruct Ho as [[-> ->]|(mpa & hi & _ & Hmpa & Hlim & Hhi & Htop & Hadd & Hok & Hfree & _)].
  { split_and!; try done. intros a t _ _. split; [done|by left]. }
  assert (0 <= page_floor base) as Hlo by (unfold page_floor; pose proof (Z.div_pos base 0x1000); lia).
  pose proof (ad_other _ _ _ _ _ _ Hadd) as Hother. pose proof (var_reg_count_nonneg (msr s)).
  assert (var_reg_count (msr s') = var_reg_count (msr s)) as Hc' by (apply var_reg_count_eq, Hother; lia).
  assert (0 <= mpa <= 52) as Hmpa' by lia. assert (hi <= 2 ^ mpa) as Hhi' by lia.
  pose proof (added_new _ _ _ _ _ _ Hmpa' Hlo Hhi' Hadd eq_refl Hc') as Hnew. pose proof (added_keeps _ _ _ _ _ _ Hadd eq_refl Hc') as Hkeep.
  rewrite Hlim. split_and!; [done| | |].
  - intros a t Ha Hout. split; [|apply Hkeep]. intros Ht. destruct (Hnew a t Ha Ht) as [?|[? _]]; [done|lia].
  - intros a t Ha Hin. split; [apply Hkeep|]. intros Ht. destruct (Hnew a t Ha Ht) as [?|[_ ?]]; auto.
  - intros Hk a t Ha. rewrite <- (Hok Hk) in *. split.
    + intros Ht. destruct (Hnew a t ltac:(lia) Ht) as [(i & Hi & Hh & _)|[_ ?]]; [|done]. by destruct (Hfree i a Hi Ha).
    + intros ->. by apply (added_covers _ _ _ _ _ _ Hmpa' Hlo Hhi' Hadd Hc').
Qed.

(** ** Undoing it *)
Lemma restore_regs_spec (m0 : Z -> Z) saved : forall regs i m,
  (forall j r, regs !! j = Some r -> saved !! (i + j)%nat = Some (m0 r)) ->
  exists m', restore_regs regs saved i m = Ok m' /\ (forall r, r ∈ regs -> m' r = m0 r) /\ (forall r, r ∉ regs -> m' r = m r).
Proof.
  induction regs as [|r regs IH]; intros i m Hs; cbn [restore_regs].
  { exists m. split_and!; [done|intros r Hr; by apply elem_of_nil in Hr|done]. }
  assert (saved !! i = Some (m0 r)) as Hi by (rewrite <- (Nat.add_0_r i); by apply (Hs 0%nat)).
  rewrite (rd_lookup _ _ _ Hi). cbn [rbind]. destruct (IH (S i) (wrmsr r (m0 r) m)) as (m' & -> & H1 & H2).
  { intros j x Hj. rewrite Nat.add_succ_comm. by apply (Hs (S j)). }
  exists m'. split_and!; [done| |].
  - intros x Hx. destruct (decide (x ∈ regs)) as [Hin|Hout]; [by apply H1|]. apply elem_of_cons in Hx as [->|Hx]; [|done].
    rewrite H2 by done. unfold wrmsr. by rewrite Z.eqb_refl.
  - intros x Hx. apply not_elem_of_cons in Hx as [Hne Hx]. rewrite H2 by done. by apply wrmsr_ne.
Qed.

Definition snapshot (m : Z -> Z) : list Z :=
  map (fun i => m (0x200 + i)) (seqZ 0 (2 * var_reg_count m)) ++ (if fix_supported m then map m FIXED else replicate 11 0) ++ [m 0x2ff].

Lemma snapshot_variable m j r : map (fun i => 0x200 + i) (seqZ 0 (2 * var_reg_count m)) !! j = Some r -> snapshot m !! j = Some (m r).
Proof.
  intros Hj. apply list_lookup_fmap_Some in Hj as (i & -> & Hi). unfold snapshot. apply lookup_app_l_Some. by rewrite list_lookup_fmap, Hi.
Qed.

Lemma snapshot_rest m j : snapshot m !! (Z.to_nat (2 * var_reg_count m) + j)%nat = ((if fix_supported m then map m FIXED else replicate 11 0) ++ [m 0x2ff]) !! j.
Proof.
  unfold snapshot. rewrite lookup_app_r; rewrite length_map, length_seqZ; [|lia]. f_equal. lia.
Qed.

(** The registers are those of [s0], but for the variable ranges once they are saved. *)
Definition saved_from (s0 s : cpu) : Prop :=
  (s = s0 /\ saved_mtrrs s0 = None) \/
  saved_mtrrs s = Some (snapshot (msr s0)) /\ forall r, ~ (0x200 <= r < 0x200 + 2 * var_reg_count (msr s0)) -> msr s r = msr s0 r.

Lemma elem_of_variable n r : r ∈ map (fun i => 0x200 + i) (seqZ 0 n) <-> 0x200 <= r < 0x200 + n.
Proof.
  rewrite list_elem_of_fmap. split; [intros (i & -> & Hi); apply elem_of_seqZ in Hi; lia|].
  intros Hr. exists (r - 0x200). split; [lia|]. apply elem_of_seqZ. lia.
Qed.

Lemma mtrr_restore_spec s0 s : var_reg_count (msr s0) <= 40 -> saved_from s0 s ->
  exists s', mtrr_restore true s = Ok s' /\ saved_from s0 s' /\ forall r, msr s' r = msr s0 r.
Proof.
  intros Hn [[-> Hs]|[Hs Hr]]; unfold mtrr_restore; cbn [negb]; rewrite Hs; [exists s0; split; [done|]; split; [by left|done]|].
  pose proof (var_reg_count_nonneg (msr s0)). unfold fix_supported.
  rewrite (var_reg_count_eq (msr s0) (msr s)), (Hr 0xfe) by (try apply Hr; lia).
  change (Z.testbit (msr s0 0xfe) 8) with (fix_supported (msr s0)). set (n := var_reg_count (msr s0)) in *.
  set (m := wrmsr 0x2ff _ (msr s)).
  destruct (restore_regs_spec (msr s0) (snapshot (msr s0)) (map (fun i => 0x200 + i) (seqZ 0 (2 * n))) 0 m (snapshot_variable (msr s0))) as (m1 & -> & A1 & A2).
  cbn [rbind].
  assert (exists m2, (if fix_supported (msr s0) then restore_regs FIXED (snapshot (msr s0)) (Z.to_nat (2 * n)) m1 else Ok m1) = Ok m2 /\
    (forall r, r <> 0x2ff -> m1 r = msr s0 r -> m2 r = msr s0 r)) as (m2 & -> & B).
  { destruct (fix_supported (msr s0)) eqn:Ef; [|by exists m1].
    destruct (restore_regs_spec (msr s0) (snapshot (msr s0)) FIXED (Z.to_nat (2 * n)) m1) as (m2 & -> & B1 & B2).
    { intros j r Hj. unfold n. rewrite snapshot_rest, Ef. apply lookup_app_l_Some. by rewrite list_lookup_fmap, Hj. }
    exists m2. split; [done|]. intros r _ Hm. destruct (decide (r ∈ FIXED)); [by apply B1|by rewrite B2]. }
  cbn [rbind]. destruct (restore_regs_spec (msr s0) (snapshot (msr s0)) [0x2ff] (Z.to_nat (2 * n) + 11) m2) as (m3 & -> & C1 & C2).
  { intros j r Hj. apply list_lookup_singleton_Some in Hj as [-> <-]. rewrite Nat.add_0_r. unfold n. rewrite snapshot_rest.
    by destruct (fix_supported (msr s0)). }
  cbn [rbind]. eexists. split; [reflexivity|].
  assert (forall r, m3 r = msr s0 r) as Hall; [|split; [right; split; [done|intros r _; apply Hall]|exact Hall]].
  intros r. destruct (Z.eq_dec r 0x2ff) as [->|Hne]; [apply C1; by left|].
  rewrite C2 by (intros ?%list_elem_of_singleton; done). apply B; [done|]. destruct (decide (0x200 <= r < 0x200 + 2 * n)) as [Hin|Hout].
  - apply A1. by apply elem_of_variable.
  - rewrite A2 by (by rewrite elem_of_variable). unfold m. rewrite wrmsr_ne by done. by apply Hr.
Qed.

Lemma wc_add_saved mtrr_supported cpuid_sizes base size s0 s ok s' : var_reg_count (msr s0) <= 40 -> saved_from s0 s ->
  wc_outcome mtrr_supported cpuid_sizes base size s ok s' -> saved_from s0 s'.
Proof.
  intros Hn Hs [[_ ->]|(mpa & hi & _ & _ & _ & _ & _ & Hadd & _ & _ & Hsave)]; [done|]. pose proof (ad_other _ _ _ _ _ _ Hadd) as Hother.
  right. rewrite Hsave. pose proof (var_reg_count_nonneg (msr s0)). destruct Hs as [[-> Hs]|[Hs Hr]]; unfold mtrr_save; rewrite Hs; [by split|].
  split; [done|]. intros r Hout. rewrite Hother; [by apply Hr|]. by rewrite (var_reg_count_eq (msr s0)) by (apply Hr; lia).
Qed.

Lemma saved_from_count s0 s : var_reg_count (msr s0) <= 40 -> saved_from s0 s -> var_reg_count (msr s) <= 40.
Proof.
  intros Hn [[-> _]|[_ Hr]]; [done|]. pose proof (var_reg_count_nonneg (msr s0)). rewrite (var_reg_count_eq (msr s0)); [done|]. apply Hr. lia.
Qed.

(** A framebuffer within the physical addresses. *)
Definition fb_fits (cpuid_sizes : option Z) '((addr, pitch, height) : Z * Z * Z) : Prop :=
  0 <= addr /\ 0 <= pitch /\ 0 <= height /\ addr + pitch * height <= phys_limit cpuid_sizes.

Lemma fb_map_wc_saved mtrr_supported cpuid_sizes s0 fbs : var_reg_count (msr s0) <= 40 -> Forall (fb_fits cpuid_sizes) fbs ->
  forall s, saved_from s0 s -> (mtrr_supported = false -> s = s0) ->
  res_post (fun s' => saved_from s0 s' /\ (mtrr_supported = false -> s' = s0)) no_panic (fb_map_wc mtrr_supported cpuid_sizes fbs s).
Proof.
  intros Hn. induction 1 as [|[[addr pitch] height] fbs (Ha & Hp & Hh & Hfit) _ IH]; intros s Hs Hns; cbn [fb_map_wc]; [done|].
  destruct (CHECKED_MUL pitch height) as [sz|] eqn:E; [|by apply IH]. apply checked_mul_Some in E as [-> _]. destruct (Z.eqb_spec (pitch * height) 0); [by apply IH|].
  eapply res_post_bind; [apply wc_add_outcome; [done|nia|done|by eapply saved_from_count]|]. intros [ok s'] Ho. apply IH; [by eapply wc_add_saved|].
  intros Hk. destruct Ho as [[_ ->]|(? & ? & ? & _)]; [by apply Hns|congruence].
Qed.

(** Everything the loader does to the registers, from the first time on: [fb_init],
    [mtrr_save] before other processors are started ([common/sys/smp.c]), and
    [mtrr_restore] when the terminal is given up ([common/lib/term.c]). *)
Inductive mtrr_op :=
| FbInit (keep_wc preserve_screen : bool) (fbs : list (Z * Z * Z))
| Save
| Restore.

Definition mtrr_op_run (mtrr_supported : bool) (cpuid_sizes : option Z) (op : mtrr_op) (s : cpu) : res cpu :=
  match op with
  | FbInit keep_wc preserve_screen fbs => fb_init_caching mtrr_supported cpuid_sizes keep_wc preserve_screen fbs s
  | Save => Ok (mtrr_save mtrr_supported s)
  | Restore => mtrr_restore mtrr_supported s
  end.

Fixpoint mtrr_history (mtrr_supported : bool) (cpuid_sizes : option Z) (ops : list mtrr_op) (s : cpu) : res cpu :=
  match ops with
  | [] => Ok s
  | op :: ops => let! s := mtrr_op_run mtrr_supported cpuid_sizes op s in mtrr_history mtrr_supported cpuid_sizes ops s
  end.

Definition op_fits (cpuid_sizes : option Z) (op : mtrr_op) : Prop :=
  match op with FbInit _ _ fbs => Forall (fb_fits cpuid_sizes) fbs | _ => True end.

Section History.
Variables (mtrr_supported : bool) (cpuid_sizes : option Z) (s0 : cpu).
Hypotheses (Hregs : var_reg_count (msr s0) <= 40) (Hnew : saved_mtrrs s0 = None).

Definition history_inv (s : cpu) : Prop := saved_from s0 s /\ (mtrr_supported = false -> s = s0).

Lemma restore_history s : history_inv s ->
  exists s', mtrr_restore mtrr_supported s = Ok s' /\ history_inv s' /\ forall r, msr s' r = msr s0 r.
Proof.
  intros [Hs Hns]. unfold history_inv. destruct mtrr_supported.
  - destruct (mtrr_restore_spec s0 s Hregs Hs) as (s' & -> & ? & ?). exists s'. by split_and!.
  - rewrite Hns by done. exists s0. split; [done|]. split; [|done]. split; [by left|done].
Qed.

Lemma fb_init_history keep_wc preserve_screen fbs s : Forall (fb_fits cpuid_sizes) fbs -> history_inv s ->
  exists s', fb_init_caching mtrr_supported cpuid_sizes keep_wc preserve_screen fbs s = Ok s' /\ history_inv s' /\
    (keep_wc = false -> forall r, msr s' r = if preserve_screen then msr s r else msr s0 r).
Proof.
  intros Hf Hinv. unfold fb_init_caching. destruct (keep_wc || negb preserve_screen) eqn:Ew; cbn [rbind andb].
  - destruct Hinv as [Hs Hns].
    destruct (res_post_total _ _ (fb_map_wc_saved mtrr_supported cpuid_sizes s0 fbs Hregs Hf s Hs Hns)) as (s1 & -> & Hinv1).
    cbn [rbind]. destruct keep_wc; cbn [negb]; [by exists s1|].
    destruct (restore_history s1 Hinv1) as (s2 & -> & Hinv2 & Hr). exists s2. split; [done|]. split; [done|]. intros _.
    by destruct preserve_screen.
  - exists s. split; [done|]. split; [done|]. intros _. by destruct keep_wc, preserve_screen.
Qed.

Lemma mtrr_history_spec ops : Forall (op_fits cpuid_sizes) ops -> forall s, history_inv s ->
  exists s', mtrr_history mtrr_supported cpuid_sizes ops s = Ok s' /\ history_inv s'.
Proof.
  induction 1 as [|op ops Hop _ IH]; intros s Hs; cbn [mtrr_history]; [by exists s|].
  assert (exists s1, mtrr_op_run mtrr_supported cpuid_sizes op s = Ok s1 /\ history_inv s1) as (s1 & -> & H1); [|by apply IH].
  destruct op as [keep_wc preserve_screen fbs| |]; cbn [mtrr_op_run op_fits] in *.
  - destruct (fb_init_history keep_wc preserve_screen fbs s Hop Hs) as (s1 & ? & ? & _). by exists s1.
  - eexists. split; [done|]. destruct Hs as [Hs Hns]. unfold history_inv, mtrr_save. destruct mtrr_supported; cbn [negb].
    + split; [|done]. destruct Hs as [[-> Hs]|[Hs Hr]]; rewrite Hs; [by right|by right].
    + rewrite Hns by done. rewrite Hnew. split; [by left|done].
  - destruct (restore_history s Hs) as (s1 & ? & ? & _). by exists s1.
Qed.
End History.

(** C30.  Write combining for framebuffers leaves no trace in the memory type range
    registers (on a processor with at most 40 variable ranges, framebuffers within
    its physical addresses, in the builds that use these registers: BIOS, and UEFI
    on IA-32).  Start from a state with no snapshot and let the loader do any
    sequence of [fb_init] calls, kept, cleared or preserved, of [mtrr_save] and of
    [mtrr_restore]: every call returns, and only variable-range registers change.
    Whenever [fb_init] then clears the screen and is not asked to keep write
    combining on, every register is back at its value from before the first of
    these calls, also if the registers ran out half way; the same holds after
    [mtrr_restore]; and an [fb_init] that preserves the screen and keeps nothing
    changes no register. *)
Theorem fb_init_caching_restores (mtrr_supported : bool) (cpuid_sizes : option Z) (ops : list mtrr_op) (s : cpu)
    (Hregs : var_reg_count (msr s) <= 40) (Hops : Forall (op_fits cpuid_sizes) ops) (Hnew : saved_mtrrs s = None) :
  exists s1, mtrr_history mtrr_supported cpuid_sizes ops s = Ok s1 /\
    (forall r, ~ (0x200 <= r < 0x200 + 2 * var_reg_count (msr s)) -> msr s1 r = msr s r) /\
    (forall preserve_screen fbs, Forall (fb_fits cpuid_sizes) fbs ->
       exists s2, fb_init_caching mtrr_supported cpuid_sizes false preserve_screen fbs s1 = Ok s2 /\
         forall r, msr s2 r = if preserve_screen then msr s1 r else msr s r) /\
    exists s3, mtrr_restore mtrr_supported s1 = Ok s3 /\ forall r, msr s3 r = msr s r.
Proof.
  assert (history_inv mtrr_supported s s) as H0 by (split; [by left|done]).
  destruct (mtrr_history_spec mtrr_supported cpuid_sizes s Hregs Hnew ops Hops s H0) as (s1 & E & H1).
  exists s1. split; [done|]. split; [|split].
  - intros r Hr. destruct H1 as [[[-> _]|[_ Hs]] _]; [done|by apply Hs].
  - intros p fbs Hf. destruct (fb_init_history mtrr_supported cpuid_sizes s Hregs Hnew false p fbs s1 Hf H1) as (s2 & ? & _ & Hr).
    exists s2. split; [done|by apply Hr].
  - destruct (restore_history mtrr_supported s Hregs Hnew s1 H1) as (s3 & ? & _ & ?). by exists s3.
Qed.

(** ** Witnesses *)
Definition sample_cpu : cpu :=
  MkCpu (fun r => if r =? 0xfe then 0x508 else if r =? 0x2ff then 0xc06 else if r =? 0x200 then 0x80000000 else if r =? 0x201 then 0xfc0000800 else 0) None.

Example sample_wc :
  match mtrr_wc_add_fb_range true (Some 0x3024) 0xe0000000 0x7e8000 sample_cpu with
  | Ok (ok, s') => ok = true /\ map (msr s') [0x202; 0x203; 0x204; 0x205; 0x208; 0x209; 0x20e] = [0xe0000001; 0xfffc00800; 0xe0400001; 0xfffe00800; 0xe0700001; 0xffff80800; 0xe07e0001]
  | _ => False
  end.
Proof. vm_compute. done. Qed.

Lemma mtrr_wc_add_fb_range_correct_witness :
  exists ok s', mtrr_wc_add_fb_range true (Some 0x3024) 0xe0000000 0x300000 sample_cpu = Ok (ok, s') /\ ok = true /\
    forall a t, 0xe0000000 <= a < 0xe0300000 -> has_memory_type (msr s') a t <-> t = MTRR_TYPE_WC.
Proof.
  destruct (mtrr_wc_add_fb_range_correct true (Some 0x3024) 0xe0000000 0x300000 sample_cpu) as (ok & s' & E & _ & _ & _ & H).
  1, 2: lia.
  1, 2: by vm_compute.
  exists ok, s'. assert (ok = true) as Hok by (vm_compute in E; congruence). split_and!; [exact E|exact Hok|]. intros a t Ha.
  apply (H Hok). change (page_floor 0xe0000000) with 0xe0000000. change (page_ceil (0xe0000000 + 0x300000)) with 0xe0300000. exact Ha.
Defined.

(** The menu keeps write combining on, then the kernel's framebuffer is cleared. *)
Lemma fb_init_caching_restores_witness :
  exists s1 s2, fb_init_caching true (Some 0x3024) true true [(0xe0000000, 0x1000, 768)] sample_cpu = Ok s1 /\
    msr s1 0x202 = 0xe0000001 /\
    fb_init_caching true (Some 0x3024) false false [(0xe0000000, 0x1000, 768); (0xf0000000, 0x2000, 1080)] s1 = Ok s2 /\
    forall r, msr s2 r = msr sample_cpu r.
Proof.
  destruct (fb_init_caching_restores true (Some 0x3024) [FbInit true true [(0xe0000000, 0x1000, 768)]] sample_cpu)
    as (s1 & E & _ & H & _).
  - by vm_compute.
  - repeat constructor; by vm_compute.
  - reflexivity.
  - destruct (H false [(0xe0000000, 0x1000, 768); (0xf0000000, 0x2000, 1080)]) as (s2 & E2 & H2); [repeat constructor; by vm_compute|].
    exists s1, s2. split_and!; [|vm_compute in E; injection E; intros <-; reflexivity|exact E2|exact H2].
    unfold mtrr_history, mtrr_op_run in E. destruct (fb_init_caching _ _ _ _ _ _) as [s'| | |]; cbn in E; congruence.
Defined.
