(* ===== verification/Limlz.v ===== *)
(** * The compressor of stage 2

    [tools/limlzpack.c]: the x86 filter, the choice of matches, and the LZMA
    encoder with its range coder.  An array is a list, and reading or writing
    outside it is a fault; [malloc] leaves an array with contents the section
    does not know.  Positions and lengths are [nat]s below [2 ^ 32], the integers
    of the coder are kept at their width. *)

From S2P Require Import Prelude CInt.

Definition LIMLZ_PROBS : nat := 4918.
Definition LIMLZ_IS_REP : nat := 192.
Definition LIMLZ_REP_G0 : nat := 204.
Definition LIMLZ_REP_G1 : nat := 216.
Definition LIMLZ_REP_G2 : nat := 228.
Definition LIMLZ_REP_LONG : nat := 240.
Definition LIMLZ_SLOT : nat := 432.
Definition LIMLZ_SPECIAL : nat := 688.
Definition LIMLZ_ALIGN : nat := 802.
Definition LIMLZ_LENGTH : nat := 818.
Definition LIMLZ_REP_LENGTH : nat := 1332.
Definition LIMLZ_LITERAL : nat := 1846.
Definition LIMLZ_MAX_MATCH : nat := 273.
Definition CHAIN_LIMIT : nat := 128.
Definition SIZE_MAX : Z := 2 ^ 64 - 1.

Definition limlz_read32 (data : list Z) (p : nat) : res Z :=
  let! b0 := rd data p in
  let! b1 := rd data (p + 1) in
  let! b2 := rd data (p + 2) in
  let! b3 := rd data (p + 3) in
  Ok (Z.lor (Z.lor (Z.lor b0 (Z.shiftl b1 8)) (Z.shiftl b2 16)) (Z.shiftl b3 24)).

Definition crc_table : list Z :=
  [0x00000000; 0x1db71064; 0x3b6e20c8; 0x26d930ac; 0x76dc4190; 0x6b6b51f4; 0x4db26158; 0x5005713c;
   0xedb88320; 0xf00f9344; 0xd6d6a3e8; 0xcb61b38c; 0x9b64c2b0; 0x86d3d2d4; 0xa00ae278; 0xbdbdf21c].

Definition crc_nibble (crc : Z) : Z := Z.lxor (Z.shiftr crc 4) (nth (Z.to_nat (Z.land crc 15)) crc_table 0).

Definition limlz_crc32 (data : list Z) : Z :=
  u32 (Z.lnot (foldl (fun crc b => crc_nibble (crc_nibble (Z.lxor crc b))) UINT32_MAX data)).

(** ** The range encoder *)
Record range_encoder := MkRc {
  rc_data : list Z; capacity : Z; low : Z; range : Z; pending : nat; rc_cache : Z; error : bool; probs : list Z;
}.

Definition set_data (d : list Z) (rc : range_encoder) : range_encoder :=
  MkRc d (capacity rc) (low rc) (range rc) (pending rc) (rc_cache rc) (error rc) (probs rc).
Definition set_capacity (c : Z) (rc : range_encoder) : range_encoder :=
  MkRc (rc_data rc) c (low rc) (range rc) (pending rc) (rc_cache rc) (error rc) (probs rc).
Definition set_low (l : Z) (rc : range_encoder) : range_encoder :=
  MkRc (rc_data rc) (capacity rc) l (range rc) (pending rc) (rc_cache rc) (error rc) (probs rc).
Definition set_range (r : Z) (rc : range_encoder) : range_encoder :=
  MkRc (rc_data rc) (capacity rc) (low rc) r (pending rc) (rc_cache rc) (error rc) (probs rc).
Definition set_pending (n : nat) (rc : range_encoder) : range_encoder :=
  MkRc (rc_data rc) (capacity rc) (low rc) (range rc) n (rc_cache rc) (error rc) (probs rc).
Definition set_cache (c : Z) (rc : range_encoder) : range_encoder :=
  MkRc (rc_data rc) (capacity rc) (low rc) (range rc) (pending rc) c (error rc) (probs rc).
Definition set_error (rc : range_encoder) : range_encoder :=
  MkRc (rc_data rc) (capacity rc) (low rc) (range rc) (pending rc) (rc_cache rc) true (probs rc).
Definition set_probs (p : list Z) (rc : range_encoder) : range_encoder :=
  MkRc (rc_data rc) (capacity rc) (low rc) (range rc) (pending rc) (rc_cache rc) (error rc) p.

Section Encoder.
(** Whether the host grows a block to a size. *)
Variable realloc : Z -> bool.

Definition put_byte (value : Z) (rc : range_encoder) : range_encoder :=
  if error rc then rc
  else if Z.of_nat (length (rc_data rc)) =? capacity rc then
    if SIZE_MAX / 2 <? capacity rc then set_error rc
    else
      let c := if negb (capacity rc =? 0) then capacity rc * 2 else 4096 in
      if negb (realloc c) then set_error rc else set_data (rc_data rc ++ [value]) (set_capacity c rc)
  else set_data (rc_data rc ++ [value]) rc.

Definition put32 (value : Z) (rc : range_encoder) : range_encoder :=
  foldl (fun rc i => put_byte (u8 (Z.shiftr value i)) rc) rc [0; 8; 16; 24].

(** The loop over the delayed bytes; its body runs before the count is tested. *)
Fixpoint put_pending (count : nat) (value carry : Z) (rc : range_encoder) : range_encoder :=
  let rc := put_byte (u8 (value + carry)) rc in
  match count with
  | S (S _ as count) => put_pending count 255 carry rc
  | _ => rc
  end.

Definition shift_low (rc : range_encoder) : range_encoder :=
  let lo := u32 (low rc) in
  let carry := u32 (Z.shiftr (low rc) 32) in
  let rc :=
    if (lo <? 0xff000000) || negb (carry =? 0)
    then set_cache (Z.shiftr lo 24) (set_pending 0 (put_pending (pending rc) (rc_cache rc) carry rc))
    else rc in
  set_low (u32 (Z.shiftl lo 8)) (set_pending (S (pending rc)) rc).

Definition normalise (rc : range_encoder) : range_encoder :=
  if range rc <? 0x1000000 then shift_low (set_range (u32 (Z.shiftl (range rc) 8)) rc) else rc.

Definition encode_bit (index : nat) (bit : bool) (rc : range_encoder) : res range_encoder :=
  let! prob := rd (probs rc) index in
  let bound := u32 (Z.shiftr (range rc) 11 * prob) in
  if negb bit then
    let! p := wr (probs rc) index (u16 (prob + Z.shiftr (2048 - prob) 5)) in
    Ok (normalise (set_probs p (set_range bound rc)))
  else
    let! p := wr (probs rc) index (u16 (prob - Z.shiftr prob 5)) in
    Ok (normalise (set_probs p (set_range (u32 (range rc - bound)) (set_low (u64 (low rc + bound)) rc)))).

Definition bit_of (value : Z) (i : nat) : bool := Z.testbit value (Z.of_nat i).

(** [(node << 1) | bit] *)
Definition next_node (node : nat) (bit : bool) : nat := (node * 2 + if bit then 1 else 0)%nat.

Fixpoint encode_tree (index bits : nat) (value : Z) (node : nat) (rc : range_encoder) : res range_encoder :=
  match bits with
  | O => Ok rc
  | S bits =>
      let bit := bit_of value bits in
      let! rc := encode_bit (index + node) bit rc in
      encode_tree index bits value (next_node node bit) rc
  end.

Fixpoint encode_reverse (index bits i : nat) (value : Z) (node : nat) (rc : range_encoder) : res range_encoder :=
  match bits with
  | O => Ok rc
  | S bits =>
      let bit := bit_of value i in
      let! rc := encode_bit (index + node) bit rc in
      encode_reverse index bits (S i) value (next_node node bit) rc
  end.

Definition encode_length (index pos length : nat) (rc : range_encoder) : res range_encoder :=
  let! rc := encode_bit index (10 <=? length)%nat rc in
  if (length <? 10)%nat then encode_tree (index + 2 + pos * 8) 3 (Z.of_nat (length - 2)) 1 rc
  else
    let! rc := encode_bit (index + 1) (18 <=? length)%nat rc in
    if (length <? 18)%nat then encode_tree (index + 130 + pos * 8) 3 (Z.of_nat (length - 10)) 1 rc
    else encode_tree (index + 258) 8 (Z.of_nat (length - 18)) 1 rc.

(** [while (high >= 4) { high >>= 1; bits++; }]; 32 bits last for 32 turns. *)
Fixpoint high_bits (fuel : nat) (high : Z) (bits : nat) : Z * nat :=
  match fuel with
  | O => (high, bits)
  | S fuel => if 4 <=? high then high_bits fuel (Z.shiftr high 1) (S bits) else (high, bits)
  end.

(** Bits [i - 1], ..., [4] of [extra], each with even odds. *)
Fixpoint encode_direct (n : nat) (i : nat) (extra : Z) (rc : range_encoder) : range_encoder :=
  match n with
  | O => rc
  | S n =>
      let rc := set_range (Z.shiftr (range rc) 1) rc in
      let rc := if bit_of extra (i - 1) then set_low (u64 (low rc + range rc)) rc else rc in
      encode_direct n (i - 1) extra (normalise rc)
  end.

Definition encode_distance (length : nat) (distance : Z) (rc : range_encoder) : res range_encoder :=
  let value := u32 (distance - 1) in
  let '(high, bits) := high_bits 32 value 0 in
  let slot := if 4 <=? value then (Z.of_nat bits + 1) * 2 + Z.land high 1 else value in
  let len_state := if (length <? 6)%nat then (length - 2)%nat else 3%nat in
  let! rc := encode_tree (LIMLZ_SLOT + len_state * 64) 6 slot 1 rc in
  if slot <? 4 then Ok rc
  else
    let base := u32 (Z.shiftl (Z.lor 2 (Z.land slot 1)) (Z.of_nat bits)) in
    let extra := u32 (value - base) in
    if slot <? 14 then encode_reverse (Z.to_nat (Z.of_nat LIMLZ_SPECIAL + base - slot - 1)) bits 0 extra 1 rc
    else encode_reverse LIMLZ_ALIGN 4 0 (Z.land extra 15) 1 (encode_direct (bits - 4) bits extra rc).

(** ** Matches *)
Record match_ := MkMatch { length_ : nat; distance : Z }.

Definition hash_at (data : list Z) (pos : nat) : res Z :=
  let! b0 := rd data pos in
  let! b1 := rd data (pos + 1) in
  Ok (Z.lor b0 (Z.shiftl b1 8)).

(** [head] is indexed with a hash of 16 bits and has as many entries. *)
Definition insert (data : list Z) (size pos : nat) (s : (Z -> nat) * list nat) : res ((Z -> nat) * list nat) :=
  let '(head, previous) := s in
  if (2 <=? size - pos)%nat then
    let! hash := hash_at data pos in
    let! previous := wr previous pos (head hash) in
    Ok (fun h => if h =? hash then S pos else head h, previous)
  else Ok (head, previous).

Fixpoint match_from (data : list Z) (limit pos : nat) (distance : Z) (length : nat) : res nat :=
  match limit with
  | O => Ok length
  | S limit =>
      let! a := rd data (pos + length) in
      let! b := rd data (Z.to_nat (Z.of_nat pos - distance + Z.of_nat length)) in
      if a =? b then match_from data limit pos distance (S length) else Ok length
  end.

Definition match_length (data : list Z) (size pos : nat) (distance : Z) : res nat :=
  let limit := (size - pos)%nat in
  let limit := if (LIMLZ_MAX_MATCH <? limit)%nat then LIMLZ_MAX_MATCH else limit in
  match_from data limit pos distance 0.

Definition distance_price (distance : Z) : Z := 6 + Z.of_nat (snd (high_bits 32 (u32 (distance - 1)) 0)).

(** Lengths [len], ..., [len + n - 1] of a match, against the best so far. *)
Fixpoint price_lengths (n len pos : nat) (distance price : Z) (cost : list Z) (best : Z * match_) : res (Z * match_) :=
  match n with
  | O => Ok best
  | S n =>
      let length_price := if (len <? 10)%nat then 4 else if (len <? 18)%nat then 5 else 10 in
      let! after := rd cost (pos + len) in
      let next_cost := u64 (price + length_price + after) in
      price_lengths n (S len) pos distance price cost
        (if next_cost <=? fst best then (next_cost, MkMatch len distance) else best)
  end.

Fixpoint follow_chain (depth : nat) (data : list Z) (size pos : nat) (previous : list nat) (cost : list Z)
    (candidate longest : nat) (best : Z * match_) : res (Z * match_) :=
  match depth with
  | O => Ok best
  | S depth =>
      match candidate with
      | O => Ok best
      | S prev =>
          let! candidate := rd previous prev in
          if (size - pos <=? longest)%nat || (longest =? LIMLZ_MAX_MATCH)%nat then Ok best
          else
            let! a := rd data (pos + longest) in
            let! b := rd data (prev + longest) in
            if negb (a =? b) then follow_chain depth data size pos previous cost candidate longest best
            else
              let distance := Z.of_nat pos - Z.of_nat prev in
              let! length := match_length data size pos distance in
              let price := 2 + distance_price distance in
              let! best := price_lengths (length - longest) (S longest) pos distance price cost best in
              follow_chain depth data size pos previous cost candidate (if (longest <? length)%nat then length else longest) best
      end
  end.

(** Position [pos] of the backward pass. *)
Definition parse_step (data : list Z) (size : nat) (previous : list nat) (pos : nat) (s : list Z * list match_) : res (list Z * list match_) :=
  let '(cost, choices) := s in
  let! after := rd cost (pos + 1) in
  let best := (u64 (9 + after), MkMatch 1 0) in
  let! best :=
    (if (size - pos <? 2)%nat then Ok best
     else let! candidate := rd previous pos in follow_chain CHAIN_LIMIT data size pos previous cost candidate 1 best) in
  let! cost := wr cost pos (fst best) in
  let! choices := wr choices pos (snd best) in
  Ok (cost, choices).

(** [for (pos = size; pos-- > 0;)] *)
Fixpoint parse_down (data : list Z) (size : nat) (previous : list nat) (pos : nat) (s : list Z * list match_) : res (list Z * list match_) :=
  match pos with
  | O => Ok s
  | S pos => let! s := parse_step data size previous pos s in parse_down data size previous pos s
  end.

Definition parse (data : list Z) (previous : list nat) (cost : list Z) (choices : list match_) : res (list match_) :=
  let size := length data in
  let! (_, previous) := for_range size 0 (insert data size) (fun _ => O, previous) in
  let! cost := wr cost size 0 in
  let! (_, choices) := parse_down data size previous size (cost, choices) in
  Ok choices.

(** ** Literals *)
Fixpoint literal_bits (n index node : nat) (offset match_ : Z) (byte : Z) (rc : range_encoder) : res range_encoder :=
  match n with
  | O => Ok rc
  | S n =>
      let bit := bit_of byte n in
      let match_ := Z.shiftl match_ 1 in
      let! rc := encode_bit (index + node + Z.to_nat (offset + Z.land match_ offset)) bit rc in
      literal_bits n index (next_node node bit) (if negb (Bool.eqb bit (Z.testbit match_ 8)) then 0 else offset) match_ byte rc
  end.

Definition encode_literal (data : list Z) (pos state : nat) (distance : Z) (rc : range_encoder) : res range_encoder :=
  let! previous := (match pos with O => Ok 0 | S p => rd data p end) in
  let index := (LIMLZ_LITERAL + Z.to_nat (Z.shiftr previous 6) * 768)%nat in
  let offset := if (7 <=? state)%nat then 256 else 0 in
  let! match_ := (if negb (offset =? 0) then rd data (Z.to_nat (Z.of_nat pos - distance)) else Ok 0) in
  let! byte := rd data pos in
  literal_bits 8 index 1 offset match_ byte rc.

(** ** The filter for x86 code

    Calls and jumps get the address they go to in place of the distance.  The
    history keeps operands that overlap from being converted twice. *)
Definition age (history : Z) : Z := u32 (Z.shiftl (Z.land history 0x77) 1).

Definition sign_byte (b : Z) : bool := (b =? 0) || (b =? 255).

(** The loop that adds the position until the byte at [shift] is no sign byte. *)
Fixpoint adjust (fuel : nat) (at_ shift history value : Z) : res Z :=
  match fuel with
  | O => NoFuel
  | S fuel =>
      let value := u32 (value + at_) in
      let high := Z.land (Z.shiftr value shift) 255 in
      if (history =? 0) || negb (sign_byte high) then Ok value
      else adjust fuel at_ shift history (Z.lxor value (u32 (Z.lnot (u32 (Z.shiftl 0xffffff00 shift)))))
  end.

Definition write_operand (data : list Z) (pos : nat) (value : Z) : res (list Z) :=
  let! data := wr data (pos + 4) (u8 (0 - Z.land (Z.shiftr value 24) 1)) in
  let! data := wr data (pos + 1) (u8 value) in
  let! data := wr data (pos + 2) (u8 (Z.shiftr value 8)) in
  wr data (pos + 3) (u8 (Z.shiftr value 16)).

(** The state of the scan: [pos], [previous], [history] and the data.  The
    adjustment goes round twice at most. *)
Definition bcj_step (s : nat * Z * Z * list Z) : res (nat * Z * Z * list Z) :=
  let '(pos, previous, history, data) := s in
  let! opcode := rd data pos in
  if negb (opcode =? 0xe8) && negb (opcode =? 0xe9) then Ok (S pos, previous, history, data)
  else
    let gap := u32 (Z.of_nat pos - previous) in
    let previous := Z.of_nat pos in
    let history := if 4 <=? gap then 0 else Nat.iter (Z.to_nat gap) age history in
    let! high := rd data (pos + 4) in
    if sign_byte high && (history <=? 8) && negb (history =? 6) then
      let! value := limlz_read32 data (pos + 1) in
      let shift := if negb (history =? 0) then 24 - Z.log2 history * 8 else 0 in
      let! value := adjust 2 (Z.of_nat pos + 5) shift history value in
      let! data := write_operand data pos value in
      Ok ((pos + 5)%nat, previous, 0, data)
    else
      let history := Z.lor history 1 in
      let history := if sign_byte high then Z.lor history 16 else history in
      Ok (S pos, previous, history, data).

(** A turn moves on by a byte at least. *)
Fixpoint bcj_loop (fuel : nat) (s : nat * Z * Z * list Z) : res (list Z) :=
  let '(pos, previous, history, data) := s in
  if (5 <=? length data - pos)%nat then
    match fuel with
    | O => NoFuel
    | S fuel => let! s := bcj_step s in bcj_loop fuel s
    end
  else Ok data.

Definition bcj_encode (data : list Z) : res (list Z) := bcj_loop (length data) (0%nat, UINT32_MAX - 4, 0, data).

(** ** The whole stream *)
Fixpoint find_rep (distance : Z) (reps : list Z) : nat :=
  match reps with
  | [] => 0
  | r :: reps => if distance =? r then 0 else S (find_rep distance reps)
  end.

(** [for (i = rep; i > 0; i--) reps[i] = reps[i - 1]] *)
Fixpoint shift_reps (i : nat) (reps : list Z) : res (list Z) :=
  match i with
  | O => Ok reps
  | S j => let! r := rd reps j in let! reps := wr reps (S j) r in shift_reps j reps
  end.

Record coder := MkCoder { c_pos : nat; c_state : nat; c_reps : list Z; c_rc : range_encoder }.

Definition encode_single (data : list Z) (c : coder) : res coder :=
  let '(MkCoder pos state reps rc) := c in
  let context := (state * 16)%nat in
  let! rep0 := rd reps 0 in
  let! same :=
    (if rep0 <=? Z.of_nat pos then
       let! a := rd data pos in let! b := rd data (Z.to_nat (Z.of_nat pos - rep0)) in Ok (a =? b)
     else Ok false) in
  if same then
    let! rc := encode_bit context true rc in
    let! rc := encode_bit (LIMLZ_IS_REP + state) true rc in
    let! rc := encode_bit (LIMLZ_REP_G0 + state) false rc in
    let! rc := encode_bit (LIMLZ_REP_LONG + context) false rc in
    Ok (MkCoder (S pos) (if (state <? 7)%nat then 9 else 11) reps rc)
  else
    let! rc := encode_bit context false rc in
    let! rc := encode_literal data pos state rep0 rc in
    Ok (MkCoder (S pos) (if (state <? 4)%nat then 0 else if (state <? 10)%nat then state - 3 else state - 6) reps rc).

Definition encode_match (m : match_) (c : coder) : res coder :=
  let '(MkCoder pos state reps rc) := c in
  let match_rep := find_rep (distance m) reps in
  let context := (state * 16)%nat in
  let! rc := encode_bit context true rc in
  let! rc := encode_bit (LIMLZ_IS_REP + state) (match_rep <? 4)%nat rc in
  let! (state, rc) :=
    (if (match_rep <? 4)%nat then
       let! rc := encode_bit (LIMLZ_REP_G0 + state) (negb (match_rep =? 0)%nat) rc in
       let! rc :=
         (if (match_rep =? 0)%nat then encode_bit (LIMLZ_REP_LONG + context) true rc
          else
            let! rc := encode_bit (LIMLZ_REP_G1 + state) (negb (match_rep =? 1)%nat) rc in
            if (2 <=? match_rep)%nat then encode_bit (LIMLZ_REP_G2 + state) (match_rep =? 3)%nat rc else Ok rc) in
       let! rc := encode_length LIMLZ_REP_LENGTH 0 (length_ m) rc in
       Ok (if (state <? 7)%nat then 8 else 11, rc)%nat
     else
       let! rc := encode_length LIMLZ_LENGTH 0 (length_ m) rc in
       let! rc := encode_distance (length_ m) (distance m) rc in
       Ok (if (state <? 7)%nat then 7 else 10, rc)%nat) in
  let rep := if (match_rep <? 4)%nat then match_rep else 3%nat in
  let! reps := shift_reps rep reps in
  let! reps := wr reps 0 (distance m) in
  Ok (MkCoder (pos + length_ m) state reps rc).

Definition encode_step (data : list Z) (choices : list match_) (c : coder) : res coder :=
  let! m := rd choices (c_pos c) in
  if (length_ m <? 2)%nat then encode_single data c else encode_match m c.

Fixpoint encode_loop (fuel : nat) (data : list Z) (choices : list match_) (c : coder) : res coder :=
  if (c_pos c <? length data)%nat && negb (error (c_rc c)) then
    match fuel with
    | O => NoFuel
    | S fuel => let! c := encode_step data choices c in encode_loop fuel data choices c
    end
  else Ok c.

(** Whether the working arrays could be allocated, and what was in them. *)
Variable malloc : bool.
Variables (previous0 : list nat) (cost0 : list Z) (choices0 : list match_).

Definition compress (data : list Z) : res (option (list Z)) :=
  let size := Z.of_nat (length data) in
  if SIZE_MAX / 8 <? size + 1 then Ok None
  else
    let checksum := limlz_crc32 data in
    let! data := bcj_encode data in
    if negb malloc then Ok None
    else
      let! choices := parse data previous0 cost0 choices0 in
      let rc := MkRc [] 0 0 UINT32_MAX 1 0 false (replicate LIMLZ_PROBS 1024) in
      let rc := put32 size (put32 checksum rc) in
      let! c := encode_loop (length data) data choices (MkCoder 0 0 [1; 1; 1; 1] rc) in
      let rc := Nat.iter 5 shift_low (c_rc c) in
      Ok (if error rc then None else Some (rc_data rc)).
End Encoder.
