(* ===== verification/LimlzDec.v ===== *)
(** * The decompressor of stage 2

    [stage1/decompressor.asm], which the boot sector runs on the stream of
    [limlzpack]: the LZMA decoder, the inverse filter and the check of the CRC.
    A routine of the source is a function on its registers and the locals; the
    probabilities on the stack and the output are lists, so that an access outside
    them is a fault.  The label [error], which prints a message and halts, is
    [Panic]. *)

From S2P Require Import Prelude CInt Limlz.

Definition CAPACITY : Z := 0x70000 - 0xf000.
Definition STREAM_MIN_SIZE : nat := 13.
Definition integrity_error {A : Type} : res A := Panic "limine integrity error".

Record decoder := MkDec {
  d_source : list Z;      (** from [SOURCE] to [SOURCE_END] *)
  d_range : Z; d_code : Z; d_probs : list Z;
}.

(** [normalise]: [RANGE_HIGH] is the top byte of [RANGE]. *)
Definition d_normalise (d : decoder) : res decoder :=
  if negb (Z.shiftr (d_range d) 24 =? 0) then Ok d
  else
    match d_source d with
    | [] => integrity_error
    | b :: source => Ok (MkDec source (u32 (Z.shiftl (d_range d) 8)) (Z.lor (u32 (Z.shiftl (d_code d) 8)) b) (d_probs d))
    end.

Definition d_bit (index : nat) (d : decoder) : res (bool * decoder) :=
  let! d := d_normalise d in
  let! prob := rd (d_probs d) index in
  let bound := u32 (Z.shiftr (d_range d) 11 * prob) in
  if d_code d <? bound then
    let! p := wr (d_probs d) index (u16 (prob + Z.shiftr (u32 (2048 - prob)) 5)) in
    Ok (false, MkDec (d_source d) bound (d_code d) p)
  else
    let! p := wr (d_probs d) index (u16 (prob - Z.shiftr prob 5)) in
    Ok (true, MkDec (d_source d) (u32 (d_range d - bound)) (u32 (d_code d - bound)) p).

(** [tree]: [ebx] is the base, [ecx] the depth; [esi] keeps the leading bit. *)
Fixpoint d_tree (ebx ecx esi : nat) (d : decoder) : res (nat * decoder) :=
  match ecx with
  | O => Ok (esi, d)
  | S ecx => let! (bit, d) := d_bit (esi + ebx) d in d_tree ebx ecx (next_node esi bit) d
  end.

(** [length], with [ecx] zero. *)
Definition d_length (esi : nat) (d : decoder) : res (nat * decoder) :=
  let! (long, d) := d_bit esi d in
  if negb long then let! (esi, d) := d_tree (esi + 2) 3 1 d in Ok (esi + 2 - 8, d)%nat
  else
    let! (longer, d) := d_bit (esi + 1) d in
    if negb longer then let! (esi, d) := d_tree (esi + 130) 3 1 d in Ok (esi + 10 - 8, d)%nat
    else let! (esi, d) := d_tree (esi + 258) 8 1 d in Ok (esi + 18 - 256, d)%nat.

(** [.direct]: bits [ecx - 1], ..., [4] of [ebx]. *)
Fixpoint d_direct (n ecx : nat) (ebx : Z) (d : decoder) : res (Z * decoder) :=
  match n with
  | O => Ok (ebx, d)
  | S n =>
      let ecx := (ecx - 1)%nat in
      let! d := d_normalise d in
      let half := Z.shiftr (d_range d) 1 in
      if d_code d <? half then d_direct n ecx ebx (MkDec (d_source d) half (d_code d) (d_probs d))
      else d_direct n ecx (Z.setbit ebx (Z.of_nat ecx)) (MkDec (d_source d) half (u32 (d_code d - half)) (d_probs d))
  end.

(** [.reverse_value]: the bits of [esi] below the leading one, the other way round. *)
Fixpoint reverse_value (n : nat) (esi : nat) (ecx : Z) : Z :=
  match n with
  | O => ecx
  | S n => reverse_value n (Nat.div2 esi) (2 * ecx + (if Nat.odd esi then 1 else 0))
  end.

(** [.reverse] with [edx] the base and [ecx] the number of bits. *)
Definition d_reverse (edx ecx : nat) (d : decoder) : res (Z * decoder) :=
  let! (esi, d) := d_tree edx ecx 1 d in
  Ok (reverse_value ecx esi 0, d).

(** From [.slot] to [.distance]. *)
Definition d_distance (length : nat) (d : decoder) : res (Z * decoder) :=
  let len_state := if (length - 2 <=? 3)%nat then (length - 2)%nat else 3%nat in
  let! (esi, d) := d_tree (LIMLZ_SLOT + len_state * 64) 6 1 d in
  let slot := (esi - 64)%nat in
  if (slot <? 4)%nat then Ok (u32 (Z.of_nat slot + 1), d)
  else
    let ecx := (slot / 2 - 1)%nat in
    let ebx := u32 (Z.shiftl (Z.lor (Z.land (Z.of_nat slot) 1) 2) (Z.of_nat ecx)) in
    if (slot <? 14)%nat then
      let! (low, d) := d_reverse (Z.to_nat (ebx - Z.of_nat slot + Z.of_nat LIMLZ_SPECIAL - 1)) ecx d in
      Ok (u32 (ebx + low + 1), d)
    else
      let! (ebx, d) := d_direct (ecx - 4) ecx ebx d in
      let! (low, d) := d_reverse LIMLZ_ALIGN 4 d in
      Ok (u32 (ebx + low + 1), d).

(** [.literal]: [bl] with its leading bit, [bh], and [edx] the byte matched against.
    Eight turns shift the leading bit of [bl] out. *)
Fixpoint d_literal_bits (n : nat) (ecx : nat) (bl : nat) (bh edx : Z) (d : decoder) : res (nat * decoder) :=
  match n with
  | O => Ok (bl, d)
  | S n =>
      let edx := Z.shiftl edx 1 in
      let! (bit, d) := d_bit (Z.to_nat (Z.land (Z.land (bh * 256) edx) 256) + (Z.to_nat (bh * 256) + bl) + ecx) d in
      let bl := next_node bl bit in
      d_literal_bits n ecx bl (if Bool.eqb (Z.testbit edx 8) bit then bh else 0) edx d
  end.

(** The decoder with its output: [STATE], [REP0] to [REP3]. *)
Record machine := MkMachine { m_dec : decoder; m_state : nat; m_reps : list Z; m_out : list Z }.

Definition d_literal (s : machine) (d : decoder) : res machine :=
  let ebx := last (m_out s) in
  let ecx := (Z.to_nat (Z.shiftr (match ebx with Some b => b | None => 0%Z end) 6) * 768 + LIMLZ_LITERAL)%nat in
  let! rep0 := rd (m_reps s) 0 in
  let! (bh, edx) :=
    (if (7 <=? m_state s)%nat then
       let! b := (if rep0 <=? Z.of_nat (length (m_out s)) then rd (m_out s) (Z.to_nat (Z.of_nat (length (m_out s)) - rep0)) else Fault) in
       Ok (1, b)
     else Ok (0, 0)) in
  let al := (m_state s - 3)%nat in
  let state := if (al <? 7)%nat then al else (al - 3)%nat in
  let! (bl, d) := d_literal_bits 8 ecx 1 bh edx d in
  Ok (MkMachine d state (m_reps s) (m_out s ++ [u8 (Z.of_nat bl)])).

(** [rep movsb] from [esi] within the output, byte by byte. *)
Fixpoint movsb (ecx esi : nat) (out : list Z) : res (list Z) :=
  match ecx with
  | O => Ok out
  | S ecx => let! b := rd out esi in movsb ecx (S esi) (out ++ [b])
  end.

(** [copy], with [ecx] the length; [size] is [OUTPUT_END - OUTPUT]. *)
Definition d_copy (size : Z) (ecx : nat) (s : machine) : res machine :=
  let edi := Z.of_nat (length (m_out s)) in
  let! rep0 := rd (m_reps s) 0 in
  if (edi <? rep0) || (rep0 =? 0) then integrity_error
  else if size - edi <? Z.of_nat ecx then integrity_error
  else
    let! out :=
      (if rep0 =? 1 then let! b := rd (m_out s) (length (m_out s) - 1) in Ok (m_out s ++ replicate ecx b)
       else movsb ecx (Z.to_nat (edi - rep0)) (m_out s)) in
    Ok (MkMachine (m_dec s) (m_state s) (m_reps s) out).

(** [match] up to [copy]. *)
Definition d_match (size : Z) (s : machine) (d : decoder) : res machine :=
  let state := m_state s in
  let! reps := (match m_reps s with [r0; r1; r2; r3] => Ok (r0, r1, r2, r3) | _ => Fault end) in
  let '(r0, r1, r2, r3) := reps in
  let base := if (state <? 7)%nat then 0%nat else 3%nat in
  let! (rep, d) := d_bit (LIMLZ_IS_REP + state) d in
  if negb rep then
    let! (length, d) := d_length LIMLZ_LENGTH d in
    let! (distance, d) := d_distance length d in
    d_copy size length (MkMachine d (base + 7) [distance; r0; r1; r2] (m_out s))
  else
    let! (other, d) := d_bit (LIMLZ_REP_G0 + state) d in
    if negb other then
      let! (long, d) := d_bit (LIMLZ_REP_LONG + state * 16) d in
      if negb long then d_copy size 1 (MkMachine d (Nat.lor base 9) [r0; r1; r2; r3] (m_out s))
      else
        let! (length, d) := d_length LIMLZ_REP_LENGTH d in
        d_copy size length (MkMachine d (Nat.lor base 8) [r0; r1; r2; r3] (m_out s))
    else
      let! (g1, d) := d_bit (LIMLZ_REP_G1 + state) d in
      let! (reps, d) :=
        (if negb g1 then Ok ([r1; r0; r2; r3], d)
         else
           let! (g2, d) := d_bit (LIMLZ_REP_G2 + state) d in
           if negb g2 then Ok ([r2; r0; r1; r3], d) else Ok ([r3; r0; r1; r2], d)) in
      let! (length, d) := d_length LIMLZ_REP_LENGTH d in
      d_copy size length (MkMachine d (Nat.lor base 8) reps (m_out s)).

(** [next] *)
Definition d_next (size : Z) (s : machine) : res machine :=
  let! (bit, d) := d_bit (m_state s * 16) (m_dec s) in
  if negb bit then d_literal s d else d_match size s d.

(** Every turn writes a byte at least. *)
Fixpoint d_loop (fuel : nat) (size : Z) (s : machine) : res machine :=
  if Z.of_nat (length (m_out s)) =? size then Ok s
  else
    match fuel with
    | O => NoFuel
    | S fuel => let! s := d_next size s in d_loop fuel size s
    end.

(** ** The filter *)

(** The arithmetic shift at [.bcj_store] extends bit 24. *)
Definition sign_extend_25 (x : Z) : Z := u32 ((x + 2 ^ 24) mod 2 ^ 25 - 2 ^ 24).

Fixpoint d_adjust (fuel : nat) (edx bl eax : Z) : res Z :=
  match fuel with
  | O => NoFuel
  | S fuel =>
      let eax := u32 (eax - edx) in
      if bl =? 0 then Ok eax
      else
        let cl := Z.shiftl (Z.lxor (Z.log2 bl) 3) 3 in
        let al := u8 (u8 (Z.shiftr eax cl) + 1) in
        if 1 <? al then Ok eax
        else d_adjust fuel edx bl (Z.lxor eax (u32 (Z.lnot (u32 (Z.shiftl (2 ^ 32 - 256) cl)))))
  end.

Definition d_age (bl : Z) : Z := u8 (2 * Z.land bl 0x77).

Definition store32 (data : list Z) (p : nat) (x : Z) : res (list Z) :=
  let! data := wr data p (u8 x) in
  let! data := wr data (p + 1) (u8 (Z.shiftr x 8)) in
  let! data := wr data (p + 2) (u8 (Z.shiftr x 16)) in
  wr data (p + 3) (u8 (Z.shiftr x 24)).

(** One turn of [.bcj_scan]; [esi] and [edx] count from [OUTPUT]. *)
Definition d_bcj_step (s : nat * Z * Z * list Z) : res (nat * Z * Z * list Z) :=
  let '(esi, edx, bl, out) := s in
  let! opcode := rd out esi in
  let esi := S esi in
  if 1 <? u8 (opcode - 0xe8) then Ok (esi, edx, bl, out)
  else
    let ecx := Z.of_nat esi - edx in
    let edx := Z.of_nat esi in
    let bl := if 4 <=? ecx then 0 else Nat.iter (Z.to_nat ecx) d_age bl in
    let! high := rd out (esi + 3) in
    let al := u8 (high + 1) in
    if (1 <? al) || (8 <? bl) || (bl =? 6) then
      let bl := Z.lor bl 1 in
      Ok (esi, edx, if 1 <? al then bl else Z.lor bl 16, out)
    else
      let! eax := limlz_read32 out esi in
      let! eax := d_adjust 2 (Z.of_nat esi + 4) bl eax in
      let! out := store32 out esi (sign_extend_25 eax) in
      Ok ((esi + 4)%nat, Z.of_nat esi, 0, out).

Fixpoint d_bcj_loop (fuel : nat) (s : nat * Z * Z * list Z) : res (list Z) :=
  let '(esi, edx, bl, out) := s in
  if Z.of_nat (length out) - 4 <=? Z.of_nat esi then Ok out
  else
    match fuel with
    | O => NoFuel
    | S fuel => let! s := d_bcj_step s in d_bcj_loop fuel s
    end.

(** From [_start] to the jump to [OUTPUT]: what is then at [OUTPUT]. *)
Definition decompress (stream : list Z) : res (list Z) :=
  if (length stream <? STREAM_MIN_SIZE)%nat then integrity_error
  else
    let! first := rd stream 8 in
    if negb (first =? 0) then integrity_error
    else
      let! size := limlz_read32 stream 4 in
      if CAPACITY <? size then integrity_error
      else
        let! checksum := limlz_read32 stream 0 in
        let! b0 := rd stream 9 in
        let! b1 := rd stream 10 in
        let! b2 := rd stream 11 in
        let! b3 := rd stream 12 in
        let code := Z.lor (Z.lor (Z.lor (Z.shiftl b0 24) (Z.shiftl b1 16)) (Z.shiftl b2 8)) b3 in
        let d := MkDec (drop STREAM_MIN_SIZE stream) UINT32_MAX code (replicate LIMLZ_PROBS 1024) in
        let! s := d_loop (Z.to_nat size) size (MkMachine d 0 [1; 1; 1; 1] []) in
        let! d := d_normalise (m_dec s) in
        if negb (d_code d =? 0) then integrity_error
        else if negb (length (d_source d) =? 0)%nat then integrity_error
        else
          let! out := d_bcj_loop (length (m_out s)) (0%nat, -4, 0, m_out s) in
          if negb (limlz_crc32 out =? checksum) then integrity_error else Ok out.
