(* ===== verification/LimlzRange.v ===== *)
(** * The range coder: the decoder finds the bits the encoder was given

    The encoder narrows an interval of numbers; the stream is a number in the last
    one, and hence in all of them.  [N] is the lower end of the interval, written
    with all digits the encoder still holds back, and the decoder's [CODE] is the
    distance of the stream from it. *)

From S2P Require Import Prelude CInt Limlz LimlzDec.

(** ** Numbers in base 256 *)
Definition be_val (l : list Z) : Z := foldl (fun v b => v * 256 + b) 0 l.

Lemma foldl_be l : forall v, foldl (fun v b => v * 256 + b) v l = v * 256 ^ Z.of_nat (length l) + be_val l.
Proof.
  unfold be_val. induction l as [|b l IH]; intros v; cbn [foldl length]; [lia|].
  rewrite (IH (v * 256 + b)), (IH (0 * 256 + b)). replace (Z.of_nat (S (length l))) with (Z.of_nat (length l) + 1) by lia.
  rewrite Z.pow_add_r by lia. lia.
Qed.

Lemma be_val_app a b : be_val (a ++ b) = be_val a * 256 ^ Z.of_nat (length b) + be_val b.
Proof. unfold be_val at 1. rewrite foldl_app. apply foldl_be. Qed.

Lemma be_val_255 n : be_val (replicate n 255) = 256 ^ Z.of_nat n - 1.
Proof.
  induction n as [|n IH]; [done|]. change (replicate (S n) 255) with ([255] ++ replicate n 255).
  rewrite be_val_app, IH, length_replicate. change (be_val [255]) with 255. replace (Z.of_nat (S n)) with (Z.of_nat n + 1) by lia.
  rewrite Z.pow_add_r by lia. lia.
Qed.

Lemma be_val_0 n : be_val (replicate n 0) = 0.
Proof. induction n as [|n IH]; [done|]. change (replicate (S n) 0) with ([0] ++ replicate n 0). by rewrite be_val_app, IH. Qed.

Definition bytes_ok (l : list Z) : Prop := Forall is_byte l.

(** ** The state of the encoder *)
Definition digits (rc : range_encoder) : list Z := drop 8 (rc_data rc) ++ rc_cache rc :: replicate (pending rc - 1) 255.
Definition N (rc : range_encoder) : Z := be_val (digits rc) * 2 ^ 32 + low rc.
Definition count (rc : range_encoder) : nat := length (digits rc).

Definition unit_of (rc : range_encoder) : Z := 256 ^ Z.of_nat (pending rc - 1).

(** The interval of width [w] above [low] moves the digits held back by one carry
    at most, and not beyond the byte in the cache. *)
Record enc (w : Z) (rc : range_encoder) : Prop := {
  en_data : (8 <= length (rc_data rc))%nat;
  en_bytes : bytes_ok (rc_data rc);
  en_cache : 0 <= rc_cache rc < 256;
  en_pending : (1 <= pending rc)%nat;
  en_low : 0 <= low rc;
  en_width : 0 < w;
  en_top : low rc + w <= 2 ^ 33;
  en_carry : rc_cache rc * (unit_of rc * 2 ^ 32) + (unit_of rc - 1) * 2 ^ 32 + low rc + w <= 256 * (unit_of rc * 2 ^ 32);
}.

Lemma enc_shrink w w' rc : enc w rc -> 0 < w' <= w -> enc w' rc.
Proof. intros [] ?. split; try done; lia. Qed.

Lemma unit_pos rc : 0 < unit_of rc.
Proof. unfold unit_of. lia. Qed.

Section Encoder.
Variable realloc : Z -> bool.

(** Nothing but the data and the error change. *)
Definition same_but_data (rc rc' : range_encoder) : Prop :=
  low rc' = low rc /\ range rc' = range rc /\ pending rc' = pending rc /\ rc_cache rc' = rc_cache rc /\ probs rc' = probs rc.

Lemma put_byte_spec v rc : same_but_data rc (put_byte realloc v rc) /\
  (error (put_byte realloc v rc) = false -> error rc = false /\ rc_data (put_byte realloc v rc) = rc_data rc ++ [v]).
Proof.
  unfold put_byte, same_but_data. destruct (error rc) eqn:E; [by rewrite E|]. repeat case_if; cbn; rewrite ?E; split_and!; try done.
Qed.

Lemma put_pending_spec n : forall v carry rc, same_but_data rc (put_pending realloc n v carry rc) /\
  (error (put_pending realloc n v carry rc) = false ->
   error rc = false /\ rc_data (put_pending realloc n v carry rc) = rc_data rc ++ u8 (v + carry) :: replicate (n - 1) (u8 (255 + carry))).
Proof.
  induction n as [|n IH]; intros v carry rc; cbn [put_pending].
  { destruct (put_byte_spec (u8 (v + carry)) rc) as [H1 H2]. split; [done|]. intros He. by destruct (H2 He). }
  destruct (put_byte_spec (u8 (v + carry)) rc) as [H1 H2]. destruct n as [|n]; [split; [done|]; intros He; by destruct (H2 He)|].
  destruct (IH 255 carry (put_byte realloc (u8 (v + carry)) rc)) as [H3 H4]. split.
  - unfold same_but_data in *. intuition congruence.
  - intros He. destruct (H4 He) as [H5 H6]. destruct (H2 H5) as [H7 H8]. split; [done|]. rewrite H6, H8, <- app_assoc. cbn [app].
    replace (S (S n) - 1)%nat with (S n) by lia. replace (S n - 1)%nat with n by lia. done.
Qed.

(** [shift_low] multiplies the number by 256. *)
Record shifted (rc rc' : range_encoder) : Prop := {
  sh_error : error rc = false;
  sh_N : N rc' = 256 * N rc;
  sh_count : count rc' = S (count rc);
  sh_range : range rc' = range rc;
  sh_probs : probs rc' = probs rc;
  sh_head : take 8 (rc_data rc') = take 8 (rc_data rc);
  sh_low : low rc' < 2 ^ 32;
}.

Lemma low_split rc w : enc w rc -> exists lo c, u32 (low rc) = lo /\ u32 (Z.shiftr (low rc) 32) = c /\ low rc = c * 2 ^ 32 + lo /\ 0 <= lo < 2 ^ 32 /\ (c = 0 \/ c = 1).
Proof.
  intros []. assert (0 <= low rc < 2 ^ 33) as Hl by lia. exists (u32 (low rc)), (u32 (Z.shiftr (low rc) 32)). unfold wrap.
  rewrite Z.shiftr_div_pow2 by lia. pose proof (Z.div_mod (low rc) (2 ^ 32) ltac:(lia)). pose proof (Z.mod_pos_bound (low rc) (2 ^ 32) ltac:(lia)).
  assert (low rc / 2 ^ 32 = 0 \/ low rc / 2 ^ 32 = 1) as Hc by lia.
  rewrite (Z.mod_small (low rc / 2 ^ 32)) by lia. split_and!; try done; try lia.
Qed.

Lemma top_byte lo : 0 <= lo < 2 ^ 32 -> Z.shiftr lo 24 = lo / 2 ^ 24 /\ u32 (Z.shiftl lo 8) = (lo mod 2 ^ 24) * 256 /\ 0 <= lo / 2 ^ 24 < 256 /\ lo = lo / 2 ^ 24 * 2 ^ 24 + lo mod 2 ^ 24 /\ 0 <= lo mod 2 ^ 24 < 2 ^ 24.
Proof.
  intros Hlo. rewrite Z.shiftr_div_pow2, Z.shiftl_mul_pow2 by lia. pose proof (Z.div_mod lo (2 ^ 24) ltac:(lia)).
  pose proof (Z.mod_pos_bound lo (2 ^ 24) ltac:(lia)). split_and!; try lia. unfold wrap.
  symmetry. apply (Z.mod_unique_pos _ _ (lo / 2 ^ 24)); lia.
Qed.

(** The bytes put out stand for the digits held back and the carry. *)
Lemma flushed_val rc w c : enc w rc -> (c = 0 \/ c = 1 /\ 2 ^ 32 <= low rc) ->
  bytes_ok (u8 (rc_cache rc + c) :: replicate (pending rc - 1) (u8 (255 + c))) /\
  be_val (u8 (rc_cache rc + c) :: replicate (pending rc - 1) (u8 (255 + c))) = be_val (rc_cache rc :: replicate (pending rc - 1) 255) + c.
Proof.
  intros [] [->|[-> Hl]].
  - rewrite Z.add_0_r, !wrap_small by lia. split; [|change (255 + 0) with 255; lia].
    constructor; [done|]. apply Forall_replicate. unfold is_byte. lia.
  - pose proof (unit_pos rc) as Hu. assert (rc_cache rc < 255) by nia.
    rewrite (wrap_small 8 (rc_cache rc + 1)) by lia. change (u8 (255 + 1)) with 0. split.
    + constructor; [unfold is_byte; lia|]. apply Forall_replicate. unfold is_byte. lia.
    + set (n := (pending rc - 1)%nat). change (be_val ([rc_cache rc + 1] ++ replicate n 0) = be_val ([rc_cache rc] ++ replicate n 255) + 1).
      rewrite !be_val_app.
      rewrite be_val_0, be_val_255, !length_replicate. unfold be_val. cbn [foldl]. lia.
Qed.

Lemma shift_low_spec w rc : enc w rc -> w < 2 ^ 24 -> error (shift_low realloc rc) = false ->
  shifted rc (shift_low realloc rc) /\ enc (256 * w) (shift_low realloc rc).
Proof.
  intros He Hw. destruct (low_split rc w He) as (lo & c & Hlo & Hc & Hlow & Hlr & Hc01). pose proof (unit_pos rc) as Hu.
  destruct (top_byte lo Hlr) as (H24 & H8 & Hhi & Hsplit & Hm). unfold shift_low. rewrite Hlo, Hc, H24, H8.
  set (hi := lo / 2 ^ 24) in *. set (m := lo mod 2 ^ 24) in *.
  destruct ((lo <? 0xff000000) || negb (c =? 0)) eqn:Eb.
  - destruct (put_pending_spec (pending rc) (rc_cache rc) c rc) as [(E1 & E2 & E3 & E4 & E5) Hput].
    destruct (put_pending realloc (pending rc) (rc_cache rc) c rc) as [data cap low' range' pend' cache' err' probs'].
    cbn in *. intros Herr. destruct (Hput Herr) as [Her ->]. clear Hput. subst low' range' pend' cache' probs'.
    destruct (flushed_val rc w c He) as [Hby Hval]; [destruct Hc01 as [->| ->]; [by left|right; lia]|].
    set (X := u8 (rc_cache rc + c) :: replicate (pending rc - 1) (u8 (255 + c))) in *.
    assert (length X = S (pending rc - 1)) as HlX by (unfold X; cbn [length]; by rewrite length_replicate).
    destruct He as [D1 D2 D3 D4 D5 D6 D7 D8]. split.
    + split; cbn; try done.
      * unfold N, digits. cbn. rewrite drop_app_le by lia. rewrite !be_val_app. rewrite Hval, HlX.
        cbn [length]. rewrite length_replicate. unfold be_val at 3. cbn [foldl]. change (256 ^ Z.of_nat 1) with 256. lia.
      * unfold count, digits. cbn. rewrite drop_app_le by lia. rewrite !length_app, HlX. cbn [length]. rewrite length_replicate. lia.
      * by rewrite take_app_le by lia.
      * lia.
    + assert (c = 1 \/ hi <= 254) as Hcase by (destruct Hc01 as [->| ->]; [right|by left]; cbn in Eb; rewrite orb_false_r in Eb; bool_hyps; lia).
      split; cbn; try done; try lia.
      * rewrite length_app. lia.
      * by apply Forall_app.
      * unfold unit_of. cbn. destruct Hcase as [->|]; lia.
  - bool_hyps. cbn. intros Herr. assert (c = 0) as -> by lia. assert (hi = 255) as Hhi255 by lia. destruct He as [D1 D2 D3 D4 D5 D6 D7 D8].
    set (rc' := set_low (m * 256) (set_pending (S (pending rc)) rc)) in *.
    assert (pending rc' - 1 = (pending rc - 1) + 1)%nat as Hp by (cbn; lia).
    assert (digits rc' = digits rc ++ [255]) as Hdig.
    { unfold digits. rewrite Hp, replicate_add. by rewrite <- app_assoc. }
    assert (unit_of rc' = 256 * unit_of rc) as Hunit.
    { unfold unit_of. rewrite Hp, Nat2Z.inj_add, Z.pow_add_r by lia. change (256 ^ Z.of_nat 1) with 256. lia. }
    split.
    + split; try done.
      * unfold N. rewrite Hdig, be_val_app. unfold be_val at 2. cbn [foldl length]. change (256 ^ Z.of_nat 1) with 256. cbn [low set_low rc']. lia.
      * unfold count. rewrite Hdig, length_app. cbn [length]. lia.
      * cbn. lia.
    + split; try done; cbn; lia.
Qed.

(** ** Coding one bit *)
Definition prob_ok (p : Z) : Prop := 31 <= p <= 2017.

Record ready (rc : range_encoder) : Prop := {
  rd_enc : enc (range rc) rc;
  rd_range : 2 ^ 24 <= range rc < 2 ^ 32;
  rd_length : length (probs rc) = LIMLZ_PROBS;
  rd_probs : Forall prob_ok (probs rc);
}.

(** From [rc] to [rc'] the interval shrinks to the width [r] at [delta] above its
    lower end, scaled if it has become small, and the probabilities become [p]. *)
Record narrowed (rc : range_encoder) (delta r : Z) (p : list Z) (rc' : range_encoder) : Prop := {
  na_error : error rc = false;
  na_ready : ready rc';
  na_probs : probs rc' = p;
  na_head : take 8 (rc_data rc') = take 8 (rc_data rc);
  na_delta : 0 <= delta;
  na_width : 0 < r;
  na_inside : delta + r <= range rc;
  na_scale : (2 ^ 24 <= r /\ count rc' = count rc /\ N rc' = N rc + delta /\ range rc' = r) \/
             (r < 2 ^ 24 /\ count rc' = S (count rc) /\ N rc' = 256 * (N rc + delta) /\ range rc' = 256 * r);
}.

Lemma enc_fields w rc rc1 : enc w rc -> rc_data rc1 = rc_data rc -> rc_cache rc1 = rc_cache rc -> pending rc1 = pending rc ->
  forall delta r, low rc1 = low rc + delta -> 0 <= delta -> 0 < r -> delta + r <= w -> enc r rc1.
Proof.
  intros [] E1 E2 E3 delta r E4 ? ? ?. assert (unit_of rc1 = unit_of rc) as Hu by (unfold unit_of; by rewrite E3).
  split; rewrite ?E1, ?E2, ?E3, ?E4, ?Hu; try done; lia.
Qed.

Lemma rc_normalise_spec rc rc1 delta r : ready rc ->
  rc_data rc1 = rc_data rc -> rc_cache rc1 = rc_cache rc -> pending rc1 = pending rc -> error rc1 = error rc -> low rc1 = low rc + delta -> range rc1 = r ->
  length (probs rc1) = LIMLZ_PROBS -> Forall prob_ok (probs rc1) ->
  0 <= delta -> 2 ^ 16 <= r -> delta + r <= range rc -> error (normalise realloc rc1) = false ->
  narrowed rc delta r (probs rc1) (normalise realloc rc1).
Proof.
  intros [He Hr _ _] E1 E2 E3 E4 E5 E6 Hlen Hp Hd Hr16 Hin.
  pose proof (enc_fields (range rc) rc rc1 He E1 E2 E3 delta r E5 Hd ltac:(lia) Hin) as He1.
  assert (digits rc1 = digits rc) as Hdig by (unfold digits; by rewrite E1, E2, E3).
  assert (count rc1 = count rc) as Hc by (unfold count; by rewrite Hdig).
  assert (N rc1 = N rc + delta) as HN by (unfold N; rewrite Hdig, E5; lia).
  unfold normalise. rewrite E6. destruct (Z.ltb_spec r 0x1000000) as [Hlt|Hge]; intros Herr.
  - set (rc2 := set_range (u32 (Z.shiftl r 8)) rc1) in *.
    assert (enc r rc2) as He2 by (destruct He1; by split).
    destruct (shift_low_spec r rc2 He2 ltac:(lia) Herr) as [[S1 S2 S3 S4 S5 S6 S7] S8].
    assert (range rc2 = 256 * r) as Hr2 by (cbn; rewrite Z.shiftl_mul_pow2, wrap_small by lia; lia).
    split; try done; try lia.
    + by rewrite <- E4.
    + split; rewrite ?S4, ?Hr2, ?S5; try done; lia.
    + rewrite S6. cbn. by rewrite E1.
    + right. rewrite S2, S3, S4, Hr2. change (N rc2) with (N rc1). change (count rc2) with (count rc1). rewrite HN, Hc. split_and!; lia.
  - split; try done; try lia.
    + by rewrite <- E4.
    + split; rewrite ?E6; try done. lia.
    + by rewrite E1.
Qed.

(** What happens to a probability. *)
Definition adapt (bit : bool) (p : Z) : Z := if bit then p - Z.shiftr p 5 else p + Z.shiftr (2048 - p) 5.

Lemma adapt_ok bit p : prob_ok p -> prob_ok (adapt bit p).
Proof.
  unfold prob_ok, adapt. intros Hp. destruct bit; rewrite Z.shiftr_div_pow2 by lia; change (2 ^ 5) with 32.
  - pose proof (Z.div_mod p 32 ltac:(lia)). pose proof (Z.mod_pos_bound p 32 ltac:(lia)). lia.
  - pose proof (Z.div_mod (2048 - p) 32 ltac:(lia)). pose proof (Z.mod_pos_bound (2048 - p) 32 ltac:(lia)). lia.
Qed.

Definition bound_of (rg p : Z) : Z := Z.shiftr rg 11 * p.

Lemma bound_ok rg p : 2 ^ 24 <= rg < 2 ^ 32 -> prob_ok p -> 2 ^ 16 <= bound_of rg p /\ 2 ^ 16 <= rg - bound_of rg p.
Proof.
  unfold bound_of, prob_ok. rewrite Z.shiftr_div_pow2 by lia. change (2 ^ 11) with 2048. intros Hr Hp.
  pose proof (Z.div_mod rg 2048 ltac:(lia)). pose proof (Z.mod_pos_bound rg 2048 ltac:(lia)). assert (8192 <= rg / 2048) by lia. nia.
Qed.

Lemma wr_inv {A} (l : list A) i x l' : wr l i x = Ok l' -> (i < length l)%nat /\ l' = <[i := x]> l.
Proof. unfold wr. case_if; [|done]. by intros [= <-]. Qed.

Lemma rd_inv {A} (l : list A) i x : rd l i = Ok x -> l !! i = Some x.
Proof. unfold rd. destruct (l !! i); [|done]. by intros [= ->]. Qed.

Lemma encode_bit_spec i bit rc rc' : ready rc -> encode_bit realloc i bit rc = Ok rc' -> error rc' = false ->
  exists p, probs rc !! i = Some p /\ prob_ok p /\
    narrowed rc (if bit then bound_of (range rc) p else 0) (if bit then range rc - bound_of (range rc) p else bound_of (range rc) p)
      (<[i := adapt bit p]> (probs rc)) rc'.
Proof.
  intros Hrdy. unfold encode_bit. destruct (rd (probs rc) i) as [p| | |] eqn:Ep; try done. cbn [rbind]. apply rd_inv in Ep.
  pose proof (Forall_lookup_1 _ _ _ _ (rd_probs _ Hrdy) Ep) as Hp. destruct (bound_ok (range rc) p (rd_range _ Hrdy) Hp) as [Hb1 Hb2].
  pose proof (adapt_ok bit p Hp) as Ha. destruct (rd_range _ Hrdy) as [Hr1 Hr2]. pose proof (rd_enc _ Hrdy) as He.
  change (Z.shiftr (range rc) 11 * p) with (bound_of (range rc) p). rewrite (wrap_small 32 (bound_of (range rc) p)) by lia.
  assert (Forall prob_ok (<[i := adapt bit p]> (probs rc))) as Hps by (apply Forall_insert; [by apply rd_probs|done]).
  assert (length (<[i := adapt bit p]> (probs rc)) = LIMLZ_PROBS) as Hl by (rewrite length_insert; by apply rd_length).
  unfold prob_ok, adapt in *. destruct bit; cbn [negb]; (destruct (wr _ _ _) as [ps| | |] eqn:Ew; [|done..]); cbn [rbind];
    apply wr_inv in Ew as [_ ->]; intros [= <-] Herr; exists p; (split; [done|]; split; [done|]).
  - rewrite (wrap_small 16) in * by lia. eapply (rc_normalise_spec rc _ (bound_of (range rc) p) (range rc - bound_of (range rc) p)) in Herr; try done; try lia; cbn.
    + destruct He. rewrite wrap_small; [done|lia].
    + by rewrite wrap_small by lia.
  - rewrite (wrap_small 16) in * by lia. eapply (rc_normalise_spec rc _ 0 (bound_of (range rc) p)) in Herr; try done; try lia; cbn. lia.
Qed.

(** A bit with even odds, as in [encode_direct]. *)
Definition direct_bit (bit : bool) (rc : range_encoder) : range_encoder :=
  let rc := Limlz.set_range (Z.shiftr (range rc) 1) rc in
  normalise realloc (if bit then set_low (u64 (low rc + range rc)) rc else rc).

Lemma direct_bit_spec bit rc : ready rc -> error (direct_bit bit rc) = false ->
  narrowed rc (if bit then Z.shiftr (range rc) 1 else 0) (Z.shiftr (range rc) 1) (probs rc) (direct_bit bit rc).
Proof.
  intros Hrdy Herr. destruct (rd_range _ Hrdy) as [Hr1 Hr2]. pose proof (rd_enc _ Hrdy) as He. unfold direct_bit in *.
  rewrite Z.shiftr_div_pow2 in * by lia. change (2 ^ 1) with 2 in *. set (h := range rc / 2) in *.
  assert (2 * h <= range rc < 2 * h + 2) as Hh by (unfold h; pose proof (Z.div_mod (range rc) 2 ltac:(lia)); pose proof (Z.mod_pos_bound (range rc) 2 ltac:(lia)); lia). destruct Hrdy as [_ _ Hl Hp].
  destruct bit; eapply (rc_normalise_spec rc) in Herr; try exact Herr; try done; try lia; cbn; try lia.
  destruct He. rewrite wrap_small; [done|lia].
Qed.

(** ** Sequences of bits *)
Inductive event := Bit (index : nat) (bit : bool) | Direct (bit : bool).

Definition encode_event (e : event) (rc : range_encoder) : res range_encoder :=
  match e with Bit i b => encode_bit realloc i b rc | Direct b => Ok (direct_bit b rc) end.

Fixpoint run (es : list event) (rc : range_encoder) : res range_encoder :=
  match es with
  | [] => Ok rc
  | e :: es => let! rc := encode_event e rc in run es rc
  end.

Lemma run_app es es' rc : run (es ++ es') rc = rbind (run es rc) (run es').
Proof. revert rc. induction es as [|e es IH]; intros rc; cbn; [done|]. destruct (encode_event e rc); cbn; auto. Qed.

Lemma event_narrowed e rc rc' : ready rc -> encode_event e rc = Ok rc' -> error rc' = false ->
  exists delta r p, narrowed rc delta r p rc'.
Proof.
  intros Hr. destruct e as [i b|b]; cbn [encode_event].
  - intros H He. destruct (encode_bit_spec i b rc rc' Hr H He) as (p & _ & _ & Hn). eauto.
  - intros [= <-] He. eexists _, _, _. by apply direct_bit_spec.
Qed.

Lemma encode_event_error e rc rc' : encode_event e rc = Ok rc' -> error rc = true -> error rc' = true.
Proof.
  intros H He. destruct (error rc') eqn:E; [done|]. exfalso.
  assert (forall v rc, error rc = true -> put_byte realloc v rc = rc) as Hput by (intros v rc0 H0; unfold put_byte; by rewrite H0).
  assert (forall n v c rc, error rc = true -> put_pending realloc n v c rc = rc) as Hpp.
  { induction n as [|n IH]; intros v c rc0 H0; cbn [put_pending]; [by apply Hput|]. rewrite (Hput _ rc0) by done. destruct n; [done|]. by apply IH. }
  assert (forall rc, error rc = true -> error (normalise realloc rc) = true) as Hno.
  { intros rc0 H0. unfold normalise. case_if; [|done]. unfold shift_low. rewrite Hpp by done. by case_if. }
  destruct e as [i b|b]; cbn [encode_event] in H.
  - unfold encode_bit in H. destruct (rd _ _); try done. cbn [rbind] in H.
    destruct b; cbn [negb] in H; (destruct (wr _ _ _); [|done..]); cbn [rbind] in H; injection H as <-; rewrite Hno in E; done.
  - injection H as <-. unfold direct_bit in E. rewrite Hno in E; [done|]. by destruct b.
Qed.

Lemma run_error es : forall rc rc', run es rc = Ok rc' -> error rc' = false -> error rc = false.
Proof.
  induction es as [|e es IH]; intros rc rc'; cbn [run]; [by intros [= <-]|]. destruct (encode_event e rc) as [rc1| | |] eqn:E; try done. cbn [rbind].
  intros H He. pose proof (IH _ _ H He) as H1. destruct (error rc) eqn:Er; [|done]. by rewrite (encode_event_error _ _ _ E Er) in H1.
Qed.

(** ** The decoder follows *)
Section Stream.
Variable stream : list Z.
Hypothesis Hstream : bytes_ok stream.

(** The number in the first [j] bytes. *)
Definition prefix (j : nat) : Z := be_val (take j stream).

Lemma prefix_step j : (j < length stream)%nat -> exists b, stream !! j = Some b /\ is_byte b /\ prefix (S j) = prefix j * 256 + b.
Proof.
  intros Hj. destruct (lookup_lt_is_Some_2 stream j Hj) as [b Hb]. exists b. split; [done|]. split; [by eapply (Forall_lookup_1 _ _ _ _ Hstream)|].
  unfold prefix. rewrite (take_S_r _ _ b Hb), be_val_app. done.
Qed.

Definition inside (rc : range_encoder) : Prop :=
  (count rc + 4 <= length stream)%nat /\ N rc <= prefix (count rc + 4) < N rc + range rc.

Lemma inside_back rc delta r p rc' : narrowed rc delta r p rc' -> inside rc' ->
  (count rc + 4 <= length stream)%nat /\ N rc + delta <= prefix (count rc + 4) < N rc + delta + r.
Proof.
  intros [_ _ _ _ Hd Hw Hin Hs] [Hlen Hi]. destruct Hs as [(_ & Hc & HN & Hr)|(_ & Hc & HN & Hr)]; rewrite Hc, HN, Hr in *; [split; [done|lia]|].
  split; [lia|]. destruct (prefix_step (count rc + 4)) as (b & _ & Hb & Hp); [lia|]. unfold is_byte in Hb.
  replace (S (count rc) + 4)%nat with (S (count rc + 4)) in Hi by lia. lia.
Qed.

Lemma inside_narrowed rc delta r p rc' : narrowed rc delta r p rc' -> inside rc' -> inside rc.
Proof. intros Hn Hi. destruct (inside_back _ _ _ _ _ Hn Hi) as [H1 H2]. destruct Hn. split; [done|lia]. Qed.

Lemma run_inside es : forall rc rc', ready rc -> run es rc = Ok rc' -> error rc' = false -> ready rc' /\ (inside rc' -> inside rc).
Proof.
  induction es as [|e es IH]; intros rc rc' Hr; cbn [run]; [by intros [= <-]|].
  destruct (encode_event e rc) as [rc1| | |] eqn:E; try done. cbn [rbind]. intros H He. pose proof (run_error es _ _ H He) as He1.
  destruct (event_narrowed e rc rc1 Hr E He1) as (delta & r & p & Hn). destruct (IH rc1 rc' (na_ready _ _ _ _ _ Hn) H He) as [H1 H2].
  split; [done|]. intros Hi. eapply inside_narrowed; [exact Hn|auto].
Qed.

(** The decoder is at the encoder's interval, once it has read the byte it may be behind. *)
Definition exact (rc : range_encoder) (d : decoder) : Prop :=
  d_range d = range rc /\ d_code d = prefix (count rc + 4) - N rc /\ d_source d = drop (count rc + 4) stream /\ d_probs d = probs rc.

Definition follows (rc : range_encoder) (d : decoder) : Prop := exists d', d_normalise d = Ok d' /\ exact rc d'.

Lemma exact_follows rc d : ready rc -> exact rc d -> follows rc d.
Proof.
  intros [_ Hr _ _] He. exists d. split; [|done]. unfold d_normalise. destruct He as [-> _]. rewrite Z.shiftr_div_pow2 by lia.
  destruct (Z.eqb_spec (range rc / 2 ^ 24) 0) as [E|]; [|done]. apply Z.div_small_iff in E; lia.
Qed.

Lemma narrowed_follows rc delta r p rc' : narrowed rc delta r p rc' -> inside rc' ->
  follows rc' (MkDec (drop (count rc + 4) stream) r (prefix (count rc + 4) - N rc - delta) p).
Proof.
  intros Hn Hi. destruct (inside_back _ _ _ _ _ Hn Hi) as [_ Hin]. destruct Hn as [_ Hrdy Hp _ Hd Hw _ Hs]. destruct Hi as [Hlen Hi].
  destruct Hs as [(H24 & Hc & HN & Hr)|(H24 & Hc & HN & Hr)].
  - apply exact_follows; [done|]. unfold exact. cbn. rewrite Hc, HN, Hr, Hp. split_and!; try done. lia.
  - rewrite Hc in Hlen. destruct (prefix_step (count rc + 4)) as (b & Hb & Hby & Hpre); [lia|]. unfold is_byte in Hby.
    unfold follows, d_normalise. cbn [d_range d_source d_code d_probs]. rewrite Z.shiftr_div_pow2, Z.div_small by lia. cbn [Z.eqb negb].
    rewrite (drop_S _ b _ Hb). eexists. split; [reflexivity|]. unfold exact. cbn [d_range d_source d_code d_probs]. rewrite Hc, HN, Hr, Hp.
    replace (S (count rc) + 4)%nat with (S (count rc + 4)) by lia. rewrite Hpre. split_and!; try done.
    + rewrite Z.shiftl_mul_pow2, wrap_small by lia. lia.
    + set (c := prefix (count rc + 4) - N rc - delta) in *. rewrite Z.shiftl_mul_pow2, wrap_small by lia.
      rewrite lor_low by lia. lia.
Qed.

(** [es] is what is left to decode. *)
Definition codes (es : list event) (d : decoder) : Prop :=
  exists rc rc', ready rc /\ follows rc d /\ run es rc = Ok rc' /\ error rc' = false /\ (count rc' + 4)%nat = length stream /\ be_val stream = N rc'.

Lemma final_inside rc : ready rc -> (count rc + 4)%nat = length stream -> be_val stream = N rc -> inside rc.
Proof.
  intros [_ Hr _ _] Hc HN. split; [lia|]. unfold prefix. rewrite take_ge by lia. lia.
Qed.

Lemma codes_cons e es d : codes (e :: es) d ->
  exists rc rc1 d0, ready rc /\ d_normalise d = Ok d0 /\ exact rc d0 /\ encode_event e rc = Ok rc1 /\ error rc1 = false /\ inside rc1 /\
    forall d', follows rc1 d' -> codes es d'.
Proof.
  intros (rc & rc' & Hr & (d0 & Hd0 & Hex) & Hrun & He & Hc & HN). cbn [run] in Hrun.
  destruct (encode_event e rc) as [rc1| | |] eqn:E; try done. cbn [rbind] in Hrun. pose proof (run_error es _ _ Hrun He) as He1.
  destruct (event_narrowed e rc rc1 Hr E He1) as (delta & r & p & Hn). pose proof (na_ready _ _ _ _ _ Hn) as Hr1.
  destruct (run_inside es rc1 rc' Hr1 Hrun He) as [Hr' Hi]. exists rc, rc1, d0. split_and!; try done.
  - apply Hi. apply final_inside; [done|lia|done].
  - intros d' Hd'. exists rc1, rc'. by split_and!.
Qed.

Lemma codes_bit i b es d : codes (Bit i b :: es) d -> exists d', d_bit i d = Ok (b, d') /\ codes es d'.
Proof.
  intros Hc. destruct (codes_cons _ _ _ Hc) as (rc & rc1 & d0 & Hr & Hd0 & (E1 & E2 & E3 & E4) & He & Herr & Hi & Hrest). cbn [encode_event] in He.
  destruct (encode_bit_spec i b rc rc1 Hr He Herr) as (p & Hp & Hpok & Hn). destruct (bound_ok (range rc) p (rd_range _ Hr) Hpok) as [Hb1 Hb2].
  pose proof (narrowed_follows _ _ _ _ _ Hn Hi) as Hf. destruct (inside_back _ _ _ _ _ Hn Hi) as [_ Hin]. pose proof (rd_range _ Hr) as [_ Hr32].
  pose proof (adapt_ok b p Hpok) as Ha. unfold prob_ok in *.
  assert ((i < length (probs rc))%nat) as Hil by (by eapply lookup_lt_Some).
  unfold d_bit. rewrite Hd0. cbn [rbind]. rewrite E4, (rd_lookup _ _ _ Hp). cbn [rbind]. rewrite E1, E2, E3.
  change (Z.shiftr (range rc) 11 * p) with (bound_of (range rc) p). rewrite (wrap_small 32 (bound_of (range rc) p)) by lia.
  unfold adapt in *. destruct b.
  - rewrite (proj2 (Z.ltb_ge _ _)) by lia. rewrite wr_lt by done. cbn [rbind]. eexists. split; [reflexivity|].
    rewrite (wrap_small 16), !wrap_small by lia. by apply Hrest.
  - rewrite (proj2 (Z.ltb_lt _ _)) by lia. rewrite wr_lt by done. cbn [rbind]. eexists. split; [reflexivity|].
    rewrite (wrap_small 32 (2048 - p)), wrap_small by lia. apply Hrest. by rewrite Z.sub_0_r in Hf.
Qed.

Lemma codes_direct b es d : codes (Direct b :: es) d -> exists d0, d_normalise d = Ok d0 /\
  let half := Z.shiftr (d_range d0) 1 in
  (d_code d0 <? half) = negb b /\ codes es (MkDec (d_source d0) half (if b then u32 (d_code d0 - half) else d_code d0) (d_probs d0)).
Proof.
  intros Hc. destruct (codes_cons _ _ _ Hc) as (rc & rc1 & d0 & Hr & Hd0 & (E1 & E2 & E3 & E4) & He & Herr & Hi & Hrest). injection He as <-.
  pose proof (direct_bit_spec b rc Hr Herr) as Hn. pose proof (narrowed_follows _ _ _ _ _ Hn Hi) as Hf. destruct (inside_back _ _ _ _ _ Hn Hi) as [_ Hin].
  destruct Hn as [_ _ _ _ Hd Hw Hle _]. pose proof (rd_range _ Hr) as [_ Hr32]. exists d0. split; [done|]. rewrite E1, E2, E3, E4. cbv zeta.
  destruct b; cbn [negb].
  - split; [apply Z.ltb_ge; lia|]. rewrite wrap_small by lia. by apply Hrest.
  - split; [apply Z.ltb_lt; lia|]. apply Hrest. by rewrite Z.sub_0_r in Hf.
Qed.

Lemma codes_nil d : codes [] d -> exists d', d_normalise d = Ok d' /\ d_code d' = 0 /\ d_source d' = [].
Proof.
  intros (rc & rc' & Hr & (d' & Hd & E1 & E2 & E3 & E4) & [= <-] & He & Hc & HN). exists d'. split; [done|]. split.
  - rewrite E2. unfold prefix. rewrite take_ge by lia. lia.
  - rewrite E3. apply drop_ge. lia.
Qed.
End Stream.

(** ** Flushing the encoder *)
Lemma shift_low_low rc : low (shift_low realloc rc) = (low rc * 256) mod 2 ^ 32.
Proof.
  unfold shift_low. cbn [low set_low]. unfold wrap. rewrite Z.shiftl_mul_pow2 by lia. change (2 ^ 8) with 256. by rewrite Z.mul_mod_idemp_l by lia.
Qed.

Lemma shift_low_zero rc : low rc = 0 -> rc_cache (shift_low realloc rc) = 0 /\ pending (shift_low realloc rc) = 1%nat /\ low (shift_low realloc rc) = 0.
Proof. intros H. unfold shift_low. rewrite H. done. Qed.

Lemma shift_low_error rc : error (shift_low realloc rc) = false -> error rc = false.
Proof.
  unfold shift_low. destruct (put_pending_spec (pending rc) (rc_cache rc) (u32 (Z.shiftr (low rc) 32)) rc) as [_ H].
  destruct (_ || _); cbn; [|done]. intros He. by destruct (H He).
Qed.

Definition shifts (n : nat) (rc : range_encoder) : range_encoder := Nat.iter n (shift_low realloc) rc.

Lemma shifts_S n rc : shifts (S n) rc = shift_low realloc (shifts n rc).
Proof. done. Qed.

Lemma shifts_low n rc : low (shifts n rc) mod 2 ^ 32 = (low rc * 256 ^ Z.of_nat n) mod 2 ^ 32.
Proof.
  induction n as [|n IH]; [by rewrite Z.mul_1_r|]. rewrite shifts_S, shift_low_low, Zmod_mod. replace (Z.of_nat (S n)) with (Z.of_nat n + 1) by lia.
  rewrite Z.pow_add_r by lia. rewrite <- Z.mul_mod_idemp_l, IH, Z.mul_mod_idemp_l by lia. f_equal. lia.
Qed.

Lemma shifts_spec rc n : ready rc -> error (shifts n rc) = false ->
  error rc = false /\ enc 1 (shifts n rc) /\ N (shifts n rc) = 256 ^ Z.of_nat n * N rc /\ count (shifts n rc) = (count rc + n)%nat /\
  take 8 (rc_data (shifts n rc)) = take 8 (rc_data rc).
Proof.
  intros [He Hr _ _]. induction n as [|n IH].
  - intros H. split_and!; try done; try (unfold shifts; cbn [Nat.iter nat_rect]; lia). by apply (enc_shrink (range rc)); [|lia].
  - rewrite shifts_S. intros Hn. destruct (IH (shift_low_error _ Hn)) as (H1 & H2 & H3 & H4 & H5).
    destruct (shift_low_spec 1 _ H2 ltac:(lia) Hn) as [[S1 S2 S3 S4 S5 S6 S7] S8]. rewrite S2, S3, S6, H3, H4, H5.
    replace (Z.of_nat (S n)) with (Z.of_nat n + 1) by lia. rewrite Z.pow_add_r by lia.
    split_and!; try done; try lia. by apply (enc_shrink (256 * 1)); [|lia].
Qed.

Lemma flush_last r4 Nr c : enc 1 (shift_low realloc r4) -> low r4 = 0 -> N (shift_low realloc r4) = 2 ^ 40 * Nr -> count (shift_low realloc r4) = (c + 5)%nat ->
  let stream := drop 8 (rc_data (shift_low realloc r4)) in
  bytes_ok stream /\ length stream = (c + 4)%nat /\ be_val stream = Nr.
Proof.
  intros [D1 D2 _ _ _ _ _ _] Hl4 HN Hcnt. destruct (shift_low_zero r4 Hl4) as (Hc & Hp & Hl).
  unfold N, count, digits in *. rewrite Hc, Hp, Hl in *. cbn [Nat.sub replicate] in *. rewrite be_val_app in HN. rewrite length_app in Hcnt. cbn [length] in *.
  change (be_val [0]) with 0 in HN. change (256 ^ Z.of_nat 1) with 256 in HN. cbv zeta. split_and!; [by apply Forall_drop|lia|lia].
Qed.

Lemma rc_flush_spec rc : ready rc -> error (shifts 5 rc) = false ->
  let stream := drop 8 (rc_data (shifts 5 rc)) in
  error rc = false /\ bytes_ok stream /\ length stream = (count rc + 4)%nat /\ be_val stream = N rc /\
  take 8 (rc_data (shifts 5 rc)) = take 8 (rc_data rc) /\ (8 <= length (rc_data (shifts 5 rc)))%nat.
Proof.
  intros Hr Herr. destruct (shifts_spec rc 5 Hr Herr) as (H1 & H2 & H3 & H4 & H5). pose proof (shifts_low 4 rc) as Hl.
  rewrite shifts_S in *. set (r4 := shifts 4 rc) in *. destruct (shifts_spec rc 4 Hr (shift_low_error _ Herr)) as (_ & [_ _ _ _ L1 _ L2 _] & _).
  assert (low r4 < 2 ^ 32) as Hlt by (unfold r4; rewrite shifts_S, shift_low_low; apply Z.mod_pos_bound; lia). fold r4 in L1.
  rewrite (Z.mod_small (low r4)) in Hl by lia. change (256 ^ Z.of_nat 4) with (2 ^ 32) in Hl. rewrite Z.mod_mul in Hl by lia.
  destruct (flush_last r4 (N rc) (count rc) H2 Hl H3 H4) as (? & ? & ?). destruct H2. by split_and!.
Qed.
End Encoder.
