(* ===== verification/LimlzSymbols.v ===== *)
(** * The symbols of the stream: what is written is read back

    Each part of the encoder is the coding of a sequence of bits in their contexts,
    and the corresponding part of the decoder finds the value they stand for. *)

From S2P Require Import Prelude CInt Limlz LimlzDec LimlzRange.

Lemma bit_of_double v n : 0 <= v -> v mod 2 ^ Z.of_nat (S n) = (if bit_of v n then 2 ^ Z.of_nat n else 0) + v mod 2 ^ Z.of_nat n.
Proof.
  intros Hv. unfold bit_of. rewrite Nat2Z.inj_succ, Z.pow_succ_r by lia. rewrite (Z.mul_comm 2), Z.rem_mul_r by lia.
  rewrite Z.testbit_eqb by lia. destruct (Z.eqb_spec ((v / 2 ^ Z.of_nat n) mod 2) 1) as [->|Hne]; [lia|].
  pose proof (Z.mod_pos_bound (v / 2 ^ Z.of_nat n) 2 ltac:(lia)). replace ((v / 2 ^ Z.of_nat n) mod 2) with 0 by lia. lia.
Qed.

Lemma next_node_Z node b : Z.of_nat (next_node node b) = 2 * Z.of_nat node + (if b then 1 else 0).
Proof. unfold next_node. destruct b; lia. Qed.

Lemma high_bits_spec fuel : forall v bits, 0 <= v < 2 ^ (Z.of_nat fuel + 2) ->
  exists n, high_bits fuel v bits = (v / 2 ^ Z.of_nat n, (bits + n)%nat) /\ v / 2 ^ Z.of_nat n < 4 /\ (v < 4 -> n = 0%nat) /\ (4 <= v -> 2 <= v / 2 ^ Z.of_nat n).
Proof.
  induction fuel as [|fuel IH]; intros v bits Hv; cbn [high_bits].
  - exists 0%nat. change (2 ^ Z.of_nat 0) with 1. rewrite Z.div_1_r, Nat.add_0_r. change (2 ^ (Z.of_nat 0 + 2)) with 4 in Hv. split_and!; try done; lia.
  - destruct (Z.leb_spec 4 v) as [H4|H4].
    2: { exists 0%nat. change (2 ^ Z.of_nat 0) with 1. rewrite Z.div_1_r, Nat.add_0_r. split_and!; try done; lia. }
    rewrite Z.shiftr_div_pow2 by lia. change (2 ^ 1) with 2.
    replace (Z.of_nat (S fuel) + 2) with (1 + (Z.of_nat fuel + 2)) in Hv by lia. rewrite Z.pow_add_r in Hv by lia.
    destruct (IH (v / 2) (S bits)) as (n & E & Hlt & H0 & H2). { pose proof (Z.div_mod v 2 ltac:(lia)). pose proof (Z.mod_pos_bound v 2 ltac:(lia)). lia. }
    assert (v / 2 / 2 ^ Z.of_nat n = v / 2 ^ Z.of_nat (S n)) as Hdd.
    { rewrite Z.div_div by lia. f_equal. rewrite Nat2Z.inj_succ, Z.pow_succ_r by lia. done. }
    exists (S n). rewrite E, <- Hdd. split_and!; [f_equal; lia|done|lia|]. intros _.
    destruct (decide (4 <= v / 2)) as [Hge|Hlt4]; [auto|]. rewrite H0 by lia. change (2 ^ Z.of_nat 0) with 1. rewrite Z.div_1_r.
    pose proof (Z.div_mod v 2 ltac:(lia)). pose proof (Z.mod_pos_bound v 2 ltac:(lia)). lia.
Qed.

(** A distance of more than four: the two bits at its top and what is below. *)
Lemma high_bits_large v : 4 <= v < 2 ^ 32 ->
  exists n h extra, high_bits 32 v 0 = (h, n) /\ (n <= 30)%nat /\ (h = 2 \/ h = 3) /\ v = h * 2 ^ Z.of_nat n + extra /\ 0 <= extra < 2 ^ Z.of_nat n.
Proof.
  intros Hv. destruct (high_bits_spec 32 v 0) as (n & E & Hlt & _ & H2); [change (Z.of_nat 32 + 2) with 34; lia|]. specialize (H2 ltac:(lia)).
  exists n, (v / 2 ^ Z.of_nat n), (v mod 2 ^ Z.of_nat n). pose proof (Z.div_mod v (2 ^ Z.of_nat n) ltac:(lia)). pose proof (Z.mod_pos_bound v (2 ^ Z.of_nat n) ltac:(lia)).
  split_and!; try lia; [exact E|]. apply Nat2Z.inj_le. apply Z.nlt_ge. intros Hn. assert (2 ^ 31 <= 2 ^ Z.of_nat n) by (apply Z.pow_le_mono_r; lia). nia.
Qed.

Lemma top_bits h : h = 2 \/ h = 3 -> forall n : nat, let slot := (Z.of_nat n + 1) * 2 + Z.land h 1 in
  Z.land slot 1 = h - 2 /\ Z.lor 2 (Z.land slot 1) = h /\ slot = Z.of_nat n * 2 + h.
Proof.
  intros Hh n. cbv zeta. assert (Z.land h 1 = h - 2) as -> by (by destruct Hh as [->| ->]).
  assert (Z.land ((Z.of_nat n + 1) * 2 + (h - 2)) 1 = h - 2) as ->.
  { change 1 with (Z.ones 1) at 2. rewrite Z.land_ones by lia. change (2 ^ 1) with 2. rewrite Z.add_comm, Z.mod_add by lia. apply Z.mod_small. lia. }
  split_and!; [done|by destruct Hh as [->| ->]|lia].
Qed.

(** ** Events *)
Fixpoint tree_events (index bits : nat) (value : Z) (node : nat) : list event :=
  match bits with
  | O => []
  | S bits => Bit (index + node) (bit_of value bits) :: tree_events index bits value (next_node node (bit_of value bits))
  end.

Fixpoint reverse_events (index bits i : nat) (value : Z) (node : nat) : list event :=
  match bits with
  | O => []
  | S bits => Bit (index + node) (bit_of value i) :: reverse_events index bits (S i) value (next_node node (bit_of value i))
  end.

Definition length_events (index length : nat) : list event :=
  Bit index (10 <=? length)%nat ::
  (if (length <? 10)%nat then tree_events (index + 2 + 0) 3 (Z.of_nat (length - 2)) 1
   else Bit (index + 1) (18 <=? length)%nat ::
     (if (length <? 18)%nat then tree_events (index + 130 + 0) 3 (Z.of_nat (length - 10)) 1
      else tree_events (index + 258) 8 (Z.of_nat (length - 18)) 1)).

Fixpoint direct_events (n i : nat) (extra : Z) : list event :=
  match n with
  | O => []
  | S n => Direct (bit_of extra (i - 1)) :: direct_events n (i - 1) extra
  end.

Definition slot_of (value : Z) : Z :=
  let '(high, bits) := high_bits 32 value 0 in if 4 <=? value then (Z.of_nat bits + 1) * 2 + Z.land high 1 else value.

Definition distance_events (length : nat) (distance : Z) : list event :=
  let value := u32 (distance - 1) in
  let '(_, bits) := high_bits 32 value 0 in
  let slot := slot_of value in
  let len_state := if (length <? 6)%nat then (length - 2)%nat else 3%nat in
  tree_events (LIMLZ_SLOT + len_state * 64) 6 slot 1 ++
  (if slot <? 4 then []
   else
     let base := u32 (Z.shiftl (Z.lor 2 (Z.land slot 1)) (Z.of_nat bits)) in
     let extra := u32 (value - base) in
     if slot <? 14 then reverse_events (Z.to_nat (Z.of_nat LIMLZ_SPECIAL + base - slot - 1)) bits 0 extra 1
     else direct_events (bits - 4) bits extra ++ reverse_events LIMLZ_ALIGN 4 0 (Z.land extra 15) 1).

Fixpoint literal_events (n index node : nat) (offset match_ byte : Z) : list event :=
  match n with
  | O => []
  | S n =>
      let bit := bit_of byte n in
      let match_ := Z.shiftl match_ 1 in
      Bit (index + node + Z.to_nat (offset + Z.land match_ offset)) bit ::
      literal_events n index (next_node node bit) (if negb (Bool.eqb bit (Z.testbit match_ 8)) then 0 else offset) match_ byte
  end.

(** ** The encoder emits them *)
Section Emit.
Variable realloc : Z -> bool.
Abbreviation run := (run realloc).

Lemma encode_tree_run index bits value : forall node rc, encode_tree realloc index bits value node rc = run (tree_events index bits value node) rc.
Proof. induction bits as [|bits IH]; intros node rc; cbn; [done|]. destruct (encode_bit _ _ _ rc); cbn; auto. Qed.

Lemma encode_reverse_run index bits value : forall i node rc, encode_reverse realloc index bits i value node rc = run (reverse_events index bits i value node) rc.
Proof. induction bits as [|bits IH]; intros i node rc; cbn; [done|]. destruct (encode_bit _ _ _ rc); cbn; auto. Qed.

Lemma encode_length_run index length rc : encode_length realloc index 0 length rc = run (length_events index length) rc.
Proof.
  unfold encode_length, length_events. cbn [LimlzRange.run encode_event]. destruct (encode_bit _ _ _ rc); cbn [rbind]; try done.
  case_if; [apply encode_tree_run|]. cbn [LimlzRange.run encode_event]. destruct (encode_bit _ _ _ _); cbn [rbind]; try done. case_if; apply encode_tree_run.
Qed.

Lemma encode_direct_run n extra : forall i rc, Ok (encode_direct realloc n i extra rc) = run (direct_events n i extra) rc.
Proof. induction n as [|n IH]; intros i rc; cbn [encode_direct direct_events LimlzRange.run encode_event rbind]; [done|]. rewrite <- IH. done. Qed.

Lemma encode_distance_run length distance rc : encode_distance realloc length distance rc = run (distance_events length distance) rc.
Proof.
  unfold encode_distance, distance_events, slot_of. destruct (high_bits 32 (u32 (distance - 1)) 0) as [high bits].
  rewrite run_app, <- encode_tree_run. destruct (encode_tree _ _ _ _ _ rc) as [rc1| | |]; cbn [rbind]; try done.
  destruct (_ <? 4); [done|]. destruct (_ <? 14); [apply encode_reverse_run|]. rewrite run_app, <- encode_direct_run. apply encode_reverse_run.
Qed.

Lemma literal_bits_run n index byte : forall node offset m rc, literal_bits realloc n index node offset m byte rc = run (literal_events n index node offset m byte) rc.
Proof. induction n as [|n IH]; intros node offset m rc; cbn; [done|]. destruct (encode_bit _ _ _ rc); cbn; auto. Qed.
End Emit.

(** ** The decoder reads them *)
Section Read.
Variable realloc : Z -> bool.
Variable stream : list Z.
Hypothesis Hstream : bytes_ok stream.
Abbreviation codes := (codes realloc stream).

Fixpoint tree_end (bits : nat) (value : Z) (node : nat) : nat :=
  match bits with O => node | S bits => tree_end bits value (next_node node (bit_of value bits)) end.

Lemma tree_end_val bits value : 0 <= value -> forall node, Z.of_nat (tree_end bits value node) = Z.of_nat node * 2 ^ Z.of_nat bits + value mod 2 ^ Z.of_nat bits.
Proof.
  intros Hv. induction bits as [|bits IH]; intros node; cbn [tree_end]; [rewrite Z.mod_1_r; lia|].
  rewrite IH, next_node_Z, bit_of_double by done. rewrite Nat2Z.inj_succ, Z.pow_succ_r by lia. destruct (bit_of value bits); lia.
Qed.

Lemma d_tree_spec index bits value es : forall node d, codes (tree_events index bits value node ++ es) d ->
  exists d', d_tree index bits node d = Ok (tree_end bits value node, d') /\ codes es d'.
Proof.
  induction bits as [|bits IH]; intros node d Hc; cbn [tree_events d_tree tree_end app] in *; [by exists d|].
  destruct (codes_bit realloc stream Hstream _ _ _ _ Hc) as (d1 & E & Hc1). rewrite Nat.add_comm, E. cbn [rbind]. by apply IH.
Qed.

Fixpoint reverse_end (bits i : nat) (value : Z) (node : nat) : nat :=
  match bits with O => node | S bits => reverse_end bits (S i) value (next_node node (bit_of value i)) end.

Lemma d_reverse_tree index bits value es : forall i node d, codes (reverse_events index bits i value node ++ es) d ->
  exists d', d_tree index bits node d = Ok (reverse_end bits i value node, d') /\ codes es d'.
Proof.
  induction bits as [|bits IH]; intros i node d Hc; cbn [reverse_events d_tree reverse_end app] in *; [by exists d|].
  destruct (codes_bit realloc stream Hstream _ _ _ _ Hc) as (d1 & E & Hc1). rewrite Nat.add_comm, E. cbn [rbind]. by apply IH.
Qed.

Lemma reverse_end_snoc bits value : forall i node, reverse_end (S bits) i value node = next_node (reverse_end bits i value node) (bit_of value (i + bits)).
Proof.
  induction bits as [|bits IH]; intros i node; [cbn; by rewrite Nat.add_0_r|].
  change (reverse_end (S (S bits)) i value node) with (reverse_end (S bits) (S i) value (next_node node (bit_of value i))).
  rewrite IH. cbn [reverse_end]. by rewrite Nat.add_succ_comm.
Qed.

Lemma reverse_value_val value : 0 <= value -> forall bits acc, reverse_value bits (reverse_end bits 0 value 1) acc = acc * 2 ^ Z.of_nat bits + value mod 2 ^ Z.of_nat bits.
Proof.
  intros Hv bits. induction bits as [|bits IH]; intros acc; cbn [reverse_value]; [cbn; rewrite Z.mod_1_r; lia|].
  rewrite reverse_end_snoc, Nat.add_0_l, bit_of_double by done. set (x := reverse_end bits 0 value 1) in *.
  assert (Nat.div2 (next_node x (bit_of value bits)) = x) as ->.
  { unfold next_node. rewrite Nat.mul_comm. destruct (bit_of value bits); [by rewrite Nat.add_1_r, Nat.div2_succ_double|by rewrite Nat.add_0_r, Nat.div2_double]. }
  assert (Nat.odd (next_node x (bit_of value bits)) = bit_of value bits) as ->.
  { unfold next_node. rewrite Nat.mul_comm, Nat.add_comm, Nat.odd_add_mul_2. by destruct (bit_of value bits). }
  rewrite IH. rewrite Nat2Z.inj_succ, Z.pow_succ_r by lia. destruct (bit_of value bits); lia.
Qed.

Lemma d_reverse_spec index bits value es d : 0 <= value -> codes (reverse_events index bits 0 value 1 ++ es) d ->
  exists d', d_reverse index bits d = Ok (value mod 2 ^ Z.of_nat bits, d') /\ codes es d'.
Proof.
  intros Hv Hc. destruct (d_reverse_tree _ _ _ _ _ _ _ Hc) as (d' & E & Hc'). exists d'. split; [|done].
  unfold d_reverse. rewrite E. cbn [rbind]. by rewrite reverse_value_val.
Qed.

Lemma d_length_spec index length es d : (2 <= length <= 273)%nat -> codes (length_events index length ++ es) d ->
  exists d', d_length index d = Ok (length, d') /\ codes es d'.
Proof.
  intros Hl Hc. unfold length_events in Hc. cbn [app] in Hc. destruct (codes_bit realloc stream Hstream _ _ _ _ Hc) as (d1 & E1 & Hc1). clear Hc.
  unfold d_length. rewrite E1. cbn [rbind]. rewrite !Nat.add_0_r in Hc1.
  assert (forall bits v node, 0 <= v < 2 ^ Z.of_nat bits -> Z.of_nat (tree_end bits v node) = Z.of_nat node * 2 ^ Z.of_nat bits + v) as Hend
    by (intros bits v node Hv; rewrite tree_end_val, Z.mod_small by lia; done).
  destruct (Nat.ltb_spec length 10) as [H10|H10].
  - rewrite (proj2 (Nat.leb_gt _ _)) by lia. cbn [negb]. destruct (d_tree_spec _ _ _ _ _ _ Hc1) as (d2 & -> & Hc2). cbn [rbind].
    exists d2. split; [|done]. do 2 f_equal. specialize (Hend 3%nat (Z.of_nat (length - 2)) 1%nat). lia.
  - rewrite (proj2 (Nat.leb_le _ _)) by lia. cbn [negb]. cbn [app] in Hc1. destruct (codes_bit realloc stream Hstream _ _ _ _ Hc1) as (d2 & E2 & Hc2).
    rewrite E2. cbn [rbind]. destruct (Nat.ltb_spec length 18) as [H18|H18].
    + rewrite (proj2 (Nat.leb_gt _ _)) by lia. cbn [negb]. destruct (d_tree_spec _ _ _ _ _ _ Hc2) as (d3 & -> & Hc3). cbn [rbind].
      exists d3. split; [|done]. do 2 f_equal. specialize (Hend 3%nat (Z.of_nat (length - 10)) 1%nat). lia.
    + rewrite (proj2 (Nat.leb_le _ _)) by lia. cbn [negb]. destruct (d_tree_spec _ _ _ _ _ _ Hc2) as (d3 & -> & Hc3). cbn [rbind].
      exists d3. split; [|done]. do 2 f_equal. specialize (Hend 8%nat (Z.of_nat (length - 18)) 1%nat). lia.
Qed.

(** ** Distances *)
Fixpoint direct_end (n i : nat) (extra ebx : Z) : Z :=
  match n with O => ebx | S n => direct_end n (i - 1) extra (if bit_of extra (i - 1) then Z.setbit ebx (Z.of_nat (i - 1)) else ebx) end.

Lemma d_direct_spec n extra es : forall i ebx d, codes (direct_events n i extra ++ es) d ->
  exists d', d_direct n i ebx d = Ok (direct_end n i extra ebx, d') /\ codes es d'.
Proof.
  induction n as [|n IH]; intros i ebx d Hc; cbn [direct_events d_direct direct_end app] in *; [by exists d|].
  destruct (codes_direct realloc stream Hstream _ _ _ Hc) as (d0 & -> & Hlt & Hc'). cbn [rbind]. rewrite Hlt.
  destruct (bit_of extra (i - 1)); cbn [negb]; by apply IH.
Qed.

Lemma setbit_add x i : 0 <= i -> x mod 2 ^ (i + 1) = 0 -> Z.setbit x i = x + 2 ^ i.
Proof.
  intros Hi Hx. rewrite Z.setbit_spec'. apply Z.mod_divide in Hx as [q ->]; [|lia]. apply lor_low; [lia|]. split; [lia|]. apply Z.pow_lt_mono_r; lia.
Qed.

Lemma direct_end_val n extra : 0 <= extra -> forall i ebx, (n <= i)%nat -> ebx mod 2 ^ Z.of_nat i = 0 ->
  direct_end n i extra ebx = ebx + extra mod 2 ^ Z.of_nat i - extra mod 2 ^ Z.of_nat (i - n).
Proof.
  intros He. induction n as [|n IH]; intros i ebx Hi Hm; cbn [direct_end]; [rewrite Nat.sub_0_r; lia|].
  destruct i as [|i]; [lia|]. replace (S i - 1)%nat with i by lia. replace (S i - S n)%nat with (i - n)%nat by lia.
  rewrite bit_of_double by done. replace (Z.of_nat (S i)) with (Z.of_nat i + 1) in Hm by lia.
  assert (ebx mod 2 ^ Z.of_nat i = 0) as Hm1.
  { apply Z.mod_divide in Hm as [q ->]; [|lia]. rewrite Z.pow_add_r by lia. rewrite (Z.mul_comm (2 ^ Z.of_nat i)), Z.mul_assoc. apply Z.mod_mul. lia. }
  destruct (bit_of extra i).
  - rewrite setbit_add by lia. rewrite IH; [lia|lia|]. rewrite <- (Z.mul_1_l (2 ^ Z.of_nat i)) at 1. rewrite Z.mod_add by lia. done.
  - rewrite IH by (lia || done). lia.
Qed.

Lemma d_distance_spec length distance es d : (2 <= length)%nat -> 1 <= distance < 2 ^ 32 -> codes (distance_events length distance ++ es) d ->
  exists d', d_distance length d = Ok (distance, d') /\ codes es d'.
Proof.
  intros Hl Hd Hc. unfold distance_events, slot_of in Hc. rewrite wrap_small in Hc by lia. set (v := distance - 1) in *.
  assert ((if (length <? 6)%nat then (length - 2)%nat else 3%nat) = (if (length - 2 <=? 3)%nat then (length - 2)%nat else 3%nat)) as Hls by (repeat case_if; lia).
  unfold d_distance. rewrite <- Hls. set (idx := (LIMLZ_SLOT + _ * 64)%nat) in *.
  assert (forall s, 0 <= s < 64 -> (tree_end 6 s 1 - 64)%nat = Z.to_nat s) as Hslot.
  { intros s Hs. pose proof (tree_end_val 6 s ltac:(lia) 1). rewrite Z.mod_small in H; change (2 ^ Z.of_nat 6) with 64 in *; lia. }
  destruct (decide (v < 4)) as [H4|H4].
  - destruct (high_bits_spec 32 v 0) as (n & E & _ & Hn & _); [change (Z.of_nat 32 + 2) with 34; lia|]. rewrite E in Hc. rewrite (proj2 (Z.leb_gt _ _)) in Hc by lia.
    rewrite (proj2 (Z.ltb_lt v 4)) in Hc by lia. rewrite app_nil_r in Hc. destruct (d_tree_spec _ _ _ _ _ _ Hc) as (d' & -> & Hc'). cbn [rbind].
    rewrite Hslot by lia. rewrite (proj2 (Nat.ltb_lt _ _)) by lia. exists d'. split; [|done]. do 2 f_equal. rewrite wrap_small by lia. lia.
  - destruct (high_bits_large v) as (n & h & extra & E & Hn & Hh & Hv & Hex); [lia|]. rewrite E in Hc. rewrite (proj2 (Z.leb_le _ _)) in Hc by lia.
    destruct (top_bits h Hh n) as (Ht1 & Ht2 & Ht3). set (slot := (Z.of_nat n + 1) * 2 + Z.land h 1) in *. cbv zeta in Hc. rewrite Ht2 in Hc.
    assert (1 <= n)%nat as Hn1. { destruct n; [|lia]. change (2 ^ Z.of_nat 0) with 1 in *. lia. }
    assert (2 ^ Z.of_nat n <= 2 ^ 30) as Hp30 by (apply Z.pow_le_mono_r; lia).
    rewrite (proj2 (Z.ltb_ge slot 4)) in Hc by lia. rewrite Z.shiftl_mul_pow2, (wrap_small 32 (h * 2 ^ Z.of_nat n)) in Hc by lia.
    rewrite wrap_small in Hc by lia. replace (v - h * 2 ^ Z.of_nat n) with extra in Hc by lia. rewrite <- app_assoc in Hc.
    destruct (d_tree_spec _ _ _ _ _ _ Hc) as (d1 & -> & Hc1). cbn [rbind]. rewrite Hslot by lia.
    rewrite (proj2 (Nat.ltb_ge (Z.to_nat slot) 4)) by lia. rewrite Z2Nat.id by lia.
    assert (Z.to_nat slot / 2 - 1 = n)%nat as ->.
    { replace (Z.to_nat slot) with (n + 1 + (n + 1) + Z.to_nat (h - 2))%nat by lia. destruct Hh as [-> | ->].
      - change (Z.to_nat (2 - 2)) with 0%nat. replace (n + 1 + (n + 1) + 0)%nat with ((n + 1) * 2)%nat by lia. rewrite Nat.div_mul by lia. lia.
      - change (Z.to_nat (3 - 2)) with 1%nat. replace (n + 1 + (n + 1) + 1)%nat with (1 + (n + 1) * 2)%nat by lia. rewrite Nat.div_add by lia. cbn. lia. }
    rewrite (Z.lor_comm _ 2), Ht2, Z.shiftl_mul_pow2, (wrap_small 32 (h * 2 ^ Z.of_nat n)) by lia.
    destruct (Z.ltb_spec slot 14) as [H14|H14].
    + rewrite (proj2 (Nat.ltb_lt (Z.to_nat slot) 14)) by lia. 
      replace (h * 2 ^ Z.of_nat n - slot + Z.of_nat LIMLZ_SPECIAL - 1) with (Z.of_nat LIMLZ_SPECIAL + h * 2 ^ Z.of_nat n - slot - 1) by lia.
      destruct (d_reverse_spec _ _ _ _ _ (proj1 Hex) Hc1) as (d2 & -> & Hc2). cbn [rbind]. exists d2. split; [|done]. do 2 f_equal.
      rewrite Z.mod_small by lia. rewrite wrap_small by lia. lia.
    + rewrite (proj2 (Nat.ltb_ge (Z.to_nat slot) 14)) by lia. rewrite <- app_assoc in Hc1.
      destruct (d_direct_spec _ _ _ _ (h * 2 ^ Z.of_nat n) _ Hc1) as (d2 & -> & Hc2). cbn [rbind].
      assert (Z.land extra 15 = extra mod 16) as Hl15 by (change 15 with (Z.ones 4); rewrite Z.land_ones by lia; done). rewrite Hl15 in Hc2.
      pose proof (Z.mod_pos_bound extra 16 ltac:(lia)) as H16.
      destruct (d_reverse_spec _ _ _ _ _ (proj1 H16) Hc2) as (d3 & -> & Hc3). cbn [rbind]. exists d3. split; [|done]. do 2 f_equal.
      rewrite direct_end_val by (try lia; apply Z.mod_mul; lia). replace (n - (n - 4))%nat with 4%nat by lia. change (2 ^ Z.of_nat 4) with 16.
      rewrite (Z.mod_small (extra mod 16)) by lia. rewrite (Z.mod_small extra) by lia. rewrite wrap_small by lia. lia.
Qed.

(** ** Literals *)
Lemma d_literal_bits_spec index byte es : 0 <= byte -> forall n node bh m d, bh = 0 \/ bh = 1 ->
  codes (literal_events n index node (bh * 256) m byte ++ es) d ->
  exists d', d_literal_bits n index node bh m d = Ok (tree_end n byte node, d') /\ codes es d'.
Proof.
  intros Hb n. induction n as [|n IH]; intros node bh m d Hbh Hc; cbn [literal_events d_literal_bits tree_end app] in *; [by exists d|].
  destruct (codes_bit realloc stream Hstream _ _ _ _ Hc) as (d1 & E & Hc1). set (m' := Z.shiftl m 1) in *.
  assert ((Z.to_nat (Z.land (Z.land (bh * 256) m') 256) + (Z.to_nat (bh * 256) + node) + index = index + node + Z.to_nat (bh * 256 + Z.land m' (bh * 256)))%nat) as ->.
  { assert (Z.land (Z.land (bh * 256) m') 256 = Z.land m' (bh * 256)) as ->.
    { destruct Hbh as [->| ->]; [by rewrite Z.mul_0_l, Z.land_0_l, Z.land_0_r|]. rewrite Z.mul_1_l, (Z.land_comm 256 m'), <- Z.land_assoc. done. }
    assert (0 <= Z.land m' (bh * 256)) by (apply Z.land_nonneg; lia). lia. }
  rewrite E. cbn [rbind]. destruct (Z.testbit m' 8), (bit_of byte n); cbn [Bool.eqb negb] in *; apply IH; auto.
Qed.
End Read.
