(* ===== verification/LimlzLoop.v ===== *)
(** * The main loops of compressor and decompressor

    Whatever matches are chosen, if they are matches, every turn of the encoder's
    loop emits bits from which a turn of the decoder's loop produces the same bytes
    and reaches the same state. *)

From S2P Require Import Prelude CInt Limlz LimlzDec LimlzRange LimlzSymbols.

(** ** Events within the tables *)
Definition valid_event (e : event) : Prop := match e with Bit i _ => (i < LIMLZ_PROBS)%nat | Direct _ => True end.

Lemma next_node_le node b : (next_node node b <= 2 * node + 1)%nat.
Proof. unfold next_node. destruct b; lia. Qed.

Lemma tree_valid index bits value : forall node, (index + (node + 1) * 2 ^ bits <= LIMLZ_PROBS)%nat ->
  Forall valid_event (tree_events index bits value node) /\ length (tree_events index bits value node) = bits.
Proof.
  induction bits as [|bits IH]; intros node Hn; cbn [tree_events length]; [done|]. pose proof (next_node_le node (bit_of value bits)).
  assert (0 < 2 ^ bits)%nat by (apply Nat.neq_0_lt_0, Nat.pow_nonzero; lia). cbn [Nat.pow] in Hn.
  destruct (IH (next_node node (bit_of value bits))) as [H1 H2]; [nia|]. split; [|lia]. constructor; [cbn; nia|done].
Qed.

Lemma reverse_valid index bits value : forall i node, (index + (node + 1) * 2 ^ bits <= LIMLZ_PROBS)%nat ->
  Forall valid_event (reverse_events index bits i value node) /\ length (reverse_events index bits i value node) = bits.
Proof.
  induction bits as [|bits IH]; intros i node Hn; cbn [reverse_events length]; [done|]. pose proof (next_node_le node (bit_of value i)).
  assert (0 < 2 ^ bits)%nat by (apply Nat.neq_0_lt_0, Nat.pow_nonzero; lia). cbn [Nat.pow] in Hn.
  destruct (IH (S i) (next_node node (bit_of value i))) as [H1 H2]; [nia|]. split; [|lia]. constructor; [cbn; nia|done].
Qed.

Lemma length_valid index length : (index <= LIMLZ_REP_LENGTH)%nat ->
  Forall valid_event (length_events index length) /\ (List.length (length_events index length) <= 10)%nat.
Proof.
  unfold LIMLZ_REP_LENGTH. intros Hi. unfold length_events. 
  assert (forall i, (i < LIMLZ_PROBS)%nat -> forall b, valid_event (Bit i b)) as Hb by done. unfold LIMLZ_PROBS in *.
  repeat case_if; cbn [List.length].
  - destruct (tree_valid (index + 2 + 0) 3 (Z.of_nat (length - 2)) 1) as [H1 H2]; [unfold LIMLZ_PROBS; cbn; lia|]. rewrite H2. split; [|lia]. constructor; [apply Hb; lia|done].
  - destruct (tree_valid (index + 130 + 0) 3 (Z.of_nat (length - 10)) 1) as [H1 H2]; [unfold LIMLZ_PROBS; cbn; lia|]. rewrite H2. split; [|lia].
    constructor; [apply Hb; lia|]. constructor; [apply Hb; lia|done].
  - destruct (tree_valid (index + 258) 8 (Z.of_nat (length - 18)) 1) as [H1 H2]; [unfold LIMLZ_PROBS; cbn; lia|]. rewrite H2. split; [|lia].
    constructor; [apply Hb; lia|]. constructor; [apply Hb; lia|done].
Qed.

Lemma direct_valid n extra : forall i, Forall valid_event (direct_events n i extra) /\ length (direct_events n i extra) = n.
Proof. induction n as [|n IH]; intros i; cbn [direct_events length]; [done|]. destruct (IH (i - 1)%nat) as [H1 ->]. split; [by constructor|done]. Qed.

Lemma distance_valid length distance : 1 <= distance < 2 ^ 32 ->
  Forall valid_event (distance_events length distance) /\ (List.length (distance_events length distance) <= 36)%nat.
Proof.
  intros Hd. unfold distance_events, slot_of. rewrite wrap_small by lia. set (v := distance - 1).
  assert (forall s, Forall valid_event (tree_events (LIMLZ_SLOT + (if (length <? 6)%nat then (length - 2)%nat else 3%nat) * 64) 6 s 1) /\
    List.length (tree_events (LIMLZ_SLOT + (if (length <? 6)%nat then (length - 2)%nat else 3%nat) * 64) 6 s 1) = 6%nat) as Hslot.
  { intros s. apply tree_valid. unfold LIMLZ_SLOT, LIMLZ_PROBS. cbn [Nat.pow Nat.mul Nat.add]. case_if; lia. }
  destruct (decide (v < 4)) as [H4|H4].
  - destruct (high_bits_spec 32 v 0) as (n & -> & _); [change (Z.of_nat 32 + 2) with 34; lia|]. rewrite (proj2 (Z.leb_gt 4 v)) by lia.
    rewrite (proj2 (Z.ltb_lt v 4)) by lia. rewrite app_nil_r. destruct (Hslot v) as [H1 ->]. split; [done|lia].
  - destruct (high_bits_large v) as (n & h & extra & -> & Hn & Hh & Hv & Hex); [lia|]. rewrite (proj2 (Z.leb_le _ _)) by lia.
    destruct (top_bits h Hh n) as (Ht1 & Ht2 & Ht3). set (slot := (Z.of_nat n + 1) * 2 + Z.land h 1) in *. cbv zeta. rewrite Ht2.
    assert (2 ^ Z.of_nat n <= 2 ^ 30) as Hp30 by (apply Z.pow_le_mono_r; lia).
    rewrite Z.shiftl_mul_pow2, (wrap_small 32 (h * 2 ^ Z.of_nat n)) by lia. destruct (Hslot slot) as [H1 H2]. rewrite length_app, H2. 
    assert (1 <= n)%nat as Hn1 by (destruct n; [change (2 ^ Z.of_nat 0) with 1 in *; lia|lia]).
    rewrite (proj2 (Z.ltb_ge slot 4)) by lia. destruct (Z.ltb_spec slot 14).
    + assert (n <= 5)%nat as Hn5 by lia. assert (2 ^ Z.of_nat n <= 2 ^ 5) by (apply Z.pow_le_mono_r; lia). assert (2 ^ n <= 2 ^ 5)%nat by (apply Nat.pow_le_mono_r; lia).
      edestruct (reverse_valid (Z.to_nat (Z.of_nat LIMLZ_SPECIAL + h * 2 ^ Z.of_nat n - slot - 1)) n) as [Hv1 Hv2]; [|split; [apply Forall_app; split; [done|exact Hv1]|rewrite Hv2; lia]].
      unfold LIMLZ_SPECIAL, LIMLZ_PROBS. change (2 ^ 5)%nat with 32%nat in *. change (2 ^ 5) with 32 in *. lia.
    + set (e := u32 _). destruct (direct_valid (n - 4) e n) as [Hv1 Hv2]. destruct (reverse_valid LIMLZ_ALIGN 4 (Z.land e 15) 0 1) as [H5 H6]; [unfold LIMLZ_ALIGN, LIMLZ_PROBS; cbn; lia|].
      rewrite length_app, Hv2, H6. split; [|lia]. rewrite !Forall_app. done.
Qed.

Lemma land_256 x : Z.land x 256 = 0 \/ Z.land x 256 = 256.
Proof.
  destruct (Z.testbit x 8) eqn:E; [right|left]; apply Z.bits_inj'; intros k Hk; change 256 with (2 ^ 8); rewrite Z.land_spec, ?Z.bits_0, Z.pow2_bits_eqb by lia;
    (destruct (Z.eqb_spec 8 k) as [<-|]; [by rewrite E|by rewrite andb_false_r]).
Qed.

Lemma literal_valid index byte : (index + 768 <= LIMLZ_PROBS)%nat -> forall n node offset m, offset = 0 \/ offset = 256 -> ((node + 1) * 2 ^ n <= 512)%nat ->
  Forall valid_event (literal_events n index node offset m byte) /\ length (literal_events n index node offset m byte) = n.
Proof.
  intros Hi. induction n as [|n IH]; intros node offset m Ho Hn; cbn [literal_events length]; [done|]. pose proof (next_node_le node (bit_of byte n)).
  assert (0 < 2 ^ n)%nat by (apply Nat.neq_0_lt_0, Nat.pow_nonzero; lia). cbn [Nat.pow] in Hn.
  edestruct (IH (next_node node (bit_of byte n))) as [H1 H2]; [| |split; [constructor; [|exact H1]|by rewrite H2]].
  - destruct (negb _); [by left|done].
  - nia.
  - cbn. assert (0 <= Z.land (Z.shiftl m 1) offset <= 256) as Hx.
    { destruct Ho as [->| ->]; [rewrite Z.land_0_r; lia|]. destruct (land_256 (Z.shiftl m 1)) as [->| ->]; lia. }
    nia.
Qed.

(** ** One turn *)
Section Loop.
Variable realloc : Z -> bool.
Variable data : list Z.
Abbreviation size := (length data).
Hypothesis Hbytes : bytes_ok data.
Hypothesis Hsize : Z.of_nat size < 2 ^ 32.

Definition valid_choice (pos : nat) (m : match_) : Prop :=
  m = MkMatch 1 0 \/
  (2 <= length_ m <= 273)%nat /\ (pos + length_ m <= size)%nat /\ 1 <= distance m <= Z.of_nat pos /\
  forall i, (i < length_ m)%nat -> data !! (pos + i)%nat = data !! (pos - Z.to_nat (distance m) + i)%nat.

(** What holds between the turns of the loop. *)
Definition steady (pos state : nat) (reps : list Z) : Prop :=
  (pos <= size)%nat /\ (state <= 11)%nat /\
  exists r0 r1 r2 r3, reps = [r0; r1; r2; r3] /\ Forall (fun r => 1 <= r < 2 ^ 32) reps /\ ((7 <= state)%nat -> r0 <= Z.of_nat pos).

Definition turn (f : range_encoder -> res coder) (pos state : nat) (reps : list Z) : Prop :=
  exists es pos' state' reps',
    (forall rc, f rc = rbind (run realloc es rc) (fun rc => Ok (MkCoder pos' state' reps' rc))) /\
    Forall valid_event es /\ (length es <= 64)%nat /\ steady pos' state' reps' /\ (pos < pos')%nat /\
    forall stream rest s, bytes_ok stream -> codes realloc stream (es ++ rest) (m_dec s) -> m_out s = take pos data -> m_state s = state -> m_reps s = reps ->
      exists s', d_next (Z.of_nat size) s = Ok s' /\ m_out s' = take pos' data /\ m_state s' = state' /\ m_reps s' = reps' /\ codes realloc stream rest (m_dec s').

(** *** Copying *)
Lemma movsb_spec d n : forall pos, (1 <= d <= pos)%nat -> (pos + n <= size)%nat -> (forall i, (i < n)%nat -> data !! (pos + i)%nat = data !! (pos - d + i)%nat) ->
  movsb n (pos - d) (take pos data) = Ok (take (pos + n) data).
Proof.
  induction n as [|n IH]; intros pos Hd Hn Hm; cbn [movsb]; [by rewrite Nat.add_0_r|].
  destruct (lookup_lt_is_Some_2 data pos) as [b Hb]; [lia|]. pose proof (Hm 0%nat ltac:(lia)) as H0. rewrite !Nat.add_0_r in H0.
  erewrite rd_lookup; [|rewrite lookup_take_lt by lia; rewrite <- H0; exact Hb]. cbn [rbind]. rewrite <- (take_S_r _ _ _ Hb).
  replace (S (pos - d)) with (S pos - d)%nat by lia. rewrite IH; [f_equal; f_equal; lia|lia|lia|].
  intros i Hi. replace (S pos + i)%nat with (pos + S i)%nat by lia. rewrite Hm by lia. f_equal. lia.
Qed.

Lemma stosb_spec b n : forall pos, (1 <= pos)%nat -> (pos + n <= size)%nat -> data !! (pos - 1)%nat = Some b ->
  (forall i, (i < n)%nat -> data !! (pos + i)%nat = data !! (pos - 1 + i)%nat) -> take pos data ++ replicate n b = take (pos + n) data.
Proof.
  induction n as [|n IH]; intros pos Hp Hn Hb Hm; [by rewrite app_nil_r, Nat.add_0_r|].
  pose proof (Hm 0%nat ltac:(lia)) as H0. rewrite !Nat.add_0_r, Hb in H0. cbn [replicate]. rewrite cons_middle, app_assoc, <- (take_S_r _ _ _ H0).
  rewrite IH; [f_equal; lia|lia|lia|by replace (S pos - 1)%nat with pos by lia|].
  intros i Hi. replace (S pos + i)%nat with (pos + S i)%nat by lia. rewrite Hm by lia. f_equal. lia.
Qed.

Lemma d_copy_spec pos n dist d state reps : (pos + n <= size)%nat -> 1 <= dist <= Z.of_nat pos ->
  (forall i, (i < n)%nat -> data !! (pos + i)%nat = data !! (pos - Z.to_nat dist + i)%nat) ->
  d_copy (Z.of_nat size) n (MkMachine d state (dist :: reps) (take pos data)) = Ok (MkMachine d state (dist :: reps) (take (pos + n) data)).
Proof.
  intros Hn Hd Hm. unfold d_copy. cbn [m_out m_reps m_dec m_state]. rewrite length_take. replace (pos `min` size)%nat with pos by lia. cbn [rd of_option lookup list_lookup rbind].
  rewrite (proj2 (Z.ltb_ge (Z.of_nat pos) dist)) by lia. rewrite (proj2 (Z.eqb_neq dist 0)) by lia. cbn [orb].
  rewrite (proj2 (Z.ltb_ge _ (Z.of_nat n))) by lia. destruct (Z.eqb_spec dist 1) as [->|Hne].
  - destruct (lookup_lt_is_Some_2 data (pos - 1)) as [b Hb]; [lia|]. erewrite rd_lookup; [|rewrite lookup_take_lt by lia; exact Hb]. cbn [rbind].
    by rewrite (stosb_spec b) by (try lia; done).
  - replace (Z.to_nat (Z.of_nat pos - dist)) with (pos - Z.to_nat dist)%nat by lia. by rewrite movsb_spec by (try lia; done).
Qed.

Ltac read_bit Hs H :=
  let d := fresh "d" in let E := fresh "E" in let H' := fresh "Hc" in
  destruct (codes_bit _ _ Hs _ _ _ _ H) as (d & E & H'); clear H; rename H' into H; rewrite E; cbn [rbind negb]; clear E.

Ltac valid_bits :=
  repeat (apply Forall_cons_2; [unfold valid_event, LIMLZ_IS_REP, LIMLZ_REP_G0, LIMLZ_REP_G1, LIMLZ_REP_G2, LIMLZ_REP_LONG, LIMLZ_PROBS; lia|]); try apply Forall_nil_2.

(** *** A byte by itself *)
Lemma run_bit i b es rc : run realloc (Bit i b :: es) rc = rbind (encode_bit realloc i b rc) (run realloc es).
Proof. done. Qed.

Lemma short_rep_turn pos state reps r0 b : steady pos state reps -> reps !! 0%nat = Some r0 -> (pos < size)%nat -> r0 <= Z.of_nat pos ->
  data !! pos = Some b -> data !! (pos - Z.to_nat r0)%nat = Some b ->
  turn (fun rc => encode_single realloc data (MkCoder pos state reps rc)) pos state reps.
Proof.
  intros (Hp & Hst & q0 & r1 & r2 & r3 & -> & Hrs & Hr0) [= ->] Hlt Hle Hb Hb'. inversion Hrs as [|? ? H1 _]; subst.
  exists [Bit (state * 16) true; Bit (LIMLZ_IS_REP + state) true; Bit (LIMLZ_REP_G0 + state) false; Bit (LIMLZ_REP_LONG + state * 16) false],
    (S pos), (if (state <? 7)%nat then 9%nat else 11%nat), [r0; r1; r2; r3]. split_and!.
  - intros rc. unfold encode_single. cbn [rd of_option lookup list_lookup rbind]. rewrite (proj2 (Z.leb_le _ _)) by done.
    rewrite (rd_lookup _ _ _ Hb). cbn [rbind]. replace (Z.to_nat (Z.of_nat pos - r0)) with (pos - Z.to_nat r0)%nat by lia. rewrite (rd_lookup _ _ _ Hb'). cbn [rbind]. rewrite Z.eqb_refl.
    rewrite !run_bit. destruct (encode_bit _ _ _ rc) as [rc1| | |]; cbn [rbind]; try done. rewrite !run_bit. destruct (encode_bit _ _ _ rc1) as [rc2| | |]; cbn [rbind]; try done.
    rewrite !run_bit. destruct (encode_bit _ _ _ rc2) as [rc3| | |]; cbn [rbind]; try done. rewrite !run_bit. by destruct (encode_bit _ _ _ rc3).
  - valid_bits.
  - cbn. lia.
  - split; [lia|]. split; [case_if; lia|]. exists r0, r1, r2, r3. split_and!; try done. lia.
  - lia.
  - intros stream rest s Hs Hc Ho Hms Hmr. unfold d_next. rewrite Hms. cbn [app] in Hc. read_bit Hs Hc. unfold d_match. rewrite Hmr, Hms. cbn [rbind].
    read_bit Hs Hc. read_bit Hs Hc. read_bit Hs Hc. rewrite Ho. rewrite (d_copy_spec pos 1 r0); [|lia|lia|].
    + eexists. split; [reflexivity|]. cbn [m_out m_state m_reps m_dec]. split_and!; try done; [f_equal; lia|]. by case_if.
    + intros i Hi. replace i with 0%nat by lia. rewrite !Nat.add_0_r. congruence.
Qed.

Lemma literal_turn pos state reps r0 b : steady pos state reps -> reps !! 0%nat = Some r0 -> (pos < size)%nat ->
  data !! pos = Some b -> (r0 <= Z.of_nat pos -> data !! (pos - Z.to_nat r0)%nat <> Some b) ->
  turn (fun rc => encode_single realloc data (MkCoder pos state reps rc)) pos state reps.
Proof.
  intros (Hp & Hst & q0 & r1 & r2 & r3 & -> & Hrs & Hr0) [= ->] Hlt Hb Hne. inversion Hrs as [|? ? H1 _]; subst.
  pose proof (Forall_lookup_1 _ _ _ _ Hbytes Hb) as Hbb. unfold is_byte in Hbb.
  set (prev := match last (take pos data) with Some b => b | None => 0 end).
  set (index := (LIMLZ_LITERAL + Z.to_nat (Z.shiftr prev 6) * 768)%nat).
  assert (exists m, (if (7 <=? state)%nat then rd data (Z.to_nat (Z.of_nat pos - r0)) else Ok 0) = Ok m) as [m Hm].
  { case_if; [|by exists 0]. specialize (Hr0 ltac:(lia)). destruct (lookup_lt_is_Some_2 data (Z.to_nat (Z.of_nat pos - r0))) as [m Hm]; [lia|]. exists m. by apply rd_lookup. }
  set (bh := if (7 <=? state)%nat then 1 else 0).
  assert (0 <= prev < 256) as Hprev.
  { unfold prev. destruct (last (take pos data)) as [x|] eqn:E; [|lia]. rewrite last_lookup in E. apply lookup_take_Some in E as [E _].
    by apply (Forall_lookup_1 _ _ _ _ Hbytes) in E. }
  assert (match pos with O => Ok 0 | S p => rd data p end = Ok prev) as Hpr.
  { unfold prev. rewrite last_lookup, length_take. destruct pos as [|p]; [done|]. replace (Nat.pred (S p `min` size)) with p by lia.
    destruct (lookup_lt_is_Some_2 data p) as [x Hx]; [lia|]. rewrite lookup_take_lt, Hx by lia. by apply rd_lookup. }
  assert (index + 768 <= LIMLZ_PROBS)%nat as Hidx.
  { unfold index, LIMLZ_LITERAL, LIMLZ_PROBS. rewrite Z.shiftr_div_pow2 by lia. change (2 ^ 6) with 64.
    assert (prev / 64 <= 3) by (apply Z.lt_succ_r, Z.div_lt_upper_bound; lia). assert (0 <= prev / 64) by (apply Z.div_pos; lia). lia. }
  assert (bh * 256 = if (7 <=? state)%nat then 256 else 0) as Hbh by (unfold bh; by case_if).
  destruct (literal_valid index b Hidx 8 1 (bh * 256) m) as [Hv Hl]; [rewrite Hbh; case_if; auto|cbn; lia|].
  exists (Bit (state * 16) false :: literal_events 8 index 1 (bh * 256) m b), (S pos),
    (if (state <? 4)%nat then 0%nat else if (state <? 10)%nat then (state - 3)%nat else (state - 6)%nat), [r0; r1; r2; r3]. split_and!.
  - intros rc. unfold encode_single. cbn [rd of_option lookup list_lookup rbind].
    assert ((if r0 <=? Z.of_nat pos then let! a := rd data pos in let! b0 := rd data (Z.to_nat (Z.of_nat pos - r0)) in Ok (a =? b0) else Ok false) = Ok false) as ->.
    { case_if; [|done]. rewrite (rd_lookup _ _ _ Hb). cbn [rbind]. replace (Z.to_nat (Z.of_nat pos - r0)) with (pos - Z.to_nat r0)%nat by lia.
      destruct (lookup_lt_is_Some_2 data (pos - Z.to_nat r0)) as [x Hx]; [lia|]. rewrite (rd_lookup _ _ _ Hx). cbn [rbind]. f_equal. apply Z.eqb_neq. intros ->.
      by apply Hne. }
    cbn [rbind]. rewrite run_bit. destruct (encode_bit _ _ _ rc) as [rc1| | |]; cbn [rbind]; try done. unfold encode_literal. rewrite Hpr. cbn [rbind].
    rewrite <- Hbh. assert ((if negb (bh * 256 =? 0) then rd data (Z.to_nat (Z.of_nat pos - r0)) else Ok 0) = Ok m) as ->.
    { rewrite <- Hm. unfold bh. by destruct (7 <=? state)%nat. }
    cbn [rbind]. rewrite (rd_lookup _ _ _ Hb). cbn [rbind]. rewrite literal_bits_run. fold index. by destruct (run _ _ rc1).
  - constructor; [|done]. unfold valid_event, LIMLZ_PROBS. lia.
  - cbn [length]. rewrite Hl. lia.
  - split; [lia|]. split; [repeat case_if; lia|]. exists r0, r1, r2, r3. split_and!; try done. repeat case_if; lia.
  - lia.
  - intros stream rest s Hs Hc Ho Hms Hmr. unfold d_next. rewrite Hms. cbn [app] in Hc. read_bit Hs Hc. unfold d_literal. rewrite Hmr, Hms, Ho.
    cbn [rd of_option lookup list_lookup rbind].
    assert ((if (7 <=? state)%nat then let! b0 := (if r0 <=? Z.of_nat (length (take pos data)) then rd (take pos data) (Z.to_nat (Z.of_nat (length (take pos data)) - r0)) else Fault) in Ok (1, b0) else Ok (0, 0)) = Ok (bh, m)) as ->.
    { unfold bh. destruct (Nat.leb_spec 7 state) as [H7|H7]; [|congruence]. specialize (Hr0 H7). rewrite length_take. replace (pos `min` size)%nat with pos by lia.
      rewrite (proj2 (Z.leb_le _ _)) by done. apply rd_inv in Hm. erewrite rd_lookup; [cbn [rbind]; reflexivity|]. rewrite lookup_take_lt by lia. done. }
    cbn [rbind]. fold prev. replace (Z.to_nat (Z.shiftr prev 6) * 768 + LIMLZ_LITERAL)%nat with index by (unfold index; lia).
    destruct (d_literal_bits_spec realloc stream Hs index b rest (proj1 Hbb) 8 1 bh m _ ltac:(unfold bh; case_if; auto) Hc) as (d' & -> & Hc'). cbn [rbind].
    eexists. split; [reflexivity|]. cbn [m_out m_state m_reps m_dec]. split_and!; try done.
    + rewrite tree_end_val by lia. rewrite (take_S_r _ _ _ Hb). do 2 f_equal. change (2 ^ Z.of_nat 8) with 256. unfold wrap. change (2 ^ 8) with 256.
      rewrite (Z.mod_small b) by lia. rewrite Z.add_comm, Z.mod_add, Z.mod_small by lia. done.
    + repeat case_if; lia.
Qed.

(** *** A match *)
Ltac emit_bits :=
  repeat match goal with
  | |- context [encode_bit realloc ?i ?b ?rc] => rewrite ?run_bit; destruct (encode_bit realloc i b rc) as [?rc| | |]; cbn [rbind]; try done
  end.

Section Match.
Variables (pos state n : nat) (r0 r1 r2 r3 dist : Z).
Abbreviation reps := [r0; r1; r2; r3].
Hypothesis Hsteady : steady pos state reps.
Hypothesis Hn : (2 <= n <= 273)%nat.
Hypothesis Hfit : (pos + n <= size)%nat.
Hypothesis Hdist : 1 <= dist <= Z.of_nat pos.
Hypothesis Hcopy : forall i, (i < n)%nat -> data !! (pos + i)%nat = data !! (pos - Z.to_nat dist + i)%nat.

(** The bits before the length decide what comes first of the distances used last. *)
Definition rep_bits (k : nat) : list event :=
  [Bit (state * 16) true; Bit (LIMLZ_IS_REP + state) true; Bit (LIMLZ_REP_G0 + state) (negb (k =? 0)%nat)] ++
  match k with
  | 0 => [Bit (LIMLZ_REP_LONG + state * 16) true]
  | 1 => [Bit (LIMLZ_REP_G1 + state) false]
  | _ => [Bit (LIMLZ_REP_G1 + state) true; Bit (LIMLZ_REP_G2 + state) (k =? 3)%nat]
  end%nat.

Definition rep_order (k : nat) : list Z :=
  match k with 0 => [dist; r1; r2; r3] | 1 => [dist; r0; r2; r3] | 2 => [dist; r0; r1; r3] | _ => [dist; r0; r1; r2] end%nat.

Lemma reps_ok l : Forall (fun r => 1 <= r < 2 ^ 32) l -> 1 <= dist < 2 ^ 32 -> Forall (fun r => 1 <= r < 2 ^ 32) (dist :: l).
Proof. by constructor. Qed.

Lemma rep_order_steady k state' : (state' <= 11)%nat -> steady (pos + n) state' (rep_order k).
Proof.
  intros Hs. destruct Hsteady as (Hp & _ & q0 & q1 & q2 & q3 & [= <- <- <- <-] & Hr & _).
  inversion Hr as [|? ? H0 Hr1]; subst. inversion Hr1 as [|? ? H1 Hr2]; subst. inversion Hr2 as [|? ? H2 Hr3]; subst. inversion Hr3 as [|? ? H3 _]; subst.
  split; [done|]. split; [done|]. destruct k as [|[|[|k]]]; cbn [rep_order]; do 4 eexists; (split; [reflexivity|]); (split; [repeat (apply Forall_cons_2; [lia|]); by apply Forall_nil_2|lia]).
Qed.

Lemma rep_turn k : (k < 4)%nat -> find_rep dist reps = k -> reps !! k = Some dist ->
  turn (fun rc => encode_match realloc (MkMatch n dist) (MkCoder pos state reps rc)) pos state reps.
Proof.
  intros Hk Hf Hd. pose proof Hsteady as (Hp & Hst & _). destruct (length_valid LIMLZ_REP_LENGTH n ltac:(lia)) as [Hlv Hll].
  exists (rep_bits k ++ length_events LIMLZ_REP_LENGTH n), (pos + n)%nat, (if (state <? 7)%nat then 8%nat else 11%nat), (rep_order k). split_and!.
  - intros rc. unfold encode_match. cbn [distance length_]. rewrite Hf.
    destruct k as [|[|[|[|k]]]]; [..|lia]; cbn [Nat.ltb Nat.leb Nat.eqb negb rep_bits app rbind]; rewrite run_bit; emit_bits; rewrite encode_length_run; destruct (run _ _ _); done.
  - apply Forall_app. split; [|done]. destruct k as [|[|[|k]]]; cbn [rep_bits app]; valid_bits.
  - rewrite length_app. destruct k as [|[|[|k]]]; cbn [rep_bits app length]; lia.
  - apply rep_order_steady. case_if; lia.
  - lia.
  - intros stream rest s Hs Hc Ho Hms Hmr. unfold d_next. rewrite Hms, <- app_assoc in *.
    assert (forall d d0 l, codes realloc stream (length_events LIMLZ_REP_LENGTH n ++ rest) d -> d0 = dist ->
      exists s', (let! (length, d) := d_length LIMLZ_REP_LENGTH d in d_copy (Z.of_nat size) length (MkMachine d (Nat.lor (if (state <? 7)%nat then 0%nat else 3%nat) 8) (d0 :: l) (m_out s))) = Ok s' /\
        m_out s' = take (pos + n) data /\ m_state s' = (if (state <? 7)%nat then 8%nat else 11%nat) /\ m_reps s' = dist :: l /\ codes realloc stream rest (m_dec s')) as Hend.
    { intros d d0 l Hcl ->. destruct (d_length_spec realloc stream Hs _ _ _ _ Hn Hcl) as (d' & -> & Hc'). cbn [rbind]. rewrite Ho, d_copy_spec by done.
      eexists. split; [reflexivity|]. cbn [m_out m_state m_reps m_dec]. split_and!; try done. by case_if. }
    destruct k as [|[|[|[|k]]]]; [..|lia]; injection Hd as Hd; cbn [rep_bits app Nat.eqb negb] in Hc;
      read_bit Hs Hc; unfold d_match; rewrite Hmr, Hms; cbn [rbind]; read_bit Hs Hc; read_bit Hs Hc; read_bit Hs Hc.
    + rewrite Hd. by apply Hend.
    + by apply Hend.
    + read_bit Hs Hc. by apply Hend.
    + read_bit Hs Hc. by apply Hend.
Qed.

Lemma new_turn : find_rep dist reps = 4%nat -> turn (fun rc => encode_match realloc (MkMatch n dist) (MkCoder pos state reps rc)) pos state reps.
Proof.
  intros Hf. pose proof Hsteady as (Hp & Hst & _). destruct (length_valid LIMLZ_LENGTH n ltac:(unfold LIMLZ_LENGTH, LIMLZ_REP_LENGTH; lia)) as [Hlv Hll].
  destruct (distance_valid n dist ltac:(lia)) as [Hdv Hdl].
  exists ([Bit (state * 16) true; Bit (LIMLZ_IS_REP + state) false] ++ length_events LIMLZ_LENGTH n ++ distance_events n dist), (pos + n)%nat,
    (if (state <? 7)%nat then 7%nat else 10%nat), (rep_order 3). split_and!.
  - intros rc. unfold encode_match. cbn [distance length_]. rewrite Hf. cbn [Nat.ltb Nat.leb app]. rewrite run_bit. emit_bits.
    rewrite run_app, encode_length_run. destruct (run _ (length_events _ _) _) as [rc2| | |]; cbn [rbind]; try done.
    rewrite encode_distance_run. by destruct (run _ _ rc2).
  - rewrite !Forall_app. split_and!; [valid_bits|done|done].
  - rewrite !length_app. cbn [length]. lia.
  - apply rep_order_steady. case_if; lia.
  - lia.
  - intros stream rest s Hs Hc Ho Hms Hmr. unfold d_next. rewrite Hms, <- !app_assoc in *. cbn [app] in Hc. read_bit Hs Hc. unfold d_match. rewrite Hmr, Hms. cbn [rbind].
    read_bit Hs Hc. destruct (d_length_spec realloc stream Hs _ _ _ _ Hn Hc) as (d1 & -> & Hc1). cbn [rbind].
    destruct (d_distance_spec realloc stream Hs n dist rest d1 ltac:(lia) ltac:(lia) Hc1) as (d2 & -> & Hc2). cbn [rbind]. rewrite Ho, d_copy_spec by done.
    eexists. split; [reflexivity|]. cbn [m_out m_state m_reps m_dec]. split_and!; try done. by case_if.
Qed.
End Match.

(** *** Any choice *)
Lemma find_rep_cases dist reps : (exists k, find_rep dist reps = k /\ (k < length reps)%nat /\ reps !! k = Some dist) \/ find_rep dist reps = length reps.
Proof.
  induction reps as [|r reps IH]; cbn [find_rep length]; [by right|]. destruct (Z.eqb_spec dist r) as [->|]; [left; exists 0%nat; split_and!; try done; lia|].
  destruct IH as [(k & -> & ? & ?)| ->]; [left; exists (S k); split_and!; try done; lia|by right].
Qed.

Lemma step_turn choices pos state reps m : steady pos state reps -> (pos < size)%nat -> choices !! pos = Some m -> valid_choice pos m ->
  turn (fun rc => encode_step realloc data choices (MkCoder pos state reps rc)) pos state reps.
Proof.
  intros Hst Hlt Hm Hv. unfold turn, encode_step. cbn [c_pos]. rewrite (rd_lookup _ _ _ Hm). cbn [rbind].
  pose proof Hst as (_ & _ & r0 & r1 & r2 & r3 & -> & _). destruct Hv as [->|(Hn & Hfit & Hd & Hcopy)].
  - cbn [length_ Nat.ltb Nat.leb]. destruct (lookup_lt_is_Some_2 data pos Hlt) as [b Hb].
    destruct (decide (r0 <= Z.of_nat pos /\ data !! (pos - Z.to_nat r0)%nat = Some b)) as [[H1 H2]|Hno].
    + by eapply short_rep_turn.
    + eapply literal_turn; try done. intros H1 H2. by apply Hno.
  - rewrite (proj2 (Nat.ltb_ge _ _)) by lia. destruct m as [n dist]. cbn [length_ distance] in *.
    destruct (find_rep_cases dist [r0; r1; r2; r3]) as [(k & Hk & Hlk & Hd')|Hf]; [by eapply rep_turn|by apply new_turn].
Qed.

(** ** The loops *)
Lemma probs_shift_low rc : probs (shift_low realloc rc) = probs rc.
Proof.
  unfold shift_low. destruct (put_pending_spec realloc (pending rc) (rc_cache rc) (u32 (Z.shiftr (low rc) 32)) rc) as [(_ & _ & _ & _ & H) _]. by destruct (_ || _).
Qed.

Lemma probs_normalise rc : probs (normalise realloc rc) = probs rc.
Proof. unfold normalise. case_if; [|done]. by rewrite probs_shift_low. Qed.

Lemma event_total e rc : valid_event e -> length (probs rc) = LIMLZ_PROBS -> exists rc', encode_event realloc e rc = Ok rc' /\ length (probs rc') = LIMLZ_PROBS.
Proof.
  intros Hv Hl. destruct e as [i b|b]; cbn [encode_event valid_event] in *.
  - unfold encode_bit. destruct (lookup_lt_is_Some_2 (probs rc) i) as [p Hp]; [lia|]. rewrite (rd_lookup _ _ _ Hp). cbn [rbind].
    destruct b; cbn [negb]; rewrite wr_lt by lia; cbn [rbind]; (eexists; split; [reflexivity|]); rewrite probs_normalise; cbn; by rewrite length_insert.
  - eexists. split; [reflexivity|]. unfold direct_bit. rewrite probs_normalise. by destruct b.
Qed.

Lemma run_total es : forall rc, Forall valid_event es -> length (probs rc) = LIMLZ_PROBS -> exists rc', run realloc es rc = Ok rc' /\ length (probs rc') = LIMLZ_PROBS.
Proof.
  induction es as [|e es IH]; intros rc Hv Hl; [by exists rc|]. inversion Hv as [|? ? He Hes]; subst. cbn [run].
  destruct (event_total e rc He Hl) as (rc1 & -> & Hl1). cbn [rbind]. by apply IH.
Qed.

Lemma loop_turns choices : (forall pos, (pos < size)%nat -> exists m, choices !! pos = Some m /\ valid_choice pos m) ->
  forall fuel pos state reps, steady pos state reps -> (size - pos <= fuel)%nat ->
  exists es, Forall valid_event es /\ (length es <= 64 * (size - pos))%nat /\
    (forall rc, length (probs rc) = LIMLZ_PROBS -> exists c rc', encode_loop realloc fuel data choices (MkCoder pos state reps rc) = Ok c /\ run realloc es rc = Ok rc' /\
       error (c_rc c) = error rc' /\ (error rc' = false -> c_rc c = rc')) /\
    (forall stream s, bytes_ok stream -> codes realloc stream es (m_dec s) -> m_out s = take pos data -> m_state s = state -> m_reps s = reps ->
       exists s', d_loop fuel (Z.of_nat size) s = Ok s' /\ m_out s' = data /\ codes realloc stream [] (m_dec s')).
Proof.
  intros Hch. induction fuel as [|fuel IH]; intros pos state reps Hst Hf; pose proof Hst as (Hp & _).
  - exists []. split_and!; [done|cbn; lia| |].
    + intros rc Hl. cbn [encode_loop c_pos]. rewrite (proj2 (Nat.ltb_ge pos size)) by lia. cbn [andb]. by exists (MkCoder pos state reps rc), rc.
    + intros stream s Hs Hc Ho _ _. exists s. cbn [d_loop]. rewrite Ho, take_ge by lia. rewrite Z.eqb_refl. done.
  - destruct (decide (pos = size)) as [->|Hne].
    { exists []. split_and!; [done|cbn; lia| |].
      - intros rc Hl. cbn [encode_loop c_pos]. rewrite Nat.ltb_irrefl. cbn [andb]. by exists (MkCoder size state reps rc), rc.
      - intros stream s Hs Hc Ho _ _. exists s. cbn [d_loop]. rewrite Ho, take_ge by lia. rewrite Z.eqb_refl. done. }
    destruct (Hch pos ltac:(lia)) as (m & Hm & Hv). destruct (step_turn choices pos state reps m Hst ltac:(lia) Hm Hv) as (es1 & pos' & state' & reps' & H1 & H2 & H3 & H4 & H5 & H6).
    destruct (IH pos' state' reps' H4 ltac:(lia)) as (es2 & G1 & G2 & G3 & G4). exists (es1 ++ es2). split_and!.
    + by apply Forall_app.
    + rewrite length_app. pose proof H4 as (? & _). lia.
    + intros rc Hl. destruct (run_total (es1 ++ es2) rc ltac:(by apply Forall_app) Hl) as (rc' & Hrun & _). cbn [encode_loop c_pos c_rc].
      rewrite (proj2 (Nat.ltb_lt pos size)) by lia. cbn [andb]. destruct (error rc) eqn:Er; cbn [negb].
      * exists (MkCoder pos state reps rc), rc'. split_and!; try done; cbn [c_rc].
        -- destruct (error rc') eqn:E'; [done|]. by rewrite (run_error _ _ _ _ Hrun E') in Er.
        -- intros E'. by rewrite (run_error _ _ _ _ Hrun E') in Er.
      * rewrite H1. rewrite run_app in Hrun. destruct (run_total es1 rc H2 Hl) as (rc1 & Hrun1 & Hl1). rewrite Hrun1 in *. cbn [rbind] in *.
        destruct (G3 rc1 Hl1) as (c & rc2 & E1 & E2 & E3 & E4). rewrite E2 in Hrun. injection Hrun as <-. exists c, rc2. rewrite run_app, Hrun1. by split_and!.
    + intros stream s Hs Hc Ho Hms Hmr. cbn [d_loop]. rewrite Ho, length_take. destruct (Z.eqb_spec (Z.of_nat (pos `min` size)) (Z.of_nat size)); [lia|].
      destruct (H6 stream es2 s Hs Hc Ho Hms Hmr) as (s' & -> & Ho' & Hms' & Hmr' & Hc'). cbn [rbind]. by apply G4.
Qed.

(** ** The choices are matches *)
Definition chained (k : nat) (s : (Z -> nat) * list nat) : Prop :=
  (forall h, (fst s h <= k)%nat) /\ (size <= length (snd s))%nat /\
  forall p, (p < k)%nat -> (p + 2 <= size)%nat -> exists c, snd s !! p = Some c /\ (c <= p)%nat.

Lemma insert_spec k s : (k < size)%nat -> chained k s -> res_post (chained (S k)) no_panic (insert data size k s).
Proof.
  intros Hk (H1 & H2 & H3). destruct s as [head previous]. cbn [fst snd] in *. unfold insert. case_if.
  - destruct (lookup_lt_is_Some_2 data k Hk) as [b0 E0]. destruct (lookup_lt_is_Some_2 data (k + 1)) as [b1 E1]; [lia|].
    unfold hash_at. rewrite (rd_lookup _ _ _ E0), (rd_lookup _ _ _ E1). cbn [rbind]. rewrite wr_lt by lia. cbn [rbind res_post].
    split_and!; cbn [fst snd].
    + intros h. case_if; [done|]. specialize (H1 h). lia.
    + by rewrite length_insert.
    + intros p Hp Hps. destruct (decide (p = k)) as [->|Hne].
      * eexists. split; [apply list_lookup_insert_eq; lia|]. apply H1.
      * destruct (H3 p ltac:(lia) Hps) as (c & Hc & Hle). exists c. split; [|done]. by rewrite list_lookup_insert_ne by lia.
  - cbn [res_post]. split_and!; cbn [fst snd]; [intros h; specialize (H1 h); lia|done|]. intros p Hp Hps. apply H3; [|done]. lia.
Qed.

Definition matches (pos : nat) (d : Z) (n : nat) : Prop := forall i, (i < n)%nat -> data !! (pos + i)%nat = data !! (pos - Z.to_nat d + i)%nat.

Lemma match_from_spec pos d limit : 1 <= d <= Z.of_nat pos -> forall n, (pos + n + limit <= size)%nat -> matches pos d n ->
  res_post (fun l => (l <= n + limit)%nat /\ matches pos d l) no_panic (match_from data limit pos d n).
Proof.
  intros Hd. induction limit as [|limit IH]; intros n Hn Hm; cbn [match_from]; [split; [lia|done]|].
  destruct (lookup_lt_is_Some_2 data (pos + n)) as [a Ha]; [lia|]. rewrite (rd_lookup _ _ _ Ha). cbn [rbind].
  replace (Z.to_nat (Z.of_nat pos - d + Z.of_nat n)) with (pos - Z.to_nat d + n)%nat by lia.
  destruct (lookup_lt_is_Some_2 data (pos - Z.to_nat d + n)) as [b Hb]; [lia|]. rewrite (rd_lookup _ _ _ Hb). cbn [rbind]. destruct (Z.eqb_spec a b) as [->|].
  - eapply res_post_mono; [apply IH; [lia|]|intros l [? ?]; split; [lia|done]|done].
    intros i Hi. destruct (decide (i = n)) as [->|]; [congruence|]. apply Hm. lia.
  - split; [lia|done].
Qed.

Lemma price_lengths_spec pos d price cost : length cost = S size -> forall n len best, (pos + len + n <= S size)%nat ->
  (forall l, (len <= l < len + n)%nat -> valid_choice pos (MkMatch l d)) -> valid_choice pos (snd best) ->
  res_post (fun best' => valid_choice pos (snd best')) no_panic (price_lengths n len pos d price cost best).
Proof.
  intros Hc. induction n as [|n IH]; intros len best Hn Hv Hb; cbn [price_lengths]; [done|].
  destruct (lookup_lt_is_Some_2 cost (pos + len)) as [x Hx]; [lia|]. rewrite (rd_lookup _ _ _ Hx). cbn [rbind]. apply IH; [lia| |].
  - intros l Hl. apply Hv. lia.
  - destruct (_ <=? fst best); [apply Hv; lia|done].
Qed.

Lemma follow_chain_spec pos previous cost : (pos + 2 <= size)%nat -> length cost = S size ->
  (forall p, (p + 2 <= size)%nat -> exists c, previous !! p = Some c /\ (c <= p)%nat) ->
  forall depth candidate longest best, (candidate <= pos)%nat -> (1 <= longest)%nat -> valid_choice pos (snd best) ->
  res_post (fun best' => valid_choice pos (snd best')) no_panic (follow_chain depth data size pos previous cost candidate longest best).
Proof.
  intros Hp Hc Hprev. induction depth as [|depth IH]; intros candidate longest best Hcd Hlg Hb; cbn [follow_chain]; [done|].
  destruct candidate as [|prev]; [done|]. destruct (Hprev prev ltac:(lia)) as (c & Hpc & Hcl). rewrite (rd_lookup _ _ _ Hpc). cbn [rbind].
  destruct ((size - pos <=? longest)%nat || (longest =? LIMLZ_MAX_MATCH)%nat) eqn:E; [done|]. bool_hyps.
  destruct (lookup_lt_is_Some_2 data (pos + longest)) as [a Ha]; [lia|]. destruct (lookup_lt_is_Some_2 data (prev + longest)) as [b Hb']; [lia|].
  rewrite (rd_lookup _ _ _ Ha), (rd_lookup _ _ _ Hb'). cbn [rbind]. destruct (negb _); [apply IH; [lia|lia|done]|].
  set (d := Z.of_nat pos - Z.of_nat prev). unfold match_length. set (limit := if (LIMLZ_MAX_MATCH <? size - pos)%nat then LIMLZ_MAX_MATCH else (size - pos)%nat).
  assert (limit <= size - pos /\ limit <= 273)%nat as [Hl1 Hl2] by (unfold limit, LIMLZ_MAX_MATCH; case_if; lia).
  eapply res_post_bind; [apply match_from_spec; [lia|lia|intros i Hi; lia]|]. intros l [Hl Hm].
  eapply res_post_bind; [apply price_lengths_spec; [done|lia| |done]|].
  - intros n Hn. right. cbn [length_ distance]. split_and!; try lia. intros i Hi. apply Hm. lia.
  - intros best' Hb2. apply IH; [lia| |done]. case_if; lia.
Qed.

Lemma parse_down_spec previous : (forall p, (p + 2 <= size)%nat -> exists c, previous !! p = Some c /\ (c <= p)%nat) ->
  forall pos cost choices, (pos <= size)%nat -> length cost = S size -> (size <= length choices)%nat ->
  (forall p, (pos <= p < size)%nat -> exists m, choices !! p = Some m /\ valid_choice p m) ->
  res_post (fun s => forall p, (p < size)%nat -> exists m, snd s !! p = Some m /\ valid_choice p m) no_panic (parse_down data size previous pos (cost, choices)).
Proof.
  intros Hprev. induction pos as [|pos IH]; intros cost choices Hp Hc Hlc Hv; cbn [parse_down]; [intros p Hps; apply Hv; lia|].
  eapply (res_post_bind (fun s => length (fst s) = S size /\ (size <= length (snd s))%nat /\ forall p, (pos <= p < size)%nat -> exists m, snd s !! p = Some m /\ valid_choice p m)).
  - unfold parse_step. destruct (lookup_lt_is_Some_2 cost (pos + 1)) as [x Hx]; [lia|]. rewrite (rd_lookup _ _ _ Hx). cbn [rbind].
    eapply (res_post_bind (fun best => valid_choice pos (snd best))).
    + case_if; [by left|]. destruct (Hprev pos ltac:(lia)) as (c & Hpc & Hcl). rewrite (rd_lookup _ _ _ Hpc). cbn [rbind]. apply follow_chain_spec; try done; try lia. by left.
    + intros best Hb. rewrite wr_lt by lia. cbn [rbind]. rewrite wr_lt by lia. cbn [rbind res_post fst snd]. rewrite !length_insert. split_and!; try done.
      intros p Hps. destruct (decide (p = pos)) as [->|]; [exists (snd best); split; [apply list_lookup_insert_eq; lia|done]|].
      rewrite list_lookup_insert_ne by done. apply Hv. lia.
  - intros [cost' choices'] (H1 & H2 & H3). apply IH; try done. lia.
Qed.

Lemma parse_spec previous cost choices : (size <= length previous)%nat -> length cost = S size -> (size <= length choices)%nat ->
  res_post (fun choices => forall p, (p < size)%nat -> exists m, choices !! p = Some m /\ valid_choice p m) no_panic (parse data previous cost choices).
Proof.
  intros Hp Hc Hch. unfold parse. eapply res_post_bind.
  - apply (for_range_spec chained); [|by split_and!; cbn [fst snd]; [intros; lia|done|intros; lia]].
    intros k s Hk Hs. apply insert_spec; [lia|done].
  - intros [head previous'] (_ & _ & H3). cbn [snd] in H3. rewrite wr_lt by lia. cbn [rbind].
    eapply res_post_bind; [apply parse_down_spec; [intros p Hps; apply H3; lia|lia|by rewrite length_insert|done|intros p Hps; lia]|].
    intros [c ch] H. exact H.
Qed.
End Loop.
