(* ===== verification/LimlzBcj.v ===== *)
(** * The filter for x86 code is undone by the decompressor

    The filter changes the very bytes its later decisions depend on.  The history
    sees to it that the decompressor, which has the changed bytes before it, takes
    the same decisions. *)

From S2P Require Import Prelude CInt Limlz LimlzDec LimlzRange.

(** ** The adjustment of one operand *)
Definition signed_at (s x : Z) : bool := sign_byte (Z.land (Z.shiftr x s) 255).

(** The shifts that occur. *)
Definition shift_ok (s : Z) : Prop := s = 0 \/ s = 8 \/ s = 16.

Definition flip_mask (s : Z) : Z := u32 (Z.lnot (u32 (Z.shiftl 0xffffff00 s))).

Lemma flip_mask_ones s : shift_ok s -> flip_mask s = Z.ones (s + 8).
Proof. by intros [->|[->| ->]]. Qed.

(** Only the bits below [s + 8] matter, and flipping them mirrors the byte. *)
Lemma land_byte x s : shift_ok s -> Z.land (Z.shiftr x s) 255 = x mod 2 ^ (s + 8) / 2 ^ s.
Proof.
  intros Hs. assert (0 <= s) by (destruct Hs as [->|[->| ->]]; lia). change 255 with (Z.ones 8). rewrite Z.land_ones, Z.shiftr_div_pow2 by lia.
  rewrite Z.pow_add_r by lia. rewrite Z.rem_mul_r by lia. rewrite (Z.mul_comm (2 ^ s)), Z.div_add by lia.
  rewrite (Z.div_small (x mod 2 ^ s)) by (apply Z.mod_pos_bound; lia). lia.
Qed.

Lemma signed_at_mod s x y : shift_ok s -> x mod 2 ^ (s + 8) = y mod 2 ^ (s + 8) -> signed_at s x = signed_at s y.
Proof. intros Hs E. unfold signed_at. by rewrite !land_byte, E by done. Qed.

Lemma flip_mod s x : shift_ok s -> Z.lxor x (flip_mask s) mod 2 ^ (s + 8) = 2 ^ (s + 8) - 1 - x mod 2 ^ (s + 8).
Proof.
  intros Hs. rewrite flip_mask_ones by done. assert (0 <= s) by (destruct Hs as [->|[->| ->]]; lia).
  rewrite <- !Z.land_ones by lia.
  assert (Z.land (Z.lxor x (Z.ones (s + 8))) (Z.ones (s + 8)) = Z.lxor (Z.land x (Z.ones (s + 8))) (Z.ones (s + 8))) as ->.
  { apply Z.bits_inj'. intros n Hn. rewrite !Z.land_spec, !Z.lxor_spec, !Z.land_spec. destruct (Z.testbit x n), (Z.testbit (Z.ones (s + 8)) n); done. }
  set (y := Z.land x (Z.ones (s + 8))). pose proof (Z.ones_equiv (s + 8)) as Hones.
  assert (Z.land y (Z.lxor y (Z.ones (s + 8))) = 0) as Hz.
  { apply Z.bits_inj'. intros n Hn. unfold y. rewrite !Z.land_spec, !Z.lxor_spec, !Z.land_spec, Z.bits_0. destruct (Z.testbit x n), (Z.testbit (Z.ones (s + 8)) n); done. }
  assert (Z.lxor y (Z.lxor y (Z.ones (s + 8))) = Z.ones (s + 8)) as Ho by (rewrite <- Z.lxor_assoc, Z.lxor_nilpotent; apply Z.lxor_0_l).
  rewrite <- Z.add_nocarry_lxor in Ho by done. lia.
Qed.

Lemma flip_twice s x : Z.lxor (Z.lxor x (flip_mask s)) (flip_mask s) = x.
Proof. by rewrite Z.lxor_assoc, Z.lxor_nilpotent, Z.lxor_0_r. Qed.

Lemma signed_flip s x : shift_ok s -> signed_at s (Z.lxor x (flip_mask s)) = signed_at s x.
Proof.
  intros Hs. unfold signed_at. rewrite !land_byte, flip_mod by done. assert (0 <= s) by (destruct Hs as [->|[->| ->]]; lia).
  pose proof (Z.mod_pos_bound x (2 ^ (s + 8)) ltac:(lia)) as Hy. set (y := x mod 2 ^ (s + 8)) in *.
  rewrite Z.pow_add_r in * by lia. change (2 ^ 8) with 256 in *. set (u := 2 ^ s) in *.
  assert (0 < u) by (unfold u; lia). pose proof (Z.div_mod y u ltac:(lia)). pose proof (Z.mod_pos_bound y u ltac:(lia)).
  assert ((u * 256 - 1 - y) / u = 255 - y / u) as -> by (symmetry; apply (Z.div_unique_pos _ _ _ (u - 1 - y mod u)); lia).
  assert (0 <= y / u < 256) by (split; [apply Z.div_pos; lia|apply Z.div_lt_upper_bound; lia]).
  unfold sign_byte. destruct (Z.eqb_spec (255 - y / u) 0), (Z.eqb_spec (255 - y / u) 255), (Z.eqb_spec (y / u) 0), (Z.eqb_spec (y / u) 255); try done; lia.
Qed.

Lemma mod_mod_pow a b x : 0 <= b <= a -> (x mod 2 ^ a) mod 2 ^ b = x mod 2 ^ b.
Proof.
  intros H. rewrite <- !Z.land_ones by lia. rewrite <- Z.land_assoc. f_equal. apply Z.bits_inj'. intros n Hn.
  rewrite Z.land_spec, !Z.testbit_ones_nonneg by lia. destruct (Z.ltb_spec n a), (Z.ltb_spec n b); try done; lia.
Qed.

Lemma mod_pow_le a b x y : 0 <= b <= a -> x mod 2 ^ a = y mod 2 ^ a -> x mod 2 ^ b = y mod 2 ^ b.
Proof. intros H E. rewrite <- (mod_mod_pow a b x), E by done. by apply mod_mod_pow. Qed.

Lemma lxor_mod k x m y : 0 <= k -> x mod 2 ^ k = y mod 2 ^ k -> Z.lxor x m mod 2 ^ k = Z.lxor y m mod 2 ^ k.
Proof.
  intros Hk E. rewrite <- !Z.land_ones in * by lia. apply Z.bits_inj'. intros n Hn. rewrite !Z.land_spec, !Z.lxor_spec.
  assert (Z.testbit (Z.land x (Z.ones k)) n = Z.testbit (Z.land y (Z.ones k)) n) as H by (by rewrite E). rewrite !Z.land_spec in H.
  destruct (Z.testbit (Z.ones k) n); [|by rewrite !andb_false_r]. rewrite !andb_true_r in *. by rewrite H.
Qed.

(** ** Both directions

    Adding and taking away are the same loop. *)
Lemma d_adjust_adjust n edx bl : (bl = 0 \/ bl = 2 \/ bl = 4 \/ bl = 8) ->
  forall eax, d_adjust n edx bl eax = adjust n (- edx) (if negb (bl =? 0) then 24 - Z.log2 bl * 8 else 0) bl eax.
Proof.
  intros Hbl. induction n as [|n IH]; intros eax; cbn [d_adjust adjust]; [done|]. rewrite Z.add_opp_r.
  set (x := u32 (eax - edx)). destruct (Z.eqb_spec bl 0) as [->|Hne]; [done|]. cbn [negb orb].
  assert (Z.shiftl (Z.lxor (Z.log2 bl) 3) 3 = 24 - Z.log2 bl * 8) as -> by (by destruct Hbl as [->|[->|[->| ->]]]).
  set (s := 24 - Z.log2 bl * 8). assert (u8 (Z.shiftr x s) = Z.land (Z.shiftr x s) 255) as Hu by (change 255 with (Z.ones 8); by rewrite Z.land_ones).
  rewrite Hu. set (b := Z.land (Z.shiftr x s) 255). assert (0 <= b < 256) as Hb by (unfold b; change 255 with (Z.ones 8); rewrite Z.land_ones by lia; by apply Z.mod_pos_bound).
  assert ((1 <? u8 (b + 1)) = negb (sign_byte b)) as ->.
  { unfold sign_byte. destruct (Z.eqb_spec b 255) as [->|]; [done|]. rewrite wrap_small by lia. destruct (Z.eqb_spec b 0) as [->|]; [done|]. cbn. apply Z.ltb_lt. lia. }
  destruct (negb (sign_byte b)); [done|]. rewrite IH. destruct (Z.eqb_spec bl 0); [done|]. done.
Qed.

Lemma u32_mod k x : 0 <= k <= 32 -> u32 x mod 2 ^ k = x mod 2 ^ k.
Proof. intros. by apply (mod_mod_pow 32). Qed.

(** A byte that was no sign byte is none again after two turns at most. *)
Lemma second_turn at_ s v : shift_ok s -> signed_at s v = false -> signed_at s (u32 (Z.lxor (u32 (v + at_)) (flip_mask s) + at_)) = false.
Proof.
  intros Hs Hv. rewrite <- Hv, <- (signed_flip s v) by done. assert (0 <= s <= 16) by (destruct Hs as [->|[->| ->]]; lia).
  apply signed_at_mod; [done|]. rewrite u32_mod by lia. set (M := 2 ^ (s + 8)).
  rewrite <- Z.add_mod_idemp_l by (unfold M; lia). unfold M. rewrite !flip_mod by done. rewrite u32_mod by lia. fold M.
  assert (0 < M) by (unfold M; lia). pose proof (Z.mod_pos_bound v M ltac:(lia)). pose proof (Z.div_mod v M ltac:(lia)). pose proof (Z.div_mod (v + at_) M ltac:(lia)).
  symmetry. apply (Z.mod_unique_pos _ _ ((v + at_) / M - v / M)); lia.
Qed.

Lemma adjust_spec at_ s h v : shift_ok s -> (h <> 0 -> signed_at s v = false) ->
  exists a, adjust 2 at_ s h v = Ok a /\ 0 <= a < 2 ^ 32 /\ (h <> 0 -> signed_at s a = false) /\
    forall r, r mod 2 ^ 25 = a mod 2 ^ 25 -> exists e, adjust 2 (- at_) s h r = Ok e /\ 0 <= e < 2 ^ 32 /\ e mod 2 ^ 25 = v mod 2 ^ 25.
Proof.
  intros Hs Hv. assert (0 <= s <= 16) as Hs16 by (destruct Hs as [->|[->| ->]]; lia).
  assert (forall x y, x mod 2 ^ 25 = y mod 2 ^ 25 -> signed_at s x = signed_at s y) as Hmod by (intros x y E; apply signed_at_mod; [done|]; apply (mod_pow_le 25); [lia|done]).
  assert (forall r a d, r mod 2 ^ 25 = a mod 2 ^ 25 -> u32 (r - d) mod 2 ^ 25 = (a - d) mod 2 ^ 25) as Hsub.
  { intros r a d E. rewrite u32_mod by lia. rewrite Zminus_mod, E, <- Zminus_mod. done. }
  cbn [adjust]. change (sign_byte (Z.land (Z.shiftr ?x s) 255)) with (signed_at s x). fold (flip_mask s).
  set (a0 := u32 (v + at_)). pose proof (wrap_range 32 (v + at_) ltac:(lia)) as Ha0. fold a0 in Ha0.
  assert (forall x, u32 (x + - at_) = u32 (x - at_)) as Hopp by (intros x; f_equal; lia).
  assert (forall r, r mod 2 ^ 25 = a0 mod 2 ^ 25 -> u32 (r + - at_) mod 2 ^ 25 = v mod 2 ^ 25) as Hback.
  { intros r E. rewrite Hopp, (Hsub r a0 _ E). unfold a0. rewrite <- Zminus_mod_idemp_l, u32_mod, Zminus_mod_idemp_l by lia. f_equal. lia. }
  destruct ((h =? 0) || negb (signed_at s a0)) eqn:E0.
  - exists a0. split_and!; try done; try lia.
    { intros Hh. apply Z.eqb_neq in Hh. rewrite Hh in E0. cbn in E0. by apply negb_true_iff in E0. }
    intros r Hr. exists (u32 (r + - at_)). pose proof (Hback r Hr) as Hb.
    assert ((h =? 0) || negb (signed_at s (u32 (r + - at_))) = true) as ->.
    { destruct (Z.eqb_spec h 0) as [->|Hne]; [done|]. rewrite (Hmod _ _ Hb), Hv by done. done. }
    split_and!; try done; apply wrap_range; lia.
  - apply orb_false_iff in E0 as [Hh Hsig]. apply Z.eqb_neq in Hh. apply negb_false_iff in Hsig. rewrite (proj2 (Z.eqb_neq h 0)) by done. cbn [orb].
    set (a1 := u32 (Z.lxor a0 (flip_mask s) + at_)). pose proof (second_turn at_ s v Hs (Hv Hh)) as H2. fold a0 a1 in H2. rewrite H2. cbn [negb].
    exists a1. split_and!; try done; try (apply wrap_range; lia).
    intros r Hr. set (e0 := u32 (r + - at_)).
    assert (e0 mod 2 ^ 25 = Z.lxor a0 (flip_mask s) mod 2 ^ 25) as He0.
    { unfold e0. rewrite Hopp, (Hsub r a1 _ Hr). unfold a1. rewrite <- Zminus_mod_idemp_l, u32_mod, Zminus_mod_idemp_l by lia. f_equal. lia. }
    rewrite (Hmod _ _ He0), signed_flip, Hsig by done. cbn [negb].
    assert (Z.lxor e0 (flip_mask s) mod 2 ^ 25 = a0 mod 2 ^ 25) as He1.
    { rewrite (lxor_mod 25 e0 (flip_mask s) (Z.lxor a0 (flip_mask s))) by (lia || done). by rewrite flip_twice. }
    pose proof (Hback _ He1) as Hb. rewrite (Hmod _ _ Hb), (Hv Hh). cbn [negb]. eexists. split; [reflexivity|]. split; [apply wrap_range; lia|done].
Qed.

(** ** Operands as bytes *)
Definition le32 (b0 b1 b2 b3 : Z) : Z := b0 + b1 * 2 ^ 8 + b2 * 2 ^ 16 + b3 * 2 ^ 24.

Definition has4 (l : list Z) (p : nat) (b0 b1 b2 b3 : Z) : Prop :=
  l !! p = Some b0 /\ l !! (p + 1)%nat = Some b1 /\ l !! (p + 2)%nat = Some b2 /\ l !! (p + 3)%nat = Some b3.

Lemma read32_spec l p b0 b1 b2 b3 : has4 l p b0 b1 b2 b3 -> is_byte b0 -> is_byte b1 -> is_byte b2 -> is_byte b3 -> limlz_read32 l p = Ok (le32 b0 b1 b2 b3).
Proof.
  intros (H0 & H1 & H2 & H3) B0 B1 B2 B3. unfold is_byte in *. unfold limlz_read32.
  rewrite (rd_lookup _ _ _ H0), (rd_lookup _ _ _ H1), (rd_lookup _ _ _ H2), (rd_lookup _ _ _ H3). cbn [rbind]. f_equal. unfold le32.
  rewrite (Z.lor_comm b0), (shiftl_lor_low b1 b0 8) by lia. rewrite (Z.lor_comm _ (Z.shiftl b2 16)), shiftl_lor_low by lia.
  rewrite (Z.lor_comm _ (Z.shiftl b3 24)), shiftl_lor_low by lia. lia.
Qed.

(** What is where after four writes. *)
Definition replaced (l : list Z) (p : nat) (b0 b1 b2 b3 : Z) (l' : list Z) : Prop :=
  length l' = length l /\ has4 l' p b0 b1 b2 b3 /\ forall i, (i < p)%nat \/ (p + 4 <= i)%nat -> l' !! i = l !! i.

Ltac lookups := repeat first [rewrite list_lookup_insert_eq by (rewrite ?length_insert; lia) | rewrite list_lookup_insert_ne by lia]; try done.

Lemma store32_spec l p x : (p + 4 <= length l)%nat ->
  exists l', store32 l p x = Ok l' /\ replaced l p (u8 x) (u8 (Z.shiftr x 8)) (u8 (Z.shiftr x 16)) (u8 (Z.shiftr x 24)) l'.
Proof.
  intros Hp. unfold store32. rewrite wr_lt by lia. cbn [rbind]. rewrite wr_lt by (rewrite length_insert; lia). cbn [rbind]. rewrite wr_lt by (rewrite !length_insert; lia). cbn [rbind].
  rewrite wr_lt by (rewrite !length_insert; lia). eexists. split; [reflexivity|]. split; [by rewrite !length_insert|]. split; [|intros i Hi; lookups].
  split_and!; lookups.
Qed.

Lemma write_operand_spec l pos x : (pos + 5 <= length l)%nat ->
  exists l', write_operand l pos x = Ok l' /\ replaced l (pos + 1) (u8 x) (u8 (Z.shiftr x 8)) (u8 (Z.shiftr x 16)) (u8 (0 - Z.land (Z.shiftr x 24) 1)) l'.
Proof.
  intros Hp. unfold write_operand. rewrite wr_lt by lia. cbn [rbind]. rewrite wr_lt by (rewrite length_insert; lia). cbn [rbind]. rewrite wr_lt by (rewrite !length_insert; lia). cbn [rbind].
  rewrite wr_lt by (rewrite !length_insert; lia). eexists. split; [reflexivity|]. split; [by rewrite !length_insert|]. split; [|intros i Hi; lookups].
  split_and!; replace (pos + 1 + 1)%nat with (pos + 2)%nat by lia; replace (pos + 1 + 2)%nat with (pos + 3)%nat by lia; replace (pos + 1 + 3)%nat with (pos + 4)%nat by lia; lookups.
Qed.

Lemma replaced_bytes l p b0 b1 b2 b3 l' : replaced l p b0 b1 b2 b3 l' -> bytes_ok l -> is_byte b0 -> is_byte b1 -> is_byte b2 -> is_byte b3 -> bytes_ok l'.
Proof.
  intros (Hl & (H0 & H1 & H2 & H3) & Hi) Hb B0 B1 B2 B3. apply Forall_lookup_2. intros i x Hx.
  destruct (decide ((i < p)%nat \/ (p + 4 <= i)%nat)) as [Ho|Hn]; [rewrite Hi in Hx by done; by apply (Forall_lookup_1 _ _ _ _ Hb Hx)|].
  destruct (decide (i = p)) as [->|]; [congruence|]. destruct (decide (i = p + 1)%nat) as [->|]; [congruence|]. destruct (decide (i = p + 2)%nat) as [->|]; [congruence|].
  assert (i = p + 3)%nat as -> by lia. congruence.
Qed.

(** ** The high byte *)
Lemma sign_byte_cases b : is_byte b -> sign_byte b = true -> b = 0 \/ b = 255.
Proof. unfold sign_byte. intros _ H. apply orb_true_iff in H as [H|H]; apply Z.eqb_eq in H; auto. Qed.

(** An operand whose high byte repeats bit 24 is known from 25 bits. *)
Lemma canonical_value b0 b1 b2 b3 e : is_byte b0 -> is_byte b1 -> is_byte b2 -> b3 = 0 \/ b3 = 255 -> e mod 2 ^ 25 = le32 b0 b1 b2 b3 mod 2 ^ 25 ->
  sign_extend_25 e = le32 b0 b1 b2 b3.
Proof.
  unfold is_byte, le32, sign_extend_25. intros B0 B1 B2 H3 He.
  assert ((e + 2 ^ 24) mod 2 ^ 25 = (b0 + b1 * 2 ^ 8 + b2 * 2 ^ 16 + b3 * 2 ^ 24 + 2 ^ 24) mod 2 ^ 25) as ->.
  { rewrite <- Z.add_mod_idemp_l, He, Z.add_mod_idemp_l by lia. done. }
  destruct H3 as [->| ->].
  - rewrite (Z.mod_small _ (2 ^ 25)) by lia. rewrite wrap_small by lia. lia.
  - replace (b0 + b1 * 2 ^ 8 + b2 * 2 ^ 16 + 255 * 2 ^ 24 + 2 ^ 24) with (b0 + b1 * 2 ^ 8 + b2 * 2 ^ 16 + 128 * 2 ^ 25) by lia. rewrite Z.mod_add by lia.
    rewrite (Z.mod_small _ (2 ^ 25)) by lia. unfold wrap. symmetry. apply (Z.mod_unique_pos _ _ (-1)); lia.
Qed.

Lemma byte_shift x k : 0 <= k -> u8 (Z.shiftr x k) = (x / 2 ^ k) mod 256.
Proof. intros. unfold wrap. by rewrite Z.shiftr_div_pow2. Qed.

Lemma canonical_mod x : 0 <= x < 2 ^ 32 ->
  le32 (u8 x) (u8 (Z.shiftr x 8)) (u8 (Z.shiftr x 16)) (u8 (0 - Z.land (Z.shiftr x 24) 1)) mod 2 ^ 25 = x mod 2 ^ 25 /\
  (u8 (0 - Z.land (Z.shiftr x 24) 1) = 0 \/ u8 (0 - Z.land (Z.shiftr x 24) 1) = 255).
Proof.
  intros Hx. change 1 with (Z.ones 1). rewrite Z.land_ones by lia. change (2 ^ 1) with 2. rewrite !byte_shift by lia. rewrite Z.shiftr_div_pow2 by lia.
  unfold wrap, le32. change (2 ^ 8) with 256. change (2 ^ 16) with 65536. change (2 ^ 24) with 16777216. change (2 ^ 25) with 33554432.
  assert (x / 65536 = x / 256 / 256) as -> by (rewrite Z.div_div by lia; done). assert (x / 16777216 = x / 256 / 256 / 256) as -> by (rewrite !Z.div_div by lia; done).
  set (q1 := x / 256). set (q2 := q1 / 256). set (q3 := q2 / 256).
  pose proof (Z.div_mod x 256 ltac:(lia)) as E1. pose proof (Z.mod_pos_bound x 256 ltac:(lia)). pose proof (Z.div_mod q1 256 ltac:(lia)) as E2. pose proof (Z.mod_pos_bound q1 256 ltac:(lia)).
  pose proof (Z.div_mod q2 256 ltac:(lia)) as E3. pose proof (Z.mod_pos_bound q2 256 ltac:(lia)). pose proof (Z.div_mod q3 2 ltac:(lia)) as E4. pose proof (Z.mod_pos_bound q3 2 ltac:(lia)).
  fold q1 in E1. fold q2 in E2. fold q3 in E3. set (b0 := x mod 256) in *. set (b1 := q1 mod 256) in *. set (b2 := q2 mod 256) in *. set (c := q3 mod 2) in *. set (q4 := q3 / 2) in *.
  assert (c = 0 \/ c = 1) as [Hc|Hc] by lia; rewrite Hc in *.
  - change ((0 - 0) mod 256) with 0. split; [|by left]. rewrite (Z.mod_small _ 33554432) by lia. apply (Z.mod_unique_pos _ _ q4); lia.
  - change ((0 - 1) mod 256) with 255. split; [|by right]. transitivity (b0 + b1 * 256 + b2 * 65536 + 16777216); [symmetry; apply (Z.mod_unique_pos _ _ 127); lia|].
    apply (Z.mod_unique_pos _ _ q4); lia.
Qed.

Lemma le32_bytes b0 b1 b2 b3 : is_byte b0 -> is_byte b1 -> is_byte b2 -> is_byte b3 -> let x := le32 b0 b1 b2 b3 in
  u8 x = b0 /\ u8 (Z.shiftr x 8) = b1 /\ u8 (Z.shiftr x 16) = b2 /\ u8 (Z.shiftr x 24) = b3.
Proof.
  unfold is_byte. intros B0 B1 B2 B3. cbv zeta. rewrite !byte_shift by lia. unfold wrap, le32. change (2 ^ 8) with 256. change (2 ^ 16) with 65536. change (2 ^ 24) with 16777216.
  assert ((b0 + b1 * 256 + b2 * 65536 + b3 * 16777216) / 256 = b1 + b2 * 256 + b3 * 65536) as -> by (symmetry; apply (Z.div_unique_pos _ _ _ b0); lia).
  assert ((b0 + b1 * 256 + b2 * 65536 + b3 * 16777216) / 65536 = b2 + b3 * 256) as -> by (symmetry; apply (Z.div_unique_pos _ _ _ (b0 + b1 * 256)); lia).
  assert ((b0 + b1 * 256 + b2 * 65536 + b3 * 16777216) / 16777216 = b3) as -> by (symmetry; apply (Z.div_unique_pos _ _ _ (b0 + b1 * 256 + b2 * 65536)); lia).
  split_and!; symmetry.
  - apply (Z.mod_unique_pos _ _ (b1 + b2 * 256 + b3 * 65536)); lia.
  - apply (Z.mod_unique_pos _ _ (b2 + b3 * 256)); lia.
  - apply (Z.mod_unique_pos _ _ b3); lia.
  - apply (Z.mod_unique_pos _ _ 0); lia.
Qed.

(** ** The history

    Bit [j] stands for an opcode [j] bytes before [P] that was left alone, bit
    [4 + j] says that its operand ended in a sign byte. *)
Definition hist_ok (P h : Z) (data : list Z) : Prop :=
  0 <= h < 256 /\ forall j, 0 <= j <= 3 ->
    (Z.testbit h (4 + j) = true -> Z.testbit h j = true) /\
    (Z.testbit h j = true -> 0 <= P - j /\ exists b, data !! Z.to_nat (P - j + 4) = Some b /\ Z.testbit h (4 + j) = sign_byte b).

Lemma hist_zero P data : hist_ok P 0 data.
Proof. split; [lia|]. intros j _. rewrite !Z.testbit_0_l. done. Qed.

Lemma land_77 h : 0 <= Z.land h 0x77 < 128.
Proof. change 0x77 with (Z.land 0x77 (Z.ones 7)). rewrite Z.land_assoc, Z.land_ones by lia. by apply Z.mod_pos_bound. Qed.

Lemma age_range h : 0 <= age h < 256.
Proof.
  unfold age. pose proof (land_77 h) as Hl.
  rewrite Z.shiftl_mul_pow2, wrap_small by lia. lia.
Qed.

Lemma age_bit h n : 0 <= n < 8 -> Z.testbit (age h) n = if n =? 0 then false else Z.testbit h (n - 1) && Z.testbit 0x77 (n - 1).
Proof.
  intros Hn. unfold age, wrap. rewrite Z.mod_pow2_bits_low by lia. destruct (Z.eqb_spec n 0) as [->|Hne]; [by rewrite Z.shiftl_spec_low by lia|].
  by rewrite Z.shiftl_spec, Z.land_spec by lia.
Qed.

Lemma age_ok P h data : hist_ok P h data -> hist_ok (P + 1) (age h) data /\ Z.testbit (age h) 0 = false /\ Z.testbit (age h) 4 = false.
Proof.
  intros [Hr Hb]. split_and!; [|by rewrite age_bit by lia|rewrite age_bit by lia; cbn [Z.eqb]; apply andb_false_r].
  split; [apply age_range|]. intros j Hj. rewrite !age_bit by lia. rewrite (proj2 (Z.eqb_neq (4 + j) 0)) by lia.
  destruct (Z.eqb_spec j 0) as [->|Hne]; [cbn [Z.add Z.sub]; rewrite andb_false_r; done|].
  assert (Z.testbit 0x77 (j - 1) = true /\ Z.testbit 0x77 (4 + j - 1) = true) as [-> ->].
  { assert (j = 1 \/ j = 2 \/ j = 3) as [->|[->| ->]] by lia; done. }
  rewrite !andb_true_r. destruct (Hb (j - 1) ltac:(lia)) as [H1 H2]. replace (4 + j - 1) with (4 + (j - 1)) by lia. split; [done|].
  intros Ht. destruct (H2 Ht) as (H3 & b & H4 & H5). split; [lia|]. exists b. split; [|done]. by replace (P + 1 - j + 4) with (P - (j - 1) + 4) by lia.
Qed.

Lemma iter_age g P h data : hist_ok P h data -> hist_ok (P + Z.of_nat g) (Nat.iter g age h) data /\
  ((1 <= g)%nat -> Z.testbit (Nat.iter g age h) 0 = false /\ Z.testbit (Nat.iter g age h) 4 = false) /\
  forall j, 0 <= j -> j + Z.of_nat g <= 3 -> Z.testbit (Nat.iter g age h) (j + Z.of_nat g) = Z.testbit h j.
Proof.
  intros H. induction g as [|g (IH1 & IH2 & IH3)].
  - rewrite Z.add_0_r. split_and!; [done|lia|]. intros j _ _. by rewrite Z.add_0_r.
  - change (Nat.iter (S g) age h) with (age (Nat.iter g age h)). replace (P + Z.of_nat (S g)) with (P + Z.of_nat g + 1) by lia.
    destruct (age_ok _ _ _ IH1) as (H1 & H2 & H3). split_and!; try done. intros j Hj Hg. rewrite age_bit by lia. rewrite (proj2 (Z.eqb_neq _ 0)) by lia.
    rewrite <- (IH3 j) by lia. replace (j + Z.of_nat (S g) - 1) with (j + Z.of_nat g) by lia.
    assert (Z.testbit 0x77 (j + Z.of_nat g) = true) as ->; [|apply andb_true_r].
    assert (j + Z.of_nat g = 0 \/ j + Z.of_nat g = 1 \/ j + Z.of_nat g = 2) as [->|[->| ->]] by lia; done.
Qed.

(** The history at the next opcode, [g] bytes on. *)
Definition aged (g h : Z) : Z := if 4 <=? g then 0 else Nat.iter (Z.to_nat g) age h.

Lemma aged_ok P g h data : 1 <= g -> hist_ok P h data -> hist_ok (P + g) (aged g h) data /\ Z.testbit (aged g h) 0 = false /\ Z.testbit (aged g h) 4 = false /\
  forall j, 0 <= j -> j + g <= 3 -> Z.testbit (aged g h) (j + g) = Z.testbit h j.
Proof.
  intros Hg H. unfold aged. destruct (Z.leb_spec 4 g) as [H4|H4].
  - split_and!; try done; [apply hist_zero|lia].
  - destruct (iter_age (Z.to_nat g) P h data H) as (H1 & H2 & H3). rewrite Z2Nat.id in * by lia. destruct (H2 ltac:(lia)). by split_and!.
Qed.

Lemma d_age_age h : 0 <= h < 256 -> d_age h = age h.
Proof.
  intros Hh. unfold d_age, age. pose proof (land_77 h) as Hl.
  rewrite Z.shiftl_mul_pow2, !wrap_small by lia. lia.
Qed.

Lemma d_aged g h : 0 <= h < 256 -> (if 4 <=? g then 0 else Nat.iter (Z.to_nat g) d_age h) = aged g h.
Proof.
  intros Hh. unfold aged. destruct (4 <=? g); [done|]. generalize (Z.to_nat g). intros n. induction n as [|n IH]; [done|].
  change (Nat.iter (S n) d_age h) with (d_age (Nat.iter n d_age h)). rewrite IH. apply d_age_age. destruct n; [done|]. apply age_range.
Qed.

(** The test allows at most one opcode before, and one whose operand did not end in a sign byte. *)
Lemma allowed_cases h : Z.testbit h 0 = false -> 0 <= h <= 8 -> h <> 6 -> h = 0 \/ exists j, 1 <= j <= 3 /\ h = 2 ^ j.
Proof.
  intros H0 Hr H6. assert (h = 0 \/ h = 1 \/ h = 2 \/ h = 3 \/ h = 4 \/ h = 5 \/ h = 7 \/ h = 8) as Hc by lia.
  destruct Hc as [->|[->|[->|[->|[->|[->|[->| ->]]]]]]]; try done; [by left|right; by exists 1|right; by exists 2|right; by exists 3].
Qed.

Definition shift_for (h : Z) : Z := if negb (h =? 0) then 24 - Z.log2 h * 8 else 0.

Lemma shift_for_pow j : 1 <= j <= 3 -> shift_for (2 ^ j) = 24 - j * 8 /\ shift_ok (24 - j * 8).
Proof. intros Hj. assert (j = 1 \/ j = 2 \/ j = 3) as [->|[->| ->]] by lia; unfold shift_ok; split; try done; auto. Qed.

(** After an opcode is left alone. *)
Definition marked (h high : Z) : Z := if sign_byte high then Z.lor (Z.lor h 1) 16 else Z.lor h 1.

Lemma marked_bit h high n : 0 <= n < 8 -> Z.testbit (marked h high) n = Z.testbit h n || (n =? 0) || (sign_byte high && (n =? 4)).
Proof.
  intros Hn. unfold marked. change 1 with (2 ^ 0) at 1 2. change 16 with (2 ^ 4). destruct (sign_byte high); rewrite !Z.lor_spec, !Z.pow2_bits_eqb by lia;
    rewrite !(Z.eqb_sym _ n), ?andb_true_l, ?andb_false_l, ?orb_false_r; done.
Qed.

Lemma marked_ok pos h high data : hist_ok pos h data -> Z.testbit h 4 = false -> 0 <= pos -> data !! Z.to_nat (pos + 4) = Some high -> hist_ok pos (marked h high) data.
Proof.
  intros [Hr Hb] H4 Hp Hh. split.
  - unfold marked. assert (0 <= Z.lor h 1 < 256) as H1.
    { split; [apply Z.lor_nonneg; lia|]. change 256 with (2 ^ 8). destruct (decide (h = 0)) as [->|]; [done|]. apply Z.log2_lt_pow2; [|rewrite Z.log2_lor by lia; apply Z.max_lub_lt; [apply Z.log2_lt_pow2; lia|done]].
      assert (0 <= Z.lor h 1) by (apply Z.lor_nonneg; lia). destruct (Z.eq_dec (Z.lor h 1) 0) as [E|]; [|lia]. apply Z.lor_eq_0_iff in E. lia. }
    destruct (sign_byte high); [|done]. split; [apply Z.lor_nonneg; lia|]. change 256 with (2 ^ 8).
    apply Z.log2_lt_pow2; [|rewrite Z.log2_lor by lia; apply Z.max_lub_lt; [|done]].
    + assert (0 <= Z.lor (Z.lor h 1) 16) by (apply Z.lor_nonneg; lia). destruct (Z.eq_dec (Z.lor (Z.lor h 1) 16) 0) as [E|]; [|lia]. apply Z.lor_eq_0_iff in E. lia.
    + destruct (Z.eq_dec (Z.lor h 1) 0) as [->|]; [done|]. apply Z.log2_lt_pow2; lia.
  - intros j Hj. rewrite !marked_bit by lia. rewrite (proj2 (Z.eqb_neq (4 + j) 0)) by lia. rewrite (proj2 (Z.eqb_neq j 4)) by lia. rewrite andb_false_r, !orb_false_r.
    destruct (Z.eqb_spec j 0) as [->|Hne].
    + rewrite orb_true_r. change (4 + 0) with 4. rewrite Z.eqb_refl, H4, andb_true_r. cbn [orb]. split; [done|]. intros _. split; [lia|]. exists high. split; [by rewrite Z.sub_0_r|done].
    + rewrite (proj2 (Z.eqb_neq (4 + j) 4)) by lia. rewrite andb_false_r, !orb_false_r. by apply Hb.
Qed.

(** ** The two scans *)

(** From [pos] on the encoder returns [out], which differs only behind [pos], keeps
    what the history says, and from which the decoder gets the data back. *)
Definition undone (fuel pos : nat) (P previous h : Z) (data : list Z) : Prop :=
  exists out, bcj_loop fuel (pos, previous, h, data) = Ok out /\ length out = length data /\ bytes_ok out /\
    (forall i, (i <= pos)%nat -> out !! i = data !! i) /\
    (forall j, 0 <= j <= 3 -> Z.testbit h j = true -> exists b, out !! Z.to_nat (P - j + 4) = Some b /\ sign_byte b = Z.testbit h (4 + j)) /\
    (forall dbuf, length dbuf = length data -> (forall i, (pos <= i)%nat -> dbuf !! i = out !! i) ->
       exists r, d_bcj_loop fuel (pos, P + 1, h, dbuf) = Ok r /\ length r = length data /\
         (forall i, (pos <= i)%nat -> r !! i = data !! i) /\ (forall i, (i < pos)%nat -> r !! i = dbuf !! i)).

(** What holds at the top of the loop. *)
Record scan (pos : nat) (P previous h : Z) (data : list Z) : Prop := {
  sc_bytes : bytes_ok data;
  sc_size : Z.of_nat (length data) + 5 < 2 ^ 32;
  sc_pos : (pos <= length data)%nat;
  sc_P : -5 <= P < Z.of_nat pos;
  sc_previous : previous mod 2 ^ 32 = P mod 2 ^ 32;
  sc_hist : hist_ok P h data;
}.

Lemma scan_gap pos P previous h data : scan pos P previous h data -> u32 (Z.of_nat pos - previous) = Z.of_nat pos - P.
Proof. intros []. unfold wrap. rewrite Zminus_mod, sc_previous0, <- Zminus_mod. apply Z.mod_small. lia. Qed.

Lemma hist_sign P h data j : hist_ok P h data -> 0 <= j <= 3 -> Z.testbit h j = true -> exists b, data !! Z.to_nat (P - j + 4) = Some b /\ sign_byte b = Z.testbit h (4 + j).
Proof. intros [_ H] Hj Ht. destruct (H j Hj) as [_ H2]. destruct (H2 Ht) as (_ & b & ? & ?). by exists b. Qed.

Lemma undone_end fuel pos P previous h data : scan pos P previous h data -> (length data - pos < 5)%nat -> undone fuel pos P previous h data.
Proof.
  intros [Hb _ _ _ _ Hh] Hlt. exists data. split_and!; try done.
  - destruct fuel; cbn [bcj_loop]; by rewrite (proj2 (Nat.leb_gt _ _)) by lia.
  - intros j Hj Ht. by apply (hist_sign P h data j).
  - intros dbuf Hl Hd. exists dbuf. split_and!; try done. destruct fuel; cbn [d_bcj_loop]; rewrite Hl; by rewrite (proj2 (Z.leb_le _ _)) by lia.
Qed.

Lemma opcode_test b : is_byte b -> (1 <? u8 (b - 0xe8)) = negb (b =? 0xe8) && negb (b =? 0xe9).
Proof.
  unfold is_byte. intros Hb. destruct (Z.eqb_spec b 0xe8) as [->|]; [done|]. destruct (Z.eqb_spec b 0xe9) as [->|]; [done|]. cbn [negb andb]. apply Z.ltb_lt.
  unfold wrap. destruct (decide (b < 0xe8)); [|rewrite Z.mod_small; lia]. replace (b - 232) with (b + 24 + (-1) * 2 ^ 8) by lia. rewrite Z.mod_add, Z.mod_small by lia. lia.
Qed.

Lemma undone_plain fuel pos P previous h data b : scan pos P previous h data -> (5 <= length data - pos)%nat -> data !! pos = Some b -> negb (b =? 0xe8) && negb (b =? 0xe9) = true ->
  undone fuel (S pos) P previous h data -> undone (S fuel) pos P previous h data.
Proof.
  intros Hsc H5 Hb Hop (out & H1 & H2 & H3 & H4 & H6 & H7). pose proof (Forall_lookup_1 _ _ _ _ (sc_bytes _ _ _ _ _ Hsc) Hb) as Hby.
  exists out. split_and!; try done.
  - cbn [bcj_loop]. rewrite (proj2 (Nat.leb_le _ _)) by lia. unfold bcj_step. rewrite (rd_lookup _ _ _ Hb). cbn [rbind]. by rewrite Hop.
  - intros i Hi. apply H4. lia.
  - intros dbuf Hl Hd. assert (dbuf !! pos = Some b) as Hdb by (rewrite Hd, H4 by lia; done).
    destruct (H7 dbuf Hl) as (r & R1 & R2 & R3 & R4); [intros i Hi; apply Hd; lia|]. exists r. split_and!; try done.
    + cbn [d_bcj_loop]. rewrite Hl, (proj2 (Z.leb_gt _ _)) by lia. unfold d_bcj_step. rewrite (rd_lookup _ _ _ Hdb). cbn [rbind]. rewrite opcode_test, Hop by done. exact R1.
    + intros i Hi. destruct (decide (i = pos)) as [->|]; [rewrite R4, Hdb by lia; done|]. apply R3. lia.
    + intros i Hi. apply R4. lia.
Qed.

Lemma sign_test b : is_byte b -> (1 <? u8 (b + 1)) = negb (sign_byte b).
Proof.
  unfold is_byte, sign_byte. intros Hb. destruct (Z.eqb_spec b 255) as [->|]; [done|]. rewrite wrap_small by lia. destruct (Z.eqb_spec b 0) as [->|]; [done|]. cbn. apply Z.ltb_lt. lia.
Qed.

(** Whether the operand is converted. *)
Definition convertible (h high : Z) : bool := sign_byte high && (h <=? 8) && negb (h =? 6).

Lemma d_convertible h high : is_byte high -> (1 <? u8 (high + 1)) || (8 <? h) || (h =? 6) = negb (convertible h high).
Proof.
  intros Hb. rewrite sign_test by done. unfold convertible. rewrite Z.leb_antisym. by destruct (sign_byte high), (8 <? h), (h =? 6).
Qed.

Lemma undone_skip fuel pos P previous h data b high : scan pos P previous h data -> (5 <= length data - pos)%nat -> data !! pos = Some b -> negb (b =? 0xe8) && negb (b =? 0xe9) = false ->
  data !! (pos + 4)%nat = Some high -> let h' := aged (Z.of_nat pos - P) h in convertible h' high = false ->
  undone fuel (S pos) (Z.of_nat pos) (Z.of_nat pos) (marked h' high) data -> undone (S fuel) pos P previous h data.
Proof.
  intros Hsc H5 Hb Hop Hhi h' Hcv (out & H1 & H2 & H3 & H4 & H6 & H7). pose proof (scan_gap _ _ _ _ _ Hsc) as Hgap. destruct Hsc as [Hby Hsz Hp HP Hprev Hh].
  pose proof (Forall_lookup_1 _ _ _ _ Hby Hb) as Hbb. destruct (aged_ok P (Z.of_nat pos - P) h data ltac:(lia) Hh) as (A1 & A2 & A3 & A4). fold h' in A1, A2, A3, A4.
  exists out. split_and!; try done.
  - cbn [bcj_loop]. rewrite (proj2 (Nat.leb_le _ _)) by lia. unfold bcj_step. rewrite (rd_lookup _ _ _ Hb). cbn [rbind]. rewrite Hop, Hgap, (rd_lookup _ _ _ Hhi). cbn [rbind].
    fold (aged (Z.of_nat pos - P) h). fold h'. fold (convertible h' high). rewrite Hcv. cbn [rbind]. exact H1.
  - intros i Hi. apply H4. lia.
  - intros j Hj Ht. destruct (decide (j + (Z.of_nat pos - P) <= 3)) as [Hle|Hgt].
    + destruct (H6 (j + (Z.of_nat pos - P)) ltac:(lia)) as (b' & Hb' & Hs'); [rewrite marked_bit by lia; by rewrite A4, Ht by lia|].
      exists b'. split; [by replace (P - j + 4) with (Z.of_nat pos - (j + (Z.of_nat pos - P)) + 4) by lia|].
      destruct (hist_sign P h data j Hh Hj Ht) as (d0 & Hd0 & Hsd). destruct (hist_sign _ _ _ (j + (Z.of_nat pos - P)) A1 ltac:(lia)) as (d1 & Hd1 & Hsd1); [by rewrite A4, Ht by lia|].
      replace (P + (Z.of_nat pos - P) - (j + (Z.of_nat pos - P)) + 4) with (P - j + 4) in Hd1 by lia. rewrite Hd0 in Hd1. injection Hd1 as <-.
      rewrite Hs', <- Hsd, Hsd1, marked_bit by lia. rewrite !(proj2 (Z.eqb_neq _ _)) by lia. by rewrite andb_false_r, !orb_false_r.
    + rewrite H4 by lia. by apply (hist_sign P h data j).
  - intros dbuf Hl Hd. assert (dbuf !! pos = Some b) as Hdb by (rewrite Hd, H4 by lia; done).
    destruct (H6 0 ltac:(lia)) as (high' & Hhi' & Hsg); [rewrite marked_bit by lia; by rewrite orb_true_r|].
    replace (Z.to_nat (Z.of_nat pos - 0 + 4)) with (pos + 4)%nat in Hhi' by lia. change (4 + 0) with 4 in Hsg. rewrite marked_bit, A3 in Hsg by lia. cbn in Hsg. rewrite andb_true_r in Hsg.
    assert (is_byte high') as Hbh' by (by apply (Forall_lookup_1 _ _ _ _ H3 Hhi')).
    destruct (H7 dbuf Hl) as (r & R1 & R2 & R3 & R4); [intros i Hi; apply Hd; lia|]. exists r. split_and!; try done.
    + cbn [d_bcj_loop]. rewrite Hl, (proj2 (Z.leb_gt _ _)) by lia. unfold d_bcj_step. rewrite (rd_lookup _ _ _ Hdb). cbn [rbind]. rewrite opcode_test, Hop by done.
      replace (S pos + 3)%nat with (pos + 4)%nat by lia. erewrite rd_lookup by (rewrite Hd by lia; exact Hhi'). cbn [rbind].
      replace (Z.of_nat (S pos) - (P + 1)) with (Z.of_nat pos - P) by lia. rewrite d_aged by (by destruct Hh). fold h'.
      assert ((1 <? u8 (high' + 1)) || (8 <? h') || (h' =? 6) = true) as ->.
      { rewrite d_convertible by done. unfold convertible in *. by rewrite Hsg, Hcv. }
      cbn [rbind]. rewrite sign_test by done. rewrite Hsg. replace (Z.of_nat (S pos)) with (Z.of_nat pos + 1) by lia.
      unfold marked in R1. by destruct (sign_byte high).
    + intros i Hi. destruct (decide (i = pos)) as [->|]; [rewrite R4, Hdb by lia; done|]. apply R3. lia.
    + intros i Hi. apply R4. lia.
Qed.

Lemma land_u8 x s : Z.land (Z.shiftr x s) 255 = u8 (Z.shiftr x s).
Proof. change 255 with (Z.ones 8). by rewrite Z.land_ones. Qed.

(** The byte of an operand that an opcode [j] bytes earlier would end in. *)
Lemma operand_byte l p b0 b1 b2 b3 j : has4 l (p + 1) b0 b1 b2 b3 -> 1 <= j <= 3 ->
  exists b, l !! Z.to_nat (Z.of_nat p - j + 4) = Some b /\ (j = 1 /\ b = b2 \/ j = 2 /\ b = b1 \/ j = 3 /\ b = b0).
Proof.
  intros (H0 & H1 & H2 & H3) Hj. assert (j = 1 \/ j = 2 \/ j = 3) as [->|[->| ->]] by lia.
  - exists b2. replace (Z.to_nat (Z.of_nat p - 1 + 4)) with (p + 1 + 2)%nat by lia. auto.
  - exists b1. replace (Z.to_nat (Z.of_nat p - 2 + 4)) with (p + 1 + 1)%nat by lia. auto.
  - exists b0. replace (Z.to_nat (Z.of_nat p - 3 + 4)) with (p + 1)%nat by lia. auto.
Qed.

Lemma pow2_high_bits j : 1 <= j <= 3 -> Z.testbit (2 ^ j) (4 + j) = false /\ Z.testbit (2 ^ j) j = true.
Proof. intros Hj. by assert (j = 1 \/ j = 2 \/ j = 3) as [->|[->| ->]] by lia. Qed.

Lemma has4_bytes l p b0 b1 b2 b3 : has4 l p b0 b1 b2 b3 -> bytes_ok l -> is_byte b0 /\ is_byte b1 /\ is_byte b2 /\ is_byte b3.
Proof. intros (E0 & E1 & E2 & E3) Hby. split_and!; by eapply (Forall_lookup_1 is_byte l). Qed.

(** An operand that is converted has no sign byte where the opcode before it would end. *)
Lemma convertible_shift pos h data b0 b1 b2 high : hist_ok (Z.of_nat pos) h data -> Z.testbit h 0 = false -> convertible h high = true -> bytes_ok data ->
  has4 data (pos + 1) b0 b1 b2 high -> (h = 0 \/ exists j, 1 <= j <= 3 /\ h = 2 ^ j) /\ shift_ok (shift_for h) /\ (h <> 0 -> signed_at (shift_for h) (le32 b0 b1 b2 high) = false).
Proof.
  intros Hh H0 Hcv Hby H4. unfold convertible in Hcv. apply andb_true_iff in Hcv as [[Hsg H8]%andb_true_iff H6]. apply negb_true_iff, Z.eqb_neq in H6. apply Z.leb_le in H8.
  destruct (has4_bytes _ _ _ _ _ _ H4 Hby) as (B0 & B1 & B2 & B3).
  pose proof (allowed_cases h H0 ltac:(destruct Hh; lia) H6) as Hcase. destruct (le32_bytes b0 b1 b2 high B0 B1 B2 B3) as (L0 & L1 & L2 & L3).
  split; [done|]. split. { destruct Hcase as [->|(j & Hj & ->)]; [by left|]. destruct (shift_for_pow j Hj) as [-> ?]. done. }
  intros Hne. destruct Hcase as [->|(j & Hj & ->)]; [done|]. destruct (shift_for_pow j Hj) as [-> _]. destruct (pow2_high_bits j Hj) as [P1 P2].
  destruct (hist_sign _ _ _ j Hh ltac:(lia) P2) as (b & Hb & Hs). rewrite P1 in Hs. destruct (operand_byte _ _ _ _ _ _ j H4 Hj) as (b' & Hb' & Hk).
  rewrite Hb in Hb'. injection Hb' as <-. unfold signed_at. rewrite land_u8. cbv zeta in *.
  destruct Hk as [[-> ->]|[[-> ->]|[-> ->]]].
  - change (24 - 1 * 8) with 16. by rewrite L2.
  - change (24 - 2 * 8) with 8. by rewrite L1.
  - change (24 - 3 * 8) with 0. by rewrite Z.shiftr_0_r, L0.
Qed.

Lemma pow2_history h : (h = 0 \/ exists j, 1 <= j <= 3 /\ h = 2 ^ j) -> h = 0 \/ h = 2 \/ h = 4 \/ h = 8.
Proof. intros [->|(j & Hj & ->)]; [by left|]. assert (j = 1 \/ j = 2 \/ j = 3) as [->|[->| ->]] by lia; auto. Qed.

(** The encoder's half of a conversion. *)
Lemma convert_value pos h data b0 b1 b2 high : hist_ok (Z.of_nat pos) h data -> Z.testbit h 0 = false -> convertible h high = true -> bytes_ok data ->
  has4 data (pos + 1) b0 b1 b2 high -> exists a, adjust 2 (Z.of_nat pos + 5) (shift_for h) h (le32 b0 b1 b2 high) = Ok a /\ 0 <= a < 2 ^ 32 /\
    (forall j, 1 <= j <= 3 -> Z.testbit h j = true -> h = 2 ^ j /\ sign_byte (u8 (Z.shiftr a (24 - j * 8))) = false) /\
    forall r, r mod 2 ^ 25 = a mod 2 ^ 25 -> exists e, d_adjust 2 (Z.of_nat pos + 5) h r = Ok e /\ sign_extend_25 e = le32 b0 b1 b2 high.
Proof.
  intros Hh H0 Hcv Hby H4. destruct (convertible_shift pos h data b0 b1 b2 high Hh H0 Hcv Hby H4) as (Hcase & Hso & Hun).
  destruct (has4_bytes _ _ _ _ _ _ H4 Hby) as (B0 & B1 & B2 & B3). unfold convertible in Hcv. apply andb_true_iff in Hcv as [[Hsg _]%andb_true_iff _].
  destruct (adjust_spec (Z.of_nat pos + 5) (shift_for h) h (le32 b0 b1 b2 high) Hso Hun) as (a & Ha & Har & Hna & Hback).
  exists a. split_and!; try done; try lia.
  - intros j Hj Ht. assert (h = 2 ^ j) as ->.
    { destruct Hcase as [->|(k & Hk & ->)]; [by rewrite Z.testbit_0_l in Ht|]. rewrite Z.pow2_bits_eqb in Ht by lia. apply Z.eqb_eq in Ht. by subst. }
    split; [done|]. destruct (shift_for_pow j Hj) as [E _]. rewrite <- E, <- land_u8. apply Hna. lia.
  - intros r Hr. destruct (Hback r Hr) as (e & He & _ & Hem). exists e. split.
    + rewrite d_adjust_adjust; [exact He|]. by apply pow2_history.
    + apply canonical_value; try done. by apply sign_byte_cases.
Qed.

Lemma undone_convert fuel pos P previous h data b b0 b1 b2 high : scan pos P previous h data -> (5 <= length data - pos)%nat -> data !! pos = Some b -> negb (b =? 0xe8) && negb (b =? 0xe9) = false ->
  has4 data (pos + 1) b0 b1 b2 high -> convertible (aged (Z.of_nat pos - P) h) high = true ->
  (forall data', scan (pos + 5) (Z.of_nat pos) (Z.of_nat pos) 0 data' -> length data' = length data -> undone fuel (pos + 5) (Z.of_nat pos) (Z.of_nat pos) 0 data') ->
  undone (S fuel) pos P previous h data.
Proof.
  intros Hsc H5 Hb Hop H4 Hcv IH. pose proof (scan_gap _ _ _ _ _ Hsc) as Hgap. destruct Hsc as [Hby Hsz Hp HP Hprev Hh].
  destruct (aged_ok P (Z.of_nat pos - P) h data ltac:(lia) Hh) as (A1 & A2 & A3 & A4). set (h' := aged (Z.of_nat pos - P) h) in *. replace (P + (Z.of_nat pos - P)) with (Z.of_nat pos) in A1 by lia.
  pose proof (Forall_lookup_1 _ _ _ _ Hby Hb) as Hbb. destruct (convert_value pos h' data b0 b1 b2 high A1 A2 Hcv Hby H4) as (a & Ha & Har & Hka & Hdec).
  destruct (write_operand_spec data pos a ltac:(lia)) as (data' & Hw & Hrep). destruct (canonical_mod a Har) as [Hcm Hc3].
  set (c0 := u8 a) in *. set (c1 := u8 (Z.shiftr a 8)) in *. set (c2 := u8 (Z.shiftr a 16)) in *. set (c3 := u8 (0 - Z.land (Z.shiftr a 24) 1)) in *.
  assert (is_byte c0 /\ is_byte c1 /\ is_byte c2 /\ is_byte c3) as (C0 & C1 & C2 & C3) by (split_and!; apply wrap_range; lia).
  pose proof (replaced_bytes _ _ _ _ _ _ _ Hrep Hby C0 C1 C2 C3) as Hby'. destruct Hrep as (Hl' & Hh4 & Hoth).
  destruct (has4_bytes _ _ _ _ _ _ H4 Hby) as (B0 & B1 & B2 & B3).
  destruct (IH data') as (out & I1 & I2 & I3 & I4 & _ & I6); [split; try done; try lia; apply hist_zero|done|].
  exists out. split_and!; try done; try congruence.
  - cbn [bcj_loop]. rewrite (proj2 (Nat.leb_le _ _)) by lia. unfold bcj_step. rewrite (rd_lookup _ _ _ Hb). cbn [rbind]. rewrite Hop, Hgap.
    destruct H4 as (E0 & E1 & E2 & E3). replace (pos + 4)%nat with (pos + 1 + 3)%nat by lia. rewrite (rd_lookup _ _ _ E3). cbn [rbind].
    fold (aged (Z.of_nat pos - P) h). fold h'. fold (convertible h' high). rewrite Hcv.
    rewrite (read32_spec data (pos + 1) b0 b1 b2 high) by (try done; by split_and!). cbn [rbind]. fold (shift_for h'). rewrite Ha. cbn [rbind]. rewrite Hw. cbn [rbind]. exact I1.
  - intros i Hi. rewrite I4 by lia. apply Hoth. lia.
  - intros j Hj Ht. destruct (hist_sign P h data j Hh Hj Ht) as (d0 & Hd0 & Hsd). destruct (decide (j + (Z.of_nat pos - P) <= 3)) as [Hle|Hgt].
    2: { exists d0. split; [|done]. rewrite I4, Hoth by lia. done. }
    set (jj := j + (Z.of_nat pos - P)) in *. assert (1 <= jj <= 3) as Hjj by lia. pose proof (A4 j ltac:(lia) ltac:(lia)) as Hbit. fold jj in Hbit. rewrite Ht in Hbit.
    destruct (Hka jj Hjj Hbit) as [Hpow Hns]. destruct (operand_byte _ _ _ _ _ _ jj Hh4 Hjj) as (c & Hc & Hck).
    replace (P - j + 4) with (Z.of_nat pos - jj + 4) in * by lia. exists c. split; [rewrite I4 by lia; done|].
    destruct (hist_sign _ _ _ jj A1 ltac:(lia) Hbit) as (d1 & Hd1 & Hsd1). rewrite Hd0 in Hd1. injection Hd1 as <-. rewrite <- Hsd, Hsd1, Hpow.
    rewrite (proj1 (pow2_high_bits jj Hjj)). rewrite <- Hns. f_equal. destruct Hck as [[-> ->]|[[-> ->]|[-> ->]]]; done.
  - intros dbuf Hl Hd. assert (dbuf !! pos = Some b) as Hdb by (rewrite Hd, I4, Hoth by lia; done).
    assert (has4 dbuf (pos + 1) c0 c1 c2 c3) as Hd4 by (destruct Hh4 as (E0 & E1 & E2 & E3); split_and!; rewrite Hd, I4 by lia; done).
    destruct (Hdec (le32 c0 c1 c2 c3) Hcm) as (e & He & Hse). destruct (store32_spec dbuf (pos + 1) (sign_extend_25 e) ltac:(lia)) as (dbuf' & Hst & Hl2 & Hd4' & Hoth2).
    rewrite Hse in Hd4'. destruct (le32_bytes b0 b1 b2 high B0 B1 B2 B3) as (L0 & L1 & L2 & L3). rewrite L0, L1, L2, L3 in Hd4'.
    destruct (I6 dbuf') as (r & R1 & R2 & R3 & R4); [congruence|intros i Hi; rewrite Hoth2 by lia; apply Hd; lia|]. exists r. split_and!; try congruence.
    + cbn [d_bcj_loop]. rewrite Hl, (proj2 (Z.leb_gt _ _)) by lia. unfold d_bcj_step. rewrite (rd_lookup _ _ _ Hdb). cbn [rbind]. rewrite opcode_test, Hop by done.
      pose proof Hd4 as (E0 & E1 & E2 & E3). replace (S pos + 3)%nat with (pos + 1 + 3)%nat by lia. rewrite (rd_lookup _ _ _ E3). cbn [rbind].
      replace (Z.of_nat (S pos) - (P + 1)) with (Z.of_nat pos - P) by lia. rewrite d_aged by (by destruct Hh). fold h'. rewrite d_convertible by done.
      assert (convertible h' c3 = true) as ->.
      { unfold convertible in *. apply andb_true_iff in Hcv as [[_ Hx]%andb_true_iff Hy]. rewrite Hx, Hy. by destruct Hc3 as [->| ->]. }
      cbn [negb]. replace (S pos) with (pos + 1)%nat by lia. rewrite (read32_spec dbuf (pos + 1) c0 c1 c2 c3) by done. cbn [rbind].
      replace (Z.of_nat (pos + 1) + 4) with (Z.of_nat pos + 5) by lia. rewrite He. cbn [rbind]. rewrite Hst. cbn [rbind].
      replace (pos + 1 + 4)%nat with (pos + 5)%nat by lia. replace (Z.of_nat (pos + 1)) with (Z.of_nat pos + 1) by lia. exact R1.
    + intros i Hi. destruct (decide (pos + 5 <= i)%nat) as [Hge|Hlt]; [rewrite R3, Hoth by lia; done|]. rewrite R4 by lia.
      destruct (decide (i = pos)) as [->|]; [rewrite Hoth2 by lia; congruence|]. destruct H4 as (E0 & E1 & E2 & E3). destruct Hd4' as (F0 & F1 & F2 & F3).
      assert (i = pos + 1 \/ i = pos + 1 + 1 \/ i = pos + 1 + 2 \/ i = pos + 1 + 3)%nat as [->|[->|[->| ->]]] by lia; congruence.
    + intros i Hi. rewrite R4, Hoth2 by lia. done.
Qed.

Lemma bcj_sim fuel : forall pos P previous h data, scan pos P previous h data -> (length data - pos <= fuel)%nat -> undone fuel pos P previous h data.
Proof.
  induction fuel as [|fuel IH]; intros pos P previous h data Hsc Hf; [apply undone_end; [done|lia]|].
  destruct (decide (5 <= length data - pos)%nat) as [H5|]; [|apply undone_end; [done|lia]].
  destruct (lookup_lt_is_Some_2 data pos) as [b Hb]; [lia|]. pose proof Hsc as [Hby Hsz Hp HP Hprev Hh].
  destruct (negb (b =? 0xe8) && negb (b =? 0xe9)) eqn:Hop.
  { eapply undone_plain; try done. apply IH; [split; try done; lia|lia]. }
  destruct (lookup_lt_is_Some_2 data (pos + 1)) as [b0 E0]; [lia|]. destruct (lookup_lt_is_Some_2 data (pos + 1 + 1)) as [b1 E1]; [lia|].
  destruct (lookup_lt_is_Some_2 data (pos + 1 + 2)) as [b2 E2]; [lia|]. destruct (lookup_lt_is_Some_2 data (pos + 1 + 3)) as [high E3]; [lia|].
  destruct (convertible (aged (Z.of_nat pos - P) h) high) eqn:Hcv.
  - eapply undone_convert; try done. intros data' Hsc' Hl. apply IH; [done|lia].
  - replace (pos + 1 + 3)%nat with (pos + 4)%nat in E3 by lia. eapply undone_skip; try done.
    destruct (aged_ok P (Z.of_nat pos - P) h data ltac:(lia) Hh) as (A1 & A2 & A3 & A4). replace (P + (Z.of_nat pos - P)) with (Z.of_nat pos) in A1 by lia.
    apply IH; [|lia]. split; try done; try lia. apply marked_ok; try done; try lia. by replace (Z.to_nat (Z.of_nat pos + 4)) with (pos + 4)%nat by lia.
Qed.

(** The filter keeps the length and the decompressor undoes it. *)
Lemma bcj_roundtrip data : bytes_ok data -> Z.of_nat (length data) + 5 < 2 ^ 32 ->
  exists out, bcj_encode data = Ok out /\ length out = length data /\ bytes_ok out /\ d_bcj_loop (length out) (0%nat, -4, 0, out) = Ok data.
Proof.
  intros Hb Hs. destruct (bcj_sim (length data) 0 (-5) (UINT32_MAX - 4) 0 data) as (out & H1 & H2 & H3 & _ & _ & H6); [split; try done; try lia; apply hist_zero|lia|].
  exists out. split_and!; try done. rewrite H2. destruct (H6 out H2 (fun _ _ => eq_refl)) as (r & R1 & _ & R3 & _). change (-5 + 1) with (-4) in R1. rewrite R1. f_equal.
  apply list_eq. intros i. apply R3. lia.
Qed.
