(* ===== verification/LimlzProps.v ===== *)
(** * Stage 2 comes out of the decompressor as it went into the compressor

    The parts meet here: the header and the first state of the range coder, the
    room the stream needs, and the round trip through [compress] and [decompress]. *)

From S2P Require Import Prelude CInt Limlz LimlzDec LimlzRange LimlzSymbols LimlzLoop LimlzBcj.

(** ** Room for the stream *)
Section Room.
Variable realloc : Z -> bool.
Hypothesis Hrealloc : forall n, realloc n = true.

(** At most [n] bytes are written or held back, and the buffer has at most about
    twice the bytes in it. *)
Record roomy (n : nat) (rc : range_encoder) : Prop := {
  ro_error : error rc = false;
  ro_fits : Z.of_nat (length (rc_data rc)) <= capacity rc <= 2 * Z.of_nat (length (rc_data rc)) + 4096;
  ro_total : (length (rc_data rc) + pending rc <= n)%nat;
  ro_pending : (1 <= pending rc)%nat;
}.

Definition in_buffer (n : nat) (rc : range_encoder) : Prop :=
  error rc = false /\ Z.of_nat (length (rc_data rc)) <= capacity rc <= 2 * Z.of_nat (length (rc_data rc)) + 4096 /\ length (rc_data rc) = n.

Lemma put_byte_room n v rc : in_buffer n rc -> Z.of_nat n < 2 ^ 60 -> in_buffer (S n) (put_byte realloc v rc).
Proof.
  intros (H1 & H2 & H3) Hn. unfold put_byte, in_buffer. change (SIZE_MAX / 2) with (2 ^ 63 - 1). rewrite H1, Hrealloc. destruct (Z.eqb_spec (Z.of_nat (length (rc_data rc))) (capacity rc)) as [E|E].
  - destruct (Z.ltb_spec (2 ^ 63 - 1) (capacity rc)) as [Hlt|_]; [lia|].
    destruct (Z.eqb_spec (capacity rc) 0) as [E0|E0]; cbn; rewrite length_app; cbn [length]; split_and!; try done; lia.
  - cbn. rewrite length_app. cbn [length]. split_and!; try done; lia.
Qed.

Lemma put_pending_room m : forall n v carry rc, (1 <= m)%nat -> in_buffer n rc -> Z.of_nat (n + m) < 2 ^ 60 -> in_buffer (n + m) (put_pending realloc m v carry rc).
Proof.
  induction m as [|m IH]; intros n v carry rc Hm Hb Hn; [lia|]. cbn [put_pending]. pose proof (put_byte_room n (u8 (v + carry)) rc Hb ltac:(lia)) as H1.
  destruct m as [|m]; [by replace (n + 1)%nat with (S n) by lia|]. replace (n + S (S m))%nat with (S n + S m)%nat by lia. apply IH; [lia|done|lia].
Qed.

Lemma shift_low_room n rc : roomy n rc -> Z.of_nat n < 2 ^ 60 -> roomy (S n) (shift_low realloc rc).
Proof.
  intros [H1 H2 H3 H4] Hn. unfold shift_low. destruct (_ || _).
  - destruct (put_pending_room (pending rc) (length (rc_data rc)) (rc_cache rc) (u32 (Z.shiftr (low rc) 32)) rc H4) as (G1 & G2 & G3); [done|lia|].
    split; cbn; try done; lia.
  - split; cbn; try done; lia.
Qed.

Lemma normalise_room n rc : roomy n rc -> Z.of_nat n < 2 ^ 60 -> roomy (S n) (normalise realloc rc).
Proof.
  intros H Hn. unfold normalise. case_if; [|destruct H; split; try done; lia]. apply shift_low_room; [|done]. destruct H. by split.
Qed.

Lemma event_room n e rc rc' : roomy n rc -> Z.of_nat n < 2 ^ 60 -> encode_event realloc e rc = Ok rc' -> roomy (S n) rc'.
Proof.
  intros [] Hn. destruct e as [i b|b]; cbn [encode_event].
  - unfold encode_bit. destruct (rd _ _); [|done..]. cbn [rbind]. destruct b; cbn [negb]; (destruct (wr _ _ _); [|done..]); cbn [rbind]; intros [= <-];
      apply normalise_room; try done; by split.
  - intros [= <-]. unfold direct_bit. destruct b; apply normalise_room; try done; by split.
Qed.

Lemma run_room es : forall n rc rc', roomy n rc -> Z.of_nat (n + length es) < 2 ^ 60 -> run realloc es rc = Ok rc' -> roomy (n + length es) rc'.
Proof.
  induction es as [|e es IH]; intros n rc rc' Hr Hn; cbn [run length] in *; [intros [= <-]; by rewrite Nat.add_0_r|].
  destruct (encode_event realloc e rc) as [rc1| | |] eqn:E; [|done..]. cbn [rbind]. intros H.
  pose proof (event_room n e rc rc1 Hr ltac:(lia) E) as Hr1. replace (n + S (length es))%nat with (S n + length es)%nat by lia. apply (IH _ rc1); [done|lia|done].
Qed.

Lemma shifts_room k : forall n rc, roomy n rc -> Z.of_nat (n + k) < 2 ^ 60 -> roomy (n + k) (shifts realloc k rc).
Proof.
  induction k as [|k IH]; intros n rc Hr Hn; [by rewrite Nat.add_0_r|]. rewrite shifts_S. replace (n + S k)%nat with (S (n + k)) by lia.
  apply shift_low_room; [apply IH; [done|]|]; lia.
Qed.
End Room.

(** ** The beginning of the stream *)
Section Start.
Variable realloc : Z -> bool.

Definition header (checksum size : Z) : list Z :=
  [u8 (Z.shiftr checksum 0); u8 (Z.shiftr checksum 8); u8 (Z.shiftr checksum 16); u8 (Z.shiftr checksum 24);
   u8 (Z.shiftr size 0); u8 (Z.shiftr size 8); u8 (Z.shiftr size 16); u8 (Z.shiftr size 24)].

Definition rc_start (checksum size : Z) (p : list Z) : range_encoder :=
  put32 realloc size (put32 realloc checksum (MkRc [] 0 0 UINT32_MAX 1 0 false p)).

Lemma put_first v low range pending cache p : put_byte realloc v (MkRc [] 0 low range pending cache false p) =
  if realloc 4096 then MkRc [v] 4096 low range pending cache false p else MkRc [] 0 low range pending cache true p.
Proof. unfold put_byte. cbn. by destruct (realloc 4096). Qed.

Lemma put_next v d c low range pending cache p : (Z.of_nat (length d) =? c) = false ->
  put_byte realloc v (MkRc d c low range pending cache false p) = MkRc (d ++ [v]) c low range pending cache false p.
Proof. intros H. unfold put_byte. cbn [error rc_data capacity]. by rewrite H. Qed.

Lemma put_failed v d c low range pending cache p : put_byte realloc v (MkRc d c low range pending cache true p) = MkRc d c low range pending cache true p.
Proof. done. Qed.

Lemma rc_start_spec checksum size p : rc_start checksum size p =
  if realloc 4096 then MkRc (header checksum size) 4096 0 UINT32_MAX 1 0 false p else MkRc [] 0 0 UINT32_MAX 1 0 true p.
Proof.
  unfold rc_start, put32. cbn [foldl]. rewrite put_first. destruct (realloc 4096); [by rewrite !put_next by done|by rewrite !put_failed].
Qed.

Lemma u8_byte x : is_byte (u8 x).
Proof. unfold is_byte, wrap. change (2 ^ 8) with 256. pose proof (Z.mod_pos_bound x 256 ltac:(lia)). lia. Qed.

Lemma header_bytes checksum size : bytes_ok (header checksum size).
Proof. unfold header, bytes_ok. repeat constructor; apply u8_byte. Qed.

Lemma le32_of x : 0 <= x < 2 ^ 32 -> le32 (u8 (Z.shiftr x 0)) (u8 (Z.shiftr x 8)) (u8 (Z.shiftr x 16)) (u8 (Z.shiftr x 24)) = x.
Proof.
  intros Hx. rewrite !byte_shift by lia. unfold le32. change (2 ^ 0) with 1. rewrite Z.div_1_r. change (2 ^ 8) with 256. change (2 ^ 16) with (256 * 256).
  change (2 ^ 24) with (256 * 256 * 256). rewrite <- !Z.div_div by lia. pose proof (Z.div_mod x 256 ltac:(lia)). pose proof (Z.div_mod (x / 256) 256 ltac:(lia)).
  pose proof (Z.div_mod (x / 256 / 256) 256 ltac:(lia)). pose proof (Z.mod_pos_bound x 256 ltac:(lia)). pose proof (Z.mod_pos_bound (x / 256) 256 ltac:(lia)).
  pose proof (Z.mod_pos_bound (x / 256 / 256) 256 ltac:(lia)). set (q3 := x / 256 / 256 / 256) in *. assert (0 <= q3 < 256) by lia.
  rewrite (Z.mod_small q3) by lia. lia.
Qed.

Lemma header_read checksum size l : 0 <= checksum < 2 ^ 32 -> 0 <= size < 2 ^ 32 ->
  limlz_read32 (header checksum size ++ l) 0 = Ok checksum /\ limlz_read32 (header checksum size ++ l) 4 = Ok size.
Proof.
  intros Hc Hs. rewrite <- (le32_of checksum Hc) at 2. rewrite <- (le32_of size Hs) at 3. split; apply read32_spec; try apply u8_byte; by split_and!.
Qed.

Lemma start_ready checksum size p : realloc 4096 = true -> length p = LIMLZ_PROBS -> Forall prob_ok p ->
  let rc := rc_start checksum size p in ready rc /\ N rc = 0 /\ count rc = 1%nat /\ take 8 (rc_data rc) = header checksum size /\ range rc = UINT32_MAX /\ probs rc = p.
Proof.
  intros Hre Hl Hp. cbv zeta. rewrite rc_start_spec, Hre. split_and!; try done. split; cbn; try done. split; cbn; try done; try apply header_bytes; try lia.
Qed.

(** The header stays where it is. *)
Lemma run_head es : forall rc rc', ready rc -> run realloc es rc = Ok rc' -> error rc' = false -> take 8 (rc_data rc') = take 8 (rc_data rc).
Proof.
  induction es as [|e es IH]; intros rc rc' Hr; cbn [run]; [by intros [= <-]|]. destruct (encode_event realloc e rc) as [rc1| | |] eqn:E; [|done..].
  cbn [rbind]. intros H He. pose proof (run_error realloc es _ _ H He) as He1. destruct (event_narrowed realloc e rc rc1 Hr E He1) as (delta & r & p & Hn).
  rewrite (IH rc1 rc' (na_ready _ _ _ _ _ Hn) H He). by apply (na_head _ _ _ _ _ Hn).
Qed.

Lemma shifts_error n rc : error rc = true -> error (shifts realloc n rc) = true.
Proof.
  intros H. induction n as [|n IH]; [done|]. rewrite shifts_S. destruct (error (shift_low realloc (shifts realloc n rc))) eqn:E; [done|].
  by rewrite (shift_low_error _ _ E) in IH.
Qed.

Lemma shifts_no_error n rc : error (shifts realloc n rc) = false -> error rc = false.
Proof. intros H. destruct (error rc) eqn:E; [|done]. by rewrite shifts_error in H. Qed.

(** The decoder's first code is the number in the first five bytes, the first of which is zero. *)
Lemma first_bytes stream : bytes_ok stream -> (5 <= length stream)%nat -> prefix stream 5 < 2 ^ 32 ->
  exists b0 b1 b2 b3, take 5 stream = [0; b0; b1; b2; b3] /\
    Z.lor (Z.lor (Z.lor (Z.shiftl b0 24) (Z.shiftl b1 16)) (Z.shiftl b2 8)) b3 = prefix stream 5.
Proof.
  intros Hb Hl. unfold prefix. destruct stream as [|z [|b0 [|b1 [|b2 [|b3 l]]]]]; cbn [length] in Hl; try lia. cbn [take]. rewrite take_0. unfold be_val. cbn [foldl].
  unfold bytes_ok in Hb. rewrite !Forall_cons in Hb. destruct Hb as (Bz & B0 & B1 & B2 & B3 & _). unfold is_byte in *. intros Hp.
  assert (z = 0) as -> by lia. exists b0, b1, b2, b3. split; [done|].
  rewrite (Z.shiftl_mul_pow2 b1), (Z.shiftl_mul_pow2 b2), shiftl_lor_low by lia.
  replace (b0 * 2 ^ 24 + b1 * 2 ^ 16) with ((b0 * 2 ^ 8 + b1) * 2 ^ 16) by lia. rewrite lor_low by lia.
  replace ((b0 * 2 ^ 8 + b1) * 2 ^ 16 + b2 * 2 ^ 8) with (((b0 * 2 ^ 8 + b1) * 2 ^ 8 + b2) * 2 ^ 8) by lia. rewrite lor_low by lia. lia.
Qed.
End Start.

(** ** The round trip *)
Section RoundTrip.
Variable realloc : Z -> bool.
Variables (previous0 : list nat) (cost0 : list Z) (choices0 : list match_).
Variable data : list Z.
Abbreviation size := (length data).
Hypothesis Hbytes : bytes_ok data.
Hypothesis Hsize : Z.of_nat size <= CAPACITY.
Hypothesis Hprevious : (size <= length previous0)%nat.
Hypothesis Hcost : length cost0 = S size.
Hypothesis Hchoices : (size <= length choices0)%nat.

Abbreviation probs0 := (replicate LIMLZ_PROBS 1024).
Abbreviation start := (rc_start realloc (limlz_crc32 data) (Z.of_nat size) probs0).

Lemma crc_range l : 0 <= limlz_crc32 l < 2 ^ 32.
Proof. unfold limlz_crc32, wrap. apply Z.mod_pos_bound. lia. Qed.

Lemma probs0_ok : Forall prob_ok probs0.
Proof. apply Forall_replicate. unfold prob_ok. lia. Qed.

(** What the decompressor makes of the header and the first bytes. *)
Lemma decompress_start p es rc' : length p = LIMLZ_PROBS -> Forall prob_ok p ->
  let start := rc_start realloc (limlz_crc32 data) (Z.of_nat size) p in run realloc es start = Ok rc' -> realloc 4096 = true -> error (shifts realloc 5 rc') = false ->
  exists b0 b1 b2 b3 rest, let stream := 0 :: b0 :: b1 :: b2 :: b3 :: rest in
    bytes_ok stream /\ rc_data (shifts realloc 5 rc') = header (limlz_crc32 data) (Z.of_nat size) ++ stream /\
    codes realloc stream es (MkDec rest UINT32_MAX (Z.lor (Z.lor (Z.lor (Z.shiftl b0 24) (Z.shiftl b1 16)) (Z.shiftl b2 8)) b3) p).
Proof.
  intros Hpl Hpo start Hrun Hre Herr. assert (error rc' = false) as He by exact (shifts_no_error realloc 5 rc' Herr).
  destruct (start_ready realloc (limlz_crc32 data) (Z.of_nat size) p Hre Hpl Hpo) as (Hr & HN & Hc & Hh & Hrg & Hp). fold start in Hr, HN, Hc, Hh, Hrg, Hp. clearbody start.
  destruct (run_inside realloc [] (List.Forall_nil _) es _ _ Hr Hrun He) as [Hr' _]. destruct (rc_flush_spec realloc rc' Hr' Herr) as (_ & Hb & Hl & Hv & Hhead & H8).
  set (stream := drop 8 (rc_data (shifts realloc 5 rc'))) in *.
  assert (rc_data (shifts realloc 5 rc') = header (limlz_crc32 data) (Z.of_nat size) ++ stream) as Hall.
  { rewrite <- (take_drop 8 (rc_data (shifts realloc 5 rc'))) at 1. rewrite Hhead, <- Hh. f_equal. exact (run_head realloc es _ _ Hr Hrun He). }
  destruct (run_inside realloc stream Hb es _ _ Hr Hrun He) as [_ Hi]. destruct (Hi (final_inside stream rc' Hr' (eq_sym Hl) Hv)) as [Hl5 Hin].
  rewrite HN, Hc, Hrg in *. cbn [Nat.add] in *. unfold UINT32_MAX in Hin. destruct (first_bytes stream Hb Hl5 ltac:(lia)) as (b0 & b1 & b2 & b3 & Ht & Hcode).
  exists b0, b1, b2, b3, (drop 5 stream). assert (0 :: b0 :: b1 :: b2 :: b3 :: drop 5 stream = stream) as -> by (rewrite <- (take_drop 5 stream) at 2; by rewrite Ht).
  split; [done|]. split; [done|]. exists start, rc'. split_and!; try done.
  apply exact_follows; [done|]. unfold exact. cbn [d_range d_code d_source d_probs]. rewrite Hcode, HN, Hc, Hrg, Hp, Z.sub_0_r. done.
Qed.

Lemma compress_eq : compress realloc true previous0 cost0 choices0 data =
  if SIZE_MAX / 8 <? Z.of_nat size + 1 then Ok None
  else
    let! out := bcj_encode data in
    let! choices := parse out previous0 cost0 choices0 in
    let! c := encode_loop realloc (length out) out choices (MkCoder 0 0 [1; 1; 1; 1] start) in
    Ok (if error (shifts realloc 5 (c_rc c)) then None else Some (rc_data (shifts realloc 5 (c_rc c)))).
Proof. unfold compress, rc_start, shifts. cbv beta zeta. cbn [negb]. reflexivity. Qed.

(** Without its tests, [compress] is a run of events and a flush. *)
Lemma compress_run : exists out es, bytes_ok out /\ length out = size /\ d_bcj_loop size (0%nat, -4, 0, out) = Ok data /\ (length es <= 64 * size)%nat /\
  (exists rc', run realloc es start = Ok rc' /\
    compress realloc true previous0 cost0 choices0 data = Ok (if error (shifts realloc 5 rc') then None else Some (rc_data (shifts realloc 5 rc')))) /\
  (forall stream s, bytes_ok stream -> codes realloc stream es (m_dec s) -> m_out s = [] -> m_state s = 0%nat -> m_reps s = [1; 1; 1; 1] ->
     exists s', d_loop size (Z.of_nat size) s = Ok s' /\ m_out s' = out /\ codes realloc stream [] (m_dec s')).
Proof.
  unfold CAPACITY in Hsize. destruct (bcj_roundtrip data Hbytes ltac:(lia)) as (out & Hbcj & Hlo & Hbo & Hun). exists out. rewrite Hlo in Hun.
  destruct (res_post_total _ _ (parse_spec out previous0 cost0 choices0 ltac:(lia) ltac:(lia) ltac:(lia))) as (choices & Hparse & Hch).
  destruct (loop_turns realloc out Hbo ltac:(lia) choices Hch size 0 0 [1; 1; 1; 1]) as (es & Hv & Hn & Henc & Hdec); [|lia|].
  { split_and!; try lia. exists 1, 1, 1, 1. split_and!; try done; [|lia]. repeat constructor; lia. }
  rewrite Hlo in *. exists es. split_and!; try done; [lia|].
  destruct (Henc start) as (c & rc' & Hloop & Hrun & Herr & Hsame); [rewrite rc_start_spec; destruct (realloc 4096); apply length_replicate|].
  exists rc'. split; [done|]. rewrite compress_eq, (proj2 (Z.ltb_ge _ _)) by (change (SIZE_MAX / 8) with (2 ^ 61 - 1); lia).
  rewrite Hbcj. cbn [rbind]. rewrite Hparse. cbn [rbind]. rewrite Hlo, Hloop. cbn [rbind].
  destruct (error rc') eqn:E; [|by rewrite Hsame]. by rewrite !shifts_error.
Qed.

Lemma ok_some_inj {A} (x y : A) : Ok (Some x) = Ok (Some y) -> x = y.
Proof. by intros [= ->]. Qed.

(** A stream that came out is decompressed to the data. *)
Lemma stream_back stream : compress realloc true previous0 cost0 choices0 data = Ok (Some stream) -> decompress stream = Ok data.
Proof.
  destruct compress_run as (out & es & Hbo & Hlo & Hun & _ & (rc' & Hrun & ->) & Hdec). destruct (error (shifts realloc 5 rc')) eqn:Herr; [done|]. intros Hst%ok_some_inj. subst stream.
  unfold CAPACITY in Hsize. pose proof (crc_range data) as Hcrc.
  assert (realloc 4096 = true) as Hre.
  { destruct (realloc 4096) eqn:E; [done|]. assert (error rc' = false) as He by exact (shifts_no_error realloc 5 rc' Herr).
    apply (run_error realloc es _ _ Hrun) in He. by rewrite rc_start_spec, E in He. }
  destruct (decompress_start _ es rc' (length_replicate _ _) probs0_ok Hrun Hre Herr) as (b0 & b1 & b2 & b3 & rest & Hb & -> & Hcodes).
  destruct (Hdec _ (MkMachine (MkDec rest UINT32_MAX (Z.lor (Z.lor (Z.lor (Z.shiftl b0 24) (Z.shiftl b1 16)) (Z.shiftl b2 8)) b3) probs0) 0 [1; 1; 1; 1] []) Hb Hcodes)
    as (s' & Hloop & Ho & Hend); [done..|]. destruct (codes_nil realloc _ _ Hend) as (d' & Hn & Hc0 & Hsrc).
  destruct (header_read (limlz_crc32 data) (Z.of_nat size) (0 :: b0 :: b1 :: b2 :: b3 :: rest)) as [R0 R4]; [done|lia|].
  set (all := header _ _ ++ _) in *. assert (rd all 8 = Ok 0 /\ rd all 9 = Ok b0 /\ rd all 10 = Ok b1 /\ rd all 11 = Ok b2 /\ rd all 12 = Ok b3) as (R8 & R9 & R10 & R11 & R12) by done.
  assert (drop 13 all = rest) as Hdrop by done. assert (13 <= length all)%nat as Hlen by (unfold all; rewrite length_app; cbn [length header]; lia). clearbody all.
  unfold decompress, STREAM_MIN_SIZE. rewrite (proj2 (Nat.ltb_ge _ _)) by done. rewrite R8, R4, R0, R9, R10, R11, R12, Hdrop. cbn [rbind Z.eqb negb].
  rewrite (proj2 (Z.ltb_ge _ _)) by (unfold CAPACITY; lia).
  rewrite Nat2Z.id, Hloop. cbn [rbind]. rewrite Hn. cbn [rbind]. rewrite Hc0, Hsrc, Ho, Hlo, Hun. cbn [Z.eqb negb length Nat.eqb rbind]. by rewrite Z.eqb_refl.
Qed.

(** With memory for the stream it comes out. *)
Lemma stream_fits : (forall n, realloc n = true) -> exists stream, compress realloc true previous0 cost0 choices0 data = Ok (Some stream).
Proof.
  intros Hre. destruct compress_run as (out & es & _ & _ & _ & Hn & (rc' & Hrun & ->) & _). unfold CAPACITY in Hsize.
  assert (roomy 9 start) as Hro by (rewrite rc_start_spec, Hre; split; cbn; done || lia).
  pose proof (run_room realloc Hre es 9 _ _ Hro ltac:(lia) Hrun) as H1. pose proof (shifts_room realloc Hre 5 _ _ H1 ltac:(lia)) as [-> _ _ _]. eauto.
Qed.
End RoundTrip.

(** ** Any stream

    Nothing is known about the stream here: the decoder stays inside its tables and
    its output, and ends. *)
Lemma d_bcj_safe fuel : forall pos P h out, bytes_ok out -> (pos <= length out)%nat -> -5 <= P < Z.of_nat pos -> hist_ok P h out -> (length out - pos <= fuel)%nat ->
  exists r, d_bcj_loop fuel (pos, P + 1, h, out) = Ok r /\ length r = length out /\ bytes_ok r.
Proof.
  induction fuel as [|fuel IH]; intros pos P h out Hby Hp HP Hh Hf; cbn [d_bcj_loop].
  { rewrite (proj2 (Z.leb_le _ _)) by lia. eauto. }
  destruct (Z.leb_spec (Z.of_nat (length out) - 4) (Z.of_nat pos)) as [|H5]; [eauto|]. unfold d_bcj_step.
  destruct (lookup_lt_is_Some_2 out pos) as [b Hb]; [lia|]. rewrite (rd_lookup _ _ _ Hb). cbn [rbind].
  destruct (1 <? u8 (b - 232)); cbn [rbind]; [apply IH; try done; lia|].
  destruct (lookup_lt_is_Some_2 out (pos + 1)) as [b0 E0]; [lia|]. destruct (lookup_lt_is_Some_2 out (pos + 1 + 1)) as [b1 E1]; [lia|].
  destruct (lookup_lt_is_Some_2 out (pos + 1 + 2)) as [b2 E2]; [lia|]. destruct (lookup_lt_is_Some_2 out (pos + 1 + 3)) as [high E3]; [lia|].
  assert (has4 out (pos + 1) b0 b1 b2 high) as H4 by done. destruct (has4_bytes _ _ _ _ _ _ H4 Hby) as (B0 & B1 & B2 & B3).
  replace (S pos) with (pos + 1)%nat by lia. rewrite (rd_lookup _ _ _ E3). cbn [rbind]. replace (Z.of_nat (pos + 1) - (P + 1)) with (Z.of_nat pos - P) by lia.
  rewrite d_aged, d_convertible by (done || by destruct Hh). destruct (aged_ok P (Z.of_nat pos - P) h out ltac:(lia) Hh) as (A1 & A2 & A3 & _).
  set (h' := aged (Z.of_nat pos - P) h) in *. replace (P + (Z.of_nat pos - P)) with (Z.of_nat pos) in A1 by lia.
  replace (Z.of_nat (pos + 1)) with (Z.of_nat pos + 1) by lia.
  destruct (convertible h' high) eqn:Hcv; cbn [negb rbind].
  - destruct (convertible_shift pos h' out b0 b1 b2 high A1 A2 Hcv Hby H4) as (Hcase & Hso & Hun).
    destruct (adjust_spec (- (Z.of_nat pos + 1 + 4)) (shift_for h') h' (le32 b0 b1 b2 high) Hso Hun) as (a & Ha & _). rewrite (read32_spec _ _ _ _ _ _ H4) by done. cbn [rbind].
    rewrite d_adjust_adjust by (by apply pow2_history). fold (shift_for h'). rewrite Ha. cbn [rbind].
    destruct (store32_spec out (pos + 1) (sign_extend_25 a) ltac:(lia)) as (out' & -> & Hrep). cbn [rbind]. pose proof Hrep as (Hl' & _).
    destruct (IH (pos + 1 + 4)%nat (Z.of_nat pos) 0 out') as (r & R1 & R2 & R3); [eapply replaced_bytes; try done; apply u8_byte|lia|lia|apply hist_zero|lia|].
    exists r. split_and!; [done|lia|done].
  - rewrite sign_test by done. assert (hist_ok (Z.of_nat pos) (marked h' high) out) as Hm.
    { apply marked_ok; try done; [lia|]. by replace (Z.to_nat (Z.of_nat pos + 4)) with (pos + 1 + 3)%nat by lia. }
    unfold marked in Hm. destruct (sign_byte high); cbn [negb]; apply IH; done || lia.
Qed.

Definition integrity (m : string) : Prop := m = "limine integrity error".

Definition tables (d : decoder) : Prop := length (d_probs d) = LIMLZ_PROBS.

Lemma d_normalise_safe d : tables d -> res_post tables integrity (d_normalise d).
Proof. intros H. unfold d_normalise. case_if; [done|]. by destruct (d_source d). Qed.

Lemma d_bit_safe i d : tables d -> (i < LIMLZ_PROBS)%nat -> res_post (fun r => tables r.2) integrity (d_bit i d).
Proof.
  intros H Hi. unfold d_bit. eapply res_post_bind; [by apply d_normalise_safe|]. intros d1 H1. unfold tables in *.
  eapply res_post_bind; [apply rd_post with (Q := fun _ => True); [lia|done]|]. intros p _. case_if; rewrite wr_lt by lia; cbn; by rewrite length_insert.
Qed.

Lemma d_tree_safe ebx n : forall esi d, tables d -> (ebx + (esi + 1) * 2 ^ n <= LIMLZ_PROBS)%nat ->
  res_post (fun r => tables r.2 /\ (esi * 2 ^ n <= r.1 < (esi + 1) * 2 ^ n)%nat) integrity (d_tree ebx n esi d).
Proof.
  induction n as [|n IH]; intros esi d H Hi; cbn [d_tree]; [cbn [res_post fst snd]; split; [done|cbn; lia]|]. rewrite Nat.pow_succ_r' in *. pose proof (Nat.pow_nonzero 2 n ltac:(lia)).
  eapply res_post_bind; [apply d_bit_safe; [done|nia]|]. intros [bit d1] H1. cbn [snd] in H1.
  assert (next_node esi bit = 2 * esi \/ next_node esi bit = 2 * esi + 1)%nat as Hnode by (unfold next_node; destruct bit; lia).
  eapply res_post_mono; [apply IH; [done|]| |done].
  - destruct Hnode as [->| ->]; nia.
  - intros r [Hr1 Hr2]. split; [done|]. destruct Hnode as [E|E]; rewrite E in Hr2; nia.
Qed.

Ltac length_tree :=
  eapply res_post_bind; [apply d_tree_safe; [done|cbn [Nat.add Nat.mul Nat.pow]; lia]|];
  intros [r d3] [H3 H4]; cbn [res_post fst snd Nat.mul Nat.add Nat.pow] in *; split; [done|lia].

Lemma d_length_safe esi d : tables d -> (esi + 770 <= LIMLZ_PROBS)%nat -> res_post (fun r => tables r.2 /\ (2 <= r.1)%nat) integrity (d_length esi d).
Proof.
  intros H Hi. unfold d_length. eapply res_post_bind; [apply d_bit_safe; [done|lia]|]. intros [b1 d1] H1. cbn [snd] in H1. destruct b1; cbn [negb].
  - eapply res_post_bind; [apply d_bit_safe; [done|lia]|]. intros [b2 d2] H2. cbn [snd] in H2. destruct b2; cbn [negb].
    + length_tree.
    + length_tree.
  - length_tree.
Qed.

Lemma d_direct_safe n : forall ecx ebx d, tables d -> res_post (fun r => tables r.2) integrity (d_direct n ecx ebx d).
Proof.
  induction n as [|n IH]; intros ecx ebx d H; cbn [d_direct]; [done|]. eapply res_post_bind; [by apply d_normalise_safe|]. intros d1 H1. case_if; by apply IH.
Qed.

Lemma d_reverse_safe edx n d : tables d -> (edx + (1 + 1) * 2 ^ n <= LIMLZ_PROBS)%nat -> res_post (fun r => tables r.2) integrity (d_reverse edx n d).
Proof. intros H Hi. unfold d_reverse. eapply res_post_bind; [by apply d_tree_safe|]. by intros [esi d1] [H1 _]. Qed.

(** The models of the distances with up to five low bits. *)
Lemma special_inside slot : (4 <= slot < 14)%nat ->
  (Z.to_nat (u32 (Z.shiftl (Z.lor (Z.land (Z.of_nat slot) 1) 2) (Z.of_nat (slot / 2 - 1))) - Z.of_nat slot + Z.of_nat LIMLZ_SPECIAL - 1) + (1 + 1) * 2 ^ (slot / 2 - 1) <= LIMLZ_PROBS)%nat.
Proof.
  intros H. do 14 (destruct slot as [|slot]; [try lia; apply Nat.leb_le; vm_compute; reflexivity|]). lia.
Qed.

Lemma d_distance_safe length d : tables d -> res_post (fun r => tables r.2 /\ 0 <= r.1) integrity (d_distance length d).
Proof.
  intros H. assert (forall x, 0 <= u32 x) as Hu by (intros x; apply wrap_range; lia). unfold d_distance. eapply res_post_bind.
  { apply d_tree_safe; [done|]. unfold LIMLZ_SLOT, LIMLZ_PROBS. cbn [Nat.add Nat.mul Nat.pow]. destruct (Nat.leb_spec (length - 2) 3); lia. }
  intros [esi d1] [H1 H2]. cbn [fst snd] in *. set (slot := (esi - 64)%nat). destruct (Nat.ltb_spec slot 4) as [|H4]; [split; [done|apply Hu]|].
  destruct (Nat.ltb_spec slot 14) as [H14|H14].
  - eapply res_post_bind; [apply d_reverse_safe; [done|by apply special_inside]|]. intros [low d2] H3. split; [done|apply Hu].
  - eapply res_post_bind; [by apply d_direct_safe|]. intros [ebx d2] H3. eapply res_post_bind; [apply d_reverse_safe; [done|apply Nat.leb_le; vm_compute; reflexivity]|].
    intros [low d4] H5. split; [done|apply Hu].
Qed.

Lemma d_literal_bits_safe ecx n : forall bl bh edx d, tables d -> (ecx + 768 <= LIMLZ_PROBS)%nat -> bh = 0 \/ bh = 1 -> ((bl + 1) * 2 ^ n <= 512)%nat ->
  res_post (fun r => tables r.2) integrity (d_literal_bits n ecx bl bh edx d).
Proof.
  induction n as [|n IH]; intros bl bh edx d H Hi Hbh Hbl; cbn [d_literal_bits]; [done|]. rewrite Nat.pow_succ_r' in Hbl. pose proof (Nat.pow_nonzero 2 n ltac:(lia)).
  assert (bl <= 255)%nat by nia. destruct (land_256 (Z.land (bh * 256) (Z.shiftl edx 1))) as [Hl|Hl]; rewrite Hl.
  all: eapply res_post_bind; [apply d_bit_safe; [done|destruct Hbh as [->| ->]; lia]|]; intros [bit d1] Hd1; apply IH; try done; [destruct (Bool.eqb _ _); auto|unfold next_node; destruct bit; nia].
Qed.

(** The machine between two turns, with room for [size] bytes: a state that says the
    last turn copied has a distance that stays inside the output. *)
Record alive (size : Z) (s : machine) : Prop := {
  al_tables : tables (m_dec s);
  al_state : (m_state s <= 11)%nat;
  al_reps : exists r0 r1 r2 r3, m_reps s = [r0; r1; r2; r3] /\ Forall (fun r => 0 <= r) (m_reps s) /\ ((7 <= m_state s)%nat -> 1 <= r0 <= Z.of_nat (length (m_out s)));
  al_bytes : bytes_ok (m_out s);
  al_room : Z.of_nat (length (m_out s)) <= size;
}.

Definition grown (size : Z) (s s' : machine) : Prop := alive size s' /\ (length (m_out s) < length (m_out s'))%nat.

Lemma d_literal_safe size s d : alive size s -> tables d -> Z.of_nat (length (m_out s)) < size -> res_post (grown size s) integrity (d_literal s d).
Proof.
  intros [_ Hst (r0 & r1 & r2 & r3 & Hr & Hr0 & Hr7) Hby _] Hd Hsz. unfold d_literal. rewrite Hr. cbn [rd lookup list_lookup of_option rbind].
  eapply (res_post_bind (fun p => p.1 = 0 \/ p.1 = 1)).
  { destruct (Nat.leb_spec 7 (m_state s)) as [H7|H7]; [|by left]. specialize (Hr7 H7). rewrite (proj2 (Z.leb_le _ _)) by lia.
    eapply res_post_bind; [apply rd_post with (Q := fun _ => True); [lia|done]|]. intros b _. by right. }
  intros [bh edx] Hbh. cbn [fst] in Hbh. eapply res_post_bind; [apply d_literal_bits_safe; try done|].
  - assert (0 <= match last (m_out s) with Some b => b | None => 0 end < 256) as Hb.
    { destruct (last (m_out s)) as [b|] eqn:E; [|lia]. rewrite last_lookup in E. apply (Forall_lookup_1 _ _ _ _ Hby E). }
    rewrite Z.shiftr_div_pow2 by lia. set (b := match _ with Some b => b | None => 0 end) in *. assert (0 <= b / 2 ^ 6 <= 3) by (split; [apply Z.div_pos; lia|]; apply Z.lt_succ_r, Z.div_lt_upper_bound; lia).
    assert (Z.to_nat (b / 2 ^ 6) <= 3)%nat as Hq by lia. clearbody b. revert Hq. generalize (Z.to_nat (b / 2 ^ 6)). intros q Hq. unfold LIMLZ_LITERAL, LIMLZ_PROBS. lia.
  - intros [bl d1] Hd1. cbn [res_post]. split; [|cbn [m_out]; rewrite length_app; cbn [length]; lia].
    assert ((if (m_state s - 3 <? 7)%nat then (m_state s - 3)%nat else (m_state s - 3 - 3)%nat) < 7)%nat as Hs by (destruct (Nat.ltb_spec (m_state s - 3) 7); lia).
    split; cbn [m_dec m_state m_reps m_out]; try done; [lia| | |rewrite length_app; cbn [length]; lia].
    + exists r0, r1, r2, r3. rewrite Hr in Hr0. split_and!; try done. lia.
    + apply Forall_app. split; [done|]. constructor; [apply u8_byte|done].
Qed.

Lemma movsb_safe n : forall esi out, bytes_ok out -> (esi < length out)%nat -> res_post (fun o => bytes_ok o /\ length o = (length out + n)%nat) integrity (movsb n esi out).
Proof.
  induction n as [|n IH]; intros esi out Hb He; cbn [movsb]; [cbn; split; [done|lia]|]. destruct (lookup_lt_is_Some_2 out esi He) as [b E]. rewrite (rd_lookup _ _ _ E). cbn [rbind].
  eapply res_post_mono; [apply IH| |done].
  - apply Forall_app. split; [done|]. constructor; [by apply (Forall_lookup_1 _ _ _ _ Hb E)|done].
  - rewrite length_app. cbn [length]. lia.
  - intros o [H1 H2]. rewrite length_app in H2. cbn [length] in H2. split; [done|lia].
Qed.

Lemma d_copy_safe size n d st r0 r1 r2 r3 out : tables d -> (st <= 11)%nat -> Forall (fun r => 0 <= r) [r0; r1; r2; r3] -> bytes_ok out -> (1 <= n)%nat ->
  res_post (fun s' => alive size s' /\ (length out < length (m_out s'))%nat) integrity (d_copy size n (MkMachine d st [r0; r1; r2; r3] out)).
Proof.
  intros Hd Hst Hr Hb Hn. unfold d_copy. cbn [m_out m_reps rd lookup list_lookup of_option rbind m_dec m_state]. pose proof (Forall_inv Hr) as Hr0. cbn beta in Hr0.
  destruct (Z.ltb_spec (Z.of_nat (length out)) r0) as [|H1]; [done|]. destruct (Z.eqb_spec r0 0) as [|H2]; [done|]. cbn [orb].
  destruct (Z.ltb_spec (size - Z.of_nat (length out)) (Z.of_nat n)) as [|H3]; [done|].
  eapply (res_post_bind (fun o => bytes_ok o /\ length o = (length out + n)%nat)).
  - destruct (Z.eqb_spec r0 1) as [->|H4]; [|apply movsb_safe; [done|lia]]. destruct (lookup_lt_is_Some_2 out (length out - 1)) as [b E]; [lia|].
    rewrite (rd_lookup _ _ _ E). cbn. split; [|by rewrite length_app, length_replicate]. apply Forall_app. split; [done|]. apply Forall_replicate, (Forall_lookup_1 _ _ _ _ Hb E).
  - intros o [Ho Hl]. cbn [res_post m_out]. split; [|lia]. split; cbn [m_dec m_state m_reps m_out]; try done; [|lia]. exists r0, r1, r2, r3. split_and!; try done. lia.
Qed.

Ltac next_bit :=
  eapply res_post_bind; [apply d_bit_safe; [assumption|unfold LIMLZ_IS_REP, LIMLZ_REP_G0, LIMLZ_REP_G1, LIMLZ_REP_G2, LIMLZ_REP_LONG, LIMLZ_PROBS; lia]|];
  let b := fresh "b" in let d := fresh "d" in let H := fresh "Hd" in intros [b d] H; cbn [snd] in H; destruct b; cbn [negb].

Ltac next_length :=
  eapply res_post_bind; [apply d_length_safe; [assumption|apply Nat.leb_le; vm_compute; reflexivity]|];
  let l := fresh "l" in let d := fresh "d" in let H := fresh "Hd" in let Hl := fresh "Hl" in intros [l d] [H Hl]; cbn [fst snd] in H, Hl.

Lemma state_bits st : (st <= 11)%nat -> (Nat.lor (if (st <? 7)%nat then 0 else 3) 8 <= 11)%nat /\ (Nat.lor (if (st <? 7)%nat then 0 else 3) 9 <= 11)%nat /\ ((if (st <? 7)%nat then 0 else 3) + 7 <= 11)%nat.
Proof. intros H. destruct (st <? 7)%nat; cbn; lia. Qed.

Lemma d_match_safe size s d : alive size s -> tables d -> res_post (grown size s) integrity (d_match size s d).
Proof.
  intros [_ Hst (r0 & r1 & r2 & r3 & Hr & Hr0 & _) Hby _] Hd. unfold d_match, grown. rewrite Hr in *. cbn [rbind]. destruct (state_bits _ Hst) as (S1 & S2 & S3).
  rewrite !Forall_cons in Hr0. destruct Hr0 as (R0 & R1 & R2 & R3 & _). next_bit.
  - next_bit.
    + next_bit.
      * eapply (res_post_bind (fun p : list Z * decoder => tables p.2 /\ exists a b c e, p.1 = [a; b; c; e] /\ Forall (fun r => 0 <= r) p.1)).
        { next_bit; (split; [assumption|]; eexists _, _, _, _; split; [reflexivity|repeat constructor; assumption]). }
        intros [reps d4] [H4 (a & b & c & e & E & HF)]. cbn [fst snd] in *. subst reps. next_length. apply d_copy_safe; [assumption..|lia].
      * cbn [rbind]. next_length. apply d_copy_safe; [assumption|assumption|repeat constructor; assumption|assumption|lia].
    + next_bit; [next_length|]; (apply d_copy_safe; [assumption|assumption|repeat constructor; assumption|assumption|lia]).
  - next_length. eapply res_post_bind; [by apply d_distance_safe|]. intros [dist d2] [H2 H3]. cbn [fst snd] in H2, H3.
    apply d_copy_safe; [assumption|assumption|repeat constructor; assumption|assumption|lia].
Qed.

Lemma d_next_safe size s : alive size s -> Z.of_nat (length (m_out s)) < size -> res_post (grown size s) integrity (d_next size s).
Proof.
  intros Ha Hs. unfold d_next. pose proof (al_tables _ _ Ha) as Ht. pose proof (al_state _ _ Ha) as Hst. next_bit; [by apply d_match_safe|by apply d_literal_safe].
Qed.

Lemma d_loop_safe fuel size : forall s, alive size s -> size - Z.of_nat (length (m_out s)) <= Z.of_nat fuel ->
  res_post (fun s' => alive size s' /\ Z.of_nat (length (m_out s')) = size) integrity (d_loop fuel size s).
Proof.
  induction fuel as [|fuel IH]; intros s Ha Hf; cbn [d_loop]; pose proof (al_room _ _ Ha) as Hroom; (destruct (Z.eqb_spec (Z.of_nat (length (m_out s))) size) as [|Hne]; [done|]); [lia|].
  eapply res_post_bind; [apply d_next_safe; [done|lia]|]. intros s' [Ha' Hlt]. apply IH; [done|lia].
Qed.

Lemma read32_safe l p : bytes_ok l -> (p + 4 <= length l)%nat -> exists x, limlz_read32 l p = Ok x /\ 0 <= x < 2 ^ 32.
Proof.
  intros Hb Hp. destruct (lookup_lt_is_Some_2 l p) as [b0 E0]; [lia|]. destruct (lookup_lt_is_Some_2 l (p + 1)) as [b1 E1]; [lia|].
  destruct (lookup_lt_is_Some_2 l (p + 2)) as [b2 E2]; [lia|]. destruct (lookup_lt_is_Some_2 l (p + 3)) as [b3 E3]; [lia|].
  assert (has4 l p b0 b1 b2 b3) as H4 by done. destruct (has4_bytes _ _ _ _ _ _ H4 Hb) as (B0 & B1 & B2 & B3). exists (le32 b0 b1 b2 b3). split; [by apply read32_spec|].
  unfold le32, is_byte in *. lia.
Qed.

(** C10.  The decompressor is safe on any stream: whatever bytes are on the disk, it reads
    no byte outside the stream, no probability outside its table and no byte of the
    output that it has not written, writes nothing beyond the size the header gives,
    and ends, either with the integrity error or with an output of exactly that
    size, at most [CAPACITY], whose CRC is the one in the header. *)
Theorem decompress_safe stream : bytes_ok stream ->
  res_post (fun out => limlz_read32 stream 4 = Ok (Z.of_nat (length out)) /\ Z.of_nat (length out) <= CAPACITY /\
      limlz_read32 stream 0 = Ok (limlz_crc32 out) /\ bytes_ok out)
    integrity (decompress stream).
Proof.
  intros Hb. unfold decompress. destruct (Nat.ltb_spec (length stream) STREAM_MIN_SIZE) as [|Hlen]; [done|]. unfold STREAM_MIN_SIZE in *.
  destruct (lookup_lt_is_Some_2 stream 8) as [z Ez]; [lia|]. rewrite (rd_lookup _ _ _ Ez). cbn [rbind]. destruct (z =? 0); cbn [negb]; [|done].
  destruct (read32_safe stream 4 Hb ltac:(lia)) as (size & Hsize & Hs32). rewrite Hsize. cbn [rbind]. destruct (Z.ltb_spec CAPACITY size) as [|Hcap]; [done|].
  destruct (read32_safe stream 0 Hb ltac:(lia)) as (checksum & Hsum & _). rewrite Hsum. cbn [rbind].
  destruct (lookup_lt_is_Some_2 stream 9) as [b0 E0]; [lia|]. destruct (lookup_lt_is_Some_2 stream 10) as [b1 E1]; [lia|]. destruct (lookup_lt_is_Some_2 stream 11) as [b2 E2]; [lia|].
  destruct (lookup_lt_is_Some_2 stream 12) as [b3 E3]; [lia|]. rewrite (rd_lookup _ _ _ E0), (rd_lookup _ _ _ E1), (rd_lookup _ _ _ E2), (rd_lookup _ _ _ E3). cbn [rbind].
  eapply res_post_bind; [apply d_loop_safe|].
  - split; cbn [m_dec m_state m_reps m_out length]; [apply length_replicate|lia| |constructor|lia]. exists 1, 1, 1, 1. split_and!; [done|repeat constructor; lia|lia].
  - cbn [m_out length]. lia.
  - intros s [[Ht _ _ Hby _] Hl]. eapply res_post_bind; [by apply d_normalise_safe|]. intros d _. destruct (d_code d =? 0); cbn [negb]; [|done].
    destruct (length (d_source d) =? 0)%nat; cbn [negb]; [|done].
    destruct (d_bcj_safe (length (m_out s)) 0 (-5) 0 (m_out s) Hby) as (out & Hout & Ho & Hob); [lia|lia|apply hist_zero|lia|]. change (-5 + 1) with (-4) in Hout. rewrite Hout. cbn [rbind].
    destruct (Z.eqb_spec (limlz_crc32 out) checksum) as [<-|]; cbn [negb]; [|done]. cbn [res_post]. split_and!; try done; [by rewrite Ho, Hl|lia].
Qed.

Lemma decompress_safe_witness :
  res_post (fun out => limlz_read32 (replicate 12 0 ++ [1]) 4 = Ok (Z.of_nat (length out)) /\ Z.of_nat (length out) <= CAPACITY /\
      limlz_read32 (replicate 12 0 ++ [1]) 0 = Ok (limlz_crc32 out) /\ bytes_ok out)
    integrity (decompress (replicate 12 0 ++ [1])).
Proof. apply (decompress_safe (replicate 12 0 ++ [1])). repeat constructor; unfold is_byte; lia. Defined.

(** C3.  The decompressor in the boot sector recovers the stage 2 that [limlzpack]
    compressed: for any bytes that fit below the load address, and whatever [malloc]
    left in the working arrays, [compress] never leaves an array, always returns, and
    each stream it returns is decompressed to exactly the bytes it was given (the
    range coder with its carries, the choice of matches, the repeated distances, the
    x86 filter and the CRC included).  It returns a stream if the host has memory
    for it. *)
Theorem limlz_roundtrip realloc previous0 cost0 choices0 data :
  bytes_ok data -> Z.of_nat (length data) <= CAPACITY ->
  length previous0 = length data -> length cost0 = S (length data) -> length choices0 = length data ->
  (forall malloc, exists o, compress realloc malloc previous0 cost0 choices0 data = Ok o /\
     forall stream, o = Some stream -> decompress stream = Ok data) /\
  ((forall n, realloc n = true) ->
     exists stream, compress realloc true previous0 cost0 choices0 data = Ok (Some stream) /\ decompress stream = Ok data).
Proof.
  intros Hb Hs Hp Hc Hch. split.
  - intros [].
    + destruct (compress_run realloc previous0 cost0 choices0 data) as (out & es & _ & _ & _ & _ & (rc' & _ & E) & _); try done; try lia.
      eexists. split; [exact E|]. intros stream Hstream. rewrite Hstream in E. by apply (stream_back realloc previous0 cost0 choices0); try lia.
    + exists None. split; [|done]. unfold CAPACITY in Hs. unfold compress. change (SIZE_MAX / 8) with (2 ^ 61 - 1). rewrite (proj2 (Z.ltb_ge _ _)) by lia.
      destruct (bcj_roundtrip data Hb ltac:(lia)) as (out & -> & _). done.
  - intros Hre. destruct (stream_fits realloc previous0 cost0 choices0 data) as [stream E]; try done; try lia.
    exists stream. split; [done|]. by apply (stream_back realloc previous0 cost0 choices0); try lia.
Qed.

Lemma limlz_roundtrip_witness :
  let data := [0xe8; 1; 2; 0; 0; 0xe8; 1; 2; 0; 0] in
  exists stream, compress (fun _ => true) true (replicate 10 7%nat) (replicate 11 7) (replicate 10 (MkMatch 9 9)) data = Ok (Some stream) /\ decompress stream = Ok data.
Proof.
  apply (limlz_roundtrip (fun _ => true) (replicate 10 7%nat) (replicate 11 7) (replicate 10 (MkMatch 9 9)) [0xe8; 1; 2; 0; 0; 0xe8; 1; 2; 0; 0]);
    try reflexivity; [repeat constructor; unfold is_byte; lia|unfold CAPACITY; cbn; lia].
Defined.
